(* ===== verification/_CoqProject ===== *)
-Q . S2P
Prelude.v
Core.v
Metrics.v
Floats.v
Vocabulary.v
Record.v
Graph.v
GraphProofs.v
GraphTheorems.v
Bm25.v
Extract.v
Ccs.v
Activation.v
Wal.v
VectorStore.v
MetadataStore.v
AccessCounters.v
ScopeIndex.v
VisitedPool.v
PayloadIndex.v
Segments.v
SegmentSearch.v
TopOf.v
SegmentHolder.v
Optimizer.v
Engine.v
Recovery.v
Durability.v
CrashSafety.v
Steady.v
EngineTheorems.v
Searchable.v
Search.v
SearchTheorems.v
Isolation.v
Retention.v
RetentionTheorems.v
Belief.v
BeliefTheorems.v
EngineGraph.v
Gpu.v
GpuMirror.v
Numeric.v
Simd.v
Codes.v
Hadamard.v
Quant.v
QuantSearch.v
QuantTheorems.v
QuantExact.v
QuantScores.v
QuantBatch.v
QuantSafe.v
Config.v
SegmentFiles.v
SegmentFileTheorems.v
SegmentBuild.v
UsearchFiles.v
UsearchTheorems.v
TextIndex.v
SearchSlots.v
Consolidation.v
ConsolidationTheorems.v
ConsolidationRun.v
EngineText.v
ApiService.v
ApiServer.v
ApiRun.v
EngineApi.v
UpdateQueue.v
Background.v
PyConfig.v
PyEngine.v
PyRun.v
