(* ===== verification/Prelude.v ===== *)
(** * TurboSuperMemory: a verification development

    TurboSuperMemory is an embedded memory store: records (an id, a text, an
    embedding, concepts, an optional JSON payload and scope) are written to a vector
    file, a write-ahead log and a metadata database, indexed in memory, searched
    through tiered segments, and related to each other in a graph of memories and
    concepts. This library models the storage crate
    ([src/crates/turbomemory_storage]), the vector kernels and codecs it searches with
    ([turbomemory_core]), the graph crate ([turbomemory_graph]), the device crate
    ([turbomemory_gpu]), the server ([turbomemory_api]) and the Python class
    ([turbomemory_python]), and proves what they promise, first of all that the store never
    loses an acknowledged write and that a search never crosses a scope.

    ** The program and the files of the library

    The foundations:
    - [Prelude]: errors ([lib.rs] of both crates), [Result], the state-and-error
      monad [ST] in which effects before an error are kept, machine integers
      (wrapping, checked and saturating 64-bit arithmetic), byte encodings, positional
      file writes, sorting.
    - [Core]: [turbomemory_core/src/lib.rs]: validation, the two-pass norm,
      [normalize], [cmp_score_desc], on bit patterns of IEEE-754 binary32. [Floats]: the
      other operations on binary32 and binary64 the program uses.
    - [Metrics]: [metrics.rs]: the scalar kernels, and the batch cosine over any
      kernel (the class [Kernels]).

    The kernels and codecs ([turbomemory_core]), written over a class of numbers
    ([Numeric.Num]) with two instances, binary32 and the real numbers:
    - [Simd]: [metrics.rs]: the AVX2, SSE, NEON and portable kernels and the choice among
      them; cosine and MaxSim.
    - [Codes]: bit packing of [turbo_quant.rs]. [Hadamard]: [fwht] and the random rotation
      of [lib.rs].
    - [Quant]: the codecs of [quantization.rs], [turbo_quant.rs] and [rabitq.rs].
      [QuantSearch]: the encoded queries of [quantized_search.rs], [turbo_quant.rs] and
      [rabitq.rs], and the batch kernels of [metrics_quantized.rs].
    - [QuantTheorems], [QuantExact], [QuantScores], [QuantBatch], [QuantSafe]: no code;
      their theorems.

    The storage crate:
    - [Record]: [record.rs], and the classes [Crc32], [Bincode] that stand for the
      crates crc32fast and bincode, with their laws and an instance of each.
    - [Wal]: [wal.rs], byte by byte: header, both frame formats, append and its
      rollback, the replay iterator, truncation, clearing.
    - [VectorStore]: [vector_store.rs], byte by byte: header, growth, put, recover,
      flush, open.
    - [MetadataStore]: [metadata_store.rs]: the cache with its dirty sets over the
      redb tables. [AccessCounters]: [access_counters.rs].
    - [ScopeIndex], [PayloadIndex], [VisitedPool]: the files of the same names.
      [TextIndex]: [text_index.rs], by one thread and as a step relation over several.
    - [Segments]: [segments/mod.rs] and [segments/hot.rs]: selection, exact scans,
      merging of candidate lists. [SegmentSearch]: the searches of the segments
      ([usearch_index.rs], [warm.rs], [cold.rs]) and of a snapshot of them
      ([segment_holder.rs]). [SegmentHolder]: [segment_holder.rs]: the tiers,
      sealing, snapshots, compaction, promotion. [Optimizer]: [optimizer.rs]: the
      build budget, sealing and merging; [Background]: the thread that runs them.
    - [SegmentFiles]: [mmap_array.rs], [warm.rs] and [cold.rs] on disk: building, writing,
      opening and searching a segment directory, system call by system call.
      [UsearchFiles]: [usearch_index.rs] and [sealed_hot.rs], around the native index.
      [SearchSlots]: the semaphore of [usearch_index.rs] over its search contexts.
    - [Config]: [config.rs]: every parameter, its default, the scaling by dimension, and
      what each component reads of it.
    - [Engine]: [engine/mod.rs] (state and lookups), [engine/write.rs] and
      [update_worker.rs]: every write, in the order of the code. [EngineApi]: the shorter
      forms of the writes, the partial flushes, the decision on the device mirror.
      [UpdateQueue]: the threads around [update_worker.rs], as a step relation.
    - [Recovery]: [StorageEngine::open] and [flush] of [engine/mod.rs].
    - [TopOf], [Search]: [engine/search.rs]: the selection of the best records, the
      exact, approximate and device searches, the batch, the cognitive search.
    - [Retention]: [engine/retention.rs]: eviction, gists, deduplication, importance.
    - [Belief]: [engine/belief.rs]: detection of refinements and contradictions, commits,
      resolution.
    - [Consolidation]: [trigger_consolidation], [step_session] and [shutdown] of
      [engine/mod.rs]: one cycle of all the above, in order.
    - [EngineGraph], [ConsolidationRun], [EngineText]: the graph crate and the text index
      as instances of the interfaces the engine is proved against.
    - [Durability], [CrashSafety], [EngineTheorems], [Searchable], [SearchTheorems],
      [Isolation], [RetentionTheorems], [BeliefTheorems], [ConsolidationTheorems],
      [SegmentFileTheorems], [SegmentBuild], [UsearchTheorems]: no code; invariants and
      theorems.

    The graph and device crates:
    - [Graph] ([graph.rs]) with [GraphProofs] and [GraphTheorems]; [Vocabulary] and
      [Extract] ([extract.rs]); [Bm25] ([bm25.rs]); [Ccs] ([ccs.rs]); [Activation]
      ([activation.rs]).
    - [Gpu]: the trait, the validation and the host backend of [turbomemory_gpu/lib.rs];
      [GpuMirror]: [gpu_exact.rs]: the mirror of the vectors on a device and the queue of
      searches that share it.

    The server ([turbomemory_api]):
    - [ApiService]: [service.rs]: errors and their status, the bearer token, the checks of a
      batch, the conversion of filters. [ApiServer]: [rest.rs] and [grpc.rs]: every handler
      of both transports over the engine. [ApiRun]: requests to a running server.

    The Python class ([turbomemory_python/lib.rs]):
    - [PyConfig]: exceptions, the arrays and lists accepted, quantizer specifiers, the
      constructor's arguments. [PyEngine]: the handle, the methods over the engine, the two
      callables, [close]. [PyRun]: a session.

    A write of the engine puts the vector in the mapped file, appends the operation
    to the log, and hands the record to the update worker, which updates the
    metadata cache, the id, payload and scope indexes, the text index, the graph and
    the hot segment. A full hot segment is sealed and built by the optimizer. [flush]
    stamps the vector file, commits a metadata snapshot and truncates the log; [open]
    replays the log over the last snapshot and rebuilds the indexes. A search restricts
    itself to the offsets its scope and filter allow, scans them exactly (on the
    processor or on the device) or collects candidates from a snapshot of the segments
    and rescores them, and drops what the graph holds superseded.

    ** How state, errors and failures are modelled

    A component is a record and its operations are functions on it; a fallible one
    returns [Result]. The outcome of a system call (resizing or mapping a file, how
    many bytes of a log frame were written, whether a sync or a commit succeeded) is
    an argument of the operation ([GrowIo], [AppendIo], [WriteIo], [FlushIo],
    [OpenIo]), and an operation that fails keeps what it did before. Every state in
    which a process can be killed is therefore the result of a run whose next system
    call fails, and a kill is modelled by opening the files of such a state
    ([CrashSafety.disk_of]): pages written to a mapped file survive a killed process.
    Loss of power, which may lose unsynced pages, is modelled for segment directories
    ([SegmentBuild]); for the store's own files only in that the vectors a replay finds
    missing are dropped by their checksum as the code does.
    The write lock and the flush barrier make writes and flushes atomic with respect
    to each other; the window inside [seal_hot], which searches do see, is modelled
    step by step, and the device queue and the update queue are step relations over
    interleaved threads. The background thread interleaves at whole steps of its loop.
    An index out of range, a failed assertion and a read outside a slice are [None]
    where the code panics or is undefined.

    Third-party code appears as classes: [Crc32], [Bincode] (with [BincodeOk]: decoding
    what was encoded gives it back and leaves the rest; [BincodeTagged]: an encoding is
    not empty; [BincodeTotal]: encoding succeeds), [SerdeJson], [JsonSyntax], [CcsJson],
    [BinaryHeap], [SelectNth], [Unicode], [Libm], [HashIter] and [RecordIter] (the order of
    hash maps), [RandCrate] (the draws of a seed), [Json] (segment manifests),
    [Crc32Hasher], [Usearch] (the native index) and [Tantivy]. To the engine the text index
    is [TextOps] and [SearchText], of which nothing is assumed but, for reopening, that its
    calls succeed ([TextTotal]); [EngineText] discharges them from [TextIndex].
    Interfaces between the program's own parts are classes too, proved against by the
    clients and discharged by the parts: [Kernels], [GraphOps], [SearchGraph],
    [RetentionGraph], [BeliefGraph] with [BeliefGraphOk], [LearningGraph] (instances in
    [EngineGraph] and [ConsolidationRun]),
    [GpuBackend] with [GpuBackendOk] (the host backend in [Gpu]), [GpuExact], [Quantizer].
    Every theorem that uses them has a witness at concrete instances.

    Floating point: what is stored and compared is computed on binary32 bit patterns, with
    the order and the rounding of the code. What a kernel or codec computes is stated over
    the real numbers, through the same definitions at another instance of [Num].

    ** The theorems

    - Engine ([EngineTheorems]): over every history of inserts, batches, updates,
      deletes, failed writes, flushes with any outcome, accesses, kills and reopens,
      the engine refines a finite map from ids to records ([reads_refine_store]); the
      map survives a kill ([acknowledged_writes_survive]); a killed write happened or
      did not, a killed batch happened up to some record ([killed_write_atomic]); a
      flush loses nothing wherever it dies ([killed_flush_safe]).
    - Search: a search returns only records of its scope and global ones
      ([scoped_search_isolated], [cognitive_search_isolated]) and never a superseded
      one when told so ([superseded_hidden]); the exact path is the head of the full
      ranking ([exact_search_ranking]); every search ends ([search_answers]); every stored
      record is in a segment that is searched ([stored_searchable]); the device's
      scores are those of each search's own query, and none waits forever
      ([gpu_scores_exact], [scores_answered]).
    - Retention and belief revision: what an eviction takes and leaves
      ([evict_refines], [evict_plan_spec]), which duplicates are merged
      ([dedup_plan_safe]), what is proposed and committed ([proposals_sound],
      [commit_by_id_spec]), and what a whole consolidation does to the store
      ([consolidation_keeps]).
    - Threads: each call to the update worker is applied whole, once, in one order, or not
      at all ([submits_atomic]); without the policies that remove records, the background
      thread keeps every record stored and visible ([background_keeps]).
    - Log ([wal_*]): it implements a list of operations; a torn tail, a failed append
      and an old format lose nothing that was acknowledged. Vector and metadata stores:
      functional behaviour, round trips through flush and open, failed system calls,
      and the invariant of the cache.
    - Indexes: the scope, payload and visited sets agree with the sets they stand for.
    - Segment directories: one that is built is all there or does not open, wherever the
      process or the power dies ([build_all_or_nothing], [sealed_all_or_nothing]); damage is
      noticed ([sealed_open_checked]); an opened file is searched as the segment it holds
      ([file_search_refines]); the search contexts suffice and every search gets one
      ([contexts_suffice], [every_search_ends]). The text index finds exactly the live
      matching documents ([text_search_exact]), except for a race ([lost_write]).
    - Segments: exact search returns the best, the two merges agree, a record that was
      inserted stays visible through sealing, building, merging and failures, and the
      optimizer's loops terminate.
    - Graph: its invariant over all histories, the belief walks, snapshots
      ([graph_invariant], [belief_head_spec], [snapshot_roundtrip]), the bounded expansion,
      the counts of the lexical index, the merge of concepts, the session memory.
    - Kernels and codecs: every instruction set computes the plain sums
      ([kernels_exact]); codecs never panic on what they accept ([codecs_well_typed]);
      the TurboQuant code is the nearest ([mse_encode_optimal]); a score from tables is
      the product with the decoded vector, alone and in a block
      ([score_is_decoded_product], [batch_scores_exact]); no kernel reads out of bounds
      ([kernels_safe]).
    - Server: both transports answer a request alike ([transports_agree]); filters come
      through either encoding ([filter_encodings_agree]); nothing passes without the key
      ([only_the_key_passes]). Python: a method does what the HTTP route does
      ([python_agrees]), closing is final and loses nothing ([close_safe]), the arguments
      make a configuration within its bounds ([arguments_configure]), specifiers are read
      exactly ([quantizer_specs]).
    - The behaviours that differ from what the code or its documentation intends
      ([capped_pass_skips], [seal_hot_window], [inverted_range_panics],
      [small_query_ties], ...).

    ** Bounds and fuel

    Integers are [N] with the wrap-around written out; offsets and sequence numbers
    must stay below 2^64 - 1 ([CrashSafety.room]). The optimizer's loops take an outcome
    list as fuel, one entry per build: [drain_terminates] gives the number that is enough.
    The widening searches double their width at most 65 times ([search_answers]), the
    native index widens four times as in the code, an upload takes at most one round per
    vector. The log iterator, the merges, the kernels' loops ([strides]) and the
    transform recurse with fuel that their own lemmas show to be sufficient (one per byte
    left, per candidate, per component).

    ** What is not modelled

    The CUDA backend (device I/O), the insides of Tantivy and of the native index library
    (classes), the server's periodic flush, logging and memory statistics, the server's
    routing, decoding and process (axum, tonic, serde, [main.rs]), and of the Python class
    what PyO3 and numpy do, the interpreter lock and the two getters about the device. In
    the gather kernel of the inner-product codec the table indices are 32-bit; the model
    takes them below 2^31. *)

From Stdlib Require Export NArith Strings.Byte Ascii.
From Stdlib Require Import DecimalString DecimalN.
From stdpp Require Export base gmap strings list list_numbers sets fin_maps.
From stdpp Require Export sorting.

(** Machine integers are [N]; list positions are obtained from them with
    [N.to_nat], so [lia] sees both. *)
#[global] Open Scope N_scope.

Declare Scope turbo_scope.
Delimit Scope turbo_scope with turbo.

(** ** Errors and fallible computations *)

(** [crates/turbomemory_core/src/lib.rs], [TurboError]. *)
Inductive TurboError :=
  | TDimensionMismatch (expected got : N)
  | ZeroNorm
  | NonFinite
  | TInvalidArgument (msg : string)
  | QuantizationError (msg : string).

(** [crates/turbomemory_storage/src/lib.rs], [StorageError]. The payloads of
    the wrapped library errors (redb, io, bincode) are not inspected by the
    code and are left out. *)
Inductive StorageError :=
  | Core (e : TurboError)
  | Redb
  | RedbStorage
  | RedbCommit
  | Io
  | Serialize
  | DuplicateId (id : string)
  | NotFound (id : string)
  | DimensionMismatch
  | InvalidArgument (msg : string)
  | IndexError (msg : string)
  | Corrupted (msg : string).

#[global] Instance TurboError_eq_dec : EqDecision TurboError.
Proof. solve_decision. Defined.
#[global] Instance StorageError_eq_dec : EqDecision StorageError.
Proof. solve_decision. Defined.

(** Rust's [Result]. *)
Inductive Result (E A : Type) :=
  | Ok (a : A)
  | Err (e : E).
Arguments Ok {E A} a.
Arguments Err {E A} e.

#[global] Instance Result_eq_dec `{EqDecision E, EqDecision A} :
  EqDecision (Result E A).
Proof. solve_decision. Defined.

#[global] Instance Result_ret {E} : MRet (Result E) := @Ok E.
#[global] Instance Result_bind {E} : MBind (Result E) :=
  fun A B (f : A -> Result E B) (r : Result E A) =>
    match r with Ok a => f a | Err e => Err e end.
#[global] Instance Result_fmap {E} : FMap (Result E) :=
  fun A B (f : A -> B) (r : Result E A) =>
    match r with Ok a => Ok (f a) | Err e => Err e end.

Definition is_ok {E A} (r : Result E A) : bool :=
  match r with Ok _ => true | Err _ => false end.

Definition map_err {E F A} (f : E -> F) (r : Result E A) : Result F A :=
  match r with Ok a => Ok a | Err e => Err (f e) end.

Definition ok_or {E A} (o : option A) (e : E) : Result E A :=
  match o with Some a => Ok a | None => Err e end.

(** The [?] operator over a component state that keeps what was mutated before
    the error. *)
Definition ST (S A : Type) : Type := S -> S * Result StorageError A.

Definition st_ret {S A} (a : A) : ST S A := fun s => (s, Ok a).
Definition st_err {S A} (e : StorageError) : ST S A := fun s => (s, Err e).
Definition st_bind {S A B} (m : ST S A) (f : A -> ST S B) : ST S B :=
  fun s => match m s with
           | (s', Ok a) => f a s'
           | (s', Err e) => (s', Err e)
           end.
Definition st_modify {S} (f : S -> S) : ST S unit := fun s => (f s, Ok tt).
Definition st_gets {S A} (f : S -> A) : ST S A := fun s => (s, Ok (f s)).
Definition st_lift {S A} (r : Result StorageError A) : ST S A := fun s => (s, r).

Notation "'let!' x ':=' m 'in' k" := (st_bind m (fun x => k))
  (at level 10, x pattern, m at level 100, k at level 200,
   format "'[v' 'let!'  x  ':='  m  'in' '/' k ']'") : turbo_scope.
Notation "m ';!' k" := (st_bind m (fun _ => k))
  (at level 100, right associativity) : turbo_scope.

Fixpoint st_iter {S A} (f : A -> ST S unit) (l : list A) : ST S unit :=
  match l with
  | [] => st_ret tt
  | a :: l => st_bind (f a) (fun _ => st_iter f l)
  end.

Lemma st_bind_ok {S A B} (m : ST S A) (f : A -> ST S B) s s' b :
  st_bind m f s = (s', Ok b) ->
  exists s1 a, m s = (s1, Ok a) /\ f a s1 = (s', Ok b).
Proof.
  unfold st_bind. destruct (m s) as [s1 [a|e]] eqn:E; intros H; [eauto|congruence].
Qed.

(** ** Machine integers *)

Definition U32 : N := 2 ^ 32.
Definition U64 : N := 2 ^ 64.
Definition u64_max : N := U64 - 1.

(** [a as u32] on an unsigned value. *)
Definition as_u32 (a : N) : N := a mod U32.
(** Release-profile [+] on [u64]/[usize]: wraps. *)
Definition wadd64 (a b : N) : N := (a + b) mod U64.
Definition saturating_mul (a b : N) : N := N.min (a * b) u64_max.
Definition saturating_add (a b : N) : N := N.min (a + b) u64_max.
(** [saturating_sub] is [N]'s truncated subtraction. *)
Definition saturating_sub (a b : N) : N := a - b.
Definition checked_mul (a b : N) : option N :=
  if a * b <? U64 then Some (a * b) else None.
Definition checked_add (a b : N) : option N :=
  if a + b <? U64 then Some (a + b) else None.

Lemma as_u32_small o : o < U32 -> as_u32 o = o.
Proof. apply N.mod_small. Qed.
Lemma checked_mul_Some a b c : checked_mul a b = Some c -> c = a * b /\ c < U64.
Proof. unfold checked_mul. destruct (N.ltb_spec (a * b) U64); naive_solver. Qed.
Lemma checked_add_Some a b c : checked_add a b = Some c -> c = a + b /\ c < U64.
Proof. unfold checked_add. destruct (N.ltb_spec (a + b) U64); naive_solver. Qed.

(** ** Bytes and their integer encodings *)

#[global] Instance byte_eq_dec : EqDecision byte := Byte.byte_eq_dec.

Definition byte_of_N (n : N) : byte := default x00 (Byte.of_N (n mod 256)).

Lemma to_N_byte_of_N n : Byte.to_N (byte_of_N n) = n mod 256.
Proof.
  unfold byte_of_N. destruct (Byte.of_N (n mod 256)) as [b|] eqn:E; simpl.
  - by apply Byte.to_of_N.
  - apply Byte.of_N_None_iff in E. pose proof (N.mod_lt n 256). lia.
Qed.

Lemma byte_of_N_to_N b : byte_of_N (Byte.to_N b) = b.
Proof.
  unfold byte_of_N. pose proof (Byte.to_N_bounded b).
  rewrite N.mod_small by lia. by rewrite Byte.of_to_N.
Qed.

(** Big-endian, [k] bytes. *)
Fixpoint be_bytes (k : nat) (n : N) : list byte :=
  match k with
  | O => []
  | S k => be_bytes k (n / 256) ++ [byte_of_N n]
  end.

Definition of_be (bs : list byte) : N :=
  foldl (fun acc b => acc * 256 + Byte.to_N b) 0 bs.

Lemma length_be_bytes k n : length (be_bytes k n) = k.
Proof.
  revert n. induction k; intros n; simpl; [done|].
  rewrite length_app, IHk. simpl. lia.
Qed.

Lemma of_be_snoc bs b : of_be (bs ++ [b]) = of_be bs * 256 + Byte.to_N b.
Proof. unfold of_be. by rewrite foldl_app. Qed.

Lemma of_be_be_bytes k n : of_be (be_bytes k n) = n mod 256 ^ N.of_nat k.
Proof.
  revert n. induction k as [|k IH]; intros n; simpl be_bytes.
  - simpl. by rewrite N.mod_1_r.
  - rewrite of_be_snoc, IH, to_N_byte_of_N, Nat2N.inj_succ, N.pow_succ_r'.
    rewrite N.Div0.mod_mul_r. lia.
Qed.

Lemma of_be_bound bs : of_be bs < 256 ^ N.of_nat (length bs).
Proof.
  induction bs as [|b bs IH] using rev_ind; [done|].
  rewrite of_be_snoc, length_app. simpl.
  replace (N.of_nat (length bs + 1)) with (N.succ (N.of_nat (length bs))) by lia.
  rewrite N.pow_succ_r'. pose proof (Byte.to_N_bounded b). lia.
Qed.

Lemma be_bytes_of_be bs : be_bytes (length bs) (of_be bs) = bs.
Proof.
  induction bs as [|b bs IH] using rev_ind; [done|].
  rewrite length_app, Nat.add_1_r. simpl. rewrite of_be_snoc.
  pose proof (Byte.to_N_bounded b).
  replace ((of_be bs * 256 + Byte.to_N b) / 256) with (of_be bs)
    by (apply N.div_unique with (Byte.to_N b); lia).
  rewrite IH. f_equal. f_equal.
  rewrite <- (byte_of_N_to_N b) at 2. unfold byte_of_N.
  by rewrite N.add_comm, N.Div0.mod_add.
Qed.

(** [write_u32::<BigEndian>] / [read_u32::<BigEndian>]. *)
Definition u32_be (n : N) : list byte := be_bytes 4 n.

Lemma of_be_u32 n : n < U32 -> of_be (u32_be n) = n.
Proof. intros H. unfold u32_be. rewrite of_be_be_bytes. apply N.mod_small. exact H. Qed.

(** [to_ne_bytes]: the order depends on the platform. *)
Inductive Endian := LittleEndian | BigEndian.

Definition to_ne_bytes (e : Endian) (k : nat) (n : N) : list byte :=
  match e with BigEndian => be_bytes k n | LittleEndian => reverse (be_bytes k n) end.
Definition from_ne_bytes (e : Endian) (bs : list byte) : N :=
  match e with BigEndian => of_be bs | LittleEndian => of_be (reverse bs) end.

Lemma length_to_ne_bytes e k n : length (to_ne_bytes e k n) = k.
Proof. destruct e; simpl; [rewrite length_reverse|]; apply length_be_bytes. Qed.

Lemma from_to_ne_bytes e k n :
  n < 256 ^ N.of_nat k -> from_ne_bytes e (to_ne_bytes e k n) = n.
Proof.
  intros H. destruct e; simpl; [rewrite reverse_involutive|];
    rewrite of_be_be_bytes; by apply N.mod_small.
Qed.

Lemma to_from_ne_bytes e k bs :
  length bs = k -> to_ne_bytes e k (from_ne_bytes e bs) = bs.
Proof.
  intros <-. destruct e; simpl; [|apply be_bytes_of_be].
  rewrite <- length_reverse, be_bytes_of_be. apply reverse_involutive.
Qed.

Lemma from_ne_bytes_bound e bs : from_ne_bytes e bs < 256 ^ N.of_nat (length bs).
Proof.
  destruct e; simpl; [rewrite <- length_reverse|]; apply of_be_bound.
Qed.

(** ** Buffers: lists addressed with machine integers *)

Definition len {A} (l : list A) : N := N.of_nat (length l).

(** The [n] elements from [start]. *)
Definition slice {A} (start n : N) (l : list A) : list A :=
  take (N.to_nat n) (drop (N.to_nat start) l).

(** [buf.get(start..stop)]: [None] when the range does not lie in the buffer. *)
Definition get_range {A} (start stop : N) (l : list A) : option (list A) :=
  if (start <=? stop) && (stop <=? len l) then Some (slice start (stop - start) l)
  else None.

(** Overwrite [bs] at [start], keeping the rest (and filling a gap with [z],
    as a file write past the end does). *)
Definition splice {A} (z : A) (start : N) (bs l : list A) : list A :=
  take (N.to_nat start) l ++ replicate (N.to_nat (start - len l)) z ++ bs
    ++ drop (N.to_nat start + length bs) l.

(** [file.set_len(n)]: truncate, or extend with zero bytes. *)
Definition set_len {A} (z : A) (n : N) (l : list A) : list A :=
  take (N.to_nat n) l ++ replicate (N.to_nat (n - len l)) z.

Lemma len_nil {A} : len (@nil A) = 0. Proof. done. Qed.
Lemma len_cons {A} (a : A) l : len (a :: l) = 1 + len l.
Proof. unfold len. simpl. lia. Qed.
Lemma len_app {A} (l1 l2 : list A) : len (l1 ++ l2) = len l1 + len l2.
Proof. unfold len. rewrite length_app. lia. Qed.

Lemma len_set_len {A} (z : A) n l : len (set_len z n l) = n.
Proof.
  unfold set_len, len. rewrite length_app, length_take, length_replicate. lia.
Qed.

Lemma set_len_shorter {A} (z : A) n (l : list A) :
  n <= len l -> set_len z n l = take (N.to_nat n) l.
Proof.
  unfold set_len, len. intros H.
  replace (N.to_nat (n - N.of_nat (length l))) with 0%nat by lia.
  simpl. apply app_nil_r.
Qed.

Lemma set_len_app {A} (z : A) (l1 l2 : list A) : set_len z (len l1) (l1 ++ l2) = l1.
Proof.
  rewrite set_len_shorter by (rewrite len_app; lia).
  unfold len. rewrite Nat2N.id. apply take_app_length.
Qed.

Lemma len_splice {A} (z : A) start bs l :
  start + len bs <= len l -> len (splice z start bs l) = len l.
Proof.
  unfold splice, len. intros H.
  rewrite !length_app, length_take, length_replicate, length_drop. lia.
Qed.

Lemma splice_end {A} (z : A) bs l : splice z (len l) bs l = l ++ bs.
Proof.
  unfold splice, len. rewrite N.sub_diag, Nat2N.id. simpl.
  rewrite take_ge, drop_ge by lia. by rewrite app_nil_r.
Qed.

Lemma len_slice {A} start n (l : list A) : start + n <= len l -> len (slice start n l) = n.
Proof. unfold slice, len. intros H. rewrite length_take, length_drop. lia. Qed.

Lemma slice_splice_same {A} (z : A) start bs l :
  start + len bs <= len l -> slice start (len bs) (splice z start bs l) = bs.
Proof.
  unfold slice, splice, len. intros H.
  replace (N.to_nat (start - N.of_nat (length l))) with 0%nat by lia. simpl.
  rewrite drop_app_length' by (rewrite length_take; lia).
  rewrite Nat2N.id. apply take_app_length.
Qed.

Lemma slice_splice_disjoint {A} (z : A) start bs s n l :
  start + len bs <= len l ->
  s + n <= start \/ start + len bs <= s ->
  slice s n (splice z start bs l) = slice s n l.
Proof.
  unfold slice, splice, len. intros H Hd.
  replace (N.to_nat (start - N.of_nat (length l))) with 0%nat by lia. simpl.
  destruct Hd as [Hd|Hd].
  - rewrite drop_app_le by (rewrite length_take; lia).
    rewrite take_app_le by (rewrite length_drop, length_take; lia).
    rewrite skipn_firstn_comm, take_take. f_equal. lia.
  - rewrite drop_app_ge by (rewrite length_take; lia).
    rewrite length_take, drop_app_ge by lia.
    rewrite drop_drop. do 2 f_equal. lia.
Qed.

Lemma get_range_Some {A} start stop (l : list A) bs :
  get_range start stop l = Some bs ->
  start <= stop /\ stop <= len l /\ bs = slice start (stop - start) l.
Proof.
  unfold get_range. destruct (N.leb_spec start stop), (N.leb_spec stop (len l));
    naive_solver.
Qed.

Lemma get_range_in {A} start stop (l : list A) :
  start <= stop -> stop <= len l ->
  get_range start stop l = Some (slice start (stop - start) l).
Proof. intros. unfold get_range. by rewrite (proj2 (N.leb_le _ _)), (proj2 (N.leb_le _ _)). Qed.

(** ** Decimal text of unsigned integers ([to_string] / [parse::<u64>]) *)

Definition u64_to_string (n : N) : string := NilZero.string_of_uint (N.to_uint n).

(** [parse] accepts one leading plus sign. *)
Definition strip_plus (s : string) : string :=
  match s with
  | String c t => if Ascii.eqb c "+"%char then t else s
  | EmptyString => s
  end.

Definition parse_u64 (s : string) : option N :=
  d ← NilZero.uint_of_string (strip_plus s);
  let n := N.of_uint d in
  if n <? U64 then Some n else None.

Lemma to_uint_nonnil n : N.to_uint n <> Decimal.Nil.
Proof.
  intros H. pose proof (f_equal N.of_uint H) as H'.
  rewrite DecimalN.Unsigned.of_to in H'. simpl in H'. subst n. discriminate H.
Qed.

Lemma parse_u64_to_string n : n < U64 -> parse_u64 (u64_to_string n) = Some n.
Proof.
  intros Hn. unfold parse_u64, u64_to_string.
  assert (Hd : forall d, d <> Decimal.Nil ->
    strip_plus (NilZero.string_of_uint d) = NilZero.string_of_uint d)
    by (intros []; done).
  rewrite Hd by apply to_uint_nonnil.
  rewrite NilZero.usu by apply to_uint_nonnil. simpl.
  rewrite DecimalN.Unsigned.of_to.
  by rewrite (proj2 (N.ltb_lt _ _) Hn).
Qed.

(** ** More on slices *)

Lemma map_fmap {A B} (f : A -> B) l : map f l = f <$> l.
Proof. done. Qed.
Lemma slice_all {A} (l : list A) n : n = len l -> slice 0 n l = l.
Proof. intros ->. unfold slice, len. rewrite Nat2N.id. by apply take_ge. Qed.

Lemma slice_here {A} k n (l1 l2 : list A) :
  len l1 = k -> n = k -> slice 0 n (l1 ++ l2) = l1.
Proof.
  unfold slice, len. intros <- ->. rewrite Nat2N.id. simpl. apply take_app_length.
Qed.

Lemma slice_skip {A} k s s' n (l1 l2 : list A) :
  len l1 = k -> s = k + s' -> slice s n (l1 ++ l2) = slice s' n l2.
Proof.
  unfold slice, len. intros <- ->. f_equal.
  rewrite drop_app_ge by lia. f_equal. lia.
Qed.

Lemma slice_app_l {A} s n (l1 l2 : list A) :
  s + n <= len l1 -> slice s n (l1 ++ l2) = slice s n l1.
Proof.
  unfold slice, len. intros Hl. rewrite drop_app_le by lia.
  apply take_app_le. rewrite length_drop. lia.
Qed.

Lemma slice_take {A} s n m (l : list A) :
  s + n <= m -> slice s n (take (N.to_nat m) l) = slice s n l.
Proof.
  unfold slice. intros Hl. rewrite skipn_firstn_comm, take_take. f_equal. lia.
Qed.

Lemma slice_set_len {A} (z : A) s n m l :
  s + n <= m -> s + n <= len l -> slice s n (set_len z m l) = slice s n l.
Proof.
  intros H1 H2. unfold set_len. rewrite slice_app_l.
  - by apply slice_take.
  - unfold len in *. rewrite length_take. lia.
Qed.

Lemma len_to_ne_bytes e k n : len (to_ne_bytes e k n) = N.of_nat k.
Proof. unfold len. by rewrite length_to_ne_bytes. Qed.

(** ** Filters *)

Lemma filter_none {A} (P : A -> Prop) `{!forall x, Decision (P x)} (l : list A) :
  (forall x, x ∈ l -> ~ P x) -> filter P l = [].
Proof.
  induction l as [|x l IH]; intros Hl; [done|].
  rewrite filter_cons_False by (apply Hl; set_solver). apply IH. set_solver.
Qed.

Lemma filter_all {A} (P : A -> Prop) `{!forall x, Decision (P x)} (l : list A) :
  (forall x, x ∈ l -> P x) -> filter P l = l.
Proof.
  induction l as [|x l IH]; intros Hl; [done|].
  rewrite filter_cons_True by (apply Hl; set_solver). f_equal. apply IH. set_solver.
Qed.

(** ** [sort_by]: a stable sort *)

Section sort_by.
Context {A : Type} (R : A -> A -> Prop) `{!forall x y, Decision (R x y)}.

(** [R x y]: [x] may stay before [y]. *)
Fixpoint sort_insert (x : A) (l : list A) : list A :=
  match l with
  | [] => [x]
  | y :: l' => if decide (R x y) then x :: l else y :: sort_insert x l'
  end.
Definition sort_by (l : list A) : list A := foldr sort_insert [] l.

Lemma sort_insert_perm x l : sort_insert x l ≡ₚ x :: l.
Proof.
  induction l as [|y l IH]; simpl; [done|]. case_decide; [done|]. rewrite IH. constructor.
Qed.
Lemma sort_by_perm l : sort_by l ≡ₚ l.
Proof. induction l as [|x l IH]; simpl; [done|]. by rewrite sort_insert_perm, IH. Qed.

Context `{!Transitive R, !Total R}.

Lemma sort_insert_sorted x l : StronglySorted R l -> StronglySorted R (sort_insert x l).
Proof.
  induction 1 as [|y l Hl IH Hy]; simpl; [by repeat constructor|].
  case_decide as Hxy.
  - constructor; [by constructor|]. constructor; [done|].
    eapply Forall_impl; [exact Hy|]. simpl. intros z Hz. by etrans.
  - constructor; [done|]. rewrite sort_insert_perm. constructor; [|done].
    by destruct (total R x y).
Qed.
Lemma sort_by_sorted l : StronglySorted R (sort_by l).
Proof. induction l as [|x l IH]; simpl; [constructor|by apply sort_insert_sorted]. Qed.

(** Sorting keeps an already sorted list. *)
Lemma sort_by_id l : StronglySorted R l -> sort_by l = l.
Proof.
  induction 1 as [|x l Hl IH Hx]; simpl; [done|]. rewrite IH.
  destruct Hx; simpl; [done|]. by case_decide.
Qed.

End sort_by.

(** The prefix of a sorted list dominates the rest. *)
Lemma sorted_take_drop {A} (R : A -> A -> Prop) n (l : list A) x y :
  StronglySorted R l -> x ∈ take n l -> y ∈ drop n l -> R x y.
Proof.
  intros Hs. rewrite <- (take_drop n l) in Hs. apply StronglySorted_app in Hs as (H & _). by apply H.
Qed.

(** ** Inserting a list of entries *)

Lemma foldl_insert_Some `{Countable K} {A V} (k : A -> K) (v : A -> V) (l : list A)
    (m : gmap K V) i x :
  NoDup (k <$> l) ->
  (foldl (fun m a => <[k a := v a]> m) m l) !! i = Some x <->
  (exists a, a ∈ l /\ k a = i /\ v a = x) \/ ((i ∉ k <$> l) /\ m !! i = Some x).
Proof.
  revert m. induction l as [|a l IH]; intros m; simpl.
  { intros _. set_solver. }
  intros [Hn Hnd]%NoDup_cons. rewrite IH by done. rewrite lookup_insert_Some.
  setoid_rewrite elem_of_cons. split.
  - intros [(b & ? & ? & ?)|(? & [[<- <-]|[? ?]])]; [left; eauto|left; eauto|right].
    split; [|done]. intros [->|?]; [done|done].
  - intros [(b & [->|?] & <- & <-)|(Hni & ?)]; [right; eauto|left; eauto|right].
    split; [naive_solver|]. right. split; [|done]. intros <-. apply Hni. by left.
Qed.

(** ** Strings *)

(** The order of [String] (bytewise). *)
Definition string_le (a b : string) : Prop := String.leb a b = true.

#[global] Instance string_le_dec a b : Decision (string_le a b).
Proof. unfold string_le. apply _. Defined.
