(* ===== verification/Core.v ===== *)
(** * The vector primitives of [crates/turbomemory_core/src/lib.rs]

    [f32] values are their IEEE-754 bit patterns (as [to_bits] gives them), so
    NaN payloads, signed zeros and stored bytes are kept. Arithmetic goes
    through the executable [SpecFloat] operations at binary32. The file holds
    the input validation, [normalize], and the score comparator every
    "best first" sort of the program uses. *)

From S2P Require Import Prelude.
From Stdlib Require Import ZArith SpecFloat.

(** ** binary32 *)

Abbreviation f32 := N (only parsing).

Definition f32_sign (b : f32) : bool := 2 ^ 31 <=? b.
Definition f32_mag (b : f32) : N := b mod 2 ^ 31.
Definition f32_expo (b : f32) : N := f32_mag b / 2 ^ 23.
Definition f32_frac (b : f32) : N := b mod 2 ^ 23.

Definition is_nan (b : f32) : bool := (f32_expo b =? 255) && negb (f32_frac b =? 0).
Definition is_finite (b : f32) : bool := negb (f32_expo b =? 255).
Definition is_normal (b : f32) : bool :=
  negb (f32_expo b =? 255) && negb (f32_expo b =? 0).
(** [x == 0.0]: both zeros. *)
Definition is_zero (b : f32) : bool := f32_mag b =? 0.
Definition f32_abs (b : f32) : f32 := f32_mag b.

Definition f32_zero : f32 := 0.
Definition f32_one : f32 := 127 * 2 ^ 23.
Definition f32_nan : f32 := 255 * 2 ^ 23 + 2 ^ 22.

Definition to_sf (b : f32) : spec_float :=
  let s := f32_sign b in
  match f32_expo b, f32_frac b with
  | 0, 0 => S754_zero s
  | 0, Npos m => S754_finite s m (-149)
  | 255, 0 => S754_infinity s
  | 255, Npos _ => S754_nan
  | e, f => S754_finite s (N.succ_pos (f + 2 ^ 23 - 1)) (Z.of_N e - 150)
  end.

Definition of_sf (x : spec_float) : f32 :=
  let sgn (s : bool) := if s then 2 ^ 31 else 0 in
  match x with
  | S754_zero s => sgn s
  | S754_infinity s => sgn s + 255 * 2 ^ 23
  | S754_nan => f32_nan
  | S754_finite s m e =>
      if Npos m <? 2 ^ 23 then sgn s + Npos m
      else sgn s + Z.to_N (e + 150) * 2 ^ 23 + (Npos m - 2 ^ 23)
  end.

Definition f32_add (a b : f32) : f32 := of_sf (SFadd 24 128 (to_sf a) (to_sf b)).
Definition f32_sub (a b : f32) : f32 := of_sf (SFsub 24 128 (to_sf a) (to_sf b)).
Definition f32_mul (a b : f32) : f32 := of_sf (SFmul 24 128 (to_sf a) (to_sf b)).
Definition f32_div (a b : f32) : f32 := of_sf (SFdiv 24 128 (to_sf a) (to_sf b)).
Definition f32_sqrt (a : f32) : f32 := of_sf (SFsqrt 24 128 (to_sf a)).

(** The integer [f32::total_cmp] compares by. *)
Definition total_key (b : f32) : Z :=
  if f32_sign b then (- Z.of_N (f32_mag b) - 1)%Z else Z.of_N (f32_mag b).
Definition total_cmp (a b : f32) : comparison := Z.compare (total_key a) (total_key b).

(** The ordered value of a non-NaN float: [-0.0] and [0.0] coincide. *)
Definition real_key (b : f32) : Z :=
  if f32_sign b then (- Z.of_N (f32_mag b))%Z else Z.of_N (f32_mag b).
Definition f32_gtb (a b : f32) : bool :=
  negb (is_nan a) && negb (is_nan b) && (real_key b <? real_key a)%Z.
Definition f32_ltb (a b : f32) : bool := f32_gtb b a.
Definition f32_geb (a b : f32) : bool :=
  negb (is_nan a) && negb (is_nan b) && (real_key b <=? real_key a)%Z.
Definition f32_eqb (a b : f32) : bool :=
  negb (is_nan a) && negb (is_nan b) && (real_key a =? real_key b)%Z.
(** [f32::max]: a NaN operand is ignored. *)
Definition f32_max (a b : f32) : f32 :=
  if is_nan a then b else if is_nan b then a else if f32_ltb a b then b else a.
(** [f32::clamp] for a well-formed range: a NaN stays a NaN. *)
Definition f32_clamp (x lo hi : f32) : f32 :=
  if f32_ltb x lo then lo else if f32_gtb x hi then hi else x.

(** ** Validation *)

Definition validate_dimension (vec : list f32) (dim : N) : Result TurboError unit :=
  if negb (len vec =? dim) then Err (TDimensionMismatch dim (len vec)) else Ok tt.

Definition validate_finite (vec : list f32) : Result TurboError unit :=
  if forallb is_finite vec then Ok tt else Err NonFinite.

Definition validate_query (vec : list f32) (dim : N) : Result TurboError unit :=
  _ ← validate_dimension vec dim; validate_finite vec.

(** ** [normalize] *)

(** The first loop: reject a non-finite component, track the largest magnitude. *)
Fixpoint max_abs_loop (v : list f32) (max_abs : f32) : Result TurboError f32 :=
  match v with
  | [] => Ok max_abs
  | x :: v =>
      if negb (is_finite x) then Err NonFinite
      else max_abs_loop v (f32_max max_abs (f32_abs x))
  end.

(** [Iterator::sum] over [f32] starts from [-0.0], the neutral element. *)
Definition f32_neg_zero : f32 := 0x80000000.
Definition f32_sum (v : list f32) : f32 := foldl f32_add f32_neg_zero v.

Definition l2_norm (v : list f32) : f32 :=
  f32_sqrt (f32_sum (map (fun x => f32_mul x x) v)).

Definition normalize (v : list f32) : Result TurboError (list f32) :=
  max_abs ← max_abs_loop v f32_zero;
  if f32_eqb max_abs f32_zero then Err ZeroNorm
  else
    let norm := l2_norm v in
    if is_normal norm then Ok (map (fun x => f32_div x norm) v)
    else
      let norm := f32_sqrt (f32_sum
        (map (fun x => let s := f32_div x max_abs in f32_mul s s) v)) in
      Ok (map (fun x => f32_div (f32_div x max_abs) norm) v).

(** ** [cmp_score_desc] *)

Definition cmp_score_desc (a b : f32) : comparison :=
  match is_nan a, is_nan b with
  | false, false => total_cmp b a
  | true, true => Eq
  | true, false => Gt
  | false, true => Lt
  end.

(** The comparator ranks by this key, highest first; [None] (NaN) comes last. *)
Definition score_key (a : f32) : option Z := if is_nan a then None else Some (total_key a).

Definition key_desc (a b : option Z) : comparison :=
  match a, b with
  | Some x, Some y => Z.compare y x
  | None, None => Eq
  | None, Some _ => Gt
  | Some _, None => Lt
  end.

Lemma cmp_score_desc_key a b : cmp_score_desc a b = key_desc (score_key a) (score_key b).
Proof. unfold cmp_score_desc, score_key. by destruct (is_nan a), (is_nan b). Qed.

Definition score_le (a b : f32) : Prop := cmp_score_desc a b <> Gt.

#[global] Instance score_le_dec a b : Decision (score_le a b).
Proof. unfold score_le. apply _. Defined.

#[global] Instance score_le_refl : Reflexive score_le.
Proof.
  intros a. unfold score_le. rewrite cmp_score_desc_key.
  destruct (score_key a); simpl; [|done]. by rewrite Z.compare_refl.
Qed.

#[global] Instance score_le_trans : Transitive score_le.
Proof.
  intros a b c. unfold score_le. rewrite !cmp_score_desc_key.
  destruct (score_key a), (score_key b), (score_key c); simpl; try done.
  rewrite !Z.compare_le_iff || idtac. intros H1 H2 H3.
  apply Z.compare_gt_iff in H3.
  apply Z.compare_ngt_iff in H1. apply Z.compare_ngt_iff in H2. lia.
Qed.

#[global] Instance score_le_total : Total score_le.
Proof.
  intros a b. unfold score_le. rewrite !cmp_score_desc_key.
  destruct (score_key a) as [x|], (score_key b) as [y|]; simpl; auto.
  destruct (Z.compare_spec x y), (Z.compare_spec y x); first [lia | by left | by right].
Qed.

Lemma cmp_score_desc_antisym a b : cmp_score_desc b a = CompOpp (cmp_score_desc a b).
Proof.
  rewrite !cmp_score_desc_key.
  destruct (score_key a), (score_key b); simpl; try done.
  by rewrite Z.compare_antisym.
Qed.

(** ** Lemmas on [normalize] *)

Lemma max_abs_loop_nonfinite v m :
  max_abs_loop v m = Err NonFinite <-> forallb is_finite v = false.
Proof.
  revert m. induction v as [|x v IH]; intros m; simpl; [done|].
  destruct (is_finite x); simpl; [apply IH|done].
Qed.

Lemma max_abs_loop_err v m e : max_abs_loop v m = Err e -> e = NonFinite.
Proof.
  revert m. induction v as [|x v IH]; intros m; simpl; [done|].
  destruct (is_finite x); simpl; [apply IH|congruence].
Qed.

Lemma f32_mag_lt b : f32_mag b < 2 ^ 31.
Proof. apply N.mod_lt. lia. Qed.

Lemma f32_abs_sign x : f32_sign (f32_abs x) = false.
Proof. unfold f32_sign, f32_abs. pose proof (f32_mag_lt x). by apply N.leb_gt. Qed.

Lemma f32_mag_abs x : f32_mag (f32_abs x) = f32_mag x.
Proof. unfold f32_abs, f32_mag. apply N.Div0.mod_mod. Qed.

Lemma f32_frac_mag x : f32_frac x = f32_mag x mod 2 ^ 23.
Proof.
  unfold f32_frac, f32_mag. change (2 ^ 31) with (2 ^ 23 * 2 ^ 8).
  rewrite N.Div0.mod_mul_r, N.mul_comm, N.Div0.mod_add. symmetry. apply N.Div0.mod_mod.
Qed.

Lemma finite_not_nan x : is_finite x = true -> is_nan x = false.
Proof. unfold is_finite, is_nan. by destruct (f32_expo x =? 255). Qed.

Lemma is_nan_abs x : is_nan (f32_abs x) = is_nan x.
Proof. unfold is_nan, f32_expo. by rewrite !f32_frac_mag, !f32_mag_abs. Qed.

(** The running maximum of a finite vector is the plain maximum of the
    magnitudes. *)
Lemma max_abs_loop_finite v m :
  forallb is_finite v = true -> is_nan m = false -> f32_sign m = false ->
  exists r, max_abs_loop v m = Ok r /\ is_nan r = false /\ f32_sign r = false /\
    (f32_mag m <= f32_mag r) /\ Forall (fun x => f32_mag x <= f32_mag r) v /\
    (r = m \/ exists x, x ∈ v /\ r = f32_abs x).
Proof.
  revert m. induction v as [|x v IH]; intros m Hf Hn Hs; simpl.
  - exists m. split_and!; auto; lia.
  - simpl in Hf. apply andb_prop in Hf as [Hx Hf]. rewrite Hx. simpl.
    assert (Hnx := is_nan_abs x). rewrite (finite_not_nan x Hx) in Hnx.
    pose (m' := f32_max m (f32_abs x)). change (f32_max m (f32_abs x)) with m'.
    assert (Hm' : (m' = m /\ f32_mag x <= f32_mag m) \/
                  (m' = f32_abs x /\ f32_mag m <= f32_mag x)).
    { unfold m', f32_max, f32_ltb, f32_gtb, real_key.
      rewrite Hn, Hnx, Hs, f32_abs_sign, f32_mag_abs. simpl.
      destruct (Z.ltb_spec (Z.of_N (f32_mag m)) (Z.of_N (f32_mag x))); [right|left];
        (split; [done|lia]). }
    clearbody m'.
    destruct (IH m') as (r & Hr & Hnr & Hsr & Hge & Hall & Hor); auto.
    { by destruct Hm' as [[-> _]|[-> _]]. }
    { destruct Hm' as [[-> _]|[-> _]]; [done|apply f32_abs_sign]. }
    assert (f32_mag m <= f32_mag m' /\ f32_mag x <= f32_mag m') as [??].
    { destruct Hm' as [[-> ?]|[-> ?]]; rewrite ?f32_mag_abs; lia. }
    exists r. repeat split; auto; [lia| |].
    + constructor; [lia|done].
    + destruct Hor as [->|(y & Hy & ->)]; [|right; exists y; set_solver].
      destruct Hm' as [[-> _]|[-> _]]; [by left|right; exists x; set_solver].
Qed.

(** ** Theorems *)

Lemma normalize_cases (v : list f32) :
  (normalize v = Err NonFinite <-> forallb is_finite v = false) /\
  (normalize v = Err ZeroNorm <->
     forallb is_finite v = true /\ forallb is_zero v = true) /\
  (forallb is_finite v = true -> forallb is_zero v = false ->
     exists w, normalize v = Ok w /\ length w = length v).
Proof.
  unfold normalize. destruct (forallb is_finite v) eqn:Hf.
  - destruct (max_abs_loop_finite v f32_zero Hf eq_refl eq_refl)
      as (r & Hr & Hn & Hs & _ & Hall & Hor).
    rewrite Hr. simpl.
    assert (Hz : f32_eqb r f32_zero = forallb is_zero v).
    { unfold f32_eqb, real_key. rewrite Hn, Hs. simpl.
      destruct (forallb is_zero v) eqn:Hzv.
      - apply Z.eqb_eq. destruct Hor as [->|(y & Hy & ->)]; [done|].
        rewrite f32_mag_abs. rewrite forallb_forall in Hzv.
        apply list_elem_of_In, Hzv in Hy. apply N.eqb_eq in Hy. by rewrite Hy.
      - apply Z.eqb_neq. intros H0. apply not_true_iff_false in Hzv. apply Hzv.
        apply forallb_forall. intros x Hx. rewrite <- list_elem_of_In in Hx.
        rewrite Forall_forall in Hall. specialize (Hall x Hx).
        unfold is_zero. apply N.eqb_eq. change (f32_mag f32_zero) with 0 in *. lia. }
    rewrite Hz. destruct (forallb is_zero v); [naive_solver|].
    case_match; (repeat split; try naive_solver);
      intros; eexists; (split; [done|apply length_map]).
  - assert (Hr : max_abs_loop v f32_zero = Err NonFinite)
      by by apply max_abs_loop_nonfinite.
    rewrite Hr. simpl. naive_solver.
Qed.

(** [normalize] refuses exactly the vectors with a NaN or infinite component
    ([NonFinite]) and the finite vectors whose components are all zero
    ([ZeroNorm]); every other vector is accepted and keeps its dimension. *)
Theorem normalize_branches (v : list f32) :
  (normalize v = Err NonFinite <-> forallb is_finite v = false) /\
  (normalize v = Err ZeroNorm <->
     forallb is_finite v = true /\ forallb is_zero v = true) /\
  (forallb is_finite v = true -> forallb is_zero v = false ->
     exists w, normalize v = Ok w /\ length w = length v).
Proof. apply normalize_cases. Qed.

(** [cmp_score_desc] is a total order on scores up to equal ranks: comparing in
    the other direction gives the opposite answer, it is transitive, and a NaN
    never sorts before a number. *)
Theorem cmp_score_desc_total_order (a b c : f32) :
  cmp_score_desc b a = CompOpp (cmp_score_desc a b) /\
  (cmp_score_desc a b <> Gt -> cmp_score_desc b c <> Gt -> cmp_score_desc a c <> Gt) /\
  (is_nan a = true -> is_nan b = false -> cmp_score_desc a b = Gt) /\
  (is_nan a = false -> is_nan b = false -> (cmp_score_desc a b = Eq <-> total_key a = total_key b)).
Proof.
  split_and!.
  - apply cmp_score_desc_antisym.
  - apply score_le_trans.
  - unfold cmp_score_desc. by intros -> ->.
  - unfold cmp_score_desc, total_cmp. intros -> ->. rewrite Z.compare_eq_iff. naive_solver.
Qed.

(** ** Results are 32-bit patterns *)

Lemma shr_1_m r : (0 <= shr_m r)%Z -> shr_m (shr_1 r) = (shr_m r / 2)%Z.
Proof.
  destruct r as [[|[p|p|]|p] b c]; simpl; intros H; try lia; try done.
  - rewrite (Pos2Z.inj_xI p). apply (Z.div_unique _ _ _ 1%Z); lia.
  - rewrite (Pos2Z.inj_xO p), Z.mul_comm, Z.div_mul by lia. done.
Qed.

Lemma shr_1_neg r : (shr_m r <= 0)%Z -> (shr_m (shr_1 r) <= 0)%Z.
Proof. destruct r as [[|[p|p|]|[p|p|]] b c]; simpl; lia. Qed.

Lemma iter_shr_neg n r : (shr_m r <= 0)%Z -> (shr_m (SpecFloat.iter_pos shr_1 n r) <= 0)%Z.
Proof. revert r. induction n as [n IH|n IH|]; simpl; intros r H; auto using shr_1_neg. Qed.

Lemma iter_shr_m n r :
  (0 <= shr_m r)%Z -> shr_m (SpecFloat.iter_pos shr_1 n r) = (shr_m r / 2 ^ Zpos n)%Z.
Proof.
  revert r. induction n as [n IH|n IH|]; simpl SpecFloat.iter_pos; intros r H.
  - assert (H1 : (0 <= shr_m (shr_1 r))%Z) by (rewrite shr_1_m by done; apply Z.div_pos; lia).
    assert (H2 : (0 <= shr_m (SpecFloat.iter_pos shr_1 n (shr_1 r)))%Z)
      by (rewrite IH by done; apply Z.div_pos; lia).
    rewrite (IH _ H2), (IH _ H1), (shr_1_m _ H), !Z.div_div by lia. f_equal.
    rewrite (Pos2Z.inj_xI n), <- (Z.add_diag (Zpos n)), (Z.pow_add_r 2 _ 1), Z.pow_add_r by lia.
    change (2 ^ 1)%Z with 2%Z. ring.
  - assert (H2 : (0 <= shr_m (SpecFloat.iter_pos shr_1 n r))%Z)
      by (rewrite IH by done; apply Z.div_pos; lia).
    rewrite (IH _ H2), (IH _ H), !Z.div_div by lia. f_equal.
    by rewrite (Pos2Z.inj_xO n), <- (Z.add_diag (Zpos n)), Z.pow_add_r by lia.
  - by rewrite shr_1_m.
Qed.

Lemma Zdigits2_lt m : (m < 2 ^ Zdigits2 m)%Z.
Proof.
  destruct m as [|p|p]; simpl; [lia| |].
  - assert (Hp : (Zpos p < 2 ^ Zpos (digits2_pos p))%Z); [|done].
    induction p as [p IH|p IH|]; simpl digits2_pos; [| |done];
      rewrite Pos2Z.inj_succ, Z.pow_succ_r by lia; lia.
  - pose proof (Z.pow_nonneg 2 (Zpos (digits2_pos p))). lia.
Qed.

Lemma shr_fexp_bound m e l r e' :
  shr_fexp 24 128 m e l = (r, e') -> (shr_m r < 2 ^ 24)%Z.
Proof.
  unfold shr_fexp, shr. set (mrs := shr_record_of_loc m l).
  assert (Hm : shr_m mrs = m) by (unfold mrs; by destruct l as [|[]]).
  assert (Hk : (Zdigits2 m - 24 <= fexp 24 128 (Zdigits2 m + e) - e)%Z)
    by (unfold fexp; lia).
  set (n := (fexp 24 128 (Zdigits2 m + e) - e)%Z) in *. clearbody n mrs.
  pose proof (Zdigits2_lt m) as Hd.
  destruct n as [|p|p]; intros [= <- _].
  1,3: rewrite Hm; eapply Z.lt_le_trans; [exact Hd|]; apply Z.pow_le_mono_r; lia.
  destruct (Z.le_gt_cases 0 m) as [Hp|Hn].
  - rewrite iter_shr_m, Hm by lia. apply Z.div_lt_upper_bound; [lia|].
    eapply Z.lt_le_trans; [exact Hd|]. rewrite <- Z.pow_add_r by lia. apply Z.pow_le_mono_r; lia.
  - eapply Z.le_lt_trans; [apply iter_shr_neg; lia|]. done.
Qed.

Lemma of_sf_round_bound sx mx ex lx : of_sf (binary_round_aux 24 128 sx mx ex lx) < 2 ^ 32.
Proof.
  unfold binary_round_aux.
  destruct (shr_fexp 24 128 mx ex lx) as [r1 e1].
  destruct (shr_fexp 24 128 _ _ loc_Exact) as [r2 e2] eqn:H2. apply shr_fexp_bound in H2.
  destruct (shr_m r2) as [|m|m]; [by destruct sx| |done].
  destruct (Z.leb_spec e2 (128 - 24)); [|by destruct sx].
  unfold of_sf. destruct (N.ltb_spec (Npos m) (2 ^ 23)); destruct sx; lia.
Qed.

Lemma f32_div_bound a b : f32_div a b < 2 ^ 32.
Proof.
  unfold f32_div, SFdiv. destruct (to_sf a) as [s|s| |s m e], (to_sf b) as [t|t| |t n f];
    try (by destruct s; try destruct t); try done; try (by destruct t).
  destruct (SFdiv_core_binary _ _ _ _ _ _) as [[mz ez] lz]. apply of_sf_round_bound.
Qed.

Lemma normalize_bits v w : normalize v = Ok w -> Forall (fun x => x < U32) w.
Proof.
  unfold normalize. destruct (max_abs_loop v f32_zero) as [m|]; [simpl|done].
  destruct (f32_eqb m f32_zero); [done|].
  destruct (is_normal _); intros [= <-]; apply Forall_map, Forall_true; intros x; apply f32_div_bound.
Qed.

Lemma normalize_len v w : normalize v = Ok w -> len w = len v.
Proof.
  unfold normalize. destruct (max_abs_loop v f32_zero) as [m|]; [simpl|done].
  destruct (f32_eqb m f32_zero); [done|].
  destruct (is_normal _); intros [= <-]; unfold len; by rewrite length_map.
Qed.
