(* ===== verification/Metrics.v ===== *)
(** * Similarity, [crates/turbomemory_core/src/metrics.rs]

    The batched cosine similarity every search goes through. The dot-product
    kernels are selected at run time (AVX2, SSE, NEON or scalar) and differ in the
    order of their additions, so they are an interface here, with the scalar code
    as the instance; the theorems hold for any of them. *)

From S2P Require Import Prelude Core.

(** ** Kernels *)

(** [dot_product], [dot_and_nb_x4] and [dot_and_norms] after dispatch. *)
Class Kernels := {
  dot_product : list f32 -> list f32 -> f32;
  dot_and_nb_x4 : list f32 -> list f32 -> list f32 -> list f32 -> list f32 ->
    (f32 * f32) * (f32 * f32) * (f32 * f32) * (f32 * f32);
  dot_and_norms : list f32 -> list f32 -> f32 * f32 * f32;
}.

Definition dot_product_scalar (a b : list f32) : f32 :=
  f32_sum (zip_with f32_mul a b).

Definition l2_distance_sq_scalar (a b : list f32) : f32 :=
  f32_sum (zip_with (fun x y => let d := f32_sub x y in f32_mul d d) a b).

(** One lane of [dot_and_nb_x4_scalar]: two accumulators. *)
Definition dot_and_nb_scalar (q v : list f32) : f32 * f32 :=
  foldl (fun '(d, n) '(x, y) => (f32_add d (f32_mul x y), f32_add n (f32_mul y y)))
    (f32_zero, f32_zero) (zip q v).

Definition dot_and_nb_x4_scalar (q v0 v1 v2 v3 : list f32) :
    (f32 * f32) * (f32 * f32) * (f32 * f32) * (f32 * f32) :=
  (dot_and_nb_scalar q v0, dot_and_nb_scalar q v1, dot_and_nb_scalar q v2, dot_and_nb_scalar q v3).

Definition dot_and_norms_scalar (a b : list f32) : f32 * f32 * f32 :=
  foldl (fun '(d, na, nb) '(x, y) =>
           (f32_add d (f32_mul x y), f32_add na (f32_mul x x), f32_add nb (f32_mul y y)))
    (f32_zero, f32_zero, f32_zero) (zip a b).

Definition scalar_kernels : Kernels :=
  {| dot_product := dot_product_scalar; dot_and_nb_x4 := dot_and_nb_x4_scalar;
     dot_and_norms := dot_and_norms_scalar |}.

(** ** Cosine *)

Definition f32_neg_one : f32 := 0xBF800000.

Definition finalize_cosine (dot norm_sq_a norm_sq_b : f32) : f32 :=
  let denom := f32_sqrt (f32_mul norm_sq_a norm_sq_b) in
  if f32_eqb denom f32_zero then f32_zero
  else f32_clamp (f32_div dot denom) f32_neg_one f32_one.

Section cosine.
Context {K : Kernels}.

Definition cosine_similarity (a b : list f32) : f32 :=
  let '(dot, na, nb) := dot_and_norms a b in finalize_cosine dot na nb.
Definition cosine_distance (a b : list f32) : f32 := f32_sub f32_one (cosine_similarity a b).

(** The blocks of four, then the remainder ([as_chunks::<4>]). *)
Fixpoint cosine_loop (query : list f32) (na : f32) (vectors : list (list f32)) : list f32 :=
  match vectors with
  | v0 :: v1 :: v2 :: v3 :: rest =>
      let '((d0, n0), (d1, n1), (d2, n2), (d3, n3)) := dot_and_nb_x4 query v0 v1 v2 v3 in
      finalize_cosine d0 na n0 :: finalize_cosine d1 na n1
        :: finalize_cosine d2 na n2 :: finalize_cosine d3 na n3
        :: cosine_loop query na rest
  | remainder =>
      map (fun v => finalize_cosine (dot_product query v) na (dot_product v v)) remainder
  end.

Definition cosine_similarity_batch (query : list f32) (vectors : list (list f32)) : list f32 :=
  match vectors with
  | [] => []
  | _ => cosine_loop query (dot_product query query) vectors
  end.

(** A score is in [[-1, 1]] or a NaN. *)
Definition score_in_range (s : f32) : bool :=
  is_nan s || (f32_geb s f32_neg_one && f32_geb f32_one s).

Lemma finalize_cosine_range d a b : score_in_range (finalize_cosine d a b) = true.
Proof.
  unfold finalize_cosine. destruct (f32_eqb _ _); [reflexivity|].
  unfold f32_clamp. set (x := f32_div _ _). clearbody x. unfold score_in_range.
  destruct (f32_ltb x f32_neg_one) eqn:H1; [reflexivity|].
  destruct (f32_gtb x f32_one) eqn:H2; [reflexivity|].
  unfold f32_ltb, f32_gtb, f32_geb in *. destruct (is_nan x); [done|].
  change (is_nan f32_neg_one) with false in *. change (is_nan f32_one) with false in *.
  simpl negb in *. simpl andb in *. simpl orb. rewrite andb_true_iff, !Z.leb_le.
  rewrite !Z.ltb_ge in *. lia.
Qed.

Lemma cosine_similarity_range a b : score_in_range (cosine_similarity a b) = true.
Proof. unfold cosine_similarity. destruct (dot_and_norms a b) as [[d na] nb]. apply finalize_cosine_range. Qed.

Lemma list_ind4 {A} (P : list A -> Prop) :
  (forall l, (length l < 4)%nat -> P l) ->
  (forall a b c d l, P l -> P (a :: b :: c :: d :: l)) -> forall l, P l.
Proof.
  intros H0 H4. fix IH 1. intros [|a [|b [|c [|d l]]]]; try (apply H0; simpl; lia).
  apply H4, IH.
Qed.

Lemma cosine_loop_length q na vs : length (cosine_loop q na vs) = length vs.
Proof.
  induction vs as [l Hl|a b c d l IH] using list_ind4.
  - destruct l as [|a [|b [|c [|d l]]]]; simpl in *; try done; lia.
  - simpl. destruct (dot_and_nb_x4 q a b c d) as [[[[? ?] [? ?]] [? ?]] [? ?]]. simpl. by rewrite IH.
Qed.

Lemma cosine_loop_range q na vs :
  Forall (fun s => score_in_range s = true) (cosine_loop q na vs).
Proof.
  induction vs as [l Hl|a b c d l IH] using list_ind4.
  - destruct l as [|a [|b [|c [|d l]]]]; simpl in *; try lia;
      repeat (constructor; [apply finalize_cosine_range|]); constructor.
  - simpl. destruct (dot_and_nb_x4 q a b c d) as [[[[? ?] [? ?]] [? ?]] [? ?]].
    repeat (constructor; [apply finalize_cosine_range|]). done.
Qed.

Lemma cosine_batch_length q vs : length (cosine_similarity_batch q vs) = length vs.
Proof. destruct vs; [done|]. apply cosine_loop_length. Qed.

Lemma cosine_range_all q vs :
  length (cosine_similarity_batch q vs) = length vs /\
  forall s, s ∈ cosine_similarity_batch q vs -> score_in_range s = true.
Proof.
  split; [apply cosine_batch_length|].
  apply Forall_forall. destruct vs; [constructor|]. apply cosine_loop_range.
Qed.

(** ** Theorem *)

(** whatever kernel is selected, the batch returns one score per vector, in
    order, and every score is in [[-1, 1]] or a NaN. *)
Theorem cosine_batch_scores q vs :
  length (cosine_similarity_batch q vs) = length vs /\
  (forall s, s ∈ cosine_similarity_batch q vs -> score_in_range s = true).
Proof. apply cosine_range_all. Qed.

End cosine.

(** The vectors [(1, 0)] and [(0, 1)] against [(1, 0)]. *)
Example cosine_basis :
  @cosine_similarity_batch scalar_kernels [f32_one; 0] [[f32_one; 0]; [0; f32_one]] = [f32_one; 0].
Proof. vm_compute. reflexivity. Qed.
