(* ===== verification/Floats.v ===== *)
(** * More floating-point operations

    What the graph, the retention policies and the rankings use beyond [Core]:
    conversions between integers, [f32] and [f64], [f32::min], and binary64 on its
    bit patterns. Arithmetic is that of [SpecFloat]. The transcendental functions of
    the standard library have unspecified precision and are a class, [Libm]. *)

From S2P Require Import Prelude Core.
From Stdlib Require Import ZArith SpecFloat.

(** ** binary32 *)

(** [n as f32]. *)
Definition f32_of_N (n : N) : f32 := of_sf (binary_normalize 24 128 (Z.of_N n) 0 false).

(** [f32::min]: a NaN operand is ignored. *)
Definition f32_min (a b : f32) : f32 :=
  if is_nan a then b else if is_nan b then a else if f32_ltb b a then b else a.

(** [x as usize]: truncation, saturating, NaN to zero. *)
Definition sf_to_N (x : spec_float) : N :=
  match x with
  | S754_infinity false => u64_max
  | S754_finite false m e =>
      N.min (Z.to_N (if (0 <=? e)%Z then Z.pos m * 2 ^ e else Z.pos m / 2 ^ (- e))%Z) u64_max
  | _ => 0
  end.
Definition f32_to_usize (b : f32) : N := sf_to_N (to_sf b).

Definition f32_half : f32 := 0x3F000000.
Definition f32_inf : f32 := 255 * 2 ^ 23.

(** ** binary64 *)

Abbreviation f64 := N (only parsing).

Definition f64_sign (b : f64) : bool := 2 ^ 63 <=? b.
Definition f64_mag (b : f64) : N := b mod 2 ^ 63.
Definition f64_expo (b : f64) : N := f64_mag b / 2 ^ 52.
Definition f64_frac (b : f64) : N := b mod 2 ^ 52.
Definition f64_is_nan (b : f64) : bool := (f64_expo b =? 2047) && negb (f64_frac b =? 0).
Definition f64_zero : f64 := 0.
Definition f64_one : f64 := 1023 * 2 ^ 52.
Definition f64_half : f64 := 1022 * 2 ^ 52.
Definition f64_two : f64 := 1024 * 2 ^ 52.

Definition to_sf64 (b : f64) : spec_float :=
  let s := f64_sign b in
  match f64_expo b, f64_frac b with
  | 0, 0 => S754_zero s
  | 0, Npos m => S754_finite s m (-1074)
  | 2047, 0 => S754_infinity s
  | 2047, Npos _ => S754_nan
  | e, f => S754_finite s (N.succ_pos (f + 2 ^ 52 - 1)) (Z.of_N e - 1075)
  end.

Definition of_sf64 (x : spec_float) : f64 :=
  let sgn (s : bool) := if s then 2 ^ 63 else 0 in
  match x with
  | S754_zero s => sgn s
  | S754_infinity s => sgn s + 2047 * 2 ^ 52
  | S754_nan => 2047 * 2 ^ 52 + 2 ^ 51
  | S754_finite s m e =>
      if Npos m <? 2 ^ 52 then sgn s + Npos m
      else sgn s + Z.to_N (e + 1075) * 2 ^ 52 + (Npos m - 2 ^ 52)
  end.

Definition f64_add (a b : f64) : f64 := of_sf64 (SFadd 53 1024 (to_sf64 a) (to_sf64 b)).
Definition f64_sub (a b : f64) : f64 := of_sf64 (SFsub 53 1024 (to_sf64 a) (to_sf64 b)).
Definition f64_mul (a b : f64) : f64 := of_sf64 (SFmul 53 1024 (to_sf64 a) (to_sf64 b)).
Definition f64_div (a b : f64) : f64 := of_sf64 (SFdiv 53 1024 (to_sf64 a) (to_sf64 b)).
Definition f64_sqrt (a : f64) : f64 := of_sf64 (SFsqrt 53 1024 (to_sf64 a)).
(** [x.round() as usize]: half away from zero, saturating; 0 for a NaN and below. *)
Definition f64_round_usize (a : f64) : N :=
  match to_sf64 a with
  | S754_finite false m e =>
      if (0 <=? e)%Z then N.min (N.shiftl (Npos m) (Z.to_N e)) (2 ^ 64 - 1)
      else N.shiftr (Npos m + N.shiftl 1 (Z.to_N (- e) - 1)) (Z.to_N (- e))
  | S754_infinity false => 2 ^ 64 - 1
  | _ => 0
  end.
Definition f64_neg (a : f64) : f64 := if f64_sign a then a - 2 ^ 63 else a + 2 ^ 63.

(** [n as f64], [x as f32], [x as f64]. *)
Definition f64_of_N (n : N) : f64 := of_sf64 (binary_normalize 53 1024 (Z.of_N n) 0 false).
Definition f32_of_f64 (b : f64) : f32 :=
  of_sf match to_sf64 b with
        | S754_finite s m e => binary_round 24 128 s m e
        | x => x
        end.
Definition f64_of_f32 (b : f32) : f64 :=
  of_sf64 match to_sf b with
          | S754_finite s m e => binary_round 53 1024 s m e
          | x => x
          end.

Definition f64_total_key (b : f64) : Z :=
  if f64_sign b then (- Z.of_N (f64_mag b) - 1)%Z else Z.of_N (f64_mag b).
Definition f64_real_key (b : f64) : Z :=
  if f64_sign b then (- Z.of_N (f64_mag b))%Z else Z.of_N (f64_mag b).
Definition f64_ltb (a b : f64) : bool :=
  negb (f64_is_nan a) && negb (f64_is_nan b) && (f64_real_key a <? f64_real_key b)%Z.
Definition f64_max (a b : f64) : f64 :=
  if f64_is_nan a then b else if f64_is_nan b then a else if f64_ltb a b then b else a.
Definition f64_clamp (x lo hi : f64) : f64 :=
  if f64_ltb x lo then lo else if f64_ltb hi x then hi else x.

Class Libm := {
  powf : f64 -> f64 -> f64;
  ln32 : f32 -> f32;
  ln64 : f64 -> f64;
}.

(** Conversions agree with the bit patterns of known values. *)
Example f32_of_N_3 : f32_of_N 3 = 0x40400000. Proof. reflexivity. Qed.
Example f32_of_N_round : f32_of_N 16777217 = 0x4B800000. Proof. reflexivity. Qed.
Example f32_to_usize_2 : f32_to_usize 0x402CCCCD = 2. Proof. reflexivity. Qed.
Example f64_third : f64_div f64_one (f64_of_N 3) = 0x3FD5555555555555. Proof. reflexivity. Qed.
Example f32_of_third : f32_of_f64 0x3FD5555555555555 = 0x3EAAAAAB. Proof. reflexivity. Qed.
Example f64_of_f32_tenth : f64_of_f32 0x3DCCCCCD = 0x3FB99999A0000000. Proof. reflexivity. Qed.
Example f64_round_half : f64_round_usize 0x4004000000000000 = 3. Proof. reflexivity. Qed.
Example f64_sqrt_two : f64_sqrt 0x4000000000000000 = 0x3FF6A09E667F3BCD. Proof. reflexivity. Qed.
