(* ===== verification/Vocabulary.v ===== *)
(** * The concept vocabulary, [crates/turbomemory_graph/src/extract.rs]

    Aliases of concepts and their resolution. [str::to_lowercase] and
    [char::is_alphanumeric] follow the Unicode tables and are a class, [Unicode]. *)

From S2P Require Import Prelude.

(** The Unicode operations of the standard library that the graph crate uses. *)
Class Unicode := {
  to_lowercase : string -> string;
  (** [split] on the characters that are not alphanumeric. *)
  split_words : string -> list string;
  (** The same, where an underscore is part of a word. *)
  split_words_underscore : string -> list string;
  (** [str::split_whitespace]. *)
  split_whitespace : string -> list string;
  (** [str::trim]. *)
  trim : string -> string;
  (** The first [n] characters, and whether there are more. *)
  take_chars : nat -> string -> string * bool;
}.

Abbreviation ConceptVocabulary := (gmap string string) (only parsing).

Section vocabulary.
Context {U : Unicode}.
Implicit Types v : ConceptVocabulary.

Definition add_alias (alias canonical : string) v : ConceptVocabulary :=
  let canonical_norm := to_lowercase canonical in
  let alias_norm := to_lowercase alias in
  <[alias_norm := default canonical_norm (v !! canonical_norm)]> v.

(** The loop of [resolve]: follow the aliases until there is none, or one repeats.
    [None] when the fuel runs out first. *)
Fixpoint resolve_loop (fuel : nat) v (seen : gset string) (current : string) : option string :=
  match v !! current with
  | None => Some current
  | Some next =>
      if decide (next ∈ seen) then Some current
      else match fuel with
           | O => None
           | S fuel => resolve_loop fuel v ({[next]} ∪ seen) next
           end
  end.
Definition resolve v (concept : string) : string :=
  default concept (resolve_loop (size v) v ∅ (to_lowercase concept)).

Definition is_alias v (concept : string) : bool := bool_decide (is_Some (v !! to_lowercase concept)).

(** [collect] into a map: the last pair of an alias wins. *)
Definition from_alias_pairs (pairs : list (string * string)) : ConceptVocabulary :=
  foldl (fun v p => <[p.1 := p.2]> v) ∅ pairs.

(** ** [resolve] terminates *)

(** The canonical forms an alias can lead to. *)
Definition targets v : gset string := map_img v.

Lemma resolve_loop_ends fuel v seen current :
  seen ⊆ targets v -> (size (targets v ∖ seen) <= fuel)%nat ->
  exists c, resolve_loop fuel v seen current = Some c.
Proof.
  revert seen current. induction fuel as [|fuel IH]; intros seen current Hsub Hsz; simpl;
    destruct (v !! current) as [next|] eqn:Hn; eauto; case_decide as Hd; eauto.
  - exfalso. assert (next ∈ targets v ∖ seen) as Hin.
    { apply elem_of_difference. split; [|done]. by apply elem_of_map_img_2 with current. }
    assert (size (targets v ∖ seen) = 0%nat) as E by lia. apply size_empty_inv in E. set_solver.
  - assert (next ∈ targets v) as Hin by (by apply elem_of_map_img_2 with current).
    apply IH; [set_solver|].
    assert (targets v ∖ seen ≡ {[next]} ∪ targets v ∖ ({[next]} ∪ seen)) as E.
    { intros x. destruct (decide (x = next)); set_solver. }
    rewrite E, size_union, size_singleton in Hsz by set_solver. lia.
Qed.

Lemma size_targets v : (size (targets v) <= size v)%nat.
Proof.
  unfold targets. induction v as [|k x v Hk IH] using map_ind.
  - by rewrite map_img_empty, size_empty.
  - rewrite map_size_insert_None by done.
    assert (map_img (SA:=gset string) (<[k:=x]> v) ⊆ {[x]} ∪ map_img v) as Hs.
    { intros y. rewrite elem_of_map_img. intros [k' Hk']. apply lookup_insert_Some in Hk'
        as [[-> ->]|[_ Hk']]; [set_solver|]. apply elem_of_union_r. by eapply elem_of_map_img_2. }
    apply subseteq_size in Hs. pose proof (size_union_alt ({[x]} : gset string) (map_img v)) as Hu.
    rewrite Hu, size_singleton in Hs.
    assert (size (map_img (SA:=gset string) v ∖ {[x]}) <= size (map_img (SA:=gset string) v))%nat
      by (apply subseteq_size; set_solver). lia.
Qed.

(** The fuel of [resolve] is enough. *)
Lemma resolve_total v concept :
  exists c, resolve_loop (size v) v ∅ (to_lowercase concept) = Some c.
Proof.
  destruct (resolve_loop_ends (size v) v ∅ (to_lowercase concept)) as (c & Hc); [set_solver| |eauto].
  pose proof (size_targets v). assert (size (targets v ∖ ∅) <= size (targets v))%nat
    by (apply subseteq_size; set_solver). lia.
Qed.

(** The alias pairs of a vocabulary give it back. *)
Lemma from_alias_pairs_spec v pairs :
  pairs ≡ₚ map_to_list v -> from_alias_pairs pairs = v.
Proof.
  intros Hp. unfold from_alias_pairs.
  assert (Hnd : NoDup pairs.*1) by (rewrite Hp; apply NoDup_fst_map_to_list).
  apply map_eq. intros k. apply option_eq. intros x.
  rewrite (foldl_insert_Some fst snd) by done. rewrite lookup_empty. split.
  - intros [([k' x'] & Hin & <- & <-)|[_ ?]]; [|done]. rewrite Hp in Hin. by apply elem_of_map_to_list in Hin.
  - intros Hk. left. exists (k, x). split; [|done]. rewrite Hp. by apply elem_of_map_to_list.
Qed.
End vocabulary.

(** ** The operations on ASCII text, for concrete runs *)

Module AsciiText.
Definition in_range (lo hi : N) (c : Ascii.ascii) : bool := (lo <=? N_of_ascii c) && (N_of_ascii c <=? hi).
Definition lower_ascii (c : Ascii.ascii) : Ascii.ascii :=
  if in_range 65 90 c then ascii_of_N (N_of_ascii c + 32) else c.
Definition alnum (c : Ascii.ascii) : bool := in_range 48 57 c || in_range 65 90 c || in_range 97 122 c.
Definition space (c : Ascii.ascii) : bool := in_range 9 13 c || in_range 32 32 c.
Fixpoint lower (s : string) : string :=
  match s with EmptyString => EmptyString | String c s => String (lower_ascii c) (lower s) end.
(** [split]: the pieces between the separators, empty ones included. *)
Fixpoint split_on (word : Ascii.ascii -> bool) (s : string) : list string :=
  match s with
  | EmptyString => [EmptyString]
  | String c s =>
      match split_on word s with
      | w :: ws => if word c then String c w :: ws else EmptyString :: w :: ws
      | [] => []
      end
  end.
Fixpoint trim_start (s : string) : string :=
  match s with String c s' => if space c then trim_start s' else s | EmptyString => s end.
Definition reverse (s : string) : string :=
  String.string_of_list_ascii (rev (String.list_ascii_of_string s)).
Definition take_ascii (n : nat) (s : string) : string * bool :=
  (String.substring 0 n s, (n <? String.length s)%nat).
#[export] Instance ascii_unicode : Unicode := {|
  to_lowercase := lower;
  split_words := split_on alnum;
  split_words_underscore := split_on (fun c => alnum c || Ascii.eqb c "_");
  split_whitespace s := filter (fun w => w <> EmptyString) (split_on (fun c => negb (space c)) s);
  trim s := reverse (trim_start (reverse (trim_start s)));
  take_chars := take_ascii |}.
End AsciiText.
