(* ===== verification/Record.v ===== *)
(** * Records and the codecs the storage files rely on

    [Record], [MetaRecord] and [Tier] of [crates/turbomemory_storage/src/record.rs]
    and [config.rs], the conversions between them, and the interfaces to the two
    libraries every durable file goes through: [crc32fast] and [bincode]. Both
    are arguments of the development, constrained by what their documentation
    promises; the end of the file gives concrete implementations, so that every
    theorem about them can be instantiated. *)

From S2P Require Import Prelude Core.

(** ** Library interfaces *)

(** [crc32fast::hash]: a [u32] function of the bytes. *)
Class Crc32 := {
  crc32 : list byte -> N;
  crc32_bound : forall bs, crc32 bs < U32;
}.

(** [bincode::serialize] / [bincode::deserialize] at one type. *)
Class Bincode (A : Type) := {
  b_serialize : A -> option (list byte);
  b_deserialize : list byte -> option A;
}.

(** Deserializing what was serialized gives the value back. *)
Class BincodeOk (A : Type) `{Bincode A} : Prop := {
  b_roundtrip : forall a bs, b_serialize a = Some bs -> b_deserialize bs = Some a;
}.

(** An enum is written with its variant tag first, so its encoding is not empty. *)
Class BincodeTagged (A : Type) `{Bincode A} : Prop := {
  b_nonempty : forall a bs, b_serialize a = Some bs -> bs <> [];
}.

(** Without a size limit, in-memory values always encode. *)
Class BincodeTotal (A : Type) `{Bincode A} : Prop := {
  b_total : forall a, is_Some (b_serialize a);
}.

(** ** Data *)

Abbreviation PointOffset := N (only parsing).

Inductive Tier := Hot | Warm | Cold.

Record Record_ := {
  r_id : string;
  r_text : string;
  r_embedding : list f32;
  r_importance : f32;
  r_concepts : list string;
  r_created_at : N;
  r_insert_seq : N;
  r_access_count : N;
  r_last_accessed : N;
  r_tier : Tier;
  r_payload : option string;
  r_scope : option string;
  r_source_role : option string;
}.

Record MetaRecord := {
  id : string;
  text : string;
  importance : f32;
  concepts : list string;
  created_at : N;
  insert_seq : N;
  access_count : N;
  last_accessed : N;
  tier : Tier;
  payload : option string;
  scope : option string;
  source_role : option string;
}.

#[global] Instance Tier_eq_dec : EqDecision Tier.
Proof. solve_decision. Defined.
#[global] Instance MetaRecord_eq_dec : EqDecision MetaRecord.
Proof. solve_decision. Defined.
#[global] Instance Record_eq_dec : EqDecision Record_.
Proof. solve_decision. Defined.

Definition tier_name (t : Tier) : string :=
  match t with Hot => "hot" | Warm => "warm" | Cold => "cold" end.

(** [MetaRecord::with_embedding]. *)
Definition with_embedding (m : MetaRecord) (embedding : list f32) : Record_ := {|
  r_id := id m; r_text := text m; r_embedding := embedding;
  r_importance := importance m; r_concepts := concepts m;
  r_created_at := created_at m; r_insert_seq := insert_seq m;
  r_access_count := access_count m; r_last_accessed := last_accessed m;
  r_tier := tier m; r_payload := payload m; r_scope := scope m;
  r_source_role := source_role m;
|}.

(** [impl From<&Record> for MetaRecord]. *)
Definition meta_of_record (r : Record_) : MetaRecord := {|
  id := r_id r; text := r_text r; importance := r_importance r;
  concepts := r_concepts r; created_at := r_created_at r;
  insert_seq := r_insert_seq r; access_count := r_access_count r;
  last_accessed := r_last_accessed r; tier := r_tier r;
  payload := r_payload r; scope := r_scope r; source_role := r_source_role r;
|}.

(** [Record::with_tier]. *)
Definition with_tier (r : Record_) (t : Tier) : Record_ :=
  with_embedding {|
    id := r_id r; text := r_text r; importance := r_importance r;
    concepts := r_concepts r; created_at := r_created_at r;
    insert_seq := r_insert_seq r; access_count := r_access_count r;
    last_accessed := r_last_accessed r; tier := t;
    payload := r_payload r; scope := r_scope r; source_role := r_source_role r;
  |} (r_embedding r).

Lemma meta_of_with_embedding m e : meta_of_record (with_embedding m e) = m.
Proof. by destruct m. Qed.

(** ** The durable part of a record

    What a caller stores. The access statistics, the importance score and the
    tier are adjusted in memory by maintenance without a log entry, and only
    reach the disk with the next snapshot. *)
Definition durable (m : MetaRecord) :
  string * string * list string * N * N * option string * option string * option string :=
  (id m, text m, concepts m, created_at m, insert_seq m, payload m, scope m, source_role m).

#[global] Instance MetaRecord_equiv : Equiv MetaRecord :=
  fun a b => durable a = durable b.
#[global] Instance MetaRecord_equivalence : Equivalence (≡@{MetaRecord}).
Proof. split; unfold equiv, MetaRecord_equiv; congruence. Qed.
#[global] Instance durable_proper : Proper ((≡) ==> (=)) durable.
Proof. by intros a b H. Qed.

(** ** Concrete codecs *)

(** CRC-32 (IEEE 802.3), the function [crc32fast] documents. *)
Definition crc_step (c : N) : N :=
  if N.odd c then N.lxor (N.shiftr c 1) 0xEDB88320 else N.shiftr c 1.
Definition crc_byte (c : N) (b : byte) : N :=
  Nat.iter 8 crc_step (N.lxor c (Byte.to_N b)).
Definition crc32_ieee (bs : list byte) : N :=
  N.lxor (foldl crc_byte 0xFFFFFFFF bs) 0xFFFFFFFF mod U32.

Definition crc32_ieee_impl : Crc32.
Proof.
  refine {| crc32 := crc32_ieee |}. intros bs. apply N.mod_lt. done.
Defined.

(** *** A token-stream codec standing in for [bincode]

    A value is flattened to a list of naturals; each natural is written as the
    bits of its successor, one byte per bit, closed by the byte 1. *)
Class Tok (A : Type) := {
  tok : A -> list N;
  untok : list N -> option (A * list N);
  untok_tok : forall a r, untok (tok a ++ r) = Some (a, r);
}.

#[export] Instance tok_N : Tok N.
Proof.
  refine {| tok n := [n];
            untok l := match l with n :: l => Some (n, l) | [] => None end |}.
  done.
Defined.

#[export] Instance tok_pair `{Tok A, Tok B} : Tok (A * B).
Proof.
  refine {| tok p := tok p.1 ++ tok p.2;
            untok l := '(a, l) ← untok l; '(b, l) ← untok l; Some ((a, b), l) |}.
  intros [a b] r. rewrite <- app_assoc, untok_tok. simpl. by rewrite untok_tok.
Defined.

#[export] Instance tok_option `{Tok A} : Tok (option A).
Proof.
  refine {| tok o := match o with None => [0] | Some a => 1 :: tok a end;
            untok l := match l with
                       | 0 :: l => Some (None, l)
                       | 1 :: l => '(a, l) ← untok l; Some (Some a, l)
                       | _ => None
                       end |}.
  intros [a|] r; simpl; [by rewrite untok_tok|done].
Defined.

Fixpoint untok_n `{Tok A} (n : nat) (l : list N) : option (list A * list N) :=
  match n with
  | O => Some ([], l)
  | S n => '(a, l) ← untok l; '(x, l) ← untok_n n l; Some (a :: x, l)
  end.

#[export] Instance tok_list `{Tok A} : Tok (list A).
Proof.
  refine {| tok x := len x :: concat (map tok x);
            untok l := match l with n :: l => untok_n (N.to_nat n) l | [] => None end |}.
  intros x r. simpl. unfold len. rewrite Nat2N.id.
  induction x as [|a x IH]; simpl; [done|].
  rewrite <- app_assoc, untok_tok. simpl. by rewrite IH.
Defined.

Definition tok_iso {A B} `{Tok B} (f : A -> B) (g : B -> A) (fg : forall a, g (f a) = a) : Tok A.
Proof.
  refine {| tok a := tok (f a); untok l := '(b, l) ← untok l; Some (g b, l) |}.
  intros a r. rewrite untok_tok. simpl. by rewrite fg.
Defined.

#[export] Instance tok_string : Tok string.
Proof.
  refine (tok_iso (fun s => map N_of_ascii (String.list_ascii_of_string s))
            (fun l => String.string_of_list_ascii (map ascii_of_N l)) _).
  intros s. rewrite map_map.
  rewrite (map_ext _ (fun a => a)) by apply ascii_N_embedding.
  rewrite map_id. apply String.string_of_list_ascii_of_string.
Defined.

#[export] Instance tok_tier : Tok Tier.
Proof.
  refine (tok_iso (fun t => match t with Hot => 0 | Warm => 1 | Cold => 2 end)
            (fun n => match n with 0 => Hot | 1 => Warm | _ => Cold end) _).
  by intros [].
Defined.

#[export] Instance tok_meta : Tok MetaRecord.
Proof.
  refine (tok_iso
    (fun m => (id m, text m, importance m, concepts m, created_at m, insert_seq m,
               access_count m, last_accessed m, tier m, payload m, scope m, source_role m))
    (fun '(i, t, im, c, ca, is_, ac, la, ti, p, s, sr) =>
       {| id := i; text := t; importance := im; concepts := c; created_at := ca;
          insert_seq := is_; access_count := ac; last_accessed := la; tier := ti;
          payload := p; scope := s; source_role := sr |}) _).
  by intros [].
Defined.

Fixpoint positive_bytes (p : positive) : list byte :=
  match p with
  | xH => [x01]
  | xO p => x00 :: positive_bytes p
  | xI p => x02 :: positive_bytes p
  end.

Definition token_bytes (l : list N) : list byte :=
  concat (map (fun n => positive_bytes (N.succ_pos n)) l).

(** [k] holds the bits of the token being read, [None] between tokens. *)
Fixpoint bytes_tokens (k : option (positive -> positive)) (bs : list byte) : option (list N) :=
  let k0 := default (fun p => p) k in
  match bs with
  | [] => match k with None => Some [] | Some _ => None end
  | x01 :: bs => cons (Pos.pred_N (k0 xH)) <$> bytes_tokens None bs
  | x00 :: bs => bytes_tokens (Some (fun p => k0 (xO p))) bs
  | x02 :: bs => bytes_tokens (Some (fun p => k0 (xI p))) bs
  | _ => None
  end.

Lemma bytes_tokens_positive p k r :
  bytes_tokens k (positive_bytes p ++ r)
  = cons (Pos.pred_N (default (fun p => p) k p)) <$> bytes_tokens None r.
Proof. revert k. induction p; intros k; simpl; [by rewrite IHp|by rewrite IHp|done]. Qed.

Lemma bytes_tokens_token_bytes l : bytes_tokens None (token_bytes l) = Some l.
Proof.
  induction l as [|n l IH]; [done|]. unfold token_bytes in *. simpl concat.
  rewrite bytes_tokens_positive, IH. simpl. by rewrite N.pos_pred_succ.
Qed.

Definition tok_bincode A `{Tok A} : Bincode A := {|
  b_serialize a := Some (token_bytes (tok a));
  b_deserialize bs := l ← bytes_tokens None bs; '(a, r) ← untok l;
                      match r with [] => Some a | _ => None end;
|}.

Lemma tok_bincode_ok A `{Tok A} : @BincodeOk A (tok_bincode A).
Proof.
  split. simpl. intros a bs [= <-]. rewrite bytes_tokens_token_bytes. simpl.
  rewrite <- (app_nil_r (tok a)), untok_tok. done.
Qed.

Lemma tok_bincode_total A `{Tok A} : @BincodeTotal A (tok_bincode A).
Proof. split. intros a. by eexists. Qed.

Lemma tok_bincode_tagged A `{Tok A} :
  (forall a, tok a <> []) -> @BincodeTagged A (tok_bincode A).
Proof.
  intros Hne. split. simpl. intros a bs [= <-]. specialize (Hne a).
  destruct (tok a) as [|n l]; [done|]. unfold token_bytes. simpl. by destruct (N.succ_pos n).
Qed.

Example crc32_check : crc32_ieee [x31;x32;x33;x34;x35;x36;x37;x38;x39] = 0xCBF43926.
Proof. vm_compute. reflexivity. Qed.
