(* ===== verification/Graph.v ===== *)
(** * The cognitive graph, [crates/turbomemory_graph/src/graph.rs]

    Memories and concepts are nodes, interned to dense integers that are never
    reused; edges are kept in one vector, with the indices of a node's outgoing
    edges in an adjacency map. Removing a node leaves a tombstone: its key is
    dropped from the key map and its edges are deleted.

    Vector positions are [nat]; node ids are [u32] values in [N]. An indexing
    expression that would panic is an [option] in the model; [GraphProofs] shows
    that it never is [None]. *)

From S2P Require Import Prelude Core Floats Vocabulary Record.

(** ** Data *)

Inductive NodeId := NMemory (s : string) | NConcept (s : string).
Definition mem_key (i : string) : string := "mem:" +:+ i.
Definition concept_key (c : string) : string := "concept:" +:+ c.
Definition as_str (n : NodeId) : string :=
  match n with NMemory s => mem_key s | NConcept s => concept_key s end.

Inductive NodeKind := KMemory | KConcept.
#[global] Instance NodeKind_eq_dec : EqDecision NodeKind.
Proof. solve_decision. Defined.

Record InternalNode := {
  kind : NodeKind;
  external_id : string;
  n_text : string;
  base_importance_factor : f32;
}.
#[global] Instance InternalNode_eq_dec : EqDecision InternalNode.
Proof. solve_decision. Defined.

Inductive EdgeKind := Association | Temporal | Abstraction | Refines | Contradicts.
#[global] Instance EdgeKind_eq_dec : EqDecision EdgeKind.
Proof. solve_decision. Defined.
Definition edge_rank (k : EdgeKind) : N :=
  match k with Association => 0 | Temporal => 1 | Abstraction => 2 | Refines => 3 | Contradicts => 4 end.

Record InternalEdge := {
  source : N;
  target : N;
  e_kind : EdgeKind;
  weight : f32;
  last_reinforced_at : N;
}.
#[global] Instance InternalEdge_eq_dec : EqDecision InternalEdge.
Proof. solve_decision. Defined.

(** The public view of nodes and edges. *)
Record Node := { node_id : NodeId; node_text : string; node_base : f32 }.
Record Edge := {
  ed_source : NodeId; ed_target : NodeId; ed_kind : EdgeKind; ed_weight : f32;
  ed_last_reinforced_at : N;
}.

Record GraphStats := {
  st_nodes : N; st_edges : N; st_memories : N; st_concepts : N; st_refinements : N;
  st_contradictions : N; st_abstractions : N;
}.
Record VocabularyEvolutionStats := { merged : N; suppressed : N; examined_pairs : N }.
Definition no_evolution : VocabularyEvolutionStats :=
  {| merged := 0; suppressed := 0; examined_pairs := 0 |}.

Record NodeInterner := {
  key_to_id : gmap string N;
  id_to_key : list string;
  id_to_node : list InternalNode;
}.
Abbreviation IntAdjacency := (gmap N (list nat)) (only parsing).

Record MemoryGraph := {
  interner : NodeInterner;
  int_edges : list InternalEdge;
  int_adjacency : IntAdjacency;
  last_memory_id : option string;
  last_memory_by_scope : gmap string string;
  co_occurrence : gmap string N;
  g_vocab : ConceptVocabulary;
  suppressed_concepts : gset string;
}.

Definition empty_interner : NodeInterner := {| key_to_id := ∅; id_to_key := []; id_to_node := [] |}.
(** [MemoryGraph::new]. *)
Definition new_graph : MemoryGraph := {|
  interner := empty_interner; int_edges := []; int_adjacency := ∅; last_memory_id := None;
  last_memory_by_scope := ∅; co_occurrence := ∅; g_vocab := ∅; suppressed_concepts := ∅ |}.

(** Field updates. *)
Definition set_interner (i : NodeInterner) (g : MemoryGraph) : MemoryGraph := {|
  interner := i; int_edges := int_edges g; int_adjacency := int_adjacency g;
  last_memory_id := last_memory_id g; last_memory_by_scope := last_memory_by_scope g;
  co_occurrence := co_occurrence g; g_vocab := g_vocab g;
  suppressed_concepts := suppressed_concepts g |}.
Definition set_edges (e : list InternalEdge) (a : IntAdjacency) (g : MemoryGraph) : MemoryGraph := {|
  interner := interner g; int_edges := e; int_adjacency := a;
  last_memory_id := last_memory_id g; last_memory_by_scope := last_memory_by_scope g;
  co_occurrence := co_occurrence g; g_vocab := g_vocab g;
  suppressed_concepts := suppressed_concepts g |}.
Definition set_last (l : option string) (s : gmap string string) (g : MemoryGraph) : MemoryGraph := {|
  interner := interner g; int_edges := int_edges g; int_adjacency := int_adjacency g;
  last_memory_id := l; last_memory_by_scope := s;
  co_occurrence := co_occurrence g; g_vocab := g_vocab g;
  suppressed_concepts := suppressed_concepts g |}.
Definition set_co (c : gmap string N) (g : MemoryGraph) : MemoryGraph := {|
  interner := interner g; int_edges := int_edges g; int_adjacency := int_adjacency g;
  last_memory_id := last_memory_id g; last_memory_by_scope := last_memory_by_scope g;
  co_occurrence := c; g_vocab := g_vocab g; suppressed_concepts := suppressed_concepts g |}.
Definition set_vocab (v : ConceptVocabulary) (s : gset string) (g : MemoryGraph) : MemoryGraph := {|
  interner := interner g; int_edges := int_edges g; int_adjacency := int_adjacency g;
  last_memory_id := last_memory_id g; last_memory_by_scope := last_memory_by_scope g;
  co_occurrence := co_occurrence g; g_vocab := v; suppressed_concepts := s |}.

Definition with_weight (w : f32) (e : InternalEdge) : InternalEdge := {|
  source := source e; target := target e; e_kind := e_kind e; weight := w;
  last_reinforced_at := last_reinforced_at e |}.
Definition with_reinforced (w : f32) (t : N) (e : InternalEdge) : InternalEdge := {|
  source := source e; target := target e; e_kind := e_kind e; weight := w;
  last_reinforced_at := t |}.

(** ** Interner and adjacency *)

Definition intern (key : string) (node : InternalNode) (t : NodeInterner) : N * NodeInterner :=
  match key_to_id t !! key with
  | Some id => (id, t)
  | None =>
      let id := as_u32 (len (id_to_key t)) in
      (id, {| key_to_id := <[key := id]> (key_to_id t); id_to_key := id_to_key t ++ [key];
              id_to_node := id_to_node t ++ [node] |})
  end.
Definition get_node (t : NodeInterner) (id : N) : option InternalNode := id_to_node t !! N.to_nat id.

(** [NodeInterner::iter]: the live entries, in id order. *)
Definition live_entry (t : NodeInterner) (x : nat * (string * InternalNode))
    : option (N * string * InternalNode) :=
  if decide (key_to_id t !! x.2.1 = Some (as_u32 (N.of_nat x.1)))
  then Some (as_u32 (N.of_nat x.1), x.2.1, x.2.2) else None.
Definition iter_nodes (t : NodeInterner) : list (N * string * InternalNode) :=
  omap (live_entry t) (zip (seq 0 (length (id_to_key t))) (zip (id_to_key t) (id_to_node t))).
Definition memory_nodes_of (t : NodeInterner) : list (N * string * InternalNode) :=
  filter (fun x => kind x.2 = KMemory) (iter_nodes t).

Definition adj_add (src : N) (idx : nat) (a : IntAdjacency) : IntAdjacency :=
  <[src := default [] (a !! src) ++ [idx]]> a.
Definition adj_get (g : MemoryGraph) (src : N) : list nat := default [] (int_adjacency g !! src).
Fixpoint rebuild_loop (idx : nat) (edges : list InternalEdge) (a : IntAdjacency) : IntAdjacency :=
  match edges with
  | [] => a
  | e :: edges => rebuild_loop (S idx) edges (adj_add (source e) idx a)
  end.
Definition rebuild (edges : list InternalEdge) : IntAdjacency := rebuild_loop 0 edges ∅.

Definition intern_node (key : string) (k : NodeKind) (ext text : string) (base : f32)
    (g : MemoryGraph) : N * MemoryGraph :=
  match key_to_id (interner g) !! key with
  | Some id => (id, g)
  | None =>
      let '(id, t) := intern key {| kind := k; external_id := ext; n_text := text;
                                    base_importance_factor := base |} (interner g) in
      (id, set_interner t g)
  end.
Definition get_node_id (g : MemoryGraph) (key : string) : option N := key_to_id (interner g) !! key.

Definition push_edge (e : InternalEdge) (g : MemoryGraph) : MemoryGraph :=
  set_edges (int_edges g ++ [e]) (adj_add (source e) (length (int_edges g)) (int_adjacency g)) g.
Definition add_int_edge (s t : N) (k : EdgeKind) (w : f32) (g : MemoryGraph) : MemoryGraph :=
  push_edge {| source := s; target := t; e_kind := k; weight := w; last_reinforced_at := 0 |} g.

(** The edges leaving a node, with their positions. *)
Definition out_edges (g : MemoryGraph) (s : N) : list (nat * InternalEdge) :=
  omap (fun i => e ← int_edges g !! i; Some (i, e)) (adj_get g s).

Definition update_edge (i : nat) (f : InternalEdge -> InternalEdge) (g : MemoryGraph) : MemoryGraph :=
  set_edges (alter f i (int_edges g)) (int_adjacency g) g.

(** [ensure_int_edge]: raise the first edge of this kind and target, or add one. *)
Definition ensure_int_edge (s t : N) (k : EdgeKind) (w : f32) (at_ : N) (g : MemoryGraph)
    : MemoryGraph :=
  match list_find (fun ie : nat * InternalEdge => e_kind ie.2 = k /\ target ie.2 = t) (out_edges g s) with
  | Some (_, (i, _)) =>
      update_edge i (fun e => with_reinforced (f32_max (weight e) w)
                                (N.max (last_reinforced_at e) at_) e) g
  | None => push_edge {| source := s; target := t; e_kind := k; weight := w;
                         last_reinforced_at := at_ |} g
  end.

Definition importance_factor (importance : f32) : f32 :=
  if negb (is_finite importance) || f32_geb f32_zero importance then 0x3DCCCCCD
  else f32_sqrt importance.

(** ** Pair keys *)

Definition NUL : string := String Ascii.zero EmptyString.
Definition pair_key (a b : string) : string := concept_key a +:+ NUL +:+ concept_key b.
(** [i < j] pairs in order. *)
Fixpoint pairs {A} (l : list A) : list (A * A) :=
  match l with
  | [] => []
  | x :: l => map (fun y => (x, y)) l ++ pairs l
  end.
(** [splitn(2, '\0')]; a missing part is empty. *)
Fixpoint split_nul (s : string) : string * string :=
  match s with
  | EmptyString => (EmptyString, EmptyString)
  | String c s =>
      if Ascii.eqb c Ascii.zero then (EmptyString, s)
      else let '(a, b) := split_nul s in (String c a, b)
  end.
(** [strip_prefix(p).unwrap_or(s)]. *)
Definition strip (p s : string) : string :=
  if String.prefix p s then String.substring (String.length p) (String.length s - String.length p) s
  else s.
(** [contains('+')]. *)
Fixpoint has_plus (s : string) : bool :=
  match s with
  | EmptyString => false
  | String c s => Ascii.eqb c "+" || has_plus s
  end.
Definition bump_count (k : string) (m : gmap string N) : gmap string N :=
  <[k := default 0 (m !! k) + 1]> m.
Definition count_pairs (l : list string) (m : gmap string N) : gmap string N :=
  foldl (fun m ab => bump_count (pair_key ab.1 ab.2) m) m (pairs (sort_by string_le l)).

Section graph.
Context {U : Unicode} {L : Libm}.
Implicit Types g : MemoryGraph.

(** ** Adding and removing memories *)

(** Canonical forms, without empty ones and repetitions. *)
Fixpoint normalize_concepts (v : ConceptVocabulary) (concepts : list string) (seen : gset string)
    : list string :=
  match concepts with
  | [] => []
  | c :: concepts =>
      let norm := resolve v c in
      if decide (norm = ""%string \/ norm ∈ seen) then normalize_concepts v concepts seen
      else norm :: normalize_concepts v concepts ({[norm]} ∪ seen)
  end.

(** One concept of a memory: intern it and link both ways. *)
Definition link_concept (mem_id : N) (imp : f32) g (concept : string) : MemoryGraph :=
  let '(concept_id, g) := intern_node (concept_key concept) KConcept concept concept f32_zero g in
  add_int_edge concept_id mem_id Association imp (add_int_edge mem_id concept_id Association imp g).

(** The previous memory of the scope, taken out of the graph's state. *)
Definition take_previous (scope : option string) g : option string * MemoryGraph :=
  let scope_key := default ""%string scope in
  match last_memory_by_scope g !! scope_key with
  | Some prev => (Some prev, set_last (last_memory_id g) (delete scope_key (last_memory_by_scope g)) g)
  | None =>
      match scope with
      | None => (last_memory_id g, set_last None (last_memory_by_scope g) g)
      | Some _ => (None, g)
      end
  end.

(** Chain the previous memory of the scope to this one, and remember this one. *)
Definition chain_memory (id : string) (mem_id : N) (imp : f32) (scope : option string) g : MemoryGraph :=
  let '(prev, g) := take_previous scope g in
  let g := match prev with
           | Some prev =>
               match get_node_id g (mem_key prev) with
               | Some prev_id => add_int_edge prev_id mem_id Temporal (f32_mul f32_half imp) g
               | None => g
               end
           | None => g
           end in
  set_last (match scope with Some _ => last_memory_id g | None => Some id end)
    (<[default ""%string scope := id]> (last_memory_by_scope g)) g.

Definition add_memory_scoped (id text : string) (concepts : list string) (importance : f32)
    (scope : option string) g : MemoryGraph :=
  let imp := importance_factor importance in
  let '(mem_id, g) := intern_node (mem_key id) KMemory id text imp g in
  let normalized := normalize_concepts (g_vocab g) concepts ∅ in
  let g := foldl (link_concept mem_id imp) g normalized in
  let g := if (1 <? len normalized) then set_co (count_pairs normalized (co_occurrence g)) g else g in
  chain_memory id mem_id imp scope g.
Definition add_memory_with_importance (id text : string) (concepts : list string) (importance : f32)
    g : MemoryGraph := add_memory_scoped id text concepts importance None g.
Definition add_memory (id text : string) (concepts : list string) g : MemoryGraph :=
  add_memory_scoped id text concepts f32_one None g.

Definition attach_concept (mem_id : N) (imp : f32) g (norm : string) : MemoryGraph :=
  let '(concept_id, g) := intern_node (concept_key norm) KConcept norm norm f32_zero g in
  ensure_int_edge concept_id mem_id Association imp 0
    (ensure_int_edge mem_id concept_id Association imp 0 g).
Definition add_concepts_to_memory (id : string) (concepts : list string) (importance : f32) g
    : MemoryGraph * bool :=
  match get_node_id g (mem_key id) with
  | None => (g, false)
  | Some mem_id =>
      (foldl (attach_concept mem_id (importance_factor importance)) g
         (normalize_concepts (g_vocab g) concepts ∅), true)
  end.

(** Forget a key; its slot stays as a tombstone. *)
Definition forget_key (key : string) (t : NodeInterner) : NodeInterner :=
  {| key_to_id := delete key (key_to_id t); id_to_key := id_to_key t; id_to_node := id_to_node t |}.
Definition drop_node (key : string) (id : N) g : MemoryGraph :=
  let edges := filter (fun e => source e <> id /\ target e <> id) (int_edges g) in
  set_edges edges (rebuild edges) (set_interner (forget_key key (interner g)) g).
Definition remove_memory (id : string) g : MemoryGraph :=
  match get_node_id g (mem_key id) with
  | None => g
  | Some mem_id => drop_node (mem_key id) mem_id g
  end.

(** ** Views *)

Definition node_count g : N := len (iter_nodes (interner g)).
Definition edge_count g : N := len (int_edges g).
Definition memory_count g : N := len (memory_nodes_of (interner g)).
Definition concept_degree g (concept : string) : N :=
  match get_node_id g (concept_key concept) with
  | None => 0
  | Some id => len (filter (fun ie : nat * InternalEdge => e_kind ie.2 = Association) (out_edges g id))
  end.

Definition public_id (n : InternalNode) : NodeId :=
  match kind n with KMemory => NMemory (external_id n) | KConcept => NConcept (external_id n) end.
Definition public_node (n : InternalNode) : Node :=
  {| node_id := public_id n; node_text := n_text n; node_base := base_importance_factor n |}.
Definition nodes g : gmap string Node :=
  foldl (fun m x => <[x.1.2 := public_node x.2]> m) ∅ (iter_nodes (interner g)).
(** [expect("valid source")]: [None] is a panic. *)
Definition public_edge g (e : InternalEdge) : option Edge :=
  s ← get_node (interner g) (source e);
  t ← get_node (interner g) (target e);
  Some {| ed_source := public_id s; ed_target := public_id t; ed_kind := e_kind e;
          ed_weight := weight e; ed_last_reinforced_at := last_reinforced_at e |}.
Definition edges g : option (list Edge) := mapM (public_edge g) (int_edges g).
Definition neighbors g (node_key : string) : option (list Edge) :=
  match get_node_id g node_key with
  | None => Some []
  | Some id => mapM (fun i => e ← int_edges g !! i; public_edge g e) (adj_get g id)
  end.
Definition iter_memory_nodes g : list (string * Node) :=
  map (fun x => (x.1.2, public_node x.2)) (memory_nodes_of (interner g)).

(** The targets of [id]'s edges of one kind whose node satisfies [p]. *)
Definition linked g (id : string) (k : EdgeKind) (p : InternalNode -> bool) : list string :=
  match get_node_id g (mem_key id) with
  | None => []
  | Some nid =>
      omap (fun ie : nat * InternalEdge =>
              if decide (e_kind ie.2 = k) then
                t ← get_node (interner g) (target ie.2); if p t then Some (external_id t) else None
              else None) (out_edges g nid)
  end.
Definition is_concept (n : InternalNode) : bool := bool_decide (kind n = KConcept).
Definition is_memory (n : InternalNode) : bool := bool_decide (kind n = KMemory).
Definition memory_concepts g (id : string) : list string := linked g id Association is_concept.
(** Without abstraction parents. *)
Definition base_concepts_of g (id : string) : list string :=
  linked g id Association (fun n => is_concept n && negb (has_plus (external_id n))).

Definition count_nodes (p : InternalNode -> bool) g : N :=
  len (filter (fun x => p x.2 = true) (iter_nodes (interner g))).
Definition abstraction_count g : N := count_nodes (fun n => is_concept n && has_plus (external_id n)) g.
Definition concept_count g : N := count_nodes (fun n => is_concept n && negb (has_plus (external_id n))) g.
Definition count_edges (k : EdgeKind) g : N := len (filter (fun e => e_kind e = k) (int_edges g)).
Definition refinement_count g : N := count_edges Refines g.
Definition contradiction_count g : N := count_edges Contradicts g.
Definition stats g : GraphStats := {|
  st_nodes := node_count g; st_edges := edge_count g; st_memories := memory_count g;
  st_concepts := concept_count g; st_refinements := refinement_count g;
  st_contradictions := contradiction_count g; st_abstractions := abstraction_count g |}.

Definition is_concept_suppressed g (concept : string) : bool :=
  bool_decide (to_lowercase concept ∈ suppressed_concepts g).
Definition suppressed_concept_count g : N := N.of_nat (size (suppressed_concepts g)).

(** ** Learned weights *)

Definition boost (e : InternalEdge) : f32 :=
  if last_reinforced_at e =? 0 then 0x3FC00000
  else f32_add f32_one (f32_div 0x3DCCCCCD (f32_add f32_one (weight e))).
Definition f32_eight : f32 := 0x41000000.
Definition strengthen (now : N) (e : InternalEdge) : InternalEdge :=
  with_reinforced (f32_min (f32_mul (weight e) (boost e)) f32_eight) now e.
Definition reinforce (id : string) (now : N) g : MemoryGraph :=
  match get_node_id g (mem_key id) with
  | None => g
  | Some mem_id =>
      let now := N.max now 1 in
      let g := foldl (fun g i => update_edge i (strengthen now) g) g (adj_get g mem_id) in
      set_edges (map (fun e => if decide (e_kind e = Association /\ target e = mem_id)
                               then strengthen now e else e) (int_edges g)) (int_adjacency g) g
  end.

Definition decay_edge (now half_life : N) (e : InternalEdge) : InternalEdge :=
  if last_reinforced_at e =? 0 then e
  else
    let age := f64_of_N (saturating_sub now (last_reinforced_at e)) in
    let factor := f32_of_f64 (powf f64_half (f64_div age (f64_of_N half_life))) in
    with_weight (f32_max (f32_mul (weight e) factor) (f32_min (weight e) f32_one)) e.
Definition decay_edges (now half_life : N) g : MemoryGraph :=
  if half_life =? 0 then g
  else set_edges (map (decay_edge now half_life) (int_edges g)) (int_adjacency g) g.

Definition own_kind (e : InternalEdge) : bool :=
  bool_decide (e_kind e = Association) || bool_decide (e_kind e = Temporal).
(** The edges of the memory's own importance: outgoing first, then incoming. *)
Definition own_idxs (mem_id : N) g : list nat :=
  let out := (filter (fun ie : nat * InternalEdge => own_kind ie.2 = true) (out_edges g mem_id)).*1 in
  out ++ omap (fun ie : nat * InternalEdge =>
                 if (target ie.2 =? mem_id) && own_kind ie.2 && negb (bool_decide (ie.1 ∈ out))
                 then Some ie.1 else None) (zip (seq 0 (length (int_edges g))) (int_edges g)).
Definition min_weight (l : list InternalEdge) : f32 := foldl f32_min f32_inf (map weight l).
Definition old_factor (stored : f32) (own : list InternalEdge) : f32 :=
  let f :=
    if f32_gtb stored f32_zero then stored
    else
      let m := min_weight (filter (fun e => last_reinforced_at e = 0) own) in
      if is_finite m then m else min_weight own in
  f32_max f 0x358637BD.
Definition rescale (ratio : f32) (e : InternalEdge) : InternalEdge :=
  with_weight (f32_clamp (f32_mul (weight e) ratio) 0x3C23D70A f32_eight) e.
Definition set_base (id : N) (base : f32) (t : NodeInterner) : NodeInterner := {|
  key_to_id := key_to_id t; id_to_key := id_to_key t;
  id_to_node := alter (fun n => {| kind := kind n; external_id := external_id n; n_text := n_text n;
                                   base_importance_factor := base |}) (N.to_nat id) (id_to_node t) |}.
Definition reweight_memory (id : string) (new_importance : f32) g : MemoryGraph * bool :=
  match get_node_id g (mem_key id) with
  | None => (g, false)
  | Some mem_id =>
      let new_factor := importance_factor new_importance in
      match own_idxs mem_id g with
      | [] => (g, false)
      | own =>
          let stored := match get_node (interner g) mem_id with
                        | Some n => base_importance_factor n
                        | None => f32_zero
                        end in
          let ratio := f32_div new_factor
            (old_factor stored (omap (fun i => int_edges g !! i) own)) in
          let g := foldl (fun g i => update_edge i (rescale ratio) g) g own in
          (set_interner (set_base mem_id new_factor (interner g)) g, true)
      end
  end.

(** ** Abstractions *)

Definition sorted_counts (m : gmap string N) : list (string * N) :=
  sort_by (fun a b => string_le a.1 b.1) (map_to_list m).

(** Link one child concept to the parent, unless it is already. *)
Definition link_parent (parent_id : N) (gn : MemoryGraph * N) (child_key : string) : MemoryGraph * N :=
  let '(g, added) := gn in
  let child := get_node_id g child_key in
  let exists_ := match child with
                 | Some cid => existsb (fun ie : nat * InternalEdge =>
                     bool_decide (e_kind ie.2 = Abstraction) && (target ie.2 =? parent_id)) (out_edges g cid)
                 | None => false
                 end in
  if exists_ then (g, added)
  else
    let '(child_id, g) :=
      match child with
      | Some cid => (cid, g)
      | None => let name := strip "concept:" child_key in
                intern_node child_key KConcept name name f32_zero g
      end in
    (add_int_edge parent_id child_id Abstraction f32_one
       (add_int_edge child_id parent_id Abstraction f32_one g), added + 2).

Definition abstract_pair (gn : MemoryGraph * N) (co_key : string) : MemoryGraph * N :=
  let '(g, added) := gn in
  let '(a_key, b_key) := split_nul co_key in
  let a_name := strip "concept:" a_key in
  let b_name := strip "concept:" b_key in
  let parent_name := if String.leb a_name b_name then (a_name +:+ "+" +:+ b_name)%string
                     else (b_name +:+ "+" +:+ a_name)%string in
  let '(parent_id, g) := intern_node (concept_key parent_name) KConcept parent_name parent_name f32_zero g in
  let '(g, added) := foldl (link_parent parent_id) (g, added) [a_key; b_key] in
  (set_co (<[co_key := 0]> (co_occurrence g)) g, added).

Definition build_abstractions (threshold : N) g : MemoryGraph * N :=
  if threshold =? 0 then (g, 0)
  else foldl abstract_pair (g, 0)
         (filter (fun kc : string * N => threshold <= kc.2) (sorted_counts (co_occurrence g))).*1.

(** ** Vocabulary evolution *)

Definition rebuild_co_occurrence g : MemoryGraph :=
  set_co (foldl (fun m kn => count_pairs (base_concepts_of g (strip "mem:" kn.1)) m) ∅
            (iter_memory_nodes g)) g.

(** Move an alias's edge to the canonical concept. *)
Definition migrate_out (canon_id : N) g (e : InternalEdge) : MemoryGraph :=
  match get_node (interner g) (source e), get_node (interner g) (target e), e_kind e with
  | Some src, Some tgt, Association =>
      if is_concept src && is_memory tgt then
        ensure_int_edge canon_id (target e) Association (weight e) (last_reinforced_at e) g else g
  | Some src, Some tgt, Abstraction =>
      if is_concept src && is_concept tgt then
        ensure_int_edge canon_id (target e) Abstraction (weight e) (last_reinforced_at e) g else g
  | _, _, _ => g
  end.
Definition migrate_in (canon_id : N) g (e : InternalEdge) : MemoryGraph :=
  match get_node (interner g) (source e), get_node (interner g) (target e), e_kind e with
  | Some src, Some _, Association =>
      if is_memory src then
        ensure_int_edge (source e) canon_id Association (weight e) (last_reinforced_at e) g else g
  | Some src, Some _, Abstraction =>
      if is_concept src then
        ensure_int_edge (source e) canon_id Abstraction (weight e) (last_reinforced_at e) g else g
  | _, _, _ => g
  end.

(** Rename a concept in place, in both directions of the interner. *)
Definition rename_node (id : N) (old_key new_key name : string) (t : NodeInterner) : NodeInterner := {|
  key_to_id := <[new_key := id]> (delete old_key (key_to_id t));
  id_to_key := <[N.to_nat id := new_key]> (id_to_key t);
  id_to_node := alter (fun n => {| kind := kind n; external_id := name; n_text := name;
                                   base_importance_factor := base_importance_factor n |})
                  (N.to_nat id) (id_to_node t) |}.
Definition learn_alias (alias canonical : string) g : MemoryGraph :=
  set_vocab (add_alias alias canonical (g_vocab g)) (suppressed_concepts g ∖ {[alias]}) g.

Definition merge_concept_node (alias canonical : string) g : MemoryGraph * bool :=
  match get_node_id g (concept_key alias) with
  | None => (g, false)
  | Some alias_id =>
      match get_node_id g (concept_key canonical) with
      | None =>
          (learn_alias alias canonical (set_interner
             (rename_node alias_id (concept_key alias) (concept_key canonical) canonical (interner g)) g), true)
      | Some canon_id =>
          let outgoing := (out_edges g alias_id).*2 in
          let incoming := filter (fun e => target e = alias_id) (int_edges g) in
          let g := foldl (migrate_out canon_id) g outgoing in
          let g := foldl (migrate_in canon_id) g incoming in
          (learn_alias alias canonical (drop_node (concept_key alias) alias_id g), true)
      end
  end.

(** Which memories carry a concept, and how often two occur together. *)
Definition concept_sets g : gmap string (gset string) :=
  foldl (fun m kn =>
           let id := strip "mem:" kn.1 in
           foldl (fun m c => <[c := {[id]} ∪ default ∅ (m !! c)]> m) m (base_concepts_of g id))
    ∅ (iter_memory_nodes g).
Definition merge_candidates g (threshold : f32) : list (string * string * f32) :=
  let sets := concept_sets g in
  omap (fun kc : string * N =>
          let '(a_key, b_key) := split_nul kc.1 in
          let a := strip "concept:" a_key in
          let b := strip "concept:" b_key in
          let sz c := N.of_nat (size (default ∅ (sets !! c))) in
          let union := saturating_sub (sz a + sz b) kc.2 in
          if union =? 0 then None
          else
            let overlap := f32_div (f32_of_N kc.2) (f32_of_N union) in
            if f32_geb overlap threshold then Some (a, b, overlap) else None)
    (sorted_counts (co_occurrence (rebuild_co_occurrence g))).
(** Best overlap first, then by name. *)
Definition candidate_le (a b : string * string * f32) : Prop :=
  match cmp_score_desc a.2 b.2 with
  | Lt => True
  | Gt => False
  | Eq => (a.1.1 <> b.1.1 /\ string_le a.1.1 b.1.1) \/ (a.1.1 = b.1.1 /\ string_le a.1.2 b.1.2)
  end.
#[global] Instance candidate_le_dec a b : Decision (candidate_le a b).
Proof. unfold candidate_le, string_le. destruct (cmp_score_desc _ _); apply _. Defined.

Definition try_merge (max_pairs : N) (gm : MemoryGraph * N) (c : string * string * f32)
    : MemoryGraph * N :=
  let '(g, merged) := gm in
  if max_pairs <=? merged then (g, merged)
  else
    let a := resolve (g_vocab g) c.1.1 in
    let b := resolve (g_vocab g) c.1.2 in
    if bool_decide (a = b) then (g, merged)
    else
      let da := concept_degree g a in
      let db := concept_degree g b in
      let '(canonical, alias) :=
        if (db <? da) || ((da =? db) && String.ltb a b) then (a, b) else (b, a) in
      match merge_concept_node alias canonical g with
      | (g, true) => (g, merged + 1)
      | (g, false) => (g, merged)
      end.

Definition suppress_hubs (hub_fraction : f32) g : MemoryGraph :=
  if f32_gtb hub_fraction f32_zero then
    let count := N.max (memory_count g) 1 in
    let hub_threshold := f32_to_usize (f32_max (f32_mul (f32_of_N count) hub_fraction) 0x40000000) in
    let base := omap (fun x : N * string * InternalNode =>
                        if is_concept x.2 && negb (has_plus (external_id x.2))
                        then Some (external_id x.2) else None) (iter_nodes (interner g)) in
    set_vocab (g_vocab g)
      (foldl (fun s c => if hub_threshold <? concept_degree g c then {[c]} ∪ s else s)
         (suppressed_concepts g) base) g
  else g.

Definition evolve_vocabulary (overlap_threshold hub_fraction : f32) (max_pairs : N) g
    : MemoryGraph * VocabularyEvolutionStats :=
  if max_pairs =? 0 then (g, no_evolution)
  else
    let candidates := sort_by candidate_le
      (merge_candidates g (f32_clamp overlap_threshold f32_zero f32_one)) in
    let '(g, n) := foldl (try_merge max_pairs) (g, 0) candidates in
    let before := suppressed_concept_count g in
    let g := suppress_hubs hub_fraction g in
    let suppressed := suppressed_concept_count g - before in
    (rebuild_co_occurrence g,
     {| merged := n; suppressed := suppressed; examined_pairs := len candidates |}).

(** ** Belief edges *)

Definition has_edge g (s : N) (k : EdgeKind) (t : N) : bool :=
  existsb (fun ie : nat * InternalEdge => bool_decide (e_kind ie.2 = k) && (target ie.2 =? t)) (out_edges g s).

Definition add_refinement (old_id new_id : string) (w : f32) g : MemoryGraph * bool :=
  match get_node_id g (mem_key old_id), get_node_id g (mem_key new_id) with
  | Some o, Some n => if has_edge g o Refines n then (g, false) else (add_int_edge o n Refines w g, true)
  | _, _ => (g, false)
  end.

Definition weaken (factor : f32) (e : InternalEdge) : InternalEdge :=
  if own_kind e then with_weight (f32_mul (weight e) factor) e else e.
Definition add_contradiction (old_id new_id : string) (w weaken_factor : f32) g : MemoryGraph * bool :=
  match get_node_id g (mem_key old_id), get_node_id g (mem_key new_id) with
  | Some o, Some n =>
      if has_edge g o Contradicts n then (g, false)
      else
        let g := foldl (fun g i => update_edge i (weaken weaken_factor) g) g (adj_get g o) in
        (add_int_edge o n Contradicts w g, true)
  | _, _ => (g, false)
  end.

Definition refined_by g (id : string) : list string := linked g id Refines is_memory.
Definition contradicted_by g (id : string) : list string := linked g id Contradicts is_memory.

Definition is_supersession (e : InternalEdge) : bool :=
  bool_decide (e_kind e = Refines) || bool_decide (e_kind e = Contradicts).
Definition kind_is_memory g (id : N) : bool :=
  match get_node (interner g) id with Some n => is_memory n | None => false end.

Definition superseded_ids g : gset string :=
  list_to_set (omap (fun e => if is_supersession e && kind_is_memory g (source e) && kind_is_memory g (target e)
                              then s ← get_node (interner g) (source e); Some (external_id s) else None)
                 (int_edges g)).

Definition supersession_successors g (nid : N) : list (nat * N) :=
  omap (fun ie : nat * InternalEdge =>
          if is_supersession ie.2 && kind_is_memory g (target ie.2) then Some (ie.1, target ie.2) else None)
    (out_edges g nid).
(** [max_by_key] on the edge index: the last maximal element. *)
Definition max_by_index (l : list (nat * N)) : option (nat * N) :=
  foldl (fun m x => match m with Some y => if (x.1 <? y.1)%nat then m else Some x | None => Some x end) None l.
Definition supersession_next g (nid : N) : option N := snd <$> max_by_index (supersession_successors g nid).

(** The walk both belief queries make: from [cur] along [next] until it ends or
    meets a visited node. The new nodes in order; [None] when the fuel runs out. *)
Fixpoint walk (next : N -> option N) (fuel : nat) (visited : gset N) (cur : N) : option (list N) :=
  match next cur with
  | None => Some []
  | Some n =>
      if decide (n ∈ visited) then Some []
      else match fuel with
           | O => None
           | S fuel => l ← walk next fuel ({[n]} ∪ visited) n; Some (n :: l)
           end
  end.
Definition walk_fuel g : nat := length (id_to_node (interner g)).

Definition belief_head g (id : string) : string :=
  match get_node_id g (mem_key id) with
  | None => id
  | Some start =>
      let cur := default start (last (default [] (walk (supersession_next g) (walk_fuel g) {[start]} start))) in
      match get_node (interner g) cur with Some n => external_id n | None => id end
  end.

(** The reverse view: who [nid] supersedes, with the edge positions. *)
Definition predecessors g (nid : N) : list (nat * N) :=
  omap (fun ie : nat * InternalEdge =>
          if is_supersession ie.2 && kind_is_memory g (source ie.2) && kind_is_memory g (target ie.2)
             && (target ie.2 =? nid)
          then Some (ie.1, source ie.2) else None)
    (zip (seq 0 (length (int_edges g))) (int_edges g)).
Definition supersession_prev g (nid : N) : option N := snd <$> max_by_index (predecessors g nid).

Definition belief_lineage g (id : string) : list string :=
  match get_node_id g (mem_key id) with
  | None => [id]
  | Some start =>
      let forward := default [] (walk (supersession_next g) (walk_fuel g) {[start]} start) in
      let visited : gset N := {[start]} ∪ list_to_set forward in
      let backward := default [] (walk (supersession_prev g) (walk_fuel g) visited start) in
      omap (fun nid => n ← get_node (interner g) nid; Some (external_id n))
        (rev backward ++ start :: forward)
  end.

(** ** Ordering of edges, [compact] *)

(** By external ids ([None] first), then kind, then weight. *)
Definition opt_string_cmp (a b : option string) : comparison :=
  match a, b with
  | None, None => Eq
  | None, Some _ => Lt
  | Some _, None => Gt
  | Some a, Some b => String.compare a b
  end.
Definition edge_cmp (name : N -> option string) (a b : InternalEdge) : comparison :=
  match opt_string_cmp (name (source a)) (name (source b)) with
  | Eq =>
      match opt_string_cmp (name (target a)) (name (target b)) with
      | Eq =>
          match N.compare (edge_rank (e_kind a)) (edge_rank (e_kind b)) with
          | Eq => total_cmp (weight a) (weight b)
          | c => c
          end
      | c => c
      end
  | c => c
  end.
Definition edge_le (name : N -> option string) (a b : InternalEdge) : Prop := edge_cmp name a b <> Gt.
#[global] Instance edge_le_dec name a b : Decision (edge_le name a b).
Proof. unfold edge_le. apply _. Defined.
Definition name_of g (id : N) : option string := external_id <$> get_node (interner g) id.
Definition compact g : MemoryGraph :=
  let edges := sort_by (edge_le (name_of g)) (int_edges g) in
  set_edges edges (rebuild edges) g.

(** ** Binary snapshots *)

Definition SNAPSHOT_MAGIC : list byte := [x54; x4d; x47; x52].
Definition SNAPSHOT_VERSION : N := 1.

Record BinaryGraphSnapshot := {
  s_nodes : list (string * InternalNode);
  s_edges : list InternalEdge;
  s_last_memory_id : option string;
  s_co_occurrence : gmap string N;
  s_vocab_aliases : list (string * string);
  s_suppressed_concepts : gset string;
}.

(** The dense id of a live node: its position among the live nodes. *)
Definition remap g : gmap N N :=
  foldl (fun m x => <[x.1 := x.2]> m) ∅
    (zip (map (fun x : N * string * InternalNode => x.1.1) (iter_nodes (interner g)))
       (map (fun i => as_u32 (N.of_nat i)) (seq 0 (length (iter_nodes (interner g)))))).
Definition remap_edge (m : gmap N N) (e : InternalEdge) : option InternalEdge :=
  s ← m !! source e;
  t ← m !! target e;
  Some {| source := s; target := t; e_kind := e_kind e; weight := weight e;
          last_reinforced_at := last_reinforced_at e |}.
(** Pairs by first component, then second. *)
Definition alias_le (a b : string * string) : Prop :=
  (a.1 <> b.1 /\ string_le a.1 b.1) \/ (a.1 = b.1 /\ string_le a.2 b.2).
#[global] Instance alias_le_dec a b : Decision (alias_le a b).
Proof. unfold alias_le, string_le. apply _. Defined.

Definition to_snapshot g : BinaryGraphSnapshot :=
  let live := map (fun x : N * string * InternalNode => (x.1.2, x.2)) (iter_nodes (interner g)) in
  let name i := (fun kn : string * InternalNode => external_id kn.2) <$> (live !! N.to_nat i) in
  {| s_nodes := live;
     s_edges := sort_by (edge_le name) (omap (remap_edge (remap g)) (int_edges g));
     s_last_memory_id := last_memory_id g; s_co_occurrence := co_occurrence g;
     s_vocab_aliases := sort_by alias_le (map_to_list (g_vocab g));
     s_suppressed_concepts := suppressed_concepts g |}.

Definition intern_all (ns : list (string * InternalNode)) (t : NodeInterner) : NodeInterner :=
  foldl (fun t kn => (intern kn.1 kn.2 t).2) t ns.
Definition of_snapshot (s : BinaryGraphSnapshot) : MemoryGraph :=
  let t := intern_all (s_nodes s) empty_interner in
  let node_bound := as_u32 (len (id_to_node t)) in
  let edges := filter (fun e => source e < node_bound /\ target e < node_bound) (s_edges s) in
  {| interner := t; int_edges := edges; int_adjacency := rebuild edges;
     last_memory_id := s_last_memory_id s; last_memory_by_scope := ∅;
     co_occurrence := s_co_occurrence s; g_vocab := from_alias_pairs (s_vocab_aliases s);
     suppressed_concepts := s_suppressed_concepts s |}.

Section bytes.
Context {BS : Bincode BinaryGraphSnapshot}.
Definition to_snapshot_bytes g : Result StorageError (list byte) :=
  match b_serialize (to_snapshot g) with
  | Some payload => Ok (SNAPSHOT_MAGIC ++ to_ne_bytes LittleEndian 4 SNAPSHOT_VERSION ++ payload)
  | None => Err Serialize
  end.
Definition is_snapshot_bytes (bytes : list byte) : bool :=
  (4 <=? len bytes) && bool_decide (take 4 bytes = SNAPSHOT_MAGIC).
Definition from_snapshot_bytes (bytes : list byte) : option MemoryGraph :=
  if negb (is_snapshot_bytes bytes) then None
  else if len bytes <? 8 then None
  else if negb (from_ne_bytes LittleEndian (take 4 (drop 4 bytes)) =? SNAPSHOT_VERSION) then None
  else of_snapshot <$> b_deserialize (drop 8 bytes).
End bytes.

(** ** Legacy JSON snapshots *)

Record LegacyMemoryGraph := {
  l_nodes : gmap string Node;
  l_edges : list Edge;
  l_adjacency : gmap string (list nat);
  l_last_memory_id : option string;
  l_co_occurrence : gmap string N;
  l_vocab : ConceptVocabulary;
  l_suppressed_concepts : gset string;
}.

Definition sorted_nodes (m : gmap string Node) : list (string * Node) :=
  sort_by (fun a b => string_le a.1 b.1) (map_to_list m).
Definition of_legacy (l : LegacyMemoryGraph) : MemoryGraph :=
  let g := {| interner := empty_interner; int_edges := []; int_adjacency := ∅;
              last_memory_id := l_last_memory_id l; last_memory_by_scope := ∅;
              co_occurrence := l_co_occurrence l; g_vocab := l_vocab l;
              suppressed_concepts := l_suppressed_concepts l |} in
  let g := foldl (fun g kn =>
             let '(k, ext) := match node_id kn.2 with NMemory s => (KMemory, s) | NConcept s => (KConcept, s) end in
             (intern_node kn.1 k ext (node_text kn.2) (node_base kn.2) g).2) g (sorted_nodes (l_nodes l)) in
  let edges := omap (fun e =>
                 s ← get_node_id g (as_str (ed_source e));
                 t ← get_node_id g (as_str (ed_target e));
                 Some {| source := s; target := t; e_kind := ed_kind e; weight := ed_weight e;
                         last_reinforced_at := ed_last_reinforced_at e |}) (l_edges l) in
  set_edges edges (rebuild edges) g.

(** The indices of each source's edges; [None] is an index out of range. *)
Fixpoint legacy_adjacency (g : MemoryGraph) (idx : nat) (es : list InternalEdge)
    (m : gmap string (list nat)) : option (gmap string (list nat)) :=
  match es with
  | [] => Some m
  | e :: es =>
      k ← id_to_key (interner g) !! N.to_nat (source e);
      legacy_adjacency g (S idx) es (<[k := default [] (m !! k) ++ [idx]]> m)
  end.
Definition to_legacy g : option LegacyMemoryGraph :=
  es ← edges g;
  adj ← legacy_adjacency g 0 (int_edges g) ∅;
  Some {| l_nodes := nodes g; l_edges := es; l_adjacency := adj;
          l_last_memory_id := last_memory_id g; l_co_occurrence := co_occurrence g;
          l_vocab := g_vocab g; l_suppressed_concepts := suppressed_concepts g |}.

Section json.
(** [serde_json] on the legacy format. *)
Context (to_string_pretty : LegacyMemoryGraph -> option string)
  (from_str : string -> option LegacyMemoryGraph).
Definition to_json g : option string :=
  l ← to_legacy (compact g); Some (default ""%string (to_string_pretty l)).
Definition from_json (s : string) : option MemoryGraph := of_legacy <$> from_str s.
End json.

(** ** Accessors for the activation search *)

Definition memory_node_id g (id : string) : option N := get_node_id g (mem_key id).
Definition neighbor_indices g (nid : N) : option (list nat) := int_adjacency g !! nid.
Definition get_edge g (idx : nat) : option InternalEdge := int_edges g !! idx.
Definition node_external_id g (nid : N) : option string := external_id <$> get_node (interner g) nid.
Definition node_kind g (nid : N) : option NodeKind := kind <$> get_node (interner g) nid.
End graph.
