(* ===== verification/GraphProofs.v ===== *)
(** * Properties of the cognitive graph

    The structural invariant of the graph and its preservation by every operation;
    the belief walks; snapshots. *)

From S2P Require Import Prelude Core Floats Vocabulary Record Graph.

(** ** Adjacency *)

Lemma rebuild_loop_snoc l e idx a :
  rebuild_loop idx (l ++ [e]) a = adj_add (source e) (idx + length l) (rebuild_loop idx l a).
Proof.
  revert idx a. induction l as [|x l IH]; intros idx a; simpl.
  - by rewrite Nat.add_0_r.
  - rewrite IH. f_equal. lia.
Qed.

Lemma rebuild_snoc l e : rebuild (l ++ [e]) = adj_add (source e) (length l) (rebuild l).
Proof. unfold rebuild. by rewrite rebuild_loop_snoc. Qed.

(** Only the sources matter. *)
Lemma rebuild_sources l l' : map source l = map source l' -> rebuild l = rebuild l'.
Proof.
  unfold rebuild. generalize 0%nat (∅ : gmap N (list nat)). revert l'.
  induction l as [|e l IH]; intros [|e' l'] idx a H; simpl in *; try done.
  injection H as -> H. by apply IH.
Qed.

Lemma elem_of_rebuild l s i :
  i ∈ default [] (rebuild l !! s) <-> exists e, l !! i = Some e /\ source e = s.
Proof.
  induction l as [|e l IH] using rev_ind.
  { unfold rebuild. simpl. rewrite lookup_empty. simpl. split; [set_solver|]. intros (e & He & _). done. }
  rewrite rebuild_snoc. unfold adj_add. destruct (decide (source e = s)) as [<-|Hne].
  - rewrite lookup_insert_eq. simpl. rewrite elem_of_app, IH, list_elem_of_singleton. split.
    + intros [(e' & He & Hs)| ->]; [exists e'; split; [by apply lookup_app_l_Some|done]|].
      exists e. by rewrite list_lookup_middle.
    + intros (e' & He & Hs). apply lookup_snoc_Some in He as [[_ He]|[-> <-]]; eauto.
  - rewrite lookup_insert_ne by done. rewrite IH. split.
    + intros (e' & He & Hs). exists e'. split; [by apply lookup_app_l_Some|done].
    + intros (e' & He & Hs). apply lookup_snoc_Some in He as [[_ He]|[-> <-]]; [eauto|done].
Qed.

(** ** The invariant *)

Definition nkeys (g : MemoryGraph) : N := len (id_to_key (interner g)).
(** A node that is not a tombstone. *)
Definition live_id (g : MemoryGraph) (i : N) : Prop := exists k, key_to_id (interner g) !! k = Some i.

Record graph_ok (g : MemoryGraph) : Prop := {
  go_len : length (id_to_node (interner g)) = length (id_to_key (interner g));
  go_keys : forall k i, key_to_id (interner g) !! k = Some i ->
    id_to_key (interner g) !! N.to_nat i = Some k;
  go_edges : forall e, e ∈ int_edges g -> live_id g (source e) /\ live_id g (target e);
  go_adj : int_adjacency g = rebuild (int_edges g);
}.

Lemma live_node g i : graph_ok g -> live_id g i -> is_Some (get_node (interner g) i).
Proof.
  intros Hg [k Hk]. apply (go_keys _ Hg) in Hk. apply lookup_lt_Some in Hk.
  unfold get_node. apply lookup_lt_is_Some. rewrite (go_len _ Hg). done.
Qed.

(** A step that only adds: no node dies, and the invariant is kept as long as the
    node ids fit in 32 bits. *)
Record grow (g g' : MemoryGraph) : Prop := {
  gr_keys : nkeys g <= nkeys g';
  gr_ids : forall k i, get_node_id g k = Some i -> get_node_id g' k = Some i;
  gr_ok : graph_ok g -> nkeys g' <= U32 -> graph_ok g';
}.

Lemma gr_live g g' : grow g g' -> forall i, live_id g i -> live_id g' i.
Proof. intros Hg i [k Hk]. exists k. by apply (gr_ids _ _ Hg). Qed.

#[global] Instance grow_refl : Reflexive grow.
Proof. intros g. by split. Qed.
#[global] Instance grow_trans : Transitive grow.
Proof.
  intros g1 g2 g3 [A1 A2 A3] [B1 B2 B3]. split; [lia|auto|]. intros Hg Hn. apply B3; [|done].
  apply A3; [done|lia].
Qed.

Lemma grow_fold {A} (f : MemoryGraph -> A -> MemoryGraph) (P : MemoryGraph -> Prop) l g :
  (forall g g', grow g g' -> P g -> P g') -> (forall g x, P g -> grow g (f g x)) ->
  P g -> grow g (foldl f g l).
Proof.
  intros HP Hf. revert g. induction l as [|x l IH]; intros g Hg; simpl; [done|].
  transitivity (f g x); [auto|]. apply IH. eapply HP; eauto.
Qed.

Lemma grow_same g g' :
  interner g' = interner g -> int_edges g' = int_edges g -> int_adjacency g' = int_adjacency g ->
  grow g g'.
Proof.
  intros E1 E2 E3. split.
  - unfold nkeys. by rewrite E1.
  - unfold get_node_id. by rewrite E1.
  - intros [H1 H2 H3 H4] _. split; unfold live_id in *; rewrite ?E1, ?E2, ?E3; auto.
Qed.

Lemma grow_set_co c g : grow g (set_co c g). Proof. by apply grow_same. Qed.
Lemma grow_set_last l s g : grow g (set_last l s g). Proof. by apply grow_same. Qed.
Lemma grow_set_vocab v s g : grow g (set_vocab v s g). Proof. by apply grow_same. Qed.

Lemma intern_node_spec key k ext text base g :
  let '(id, g') := intern_node key k ext text base g in
  grow g g' /\ get_node_id g' key = Some id.
Proof.
  unfold intern_node, intern, get_node_id. destruct (key_to_id (interner g) !! key) as [id|] eqn:Hk; [done|].
  split; [|simpl; by rewrite lookup_insert_eq]. split.
  - unfold nkeys, len. simpl. rewrite length_app. simpl. lia.
  - unfold get_node_id. intros k' i Hk'. simpl. rewrite lookup_insert_ne; [done|congruence].
  - intros [H1 H2 H3 H4]. unfold nkeys, len. simpl. rewrite length_app. simpl. intros Hn.
    assert (Hid : as_u32 (len (id_to_key (interner g))) = len (id_to_key (interner g))).
    { apply as_u32_small. unfold len. lia. }
    unfold len in Hid. split; simpl; auto.
    + rewrite !length_app. simpl. lia.
    + intros k' i. rewrite Hid, lookup_insert_Some. intros [[<- <-]|[Hne Hk']].
      * rewrite Nat2N.id. by apply list_lookup_middle.
      * by apply lookup_app_l_Some, H2.
    + intros e He. destruct (H3 e He) as [[k1 Hk1] [k2 Hk2]].
      split; [exists k1|exists k2]; simpl; rewrite lookup_insert_ne; congruence.
Qed.

Lemma grow_push e g : live_id g (source e) -> live_id g (target e) -> grow g (push_edge e g).
Proof.
  intros Hs Ht. split; [done|done|]. intros [H1 H2 H3 H4] _. split; simpl; auto.
  - intros e' [He|[->|He]%elem_of_cons]%elem_of_app; [by apply H3|done|set_solver].
  - by rewrite H4, rebuild_snoc.
Qed.
Lemma grow_add_edge s t k w g : live_id g s -> live_id g t -> grow g (add_int_edge s t k w g).
Proof. intros Hs Ht. by apply grow_push. Qed.

(** Changing weights in place. *)
Definition same_ends (f : InternalEdge -> InternalEdge) : Prop :=
  forall e, source (f e) = source e /\ target (f e) = target e.

Lemma grow_map_edges f g :
  (forall e, source (f e) = source e /\ target (f e) = target e) ->
  grow g (set_edges (map f (int_edges g)) (int_adjacency g) g).
Proof.
  intros Hf. split; [done|done|]. intros [H1 H2 H3 H4] _. split; simpl; auto.
  - intros e (e' & -> & He)%list_elem_of_fmap. destruct (Hf e') as [-> ->]. by apply H3.
  - rewrite H4. apply rebuild_sources. rewrite map_map. apply map_ext. intros e. by rewrite (proj1 (Hf e)).
Qed.

Lemma grow_update i f g : same_ends f -> grow g (update_edge i f g).
Proof.
  intros Hf. split; [done|done|]. intros [H1 H2 H3 H4] _. split; simpl; auto.
  - intros e (j & Hj)%list_elem_of_lookup. rewrite list_lookup_alter in Hj.
    destruct (decide (i = j)) as [->|]; [|apply H3; apply list_elem_of_lookup; eauto].
    destruct (int_edges g !! j) as [e'|] eqn:He; [|done]. injection Hj as <-.
    destruct (Hf e') as [-> ->]. apply H3, list_elem_of_lookup. eauto.
  - rewrite H4. apply rebuild_sources. clear -Hf. generalize (int_edges g) i.
    intros l. induction l as [|e l IH]; intros j; [done|].
    destruct j as [|j]; simpl; [by rewrite (proj1 (Hf e))|]. f_equal. apply IH.
Qed.

Lemma grow_updates l f g : same_ends f -> grow g (foldl (fun g i => update_edge i f g) g l).
Proof. intros Hf. apply (grow_fold _ (fun _ => True)); auto. intros g' i _. by apply grow_update. Qed.

Lemma grow_ensure s t k w a g : live_id g s -> live_id g t -> grow g (ensure_int_edge s t k w a g).
Proof.
  intros Hs Ht. unfold ensure_int_edge. destruct (list_find _ _) as [[? [i ?]]|].
  - by apply grow_update.
  - by apply grow_push.
Qed.

Lemma node_live g key i : get_node_id g key = Some i -> live_id g i.
Proof. unfold live_id, get_node_id. eauto. Qed.
#[global] Hint Resolve node_live : core.

Section graph_steps.
Context {U : Unicode} {L : Libm}.
Implicit Types g : MemoryGraph.

(** *** Every operation grows the graph, or drops one node *)

Lemma link_concept_grow m imp g c : live_id g m -> grow g (link_concept m imp g c).
Proof.
  intros Hm. unfold link_concept. pose proof (intern_node_spec (concept_key c) KConcept c c f32_zero g) as Hi.
  destruct (intern_node _ _ _ _ _ g) as [i g1]. destruct Hi as [Hg Hi].
  pose proof (gr_live _ _ Hg m Hm) as Hm1. apply node_live in Hi.
  pose proof (grow_add_edge m i Association imp g1 Hm1 Hi) as Hg2.
  transitivity g1; [done|]. transitivity (add_int_edge m i Association imp g1); [done|].
  by apply grow_add_edge; apply (gr_live _ _ Hg2).
Qed.

Lemma attach_concept_grow m imp g c : live_id g m -> grow g (attach_concept m imp g c).
Proof.
  intros Hm. unfold attach_concept. pose proof (intern_node_spec (concept_key c) KConcept c c f32_zero g) as Hi.
  destruct (intern_node _ _ _ _ _ g) as [i g1]. destruct Hi as [Hg Hi].
  pose proof (gr_live _ _ Hg m Hm) as Hm1. apply node_live in Hi.
  pose proof (grow_ensure m i Association imp 0 g1 Hm1 Hi) as Hg2.
  transitivity g1; [done|]. etransitivity; [exact Hg2|].
  by apply grow_ensure; apply (gr_live _ _ Hg2).
Qed.

Lemma take_previous_grow scope g : grow g (take_previous scope g).2.
Proof.
  unfold take_previous. destruct (last_memory_by_scope g !! _); [apply grow_set_last|].
  destruct scope; [done|apply grow_set_last].
Qed.

Lemma chain_memory_grow id m imp scope g : live_id g m -> grow g (chain_memory id m imp scope g).
Proof.
  intros Hm. unfold chain_memory. pose proof (take_previous_grow scope g) as Hg.
  destruct (take_previous scope g) as [prev g1]. simpl in Hg. apply (gr_live _ _ Hg) in Hm.
  etransitivity; [exact Hg|]. destruct prev as [prev|]; [|apply grow_set_last].
  destruct (get_node_id g1 (mem_key prev)) as [p|] eqn:Hp; [|apply grow_set_last].
  etransitivity; [apply (grow_add_edge p m Temporal (f32_mul f32_half imp)); eauto|apply grow_set_last].
Qed.

Lemma add_memory_scoped_grow id text cs imp scope g : grow g (add_memory_scoped id text cs imp scope g).
Proof.
  unfold add_memory_scoped.
  pose proof (intern_node_spec (mem_key id) KMemory id text (importance_factor imp) g) as Hi.
  destruct (intern_node _ _ _ _ _ g) as [m g1]. destruct Hi as [Hg Hi]. apply node_live in Hi.
  etransitivity; [exact Hg|].
  pose proof (grow_fold (link_concept m (importance_factor imp)) (fun g => live_id g m)
    (normalize_concepts (g_vocab g1) cs ∅) g1) as Hf.
  etransitivity; [apply Hf; [intros ? ? Hgr; apply (gr_live _ _ Hgr)|intros; by apply link_concept_grow|done]|].
  assert (live_id (foldl (link_concept m (importance_factor imp)) g1 (normalize_concepts (g_vocab g1) cs ∅)) m) as Hm.
  { eapply gr_live; [|exact Hi]. apply Hf; [intros ? ? Hgr; apply (gr_live _ _ Hgr)|intros; by apply link_concept_grow|done]. }
  destruct (_ <? _); [etransitivity; [apply grow_set_co|]|]; apply chain_memory_grow; [|done].
  eapply gr_live; [apply grow_set_co|done].
Qed.

Lemma add_concepts_grow id cs imp g : grow g (add_concepts_to_memory id cs imp g).1.
Proof.
  unfold add_concepts_to_memory. destruct (get_node_id g (mem_key id)) as [m|] eqn:Hm; [|done]. simpl.
  apply (grow_fold _ (fun g => live_id g m)); eauto using attach_concept_grow.
  intros g1 g2 Hgr. apply (gr_live _ _ Hgr).
Qed.

Lemma strengthen_ends now : same_ends (strengthen now). Proof. by intros e. Qed.
Lemma rescale_ends r : same_ends (rescale r). Proof. by intros e. Qed.
Lemma weaken_ends r : same_ends (weaken r). Proof. intros e. unfold weaken. by destruct (own_kind e). Qed.
Lemma decay_ends n h : same_ends (decay_edge n h). Proof. intros e. unfold decay_edge. by destruct (_ =? _). Qed.

Lemma reinforce_grow id now g : grow g (reinforce id now g).
Proof.
  unfold reinforce. destruct (get_node_id g (mem_key id)) as [m|]; [|done].
  etransitivity; [apply grow_updates, strengthen_ends|]. apply grow_map_edges.
  intros e. by case_decide.
Qed.
Lemma decay_grow now hl g : grow g (decay_edges now hl g).
Proof. unfold decay_edges. destruct (hl =? 0); [done|]. apply grow_map_edges, decay_ends. Qed.

Lemma set_base_grow i b g : grow g (set_interner (set_base i b (interner g)) g).
Proof.
  split; [done|done|]. intros [H1 H2 H3 H4] _. split; simpl; auto. by rewrite length_alter.
Qed.
Lemma reweight_grow id imp g : grow g (reweight_memory id imp g).1.
Proof.
  unfold reweight_memory. destruct (get_node_id g (mem_key id)) as [m|]; [|done].
  destruct (own_idxs m g) as [|i own]; [done|]. simpl fst.
  etransitivity; [apply (grow_updates (i :: own)), rescale_ends|apply set_base_grow].
Qed.

Lemma link_parent_grow p gn c : live_id gn.1 p -> grow gn.1 (link_parent p gn c).1.
Proof.
  destruct gn as [g n]. simpl. intros Hp. unfold link_parent.
  destruct (match get_node_id g c with Some _ => _ | None => _ end); [done|].
  assert (Hc : let '(i, g') := match get_node_id g c with
      | Some cid => (cid, g)
      | None => intern_node c KConcept (strip "concept:" c) (strip "concept:" c) f32_zero g
      end in grow g g' /\ live_id g' i).
  { destruct (get_node_id g c) as [cid|] eqn:Hc; [split; eauto; reflexivity|].
    pose proof (intern_node_spec c KConcept (strip "concept:" c) (strip "concept:" c) f32_zero g) as Hi.
    destruct (intern_node _ _ _ _ _ g) as [i g1]. destruct Hi as [? Hi]. eauto. }
  destruct (match get_node_id g c with Some _ => _ | None => _ end) as [i g1]. destruct Hc as [Hg Hi].
  simpl. pose proof (gr_live _ _ Hg p Hp) as Hp1. etransitivity; [exact Hg|].
  pose proof (grow_add_edge i p Abstraction f32_one g1 Hi Hp1) as Hg2.
  etransitivity; [exact Hg2|]. by apply grow_add_edge; apply (gr_live _ _ Hg2).
Qed.

Lemma abstract_pair_grow gn k : grow gn.1 (abstract_pair gn k).1.
Proof.
  destruct gn as [g n]. unfold abstract_pair. destruct (split_nul k) as [a b].
  set (pn := if String.leb _ _ then _ else _).
  pose proof (intern_node_spec (concept_key pn) KConcept pn pn f32_zero g) as Hi.
  destruct (intern_node _ _ _ _ _ g) as [p g1]. destruct Hi as [Hg Hi]. apply node_live in Hi.
  cbn [foldl]. pose proof (link_parent_grow p (g1, n) a Hi) as H1.
  pose proof (link_parent_grow p (link_parent p (g1, n) a) b (gr_live _ _ H1 _ Hi)) as H2.
  destruct (link_parent p (link_parent p (g1, n) a) b) as [g3 n3]. simpl in *.
  etransitivity; [exact Hg|]. etransitivity; [exact H1|]. etransitivity; [exact H2|]. apply grow_set_co.
Qed.

Lemma build_abstractions_grow t g : grow g (build_abstractions t g).1.
Proof.
  unfold build_abstractions. destruct (t =? 0); [done|].
  generalize (filter (fun kc : string * N => t <= kc.2) (sorted_counts (co_occurrence g))).*1.
  intros l. change g with ((g, 0) : MemoryGraph * N).1 at 1. generalize ((g, 0) : MemoryGraph * N).
  induction l as [|k l IH]; intros gn; simpl; [done|]. etransitivity; [apply abstract_pair_grow|apply IH].
Qed.

Lemma add_refinement_grow o n w g : grow g (add_refinement o n w g).1.
Proof.
  unfold add_refinement. destruct (get_node_id g (mem_key o)) eqn:?; [|done].
  destruct (get_node_id g (mem_key n)) eqn:?; [|done]. destruct (has_edge _ _ _ _); [done|].
  simpl. apply grow_add_edge; eauto.
Qed.
Lemma add_contradiction_grow o n w f g : grow g (add_contradiction o n w f g).1.
Proof.
  unfold add_contradiction. destruct (get_node_id g (mem_key o)) as [oi|] eqn:Ho; [|done].
  destruct (get_node_id g (mem_key n)) as [ni|] eqn:Hn; [|done]. destruct (has_edge _ _ _ _); [done|].
  cbn [fst]. pose proof (grow_updates (adj_get g oi) (weaken f) g (weaken_ends f)) as Hg.
  etransitivity; [exact Hg|]. apply grow_add_edge; apply (gr_live _ _ Hg); eauto.
Qed.

(** A step that may drop a node. *)
Definition steps (g g' : MemoryGraph) : Prop :=
  nkeys g <= nkeys g' /\ (graph_ok g -> nkeys g' <= U32 -> graph_ok g').
#[global] Instance steps_refl : Reflexive steps. Proof. by intros g. Qed.
#[global] Instance steps_trans : Transitive steps.
Proof.
  intros g1 g2 g3 [A1 A2] [B1 B2]. split; [lia|]. intros Hg Hn. apply B2; [|done]. apply A2; [done|lia].
Qed.
Lemma grow_steps g g' : grow g g' -> steps g g'.
Proof. intros [H1 _ H3]. by split. Qed.

Lemma drop_node_steps key i g :
  get_node_id g key = Some i -> steps g (drop_node key i g).
Proof.
  intros Hk. split; [done|]. intros [H1 H2 H3 H4] _. split; simpl; auto.
  - intros k j Hj. apply lookup_delete_Some in Hj as [_ Hj]. auto.
  - intros e [[Hs Ht] He]%list_elem_of_filter. destruct (H3 e He) as [[k1 Hk1] [k2 Hk2]].
    split; [exists k1|exists k2]; simpl; rewrite lookup_delete_ne; try done; intros <-;
      unfold get_node_id in Hk; congruence.
Qed.

Lemma rename_steps i old new name g :
  get_node_id g old = Some i -> get_node_id g new = None ->
  steps g (set_interner (rename_node i old new name (interner g)) g).
Proof.
  unfold get_node_id. intros Ho Hn. split.
  { unfold nkeys, len. simpl. by rewrite length_insert. }
  intros [H1 H2 H3 H4] _. pose proof (H2 _ _ Ho) as Hi.
  assert (Hlive : forall k j, key_to_id (interner g) !! k = Some j ->
    live_id (set_interner (rename_node i old new name (interner g)) g) j).
  { intros k j Hj. unfold live_id. simpl. destruct (decide (k = old)) as [->|Hne].
    - exists new. rewrite lookup_insert_eq. congruence.
    - exists k. rewrite lookup_insert_ne by congruence. by rewrite lookup_delete_ne. }
  split; simpl; auto.
  - by rewrite length_insert, length_alter.
  - intros k j Hj. apply lookup_insert_Some in Hj as [[<- <-]|[Hne Hj]].
    + apply list_lookup_insert_eq. by apply lookup_lt_Some in Hi.
    + apply lookup_delete_Some in Hj as [Hne' Hj]. pose proof (H2 _ _ Hj) as Hj'.
      rewrite list_lookup_insert_ne; [done|]. intros E. rewrite <- E in Hj'. congruence.
  - intros e He. destruct (H3 e He) as [[k1 Hk1] [k2 Hk2]]. eauto.
Qed.

Lemma learn_alias_steps a c g : steps g (learn_alias a c g).
Proof. apply grow_steps, grow_set_vocab. Qed.

(** Migrating an alias's edges: the endpoints of an edge of the graph are live. *)
Definition ends_live (es : list InternalEdge) g : Prop :=
  forall e, e ∈ es -> live_id g (source e) /\ live_id g (target e).

Lemma ends_live_grow es g g' : grow g g' -> ends_live es g -> ends_live es g'.
Proof. intros Hg He e Hin. destruct (He e Hin). split; by apply (gr_live _ _ Hg). Qed.

Lemma migrate_out_grow c g e : live_id g c -> live_id g (target e) -> grow g (migrate_out c g e).
Proof.
  intros Hc Ht. unfold migrate_out. destruct (get_node _ _); [|done]. destruct (get_node _ _); [|done].
  destruct (e_kind e); try done; (destruct (_ && _); [by apply grow_ensure|done]).
Qed.
Lemma migrate_in_grow c g e : live_id g c -> live_id g (source e) -> grow g (migrate_in c g e).
Proof.
  intros Hc Ht. unfold migrate_in. destruct (get_node _ _) as [s|]; [|done]. destruct (get_node _ _); [|done].
  destruct (e_kind e); try done; [destruct (is_memory s)|destruct (is_concept s)]; try done; by apply grow_ensure.
Qed.

Lemma migrate_fold (f : MemoryGraph -> InternalEdge -> MemoryGraph) c es g :
  (forall g e, live_id g c -> live_id g (source e) -> live_id g (target e) -> grow g (f g e)) ->
  live_id g c -> ends_live es g -> grow g (foldl f g es).
Proof.
  intros Hf. revert g. induction es as [|e es IH]; intros g Hc He; simpl; [done|].
  destruct (He e) as [Hs Ht]; [set_solver|]. pose proof (Hf g e Hc Hs Ht) as Hg.
  etransitivity; [exact Hg|]. apply IH; [by apply (gr_live _ _ Hg)|].
  apply (ends_live_grow es _ _ Hg). intros e' He'. apply He. set_solver.
Qed.

Lemma elem_of_out_edges g s i e :
  (i, e) ∈ out_edges g s -> int_edges g !! i = Some e.
Proof.
  unfold out_edges. rewrite list_elem_of_omap. intros (j & _ & Hj).
  destruct (int_edges g !! j) eqn:E; simplify_eq/=; done.
Qed.

(** Migrating interns nothing. *)
Lemma ensure_nkeys s t k w a g : nkeys (ensure_int_edge s t k w a g) = nkeys g.
Proof. unfold ensure_int_edge. by destruct (list_find _ _) as [[? [i ?]]|]. Qed.
Lemma migrate_out_nkeys c g e : nkeys (migrate_out c g e) = nkeys g.
Proof.
  unfold migrate_out. destruct (get_node _ _); [|done]. destruct (get_node _ _); [|done].
  destruct (e_kind e); try done; (destruct (_ && _); [apply ensure_nkeys|done]).
Qed.
Lemma migrate_in_nkeys c g e : nkeys (migrate_in c g e) = nkeys g.
Proof.
  unfold migrate_in. destruct (get_node _ _) as [s|]; [|done]. destruct (get_node _ _); [|done].
  destruct (e_kind e); try done; [destruct (is_memory s)|destruct (is_concept s)]; try done; apply ensure_nkeys.
Qed.
Lemma fold_nkeys {A} (f : MemoryGraph -> A -> MemoryGraph) l g :
  (forall g x, nkeys (f g x) = nkeys g) -> nkeys (foldl f g l) = nkeys g.
Proof. intros Hf. revert g. induction l as [|x l IH]; intros g; simpl; [done|]. by rewrite IH, Hf. Qed.

Lemma merge_concept_nkeys a c g : nkeys (merge_concept_node a c g).1 = nkeys g.
Proof.
  unfold merge_concept_node. destruct (get_node_id g (concept_key a)) as [ai|]; [|done].
  destruct (get_node_id g (concept_key c)) as [ci|]; simpl.
  - unfold nkeys at 1. simpl. fold (nkeys (foldl (migrate_in ci)
      (foldl (migrate_out ci) g (out_edges g ai).*2) (filter (fun e => target e = ai) (int_edges g)))).
    rewrite !fold_nkeys by auto using migrate_in_nkeys, migrate_out_nkeys. done.
  - unfold nkeys, len. simpl. by rewrite length_insert.
Qed.

Lemma merge_concept_steps a c g : steps g (merge_concept_node a c g).1.
Proof.
  split; [by rewrite merge_concept_nkeys|]. intros Hok Hn.
  assert (Hs : steps g (merge_concept_node a c g).1); [|by apply Hs]. clear Hn.
  unfold merge_concept_node.
  destruct (get_node_id g (concept_key a)) as [ai|] eqn:Ha; [|done].
  destruct (get_node_id g (concept_key c)) as [ci|] eqn:Hc.
  2: { simpl. etransitivity; [by apply rename_steps|apply learn_alias_steps]. }
  simpl. set (g1 := foldl (migrate_out ci) g _).
  assert (H1 : grow g g1).
  { apply (migrate_fold _ ci); eauto using migrate_out_grow.
    intros e ([i e'] & -> & He)%list_elem_of_fmap. apply elem_of_out_edges in He. simpl.
    apply (go_edges _ Hok). apply list_elem_of_lookup. eauto. }
  assert (H2 : grow g1 (foldl (migrate_in ci) g1 (filter (fun e => target e = ai) (int_edges g)))).
  { apply (migrate_fold _ ci); eauto using migrate_in_grow.
    - apply (gr_live _ _ H1). eauto.
    - apply (ends_live_grow _ _ _ H1). intros e [_ He]%list_elem_of_filter. by apply (go_edges _ Hok). }
  etransitivity; [apply grow_steps; exact H1|]. etransitivity; [apply grow_steps; exact H2|].
  etransitivity; [|apply learn_alias_steps]. apply drop_node_steps.
  by apply (gr_ids _ _ H2), (gr_ids _ _ H1).
Qed.

Lemma try_merge_steps n gm c : steps gm.1 (try_merge n gm c).1.
Proof.
  destruct gm as [g m]. unfold try_merge. destruct (n <=? m); [done|].
  case_bool_decide; [done|].
  destruct (if _ || _ then _ else _) as [canonical alias].
  pose proof (merge_concept_steps alias canonical g) as Hs.
  by destruct (merge_concept_node alias canonical g) as [g1 [|]].
Qed.

Lemma evolve_steps o h n g : steps g (evolve_vocabulary o h n g).1.
Proof.
  unfold evolve_vocabulary. destruct (n =? 0); [done|].
  set (cs := sort_by candidate_le _).
  assert (Hf : steps g (foldl (try_merge n) (g, 0) cs).1).
  { change g with ((g, 0) : MemoryGraph * N).1 at 1. clearbody cs. generalize ((g, 0) : MemoryGraph * N).
    induction cs as [|c cs IH]; intros gm; simpl; [done|]. etransitivity; [apply try_merge_steps|apply IH]. }
  destruct (foldl (try_merge n) (g, 0) cs) as [g1 m]. simpl in *.
  etransitivity; [exact Hf|]. transitivity (suppress_hubs h g1).
  - unfold suppress_hubs. destruct (f32_gtb _ _); [|done]. apply grow_steps, grow_set_vocab.
  - apply grow_steps, grow_set_co.
Qed.

Lemma remove_memory_steps id g : steps g (remove_memory id g).
Proof.
  unfold remove_memory. destruct (get_node_id g (mem_key id)) eqn:H; [|done]. by apply drop_node_steps.
Qed.

Lemma compact_steps g : steps g (compact g).
Proof.
  split; [done|]. intros [H1 H2 H3 H4] _. split; simpl; auto.
  intros e He. rewrite sort_by_perm in He. by apply H3.
Qed.
End graph_steps.

(** ** Snapshots *)

(** An interner without tombstones. *)
Definition dense (t : NodeInterner) : Prop :=
  length (id_to_node t) = length (id_to_key t) /\
  forall k i, key_to_id t !! k = Some i <-> id_to_key t !! N.to_nat i = Some k.

Lemma intern_dense k n t :
  dense t -> len (id_to_key (intern k n t).2) <= U32 -> dense (intern k n t).2.
Proof.
  intros [Hl Hd]. unfold intern. destruct (key_to_id t !! k) as [i|] eqn:Hk; [done|]. simpl.
  unfold len. rewrite length_app. simpl. intros Hn. rewrite as_u32_small by lia.
  split; [simpl; by rewrite !length_app, Hl|]. intros k' i. simpl. rewrite lookup_insert_Some. split.
  - intros [[<- <-]|[_ Hi]]; [rewrite Nat2N.id; by apply list_lookup_middle|].
    apply lookup_app_l_Some. by apply Hd.
  - intros [[Hlt Hi]|[Hi <-]]%lookup_snoc_Some; [|left; split; [done|lia]].
    right. apply Hd in Hi. split; [congruence|done].
Qed.

Lemma intern_len k n t : len (id_to_key t) <= len (id_to_key (intern k n t).2).
Proof.
  unfold intern. destruct (key_to_id t !! k); [done|]. simpl. unfold len. rewrite length_app. lia.
Qed.

Lemma intern_all_len ns t : len (id_to_key t) <= len (id_to_key (intern_all ns t)).
Proof.
  revert t. induction ns as [|[k n] ns IH]; intros t; simpl; [done|].
  etransitivity; [apply (intern_len k n)|apply IH].
Qed.

Lemma intern_all_dense ns t :
  dense t -> len (id_to_key (intern_all ns t)) <= U32 -> dense (intern_all ns t).
Proof.
  revert t. induction ns as [|[k n] ns IH]; intros t Ht Hn; simpl in *; [done|].
  apply IH; [|done]. apply intern_dense; [done|].
  pose proof (intern_all_len ns (intern k n t).2). unfold intern_all in *. lia.
Qed.

Lemma dense_empty : dense empty_interner.
Proof. split; [done|]. intros k i. simpl. rewrite lookup_empty. by rewrite lookup_nil. Qed.

(** Distinct keys are interned in order. *)
Lemma intern_all_fresh ns t :
  NoDup ns.*1 -> (forall k, k ∈ ns.*1 -> key_to_id t !! k = None) ->
  id_to_key (intern_all ns t) = id_to_key t ++ ns.*1 /\
  id_to_node (intern_all ns t) = id_to_node t ++ ns.*2.
Proof.
  revert t. induction ns as [|[k n] ns IH]; intros t Hnd Hf; simpl; [by rewrite !app_nil_r|].
  apply NoDup_cons in Hnd as [Hk Hnd]. assert (Hn : key_to_id t !! k = None) by (apply Hf; set_solver).
  destruct (IH (intern k n t).2 Hnd) as [E1 E2].
  - intros k' Hk'. unfold intern. rewrite Hn. simpl.
    rewrite lookup_insert_ne; [apply Hf; set_solver|set_solver].
  - unfold intern_all in *. simpl. rewrite E1, E2. unfold intern. rewrite Hn. simpl.
    by rewrite <- !app_assoc.
Qed.

Section snapshots.
Context {U : Unicode}.
Implicit Types g : MemoryGraph.

(** Loading any snapshot, a corrupt one included, gives a well-formed graph. *)
Lemma of_snapshot_ok s : nkeys (of_snapshot s) <= U32 -> graph_ok (of_snapshot s).
Proof.
  unfold nkeys. intros Hn. destruct (intern_all_dense (s_nodes s) empty_interner dense_empty Hn) as [Hl Hd].
  split; simpl in *; auto.
  - intros k i Hk. by apply Hd.
  - intros e [[Hs Ht] _]%list_elem_of_filter.
    assert (Hb : as_u32 (len (id_to_node (intern_all (s_nodes s) empty_interner)))
      <= len (id_to_key (intern_all (s_nodes s) empty_interner))).
    { unfold as_u32, len in *. rewrite Hl. apply N.Div0.mod_le. }
    unfold live_id. simpl. unfold len in Hb.
    assert (Hin : forall j, j < as_u32 (len (id_to_node (intern_all (s_nodes s) empty_interner))) ->
      exists k, key_to_id (intern_all (s_nodes s) empty_interner) !! k = Some j).
    { intros j Hj. destruct (lookup_lt_is_Some_2 (id_to_key (intern_all (s_nodes s) empty_interner)) (N.to_nat j))
        as [k Hk]; [unfold len in *; lia|]. exists k. by apply Hd. }
    auto.
Qed.

(** *** The live nodes *)

Lemma zip_entry t j k n :
  (j, (k, n)) ∈ zip (seq 0 (length (id_to_key t))) (zip (id_to_key t) (id_to_node t)) <->
  id_to_key t !! j = Some k /\ id_to_node t !! j = Some n.
Proof.
  rewrite elem_of_lookup_zip_with. split.
  - intros (i & x & [y z] & E & Hx & Hy). injection E as <- <- <-.
    apply lookup_seq in Hx as [-> _]. simpl in *. by apply lookup_zip_Some in Hy.
  - intros [H1 H2]. exists j, j, (k, n). split; [done|]. split; [|by apply lookup_zip_Some].
    apply lookup_seq. split; [lia|]. by apply lookup_lt_Some in H1.
Qed.

Lemma elem_of_iter g i k n :
  graph_ok g -> nkeys g <= U32 ->
  (i, k, n) ∈ iter_nodes (interner g) <->
  get_node_id g k = Some i /\ get_node (interner g) i = Some n.
Proof.
  intros Hg Hn. unfold iter_nodes. rewrite list_elem_of_omap. unfold nkeys, len in Hn. split.
  - intros ([j [k' n']] & Hin & He). unfold live_entry in He. simpl in He. case_decide as Hk; [|done].
    injection He as <- <- <-. apply zip_entry in Hin as [H1 H2]. apply lookup_lt_Some in H1 as Hj.
    split; [done|]. unfold get_node. rewrite as_u32_small, Nat2N.id by lia. done.
  - intros [Hk Hi]. pose proof (go_keys _ Hg _ _ Hk) as Hik. apply lookup_lt_Some in Hik as Hj.
    exists (N.to_nat i, (k, n)). split; [by apply zip_entry|]. unfold live_entry. simpl.
    rewrite N2Nat.id, as_u32_small by lia. by rewrite decide_True.
Qed.

Lemma iter_ids_nodup g :
  nkeys g <= U32 -> NoDup (map (fun x : N * string * InternalNode => x.1.1) (iter_nodes (interner g))).
Proof.
  unfold iter_nodes, nkeys, len. intros Hn.
  set (l := zip (seq 0 _) _).
  assert (Hnd : NoDup l.*1 /\ Forall (fun j => N.of_nat j < U32) l.*1).
  { assert (Hsub : l.*1 `prefix_of` seq 0 (length (id_to_key (interner g)))).
    { unfold l. generalize (zip (id_to_key (interner g)) (id_to_node (interner g))).
      generalize (seq 0 (length (id_to_key (interner g)))). intros s. induction s as [|j s IH]; intros z;
        [destruct z; apply prefix_nil|]. destruct z as [|y z]; [apply prefix_nil|]. simpl. apply prefix_cons, IH. }
    destruct Hsub as [s' E]. split.
    { pose proof (NoDup_seq 0 (length (id_to_key (interner g)))) as Hs. rewrite E in Hs. apply NoDup_app in Hs as [Hs _]. exact Hs. }
    apply Forall_forall. intros j Hj.
    assert (Hin : j ∈ seq 0 (length (id_to_key (interner g)))) by (rewrite E; apply elem_of_app; auto).
    apply elem_of_seq in Hin. lia. }
  clearbody l. destruct Hnd as [Hnd Hb]. induction l as [|[j [k n]] l IH]; simpl; [constructor|].
  simpl in *. apply NoDup_cons in Hnd as [Hj Hnd]. apply Forall_cons in Hb as [Hlt Hb].
  unfold live_entry at 1. simpl. case_decide; [|by apply IH]. simpl. constructor; [|by apply IH].
  rewrite list_elem_of_fmap. intros ([[i' k'] n'] & E & Hin). simpl in E.
  apply list_elem_of_omap in Hin as ([j' [k2 n2]] & Hin & He). unfold live_entry in He. simpl in He.
  case_decide; [|done]. injection He as <- _ _.
  assert (Hj' : j' ∈ l.*1) by (apply list_elem_of_fmap; by exists (j', (k2, n2))).
  assert (N.of_nat j' < U32) by (by apply (proj1 (Forall_forall _ _) Hb)).
  rewrite !as_u32_small in E by done. apply Nat2N.inj in E. by subst.
Qed.

Lemma iter_keys_nodup g :
  graph_ok g -> nkeys g <= U32 ->
  NoDup (map (fun x : N * string * InternalNode => x.1.2) (iter_nodes (interner g))).
Proof.
  intros Hg Hn. pose proof (iter_ids_nodup g Hn) as Hid.
  apply NoDup_alt. intros p q k Hp Hq. rewrite list_lookup_fmap in Hp, Hq.
  destruct (iter_nodes (interner g) !! p) as [[[i1 k1] n1]|] eqn:H1; [|done].
  destruct (iter_nodes (interner g) !! q) as [[[i2 k2] n2]|] eqn:H2; [|done].
  simpl in *. injection Hp as ->. injection Hq as ->.
  assert (A1 : (i1, k, n1) ∈ iter_nodes (interner g)) by (apply list_elem_of_lookup; eauto).
  assert (A2 : (i2, k, n2) ∈ iter_nodes (interner g)) by (apply list_elem_of_lookup; eauto).
  apply elem_of_iter in A1 as [A1 _], A2 as [A2 _]; auto.
  eapply (NoDup_lookup _ _ _ i1 Hid); rewrite list_lookup_fmap, ?H1, ?H2; simpl; congruence.
Qed.

(** *** Round trip *)

Lemma remap_spec g i j :
  nkeys g <= U32 ->
  remap g !! i = Some j <->
  exists p k n, iter_nodes (interner g) !! p = Some (i, k, n) /\ j = as_u32 (N.of_nat p).
Proof.
  intros Hn. unfold remap. set (l := iter_nodes (interner g)).
  rewrite (foldl_insert_Some fst snd).
  2: { rewrite fst_zip; [by apply iter_ids_nodup|]. rewrite !length_map, length_seq. done. }
  rewrite lookup_empty. split.
  - intros [([i' j'] & Hin & <- & <-)|[_ ?]]; [|done]. simpl.
    apply elem_of_lookup_zip_with in Hin as (p & x & y & E & Hx & Hy). injection E as <- <-.
    rewrite list_lookup_fmap in Hx. rewrite (list_lookup_fmap (fun i => as_u32 (N.of_nat i))) in Hy.
    destruct (l !! p) as [[[i k] n]|] eqn:Hp; [|done].
    simpl in Hx. injection Hx as <-. exists p, k, n. split; [done|].
    destruct (seq 0 (length l) !! p) as [q|] eqn:Hq; [|done]. apply lookup_seq in Hq as [-> _].
    by injection Hy as <-.
  - intros (p & k & n & Hp & ->). left. exists (i, as_u32 (N.of_nat p)). split; [|done].
    apply elem_of_lookup_zip_with. exists p, i, (as_u32 (N.of_nat p)). split; [done|].
    rewrite !list_lookup_fmap, Hp. split; [done|].
    assert (Hq : seq 0 (length l) !! p = Some p).
    { apply lookup_seq. split; [lia|]. by apply lookup_lt_Some in Hp. }
    by rewrite Hq.
Qed.

(** What a node is, by its key, and what an edge is, by the keys of its ends. *)
Definition node_at g (k : string) : option InternalNode :=
  i ← get_node_id g k; get_node (interner g) i.
Definition edge_view g (e : InternalEdge)
    : option string * option string * EdgeKind * f32 * N :=
  (id_to_key (interner g) !! N.to_nat (source e), id_to_key (interner g) !! N.to_nat (target e),
   e_kind e, weight e, last_reinforced_at e).

Lemma iter_len g : len (iter_nodes (interner g)) <= nkeys g.
Proof.
  unfold iter_nodes, nkeys, len. set (l := zip _ _).
  assert (Hl : (length l <= length (id_to_key (interner g)))%nat).
  { unfold l. rewrite length_zip_with, length_seq. lia. }
  clearbody l. assert (Ho : (length (omap (live_entry (interner g)) l) <= length l)%nat); [|lia].
  clear Hl. unfold omap. induction l as [|x l IH]; simpl in *; [done|].
  destruct (live_entry _ _); simpl; unfold omap in *; lia.
Qed.

Lemma lookup_map {A B} (f : A -> B) (l : list A) i : map f l !! i = f <$> l !! i.
Proof. apply list_lookup_fmap. Qed.

Section roundtrip.
Context (g : MemoryGraph) (Hg : graph_ok g) (Hn : nkeys g < U32).
Let l := iter_nodes (interner g).
Let g' := of_snapshot (to_snapshot g).

Lemma live_position i : live_id g i -> exists p k n, l !! p = Some (i, k, n).
Proof.
  intros Hi. destruct (live_node g i Hg Hi) as [n Hnode]. destruct Hi as [k Hk].
  assert (Hin : (i, k, n) ∈ l) by (apply elem_of_iter; [done|lia|done]).
  apply list_elem_of_lookup in Hin as [p Hp]. eauto.
Qed.

Lemma snapshot_interner :
  id_to_key (interner g') = map (fun x => x.1.2) l /\ id_to_node (interner g') = map snd l /\
  dense (interner g') /\ nkeys g' <= nkeys g.
Proof.
  assert (Hkeys : (s_nodes (to_snapshot g)).*1 = map (fun x => x.1.2) l).
  { simpl. unfold l. rewrite <- list_fmap_compose. done. }
  assert (Hnodes : (s_nodes (to_snapshot g)).*2 = map snd l).
  { simpl. unfold l. rewrite <- list_fmap_compose. done. }
  destruct (intern_all_fresh (s_nodes (to_snapshot g)) empty_interner) as [E1 E2].
  { rewrite Hkeys. apply iter_keys_nodup; [done|lia]. }
  { intros k _. apply lookup_empty. }
  rewrite Hkeys in E1. rewrite Hnodes in E2.
  assert (A1 : id_to_key (interner g') = map (fun x => x.1.2) l) by exact E1.
  assert (A2 : id_to_node (interner g') = map snd l) by exact E2.
  assert (Hb : nkeys g' <= nkeys g).
  { unfold nkeys at 1. rewrite A1. unfold len. rewrite length_map. apply iter_len. }
  split_and!; [done|done| |done].
  apply intern_all_dense; [apply dense_empty|]. unfold nkeys in Hb at 1. change (len (id_to_key (interner g')) <= U32). lia.
Qed.

Lemma snapshot_nodes k : node_at g' k = node_at g k.
Proof.
  destruct snapshot_interner as (E1 & E2 & [_ Hd] & _). apply option_eq. intros n.
  unfold node_at, get_node_id, get_node. split.
  - intros Hb. apply bind_Some in Hb as (j & Hj & Hnj). apply Hd in Hj. rewrite E1, lookup_map in Hj.
    assert (Hnl : map snd l !! N.to_nat j = Some n) by (rewrite <- E2; exact Hnj).
    rewrite lookup_map in Hnl. destruct (l !! N.to_nat j) as [[[i k'] n']|] eqn:Hp; [|done].
    simpl in *. injection Hj as ->. injection Hnl as ->.
    assert (Hin : (i, k, n) ∈ l) by (apply list_elem_of_lookup; eauto).
    apply elem_of_iter in Hin as [Hk Hnode]; [|done|lia]. unfold get_node_id in Hk. rewrite Hk. done.
  - intros Hb. apply bind_Some in Hb as (i & Hi & Hni).
    assert (Hin : (i, k, n) ∈ l) by (apply elem_of_iter; [done|lia|done]).
    apply list_elem_of_lookup in Hin as [p Hp].
    assert (Hk : key_to_id (interner g') !! k = Some (N.of_nat p)).
    { apply Hd. rewrite Nat2N.id, E1, lookup_map, Hp. done. }
    rewrite Hk. change (id_to_node (interner g') !! N.to_nat (N.of_nat p) = Some n).
    rewrite Nat2N.id, E2, lookup_map, Hp. done.
Qed.

(** A live node is renumbered, and keeps its key. *)
Lemma remap_live i :
  live_id g i -> exists j, remap g !! i = Some j /\ j < len l /\
    id_to_key (interner g') !! N.to_nat j = id_to_key (interner g) !! N.to_nat i.
Proof.
  intros Hi. destruct (live_position i Hi) as (p & k & n & Hp). pose proof (iter_len g) as Hl.
  apply lookup_lt_Some in Hp as Hlt. fold l in Hl. unfold len in Hl.
  exists (N.of_nat p). split_and!.
  - apply remap_spec; [lia|]. exists p, k, n. split; [done|]. symmetry. apply as_u32_small. lia.
  - unfold len. lia.
  - rewrite Nat2N.id, (proj1 snapshot_interner), lookup_map, Hp. simpl.
    assert (Hin : (i, k, n) ∈ l) by (apply list_elem_of_lookup; eauto).
    apply elem_of_iter in Hin as [Hk _]; [|done|lia]. by rewrite (go_keys _ Hg _ _ Hk).
Qed.

Lemma remap_edge_live e :
  live_id g (source e) -> live_id g (target e) ->
  exists e', remap_edge (remap g) e = Some e' /\ (source e' < len l /\ target e' < len l) /\
    edge_view g' e' = edge_view g e.
Proof.
  intros Hs Ht. destruct (remap_live _ Hs) as (s & Es & Ls & Ks), (remap_live _ Ht) as (t & Et & Lt & Kt).
  unfold remap_edge. rewrite Es, Et. simpl. eexists. split_and!; [done|done|done|].
  unfold edge_view. cbn [source target e_kind weight last_reinforced_at]. by rewrite Ks, Kt.
Qed.

Lemma remap_edges es :
  Forall (fun e => live_id g (source e) /\ live_id g (target e)) es ->
  Forall (fun e => source e < len l /\ target e < len l) (omap (remap_edge (remap g)) es) /\
  map (edge_view g') (omap (remap_edge (remap g)) es) = map (edge_view g) es.
Proof.
  induction 1 as [|e es [Hs Ht] _ [IH1 IH2]]; [done|].
  destruct (remap_edge_live e Hs Ht) as (e' & He & Hb & Hv).
  change (omap (remap_edge (remap g)) (e :: es))
    with (match remap_edge (remap g) e with
          | Some y => y :: omap (remap_edge (remap g)) es | None => omap (remap_edge (remap g)) es end).
  rewrite He. split; [by constructor|]. simpl map. by rewrite Hv, IH2.
Qed.

Lemma snapshot_edges : map (edge_view g') (int_edges g') ≡ₚ map (edge_view g) (int_edges g).
Proof.
  destruct (remap_edges (int_edges g)) as [Hb Hv].
  { apply Forall_forall. intros e He. by apply (go_edges _ Hg). }
  destruct snapshot_interner as (_ & E2 & _ & _). rewrite <- Hv.
  assert (Hnb : as_u32 (len (id_to_node (interner g'))) = len l).
  { rewrite E2. unfold len. rewrite length_map. pose proof (iter_len g) as Hl. fold l in Hl.
    unfold len in Hl. apply as_u32_small. lia. }
  set (name := fun i => (fun kn : string * InternalNode => external_id kn.2) <$> (s_nodes (to_snapshot g) !! N.to_nat i)).
  assert (He : int_edges g' = sort_by (edge_le name) (omap (remap_edge (remap g)) (int_edges g))).
  { transitivity (filter (fun e => source e < as_u32 (len (id_to_node (interner g'))) /\
                                   target e < as_u32 (len (id_to_node (interner g'))))
       (sort_by (edge_le name) (omap (remap_edge (remap g)) (int_edges g)))); [done|].
    apply filter_all. intros e. rewrite sort_by_perm, Hnb.
    by apply (proj1 (Forall_forall _ _) Hb). }
  rewrite He. apply fmap_Permutation, sort_by_perm.
Qed.

Lemma snapshot_vocab : g_vocab g' = g_vocab g.
Proof. apply from_alias_pairs_spec, sort_by_perm. Qed.
End roundtrip.
End snapshots.
