(* ===== verification/GraphTheorems.v ===== *)
(** * What the cognitive graph promises

    The graph's invariant over every history of operations, the belief walks, and
    the binary snapshots. *)

From S2P Require Import Prelude Core Floats Vocabulary Record Graph GraphProofs.

(** ** Histories *)

Inductive GraphOp :=
  | GAdd (id text : string) (concepts : list string) (importance : f32) (scope : option string)
  | GConcepts (id : string) (concepts : list string) (importance : f32)
  | GRemove (id : string)
  | GReinforce (id : string) (now : N)
  | GDecay (now half_life : N)
  | GReweight (id : string) (importance : f32)
  | GAbstract (threshold : N)
  | GEvolve (overlap hub : f32) (max_pairs : N)
  | GRefine (old_id new_id : string) (w : f32)
  | GContradict (old_id new_id : string) (w factor : f32)
  | GAlias (alias canonical : string)
  | GCompact
  | GLoad (s : BinaryGraphSnapshot)
  | GLoadLegacy (l : LegacyMemoryGraph).

(** The latest supersession edge of [i] to a memory is edge [idx], to [t]. *)
Definition latest_supersession (g : MemoryGraph) (i : N) (idx : nat) (t : N) : Prop :=
  (exists e, int_edges g !! idx = Some e /\ source e = i /\ target e = t /\
     is_supersession e = true /\ kind_is_memory g t = true) /\
  (forall j e, int_edges g !! j = Some e -> source e = i -> is_supersession e = true ->
     kind_is_memory g (target e) = true -> (j <= idx)%nat).

(** [path] follows [next] from [cur]. *)
Fixpoint follows (next : N -> option N) (cur : N) (path : list N) : Prop :=
  match path with
  | [] => True
  | n :: path => next cur = Some n /\ follows next n path
  end.

Section theorems.
Context {U : Unicode} {L : Libm}.
Implicit Types g : MemoryGraph.

Definition apply_op (op : GraphOp) g : MemoryGraph :=
  match op with
  | GAdd id text cs imp scope => add_memory_scoped id text cs imp scope g
  | GConcepts id cs imp => (add_concepts_to_memory id cs imp g).1
  | GRemove id => remove_memory id g
  | GReinforce id now => reinforce id now g
  | GDecay now hl => decay_edges now hl g
  | GReweight id imp => (reweight_memory id imp g).1
  | GAbstract t => (build_abstractions t g).1
  | GEvolve o h n => (evolve_vocabulary o h n g).1
  | GRefine o n w => (add_refinement o n w g).1
  | GContradict o n w f => (add_contradiction o n w f g).1
  | GAlias a c => set_vocab (add_alias a c (g_vocab g)) (suppressed_concepts g) g
  | GCompact => compact g
  | GLoad s => of_snapshot s
  | GLoadLegacy l => of_legacy l
  end.

(** A history; no more nodes are ever interned than a [u32] counts. *)
Inductive graph_run : MemoryGraph -> Prop :=
  | run_new : graph_run new_graph
  | run_op op g : graph_run g -> nkeys (apply_op op g) <= U32 -> graph_run (apply_op op g).

(** A concrete history. *)
Definition run_ops (ops : list GraphOp) (g : MemoryGraph) : MemoryGraph :=
  foldl (fun g op => apply_op op g) g ops.
Fixpoint ops_fit (ops : list GraphOp) g : bool :=
  match ops with
  | [] => true
  | op :: ops => (nkeys (apply_op op g) <=? U32) && ops_fit ops (apply_op op g)
  end.
Lemma run_ops_run ops g : graph_run g -> ops_fit ops g = true -> graph_run (run_ops ops g).
Proof.
  revert g. induction ops as [|op ops IH]; intros g Hg; simpl; [done|].
  rewrite andb_true_iff, N.leb_le. intros [Hn Hf]. apply IH; [|done]. by apply run_op.
Qed.

(** ** The invariant *)

Lemma new_graph_ok : graph_ok new_graph.
Proof. split; simpl; [done|intros k i; by rewrite lookup_empty|set_solver|done]. Qed.

Lemma set_edges_ok es g :
  graph_ok g -> (forall e, e ∈ es -> live_id g (source e) /\ live_id g (target e)) ->
  graph_ok (set_edges es (rebuild es) g).
Proof. intros [H1 H2 H3 H4] He. by split. Qed.

Lemma of_legacy_ok l : nkeys (of_legacy l) <= U32 -> graph_ok (of_legacy l).
Proof.
  unfold of_legacy. set (g0 := Build_MemoryGraph _ _ _ _ _ _ _ _).
  match goal with |- context [foldl ?f g0 ?ns] => set (F := f); set (nsl := ns) end.
  assert (Hg : grow g0 (foldl F g0 nsl)).
  { apply (grow_fold _ (fun _ => True)); [done| |done]. intros g kn _. unfold F.
    destruct (node_id kn.2);
      match goal with |- context [intern_node ?a ?b ?c ?d ?e ?g] =>
        pose proof (intern_node_spec a b c d e g) as Hi; destruct (intern_node a b c d e g) as [i g'] end;
      by destruct Hi as [Hi _]. }
  set (g1 := foldl F g0 nsl) in *. intros Hn. apply set_edges_ok.
  { apply (gr_ok _ _ Hg); [|exact Hn].
    split; simpl; [done|intros k i; by rewrite lookup_empty|set_solver|done]. }
  intros e (e0 & _ & He)%list_elem_of_omap. apply bind_Some in He as (s & Hs & He).
  apply bind_Some in He as (t & Ht & He). injection He as <-. simpl. eauto.
Qed.

Lemma apply_op_ok op g : graph_ok g -> nkeys (apply_op op g) <= U32 -> graph_ok (apply_op op g).
Proof.
  intros Hg Hn. destruct op; cbn [apply_op] in *.
  - by apply (gr_ok _ _ (add_memory_scoped_grow id text concepts importance scope g)).
  - by apply (gr_ok _ _ (add_concepts_grow id concepts importance g)).
  - by apply (remove_memory_steps id g).
  - by apply (gr_ok _ _ (reinforce_grow id now g)).
  - by apply (gr_ok _ _ (decay_grow now half_life g)).
  - by apply (gr_ok _ _ (reweight_grow id importance g)).
  - by apply (gr_ok _ _ (build_abstractions_grow threshold g)).
  - by apply (evolve_steps overlap hub max_pairs g).
  - by apply (gr_ok _ _ (add_refinement_grow old_id new_id w g)).
  - by apply (gr_ok _ _ (add_contradiction_grow old_id new_id w factor g)).
  - by apply (gr_ok _ _ (grow_set_vocab _ _ g)).
  - by apply (compact_steps g).
  - by apply of_snapshot_ok.
  - by apply of_legacy_ok.
Qed.

Lemma run_ok g : graph_run g -> graph_ok g.
Proof. induction 1; [apply new_graph_ok|by apply apply_op_ok]. Qed.
Lemma run_keys g : graph_run g -> nkeys g <= U32.
Proof. destruct 1; [unfold nkeys, len, new_graph; simpl; unfold U32; lia|done]. Qed.

Lemma public_edge_total g e : graph_ok g -> e ∈ int_edges g -> is_Some (public_edge g e).
Proof.
  intros Hg He. destruct (go_edges _ Hg e He) as [Hs Ht].
  destruct (live_node g _ Hg Hs) as [s Es], (live_node g _ Hg Ht) as [t Et].
  unfold public_edge. rewrite Es. simpl. rewrite Et. simpl. eauto.
Qed.

Lemma adj_exact g s i :
  graph_ok g -> i ∈ adj_get g s <-> exists e, int_edges g !! i = Some e /\ source e = s.
Proof. intros Hg. unfold adj_get. rewrite (go_adj _ Hg). apply elem_of_rebuild. Qed.

Lemma legacy_adjacency_total g idx es m :
  graph_ok g -> (forall e, e ∈ es -> e ∈ int_edges g) -> is_Some (legacy_adjacency g idx es m).
Proof.
  intros Hg. revert idx m. induction es as [|e es IH]; intros idx m Hes; simpl; [eauto|].
  destruct (go_edges _ Hg e) as [[k Hk] _]; [set_solver|]. rewrite (go_keys _ Hg _ _ Hk). simpl.
  apply IH. set_solver.
Qed.

(** C28: After every history of operations, loading arbitrary snapshots and legacy
    files included, as long as no more than 2^32 nodes were ever interned: listing
    the edges, the neighbours of any node, and the conversion to the legacy format
    never index out of range (the [expect]s never fail); the adjacency map holds
    exactly the positions of each node's outgoing edges; both ends of every edge are
    nodes that were not removed; and a node id belongs to one key. *)
Theorem graph_invariant g :
  graph_run g ->
  (exists es, edges g = Some es /\ length es = length (int_edges g)) /\
  (forall key, is_Some (neighbors g key)) /\
  is_Some (to_legacy g) /\
  (forall s i, i ∈ adj_get g s <-> exists e, int_edges g !! i = Some e /\ source e = s) /\
  (forall e, e ∈ int_edges g ->
     exists ks kt, get_node_id g ks = Some (source e) /\ get_node_id g kt = Some (target e)) /\
  (forall k1 k2 i, get_node_id g k1 = Some i -> get_node_id g k2 = Some i -> k1 = k2).
Proof.
  intros Hr. pose proof (run_ok g Hr) as Hg.
  assert (He : is_Some (edges g)).
  { apply mapM_is_Some. apply Forall_forall. intros e He. by apply public_edge_total. }
  split_and!.
  - destruct He as [es He]. exists es. split; [done|]. symmetry. by eapply length_mapM.
  - intros key. unfold neighbors. destruct (get_node_id g key) as [i|]; [|eauto].
    apply mapM_is_Some, Forall_forall. intros j Hj. apply (adj_exact g i j Hg) in Hj as (e & Hj & _).
    unfold compose. cbv beta. rewrite Hj. simpl. apply public_edge_total; [done|]. apply list_elem_of_lookup. eauto.
  - destruct He as [es He]. destruct (legacy_adjacency_total g 0 (int_edges g) ∅ Hg) as [a Ha]; [done|].
    unfold to_legacy. rewrite He. simpl. rewrite Ha. simpl. eauto.
  - intros s i. by apply adj_exact.
  - intros e He'. destruct (go_edges _ Hg e He') as [[ks Hs] [kt Ht]]. by exists ks, kt.
  - intros k1 k2 i H1 H2. apply (go_keys _ Hg) in H1, H2. congruence.
Qed.

(** ** Belief walks *)

Lemma walk_total next (D : gset N) fuel visited cur :
  (forall n m, next n = Some m -> m ∈ D) -> (size (D ∖ visited) <= fuel)%nat ->
  exists l, walk next fuel visited cur = Some l.
Proof.
  intros HD. revert visited cur. induction fuel as [|fuel IH]; intros visited cur Hsz; simpl;
    destruct (next cur) as [n|] eqn:Hn; eauto; case_decide as Hv; eauto.
  - exfalso. assert (n ∈ D ∖ visited) by (apply HD in Hn; set_solver).
    assert (size (D ∖ visited) = 0%nat) as E by lia. apply size_empty_inv in E. set_solver.
  - destruct (IH ({[n]} ∪ visited) n) as [l Hl]; [|rewrite Hl; simpl; eauto].
    assert (Hin : n ∈ D ∖ visited) by (apply HD in Hn; set_solver).
    assert (D ∖ ({[n]} ∪ visited) ≡ (D ∖ visited) ∖ {[n]}) as -> by set_solver.
    rewrite size_difference, size_singleton by set_solver. lia.
Qed.

Lemma walk_spec next fuel visited cur l :
  walk next fuel visited cur = Some l ->
  follows next cur l /\ NoDup l /\ (forall n, n ∈ l -> n ∉ visited) /\
  (forall n, next (default cur (last l)) = Some n -> n ∈ visited \/ n ∈ l).
Proof.
  revert visited cur l. induction fuel as [|fuel IH]; intros visited cur l; simpl;
    destruct (next cur) as [n|] eqn:Hn; [|intros [= <-]|case_decide as Hv|intros [= <-]];
    try (intros [= <-]; simpl; split_and!; [done|constructor|set_solver|rewrite Hn; set_solver]);
    try (simpl; split_and!; [done|constructor|set_solver|rewrite Hn; set_solver]).
  - case_decide; [|done]. intros [= <-]. simpl. split_and!; [done|constructor|set_solver|]. rewrite Hn. set_solver.
  - intros Hb. apply bind_Some in Hb as (l' & Hl & [= <-]).
    destruct (IH _ _ _ Hl) as (H1 & H2 & H3 & H4). split_and!; [done| |set_solver|].
    + constructor; [|done]. intros Hin. apply H3 in Hin. set_solver.
    + intros m Hm. specialize (H4 m). assert (E : default cur (last (n :: l')) = default n (last l')).
      { destruct l' as [|x l']; [done|]. rewrite last_cons. by destruct (last (x :: l')) eqn:E;
          [|apply last_None in E]. }
      rewrite E in Hm. apply H4 in Hm. set_solver.
Qed.

Lemma max_by_index_spec l :
  match max_by_index l with
  | None => l = []
  | Some x => x ∈ l /\ forall y, y ∈ l -> (y.1 <= x.1)%nat
  end.
Proof.
  unfold max_by_index. induction l as [|x l IH] using rev_ind; [done|]. rewrite foldl_app. simpl.
  destruct (foldl _ None l) as [y|].
  - destruct IH as [Hy IH]. destruct (Nat.ltb_spec x.1 y.1).
    + split; [set_solver|]. intros z [Hz|[->|?]%elem_of_cons]%elem_of_app; [auto|lia|set_solver].
    + split; [set_solver|]. intros z [Hz|[->|?]%elem_of_cons]%elem_of_app; [specialize (IH z Hz); lia|lia|set_solver].
  - subst l. split; [set_solver|]. intros z [?|[->|?]%elem_of_cons]%elem_of_app; [set_solver|lia|set_solver].
Qed.

Lemma out_edges_exact g s i e :
  graph_ok g -> (i, e) ∈ out_edges g s <-> int_edges g !! i = Some e /\ source e = s.
Proof.
  intros Hg. unfold out_edges. rewrite list_elem_of_omap. split.
  - intros (j & Hj & He). apply (adj_exact g s j Hg) in Hj as (e' & Hj & <-). rewrite Hj in He.
    by injection He as <- <-.
  - intros [Hi Hs]. exists i. split; [apply adj_exact; eauto|]. by rewrite Hi.
Qed.

Lemma elem_of_successors g i j t :
  graph_ok g ->
  (j, t) ∈ supersession_successors g i <->
  exists e, int_edges g !! j = Some e /\ source e = i /\ target e = t /\
    is_supersession e = true /\ kind_is_memory g t = true.
Proof.
  intros Hg. unfold supersession_successors. rewrite list_elem_of_omap. split.
  - intros ([j' e] & Hin & He). apply out_edges_exact in Hin as [Hj He']; [|done].
    simpl in He. destruct (is_supersession e && kind_is_memory g (target e)) eqn:Hb; [|done].
    injection He as <- <-. apply andb_true_iff in Hb as [? ?]. by exists e.
  - intros (e & Hj & Hs & Ht & Hk & Hm). exists (j, e). split; [by apply out_edges_exact|].
    simpl. by rewrite Hk, Ht, Hm.
Qed.

Lemma supersession_next_latest g i t :
  graph_ok g -> supersession_next g i = Some t <-> exists idx, latest_supersession g i idx t.
Proof.
  intros Hg. unfold supersession_next, latest_supersession.
  pose proof (max_by_index_spec (supersession_successors g i)) as Hm.
  destruct (max_by_index (supersession_successors g i)) as [[j t']|]; simpl.
  - destruct Hm as [Hin Hmax]. apply (elem_of_successors g i j t' Hg) in Hin. split.
    + intros [= <-]. exists j. split; [done|]. intros j' e He Hs Hk Hmem.
      apply (Hmax (j', target e)). apply elem_of_successors; eauto 10.
    + intros (idx & (e & He & Hs & Ht & Hk & Hmem) & Hlast). destruct Hin as (e' & He' & Hs' & Ht' & Hk' & Hm').
      subst t t'. assert (Hle : (idx <= j)%nat) by (apply (Hmax (idx, target e)), elem_of_successors; eauto 10).
      assert (Hge : (j <= idx)%nat) by eauto. assert (j = idx) as -> by lia. congruence.
  - split; [done|]. intros (idx & Hin & _). apply elem_of_successors in Hin; [|done].
    rewrite Hm in Hin. set_solver.
Qed.

Lemma kind_memory_node g i : kind_is_memory g i = true -> is_Some (get_node (interner g) i).
Proof. unfold kind_is_memory. destruct (get_node _ i); [eauto|done]. Qed.

Definition all_ids g : gset N := list_to_set (map N.of_nat (seq 0 (walk_fuel g))).
Lemma elem_of_all_ids g i : is_Some (get_node (interner g) i) -> i ∈ all_ids g.
Proof.
  intros Hi. apply lookup_lt_is_Some in Hi. unfold all_ids. apply elem_of_list_to_set.
  apply list_elem_of_fmap. exists (N.to_nat i). split; [by rewrite N2Nat.id|]. apply elem_of_seq.
  unfold walk_fuel. lia.
Qed.
Lemma size_all_ids g (X : gset N) : (size (all_ids g ∖ X) <= walk_fuel g)%nat.
Proof.
  transitivity (size (all_ids g)); [apply subseteq_size; set_solver|].
  unfold all_ids. rewrite <- (length_seq (walk_fuel g) 0) at 2.
  rewrite <- (length_map N.of_nat). generalize (map N.of_nat (seq 0 (walk_fuel g))).
  intros l. induction l as [|x l IH]; [done|]. simpl.
  rewrite size_union_alt, size_singleton.
  assert (size (list_to_set l ∖ {[x]} : gset N) <= size (list_to_set l : gset N))%nat
    by (apply subseteq_size; set_solver). lia.
Qed.

(** A walk over nodes of the graph ends within its fuel. *)
Lemma belief_walk_total g next visited cur :
  (forall n m, next n = Some m -> is_Some (get_node (interner g) m)) ->
  exists l, walk next (walk_fuel g) visited cur = Some l.
Proof.
  intros Hn. apply (walk_total next (all_ids g)); [|apply size_all_ids].
  intros n m Hm. by eapply elem_of_all_ids, Hn.
Qed.

Lemma supersession_prev_node g n m :
  supersession_prev g n = Some m -> is_Some (get_node (interner g) m).
Proof.
  unfold supersession_prev. pose proof (max_by_index_spec (predecessors g n)) as Hm.
  destruct (max_by_index (predecessors g n)) as [[j t]|]; [|done]. intros [= <-]. destruct Hm as [Hin _].
  apply list_elem_of_omap in Hin as ([j' e] & _ & He). simpl in He.
  destruct (is_supersession e && _ && _ && _) eqn:Hb; [|done]. injection He as <- <-.
  apply andb_true_iff in Hb as [Hb _]. apply andb_true_iff in Hb as [Hb _]. apply andb_true_iff in Hb as [_ Hb].
  by apply kind_memory_node.
Qed.

Lemma supersession_next_node g n m :
  graph_ok g -> supersession_next g n = Some m -> is_Some (get_node (interner g) m).
Proof.
  intros Hg Hn. apply (supersession_next_latest g n m Hg) in Hn as (idx & (e & _ & _ & _ & _ & Hm) & _).
  by apply kind_memory_node.
Qed.

Lemma follows_last next cur path (P : N -> Prop) :
  (forall n m, next n = Some m -> P m) -> P cur -> follows next cur path -> P (default cur (last path)).
Proof.
  intros HP. revert cur. induction path as [|n path IH]; intros cur Hc; simpl; [done|].
  intros [Hn Hf]. rewrite last_cons. specialize (IH n (HP _ _ Hn) Hf). by destruct (last path).
Qed.

(** The belief walks terminate and answer from the graph. An unknown id is its own
    head. Otherwise the head of [id] is reached from [id] by following, at each
    memory, the edge written last among its outgoing [Refines]/[Contradicts] edges
    to a memory, through memories that are all different; and at the head either
    there is no such edge or it leads back into the walk (a cycle). The lineage of
    [id] contains [id] and ends with its head. *)
Theorem belief_head_spec g id :
  graph_run g ->
  (forall i t, supersession_next g i = Some t <-> exists idx, latest_supersession g i idx t) /\
  match get_node_id g (mem_key id) with
  | None => belief_head g id = id /\ belief_lineage g id = [id]
  | Some start =>
      exists path n s,
        walk (supersession_next g) (walk_fuel g) {[start]} start = Some path /\
        follows (supersession_next g) start path /\ NoDup (start :: path) /\
        (forall m, supersession_next g (default start (last path)) = Some m -> m ∈ start :: path) /\
        get_node (interner g) (default start (last path)) = Some n /\
        belief_head g id = external_id n /\
        last (belief_lineage g id) = Some (belief_head g id) /\
        get_node (interner g) start = Some s /\ external_id s ∈ belief_lineage g id /\
        exists back,
          walk (supersession_prev g) (walk_fuel g) ({[start]} ∪ list_to_set path) start = Some back /\
          belief_lineage g id = omap (node_external_id g) (rev back ++ start :: path)
  end.
Proof.
  intros Hr. pose proof (run_ok g Hr) as Hg. split; [intros; by apply supersession_next_latest|].
  unfold belief_head, belief_lineage. destruct (get_node_id g (mem_key id)) as [start|] eqn:Hid; [|done].
  destruct (belief_walk_total g (supersession_next g) {[start]} start) as [path Hp].
  { intros. by eapply supersession_next_node. }
  rewrite Hp. simpl default. destruct (walk_spec _ _ _ _ _ Hp) as (H1 & H2 & H3 & H4).
  destruct (live_node g start Hg) as [s Hs]; [eauto|].
  assert (Hh : is_Some (get_node (interner g) (default start (last path)))).
  { apply (follows_last (supersession_next g)); [|eauto|done]. intros. by eapply supersession_next_node. }
  destruct Hh as [n Hn]. exists path, n, s. split_and!; auto.
  - constructor; [|done]. intros Hin. apply H3 in Hin. set_solver.
  - intros m Hm. apply H4 in Hm as [Hm|Hm]; set_solver.
  - by rewrite Hn.
  - rewrite Hn.
    assert (E : exists l, start :: path = l ++ [default start (last path)]).
    { destruct path as [|x path] using rev_ind; [by exists []|]. exists (start :: path).
      rewrite last_snoc. done. }
    destruct E as [l ->]. rewrite app_assoc, omap_app. simpl. rewrite Hn. simpl. by rewrite last_snoc.
  - apply list_elem_of_omap. exists start. split; [set_solver|]. by rewrite Hs.
  - destruct (belief_walk_total g (supersession_prev g) ({[start]} ∪ list_to_set path) start) as [back Hb].
    { intros m m' Hm. by eapply supersession_prev_node. }
    exists back. by rewrite Hb.
Qed.

(** ** Snapshots *)

Section roundtrip.
Context {BS : Bincode BinaryGraphSnapshot} {BSO : BincodeOk BinaryGraphSnapshot}.

Lemma from_to_snapshot_bytes g bytes :
  to_snapshot_bytes g = Ok bytes -> from_snapshot_bytes bytes = Some (of_snapshot (to_snapshot g)).
Proof.
  unfold to_snapshot_bytes. destruct (b_serialize (to_snapshot g)) as [payload|] eqn:Hp; [|done].
  intros E. assert (bytes = SNAPSHOT_MAGIC ++ to_ne_bytes LittleEndian 4 SNAPSHOT_VERSION ++ payload) as ->
    by congruence. unfold from_snapshot_bytes.
  assert (E1 : forall p, is_snapshot_bytes (SNAPSHOT_MAGIC ++ to_ne_bytes LittleEndian 4 SNAPSHOT_VERSION ++ p) = true).
  { intros p. unfold is_snapshot_bytes. apply andb_true_iff. split; [|done].
    apply N.leb_le. unfold len. rewrite length_app. simpl. lia. }
  rewrite E1. simpl negb. cbn iota.
  assert (E2 : (len (SNAPSHOT_MAGIC ++ to_ne_bytes LittleEndian 4 SNAPSHOT_VERSION ++ payload) <? 8) = false).
  { apply N.ltb_ge. unfold len. rewrite !length_app. simpl. lia. }
  rewrite E2. cbn iota.
  change (take 4 (drop 4 (SNAPSHOT_MAGIC ++ to_ne_bytes LittleEndian 4 SNAPSHOT_VERSION ++ payload)))
    with (to_ne_bytes LittleEndian 4 SNAPSHOT_VERSION).
  change (drop 8 (SNAPSHOT_MAGIC ++ to_ne_bytes LittleEndian 4 SNAPSHOT_VERSION ++ payload)) with payload.
  change (from_ne_bytes LittleEndian (to_ne_bytes LittleEndian 4 SNAPSHOT_VERSION)) with 1. simpl negb. cbn iota.
  by rewrite (b_roundtrip _ _ Hp).
Qed.

(** C29: A binary snapshot of a graph, after any history, loads back: every key has the
    same node and no key is gained or lost, the edges are the same up to order
    (compared by the keys of their ends, kind, weight and time of reinforcement),
    and the vocabulary, the co-occurrence counts, the suppressed concepts and the
    last memory are the same. Only the last memory of each scope is forgotten. *)
Theorem snapshot_roundtrip g bytes :
  graph_run g -> nkeys g < U32 -> to_snapshot_bytes g = Ok bytes ->
  exists g', from_snapshot_bytes bytes = Some g' /\
    (forall k, node_at g' k = node_at g k) /\
    map (edge_view g') (int_edges g') ≡ₚ map (edge_view g) (int_edges g) /\
    g_vocab g' = g_vocab g /\ co_occurrence g' = co_occurrence g /\
    suppressed_concepts g' = suppressed_concepts g /\ last_memory_id g' = last_memory_id g /\
    last_memory_by_scope g' = ∅.
Proof.
  intros Hr Hn Hb. pose proof (run_ok g Hr) as Hg. exists (of_snapshot (to_snapshot g)).
  split_and!; try done.
  - by apply from_to_snapshot_bytes.
  - intros k. by apply snapshot_nodes.
  - by apply snapshot_edges.
  - by apply snapshot_vocab.
Qed.
End roundtrip.

(** ** Reloading re-sorts the edges *)

(** Three memories; the first is refined by the second, then by the third. *)
Definition branch_ops : list GraphOp :=
  [GAdd "a" "" [] f32_one None; GAdd "z" "" [] f32_one None; GAdd "b" "" [] f32_one None;
   GRefine "a" "z" f32_one; GRefine "a" "b" f32_one].

(** The branching rule of the belief walk reads positions in the edge list as
    insertion times, but a snapshot is written with its edges sorted by name: after
    a save and a load the head of a memory with two successors is another memory. *)
Theorem snapshot_changes_head :
  let g := run_ops branch_ops new_graph in
  graph_run g /\ belief_head g "a" = "b"%string /\
  belief_head (of_snapshot (to_snapshot g)) "a" = "z"%string.
Proof.
  split; [|by vm_compute]. apply run_ops_run; [apply run_new|]. vm_compute. reflexivity.
Qed.

End theorems.

(** ** Concrete runs *)

Module GraphWitness.
Import AsciiText.

#[export] Instance ex_libm : Libm := {| powf _ _ := f64_half; ln32 x := x; ln64 x := x |}.

(** Memories with shared concepts, one removed, one refined, abstractions built and the
    vocabulary evolved. *)
Definition ex_ops : list GraphOp :=
  [GAdd "a" "first" ["Rust"; "db"] f32_one (Some "s"); GAdd "b" "second" ["rust"; "DB"] f32_one (Some "s");
   GAdd "c" "third" ["disk"] f32_half None; GRefine "a" "b" f32_one; GContradict "b" "c" f32_one f32_half;
   GReinforce "a" 7; GAbstract 2; GRemove "c"; GDecay 9 3; GEvolve f32_one f32_zero 4;
   GReweight "a" f32_half; GCompact].
Definition ex_graph : MemoryGraph := run_ops ex_ops new_graph.

#[export] Instance tok_gmap_N : Tok (gmap string N) :=
  tok_iso map_to_list list_to_map list_to_map_to_list.
#[export] Instance tok_gset : Tok (gset string) :=
  tok_iso elements list_to_set list_to_set_elements_L.
#[export] Instance tok_node : Tok InternalNode.
Proof.
  refine (tok_iso
    (fun n => (match kind n with KMemory => 0 | KConcept => 1 end, external_id n, n_text n, base_importance_factor n))
    (fun '(k, e, t, b) => {| kind := match k with 0 => KMemory | _ => KConcept end; external_id := e; n_text := t;
                             base_importance_factor := b |}) _).
  by intros [[] ? ? ?].
Defined.
#[export] Instance tok_edge : Tok InternalEdge.
Proof.
  refine (tok_iso
    (fun e => (source e, target e, edge_rank (e_kind e), weight e, last_reinforced_at e))
    (fun '(s, t, k, w, a) =>
       {| source := s; target := t; weight := w; last_reinforced_at := a;
          e_kind := match k with 0 => Association | 1 => Temporal | 2 => Abstraction | 3 => Refines
                    | _ => Contradicts end |}) _).
  by intros [? ? [] ? ?].
Defined.
#[export] Instance tok_snapshot : Tok BinaryGraphSnapshot.
Proof.
  refine (tok_iso
    (fun s => (s_nodes s, s_edges s, s_last_memory_id s, s_co_occurrence s, s_vocab_aliases s,
               s_suppressed_concepts s))
    (fun '(n, e, l, c, v, x) =>
       {| s_nodes := n; s_edges := e; s_last_memory_id := l; s_co_occurrence := c; s_vocab_aliases := v;
          s_suppressed_concepts := x |}) _).
  by intros [].
Defined.
#[export] Instance ex_bs : Bincode BinaryGraphSnapshot := tok_bincode BinaryGraphSnapshot.
#[export] Instance ex_bs_ok : BincodeOk BinaryGraphSnapshot := tok_bincode_ok BinaryGraphSnapshot.

Lemma ex_run : graph_run ex_graph.
Proof. apply run_ops_run; [apply run_new|]. vm_compute. reflexivity. Qed.

Lemma graph_invariant_witness :
  node_count ex_graph = 5 /\ edge_count ex_graph = 8 /\
  exists es, edges ex_graph = Some es /\ length es = 8%nat.
Proof.
  split; [by vm_compute|]. split; [by vm_compute|].
  destruct (proj1 (graph_invariant ex_graph ex_run)) as (es & He & Hl).
  exists es. split; [exact He|]. rewrite Hl. by vm_compute.
Defined.

Lemma belief_head_spec_witness :
  belief_head ex_graph "a" = "b"%string /\ last (belief_lineage ex_graph "a") = Some "b"%string.
Proof.
  assert (E : belief_head ex_graph "a" = "b"%string) by (by vm_compute). split; [exact E|].
  destruct (belief_head_spec ex_graph "a" ex_run) as [_ H].
  destruct (get_node_id ex_graph (mem_key "a")) as [start|] eqn:Hs;
    [|exfalso; revert Hs; by vm_compute].
  destruct H as (path & n & s & _ & _ & _ & _ & _ & _ & Hlast & _). by rewrite Hlast, E.
Defined.

Lemma snapshot_roundtrip_witness :
  exists bytes g', to_snapshot_bytes ex_graph = Ok bytes /\ from_snapshot_bytes bytes = Some g' /\
    node_at g' "mem:a" = node_at ex_graph "mem:a" /\ is_Some (node_at ex_graph "mem:a").
Proof.
  destruct (to_snapshot_bytes ex_graph) as [bytes|err] eqn:Hb; [|discriminate].
  destruct (snapshot_roundtrip ex_graph bytes ex_run) as (g' & Hg & Hnodes & _); [by vm_compute|exact Hb|].
  exists bytes, g'. split; [done|]. split; [exact Hg|]. split; [apply Hnodes|]. vm_compute. eauto.
Defined.
End GraphWitness.
