(* ===== verification/Bm25.v ===== *)
(** * The lexical index, [crates/turbomemory_graph/src/bm25.rs]

    Document frequencies and the total length are kept incrementally; the theorem is
    that they always are what a recomputation from the documents would give. *)

From S2P Require Import Prelude Core Floats Vocabulary.

(** Iterating a [HashMap]: every entry once, in an unspecified order. *)
Class HashIter := {
  hash_iter : forall {A : Type}, gmap string A -> list (string * A);
  hash_iter_perm : forall {A : Type} (m : gmap string A), hash_iter m ≡ₚ map_to_list m;
}.

Record Bm25Index := {
  docs : gmap string (list string);
  term_doc_freq : gmap string N;
  total_doc_len : N;
  bm_k1 : f32;
  bm_b : f32;
}.
(** [Bm25Index::new]. *)
Definition new_bm25 : Bm25Index :=
  {| docs := ∅; term_doc_freq := ∅; total_doc_len := 0; bm_k1 := 0x3F99999A; bm_b := 0x3F400000 |}.

(** One pass over the tokens, each distinct one once. *)
Fixpoint distinct_fold (f : string -> gmap string N -> gmap string N) (seen : gset string)
    (tokens : list string) (m : gmap string N) : gmap string N :=
  match tokens with
  | [] => m
  | t :: tokens =>
      if decide (t ∈ seen) then distinct_fold f seen tokens m
      else distinct_fold f ({[t]} ∪ seen) tokens (f t m)
  end.
Definition inc_freq (t : string) (m : gmap string N) : gmap string N :=
  <[t := default 0 (m !! t) + 1]> m.
Definition dec_freq (t : string) (m : gmap string N) : gmap string N :=
  match m !! t with
  | Some count =>
      let count := saturating_sub count 1 in
      if count =? 0 then delete t m else <[t := count]> m
  | None => m
  end.
Definition add_term_freqs (tokens : list string) (m : gmap string N) : gmap string N :=
  distinct_fold inc_freq ∅ tokens m.
Definition remove_term_freqs (tokens : list string) (m : gmap string N) : gmap string N :=
  distinct_fold dec_freq ∅ tokens m.

Section bm25.
Context {U : Unicode} {L : Libm} {HI : HashIter}.
Implicit Types x : Bm25Index.

Definition tokenize (text : string) : list string :=
  filter (fun s => (1 < String.length s)%nat) (split_words (to_lowercase text)).

Definition avg_doc_len x : f32 :=
  if decide (docs x = ∅) then f32_one
  else f32_div (f32_of_N (total_doc_len x)) (f32_of_N (N.of_nat (size (docs x)))).
Definition idf x (term : string) : f32 :=
  let n := f32_of_N (N.max (N.of_nat (size (docs x))) 1) in
  let f := f32_of_N (default 0 (term_doc_freq x !! term)) in
  ln32 (f32_add (f32_div (f32_add (f32_sub n f) f32_half) (f32_add f f32_half)) f32_one).

(** [remove]: drop a document and its contribution. *)
Definition bm_remove (id : string) x : Bm25Index :=
  match docs x !! id with
  | Some old =>
      {| docs := delete id (docs x); term_doc_freq := remove_term_freqs old (term_doc_freq x);
         total_doc_len := saturating_sub (total_doc_len x) (len old); bm_k1 := bm_k1 x; bm_b := bm_b x |}
  | None => x
  end.
(** [add]: drop what the id had, then add the tokens. *)
Definition bm_add (id text : string) x : Bm25Index :=
  let tokens := tokenize text in
  let x := bm_remove id x in
  {| docs := <[id := tokens]> (docs x); term_doc_freq := add_term_freqs tokens (term_doc_freq x);
     total_doc_len := total_doc_len x + len tokens; bm_k1 := bm_k1 x; bm_b := bm_b x |}.
Definition recompute x : Bm25Index :=
  let all_tokens := (hash_iter (docs x)).*2 in
  {| docs := docs x;
     term_doc_freq := foldl (fun m tokens => add_term_freqs tokens m) ∅ all_tokens;
     total_doc_len := foldl (fun n tokens => n + len tokens) 0 all_tokens;
     bm_k1 := bm_k1 x; bm_b := bm_b x |}.

Definition term_freq (tokens : list string) (t : string) : N := len (filter (fun t' => t' = t) tokens).
(** The score of one document. *)
Definition doc_score x (qtokens tokens : list string) : f32 :=
  let doc_len := f32_of_N (len tokens) in
  foldl (fun score qt =>
           let tf := f32_of_N (term_freq tokens qt) in
           let denom := f32_add tf (f32_mul (bm_k1 x)
             (f32_add (f32_sub f32_one (bm_b x)) (f32_div (f32_mul (bm_b x) doc_len) (avg_doc_len x)))) in
           f32_add score (f32_div (f32_mul (idf x qt) (f32_mul tf (f32_add (bm_k1 x) f32_one))) denom))
    f32_zero qtokens.
Definition score_doc x (qtokens : list string) (m : gmap string f32) (d : string * list string)
    : gmap string f32 :=
  let s := doc_score x qtokens d.2 in if f32_gtb s f32_zero then <[d.1 := s]> m else m.
Definition score_pair_le (a b : string * f32) : Prop := score_le a.2 b.2.
#[local] Instance score_pair_le_dec a b : Decision (score_pair_le a b).
Proof. unfold score_pair_le. apply _. Defined.
Definition score x (query : string) : list (string * f32) :=
  let qtokens := tokenize query in
  if decide (qtokens = [] \/ docs x = ∅) then []
  else
    sort_by score_pair_le (hash_iter (foldl (score_doc x qtokens) ∅ (hash_iter (docs x)))).

(** ** The counts are exact *)

(** In how many of the documents a term occurs. *)
Definition doc_freq (ds : list (list string)) (t : string) : N := len (filter (fun d => t ∈ d) ds).
Definition total_len (ds : list (list string)) : N := foldr (fun d n => len d + n) 0 ds.

Lemma distinct_fold_lookup f h seen tokens m t :
  (forall t m, f t m !! t = h (m !! t)) -> (forall t m t', t <> t' -> f t m !! t' = m !! t') ->
  distinct_fold f seen tokens m !! t
  = if decide (t ∈ tokens /\ t ∉ seen) then h (m !! t) else m !! t.
Proof.
  intros Hh Hf. revert seen m. induction tokens as [|t' tokens IH]; intros seen m; cbn [distinct_fold].
  { case_decide as Hd; [|done]. set_solver. }
  destruct (decide (t' ∈ seen)) as [Hs|Hs]; rewrite IH.
  - rewrite (decide_ext (t ∈ tokens /\ t ∉ seen) (t ∈ t' :: tokens /\ t ∉ seen)); [done|set_solver].
  - destruct (decide (t = t')) as [->|Hne].
    + rewrite decide_False by set_solver. rewrite decide_True by set_solver. apply Hh.
    + rewrite (Hf t' m t) by congruence.
      rewrite (decide_ext (t ∈ tokens /\ t ∉ {[t']} ∪ seen) (t ∈ t' :: tokens /\ t ∉ seen)); [done|set_solver].
Qed.

Definition inc (o : option N) : option N := Some (default 0 o + 1).
Definition dec (o : option N) : option N :=
  c ← o; if saturating_sub c 1 =? 0 then None else Some (saturating_sub c 1).

Lemma add_term_freqs_lookup tokens m t :
  add_term_freqs tokens m !! t = if decide (t ∈ tokens) then inc (m !! t) else m !! t.
Proof.
  unfold add_term_freqs. rewrite (distinct_fold_lookup _ inc).
  - apply decide_ext. set_solver.
  - intros t' m'. apply lookup_insert_eq.
  - intros t' m' t2 Hne. by apply lookup_insert_ne.
Qed.
Lemma remove_term_freqs_lookup tokens m t :
  remove_term_freqs tokens m !! t = if decide (t ∈ tokens) then dec (m !! t) else m !! t.
Proof.
  unfold remove_term_freqs. rewrite (distinct_fold_lookup _ dec).
  - apply decide_ext. set_solver.
  - intros t' m'. unfold dec_freq, dec. destruct (m' !! t') as [c|] eqn:E; simpl; [|done].
    destruct (_ =? 0); [apply lookup_delete_eq|apply lookup_insert_eq].
  - intros t' m' t2 Hne. unfold dec_freq. destruct (m' !! t') as [c|]; [|done].
    destruct (_ =? 0); [by apply lookup_delete_ne|by apply lookup_insert_ne].
Qed.

(** The frequency map of a collection of documents. *)
Definition freq_ok (ds : list (list string)) (m : gmap string N) : Prop :=
  forall t, m !! t = if decide (doc_freq ds t = 0) then None else Some (doc_freq ds t).

Lemma freq_ok_perm ds ds' m : ds ≡ₚ ds' -> freq_ok ds m -> freq_ok ds' m.
Proof.
  intros Hp Hm t. rewrite (Hm t). assert (E : doc_freq ds t = doc_freq ds' t) by (unfold doc_freq, len; by rewrite Hp).
  by rewrite E.
Qed.
Lemma doc_freq_cons d ds t : doc_freq (d :: ds) t = (if decide (t ∈ d) then 1 else 0) + doc_freq ds t.
Proof.
  unfold doc_freq, len. rewrite filter_cons. case_decide; simpl; [|done]. lia.
Qed.
Lemma freq_ok_add d ds m : freq_ok ds m -> freq_ok (d :: ds) (add_term_freqs d m).
Proof.
  intros Hm t. rewrite add_term_freqs_lookup, (Hm t), doc_freq_cons. destruct (decide (t ∈ d)); [|done].
  rewrite (decide_False (P := 1 + doc_freq ds t = 0)) by lia. unfold inc. f_equal. case_decide as Hd; simpl; lia.
Qed.
Lemma freq_ok_remove d ds m : freq_ok (d :: ds) m -> freq_ok ds (remove_term_freqs d m).
Proof.
  intros Hm t. rewrite remove_term_freqs_lookup, (Hm t), doc_freq_cons. destruct (decide (t ∈ d)); [|done].
  rewrite (decide_False (P := 1 + doc_freq ds t = 0)) by lia. unfold dec. simpl.
  replace (saturating_sub (1 + doc_freq ds t) 1) with (doc_freq ds t) by (unfold saturating_sub; lia).
  case_decide as Hd; [by rewrite Hd|]. destruct (N.eqb_spec (doc_freq ds t) 0); [lia|done].
Qed.
Lemma freq_ok_unique ds m m' : freq_ok ds m -> freq_ok ds m' -> m = m'.
Proof. intros H1 H2. apply map_eq. intros t. by rewrite (H1 t), (H2 t). Qed.

Lemma total_len_perm ds ds' : ds ≡ₚ ds' -> total_len ds = total_len ds'.
Proof. induction 1; simpl; lia. Qed.

(** The invariant of the index. *)
Definition values (m : gmap string (list string)) : list (list string) := (map_to_list m).*2.
Definition bm_ok x : Prop :=
  freq_ok (values (docs x)) (term_doc_freq x) /\ total_doc_len x = total_len (values (docs x)).

Lemma values_insert id d m : m !! id = None -> values (<[id := d]> m) ≡ₚ d :: values m.
Proof. intros Hm. unfold values. by rewrite map_to_list_insert. Qed.
Lemma values_delete id d m : m !! id = Some d -> values m ≡ₚ d :: values (delete id m).
Proof. intros Hm. unfold values. by rewrite <- (map_to_list_delete m id d). Qed.

Lemma bm_ok_new : bm_ok new_bm25.
Proof. split; [intros t; unfold values; simpl; by rewrite map_to_list_empty|unfold values; simpl; by rewrite map_to_list_empty]. Qed.
Lemma bm_ok_remove id x : bm_ok x -> bm_ok (bm_remove id x).
Proof.
  intros [Hf Ht]. unfold bm_remove. destruct (docs x !! id) as [d|] eqn:Hd; [|done].
  pose proof (values_delete _ _ _ Hd) as Hp. split; simpl.
  - apply freq_ok_remove. by eapply freq_ok_perm.
  - rewrite Ht, (total_len_perm _ _ Hp). simpl. unfold saturating_sub. lia.
Qed.
Lemma bm_remove_docs id x : docs (bm_remove id x) = delete id (docs x).
Proof.
  unfold bm_remove. destruct (docs x !! id) as [d|] eqn:Hd; [done|]. by rewrite delete_id.
Qed.
Lemma bm_ok_add id text x : bm_ok x -> bm_ok (bm_add id text x).
Proof.
  intros Hx. pose proof (bm_ok_remove id x Hx) as [Hf Ht].
  assert (Hn : docs (bm_remove id x) !! id = None) by (rewrite bm_remove_docs; apply lookup_delete_eq).
  pose proof (values_insert id (tokenize text) _ Hn) as Hp. unfold bm_add. split; simpl.
  - eapply freq_ok_perm; [symmetry; exact Hp|]. by apply freq_ok_add.
  - rewrite Ht, (total_len_perm _ _ Hp). simpl. lia.
Qed.

Inductive Bm25Op := BAdd (id text : string) | BRemove (id : string).
Definition bm_apply x (op : Bm25Op) : Bm25Index :=
  match op with BAdd id text => bm_add id text x | BRemove id => bm_remove id x end.
Definition bm_run (ops : list Bm25Op) : Bm25Index := foldl bm_apply new_bm25 ops.

Lemma bm_run_ok ops : bm_ok (bm_run ops).
Proof.
  unfold bm_run. assert (H : forall x, bm_ok x -> bm_ok (foldl bm_apply x ops)); [|apply H, bm_ok_new].
  induction ops as [|op ops IH]; intros x Hx; simpl; [done|]. apply IH.
  destruct op; [by apply bm_ok_add|by apply bm_ok_remove].
Qed.

Lemma recompute_ok x : bm_ok (recompute x).
Proof.
  assert (Hp : (hash_iter (docs x)).*2 ≡ₚ values (docs x)) by (unfold values; by rewrite hash_iter_perm).
  split; unfold recompute; simpl.
  - eapply freq_ok_perm; [etransitivity; [apply reverse_Permutation|exact Hp]|].
    generalize ((hash_iter (docs x)).*2). intros l. induction l as [|d l IH] using rev_ind; [done|].
    rewrite foldl_app, reverse_snoc. simpl. by apply freq_ok_add.
  - rewrite <- (total_len_perm _ _ Hp). generalize ((hash_iter (docs x)).*2). intros l.
    assert (H : forall n, foldl (fun n tokens => n + len tokens) n l = n + total_len l); [|by rewrite H].
    induction l as [|d l IH]; intros n; simpl; [lia|]. rewrite IH. lia.
Qed.

(** After any sequence of [add] (new documents and replacements) and [remove], the
    document frequency kept for each term is the number of indexed documents that
    contain it, terms of no document are absent, the total length is the sum of the
    documents' lengths, and a full [recompute], in whatever order the documents are
    visited, changes nothing. *)
Theorem bm25_counts_exact ops :
  (forall t, term_doc_freq (bm_run ops) !! t
             = if decide (doc_freq (values (docs (bm_run ops))) t = 0) then None
               else Some (doc_freq (values (docs (bm_run ops))) t)) /\
  total_doc_len (bm_run ops) = total_len (values (docs (bm_run ops))) /\
  recompute (bm_run ops) = bm_run ops.
Proof.
  pose proof (bm_run_ok ops) as [Hf Ht]. destruct (recompute_ok (bm_run ops)) as [Rf Rt].
  split_and!; [exact Hf|exact Ht|]. simpl in Rf, Rt.
  assert (E1 := freq_ok_unique _ _ _ Rf Hf). assert (E2 := eq_trans Rt (eq_sym Ht)).
  unfold recompute in *. simpl in *. rewrite E1, E2. by destruct (bm_run ops).
Qed.

(** ** Scores *)

Lemma score_pair_total : Total score_pair_le.
Proof. intros a b. apply (total score_le). Qed.
Lemma score_pair_trans : Transitive score_pair_le.
Proof. intros a b c. unfold score_pair_le. apply (transitivity (R := score_le)). Qed.

(** The scored documents, before sorting. *)
Lemma scores_lookup x q l m id s :
  NoDup l.*1 -> (forall d, d ∈ l -> m !! d.1 = None) ->
  foldl (score_doc x q) m l !! id = Some s <->
  m !! id = Some s \/ exists d, (id, d) ∈ l /\ s = doc_score x q d /\ f32_gtb s f32_zero = true.
Proof.
  revert m. induction l as [|[i d] l IH]; intros m Hnd Hm; simpl.
  { split; [auto|]. intros [?|(d & ? & _)]; [done|set_solver]. }
  apply NoDup_cons in Hnd as [Hi Hnd]. simpl in Hi. rewrite IH; [|done|]; unfold score_doc; cbn [fst snd]; cbv zeta.
  - assert (Hmi : m !! i = None) by (apply (Hm (i, d)); set_solver).
    destruct (f32_gtb (doc_score x q d) f32_zero) eqn:Hg.
    + rewrite lookup_insert_Some. split.
      * intros [[[<- <-]|[? ?]]|(d' & ? & ? & ?)]; [right; exists d; set_solver|by left|right; exists d'; set_solver].
      * intros [?|(d' & [E|?]%elem_of_cons & -> & ?)]; [|injection E as -> ->; auto|right; eauto].
        left. right. split; [congruence|done].
    + split.
      * intros [?|(d' & ? & ? & ?)]; [by left|right; exists d'; set_solver].
      * intros [?|(d' & [E|?]%elem_of_cons & -> & ?)]; [by left|injection E as -> ->; congruence|right; eauto].
  - intros d' Hd'. assert (d'.1 <> i) by (intros <-; apply Hi; apply list_elem_of_fmap; eauto).
    destruct (f32_gtb (doc_score x q d) f32_zero); [rewrite lookup_insert_ne by congruence|]; apply Hm; set_solver.
Qed.

Lemma score_perm x query :
  score x query ≡ₚ if decide (tokenize query = [] \/ docs x = ∅) then []
                   else map_to_list (foldl (score_doc x (tokenize query)) ∅ (hash_iter (docs x))).
Proof. unfold score. case_decide; [done|]. by rewrite sort_by_perm, hash_iter_perm. Qed.

Lemma bm25_score_mem x query id s : (id, s) ∈ score x query -> is_Some (docs x !! id).
Proof.
  rewrite score_perm. case_decide as Hd; [set_solver|]. rewrite elem_of_map_to_list, scores_lookup.
  - rewrite lookup_empty. intros [?|(d & Hin & _)]; [done|]. rewrite hash_iter_perm in Hin.
    apply elem_of_map_to_list in Hin. eauto.
  - rewrite hash_iter_perm. apply NoDup_fst_map_to_list.
  - intros d _. apply lookup_empty.
Qed.

(** Scoring a query returns each document at most once, exactly those indexed
    documents whose score for the query is positive, in descending order of score;
    and nothing when the query has no token or the index is empty. *)
Theorem bm25_score_spec x query :
  NoDup (score x query).*1 /\ StronglySorted score_pair_le (score x query) /\
  forall id s, (id, s) ∈ score x query <->
    tokenize query <> [] /\ exists d, docs x !! id = Some d /\ s = doc_score x (tokenize query) d /\
      f32_gtb s f32_zero = true.
Proof.
  unfold score. case_decide as Hd.
  { split_and!; [constructor|constructor|]. intros id s. split; [set_solver|].
    intros [Hq (d & Hdoc & _)]. destruct Hd as [?|Hd]; [done|]. rewrite Hd in Hdoc. by rewrite lookup_empty in Hdoc. }
  set (m := foldl _ ∅ _).
  assert (Hm : forall id s, m !! id = Some s <->
    exists d, docs x !! id = Some d /\ s = doc_score x (tokenize query) d /\ f32_gtb s f32_zero = true).
  { intros id s. unfold m. rewrite scores_lookup.
    - rewrite lookup_empty. setoid_rewrite hash_iter_perm. setoid_rewrite elem_of_map_to_list. naive_solver.
    - rewrite hash_iter_perm. apply NoDup_fst_map_to_list.
    - intros d _. apply lookup_empty. }
  split_and!.
  - rewrite sort_by_perm, hash_iter_perm. apply NoDup_fst_map_to_list.
  - apply sort_by_sorted; [apply score_pair_trans|apply score_pair_total].
  - intros id s. rewrite sort_by_perm, hash_iter_perm, elem_of_map_to_list, Hm. naive_solver.
Qed.
End bm25.

#[export] Instance ordered_iter : HashIter := {| hash_iter A := map_to_list; hash_iter_perm A m := Permutation_refl _ |}.
