(* ===== verification/Extract.v ===== *)
(** * Concept extraction, [crates/turbomemory_graph/src/extract.rs]

    Tokens, n-grams and their scores, the merge of caller concepts with extracted
    ones, and the text heuristics belief revision uses. *)

From S2P Require Import Prelude Core Floats Vocabulary Bm25.

Definition STOPWORDS : list string :=
  ["a"; "about"; "above"; "after"; "again"; "against"; "all"; "am"; "an"; "and"; "any"; "are";
   "aren"; "as"; "at"; "be"; "because"; "been"; "before"; "being"; "below"; "between"; "both";
   "but"; "by"; "can"; "cannot"; "could"; "did"; "do"; "does"; "doing"; "don"; "down";
   "during"; "each"; "few"; "for"; "from"; "further"; "had"; "has"; "have"; "having"; "he";
   "her"; "here"; "hers"; "herself"; "him"; "himself"; "his"; "how"; "i"; "if"; "in"; "into";
   "is"; "it"; "its"; "itself"; "just"; "me"; "more"; "most"; "my"; "myself"; "no"; "nor";
   "not"; "now"; "of"; "off"; "on"; "once"; "only"; "or"; "other"; "our"; "ours"; "ourselves";
   "out"; "over"; "own"; "same"; "she"; "should"; "so"; "some"; "such"; "than"; "that"; "the";
   "their"; "theirs"; "them"; "themselves"; "then"; "there"; "these"; "they"; "this"; "those";
   "through"; "to"; "too"; "under"; "until"; "up"; "very"; "was"; "we"; "were"; "what"; "when";
   "where"; "which"; "while"; "who"; "whom"; "why"; "will"; "with"; "would"; "you"; "your";
   "yours"; "yourself"; "yourselves"; "also"; "been"; "being"; "but"; "can"; "may"; "might";
   "must"; "need"; "shall"; "well"; "even"; "still"; "yet"; "many"; "much"; "lot"; "way";
   "thing"; "things"; "make"; "makes"; "made"; "get"; "got"; "go"; "going"; "gone"; "one";
   "two"; "three"; "first"; "last"; "new"; "old"; "good"; "bad"; "big"; "small"; "use"; "used";
   "using"; "like"; "likely"; "via"; "per"; "etc"; "ie"; "eg"; "would"; "could"; "should";
   "might"; "must"; "shall"; "will"; "may"]%string.
Definition OPPOSITION_MARKERS_WORD : list string :=
  ["not"; "never"; "cannot"; "actually"; "instead"; "false"; "incorrect"; "wrong"; "unlike"; "opposite";
   "contrary"; "mistaken"]%string.
Definition OPPOSITION_MARKERS_PHRASE : list string := ["n't"; "no longer"; "rather than"; "in fact"]%string.

Record ExtractorConfig := {
  max_concepts : N;
  max_ngram_len : N;
  min_ngram_freq : N;
  enable_pmi_scoring : bool;
  pmi_weight : f32;
}.
(** The default configuration, with this many concepts. *)
Definition default_extractor (n : N) : ExtractorConfig := {|
  max_concepts := n; max_ngram_len := 1; min_ngram_freq := 1; enable_pmi_scoring := true;
  pmi_weight := f32_one |}.
Definition ngram_extractor : ExtractorConfig := {|
  max_concepts := 5; max_ngram_len := 3; min_ngram_freq := 1; enable_pmi_scoring := true;
  pmi_weight := f32_one |}.
Definition with_max (n : N) (c : ExtractorConfig) : ExtractorConfig := {|
  max_concepts := n; max_ngram_len := max_ngram_len c; min_ngram_freq := min_ngram_freq c;
  enable_pmi_scoring := enable_pmi_scoring c; pmi_weight := pmi_weight c |}.
Definition effective_max_ngram_len (c : ExtractorConfig) : N := N.min (N.max (max_ngram_len c) 1) 3.

(** [chars().all(is_ascii_digit)], on UTF-8 bytes. *)
Fixpoint all_digits (s : string) : bool :=
  match s with
  | EmptyString => true
  | String c s => (48 <=? N_of_ascii c) && (N_of_ascii c <=? 57) && all_digits s
  end.
(** [str::contains]. *)
Fixpoint contains (needle s : string) : bool :=
  String.prefix needle s || match s with String _ s => contains needle s | EmptyString => false end.
(** [join(" ")]. *)
Fixpoint join_words (l : list string) : string :=
  match l with
  | [] => EmptyString
  | [w] => w
  | w :: l => w +:+ " " +:+ join_words l
  end.

Section extract.
Context {U : Unicode} {L : Libm} {HI : HashIter}.

Definition clean_token (token : string) : option string :=
  let t := trim token in
  if (String.length t <? 3)%nat then None
  else if all_digits t then None
  else if bool_decide (t ∈ STOPWORDS) then None
  else Some t.
Definition tokenize_filtered (text : string) : list string :=
  omap clean_token (split_words (to_lowercase text)).

Definition word_set (concept : string) : gset string := list_to_set (split_whitespace concept).
Definition is_subsumed (candidate : string) (selected : list string) : bool :=
  let cand_words := word_set candidate in
  if (size cand_words <=? 1)%nat then
    existsb (fun s => let s_words := split_whitespace s in
                      (1 <? length s_words)%nat && bool_decide (candidate ∈ s_words)) selected
  else
    existsb (fun s => let s_words := word_set s in
                      (size cand_words <? size s_words)%nat && bool_decide (cand_words ⊆ s_words)) selected.

Definition bump_word (m : gmap string N) (w : string) : gmap string N := <[w := default 0 (m !! w) + 1]> m.
Definition count_words (l : list string) : gmap string N := foldl bump_word ∅ l.
(** The n-grams of a token list, in order. *)
Definition ngrams (n : nat) (tokens : list string) : list string :=
  map (fun i => join_words (take n (drop i tokens))) (seq 0 (length tokens + 1 - n)).

(** [(len as f32 - 3.0).max(0.0) * w]. *)
Definition len_bonus (s : string) (w : f32) : f32 :=
  f32_mul (f32_max (f32_sub (f32_of_N (N.of_nat (String.length s))) 0x40400000) f32_zero) w.
Definition unigram_candidates (min_freq : N) (unigrams : gmap string N) : list (string * f32) :=
  omap (fun tc : string * N =>
          if tc.2 <? min_freq then None
          else Some (tc.1, f32_add (f32_of_N tc.2) (len_bonus tc.1 0x3DCCCCCD))) (hash_iter unigrams).

(** The product of the words' frequencies; 0 as soon as one does not occur. *)
Fixpoint independent_prob (unigrams : gmap string N) (total : f32) (words : list string) (acc : f32) : f32 :=
  match words with
  | [] => acc
  | w :: words =>
      let c := f32_of_N (default 0 (unigrams !! w)) in
      if f32_gtb c f32_zero then independent_prob unigrams total words (f32_mul acc (f32_div c total))
      else f32_zero
  end.
Definition pmi_bonus (c : ExtractorConfig) (unigrams : gmap string N) (n_tokens n count : N)
    (words : list string) : f32 :=
  if enable_pmi_scoring c then
    let joint := f32_div (f32_of_N count) (f32_of_N (saturating_sub n_tokens (n - 1))) in
    let indep := independent_prob unigrams (f32_of_N n_tokens) words f32_one in
    if f32_gtb indep f32_zero && f32_gtb joint f32_zero
    then f32_max (f32_mul (ln32 (f32_div joint indep)) (pmi_weight c)) f32_zero
    else f32_zero
  else f32_zero.
Definition ngram_candidates (c : ExtractorConfig) (min_freq : N) (unigrams : gmap string N)
    (tokens : list string) (n : nat) : list (string * f32) :=
  omap (fun gc : string * N =>
          if gc.2 <? min_freq then None
          else
            let words := split_whitespace gc.1 in
            if negb (length words =? n)%nat then None
            else
              let base := f32_add (f32_mul (f32_of_N gc.2) (f32_of_N (N.of_nat n))) (len_bonus gc.1 0x3CF5C28F) in
              Some (gc.1, f32_add base (pmi_bonus c unigrams (len tokens) (N.of_nat n) gc.2 words)))
    (hash_iter (count_words (ngrams n tokens))).

Definition concept_le (a b : string * f32) : Prop :=
  match cmp_score_desc a.2 b.2 with Lt => True | Gt => False | Eq => string_le a.1 b.1 end.
#[global] Instance concept_le_dec a b : Decision (concept_le a b).
Proof. unfold concept_le, string_le. destruct (cmp_score_desc _ _); apply _. Defined.

(** Greedy selection, without what an already selected concept subsumes. *)
Fixpoint select_concepts (max : N) (selected cands : list string) : list string :=
  match cands with
  | [] => selected
  | c :: cands =>
      if max <=? len selected then selected
      else if is_subsumed c selected then select_concepts max selected cands
      else select_concepts max (selected ++ [c]) cands
  end.

Definition scored_candidates (c : ExtractorConfig) (tokens : list string) : list (string * f32) :=
  let min_freq := N.max (min_ngram_freq c) 1 in
  let unigrams := count_words tokens in
  unigram_candidates min_freq unigrams
    ++ concat (map (ngram_candidates c min_freq unigrams tokens)
                 (seq 2 (N.to_nat (effective_max_ngram_len c) - 1))).
Definition extract_concepts_with_config (text : string) (c : ExtractorConfig) : list string :=
  if (max_concepts c =? 0) || bool_decide (trim text = ""%string) then []
  else
    let tokens := tokenize_filtered text in
    if bool_decide (tokens = []) then []
    else select_concepts (max_concepts c) [] (sort_by concept_le (scored_candidates c tokens)).*1.
Definition extract_concepts (text : string) (max : N) : list string :=
  extract_concepts_with_config text (default_extractor max).

(** ** Merging with the caller's concepts *)

(** The caller's concepts; the boolean is the early return. *)
Fixpoint caller_loop (f : string -> string) (max : N) (caller : list string) (result : list string)
    (seen : gset string) : list string * gset string * bool :=
  match caller with
  | [] => (result, seen, false)
  | c :: caller =>
      let norm := f c in
      let '(result, seen) :=
        if bool_decide (norm = ""%string \/ norm ∈ seen) then (result, seen)
        else (result ++ [norm], {[norm]} ∪ seen) in
      if max <=? len result then (result, seen, true) else caller_loop f max caller result seen
  end.
Fixpoint fill_loop (f : string -> string) (max : N) (extracted : list string) (result : list string)
    (seen : gset string) : list string :=
  match extracted with
  | [] => result
  | c :: extracted =>
      let canon := f c in
      let '(result, seen) :=
        if bool_decide (canon ∈ seen) then (result, seen) else (result ++ [canon], {[canon]} ∪ seen) in
      if max <=? len result then result else fill_loop f max extracted result seen
  end.
Definition resolver (v : option ConceptVocabulary) (c : string) : string :=
  match v with Some v => resolve v c | None => to_lowercase c end.
Definition merge_concepts_with_config (caller : list string) (text : string) (c : ExtractorConfig)
    (v : option ConceptVocabulary) : list string :=
  let max := max_concepts c in
  match caller_loop (resolver v) max caller [] ∅ with
  | (result, _, true) => result
  | (result, seen, false) =>
      let room := saturating_sub max (len result) in
      if 0 <? room then
        fill_loop (resolver v) max (extract_concepts_with_config text (with_max ((room * 2) mod U64) c)) result seen
      else result
  end.
Definition merge_concepts_default (caller : list string) (text : string) (max : N) : list string :=
  merge_concepts_with_config caller text (default_extractor max) None.

(** ** Text heuristics *)

Definition text_jaccard_similarity (a b : string) : f32 :=
  let ta : gset string := list_to_set (extract_concepts a 100) in
  let tb : gset string := list_to_set (extract_concepts b 100) in
  if bool_decide (ta = ∅) || bool_decide (tb = ∅) then f32_zero
  else
    let union := N.of_nat (size (ta ∪ tb)) in
    if union =? 0 then f32_zero else f32_div (f32_of_N (N.of_nat (size (ta ∩ tb)))) (f32_of_N union).
Definition has_opposition_marker (text : string) : bool :=
  let lower := to_lowercase text in
  if existsb (fun m => contains m lower) OPPOSITION_MARKERS_PHRASE then true
  else
    let words := filter (fun t => t <> ""%string) (split_words lower) in
    existsb (fun m => bool_decide (m ∈ words)) OPPOSITION_MARKERS_WORD.

(** ** What the merge gives *)

(** The caller's concepts in canonical form, without empty ones and repetitions. *)
Fixpoint distinct_concepts (f : string -> string) (caller : list string) (seen : gset string) : list string :=
  match caller with
  | [] => []
  | c :: caller =>
      if bool_decide (f c = ""%string \/ f c ∈ seen) then distinct_concepts f caller seen
      else f c :: distinct_concepts f caller ({[f c]} ∪ seen)
  end.

(** The state of both loops: no repetitions, and [seen] is what was pushed. *)
Definition merging (result : list string) (seen : gset string) : Prop :=
  NoDup result /\ forall c, c ∈ seen <-> c ∈ result.
Lemma merging_push result seen c : merging result seen -> c ∉ seen -> merging (result ++ [c]) ({[c]} ∪ seen).
Proof.
  intros [Hnd Hs] Hc. split; [|set_solver].
  apply NoDup_app. split_and!; [done| |apply NoDup_singleton]. intros x Hx. rewrite list_elem_of_singleton.
  intros ->. apply Hc. by apply Hs.
Qed.

Lemma caller_loop_spec f max caller result seen :
  merging result seen -> len result < max ->
  let '(r, s, b) := caller_loop f max caller result seen in
  merging r s /\
  r = result ++ take (N.to_nat (max - len result)) (distinct_concepts f caller seen) /\
  (if b then len r = max else len r < max).
Proof.
  revert result seen. induction caller as [|c caller IH]; intros result seen Hm Hlt; cbn [caller_loop distinct_concepts].
  { rewrite take_nil, app_nil_r. done. }
  destruct (bool_decide (f c = ""%string \/ f c ∈ seen)) eqn:Hb.
  - destruct (N.leb_spec max (len result)); [lia|]. by apply IH.
  - apply bool_decide_eq_false in Hb.
    assert (Hp : merging (result ++ [f c]) ({[f c]} ∪ seen)) by (apply merging_push; [done|tauto]).
    assert (Hlen : len (result ++ [f c]) = len result + 1) by (unfold len; rewrite length_app; simpl; lia).
    replace (N.to_nat (max - len result)) with (S (N.to_nat (max - len (result ++ [f c])))) by lia.
    destruct (N.leb_spec max (len (result ++ [f c]))) as [Hge|Hlt'].
    + split; [done|]. replace (N.to_nat (max - len (result ++ [f c]))) with 0%nat by lia. split; [done|lia].
    + specialize (IH _ _ Hp Hlt'). destruct (caller_loop f max caller _ _) as [[r s] b].
      destruct IH as (H1 & -> & H3). split; [done|]. split; [|done]. by rewrite <- app_assoc.
Qed.

Lemma fill_loop_spec f max ext result seen :
  merging result seen -> len result < max ->
  NoDup (fill_loop f max ext result seen) /\ len (fill_loop f max ext result seen) <= max /\
  exists rest, fill_loop f max ext result seen = result ++ rest /\ forall c, c ∈ rest -> c ∈ map f ext.
Proof.
  revert result seen. induction ext as [|c ext IH]; intros result seen Hm Hlt; cbn [fill_loop].
  { split; [apply Hm|]. split; [lia|]. exists []. rewrite app_nil_r. set_solver. }
  destruct (bool_decide (f c ∈ seen)) eqn:Hb.
  - destruct (N.leb_spec max (len result)); [lia|]. destruct (IH _ _ Hm Hlt) as (H1 & H2 & rest & H3 & H4).
    split; [done|]. split; [done|]. exists rest. split; [done|]. set_solver.
  - apply bool_decide_eq_false in Hb. pose proof (merging_push _ _ _ Hm Hb) as Hp.
    assert (Hlen : len (result ++ [f c]) = len result + 1) by (unfold len; rewrite length_app; simpl; lia).
    destruct (N.leb_spec max (len (result ++ [f c]))) as [Hge|Hlt'].
    + split; [apply Hp|]. split; [lia|]. exists [f c]. split; [done|]. set_solver.
    + destruct (IH _ _ Hp Hlt') as (H1 & H2 & rest & H3 & H4).
      split; [done|]. split; [done|]. exists (f c :: rest). split; [by rewrite H3, <- app_assoc|]. set_solver.
Qed.

Lemma merging_nil : merging [] ∅.
Proof. split; [constructor|set_solver]. Qed.


(** With [max_concepts] 0, documented to disable extraction, the caller's own
    concepts are cut to the first one: the limit is tested after a concept is pushed. *)
Theorem merge_zero_keeps_one a caller text c v :
  max_concepts c = 0 -> resolver v a <> ""%string ->
  merge_concepts_with_config (a :: caller) text c v = [resolver v a].
Proof.
  intros Hmax Ha. unfold merge_concepts_with_config. rewrite Hmax. cbn [caller_loop].
  rewrite bool_decide_false; [done|]. set_solver.
Qed.

(** ** Extraction respects its limit *)

Lemma select_concepts_len max selected cands :
  len selected <= max -> len (select_concepts max selected cands) <= max.
Proof.
  revert selected. induction cands as [|c cands IH]; intros selected Hl; simpl; [done|].
  destruct (N.leb_spec max (len selected)); [done|]. destruct (is_subsumed c selected); [by apply IH|].
  apply IH. unfold len in *. rewrite length_app. simpl. lia.
Qed.
Lemma extract_len text c : len (extract_concepts_with_config text c) <= max_concepts c.
Proof.
  unfold extract_concepts_with_config. destruct (_ || _); [unfold len; simpl; lia|].
  destruct (bool_decide _); [unfold len; simpl; lia|]. apply select_concepts_len. unfold len. simpl. lia.
Qed.

End extract.

(** ** Concrete runs *)

Module ExtractWitness.
Import AsciiText.
#[local] Instance ex_ln : Libm := {| powf x _ := x; ln32 x := x; ln64 x := x |}.

Example extract_ex :
  extract_concepts "The Rust programming language: rust is fast, and 2024 is here" 3
  = ["rust"; "programming"; "language"]%string.
Proof. vm_compute. reflexivity. Qed.


Lemma merge_zero_keeps_one_witness :
  merge_concepts_default ["Rust"; "DB"] "memory safety" 0 = ["rust"]%string.
Proof.
  assert (E : resolver None "Rust" = "rust"%string) by (by vm_compute).
  pose proof (merge_zero_keeps_one "Rust" ["DB"%string] "memory safety" (default_extractor 0) None eq_refl) as H.
  rewrite E in H. apply H. discriminate.
Defined.
End ExtractWitness.
