(* ===== verification/Ccs.v ===== *)
(** * The working memory of a session, [crates/turbomemory_graph/src/ccs.rs]

    A bounded state distilled from each turn. The JSON encoding is [serde_json]'s and is
    a class. *)

From stdpp Require Import pretty.
From S2P Require Import Prelude Vocabulary Record.

Definition MAX_FACTS : nat := 8.
Definition MAX_TOPICS : nat := 6.

Record CompressedCognitiveState := {
  turn_count : N;
  last_user_input : string;
  last_assistant_response : string;
  facts : list string;
  topics : list string;
}.
(** [CompressedCognitiveState::new]. *)
Definition new_ccs : CompressedCognitiveState := {|
  turn_count := 0; last_user_input := ""; last_assistant_response := ""; facts := []; topics := [] |}.

Class CcsJson := {
  ccs_to_string : CompressedCognitiveState -> option string;
  ccs_from_str : string -> option CompressedCognitiveState;
}.
(** Reading what was written gives the state back, and writing succeeds. *)
Class CcsJsonOk `{CcsJson} : Prop := {
  ccs_roundtrip : forall c, exists s, ccs_to_string c = Some s /\ ccs_from_str s = Some c;
}.

(** A compressor: [CognitiveCompressor::compress]. *)
Definition Compressor := CompressedCognitiveState -> string -> string -> CompressedCognitiveState.

Section ccs.
Context {U : Unicode}.

Definition truncate (s : string) (max_len : nat) : string :=
  let '(t, more) := take_chars max_len s in if more then t +:+ "..." else s.
Definition push_topic (topics : list string) (t : string) : list string :=
  if bool_decide (t ∈ topics) then topics else topics ++ [t].
Definition new_topics (user_input : string) : list string :=
  filter (fun s => (2 < String.length s)%nat) (split_words (to_lowercase user_input)).
Definition fact (turn : N) (user_input response : string) : string :=
  "Turn " +:+ pretty turn +:+ ": user asked about '" +:+ truncate user_input 40
    +:+ "'; assistant responded about '" +:+ truncate response 40 +:+ "'.".

(** [DeterministicCompressor::compress]. *)
Definition det_compress : Compressor := fun ccs user_input response =>
  let turn := (turn_count ccs + 1) mod U64 in
  let ts := foldl push_topic (topics ccs) (new_topics user_input) in
  let ts := if (MAX_TOPICS <? length ts)%nat then drop (length ts - MAX_TOPICS) ts else ts in
  let fs := facts ccs ++ [fact turn user_input response] in
  let fs := if (MAX_FACTS <? length fs)%nat then tail fs else fs in
  {| turn_count := turn; last_user_input := user_input; last_assistant_response := response;
     facts := fs; topics := ts |}.

Section json.
Context {J : CcsJson}.
Definition ccs_to_json (c : CompressedCognitiveState) : string := default ""%string (ccs_to_string c).
(** [LlmCompressor::compress], around the caller's function. *)
Definition llm_compress (caller : string -> string -> string -> string) : Compressor :=
  fun ccs user_input response =>
    match ccs_from_str (caller (ccs_to_json ccs) user_input response) with
    | Some parsed => parsed
    | None => det_compress ccs user_input response
    end.
Definition step_session_with_compressor (compress : Compressor) (ccs_json : option string)
    (user_input response : string) : string :=
  let ccs := default new_ccs (s ← ccs_json; ccs_from_str s) in
  ccs_to_json (compress ccs user_input response).
Definition step_session (ccs_json : option string) (user_input response : string) : string :=
  step_session_with_compressor det_compress ccs_json user_input response.

(** A session: each turn starts from the JSON the previous one returned. *)
Definition session (turns : list (string * string)) : option string :=
  foldl (fun j t => Some (step_session j t.1 t.2)) None turns.
End json.

(** ** Bounds *)

(** The facts of a list of turns, the first numbered [n + 1]. *)
Fixpoint facts_of (n : N) (turns : list (string * string)) : list string :=
  match turns with
  | [] => []
  | t :: turns => fact (n + 1) t.1 t.2 :: facts_of (n + 1) turns
  end.
Definition last_n {A} (n : nat) (l : list A) : list A := drop (length l - n) l.

Lemma tail_drop {A} (l : list A) : tail l = drop 1 l.
Proof. by destruct l. Qed.
Lemma last_n_snoc {A} n (l : list A) x :
  last_n n (l ++ [x])
  = if (n <? length (last_n n l ++ [x]))%nat then tail (last_n n l ++ [x]) else last_n n l ++ [x].
Proof.
  unfold last_n. rewrite !length_app, length_drop. simpl length. rewrite <- (drop_app_le l [x] (length l - n)) by lia.
  rewrite tail_drop, drop_drop. destruct (Nat.ltb_spec n (length l - (length l - n) + 1)); f_equal; lia.
Qed.
Lemma facts_of_snoc n turns t :
  facts_of n (turns ++ [t]) = facts_of n turns ++ [fact (n + len turns + 1) t.1 t.2].
Proof.
  revert n. induction turns as [|t' turns IH]; intros n; simpl.
  - by rewrite N.add_0_r.
  - rewrite IH. unfold len. simpl length.
    by replace (n + 1 + N.of_nat (length turns) + 1) with (n + N.of_nat (S (length turns)) + 1) by lia.
Qed.

Lemma push_topic_nodup l t : NoDup l -> NoDup (push_topic l t).
Proof.
  intros Hl. unfold push_topic. destruct (bool_decide (t ∈ l)) eqn:Hb; [done|]. apply bool_decide_eq_false in Hb.
  apply NoDup_app. split_and!; [done| |apply NoDup_singleton]. set_solver.
Qed.

(** The state after a session. *)
Record session_state (turns : list (string * string)) (c : CompressedCognitiveState) : Prop := {
  ss_turns : turn_count c = len turns;
  ss_facts : facts c = last_n MAX_FACTS (facts_of 0 turns);
  ss_topics : (length (topics c) <= MAX_TOPICS)%nat /\ NoDup (topics c);
  ss_last : forall t, last turns = Some t -> last_user_input c = t.1 /\ last_assistant_response c = t.2;
}.

Lemma det_compress_state turns t c :
  len turns + 1 < U64 -> session_state turns c -> session_state (turns ++ [t]) (det_compress c t.1 t.2).
Proof.
  intros Hlt [H1 H2 [H3 H4] H5].
  assert (Hturn : (turn_count c + 1) mod U64 = len turns + 1) by (rewrite H1; by apply N.mod_small).
  split; unfold det_compress; cbv zeta; cbn [turn_count facts topics last_user_input last_assistant_response].
  - rewrite Hturn. unfold len. rewrite length_app. simpl. lia.
  - rewrite Hturn, facts_of_snoc, N.add_0_l, last_n_snoc, H2. done.
  - set (ts := foldl push_topic (topics c) (new_topics t.1)).
    assert (Hnd : NoDup ts).
    { unfold ts. generalize (new_topics t.1). intros l. revert H4. generalize (topics c).
      induction l as [|x l IH]; intros tps Hn; simpl; [done|]. by apply IH, push_topic_nodup. }
    destruct (Nat.ltb_spec MAX_TOPICS (length ts)) as [Hgt|Hle]; [|done].
    rewrite length_drop. split; [lia|]. rewrite <- (take_drop (length ts - MAX_TOPICS) ts) in Hnd.
    by apply NoDup_app in Hnd as (_ & _ & Hnd).
  - intros t'. rewrite last_snoc. by intros [= <-].
Qed.

Section session.
Context {J : CcsJson} {JO : CcsJsonOk}.

Definition state_of (j : option string) : CompressedCognitiveState := default new_ccs (s ← j; ccs_from_str s).

Lemma step_session_state j u r : state_of (Some (step_session j u r)) = det_compress (state_of j) u r.
Proof.
  destruct (ccs_roundtrip (det_compress (state_of j) u r)) as (s & Hser & Hback).
  assert (E : step_session j u r = s).
  { unfold step_session, step_session_with_compressor, ccs_to_json. fold (state_of j). by rewrite Hser. }
  rewrite E. unfold state_of at 1. simpl. by rewrite Hback.
Qed.

(** A session carried as JSON from turn to turn stays bounded: the state parsed back
    counts the turns, holds exactly the facts of the last [MAX_FACTS] turns in order
    and the last exchange, and at most [MAX_TOPICS] topics, all different. A custom
    compressor whose output is not a valid state gives the turn the default
    compressor's result. *)
Theorem session_bounded turns caller :
  len turns < U64 ->
  session_state turns (state_of (session turns)) /\
  (length (facts (state_of (session turns))) <= MAX_FACTS)%nat /\
  forall u r, ccs_from_str (caller (ccs_to_json (state_of (session turns))) u r) = None ->
    llm_compress caller (state_of (session turns)) u r = det_compress (state_of (session turns)) u r.
Proof.
  intros Hlt. assert (Hs : session_state turns (state_of (session turns))).
  { induction turns as [|t turns IH] using rev_ind.
    - split; [done|done| |done]. split; [simpl; lia|constructor].
    - assert (Hl : len turns + 1 < U64) by (unfold len in *; rewrite length_app in Hlt; simpl in Hlt; lia).
      unfold session. rewrite foldl_app. simpl. rewrite step_session_state.
      apply det_compress_state; [lia|]. apply IH. lia. }
  split; [done|]. split.
  - rewrite (ss_facts _ _ Hs). unfold last_n. rewrite length_drop. lia.
  - intros u r Hn. unfold llm_compress. by rewrite Hn.
Qed.
End session.
End ccs.

(** ** A concrete session *)

Module CcsWitness.
Import AsciiText.

(** A state written as the tokens of [Record]. *)
#[local] Instance tok_ccs : Tok CompressedCognitiveState.
Proof.
  refine (tok_iso
    (fun c => (turn_count c, last_user_input c, last_assistant_response c, facts c, topics c))
    (fun '(n, u, r, f, t) => {| turn_count := n; last_user_input := u; last_assistant_response := r;
                                facts := f; topics := t |}) _).
  by intros [].
Defined.
Definition to_text (c : CompressedCognitiveState) : string :=
  String.string_of_list_ascii (map Ascii.ascii_of_byte (token_bytes (tok c))).
Definition of_text (s : string) : option CompressedCognitiveState :=
  l ← bytes_tokens None (map Ascii.byte_of_ascii (String.list_ascii_of_string s));
  '(c, r) ← untok l;
  match r with [] => Some c | _ => None end.
#[local] Instance ex_json : CcsJson := {| ccs_to_string c := Some (to_text c); ccs_from_str := of_text |}.
#[local] Instance ex_json_ok : CcsJsonOk.
Proof.
  split. intros c. exists (to_text c). split; [done|]. simpl. unfold of_text, to_text.
  rewrite String.list_ascii_of_string_of_list_ascii, map_map.
  rewrite (map_ext _ (fun b => b)) by apply Ascii.byte_of_ascii_of_byte.
  rewrite map_id, bytes_tokens_token_bytes. pose proof (untok_tok c []) as H. rewrite app_nil_r in H.
  cbn [mbind option_bind]. by rewrite H.
Qed.

Lemma session_bounded_witness :
  let turns := [("What is Rust?", "A language"); ("And Go?", "Another language")]%string in
  len turns < U64 /\ turn_count (state_of (session turns)) = 2 /\
  (length (facts (state_of (session turns))) <= MAX_FACTS)%nat.
Proof.
  cbv zeta. split; [reflexivity|].
  destruct (session_bounded [("What is Rust?", "A language"); ("And Go?", "Another language")]%string
              (fun _ _ _ => ""%string)) as (H1 & H2 & _); [reflexivity|].
  split; [exact (ss_turns _ _ H1)|exact H2].
Defined.
End CcsWitness.
