(* ===== verification/Activation.v ===== *)
(** * Spreading activation, [crates/turbomemory_graph/src/activation.rs]

    The graph and the lexical index behind one interface, and the bounded search that
    expands the nearest neighbours found by the vector index through the graph. *)

From S2P Require Import Prelude Core Floats Vocabulary Record Graph GraphProofs GraphTheorems Bm25.

Record SpreadingConfig := {
  semantic_alpha : f32;
  lexical_alpha : f32;
  decay : f32;
  iterations : N;
  seed_hops_from : N;
  expansion_max_candidates : N;
  concept_expansion : bool;
}.
Definition default_spreading : SpreadingConfig := {|
  semantic_alpha := f32_one; lexical_alpha := 0x3E99999A; decay := f32_half; iterations := 1;
  seed_hops_from := 10; expansion_max_candidates := 50; concept_expansion := true |}.

Record SpreadingActivation := { sa_graph : MemoryGraph; sa_bm25 : Bm25Index; sa_config : SpreadingConfig }.

(** The four pools of graph-discovered candidates. *)
Record Pools := {
  strong : gmap string f32; temporal : gmap string f32; normal : gmap string f32;
  abstraction : gmap string f32;
}.
Definition no_pools : Pools := {| strong := ∅; temporal := ∅; normal := ∅; abstraction := ∅ |}.
(** [*m.entry(key).or_insert(0.0) += x]. *)
Definition accumulate (key : string) (x : f32) (m : gmap string f32) : gmap string f32 :=
  <[key := f32_add (default f32_zero (m !! key)) x]> m.
Definition add_strong (key : string) (x : f32) (p : Pools) : Pools :=
  {| strong := accumulate key x (strong p); temporal := temporal p; normal := normal p;
     abstraction := abstraction p |}.
Definition add_temporal (key : string) (x : f32) (p : Pools) : Pools :=
  {| strong := strong p; temporal := accumulate key x (temporal p); normal := normal p;
     abstraction := abstraction p |}.
Definition add_normal (key : string) (x : f32) (p : Pools) : Pools :=
  {| strong := strong p; temporal := temporal p; normal := accumulate key x (normal p);
     abstraction := abstraction p |}.
Definition add_abstraction (key : string) (x : f32) (p : Pools) : Pools :=
  {| strong := strong p; temporal := temporal p; normal := normal p;
     abstraction := accumulate key x (abstraction p) |}.
Definition pool_count (p : Pools) : N :=
  N.of_nat (size (strong p) + size (temporal p) + size (normal p) + size (abstraction p)).

(** A loop that can be left early: the boolean says whether it was. *)
Fixpoint fold_brk {S A} (f : S -> A -> S * bool) (s : S) (l : list A) : S * bool :=
  match l with
  | [] => (s, false)
  | x :: l => match f s x with (s, true) => (s, true) | (s, false) => fold_brk f s l end
  end.

Definition clamp_N (n lo hi : N) : N := N.min (N.max n lo) hi.

Section activation.
Context {U : Unicode} {L : Libm} {HI : HashIter}.
Implicit Types x : SpreadingActivation.

(** ** Construction and updates *)

Definition new_activation (g : MemoryGraph) (c : SpreadingConfig) : SpreadingActivation := {|
  sa_graph := g;
  sa_bm25 := foldl (fun b kn => bm_add (strip "mem:" kn.1) (node_text kn.2) b) new_bm25 (iter_memory_nodes g);
  sa_config := c |}.
Definition with_graph (g : MemoryGraph) x : SpreadingActivation :=
  {| sa_graph := g; sa_bm25 := sa_bm25 x; sa_config := sa_config x |}.
Definition sa_add_memory_scoped (id text : string) (concepts : list string) (importance : f32)
    (scope : option string) x : SpreadingActivation := {|
  sa_graph := add_memory_scoped id text concepts importance scope (sa_graph x);
  sa_bm25 := bm_add id text (sa_bm25 x); sa_config := sa_config x |}.
Definition sa_add_memory_with_importance (id text : string) (concepts : list string) (importance : f32)
    x : SpreadingActivation := sa_add_memory_scoped id text concepts importance None x.
Definition sa_add_memory (id text : string) (concepts : list string) x : SpreadingActivation := {|
  sa_graph := add_memory id text concepts (sa_graph x);
  sa_bm25 := bm_add id text (sa_bm25 x); sa_config := sa_config x |}.
Definition sa_remove_memory (id : string) x : SpreadingActivation := {|
  sa_graph := remove_memory id (sa_graph x); sa_bm25 := bm_remove id (sa_bm25 x);
  sa_config := sa_config x |}.
(** The operations that only concern the graph. *)
Definition sa_add_concepts_to_memory (id : string) (concepts : list string) (importance : f32) x
    : SpreadingActivation * bool :=
  let '(g, b) := add_concepts_to_memory id concepts importance (sa_graph x) in (with_graph g x, b).
Definition sa_reinforce (id : string) (now : N) x : SpreadingActivation :=
  with_graph (reinforce id now (sa_graph x)) x.
Definition sa_decay_edges (now half_life : N) x : SpreadingActivation :=
  with_graph (decay_edges now half_life (sa_graph x)) x.
Definition sa_build_abstractions (threshold : N) x : SpreadingActivation * N :=
  let '(g, n) := build_abstractions threshold (sa_graph x) in (with_graph g x, n).
Definition sa_add_refinement (old_id new_id : string) (w : f32) x : SpreadingActivation * bool :=
  let '(g, b) := add_refinement old_id new_id w (sa_graph x) in (with_graph g x, b).
Definition sa_add_contradiction (old_id new_id : string) (w factor : f32) x : SpreadingActivation * bool :=
  let '(g, b) := add_contradiction old_id new_id w factor (sa_graph x) in (with_graph g x, b).
Definition sa_evolve_vocabulary (overlap hub : f32) (max_pairs : N) x
    : SpreadingActivation * VocabularyEvolutionStats :=
  let '(g, st) := evolve_vocabulary overlap hub max_pairs (sa_graph x) in (with_graph g x, st).

(** ** The search *)

(** The edges of [neighbor_indices] that exist. *)
Definition edges_of (g : MemoryGraph) (nid : N) : list InternalEdge :=
  match neighbor_indices g nid with
  | Some idxs => omap (get_edge g) idxs
  | None => []
  end.
Definition is_kind (g : MemoryGraph) (k : NodeKind) (nid : N) : bool := bool_decide (node_kind g nid = Some k).
(** [node_external_id(t).filter(allowed)]. *)
Definition allowed_id (g : MemoryGraph) (allow : string -> bool) (nid : N) : option string :=
  id ← node_external_id g nid; if allow id then Some id else None.
(** Add a signal to a pool for an allowed memory. *)
Definition signal_to (g : MemoryGraph) (allow : string -> bool) (add : string -> f32 -> Pools -> Pools)
    (nid : N) (signal : f32) (p : Pools) : Pools :=
  match allowed_id g allow nid with
  | Some mid => add (mem_key mid) signal p
  | None => p
  end.
Definition suppressed_node (g : MemoryGraph) (nid : N) : bool :=
  is_concept_suppressed g (default ""%string (node_external_id g nid)).

(** Step 1: the floor. *)
Definition seed_delta (seeds : list (string * f32)) : gmap string f32 :=
  foldl (fun m s => <[mem_key s.1 := f32_zero]> m) ∅ seeds.
Definition seed_scores (c : SpreadingConfig) (seeds : list (string * f32)) : gmap string f32 :=
  foldl (fun m s => <[mem_key s.1 := f32_mul (semantic_alpha c) (f32_max s.2 f32_zero)]> m) ∅ seeds.

(** Step 2: the lexical boost. *)
Definition lexical_delta x (query : string) (allow : string -> bool) (delta : gmap string f32)
    : gmap string f32 :=
  let lexical := filter (fun s : string * f32 => allow s.1 = true) (score (sa_bm25 x) query) in
  let max_lex := foldl f32_max f32_zero lexical.*2 in
  let lex_norm := if f32_gtb max_lex f32_zero then f32_div f32_one max_lex else f32_zero in
  foldl (fun m s => accumulate (mem_key s.1)
                      (f32_mul (f32_mul (lexical_alpha (sa_config x)) s.2) lex_norm) m) delta lexical.

Definition ranked_le (a b : string * f32) : Prop :=
  match cmp_score_desc a.2 b.2 with Lt => True | Gt => False | Eq => string_le a.1 b.1 end.
#[global] Instance ranked_le_dec a b : Decision (ranked_le a b).
Proof. unfold ranked_le, string_le. destruct (cmp_score_desc _ _); apply _. Defined.
Definition seed_list (c : SpreadingConfig) (scores : gmap string f32) : list (string * f32) :=
  take (N.to_nat (clamp_N (seed_hops_from c) 1 20))
    (sort_by ranked_le (filter (fun s : string * f32 => String.prefix "mem:" s.1 = true) (hash_iter scores))).

(** The concepts the query names. *)
Definition query_seeds (g : MemoryGraph) (query : string) (allow : string -> bool) : Pools :=
  foldl (fun p token =>
           let token_lower := to_lowercase token in
           match get_node_id g (concept_key token_lower) with
           | Some cnid =>
               if is_concept_suppressed g token_lower then p
               else foldl (fun p e =>
                      if bool_decide (e_kind e = Association) && is_kind g KMemory (target e)
                      then signal_to g allow add_normal (target e) (f32_mul 0x3F400000 (weight e)) p
                      else p) p (edges_of g cnid)
           | None => p
           end) no_pools
    (filter (fun w => (3 <= String.length w)%nat) (split_words_underscore query)).

(** From an abstraction parent to the memories of its other concepts. *)
Definition expand_parent (g : MemoryGraph) (allow : string -> bool) (dk seed_score concept_w : f32)
    (concept_nid : N) (cedge : InternalEdge) (p : Pools) : Pools :=
  foldl (fun p pedge =>
           if negb (bool_decide (e_kind pedge = Abstraction)) || (target pedge =? concept_nid)
              || negb (is_kind g KConcept (target pedge)) then p
           else if suppressed_node g (target pedge) then p
           else foldl (fun p sedge =>
                  if bool_decide (e_kind sedge = Association) && is_kind g KMemory (target sedge)
                  then signal_to g allow add_abstraction (target sedge)
                         (f32_mul (f32_mul (f32_mul (f32_mul (f32_mul seed_score concept_w) (weight cedge))
                            (weight pedge)) (weight sedge)) dk) p
                  else p) p (edges_of g (target pedge)))
    p (edges_of g (target cedge)).

(** One edge of a concept of the seed. Without edges at the parent the cap is not
    checked ([continue]). *)
Definition concept_edge (g : MemoryGraph) (allow : string -> bool) (cap : N) (dk seed_score concept_w : f32)
    (seed_nid concept_nid : N) (p : Pools) (cedge : InternalEdge) : Pools * bool :=
  let capped p := (p, cap <=? pool_count p) in
  if bool_decide (e_kind cedge = Association) && is_kind g KMemory (target cedge)
     && negb (target cedge =? seed_nid)
  then capped (signal_to g allow add_normal (target cedge)
                 (f32_mul (f32_mul (f32_mul seed_score concept_w) (weight cedge)) dk) p)
  else if bool_decide (e_kind cedge = Abstraction) && is_kind g KConcept (target cedge) then
    match neighbor_indices g (target cedge) with
    | None => (p, false)
    | Some _ => capped (expand_parent g allow dk seed_score concept_w concept_nid cedge p)
    end
  else capped p.

(** One edge of a seed. *)
Definition seed_edge (g : MemoryGraph) (c : SpreadingConfig) (allow : string -> bool) (cap : N)
    (seed_score : f32) (seed_nid : N) (p : Pools) (e : InternalEdge) : Pools * bool :=
  let capped p := (p, cap <=? pool_count p) in
  let dk := decay c in
  match e_kind e with
  | Refines | Contradicts =>
      capped (if is_kind g KMemory (target e)
              then signal_to g allow add_strong (target e) (f32_mul (f32_mul seed_score (weight e)) dk) p
              else p)
  | Temporal =>
      capped (if is_kind g KMemory (target e)
              then signal_to g allow add_temporal (target e) (f32_mul (f32_mul seed_score (weight e)) dk) p
              else p)
  | Association =>
      if concept_expansion c && is_kind g KConcept (target e) then
        if suppressed_node g (target e) then (p, false)
        else match neighbor_indices g (target e) with
             | None => (p, false)
             | Some _ =>
                 match fold_brk (concept_edge g allow cap dk seed_score (weight e) seed_nid (target e)) p
                         (edges_of g (target e)) with
                 | (p, true) => (p, true)
                 | (p, false) => capped p
                 end
             end
      else capped p
  | Abstraction => capped p
  end.

Definition expand_seed (g : MemoryGraph) (c : SpreadingConfig) (allow : string -> bool) (cap : N)
    (p : Pools) (seed : string * f32) : Pools * bool :=
  match memory_node_id g (strip "mem:" seed.1) with
  | None => (p, false)
  | Some seed_nid => fold_brk (seed_edge g c allow cap seed.2 seed_nid) p (edges_of g seed_nid)
  end.

(** One pool merged into the delta, boosted. *)
Definition merge_pool (boost : f32 -> f32) (pool delta : gmap string f32) : gmap string f32 :=
  foldl (fun m ks => let s := boost ks.2 in if f32_gtb s 0x3C23D70A then accumulate ks.1 s m else m)
    delta (hash_iter pool).
Definition three_quarters (s : f32) : f32 := f32_mul s 0x3F400000.
Definition expand x (query : string) (allow : string -> bool) (scores delta : gmap string f32)
    : gmap string f32 :=
  let g := sa_graph x in
  let c := sa_config x in
  let cap := clamp_N (expansion_max_candidates c) 10 200 in
  let p := (fold_brk (expand_seed g c allow cap) (query_seeds g query allow) (seed_list c scores)).1 in
  merge_pool three_quarters (abstraction p)
    (merge_pool three_quarters (normal p)
      (merge_pool (fun s => f32_mul s f32_half) (temporal p) (merge_pool (fun s => s) (strong p) delta))).

(** Step 4: the candidates, by seed activation plus delta, then by id. *)
Definition memory_le (a b : string * f32 * f32) : Prop :=
  match cmp_score_desc a.2 b.2 with Lt => True | Gt => False | Eq => string_le a.1.1 b.1.1 end.
#[global] Instance memory_le_dec a b : Decision (memory_le a b).
Proof. unfold memory_le, string_le. destruct (cmp_score_desc _ _); apply _. Defined.
Definition candidate (scores : gmap string f32) (kd : string * f32) : string * f32 * f32 :=
  (strip "mem:" kd.1, kd.2, f32_add (default f32_zero (scores !! kd.1)) kd.2).

(** Everything the search found: the floor, the lexical hits and the expansion. *)
Definition final_delta x (query : string) (seeds : list (string * f32)) (allow : string -> bool)
    : gmap string f32 :=
  let delta := lexical_delta x query allow (seed_delta seeds) in
  if 0 <? iterations (sa_config x) then expand x query allow (seed_scores (sa_config x) seeds) delta
  else delta.

Definition search_restricted x (query : string) (seeds : list (string * f32)) (top_k : N)
    (allow : option (string -> bool)) : option (list (string * f32)) :=
  let allowed := default (fun _ => true) allow in
  if decide (seed_delta seeds = ∅) then None
  else
    let memories := map (candidate (seed_scores (sa_config x) seeds))
      (filter (fun kd : string * f32 => String.prefix "mem:" kd.1 = true)
         (hash_iter (final_delta x query seeds allowed))) in
    let kept := take (N.to_nat top_k) (sort_by memory_le memories) in
    if decide (kept = []) then None else Some (map fst kept).
Definition search x (query : string) (seeds : list (string * f32)) (top_k : N)
    : option (list (string * f32)) := search_restricted x query seeds top_k None.

(** ** What the search returns *)

Lemma prefix_mem id : String.prefix "mem:" (mem_key id) = true.
Proof. by destruct id. Qed.
Lemma substring_all s : String.substring 0 (String.length s) s = s.
Proof. induction s as [|c s IH]; simpl; [done|]. by rewrite IH. Qed.
Lemma strip_mem id : strip "mem:" (mem_key id) = id.
Proof.
  unfold strip. rewrite prefix_mem. change (String.substring 0 (String.length id - 0) id = id).
  rewrite Nat.sub_0_r. apply substring_all.
Qed.

Lemma fold_inv {S A} (I : S -> Prop) (f : S -> A -> S) l s :
  (forall s a, a ∈ l -> I s -> I (f s a)) -> I s -> I (foldl f s l).
Proof.
  revert s. induction l as [|a l IH]; intros s Hf Hs; simpl; [done|].
  apply IH; [intros; apply Hf; set_solver|]. apply Hf; set_solver.
Qed.
Lemma fold_brk_inv {S A} (I : S -> Prop) (f : S -> A -> S * bool) l s :
  (forall s a, a ∈ l -> I s -> I (f s a).1) -> I s -> I (fold_brk f s l).1.
Proof.
  revert s. induction l as [|a l IH]; intros s Hf Hs; simpl; [done|].
  pose proof (Hf s a ltac:(set_solver) Hs) as Ha. destruct (f s a) as [s' []]; [done|].
  apply IH; [intros; apply Hf; set_solver|done].
Qed.

(** The keys of a map of candidates are memories satisfying [P]. *)
Definition keys_in (P : string -> Prop) (m : gmap string f32) : Prop :=
  forall k v, m !! k = Some v -> exists id, k = mem_key id /\ P id.
Definition pools_in (P : string -> Prop) (p : Pools) : Prop :=
  keys_in P (strong p) /\ keys_in P (temporal p) /\ keys_in P (normal p) /\ keys_in P (abstraction p).

Lemma keys_in_mono (P Q : string -> Prop) m : (forall id, P id -> Q id) -> keys_in P m -> keys_in Q m.
Proof. intros HPQ Hm k v Hk. destruct (Hm k v Hk) as (id & -> & Hid). eauto. Qed.
Lemma keys_in_accumulate P id v m : P id -> keys_in P m -> keys_in P (accumulate (mem_key id) v m).
Proof. intros Hid Hm k w Hk. unfold accumulate in Hk. apply lookup_insert_Some in Hk as [[<- _]|[_ Hk]]; eauto. Qed.

(** An allowed memory of the graph. *)
Definition reachable (g : MemoryGraph) (allow : string -> bool) (id : string) : Prop :=
  allow id = true /\ exists nid, node_kind g nid = Some KMemory /\ node_external_id g nid = Some id.

Lemma signal_to_in g allow add nid v p :
  (add = add_strong \/ add = add_temporal \/ add = add_normal \/ add = add_abstraction) ->
  is_kind g KMemory nid = true -> pools_in (reachable g allow) p ->
  pools_in (reachable g allow) (signal_to g allow add nid v p).
Proof.
  intros Hadd Hk (H1 & H2 & H3 & H4). unfold signal_to, allowed_id.
  destruct (node_external_id g nid) as [id|] eqn:Hid; simpl; [|done].
  destruct (allow id) eqn:Ha; [|done]. apply bool_decide_eq_true in Hk.
  assert (Hr : reachable g allow id) by (split; eauto).
  destruct Hadd as [->|[->|[->| ->]]]; split_and!; simpl; try done; by apply keys_in_accumulate.
Qed.

Lemma query_seeds_in g query allow : pools_in (reachable g allow) (query_seeds g query allow).
Proof.
  unfold query_seeds. apply fold_inv.
  - intros p token _ Hp. destruct (get_node_id _ _) as [cnid|]; [|done].
    destruct (is_concept_suppressed _ _); [done|]. apply fold_inv; [|done]. intros p' e _ Hp'.
    destruct (bool_decide _ && is_kind g KMemory (target e)) eqn:Hb; [|done].
    apply andb_true_iff in Hb as [_ Hb]. by apply signal_to_in; auto.
  - split_and!; intros k v Hk; unfold no_pools in Hk; cbn [strong temporal normal abstraction] in Hk; by rewrite lookup_empty in Hk.
Qed.

Lemma expand_parent_in g allow dk s w cn ce p :
  pools_in (reachable g allow) p -> pools_in (reachable g allow) (expand_parent g allow dk s w cn ce p).
Proof.
  intros Hp. unfold expand_parent. apply fold_inv; [|done]. intros p1 pe _ Hp1.
  destruct (_ || _); [done|]. destruct (suppressed_node _ _); [done|]. apply fold_inv; [|done].
  intros p2 se _ Hp2. destruct (bool_decide _ && is_kind g KMemory (target se)) eqn:Hb; [|done].
  apply andb_true_iff in Hb as [_ Hb]. by apply signal_to_in; auto.
Qed.

Lemma concept_edge_in g allow cap dk s w sn cn p ce :
  pools_in (reachable g allow) p -> pools_in (reachable g allow) (concept_edge g allow cap dk s w sn cn p ce).1.
Proof.
  intros Hp. unfold concept_edge.
  destruct (bool_decide _ && is_kind g KMemory (target ce) && _) eqn:Hb.
  - apply andb_true_iff in Hb as [Hb _]. apply andb_true_iff in Hb as [_ Hb]. by apply signal_to_in; auto.
  - destruct (bool_decide (e_kind ce = Abstraction) && is_kind g KConcept (target ce)); [|exact Hp]. destruct (neighbor_indices _ _); [|done]. by apply expand_parent_in.
Qed.

Lemma seed_edge_in g c allow cap s sn p e :
  pools_in (reachable g allow) p -> pools_in (reachable g allow) (seed_edge g c allow cap s sn p e).1.
Proof.
  intros Hp. unfold seed_edge. destruct (e_kind e); simpl; try done.
  - destruct (_ && _); [|done]. destruct (suppressed_node _ _); [done|].
    destruct (neighbor_indices _ _); [|done]. destruct (fold_brk _ _ _) as [p' b] eqn:Hf.
    assert (Hp' : pools_in (reachable g allow) p').
    { change p' with (p', b).1. rewrite <- Hf. apply fold_brk_inv; [|done]. intros. by apply concept_edge_in. }
    by destruct b.
  - destruct (is_kind g KMemory (target e)) eqn:Hk; [|done]. by apply signal_to_in; auto.
  - destruct (is_kind g KMemory (target e)) eqn:Hk; [|done]. by apply signal_to_in; auto.
  - destruct (is_kind g KMemory (target e)) eqn:Hk; [|done]. by apply signal_to_in; auto.
Qed.

Lemma expand_seed_in g c allow cap p seed :
  pools_in (reachable g allow) p -> pools_in (reachable g allow) (expand_seed g c allow cap p seed).1.
Proof.
  intros Hp. unfold expand_seed. destruct (memory_node_id _ _); [|done].
  apply fold_brk_inv; [|done]. intros. by apply seed_edge_in.
Qed.

Lemma merge_pool_in P boost pool delta :
  keys_in P pool -> keys_in P delta -> keys_in P (merge_pool boost pool delta).
Proof.
  intros Hpool Hd. unfold merge_pool. apply fold_inv; [|done]. intros m [k s] Hin Hm. simpl.
  destruct (f32_gtb (boost s) _); [|done]. rewrite hash_iter_perm in Hin. apply elem_of_map_to_list in Hin.
  destruct (Hpool k s Hin) as (id & -> & Hid). by apply keys_in_accumulate.
Qed.

(** What the search may return: a seed, or an allowed memory of the lexical index or of
    the graph. *)
Definition eligible x (seeds : list (string * f32)) (allow : string -> bool) (id : string) : Prop :=
  id ∈ seeds.*1 \/
  (allow id = true /\ (is_Some (docs (sa_bm25 x) !! id) \/
     exists nid, node_kind (sa_graph x) nid = Some KMemory /\ node_external_id (sa_graph x) nid = Some id)).

Lemma seed_delta_lookup seeds k :
  seed_delta seeds !! k = if decide (k ∈ map mem_key seeds.*1) then Some f32_zero else None.
Proof.
  unfold seed_delta. induction seeds as [|s seeds IH] using rev_ind.
  { case_decide; [set_solver|]. apply lookup_empty. }
  rewrite foldl_app. simpl. rewrite fmap_app, map_app. simpl.
  destruct (decide (k = mem_key s.1)) as [->|Hne].
  - rewrite lookup_insert_eq, decide_True; [done|]. set_solver.
  - rewrite lookup_insert_ne, IH by done. apply decide_ext. set_solver.
Qed.

Lemma expand_in x query allow seeds scores delta :
  keys_in (eligible x seeds allow) delta -> keys_in (eligible x seeds allow) (expand x query allow scores delta).
Proof.
  intros Hd. unfold expand.
  assert (Hp : pools_in (reachable (sa_graph x) allow)
    (fold_brk (expand_seed (sa_graph x) (sa_config x) allow (clamp_N (expansion_max_candidates (sa_config x)) 10 200))
       (query_seeds (sa_graph x) query allow) (seed_list (sa_config x) scores)).1).
  { apply fold_brk_inv; [|apply query_seeds_in]. intros. by apply expand_seed_in. }
  destruct Hp as (H1 & H2 & H3 & H4).
  assert (Hmono : forall m, keys_in (reachable (sa_graph x) allow) m -> keys_in (eligible x seeds allow) m).
  { intros m. apply keys_in_mono. intros id [Ha Hn]. right. auto. }
  by repeat (apply merge_pool_in; [by apply Hmono|]).
Qed.

Lemma lexical_in x query allow seeds :
  keys_in (eligible x seeds allow) (lexical_delta x query allow (seed_delta seeds)).
Proof.
  unfold lexical_delta. apply fold_inv.
  - intros m [id s] Hin Hm. simpl. apply keys_in_accumulate; [|done].
    apply list_elem_of_filter in Hin as [Ha Hin]. simpl in Ha. right. split; [done|]. left.
    apply bm25_score_mem in Hin. done.
  - intros k v Hk. rewrite seed_delta_lookup in Hk. case_decide as Hd; [|done].
    apply list_elem_of_fmap in Hd as (id & -> & Hid). exists id. split; [done|]. by left.
Qed.

Lemma final_delta_in x query seeds allow :
  keys_in (eligible x seeds allow) (final_delta x query seeds allow).
Proof.
  unfold final_delta. destruct (0 <? _); [apply expand_in|]; apply lexical_in.
Qed.

(** The seeds stay candidates. *)
Definition keeps (m m' : gmap string f32) : Prop := forall k, is_Some (m !! k) -> is_Some (m' !! k).
Lemma keeps_accumulate k v m m' : keeps m m' -> keeps m (accumulate k v m').
Proof.
  intros Hm k' Hk. unfold accumulate. destruct (decide (k = k')) as [->|]; [rewrite lookup_insert_eq; eauto|].
  rewrite lookup_insert_ne by done. by apply Hm.
Qed.
Lemma keeps_merge_pool boost pool m m' : keeps m m' -> keeps m (merge_pool boost pool m').
Proof.
  intros Hm. unfold merge_pool. apply fold_inv; [|done]. intros m1 ks _ Hm1.
  simpl. destruct (f32_gtb (boost ks.2) _); [by apply keeps_accumulate|done].
Qed.
Lemma final_delta_keeps x query seeds allow : keeps (seed_delta seeds) (final_delta x query seeds allow).
Proof.
  assert (Hl : keeps (seed_delta seeds) (lexical_delta x query allow (seed_delta seeds))).
  { unfold lexical_delta. apply fold_inv; [|by intros k]. intros m s _ Hm. by apply keeps_accumulate. }
  unfold final_delta. destruct (0 <? _); [|done]. unfold expand. by repeat apply keeps_merge_pool.
Qed.

(** The candidates, one per key of the delta. *)
Definition candidates x query seeds allow : list (string * f32 * f32) :=
  map (candidate (seed_scores (sa_config x) seeds))
    (filter (fun kd : string * f32 => String.prefix "mem:" kd.1 = true)
       (hash_iter (final_delta x query seeds allow))).

Lemma candidates_ids x query seeds allow :
  map (fun c => mem_key c.1.1) (candidates x query seeds allow)
  ≡ₚ (map_to_list (final_delta x query seeds allow)).*1.
Proof.
  unfold candidates. rewrite filter_all.
  - rewrite map_map. transitivity (map fst (hash_iter (final_delta x query seeds allow))).
    + apply Permutation_refl'. apply map_ext_in. intros [k d] Hin%list_elem_of_In. simpl.
      rewrite hash_iter_perm in Hin. apply elem_of_map_to_list in Hin.
      destruct (final_delta_in x query seeds allow k d Hin) as (id & -> & _). by rewrite strip_mem.
    + apply (fmap_Permutation fst), hash_iter_perm.
  - intros [k d] Hin. rewrite hash_iter_perm in Hin. apply elem_of_map_to_list in Hin.
    destruct (final_delta_in x query seeds allow k d Hin) as (id & -> & _). apply prefix_mem.
Qed.

Lemma elem_of_candidates x query seeds allow c :
  c ∈ candidates x query seeds allow -> is_Some (final_delta x query seeds allow !! mem_key c.1.1).
Proof.
  intros Hc. assert (Hin : mem_key c.1.1 ∈ (map_to_list (final_delta x query seeds allow)).*1).
  { rewrite <- candidates_ids. apply list_elem_of_fmap. eauto. }
  apply list_elem_of_fmap in Hin as ([k d] & E & Hin). apply elem_of_map_to_list in Hin. simpl in E.
  rewrite E. eauto.
Qed.

Lemma candidates_nodup x query seeds allow :
  NoDup (map (fun c : string * f32 * f32 => c.1.1) (candidates x query seeds allow)).
Proof.
  apply (NoDup_fmap_1 mem_key).
  assert (Hp : mem_key <$> map (fun c : string * f32 * f32 => c.1.1) (candidates x query seeds allow)
               ≡ₚ (map_to_list (final_delta x query seeds allow)).*1).
  { rewrite <- candidates_ids. apply Permutation_refl'. apply map_map. }
  rewrite Hp. apply NoDup_fst_map_to_list.
Qed.

Lemma seed_delta_empty seeds : seed_delta seeds = ∅ <-> seeds = [].
Proof.
  split; [|by intros ->]. intros E. destruct seeds as [|s seeds]; [done|].
  assert (Hs : seed_delta (s :: seeds) !! mem_key s.1 = Some f32_zero)
    by (rewrite seed_delta_lookup, decide_True; [done|set_solver]).
  rewrite E in Hs. by rewrite lookup_empty in Hs.
Qed.

(** Every seed is a candidate. *)
Lemma floor_candidates x query seeds allow id :
  id ∈ seeds.*1 -> id ∈ map (fun c : string * f32 * f32 => c.1.1) (candidates x query seeds allow).
Proof.
  intros Hid. assert (Hk : is_Some (final_delta x query seeds allow !! mem_key id)).
  { apply final_delta_keeps. rewrite seed_delta_lookup, decide_True; [eauto|].
    apply list_elem_of_fmap. eauto. }
  destruct Hk as [d Hk].
  assert (Hin : mem_key id ∈ map (fun c => mem_key c.1.1) (candidates x query seeds allow)).
  { rewrite candidates_ids. apply list_elem_of_fmap. exists (mem_key id, d). split; [done|]. by apply elem_of_map_to_list. }
  apply list_elem_of_fmap in Hin as (c & E & Hc). apply list_elem_of_fmap. exists c. split; [|done].
  apply (f_equal (strip "mem:")) in E. by rewrite !strip_mem in E.
Qed.

(** The candidates that survive the cut. *)
Definition kept x query seeds allow top_k : list (string * f32 * f32) :=
  take (N.to_nat top_k) (sort_by memory_le (candidates x query seeds allow)).

Lemma kept_candidates x query seeds allow top_k c :
  c ∈ kept x query seeds allow top_k -> c ∈ candidates x query seeds allow.
Proof.
  intros Hc. rewrite <- (sort_by_perm memory_le), <- (take_drop (N.to_nat top_k)). apply elem_of_app. by left.
Qed.
Lemma kept_nil x query seeds allow top_k :
  seeds <> [] -> kept x query seeds allow top_k = [] <-> top_k = 0.
Proof.
  intros Hs. unfold kept. split; [|by intros ->]. intros E. apply take_nil_inv in E as [E|E]; [lia|exfalso].
  destruct seeds as [|s seeds]; [done|]. pose proof (floor_candidates x query (s :: seeds) allow s.1) as Hf.
  assert (Hnil : candidates x query (s :: seeds) allow = []).
  { apply Permutation_nil_r. rewrite <- (sort_by_perm memory_le). by rewrite E. }
  rewrite Hnil in Hf. set_solver.
Qed.
Lemma kept_nodup x query seeds allow top_k :
  NoDup (map (fun c : string * f32 * f32 => c.1.1) (kept x query seeds allow top_k)).
Proof.
  pose proof (candidates_nodup x query seeds allow) as Hnd.
  rewrite <- (sort_by_perm memory_le), <- (take_drop (N.to_nat top_k) (sort_by _ _)), map_app in Hnd.
  apply NoDup_app in Hnd as [Hnd _]. exact Hnd.
Qed.
Lemma kept_all x query seeds allow top_k :
  N.of_nat (size (final_delta x query seeds allow)) <= top_k ->
  kept x query seeds allow top_k ≡ₚ candidates x query seeds allow.
Proof.
  intros Hsz. unfold kept. rewrite take_ge; [apply sort_by_perm|].
  assert (Hlen : length (candidates x query seeds allow) = size (final_delta x query seeds allow)).
  { rewrite <- (length_map (fun c => mem_key c.1.1)), candidates_ids, length_fmap. apply length_map_to_list. }
  rewrite sort_by_perm. lia.
Qed.

(** C30: The expanded search stays within the caller's scope and within its bound. It
    answers [None] exactly when there is no seed or nothing was asked for. Otherwise
    every returned memory is one of the seeds, or is accepted by [allow] and is a
    document of the lexical index or a memory of the graph; no memory is returned
    twice; at most [top_k] are returned; and when the candidates found fit in
    [top_k], every seed is among them. *)
Theorem search_restricted_spec x query seeds top_k allow :
  (search_restricted x query seeds top_k allow = None <-> seeds = [] \/ top_k = 0) /\
  forall res, search_restricted x query seeds top_k allow = Some res ->
    (forall id d, (id, d) ∈ res -> eligible x seeds (default (fun _ => true) allow) id) /\
    NoDup res.*1 /\ len res <= top_k /\
    (N.of_nat (size (final_delta x query seeds (default (fun _ => true) allow))) <= top_k ->
     forall id, id ∈ seeds.*1 -> id ∈ res.*1).
Proof.
  unfold search_restricted. set (al := default (fun _ => true) allow).
  change (take (N.to_nat top_k) _) with (kept x query seeds al top_k). cbv zeta.
  destruct (decide (seed_delta seeds = ∅)) as [E|Hne].
  { split; [|done]. split; [intros _; left; by apply seed_delta_empty|done]. }
  assert (Hs : seeds <> []) by (intros E; by apply Hne, seed_delta_empty).
  destruct (decide (kept x query seeds al top_k = [])) as [E|Hn].
  { split; [|done]. split; [right; by eapply kept_nil|done]. }
  split; [split; [done|]; intros [?|?]; [done|]; by exfalso; apply Hn, kept_nil|].
  intros res [= <-]. split_and!.
  - intros id d Hin. apply list_elem_of_fmap in Hin as (c & E & Hc).
    apply kept_candidates, elem_of_candidates in Hc as [v Hv].
    destruct (final_delta_in x query seeds al _ v Hv) as (id' & E' & Hid).
    apply (f_equal (strip "mem:")) in E'. rewrite !strip_mem in E'. destruct c as [[i d'] r]. simpl in *. by simplify_eq.
  - rewrite <- list_fmap_compose. apply kept_nodup.
  - unfold len. rewrite length_fmap. unfold kept. rewrite length_take. lia.
  - intros Hsz id Hid. apply (floor_candidates x query seeds al) in Hid.
    apply list_elem_of_fmap in Hid as (c & -> & Hc). rewrite <- (kept_all _ _ _ _ _ Hsz) in Hc.
    rewrite <- list_fmap_compose. apply list_elem_of_fmap. by exists c.
Qed.

End activation.

(** ** Concrete runs *)

Module ActivationWitness.
Import AsciiText GraphWitness.

(** Three memories in scopes of their own; the first is refined by the third. *)
Definition ex_ops : list GraphOp :=
  [GAdd "s1" "" [] f32_one (Some "x"); GAdd "s2" "" [] f32_one (Some "y"); GAdd "b" "" [] f32_one (Some "z");
   GRefine "s1" "b" f32_one].
Definition ex_activation : SpreadingActivation :=
  new_activation (run_ops ex_ops new_graph) default_spreading.
Definition ex_seeds : list (string * f32) := [("s1"%string, f32_one); ("s2"%string, 0x3DCCCCCD)].

Lemma search_restricted_spec_witness :
  exists res, search_restricted ex_activation "" ex_seeds 5 (Some (fun id => bool_decide (id = "b"%string))) = Some res /\
    "s1"%string ∈ res.*1 /\ "s2"%string ∈ res.*1.
Proof.
  destruct (search_restricted ex_activation "" ex_seeds 5 _) as [res|] eqn:E; [|exfalso; revert E; by vm_compute].
  exists res. split; [done|].
  destruct (proj2 (search_restricted_spec ex_activation "" ex_seeds 5 _) res E) as (_ & _ & _ & Hall).
  assert (Hsz : N.of_nat (size (final_delta ex_activation "" ex_seeds
            (default (fun _ => true) (Some (fun id => bool_decide (id = "b"%string)))))) <= 5)
    by (vm_compute; discriminate).
  specialize (Hall Hsz). split; apply Hall; unfold ex_seeds; apply list_elem_of_In; simpl; auto.
Defined.
End ActivationWitness.

Import AsciiText GraphWitness ActivationWitness.

(** The expansion can displace a nearest neighbour: with two seeds and room for two
    results, a memory reached through a refinement edge takes the place of the weaker
    seed, which is not returned at all. *)
Theorem ann_hit_dropped :
  len ex_seeds = 2 /\
  exists res, search ex_activation "" ex_seeds 2 = Some res /\ ("s2"%string ∉ res.*1) /\ ("b"%string ∈ res.*1).
Proof.
  split; [done|]. destruct (search ex_activation "" ex_seeds 2) as [res|] eqn:E; [|exfalso; revert E; by vm_compute].
  exists res. split; [done|].
  assert (Hres : map fst <$> search ex_activation "" ex_seeds 2 = Some ["s1"; "b"]%string) by (by vm_compute).
  rewrite E in Hres. injection Hres as Hres. change (res.*1) with (map fst res). rewrite Hres.
  split; [|right; left]. intros Hin. apply list_elem_of_In in Hin as [Hin|[Hin|[]]]; discriminate Hin.
Qed.
