(* ===== verification/Wal.v ===== *)
(** * The write-ahead log, [crates/turbomemory_storage/src/wal.rs]

    The log file is modelled byte for byte: an 8-byte header and frames
    [length (u32 BE) | payload | crc (u32 BE)]. [open], [append_batch],
    [truncate_to], [clear] and the iterator are translated with their early
    returns; a write that fails part way, and the rollback that follows it, are
    inputs of [append_batch]. Reading the file never fails for a reason other
    than the end of the file here (an error of the operating system during the
    scan is outside the model).

    The abstract view is the list of operations a log holds ([wal_rep]); the
    theorems show that every operation implements its list counterpart, and what
    a reader gets from a torn or damaged file. *)

From S2P Require Import Prelude Core Record.

(** ** Data *)

Definition WAL_MAGIC : list byte := [x54; x4d; x53; x57].  (* TMSW *)
Definition WAL_VERSION_1 : N := 1.
Definition WAL_VERSION : N := 2.
Definition WAL_HEADER_SIZE : N := 8.
Definition FRAME_OVERHEAD : N := 8.

Inductive WalOp :=
  | WInsert (offset : PointOffset) (seq : N) (meta : MetaRecord) (vector_crc : option N)
  | WDelete (offset : PointOffset)
  | WFlush (offset : PointOffset)
  | WReplace (old_offset offset : PointOffset) (seq : N) (meta : MetaRecord) (vector_crc : N).

Inductive WalOpV1 :=
  | V1Insert (offset : PointOffset) (seq : N) (meta : MetaRecord)
  | V1Delete (offset : PointOffset)
  | V1Flush (offset : PointOffset).

(** [impl From<WalOpV1> for WalOp]. *)
Definition of_v1 (op : WalOpV1) : WalOp :=
  match op with
  | V1Insert offset seq meta => WInsert offset seq meta None
  | V1Delete offset => WDelete offset
  | V1Flush offset => WFlush offset
  end.

#[global] Instance WalOp_eq_dec : EqDecision WalOp.
Proof. solve_decision. Defined.

(** The open file with its cursor, and the format version of its frames. *)
Record Wal := { file : list byte; pos : N; version : N }.

(** [WalIter]: the bytes the buffered reader has not consumed yet, and the
    counters of the scan. *)
Record WalIter := {
  reader : list byte;
  it_version : N;
  valid_end : N;
  file_len : N;
  done_ : bool;
}.

(** What the operating system does with one [append_batch]: [None] when
    [write_all] succeeds, [Some k] when it fails after [k] bytes; whether the
    two rollback calls succeed. *)
Record AppendIo := { io_written : option nat; io_set_len : bool; io_seek : bool }.
Definition io_ok : AppendIo := {| io_written := None; io_set_len := true; io_seek := true |}.

Section wal.
Context (en : Endian) `{Crc32} `{Bincode WalOp} `{Bincode WalOpV1}.

(** ** Operations *)

Definition header_bytes (v : N) : list byte := WAL_MAGIC ++ to_ne_bytes en 4 v.

(** [Wal::open], on the current content of the file ([None]: no such file). *)
Definition open (disk : option (list byte)) : Result StorageError Wal :=
  let f := default [] disk in
  if len f <? WAL_HEADER_SIZE then
    let f := header_bytes WAL_VERSION in
    Ok {| file := f; pos := len f; version := WAL_VERSION |}
  else
    let header := take 8 f in
    if negb (bool_decide (take 4 header = WAL_MAGIC)) then
      Err (InvalidArgument "WAL has invalid magic")
    else
      let v := from_ne_bytes en (drop 4 header) in
      if negb (v =? WAL_VERSION) && negb (v =? WAL_VERSION_1) then
        Err (InvalidArgument ("WAL version " +:+ u64_to_string v +:+ " not supported"))
      else Ok {| file := f; pos := len f; version := v |}.

Definition needs_upgrade (w : Wal) : bool := negb (version w =? WAL_VERSION).

(** One frame around a serialized payload. *)
Definition frame (payload : list byte) : list byte :=
  u32_be (len payload) ++ payload ++ u32_be (crc32 payload).

Definition write_op_to_buffer (buf : list byte) (op : WalOp)
    : Result StorageError (list byte) :=
  payload ← ok_or (b_serialize op) Serialize;
  if U32 <=? len payload then Err (InvalidArgument "WAL record exceeds 4 GiB")
  else Ok (buf ++ frame payload).

Fixpoint write_ops (buf : list byte) (ops : list WalOp) : Result StorageError (list byte) :=
  match ops with
  | [] => Ok buf
  | op :: ops => buf ← write_op_to_buffer buf op; write_ops buf ops
  end.

(** [self.file.write_all(&buf)] at the cursor. *)
Definition write_at (w : Wal) (bs : list byte) : Wal :=
  {| file := splice x00 (pos w) bs (file w); pos := pos w + len bs; version := version w |}.

Definition append_batch (w : Wal) (ops : list WalOp) (io : AppendIo)
    : Wal * Result StorageError unit :=
  match ops with
  | [] => (w, Ok tt)
  | _ =>
      if needs_upgrade w then
        (w, Err (InvalidArgument
               "WAL holds frames from an older format; replay and clear it first"))
      else
        match write_ops [] ops with
        | Err e => (w, Err e)
        | Ok buf =>
            let start := pos w in
            match io_written io with
            | None => (write_at w buf, Ok tt)
            | Some k =>
                let w1 := write_at w (take k buf) in
                let f2 := if io_set_len io then set_len x00 start (file w1) else file w1 in
                let p2 := if io_seek io then start else pos w1 in
                ({| file := f2; pos := p2; version := version w |}, Err Io)
            end
        end
  end.

Definition append (w : Wal) (op : WalOp) (io : AppendIo) := append_batch w [op] io.

(** [truncate_to]: also repositions the cursor. *)
Definition truncate_to (w : Wal) (valid_end : N) : Wal :=
  let ve := N.max valid_end WAL_HEADER_SIZE in
  {| file := set_len x00 ve (file w); pos := ve; version := version w |}.

Definition clear (w : Wal) : Wal :=
  let f := header_bytes WAL_VERSION in
  {| file := f; pos := len f; version := WAL_VERSION |}.

(** [Wal::iter]. *)
Definition iter (w : Wal) : WalIter := {|
  reader := drop (N.to_nat WAL_HEADER_SIZE) (file w);
  it_version := version w;
  valid_end := WAL_HEADER_SIZE;
  file_len := len (file w);
  done_ := false;
|}.

Definition discarded_bytes (it : WalIter) : N := saturating_sub (file_len it) (valid_end it).

Definition set_reader (r : list byte) (it : WalIter) : WalIter :=
  {| reader := r; it_version := it_version it; valid_end := valid_end it;
     file_len := file_len it; done_ := done_ it |}.
Definition advance (n : N) (it : WalIter) : WalIter :=
  {| reader := reader it; it_version := it_version it; valid_end := valid_end it + n;
     file_len := file_len it; done_ := done_ it |}.
Definition finish (it : WalIter) : WalIter :=
  {| reader := reader it; it_version := it_version it; valid_end := valid_end it;
     file_len := file_len it; done_ := true |}.

(** [read_exact] of [n] bytes: [None] is [UnexpectedEof]. *)
Definition read_exact (n : N) (it : WalIter) : option (list byte * WalIter) :=
  if len (reader it) <? n then None
  else Some (take (N.to_nat n) (reader it), set_reader (drop (N.to_nat n) (reader it)) it).

(** [read_frame]: the outer [None] is [Err(UnexpectedEof)], the inner one a
    torn, corrupt or undecodable frame. *)
Definition read_frame (it : WalIter) : option (WalIter * option WalOp) :=
  let remaining := saturating_sub (file_len it) (valid_end it) in
  if remaining <? FRAME_OVERHEAD then Some (it, None) else
  '(lb, it) ← read_exact 4 it;
  let n := of_be lb in
  if (n =? 0) || (remaining - FRAME_OVERHEAD <? n) then Some (it, None) else
  '(payload, it) ← read_exact n it;
  '(cb, it) ← read_exact 4 it;
  if negb (of_be cb =? crc32 payload) then Some (it, None) else
  let op := if it_version it =? WAL_VERSION_1 then of_v1 <$> b_deserialize payload
            else b_deserialize payload in
  match op with
  | Some op => Some (advance (FRAME_OVERHEAD + n) it, Some op)
  | None => Some (it, None)
  end.

(** [Iterator::next]. *)
Definition next (it : WalIter) : WalIter * option WalOp :=
  if done_ it then (it, None)
  else match read_frame it with
       | Some (it, Some op) => (it, Some op)
       | Some (it, None) => (finish it, None)
       | None => (finish it, None)
       end.

(** [for op in wal_iter.by_ref()]: call [next] until it yields nothing. *)
Fixpoint drain (fuel : nat) (it : WalIter) : list WalOp * WalIter :=
  match fuel with
  | O => ([], it)
  | S fuel =>
      match next it with
      | (it, Some op) => let '(ops, it) := drain fuel it in (op :: ops, it)
      | (it, None) => ([], it)
      end
  end.

(** A frame takes at least nine bytes, so the file length bounds the number of
    calls; [drain_fuel] below shows that more fuel changes nothing. *)
Definition read_all (w : Wal) : list WalOp * WalIter := drain (S (length (file w))) (iter w).

(** ** The format, as a relation on bytes *)

(** The frame at the front of [bs], with its payload length. *)
Definition parse_frame (v : N) (bs : list byte) : option (WalOp * N) :=
  if len bs <? FRAME_OVERHEAD then None else
  let n := of_be (take 4 bs) in
  if (n =? 0) || (len bs - FRAME_OVERHEAD <? n) then None else
  let payload := slice 4 n bs in
  if negb (of_be (slice (4 + n) 4 bs) =? crc32 payload) then None else
  op ← (if v =? WAL_VERSION_1 then of_v1 <$> b_deserialize payload
        else b_deserialize payload);
  Some (op, n).

(** [Scans v bs ops used]: the longest readable prefix of [bs] is [ops], and
    takes [used] bytes. *)
Inductive Scans (v : N) : list byte -> list WalOp -> N -> Prop :=
  | scan_stop bs : parse_frame v bs = None -> Scans v bs [] 0
  | scan_step bs op n ops used :
      parse_frame v bs = Some (op, n) ->
      Scans v (drop (N.to_nat (FRAME_OVERHEAD + n)) bs) ops used ->
      Scans v bs (op :: ops) (FRAME_OVERHEAD + n + used).

Definition it_wf (it : WalIter) : Prop :=
  len (reader it) + valid_end it = file_len it.

(** ** Scanning lemmas *)

Lemma parse_frame_inv v bs op n :
  parse_frame v bs = Some (op, n) ->
  0 < n /\ FRAME_OVERHEAD + n <= len bs /\ n = of_be (take 4 bs) /\
  of_be (slice (4 + n) 4 bs) = crc32 (slice 4 n bs) /\
  (if v =? WAL_VERSION_1 then of_v1 <$> b_deserialize (slice 4 n bs)
   else b_deserialize (slice 4 n bs)) = Some op.
Proof.
  unfold parse_frame, FRAME_OVERHEAD.
  destruct (N.ltb_spec (len bs) 8); [done|].
  destruct (N.eqb_spec (of_be (take 4 bs)) 0); [done|].
  destruct (N.ltb_spec (len bs - 8) (of_be (take 4 bs))); [done|]. simpl orb. cbv iota.
  destruct (N.eqb_spec (of_be (slice (4 + of_be (take 4 bs)) 4 bs))
              (crc32 (slice 4 (of_be (take 4 bs)) bs))); [|done].
  simpl negb. cbv iota. intros (op' & Hop & [= <- <-])%bind_Some.
  split_and!; auto; lia.
Qed.

(** A frame is recognised from its own bytes: what follows it does not matter. *)
Lemma parse_frame_local v bs op n rest :
  parse_frame v bs = Some (op, n) ->
  parse_frame v (take (N.to_nat (FRAME_OVERHEAD + n)) bs ++ rest) = Some (op, n).
Proof.
  intros Hp. apply parse_frame_inv in Hp as (Hn & Hlen & Hnn & Hcrc & Hop).
  unfold FRAME_OVERHEAD in *.
  assert (Htk : len (take (N.to_nat (8 + n)) bs) = 8 + n).
  { unfold len in *. rewrite length_take. lia. }
  assert (H4 : take 4 (take (N.to_nat (8 + n)) bs ++ rest) = take 4 bs).
  { rewrite take_app_le by (unfold len in Htk; lia). rewrite take_take. f_equal. lia. }
  unfold parse_frame, FRAME_OVERHEAD. rewrite H4, <- Hnn, len_app, Htk.
  rewrite (proj2 (N.ltb_ge _ _)) by lia.
  rewrite (proj2 (N.eqb_neq _ _)) by lia.
  rewrite (proj2 (N.ltb_ge _ _)) by lia. simpl orb. cbv iota.
  rewrite !slice_app_l, !slice_take by (rewrite ?Htk; lia).
  rewrite Hcrc, N.eqb_refl. simpl negb. cbv iota. by rewrite Hop.
Qed.

Lemma Scans_used v bs ops used : Scans v bs ops used -> used <= len bs.
Proof.
  induction 1 as [|bs op n ops used Hp _ IH]; [lia|].
  apply parse_frame_inv in Hp as (_ & Hl & _). unfold len in *. rewrite length_drop in IH. lia.
Qed.

Lemma Scans_det v bs ops used ops' used' :
  Scans v bs ops used -> Scans v bs ops' used' -> ops = ops' /\ used = used'.
Proof.
  intros Hs. revert ops' used'. induction Hs as [|bs op n ops used Hp _ IH];
    intros ops' used' Hs'; inversion Hs' as [|? op' n' ops2 used2 Hp' Hs2]; subst; try congruence.
  - done.
  - rewrite Hp in Hp'. injection Hp' as <- <-. apply IH in Hs2 as [-> ->]. done.
Qed.

(** The readable prefix can be cut out and continued with other frames. *)
Lemma Scans_app v bs ops used rest ops' used' :
  Scans v bs ops used -> Scans v rest ops' used' ->
  Scans v (take (N.to_nat used) bs ++ rest) (ops ++ ops') (used + used').
Proof.
  intros Hs Hr. induction Hs as [|bs op n ops used Hp Hs IH]; [done|].
  simpl app.
  assert (Hsplit : take (N.to_nat (FRAME_OVERHEAD + n + used)) bs ++ rest =
     take (N.to_nat (FRAME_OVERHEAD + n)) bs ++
     (take (N.to_nat used) (drop (N.to_nat (FRAME_OVERHEAD + n)) bs) ++ rest)).
  { rewrite app_assoc. f_equal. rewrite N2Nat.inj_add, <- take_take_drop. done. }
  rewrite Hsplit, <- (N.add_assoc (FRAME_OVERHEAD + n)). apply scan_step; [by apply parse_frame_local|].
  pose proof (parse_frame_inv _ _ _ _ Hp) as (_ & Hl & _).
  rewrite drop_app_length'; [done|]. unfold len in Hl. rewrite length_take. lia.
Qed.

Lemma Scans_take v bs ops used :
  Scans v bs ops used -> Scans v (take (N.to_nat used) bs) ops used.
Proof.
  intros Hs. rewrite <- (app_nil_r ops), <- (N.add_0_r used) at 1.
  rewrite <- (app_nil_r (take _ _)). rewrite N.add_0_r.
  rewrite <- (N.add_0_r used) at 2. apply Scans_app; [done|]. by apply scan_stop.
Qed.

Lemma read_exact_ok n it :
  n <= len (reader it) ->
  read_exact n it =
    Some (take (N.to_nat n) (reader it), set_reader (drop (N.to_nat n) (reader it)) it).
Proof. intros Hn. unfold read_exact. by rewrite (proj2 (N.ltb_ge _ _)). Qed.

Lemma drop_take_slice {A} s n (l : list A) :
  take (N.to_nat n) (drop (N.to_nat s) l) = slice s n l.
Proof. done. Qed.

(** One call of [read_frame] on a well-formed iterator is [parse_frame]. *)
Lemma read_frame_parse it :
  it_wf it ->
  match parse_frame (it_version it) (reader it) with
  | Some (op, n) =>
      read_frame it =
        Some (advance (FRAME_OVERHEAD + n)
                (set_reader (drop (N.to_nat (FRAME_OVERHEAD + n)) (reader it)) it), Some op)
  | None => exists it', read_frame it = Some (it', None) /\ valid_end it' = valid_end it
              /\ file_len it' = file_len it
  end.
Proof.
  unfold it_wf. intros Hwf.
  unfold read_frame, parse_frame, saturating_sub, FRAME_OVERHEAD.
  replace (file_len it - valid_end it) with (len (reader it)) by lia.
  destruct (N.ltb_spec (len (reader it)) 8); [eauto|].
  rewrite read_exact_ok by lia. simpl mbind. cbv beta iota.
  change (N.to_nat 4) with 4%nat.
  set (n := of_be (take 4 (reader it))).
  destruct (N.eqb_spec n 0); simpl orb; cbv iota; [eauto|].
  destruct (N.ltb_spec (len (reader it) - 8) n); [eauto|].
  rewrite read_exact_ok by (simpl; unfold len in *; rewrite length_drop; lia).
  simpl mbind. cbv beta iota. change (N.to_nat 4) with 4%nat. simpl reader. simpl set_reader.
  rewrite read_exact_ok by (simpl; unfold len in *; rewrite !length_drop; lia).
  simpl. change (N.to_nat 4) with 4%nat. rewrite drop_drop.
  replace (take 4 (drop (4 + N.to_nat n) (reader it))) with (slice (4 + n) 4 (reader it))
    by (unfold slice; f_equal; f_equal; lia).
  change (take (N.to_nat n) (drop 4 (reader it))) with (slice 4 n (reader it)).
  destruct (negb (of_be (slice (4 + n) 4 (reader it)) =? crc32 (slice 4 n (reader it))));
    [eexists; split_and!; reflexivity|].
  destruct (if it_version it =? WAL_VERSION_1 then _ else _) as [op|] eqn:Hop; simpl;
    [|eexists; split_and!; reflexivity].
  do 3 f_equal. unfold set_reader. f_equal. rewrite drop_drop. f_equal. lia.
Qed.

End wal.

Section wal_laws.
Context (en : Endian) `{Crc32} `{BW : Bincode WalOp} `{BV : Bincode WalOpV1}.

Lemma scans_exists v bs : exists ops used, Scans v bs ops used.
Proof.
  remember (length bs) as m eqn:Hm. revert bs Hm.
  induction (lt_wf m) as [m _ IH]. intros bs ->.
  destruct (parse_frame v bs) as [[op n]|] eqn:Hp.
  - pose proof (parse_frame_inv _ _ _ _ Hp) as (_ & Hl & _).
    unfold len, FRAME_OVERHEAD in Hl.
    destruct (IH (length (drop (N.to_nat (FRAME_OVERHEAD + n)) bs)))
      with (bs := drop (N.to_nat (FRAME_OVERHEAD + n)) bs) as (ops & used & Hs); [|done|].
    { unfold FRAME_OVERHEAD. rewrite length_drop. lia. }
    eexists _, _. by apply scan_step.
  - eexists _, _. by apply scan_stop.
Qed.

(** With enough fuel the loop runs to the end of the readable prefix and stops. *)
Lemma drain_scans fuel it ops used :
  it_wf it -> done_ it = false -> (length (reader it) < fuel)%nat ->
  Scans (it_version it) (reader it) ops used ->
  exists it', drain fuel it = (ops, it') /\ done_ it' = true /\
    valid_end it' = valid_end it + used /\ file_len it' = file_len it.
Proof.
  revert it ops used. induction fuel as [|fuel IH]; intros it ops used Hwf Hd Hf Hs; [lia|].
  simpl. unfold next. rewrite Hd. pose proof (read_frame_parse it Hwf) as Hrf.
  inversion Hs as [bs Hp|bs op n ops2 used2 Hp Hs2]; subst; rewrite Hp in Hrf.
  - destruct Hrf as (it' & -> & Hv & Hl). eexists. split_and!; [done|done|simpl; lia|done].
  - rewrite Hrf. pose proof (parse_frame_inv _ _ _ _ Hp) as (_ & Hl & _).
    unfold FRAME_OVERHEAD, len in *.
    edestruct (IH (advance (8 + n) (set_reader (drop (N.to_nat (8 + n)) (reader it)) it)))
      as (it' & Hdr & Hdn & Hve & Hfl); [| |  |exact Hs2|]; simpl; auto.
    + unfold it_wf, len in *. simpl. rewrite length_drop. lia.
    + rewrite length_drop. lia.
    + rewrite Hdr. exists it'. split_and!; auto. simpl in Hve. lia.
Qed.

Lemma iter_wf w : WAL_HEADER_SIZE <= len (file w) -> it_wf (iter w).
Proof. unfold it_wf, iter, len, WAL_HEADER_SIZE. simpl. rewrite length_drop. lia. Qed.

Lemma read_all_scans w ops used :
  WAL_HEADER_SIZE <= len (file w) ->
  Scans (version w) (drop 8 (file w)) ops used ->
  exists it, read_all w = (ops, it) /\ done_ it = true /\
    valid_end it = WAL_HEADER_SIZE + used /\ file_len it = len (file w).
Proof.
  intros Hl Hs. apply drain_scans; [by apply iter_wf|done| |done].
  simpl. rewrite length_drop. lia.
Qed.

Lemma read_all_scans_inv w ops it :
  WAL_HEADER_SIZE <= len (file w) -> read_all w = (ops, it) ->
  exists used, Scans (version w) (drop 8 (file w)) ops used /\
    valid_end it = WAL_HEADER_SIZE + used /\ file_len it = len (file w) /\ done_ it = true.
Proof.
  intros Hl Hr. destruct (scans_exists (version w) (drop 8 (file w))) as (ops' & used & Hs).
  destruct (read_all_scans w ops' used Hl Hs) as (it' & Hr' & Hd & Hv & Hf).
  rewrite Hr in Hr'. injection Hr' as <- <-. eauto.
Qed.

(** ** Encoding lemmas *)

Lemma write_ops_acc buf ops out :
  write_ops buf ops = Ok out <-> exists bs, write_ops [] ops = Ok bs /\ out = buf ++ bs.
Proof.
  revert buf out. induction ops as [|op ops IH]; intros buf out; simpl.
  - split; [intros [= <-]; exists []; by rewrite app_nil_r|].
    intros (bs & [= <-] & ->). by rewrite app_nil_r.
  - unfold write_op_to_buffer. destruct (b_serialize op) as [p|]; simpl; [|naive_solver].
    destruct (U32 <=? len p); simpl; [naive_solver|].
    rewrite (IH (buf ++ frame p)). split.
    + intros (bs & Hbs & ->). exists (frame p ++ bs). split; [|symmetry; apply app_assoc].
      apply IH. eauto.
    + intros (bs & (bs2 & Hbs2 & ->)%IH & ->). exists bs2. split; [done|]. apply app_assoc.
Qed.

Lemma write_ops_cons op ops bs :
  write_ops [] (op :: ops) = Ok bs <->
  exists p rest, b_serialize op = Some p /\ len p < U32 /\
    write_ops [] ops = Ok rest /\ bs = frame p ++ rest.
Proof.
  simpl. unfold write_op_to_buffer. destruct (b_serialize op) as [p|]; simpl; [|naive_solver].
  destruct (N.leb_spec U32 (len p)); simpl; [naive_solver lia|].
  rewrite write_ops_acc. naive_solver.
Qed.

Lemma write_ops_app ops1 ops2 bs :
  write_ops [] (ops1 ++ ops2) = Ok bs <->
  exists bs1 bs2, write_ops [] ops1 = Ok bs1 /\ write_ops [] ops2 = Ok bs2 /\ bs = bs1 ++ bs2.
Proof.
  revert bs. induction ops1 as [|op ops1 IH]; intros bs; simpl app.
  - simpl. naive_solver.
  - rewrite write_ops_cons. setoid_rewrite IH. setoid_rewrite write_ops_cons. split.
    + intros (p & ? & ? & ? & (bs1 & bs2 & ? & ? & ->) & ->).
      exists (frame p ++ bs1), bs2. rewrite app_assoc. naive_solver.
    + intros (? & bs2 & (p & rest & ? & ? & ? & ->) & ? & ->).
      exists p, (rest ++ bs2). rewrite app_assoc. naive_solver.
Qed.

Lemma length_u32_be n : length (u32_be n) = 4%nat.
Proof. apply length_be_bytes. Qed.

Lemma len_frame p : len (frame p) = FRAME_OVERHEAD + len p.
Proof.
  unfold frame, FRAME_OVERHEAD, len. rewrite !length_app, !length_u32_be. lia.
Qed.

Context `{!BincodeOk WalOp} `{!BincodeTagged WalOp}.

Lemma parse_frame_frame op p rest :
  b_serialize op = Some p -> len p < U32 ->
  parse_frame WAL_VERSION (frame p ++ rest) = Some (op, len p).
Proof.
  intros Hs Hl. pose proof (b_nonempty _ _ Hs) as Hne.
  assert (0 < len p) by (unfold len; destruct p; simpl; [done|lia]).
  assert (H4 : take 4 (frame p ++ rest) = u32_be (len p)).
  { unfold frame. rewrite <- app_assoc, take_app_length'; [done|].
    by rewrite length_u32_be. }
  unfold parse_frame. rewrite H4, of_be_u32 by done.
  rewrite len_app, len_frame. unfold FRAME_OVERHEAD.
  rewrite (proj2 (N.ltb_ge _ _)) by lia.
  rewrite (proj2 (N.eqb_neq _ _)) by lia.
  rewrite (proj2 (N.ltb_ge _ _)) by lia. simpl orb. cbv iota.
  assert (Hp : slice 4 (len p) (frame p ++ rest) = p).
  { unfold slice, frame, len. rewrite <- !app_assoc.
    rewrite drop_app_length' by by rewrite length_u32_be. rewrite Nat2N.id. apply take_app_length. }
  assert (Hc : slice (4 + len p) 4 (frame p ++ rest) = u32_be (crc32 p)).
  { unfold slice, frame, len. rewrite <- !app_assoc. rewrite (app_assoc (u32_be _) p).
    rewrite drop_app_length' by (rewrite length_app, length_u32_be; lia).
    by rewrite take_app_length' by by rewrite length_u32_be. }
  rewrite Hp, Hc, of_be_u32 by apply crc32_bound.
  rewrite N.eqb_refl. simpl. by rewrite (b_roundtrip _ _ Hs).
Qed.

(** A frame cut anywhere is not recognised. *)
Lemma parse_frame_torn p n v :
  len p < U32 -> n < len (frame p) ->
  parse_frame v (take (N.to_nat n) (frame p)) = None.
Proof.
  intros Hl Hn. rewrite len_frame in Hn. unfold parse_frame.
  assert (Hlt : len (take (N.to_nat n) (frame p)) = n).
  { pose proof (len_frame p) as Hlf. unfold len in *. rewrite length_take. lia. }
  rewrite Hlt. unfold FRAME_OVERHEAD in *.
  destruct (N.ltb_spec n 8); [done|].
  assert (H4 : take 4 (take (N.to_nat n) (frame p)) = u32_be (len p)).
  { rewrite take_take. unfold frame. rewrite take_app_le by (rewrite length_u32_be; lia).
    apply take_ge. rewrite length_u32_be. lia. }
  rewrite H4, of_be_u32 by done. case_match eqn:E; [done|].
  rewrite orb_false_iff, N.ltb_ge in E. lia.
Qed.

Lemma Scans_ops ops bs rest ops' used' :
  write_ops [] ops = Ok bs -> Scans WAL_VERSION rest ops' used' ->
  Scans WAL_VERSION (bs ++ rest) (ops ++ ops') (len bs + used').
Proof.
  intros Hw Hr. revert bs Hw. induction ops as [|op ops IH]; intros bs Hw.
  - simpl in Hw. injection Hw as <-. done.
  - apply write_ops_cons in Hw as (p & bs2 & Hs & Hl & Hw & ->).
    rewrite len_app, len_frame, <- app_assoc, <- N.add_assoc.
    change ((op :: ops) ++ ops') with (op :: (ops ++ ops')).
    apply scan_step; [by apply parse_frame_frame|].
    rewrite drop_app_length'; [by apply IH|].
    pose proof (len_frame p) as Hf. unfold len in *. lia.
Qed.

(** Cutting an encoded sequence of operations at byte [n] leaves readable exactly
    the operations whose frames are complete. *)
Lemma Scans_cut ops bs n :
  write_ops [] ops = Ok bs -> n <= len bs ->
  exists ops1 ops2 bs1, ops = ops1 ++ ops2 /\ write_ops [] ops1 = Ok bs1 /\
    Scans WAL_VERSION (take (N.to_nat n) bs) ops1 (len bs1) /\ len bs1 <= n /\
    match ops2 with
    | [] => n = len bs1
    | op :: _ => exists p, b_serialize op = Some p /\ n < len bs1 + len (frame p)
    end.
Proof.
  intros Hw Hn. revert bs n Hw Hn. induction ops as [|op ops IH]; intros bs n Hw Hn.
  - simpl in Hw. injection Hw as <-. exists [], [], []. rewrite len_nil in *.
    split_and!; try (done || lia). rewrite take_nil. by apply scan_stop.
  - apply write_ops_cons in Hw as (p & bs2 & Hs & Hl & Hw & ->).
    destruct (N.lt_ge_cases n (len (frame p))) as [Hlt|Hge].
    + exists [], (op :: ops), []. rewrite len_nil. split_and!; try (done || lia).
      * apply scan_stop. rewrite take_app_le by (unfold len in Hlt; lia).
        by apply parse_frame_torn.
      * exists p. by rewrite N.add_0_l.
    + rewrite len_app in Hn.
      destruct (IH bs2 (n - len (frame p)) Hw) as (ops1 & ops2 & bs1 & -> & Hw1 & Hsc & Hle & Hm);
        [lia|].
      exists (op :: ops1), ops2, (frame p ++ bs1).
      assert (Htk : take (N.to_nat n) (frame p ++ bs2)
                    = frame p ++ take (N.to_nat (n - len (frame p))) bs2).
      { rewrite take_app_ge by (unfold len in Hge; lia). f_equal. f_equal. unfold len. lia. }
      assert (Hcons : write_ops [] (op :: ops1) = Ok (frame p ++ bs1))
        by (apply write_ops_cons; by exists p, bs1).
      rewrite len_app. split_and!; try (done || lia).
      * rewrite Htk. rewrite (len_frame p) at 2. apply scan_step; [by apply parse_frame_frame|].
        rewrite drop_app_length'; [exact Hsc|].
        pose proof (len_frame p) as Hf. unfold len in *. lia.
      * destruct ops2 as [|op2 ops2]; [lia|]. destruct Hm as (p2 & ? & ?). exists p2.
        split; [done|lia].
Qed.

(** ** The abstract log *)

(** [w] holds exactly the operations [ops], in the current format. *)
Definition wal_rep (w : Wal) (ops : list WalOp) : Prop :=
  version w = WAL_VERSION /\ pos w = len (file w) /\
  exists bs, write_ops [] ops = Ok bs /\ file w = header_bytes en WAL_VERSION ++ bs.

Lemma length_header_bytes v : length (header_bytes en v) = 8%nat.
Proof. unfold header_bytes. rewrite length_app, length_to_ne_bytes. done. Qed.

Lemma len_header_bytes v : len (header_bytes en v) = WAL_HEADER_SIZE.
Proof. unfold len. by rewrite length_header_bytes. Qed.

Lemma open_header v rest :
  v = WAL_VERSION \/ v = WAL_VERSION_1 ->
  open en (Some (header_bytes en v ++ rest)) =
    Ok {| file := header_bytes en v ++ rest; pos := len (header_bytes en v ++ rest);
          version := v |}.
Proof.
  intros Hv. unfold open. cbn [from_option Datatypes.id].
  destruct (N.ltb_spec (len (header_bytes en v ++ rest)) WAL_HEADER_SIZE) as [Hlt|_].
  { rewrite len_app, len_header_bytes in Hlt. lia. }
  rewrite take_app_length' by by rewrite length_header_bytes.
  assert (Hm : take 4 (header_bytes en v) = WAL_MAGIC) by done.
  assert (Hd : drop 4 (header_bytes en v) = to_ne_bytes en 4 v) by done.
  rewrite Hm, Hd, bool_decide_eq_true_2 by done. simpl negb. cbv iota.
  rewrite from_to_ne_bytes by (destruct Hv as [-> | ->]; done).
  by destruct Hv as [-> | ->].
Qed.

Lemma wal_rep_header w ops :
  wal_rep w ops -> WAL_HEADER_SIZE <= len (file w).
Proof.
  intros (_ & _ & bs & _ & ->). rewrite len_app, len_header_bytes. lia.
Qed.

Lemma wal_rep_scans w ops :
  wal_rep w ops ->
  exists bs, write_ops [] ops = Ok bs /\ drop 8 (file w) = bs /\
    Scans (version w) (drop 8 (file w)) ops (len bs) /\
    len (file w) = WAL_HEADER_SIZE + len bs.
Proof.
  intros (Hv & _ & bs & Hw & Hf). exists bs.
  assert (Hd : drop 8 (file w) = bs).
  { rewrite Hf. apply drop_app_length'. by rewrite length_header_bytes. }
  split_and!; auto.
  - rewrite Hd, Hv. rewrite <- (app_nil_r bs) at 1. rewrite <- (app_nil_r ops) at 1.
    rewrite <- (N.add_0_r (len bs)). apply Scans_ops; [done|]. by apply scan_stop.
  - by rewrite Hf, len_app, len_header_bytes.
Qed.

Lemma append_batch_rep w ops ops' io w' :
  wal_rep w ops -> io_written io = None ->
  append_batch w ops' io = (w', Ok tt) -> wal_rep w' (ops ++ ops').
Proof.
  intros (Hv & Hp & bs & Hw & Hf) Hio. unfold append_batch.
  destruct ops' as [|op ops']; [intros [= <-]; rewrite app_nil_r; by repeat econstructor|].
  unfold needs_upgrade. rewrite Hv. simpl negb. cbv iota.
  destruct (write_ops [] (op :: ops')) as [buf|e] eqn:Hb; [|done].
  rewrite Hio. intros [= <-]. unfold write_at, wal_rep. simpl.
  rewrite Hp, splice_end. split_and!; [done|by rewrite len_app|].
  exists (bs ++ buf). split; [apply write_ops_app; eauto 10|].
  by rewrite Hf, app_assoc.
Qed.

(** A log with a torn append behind it: cutting the unreadable tail leaves a log
    that holds the old operations and a prefix of the new ones. *)
Lemma wal_cut w ops ops' buf k :
  wal_rep w ops -> write_ops [] ops' = Ok buf ->
  exists ops1 ops2 w1 it, ops' = ops1 ++ ops2 /\
    open en (Some (file w ++ take k buf)) = Ok w1 /\ version w1 = WAL_VERSION /\
    read_all w1 = (ops ++ ops1, it) /\
    wal_rep (if 0 <? discarded_bytes it then truncate_to w1 (valid_end it) else w1) (ops ++ ops1).
Proof.
  intros (Hv & Hp & bs & Hw & Hf) Hb.
  set (k' := N.min (N.of_nat k) (len buf)).
  assert (Htk : take k buf = take (N.to_nat k') buf).
  { unfold k', len. destruct (decide (k <= length buf)%nat).
    - f_equal. lia.
    - rewrite !take_ge by lia. done. }
  destruct (Scans_cut ops' buf k' Hb ltac:(lia))
    as (ops1 & ops2 & bs1 & Heq & Hw1 & Hsc & Hle & _).
  assert (Hall : write_ops [] (ops ++ ops1) = Ok (bs ++ bs1))
    by (apply write_ops_app; eauto).
  pose (f1 := header_bytes en WAL_VERSION ++ (bs ++ take k buf)).
  assert (Hf1 : file w ++ take k buf = f1) by (unfold f1; by rewrite Hf, app_assoc).
  edestruct (read_all_scans {| file := f1; pos := len f1; version := WAL_VERSION |}
               (ops ++ ops1) (len bs + len bs1)) as (it & Hrd & _ & Hve & Hfl).
  { cbn [file]. unfold f1. rewrite len_app, len_header_bytes. lia. }
  { cbn [file version]. unfold f1. rewrite drop_app_length' by by rewrite length_header_bytes.
    rewrite Htk. by apply Scans_ops. }
  exists ops1, ops2, {| file := f1; pos := len f1; version := WAL_VERSION |}, it.
  split_and!; auto. { rewrite Hf1. unfold f1. apply open_header. by left. }
  cbn [file] in Hfl. unfold discarded_bytes, saturating_sub.
  assert (Hpre : exists r, bs ++ take k buf = (bs ++ bs1) ++ r /\ len bs1 + len r = len (take k buf)).
  { rewrite Heq in Hb. apply write_ops_app in Hb as (b1 & b2 & E1 & _ & Ebuf).
    assert (b1 = bs1) as -> by congruence.
    exists (take (N.to_nat k' - length bs1) b2).
    rewrite Htk, Ebuf, take_app_ge, len_app, app_assoc by (unfold len in Hle; lia). done. }
  destruct Hpre as (r & Hr & Hlr).
  destruct (N.ltb_spec 0 (file_len it - valid_end it)) as [Hpos|Hz].
  - split; [done|]. unfold truncate_to. cbn [file pos version]. rewrite N.max_l by lia.
    split; [by rewrite len_set_len|]. exists (bs ++ bs1). split; [done|].
    unfold f1. rewrite Hr, app_assoc.
    replace (valid_end it) with (len (header_bytes en WAL_VERSION ++ bs ++ bs1))
      by (rewrite !len_app, len_header_bytes; lia).
    apply set_len_app.
  - split; [done|]. split; [done|]. exists (bs ++ bs1). split; [done|]. unfold f1. cbn [file].
    rewrite Hr. unfold f1 in Hfl. rewrite !len_app, len_header_bytes in Hfl.
    assert (r = []) as -> by (destruct r; [done|unfold len in *; simpl in *; lia]).
    by rewrite app_nil_r.
Qed.

(** A log that holds [ops] reads back as exactly [ops], in order, with no byte
    left over, and opening its file again finds the same log. *)
Theorem wal_read_back w ops :
  wal_rep w ops ->
  (exists it, read_all w = (ops, it) /\ discarded_bytes it = 0 /\
     valid_end it = len (file w) /\ done_ it = true) /\
  (exists w', open en (Some (file w)) = Ok w' /\ wal_rep w' ops).
Proof.
  intros Hr. pose proof Hr as (Hv & Hp & bs & Hw & Hf). split.
  - destruct (wal_rep_scans w ops Hr) as (bs' & _ & _ & Hs & Hl).
    destruct (read_all_scans w ops _ (wal_rep_header w ops Hr) Hs) as (it & -> & Hd & Hve & Hfl).
    exists it. unfold discarded_bytes, saturating_sub. split_and!; auto; lia.
  - rewrite Hf, open_header by by left. eexists. split; [done|].
    repeat split; simpl; auto. exists bs. auto.
Qed.

(** [append_batch] implements appending to the list of operations: when the
    write succeeds the log holds the old operations followed by the new ones, and
    a reader gets exactly those. *)
Theorem wal_append_refines w ops ops' io w' :
  wal_rep w ops -> io_written io = None -> append_batch w ops' io = (w', Ok tt) ->
  wal_rep w' (ops ++ ops') /\
  exists it, read_all w' = (ops ++ ops', it) /\ discarded_bytes it = 0.
Proof.
  intros Hr Hio Ha. pose proof (append_batch_rep _ _ _ _ _ Hr Hio Ha) as Hr'.
  split; [done|].
  destruct (wal_rep_scans w' _ Hr') as (bs' & _ & _ & Hs & Hl).
  destruct (read_all_scans w' _ _ (wal_rep_header _ _ Hr') Hs) as (it & -> & _ & Hve & Hfl).
  exists it. split; [done|]. unfold discarded_bytes, saturating_sub. lia.
Qed.

(** C15: A log file cut at any byte (a crash in the middle of a write) still opens,
    and yields a prefix of its operations: every operation whose frame lies
    completely before the cut, and no other. *)
Theorem wal_torn_tail w ops n :
  wal_rep w ops -> n <= len (file w) ->
  exists w' ops1 ops2 it,
    open en (Some (take (N.to_nat n) (file w))) = Ok w' /\ ops = ops1 ++ ops2 /\
    read_all w' = (ops1, it) /\
    (n < WAL_HEADER_SIZE -> ops1 = []) /\
    (WAL_HEADER_SIZE <= n ->
       exists bs1, write_ops [] ops1 = Ok bs1 /\ valid_end it = WAL_HEADER_SIZE + len bs1 /\
         discarded_bytes it = n - valid_end it /\
         match ops2 with
         | [] => n = valid_end it
         | op :: _ => exists p, b_serialize op = Some p /\ n < valid_end it + len (frame p)
         end).
Proof.
  intros Hr Hn. pose proof Hr as (Hv & Hp & bs & Hw & Hf).
  destruct (N.lt_ge_cases n WAL_HEADER_SIZE) as [Hlt|Hge].
  - exists (clear en w), [], ops. unfold open.
    assert (Hlen : (len (default [] (Some (take (N.to_nat n) (file w)))) <? WAL_HEADER_SIZE) = true).
    { cbn [from_option Datatypes.id]. apply N.ltb_lt. unfold len. rewrite length_take. lia. }
    rewrite Hlen.
    destruct (read_all_scans (clear en w) [] 0) as (it & Hrd & _).
    { cbn [file pos version clear]. by rewrite len_header_bytes. }
    { cbn [file pos version clear]. rewrite drop_ge by by rewrite length_header_bytes. by apply scan_stop. }
    exists it. split_and!; auto. lia.
  - assert (Hcut : take (N.to_nat n) (file w)
      = header_bytes en WAL_VERSION ++ take (N.to_nat (n - WAL_HEADER_SIZE)) bs).
    { rewrite Hf, take_app_ge by (rewrite length_header_bytes; unfold WAL_HEADER_SIZE in *; lia).
      f_equal. f_equal. rewrite length_header_bytes. unfold WAL_HEADER_SIZE in *. lia. }
    rewrite Hf, len_app, len_header_bytes in Hn.
    destruct (Scans_cut ops bs (n - WAL_HEADER_SIZE) Hw ltac:(lia))
      as (ops1 & ops2 & bs1 & Heq & Hw1 & Hs & Hle & Hm).
    rewrite Hcut, open_header by by left. eexists _, ops1, ops2.
    assert (Hft : len (take (N.to_nat (n - WAL_HEADER_SIZE)) bs) = n - WAL_HEADER_SIZE).
    { unfold len in *. rewrite length_take. lia. }
    pose (f1 := header_bytes en WAL_VERSION ++ take (N.to_nat (n - WAL_HEADER_SIZE)) bs).
    edestruct (read_all_scans {| file := f1; pos := len f1; version := WAL_VERSION |}
                 ops1 (len bs1)) as (it & Hrd & _ & Hve & Hfl).
    { cbn [file]. unfold f1. rewrite len_app, len_header_bytes. lia. }
    { cbn [file version]. unfold f1.
      rewrite drop_app_length' by by rewrite length_header_bytes. exact Hs. }
    exists it. split_and!; [done|done|exact Hrd|lia|]. intros _. exists bs1.
    rewrite Hve. cbn [file] in Hfl. unfold f1 in Hfl.
    rewrite len_app, len_header_bytes, Hft in Hfl.
    unfold discarded_bytes, saturating_sub. split_and!; try (done || lia).
    destruct ops2 as [|op ?]; [lia|]. destruct Hm as (p & ? & ?). exists p. split; [done|lia].
Qed.

(** Whatever bytes follow the header (garbage, zeros, flipped bits), cutting the
    log at the end of its readable prefix and appending makes the new operations
    readable behind the old ones, with nothing discarded. *)
Theorem wal_truncate_then_append f w ops it ops' io w' :
  open en (Some f) = Ok w -> version w = WAL_VERSION ->
  read_all w = (ops, it) -> io_written io = None ->
  append_batch (truncate_to w (valid_end it)) ops' io = (w', Ok tt) ->
  exists it', read_all w' = (ops ++ ops', it') /\ discarded_bytes it' = 0.
Proof.
  intros Ho Hv Hrd Hio Ha.
  assert (Hl : WAL_HEADER_SIZE <= len (file w)).
  { revert Ho. unfold open. cbn [from_option Datatypes.id].
    destruct (N.ltb_spec (len f) WAL_HEADER_SIZE).
    - intros [= <-]. simpl. by rewrite len_header_bytes.
    - repeat case_match; intros [= <-]; done. }
  destruct (read_all_scans_inv w ops it Hl Hrd) as (used & Hs & Hve & Hfl & _).
  rewrite Hv in Hs. pose proof (Scans_used _ _ _ _ Hs) as Hu.
  remember (truncate_to w (valid_end it)) as t eqn:Ht.
  assert (Hlen8 : len (drop 8 (file w)) = len (file w) - WAL_HEADER_SIZE).
  { unfold len, WAL_HEADER_SIZE in *. rewrite length_drop. lia. }
  assert (Hft : file t = take 8 (file w) ++ take (N.to_nat used) (drop 8 (file w))).
  { rewrite Ht. unfold truncate_to. simpl. rewrite N.max_l by lia.
    rewrite set_len_shorter by lia. rewrite take_take_drop. f_equal.
    unfold WAL_HEADER_SIZE in *. lia. }
  assert (Hpt : pos t = len (file t)).
  { rewrite Hft, len_app. rewrite Ht. unfold truncate_to, len, WAL_HEADER_SIZE in *. simpl.
    rewrite !length_take. lia. }
  assert (Happ : exists buf, write_ops [] ops' = Ok buf /\
            w' = {| file := file t ++ buf; pos := len (file t ++ buf); version := WAL_VERSION |}).
  { revert Ha. unfold append_batch. destruct ops' as [|op ops'].
    - intros [= <-]. exists []. split; [done|]. rewrite app_nil_r, <- Hpt.
      rewrite Ht. unfold truncate_to. simpl. by rewrite Hv.
    - replace (needs_upgrade t) with false
        by (rewrite Ht; unfold needs_upgrade, truncate_to; simpl; by rewrite Hv).
      destruct (write_ops [] (op :: ops')) as [buf|] eqn:Hb; [|done].
      rewrite Hio. intros [= <-]. exists buf. split; [done|].
      unfold write_at. rewrite Hpt, splice_end, len_app. f_equal.
      by rewrite Ht. }
  destruct Happ as (buf & Hb & ->).
  assert (H8 : length (take 8 (file w)) = 8%nat).
  { rewrite length_take. unfold len, WAL_HEADER_SIZE in Hl. lia. }
  assert (Hnew : Scans WAL_VERSION
     (take (N.to_nat used) (drop 8 (file w)) ++ buf) (ops ++ ops') (used + len buf)).
  { apply Scans_app; [done|]. rewrite <- (app_nil_r buf), <- (app_nil_r ops') at 1.
    rewrite <- (N.add_0_r (len buf)). rewrite N.add_0_r. rewrite <- (N.add_0_r (len buf)).
    apply Scans_ops; [done|]. by apply scan_stop. }
  assert (Hlt : len (file t) = WAL_HEADER_SIZE + used).
  { rewrite Hft, len_app. unfold len, WAL_HEADER_SIZE in *. rewrite !length_take. lia. }
  edestruct (read_all_scans {| file := file t ++ buf; pos := len (file t ++ buf);
    version := WAL_VERSION |} (ops ++ ops') (used + len buf)) as (it' & Hrd' & _ & Hve' & Hfl').
  { cbn [file]. rewrite len_app. lia. }
  { cbn [file version]. rewrite Hft, <- app_assoc, drop_app_length' by done. exact Hnew. }
  exists it'. split; [done|]. unfold discarded_bytes, saturating_sub.
  rewrite Hve', Hfl'. cbn [file]. rewrite len_app. lia.
Qed.

(** An append whose write fails part way leaves the log exactly as it was once
    the rollback has run; even when the rollback fails too, a reader still gets
    every earlier operation, followed by at most a prefix of the new ones. *)
Theorem wal_failed_append w ops ops' io k w' r :
  wal_rep w ops -> io_written io = Some k -> ops' <> [] -> append_batch w ops' io = (w', r) ->
  r <> Ok tt /\
  (io_set_len io = true -> io_seek io = true -> w' = w) /\
  exists ops1 ops2 it, read_all w' = (ops ++ ops1, it) /\ ops' = ops1 ++ ops2.
Proof.
  intros Hr Hio Hne Ha. pose proof Hr as (Hv & Hp & bs & Hw & Hf).
  pose proof (wal_rep_header w ops Hr) as Hh.
  destruct (wal_rep_scans w ops Hr) as (bs' & Hw' & Hd & Hs & Hl).
  rewrite Hw in Hw'. injection Hw' as <-.
  assert (Hsame : exists ops1 ops2 it, read_all w = (ops ++ ops1, it) /\ ops' = ops1 ++ ops2).
  { destruct (read_all_scans w ops _ Hh Hs) as (it & Hrd & _).
    exists [], ops', it. by rewrite app_nil_r. }
  destruct ops' as [|op ops']; [done|]. unfold append_batch in Ha.
  unfold needs_upgrade in Ha. rewrite Hv in Ha. simpl negb in Ha. cbv iota in Ha.
  destruct (write_ops [] (op :: ops')) as [buf|e] eqn:Hb; [|by injection Ha as <- <-].
  rewrite Hio in Ha. injection Ha as <- <-. unfold write_at. simpl file. simpl pos.
  rewrite Hp, splice_end, set_len_app.
  split_and!; [done|intros -> ->; destruct w; simpl in *; congruence|].
  destruct (io_set_len io).
  { destruct (read_all_scans {| file := file w; pos := if io_seek io then len (file w)
        else len (file w) + len (take k buf); version := WAL_VERSION |} ops (len bs))
      as (it & Hrd & _); [done|rewrite Hv in Hs; exact Hs|].
    exists [], (op :: ops'), it. by rewrite app_nil_r. }
  set (k' := N.min (N.of_nat k) (len buf)).
  assert (Htk : take k buf = take (N.to_nat k') buf).
  { unfold k', len. destruct (decide (k <= length buf)%nat).
    - f_equal. lia.
    - rewrite !take_ge by lia. done. }
  destruct (Scans_cut (op :: ops') buf k' Hb ltac:(lia))
    as (ops1 & ops2 & bs1 & Heq & Hw1 & Hsc & Hle & _).
  destruct (read_all_scans {| file := file w ++ take k buf; pos := if io_seek io then len (file w)
      else len (file w) + len (take k buf); version := WAL_VERSION |} (ops ++ ops1)
      (len bs + len bs1)) as (it & Hrd & _).
  { cbn [file pos version clear]. rewrite len_app. lia. }
  { cbn [file pos version clear]. rewrite Htk, drop_app_le by (unfold len, WAL_HEADER_SIZE in Hh; lia).
    rewrite Hd. by apply Scans_ops. }
  by exists ops1, ops2, it.
Qed.

(** A log in the old format cannot be appended to: the append fails and changes
    nothing until [clear] has replaced the log by an empty one of the current
    format. *)
Theorem wal_old_format w ops io :
  needs_upgrade w = true -> ops <> [] ->
  (exists e, append_batch w ops io = (w, Err e)) /\ wal_rep (clear en w) [] /\
  needs_upgrade (clear en w) = false.
Proof.
  intros Hn Hne. split_and!.
  - unfold append_batch. destruct ops; [done|]. rewrite Hn. eauto.
  - repeat split. exists []. split; [done|]. by rewrite app_nil_r.
  - done.
Qed.

End wal_laws.

(** ** Instances of the hypotheses *)

#[export] Instance tok_sum_walop : Tok WalOp.
Proof.
  refine {|
    tok op := match op with
      | WInsert o s m c => 0 :: tok (o, s, m, c)
      | WDelete o => [1; o]
      | WFlush o => [2; o]
      | WReplace o n s m c => 3 :: tok (o, n, s, m, c)
      end;
    untok l := match l with
      | 0 :: l => '((o, s, m, c), l) ← untok l; Some (WInsert o s m c, l)
      | 1 :: o :: l => Some (WDelete o, l)
      | 2 :: o :: l => Some (WFlush o, l)
      | 3 :: l => '((o, n, s, m, c), l) ← untok l; Some (WReplace o n s m c, l)
      | _ => None
      end |}.
  intros [o s m c|o|o|o n s m c] r; try done;
    rewrite <- app_comm_cons; rewrite untok_tok; done.
Defined.

#[export] Instance tok_walopv1 : Tok WalOpV1.
Proof.
  refine {|
    tok op := match op with
      | V1Insert o s m => 0 :: tok (o, s, m)
      | V1Delete o => [1; o]
      | V1Flush o => [2; o]
      end;
    untok l := match l with
      | 0 :: l => '((o, s, m), l) ← untok l; Some (V1Insert o s m, l)
      | 1 :: o :: l => Some (V1Delete o, l)
      | 2 :: o :: l => Some (V1Flush o, l)
      | _ => None
      end |}.
  intros [o s m|o|o] r; try done; rewrite <- app_comm_cons; rewrite untok_tok; done.
Defined.

Module Examples.

#[export] Existing Instance crc32_ieee_impl.
#[export] Instance ex_walop : Bincode WalOp := tok_bincode WalOp.
#[export] Instance ex_walop_ok : BincodeOk WalOp := tok_bincode_ok WalOp.
#[export] Instance ex_walop_tagged : BincodeTagged WalOp.
Proof. apply tok_bincode_tagged. by intros []. Qed.
#[export] Instance ex_walopv1 : Bincode WalOpV1 := tok_bincode WalOpV1.

Definition ex_meta (i : string) (seq : N) : MetaRecord := {|
  id := i; text := "t"; importance := f32_one; concepts := []; created_at := 5;
  insert_seq := seq; access_count := 0; last_accessed := 0; tier := Hot;
  payload := None; scope := None; source_role := None |}.

Definition ex_wal0 : Wal := {| file := []; pos := 0; version := WAL_VERSION |}.
Definition ex_ops : list WalOp := [WInsert 1 11 (ex_meta "a" 11) (Some 7); WDelete 1].
Definition ex_wal : Wal := fst (append_batch (clear LittleEndian ex_wal0) ex_ops io_ok).
Definition ex_bad : Wal :=
  {| file := file ex_wal ++ [xab; xab; xab]; pos := len (file ex_wal) + 3;
     version := WAL_VERSION |}.
Definition ex_old : Wal :=
  {| file := header_bytes LittleEndian WAL_VERSION_1; pos := 8; version := WAL_VERSION_1 |}.

End Examples.
Import Examples.

Lemma ex_wal_rep : wal_rep LittleEndian ex_wal ex_ops.
Proof.
  apply (append_batch_rep LittleEndian (clear LittleEndian ex_wal0) [] ex_ops io_ok).
  - repeat split. exists []. done.
  - done.
  - vm_compute. reflexivity.
Qed.

Lemma wal_read_back_witness :
  wal_rep LittleEndian ex_wal ex_ops /\
  exists it, read_all ex_wal = (ex_ops, it) /\ discarded_bytes it = 0.
Proof.
  split; [exact ex_wal_rep|].
  destruct (wal_read_back LittleEndian ex_wal ex_ops ex_wal_rep) as [(it & H1 & H2 & _) _].
  exists it. split; assumption.
Defined.

Lemma wal_append_refines_witness :
  wal_rep LittleEndian (fst (append_batch ex_wal [WFlush 3] io_ok)) (ex_ops ++ [WFlush 3]).
Proof.
  refine (proj1 (wal_append_refines LittleEndian ex_wal ex_ops [WFlush 3] io_ok _ ex_wal_rep
    eq_refl _)).
  vm_compute. reflexivity.
Defined.

Lemma wal_torn_tail_witness :
  exists w' ops1 ops2 it,
    open LittleEndian (Some (take 100 (file ex_wal))) = Ok w' /\ ex_ops = ops1 ++ ops2 /\
    read_all w' = (ops1, it).
Proof.
  destruct (wal_torn_tail LittleEndian ex_wal ex_ops 100 ex_wal_rep)
    as (w' & ops1 & ops2 & it & H1 & H2 & H3 & _).
  - vm_compute. discriminate.
  - exists w', ops1, ops2, it. split; [exact H1|]. split; assumption.
Defined.

Lemma wal_truncate_then_append_witness :
  open LittleEndian (Some (file ex_bad)) = Ok ex_bad /\
  exists it', read_all (fst (append_batch (truncate_to ex_bad (valid_end (snd (read_all ex_bad))))
                               [WFlush 3] io_ok))
              = (ex_ops ++ [WFlush 3], it') /\ discarded_bytes it' = 0.
Proof.
  split; [vm_compute; reflexivity|].
  refine (wal_truncate_then_append LittleEndian (file ex_bad) ex_bad ex_ops
    (snd (read_all ex_bad)) [WFlush 3] io_ok _ _ eq_refl _ eq_refl _);
    vm_compute; reflexivity.
Defined.

Lemma wal_failed_append_witness :
  fst (append_batch ex_wal [WFlush 3]
    {| io_written := Some 5%nat; io_set_len := true; io_seek := true |}) = ex_wal.
Proof.
  eapply (wal_failed_append LittleEndian ex_wal ex_ops [WFlush 3]
    {| io_written := Some 5%nat; io_set_len := true; io_seek := true |} 5);
    [exact ex_wal_rep|reflexivity|discriminate|vm_compute; reflexivity|reflexivity|reflexivity].
Defined.

Lemma wal_old_format_witness :
  exists e, append_batch ex_old [WFlush 3] io_ok = (ex_old, Err e).
Proof.
  refine (proj1 (wal_old_format LittleEndian ex_old [WFlush 3] io_ok _ _));
    [vm_compute; reflexivity|discriminate].
Defined.
