(* ===== verification/VectorStore.v ===== *)
(** * The vector file, [crates/turbomemory_storage/src/vector_store.rs]

    A fixed 40-byte header followed by slots of [dim] f32 values. The memory map
    is shared with the file, so the model keeps one byte sequence: writing
    through the map changes the file, and a killed process leaves exactly those
    bytes behind. The calls of the operating system that can fail (resizing and
    mapping the file) are inputs. Sizes are 64-bit with their checked and
    saturating operations. *)

From S2P Require Import Prelude Core Record.

(** ** Data *)

Definition MAGIC : list byte := [x54; x4d; x44; x56].  (* TMDV *)
Definition VERSION : N := 2.
Definition HEADER_SIZE : N := 40.

Record Header := {
  h_magic : list byte;
  h_version : N;
  h_dimension : N;
  h_pad0 : N;
  h_count : N;
  h_crc : N;
  h_reserved0 : N;
  h_reserved1 : N;
  h_reserved2 : N;
}.

(** [Inner]: [mapped] is false after a resize that failed without being able to
    map the file again. *)
Record Inner := {
  bytes : list byte;
  mapped : bool;
  dim : N;
  count : N;
  slots : N;
}.

(** Outcomes of the system calls of one grow: the resize, the mapping after it,
    and the mapping that restores the old size when the resize failed. *)
Record GrowIo := { g_set_len : bool; g_map : bool; g_remap : bool }.
Definition grow_ok : GrowIo := {| g_set_len := true; g_map := true; g_remap := true |}.

Definition with_bytes (b : list byte) (s : Inner) : Inner :=
  {| bytes := b; mapped := mapped s; dim := dim s; count := count s; slots := slots s |}.
Definition with_mapped (m : bool) (s : Inner) : Inner :=
  {| bytes := bytes s; mapped := m; dim := dim s; count := count s; slots := slots s |}.
Definition with_count (c : N) (s : Inner) : Inner :=
  {| bytes := bytes s; mapped := mapped s; dim := dim s; count := c; slots := slots s |}.

Section vector_store.
Context (en : Endian) `{Crc32}.

(** ** Bytes of headers and vectors *)

(** [bytemuck::bytes_of(&header)], in the [repr(C)] layout. *)
Definition header_bytes (h : Header) : list byte :=
  h_magic h ++ to_ne_bytes en 4 (h_version h) ++ to_ne_bytes en 4 (h_dimension h)
  ++ to_ne_bytes en 4 (h_pad0 h) ++ to_ne_bytes en 8 (h_count h)
  ++ to_ne_bytes en 4 (h_crc h) ++ to_ne_bytes en 4 (h_reserved0 h)
  ++ to_ne_bytes en 4 (h_reserved1 h) ++ to_ne_bytes en 4 (h_reserved2 h).

(** [bytemuck::pod_read_unaligned]. *)
Definition read_header (bs : list byte) : Header :=
  let u32_at (o : N) := from_ne_bytes en (slice o 4 bs) in
  {| h_magic := slice 0 4 bs; h_version := u32_at 4; h_dimension := u32_at 8;
     h_pad0 := u32_at 12; h_count := from_ne_bytes en (slice 16 8 bs);
     h_crc := u32_at 24; h_reserved0 := u32_at 28; h_reserved1 := u32_at 32;
     h_reserved2 := u32_at 36 |}.

Definition with_crc (c : N) (h : Header) : Header :=
  {| h_magic := h_magic h; h_version := h_version h; h_dimension := h_dimension h;
     h_pad0 := h_pad0 h; h_count := h_count h; h_crc := c; h_reserved0 := h_reserved0 h;
     h_reserved1 := h_reserved1 h; h_reserved2 := h_reserved2 h |}.
Definition with_hcount (c : N) (h : Header) : Header :=
  {| h_magic := h_magic h; h_version := h_version h; h_dimension := h_dimension h;
     h_pad0 := h_pad0 h; h_count := c; h_crc := h_crc h; h_reserved0 := h_reserved0 h;
     h_reserved1 := h_reserved1 h; h_reserved2 := h_reserved2 h |}.

Definition compute_header_crc (h : Header) : N := crc32 (header_bytes (with_crc 0 h)).

Definition validate_header (h : Header) (expected_dim : N) : Result StorageError unit :=
  if negb (bool_decide (h_magic h = MAGIC)) then
    Err (InvalidArgument "vector store has invalid magic")
  else if negb (h_version h =? VERSION) then
    Err (InvalidArgument ("vector store version " +:+ u64_to_string (h_version h)
                          +:+ " not supported"))
  else if negb (h_dimension h =? expected_dim) then Err DimensionMismatch
  else if negb (compute_header_crc h =? h_crc h) then
    Err (InvalidArgument "vector store header CRC mismatch")
  else Ok tt.

(** [bytemuck::cast_slice] between [f32] and [u8], both ways. *)
Definition vec_bytes (v : list f32) : list byte := concat (map (to_ne_bytes en 4) v).

Fixpoint take_floats (n : nat) (bs : list byte) : list f32 :=
  match n with
  | O => []
  | S n => from_ne_bytes en (take 4 bs) :: take_floats n (drop 4 bs)
  end.
Definition cast_floats (bs : list byte) : list f32 := take_floats (length bs / 4) bs.

Definition vector_crc (v : list f32) : N := crc32 (vec_bytes v).

Definition write_header (b : list byte) (h : Header) : list byte :=
  splice x00 0 (header_bytes h) b.

Definition write_vector (b : list byte) (dim idx : N) (v : list f32) : list byte :=
  splice x00 (HEADER_SIZE + idx * dim * 4) (vec_bytes v) b.

(** The header [new_with_capacity] and [grow_inner] write. *)
Definition fresh_header (dim count : N) : Header :=
  let h := {| h_magic := MAGIC; h_version := VERSION; h_dimension := as_u32 dim; h_pad0 := 0;
              h_count := count; h_crc := 0; h_reserved0 := 0; h_reserved1 := 0;
              h_reserved2 := 0 |} in
  with_crc (compute_header_crc h) h.

(** ** Operations *)

Definition new_with_capacity (dim initial_slots : N) (io : GrowIo) : Result StorageError Inner :=
  if dim =? 0 then Err (InvalidArgument "vector dimension must be > 0") else
  let initial_slots := N.max initial_slots 1024 in
  data_bytes ← ok_or (n ← checked_mul initial_slots dim; checked_mul n 4)
                     (InvalidArgument "vector store size overflow");
  length ← ok_or (checked_add HEADER_SIZE data_bytes)
                 (InvalidArgument "vector store size overflow");
  if negb (g_set_len io) || negb (g_map io) then Err Io else
  Ok {| bytes := write_header (set_len x00 length []) (fresh_header dim 0);
        mapped := true; dim := dim; count := 0; slots := initial_slots |}.

(** The file that [new_with_capacity] leaves, also when it fails or the process dies in
    it: created empty, then sized, then stamped. *)
Definition new_file (dim initial_slots : N) (io : GrowIo) : option (list byte) :=
  if dim =? 0 then None else
  let initial_slots := N.max initial_slots 1024 in
  match n ← checked_mul initial_slots dim; data_bytes ← checked_mul n 4; checked_add HEADER_SIZE data_bytes with
  | None => Some []
  | Some length =>
      if negb (g_set_len io) then Some []
      else if negb (g_map io) then Some (set_len x00 length [])
      else Some (write_header (set_len x00 length []) (fresh_header dim 0))
  end.
(** Opening an existing file writes nothing. *)
Definition open_file (disk : option (list byte)) (dim initial_slots : N) (io : GrowIo) : option (list byte) :=
  match disk with None => new_file dim initial_slots io | Some f => Some f end.

(** [VectorStore::open]; [None] when the file does not exist. *)
Definition open (disk : option (list byte)) (dim initial_slots : N) (io : GrowIo)
    : Result StorageError Inner :=
  match disk with
  | None => new_with_capacity dim initial_slots io
  | Some f =>
      if negb (g_map io) then Err Io else
      if len f <? HEADER_SIZE then Err (InvalidArgument "vector store file is too small") else
      let h := read_header (slice 0 HEADER_SIZE f) in
      _ ← validate_header h dim;
      let slots := saturating_sub (len f) HEADER_SIZE / (dim * 4) in
      Ok {| bytes := f; mapped := true; dim := dim; count := N.min (h_count h) slots;
            slots := slots |}
  end.

Definition unmapped_error : StorageError := Io.

Definition grow_inner (s : Inner) (min_idx : N) (io : GrowIo)
    : Inner * Result StorageError unit :=
  let new_slots := N.max (N.max (wadd64 min_idx 1) (saturating_mul (slots s) 2)) 1024 in
  match n ← checked_mul new_slots (dim s); checked_mul n 4 with
  | None => (s, Err (InvalidArgument "vector store grow overflow"))
  | Some data_bytes =>
      match checked_add HEADER_SIZE data_bytes with
      | None => (s, Err (InvalidArgument "vector store grow overflow"))
      | Some length =>
          if negb (g_set_len io) then (with_mapped (g_remap io) s, Err Io)
          else
            let b := set_len x00 length (bytes s) in
            if negb (g_map io) then (with_mapped false (with_bytes b s), Err Io)
            else
              ({| bytes := write_header b (fresh_header (dim s) (count s)); mapped := true;
                  dim := dim s; count := count s; slots := new_slots |}, Ok tt)
      end
  end.

Definition put (s : Inner) (offset : PointOffset) (v : list f32) (io : GrowIo)
    : Inner * Result StorageError unit :=
  if negb (len v =? dim s) then (s, Err DimensionMismatch) else
  let idx := offset in
  let '(s, r) := if slots s <=? idx then grow_inner s idx io else (s, Ok tt) in
  match r with
  | Err e => (s, Err e)
  | Ok _ =>
      if negb (mapped s) then (s, Err unmapped_error) else
      let s := with_bytes (write_vector (bytes s) (dim s) idx v) s in
      (with_count (N.max (count s) (wadd64 idx 1)) s, Ok tt)
  end.

(** [recover]: the slot itself, checked against the logged checksum. *)
Definition recover (s : Inner) (offset : PointOffset) (expected_crc : option N)
    : Inner * option (list f32) :=
  let idx := offset in
  if slots s <=? idx then (s, None) else
  let start := HEADER_SIZE + idx * dim s * 4 in
  let stop := start + dim s * 4 in
  if negb (mapped s) then (s, None) else
  match get_range start stop (bytes s) with
  | None => (s, None)
  | Some b =>
      let ok := match expected_crc with
                | Some crc => crc32 b =? crc
                | None => let fl := cast_floats b in
                          forallb is_finite fl && existsb (fun x => negb (is_zero x)) fl
                end in
      if negb ok then (s, None)
      else (with_count (N.max (count s) (wadd64 idx 1)) s, Some (cast_floats b))
  end.

(** [get] (also [VectorReadView::get]). *)
Definition get (s : Inner) (offset : PointOffset) : option (list f32) :=
  let idx := offset in
  if count s <=? idx then None else
  if negb (mapped s) then None else
  let start := HEADER_SIZE + idx * dim s * 4 in
  cast_floats <$> get_range start (start + dim s * 4) (bytes s).

(** [VectorReadView::rows]. *)
Definition rows (s : Inner) (start stop : N) : option (list f32) :=
  if (stop <? start) || (count s <? stop) then None else
  if negb (mapped s) then None else
  let row := dim s * 4 in
  cast_floats <$> get_range (HEADER_SIZE + start * row) (HEADER_SIZE + stop * row) (bytes s).

(** [sync_range]: the byte range handed to [flush_range], when there is one. *)
Definition sync_range (s : Inner) (first last : PointOffset)
    : Result StorageError (option (N * N)) :=
  if negb (mapped s) then Err unmapped_error else
  let '(first, last) := (N.min first last, N.max first last) in
  let row := dim s * 4 in
  let start := HEADER_SIZE + N.min first (slots s) * row in
  let stop := HEADER_SIZE + N.min (wadd64 last 1) (slots s) * row in
  Ok (if start <? stop then Some (start, stop - start) else None).

(** [flush]: stamp the count in the header, then sync the mapping; [sync] is the outcome
    of [mmap.flush]. *)
Definition flush (sync : bool) (s : Inner) : Inner * Result StorageError unit :=
  if negb (mapped s) then (s, Err unmapped_error) else
  let h := with_hcount (count s) (read_header (slice 0 HEADER_SIZE (bytes s))) in
  let h := with_crc (compute_header_crc h) h in
  (with_bytes (write_header (bytes s) h) s, if sync then Ok tt else Err Io).

(** ** Invariant *)

(** The header on disk is valid and stamps [c] vectors. *)
Definition header_ok (b : list byte) (d c : N) : Prop :=
  slice 0 HEADER_SIZE b = header_bytes (fresh_header d c) /\ c < U64.

Record vs_wf (s : Inner) : Prop := {
  wf_dim : 0 < dim s < U32;
  wf_slots : HEADER_SIZE + slots s * dim s * 4 <= len (bytes s);
  wf_count : count s <= slots s;
  wf_size : len (bytes s) < U64;
  wf_header : exists c, header_ok (bytes s) (dim s) c;
}.

(** ** Header lemmas *)

Ltac slice_step :=
  match goal with
  | |- context [slice ?s ?n (?l1 ++ ?l2)] =>
      let k := lazymatch l1 with
               | to_ne_bytes _ ?k _ => eval vm_compute in (N.of_nat k)
               | _ => constr:(4)
               end in
      let below := eval vm_compute in (s <? k) in
      lazymatch below with
      | true => rewrite (slice_here k n l1 l2) by (rewrite ?len_to_ne_bytes; done)
      | false =>
          let s' := eval vm_compute in (s - k) in
          rewrite (slice_skip k s s' n l1 l2) by (rewrite ?len_to_ne_bytes; done)
      end
  | |- context [slice 0 ?n (to_ne_bytes ?e ?k ?x)] =>
      rewrite (slice_all (to_ne_bytes e k x) n) by (rewrite ?len_to_ne_bytes; done)
  end.

Lemma len_header h : len (h_magic h) = 4 -> len (header_bytes h) = HEADER_SIZE.
Proof.
  intros Hm. unfold header_bytes. rewrite !len_app, !len_to_ne_bytes, Hm. done.
Qed.

Lemma compute_header_crc_with c h : compute_header_crc (with_crc c h) = compute_header_crc h.
Proof. done. Qed.

Lemma len_fresh_header d c : len (header_bytes (fresh_header d c)) = HEADER_SIZE.
Proof. by apply len_header. Qed.

Lemma read_fresh_header d c :
  c < U64 -> read_header (header_bytes (fresh_header d c)) = fresh_header d c.
Proof.
  intros Hc.
  assert (Hcrc : h_crc (fresh_header d c) < U32) by apply crc32_bound.
  assert (Hd : as_u32 d < U32) by by apply N.mod_lt.
  unfold read_header, header_bytes.
  assert (Hmg : len (h_magic (fresh_header d c)) = 4) by done.
  repeat slice_step.
  rewrite !from_to_ne_bytes; try done.
Qed.

Lemma validate_fresh_header d c :
  d < U32 -> validate_header (fresh_header d c) d = Ok tt.
Proof.
  intros Hd. unfold validate_header. rewrite bool_decide_eq_true_2 by done.
  change (h_version (fresh_header d c)) with VERSION.
  change (h_dimension (fresh_header d c)) with (d mod U32).
  change (h_crc (fresh_header d c)) with (compute_header_crc (fresh_header d c)).
  rewrite N.mod_small by done. by rewrite !N.eqb_refl.
Qed.

Lemma header_ok_read b d c :
  header_ok b d c -> read_header (slice 0 HEADER_SIZE b) = fresh_header d c.
Proof. intros [-> ?]. by apply read_fresh_header. Qed.

Lemma header_ok_write b d c :
  c < U64 -> HEADER_SIZE <= len b -> header_ok (write_header b (fresh_header d c)) d c.
Proof.
  intros Hc Hl. split; [|done]. unfold write_header.
  rewrite <- (len_fresh_header d c) at 1. apply slice_splice_same. rewrite len_fresh_header. lia.
Qed.

Lemma header_ok_slice b b' d c :
  slice 0 HEADER_SIZE b' = slice 0 HEADER_SIZE b -> header_ok b d c -> header_ok b' d c.
Proof. unfold header_ok. by intros ->. Qed.

(** ** Vector bytes *)

Lemma length_vec_bytes v : length (vec_bytes v) = (4 * length v)%nat.
Proof.
  unfold vec_bytes. induction v as [|x v IH]; [done|].
  simpl map. simpl concat. rewrite length_app, length_to_ne_bytes, IH. simpl length. lia.
Qed.

Lemma len_vec_bytes v : len (vec_bytes v) = 4 * len v.
Proof. unfold len. rewrite length_vec_bytes. lia. Qed.

Lemma cast_vec_bytes v : Forall (fun x => x < U32) v -> cast_floats (vec_bytes v) = v.
Proof.
  intros Hv. unfold cast_floats. rewrite length_vec_bytes, Nat.mul_comm, Nat.div_mul by lia.
  unfold vec_bytes. induction Hv as [|x v Hx _ IH]; [done|].
  simpl map. simpl concat. simpl length. simpl take_floats.
  rewrite take_app_length' by by rewrite length_to_ne_bytes.
  rewrite drop_app_length' by by rewrite length_to_ne_bytes.
  rewrite from_to_ne_bytes by done. by rewrite IH.
Qed.

Lemma vec_bytes_take_floats n bs :
  length bs = (4 * n)%nat -> vec_bytes (take_floats n bs) = bs.
Proof.
  revert bs. induction n as [|n IH]; intros bs Hl.
  - destruct bs; [done|simpl in Hl; lia].
  - unfold vec_bytes in *. simpl take_floats. simpl map. simpl concat.
    rewrite IH by (rewrite length_drop; lia).
    rewrite to_from_ne_bytes by (rewrite length_take; lia). apply take_drop.
Qed.

(** ** Slots *)

Definition slot_start (s : Inner) (idx : N) : N := HEADER_SIZE + idx * dim s * 4.

Lemma slot_range s idx :
  vs_wf s -> idx < slots s ->
  slot_start s idx + dim s * 4 <= len (bytes s).
Proof. intros [Hd Hs _ _ _] Hi. unfold slot_start. nia. Qed.

Lemma slot_disjoint s i j :
  i <> j -> slot_start s i + dim s * 4 <= slot_start s j \/
            slot_start s j + dim s * 4 <= slot_start s i.
Proof. intros Hne. unfold slot_start. assert (i < j \/ j < i) as [?|?] by lia; nia. Qed.

(** The content of a slot. *)
Definition slot (s : Inner) (idx : N) : list byte := slice (slot_start s idx) (dim s * 4) (bytes s).

Lemma get_slot s idx :
  vs_wf s -> mapped s = true ->
  get s idx = if idx <? count s then Some (cast_floats (slot s idx)) else None.
Proof.
  intros Hwf Hm. unfold get. pose proof (wf_count s Hwf).
  destruct (N.leb_spec (count s) idx), (N.ltb_spec idx (count s)); try lia; [done|].
  rewrite Hm. simpl negb. cbv iota. fold (slot_start s idx).
  rewrite get_range_in; [|lia|apply slot_range; [done|lia]].
  simpl. unfold slot. do 3 f_equal. lia.
Qed.

Lemma recover_slot s idx crc :
  vs_wf s -> mapped s = true -> idx < slots s ->
  recover s idx (Some crc) =
    if crc32 (slot s idx) =? crc
    then (with_count (N.max (count s) (wadd64 idx 1)) s, Some (cast_floats (slot s idx)))
    else (s, None).
Proof.
  intros Hwf Hm Hi. unfold recover. rewrite (proj2 (N.leb_gt _ _)) by done. rewrite Hm.
  simpl negb. cbv iota. fold (slot_start s idx).
  rewrite get_range_in; [|lia|by apply slot_range].
  replace (slot_start s idx + dim s * 4 - slot_start s idx) with (dim s * 4) by lia.
  fold (slot s idx). by destruct (crc32 (slot s idx) =? crc).
Qed.

Lemma slots_u64 s idx : vs_wf s -> idx < slots s -> idx < u64_max.
Proof.
  intros Hwf Hi. pose proof (slot_range s idx Hwf Hi). pose proof (wf_size s Hwf).
  destruct (wf_dim s Hwf). unfold slot_start, HEADER_SIZE, u64_max, U64 in *. nia.
Qed.

Lemma wadd64_small idx : idx < u64_max -> wadd64 idx 1 = idx + 1.
Proof. intros Hi. unfold wadd64, u64_max in *. apply N.mod_small. unfold U64 in *. lia. Qed.

(** ** [grow_inner] keeps every slot *)

(** The slot count [grow_inner] asks for. *)
Definition grown_slots (slots idx : N) : N :=
  N.max (N.max (idx + 1) (saturating_mul slots 2)) 1024.

Lemma grown_slots_ge sl idx :
  sl < U64 -> sl <= grown_slots sl idx /\ idx < grown_slots sl idx.
Proof. unfold grown_slots, saturating_mul, u64_max. lia. Qed.

Lemma slots_lt_u64 s : vs_wf s -> slots s < U64.
Proof.
  intros [Hd Hs _ Hz _]. assert (slots s * 1 <= slots s * dim s) by (apply N.mul_le_mono_l; lia).
  unfold HEADER_SIZE in Hs. lia.
Qed.

Lemma grow_inner_ok s idx io s' :
  vs_wf s -> idx < u64_max -> grow_inner s idx io = (s', Ok tt) ->
  vs_wf s' /\ mapped s' = true /\ dim s' = dim s /\ count s' = count s /\
  slots s <= slots s' /\ idx < slots s' /\
  (forall j, j < slots s -> slot s' j = slot s j).
Proof.
  intros Hwf Hidx. pose proof Hwf as [Hd Hs Hc Hz (c & Hh)].
  unfold grow_inner. rewrite wadd64_small by done.
  pose proof (slots_lt_u64 s Hwf) as Hsu.
  fold (grown_slots (slots s) idx).
  destruct (grown_slots_ge (slots s) idx Hsu) as [Hns Hin].
  generalize dependent (grown_slots (slots s) idx). intros ns Hns Hin.
  destruct (checked_mul ns (dim s)) as [n|] eqn:H1; [|done]. simpl mbind.
  destruct (checked_mul n 4) as [db|] eqn:H2; [|done].
  destruct (checked_add HEADER_SIZE db) as [l|] eqn:H3; [|done].
  apply checked_mul_Some in H1 as [-> _]. apply checked_mul_Some in H2 as [-> _].
  apply checked_add_Some in H3 as [-> Hl].
  destruct (g_set_len io); [|done]. destruct (g_map io); [|done]. simpl negb. cbv iota.
  intros [= <-].
  assert (Hmul : slots s * dim s <= ns * dim s) by (by apply N.mul_le_mono_r).
  assert (Hlb : len (set_len x00 (HEADER_SIZE + ns * dim s * 4) (bytes s))
                = HEADER_SIZE + ns * dim s * 4) by apply len_set_len.
  assert (Hlw : len (write_header (set_len x00 (HEADER_SIZE + ns * dim s * 4) (bytes s))
                       (fresh_header (dim s) (count s))) = HEADER_SIZE + ns * dim s * 4).
  { unfold write_header. rewrite len_splice; [done|]. rewrite len_fresh_header, Hlb. lia. }
  assert (Hcu : count s < U64) by lia.
  split_and!; cbn [dim count mapped slots]; auto.
  - split; cbn [dim count slots bytes]; rewrite ?Hlw; auto; try lia.
    exists (count s). apply header_ok_write; [done|]. rewrite Hlb. lia.
  - intros j Hj. unfold slot, slot_start. cbn [dim bytes]. unfold write_header.
    rewrite slice_splice_disjoint by (rewrite ?len_fresh_header, ?Hlb; lia).
    assert ((j + 1) * dim s <= slots s * dim s) by (apply N.mul_le_mono_r; lia).
    apply slice_set_len; lia.
Qed.

(** ** [put] *)

Lemma write_slot s idx v :
  vs_wf s -> idx < slots s -> len v = dim s ->
  let s' := with_bytes (write_vector (bytes s) (dim s) idx v) s in
  vs_wf s' /\ slot s' idx = vec_bytes v /\ forall j, j <> idx -> j < slots s -> slot s' j = slot s j.
Proof.
  intros Hwf Hi Hv s'. pose proof (slot_range s idx Hwf Hi) as Hr.
  assert (Hlv : len (vec_bytes v) = dim s * 4) by (rewrite len_vec_bytes; lia).
  assert (Hb : bytes s' = splice x00 (slot_start s idx) (vec_bytes v) (bytes s)) by done.
  assert (Hln : len (bytes s') = len (bytes s)).
  { rewrite Hb. apply len_splice. rewrite Hlv. lia. }
  pose proof Hwf as [Hd Hs Hc Hz (c & Hh)]. split_and!.
  - split; rewrite ?Hln; auto. exists c. eapply header_ok_slice; [|exact Hh].
    rewrite Hb. apply slice_splice_disjoint; [rewrite Hlv; lia|]. left. unfold slot_start. lia.
  - unfold slot. rewrite Hb. change (slot_start s' idx) with (slot_start s idx).
    change (dim s') with (dim s). rewrite <- Hlv. apply slice_splice_same. rewrite Hlv. lia.
  - intros j Hne Hj. unfold slot. rewrite Hb. change (slot_start s' j) with (slot_start s j).
    change (dim s') with (dim s). apply slice_splice_disjoint; [rewrite Hlv; lia|].
    rewrite Hlv. by apply slot_disjoint.
Qed.

Lemma put_ok s off v io s' :
  vs_wf s -> off < u64_max -> put s off v io = (s', Ok tt) ->
  vs_wf s' /\ mapped s' = true /\ dim s' = dim s /\ len v = dim s /\ off < slots s' /\
  slots s <= slots s' /\ count s' = N.max (count s) (off + 1) /\
  slot s' off = vec_bytes v /\ forall j, j <> off -> j < slots s -> slot s' j = slot s j.
Proof.
  intros Hwf Ho. unfold put. destruct (N.eqb_spec (len v) (dim s)) as [Hv|]; [|done].
  simpl negb. cbv iota.
  assert (Hg : forall s1, (if slots s <=? off then grow_inner s off io else (s, Ok tt))
              = (s1, Ok tt) -> vs_wf s1 /\ dim s1 = dim s /\ count s1 = count s /\
              slots s <= slots s1 /\ off < slots s1 /\
              (forall j, j < slots s -> slot s1 j = slot s j)).
  { intros s1. destruct (N.leb_spec (slots s) off) as [Hle|Hlt].
    - intros Hgr. pose proof (grow_inner_ok s off io s1 Hwf Ho Hgr). naive_solver.
    - intros [= <-]. split_and!; auto; lia. }
  destruct (if slots s <=? off then grow_inner s off io else (s, Ok tt)) as [s1 [[]|e]];
    [|done].
  destruct (Hg s1 eq_refl) as (Hwf1 & Hd1 & Hc1 & Hs1 & Ho1 & Hj1).
  destruct (mapped s1) eqn:Hm; [|done]. simpl negb. cbv iota. intros [= <-].
  destruct (write_slot s1 off v Hwf1 Ho1 ltac:(congruence)) as ([Hd2 Hs2 Hc2 Hz2 Hh2] & Hsl & Hother).
  set (s2 := with_bytes (write_vector (bytes s1) (dim s1) off v) s1) in *.
  rewrite wadd64_small by done.
  assert (Hcnt : count s2 = count s) by done || (change (count s2) with (count s1); done).
  split_and!; auto.
  - split; auto. change (N.max (count s2) (off + 1) <= slots s1).
    change (slots s2) with (slots s1) in Hc2. lia.
  - change (N.max (count s1) (off + 1) = N.max (count s) (off + 1)). by rewrite Hc1.
  - intros j Hne Hj. change (slot s2 j = slot s j). rewrite Hother by (done || lia).
    by apply Hj1.
Qed.

(** ** What every outcome of [put] preserves *)

(** [s'] comes from [s] by writes that may touch the slots in [X] only: nothing
    shrinks, every other slot keeps its bytes, and the stamped count only grows,
    up to the count in memory. *)
Record vs_le (X : N -> Prop) (s s' : Inner) : Prop := {
  le_wf : vs_wf s';
  le_dim : dim s' = dim s;
  le_slots : slots s <= slots s';
  le_count : count s <= count s';
  le_header : forall c, header_ok (bytes s) (dim s) c -> c <= count s ->
    exists c', header_ok (bytes s') (dim s) c' /\ c <= c' <= count s';
  le_slot : forall j, ~ X j -> j < slots s -> slot s' j = slot s j;
}.

Lemma vs_le_refl X s : vs_wf s -> vs_le X s s.
Proof. intros Hwf. split; auto; try lia. intros c Hc Hle. exists c. split; [done|lia]. Qed.

Lemma vs_le_trans X s1 s2 s3 : vs_le X s1 s2 -> vs_le X s2 s3 -> vs_le X s1 s3.
Proof.
  intros [W1 D1 S1 C1 H1 L1] [W2 D2 S2 C2 H2 L2]. split; auto; try congruence; try lia.
  - intros c Hc Hle. destruct (H1 c Hc Hle) as (c' & Hc' & ?). rewrite <- D1 in Hc'.
    destruct (H2 c' Hc') as (c'' & Hc'' & ?); [lia|]. rewrite D1 in Hc''. exists c''. split; [done|lia].
  - intros j Hj Hs. rewrite L2, L1; auto; lia.
Qed.

Lemma vs_le_weaken (X Y : N -> Prop) s s' : (forall j, X j -> Y j) -> vs_le X s s' -> vs_le Y s s'.
Proof. intros Hxy [W D S C Hh L]. split; auto. Qed.

Lemma with_mapped_le X m s : vs_wf s -> vs_le X s (with_mapped m s).
Proof. intros Hwf. by apply (vs_le_refl X s) in Hwf as [[W1 W2 W3 W4 W5] D S C Hh L]. Qed.

Lemma grow_inner_le X s idx io s' r :
  vs_wf s -> idx < u64_max -> grow_inner s idx io = (s', r) -> vs_le X s s'.
Proof.
  intros Hwf Hidx. destruct r as [[]|e].
  { intros Hg. destruct (grow_inner_ok _ _ _ _ Hwf Hidx Hg) as (W & M & D & C & S & _ & L).
    split; auto; try lia. intros c Hc Hle. exists (count s). split; [|lia].
    revert Hg. unfold grow_inner. destruct (_ ≫= _) as [db|]; [|done].
    destruct (checked_add _ _) as [l|] eqn:Hl; [|done].
    destruct (g_set_len io), (g_map io); try done. simpl negb. cbv iota. intros [= <-].
    apply checked_add_Some in Hl as [-> _].
    apply header_ok_write; [|rewrite len_set_len; lia]. pose proof (wf_count s Hwf).
    pose proof (slots_lt_u64 s Hwf). lia. }
  pose proof Hwf as [Hd Hs Hc Hz (c & Hh)].
  pose proof (slots_lt_u64 s Hwf) as Hsu.
  unfold grow_inner. rewrite wadd64_small by done. fold (grown_slots (slots s) idx).
  destruct (grown_slots_ge (slots s) idx Hsu) as [Hns _].
  generalize dependent (grown_slots (slots s) idx). intros ns Hns.
  destruct (checked_mul ns (dim s)) as [n|] eqn:H1; simpl mbind;
    [|intros [= <- _]; by apply vs_le_refl].
  destruct (checked_mul n 4) as [db|] eqn:H2; [|intros [= <- _]; by apply vs_le_refl].
  destruct (checked_add HEADER_SIZE db) as [l|] eqn:H3; [|intros [= <- _]; by apply vs_le_refl].
  destruct (g_set_len io); simpl negb; cbv iota; [|intros [= <- _]; by apply with_mapped_le].
  destruct (g_map io); simpl negb; cbv iota; [done|]. intros [= <- _].
  apply checked_mul_Some in H1 as [-> _]. apply checked_mul_Some in H2 as [-> _].
  apply checked_add_Some in H3 as [-> Hl].
  assert (Hmul : slots s * dim s <= ns * dim s) by (by apply N.mul_le_mono_r).
  assert (Hhd : forall c, header_ok (bytes s) (dim s) c ->
    header_ok (set_len x00 (HEADER_SIZE + ns * dim s * 4) (bytes s)) (dim s) c).
  { intros c'. apply header_ok_slice. apply slice_set_len; lia. }
  split; cbn [with_mapped with_bytes dim slots count bytes]; auto; try lia.
  - split; cbn [with_mapped with_bytes dim slots count bytes]; rewrite ?len_set_len; auto; try lia.
    eauto.
  - intros c' Hc' Hle. exists c'. split; [auto|lia].
  - intros j _ Hj. unfold slot, slot_start. cbn [with_mapped with_bytes dim slots count bytes].
    assert ((j + 1) * dim s <= slots s * dim s) by (apply N.mul_le_mono_r; lia).
    apply slice_set_len; lia.
Qed.

Lemma put_le s off v io s' r :
  vs_wf s -> off < u64_max -> put s off v io = (s', r) -> vs_le (eq off) s s'.
Proof.
  intros Hwf Ho. unfold put. destruct (N.eqb_spec (len v) (dim s)) as [Hv|]; simpl negb; cbv iota;
    [|intros [= <- _]; by apply vs_le_refl].
  assert (Hg : forall s1 r1, (if slots s <=? off then grow_inner s off io else (s, Ok tt))
              = (s1, r1) -> vs_le (eq off) s s1 /\ (r1 = Ok tt -> off < slots s1)).
  { intros s1 r1. destruct (N.leb_spec (slots s) off) as [Hle|Hlt].
    - intros Hgr. split; [by eapply grow_inner_le|]. intros ->.
      by destruct (grow_inner_ok s off io s1 Hwf Ho Hgr) as (_ & _ & _ & _ & _ & ? & _).
    - intros [= <- <-]. split; [by apply vs_le_refl|done]. }
  destruct (if slots s <=? off then grow_inner s off io else (s, Ok tt)) as [s1 [[]|e]];
    destruct (Hg _ _ eq_refl) as [Hle Hi]; [|by intros [= <- _]].
  specialize (Hi eq_refl). destruct (mapped s1) eqn:Hm; simpl negb; cbv iota; intros [= <- _]; [|done].
  eapply vs_le_trans; [exact Hle|]. destruct Hle as [Hwf1 Hd1 _ _ _ _].
  destruct (write_slot s1 off v Hwf1 Hi ltac:(congruence)) as (Hwf2 & _ & Hother).
  rewrite wadd64_small by done. pose proof Hwf2 as [Hd2 Hs2 Hc2 Hz2 Hh2].
  set (s2 := with_bytes (write_vector (bytes s1) (dim s1) off v) s1) in *.
  change (count s2) with (count s1) in *. change (slots s2) with (slots s1) in *.
  change (dim s2) with (dim s1) in *. change (bytes (with_count _ s2)) with (bytes s2).
  split; cbn [with_count dim slots count]; auto; try lia.
  - split; cbn [with_count dim slots count bytes]; auto.
    change (N.max (count s1) (off + 1) <= slots s1). lia.
  - intros c Hc Hle. exists c. split; [|lia]. change (header_ok (bytes s2) (dim s1) c).
    eapply header_ok_slice; [|exact Hc]. unfold s2. cbn [with_bytes bytes]. unfold write_vector.
    pose proof (slot_range s1 off Hwf1 Hi) as Hr. unfold slot_start in Hr.
    apply slice_splice_disjoint; [rewrite len_vec_bytes; lia|left; lia].
  - intros j Hj Hlt. change (slot s2 j = slot s1 j). apply Hother; [congruence|done].
Qed.

(** ** Theorems *)

(** An open that succeeds holds the file as it is on disk. *)
Lemma open_file_ok disk d k io s : open disk d k io = Ok s -> open_file disk d k io = Some (bytes s).
Proof.
  unfold open, open_file. destruct disk as [f|].
  - destruct (negb (g_map io)); [done|]. destruct (_ <? _); [done|].
    destruct (validate_header _ _); [|done]. by intros [= <-].
  - unfold new_with_capacity, new_file. destruct (d =? 0); [done|].
    destruct (checked_mul _ d) as [n|]; [|done]. cbn [mbind option_bind].
    destruct (checked_mul n 4) as [b|]; [|done]. cbn [mbind option_bind Result_bind ok_or].
    destruct (checked_add _ b) as [l|]; [|done]. cbn [mbind Result_bind ok_or].
    destruct (g_set_len io), (g_map io); try done. by intros [= <-].
Qed.

(** A successful [put] keeps the store well formed, makes the vector readable at
    its offset, and leaves every vector stored before at another offset readable and
    unchanged, also when the file had to grow. *)
Theorem put_get s off v io s' :
  vs_wf s -> mapped s = true -> off < u64_max -> Forall (fun x => x < U32) v ->
  put s off v io = (s', Ok tt) ->
  vs_wf s' /\ get s' off = Some v /\
  (forall o, o <> off -> o < count s -> get s' o = get s o).
Proof.
  intros Hwf Hm Ho Hv Hput.
  destruct (put_ok s off v io s' Hwf Ho Hput)
    as (Hwf' & Hm' & Hd & Hlv & Hos & Hss & Hc & Hsl & Hother).
  pose proof (wf_count s Hwf). split_and!; auto.
  - rewrite get_slot by done. rewrite (proj2 (N.ltb_lt _ _)) by lia.
    by rewrite Hsl, cast_vec_bytes.
  - intros o Hne Hlt. rewrite !get_slot by done.
    rewrite !(proj2 (N.ltb_lt _ _)) by lia. by rewrite Hother by (done || lia).
Qed.

Lemma open_wf s c :
  vs_wf s -> header_ok (bytes s) (dim s) c ->
  exists s', open (Some (bytes s)) (dim s) 0 grow_ok = Ok s' /\ vs_wf s' /\ mapped s' = true /\
    bytes s' = bytes s /\ dim s' = dim s /\ slots s <= slots s' /\ count s' = N.min c (slots s').
Proof.
  intros Hwf Hh. pose proof Hwf as [Hd Hs Hc Hz _]. unfold open.
  simpl negb. cbv iota. rewrite (proj2 (N.ltb_ge _ _)) by lia.
  rewrite (header_ok_read _ _ _ Hh), validate_fresh_header by lia. simpl mbind.
  set (ns := saturating_sub (len (bytes s)) HEADER_SIZE / (dim s * 4)).
  assert (Hns : ns * (dim s * 4) <= len (bytes s) - HEADER_SIZE).
  { unfold ns, saturating_sub. rewrite N.mul_comm. apply N.Div0.mul_div_le. }
  assert (Hge : slots s <= ns).
  { unfold ns, saturating_sub. apply N.div_le_lower_bound; nia. }
  eexists. split; [done|]. split_and!; auto.
  split; cbn [dim slots bytes count]; auto; [nia|lia|eauto].
Qed.

(** A vector whose [put] returned survives a killed process: opening the bytes the
    store left behind, without any flush, and recovering the slot with the checksum
    logged for it gives the vector back and counts it. *)
Theorem put_survives_kill s off v io s' :
  vs_wf s -> off < u64_max -> Forall (fun x => x < U32) v -> put s off v io = (s', Ok tt) ->
  exists t t', open (Some (bytes s')) (dim s) 0 grow_ok = Ok t /\
    recover t off (Some (vector_crc v)) = (t', Some v) /\ off < count t' /\
    get t' off = Some v.
Proof.
  intros Hwf Ho Hv Hput.
  destruct (put_ok s off v io s' Hwf Ho Hput)
    as (Hwf' & Hm' & Hd & Hlv & Hos & Hss & Hc & Hsl & _).
  destruct (wf_header s' Hwf') as (c & Hh).
  destruct (open_wf s' c Hwf' Hh) as (t & Hop & Hwt & Hmt & Hbt & Hdt & Hst & Hct).
  assert (Hslt : slot t off = vec_bytes v).
  { unfold slot, slot_start in *. by rewrite Hbt, Hdt. }
  rewrite Hd in Hop. exists t. eexists. split; [exact Hop|].
  rewrite recover_slot by (done || lia). unfold vector_crc.
  rewrite Hslt, N.eqb_refl, cast_vec_bytes by done. split; [done|].
  rewrite wadd64_small by done. split; [cbn [count with_count]; lia|].
  assert (Hwt' : vs_wf (with_count (N.max (count t) (off + 1)) t)).
  { destruct Hwt as [? ? ? ? ?]. split; cbn [dim bytes slots count with_count]; auto. lia. }
  rewrite get_slot by done. cbn [count with_count]. rewrite (proj2 (N.ltb_lt _ _)) by lia.
  change (slot (with_count (N.max (count t) (off + 1)) t) off) with (slot t off).
  by rewrite Hslt, cast_vec_bytes.
Qed.

Lemma flush_header s c :
  header_ok (bytes s) (dim s) c ->
  let h := with_hcount (count s) (read_header (slice 0 HEADER_SIZE (bytes s))) in
  with_crc (compute_header_crc h) h = fresh_header (dim s) (count s).
Proof. intros Hh. by rewrite (header_ok_read _ _ _ Hh). Qed.

(** [flush] stamps the header and touches nothing else, also when the sync fails. *)
Lemma flush_ok sync s :
  vs_wf s -> mapped s = true ->
  exists s', flush sync s = (s', if sync then Ok tt else Err Io) /\ vs_wf s' /\ mapped s' = true /\ dim s' = dim s /\
    count s' = count s /\ slots s' = slots s /\ header_ok (bytes s') (dim s) (count s) /\
    forall j, j < slots s -> slot s' j = slot s j.
Proof.
  intros Hwf Hm. pose proof Hwf as [Hd Hs Hc Hz (c & Hh)]. unfold flush. rewrite Hm.
  simpl negb. cbv iota. cbv zeta. rewrite (flush_header s c Hh).
  assert (Hcu : count s < U64) by (pose proof (slots_lt_u64 s Hwf); lia).
  assert (Hln : len (write_header (bytes s) (fresh_header (dim s) (count s))) = len (bytes s)).
  { unfold write_header. apply len_splice. rewrite len_fresh_header. lia. }
  assert (Hhd : header_ok (write_header (bytes s) (fresh_header (dim s) (count s)))
                  (dim s) (count s)) by (apply header_ok_write; [done|lia]).
  eexists. split; [done|]. split_and!; auto.
  - split; cbn [dim slots bytes count with_bytes]; rewrite ?Hln; auto. eauto.
  - intros j Hj. pose proof (slot_range s j Hwf Hj). unfold slot, slot_start in *.
    cbn [dim bytes with_bytes]. unfold write_header.
    apply slice_splice_disjoint; rewrite len_fresh_header; lia.
Qed.

(** [flush] then reopening restores the store: the same number of vectors, each
    readable with the same contents, and nothing beyond them. *)
Theorem flush_reopen s :
  vs_wf s -> mapped s = true ->
  exists s' t, flush true s = (s', Ok tt) /\
    open (Some (bytes s')) (dim s) 0 grow_ok = Ok t /\ vs_wf t /\
    count t = count s /\ (forall o, get t o = get s o).
Proof.
  intros Hwf Hm.
  destruct (flush_ok true s Hwf Hm) as (s' & Hf & Hwf' & Hm' & Hd & Hc & Hsl & Hh & Hslot).
  rewrite <- Hd in Hh. rewrite <- Hd.
  destruct (open_wf s' _ Hwf' Hh) as (t & Hop & Hwt & Hmt & Hbt & Hdt & Hst & Hct).
  exists s', t. pose proof (wf_count s Hwf).
  assert (Hct' : count t = count s) by lia.
  split_and!; auto. intros o. rewrite !get_slot by done. rewrite Hct'.
  destruct (N.ltb_spec o (count s)); [|done]. do 2 f_equal.
  rewrite <- Hslot by lia. unfold slot, slot_start. by rewrite Hbt, Hdt, Hd.
Qed.

(** A [put] that fails while the file cannot be resized (whichever check or call
    refuses it: the dimension, the 64-bit size computation, the resize) changes nothing,
    provided the file can be mapped again at its old size. *)
Theorem put_grow_failure s off v io s' e :
  vs_wf s -> mapped s = true -> g_remap io = true -> g_set_len io = false ->
  put s off v io = (s', Err e) -> s' = s.
Proof.
  intros Hwf Hm Hr Hl.
  assert (Hg : forall idx, exists e', grow_inner s idx io = (s, Err e')).
  { intros idx. unfold grow_inner. rewrite Hr, Hl.
    assert (Hid : with_mapped true s = s) by (destruct s; simpl in *; by subst).
    simpl negb. cbv iota zeta. rewrite Hid. repeat case_match; eauto. }
  unfold put. destruct (negb (len v =? dim s)); [by intros [= -> _]|].
  destruct (slots s <=? off).
  - destruct (Hg off) as (e' & ->). by intros [= -> _].
  - by rewrite Hm.
Qed.

(** [recover] accepts a slot only when its bytes have the expected checksum: the
    vector it returns has that checksum and is the content of the slot. *)
Theorem recover_checked s off crc s' v :
  vs_wf s -> mapped s = true -> recover s off (Some crc) = (s', Some v) ->
  vector_crc v = crc /\ off < slots s /\ bytes s' = bytes s /\
  count s' = N.max (count s) (off + 1).
Proof.
  intros Hwf Hm Hrec.
  assert (Hlt : off < slots s).
  { unfold recover in Hrec. by destruct (N.leb_spec (slots s) off). }
  rewrite recover_slot in Hrec by done.
  destruct (N.eqb_spec (crc32 (slot s off)) crc) as [Hc|]; [|done].
  injection Hrec as <- <-. pose proof (slots_u64 s off Hwf Hlt).
  rewrite wadd64_small by done. split_and!; auto.
  unfold vector_crc, cast_floats. pose proof (slot_range s off Hwf Hlt) as Hr.
  assert (Hll : length (slot s off) = (4 * N.to_nat (dim s))%nat).
  { pose proof (len_slice (slot_start s off) (dim s * 4) (bytes s) Hr) as Hl.
    unfold slot, len in *. lia. }
  rewrite vec_bytes_take_floats; [done|].
  rewrite Hll. rewrite (Nat.mul_comm 4), Nat.div_mul by lia. lia.
Qed.

End vector_store.

(** ** Instances of the hypotheses *)

Module Examples.

#[export] Existing Instance crc32_ieee_impl.

Definition ex_store : Inner :=
  match new_with_capacity LittleEndian 2 0 grow_ok with
  | Ok s => s
  | Err _ => {| bytes := []; mapped := false; dim := 0; count := 0; slots := 0 |}
  end.
Definition ex_vec : list f32 := [0x3f19999a; 0x3f4ccccd].
Definition ex_store1 : Inner := fst (put LittleEndian ex_store 5 ex_vec grow_ok).
Definition no_room : GrowIo := {| g_set_len := false; g_map := true; g_remap := true |}.

End Examples.
Import Examples.

Lemma ex_store_wf : vs_wf LittleEndian ex_store.
Proof.
  split.
  - split; reflexivity.
  - vm_compute. discriminate.
  - vm_compute. discriminate.
  - vm_compute. reflexivity.
  - exists 0. split; vm_compute; reflexivity.
Qed.

Lemma ex_vec_bits : Forall (fun x => x < U32) ex_vec.
Proof. repeat constructor. Qed.

Lemma ex_put : put LittleEndian ex_store 5 ex_vec grow_ok = (ex_store1, Ok tt).
Proof. vm_compute. reflexivity. Qed.

Lemma ex_store1_wf : vs_wf LittleEndian ex_store1.
Proof.
  by destruct (put_ok LittleEndian ex_store 5 ex_vec grow_ok ex_store1 ex_store_wf
    ltac:(vm_compute; reflexivity) ex_put).
Qed.

Lemma put_get_witness : get LittleEndian ex_store1 5 = Some ex_vec.
Proof.
  eapply (put_get LittleEndian ex_store 5 ex_vec grow_ok ex_store1);
    [exact ex_store_wf|reflexivity|vm_compute; reflexivity|exact ex_vec_bits|exact ex_put].
Defined.

Lemma put_survives_kill_witness :
  exists t t', open LittleEndian (Some (bytes ex_store1)) (dim ex_store) 0 grow_ok = Ok t /\
    recover LittleEndian t 5 (Some (vector_crc LittleEndian ex_vec)) = (t', Some ex_vec) /\
    5 < count t' /\ get LittleEndian t' 5 = Some ex_vec.
Proof.
  exact (put_survives_kill LittleEndian ex_store 5 ex_vec grow_ok ex_store1 ex_store_wf
    eq_refl ex_vec_bits ex_put).
Defined.

Lemma flush_reopen_witness :
  exists s' t, flush LittleEndian true ex_store1 = (s', Ok tt) /\
    open LittleEndian (Some (bytes s')) (dim ex_store1) 0 grow_ok = Ok t /\
    vs_wf LittleEndian t /\ count t = count ex_store1 /\
    (forall o, get LittleEndian t o = get LittleEndian ex_store1 o).
Proof. exact (flush_reopen LittleEndian ex_store1 ex_store1_wf eq_refl). Defined.

Lemma put_grow_failure_witness :
  fst (put LittleEndian ex_store 5000 ex_vec no_room) = ex_store.
Proof.
  eapply (put_grow_failure LittleEndian ex_store 5000 ex_vec no_room _ Io);
    [exact ex_store_wf|reflexivity|reflexivity|reflexivity|vm_compute; reflexivity].
Defined.

Lemma recover_checked_witness :
  exists s', recover LittleEndian ex_store1 5 (Some (vector_crc LittleEndian ex_vec))
             = (s', Some ex_vec) /\ count s' = N.max (count ex_store1) (5 + 1).
Proof.
  eexists. split; [vm_compute; reflexivity|].
  eapply (recover_checked LittleEndian ex_store1 5 (vector_crc LittleEndian ex_vec));
    [exact ex_store1_wf|reflexivity|vm_compute; reflexivity].
Defined.

(** A slot below the count that was never written reads as zeros. *)
Example get_never_written : get LittleEndian ex_store1 3 = Some [0; 0].
Proof. vm_compute. reflexivity. Qed.
