(* ===== verification/MetadataStore.v ===== *)
(** * The metadata store, [crates/turbomemory_storage/src/metadata_store.rs]

    A cache of metadata records, demotion factors and access histories in front
    of a [redb] database. Changes are tracked in dirty sets and written by
    [flush] in one transaction. The database is a parameter in the sense of its
    documented behaviour: tables are finite maps, and a write transaction is
    applied as a whole or not at all; whether it commits is an input of the
    operation ([true]: it commits; an error inside the transaction is an error at
    its commit). Table values go through [bincode], so a table
    can hold bytes that do not decode. *)

From S2P Require Import Prelude Core Record.

(** ** Data *)

(** The five tables. *)
Record Database := {
  t_records : gmap N (list byte);
  t_meta : gmap string string;
  t_meta_bin : gmap string (list byte);
  t_demotion : gmap N f32;
  t_access_history : gmap N (list byte);
}.

Definition empty_db : Database := {|
  t_records := ∅; t_meta := ∅; t_meta_bin := ∅; t_demotion := ∅; t_access_history := ∅ |}.

Record MetadataStore := {
  db : Database;
  records : gmap N MetaRecord;
  dirty : gset N;
  demotion : gmap N f32;
  demotion_dirty : gset N;
  access_history : gmap N (list N);
  access_history_dirty : gset N;
  next_offset : N;
  next_seq : N;
  record_count : N;
}.

Definition NO_DEMOTION : f32 := f32_one.

(** What opening the file does: the directory cannot be created, or
    [Database::create] opens it, returns an error, or panics on damage it asserts
    against. *)
Inductive DbOpen := DbOpened (d : Database) | DbDirError | DbError | DbPanic.

(** Field updates. *)
Definition set_db (d : Database) (s : MetadataStore) : MetadataStore := {|
  db := d; records := records s; dirty := dirty s; demotion := demotion s;
  demotion_dirty := demotion_dirty s; access_history := access_history s;
  access_history_dirty := access_history_dirty s; next_offset := next_offset s;
  next_seq := next_seq s; record_count := record_count s |}.
Definition set_records (r : gmap N MetaRecord) (d : gset N) (n : N) (s : MetadataStore)
    : MetadataStore := {|
  db := db s; records := r; dirty := d; demotion := demotion s;
  demotion_dirty := demotion_dirty s; access_history := access_history s;
  access_history_dirty := access_history_dirty s; next_offset := next_offset s;
  next_seq := next_seq s; record_count := n |}.
Definition set_demotion (m : gmap N f32) (d : gset N) (s : MetadataStore)
    : MetadataStore := {|
  db := db s; records := records s; dirty := dirty s; demotion := m;
  demotion_dirty := d; access_history := access_history s;
  access_history_dirty := access_history_dirty s; next_offset := next_offset s;
  next_seq := next_seq s; record_count := record_count s |}.
Definition set_history (m : gmap N (list N)) (d : gset N) (s : MetadataStore)
    : MetadataStore := {|
  db := db s; records := records s; dirty := dirty s; demotion := demotion s;
  demotion_dirty := demotion_dirty s; access_history := m;
  access_history_dirty := d; next_offset := next_offset s;
  next_seq := next_seq s; record_count := record_count s |}.
Definition set_counters (o q : N) (s : MetadataStore) : MetadataStore := {|
  db := db s; records := records s; dirty := dirty s; demotion := demotion s;
  demotion_dirty := demotion_dirty s; access_history := access_history s;
  access_history_dirty := access_history_dirty s; next_offset := o;
  next_seq := q; record_count := record_count s |}.
Definition set_dirty (d dd hd : gset N) (s : MetadataStore) : MetadataStore := {|
  db := db s; records := records s; dirty := d; demotion := demotion s;
  demotion_dirty := dd; access_history := access_history s;
  access_history_dirty := hd; next_offset := next_offset s;
  next_seq := next_seq s; record_count := record_count s |}.

Definition set_t_meta (m : gmap string string) (d : Database) : Database := {|
  t_records := t_records d; t_meta := m; t_meta_bin := t_meta_bin d;
  t_demotion := t_demotion d; t_access_history := t_access_history d |}.
Definition set_t_meta_bin (m : gmap string (list byte)) (d : Database) : Database := {|
  t_records := t_records d; t_meta := t_meta d; t_meta_bin := m;
  t_demotion := t_demotion d; t_access_history := t_access_history d |}.

(** The largest of a finite list of numbers. *)
Definition max_of (l : list N) : option N :=
  match l with [] => None | x :: l => Some (foldr N.max x l) end.

Section metadata_store.
Context `{BM : Bincode MetaRecord} `{BH : Bincode (list N)}.

(** ** Loading *)

(** [load_records], [load_access_history]: the first value that does not decode
    fails the load. *)
Fixpoint load_loop {V} `{Bincode V} (l : list (N * list byte)) : Result StorageError (gmap N V) :=
  match l with
  | [] => Ok ∅
  | (k, b) :: l =>
      v ← ok_or (b_deserialize b) Serialize;
      m ← load_loop l;
      Ok (<[k := v]> m)
  end.
Definition load_records (d : Database) : Result StorageError (gmap N MetaRecord) :=
  load_loop (map_to_list (t_records d)).
Definition load_access_history (d : Database) : Result StorageError (gmap N (list N)) :=
  load_loop (map_to_list (t_access_history d)).
Definition load_demotion (d : Database) : gmap N f32 := t_demotion d.

Definition load_meta (d : Database) (key : string) : option string := t_meta d !! key.

Definition open (opened : DbOpen) : Result StorageError MetadataStore :=
  match opened with
  | DbDirError => Err Io
  | DbError => Err Redb
  | DbPanic => Err (Corrupted
      "memory.redb is damaged and cannot be opened (restore it from a backup)")
  | DbOpened d =>
      records ← load_records d;
      let demotion := load_demotion d in
      access_history ← load_access_history d;
      let next_offset := default
        (match max_of (map_to_list records).*1 with Some m => wadd64 m 1 | None => 0 end)
        (s ← load_meta d "next_offset"; parse_u64 s) in
      let next_seq := default
        (default 1 (max_of ((fun r => wadd64 (insert_seq r) 1) <$> (map_to_list records).*2)))
        (s ← load_meta d "next_seq"; parse_u64 s) in
      Ok {| db := d; records := records; dirty := ∅; demotion := demotion;
            demotion_dirty := ∅; access_history := access_history;
            access_history_dirty := ∅; next_offset := next_offset; next_seq := next_seq;
            record_count := N.of_nat (size records) |}
  end.

(** ** Reads *)

Definition get (s : MetadataStore) (offset : PointOffset) : option MetaRecord := records s !! offset.
Definition id_of (s : MetadataStore) (offset : PointOffset) : option string :=
  id <$> records s !! offset.
Definition demotion_factor (s : MetadataStore) (offset : PointOffset) : f32 :=
  default NO_DEMOTION (demotion s !! offset).
Definition history_of (s : MetadataStore) (offset : PointOffset) : list N :=
  default [] (access_history s !! offset).
Definition last_applied_seq (s : MetadataStore) : option N :=
  v ← load_meta (db s) "last_applied_seq"; parse_u64 v.
Definition max_live_offset (s : MetadataStore) : option N := max_of (map_to_list (records s)).*1.
Definition is_fresh (s : MetadataStore) : bool :=
  (record_count s =? 0) && bool_decide (last_applied_seq s = None)
  && bool_decide (load_meta (db s) "next_offset" = None).
Definition load_meta_bytes (s : MetadataStore) (key : string) : option (list byte) :=
  t_meta_bin (db s) !! key.

(** ** Cache updates *)

Definition put_meta (s : MetadataStore) (offset : PointOffset) (m : MetaRecord) : MetadataStore :=
  let is_new := bool_decide (records s !! offset = None) in
  set_records (<[offset := m]> (records s)) ({[offset]} ∪ dirty s)
    (if is_new then record_count s + 1 else record_count s) s.

Definition put (s : MetadataStore) (offset : PointOffset) (r : Record_) : MetadataStore :=
  put_meta s offset (meta_of_record r).

(** [put_batch]: the loop, then the count is bumped once. *)
Fixpoint put_batch_loop (rs : list (N * Record_))
    (acc : gmap N MetaRecord * gset N * N) : gmap N MetaRecord * gset N * N :=
  match rs with
  | [] => acc
  | (offset, r) :: rs =>
      let '(cache, dirty, added) := acc in
      let added := if decide (cache !! offset = None) then added + 1 else added in
      put_batch_loop rs (<[offset := meta_of_record r]> cache, {[offset]} ∪ dirty, added)
  end.
Definition put_batch (s : MetadataStore) (rs : list (N * Record_)) : MetadataStore :=
  match rs with
  | [] => s
  | _ =>
      let '(cache, d, added) := put_batch_loop rs (records s, dirty s, 0) in
      set_records cache d (if 0 <? added then record_count s + added else record_count s) s
  end.

Definition remove (s : MetadataStore) (offset : PointOffset) : MetadataStore :=
  let existed := bool_decide (is_Some (records s !! offset)) in
  let s1 := set_records (delete offset (records s)) ({[offset]} ∪ dirty s)
              (if existed then record_count s - 1 else record_count s) s in
  let s2 := if decide (is_Some (demotion s1 !! offset))
            then set_demotion (delete offset (demotion s1)) ({[offset]} ∪ demotion_dirty s1) s1
            else s1 in
  if decide (is_Some (access_history s2 !! offset))
  then set_history (delete offset (access_history s2)) ({[offset]} ∪ access_history_dirty s2) s2
  else s2.

(** [map.insert(k, v) != Some(v)] compares floats. *)
Definition set_demotion_factor (s : MetadataStore) (offset : PointOffset) (factor : f32)
    : MetadataStore :=
  let factor := f32_clamp factor f32_zero f32_one in
  if f32_geb factor NO_DEMOTION then
    let changed := bool_decide (is_Some (demotion s !! offset)) in
    set_demotion (delete offset (demotion s))
      (if changed then {[offset]} ∪ demotion_dirty s else demotion_dirty s) s
  else
    let changed := match demotion s !! offset with
                   | Some old => negb (f32_eqb old factor)
                   | None => true
                   end in
    set_demotion (<[offset := factor]> (demotion s))
      (if changed then {[offset]} ∪ demotion_dirty s else demotion_dirty s) s.

(** The ring after merging: ascending, the most recent [max_len]. *)
Definition merge_history (entry new_timestamps : list N) (max_len : N) : list N :=
  let entry := merge_sort N.le (entry ++ new_timestamps) in
  if max_len <? len entry then drop (N.to_nat (len entry - max_len)) entry else entry.

Definition append_access_history (s : MetadataStore) (offset : PointOffset)
    (new_timestamps : list N) (max_len : N) : MetadataStore :=
  match new_timestamps with
  | [] => s
  | _ =>
      set_history
        (<[offset := merge_history (history_of s offset) new_timestamps max_len]>
           (access_history s))
        ({[offset]} ∪ access_history_dirty s) s
  end.

Definition allocate_offset (s : MetadataStore) : N * MetadataStore :=
  (next_offset s, set_counters (wadd64 (next_offset s) 1) (next_seq s) s).
Definition allocate_seq (s : MetadataStore) : N * MetadataStore :=
  (next_seq s, set_counters (next_offset s) (wadd64 (next_seq s) 1) s).
Definition advance_offset_past (s : MetadataStore) (offset : N) : MetadataStore :=
  set_counters (N.max (next_offset s) (wadd64 offset 1)) (next_seq s) s.
Definition advance_seq_past (s : MetadataStore) (seq : N) : MetadataStore :=
  set_counters (next_offset s) (N.max (next_seq s) (wadd64 seq 1)) s.

(** ** The snapshot *)

(** One table of [write_snapshot]: write back each dirty entry, or remove it. *)
Fixpoint write_table {V W} (enc : V -> option W) (cache : gmap N V) (l : list N)
    (t : gmap N W) : Result StorageError (gmap N W) :=
  match l with
  | [] => Ok t
  | o :: l =>
      match cache !! o with
      | Some v => b ← ok_or (enc v) Serialize; write_table enc cache l (<[o := b]> t)
      | None => write_table enc cache l (delete o t)
      end
  end.

Definition write_snapshot (s : MetadataStore) (d dd hd : gset N) (last_applied : N)
    (commits : bool) : Result StorageError Database :=
  recs ← write_table b_serialize (records s) (elements d) (t_records (db s));
  dem ← write_table Some (demotion s) (elements dd) (t_demotion (db s));
  hist ← write_table b_serialize (access_history s) (elements hd) (t_access_history (db s));
  let meta := <["last_applied_seq" := u64_to_string last_applied]>
              (<["next_seq" := u64_to_string (next_seq s)]>
               (<["next_offset" := u64_to_string (next_offset s)]> (t_meta (db s)))) in
  if commits then
    Ok {| t_records := recs; t_meta := meta; t_meta_bin := t_meta_bin (db s);
          t_demotion := dem; t_access_history := hist |}
  else Err Redb.

Definition nothing_to_flush (s : MetadataStore) (last_applied : N) : bool :=
  bool_decide (dirty s = ∅) && bool_decide (demotion_dirty s = ∅)
  && bool_decide (access_history_dirty s = ∅)
  && bool_decide (last_applied_seq s = Some last_applied)
  && bool_decide (records s = ∅).

Definition flush (s : MetadataStore) (last_applied : N) (commits : bool)
    : MetadataStore * Result StorageError unit :=
  let d := dirty s in
  let dd := demotion_dirty s in
  let hd := access_history_dirty s in
  let s1 := set_dirty ∅ ∅ ∅ s in
  if nothing_to_flush s last_applied then (s1, Ok tt) else
  match write_snapshot s1 d dd hd last_applied commits with
  | Ok db' => (set_db db' s1, Ok tt)
  | Err e =>
      (set_dirty (d ∪ dirty s1) (dd ∪ demotion_dirty s1) (hd ∪ access_history_dirty s1) s1, Err e)
  end.

(** [save_meta], [save_meta_bytes], [remove_meta], [remove_meta_bytes],
    [save_sequences]: their own transactions. *)
Definition save_meta (s : MetadataStore) (key value : string) (commits : bool)
    : MetadataStore * Result StorageError unit :=
  if commits then (set_db (set_t_meta (<[key := value]> (t_meta (db s))) (db s)) s, Ok tt)
  else (s, Err Redb).
Definition save_meta_bytes (s : MetadataStore) (key : string) (value : list byte)
    (commits : bool) : MetadataStore * Result StorageError unit :=
  if commits then (set_db (set_t_meta_bin (<[key := value]> (t_meta_bin (db s))) (db s)) s, Ok tt)
  else (s, Err Redb).
Definition remove_meta (s : MetadataStore) (key : string) (commits : bool)
    : MetadataStore * Result StorageError unit :=
  match load_meta (db s) key with
  | None => (s, Ok tt)
  | Some _ =>
      if commits then (set_db (set_t_meta (delete key (t_meta (db s))) (db s)) s, Ok tt)
      else (s, Err Redb)
  end.
Definition remove_meta_bytes (s : MetadataStore) (key : string) (commits : bool)
    : MetadataStore * Result StorageError unit :=
  match load_meta_bytes s key with
  | None => (s, Ok tt)
  | Some _ =>
      if commits then (set_db (set_t_meta_bin (delete key (t_meta_bin (db s))) (db s)) s, Ok tt)
      else (s, Err Redb)
  end.
Definition save_sequences (s : MetadataStore) (commits1 commits2 : bool)
    : MetadataStore * Result StorageError unit :=
  match save_meta s "next_offset" (u64_to_string (next_offset s)) commits1 with
  | (s, Ok _) => save_meta s "next_seq" (u64_to_string (next_seq s)) commits2
  | r => r
  end.

(** ** The operations as steps *)

Inductive MsOp :=
  | OpPut (offset : N) (r : Record_)
  | OpPutMeta (offset : N) (m : MetaRecord)
  | OpPutBatch (rs : list (N * Record_))
  | OpRemove (offset : N)
  | OpSetDemotion (offset : N) (factor : f32)
  | OpAppendHistory (offset : N) (ts : list N) (max_len : N)
  | OpAllocateOffset
  | OpAllocateSeq
  | OpAdvanceOffset (offset : N)
  | OpAdvanceSeq (seq : N)
  | OpFlush (last_applied : N) (commits : bool)
  | OpSaveMeta (key value : string) (commits : bool)
  | OpSaveMetaBytes (key : string) (value : list byte) (commits : bool)
  | OpRemoveMeta (key : string) (commits : bool)
  | OpRemoveMetaBytes (key : string) (commits : bool)
  | OpSaveSequences (commits1 commits2 : bool).

Definition ms_step (s : MetadataStore) (op : MsOp) : MetadataStore :=
  match op with
  | OpPut o r => put s o r
  | OpPutMeta o m => put_meta s o m
  | OpPutBatch rs => put_batch s rs
  | OpRemove o => remove s o
  | OpSetDemotion o f => set_demotion_factor s o f
  | OpAppendHistory o ts n => append_access_history s o ts n
  | OpAllocateOffset => (allocate_offset s).2
  | OpAllocateSeq => (allocate_seq s).2
  | OpAdvanceOffset o => advance_offset_past s o
  | OpAdvanceSeq q => advance_seq_past s q
  | OpFlush la c => (flush s la c).1
  | OpSaveMeta k v c => (save_meta s k v c).1
  | OpSaveMetaBytes k v c => (save_meta_bytes s k v c).1
  | OpRemoveMeta k c => (remove_meta s k c).1
  | OpRemoveMetaBytes k c => (remove_meta_bytes s k c).1
  | OpSaveSequences c1 c2 => (save_sequences s c1 c2).1
  end.
Definition ms_run (s : MetadataStore) (ops : list MsOp) : MetadataStore := foldl ms_step s ops.

End metadata_store.

(** ** A cache in front of a table *)

(** Demotion factors are compared as floats: [-0.0] over [0.0] is no change. *)
Definition f32_same (a b : f32) : Prop := a = b \/ f32_eqb a b = true.

#[global] Instance f32_same_equivalence : Equivalence f32_same.
Proof.
  split.
  - intros a. by left.
  - intros a b [->|H]; [by left|right]. unfold f32_eqb in *.
    rewrite (andb_comm (negb (is_nan b))), Z.eqb_sym. done.
  - intros a b c [->|H] [->|H']; try (by left); try (by right). right.
    unfold f32_eqb in *. repeat rewrite andb_true_iff in *. rewrite !Z.eqb_eq in *.
    destruct H as [[? ?] ->], H' as [[? ?] ->]. done.
Qed.

(** Every table entry decodes, and away from the dirty set the table and the
    cache agree. *)
Definition table_ok {V W} (dec : W -> option V) (sim : V -> V -> Prop)
    (t : gmap N W) (cache : gmap N V) (d : gset N) : Prop :=
  (forall o w, t !! o = Some w -> is_Some (dec w)) /\
  (forall o, o ∉ d -> option_Forall2 sim (t !! o ≫= dec) (cache !! o)).

Lemma table_ok_mark {V W} (dec : W -> option V) sim o (t : gmap N W) c c' d :
  table_ok dec sim t c d -> (forall o', o' <> o -> c' !! o' = c !! o') ->
  table_ok dec sim t c' ({[o]} ∪ d).
Proof.
  intros [H1 H2] Hc. split; [done|]. intros o' Ho'. rewrite Hc by set_solver.
  apply H2. set_solver.
Qed.

Lemma write_table_total {V W} (enc : V -> option W) c l (t : gmap N W) :
  (forall v, is_Some (enc v)) -> is_ok (write_table enc c l t) = true.
Proof.
  intros He. revert t. induction l as [|k l IH]; intros t; simpl; [done|].
  destruct (c !! k) as [v|]; [|apply IH]. destruct (He v) as [w ->]. apply IH.
Qed.

Section table.
Context {V W : Type} (enc : V -> option W) (dec : W -> option V) (sim : V -> V -> Prop).
Context `{!Equivalence sim}.
Hypothesis dec_enc : forall v w, enc v = Some w -> dec w = Some v.
Implicit Types (t : gmap N W) (c : gmap N V).

Lemma table_ok_sim t c c' d :
  table_ok dec sim t c d -> (forall o, option_Forall2 sim (c !! o) (c' !! o)) ->
  table_ok dec sim t c' d.
Proof.
  intros [H1 H2] Hc. split; [done|]. intros o Ho. etrans; [by apply H2|done].
Qed.

Lemma write_table_spec c l t t' :
  write_table enc c l t = Ok t' ->
  (forall o w, t !! o = Some w -> is_Some (dec w)) ->
  (forall o w, t' !! o = Some w -> is_Some (dec w)) /\
  (forall o, o ∈ l -> t' !! o ≫= dec = c !! o) /\
  (forall o, o ∉ l -> t' !! o = t !! o).
Proof.
  revert t. induction l as [|k l IH]; intros t; simpl.
  { intros [= <-] Ht. set_solver. }
  destruct (c !! k) as [v|] eqn:Hk.
  - destruct (enc v) as [w|] eqn:Hw; [simpl|done]. intros Hr Ht.
    destruct (IH _ Hr) as (H1 & H2 & H3).
    { intros o w'. rewrite lookup_insert_Some. intros [[_ <-]|[_ ?]]; [|by eauto].
      rewrite (dec_enc v) by done. done. }
    split_and!; [done| |].
    + intros o Ho. destruct (decide (o ∈ l)) as [|Hl]; [by apply H2|].
      assert (o = k) as -> by set_solver. rewrite H3, lookup_insert_eq by done.
      rewrite Hk. simpl. by apply dec_enc.
    + intros o Ho. rewrite H3 by set_solver. apply lookup_insert_ne. set_solver.
  - intros Hr Ht. destruct (IH _ Hr) as (H1 & H2 & H3).
    { intros o w'. rewrite lookup_delete_Some. naive_solver. }
    split_and!; [done| |].
    + intros o Ho. destruct (decide (o ∈ l)) as [|Hl]; [by apply H2|].
      assert (o = k) as -> by set_solver. by rewrite H3, lookup_delete_eq, Hk by done.
    + intros o Ho. rewrite H3 by set_solver. apply lookup_delete_ne. set_solver.
Qed.

(** Writing back the dirty entries brings the table up to date. *)
Lemma write_table_ok c t t' d :
  table_ok dec sim t c d -> write_table enc c (elements d) t = Ok t' ->
  table_ok dec sim t' c ∅.
Proof.
  intros [H1 H2] Hw. destruct (write_table_spec _ _ _ _ Hw H1) as (H3 & H4 & H5).
  split; [done|]. intros o _. destruct (decide (o ∈ d)) as [Ho|Ho].
  - rewrite H4 by set_solver. done.
  - rewrite H5 by set_solver. by apply H2.
Qed.

End table.

Lemma load_loop_spec {V} `{Bincode V} (l : list (N * list byte)) :
  NoDup l.*1 -> (forall k b, (k, b) ∈ l -> is_Some (b_deserialize (A:=V) b)) ->
  exists m, load_loop (V:=V) l = Ok m /\
    (forall o, m !! o = (list_to_map l : gmap N _) !! o ≫= b_deserialize).
Proof.
  induction l as [|[k b] l IH]; simpl; intros Hnd Hdec.
  { exists ∅. split; [done|]. intros o. by rewrite !lookup_empty. }
  apply NoDup_cons in Hnd as [Hk Hnd].
  destruct (Hdec k b) as [v Hv]; [set_solver|]. rewrite Hv. simpl.
  destruct IH as (m & -> & Hm); [done|set_solver|]. simpl. eexists. split; [done|].
  intros o. destruct (decide (k = o)) as [->|Hne].
  - by rewrite !lookup_insert_eq.
  - by rewrite !lookup_insert_ne by done.
Qed.

Lemma load_loop_table {V} `{Bincode V} (t : gmap N (list byte)) :
  (forall o b, t !! o = Some b -> is_Some (b_deserialize (A:=V) b)) ->
  exists m, load_loop (V:=V) (map_to_list t) = Ok m /\ (forall o, m !! o = t !! o ≫= b_deserialize).
Proof.
  intros Ht. destruct (load_loop_spec (V:=V) (map_to_list t)) as (m & Hm & Hl).
  - apply NoDup_fst_map_to_list.
  - intros k b Hb. apply elem_of_map_to_list in Hb. eauto.
  - exists m. split; [done|]. intros o. by rewrite Hl, list_to_map_to_list.
Qed.

Lemma load_loop_inv {V} `{Bincode V} (t : gmap N (list byte)) m :
  load_loop (V:=V) (map_to_list t) = Ok m ->
  (forall o b, t !! o = Some b -> is_Some (b_deserialize (A:=V) b)) /\
  (forall o, m !! o = t !! o ≫= b_deserialize).
Proof.
  intros Hm.
  assert (Hdec : forall o b, t !! o = Some b -> is_Some (b_deserialize (A:=V) b)).
  { setoid_rewrite <- elem_of_map_to_list. revert m Hm.
    induction (map_to_list t) as [|[k b] l IH]; simpl; intros m Hm; [set_solver|].
    destruct (b_deserialize b) as [v|] eqn:Hv; [|done]. simpl in Hm.
    destruct (load_loop l) as [m'|] eqn:Hl; [|done].
    intros o b' [[= -> ->]|Hin]%elem_of_cons; [by rewrite Hv|by eapply IH]. }
  split; [done|]. destruct (load_loop_table t Hdec) as (m' & Hm' & Hlk).
  rewrite Hm in Hm'. by injection Hm' as ->.
Qed.

(** ** The invariant *)

Record ms_wf `{Bincode MetaRecord, Bincode (list N)} (s : MetadataStore) : Prop := {
  wf_records : table_ok b_deserialize eq (t_records (db s)) (records s) (dirty s);
  wf_demotion : table_ok Some f32_same (t_demotion (db s)) (demotion s) (demotion_dirty s);
  wf_history :
    table_ok b_deserialize eq (t_access_history (db s)) (access_history s) (access_history_dirty s);
  wf_count : record_count s = N.of_nat (size (records s));
}.

Create HintDb ms.
#[export] Hint Resolve table_ok_mark : ms.
#[export] Hint Extern 1 (table_ok _ _ _ _ _) =>
  (first [eapply wf_records | eapply wf_demotion | eapply wf_history]; eassumption) : ms.
#[export] Hint Extern 1 (record_count _ = _) => (eapply wf_count; eassumption) : ms.
#[export] Hint Extern 3 (_ !! _ = _ !! _) => (simplify_map_eq; reflexivity) : ms.

Section metadata_proofs.
Context `{BM : Bincode MetaRecord, BH : Bincode (list N), !BincodeOk MetaRecord, !BincodeOk (list N)}.

Lemma count_insert (m : gmap N MetaRecord) o v :
  N.of_nat (size (<[o := v]> m)) =
  if decide (m !! o = None) then N.of_nat (size m) + 1 else N.of_nat (size m).
Proof.
  case_decide as Ho.
  - rewrite map_size_insert_None by done. lia.
  - apply not_eq_None_Some in Ho. by rewrite map_size_insert_Some.
Qed.

Lemma put_meta_wf s o m : ms_wf s -> ms_wf (put_meta s o m).
Proof.
  intros Hs. unfold put_meta. split; simpl; eauto with ms.
  rewrite count_insert, (wf_count s Hs). by repeat case_decide; repeat case_bool_decide.
Qed.

Lemma put_batch_loop_wf rs s cache d added :
  table_ok b_deserialize eq (t_records (db s)) cache d ->
  match put_batch_loop rs (cache, d, added) with
  | (cache', d', added') =>
      table_ok b_deserialize eq (t_records (db s)) cache' d' /\
      added' + N.of_nat (size cache) = added + N.of_nat (size cache')
  end.
Proof.
  revert cache d added. induction rs as [|[o r] rs IH]; intros cache d added Hok; simpl; [done|].
  match goal with |- context [put_batch_loop rs (?c, ?d', ?a)] => specialize (IH c d' a) end.
  destruct (put_batch_loop rs _) as [[c' d'] a']. destruct IH as [IH1 IH2]; [eauto with ms|].
  split; [done|]. rewrite count_insert in IH2. case_decide; lia.
Qed.

Lemma put_batch_wf s rs : ms_wf s -> ms_wf (put_batch s rs).
Proof.
  intros Hs. unfold put_batch. destruct rs as [|r rs]; [done|].
  pose proof (put_batch_loop_wf (r :: rs) s (records s) (dirty s) 0 (wf_records s Hs)) as Hl.
  destruct (put_batch_loop _ _) as [[c d] a]. destruct Hl as [Hl1 Hl2].
  split; simpl; eauto with ms. rewrite (wf_count s Hs).
  destruct (N.ltb_spec 0 a); lia.
Qed.

Lemma remove_wf s o : ms_wf s -> ms_wf (remove s o).
Proof.
  intros Hs. unfold remove.
  assert (Hc : (if bool_decide (is_Some (records s !! o)) then record_count s - 1 else record_count s)
               = N.of_nat (size (delete o (records s)))).
  { rewrite (wf_count s Hs). case_bool_decide as Ho.
    - rewrite map_size_delete_Some by done. lia.
    - by rewrite delete_id by by apply eq_None_not_Some. }
  repeat case_decide; split; simpl; eauto with ms.
Qed.

Lemma set_demotion_factor_wf s o f : ms_wf s -> ms_wf (set_demotion_factor s o f).
Proof.
  intros Hs. unfold set_demotion_factor. set (f' := f32_clamp f f32_zero f32_one).
  clearbody f'. pose proof (wf_demotion s Hs) as Hd.
  case_match.
  - case_bool_decide as Ho; split; simpl; eauto with ms.
    by rewrite delete_id by by apply eq_None_not_Some.
  - destruct (demotion s !! o) as [old|] eqn:Hold; [|split; simpl; eauto with ms].
    destruct (f32_eqb old f') eqn:He; split; simpl; eauto with ms.
    eapply table_ok_sim; [apply _|done|]. intros o'.
    destruct (decide (o = o')) as [<-|]; simplify_map_eq; [constructor; by right|reflexivity].
Qed.

Lemma append_access_history_wf s o ts n : ms_wf s -> ms_wf (append_access_history s o ts n).
Proof.
  intros Hs. unfold append_access_history. destruct ts; [done|]. split; simpl; eauto with ms.
Qed.

Lemma write_snapshot_ok s d dd hd la db' :
  write_snapshot s d dd hd la true = Ok db' ->
  write_table b_serialize (records s) (elements d) (t_records (db s)) = Ok (t_records db') /\
  write_table Some (demotion s) (elements dd) (t_demotion (db s)) = Ok (t_demotion db') /\
  write_table b_serialize (access_history s) (elements hd) (t_access_history (db s))
    = Ok (t_access_history db') /\
  t_meta db' = <["last_applied_seq" := u64_to_string la]>
    (<["next_seq" := u64_to_string (next_seq s)]>
     (<["next_offset" := u64_to_string (next_offset s)]> (t_meta (db s)))).
Proof.
  unfold write_snapshot.
  destruct (write_table b_serialize (records s) _ _) as [r|]; [simpl|done].
  destruct (write_table Some _ _ _) as [de|]; [simpl|done].
  destruct (write_table b_serialize (access_history s) _ _) as [h|]; [simpl|done].
  by intros [= <-].
Qed.

Lemma write_snapshot_abort s d dd hd la db' :
  write_snapshot s d dd hd la false <> Ok db'.
Proof.
  unfold write_snapshot.
  destruct (write_table b_serialize (records s) _ _) as [r|]; [simpl|done].
  destruct (write_table Some _ _ _) as [de|]; [simpl|done].
  by destruct (write_table b_serialize (access_history s) _ _) as [h|].
Qed.

Lemma set_dirty_id s : set_dirty (dirty s) (demotion_dirty s) (access_history_dirty s) s = s.
Proof. by destruct s. Qed.

(** A failed flush leaves the store as it was. *)
Lemma flush_err s la c e s' : flush s la c = (s', Err e) -> s' = s.
Proof.
  unfold flush. destruct (nothing_to_flush s la); [done|].
  destruct (write_snapshot _ _ _ _ _ _); [done|]. intros [= <- _]. simpl.
  rewrite !union_empty_r_L. by destruct s.
Qed.

(** A successful one either had nothing to write or committed a snapshot. *)
Lemma flush_ok_inv s la c s' :
  flush s la c = (s', Ok tt) ->
  (nothing_to_flush s la = true /\ s' = set_dirty ∅ ∅ ∅ s) \/
  (nothing_to_flush s la = false /\ c = true /\ exists db',
     write_snapshot (set_dirty ∅ ∅ ∅ s) (dirty s) (demotion_dirty s) (access_history_dirty s) la true
       = Ok db' /\ s' = set_db db' (set_dirty ∅ ∅ ∅ s)).
Proof.
  unfold flush. destruct (nothing_to_flush s la); [intros [= <-]; by left|].
  destruct (write_snapshot _ _ _ _ _ _) as [db'|] eqn:Hw; [|done]. intros [= <-]. right.
  destruct c; [eauto 6|]. by apply write_snapshot_abort in Hw.
Qed.

Lemma nothing_to_flush_true s la :
  nothing_to_flush s la = true ->
  dirty s = ∅ /\ demotion_dirty s = ∅ /\ access_history_dirty s = ∅ /\
  last_applied_seq s = Some la /\ records s = ∅.
Proof.
  unfold nothing_to_flush. rewrite !andb_true_iff. intros [[[[? ?] ?] ?] ?].
  by repeat match goal with H : bool_decide _ = true |- _ => apply bool_decide_eq_true in H end.
Qed.

(** After a successful flush the invariant holds with nothing dirty. *)
Lemma flush_clean s la c s' :
  ms_wf s -> flush s la c = (s', Ok tt) ->
  ms_wf s' /\ dirty s' = ∅ /\ demotion_dirty s' = ∅ /\ access_history_dirty s' = ∅ /\
  records s' = records s /\ demotion s' = demotion s /\ access_history s' = access_history s.
Proof.
  intros Hs Hf. apply flush_ok_inv in Hf as [[Hn ->]|(Hn & -> & db' & Hw & ->)].
  - apply nothing_to_flush_true in Hn as (E1 & E2 & E3 & _).
    pose proof (wf_records s Hs) as H1. pose proof (wf_demotion s Hs) as H2.
    pose proof (wf_history s Hs) as H3. rewrite E1 in H1. rewrite E2 in H2. rewrite E3 in H3.
    split_and!; try done. split; simpl; eauto with ms.
  - apply write_snapshot_ok in Hw as (W1 & W2 & W3 & _). simpl in *.
    split_and!; try done. split; simpl; eauto with ms.
    + eapply write_table_ok; eauto using b_roundtrip with ms. apply _.
    + eapply (write_table_ok Some); eauto with ms. apply _.
    + eapply write_table_ok; eauto using b_roundtrip with ms. apply _.
Qed.

Lemma flush_wf s la c : ms_wf s -> ms_wf (flush s la c).1.
Proof.
  intros Hs. destruct (flush s la c) as [s' [[]|e]] eqn:Hf; simpl.
  - by eapply flush_clean.
  - by apply flush_err in Hf as ->.
Qed.

Lemma set_db_meta_wf s d :
  ms_wf s -> t_records d = t_records (db s) -> t_demotion d = t_demotion (db s) ->
  t_access_history d = t_access_history (db s) -> ms_wf (set_db d s).
Proof. intros [? ? ? ?] E1 E2 E3. by split; simpl; rewrite ?E1, ?E2, ?E3. Qed.

Lemma set_counters_wf s o q : ms_wf s -> ms_wf (set_counters o q s).
Proof. by intros [? ? ? ?]. Qed.

Lemma save_meta_wf s k v c : ms_wf s -> ms_wf (save_meta s k v c).1.
Proof. intros Hs. destruct c; simpl; [by apply set_db_meta_wf|done]. Qed.

Lemma ms_step_wf s op : ms_wf s -> ms_wf (ms_step s op).
Proof.
  intros Hs. destruct op; simpl.
  - by apply put_meta_wf.
  - by apply put_meta_wf.
  - by apply put_batch_wf.
  - by apply remove_wf.
  - by apply set_demotion_factor_wf.
  - by apply append_access_history_wf.
  - by apply set_counters_wf.
  - by apply set_counters_wf.
  - by apply set_counters_wf.
  - by apply set_counters_wf.
  - by apply flush_wf.
  - by apply save_meta_wf.
  - destruct commits; simpl; [by apply set_db_meta_wf|done].
  - unfold remove_meta. repeat case_match; simpl; first [done|by apply set_db_meta_wf].
  - unfold remove_meta_bytes. repeat case_match; simpl; first [done|by apply set_db_meta_wf].
  - unfold save_sequences.
    pose proof (save_meta_wf s "next_offset" (u64_to_string (next_offset s)) commits1 Hs) as H1.
    destruct (save_meta s _ _ _) as [s' [|]]; [by apply save_meta_wf|done].
Qed.

Lemma open_ms_wf opened s : open opened = Ok s -> ms_wf s.
Proof.
  unfold open. destruct opened as [d| | |]; try done.
  destruct (load_records d) as [r|] eqn:Hr; [simpl|done].
  destruct (load_access_history d) as [h|] eqn:Hh; [simpl|done].
  intros [= <-]. apply load_loop_inv in Hr as [Hr1 Hr2], Hh as [Hh1 Hh2].
  split; simpl; [| | |done].
  - split; [done|]. intros o _. by rewrite Hr2.
  - split; [done|]. intros o _. unfold load_demotion. by destruct (t_demotion d !! o); constructor.
  - split; [done|]. intros o _. by rewrite Hh2.
Qed.

Lemma ms_run_wf s ops : ms_wf s -> ms_wf (ms_run s ops).
Proof.
  revert s. induction ops as [|op ops IH]; intros s Hs; simpl; [done|].
  by apply IH, ms_step_wf.
Qed.

(** A store with nothing dirty reopens to the same contents. *)
Lemma open_clean s :
  ms_wf s -> dirty s = ∅ -> demotion_dirty s = ∅ -> access_history_dirty s = ∅ ->
  exists s', open (DbOpened (db s)) = Ok s' /\ db s' = db s /\
    records s' = records s /\ access_history s' = access_history s /\
    (forall o, option_Forall2 f32_same (demotion s' !! o) (demotion s !! o)).
Proof.
  intros Hs E1 E2 E3. destruct (wf_records s Hs) as [R1 R2], (wf_history s Hs) as [H1 H2],
    (wf_demotion s Hs) as [_ D2]. rewrite E1 in R2. rewrite E2 in D2. rewrite E3 in H2.
  destruct (load_loop_table _ R1) as (r & Hr & Hrl), (load_loop_table _ H1) as (h & Hh & Hhl).
  unfold open, load_records, load_access_history. rewrite Hr. simpl. rewrite Hh. simpl.
  eexists. split_and!; [done|done|..]; simpl.
  - apply map_eq. intros o. rewrite Hrl. specialize (R2 o ltac:(set_solver)).
    by destruct R2 as [? ? ->|].
  - apply map_eq. intros o. rewrite Hhl. specialize (H2 o ltac:(set_solver)).
    by destruct H2 as [? ? ->|].
  - intros o. specialize (D2 o ltac:(set_solver)). unfold load_demotion.
    by destruct (t_demotion (db s) !! o).
Qed.

Lemma flush_counters s la c s' :
  flush s la c = (s', Ok tt) -> la < U64 ->
  last_applied_seq s' = Some la /\
  (nothing_to_flush s la = false ->
     load_meta (db s') "next_offset" = Some (u64_to_string (next_offset s)) /\
     load_meta (db s') "next_seq" = Some (u64_to_string (next_seq s))).
Proof.
  intros Hf Hla. apply flush_ok_inv in Hf as [[Hn ->]|(Hn & -> & db' & Hw & ->)].
  - split; [|by rewrite Hn]. apply nothing_to_flush_true in Hn as (_ & _ & _ & H & _). exact H.
  - apply write_snapshot_ok in Hw as (_ & _ & _ & Hm). simpl in Hm.
    unfold last_applied_seq, load_meta. simpl. rewrite Hm. simplify_map_eq.
    by rewrite parse_u64_to_string.
Qed.

Lemma open_counters d s o q :
  open (DbOpened d) = Ok s -> o < U64 -> q < U64 ->
  load_meta d "next_offset" = Some (u64_to_string o) ->
  load_meta d "next_seq" = Some (u64_to_string q) ->
  next_offset s = o /\ next_seq s = q.
Proof.
  intros Ho Ho' Hq E1 E2. unfold open in Ho. rewrite E1, E2 in Ho.
  destruct (load_records d); [simpl in Ho|done].
  destruct (load_access_history d); [simpl in Ho|done].
  rewrite !parse_u64_to_string in Ho by done. by injection Ho as <-.
Qed.

(** ** Theorems *)

(** C16: after any sequence of metadata operations on a store that was opened,
    commits that fail included, every table entry still decodes, the tables and
    the cache agree on every entry that is not marked dirty, and [record_count]
    is the number of live records. *)
Theorem metadata_invariant opened s ops :
  open opened = Ok s -> ms_wf (ms_run s ops).
Proof. intros Ho. by eapply ms_run_wf, open_ms_wf. Qed.

(** whatever was done since the store was opened, once [flush] succeeds,
    reopening the database gives back the records, access histories and (as
    floats) demotion factors of the cache, the flushed [last_applied_seq], and,
    unless there was nothing to write, both counters. *)
Theorem metadata_flush_reopen opened s0 ops la commits s' :
  open opened = Ok s0 ->
  let s := ms_run s0 ops in
  flush s la commits = (s', Ok tt) ->
  la < U64 -> next_offset s < U64 -> next_seq s < U64 ->
  exists s'', open (DbOpened (db s')) = Ok s'' /\
    records s'' = records s /\ access_history s'' = access_history s /\
    (forall o, f32_same (demotion_factor s'' o) (demotion_factor s o)) /\
    last_applied_seq s'' = Some la /\
    (nothing_to_flush s la = false -> next_offset s'' = next_offset s /\ next_seq s'' = next_seq s).
Proof.
  intros Ho s Hf Hla Hno Hns. assert (Hs : ms_wf s) by by eapply ms_run_wf, open_ms_wf.
  destruct (flush_clean s la commits s' Hs Hf) as (Hs' & E1 & E2 & E3 & Er & Ed & Eh).
  destruct (flush_counters s la commits s' Hf Hla) as [Hl Hc].
  destruct (open_clean s' Hs' E1 E2 E3) as (s'' & Hop & Edb & Er' & Eh' & Ed').
  exists s''. split_and!; [done|congruence|congruence|..].
  - intros o. specialize (Ed' o). unfold demotion_factor. rewrite <- Ed.
    destruct Ed'; simpl; [done|reflexivity].
  - unfold last_applied_seq in *. by rewrite Edb.
  - intros Hn. destruct (Hc Hn). by eapply open_counters.
Qed.

(** a flush whose transaction does not commit, or that fails to encode a
    record, changes nothing: the dirty sets are put back, so the next flush
    writes exactly what this one would have written. *)
Theorem metadata_flush_failure s la commits s' e :
  flush s la commits = (s', Err e) ->
  s' = s /\ (commits = false \/ e = Serialize) /\ flush s' la true = flush s la true.
Proof.
  intros Hf. pose proof (flush_err _ _ _ _ _ Hf) as ->. split_and!; [done| |done].
  revert Hf. unfold flush. destruct (nothing_to_flush s la); [done|].
  destruct (write_snapshot _ _ _ _ _ _) as [|e'] eqn:Hw; [done|]. intros [= _ ->].
  destruct commits; [right|by left]. revert Hw. unfold write_snapshot.
  assert (He : forall V (B : V -> option (list byte)) c l t e',
    write_table B c l t = Err e' -> e' = Serialize).
  { intros V B c l. induction l as [|k l IH]; intros t e'; simpl; [done|].
    destruct (c !! k) as [v|]; [|apply IH]. destruct (B v); simpl; [apply IH|naive_solver]. }
  assert (Hd : forall c l t, is_ok (write_table (V:=f32) Some c l t) = true)
    by (intros; apply write_table_total; eauto).
  specialize (Hd (demotion (set_dirty ∅ ∅ ∅ s)) (elements (demotion_dirty s))
    (t_demotion (db (set_dirty ∅ ∅ ∅ s)))).
  destruct (write_table b_serialize (records _) _ _) eqn:H1; simpl; [|intros [= ->]; eauto].
  destruct (write_table Some _ _ _); simpl; [|done].
  destruct (write_table b_serialize (access_history _) _ _) eqn:H3; simpl; [done|].
  intros [= ->]; eauto.
Qed.

End metadata_proofs.

(** [append_access_history] touches one ring only, and that ring becomes the
    [max_len] most recent timestamps of the old ring and the new ones together,
    in ascending order: what is cut off is never later than what is kept. *)
Theorem access_history_ring s o ts max_len :
  ts <> [] ->
  let s' := append_access_history s o ts max_len in
  let ring := history_of s' o in
  Sorted N.le ring /\
  len ring = N.min max_len (len (history_of s o) + len ts) /\
  (exists cut, cut ++ ring ≡ₚ history_of s o ++ ts /\
     (forall x y, x ∈ cut -> y ∈ ring -> x <= y)) /\
  o ∈ access_history_dirty s' /\
  (forall o', o' <> o -> history_of s' o' = history_of s o').
Proof.
  intros Hts s' ring.
  assert (Hs' : s' = set_history (<[o := merge_history (history_of s o) ts max_len]>
      (access_history s)) ({[o]} ∪ access_history_dirty s) s)
    by (unfold s', append_access_history; by destruct ts).
  set (all := merge_sort N.le (history_of s o ++ ts)).
  assert (Hall : len all = len (history_of s o) + len ts).
  { rewrite <- len_app. unfold len. f_equal. apply Permutation_length, merge_sort_Permutation. }
  assert (Hring : exists k, ring = drop k all /\ N.of_nat k = len all - max_len).
  { exists (N.to_nat (len all - max_len)). split; [|lia].
    unfold ring, history_of at 1. rewrite Hs'. simpl. rewrite lookup_insert_eq. simpl.
    unfold merge_history. fold all. destruct (N.ltb_spec max_len (len all)) as [|Hle]; [done|].
    by replace (len all - max_len) with 0 by lia. }
  destruct Hring as (k & -> & Hk).
  assert (Hss : StronglySorted N.le (take k all ++ drop k all)).
  { rewrite take_drop. apply Sorted_StronglySorted; [apply _|].
    apply Sorted_merge_sort. intros x y. lia. }
  split_and!.
  - apply StronglySorted_app in Hss as (_ & _ & H). by apply StronglySorted_Sorted.
  - unfold len in *. rewrite length_drop. lia.
  - exists (take k all). rewrite take_drop. split; [apply merge_sort_Permutation|].
    intros x y Hx Hy. apply StronglySorted_app in Hss as (H & _). by apply H.
  - rewrite Hs'. simpl. set_solver.
  - intros o' Ho'. rewrite Hs'. unfold history_of. simpl. by rewrite lookup_insert_ne.
Qed.

(** ** Concrete instances *)

Module Examples.

#[export] Instance ex_bm : Bincode MetaRecord := tok_bincode MetaRecord.
#[export] Instance ex_bm_ok : BincodeOk MetaRecord := tok_bincode_ok MetaRecord.
#[export] Instance ex_bh : Bincode (list N) := tok_bincode (list N).
#[export] Instance ex_bh_ok : BincodeOk (list N) := tok_bincode_ok (list N).

Definition ex_rec (i : string) (seq : N) : MetaRecord := {|
  id := i; text := "t"; importance := f32_one; concepts := []; created_at := 5;
  insert_seq := seq; access_count := 0; last_accessed := 0; tier := Hot;
  payload := None; scope := None; source_role := None |}.

Definition ex_store : MetadataStore := {|
  db := empty_db; records := ∅; dirty := ∅; demotion := ∅; demotion_dirty := ∅;
  access_history := ∅; access_history_dirty := ∅; next_offset := 0; next_seq := 1;
  record_count := 0 |}.

Definition ex_half : f32 := 0x3F000000.

Definition ex_steps : list MsOp :=
  [OpPutMeta 0 (ex_rec "a" 1); OpPutMeta 1 (ex_rec "b" 2); OpFlush 2 true;
   OpSetDemotion 1 ex_half; OpAppendHistory 1 [9; 4; 6] 2; OpRemove 0;
   OpAdvanceOffset 1; OpFlush 3 false].

End Examples.
Import Examples.

Lemma metadata_invariant_witness :
  open (DbOpened empty_db) = Ok ex_store /\ ms_wf (ms_run ex_store ex_steps) /\
  elements (dirty (ms_run ex_store ex_steps)) = [0] /\
  history_of (ms_run ex_store ex_steps) 1 = [6; 9].
Proof.
  split_and!; [reflexivity| |vm_compute; reflexivity..].
  apply (metadata_invariant (DbOpened empty_db) ex_store ex_steps). reflexivity.
Defined.

Lemma metadata_flush_reopen_witness :
  exists s'', open (DbOpened (db (flush (ms_run ex_store ex_steps) 3 true).1)) = Ok s'' /\
    records s'' = {[ 1 := ex_rec "b" 2 ]} /\ history_of s'' 1 = [6; 9] /\
    last_applied_seq s'' = Some 3 /\ next_offset s'' = 2.
Proof.
  destruct (metadata_flush_reopen (DbOpened empty_db) ex_store ex_steps 3 true
    (flush (ms_run ex_store ex_steps) 3 true).1) as (s'' & H1 & H2 & H3 & _ & H5 & H6).
  - reflexivity.
  - vm_compute. reflexivity.
  - reflexivity.
  - vm_compute. reflexivity.
  - vm_compute. reflexivity.
  - exists s''. split_and!; [exact H1|rewrite H2; vm_compute; reflexivity| |exact H5|].
    + unfold history_of. rewrite H3. vm_compute. reflexivity.
    + destruct H6 as [H6 _]; [vm_compute; reflexivity|]. rewrite H6. vm_compute. reflexivity.
Defined.

Lemma metadata_flush_failure_witness :
  (flush (put_meta ex_store 0 (ex_rec "a" 1)) 7 false).2 = Err Redb /\
  (flush (put_meta ex_store 0 (ex_rec "a" 1)) 7 false).1 = put_meta ex_store 0 (ex_rec "a" 1).
Proof.
  split; [vm_compute; reflexivity|].
  apply (metadata_flush_failure (put_meta ex_store 0 (ex_rec "a" 1)) 7 false
    (flush (put_meta ex_store 0 (ex_rec "a" 1)) 7 false).1 Redb).
  vm_compute. reflexivity.
Defined.

Lemma access_history_ring_witness :
  Sorted N.le (history_of (append_access_history ex_store 4 [8; 3; 5] 2) 4) /\
  history_of (append_access_history ex_store 4 [8; 3; 5] 2) 4 = [5; 8].
Proof.
  split; [apply (access_history_ring ex_store 4 [8; 3; 5] 2); discriminate|].
  vm_compute. reflexivity.
Defined.
