(* ===== verification/AccessCounters.v ===== *)
(** * Access counters, [crates/turbomemory_storage/src/access_counters.rs]

    Per-record access counts and a ring of the last access times, kept in memory
    and drained into the metadata store on flush. The theorem relates the ring
    buffer to the list of all accesses: nothing the metadata store would have
    kept is lost by the ring. [actr_activation], a formula over [f64::powf] and
    [f64::ln], is not modelled. *)

From S2P Require Import Prelude Core Record MetadataStore.

(** ** Data and operations *)

Definition DEFAULT_ACCESS_HISTORY_LEN : N := 8.
Definition MAX_ACCESS_HISTORY_LEN : N := 32.

Definition clamp_history_len (n : N) : N := N.min (N.max n 1) MAX_ACCESS_HISTORY_LEN.

Record AccessEntry := {
  count : N;
  e_last_accessed : N;
  ring : list N;
  ring_cursor : N;
}.

Record AccessCounters := {
  counters : gmap N AccessEntry;
  history_len : N;
}.

Definition new_entry (history_len : N) : AccessEntry := {|
  count := 0; e_last_accessed := 0; ring := replicate (N.to_nat history_len) 0;
  ring_cursor := 0 |}.

Definition new (history_len : N) : AccessCounters :=
  {| counters := ∅; history_len := clamp_history_len history_len |}.

(** The updates of one entry in [bump]. *)
Definition bump_entry (e : AccessEntry) (now : N) : AccessEntry :=
  let slot := ring_cursor e mod len (ring e) in
  {| count := wadd64 (count e) 1; e_last_accessed := now;
     ring := <[N.to_nat slot := now]> (ring e);
     ring_cursor := wadd64 (ring_cursor e) 1 |}.

Definition bump (c : AccessCounters) (offset : PointOffset) (now : N) : AccessCounters :=
  let entry := default (new_entry (history_len c)) (counters c !! offset) in
  {| counters := <[offset := bump_entry entry now]> (counters c);
     history_len := history_len c |}.

Definition bump_record (m : MetaRecord) (count last : N) : MetaRecord := {|
  id := id m; text := text m; importance := importance m; concepts := concepts m;
  created_at := created_at m; insert_seq := insert_seq m;
  access_count := wadd64 (access_count m) count;
  last_accessed := N.max (last_accessed m) last;
  tier := tier m; payload := payload m; scope := scope m; source_role := source_role m |}.

(** One turn of the loop of [drain_into]. *)
Definition drain_one (history_len : N) (meta : MetadataStore) (oe : N * AccessEntry)
    : MetadataStore :=
  let '(offset, entry) := oe in
  if count entry =? 0 then meta else
  match MetadataStore.get meta offset with
  | None => meta
  | Some meta_rec =>
      let meta := put_meta meta offset
                    (bump_record meta_rec (count entry) (e_last_accessed entry)) in
      let stamps := merge_sort N.le (filter (fun ts => ts <> 0) (ring entry)) in
      append_access_history meta offset stamps history_len
  end.

Definition drain_into (c : AccessCounters) (meta : MetadataStore)
    : AccessCounters * MetadataStore :=
  ({| counters := ∅; history_len := history_len c |},
   foldl (drain_one (history_len c)) meta (map_to_list (counters c))).

(** A sequence of accesses. *)
Definition bump_all (c : AccessCounters) (l : list (N * N)) : AccessCounters :=
  foldl (fun c ot => bump c ot.1 ot.2) c l.

(** The times at which [offset] was accessed, in order. *)
Definition times_of (offset : N) (l : list (N * N)) : list N :=
  (filter (fun ot => ot.1 = offset) l).*2.

(** ** The ring *)

Definition bump_entries (e : AccessEntry) (ts : list N) : AccessEntry := foldl bump_entry e ts.

Lemma nat_mod_N a b : (b <> 0)%nat -> N.to_nat (N.of_nat a mod N.of_nat b) = (a mod b)%nat.
Proof. intros. rewrite <- Nat2N.inj_mod. lia. Qed.

Lemma Nat_mod_step K n i :
  (i + 1 < K)%nat -> (n mod K)%nat = ((n + 1 + i) mod K)%nat -> False.
Proof.
  intros Hi E. pose proof (Nat.div_mod_eq n K). pose proof (Nat.div_mod_eq (n + 1 + i) K).
  assert (i + 1 = K * ((n + 1 + i) / K - n / K))%nat by nia. nia.
Qed.

(** The entry after the accesses [ts]: position [n + i] of the zero-padded
    sequence of accesses sits at slot [(n + i) mod K]. *)
Lemma bump_entries_inv (K : nat) ts :
  (K <> 0)%nat -> N.of_nat (length ts) < U64 ->
  let e := bump_entries (new_entry (N.of_nat K)) ts in
  let n := length ts in
  count e = N.of_nat n /\ ring_cursor e = N.of_nat n /\ length (ring e) = K /\
  e_last_accessed e = default 0 (last ts) /\
  (forall i, (i < K)%nat ->
     ring e !! ((n + i) mod K)%nat = (replicate K 0 ++ ts) !! (n + i)%nat).
Proof.
  intros HK. induction ts as [|t ts IH] using rev_ind; intros Hn e n.
  - subst e n. simpl. rewrite Nat2N.id, length_replicate, app_nil_r. split_and!; try done.
    intros i Hi. by rewrite Nat.mod_small.
  - rewrite length_app in Hn. simpl in Hn.
    destruct IH as (Hc & Hr & Hl & _ & Hi); [lia|]. subst e n.
    unfold bump_entries. rewrite foldl_snoc. fold (bump_entries (new_entry (N.of_nat K)) ts).
    set (e := bump_entries _ ts) in *. unfold bump_entry. simpl. rewrite length_app. simpl.
    rewrite Hc, Hr, last_snoc. unfold wadd64. rewrite N.mod_small by lia.
    split_and!; [lia|lia|by rewrite length_insert|reflexivity|].
    intros i HiK. unfold len. rewrite Hl, nat_mod_N by done. rewrite app_assoc.
    destruct (decide (i = K - 1)%nat) as [->|Hne].
    + replace (length ts + 1 + (K - 1))%nat with (length ts + 1 * K)%nat by lia.
      rewrite Nat.Div0.mod_add, list_lookup_insert_eq
        by (rewrite Hl; by apply Nat.mod_upper_bound).
      rewrite lookup_app_r by (rewrite length_app, length_replicate; lia).
      rewrite length_app, length_replicate.
      by replace (length ts + 1 * K - (K + length ts))%nat with 0%nat by lia.
    + rewrite list_lookup_insert_ne; [|].
      * replace (length ts + 1 + i)%nat with (length ts + (i + 1))%nat by lia.
        rewrite Hi by lia. symmetry. apply lookup_app_l.
        rewrite length_app, length_replicate. lia.
      * intros E. apply (Nat_mod_step K (length ts) i); lia.
Qed.

(** As a multiset, the ring holds the last [K] accesses, padded with zeros. *)
Lemma bump_entries_ring (K : nat) ts :
  (K <> 0)%nat -> N.of_nat (length ts) < U64 ->
  ring (bump_entries (new_entry (N.of_nat K)) ts)
  ≡ₚ drop (length ts) (replicate K 0 ++ ts).
Proof.
  intros HK Hn. destruct (bump_entries_inv K ts HK Hn) as (_ & _ & Hl & _ & Hi).
  symmetry. apply Permutation_inj. split.
  { rewrite Hl, length_drop, length_app, length_replicate. lia. }
  exists (fun i => if decide (i < K)%nat then ((length ts + i) mod K)%nat else i). split.
  - intros i j. pose proof (Nat.mod_upper_bound (length ts + i) K HK).
    pose proof (Nat.mod_upper_bound (length ts + j) K HK).
    repeat case_decide; try lia. intros E.
    destruct (lt_eq_lt_dec i j) as [[Hij| ->]|Hij]; [exfalso|done|exfalso].
    + apply (Nat_mod_step K (length ts + i) (j - i - 1)); [lia|]. rewrite E. f_equal. lia.
    + apply (Nat_mod_step K (length ts + j) (i - j - 1)); [lia|]. rewrite <- E. f_equal. lia.
  - intros i. rewrite lookup_drop. case_decide; [by rewrite Hi|].
    rewrite !lookup_ge_None_2; [done|rewrite Hl; lia|].
    rewrite length_app, length_replicate. lia.
Qed.

(** Dropping the zero slots leaves the last [K] accesses. *)
Lemma ring_stamps (K : nat) ts :
  (K <> 0)%nat -> N.of_nat (length ts) < U64 -> Forall (fun t => t <> 0) ts ->
  filter (fun t => t <> 0) (ring (bump_entries (new_entry (N.of_nat K)) ts))
  ≡ₚ drop (length ts - K) ts.
Proof.
  intros HK Hn Hts. rewrite (bump_entries_ring K ts HK Hn).
  assert (Hz : forall k, filter (fun t : N => t <> 0) (replicate k 0) = []).
  { intros k. induction k as [|k IH]; simpl; [done|]. by rewrite filter_cons_False, IH by lia. }
  assert (Hf : forall l : list N, Forall (fun t => t <> 0) l -> filter (fun t => t <> 0) l = l).
  { intros l Hl. induction Hl as [|x l Hx Hl IH]; [done|]. by rewrite filter_cons_True, IH. }
  rewrite drop_app, length_replicate, filter_app, drop_replicate, Hz. simpl.
  rewrite Hf; [done|]. by apply Forall_drop.
Qed.

(** ** Keeping the most recent timestamps *)

(** [merge_history] cuts the sorted union to its last [k] elements. *)
Definition latest (k : N) (l : list N) : list N :=
  drop (N.to_nat (len l - k)) (merge_sort N.le l).

Lemma merge_history_latest a b k : merge_history a b k = latest k (a ++ b).
Proof.
  unfold merge_history, latest.
  replace (len (merge_sort N.le (a ++ b))) with (len (a ++ b))
    by (unfold len; by rewrite merge_sort_Permutation).
  destruct (N.ltb_spec k (len (a ++ b))); [done|].
  by replace (len (a ++ b) - k) with 0 by lia.
Qed.

Lemma sorted_unique (l1 l2 : list N) :
  StronglySorted N.le l1 -> StronglySorted N.le l2 -> l1 ≡ₚ l2 -> l1 = l2.
Proof. intros. eapply StronglySorted_unique; eauto. intros x y ? ?. lia. Qed.

Lemma merge_sort_sorted l : StronglySorted N.le (merge_sort N.le l).
Proof. apply StronglySorted_merge_sort; [apply _|]. intros x y. lia. Qed.

#[global] Instance latest_perm k : Proper ((≡ₚ) ==> (=)) (latest k).
Proof.
  intros l1 l2 Hp. unfold latest. f_equal; [unfold len; by rewrite Hp|].
  apply sorted_unique; try apply merge_sort_sorted.
  by rewrite !merge_sort_Permutation.
Qed.

(** In a sorted list cut as [A ++ B], an element of [B] has fewer than
    [length B] elements above it. *)
Lemma above_in_tail (A B : list N) (z : N) :
  StronglySorted N.le (A ++ B) -> z ∈ B ->
  (length (filter (fun y => N.lt z y) (A ++ B)) < length B)%nat.
Proof.
  intros Hs Hz. apply StronglySorted_app in Hs as (Hab & _ & _).
  rewrite filter_app, filter_none.
  - apply (length_filter_lt _ _ z); [done|lia].
  - intros x Hx. specialize (Hab x z Hx Hz). lia.
Qed.

(** Cutting part of the input to its own latest [k] changes nothing. *)
Lemma latest_app k x y : latest k (x ++ latest k y) = latest k (x ++ y).
Proof.
  destruct (N.leb_spec (len y) k) as [Hle|Hgt].
  { unfold latest at 2. replace (len y - k) with 0 by lia. simpl.
    apply latest_perm. by rewrite merge_sort_Permutation. }
  set (c := take (N.to_nat (len y - k)) (merge_sort N.le y)).
  set (r := latest k y).
  assert (Hy : c ++ r ≡ₚ y) by (unfold c, r, latest; rewrite take_drop; apply merge_sort_Permutation).
  assert (Hly : length (merge_sort N.le y) = length y)
    by (by apply Permutation_length, merge_sort_Permutation).
  assert (Hr : length r = N.to_nat k) by (unfold r, latest, len in *; rewrite length_drop; lia).
  assert (Hcr : forall a b, a ∈ c -> b ∈ r -> a <= b).
  { intros a b Ha Hb. pose proof (merge_sort_sorted y) as Hs.
    rewrite <- (take_drop (N.to_nat (len y - k)) (merge_sort N.le y)) in Hs.
    apply StronglySorted_app in Hs as (Hs & _). by apply Hs. }
  clearbody c r.
  set (S := merge_sort N.le (x ++ r)).
  assert (HS : S ≡ₚ x ++ r) by apply merge_sort_Permutation.
  assert (HSs : StronglySorted N.le S) by apply merge_sort_sorted.
  set (A := take (length x) S). set (B := drop (length x) S).
  assert (HAB : A ++ B = S) by apply take_drop.
  assert (HlB : length B = N.to_nat k).
  { unfold B. rewrite length_drop, HS, length_app, Hr. lia. }
  assert (Hl : latest k (x ++ r) = B).
  { unfold latest, B. fold S. f_equal. unfold len. rewrite length_app, Hr. lia. }
  rewrite Hl. rewrite <- Hy.
  assert (HcB : forall a z, a ∈ c -> z ∈ B -> a <= z).
  { intros a z Ha Hz. destruct (N.leb_spec a z) as [|Hlt]; [done|exfalso].
    rewrite <- HAB in HSs. pose proof (above_in_tail A B z HSs Hz) as Hab.
    rewrite HAB, HS, filter_app, length_app in Hab.
    rewrite (filter_all _ r) in Hab by (intros b Hb; specialize (Hcr a b Ha Hb); lia). lia. }
  assert (HX : merge_sort N.le (x ++ c ++ r) = merge_sort N.le (c ++ A) ++ B).
  { rewrite <- HAB in HSs. apply StronglySorted_app in HSs as (H1 & _ & H3).
    apply sorted_unique; [apply merge_sort_sorted| |].
    - apply StronglySorted_app. split_and!; [|apply merge_sort_sorted|done].
      intros a b. rewrite merge_sort_Permutation, elem_of_app. intros [?|?] ?; [by apply HcB|by apply H1].
    - rewrite !merge_sort_Permutation, <- app_assoc, HAB, HS. solve_Permutation. }
  unfold latest. rewrite HX, drop_app_length'; [done|].
  rewrite merge_sort_Permutation. unfold len. rewrite !length_app, Hr.
  unfold A. rewrite length_take, HS, length_app. lia.
Qed.

(** ** The counters *)

Lemma times_of_snoc o l o' t :
  times_of o (l ++ [(o', t)]) = times_of o l ++ (if decide (o' = o) then [t] else []).
Proof.
  unfold times_of. rewrite filter_app, fmap_app. f_equal.
  case_decide; [by rewrite filter_cons_True|by rewrite filter_cons_False].
Qed.

Lemma bump_all_lookup h l o :
  history_len (bump_all (new h) l) = clamp_history_len h /\
  counters (bump_all (new h) l) !! o =
    match times_of o l with
    | [] => None
    | ts => Some (bump_entries (new_entry (clamp_history_len h)) ts)
    end.
Proof.
  induction l as [|[o' t] l [IH1 IH2]] using rev_ind; [done|].
  unfold bump_all in *. rewrite foldl_snoc, times_of_snoc. simpl. split; [done|].
  case_decide as Ho; [subst o'|].
  - rewrite lookup_insert_eq, IH2, IH1.
    destruct (times_of o l) as [|t0 ts]; simpl; [done|].
    unfold bump_entries. by rewrite foldl_snoc.
  - by rewrite app_nil_r, lookup_insert_ne.
Qed.

(** What the metadata store shows at one offset. *)
Definition view (meta : MetadataStore) (o : N) : option MetaRecord * list N :=
  (MetadataStore.get meta o, history_of meta o).

Lemma drain_one_other h meta o oe : oe.1 <> o -> view (drain_one h meta oe) o = view meta o.
Proof.
  destruct oe as [o' e]. simpl. intros Ho. destruct (count e =? 0); [done|].
  destruct (MetadataStore.get meta o') as [m|]; [|done]. unfold view.
  assert (Hp : forall mt st, view (append_access_history mt o' st h) o = view mt o).
  { intros mt st. unfold append_access_history, view. destruct st; [done|].
    unfold MetadataStore.get, history_of. simpl. by rewrite lookup_insert_ne. }
  unfold view in Hp. rewrite Hp. unfold MetadataStore.get, history_of. simpl.
  by rewrite lookup_insert_ne.
Qed.

Lemma drain_one_here h meta o e m :
  count e <> 0 -> MetadataStore.get meta o = Some m ->
  view (drain_one h meta (o, e)) o =
  (Some (bump_record m (count e) (e_last_accessed e)),
   match filter (fun ts => ts <> 0) (ring e) with
   | [] => history_of meta o
   | l => latest h (history_of meta o ++ l)
   end).
Proof.
  intros Hc Hm. simpl. rewrite (proj2 (N.eqb_neq _ _) Hc), Hm.
  set (l := filter _ _). pose proof (merge_sort_Permutation N.le l) as Hp.
  unfold view, append_access_history. destruct (merge_sort N.le l) as [|t st] eqn:E.
  - apply Permutation_nil in Hp as ->. unfold MetadataStore.get. simpl.
    by rewrite lookup_insert_eq.
  - unfold MetadataStore.get. simpl. rewrite lookup_insert_eq. f_equal.
    unfold history_of at 1. simpl. rewrite lookup_insert_eq. simpl.
    rewrite merge_history_latest.
    change (history_of (put_meta meta o (bump_record m (count e) (e_last_accessed e))) o)
      with (history_of meta o).
    destruct l as [|x l']; [by symmetry in Hp; apply Permutation_nil_cons in Hp|].
    apply latest_perm. by rewrite Hp.
Qed.

(** Only the entry of an offset has an effect there, and it does so once. *)
Lemma drain_fold h l meta o :
  NoDup l.*1 ->
  view (foldl (drain_one h) meta l) o =
  match (list_to_map l : gmap N AccessEntry) !! o with
  | None => view meta o
  | Some e => view (drain_one h meta (o, e)) o
  end.
Proof.
  revert meta. induction l as [|[o' e] l IH]; simpl; intros meta Hnd; [done|].
  apply NoDup_cons in Hnd as [Ho' Hnd]. rewrite IH by done.
  destruct (decide (o' = o)) as [->|Hne].
  - rewrite lookup_insert_eq. by rewrite not_elem_of_list_to_map_1 by done.
  - rewrite lookup_insert_ne by done. pose proof (drain_one_other h meta o (o', e) Hne) as Hv.
    destruct (list_to_map l !! o) as [e'|]; [|done].
    simpl in Hv |- *. set (meta' := if count e =? 0 then _ else _) in *.
    destruct (count e' =? 0) eqn:Hc; [done|]. apply N.eqb_neq in Hc.
    injection Hv as Hg Hh. rewrite Hg.
    destruct (MetadataStore.get meta o) as [m|] eqn:Hm; [|by unfold view; rewrite Hg, Hm, Hh].
    pose proof (drain_one_here h meta' o e' m Hc Hg) as H1.
    pose proof (drain_one_here h meta o e' m Hc Hm) as H2. simpl in H1, H2.
    rewrite Hg in H1. rewrite Hm in H2. apply N.eqb_neq in Hc. rewrite Hc in H1, H2.
    by rewrite H1, H2, Hh.
Qed.

(** ** Theorem *)

(** draining the counters after any sequence of accesses with a monotonic
    clock has, on every record that still exists, exactly the effect of
    having logged every access: the count grows by their number, the last access
    time is the latest one, and the persisted history is the most recent
    [history_len] timestamps of the old history and of all the accesses, although
    the ring only kept [history_len] of them. Records that were not accessed, or
    no longer exist, are left alone, and the counters are empty afterwards. *)
Theorem drain_exact h l meta o :
  let c := bump_all (new h) l in
  let ts := times_of o l in
  Forall (fun t => t <> 0) ts -> StronglySorted N.le ts -> len ts < U64 ->
  counters (drain_into c meta).1 = ∅ /\
  view (drain_into c meta).2 o =
    match MetadataStore.get meta o, last ts with
    | Some m, Some t =>
        (Some (bump_record m (len ts) t),
         latest (clamp_history_len h) (history_of meta o ++ ts))
    | _, _ => view meta o
    end.
Proof.
  intros c ts Hnz Hs Hn. split; [done|]. unfold drain_into. simpl.
  destruct (bump_all_lookup h l o) as [Hh Hc]. fold c in Hh, Hc. rewrite Hh.
  rewrite drain_fold, list_to_map_to_list by apply NoDup_fst_map_to_list. fold ts in Hc.
  set (K := N.to_nat (clamp_history_len h)).
  assert (HK : (K <> 0)%nat) by (unfold K, clamp_history_len, MAX_ACCESS_HISTORY_LEN; lia).
  destruct (decide (ts = [])) as [E|Hne]; [by rewrite Hc, E; destruct (MetadataStore.get meta o)|].
  assert (He : counters c !! o = Some (bump_entries (new_entry (N.of_nat K)) ts))
    by (rewrite Hc; unfold K; rewrite N2Nat.id; by destruct ts).
  rewrite He. clear Hc He.
  destruct (last ts) as [t|] eqn:Hlt; [|by apply last_None in Hlt].
  destruct (bump_entries_inv K ts HK Hn) as (Hcount & _ & _ & Hlast & _).
  pose proof (ring_stamps K ts HK Hn Hnz) as Hst.
  set (e := bump_entries _ ts) in *. rewrite Hlt in Hlast. simpl in Hlast.
  assert (Hc0 : count e <> 0) by (rewrite Hcount; destruct ts; [done|simpl; lia]).
  destruct (MetadataStore.get meta o) as [m|] eqn:Hm;
    [|by simpl; rewrite (proj2 (N.eqb_neq _ _) Hc0), Hm].
  rewrite (drain_one_here _ _ _ _ _ Hc0 Hm), Hcount, Hlast. f_equal.
  assert (Hlatest : drop (length ts - K) ts = latest (clamp_history_len h) ts).
  { unfold latest. f_equal; [unfold len; lia|].
    apply sorted_unique; [done|apply merge_sort_sorted|by rewrite merge_sort_Permutation]. }
  rewrite <- latest_app, <- Hlatest, <- Hst.
  assert (Hd : length (drop (length ts - K) ts) <> 0%nat)
    by (rewrite length_drop; destruct ts; [done|simpl; lia]).
  rewrite <- Hst in Hd. by destruct (filter _ (ring e)).
Qed.

Lemma drain_exact_witness :
  let c := bump_all (new 2) [(7, 3); (8, 4); (7, 5); (7, 9)] in
  let meta := put_meta MetadataStore.Examples.ex_store 7 (MetadataStore.Examples.ex_rec "a" 1) in
  view (drain_into c meta).2 7
  = (Some (bump_record (MetadataStore.Examples.ex_rec "a" 1) 3 9), [5; 9]).
Proof.
  destruct (drain_exact 2 [(7, 3); (8, 4); (7, 5); (7, 9)]
    (put_meta MetadataStore.Examples.ex_store 7 (MetadataStore.Examples.ex_rec "a" 1)) 7) as [_ H].
  - vm_compute. repeat constructor; discriminate.
  - vm_compute. repeat constructor; discriminate.
  - reflexivity.
  - etransitivity; [exact H|]. vm_compute. reflexivity.
Defined.
