(* ===== verification/ScopeIndex.v ===== *)
(** * The scope index, [crates/turbomemory_storage/src/scope_index.rs]

    Which records a search in a scope may see. A [RoaringBitmap] is a finite set
    of 32-bit values; offsets are cast on the way in. *)

From S2P Require Import Prelude.

Abbreviation RoaringBitmap := (gset N) (only parsing).

Record ScopeIndex := {
  by_scope : gmap string RoaringBitmap;
  global : RoaringBitmap;
}.

Definition new : ScopeIndex := {| by_scope := ∅; global := ∅ |}.

Definition add (i : ScopeIndex) (offset : N) (scope : option string) : ScopeIndex :=
  let bo := as_u32 offset in
  match scope with
  | Some s =>
      {| by_scope := <[s := {[bo]} ∪ default ∅ (by_scope i !! s)]> (by_scope i);
         global := global i |}
  | None => {| by_scope := by_scope i; global := {[bo]} ∪ global i |}
  end.

Definition remove (i : ScopeIndex) (offset : N) (scope : option string) : ScopeIndex :=
  let bo := as_u32 offset in
  match scope with
  | Some s =>
      match by_scope i !! s with
      | None => i
      | Some bm =>
          let bm := bm ∖ {[bo]} in
          {| by_scope := if decide (bm = ∅) then delete s (by_scope i)
                         else <[s := bm]> (by_scope i);
             global := global i |}
      end
  | None => {| by_scope := by_scope i; global := global i ∖ {[bo]} |}
  end.

Definition query (i : ScopeIndex) (scope : option string) : RoaringBitmap :=
  match scope with
  | None => ∅
  | Some s => global i ∪ default ∅ (by_scope i !! s)
  end.

Definition exact (i : ScopeIndex) (s : string) : RoaringBitmap := default ∅ (by_scope i !! s).

Definition scopes (i : ScopeIndex) : list string :=
  merge_sort string_le (elements (dom (by_scope i) : gset string)).

Definition all_offsets (i : ScopeIndex) : RoaringBitmap :=
  foldl (fun r bm => r ∪ bm) (global i) (map_to_list (by_scope i)).*2.

(** ** The index as a map from live offsets to scopes *)

(** The states the engine drives the index through: a record is added once under
    its scope, and removed under the scope it was added with. *)
Inductive scope_run : gmap N (option string) -> ScopeIndex -> Prop :=
  | run_new : scope_run ∅ new
  | run_add R i o sc :
      scope_run R i -> R !! o = None -> o < U32 -> scope_run (<[o := sc]> R) (add i o sc)
  | run_remove R i o sc :
      scope_run R i -> R !! o = Some sc -> scope_run (delete o R) (remove i o sc).

Record scope_rep (R : gmap N (option string)) (i : ScopeIndex) : Prop := {
  rep_bound : forall o, is_Some (R !! o) -> o < U32;
  rep_global : forall o, o ∈ global i <-> R !! o = Some None;
  rep_scope : forall s o, o ∈ exact i s <-> R !! o = Some (Some s);
  rep_nonempty : forall s bm, by_scope i !! s = Some bm -> bm <> ∅;
}.

Lemma scope_add_rep R i o sc :
  scope_rep R i -> R !! o = None -> o < U32 -> scope_rep (<[o := sc]> R) (add i o sc).
Proof.
  intros [H1 H2 H3 H4] Ho Hb.
  assert (Hb' : forall o', is_Some (<[o := sc]> R !! o') -> o' < U32).
  { intros o'. destruct (decide (o = o')) as [<-|]; [done|].
    rewrite lookup_insert_ne by done. apply H1. }
  unfold add. rewrite (as_u32_small o Hb). destruct sc as [s|]; split; simpl; try done.
  - intros o'. rewrite H2. destruct (decide (o = o')) as [<-|]; simplify_map_eq; naive_solver.
  - intros s' o'. unfold exact. simpl. destruct (decide (s = s')) as [<-|].
    + rewrite lookup_insert_eq. simpl. rewrite elem_of_union, elem_of_singleton.
      fold (exact i s). rewrite H3. destruct (decide (o = o')) as [<-|]; simplify_map_eq; naive_solver.
    + rewrite lookup_insert_ne by done. fold (exact i s'). rewrite H3.
      destruct (decide (o = o')) as [<-|]; simplify_map_eq; naive_solver.
  - intros s' bm. rewrite lookup_insert_Some. intros [[_ <-]|[_ ?]]; [set_solver|by eapply H4].
  - intros o'. rewrite elem_of_union, elem_of_singleton, H2.
    destruct (decide (o = o')) as [<-|]; simplify_map_eq; naive_solver.
  - intros s o'. fold (exact i s). unfold exact at 1. simpl. fold (exact i s). rewrite H3.
    destruct (decide (o = o')) as [<-|]; simplify_map_eq; naive_solver.
Qed.

Lemma scope_remove_rep R i o sc :
  scope_rep R i -> R !! o = Some sc -> scope_rep (delete o R) (remove i o sc).
Proof.
  intros [H1 H2 H3 H4] Ho. unfold remove. rewrite (as_u32_small o) by eauto.
  assert (Hb' : forall o', is_Some (delete o R !! o') -> o' < U32).
  { intros o' [sc' Hs]. apply lookup_delete_Some in Hs as [_ Hs]. eauto. }
  destruct sc as [s|].
  - assert (Hs : exact i s = default ∅ (by_scope i !! s)) by done.
    assert (Hin : o ∈ exact i s) by by apply H3.
    destruct (by_scope i !! s) as [bm|] eqn:Hbm; [|set_solver]. simpl in Hs.
    split; simpl; [done|..].
    + intros o'. rewrite H2, lookup_delete_Some. naive_solver.
    + intros s' o'. rewrite lookup_delete_Some, <- H3. unfold exact. simpl.
      destruct (decide (s = s')) as [<-|Hne].
      * rewrite Hbm. case_decide as Hemp; simplify_map_eq; set_solver.
      * assert (o' ∈ default ∅ (by_scope i !! s') -> o <> o').
        { intros Hin' <-. apply (H3 s' o) in Hin'. naive_solver. }
        case_decide; simplify_map_eq; naive_solver.
    + intros s' bm'. case_decide.
      * rewrite lookup_delete_Some. intros [_ ?]. by eapply H4.
      * rewrite lookup_insert_Some. intros [[_ <-]|[_ ?]]; [done|by eapply H4].
  - split; simpl; [done|..|done].
    + intros o'. rewrite lookup_delete_Some, elem_of_difference, elem_of_singleton, H2. naive_solver.
    + intros s o'. unfold exact. simpl. fold (exact i s). rewrite lookup_delete_Some, H3. naive_solver.
Qed.

Lemma scope_run_rep R i : scope_run R i -> scope_rep R i.
Proof.
  induction 1 as [|R i o sc _ IH Ho Hb|R i o sc _ IH Ho].
  - split; simpl; [by intros o [? ?]|set_solver| |done].
    intros s o. unfold exact. simpl. rewrite lookup_empty. set_solver.
  - by apply scope_add_rep.
  - by apply scope_remove_rep.
Qed.

Lemma elem_of_foldl_union (l : list RoaringBitmap) acc o :
  o ∈ foldl (fun r bm => r ∪ bm) acc l <-> o ∈ acc \/ exists bm, bm ∈ l /\ o ∈ bm.
Proof.
  revert acc. induction l as [|b l IH]; intros acc; simpl; [set_solver|].
  rewrite IH. set_solver.
Qed.

(** ** Theorem *)

(** after any sequence of insertions and deletions of records with 32-bit
    offsets, a search in scope [s] may see exactly the live records of [s] and
    the global ones; [exact], [all_offsets] and [scopes] are exactly the live
    records of one scope, all live records, and the scopes that still hold a
    record, in order; [query(None)] is the empty bitmap that callers read as "no
    restriction". *)
Theorem scope_index_exact R i :
  scope_run R i ->
  (forall s o, o ∈ query i (Some s) <-> R !! o = Some None \/ R !! o = Some (Some s)) /\
  (forall s o, o ∈ exact i s <-> R !! o = Some (Some s)) /\
  (forall o, o ∈ all_offsets i <-> is_Some (R !! o)) /\
  (forall s, s ∈ scopes i <-> exists o, R !! o = Some (Some s)) /\
  Sorted string_le (scopes i) /\ NoDup (scopes i) /\
  query i None = ∅.
Proof.
  intros Hr. apply scope_run_rep in Hr as [H1 H2 H3 H4]. split_and!.
  - intros s o. unfold query. fold (exact i s). by rewrite elem_of_union, H2, H3.
  - exact H3.
  - intros o. unfold all_offsets. rewrite elem_of_foldl_union, H2. split.
    + intros [->|(bm & Hbm & Ho)]; [done|].
      apply list_elem_of_fmap in Hbm as ([s bm'] & -> & Hs). apply elem_of_map_to_list in Hs.
      simpl in Ho. assert (R !! o = Some (Some s)) as ->; [|done].
      apply H3. unfold exact. by rewrite Hs.
    + intros [[s|] Ho]; [right|by left]. apply H3 in Ho. unfold exact in Ho.
      destruct (by_scope i !! s) as [bm|] eqn:Hs; [|set_solver].
      exists bm. split; [|done]. apply list_elem_of_fmap. exists (s, bm).
      by rewrite elem_of_map_to_list.
  - intros s. unfold scopes. rewrite merge_sort_Permutation, elem_of_elements, elem_of_dom.
    split.
    + intros [bm Hs]. destruct (set_choose_L bm) as [o Ho]; [by eapply H4|].
      exists o. apply H3. unfold exact. by rewrite Hs.
    + intros [o Ho]. apply H3 in Ho. unfold exact in Ho.
      destruct (by_scope i !! s); [done|set_solver].
  - apply Sorted_merge_sort. intros a b. unfold string_le. destruct (String.leb_total a b); auto.
  - unfold scopes. rewrite merge_sort_Permutation. apply NoDup_elements.
  - done.
Qed.

Definition ex_index : ScopeIndex :=
  remove (add (add (add new 0 (Some "alice")) 1 None) 2 (Some "bob")) 2 (Some "bob").

Lemma scope_index_exact_witness :
  scope_run (delete 2 (<[2 := Some "bob"]> (<[1 := None]> (<[0 := Some "alice"]> ∅)))) ex_index /\
  scopes ex_index = ["alice"] /\
  (forall o, o ∈ query ex_index (Some "alice") <-> o = 0 \/ o = 1).
Proof.
  assert (Hr : scope_run
    (delete 2 (<[2 := Some "bob"]> (<[1 := None]> (<[0 := Some "alice"]> ∅)))) ex_index).
  { unfold ex_index. apply run_remove; [|reflexivity].
    repeat (apply run_add; [|reflexivity|reflexivity]). apply run_new. }
  split; [exact Hr|]. split; [vm_compute; reflexivity|].
  intros o. rewrite (proj1 (scope_index_exact _ _ Hr) "alice" o).
  rewrite !lookup_delete_Some, !lookup_insert_Some, !lookup_empty.
  destruct (decide (o = 0)) as [->|]; [naive_solver|].
  destruct (decide (o = 1)) as [->|]; naive_solver.
Defined.
