(* ===== verification/VisitedPool.v ===== *)
(** * Visited sets, [crates/turbomemory_storage/src/visited_pool.rs]

    A visited set marks nodes with an 8-bit generation token, so that clearing it
    is one increment; the array is only zeroed when the token wraps. The pool
    hands such sets out and takes them back. *)

From S2P Require Import Prelude.

Record VisitedSet := {
  tokens : list N;
  generation : N;
}.

Definition new (capacity : N) : VisitedSet :=
  {| tokens := replicate (N.to_nat capacity) 0; generation := 1 |}.

Definition resize (capacity : N) (v : VisitedSet) : VisitedSet :=
  if len (tokens v) <? capacity
  then {| tokens := set_len 0 capacity (tokens v); generation := generation v |}
  else v.

Definition mark (node : N) (v : VisitedSet) : VisitedSet :=
  if node <? len (tokens v)
  then {| tokens := <[N.to_nat node := generation v]> (tokens v); generation := generation v |}
  else v.

Definition is_visited (v : VisitedSet) (node : N) : bool :=
  match tokens v !! N.to_nat node with
  | Some t => t =? generation v
  | None => false
  end.

Definition clear (v : VisitedSet) : VisitedSet :=
  let g := (generation v + 1) mod 256 in
  if g =? 0 then {| tokens := replicate (length (tokens v)) 0; generation := 1 |}
  else {| tokens := tokens v; generation := g |}.

(** ** The pool. [acquire] pops the last slot or makes a new one; dropping the
    handle pushes the set back. *)

Record VisitedPool := {
  slots : list VisitedSet;
  capacity : N;
}.

Definition pool_new (size capacity : N) : VisitedPool :=
  {| slots := replicate (N.to_nat size) (new capacity); capacity := capacity |}.

Definition pool_resize (p : VisitedPool) (cap : N) : VisitedPool :=
  if cap <=? capacity p then p
  else {| slots := resize cap <$> slots p; capacity := cap |}.

Definition acquire (p : VisitedPool) : VisitedSet * VisitedPool :=
  match last (slots p) with
  | Some slot =>
      (clear slot, {| slots := take (length (slots p) - 1) (slots p); capacity := capacity p |})
  | None => (clear (new (capacity p)), p)
  end.

Definition release (p : VisitedPool) (slot : VisitedSet) : VisitedPool :=
  {| slots := slots p ++ [slot]; capacity := capacity p |}.

(** ** Abstraction *)

Inductive VOp := VMark (node : N) | VClear | VResize (cap : N).

Definition v_step (v : VisitedSet) (op : VOp) : VisitedSet :=
  match op with VMark n => mark n v | VClear => clear v | VResize c => resize c v end.

(** The set the tokens stand for: a capacity and the nodes marked since the last
    clear; a node beyond the capacity is not recorded. *)
Definition a_step (a : N * gset N) (op : VOp) : N * gset N :=
  match op with
  | VMark n => (a.1, if n <? a.1 then {[n]} ∪ a.2 else a.2)
  | VClear => (a.1, ∅)
  | VResize c => (N.max a.1 c, a.2)
  end.

Record v_rep (a : N * gset N) (v : VisitedSet) : Prop := {
  rep_cap : len (tokens v) = a.1;
  rep_gen : 1 <= generation v <= 255;
  rep_tokens : Forall (fun t => t <= generation v) (tokens v);
  rep_visited : forall n, is_visited v n = true <-> n ∈ a.2;
}.

Lemma is_visited_lookup v n : is_visited v n = true <-> tokens v !! N.to_nat n = Some (generation v).
Proof.
  unfold is_visited. destruct (tokens v !! N.to_nat n) as [t|]; [|naive_solver].
  rewrite N.eqb_eq. naive_solver.
Qed.

(** No token of a cleared set equals the new generation, also across the wrap. *)
Lemma clear_rep (a : N * gset N) v :
  1 <= generation v <= 255 -> Forall (fun t => t <= generation v) (tokens v) ->
  len (tokens v) = a.1 -> v_rep (a.1, ∅) (clear v).
Proof.
  intros Hg Ht Hl. unfold clear.
  destruct (N.eqb_spec ((generation v + 1) mod 256) 0) as [E|E].
  - split; simpl; [unfold len; rewrite length_replicate; exact Hl|done|by apply Forall_replicate; lia|].
    intros n. rewrite is_visited_lookup. simpl. rewrite lookup_replicate. set_solver.
  - assert (generation v <> 255) by (intros E'; rewrite E' in E; by apply E).
    rewrite N.mod_small by lia. split; simpl; [done|lia| |].
    + eapply Forall_impl; [exact Ht|]. simpl. intros. lia.
    + intros n. rewrite is_visited_lookup. simpl. split; [|set_solver]. intros Hn.
      rewrite Forall_lookup in Ht. specialize (Ht _ _ Hn). simpl in Ht. lia.
Qed.

Lemma new_rep cap : v_rep (cap, ∅) (new cap).
Proof.
  split; simpl; [unfold len; rewrite length_replicate; lia|lia|by apply Forall_replicate; lia|].
  intros n. rewrite is_visited_lookup. simpl. rewrite lookup_replicate. set_solver.
Qed.

Lemma v_step_rep a v op : v_rep a v -> v_rep (a_step a op) (v_step v op).
Proof.
  intros [Hc Hg Ht Hv]. destruct op as [n| |c]; simpl.
  - unfold mark. rewrite Hc. destruct (N.ltb_spec n a.1) as [Hn|Hn]; [|by split].
    split; simpl; [unfold len in *; by rewrite length_insert|done| |].
    + apply Forall_insert; [done|lia].
    + intros m. rewrite is_visited_lookup. simpl. rewrite elem_of_union, elem_of_singleton, <- Hv.
      rewrite is_visited_lookup. destruct (decide (n = m)) as [->|Hne].
      * rewrite list_lookup_insert_eq by (unfold len in Hc; lia). naive_solver.
      * rewrite list_lookup_insert_ne by lia. naive_solver.
  - by apply clear_rep.
  - unfold resize. rewrite Hc. destruct (N.ltb_spec a.1 c) as [Hlt|Hge].
    + split; simpl; [rewrite len_set_len; lia|done| |].
      * unfold set_len. apply Forall_app. split; [by apply Forall_take|apply Forall_replicate; lia].
      * intros n. rewrite is_visited_lookup. simpl. rewrite <- Hv, is_visited_lookup.
        unfold set_len. rewrite take_ge by (unfold len in Hc; lia).
        rewrite lookup_app. destruct (tokens v !! N.to_nat n) as [t|] eqn:E; [done|].
        rewrite lookup_replicate. split; [|naive_solver]. intros [E' _]. lia.
    + split; simpl; [lia|done|done|done].
Qed.

Lemma v_run_rep ops a v :
  v_rep a v -> v_rep (foldl a_step a ops) (foldl v_step v ops).
Proof.
  revert a v. induction ops as [|op ops IH]; intros a v H; simpl; [done|].
  by apply IH, v_step_rep.
Qed.

(** States of a pool with its outstanding handles. *)
Inductive pool_run : VisitedPool -> list VisitedSet -> Prop :=
  | p_new size cap : pool_run (pool_new size cap) []
  | p_resize p hs cap : pool_run p hs -> pool_run (pool_resize p cap) hs
  | p_acquire p hs v p' : pool_run p hs -> acquire p = (v, p') -> pool_run p' (v :: hs)
  | p_use p hs i v op :
      pool_run p hs -> hs !! i = Some v -> pool_run p (<[i := v_step v op]> hs)
  | p_drop p hs i v :
      pool_run p hs -> hs !! i = Some v -> pool_run (release p v) (delete i hs).

Definition v_ok (v : VisitedSet) : Prop := exists a, v_rep a v.

Lemma clear_ok v : v_ok v -> v_ok (clear v) /\ forall n, is_visited (clear v) n = false.
Proof.
  intros [a [H1 H2 H3 _]]. pose proof (clear_rep a v H2 H3 H1) as Hc. split; [by eexists|].
  intros n. destruct (is_visited (clear v) n) eqn:E; [|done].
  apply (rep_visited _ _ Hc) in E. set_solver.
Qed.

Lemma resize_ok cap v : v_ok v -> v_ok (resize cap v).
Proof. intros [a H]. exists (a_step a (VResize cap)). by apply (v_step_rep a v (VResize cap)). Qed.

Lemma pool_run_ok p hs : pool_run p hs -> Forall v_ok (slots p) /\ Forall v_ok hs.
Proof.
  induction 1 as [size cap|p hs cap _ [IH1 IH2]|p hs v p' _ [IH1 IH2] Ha|p hs i v op _ [IH1 IH2] Hi
                 |p hs i v _ [IH1 IH2] Hi].
  - split; [|done]. apply Forall_replicate. eexists. apply new_rep.
  - split; [|done]. unfold pool_resize. destruct (cap <=? capacity p); [done|]. simpl.
    apply Forall_fmap. eapply Forall_impl; [exact IH1|]. apply resize_ok.
  - unfold acquire in Ha. destruct (last (slots p)) as [slot|] eqn:Hl; injection Ha as <- <-; simpl.
    + rewrite last_lookup in Hl. split; [by apply Forall_take|]. constructor; [|done].
      apply clear_ok. rewrite Forall_lookup in IH1. by eapply IH1.
    + split; [done|]. constructor; [|done]. apply clear_ok. eexists. apply new_rep.
  - split; [done|]. apply Forall_insert; [done|]. rewrite Forall_lookup in IH2.
    destruct (IH2 _ _ Hi) as [a Ha]. eexists. by apply v_step_rep.
  - rewrite Forall_lookup in IH2. split; [apply Forall_app; split; [done|]|].
    + constructor; [by eapply IH2|done].
    + by apply Forall_delete, Forall_lookup.
Qed.

(** ** Theorems *)

(** a visited set behaves as a plain set under any sequence of marks, clears
    and resizes, through any number of wrap-arounds of the 8-bit generation:
    a node reads as visited exactly if it was marked, within the capacity, since
    the last clear. *)
Theorem visited_set_refines cap ops n :
  is_visited (foldl v_step (new cap) ops) n =
  bool_decide (n ∈ (foldl a_step (cap, ∅) ops).2).
Proof.
  pose proof (v_run_rep ops _ _ (new_rep cap)) as H. apply (rep_visited _ _) with (n := n) in H.
  destruct (is_visited _ n); case_bool_decide; naive_solver.
Qed.

(** however handles were acquired, used and dropped before, also with others
    still outstanding, [acquire] hands out a set in which no node is visited. *)
Theorem pool_acquire_fresh p hs v p' n :
  pool_run p hs -> acquire p = (v, p') -> is_visited v n = false.
Proof.
  intros Hr Ha. pose proof (pool_run_ok p hs Hr) as [Hs _].
  unfold acquire in Ha. destruct (last (slots p)) as [slot|] eqn:Hl; injection Ha as <- _.
  - rewrite last_lookup in Hl. rewrite Forall_lookup in Hs. by apply clear_ok, (Hs _ _ Hl).
  - apply clear_ok. eexists. apply new_rep.
Qed.

Lemma pool_acquire_fresh_witness :
  let p1 := pool_new 1 4 in
  let v1 := mark 3 (acquire p1).1 in
  let p2 := release (acquire p1).2 v1 in
  is_visited v1 3 = true /\ is_visited (acquire p2).1 3 = false.
Proof.
  split; [vm_compute; reflexivity|].
  apply (pool_acquire_fresh (release (acquire (pool_new 1 4)).2 (mark 3 (acquire (pool_new 1 4)).1))
    [] (acquire (release (acquire (pool_new 1 4)).2 (mark 3 (acquire (pool_new 1 4)).1))).1
    (acquire (release (acquire (pool_new 1 4)).2 (mark 3 (acquire (pool_new 1 4)).1))).2 3).
  - apply (p_drop _ [mark 3 (acquire (pool_new 1 4)).1] 0); [|reflexivity].
    apply (p_use _ [(acquire (pool_new 1 4)).1] 0 (acquire (pool_new 1 4)).1 (VMark 3));
      [|reflexivity].
    apply (p_acquire (pool_new 1 4)); [apply p_new|reflexivity].
  - destruct (acquire _). reflexivity.
Defined.
