(* ===== verification/PayloadIndex.v ===== *)
(** * The payload index, [crates/turbomemory_storage/src/payload_index.rs]

    An inverted index over the top-level fields of JSON payloads and the
    evaluation of filters on it. The JSON library is a parameter: [Value] has the
    shape of [serde_json::Value], the number type and the parser are arguments.
    The theorems relate the index to the payloads it was built from: a filter
    answers exactly the records that satisfy it. *)

From S2P Require Import Prelude Record.

Abbreviation RoaringBitmap := (gset N) (only parsing).

(** ** [serde_json] *)

Inductive Value (num : Type) :=
  | Null
  | Bool (b : bool)
  | Number (n : num)
  | String_ (s : string)
  | Array (l : list (Value num))
  | Object (m : list (string * Value num)).
Arguments Null {num}. Arguments Bool {num}. Arguments Number {num}.
Arguments String_ {num}. Arguments Array {num}. Arguments Object {num}.

Class SerdeJson := {
  Num : Type;
  as_f64 : Num -> option N;               (** the bits of the [f64] *)
  num_to_string : Num -> string;
  value_to_string : Value Num -> string;
  from_str : string -> option (Value Num);
}.

(** [NotNan::new]: the position of a non-NaN double in the real order. *)
Definition not_nan (bits : N) : option Z :=
  let mag := bits mod 2 ^ 63 in
  if 0x7FF0000000000000 <? mag then None
  else Some (if N.testbit bits 63 then (- Z.of_N mag)%Z else Z.of_N mag).

Inductive Bound (A : Type) := Included (a : A) | Excluded (a : A) | Unbounded.
Arguments Included {A}. Arguments Excluded {A}. Arguments Unbounded {A}.

(** [BTreeMap::range]: a key lies above a lower bound, below an upper bound. *)
Definition above (low : Bound Z) (z : Z) : bool :=
  match low with Included a => (a <=? z)%Z | Excluded a => (a <? z)%Z | Unbounded => true end.
Definition below (high : Bound Z) (z : Z) : bool :=
  match high with Included a => (z <=? a)%Z | Excluded a => (z <? a)%Z | Unbounded => true end.
(** It panics when the start is above the end, or both are excluded and equal. *)
Definition range_panics (low high : Bound Z) : bool :=
  match low, high with
  | Included a, (Included b | Excluded b) => (b <? a)%Z
  | Excluded a, Included b => (b <? a)%Z
  | Excluded a, Excluded b => (b <=? a)%Z
  | _, _ => false
  end.

Definition map_bound (b : Bound N) : Bound Z :=
  match b with
  | Included f => match not_nan f with Some nn => Included nn | None => Unbounded end
  | Excluded f => match not_nan f with Some nn => Excluded nn | None => Unbounded end
  | Unbounded => Unbounded
  end.

Section payload_index.
Context {J : SerdeJson}.

Inductive Filter :=
  | Eq_ (field : string) (value : Value Num)
  | Range (field : string) (low high : Bound N)
  | FullText (field query : string)
  | And (parts : list Filter)
  | Or (parts : list Filter)
  | Not (inner : Filter).

Fixpoint uses_full_text (f : Filter) : bool :=
  match f with
  | FullText _ _ => true
  | And parts | Or parts => existsb uses_full_text parts
  | Not inner => uses_full_text inner
  | _ => false
  end.

(** Two-level inverted index: field, key, offsets. *)
Abbreviation Postings K := (gmap string (gmap K RoaringBitmap)) (only parsing).

Record PayloadIndex := {
  keyword : Postings string;
  numeric : Postings Z;
  all_offsets : RoaringBitmap;
}.

Definition new : PayloadIndex := {| keyword := ∅; numeric := ∅; all_offsets := ∅ |}.

(** [entry(field).or_default().entry(k).or_default().insert(offset)]. *)
Definition post_insert `{Countable K} (field : string) (k : K) (offset : N) (p : Postings K)
    : Postings K :=
  let m := default ∅ (p !! field) in
  <[field := <[k := {[offset]} ∪ default ∅ (m !! k)]> m]> p.

(** [get_mut(field)], [get_mut(k)], remove, and drop an emptied bitmap. *)
Definition post_remove `{Countable K} (field : string) (k : K) (offset : N) (p : Postings K)
    : Postings K :=
  match p !! field with
  | None => p
  | Some m =>
      match m !! k with
      | None => p
      | Some bm =>
          let bm := bm ∖ {[offset]} in
          <[field := if decide (bm = ∅) then delete k m else <[k := bm]> m]> p
      end
  end.

Definition bool_to_string (b : bool) : string := if b then "true" else "false".

Definition index_scalar (i : PayloadIndex) (field : string) (offset : N) (v : Value Num)
    : PayloadIndex :=
  match v with
  | String_ s =>
      {| keyword := post_insert field s offset (keyword i); numeric := numeric i;
         all_offsets := all_offsets i |}
  | Number n =>
      {| keyword := post_insert field (num_to_string n) offset (keyword i);
         numeric := match f ← as_f64 n; not_nan f with
                    | Some nn => post_insert field nn offset (numeric i)
                    | None => numeric i
                    end;
         all_offsets := all_offsets i |}
  | Bool b =>
      {| keyword := post_insert field (bool_to_string b) offset (keyword i);
         numeric := numeric i; all_offsets := all_offsets i |}
  | _ => i
  end.

Definition remove_scalar (i : PayloadIndex) (field : string) (offset : N) (v : Value Num)
    : PayloadIndex :=
  match v with
  | String_ s =>
      {| keyword := post_remove field s offset (keyword i); numeric := numeric i;
         all_offsets := all_offsets i |}
  | Number n =>
      {| keyword := post_remove field (num_to_string n) offset (keyword i);
         numeric := match f ← as_f64 n; not_nan f with
                    | Some nn => post_remove field nn offset (numeric i)
                    | None => numeric i
                    end;
         all_offsets := all_offsets i |}
  | Bool b =>
      {| keyword := post_remove field (bool_to_string b) offset (keyword i);
         numeric := numeric i; all_offsets := all_offsets i |}
  | _ => i
  end.

Definition index_field_value (i : PayloadIndex) (field : string) (offset : N) (v : Value Num)
    : PayloadIndex :=
  match v with
  | Array arr => foldl (fun i item => index_scalar i field offset item) i arr
  | _ => index_scalar i field offset v
  end.
Definition remove_field_value (i : PayloadIndex) (field : string) (offset : N) (v : Value Num)
    : PayloadIndex :=
  match v with
  | Array arr => foldl (fun i item => remove_scalar i field offset item) i arr
  | _ => remove_scalar i field offset v
  end.

Definition set_all (i : PayloadIndex) (a : RoaringBitmap) : PayloadIndex :=
  {| keyword := keyword i; numeric := numeric i; all_offsets := a |}.

Definition add (i : PayloadIndex) (offset : PointOffset) (payload : option string)
    : PayloadIndex * Result StorageError unit :=
  let bo := as_u32 offset in
  let i := set_all i ({[bo]} ∪ all_offsets i) in
  match payload with
  | None => (i, Ok tt)
  | Some payload =>
      match from_str payload with
      | None => (i, Err (InvalidArgument "invalid payload JSON"))
      | Some (Object map) =>
          (foldl (fun i fv => index_field_value i fv.1 bo fv.2) i map, Ok tt)
      | Some _ => (i, Ok tt)
      end
  end.

Definition remove (i : PayloadIndex) (offset : PointOffset) (payload : option string)
    : PayloadIndex :=
  let bo := as_u32 offset in
  let i := set_all i (all_offsets i ∖ {[bo]}) in
  match payload with
  | None => i
  | Some payload =>
      match from_str payload with
      | Some (Object map) => foldl (fun i fv => remove_field_value i fv.1 bo fv.2) i map
      | _ => i
      end
  end.

Definition from_meta_records_iter (l : list (PointOffset * MetaRecord)) : PayloadIndex :=
  foldl (fun i om => (add i om.1 (payload om.2)).1) new l.

(** ** Filters *)

Definition value_to_keyword (v : Value Num) : string :=
  match v with
  | String_ s => s
  | Number n => num_to_string n
  | Bool b => bool_to_string b
  | Null => "null"
  | other => value_to_string other
  end.

Definition post_lookup `{Countable K} (p : Postings K) (field : string) (k : K) : RoaringBitmap :=
  default ∅ (m ← p !! field; m !! k).

Definition query_eq (i : PayloadIndex) (field : string) (v : Value Num) : RoaringBitmap :=
  post_lookup (keyword i) field (value_to_keyword v).

Definition query_range (i : PayloadIndex) (field : string) (low high : Bound N)
    : option RoaringBitmap :=
  match numeric i !! field with
  | None => Some ∅
  | Some tree =>
      let lo := map_bound low in
      let hi := map_bound high in
      if range_panics lo hi then None else
      Some (foldl (fun r kb => r ∪ kb.2) ∅
              (filter (fun kb => above lo kb.1 && below hi kb.1) (map_to_list tree)))
  end.

(** [query_inner]; [None] when [BTreeMap::range] panics. *)
Fixpoint query_inner (i : PayloadIndex) (f : Filter) : option RoaringBitmap :=
  match f with
  | Eq_ field value => Some (query_eq i field value)
  | Range field low high => query_range i field low high
  | FullText _ _ => Some ∅
  | And parts =>
      match parts with
      | [] => Some ∅
      | first :: rest =>
          acc ← query_inner i first;
          (fix go (acc : RoaringBitmap) (l : list Filter) : option RoaringBitmap :=
             match l with
             | [] => Some acc
             | part :: l =>
                 if decide (acc = ∅) then Some acc
                 else b ← query_inner i part; go (acc ∩ b) l
             end) acc rest
      end
  | Or parts =>
      (fix go (acc : RoaringBitmap) (l : list Filter) : option RoaringBitmap :=
         match l with
         | [] => Some acc
         | part :: l => b ← query_inner i part; go (acc ∪ b) l
         end) ∅ parts
  | Not inner => positives ← query_inner i inner; Some (all_offsets i ∖ positives)
  end.

Definition query (i : PayloadIndex) (f : Filter) : option RoaringBitmap := query_inner i f.

(** ** What a filter means for one payload *)

(** The scalars of a payload: the top-level fields, arrays flattened. *)
Definition payload_scalars (p : option string) : list (string * Value Num) :=
  match p ≫= from_str with
  | Some (Object map) =>
      fv ← map; x ← match fv.2 with Array arr => arr | v => [v] end; [(fv.1, x)]
  | _ => []
  end.

Definition scalar_kw (v : Value Num) : list string :=
  match v with
  | String_ s => [s]
  | Number n => [num_to_string n]
  | Bool b => [bool_to_string b]
  | _ => []
  end.
Definition scalar_num (v : Value Num) : list Z :=
  match v with
  | Number n => match f ← as_f64 n; not_nan f with Some nn => [nn] | None => [] end
  | _ => []
  end.

Definition kw_terms (p : option string) : list (string * string) :=
  fx ← payload_scalars p; k ← scalar_kw fx.2; [(fx.1, k)].
Definition num_terms (p : option string) : list (string * Z) :=
  fx ← payload_scalars p; k ← scalar_num fx.2; [(fx.1, k)].

Fixpoint matches (p : option string) (f : Filter) : bool :=
  match f with
  | Eq_ field v => bool_decide ((field, value_to_keyword v) ∈ kw_terms p)
  | Range field low high =>
      existsb (fun fz => bool_decide (fz.1 = field) && above (map_bound low) fz.2
                         && below (map_bound high) fz.2) (num_terms p)
  | FullText _ _ => false
  | And parts => match parts with [] => false | _ => forallb (matches p) parts end
  | Or parts => existsb (matches p) parts
  | Not inner => negb (matches p inner)
  end.

(** No range of the filter is inverted. *)
Fixpoint ranges_ok (f : Filter) : bool :=
  match f with
  | Range _ low high => negb (range_panics (map_bound low) (map_bound high))
  | And parts | Or parts => forallb ranges_ok parts
  | Not inner => ranges_ok inner
  | _ => true
  end.

(** ** The states the engine drives the index through *)

Inductive payload_run : gmap N (option string) -> PayloadIndex -> Prop :=
  | run_new : payload_run ∅ new
  | run_add R i o p :
      payload_run R i -> R !! o = None -> o < U32 -> payload_run (<[o := p]> R) (add i o p).1
  | run_remove R i o p :
      payload_run R i -> R !! o = Some p -> payload_run (delete o R) (remove i o p).

(** ** Postings *)

Lemma post_insert_lookup `{Countable K} field (k : K) o (p : Postings K) f' k' b :
  b ∈ post_lookup (post_insert field k o p) f' k' <->
  b ∈ post_lookup p f' k' \/ (b = o /\ f' = field /\ k' = k).
Proof.
  unfold post_lookup, post_insert. destruct (decide (field = f')) as [<-|Hf].
  - rewrite lookup_insert_eq. simpl. destruct (decide (k = k')) as [<-|Hk].
    + rewrite lookup_insert_eq. simpl. destruct (p !! field); simpl; [set_solver|].
      rewrite lookup_empty. set_solver.
    + rewrite lookup_insert_ne by done. destruct (p !! field); simpl; [naive_solver|].
      rewrite lookup_empty. set_solver.
  - rewrite lookup_insert_ne by done. naive_solver.
Qed.

Lemma post_remove_lookup `{Countable K} field (k : K) o (p : Postings K) f' k' b :
  b ∈ post_lookup (post_remove field k o p) f' k' <->
  b ∈ post_lookup p f' k' /\ ~ (b = o /\ f' = field /\ k' = k).
Proof.
  unfold post_lookup, post_remove. destruct (p !! field) as [m|] eqn:Hm.
  - destruct (m !! k) as [bm|] eqn:Hk.
    + destruct (decide (field = f')) as [<-|Hf].
      * rewrite lookup_insert_eq, Hm. simpl. destruct (decide (k = k')) as [<-|Hk'].
        -- rewrite Hk. case_decide; simplify_map_eq; set_solver.
        -- case_decide; simplify_map_eq; naive_solver.
      * rewrite lookup_insert_ne by done. naive_solver.
    + split; [|naive_solver]. intros Hb. split; [done|]. intros (-> & -> & ->).
      rewrite Hm in Hb. simpl in Hb. rewrite Hk in Hb. set_solver.
  - split; [|naive_solver]. intros Hb. split; [done|]. intros (-> & -> & ->).
    rewrite Hm in Hb. set_solver.
Qed.

Definition kw_of (i : PayloadIndex) : string -> string -> RoaringBitmap := post_lookup (keyword i).
Definition num_of (i : PayloadIndex) : string -> Z -> RoaringBitmap := post_lookup (numeric i).

Lemma index_scalar_kw i f o v f' k b :
  b ∈ kw_of (index_scalar i f o v) f' k <->
  b ∈ kw_of i f' k \/ (b = o /\ f' = f /\ k ∈ scalar_kw v).
Proof.
  unfold kw_of. destruct v; simpl; rewrite ?post_insert_lookup; set_solver.
Qed.
Lemma index_scalar_num i f o v f' k b :
  b ∈ num_of (index_scalar i f o v) f' k <->
  b ∈ num_of i f' k \/ (b = o /\ f' = f /\ k ∈ scalar_num v).
Proof.
  unfold num_of. destruct v; simpl; try set_solver.
  destruct (as_f64 n ≫= not_nan); rewrite ?post_insert_lookup; set_solver.
Qed.
Lemma remove_scalar_kw i f o v f' k b :
  b ∈ kw_of (remove_scalar i f o v) f' k <->
  b ∈ kw_of i f' k /\ ~ (b = o /\ f' = f /\ k ∈ scalar_kw v).
Proof.
  unfold kw_of. destruct v; simpl; rewrite ?post_remove_lookup; set_solver.
Qed.
Lemma remove_scalar_num i f o v f' k b :
  b ∈ num_of (remove_scalar i f o v) f' k <->
  b ∈ num_of i f' k /\ ~ (b = o /\ f' = f /\ k ∈ scalar_num v).
Proof.
  unfold num_of. destruct v; simpl; try set_solver.
  destruct (as_f64 n ≫= not_nan); rewrite ?post_remove_lookup; set_solver.
Qed.
Lemma scalar_all i f o v :
  all_offsets (index_scalar i f o v) = all_offsets i /\
  all_offsets (remove_scalar i f o v) = all_offsets i.
Proof. by destruct v. Qed.

(** Indexing or removing a payload is a loop over its scalars. *)
Lemma add_scalars i o p :
  (add i o p).1 = foldl (fun i fx => index_scalar i fx.1 (as_u32 o) fx.2)
    (set_all i ({[as_u32 o]} ∪ all_offsets i)) (payload_scalars p).
Proof.
  unfold add, payload_scalars. destruct p as [p|]; simpl; [|done].
  destruct (from_str p) as [[]|]; simpl; try done.
  generalize (set_all i ({[as_u32 o]} ∪ all_offsets i)). clear i.
  induction m as [|[f v] m IH]; intros i; simpl; [done|]. rewrite IH, foldl_app. f_equal.
  destruct v; simpl; try done. clear. revert i.
  induction l as [|x l IH]; intros i; simpl; [done|]. apply IH.
Qed.
Lemma remove_scalars i o p :
  remove i o p = foldl (fun i fx => remove_scalar i fx.1 (as_u32 o) fx.2)
    (set_all i (all_offsets i ∖ {[as_u32 o]})) (payload_scalars p).
Proof.
  unfold remove, payload_scalars. destruct p as [p|]; simpl; [|done].
  destruct (from_str p) as [[]|]; simpl; try done.
  generalize (set_all i (all_offsets i ∖ {[as_u32 o]})). clear i.
  induction m as [|[f v] m IH]; intros i; simpl; [done|]. rewrite IH, foldl_app. f_equal.
  destruct v; simpl; try done. clear. revert i.
  induction l as [|x l IH]; intros i; simpl; [done|]. apply IH.
Qed.

(** What such a loop does to a view [V] of the index, for keywords and numbers
    alike. *)
Lemma index_loop {K} (V : PayloadIndex -> string -> K -> RoaringBitmap) (terms : Value Num -> list K)
    o l i f k b :
  (forall i f v f' k b, b ∈ V (index_scalar i f o v) f' k <->
     b ∈ V i f' k \/ (b = o /\ f' = f /\ k ∈ terms v)) ->
  b ∈ V (foldl (fun i fx => index_scalar i fx.1 o fx.2) i l) f k <->
  b ∈ V i f k \/ (b = o /\ (f, k) ∈ (fx ← l; k ← terms fx.2; [(fx.1, k)])).
Proof.
  intros HV. revert i. induction l as [|[f' v] l IH]; intros i; simpl; [set_solver|].
  rewrite IH, HV, elem_of_app, list_elem_of_bind. set_solver.
Qed.
Lemma remove_loop {K} (V : PayloadIndex -> string -> K -> RoaringBitmap) (terms : Value Num -> list K)
    o l i f k b :
  (forall i f v f' k b, b ∈ V (remove_scalar i f o v) f' k <->
     b ∈ V i f' k /\ ~ (b = o /\ f' = f /\ k ∈ terms v)) ->
  b ∈ V (foldl (fun i fx => remove_scalar i fx.1 o fx.2) i l) f k <->
  b ∈ V i f k /\ ~ (b = o /\ (f, k) ∈ (fx ← l; k ← terms fx.2; [(fx.1, k)])).
Proof.
  intros HV. revert i. induction l as [|[f' v] l IH]; intros i; simpl; [set_solver|].
  rewrite IH, HV, elem_of_app, list_elem_of_bind. set_solver.
Qed.
Lemma loop_all o l i :
  all_offsets (foldl (fun i fx => index_scalar i fx.1 o fx.2) i l) = all_offsets i /\
  all_offsets (foldl (fun i fx => remove_scalar i fx.1 o fx.2) i l) = all_offsets i.
Proof.
  split; revert i; induction l as [|fx l IH]; intros i; simpl; try done;
    rewrite IH; apply scalar_all.
Qed.

Record payload_rep (R : gmap N (option string)) (i : PayloadIndex) : Prop := {
  rep_bound : forall o, is_Some (R !! o) -> o < U32;
  rep_all : forall o, o ∈ all_offsets i <-> is_Some (R !! o);
  rep_kw : forall f k o, o ∈ kw_of i f k <-> exists p, R !! o = Some p /\ (f, k) ∈ kw_terms p;
  rep_num : forall f k o, o ∈ num_of i f k <-> exists p, R !! o = Some p /\ (f, k) ∈ num_terms p;
}.

Lemma payload_add_rep R i o p :
  payload_rep R i -> R !! o = None -> o < U32 -> payload_rep (<[o := p]> R) (add i o p).1.
Proof.
  intros [H1 H2 H3 H4] Ho Hb. rewrite add_scalars, as_u32_small by done.
  set (i0 := set_all i ({[o]} ∪ all_offsets i)).
  destruct (loop_all o (payload_scalars p) i0) as [Hall _]. split.
  - intros o'. destruct (decide (o = o')) as [<-|]; [done|].
    rewrite lookup_insert_ne by done. apply H1.
  - intros o'. rewrite Hall. simpl. rewrite elem_of_union, elem_of_singleton, H2.
    destruct (decide (o = o')) as [<-|]; simplify_map_eq; naive_solver.
  - intros f k o'. rewrite (index_loop kw_of scalar_kw) by (intros; apply index_scalar_kw).
    fold (kw_terms p). change (kw_of i0) with (kw_of i). rewrite H3.
    destruct (decide (o = o')) as [<-|]; simplify_map_eq; naive_solver.
  - intros f k o'. rewrite (index_loop num_of scalar_num) by (intros; apply index_scalar_num).
    fold (num_terms p). change (num_of i0) with (num_of i). rewrite H4.
    destruct (decide (o = o')) as [<-|]; simplify_map_eq; naive_solver.
Qed.

Lemma payload_remove_rep R i o p :
  payload_rep R i -> R !! o = Some p -> payload_rep (delete o R) (remove i o p).
Proof.
  intros [H1 H2 H3 H4] Ho. rewrite remove_scalars, as_u32_small by eauto.
  set (i0 := set_all i (all_offsets i ∖ {[o]})).
  destruct (loop_all o (payload_scalars p) i0) as [_ Hall]. split.
  - intros o' [p' Hp]. apply lookup_delete_Some in Hp as [_ Hp]. eauto.
  - intros o'. rewrite Hall. simpl. rewrite elem_of_difference, elem_of_singleton, H2.
    destruct (decide (o = o')) as [<-|]; simplify_map_eq; naive_solver.
  - intros f k o'. rewrite (remove_loop kw_of scalar_kw) by (intros; apply remove_scalar_kw).
    fold (kw_terms p). change (kw_of i0) with (kw_of i). rewrite H3.
    destruct (decide (o = o')) as [<-|]; simplify_map_eq; naive_solver.
  - intros f k o'. rewrite (remove_loop num_of scalar_num) by (intros; apply remove_scalar_num).
    fold (num_terms p). change (num_of i0) with (num_of i). rewrite H4.
    destruct (decide (o = o')) as [<-|]; simplify_map_eq; naive_solver.
Qed.

Lemma payload_run_rep R i : payload_run R i -> payload_rep R i.
Proof.
  induction 1 as [|R i o p _ IH Ho Hb|R i o p _ IH Ho].
  - split; [by intros o [? ?]|simpl; intros o; rewrite lookup_empty|..];
      [split; [set_solver|by intros [? ?]]|..];
      intros f k o; unfold kw_of, num_of, post_lookup; simpl; rewrite !lookup_empty; set_solver.
  - by apply payload_add_rep.
  - by apply payload_remove_rep.
Qed.

(** ** Filters *)

Section filter_ind.
Context (P : Filter -> Prop).
Context (Heq : forall f v, P (Eq_ f v)) (Hrange : forall f l h, P (Range f l h))
  (Hft : forall f q, P (FullText f q)) (Hand : forall l, Forall P l -> P (And l))
  (Hor : forall l, Forall P l -> P (Or l)) (Hnot : forall f, P f -> P (Not f)).
Fixpoint Filter_ind' (f : Filter) : P f :=
  match f with
  | Eq_ a v => Heq a v
  | Range a l h => Hrange a l h
  | FullText a q => Hft a q
  | And l => Hand l ((fix go (l : list Filter) : Forall P l :=
      match l with [] => List.Forall_nil P | f :: l => List.Forall_cons P f l (Filter_ind' f) (go l) end) l)
  | Or l => Hor l ((fix go (l : list Filter) : Forall P l :=
      match l with [] => List.Forall_nil P | f :: l => List.Forall_cons P f l (Filter_ind' f) (go l) end) l)
  | Not f => Hnot f (Filter_ind' f)
  end.
End filter_ind.

(** [bm] is the set of live offsets whose payload satisfies [f]. *)
Definition selects (R : gmap N (option string)) (f : option string -> bool) (bm : RoaringBitmap) : Prop :=
  forall o, o ∈ bm <-> exists p, R !! o = Some p /\ f p = true.

Lemma selects_empty R : selects R (fun _ => false) ∅.
Proof. intros o. set_solver. Qed.

Lemma elem_of_range_union {K} (l : list (K * RoaringBitmap)) acc o :
  o ∈ foldl (fun r kb => r ∪ kb.2) acc l <-> o ∈ acc \/ exists kb, kb ∈ l /\ o ∈ kb.2.
Proof.
  revert acc. induction l as [|b l IH]; intros acc; simpl; [set_solver|].
  rewrite IH. set_solver.
Qed.

Lemma query_range_selects R i field low high bm :
  payload_rep R i -> query_range i field low high = Some bm ->
  selects R (fun p => matches p (Range field low high)) bm.
Proof.
  intros Hr. unfold query_range.
  assert (Hm : forall p, matches p (Range field low high) = true <->
    exists z, (field, z) ∈ num_terms p /\ above (map_bound low) z && below (map_bound high) z = true).
  { intros p. simpl. rewrite existsb_exists. split.
    - intros ([f z] & Hin & Hz). rewrite <- andb_assoc in Hz. apply andb_prop in Hz as [Hf Hz].
      apply bool_decide_eq_true in Hf. simpl in Hf. subst f. exists z.
      by rewrite list_elem_of_In.
    - intros (z & Hin & Hz). exists (field, z). rewrite <- list_elem_of_In. split; [done|].
      rewrite <- andb_assoc. apply andb_true_intro. by rewrite bool_decide_eq_true. }
  destruct (numeric i !! field) as [tree|] eqn:Ht.
  - destruct (range_panics _ _); [done|]. intros [= <-] o. rewrite elem_of_range_union. setoid_rewrite Hm.
    assert (Hl : forall z, o ∈ num_of i field z <-> exists bm, tree !! z = Some bm /\ o ∈ bm).
    { intros z. unfold num_of, post_lookup. rewrite Ht. simpl.
      destruct (tree !! z); simpl; set_solver. }
    split.
    + intros [?|([z bm'] & Hin & Ho)]; [set_solver|]. apply list_elem_of_filter in Hin as [Hz Hin].
      apply elem_of_map_to_list in Hin. apply Is_true_eq_true in Hz. simpl in *.
      destruct (proj1 (rep_num R i Hr field z o)) as (p & Hpo & Hpt); [apply Hl; eauto|].
      eauto 6.
    + intros (p & Hpo & z & Hin & Hz). right.
      assert (o ∈ num_of i field z) as (bm & Hbm & Ho)%Hl by (apply (rep_num R i Hr); eauto).
      exists (z, bm). split; [|done]. apply list_elem_of_filter.
      split; [by apply Is_true_eq_left|by apply elem_of_map_to_list].
  - intros [= <-] o. split; [set_solver|].
    intros (p & Hpo & Hz). apply Hm in Hz as (z & Hin & _).
    assert (Ho : o ∈ num_of i field z) by (apply (rep_num R i Hr); eauto).
    unfold num_of, post_lookup in Ho. rewrite Ht in Ho. set_solver.
Qed.

(** The loops of [And] and [Or]. *)
Lemma and_loop_selects R i g rest acc bm :
  selects R g acc ->
  Forall (fun f => forall bm, query_inner i f = Some bm -> selects R (fun p => matches p f) bm) rest ->
  (fix go (acc : RoaringBitmap) (l : list Filter) : option RoaringBitmap :=
     match l with
     | [] => Some acc
     | part :: l =>
         if decide (acc = ∅) then Some acc else b ← query_inner i part; go (acc ∩ b) l
     end) acc rest = Some bm ->
  selects R (fun p => g p && forallb (matches p) rest) bm.
Proof.
  intros Hg Hl. revert acc g Hg. induction Hl as [|f l Hsel _ IH]; intros acc g Hg.
  - intros [= <-] o. simpl. setoid_rewrite andb_true_r. apply Hg.
  - case_decide as Hemp.
    + intros [= <-]. subst acc. intros o. split; [set_solver|].
      intros (p & Hp & Hm). apply andb_prop in Hm as [Hm _]. apply Hg. eauto.
    + destruct (query_inner i f) as [b|]; [|done]. specialize (Hsel b eq_refl). simpl. intros Hrun.
      apply (IH (acc ∩ b) (fun p => g p && matches p f)) in Hrun.
      { intros o. rewrite (Hrun o). simpl. setoid_rewrite andb_assoc. done. }
      intros o. rewrite elem_of_intersection, (Hg o), (Hsel o). setoid_rewrite andb_true_iff. naive_solver.
Qed.

Lemma or_loop_selects R i g rest acc bm :
  selects R g acc ->
  Forall (fun f => forall bm, query_inner i f = Some bm -> selects R (fun p => matches p f) bm) rest ->
  (fix go (acc : RoaringBitmap) (l : list Filter) : option RoaringBitmap :=
     match l with
     | [] => Some acc
     | part :: l => b ← query_inner i part; go (acc ∪ b) l
     end) acc rest = Some bm ->
  selects R (fun p => g p || existsb (matches p) rest) bm.
Proof.
  intros Hg Hl. revert acc g Hg. induction Hl as [|f l Hsel _ IH]; intros acc g Hg.
  - intros [= <-] o. simpl. setoid_rewrite orb_false_r. apply Hg.
  - destruct (query_inner i f) as [b|]; [|done]. specialize (Hsel b eq_refl). simpl. intros Hrun.
    apply (IH (acc ∪ b) (fun p => g p || matches p f)) in Hrun.
    { intros o. rewrite (Hrun o). simpl. setoid_rewrite orb_assoc. done. }
    intros o. rewrite elem_of_union, (Hg o), (Hsel o). setoid_rewrite orb_true_iff. naive_solver.
Qed.

Lemma query_selects R i f bm :
  payload_rep R i -> query_inner i f = Some bm -> selects R (fun p => matches p f) bm.
Proof.
  intros Hr. revert bm. induction f as [field v|field low high|field q|l IH|l IH|f IH] using Filter_ind'; intros bm.
  - intros [= <-] o. unfold query_eq. fold (kw_of i). rewrite (rep_kw R i Hr).
    simpl. setoid_rewrite bool_decide_eq_true. done.
  - by apply query_range_selects.
  - intros [= <-]. apply selects_empty.
  - destruct l as [|f l]; [intros [= <-]; apply selects_empty|].
    apply Forall_cons in IH as [Hs HF]. simpl. destruct (query_inner i f) as [b|]; [|done]. simpl.
    apply and_loop_selects; [by apply Hs|done].
  - simpl. by apply (or_loop_selects R i (fun _ => false) l ∅ bm (selects_empty R)).
  - simpl. destruct (query_inner i f) as [b|]; [|done]. specialize (IH b eq_refl). intros [= <-] o.
    rewrite elem_of_difference, (rep_all R i Hr), (IH o). setoid_rewrite negb_true_iff. unfold is_Some. split.
    + intros [[p Hp] Hn]. exists p. split; [done|]. apply not_true_iff_false. eauto.
    + intros (p & Hp & Hm). split; [eauto|]. intros (p' & Hp' & Hm'). congruence.
Qed.

(** A filter without inverted ranges is evaluated. *)
Lemma query_returns i f : ranges_ok f = true -> exists bm, query_inner i f = Some bm.
Proof.
  induction f as [field v|field low high|field q|l IH|l IH|f IH] using Filter_ind'; intros Hok; try by eexists.
  - simpl in *. apply negb_true_iff in Hok. unfold query_range. destruct (numeric i !! field); [rewrite Hok|]; eauto.
  - simpl in Hok. destruct l as [|f l]; [by eexists|]. apply Forall_cons in IH as [Hf HF].
    cbn [forallb] in Hok. apply andb_prop in Hok as [Hf' Hl]. simpl. destruct (Hf Hf') as [b ->]. simpl. clear Hf Hf'.
    revert b. induction HF as [|f' l Hf _ IHl]; intros b; [by eexists|]. case_decide; [by eexists|].
    cbn [forallb] in Hl. apply andb_prop in Hl as [Hf' Hl]. destruct (Hf Hf') as [b' ->]. simpl. by apply IHl.
  - simpl in *. generalize (∅ : RoaringBitmap) as b. induction IH as [|f' l Hf _ IHl]; intros b; [by eexists|].
    cbn [forallb] in Hok. apply andb_prop in Hok as [Hf' Hl]. destruct (Hf Hf') as [b' ->]. simpl. by apply IHl.
  - simpl in *. destruct (IH Hok) as [b ->]. by eexists.
Qed.

(** ** Theorems *)


(** an inverted range on a field that has ever held a number makes the
    evaluation panic instead of matching nothing. *)
Theorem inverted_range_panics R i field tree low high :
  payload_run R i -> numeric i !! field = Some tree ->
  range_panics (map_bound low) (map_bound high) = true ->
  query i (Range field low high) = None /\ (forall p, matches p (Range field low high) = false).
Proof.
  intros _ Ht Hp. split; [unfold query; simpl; unfold query_range; by rewrite Ht, Hp|].
  intros p. simpl. apply not_true_iff_false. rewrite existsb_exists.
  intros ([f z] & _ & Hz). simpl in Hz. rewrite !andb_true_iff in Hz. destruct Hz as [[_ Hlo] Hhi].
  unfold range_panics, above, below in *.
  destruct (map_bound low), (map_bound high); try done; lia.
Qed.

End payload_index.

(** ** Concrete instances *)

Module Examples.

(** How the payload of a gist starts. *)
Definition gist_prefix : string :=
  String.String "{" (String.String (Ascii.ascii_of_nat 34) "gist").
(** Numbers as the bits of their double; two payload texts, and those of gists. *)
#[export] Instance ex_json : SerdeJson := {|
  Num := N;
  as_f64 n := Some n;
  num_to_string := u64_to_string;
  value_to_string _ := "?";
  from_str s :=
    if String.eqb s "A" then
      Some (Object [("tags", Array [String_ "rust"; String_ "ai"]);
                    ("count", Number 0x4045000000000000)])
    else if String.eqb s "B" then
      Some (Object [("tags", String_ "ai"); ("count", Number 0x401C000000000000)])
    else if String.prefix gist_prefix s then Some (Object [("gist", Bool true)])
    else None;
|}.

Definition ex_records : gmap N (option string) :=
  <[2 := Some "{"]> (<[1 := Some "B"]> (<[0 := Some "A"]> ∅)).
Definition ex_index : PayloadIndex :=
  (add (add (add new 0 (Some "A")).1 1 (Some "B")).1 2 (Some "{")).1.
(** "ai" and not below 10.0. *)
Definition ex_filter : Filter :=
  And [Eq_ "tags" (String_ "ai"); Not (Range "count" Unbounded (Excluded 0x4024000000000000))].

End Examples.
Import Examples.

Lemma ex_index_run : payload_run ex_records ex_index.
Proof.
  unfold ex_records, ex_index. repeat (apply run_add; [|reflexivity|reflexivity]). apply run_new.
Qed.


Lemma inverted_range_panics_witness :
  query ex_index (Range "count" (Included 0x4024000000000000) (Included 0x3FF0000000000000)) = None.
Proof.
  destruct (numeric ex_index !! "count") as [tree|] eqn:E; [|vm_compute in E; discriminate E].
  apply (inverted_range_panics ex_records ex_index "count" tree).
  - exact ex_index_run.
  - exact E.
  - vm_compute. reflexivity.
Defined.
