(* ===== verification/Segments.v ===== *)
(** * Segments: scoring, merging and the hot segment,
    [crates/turbomemory_storage/src/segments/mod.rs] and [segments/hot.rs]

    Scored points, the top-k selection, the two ways per-segment candidate lists
    are merged, exact search over offsets, and the appendable hot segment. The
    binary heap of the standard library is an interface: it returns a maximal
    element, and which one among equals is left open. *)

From S2P Require Import Prelude Core Metrics Record.

(** ** Data *)

Record ScoredPoint := {
  offset : N;
  score : f32;
  sp_tier : Tier;
}.

Record HotSegment := {
  h_dim : N;
  offsets : list N;
  seen : gset N;
}.

(** The vectors a search reads ([VectorStore::read_view]). *)
Abbreviation View := (N -> option (list f32)) (only parsing).

Abbreviation RoaringBitmap := (gset N) (only parsing).

(** ** [std::collections::BinaryHeap] over an order [R] ([R x y]: x is not above y) *)

Class BinaryHeap {A : Type} (R : A -> A -> Prop) := {
  heap_pop : list A -> option (A * list A);
  heap_pop_spec : forall h,
    match heap_pop h with
    | None => h = []
    | Some (x, h') => h ≡ₚ x :: h' /\ (forall y, y ∈ h' -> R y x)
    end;
}.

(** Best score first. *)
Definition point_le (a b : ScoredPoint) : Prop := score_le (score a) (score b).
(** [HeapScored]'s order, reversed by [Reverse]: the heap's top is the lowest score. *)
Definition rev_heap_le (a b : ScoredPoint) : Prop := point_le a b.

#[global] Instance point_le_dec a b : Decision (point_le a b).
Proof. unfold point_le. apply _. Defined.
#[global] Instance point_le_refl : Reflexive point_le.
Proof. intros a. apply score_le_refl. Qed.
#[global] Instance point_le_trans : Transitive point_le.
Proof. intros a b c. apply score_le_trans. Qed.
#[global] Instance point_le_total : Total point_le.
Proof. intros a b. apply score_le_total. Qed.

(** ** Top-k *)

Section top_k.
Context {H : BinaryHeap rev_heap_le}.

(** The loop of [top_k_minheap]; the heap is the list of its elements. *)
Fixpoint top_k_loop (k : N) (heap scored : list ScoredPoint) : list ScoredPoint :=
  match scored with
  | [] => heap
  | point :: scored =>
      if len heap <? k then top_k_loop k (point :: heap) scored
      else match heap_pop heap with
           | Some (min, heap') =>
               if f32_gtb (score point) (score min)
               then top_k_loop k (point :: heap') scored
               else top_k_loop k heap scored
           | None => top_k_loop k heap scored
           end
  end.

(** [into_sorted_vec] of the [Reverse]d points puts the highest score first; the
    code then reverses it. *)
Definition top_k_minheap (scored : list ScoredPoint) (k : N) : list ScoredPoint :=
  if k =? 0 then [] else
  reverse (sort_by point_le (top_k_loop k [] scored)).

End top_k.

(** ** Merging candidate lists *)

(** The loop shared by both merges: keep the first occurrence of an offset, stop
    once [k] are kept. *)
Fixpoint dedup_loop (k : N) (seen : gset N) (out : list ScoredPoint) (l : list ScoredPoint)
    : list ScoredPoint :=
  match l with
  | [] => out
  | c :: l =>
      if decide (offset c ∈ seen) then dedup_loop k seen out l
      else
        let out := out ++ [c] in
        if k <=? len out then out else dedup_loop k ({[offset c]} ∪ seen) out l
  end.

Definition merge_candidates (lists : list (list ScoredPoint)) (top_k : N) : list ScoredPoint :=
  dedup_loop top_k ∅ [] (sort_by point_le (concat lists)).

(** A heap item of the k-way merge: score, list, position. *)
Record Item := { i_score : f32; i_list : nat; i_idx : nat }.
Definition item_le (a b : Item) : Prop := score_le (i_score b) (i_score a).

Section kway.
Context {H : BinaryHeap item_le}.

Definition item_at (lists : list (list ScoredPoint)) (l idx : nat) : option Item :=
  list ← lists !! l; c ← list !! idx; Some {| i_score := score c; i_list := l; i_idx := idx |}.

(** The initial heap: the head of every non-empty list. *)
Definition kway_init (lists : list (list ScoredPoint)) : list Item :=
  omap (fun l => item_at lists l 0) (seq 0 (length lists)).

(** The [while let] loop; [fuel] bounds the number of pops. *)
Fixpoint kway_loop (fuel : nat) (lists : list (list ScoredPoint)) (k : N) (heap : list Item)
    (seen : gset N) (out : list ScoredPoint) : list ScoredPoint :=
  match fuel with
  | O => out
  | S fuel =>
      match heap_pop heap with
      | None => out
      | Some (item, heap) =>
          let heap' := match item_at lists (i_list item) (S (i_idx item)) with
                       | Some next => next :: heap
                       | None => heap
                       end in
          match list ← lists !! i_list item; list !! i_idx item with
          | None => out
          | Some candidate =>
              if decide (offset candidate ∈ seen) then kway_loop fuel lists k heap' seen out
              else
                let out := out ++ [candidate] in
                if k <=? len out then out
                else kway_loop fuel lists k heap' ({[offset candidate]} ∪ seen) out
          end
      end
  end.

Definition kway_merge_topk (lists : list (list ScoredPoint)) (k : N) : list ScoredPoint :=
  if k =? 0 then [] else
  match lists with
  | [] => []
  | [v] => take (N.to_nat k) v
  | _ => kway_loop (S (length (concat lists))) lists k (kway_init lists) ∅ []
  end.

End kway.

(** ** Exact search *)

Definition CHUNK : nat := 64.

Fixpoint chunks_fuel {A} (fuel n : nat) (l : list A) : list (list A) :=
  match fuel, l with
  | S fuel, _ :: _ => take n l :: chunks_fuel fuel n (drop n l)
  | _, _ => []
  end.
Definition chunks {A} (n : nat) (l : list A) : list (list A) := chunks_fuel (length l) n l.

Section exact.
Context {K : Kernels}.

(** One chunk: read the vectors, score them in a batch. *)
Definition score_chunk (query : list f32) (view : View) (tier : Tier) (chunk : list N)
    : list ScoredPoint :=
  let pairs := omap (fun o => v ← view o; Some (o, v)) chunk in
  let scores := cosine_similarity_batch query (pairs.*2) in
  zip_with (fun p s => {| offset := p.1; score := s; sp_tier := tier |}) pairs scores.

Definition score_all (query : list f32) (view : View) (tier : Tier) (l : list N)
    : list ScoredPoint :=
  concat (map (score_chunk query view tier) (chunks CHUNK l)).

Definition exact_search_over_offsets (query : list f32) (top_k : N) (view : View) (dim : N)
    (offsets : list N) (tier : Tier) : Result StorageError (list ScoredPoint) :=
  _ ← map_err Core (validate_dimension query dim);
  Ok (take (N.to_nat top_k) (sort_by point_le (score_all query view tier offsets))).

(** ** The hot segment *)

Definition hot_new (dim : N) : HotSegment := {| h_dim := dim; offsets := []; seen := ∅ |}.

Definition hot_insert (h : HotSegment) (o : N) (embedding : list f32)
    : HotSegment * Result StorageError unit :=
  match validate_dimension embedding (h_dim h) with
  | Err e => (h, Err (Core e))
  | Ok _ =>
      if decide (o ∈ seen h) then (h, Ok tt)
      else ({| h_dim := h_dim h; offsets := offsets h ++ [o]; seen := {[o]} ∪ seen h |}, Ok tt)
  end.

(** The loop of [from_records] and [rebuild]: stops at the first error. *)
Fixpoint hot_insert_all (h : HotSegment) (rs : list (N * Record_))
    : HotSegment * Result StorageError unit :=
  match rs with
  | [] => (h, Ok tt)
  | (o, r) :: rs =>
      match hot_insert h o (r_embedding r) with
      | (h, Ok _) => hot_insert_all h rs
      | (h, Err e) => (h, Err e)
      end
  end.
Definition hot_rebuild (h : HotSegment) (rs : list (N * Record_))
    : HotSegment * Result StorageError unit :=
  hot_insert_all {| h_dim := h_dim h; offsets := []; seen := ∅ |} rs.

Definition hot_point_count (h : HotSegment) : N := len (offsets h).

Definition allowed (bitmap : option RoaringBitmap) (o : N) : bool :=
  match bitmap with Some b => bool_decide (as_u32 o ∈ b) | None => true end.

Definition hot_search (h : HotSegment) (query : list f32) (top_k : N) (view : View)
    (allowed_offsets : option RoaringBitmap) : Result StorageError (list ScoredPoint) :=
  _ ← map_err Core (validate_dimension query (h_dim h));
  let filtered := filter (fun o => allowed allowed_offsets o) (offsets h) in
  Ok (take (N.to_nat top_k) (sort_by point_le (score_all query view Hot filtered))).

End exact.

(** ** Deduplication *)

(** First occurrences, without the early stop. *)
Fixpoint dedup_all (seen : gset N) (l : list ScoredPoint) : list ScoredPoint :=
  match l with
  | [] => []
  | c :: l => if decide (offset c ∈ seen) then dedup_all seen l
              else c :: dedup_all ({[offset c]} ∪ seen) l
  end.

Lemma dedup_loop_take k seen out l :
  len out < k ->
  dedup_loop k seen out l = out ++ take (N.to_nat (k - len out)) (dedup_all seen l).
Proof.
  revert seen out. induction l as [|c l IH]; intros seen out Hk; simpl.
  { by rewrite take_nil, app_nil_r. }
  case_decide; [by apply IH|].
  replace (N.to_nat (k - len out)) with (S (N.to_nat (k - (len out + 1)))) by lia. simpl.
  rewrite len_app, len_cons, len_nil. destruct (N.leb_spec k (len out + (1 + 0))) as [Hle|Hgt].
  - by replace (N.to_nat (k - (len out + 1))) with 0%nat by lia.
  - rewrite IH by (rewrite len_app, len_cons, len_nil; lia).
    rewrite len_app, len_cons, len_nil, <- app_assoc. simpl. repeat f_equal; lia.
Qed.

Lemma dedup_all_elem seen l c : c ∈ dedup_all seen l -> c ∈ l /\ offset c ∉ seen.
Proof.
  revert seen. induction l as [|d l IH]; intros seen; simpl; [set_solver|].
  case_decide; [set_solver|]. rewrite elem_of_cons. intros [->|Hc]; [set_solver|].
  apply IH in Hc. set_solver.
Qed.

Lemma dedup_all_nodup seen l : NoDup (offset <$> dedup_all seen l).
Proof.
  revert seen. induction l as [|d l IH]; intros seen; simpl; [constructor|].
  case_decide; [done|]. simpl. constructor; [|done].
  intros (c & Hc & Hin)%list_elem_of_fmap. apply dedup_all_elem in Hin. set_solver.
Qed.

Lemma dedup_all_unique seen l c d :
  c ∈ dedup_all seen l -> d ∈ dedup_all seen l -> offset c = offset d -> c = d.
Proof.
  intros [i Hi]%list_elem_of_lookup [j Hj]%list_elem_of_lookup Ho.
  pose proof (dedup_all_nodup seen l) as Hnd.
  assert (i = j) as ->; [|congruence].
  eapply NoDup_lookup; [exact Hnd| |]; rewrite list_lookup_fmap;
    [rewrite Hi|rewrite Hj]; simpl; [done|by f_equal].
Qed.

Lemma dedup_all_sorted seen l :
  StronglySorted point_le l -> StronglySorted point_le (dedup_all seen l).
Proof.
  intros Hs. revert seen. induction Hs as [|d l Hl IH Hd]; intros seen; simpl; [constructor|].
  case_decide; [done|]. constructor; [done|]. apply Forall_forall. intros c Hc.
  rewrite Forall_forall in Hd. apply Hd. by apply dedup_all_elem in Hc as [? _].
Qed.

(** The entry kept for an offset is the best one. *)
Lemma dedup_all_best seen l c :
  StronglySorted point_le l -> c ∈ l -> offset c ∉ seen ->
  exists d, d ∈ dedup_all seen l /\ offset d = offset c /\ point_le d c.
Proof.
  intros Hs. revert seen. induction Hs as [|d l Hl IH Hd]; intros seen Hc Hns; simpl; [set_solver|].
  apply elem_of_cons in Hc as [->|Hc].
  - case_decide; [done|]. exists d. split; [set_solver|by split].
  - case_decide as Hin.
    + by apply IH.
    + destruct (decide (offset c = offset d)) as [E|E].
      * exists d. split; [set_solver|]. split; [done|]. rewrite Forall_forall in Hd. by apply Hd.
      * destruct (IH ({[offset d]} ∪ seen)) as (e & He & ? & ?); [done|set_solver|].
        exists e. split; [set_solver|done].
Qed.

(** ** The order on scores *)

Definition key (p : ScoredPoint) : option Z := score_key (score p).
Definition key_le (a b : option Z) : Prop := key_desc a b <> Gt.

Lemma point_le_key a b : point_le a b <-> key_le (key a) (key b).
Proof. unfold point_le, score_le, key_le, key. by rewrite cmp_score_desc_key. Qed.

#[global] Instance key_le_antisymm : AntiSymm eq key_le.
Proof.
  intros [x|] [y|]; unfold key_le; simpl; intros H1 H2; try done.
  f_equal. rewrite Z.compare_le_iff in H1, H2. lia.
Qed.

(** The offsets kept and the scores kept for them do not depend on the order of
    equal scores. *)
Lemma dedup_all_keys l1 l2 :
  StronglySorted point_le l1 -> StronglySorted point_le l2 -> l1 ≡ₚ l2 ->
  key <$> dedup_all ∅ l1 = key <$> dedup_all ∅ l2.
Proof.
  intros H1 H2 Hp.
  assert (Hsub : forall l1 l2, StronglySorted point_le l1 -> StronglySorted point_le l2 -> l1 ≡ₚ l2 ->
    forall ok, ok ∈ ((fun c => (offset c, key c)) <$> dedup_all ∅ l1) ->
               ok ∈ ((fun c => (offset c, key c)) <$> dedup_all ∅ l2)).
  { clear. intros l1 l2 H1 H2 Hp ok (c & -> & Hc)%list_elem_of_fmap.
    pose proof (dedup_all_elem _ _ _ Hc) as [Hc1 _].
    destruct (dedup_all_best ∅ l2 c H2) as (d & Hd & Ho & Hle); [by rewrite <- Hp|set_solver|].
    apply list_elem_of_fmap. exists d. split; [|done]. rewrite Ho. f_equal.
    pose proof (dedup_all_elem _ _ _ Hd) as [Hd2 _].
    destruct (dedup_all_best ∅ l1 d H1) as (c' & Hc' & Ho' & Hle'); [by rewrite Hp|set_solver|].
    assert (c' = c) as -> by (apply (dedup_all_unique ∅ l1); [done|done|congruence]).
    apply (anti_symm key_le); by apply point_le_key. }
  assert (Hperm : ((fun c => (offset c, key c)) <$> dedup_all ∅ l1) ≡ₚ
                  ((fun c => (offset c, key c)) <$> dedup_all ∅ l2)).
  { assert (Hnd : forall l, NoDup ((fun c => (offset c, key c)) <$> dedup_all ∅ l)).
    { intros l. apply (NoDup_fmap_1 fst). rewrite <- list_fmap_compose. apply dedup_all_nodup. }
    apply NoDup_Permutation; [apply Hnd|apply Hnd|].
    intros ok. split; by apply Hsub. }
  assert (Hk : forall l, key <$> l = ((fun c => (offset c, key c)) <$> l).*2)
    by (intros l; by rewrite <- list_fmap_compose).
  assert (Hs : forall l, StronglySorted point_le l -> StronglySorted key_le (key <$> dedup_all ∅ l)).
  { intros l Hl. eapply StronglySorted_fmap; [|by apply (dedup_all_sorted ∅ l)].
    intros x y. apply point_le_key. }
  apply (StronglySorted_unique key_le); [by apply Hs|by apply Hs|].
  rewrite !Hk. by rewrite Hperm.
Qed.

(** ** The k-way merge *)

Section kway_proofs.
Context {H : BinaryHeap item_le}.
Implicit Types (lists : list (list ScoredPoint)).

(** The candidates in the order the heap yields them. *)
Fixpoint kway_seq (fuel : nat) lists (heap : list Item) : list ScoredPoint :=
  match fuel with
  | O => []
  | S fuel =>
      match heap_pop heap with
      | None => []
      | Some (item, heap) =>
          let heap' := match item_at lists (i_list item) (S (i_idx item)) with
                       | Some next => next :: heap
                       | None => heap
                       end in
          match list ← lists !! i_list item; list !! i_idx item with
          | None => []
          | Some candidate => candidate :: kway_seq fuel lists heap'
          end
      end
  end.

Lemma kway_loop_seq fuel lists k heap sn out :
  kway_loop fuel lists k heap sn out = dedup_loop k sn out (kway_seq fuel lists heap).
Proof.
  revert heap sn out. induction fuel as [|fuel IH]; intros heap sn out; simpl; [done|].
  destruct (heap_pop heap) as [[item heap1]|]; [|done].
  destruct (list ← lists !! i_list item; list !! i_idx item) as [c|]; [|done]. simpl.
  case_decide; [apply IH|]. destruct (k <=? len (out ++ [c])); [done|]. apply IH.
Qed.

Definition item_ok lists (it : Item) : Prop := item_at lists (i_list it) (i_idx it) = Some it.
Definition rest lists (it : Item) : list ScoredPoint :=
  drop (i_idx it) (default [] (lists !! i_list it)).
Definition remaining lists (heap : list Item) : list ScoredPoint := concat (map (rest lists) heap).

Lemma item_ok_rest lists it :
  item_ok lists it ->
  exists c, (list ← lists !! i_list it; list !! i_idx it) = Some c /\ score c = i_score it /\
    rest lists it = c :: drop (S (i_idx it)) (default [] (lists !! i_list it)).
Proof.
  unfold item_ok, item_at, rest. destruct (lists !! i_list it) as [l|] eqn:Hl; [simpl|done].
  destruct (l !! i_idx it) as [c|] eqn:Hc; [simpl|done]. intros [= E].
  exists c. split; [done|]. split; [by rewrite <- E|]. by apply drop_S.
Qed.

(** The successor of a popped item covers exactly what is left of its list. *)
Lemma next_rest lists it :
  item_ok lists it ->
  match item_at lists (i_list it) (S (i_idx it)) with
  | Some next => item_ok lists next /\
      rest lists next = drop (S (i_idx it)) (default [] (lists !! i_list it))
  | None => drop (S (i_idx it)) (default [] (lists !! i_list it)) = []
  end.
Proof.
  unfold item_ok, item_at, rest. destruct (lists !! i_list it) as [l|] eqn:Hl; [simpl|done].
  intros _. destruct (l !! S (i_idx it)) as [c|] eqn:Hc; simpl.
  - rewrite Hl. simpl. by rewrite Hc.
  - apply drop_ge. by apply lookup_ge_None_1.
Qed.

Lemma remaining_perm lists h1 h2 : h1 ≡ₚ h2 -> remaining lists h1 ≡ₚ remaining lists h2.
Proof. intros Hp. unfold remaining. by rewrite Hp. Qed.

Lemma kway_seq_spec fuel lists heap :
  Forall (StronglySorted point_le) lists -> Forall (item_ok lists) heap ->
  (length (remaining lists heap) <= fuel)%nat ->
  kway_seq fuel lists heap ≡ₚ remaining lists heap /\
  StronglySorted point_le (kway_seq fuel lists heap).
Proof.
  intros Hls. revert heap. induction fuel as [|fuel IH]; intros heap Hok Hlen.
  { destruct heap as [|it heap]; [by split; [|constructor]|exfalso].
    apply Forall_cons in Hok as [Hit _].
    destruct (item_ok_rest lists it Hit) as (c & _ & _ & Hr).
    unfold remaining in Hlen. simpl in Hlen. rewrite Hr in Hlen. simpl in Hlen. lia. }
  simpl. pose proof (heap_pop_spec heap) as Hpop.
  destruct (heap_pop heap) as [[it heap1]|]; [|subst heap; by split; [|constructor]].
  destruct Hpop as [Hp Hmax]. rewrite Hp in Hok. apply Forall_cons in Hok as [Hit Hok1].
  destruct (item_ok_rest lists it Hit) as (c & Hc & Hsc & Hr). rewrite Hc.
  pose proof (next_rest lists it Hit) as Hn.
  set (heap' := match item_at lists (i_list it) (S (i_idx it)) with
                | Some next => next :: heap1 | None => heap1 end).
  set (tl := drop (S (i_idx it)) (default [] (lists !! i_list it))) in *.
  assert (Hrem' : remaining lists heap' = tl ++ remaining lists heap1 /\ Forall (item_ok lists) heap').
  { unfold heap'. destruct (item_at lists (i_list it) (S (i_idx it))) as [next|].
    - destruct Hn as [Hn1 Hn2]. unfold remaining. simpl. rewrite Hn2. split; [done|by constructor].
    - by rewrite Hn. }
  destruct Hrem' as [Hrem' Hok'].
  assert (Hrem : remaining lists heap ≡ₚ c :: remaining lists heap').
  { rewrite (remaining_perm _ _ _ Hp), Hrem'. unfold remaining at 1. simpl. by rewrite Hr. }
  destruct (IH heap' Hok') as [IH1 IH2].
  { pose proof (Permutation_length Hrem) as Hl. simpl in Hl. lia. }
  split; [by rewrite Hrem, IH1|]. constructor; [done|].
  rewrite IH1, Hrem'. apply Forall_app.
  assert (Hsl : forall it', item_ok lists it' -> StronglySorted point_le (rest lists it')).
  { intros it' Hit'. unfold rest. destruct (lists !! i_list it') as [l|] eqn:Hl;
      [|simpl; rewrite drop_nil; constructor]. rewrite Forall_lookup in Hls. specialize (Hls _ _ Hl). simpl.
    rewrite <- (take_drop (i_idx it') l) in Hls. by apply StronglySorted_app in Hls as (_ & _ & ?). }
  split.
  - pose proof (Hsl it Hit) as Hs. rewrite Hr in Hs. by apply StronglySorted_inv in Hs as [_ ?].
  - apply Forall_forall. intros x (r & Hxr & Hrx)%list_elem_of_In%in_concat.
    apply in_map_iff in Hxr as (y & <- & Hy). apply list_elem_of_In in Hy, Hrx.
    rewrite Forall_forall in Hok1. pose proof (Hok1 y Hy) as Hyo.
    destruct (item_ok_rest lists y Hyo) as (d & _ & Hsd & Hry).
    pose proof (Hsl y Hyo) as Hs. rewrite Hry in Hs, Hrx.
    apply StronglySorted_inv in Hs as [_ Hs]. rewrite Forall_forall in Hs.
    assert (Hcd : point_le c d).
    { unfold point_le. rewrite Hsc, Hsd. by apply Hmax. }
    apply elem_of_cons in Hrx as [->|Hrx]; [done|]. etrans; [exact Hcd|by apply Hs].
Qed.

Lemma kway_init_ok lists : Forall (item_ok lists) (kway_init lists).
Proof.
  apply Forall_forall. intros it. unfold kway_init. rewrite list_elem_of_omap.
  intros (l & _ & Hl). unfold item_ok. revert Hl. unfold item_at.
  destruct (lists !! l) as [x|] eqn:Hx; [simpl|done].
  destruct (x !! 0%nat) as [c|] eqn:Hc; [simpl|done]. intros [= <-]. simpl.
  by rewrite Hx; simpl; rewrite Hc.
Qed.

Lemma kway_init_remaining lists : remaining lists (kway_init lists) = concat lists.
Proof.
  assert (Hg : forall suf pre, lists = pre ++ suf ->
    remaining lists (omap (fun l => item_at lists l 0) (seq (length pre) (length suf))) = concat suf).
  { induction suf as [|x suf IH]; intros pre Hl; simpl; [done|].
    specialize (IH (pre ++ [x])). rewrite length_app in IH. simpl in IH.
    rewrite Nat.add_1_r in IH.
    assert (Hx : lists !! length pre = Some x) by (rewrite Hl; by apply list_lookup_middle).
    unfold item_at at 1. rewrite Hx. simpl. rewrite <- IH by (by rewrite Hl, <- app_assoc).
    destruct x as [|c x]; simpl; [done|]. unfold remaining. simpl. f_equal.
    unfold rest. simpl. by rewrite Hx. }
  by apply (Hg lists []).
Qed.

End kway_proofs.

(** ** What a merge promises *)

(** [out] is the best [k] of the candidates [l] after keeping, for each offset,
    its best score: sorted, without duplicate offsets, as many as there are
    distinct offsets up to [k], and nothing left out beats what was kept. *)
Record best_k (k : N) (l out : list ScoredPoint) : Prop := {
  bk_nodup : NoDup (offset <$> out);
  bk_sorted : StronglySorted point_le out;
  bk_length : len out = N.min k (N.of_nat (size (list_to_set (offset <$> l) : gset N)));
  bk_member : forall d, d ∈ out -> d ∈ l /\ (forall c, c ∈ l -> offset c = offset d -> point_le d c);
  bk_rest : forall c d, c ∈ l -> offset c ∉ offset <$> out -> d ∈ out -> point_le d c;
}.

Lemma take_dedup_best_k k l l' :
  StronglySorted point_le l' -> l' ≡ₚ l -> best_k k l (take (N.to_nat k) (dedup_all ∅ l')).
Proof.
  intros Hs Hp. set (D := dedup_all ∅ l'). set (n := N.to_nat k).
  assert (HDs : StronglySorted point_le D) by by apply dedup_all_sorted.
  assert (HDn : NoDup (offset <$> D)) by apply dedup_all_nodup.
  assert (Hin : forall d, d ∈ take n D -> d ∈ D) by (intros d Hd; rewrite <- (take_drop n D); set_solver).
  split.
  - rewrite fmap_take. rewrite <- (take_drop n (offset <$> D)) in HDn.
    by apply NoDup_app in HDn as [? _].
  - rewrite <- (take_drop n D) in HDs. by apply StronglySorted_app in HDs as (_ & ? & _).
  - assert (Hsz : size (list_to_set (offset <$> l) : gset N) = length D).
    { rewrite <- (length_fmap offset D), <- (size_list_to_set (C := gset N)) by done.
      f_equal. apply set_eq. intros o. rewrite !elem_of_list_to_set, !list_elem_of_fmap. split.
      - intros (c & -> & Hc). destruct (dedup_all_best ∅ l' c Hs) as (d & Hd & Ho & _);
          [by rewrite Hp|set_solver|]. eauto.
      - intros (d & -> & Hd). apply dedup_all_elem in Hd as [Hd _]. rewrite Hp in Hd. eauto. }
    rewrite Hsz. unfold len. rewrite length_take. lia.
  - intros d Hd. apply Hin in Hd. pose proof (dedup_all_elem _ _ _ Hd) as [Hd' _].
    split; [by rewrite <- Hp|]. intros c Hc Ho.
    destruct (dedup_all_best ∅ l' c Hs) as (e & He & Hoe & Hle); [by rewrite Hp|set_solver|].
    replace d with e; [done|]. apply (dedup_all_unique ∅ l'); [done|done|congruence].
  - intros c d Hc Hno Hd.
    destruct (dedup_all_best ∅ l' c Hs) as (e & He & Hoe & Hle); [by rewrite Hp|set_solver|].
    etrans; [|exact Hle]. apply (sorted_take_drop point_le n D); [done|done|].
    fold D in He. rewrite <- (take_drop n D) in He. apply elem_of_app in He as [He|He]; [|done].
    exfalso. apply Hno. apply list_elem_of_fmap. eauto.
Qed.

Lemma merge_candidates_take lists k :
  0 < k -> merge_candidates lists k = take (N.to_nat k) (dedup_all ∅ (sort_by point_le (concat lists))).
Proof.
  intros Hk. unfold merge_candidates. rewrite dedup_loop_take by (rewrite len_nil; lia).
  rewrite len_nil, N.sub_0_r. done.
Qed.

Section merge_theorems.
Context {H : BinaryHeap item_le}.

Lemma kway_take lists k :
  0 < k -> (2 <= length lists)%nat ->
  kway_merge_topk lists k =
  take (N.to_nat k) (dedup_all ∅ (kway_seq (S (length (concat lists))) lists (kway_init lists))).
Proof.
  intros Hk Hl. unfold kway_merge_topk. rewrite (proj2 (N.eqb_neq _ _)) by lia.
  destruct lists as [|a [|b lists]]; simpl in Hl; [lia|lia|].
  rewrite kway_loop_seq, dedup_loop_take by (rewrite len_nil; lia).
  rewrite len_nil, N.sub_0_r. done.
Qed.

(** the sort-based merge of candidate lists returns the best [k] candidates
    with the duplicates of an offset removed in favour of its highest score,
    whatever the lists are; NaN scores come last. *)
Theorem merge_candidates_best lists k :
  0 < k -> best_k k (concat lists) (merge_candidates lists k).
Proof.
  intros Hk. rewrite merge_candidates_take by done.
  apply take_dedup_best_k; [apply sort_by_sorted; apply _|apply sort_by_perm].
Qed.

(** on lists sorted by descending score, the k-way heap merge terminates
    within one pop per candidate and is equivalent to the sort-based merge: it
    also returns the best [k] candidates, with exactly the same scores, however
    the heap breaks ties. *)
Theorem kway_equivalent lists k :
  0 < k -> (2 <= length lists)%nat -> Forall (StronglySorted point_le) lists ->
  best_k k (concat lists) (kway_merge_topk lists k) /\
  key <$> kway_merge_topk lists k = key <$> merge_candidates lists k.
Proof.
  intros Hk Hl Hs. rewrite kway_take, merge_candidates_take by done.
  destruct (kway_seq_spec (S (length (concat lists))) lists (kway_init lists) Hs (kway_init_ok lists))
    as [Hp Hsorted]; [rewrite kway_init_remaining; lia|].
  rewrite kway_init_remaining in Hp.
  split; [by apply take_dedup_best_k|].
  rewrite !fmap_take. f_equal. apply dedup_all_keys; [done|apply sort_by_sorted; apply _|].
  by rewrite Hp, sort_by_perm.
Qed.

End merge_theorems.

(** ** Top-k *)

Lemma f32_geb_trans a b c : f32_geb a b = true -> f32_geb b c = true -> f32_geb a c = true.
Proof. unfold f32_geb. rewrite !andb_true_iff, !Z.leb_le. intros [[? ?] ?] [[? ?] ?]. repeat split; auto; lia. Qed.

Lemma score_le_geb a b : is_nan a = false -> is_nan b = false -> score_le a b -> f32_geb a b = true.
Proof.
  intros Ha Hb. unfold score_le, cmp_score_desc, f32_geb. rewrite Ha, Hb. simpl.
  unfold total_cmp. rewrite Z.compare_le_iff, Z.leb_le. unfold total_key, real_key.
  destruct (f32_sign a), (f32_sign b); lia.
Qed.

Lemma f32_gtb_geb a b : f32_gtb a b = true -> f32_geb a b = true.
Proof.
  unfold f32_gtb, f32_geb. rewrite !andb_true_iff, Z.ltb_lt, Z.leb_le.
  intros [[? ?] ?]. repeat split; auto; lia.
Qed.
Lemma not_gtb_geb a b :
  is_nan a = false -> is_nan b = false -> f32_gtb a b = false -> f32_geb b a = true.
Proof.
  unfold f32_gtb, f32_geb. intros -> ->. simpl. rewrite Z.ltb_ge, Z.leb_le. done.
Qed.

(** Every point of [kept] is at least every point of [out], as floats. *)
Definition dominates (kept out : list ScoredPoint) : Prop :=
  forall a b, a ∈ kept -> b ∈ out -> f32_geb (score a) (score b) = true.

Section top_k_proofs.
Context {H : BinaryHeap rev_heap_le}.

(** The top of the heap is a minimum. *)
Lemma heap_min heap m heap1 :
  heap_pop heap = Some (m, heap1) -> (forall a, a ∈ heap -> is_nan (score a) = false) ->
  heap ≡ₚ m :: heap1 /\ dominates heap [m].
Proof.
  intros Hpop Hnn. pose proof (heap_pop_spec heap) as Hs. rewrite Hpop in Hs.
  destruct Hs as [Hp Hmin]. split; [done|]. intros a b Ha Hb.
  assert (b = m) as -> by set_solver.
  apply score_le_geb; [by apply Hnn|apply Hnn; rewrite Hp; set_solver|].
  rewrite Hp in Ha. apply elem_of_cons in Ha as [->|Ha]; [apply score_le_refl|by apply Hmin].
Qed.

Lemma top_k_loop_spec k heap scored rest done_ :
  0 < k -> len heap <= k -> Forall (fun p => is_nan (score p) = false) (heap ++ scored) ->
  heap ++ rest ≡ₚ done_ -> (len heap < k -> rest = []) ->
  dominates heap rest ->
  exists heap' rest', top_k_loop k heap scored = heap' /\ heap' ++ rest' ≡ₚ done_ ++ scored /\
    len heap' = N.min k (len done_ + len scored) /\
    dominates heap' rest'.
Proof.
  revert heap rest done_. induction scored as [|p scored IH]; intros heap rest done_ Hk Hle Hn Hp Hr Hge; simpl.
  { exists heap, rest. rewrite app_nil_r. split_and!; auto.
    pose proof (Permutation_length Hp) as Hl. rewrite length_app in Hl. unfold len in *. simpl.
    destruct (decide (N.of_nat (length heap) < k)) as [Hlt|]; [rewrite (Hr Hlt) in Hl|]; simpl in *; lia. }
  assert (Hcount : forall d : list ScoredPoint, len (d ++ [p]) + len scored = len d + len (p :: scored))
    by (intros d; rewrite len_app, !len_cons, len_nil; lia).
  destruct (N.ltb_spec (len heap) k) as [Hlt|Hfull].
  - rewrite (Hr Hlt), app_nil_r in Hp.
    destruct (IH (p :: heap) [] (done_ ++ [p])) as (h' & r' & E & H1 & H2 & H3); auto.
    { rewrite len_cons. lia. }
    { eapply Permutation_Forall; [|exact Hn]. simpl. by rewrite <- Permutation_middle. }
    { rewrite app_nil_r, Hp. by rewrite Permutation_app_comm. }
    { intros a b _ Hb. set_solver. }
    exists h', r'. rewrite Hcount in H2. rewrite <- app_assoc in H1. by split_and!.
  - pose proof (heap_pop_spec heap) as Hpop.
    assert (Hnn : forall a, a ∈ heap -> is_nan (score a) = false).
    { intros a Ha. rewrite Forall_forall in Hn. apply Hn. set_solver. }
    destruct (heap_pop heap) as [[m heap1]|] eqn:Em; [|subst heap; rewrite len_nil in Hfull; lia].
    destruct (heap_min heap m heap1 Em Hnn) as [Hpm Hmh]. clear Hpop.
    assert (Hnp : is_nan (score p) = false) by (rewrite Forall_forall in Hn; apply Hn; set_solver).
    assert (Hm : m ∈ heap) by (rewrite Hpm; set_solver).
    assert (Hl1 : len heap = len (m :: heap1)) by (unfold len; by rewrite Hpm).
    assert (Hl2 : len (m :: heap1) = len (p :: heap1)) by by rewrite !len_cons.
    destruct (f32_gtb (score p) (score m)) eqn:Hgt.
    + destruct (IH (p :: heap1) (m :: rest) (done_ ++ [p])) as (h' & r' & E & H1 & H2 & H3); auto.
      { lia. }
      { eapply Permutation_Forall; [|exact (Forall_inv_tail (P := fun p => is_nan (score p) = false)
          (a := m) (l := heap1 ++ p :: scored) ltac:(change (m :: heap1 ++ p :: scored) with
            ((m :: heap1) ++ p :: scored); by rewrite <- Hpm))].
        simpl. by rewrite <- Permutation_middle. }
      { simpl. rewrite <- Permutation_middle, <- Hp. rewrite Hpm. simpl. solve_Permutation. }
      { lia. }
      { intros a b [->|Ha]%elem_of_cons [->|Hb]%elem_of_cons.
        - by apply f32_gtb_geb.
        - eapply f32_geb_trans; [by apply f32_gtb_geb|by apply (Hge m b)].
        - apply Hmh; [rewrite Hpm|]; set_solver.
        - apply Hge; [rewrite Hpm; set_solver|done]. }
      exists h', r'. rewrite Hcount in H2. rewrite <- app_assoc in H1. by split_and!.
    + destruct (IH heap (p :: rest) (done_ ++ [p])) as (h' & r' & E & H1 & H2 & H3); auto.
      { apply Forall_app in Hn as [? Hn2]. apply Forall_app. split; [done|].
        by apply Forall_cons in Hn2 as [_ ?]. }
      { rewrite <- Permutation_middle, Hp. by rewrite Permutation_app_comm. }
      { lia. }
      { intros a b Ha [->|Hb]%elem_of_cons; [|by apply Hge].
        eapply f32_geb_trans; [apply (Hmh a m); set_solver|]. apply not_gtb_geb; auto. }
      exists h', r'. rewrite Hcount in H2. rewrite <- app_assoc in H1. by split_and!.
Qed.

(** on points without NaN scores, [top_k_minheap] selects the [k] highest
    scores (all points if there are fewer), and nothing it leaves out is above
    anything it keeps; however, the order of the result is from the lowest score
    to the highest. *)
Theorem top_k_selects scored k :
  Forall (fun p => is_nan (score p) = false) scored -> 0 < k ->
  exists out, top_k_minheap scored k ++ out ≡ₚ scored /\
    len (top_k_minheap scored k) = N.min k (len scored) /\
    dominates (top_k_minheap scored k) out /\
    StronglySorted point_le (reverse (top_k_minheap scored k)).
Proof.
  intros Hn Hk. unfold top_k_minheap. rewrite (proj2 (N.eqb_neq _ _)) by lia.
  destruct (top_k_loop_spec k [] scored [] []) as (h & r & E & H1 & H2 & H3);
    [done|rewrite len_nil; lia|done|done|done|intros a b Ha; set_solver|].
  rewrite E. set (res := reverse (sort_by point_le h)).
  assert (Hp : res ≡ₚ h) by (unfold res; by rewrite reverse_Permutation, sort_by_perm).
  exists r. split_and!.
  - by rewrite Hp.
  - unfold len in *. by rewrite Hp.
  - intros a b Ha Hb. apply H3; [by rewrite <- Hp|done].
  - unfold res. rewrite reverse_involutive. apply sort_by_sorted; apply _.
Qed.

End top_k_proofs.

(** ** Exact search *)

Lemma concat_chunks {A} n (l : list A) : (0 < n)%nat -> concat (chunks n l) = l.
Proof.
  intros Hn. unfold chunks. assert (Hf : (length l <= length l)%nat) by lia.
  revert Hf. generalize (length l) at 2 3 as fuel. intros fuel. revert l.
  induction fuel as [|fuel IH]; intros [|x l] Hf; simpl in *; try done; [lia|].
  destruct n as [|n]; [lia|]. simpl. f_equal. rewrite IH; [apply take_drop|].
  rewrite length_drop. lia.
Qed.

Section exact_proofs.
Context {K : Kernels}.

Lemma score_chunk_offsets q view t l :
  offset <$> score_chunk q view t l = filter (fun o => is_Some (view o)) l.
Proof.
  unfold score_chunk. set (pairs := omap _ l).
  assert (Ho : pairs.*1 = filter (fun o => is_Some (view o)) l).
  { unfold pairs. induction l as [|o l IH]; simpl; [done|].
    destruct (view o) as [v|] eqn:E; simpl.
    - rewrite filter_cons_True by (by rewrite E). by f_equal.
    - rewrite filter_cons_False by (rewrite E; by apply is_Some_None). done. }
  rewrite <- Ho. clear Ho.
  assert (Hl : length (cosine_similarity_batch q pairs.*2) = length pairs)
    by (by rewrite cosine_batch_length, length_fmap).
  revert Hl. generalize (cosine_similarity_batch q pairs.*2) as sc. clearbody pairs.
  induction pairs as [|p ps IH]; intros [|s sc] Hl; simpl in *; try done. f_equal. apply IH. lia.
Qed.

Lemma score_all_offsets q view t l :
  offset <$> score_all q view t l = filter (fun o => is_Some (view o)) l.
Proof.
  unfold score_all. rewrite <- (concat_chunks CHUNK l) at 2 by (unfold CHUNK; lia).
  generalize (chunks CHUNK l) as cs. induction cs as [|c cs IH]; simpl; [done|].
  by rewrite fmap_app, filter_app, score_chunk_offsets, IH.
Qed.

(** The hot segment tracks each offset once. *)
Definition hot_wf (h : HotSegment) : Prop :=
  NoDup (offsets h) /\ (forall o, o ∈ seen h <-> o ∈ offsets h).

Lemma hot_new_wf d : hot_wf (hot_new d).
Proof. split; simpl; [constructor|set_solver]. Qed.

Lemma hot_insert_wf h o e : hot_wf h -> hot_wf (hot_insert h o e).1.
Proof.
  intros [H1 H2]. unfold hot_insert. destruct (validate_dimension e (h_dim h)); [|done].
  case_decide as Ho; [done|]. rewrite H2 in Ho. split; simpl.
  - apply NoDup_app. split_and!; [done|set_solver|apply NoDup_singleton].
  - set_solver.
Qed.

Lemma hot_insert_all_wf h rs : hot_wf h -> hot_wf (hot_insert_all h rs).1.
Proof.
  revert h. induction rs as [|[o r] rs IH]; intros h Hh; simpl; [done|].
  pose proof (hot_insert_wf h o (r_embedding r) Hh) as Hi.
  destruct (hot_insert h o (r_embedding r)) as [h' [|]]; [by apply IH|done].
Qed.

(** The points a search of the hot segment may return. *)
Definition eligible (h : HotSegment) (view : View) (b : option RoaringBitmap) (o : N) : Prop :=
  o ∈ offsets h /\ allowed b o = true /\ is_Some (view o).

(** searching a hot segment built by inserts is exact: a query of the wrong
    dimension is refused; otherwise every result is an inserted, allowed
    offset with a stored vector, none occurs twice, results come best first, there
    are [top_k] of them unless fewer are eligible, and an eligible offset that is
    missing scores no better than any result. *)
Theorem hot_search_exact dim rs query top_k view bitmap :
  let h := (hot_insert_all (hot_new dim) rs).1 in
  match hot_search h query top_k view bitmap with
  | Err e => len query <> dim /\ e = Core (TDimensionMismatch dim (len query))
  | Ok res =>
      len query = dim /\ NoDup (offset <$> res) /\ StronglySorted point_le res /\
      exists all : list ScoredPoint,
        (forall o, o ∈ offset <$> all <-> eligible h view bitmap o) /\ NoDup (offset <$> all) /\
        (forall p, p ∈ res -> p ∈ all) /\
        len res = N.min top_k (len all) /\
        (forall p r, p ∈ all -> offset p ∉ offset <$> res -> r ∈ res -> point_le r p)
  end.
Proof.
  intros h. assert (Hwf : hot_wf h) by apply hot_insert_all_wf, hot_new_wf.
  assert (Hd : h_dim h = dim).
  { unfold h. change dim with (h_dim (hot_new dim)) at 2. generalize (hot_new dim) as h0.
    clear. induction rs as [|[o r] rs IH]; intros h0; simpl; [done|].
    unfold hot_insert. destruct (validate_dimension _ _); simpl; [|done].
    case_decide; by rewrite IH. }
  unfold hot_search, validate_dimension. rewrite Hd.
  destruct (N.eqb_spec (len query) dim) as [E|E]; simpl; [|done]. split; [done|].
  set (fl := filter (fun o => allowed bitmap o) (offsets h)).
  set (all := score_all query view Hot fl).
  assert (Hall : offset <$> all = filter (fun o => is_Some (view o)) fl) by apply score_all_offsets.
  set (S := sort_by point_le all).
  assert (HS : S ≡ₚ all) by apply sort_by_perm.
  assert (HSs : StronglySorted point_le S) by (apply sort_by_sorted; apply _).
  assert (Hnd : NoDup (offset <$> S)).
  { rewrite HS, Hall. apply NoDup_filter, NoDup_filter, Hwf. }
  set (n := N.to_nat top_k).
  assert (Htd : take n S ++ drop n S = S) by apply take_drop.
  split_and!.
  - rewrite fmap_take. rewrite <- (take_drop n (offset <$> S)) in Hnd. by apply NoDup_app in Hnd as [? _].
  - rewrite <- Htd in HSs. by apply StronglySorted_app in HSs as (_ & ? & _).
  - exists all. split_and!.
    + intros o. rewrite Hall. unfold fl. rewrite !list_elem_of_filter. unfold eligible.
      rewrite Is_true_true. naive_solver.
    + by rewrite <- HS.
    + intros p Hp. rewrite <- HS, <- Htd. set_solver.
    + unfold len. rewrite length_take, <- HS. lia.
    + intros p r Hp Hno Hr. apply (sorted_take_drop point_le n S); [done|done|].
      rewrite <- HS, <- Htd, elem_of_app in Hp. destruct Hp as [Hp|Hp]; [|done].
      exfalso. apply Hno. apply list_elem_of_fmap. eauto.
Qed.

End exact_proofs.

(** ** Concrete instances *)

Module Examples.

(** A heap that takes the first maximal element. *)
Fixpoint pop_max {A} (R : A -> A -> Prop) `{!forall x y, Decision (R x y)} (h : list A)
    : option (A * list A) :=
  match h with
  | [] => None
  | x :: h =>
      match pop_max R h with
      | None => Some (x, [])
      | Some (y, h') => if decide (R y x) then Some (x, y :: h') else Some (y, x :: h')
      end
  end.

End Examples.
Import Examples.

Lemma pop_max_spec {A} (R : A -> A -> Prop) `{!forall x y, Decision (R x y), !Transitive R, !Total R} h :
  match pop_max R h with
  | None => h = []
  | Some (x, h') => h ≡ₚ x :: h' /\ (forall y, y ∈ h' -> R y x)
  end.
Proof.
  induction h as [|x h IH]; simpl; [done|].
  destruct (pop_max R h) as [[y h']|]; [|subst h; split; [done|set_solver]].
  destruct IH as [Hp Hmax]. case_decide as Hyx.
  - rewrite Hp. split; [done|]. intros z [->|Hz]%elem_of_cons; [done|]. etrans; [by apply Hmax|done].
  - rewrite Hp. split; [apply perm_swap|]. intros z [->|Hz]%elem_of_cons; [|by apply Hmax].
    by destruct (total R y x).
Qed.

Definition ex_point_heap : BinaryHeap rev_heap_le :=
  {| heap_pop := pop_max point_le; heap_pop_spec := pop_max_spec point_le |}.

#[global] Instance item_le_dec a b : Decision (item_le a b).
Proof. unfold item_le. apply _. Defined.
#[global] Instance item_le_trans : Transitive item_le.
Proof. intros a b c. unfold item_le. intros. by etrans. Qed.
#[global] Instance item_le_total : Total item_le.
Proof. intros a b. unfold item_le. apply score_le_total. Qed.
Definition ex_item_heap : BinaryHeap item_le :=
  {| heap_pop := pop_max item_le; heap_pop_spec := pop_max_spec item_le |}.

Definition ex_pt (o s : N) : ScoredPoint := {| offset := o; score := s; sp_tier := Hot |}.
(** Scores 1.0 > 0.5 > 0.25. *)
Definition ex_lists : list (list ScoredPoint) :=
  [[ex_pt 1 0x3f800000; ex_pt 2 0x3f000000]; [ex_pt 3 0x3f000000; ex_pt 1 0x3e800000]].

Lemma ex_lists_sorted : Forall (StronglySorted point_le) ex_lists.
Proof. repeat constructor; vm_compute; discriminate. Qed.

Lemma merge_candidates_best_witness :
  best_k 2 (concat ex_lists) (merge_candidates ex_lists 2) /\
  offset <$> merge_candidates ex_lists 2 = [1; 2].
Proof.
  split; [apply (merge_candidates_best ex_lists 2); reflexivity|vm_compute; reflexivity].
Defined.

Lemma kway_equivalent_witness :
  best_k 3 (concat ex_lists) (@kway_merge_topk ex_item_heap ex_lists 3) /\
  offset <$> @kway_merge_topk ex_item_heap ex_lists 3 = [1; 2; 3].
Proof.
  split; [|vm_compute; reflexivity].
  apply (@kway_equivalent ex_item_heap ex_lists 3); [reflexivity|simpl; lia|exact ex_lists_sorted].
Defined.

Lemma top_k_selects_witness :
  let pts := [ex_pt 1 0x3f000000; ex_pt 2 0x3e800000; ex_pt 3 0x3f800000] in
  offset <$> @top_k_minheap ex_point_heap pts 2 = [1; 3] /\
  len (@top_k_minheap ex_point_heap pts 2) = 2.
Proof.
  split; [vm_compute; reflexivity|].
  destruct (@top_k_selects ex_point_heap
    [ex_pt 1 0x3f000000; ex_pt 2 0x3e800000; ex_pt 3 0x3f800000] 2) as (out & _ & H & _).
  - repeat constructor.
  - reflexivity.
  - exact H.
Defined.
