(* ===== verification/SegmentSearch.v ===== *)
(** * Searching the segments

    The approximate segments ([segments/usearch_index.rs], [segments/warm.rs],
    [segments/cold.rs]) and the search over a published snapshot
    ([SegmentSnapshot] in [segment_holder.rs]): every segment is asked for a pool
    of candidates, the lists are merged, and the candidates are scored again with
    the exact vectors. The native HNSW index and the device are parameters; the
    quantizers are an interface. *)

From S2P Require Import Prelude Core Floats Metrics Record Segments.

Definition RERANK_OVERSAMPLE : N := 8.
Definition MIN_RERANK_SHORTLIST : N := 64.

(** Dimension-aware oversampling of a quantized shortlist. *)
Definition rerank_oversample (dim : N) : N :=
  let base := f64_of_N RERANK_OVERSAMPLE in
  let c128 := f64_of_N 128 in
  let factor :=
    if dim <=? 256 then f64_mul base (f64_sqrt (f64_div (f64_of_N dim) c128))
    else f64_div (f64_mul base (f64_of_N dim)) c128 in
  N.min (N.max (f64_round_usize factor) 8) 512.

(** A sealed-hot segment: its offsets and the native index, which answers with keys and
    distances, or fails. *)
Record UsearchIndex := {
  u_dim : N;
  u_offsets : list N;
  u_search_list_size : N;
  u_native : list f32 -> N -> option (list (N * f32));
}.

(** An encoded query and its batch scores ([Quantizer], [EncodedQuery]). *)
Class Quantizer := {
  EncodedQuery : Type;
  encode_query : list f32 -> Result TurboError EncodedQuery;
  score_batch : EncodedQuery -> list (list N) -> list f32;
  score_batch_length : forall q l, length (score_batch q l) = length l;
}.

(** A warm or cold segment: offsets and their codes, in parallel. *)
Record QuantSegment := {
  q_dim : N;
  q_tier : Tier;
  q_quantizer : Quantizer;
  q_codes : list (N * list N);
}.

Inductive SegData := SPlain (h : HotSegment) | SSealed (u : UsearchIndex) | SQuant (q : QuantSegment).
Definition data_offsets (d : SegData) : list N :=
  match d with SPlain h => offsets h | SSealed u => u_offsets u | SQuant q => (q_codes q).*1 end.
Definition data_count (d : SegData) : N := len (data_offsets d).

Section segment_search.
Context {K : Kernels} {B1 : BinaryHeap rev_heap_le} {B2 : BinaryHeap item_le}.

(** ** The HNSW segment *)

(** [search_unfiltered]. *)
Definition search_unfiltered (u : UsearchIndex) (query : list f32) (top_k : N)
    : Result StorageError (list ScoredPoint) :=
  let top_k := N.min top_k (len (u_offsets u)) in
  if top_k =? 0 then Ok []
  else match u_native u query top_k with
       | None => Err (IndexError "usearch search failed")
       | Some matches =>
           Ok (map (fun od : N * f32 => {| offset := od.1; sp_tier := Hot;
                      score := f32_clamp (f32_sub f32_one od.2) f32_neg_one f32_one |}) matches)
       end.

(** The allowed candidates in order, up to [top_k]; the boolean says whether [top_k]
    were found. *)
Fixpoint collect_allowed (allowed_offsets : option RoaringBitmap) (top_k : N) (results cands : list ScoredPoint)
    : list ScoredPoint * bool :=
  match cands with
  | [] => (results, false)
  | c :: cands =>
      if allowed allowed_offsets (offset c) then
        let results := results ++ [c] in
        if top_k <=? len results then (results, true)
        else collect_allowed allowed_offsets top_k results cands
      else collect_allowed allowed_offsets top_k results cands
  end.

(** [for _ in 0..4]: widen the fetch; when the rounds are used up, nothing. *)
Fixpoint usearch_rounds (rounds : nat) (u : UsearchIndex) (query : list f32) (top_k fetch_k max_fetch : N)
    (allowed_offsets : option RoaringBitmap) : Result StorageError (list ScoredPoint) :=
  match rounds with
  | O => Ok []
  | S rounds =>
      candidates ← search_unfiltered u query fetch_k;
      match collect_allowed allowed_offsets top_k [] candidates with
      | (results, true) => Ok results
      | (results, false) =>
          if (max_fetch <=? fetch_k) || bool_decide (allowed_offsets = None) then Ok results
          else usearch_rounds rounds u query top_k (N.min (saturating_mul fetch_k 2) max_fetch) max_fetch
                 allowed_offsets
      end
  end.

Definition usearch_search (u : UsearchIndex) (query : list f32) (top_k : N)
    (allowed_offsets : option RoaringBitmap) (view : View) : Result StorageError (list ScoredPoint) :=
  _ ← map_err Core (validate_dimension query (u_dim u));
  let in_segment := filter (fun o => allowed allowed_offsets o) (u_offsets u) in
  if bool_decide (allowed_offsets <> None) && (len in_segment <=? N.max (u_search_list_size u) 100)
  then exact_search_over_offsets query top_k view (u_dim u) in_segment Hot
  else
    let max_fetch :=
      if bool_decide (allowed_offsets <> None)
      then N.min (N.max (len in_segment) top_k) (saturating_mul top_k 16)
      else saturating_mul top_k 16 in
    usearch_rounds 4 u query top_k top_k max_fetch allowed_offsets.

(** ** Warm and cold segments *)

Definition QCHUNK : nat := 1024.
(** One chunk: the codes the bitmap admits, scored in a batch. *)
Definition quant_chunk (q : QuantSegment) (eq : @EncodedQuery (q_quantizer q)) (allowed_offsets : option RoaringBitmap)
    (chunk : list (N * list N)) : list ScoredPoint :=
  let admitted := filter (fun oc : N * list N => allowed allowed_offsets oc.1) chunk in
  zip_with (fun o s => {| offset := o; score := s; sp_tier := q_tier q |}) admitted.*1
    (@score_batch (q_quantizer q) eq admitted.*2).
(** Score the candidates' exact vectors, best first. *)
Definition rescore (query : list f32) (view : View) (tier : Tier) (l : list N) : list ScoredPoint :=
  sort_by point_le (score_chunk query view tier l).
Definition quant_search (q : QuantSegment) (query : list f32) (top_k : N)
    (allowed_offsets : option RoaringBitmap) (view : View) : Result StorageError (list ScoredPoint) :=
  _ ← map_err Core (validate_dimension query (q_dim q));
  eq ← map_err Core (@encode_query (q_quantizer q) query);
  let candidates := concat (map (quant_chunk q eq allowed_offsets) (chunks QCHUNK (q_codes q))) in
  let shortlist := N.max (saturating_mul top_k (rerank_oversample (q_dim q))) MIN_RERANK_SHORTLIST in
  let candidates := top_k_minheap candidates shortlist in
  Ok (take (N.to_nat top_k) (rescore query view (q_tier q) (map offset candidates))).

Definition segment_search (d : SegData) (query : list f32) (top_k : N) (view : View)
    (allowed_offsets : option RoaringBitmap) : Result StorageError (list ScoredPoint) :=
  match d with
  | SPlain h => hot_search h query top_k view allowed_offsets
  | SSealed u => usearch_search u query top_k allowed_offsets view
  | SQuant q => quant_search q query top_k allowed_offsets view
  end.

(** ** The snapshot *)

Record SegmentSnapshot := { sn_search_list_size : N; sn_segments : list SegData }.
Definition sn_point_count (s : SegmentSnapshot) : N := foldr (fun d n => data_count d + n) 0 (sn_segments s).

Definition pool_width (s : SegmentSnapshot) (top_k : N) (ef : option N)
    (allowed_offsets : option RoaringBitmap) : N :=
  let total := N.max (sn_point_count s) 1 in
  let base_ef := default (sn_search_list_size s) ef in
  let base_multiplier := match allowed_offsets with Some _ => 8 | None => 4 end in
  let segment_count := N.max (len (sn_segments s)) 1 in
  let selectivity := match allowed_offsets with
                     | Some b => f32_div (f32_of_N (N.of_nat (size b))) (f32_of_N total)
                     | None => f32_one
                     end in
  let multiplier :=
    if f32_ltb selectivity 0x3C23D70A then base_multiplier
    else
      let selectivity_factor := f32_clamp (f32_div f32_one (f32_sqrt selectivity)) f32_one 0x41800000 in
      let segment_factor :=
        f32_clamp (f32_add f32_one (f32_mul (f32_of_N (saturating_sub segment_count 1)) 0x3E800000))
          f32_one 0x40200000 in
      f32_to_usize (f32_mul (f32_mul (f32_of_N base_multiplier) selectivity_factor) segment_factor) in
  N.min (N.max (N.min (saturating_mul top_k multiplier) (saturating_mul top_k 48)) base_ef) total.

Fixpoint search_all (ds : list SegData) (query : list f32) (pool_k : N) (view : View)
    (allowed_offsets : option RoaringBitmap) : Result StorageError (list (list ScoredPoint)) :=
  match ds with
  | [] => Ok []
  | d :: ds =>
      l ← segment_search d query pool_k view allowed_offsets;
      ls ← search_all ds query pool_k view allowed_offsets;
      Ok (l :: ls)
  end.
Definition snapshot_candidates (s : SegmentSnapshot) (query : list f32) (pool_k : N) (view : View)
    (allowed_offsets : option RoaringBitmap) : Result StorageError (list ScoredPoint) :=
  lists ← search_all (sn_segments s) query pool_k view allowed_offsets;
  Ok (if (4 <=? len lists) && (64 <=? pool_k) then kway_merge_topk lists pool_k
      else merge_candidates lists pool_k).

(** The candidates' exact scores, in chunks of 64. *)
Definition rerank_chunk (query : list f32) (view : View) (chunk : list ScoredPoint) : list ScoredPoint :=
  let pairs := omap (fun c => v ← view (offset c); Some (c, v)) chunk in
  zip_with (fun (p : ScoredPoint * list f32) s => {| offset := offset p.1; score := s; sp_tier := sp_tier p.1 |})
    pairs (cosine_similarity_batch query pairs.*2).
Definition cpu_rerank_candidates (query : list f32) (candidates : list ScoredPoint) (view : View)
    : list ScoredPoint := concat (map (rerank_chunk query view) (chunks CHUNK candidates)).
Definition rerank_top (query : list f32) (top_k : N) (view : View) (candidates : list ScoredPoint)
    : list ScoredPoint :=
  take (N.to_nat top_k) (sort_by point_le (cpu_rerank_candidates query candidates view)).

Definition snapshot_search (s : SegmentSnapshot) (query : list f32) (top_k : N) (ef : option N) (view : View)
    (allowed_offsets : option RoaringBitmap) : Result StorageError (list ScoredPoint) :=
  candidates ← snapshot_candidates s query (pool_width s top_k ef allowed_offsets) view allowed_offsets;
  Ok (rerank_top query top_k view candidates).

(** ** The batched search *)

(** A unit-length query; zeros when it has no direction. *)
Definition unit_length (dim : N) (q : list f32) : list f32 :=
  let norm := f32_sqrt (f32_sum (map (fun x => f32_mul x x) q)) in
  if is_normal norm then map (fun x => f32_div x norm) q else repeat f32_zero (N.to_nat dim).

(** The union of the candidates' offsets, each with its index. *)
Definition add_offset (st : list N * gmap N nat) (c : ScoredPoint) : list N * gmap N nat :=
  match st.2 !! offset c with
  | Some _ => st
  | None => (st.1 ++ [offset c], <[offset c := length st.1]> st.2)
  end.
Definition union_offsets (per_query : list (list ScoredPoint)) : list N * gmap N nat :=
  foldl add_offset ([], ∅) (concat per_query).

(** One query's candidates, scored from its row of the matrix; [None] is an index out
    of range. *)
Definition cell_score (scores : list f32) (n qi : nat) (idx : gmap N nat) (c : ScoredPoint)
    : option ScoredPoint :=
  uidx ← idx !! offset c;
  s ← scores !! (qi * n + uidx)%nat;
  Some {| offset := offset c; score := s; sp_tier := sp_tier c |}.
Definition row_scores (scores : list f32) (n qi : nat) (idx : gmap N nat) (cands : list ScoredPoint)
    : option (list ScoredPoint) := mapM (cell_score scores n qi idx) cands.

(** The device: row-major scores of queries against vectors, or a failure. *)
Context (gemm : list (list f32) -> list (list f32) -> option (list f32)).

(** The outer [None] is a device failure, the inner one a panic. *)
Definition gpu_rerank_candidates_batch (queries : list (list f32)) (per_query : list (list ScoredPoint))
    (top_k dim : N) (view : View) : option (option (list (list ScoredPoint))) :=
  let '(union, idx) := union_offsets per_query in
  match union with
  | [] => Some (Some (map (fun _ => []) queries))
  | _ =>
      scores ← gemm (map (unit_length dim) queries)
                 (map (fun o => default (repeat f32_zero (N.to_nat dim)) (view o)) union);
      Some (rows ← mapM (fun qc : nat * list ScoredPoint => row_scores scores (length union) qc.1 idx qc.2)
                     (zip (seq 0 (length per_query)) per_query);
            Some (map (fun r => take (N.to_nat top_k) (sort_by point_le r)) rows))
  end.

Fixpoint batch_candidates (s : SegmentSnapshot) (queries : list (list f32)) (pool_k : N) (view : View)
    (allowed_offsets : option RoaringBitmap) : Result StorageError (list (list ScoredPoint)) :=
  match queries with
  | [] => Ok []
  | q :: queries =>
      c ← snapshot_candidates s q pool_k view allowed_offsets;
      cs ← batch_candidates s queries pool_k view allowed_offsets;
      Ok (c :: cs)
  end.
Definition cpu_results (queries : list (list f32)) (cands : list (list ScoredPoint)) (top_k : N) (view : View)
    : list (list ScoredPoint) :=
  zip_with (fun q c => rerank_top q top_k view c) queries cands.
Definition snapshot_search_batch (s : SegmentSnapshot) (queries : list (list f32)) (top_k : N) (ef : option N)
    (dim : N) (view : View) (allowed_offsets : option RoaringBitmap) (use_gpu : bool)
    : Result StorageError (option (list (list ScoredPoint))) :=
  match queries with
  | [] => Ok (Some [])
  | [q] => r ← snapshot_search s q top_k ef view allowed_offsets; Ok (Some [r])
  | _ =>
      cands ← batch_candidates s queries (pool_width s top_k ef allowed_offsets) view allowed_offsets;
      let total := foldr (fun c n => len c + n) 0 cands in
      Ok (match (if use_gpu && (256 <=? total)
                 then gpu_rerank_candidates_batch queries cands top_k dim view else None) with
          | Some results => results
          | None => Some (cpu_results queries cands top_k view)
          end)
  end.

(** ** What a search returns *)

Implicit Types (bm : option RoaringBitmap) (p : ScoredPoint).

(** The native index answers with offsets it holds. *)
Definition native_ok (d : SegData) : Prop :=
  match d with
  | SSealed u => forall q k m, u_native u q k = Some m -> forall o x, (o, x) ∈ m -> o ∈ u_offsets u
  | _ => True
  end.

Lemma score_chunk_in q view t l p :
  p ∈ score_chunk q view t l -> offset p ∈ l /\ is_Some (view (offset p)).
Proof.
  intros Hp. assert (Ho : offset p ∈ offset <$> score_chunk q view t l) by (apply list_elem_of_fmap; eauto).
  rewrite score_chunk_offsets in Ho. apply list_elem_of_filter in Ho as [? ?]. done.
Qed.
Lemma score_all_in q view t l p :
  p ∈ score_all q view t l -> offset p ∈ l /\ is_Some (view (offset p)).
Proof.
  intros Hp. assert (Ho : offset p ∈ offset <$> score_all q view t l) by (apply list_elem_of_fmap; eauto).
  rewrite score_all_offsets in Ho. apply list_elem_of_filter in Ho as [? ?]. done.
Qed.
Lemma elem_of_take {A} n (l : list A) x : x ∈ take n l -> x ∈ l.
Proof. intros Hx. rewrite <- (take_drop n l). apply elem_of_app. by left. Qed.

Lemma collect_allowed_in bm k results cands p :
  p ∈ (collect_allowed bm k results cands).1 -> p ∈ results \/ (p ∈ cands /\ allowed bm (offset p) = true).
Proof.
  revert results. induction cands as [|c cands IH]; intros results; simpl; [auto|].
  destruct (allowed bm (offset c)) eqn:Ha.
  - destruct (k <=? len (results ++ [c])); simpl.
    + intros [?|Hp]%elem_of_app; [auto|]. apply list_elem_of_singleton in Hp as ->. right. set_solver.
    + intros [[?|Hp]%elem_of_app|[? ?]]%IH; [auto| |right; set_solver].
      apply list_elem_of_singleton in Hp as ->. right. set_solver.
  - intros [?|[? ?]]%IH; [auto|right; set_solver].
Qed.

Lemma search_unfiltered_in u q k l p :
  native_ok (SSealed u) -> search_unfiltered u q k = Ok l -> p ∈ l -> offset p ∈ u_offsets u.
Proof.
  intros Hn. unfold search_unfiltered. destruct (_ =? 0); [intros [= <-]; set_solver|].
  destruct (u_native u q _) as [m|] eqn:Hm; [|done]. intros [= <-] Hp.
  apply list_elem_of_fmap in Hp as ([o x] & -> & Hin). simpl. by eapply Hn.
Qed.

Lemma usearch_rounds_in n u q k f mx bm l p :
  native_ok (SSealed u) -> usearch_rounds n u q k f mx bm = Ok l -> p ∈ l ->
  offset p ∈ u_offsets u /\ allowed bm (offset p) = true.
Proof.
  intros Hn. revert f. induction n as [|n IH]; intros f; simpl; [intros [= <-]; set_solver|].
  destruct (search_unfiltered u q f) as [cands|] eqn:Hc; simpl; [|done].
  pose proof (collect_allowed_in bm k [] cands p) as Hin.
  destruct (collect_allowed bm k [] cands) as [r []]; simpl in Hin.
  - intros [= <-] Hp. destruct (Hin Hp) as [?|[? ?]]; [set_solver|]. split; [|done]. by eapply search_unfiltered_in.
  - destruct (_ || _); [|by apply IH]. intros [= <-] Hp. destruct (Hin Hp) as [?|[? ?]]; [set_solver|].
    split; [|done]. by eapply search_unfiltered_in.
Qed.

#[local] Arguments usearch_rounds : simpl never.

Lemma elem_of_chunk {A} n (l c : list A) x : (0 < n)%nat -> c ∈ chunks n l -> x ∈ c -> x ∈ l.
Proof.
  intros Hn Hc Hx. rewrite <- (concat_chunks n l Hn). apply list_elem_of_In, in_concat.
  exists c. split; by apply list_elem_of_In.
Qed.

Lemma top_k_minheap_in scored k p : p ∈ top_k_minheap scored k -> p ∈ scored.
Proof.
  unfold top_k_minheap. destruct (k =? 0); [set_solver|]. rewrite elem_of_reverse, sort_by_perm.
  assert (H : forall heap, p ∈ top_k_loop k heap scored -> p ∈ heap \/ p ∈ scored).
  { induction scored as [|c scored IH]; intros heap; simpl; [auto|].
    destruct (len heap <? k); [intros [?|?]%IH; set_solver|].
    pose proof (heap_pop_spec heap) as Hpop. destruct (heap_pop heap) as [[m h']|].
    - destruct Hpop as [Hp _]. destruct (f32_gtb _ _); intros [Hin|?]%IH; [|set_solver| |set_solver].
      + apply elem_of_cons in Hin as [->|Hin]; [set_solver|]. left. rewrite Hp. set_solver.
      + by left.
    - intros [?|?]%IH; set_solver. }
  intros Hp. destruct (H [] Hp); [set_solver|done].
Qed.

Lemma quant_chunk_in q eq bm chunk p :
  p ∈ quant_chunk q eq bm chunk -> offset p ∈ chunk.*1 /\ allowed bm (offset p) = true.
Proof.
  unfold quant_chunk. intros (i & o & s & -> & Ho & _)%elem_of_lookup_zip_with. simpl.
  apply list_elem_of_lookup_2, list_elem_of_fmap in Ho as ([o' c] & -> & Hin).
  apply list_elem_of_filter in Hin as [Ha Hin]. simpl in *. split; [|by apply Is_true_true].
  apply list_elem_of_fmap. by exists (o', c).
Qed.

Lemma segment_search_in d q k view bm l p :
  native_ok d -> segment_search d q k view bm = Ok l -> p ∈ l ->
  offset p ∈ data_offsets d /\ allowed bm (offset p) = true.
Proof.
  intros Hn. destruct d as [h|u|s]; cbn [segment_search data_offsets].
  - unfold hot_search. destruct (map_err _ _) as [[]|]; simpl; [|done]. intros [= <-] Hp.
    apply elem_of_take in Hp. rewrite sort_by_perm in Hp. apply score_all_in in Hp as [Hp _].
    apply list_elem_of_filter in Hp as [Ha Hp]. split; [done|by apply Is_true_true].
  - unfold usearch_search. destruct (map_err _ _) as [[]|]; simpl; [|done].
    destruct (bool_decide _ && _); [|intros Hr Hp; exact (usearch_rounds_in _ _ _ _ _ _ _ _ _ Hn Hr Hp)].
    unfold exact_search_over_offsets. destruct (map_err _ _) as [[]|]; simpl; [|done]. intros [= <-] Hp.
    apply elem_of_take in Hp. rewrite sort_by_perm in Hp. apply score_all_in in Hp as [Hp _].
    apply list_elem_of_filter in Hp as [Ha Hp]. split; [done|by apply Is_true_true].
  - unfold quant_search. destruct (map_err Core (validate_dimension q (q_dim s))) as [[]|]; simpl; [|done].
    destruct (map_err _ _) as [eq|]; simpl; [|done]. intros [= <-] Hp.
    apply elem_of_take in Hp. unfold rescore in Hp. rewrite sort_by_perm in Hp.
    apply score_chunk_in in Hp as [Hp _]. apply list_elem_of_fmap in Hp as (c & Eo & Hc).
    apply top_k_minheap_in in Hc. apply list_elem_of_In, in_concat in Hc as (l & Hl & Hc).
    apply in_map_iff in Hl as (chunk & <- & Hch). apply list_elem_of_In in Hch, Hc.
    apply quant_chunk_in in Hc as [Hc Ha]. rewrite Eo. split; [|done].
    apply list_elem_of_fmap in Hc as (oc & -> & Hoc). apply list_elem_of_fmap. exists oc. split; [done|].
    eapply elem_of_chunk; [|exact Hch|exact Hoc]. unfold QCHUNK. lia.
Qed.

Lemma search_all_in ds q k view bm ls l p :
  Forall native_ok ds -> search_all ds q k view bm = Ok ls -> l ∈ ls -> p ∈ l ->
  (exists d, d ∈ ds /\ offset p ∈ data_offsets d) /\ allowed bm (offset p) = true.
Proof.
  intros Hn. revert ls. induction Hn as [|d ds Hd _ IH]; intros ls; simpl; [intros [= <-]; set_solver|].
  destruct (segment_search d q k view bm) as [l1|] eqn:H1; simpl; [|done].
  destruct (search_all ds q k view bm) as [ls1|]; simpl; [|done]. intros [= <-] Hl Hp.
  apply elem_of_cons in Hl as [->|Hl].
  - destruct (segment_search_in d q k view bm l1 p Hd H1 Hp) as [Ho Ha]. split; [exists d; set_solver|done].
  - destruct (IH ls1 eq_refl Hl Hp) as [(d' & ? & ?) ?]. split; [exists d'; set_solver|done].
Qed.

(** Both merges keep one candidate per offset. *)
Lemma dedup_loop_sound k sn out l :
  NoDup (offset <$> out) -> (forall o, o ∈ offset <$> out -> o ∈ sn) ->
  NoDup (offset <$> dedup_loop k sn out l) /\ forall p, p ∈ dedup_loop k sn out l -> p ∈ out \/ p ∈ l.
Proof.
  revert sn out. induction l as [|c l IH]; intros sn out Hnd Hs; simpl; [auto|].
  case_decide as Hc.
  - destruct (IH sn out Hnd Hs) as [H1 H2]. split; [done|]. intros p Hp. apply H2 in Hp. set_solver.
  - assert (Hnd' : NoDup (offset <$> (out ++ [c]))).
    { rewrite fmap_app. apply NoDup_app. split_and!; [done| |apply NoDup_singleton]. simpl.
      intros o Ho Hoc. apply list_elem_of_singleton in Hoc as ->. auto. }
    destruct (k <=? len (out ++ [c])); [split; [done|set_solver]|].
    destruct (IH ({[offset c]} ∪ sn) (out ++ [c]) Hnd') as [H1 H2].
    { intros o. rewrite fmap_app. simpl. set_solver. }
    split; [done|]. intros p Hp. apply H2 in Hp. set_solver.
Qed.

Lemma item_at_ok lists l i it : item_at lists l i = Some it -> item_ok lists it.
Proof.
  unfold item_ok, item_at. intros H. apply bind_Some in H as (li & Hl & H). apply bind_Some in H as (c & Hc & [= <-]).
  simpl. by rewrite Hl; simpl; rewrite Hc.
Qed.
Lemma kway_seq_in fuel lists heap p : p ∈ kway_seq fuel lists heap -> p ∈ concat lists.
Proof.
  revert heap. induction fuel as [|fuel IH]; intros heap; simpl; [set_solver|].
  destruct (heap_pop heap) as [[it h']|]; [|set_solver].
  destruct (list ← lists !! i_list it; list !! i_idx it) as [c|] eqn:Hc; [|set_solver].
  intros [->|Hp]%elem_of_cons; [|by eapply IH].
  apply bind_Some in Hc as (l & Hl & Hc). apply list_elem_of_In, in_concat.
  exists l. split; apply list_elem_of_In; by eapply list_elem_of_lookup_2.
Qed.

Lemma snapshot_candidates_in s q k view bm cands :
  Forall native_ok (sn_segments s) -> snapshot_candidates s q k view bm = Ok cands ->
  NoDup (offset <$> cands) /\
  forall p, p ∈ cands -> (exists d, d ∈ sn_segments s /\ offset p ∈ data_offsets d) /\ allowed bm (offset p) = true.
Proof.
  intros Hn. unfold snapshot_candidates.
  destruct (search_all (sn_segments s) q k view bm) as [lists|] eqn:Hs; simpl; [|done]. intros [= <-].
  assert (Hin : forall p, p ∈ concat lists ->
    (exists d, d ∈ sn_segments s /\ offset p ∈ data_offsets d) /\ allowed bm (offset p) = true).
  { intros p Hp. apply list_elem_of_In, in_concat in Hp as (l & Hl & Hp). apply list_elem_of_In in Hl, Hp.
    exact (search_all_in _ _ _ _ _ _ _ _ Hn Hs Hl Hp). }
  destruct ((4 <=? len lists) && (64 <=? k)) eqn:Hb.
  - apply andb_true_iff in Hb as [Hl Hk]. apply N.leb_le in Hl, Hk. unfold len in Hl.
    unfold kway_merge_topk. rewrite (proj2 (N.eqb_neq k 0)) by lia.
    destruct lists as [|v [|w lists]]; [simpl in Hl; lia|simpl in Hl; lia|].
    rewrite kway_loop_seq.
    destruct (dedup_loop_sound k ∅ [] (kway_seq (S (length (concat (v :: w :: lists)))) (v :: w :: lists)
                (kway_init (v :: w :: lists)))) as [H1 H2]; [constructor|set_solver|].
    split; [done|]. intros p Hp. apply Hin. apply H2 in Hp as [?|Hp]; [set_solver|]. by eapply kway_seq_in.
  - unfold merge_candidates.
    destruct (dedup_loop_sound k ∅ [] (sort_by point_le (concat lists))) as [H1 H2]; [constructor|set_solver|].
    split; [done|]. intros p Hp. apply Hin. apply H2 in Hp as [?|Hp]; [set_solver|]. by rewrite sort_by_perm in Hp.
Qed.

(** The rerank keeps the candidates that have a vector. *)
Lemma rerank_chunk_offsets q view c :
  offset <$> rerank_chunk q view c = filter (fun o => is_Some (view o)) (offset <$> c).
Proof.
  unfold rerank_chunk. set (pairs := omap _ c).
  assert (Ho : map (fun p : ScoredPoint * list f32 => offset p.1) pairs = filter (fun o => is_Some (view o)) (offset <$> c)).
  { unfold pairs. induction c as [|x c IH]; simpl; [done|].
    destruct (view (offset x)) as [v|] eqn:E; simpl.
    - rewrite filter_cons_True by (by rewrite E). by f_equal.
    - rewrite filter_cons_False by (rewrite E; by apply is_Some_None). done. }
  rewrite <- Ho. clear Ho.
  assert (Hl : length (cosine_similarity_batch q pairs.*2) = length pairs)
    by (by rewrite cosine_batch_length, length_fmap).
  revert Hl. generalize (cosine_similarity_batch q pairs.*2) as sc. clearbody pairs.
  induction pairs as [|p ps IH]; intros [|s sc] Hl; simpl in *; try done. f_equal. apply IH. lia.
Qed.
Lemma cpu_rerank_offsets q view c :
  offset <$> cpu_rerank_candidates q c view = filter (fun o => is_Some (view o)) (offset <$> c).
Proof.
  unfold cpu_rerank_candidates. rewrite <- (concat_chunks CHUNK c) at 2 by (unfold CHUNK; lia).
  generalize (chunks CHUNK c) as cs. induction cs as [|x cs IH]; simpl; [done|].
  by rewrite !fmap_app, filter_app, rerank_chunk_offsets, IH.
Qed.
Lemma cpu_rerank_range q view c p :
  p ∈ cpu_rerank_candidates q c view -> score_in_range (score p) = true.
Proof.
  unfold cpu_rerank_candidates. intros (l & Hl & Hp)%list_elem_of_In%in_concat.
  apply in_map_iff in Hl as (ch & <- & _). apply list_elem_of_In in Hp. unfold rerank_chunk in Hp.
  apply elem_of_lookup_zip_with in Hp as (i & a & sc & -> & _ & Hs). simpl.
  apply list_elem_of_lookup_2 in Hs. by eapply (proj2 (cosine_range_all q _)).
Qed.

(** What a search returns was found in a segment, is admitted and has a vector. *)
Lemma snapshot_search_in s q top_k ef view bm res p :
  Forall native_ok (sn_segments s) -> snapshot_search s q top_k ef view bm = Ok res -> p ∈ res ->
  (exists d, d ∈ sn_segments s /\ offset p ∈ data_offsets d) /\
  allowed bm (offset p) = true /\ is_Some (view (offset p)).
Proof.
  intros Hn. unfold snapshot_search.
  destruct (snapshot_candidates _ _ _ _ _) as [cands|] eqn:Hc; simpl; [|done]. intros [= <-] Hp.
  destruct (snapshot_candidates_in _ _ _ _ _ _ Hn Hc) as [_ Hin].
  unfold rerank_top in Hp. apply elem_of_take in Hp. rewrite sort_by_perm in Hp.
  assert (Ho : offset p ∈ offset <$> cpu_rerank_candidates q cands view) by (apply list_elem_of_fmap; eauto).
  rewrite cpu_rerank_offsets in Ho. apply list_elem_of_filter in Ho as [Hv Ho].
  apply list_elem_of_fmap in Ho as (c & E & Hcc). destruct (Hin c Hcc) as [H1 H2]. by rewrite <- E in H1, H2.
Qed.
Lemma rerank_top_score q top_k view cands p :
  p ∈ rerank_top q top_k view cands -> score_in_range (score p) = true.
Proof.
  unfold rerank_top. intros Hp. apply elem_of_take in Hp. rewrite sort_by_perm in Hp.
  by apply (cpu_rerank_range q view cands).
Qed.

(** Whatever a search over a published snapshot returns was found in one of its
    segments, is admitted by the filter bitmap, still has a vector, and carries an
    exact score in [[-1, 1]] (or a NaN); no offset comes twice, the list is sorted by
    descending score and has at most [top_k] entries. The native index only has to
    answer with offsets it holds. *)
Theorem snapshot_search_sound s q top_k ef view bm res :
  Forall native_ok (sn_segments s) -> snapshot_search s q top_k ef view bm = Ok res ->
  NoDup (offset <$> res) /\ StronglySorted point_le res /\ len res <= top_k /\
  forall p, p ∈ res ->
    (exists d, d ∈ sn_segments s /\ offset p ∈ data_offsets d) /\
    allowed bm (offset p) = true /\ is_Some (view (offset p)) /\ score_in_range (score p) = true.
Proof.
  intros Hn Hs. pose proof (fun p => snapshot_search_in s q top_k ef view bm res p Hn Hs) as Hin. revert Hs.
  unfold snapshot_search. destruct (snapshot_candidates _ _ _ _ _) as [cands|] eqn:Hc; simpl; [|done].
  intros [= <-]. destruct (snapshot_candidates_in _ _ _ _ _ _ Hn Hc) as [Hnd _]. split_and!.
  - assert (Hrr : NoDup (offset <$> sort_by point_le (cpu_rerank_candidates q cands view)))
      by (rewrite sort_by_perm, cpu_rerank_offsets; by apply NoDup_filter).
    rewrite <- (take_drop (N.to_nat top_k) (sort_by point_le _)), fmap_app in Hrr.
    by apply NoDup_app in Hrr as [? _].
  - pose proof (sort_by_sorted point_le (cpu_rerank_candidates q cands view)) as Hs.
    rewrite <- (take_drop (N.to_nat top_k)) in Hs. by apply StronglySorted_app in Hs as (_ & ? & _).
  - unfold rerank_top, len. rewrite length_take. lia.
  - intros p Hp. destruct (Hin p Hp) as (? & ? & ?). split_and!; auto. by eapply rerank_top_score.
Qed.

(** ** Giving up on a filtered search *)

Lemma collect_allowed_few bm k results cands :
  len results + len (filter (fun c => allowed bm (offset c)) cands) < k ->
  collect_allowed bm k results cands = (results ++ filter (fun c => allowed bm (offset c)) cands, false).
Proof.
  revert results. induction cands as [|c cands IH]; intros results Hl; [by rewrite app_nil_r|].
  simpl in *. destruct (allowed bm (offset c)) eqn:Ha.
  - rewrite filter_cons_True in Hl |- * by (by rewrite Ha).
    rewrite len_cons in Hl.
    assert (Hr : len (results ++ [c]) = len results + 1) by (by rewrite len_app).
    rewrite Hr, (proj2 (N.leb_gt _ _)) by lia. rewrite IH by lia. by rewrite <- app_assoc.
  - rewrite filter_cons_False in Hl |- * by (rewrite Ha; simpl; tauto). by apply IH.
Qed.

(** The native answer to a fetch of [f] holds fewer than [k] admitted offsets. *)
Definition too_few (u : UsearchIndex) (q : list f32) (k : N) bm (f : N) : Prop :=
  exists cands, search_unfiltered u q f = Ok cands /\ len (filter (fun c => allowed bm (offset c)) cands) < k.

Lemma usearch_rounds_give_up n u q k f mx b :
  (forall i, (i < n)%nat -> 2 ^ N.of_nat i * f < mx /\ too_few u q k (Some b) (2 ^ N.of_nat i * f)) ->
  mx < U64 -> usearch_rounds n u q k f mx (Some b) = Ok [].
Proof.
  intros H Hmx. revert f H. induction n as [|n IH]; intros f H; [done|].
  change ((candidates ← search_unfiltered u q f;
    match collect_allowed (Some b) k [] candidates with
    | (results, true) => Ok results
    | (results, false) =>
        if (mx <=? f) || bool_decide (Some b = None) then Ok results
        else usearch_rounds n u q k (N.min (saturating_mul f 2) mx) mx (Some b)
    end) = Ok []).
  destruct (H O) as [Hf (cands & Hc & Hfew)]; [lia|]. rewrite N.mul_1_l in Hf, Hc. rewrite Hc. simpl.
  rewrite collect_allowed_few by done. simpl.
  rewrite (proj2 (N.leb_gt mx f)) by lia. simpl.
  destruct n as [|n]; [done|].
  assert (E : N.min (saturating_mul f 2) mx = 2 * f).
  { destruct (H 1%nat) as [Hf1 _]; [lia|]. unfold saturating_mul, u64_max, U64 in *. lia. }
  rewrite E. apply IH. intros i Hi. specialize (H (S i)).
  replace (2 ^ N.of_nat (S i) * f) with (2 ^ N.of_nat i * (2 * f)) in H
    by (rewrite Nat2N.inj_succ, N.pow_succ_r'; lia).
  apply H. lia.
Qed.

(** A filtered search of a sealed segment discards what it has found. When the
    filter admits more offsets of the segment than the exact scan takes over and more
    than [8 * top_k], and each of the four fetches brings fewer than [top_k] admitted
    neighbours, the answer is the empty list, however many were found. *)
Theorem usearch_discards u q top_k b view :
  validate_dimension q (u_dim u) = Ok () -> 0 < top_k -> 16 * top_k < U64 ->
  N.max (u_search_list_size u) 100 < len (filter (fun o => allowed (Some b) o) (u_offsets u)) ->
  8 * top_k < len (filter (fun o => allowed (Some b) o) (u_offsets u)) ->
  Forall (too_few u q top_k (Some b)) [top_k; 2 * top_k; 4 * top_k; 8 * top_k] ->
  usearch_search u q top_k (Some b) view = Ok [].
Proof.
  intros Hd Hk Hb Hl H8 Hf. unfold usearch_search. rewrite Hd. simpl.
  rewrite (proj2 (N.leb_gt _ _)) by exact Hl. simpl.
  set (c := len (filter _ (u_offsets u))) in *.
  apply usearch_rounds_give_up; [|unfold saturating_mul, u64_max, U64 in *; lia].
  intros i Hi. repeat apply Forall_cons in Hf as [? Hf].
  assert (Hmx : 8 * top_k < N.min (N.max c top_k) (saturating_mul top_k 16)) by (unfold saturating_mul, u64_max, U64 in *; lia).
  destruct i as [|[|[|[|i]]]]; [| | | |lia].
  - replace (2 ^ N.of_nat 0 * top_k) with top_k by (simpl; lia). split; [lia|done].
  - replace (2 ^ N.of_nat 1 * top_k) with (2 * top_k) by (simpl; lia). split; [lia|done].
  - replace (2 ^ N.of_nat 2 * top_k) with (4 * top_k) by (simpl; lia). split; [lia|done].
  - replace (2 ^ N.of_nat 3 * top_k) with (8 * top_k) by (simpl; lia). split; [lia|done].
Qed.

(** ** The batched rerank *)

Lemma add_offset_spec union idx c union' idx' :
  add_offset (union, idx) c = (union', idx') ->
  (forall o i, idx !! o = Some i <-> union !! i = Some o) ->
  (forall o i, idx' !! o = Some i <-> union' !! i = Some o) /\
  is_Some (idx' !! offset c) /\ (forall o, is_Some (idx !! o) -> is_Some (idx' !! o)).
Proof.
  unfold add_offset. simpl. intros E H. destruct (idx !! offset c) as [j|] eqn:Hc.
  - injection E as <- <-. split_and!; [done|by rewrite Hc|done].
  - injection E as <- <-. split_and!.
    + intros o i. destruct (decide (o = offset c)) as [->|Hne].
      * rewrite lookup_insert_eq. split.
        -- intros [= <-]. by rewrite lookup_app_r, Nat.sub_diag by lia.
        -- intros [Hu|[? Hu]]%lookup_app_Some; [apply H in Hu; congruence|].
           destruct (i - length union)%nat eqn:Ei; [|done]. f_equal. lia.
      * rewrite lookup_insert_ne by done. rewrite H, lookup_app. destruct (union !! i) eqn:Hu; [done|].
        split; [done|]. apply lookup_ge_None in Hu.
        destruct (i - length union)%nat; simpl; [intros [= ?]; congruence|done].
    + rewrite lookup_insert_eq. eauto.
    + intros o Ho. destruct (decide (o = offset c)) as [->|]; [by rewrite Hc in Ho; destruct Ho|].
      by rewrite lookup_insert_ne.
Qed.
Lemma union_offsets_spec per_query union idx :
  union_offsets per_query = (union, idx) ->
  (forall o i, idx !! o = Some i <-> union !! i = Some o) /\
  forall cands c, cands ∈ per_query -> c ∈ cands -> is_Some (idx !! offset c).
Proof.
  unfold union_offsets. intros E.
  assert (H : forall l u0 i0, foldl add_offset (u0, i0) l = (union, idx) ->
    (forall o i, i0 !! o = Some i <-> u0 !! i = Some o) ->
    (forall o i, idx !! o = Some i <-> union !! i = Some o) /\
    (forall c, c ∈ l -> is_Some (idx !! offset c)) /\ (forall o, is_Some (i0 !! o) -> is_Some (idx !! o))).
  { clear E. intros l. induction l as [|c l IH]; intros u0 i0 E H0.
    - simpl in E. injection E as -> ->. split_and!; [done|set_solver|done].
    - change (foldl add_offset (add_offset (u0, i0) c) l = (union, idx)) in E.
      destruct (add_offset (u0, i0) c) as [u1 i1] eqn:E1.
      destruct (add_offset_spec _ _ _ _ _ E1 H0) as (H1 & Hc & Hm).
      destruct (IH u1 i1 E H1) as (H2 & Hl & Hm2). split_and!; [done| |auto].
      intros x [->|Hx]%elem_of_cons; auto. }
  destruct (H _ _ _ E) as (H1 & H2 & _).
  { intros o i. split; [by rewrite lookup_empty|]. rewrite lookup_nil. done. }
  split; [done|]. intros cands c Hl Hc. apply H2. apply list_elem_of_In, in_concat.
  exists cands. split; by apply list_elem_of_In.
Qed.

(** What the device computes: entry [i * n + j] is the product of query [i] and
    vector [j]. *)
Definition gemm_computes (dot : list f32 -> list f32 -> f32) : Prop :=
  forall qs vs scores, gemm qs vs = Some scores ->
  forall i j q v, qs !! i = Some q -> vs !! j = Some v -> scores !! (i * length vs + j)%nat = Some (dot q v).

(** One query's candidates scored on their own. *)
Definition device_rerank (dot : list f32 -> list f32 -> f32) (dim top_k : N) (view : View)
    (q : list f32) (cands : list ScoredPoint) : list ScoredPoint :=
  take (N.to_nat top_k) (sort_by point_le (map (fun c =>
    {| offset := offset c; sp_tier := sp_tier c;
       score := dot (unit_length dim q) (default (repeat f32_zero (N.to_nat dim)) (view (offset c))) |}) cands)).

Lemma mapM_Some_ext {A B C} (f : A -> option B) (g : B -> C) (h : A -> C) (l : list A) :
  (forall i x, l !! i = Some x -> exists y, f x = Some y /\ g y = h x) ->
  exists ys, mapM f l = Some ys /\ map g ys = map h l.
Proof.
  induction l as [|x l IH]; intros H; [by exists []|].
  destruct (H O x eq_refl) as (y & Hf & Hg). destruct IH as (ys & Hys & Hm); [intros i; apply (H (S i))|].
  exists (y :: ys). simpl. rewrite Hf. simpl. rewrite Hys. simpl. by rewrite Hg, Hm.
Qed.

(** The row of one query, whose candidates are all in the index of the union. *)
Lemma row_scores_exact dot queries dim view union idx scores :
  gemm_computes dot -> (forall o i, idx !! o = Some i -> union !! i = Some o) ->
  gemm (map (unit_length dim) queries) (map (fun o => default (repeat f32_zero (N.to_nat dim)) (view o)) union)
    = Some scores ->
  forall i q cands, queries !! i = Some q -> (forall c, c ∈ cands -> is_Some (idx !! offset c)) ->
  exists r, row_scores scores (length union) i idx cands = Some r /\
    forall top_k, take (N.to_nat top_k) (sort_by point_le r) = device_rerank dot dim top_k view q cands.
Proof.
  intros Hg Hidx Hs i q cands Hq Hc. unfold row_scores.
  edestruct (mapM_Some_ext (cell_score scores (length union) i idx) (fun c : ScoredPoint => c)) as (r & Hr & Hm);
    [|exists r; split; [exact Hr|]; intros top_k; unfold device_rerank; rewrite map_id in Hm; rewrite Hm; reflexivity].
  intros j c Hj. destruct (Hc c (list_elem_of_lookup_2 _ _ _ Hj)) as [n Hn].
  unfold cell_score. rewrite Hn. simpl. pose proof (Hidx _ _ Hn) as Hun.
  assert (Hsc := Hg _ _ _ Hs i n (unit_length dim q) (default (repeat f32_zero (N.to_nat dim)) (view (offset c)))).
  rewrite length_map in Hsc. rewrite Hsc; [eexists; split; reflexivity| |].
  - change (map (unit_length dim) queries) with (unit_length dim <$> queries). by rewrite list_lookup_fmap, Hq.
  - change (map ?f union) with (f <$> union). by rewrite list_lookup_fmap, Hun.
Qed.

(** Rows computed in turn are the rows of the zipped lists. *)
Lemma mapM_rows {A B C D} (f : nat -> B -> option C) (g : C -> D) (h : A -> B -> D) qs pq k :
  length qs = length pq ->
  (forall i q c, qs !! i = Some q -> pq !! i = Some c -> exists r, f (k + i)%nat c = Some r /\ g r = h q c) ->
  (rows ← mapM (fun qc : nat * B => f qc.1 qc.2) (zip (seq k (length pq)) pq); Some (map g rows)) =
    Some (zip_with h qs pq).
Proof.
  revert k pq. induction qs as [|q qs IH]; intros k [|c pq] Hl H; try done. simpl.
  destruct (H O q c eq_refl eq_refl) as (r & Hr & Hd). rewrite Nat.add_0_r in Hr. rewrite Hr. simpl.
  assert (IH' := IH (S k) pq ltac:(simpl in Hl; lia)). opose proof (IH' _) as E.
  { intros i q' c' Hq Hc. destruct (H (S i) q' c' Hq Hc) as (r' & Hr' & ?).
    exists r'. rewrite Nat.add_succ_r in Hr'. done. }
  destruct (mapM _ (zip (seq (S k) (length pq)) pq)) as [rows|]; simpl in *; [|done].
  injection E as E. by rewrite Hd, E.
Qed.

(** The batched device rerank is the rerank of each query on its own: the index
    into the shared matrix never leaves it, and every candidate gets the product of
    its own query with its own vector, whatever the other queries asked for. *)
Theorem gpu_rerank_per_query dot queries per_query top_k dim view :
  gemm_computes dot -> length queries = length per_query ->
  gpu_rerank_candidates_batch queries per_query top_k dim view = None \/
  gpu_rerank_candidates_batch queries per_query top_k dim view =
    Some (Some (zip_with (device_rerank dot dim top_k view) queries per_query)).
Proof.
  intros Hg Hlen. unfold gpu_rerank_candidates_batch.
  destruct (union_offsets per_query) as [union idx] eqn:Hu.
  destruct (union_offsets_spec _ _ _ Hu) as [Hidx Hall]. destruct union as [|u0 us].
  - right. do 2 f_equal. clear Hu.
    assert (Hnil : forall c, c ∈ per_query -> c = []).
    { intros c Hc. destruct c as [|x c]; [done|].
      destruct (Hall (x :: c) x Hc) as [i Hi]; [set_solver|]. by apply Hidx in Hi. }
    clear Hall. revert per_query Hlen Hnil. induction queries as [|q queries IH]; intros [|c per_query] Hlen Hnil; try done.
    simpl. rewrite (Hnil c) by set_solver. f_equal; [unfold device_rerank; simpl; by rewrite take_nil|].
    apply IH; [simpl in Hlen; lia|]. intros c' Hc'. apply Hnil. set_solver.
  - cbn [mbind option_bind]. remember (u0 :: us) as union eqn:Eun. clear Eun u0 us.
    destruct (gemm (map (unit_length dim) queries) _) as [scores|] eqn:Hs; [|by left]. right. cbn [mbind option_bind]. f_equal.
    apply (mapM_rows (fun i c => row_scores scores (length union) i idx c)); [done|]. intros i q cands Hq Hc.
    destruct (row_scores_exact dot queries dim view union idx scores Hg (fun o n => proj1 (Hidx o n)) Hs i q cands Hq)
      as (r & Hr & Hd); [intros c; apply Hall; exact (list_elem_of_lookup_2 _ _ _ Hc)|eauto].
Qed.

End segment_search.

(** ** Concrete segments *)

Module SegmentSearchWitness.
Import Examples.

(** A sealed segment of 150 points whose index answers in offset order, a hot segment
    and a quantized one. *)
Definition ex_native (q : list f32) (k : N) : option (list (N * f32)) :=
  Some (map (fun i => (N.of_nat i, f32_zero)) (seq 0 (N.to_nat (N.min k 150)))).
Definition ex_sealed : UsearchIndex :=
  {| u_dim := 2; u_offsets := map N.of_nat (seq 0 150); u_search_list_size := 64; u_native := ex_native |}.
Definition ex_quantizer : Quantizer := {|
  EncodedQuery := list f32; encode_query := fun q => Ok q;
  score_batch := fun _ l => map (fun _ => f32_zero) l;
  score_batch_length := fun _ l => length_map _ l |}.
Definition ex_quant : QuantSegment :=
  {| q_dim := 2; q_tier := Warm; q_quantizer := ex_quantizer; q_codes := [(201, []); (202, [])] |}.
Definition ex_hot_segment : HotSegment :=
  {| h_dim := 2; offsets := [200; 199]; seen := {[200; 199]} |}.
Definition ex_search_snapshot : SegmentSnapshot :=
  {| sn_search_list_size := 64; sn_segments := [SPlain ex_hot_segment; SSealed ex_sealed; SQuant ex_quant] |}.
(** Offset 201 lies along the query, the others across it; 199 has no vector. *)
Definition ex_search_view : View := fun o =>
  if o =? 199 then None else if o =? 201 then Some [f32_one; 0] else if o <=? 202 then Some [0; f32_one] else None.

Lemma ex_native_ok : Forall native_ok (sn_segments ex_search_snapshot).
Proof.
  unfold ex_search_snapshot. simpl. apply Forall_cons; split; [done|]. apply Forall_cons; split; [|by apply Forall_singleton].
  intros q k m [= <-] o x Hin. apply list_elem_of_fmap in Hin as (i & [= -> ->] & Hi).
  apply list_elem_of_In, in_map, list_elem_of_In.
  apply elem_of_seq in Hi. apply elem_of_seq. lia.
Qed.

Lemma snapshot_search_sound_witness :
  exists res, @snapshot_search scalar_kernels ex_point_heap ex_item_heap ex_search_snapshot [f32_one; 0] 2 None
                ex_search_view (Some {[ 3; 199; 200; 201 ]}) = Ok res /\
    offset <$> res = [201; 200] /\ NoDup (offset <$> res).
Proof.
  destruct (@snapshot_search scalar_kernels ex_point_heap ex_item_heap ex_search_snapshot [f32_one; 0] 2 None
              ex_search_view (Some {[ 3; 199; 200; 201 ]})) as [res|] eqn:E; [|exfalso; revert E; by vm_compute].
  exists res. split; [done|]. split.
  - assert (Hr : match @snapshot_search scalar_kernels ex_point_heap ex_item_heap ex_search_snapshot [f32_one; 0] 2 None
              ex_search_view (Some {[ 3; 199; 200; 201 ]}) with Ok r => offset <$> r | Err _ => [] end = [201; 200])
      by (vm_compute; reflexivity).
    by rewrite E in Hr.
  - exact (proj1 (@snapshot_search_sound scalar_kernels ex_point_heap ex_item_heap ex_search_snapshot
      [f32_one; 0] 2 None ex_search_view _ res ex_native_ok E)).
Defined.

(** The eight nearest points are not admitted, the 142 others are. *)
Definition ex_admitted : RoaringBitmap := list_to_set (map N.of_nat (seq 8 142)).

Lemma usearch_discards_witness :
  @usearch_search scalar_kernels ex_sealed [f32_one; 0] 1 (Some ex_admitted) ex_search_view = Ok [] /\
  len (filter (fun o => allowed (Some ex_admitted) o) (u_offsets ex_sealed)) = 142.
Proof.
  split; [|vm_compute; reflexivity].
  apply (@usearch_discards scalar_kernels ex_sealed [f32_one; 0] 1 ex_admitted ex_search_view).
  1-5: vm_compute; reflexivity.
  repeat constructor; (eexists; split; [reflexivity|vm_compute; reflexivity]).
Defined.

Definition ex_dot (a b : list f32) : f32 := hd f32_zero b.
Definition ex_gemm (qs vs : list (list f32)) : option (list f32) :=
  Some (concat (map (fun q => map (ex_dot q) vs) qs)).
Lemma ex_gemm_computes : gemm_computes ex_gemm ex_dot.
Proof.
  intros qs vs scores [= <-]. induction qs as [|q0 qs IH]; intros [|i] j q v Hq Hv; try done; simpl in *.
  - injection Hq as ->. rewrite lookup_app_l by (rewrite length_map; by eapply lookup_lt_Some).
    change (map (ex_dot q) vs) with (ex_dot q <$> vs). by rewrite list_lookup_fmap, Hv.
  - rewrite lookup_app_r by (rewrite length_map; lia). rewrite length_map.
    replace (length vs + i * length vs + j - length vs)%nat with (i * length vs + j)%nat by lia.
    by apply IH.
Qed.

Lemma gpu_rerank_per_query_witness :
  let cands := [[ex_pt 200 0; ex_pt 201 0]; [ex_pt 201 0]] in
  let qs := [[f32_one; 0]; [0; f32_one]] in
  gpu_rerank_candidates_batch ex_gemm qs cands 1 2 ex_search_view =
    Some (Some (zip_with (device_rerank ex_dot 2 1 ex_search_view) qs cands)) /\
  zip_with (device_rerank ex_dot 2 1 ex_search_view) qs cands =
    [[ex_pt 201 0x3f800000]; [ex_pt 201 0x3f800000]].
Proof.
  split; [|vm_compute; reflexivity].
  destruct (gpu_rerank_per_query ex_gemm ex_dot [[f32_one; 0]; [0; f32_one]]
    [[ex_pt 200 0; ex_pt 201 0]; [ex_pt 201 0]] 1 2 ex_search_view ex_gemm_computes eq_refl) as [H|H];
    [exfalso; revert H; by vm_compute|exact H].
Defined.

End SegmentSearchWitness.
