(* ===== verification/TopOf.v ===== *)
(** * The head of an exact ranking

    [top_of] of [crates/turbomemory_storage/src/engine/search.rs]: the best few of a
    stream of scored records, in one pass over a bounded buffer, and its equivalence
    with sorting the whole stream. [select_nth_unstable_by] is an interface. *)

From S2P Require Import Prelude Core Floats Metrics Record Segments.

Definition f32_neg_inf : f32 := 0xFF800000.
Definition f32_neg_zero : f32 := 0x80000000.

(** [best_first]: best score first, the older record first on a tie; [x] may stay
    before [y]. *)
Definition best_first (a b : N * f32) : Prop :=
  match cmp_score_desc a.2 b.2 with Lt => True | Eq => a.1 <= b.1 | Gt => False end.

#[global] Instance best_first_dec a b : Decision (best_first a b).
Proof. unfold best_first. destruct (cmp_score_desc a.2 b.2); apply _. Defined.

(** [slice::select_nth_unstable_by]: the element at [n] is the one a sort would put
    there, with none above it before and none below it after. *)
Class SelectNth {A : Type} (R : A -> A -> Prop) := {
  select_nth : nat -> list A -> list A;
  select_nth_spec : forall n l, (n < length l)%nat ->
    exists pre x post, select_nth n l = pre ++ x :: post /\ length pre = n /\
      pre ++ x :: post ≡ₚ l /\ (forall y, y ∈ pre -> R y x) /\ (forall y, y ∈ post -> R x y);
}.

Section top_of.
Context {SN : SelectNth best_first}.

(** One candidate: the buffer and the floor after it. *)
Definition top_step (want cap : N) (admitp : N -> bool) (st : list (N * f32) * f32) (c : N * f32)
    : list (N * f32) * f32 :=
  let '(kept, floor) := st in
  if negb (f32_gtb c.2 floor) || negb (admitp c.1) then (kept, floor)
  else
    let kept := kept ++ [c] in
    if cap <=? len kept then
      let kept := take (N.to_nat want) (select_nth (N.to_nat (want - 1)) kept) in
      (kept, from_option snd f32_neg_inf (kept !! N.to_nat (want - 1)))
    else (kept, floor).
Definition top_of (candidates : list (N * f32)) (want : N) (admitp : N -> bool) : list (N * f32) :=
  if want =? 0 then []
  else
    let cap := N.max (N.min (want * 2) (U64 - 1)) 64 in
    take (N.to_nat want)
      (sort_by best_first (foldl (top_step want cap admitp) ([], f32_neg_inf) candidates).1).

End top_of.

(** The reference: sort every admitted candidate that has a score, cut at [want]. *)
Definition ranking (candidates : list (N * f32)) (admitp : N -> bool) : list (N * f32) :=
  sort_by best_first (filter (fun c => negb (is_nan c.2) && admitp c.1) candidates).

(** ** The order *)

#[global] Instance best_first_trans : Transitive best_first.
Proof.
  intros a b c. unfold best_first. rewrite !cmp_score_desc_key.
  destruct (score_key a.2), (score_key b.2), (score_key c.2); simpl; try done; try lia;
    repeat match goal with |- context [(?x ?= ?y)%Z] => destruct (Z.compare_spec x y) end;
    intros; try done; lia.
Qed.
#[global] Instance best_first_total : Total best_first.
Proof.
  intros a b. unfold best_first. rewrite (cmp_score_desc_antisym a.2 b.2).
  destruct (cmp_score_desc a.2 b.2); simpl; auto. lia.
Qed.
Lemma best_first_offset a b : best_first a b -> best_first b a -> a.1 = b.1.
Proof.
  unfold best_first. rewrite (cmp_score_desc_antisym a.2 b.2).
  destruct (cmp_score_desc a.2 b.2); simpl; intros; [lia|done|done].
Qed.
Lemma best_first_score a b : best_first a b -> score_le a.2 b.2.
Proof. unfold best_first, score_le. by destruct (cmp_score_desc a.2 b.2). Qed.

(** Two rankings of records with distinct offsets are the same list. *)
Lemma ranked_unique l1 l2 :
  NoDup l2.*1 -> StronglySorted best_first l1 -> StronglySorted best_first l2 -> l1 ≡ₚ l2 -> l1 = l2.
Proof.
  intros Hnd H1 H2 Hp. apply (StronglySorted_unique_strong best_first); auto.
  intros a b Ha Hb Hab Hba. rewrite Hp in Ha. pose proof (best_first_offset a b Hab Hba) as E.
  apply list_elem_of_lookup in Ha as [i Hi], Hb as [j Hj].
  assert (i = j) as ->; [|congruence].
  eapply NoDup_lookup; [exact Hnd| |]; rewrite list_lookup_fmap, ?Hi, ?Hj; simpl; by rewrite ?E.
Qed.
Lemma sort_ranked l1 l2 : NoDup l2.*1 -> l1 ≡ₚ l2 -> sort_by best_first l1 = sort_by best_first l2.
Proof.
  intros Hnd Hp. apply ranked_unique; try apply sort_by_sorted; try apply _.
  - by rewrite sort_by_perm.
  - by rewrite !sort_by_perm.
Qed.
Lemma take_sort_insert {A} (R : A -> A -> Prop) `{!forall x y, Decision (R x y)} n x l :
  take n (sort_insert R x l) = take n (sort_insert R x (take n l)).
Proof.
  revert n. induction l as [|y l IH]; intros [|n]; simpl; try done.
  case_decide; simpl; [|f_equal; apply IH]. f_equal. destruct n as [|n]; simpl; [done|]. f_equal.
  by rewrite take_take, (Nat.min_l n (S n)) by lia.
Qed.

(** A candidate that comes later and is not above any of the best [n] changes nothing. *)
Lemma rank_skip n l c :
  NoDup (l ++ [c]).*1 -> (n <= length l)%nat ->
  (forall t, t ∈ take n (sort_by best_first l) -> best_first t c) ->
  take n (sort_by best_first (l ++ [c])) = take n (sort_by best_first l).
Proof.
  intros Hnd Hn Hle. rewrite fmap_app in Hnd. apply NoDup_app in Hnd as (Hl & Hc & _).
  assert (Hcl : c.1 ∉ l.*1) by (intros Hin; apply (Hc c.1 Hin); simpl; set_solver).
  rewrite (sort_ranked (l ++ [c]) (c :: l)); [|simpl; by constructor|by rewrite Permutation_app_comm].
  simpl. rewrite take_sort_insert.
  set (T := take n (sort_by best_first l)) in *.
  assert (HT : StronglySorted best_first T).
  { pose proof (sort_by_sorted best_first l) as Hs. rewrite <- (take_drop n) in Hs.
    by apply StronglySorted_app in Hs as (_ & ? & _). }
  assert (Hlen : length T = n).
  { unfold T. rewrite length_take. rewrite (Permutation_length (sort_by_perm best_first l)). lia. }
  assert (HTc : sort_insert best_first c T = T ++ [c]).
  { apply ranked_unique.
    - rewrite fmap_app. apply NoDup_app. split_and!; [| |apply NoDup_singleton].
      + assert (Hsl : NoDup (sort_by best_first l).*1) by (by rewrite sort_by_perm).
        rewrite <- (take_drop n (sort_by best_first l)), fmap_app in Hsl. by apply NoDup_app in Hsl as [? _].
      + intros o Ho Hoc. apply list_elem_of_singleton in Hoc as ->. apply Hcl.
        apply list_elem_of_fmap in Ho as (t & -> & Ht). apply list_elem_of_fmap. exists t. split; [done|].
        rewrite <- (sort_by_perm best_first). unfold T in Ht.
        rewrite <- (take_drop n (sort_by best_first l)). apply elem_of_app. by left.
    - by apply sort_insert_sorted; try apply _.
    - apply StronglySorted_app. split_and!; [|done|by repeat constructor].
      intros x y Hx Hy. apply list_elem_of_singleton in Hy as ->. auto.
    - rewrite sort_insert_perm. by rewrite Permutation_app_comm. }
  rewrite HTc, take_app_le by lia. unfold T. rewrite take_take. f_equal. lia.
Qed.

Lemma elem_of_take_of {A} n (l : list A) x : x ∈ take n l -> x ∈ l.
Proof. intros Hx. rewrite <- (take_drop n l). apply elem_of_app. by left. Qed.

(** Pushing a candidate only needs the best [n] so far. *)
Lemma rank_push n l c :
  NoDup (l ++ [c]).*1 ->
  take n (sort_by best_first (l ++ [c])) = take n (sort_insert best_first c (take n (sort_by best_first l))).
Proof.
  intros Hnd. rewrite (sort_ranked (l ++ [c]) (c :: l)).
  - simpl. by rewrite take_sort_insert.
  - revert Hnd. by rewrite (Permutation_app_comm l [c]).
  - by rewrite Permutation_app_comm.
Qed.

(** Cutting at the selected element keeps the best [n]. *)
Lemma rank_cut {SN : SelectNth best_first} n l :
  (0 < n <= length l)%nat -> NoDup l.*1 ->
  let l' := take n (select_nth (n - 1) l) in
  take n (sort_by best_first l') = take n (sort_by best_first l) /\
  length l' = n /\ (forall x, x ∈ l' -> x ∈ l) /\ NoDup l'.*1 /\
  exists x, l' !! (n - 1)%nat = Some x /\ forall t, t ∈ l' -> best_first t x.
Proof.
  intros Hn Hnd. destruct (select_nth_spec (n - 1) l) as (pre & x & post & E & Hl & Hp & Hpre & Hpost); [lia|].
  simpl. rewrite E. assert (Et : take n (pre ++ x :: post) = pre ++ [x]).
  { rewrite cons_middle, app_assoc, take_app_le by (rewrite length_app; simpl; lia).
    apply take_ge. rewrite length_app. simpl. lia. }
  rewrite Et. assert (Hlen : length (pre ++ [x]) = n) by (rewrite length_app; simpl; lia).
  assert (Hp' : (pre ++ [x]) ++ post ≡ₚ l) by (by rewrite <- app_assoc).
  assert (Hs : sort_by best_first l = sort_by best_first (pre ++ [x]) ++ sort_by best_first post).
  { apply ranked_unique.
    - rewrite !sort_by_perm. by rewrite Hp'.
    - apply sort_by_sorted; apply _.
    - apply StronglySorted_app. split_and!; [|apply sort_by_sorted; apply _..].
      intros a b Ha Hb. rewrite sort_by_perm in Ha, Hb. apply elem_of_app in Ha as [Ha|Ha].
      + etrans; [by apply Hpre|by apply Hpost].
      + apply list_elem_of_singleton in Ha as ->. by apply Hpost.
    - by rewrite !sort_by_perm. }
  split_and!; [|done| | |].
  - rewrite Hs, take_app_le; [done|]. rewrite (Permutation_length (sort_by_perm _ _)). lia.
  - intros y Hy. rewrite <- Hp'. set_solver.
  - rewrite <- Hp', fmap_app in Hnd. by apply NoDup_app in Hnd as [? _].
  - exists x. split; [by rewrite lookup_app_r, Hl, Nat.sub_diag by lia|].
    intros t [Ht|Ht]%elem_of_app; [by apply Hpre|]. apply list_elem_of_singleton in Ht as ->.
    unfold best_first. rewrite cmp_score_desc_key. destruct (score_key x.2); simpl; [|lia].
    rewrite Z.compare_refl. lia.
Qed.

(** A score the buffer treats as the ranking does: a NaN, or above [-inf] and not
    the negative zero. *)
Definition plain (s : f32) : bool :=
  is_nan s || (f32_gtb s f32_neg_inf && negb (f32_sign s && is_zero s)).

Lemma plain_below t c floor :
  is_nan t.2 = false -> is_nan c.2 = false -> plain t.2 = true -> plain c.2 = true ->
  f32_geb t.2 floor = true -> f32_gtb c.2 floor = false -> t.1 < c.1 -> best_first t c.
Proof.
  intros Ht Hc Pt Pc Hge Hgt Hlt. unfold plain in Pt, Pc. rewrite Ht in Pt. rewrite Hc in Pc. simpl in *.
  apply andb_true_iff in Pt as [_ Pt], Pc as [_ Pc]. rewrite negb_true_iff, andb_false_iff in Pt, Pc.
  unfold f32_geb in Hge. unfold f32_gtb in Hgt. rewrite Ht in Hge. rewrite Hc in Hgt. simpl in *.
  apply andb_true_iff in Hge as [Hf Hge]. rewrite Hf in Hgt. simpl in Hgt.
  unfold best_first, cmp_score_desc. rewrite Ht, Hc. unfold total_cmp.
  destruct (Z.compare_spec (total_key c.2) (total_key t.2)) as [?|?|Hk]; [lia|done|].
  exfalso. unfold is_zero, total_key, real_key in *.
  rewrite !N.eqb_neq in Pt, Pc. destruct (f32_sign t.2), (f32_sign c.2); lia.
Qed.

Section top_of_theorem.
Context {SN : SelectNth best_first} (want : N) (admitp : N -> bool).
#[local] Abbreviation good := (fun c : N * f32 => Is_true (negb (is_nan c.2) && admitp c.1)).

(** The buffer holds the best [want] of what has been seen. *)
Record buffer_ok (P : list (N * f32)) (kept : list (N * f32)) (floor : f32) : Prop := {
  bo_sub : forall x, x ∈ kept -> x ∈ filter good P;
  bo_nodup : NoDup kept.*1;
  bo_best : take (N.to_nat want) (sort_by best_first kept) =
            take (N.to_nat want) (sort_by best_first (filter good P));
  bo_floor : floor = f32_neg_inf \/
    (N.to_nat want <= length (filter good P))%nat /\
    forall t, t ∈ take (N.to_nat want) (sort_by best_first kept) -> f32_geb t.2 floor = true;
}.

Lemma buffer_step cap P kept floor c kept' floor' :
  0 < want -> want <= cap -> buffer_ok P kept floor ->
  StronglySorted N.lt (P ++ [c]).*1 -> Forall (fun c => plain c.2 = true) (P ++ [c]) ->
  top_step want cap admitp (kept, floor) c = (kept', floor') -> buffer_ok (P ++ [c]) kept' floor'.
Proof.
  intros Hw Hcap [Hsub Hnd Hbest Hfl] Hsorted Hplain.
  rewrite fmap_app in Hsorted. apply StronglySorted_app in Hsorted as (Hlt & HsP & _).
  assert (HltP : forall t, t ∈ filter good P -> t.1 < c.1).
  { intros t Ht. apply Hlt; [|simpl; set_solver]. apply list_elem_of_filter in Ht as [_ Ht].
    apply list_elem_of_fmap. eauto. }
  assert (HndP : NoDup (filter good P).*1).
  { assert (Hp : NoDup P.*1).
    { clear -HsP. induction HsP as [|a l Hl IH Ha]; constructor; [|done].
      rewrite Forall_forall in Ha. intros Hin. specialize (Ha a Hin). lia. }
    clear -Hp. induction P as [|a P IH]; simpl in *; [constructor|]. apply NoDup_cons in Hp as [Ha Hp].
    rewrite filter_cons. case_decide; [|auto]. simpl. constructor; [|auto].
    intros Hin. apply Ha. apply list_elem_of_fmap in Hin as (x & E & Hx).
    apply list_elem_of_filter in Hx as [_ Hx]. apply list_elem_of_fmap. eauto. }
  assert (HPc : forall t, t ∈ P ++ [c] -> plain t.2 = true) by (by apply Forall_forall).
  assert (Hnotin : c.1 ∉ (filter good P).*1).
  { intros Hin. apply list_elem_of_fmap in Hin as (t & E & Ht). specialize (HltP t Ht). lia. }
  assert (Hnotink : c.1 ∉ kept.*1).
  { intros Hin. apply list_elem_of_fmap in Hin as (t & E & Ht). apply Hnotin. rewrite E.
    apply list_elem_of_fmap. eauto. }
  unfold top_step.
  destruct (negb (is_nan c.2) && admitp c.1) eqn:Hgood.
  2: { (* no candidate at all *)
    assert (Hskip : negb (f32_gtb c.2 floor) || negb (admitp c.1) = true).
    { unfold f32_gtb. destruct (is_nan c.2), (admitp c.1); simpl in *; try done; by rewrite ?orb_true_r. }
    rewrite Hskip. intros [= <- <-].
    assert (Hf0 : filter good (P ++ [c]) = filter good P).
    { rewrite filter_app, (filter_none _ [c]), app_nil_r; [done|].
      intros x ->%list_elem_of_singleton. rewrite Hgood. tauto. }
    split; rewrite ?Hf0; auto. }
  assert (Hfc : filter good (P ++ [c]) = filter good P ++ [c]).
  { rewrite filter_app. f_equal. apply filter_all. intros x ->%list_elem_of_singleton. by rewrite Hgood. }
  apply andb_true_iff in Hgood as [Hnn Ha]. apply negb_true_iff in Hnn.
  rewrite Ha, orb_false_r.
  assert (HndF : NoDup (filter good P ++ [c]).*1).
  { rewrite fmap_app. apply NoDup_app. split_and!; [done| |apply NoDup_singleton].
    intros o Ho ->%list_elem_of_singleton. done. }
  assert (HndK : NoDup (kept ++ [c]).*1).
  { rewrite fmap_app. apply NoDup_app. split_and!; [done| |apply NoDup_singleton].
    intros o Ho ->%list_elem_of_singleton. done. }
  destruct (f32_gtb c.2 floor) eqn:Hgt; simpl.
  2: { (* below the floor *)
    intros [= <- <-]. destruct Hfl as [->|[Hlen Hge]].
    { exfalso. specialize (HPc c ltac:(set_solver)). unfold plain in HPc. rewrite Hnn, Hgt in HPc. done. }
    assert (Hsk : take (N.to_nat want) (sort_by best_first (filter good P ++ [c])) =
                  take (N.to_nat want) (sort_by best_first (filter good P))).
    { apply rank_skip; [done|done|]. intros t Ht.
      assert (HtF : t ∈ filter good P).
      { rewrite <- (sort_by_perm best_first), <- (take_drop (N.to_nat want)). apply elem_of_app. by left. }
      apply list_elem_of_filter in HtF as Ht'. destruct Ht' as [Hg HtP].
      apply Is_true_true, andb_true_iff in Hg as [Hg _]. apply negb_true_iff in Hg.
      apply (plain_below t c floor); auto.
      - apply HPc. set_solver.
      - apply HPc. set_solver.
      - apply Hge. by rewrite Hbest. }
    split; rewrite ?Hfc; [|done|by rewrite Hsk|].
    - intros x Hx. apply elem_of_app. left. auto.
    - right. split; [rewrite length_app; lia|done]. }
  (* pushed *)
  assert (Hpush : take (N.to_nat want) (sort_by best_first (kept ++ [c])) =
                  take (N.to_nat want) (sort_by best_first (filter good P ++ [c]))).
  { rewrite !rank_push by done. by rewrite Hbest. }
  assert (Hsub' : forall x, x ∈ kept ++ [c] -> x ∈ filter good P ++ [c]).
  { intros x [Hx|Hx]%elem_of_app; apply elem_of_app; [left; auto|by right]. }
  destruct (cap <=? len (kept ++ [c])) eqn:Hcut.
  - apply N.leb_le in Hcut. unfold len in Hcut. intros [= <- <-].
    replace (N.to_nat (want - 1)) with (N.to_nat want - 1)%nat by lia.
    destruct (rank_cut (N.to_nat want) (kept ++ [c])) as (H1 & H2 & H3 & H4 & x & Hx & Hbx); [lia|done|].
    split; rewrite ?Hfc; [auto|done|by rewrite H1|].
    right. rewrite Hx. simpl. split.
    + assert (HlT := f_equal length Hpush). rewrite !length_take in HlT.
      rewrite !(Permutation_length (sort_by_perm _ _)) in HlT. lia.
    + intros t Ht. apply elem_of_take_of in Ht. rewrite sort_by_perm in Ht.
      assert (Hng : forall y, y ∈ take (N.to_nat want) (select_nth (N.to_nat want - 1) (kept ++ [c])) ->
                is_nan y.2 = false).
      { intros y Hy%H3%Hsub'. rewrite <- Hfc in Hy. apply list_elem_of_filter in Hy as [Hy _].
        apply Is_true_true, andb_true_iff in Hy as [Hy _]. by apply negb_true_iff. }
      apply score_le_geb; [by apply Hng|apply Hng; by eapply list_elem_of_lookup_2|].
      by apply best_first_score, Hbx.
  - intros [= <- <-]. split; rewrite ?Hfc; [auto|done|done|].
    destruct Hfl as [->|[Hlen Hge]]; [by left|right]. split; [rewrite length_app; lia|].
    intros t Ht. rewrite rank_push in Ht by done. apply elem_of_take_of in Ht.
    rewrite sort_insert_perm in Ht. apply elem_of_cons in Ht as [->|Ht]; [by apply f32_gtb_geb|auto].
Qed.

Lemma top_of_spec candidates :
  want < U64 -> StronglySorted N.lt candidates.*1 -> Forall (fun c => plain c.2 = true) candidates ->
  top_of candidates want admitp = take (N.to_nat want) (ranking candidates admitp).
Proof.
  intros Hb Hs Hp. unfold top_of. destruct (N.eqb_spec want 0) as [->|Hw]; [done|].
  set (cap := N.max _ 64). assert (Hcap : want <= cap) by (unfold cap, U64 in *; lia).
  enough (H : forall P rest kept floor, P ++ rest = candidates -> buffer_ok P kept floor ->
    buffer_ok candidates (foldl (top_step want cap admitp) (kept, floor) rest).1
      (foldl (top_step want cap admitp) (kept, floor) rest).2).
  { apply (bo_best _ _ _ (H [] candidates [] f32_neg_inf eq_refl ltac:(by split; [set_solver|constructor|done|left]))). }
  intros P rest. revert P. induction rest as [|c rest IH]; intros P kept floor E Hok.
  { rewrite app_nil_r in E. by subst. }
  cbn [foldl]. destruct (top_step want cap admitp (kept, floor) c) as [kept1 floor1] eqn:E1.
  assert (E' : (P ++ [c]) ++ rest = candidates) by (by rewrite <- app_assoc).
  apply (IH (P ++ [c])); [done|].
  eapply buffer_step; [lia|exact Hcap|exact Hok| | |exact E1].
  - rewrite <- E', fmap_app in Hs. by apply StronglySorted_app in Hs as (_ & ? & _).
  - rewrite <- E' in Hp. by apply Forall_app in Hp as [? _].
Qed.

(** [top_of] is the head of the ranking. For candidates in offset order whose
    scores are NaN or above [-inf] and not the negative zero, the one-pass buffer
    with its floor returns exactly the first [want] entries of the sorted list of all
    admitted candidates: every tie goes to the older record, and no NaN is
    returned. *)
Theorem top_of_ranking candidates :
  want < U64 -> StronglySorted N.lt candidates.*1 -> Forall (fun c => plain c.2 = true) candidates ->
  top_of candidates want admitp = take (N.to_nat want) (ranking candidates admitp).
Proof. apply top_of_spec. Qed.

End top_of_theorem.

(** ** A concrete selection *)

Module TopOfWitness.

(** Selection by sorting. *)
Lemma sorted_select n (l : list (N * f32)) :
  (n < length l)%nat -> exists pre x post, sort_by best_first l = pre ++ x :: post /\ length pre = n /\
    pre ++ x :: post ≡ₚ l /\ (forall y, y ∈ pre -> best_first y x) /\ (forall y, y ∈ post -> best_first x y).
Proof.
  intros Hn. destruct (lookup_lt_is_Some_2 (sort_by best_first l) n) as [x Hx].
  { by rewrite (Permutation_length (sort_by_perm best_first l)). }
  apply list_elem_of_split_length in Hx as (pre & post & E & Hl).
  exists pre, x, post. split_and!; [done|done|by rewrite <- E, sort_by_perm| |].
  - intros y Hy. pose proof (sort_by_sorted best_first l) as Hs. rewrite E in Hs.
    apply StronglySorted_app in Hs as (H & _). apply H; set_solver.
  - intros y Hy. pose proof (sort_by_sorted best_first l) as Hs. rewrite E in Hs.
    apply StronglySorted_app in Hs as (_ & _ & H). apply StronglySorted_inv in H as [_ H].
    rewrite Forall_forall in H. by apply H.
Qed.
Definition sort_select : SelectNth best_first :=
  {| select_nth := fun _ l => sort_by best_first l; select_nth_spec := sorted_select |}.

(** Seventy candidates, so that the buffer is cut: offset [i] has score 1 when [i] is
    odd and 0.5 when it is even; offset 7 has no score and 1 is not admitted. *)
Definition ex_candidates : list (N * f32) :=
  map (fun i => let o := N.of_nat i in
         (o, if o =? 7 then f32_nan else if N.odd o then f32_one else 0x3F000000)) (seq 0 70).
Lemma ex_candidates_sorted : StronglySorted N.lt ex_candidates.*1.
Proof. apply Sorted_StronglySorted; [apply _|]. apply (bool_decide_unpack _). vm_compute. exact I. Qed.
Lemma top_of_ranking_witness :
  @top_of sort_select ex_candidates 3 (fun o => negb (o =? 1)) =
    take 3 (ranking ex_candidates (fun o => negb (o =? 1))) /\
  (@top_of sort_select ex_candidates 3 (fun o => negb (o =? 1))).*1 = [3; 5; 9].
Proof.
  split; [|vm_compute; reflexivity].
  apply (@top_of_ranking sort_select 3 (fun o => negb (o =? 1)) ex_candidates).
  - reflexivity.
  - exact ex_candidates_sorted.
  - apply Forall_forall. intros c Hc. apply list_elem_of_In in Hc.
    assert (H : forallb (fun c => plain c.2) ex_candidates = true) by (vm_compute; reflexivity).
    rewrite forallb_forall in H. by apply H.
Defined.

End TopOfWitness.
