(* ===== verification/SegmentHolder.v ===== *)
(** * The segment holder, [crates/turbomemory_storage/src/segment_holder.rs]

    The hot segment, the lists of sealed segments, and the snapshot searches read.
    A segment that left the hot tier is immutable, so an [Arc] to it is its offsets
    with an identity ([Arc::ptr_eq] compares identities); the hot segment is
    mutated in place and is part of every snapshot. Building a segment on disk
    either fails or yields a segment with the given offsets; which one is an input
    ([true]: it succeeds). Directories and their removal are not modelled. *)

From S2P Require Import Prelude Core Metrics Record MetadataStore Segments.

Record Seg := { seg_id : N; seg_offsets : list N }.

#[global] Instance Seg_eq_dec : EqDecision Seg.
Proof. solve_decision. Defined.

Record Config := {
  dimension : N;
  hot_capacity : N;
  warm_capacity : N;
  hnsw_threshold : N;
  full_scan_threshold_kb : N;
  max_edges : N;
  c_merge_threshold_segments : N;
  c_merge_max_records : N;
}.

Definition merge_threshold_segments (c : Config) : N := N.max (c_merge_threshold_segments c) 2.
Definition merge_max_records (c : Config) : N :=
  N.max (N.max (c_merge_max_records c) (hot_capacity c)) 2.

Record SegmentHolder := {
  config : Config;
  hot : HotSegment;
  sealing_plain : list Seg;
  building_plain : list Seg;
  sealed_hot : list Seg;
  warm : list Seg;
  cold : list Seg;
  snapshot : list Seg;            (** beside the hot segment *)
  next_segment_id : N;
  next_arc : N;                   (** the identity of the next allocated [Arc] *)
}.

(** Field updates. *)
Definition set_hot (x : HotSegment) (h : SegmentHolder) : SegmentHolder :=
  {| config := config h; hot := x; sealing_plain := sealing_plain h;
     building_plain := building_plain h; sealed_hot := sealed_hot h; warm := warm h;
     cold := cold h; snapshot := snapshot h; next_segment_id := next_segment_id h;
     next_arc := next_arc h |}.
Definition set_lists (sp bp sh w c : list Seg) (h : SegmentHolder) : SegmentHolder :=
  {| config := config h; hot := hot h; sealing_plain := sp; building_plain := bp;
     sealed_hot := sh; warm := w; cold := c; snapshot := snapshot h;
     next_segment_id := next_segment_id h; next_arc := next_arc h |}.
Definition set_snapshot (s : list Seg) (h : SegmentHolder) : SegmentHolder :=
  {| config := config h; hot := hot h; sealing_plain := sealing_plain h;
     building_plain := building_plain h; sealed_hot := sealed_hot h; warm := warm h;
     cold := cold h; snapshot := s; next_segment_id := next_segment_id h;
     next_arc := next_arc h |}.
Definition set_ids (sid arc : N) (h : SegmentHolder) : SegmentHolder :=
  {| config := config h; hot := hot h; sealing_plain := sealing_plain h;
     building_plain := building_plain h; sealed_hot := sealed_hot h; warm := warm h;
     cold := cold h; snapshot := snapshot h; next_segment_id := sid; next_arc := arc |}.

(** [Arc::new]. *)
Definition new_arc (l : list N) (h : SegmentHolder) : Seg * SegmentHolder :=
  ({| seg_id := next_arc h; seg_offsets := l |},
   set_ids (next_segment_id h) (next_arc h + 1) h).

Definition ptr_eq (a b : Seg) : bool := seg_id a =? seg_id b.
Definition retain (keep : Seg -> bool) (l : list Seg) : list Seg := filter (fun s => keep s) l.

Definition seg_count (s : Seg) : N := len (seg_offsets s).
Definition sum_counts (l : list Seg) : N := foldr (fun s n => seg_count s + n) 0 l.

(** ** The snapshot *)

Definition searchable_segments (h : SegmentHolder) : list Seg :=
  sealing_plain h ++ building_plain h ++ sealed_hot h ++ warm h ++ cold h.

Definition publish_snapshot (h : SegmentHolder) : SegmentHolder :=
  set_snapshot (searchable_segments h) h.

Definition point_count (h : SegmentHolder) : N :=
  hot_point_count (hot h) + sum_counts (sealing_plain h) + sum_counts (building_plain h)
  + sum_counts (sealed_hot h) + sum_counts (warm h) + sum_counts (cold h).

(** ** Operations *)

(** [next_id] is past every segment directory found on disk. *)
Definition new (c : Config) (next_id : N) : SegmentHolder :=
  publish_snapshot
    {| config := c; hot := hot_new (dimension c); sealing_plain := []; building_plain := [];
       sealed_hot := []; warm := []; cold := []; snapshot := []; next_segment_id := next_id;
       next_arc := 0 |}.

Definition insert (h : SegmentHolder) (o : N) (embedding : list f32)
    : SegmentHolder * Result StorageError bool :=
  match hot_insert (hot h) o embedding with
  | (x, Ok _) => (set_hot x h, Ok (hot_capacity (config h) <=? hot_point_count x))
  | (x, Err e) => (set_hot x h, Err e)
  end.

(** The three effects of [seal_hot], in order: swap the hot segment out, queue
    it, publish. *)
Definition seal_swap (h : SegmentHolder) : Seg * SegmentHolder :=
  let '(old, h) := new_arc (offsets (hot h)) h in
  (old, set_hot (hot_new (dimension (config h))) h).
Definition seal_push (old : Seg) (h : SegmentHolder) : SegmentHolder :=
  set_lists (sealing_plain h ++ [old]) (building_plain h) (sealed_hot h) (warm h) (cold h) h.
Definition seal_hot (h : SegmentHolder) : SegmentHolder :=
  if hot_point_count (hot h) <? hot_capacity (config h) then h
  else let '(old, h) := seal_swap h in publish_snapshot (seal_push old h).

Fixpoint from_records_loop (h : SegmentHolder) (rs : list (N * Record_)) (sealed : gset N)
    : SegmentHolder * Result StorageError unit :=
  match rs with
  | [] => (h, Ok tt)
  | (o, r) :: rs =>
      if decide (o ∈ sealed) then from_records_loop h rs sealed
      else match insert h o (r_embedding r) with
           | (h, Err e) => (h, Err e)
           | (h, Ok true) => from_records_loop (seal_hot h) rs sealed
           | (h, Ok false) => from_records_loop h rs sealed
           end
  end.

Definition from_records (c : Config) (next_id : N) (rs : list (N * Record_)) (sealed : gset N)
    : Result StorageError SegmentHolder :=
  match from_records_loop (new c next_id) rs sealed with
  | (h, Ok _) => Ok h
  | (_, Err e) => Err e
  end.

(** [Vec::pop] takes the last element. *)
Definition pop_sealing_plain (h : SegmentHolder) : option (Seg * SegmentHolder) :=
  match last (sealing_plain h) with
  | None => None
  | Some plain =>
      Some (plain, set_lists (take (length (sealing_plain h) - 1) (sealing_plain h))
                     (building_plain h ++ [plain]) (sealed_hot h) (warm h) (cold h) h)
  end.

Definition push_sealing_plain (plain : Seg) (h : SegmentHolder) : SegmentHolder :=
  publish_snapshot
    (set_lists (sealing_plain h ++ [plain])
       (retain (fun p => negb (ptr_eq p plain)) (building_plain h))
       (sealed_hot h) (warm h) (cold h) h).

Definition remove_sealing_plain (target : Seg) (h : SegmentHolder) : SegmentHolder :=
  set_lists (retain (fun p => negb (ptr_eq p target)) (sealing_plain h))
    (retain (fun p => negb (ptr_eq p target)) (building_plain h))
    (sealed_hot h) (warm h) (cold h) h.

Definition add_sealed_hot (l : list N) (h : SegmentHolder) : SegmentHolder :=
  let '(seg, h) := new_arc l h in
  publish_snapshot (set_lists (sealing_plain h) (building_plain h) (sealed_hot h ++ [seg])
                      (warm h) (cold h) h).
Definition add_warm (l : list N) (h : SegmentHolder) : SegmentHolder :=
  let '(seg, h) := new_arc l h in
  publish_snapshot (set_lists (sealing_plain h) (building_plain h) (sealed_hot h)
                      (warm h ++ [seg]) (cold h) h).
Definition add_cold (l : list N) (h : SegmentHolder) : SegmentHolder :=
  let '(seg, h) := new_arc l h in
  publish_snapshot (set_lists (sealing_plain h) (building_plain h) (sealed_hot h)
                      (warm h) (cold h ++ [seg]) h).

(** [segment_path], [sealed_hot_path]: take the next directory number. *)
Definition segment_path (h : SegmentHolder) : N * SegmentHolder :=
  (next_segment_id h, set_ids (wadd64 (next_segment_id h) 1) (next_arc h) h).

(** The loop of [sealed_hot_merge_candidates]. *)
Fixpoint candidates_loop (hard_cap total : N) (sorted : list Seg) : list Seg :=
  match sorted with
  | [] => []
  | seg :: sorted =>
      let count := seg_count seg in
      if (0 <? total) && (hard_cap <? saturating_add total count) then []
      else seg :: candidates_loop hard_cap (total + count) sorted
  end.

Definition count_le (a b : Seg) : Prop := seg_count a <= seg_count b.
#[global] Instance count_le_dec a b : Decision (count_le a b).
Proof. unfold count_le. apply _. Defined.

Definition sealed_hot_merge_candidates (h : SegmentHolder) (threshold max_records : N)
    : option (list Seg) :=
  if len (sealed_hot h) <? threshold then None else
  let sorted := sort_by count_le (sealed_hot h) in
  let hard_cap := N.max (saturating_mul max_records 2) max_records in
  let candidates := candidates_loop hard_cap 0 sorted in
  if threshold <=? len candidates then Some candidates else None.

Definition is_target (targets : list Seg) (seg : Seg) : bool :=
  existsb (fun t => ptr_eq t seg) targets.

Definition remove_sealed_hot_segments (targets : list Seg) (h : SegmentHolder)
    : N * SegmentHolder :=
  let kept := retain (fun s => negb (is_target targets s)) (sealed_hot h) in
  (len (sealed_hot h) - len kept,
   set_lists (sealing_plain h) (building_plain h) kept (warm h) (cold h) h).

Definition read_vectors_for_offsets (l : list N) (view : View) : list (N * list f32) :=
  omap (fun o => v ← view o; Some (o, v)) l.

(** [sort_unstable] then [dedup]. *)
Fixpoint dedup_adjacent (l : list N) : list N :=
  match l with
  | a :: l' => match l' with
               | b :: _ => if a =? b then dedup_adjacent l' else a :: dedup_adjacent l'
               | [] => [a]
               end
  | [] => []
  end.

Definition compact_warm (h : SegmentHolder) (view : View) (build_ok : bool)
    : SegmentHolder * Result StorageError unit :=
  if (sum_counts (warm h) <=? warm_capacity (config h)) || bool_decide (warm h = []) then (h, Ok tt)
  else
    let warm_targets := warm h in
    let l := dedup_adjacent (merge_sort N.le (concat (map seg_offsets warm_targets))) in
    let records := (read_vectors_for_offsets l view).*1 in
    let install (h : SegmentHolder) (new_cold : list Seg) :=
      publish_snapshot
        (set_lists (sealing_plain h) (building_plain h) (sealed_hot h)
           (retain (fun s => negb (is_target warm_targets s)) (warm h)) (cold h ++ new_cold) h) in
    match records with
    | [] => (install h [], Ok tt)
    | _ =>
        let '(_, h) := segment_path h in
        if build_ok then let '(seg, h) := new_arc records h in (install h [seg], Ok tt)
        else (h, Err Io)
    end.

(** ** Promotion *)

(** [access_score] over [f64::powf] compared with the threshold. *)
Section promote.
Context (promotable : MetaRecord -> bool).

Fixpoint promote_loop (h : SegmentHolder) (meta : MetadataStore) (view : View)
    (candidates : list N) (promoted : N)
    : SegmentHolder * MetadataStore * Result StorageError N :=
  match candidates with
  | [] => (h, meta, Ok promoted)
  | o :: candidates =>
      match MetadataStore.get meta o with
      | None => promote_loop h meta view candidates promoted
      | Some meta_rec =>
          if negb (promotable meta_rec) then promote_loop h meta view candidates promoted
          else match view o with
               | None => promote_loop h meta view candidates promoted
               | Some vec =>
                   let record := with_tier (with_embedding meta_rec vec) Hot in
                   let meta := MetadataStore.put meta o record in
                   match hot_insert (hot h) o (r_embedding record) with
                   | (x, Err e) => (set_hot x h, meta, Err e)
                   | (x, Ok _) =>
                       let h := set_hot x h in
                       let h := if hot_capacity (config h) <=? hot_point_count x
                                then seal_hot h else h in
                       promote_loop h meta view candidates (promoted + 1)
                   end
               end
      end
  end.

Definition promote_hot (h : SegmentHolder) (meta : MetadataStore) (view : View)
    : SegmentHolder * MetadataStore * Result StorageError N :=
  let candidate_offsets := concat (map seg_offsets (searchable_segments h)) in
  match promote_loop h meta view candidate_offsets 0 with
  | (h, meta, Ok n) => ((if 0 <? n then publish_snapshot h else h), meta, Ok n)
  | r => r
  end.

Definition trigger_consolidation (h : SegmentHolder) (meta : MetadataStore) (view : View)
    (build_ok : bool) : SegmentHolder * MetadataStore * Result StorageError (N * N * N) :=
  let full := hot_capacity (config h) <=? hot_point_count (hot h) in
  let h := if full then seal_hot h else h in
  let sealed := if full then 1 else 0 in
  let over := warm_capacity (config h) <? sum_counts (warm h) in
  let '(h, r) := if over then compact_warm h view build_ok else (h, Ok tt) in
  match r with
  | Err e => (h, meta, Err e)
  | Ok _ =>
      let compacted := if over then 1 else 0 in
      match promote_hot h meta view with
      | (h, meta, Ok n) => (h, meta, Ok (sealed, compacted, n))
      | (h, meta, Err e) => (h, meta, Err e)
      end
  end.

End promote.

(** ** What a search can reach *)

(** Through the published snapshot. *)
Definition visible (h : SegmentHolder) (o : N) : Prop :=
  o ∈ offsets (hot h) \/ exists s, s ∈ snapshot h /\ o ∈ seg_offsets s.
(** In the lists themselves. *)
Definition covers (h : SegmentHolder) (o : N) : Prop :=
  o ∈ offsets (hot h) \/ exists s, s ∈ searchable_segments h /\ o ∈ seg_offsets s.

(** Every [Arc] has its own identity. *)
Definition ids_wf (h : SegmentHolder) : Prop :=
  NoDup (seg_id <$> searchable_segments h) /\
  (forall s, s ∈ searchable_segments h -> seg_id s < next_arc h).

(** Between operations: distinct identities, and the snapshot is up to date. *)
Record holder_ok (h : SegmentHolder) : Prop := {
  ok_ids : ids_wf h;
  ok_snapshot : snapshot h = searchable_segments h;
}.

Lemma ok_visible h o : holder_ok h -> visible h o <-> covers h o.
Proof. intros [_ Hs]. unfold visible, covers. by rewrite Hs. Qed.

(** Two lists of segments with the same elements cover the same offsets. *)
Lemma covers_subset h h' o :
  (o ∈ offsets (hot h) -> o ∈ offsets (hot h')) ->
  (forall s, s ∈ searchable_segments h -> o ∈ seg_offsets s ->
     exists s', s' ∈ searchable_segments h' /\ o ∈ seg_offsets s') ->
  covers h o -> covers h' o.
Proof. intros Hh Hs [Ho|(s & Hin & Ho)]; [left; auto|right; eauto]. Qed.

Lemma ids_wf_perm h h' :
  searchable_segments h' ≡ₚ searchable_segments h -> next_arc h <= next_arc h' -> ids_wf h -> ids_wf h'.
Proof.
  intros Hp Hn [H1 H2]. split; [by rewrite Hp|]. intros s. rewrite Hp. intros Hs.
  specialize (H2 s Hs). lia.
Qed.

(** Dropping segments keeps identities distinct. *)
Lemma ids_wf_sublist h h' :
  searchable_segments h' `sublist_of` searchable_segments h -> next_arc h <= next_arc h' ->
  ids_wf h -> ids_wf h'.
Proof.
  intros Hp Hn [H1 H2]. split.
  - eapply sublist_NoDup; [exact H1|by apply fmap_sublist].
  - intros s Hs. assert (s ∈ searchable_segments h) by (by eapply elem_of_sublist).
    specialize (H2 s). naive_solver lia.
Qed.

Lemma ids_wf_unique h s t :
  ids_wf h -> s ∈ searchable_segments h -> t ∈ searchable_segments h -> ptr_eq s t = true -> s = t.
Proof.
  intros [H1 _] [i Hi]%list_elem_of_lookup [j Hj]%list_elem_of_lookup E%N.eqb_eq.
  assert (i = j) as ->; [|congruence].
  eapply NoDup_lookup; [exact H1| |]; rewrite list_lookup_fmap; [rewrite Hi|rewrite Hj]; simpl;
    [done|by f_equal].
Qed.

(** A fresh [Arc] added to the lists. *)
Lemma ids_wf_add h h' l :
  searchable_segments h' ≡ₚ {| seg_id := next_arc h; seg_offsets := l |} :: searchable_segments h ->
  next_arc h' = next_arc h + 1 -> ids_wf h -> ids_wf h'.
Proof.
  intros Hp Hn [H1 H2]. split.
  - rewrite Hp. simpl. constructor; [|done]. intros (s & E & Hs)%list_elem_of_fmap.
    specialize (H2 s Hs). lia.
  - intros s. rewrite Hp, elem_of_cons. intros [->|Hs]; simpl; [lia|]. specialize (H2 s Hs). lia.
Qed.

Lemma elem_of_retain keep l s : s ∈ retain keep l <-> s ∈ l /\ keep s = true.
Proof. unfold retain. rewrite list_elem_of_filter, Is_true_true. naive_solver. Qed.

Lemma retain_sublist keep l : retain keep l `sublist_of` l.
Proof. apply sublist_filter. Qed.

Lemma publish_ok h : ids_wf h -> holder_ok (publish_snapshot h).
Proof. intros Hw. split; [|done]. revert Hw. apply ids_wf_perm; [done|simpl; lia]. Qed.

Lemma publish_covers h o : covers (publish_snapshot h) o <-> covers h o.
Proof. done. Qed.

(** ** Each operation keeps every offset reachable *)

Lemma set_hot_ok x h : holder_ok h -> holder_ok (set_hot x h).
Proof. by intros [? ?]. Qed.

Lemma hot_insert_mono x o e o' :
  o' ∈ offsets x -> o' ∈ offsets (hot_insert x o e).1.
Proof.
  unfold hot_insert. destruct (validate_dimension e (h_dim x)); [|done].
  case_decide; simpl; [done|]. set_solver.
Qed.

Lemma insert_ok h o e : holder_ok h -> holder_ok (insert h o e).1.
Proof.
  intros Hh. unfold insert. destruct (hot_insert (hot h) o e) as [x [|]]; by apply set_hot_ok.
Qed.

Lemma insert_covers h o e o' : covers h o' -> covers (insert h o e).1 o'.
Proof.
  pose proof (hot_insert_mono (hot h) o e o') as Hm. unfold insert.
  destruct (hot_insert (hot h) o e) as [x [|]]; simpl in *;
    (apply covers_subset; [done|]); simpl; eauto.
Qed.

Lemma seal_hot_ok h : holder_ok h -> holder_ok (seal_hot h).
Proof.
  intros [Hi Hs]. unfold seal_hot. destruct (_ <? _); [by split|]. simpl. apply publish_ok.
  apply (ids_wf_add h _ (offsets (hot h))); [|done|done].
  unfold searchable_segments, seal_push. simpl. rewrite <- app_assoc. simpl.
  by rewrite <- Permutation_middle.
Qed.

Lemma seal_hot_covers h o : covers h o -> covers (seal_hot h) o.
Proof.
  unfold seal_hot. destruct (_ <? _); [done|]. simpl. intros Hc. apply publish_covers.
  right. destruct Hc as [Ho|(s & Hs & Ho)].
  - exists {| seg_id := next_arc h; seg_offsets := offsets (hot h) |}.
    unfold searchable_segments. simpl. split; [set_solver|done].
  - exists s. unfold searchable_segments in *. simpl. split; [set_solver|done].
Qed.

Lemma read_vectors_offsets l view : (read_vectors_for_offsets l view).*1 = filter (fun o => is_Some (view o)) l.
Proof.
  unfold read_vectors_for_offsets. induction l as [|o l IH]; simpl; [done|].
  destruct (view o) as [v|] eqn:E; simpl.
  - rewrite filter_cons_True by (by rewrite E). by f_equal.
  - rewrite filter_cons_False by (rewrite E; by apply is_Some_None). done.
Qed.

Lemma elem_of_dedup_adjacent l o : o ∈ dedup_adjacent l <-> o ∈ l.
Proof.
  induction l as [|a [|b l] IH]; [done|done|].
  cbn [dedup_adjacent]. destruct (N.eqb_spec a b) as [->|]; [rewrite IH; set_solver|].
  rewrite elem_of_cons, IH. set_solver.
Qed.

Lemma is_target_self l s : s ∈ l -> is_target l s = true.
Proof.
  intros Hs. unfold is_target. apply existsb_exists. exists s. rewrite <- list_elem_of_In.
  split; [done|]. apply N.eqb_refl.
Qed.

Lemma retain_none targets : retain (fun s => negb (is_target targets s)) targets = [].
Proof.
  unfold retain. apply filter_none. intros s Hs. rewrite is_target_self by done. by intros [].
Qed.

Lemma compact_warm_ok h view b : holder_ok h -> holder_ok (compact_warm h view b).1.
Proof.
  intros Hh. unfold compact_warm. destruct (_ || _); [done|].
  set (rec := (read_vectors_for_offsets _ view).*1). simpl. rewrite retain_none.
  assert (Hdrop : ids_wf h -> forall sid arc, next_arc h <= arc ->
    ids_wf (set_ids sid arc (set_lists (sealing_plain h) (building_plain h) (sealed_hot h) [] (cold h) h))).
  { intros Hi sid arc Ha. eapply ids_wf_sublist; [| |exact Hi]; [|done].
    unfold searchable_segments. simpl. repeat (apply sublist_app; [done|]). by apply sublist_inserts_l. }
  destruct Hh as [Hi Hs]. destruct rec as [|r rec'].
  - apply publish_ok. rewrite app_nil_r. apply (Hdrop Hi (next_segment_id h) (next_arc h)). lia.
  - destruct b; simpl; [|by split].
    apply publish_ok.
    eapply (ids_wf_add _ _ (r :: rec')); [| |apply (Hdrop Hi (next_segment_id h) (next_arc h)); lia]; [|done].
    unfold searchable_segments. simpl. rewrite !app_assoc. by rewrite Permutation_app_comm.
Qed.

Lemma compact_warm_covers h view b o :
  is_Some (view o) -> covers h o -> covers (compact_warm h view b).1 o.
Proof.
  intros Hv Hc. unfold compact_warm. destruct (_ || _); [done|].
  set (l := dedup_adjacent _). set (rec := (read_vectors_for_offsets l view).*1).
  assert (Hl : forall s, s ∈ warm h -> o ∈ seg_offsets s -> o ∈ rec).
  { intros s Hs Ho. unfold rec. rewrite read_vectors_offsets, list_elem_of_filter.
    split; [done|]. unfold l. rewrite elem_of_dedup_adjacent, merge_sort_Permutation.
    apply list_elem_of_In, in_concat. exists (seg_offsets s).
    rewrite in_map_iff, <- list_elem_of_In. split; [exists s; by rewrite <- list_elem_of_In|done]. }
  destruct rec as [|r rec'] eqn:Er.
  - simpl. apply publish_covers. revert Hc. apply covers_subset; [done|].
    intros s Hs Ho. exists s. split; [|done]. unfold searchable_segments in *. simpl.
    rewrite retain_none. rewrite !elem_of_app in *.
    destruct Hs as [?|[?|[?|[Hw|?]]]]; eauto 6. specialize (Hl s Hw Ho). set_solver.
  - destruct b; simpl; [|done]. apply publish_covers. revert Hc. apply covers_subset; [done|].
    intros s Hs Ho. unfold searchable_segments in *. simpl. rewrite retain_none.
    setoid_rewrite elem_of_app. setoid_rewrite elem_of_app. setoid_rewrite elem_of_app.
    setoid_rewrite elem_of_app. setoid_rewrite elem_of_app. rewrite !elem_of_app in Hs.
    destruct Hs as [?|[?|[?|[Hw|?]]]]; [by eauto 9..| |by eauto 9].
    eexists. split; [do 4 right; right; by apply list_elem_of_singleton|]. simpl. eauto.
Qed.

(** [h'] is a good successor of [h]: it is well formed, and, if [R], the offset
    [o] is still reachable. *)
Definition keeps (R : Prop) (o : N) (h h' : SegmentHolder) : Prop :=
  holder_ok h' /\ (R -> covers h o -> covers h' o).

Lemma keeps_refl R o h : holder_ok h -> keeps R o h h.
Proof. by split. Qed.
Lemma keeps_trans R o h1 h2 h3 : keeps R o h1 h2 -> keeps R o h2 h3 -> keeps R o h1 h3.
Proof. intros [H1 C1] [H2 C2]. split; auto. Qed.

Lemma set_hot_keeps R o o' e h x r :
  hot_insert (hot h) o' e = (x, r) -> holder_ok h -> keeps R o h (set_hot x h).
Proof.
  intros Hx Hh. split; [by apply set_hot_ok|]. intros _. apply covers_subset; simpl; [|eauto].
  pose proof (hot_insert_mono (hot h) o' e o) as Hm. by rewrite Hx in Hm.
Qed.

Lemma seal_hot_keeps R o h : holder_ok h -> keeps R o h (seal_hot h).
Proof. intros Hh. split; [by apply seal_hot_ok|]. intros _. apply seal_hot_covers. Qed.

Lemma compact_warm_keeps o h view b :
  holder_ok h -> keeps (is_Some (view o)) o h (compact_warm h view b).1.
Proof. intros Hh. split; [by apply compact_warm_ok|]. intros Hv. by apply compact_warm_covers. Qed.

Lemma promote_loop_keeps R p h meta view l n o :
  holder_ok h -> keeps R o h (promote_loop p h meta view l n).1.1.
Proof.
  revert h meta n. induction l as [|o' l IH]; intros h meta n Hh; simpl; [by apply keeps_refl|].
  destruct (MetadataStore.get meta o') as [m|]; [|by apply IH].
  destruct (negb (p m)); [by apply IH|]. destruct (view o') as [v|]; [|by apply IH].
  destruct (hot_insert _ _ _) as [x [u|e]] eqn:Hx;
    pose proof (set_hot_keeps R o _ _ _ _ _ Hx Hh) as Hk; [|done].
  pose proof (proj1 Hk) as Hh'.
  destruct (_ <=? _); (eapply keeps_trans; [exact Hk|]); [|by apply IH].
  eapply keeps_trans; [by apply seal_hot_keeps|]. by apply IH, seal_hot_ok.
Qed.

Lemma promote_hot_keeps R p h meta view o :
  holder_ok h -> keeps R o h (promote_hot p h meta view).1.1.
Proof.
  intros Hh. unfold promote_hot.
  pose proof (promote_loop_keeps R p h meta view (concat (map seg_offsets (searchable_segments h))) 0 o Hh)
    as Hk.
  destruct (promote_loop _ _ _ _ _ _) as [[h' m'] [n|e]]; simpl in *; [|done].
  destruct (0 <? n); [|done]. destruct Hk as [H1 H2]. split; [apply publish_ok, H1|done].
Qed.

Lemma trigger_consolidation_keeps p h meta view b o :
  holder_ok h -> keeps (is_Some (view o)) o h (trigger_consolidation p h meta view b).1.1.
Proof.
  intros Hh. unfold trigger_consolidation. cbv zeta.
  set (h1 := if hot_capacity (config h) <=? hot_point_count (hot h) then seal_hot h else h).
  assert (H1 : keeps (is_Some (view o)) o h h1).
  { unfold h1. destruct (_ <=? _); [by apply seal_hot_keeps|by apply keeps_refl]. }
  clearbody h1.
  assert (H2 : keeps (is_Some (view o)) o h1 (if warm_capacity (config h1) <? sum_counts (warm h1)
                          then compact_warm h1 view b else (h1, Ok tt)).1).
  { destruct H1 as [H1 _]. destruct (_ <? _); [by apply compact_warm_keeps|by apply keeps_refl]. }
  destruct (if _ <? _ then compact_warm h1 view b else (h1, Ok tt)) as [h2 [u|e]]; simpl in *;
    [|by eapply keeps_trans].
  pose proof (promote_hot_keeps (is_Some (view o)) p h2 meta view o (proj1 H2)) as H3.
  destruct (promote_hot p h2 meta view) as [[h3 m3] [n|e]]; simpl in *;
    (eapply keeps_trans; [exact H1|by eapply keeps_trans]).
Qed.
