(* ===== verification/Optimizer.v ===== *)
(** * The background optimizer, [crates/turbomemory_storage/src/optimizer.rs]

    Turning sealed plain segments into persisted ones, merging sealed segments,
    and the budget that gates the builds. Each unit of work is a function on the
    holder; its loops run until there is no work left. Threads, channels and the
    deletion of directories are not modelled. *)

From S2P Require Import Prelude Core Metrics Record MetadataStore Segments SegmentHolder.

(** ** The build budget *)

Record ResourceBudget := {
  inflight : N;
  max_concurrent : N;
  max_memory_bytes : option N;
}.

Definition budget_new (max_concurrent_builds : N) (max_build_memory_bytes : option N)
    : ResourceBudget :=
  {| inflight := 0; max_concurrent := N.max max_concurrent_builds 1;
     max_memory_bytes := max_build_memory_bytes |}.

Definition set_inflight (n : N) (b : ResourceBudget) : ResourceBudget :=
  {| inflight := n; max_concurrent := max_concurrent b; max_memory_bytes := max_memory_bytes b |}.

Definition build_estimate (n dim max_edges : N) : N :=
  let vector_bytes := saturating_mul (saturating_mul n dim) 4 in
  let graph_bytes := saturating_mul (saturating_mul n max_edges) 8 in
  saturating_mul (saturating_add vector_bytes graph_bytes) 13 / 10.

(** [Some b] when a guard was handed out; [cas]: the compare-exchange succeeds. *)
Definition try_acquire (b : ResourceBudget) (n dim max_edges : N) (cas : bool)
    : option ResourceBudget :=
  if max_concurrent b <=? inflight b then None
  else if match max_memory_bytes b with
          | Some max_mem => max_mem <? build_estimate n dim max_edges
          | None => false
          end then None
  else if cas then Some (set_inflight (inflight b + 1) b) else None.

(** [Drop for BuildGuard]. *)
Definition release (b : ResourceBudget) : ResourceBudget := set_inflight (inflight b - 1) b.

(** ** Sealing *)

Definition threshold_met (c : Config) (n : N) : bool :=
  (hnsw_threshold c <=? n)
  || ((0 <? full_scan_threshold_kb c)
      && (full_scan_threshold_kb c <=? saturating_mul (saturating_mul n (dimension c)) 4 / 1024)).

Inductive BuiltSegment := Sealed (l : list N) | WarmBuilt (l : list N).

Definition build_segment (l : list N) (use_hnsw : bool) (view : View) (build_ok : bool)
    : Result StorageError BuiltSegment :=
  match (read_vectors_for_offsets l view).*1 with
  | [] => Err (InvalidArgument "no vectors found for segment build")
  | built => if build_ok then Ok (if use_hnsw then Sealed built else WarmBuilt built) else Err Io
  end.

(** What the disk does during one build: the segment, the compaction after it. *)
Record BuildIo := { bi_cas : bool; bi_build : bool; bi_compact : bool }.

(** The guard of [try_acquire(..).is_some()] is a temporary: it is dropped at the
    end of that expression, before the build. *)
Definition acquire_is_some (b : ResourceBudget) (n dim max_edges : N) (cas : bool)
    : bool * ResourceBudget :=
  match try_acquire b n dim max_edges cas with
  | Some b' => (true, release b')
  | None => (false, b)
  end.

(** The rest of the job: which kind of segment, and its directory; the holder and
    the budget as they are while the segment is being built. *)
Definition plan_seal (h : SegmentHolder) (b : ResourceBudget) (plain : Seg) (cas : bool)
    : bool * SegmentHolder * ResourceBudget :=
  let l := seg_offsets plain in
  let '(use_hnsw, b) :=
    if threshold_met (config h) (len l)
    then acquire_is_some b (len l) (dimension (config h)) (max_edges (config h)) cas
    else (false, b) in
  (use_hnsw, (segment_path h).2, b).

Definition install_built (h : SegmentHolder) (plain : Seg)
    (built : Result StorageError BuiltSegment) (view : View) (compact_ok : bool)
    : SegmentHolder * Result StorageError bool :=
  let h := remove_sealing_plain plain h in
  match built with
  | Ok (Sealed l) => (add_sealed_hot l h, Ok true)
  | Ok (WarmBuilt l) => ((compact_warm (add_warm l h) view compact_ok).1, Ok true)
  | Err e => (push_sealing_plain plain h, Err e)
  end.

Definition process_one_seal (h : SegmentHolder) (b : ResourceBudget) (view : View) (io : BuildIo)
    : SegmentHolder * ResourceBudget * Result StorageError bool :=
  match pop_sealing_plain h with
  | None => (h, b, Ok false)
  | Some (plain, h) =>
      match seg_offsets plain with
      | [] => (publish_snapshot (remove_sealing_plain plain h), b, Ok true)
      | _ =>
          let '(use_hnsw, h, b) := plan_seal h b plain (bi_cas io) in
          let '(h, r) := install_built h plain
            (build_segment (seg_offsets plain) use_hnsw view (bi_build io)) view (bi_compact io) in
          (h, b, r)
      end
  end.

(** ** Merging *)

Fixpoint union_offsets (seen : gset N) (l : list N) : list N :=
  match l with
  | [] => []
  | o :: l => if decide (o ∈ seen) then union_offsets seen l
              else o :: union_offsets ({[o]} ∪ seen) l
  end.

Definition process_one_merge (h : SegmentHolder) (b : ResourceBudget) (view : View) (io : BuildIo)
    : SegmentHolder * ResourceBudget * Result StorageError bool :=
  let c := config h in
  match sealed_hot_merge_candidates h (merge_threshold_segments c) (merge_max_records c) with
  | None => (h, b, Ok false)
  | Some candidates =>
      let l := union_offsets ∅ (concat (map seg_offsets candidates)) in
      match l with
      | [] => (publish_snapshot (remove_sealed_hot_segments candidates h).2, b, Ok true)
      | _ =>
          let built := (read_vectors_for_offsets l view).*1 in
          match built with
          | [] => (h, b, Ok false)
          | _ =>
              match try_acquire b (len built) (dimension c) (max_edges c) (bi_cas io) with
              | None => (h, b, Ok false)
              | Some b1 =>
                  let '(_, h) := segment_path h in
                  if bi_build io
                  then (add_sealed_hot built (remove_sealed_hot_segments candidates h).2,
                        release b1, Ok true)
                  else (h, release b1, Err Io)
              end
          end
      end
  end.

(** ** The loops *)

Section loops.
Context (step : SegmentHolder -> ResourceBudget -> BuildIo ->
                SegmentHolder * ResourceBudget * Result StorageError bool).

(** [while let Ok(true) = step()]: one entry of [ios] per iteration; [None] when
    they run out before the loop ends. *)
Fixpoint run_while (h : SegmentHolder) (b : ResourceBudget) (ios : list BuildIo)
    : option (SegmentHolder * ResourceBudget) :=
  match ios with
  | [] => None
  | io :: ios =>
      match step h b io with
      | (h, b, Ok true) => run_while h b ios
      | (h, b, _) => Some (h, b)
      end
  end.
End loops.

Definition process_pending_seals (h : SegmentHolder) (b : ResourceBudget) (view : View)
    (ios : list BuildIo) : option (SegmentHolder * ResourceBudget) :=
  run_while (fun h b io => process_one_seal h b view io) h b ios.
Definition process_pending_merges (h : SegmentHolder) (b : ResourceBudget) (view : View)
    (ios : list BuildIo) : option (SegmentHolder * ResourceBudget) :=
  run_while (fun h b io => process_one_merge h b view io) h b ios.

(** [drain]: all seals, then all merges. *)
Definition drain (h : SegmentHolder) (b : ResourceBudget) (view : View) (ios1 ios2 : list BuildIo)
    : option (SegmentHolder * ResourceBudget) :=
  '(h, b) ← process_pending_seals h b view ios1;
  process_pending_merges h b view ios2.

(** ** Reachability through the optimizer *)

Lemma pop_perm h plain h1 :
  pop_sealing_plain h = Some (plain, h1) ->
  searchable_segments h1 ≡ₚ searchable_segments h /\ plain ∈ building_plain h1 /\
  hot h1 = hot h /\ next_arc h1 = next_arc h.
Proof.
  unfold pop_sealing_plain. destruct (last (sealing_plain h)) as [p|] eqn:Hl; [|done].
  intros [= <- <-]. simpl. split_and!; [|set_solver|done|done].
  unfold searchable_segments. simpl.
  assert (Hs : sealing_plain h = take (length (sealing_plain h) - 1) (sealing_plain h) ++ [p]).
  { apply last_Some in Hl as [l ->]. rewrite length_app. simpl.
    replace (length l + 1 - 1)%nat with (length l) by lia. by rewrite take_app_length. }
  set (t := take _ _) in *. clearbody t. rewrite Hs. solve_Permutation.
Qed.

Lemma remove_plain_sublist plain h :
  searchable_segments (remove_sealing_plain plain h) `sublist_of` searchable_segments h.
Proof.
  unfold searchable_segments. simpl.
  apply sublist_app; [apply retain_sublist|]. apply sublist_app; [apply retain_sublist|done].
Qed.

Lemma remove_plain_covers plain h o :
  ids_wf h -> plain ∈ searchable_segments h -> covers h o ->
  o ∈ seg_offsets plain \/ covers (remove_sealing_plain plain h) o.
Proof.
  intros Hi Hp [Ho|(s & Hs & Ho)]; [right; by left|].
  destruct (ptr_eq s plain) eqn:E.
  - left. by rewrite <- (ids_wf_unique h s plain Hi Hs Hp E).
  - right. right. exists s. split; [|done]. unfold searchable_segments in *. simpl.
    rewrite !elem_of_app, !elem_of_retain, E in *. naive_solver.
Qed.

(** Removing a segment by identity takes out exactly that one. *)
Lemma retain_one (l : list Seg) p :
  NoDup (seg_id <$> l) -> p ∈ l -> retain (fun s => negb (ptr_eq s p)) l ++ [p] ≡ₚ l.
Proof.
  induction l as [|s l IH]; simpl; intros Hnd Hp; [set_solver|].
  apply NoDup_cons in Hnd as [Hs Hnd]. unfold retain in *.
  destruct (ptr_eq s p) eqn:E.
  - rewrite filter_cons_False by (rewrite E; by intros []).
    apply elem_of_cons in Hp as [->|Hp].
    + rewrite filter_all; [by rewrite Permutation_app_comm|].
      intros x Hx. destruct (ptr_eq x s) eqn:Ex; [|done]. apply N.eqb_eq in Ex.
      exfalso. apply Hs. rewrite <- Ex. apply list_elem_of_fmap. eauto.
    + apply N.eqb_eq in E. exfalso. apply Hs. rewrite E. apply list_elem_of_fmap. eauto.
  - rewrite filter_cons_True by (by rewrite E). simpl. constructor. apply IH; [done|].
    apply elem_of_cons in Hp as [->|Hp]; [|done]. unfold ptr_eq in E. by rewrite N.eqb_refl in E.
Qed.

Lemma retain_absent (l : list Seg) p :
  seg_id p ∉ seg_id <$> l -> retain (fun s => negb (ptr_eq s p)) l = l.
Proof.
  intros Hp. unfold retain. apply filter_all. intros x Hx.
  destruct (ptr_eq x p) eqn:E; [|done]. apply N.eqb_eq in E. exfalso. apply Hp. rewrite <- E.
  apply list_elem_of_fmap. eauto.
Qed.

(** Putting a failed build back restores the segment. *)
Lemma push_back_perm plain h :
  ids_wf h -> plain ∈ building_plain h ->
  searchable_segments (push_sealing_plain plain (remove_sealing_plain plain h))
  ≡ₚ searchable_segments h.
Proof.
  intros [Hnd _] Hp. unfold searchable_segments in *. simpl.
  rewrite fmap_app, fmap_app in Hnd. apply NoDup_app in Hnd as (_ & Hd & Hnd).
  apply NoDup_app in Hnd as (Hnd & _ & _).
  rewrite (retain_absent (sealing_plain h)).
  2:{ intros Hin. apply (Hd _ Hin), elem_of_app. left. apply list_elem_of_fmap. eauto. }
  assert (Hidem : forall l, retain (fun p => negb (ptr_eq p plain))
     (retain (fun p => negb (ptr_eq p plain)) l) = retain (fun p => negb (ptr_eq p plain)) l).
  { intros l. unfold retain at 1. apply filter_all. intros x Hx%elem_of_retain. apply Is_true_true, Hx. }
  rewrite Hidem. rewrite <- (retain_one (building_plain h) plain Hnd Hp) at 2. solve_Permutation.
Qed.

(** Adding a segment. *)
Definition adds (h h' : SegmentHolder) (l : list N) : Prop :=
  searchable_segments h' ≡ₚ {| seg_id := next_arc h; seg_offsets := l |} :: searchable_segments h /\
  hot h' = hot h /\ next_arc h' = next_arc h + 1 /\ snapshot h' = searchable_segments h'.

Lemma adds_ok h h' l : adds h h' l -> ids_wf h -> holder_ok h'.
Proof. intros (Hp & _ & Hn & Hs) Hi. split; [by eapply ids_wf_add|done]. Qed.

Lemma adds_covers h h' l o : adds h h' l -> o ∈ l \/ covers h o -> covers h' o.
Proof.
  intros (Hp & Hh & _) [Ho|[Ho|(s & Hs & Ho)]].
  - right. eexists. rewrite Hp. split; [by apply elem_of_cons; left|done].
  - left. by rewrite Hh.
  - right. exists s. rewrite Hp. split; [by apply elem_of_cons; right|done].
Qed.

Lemma add_sealed_hot_adds l h : adds h (add_sealed_hot l h) l.
Proof.
  unfold adds. split_and!; [|done..]. unfold searchable_segments. simpl.
  rewrite <- !app_assoc. simpl. by rewrite <- !Permutation_middle.
Qed.
Lemma add_warm_adds l h : adds h (add_warm l h) l.
Proof.
  unfold adds. split_and!; [|done..]. unfold searchable_segments. simpl.
  rewrite <- !app_assoc. simpl. by rewrite <- !Permutation_middle.
Qed.

Lemma acquire_release b n dim me cas b1 : try_acquire b n dim me cas = Some b1 -> release b1 = b.
Proof.
  unfold try_acquire. intros Ha. destruct (max_concurrent b <=? inflight b); [done|].
  destruct (match max_memory_bytes b with Some _ => _ | None => _ end); [done|].
  destruct cas; [|done]. injection Ha as <-. destruct b. unfold release, set_inflight.
  simpl. f_equal. lia.
Qed.

Lemma plan_seal_holder h b plain cas u h' b' :
  plan_seal h b plain cas = (u, h', b') -> h' = (segment_path h).2 /\ b' = b.
Proof.
  unfold plan_seal. destruct (threshold_met _ _); [|by intros [= <- <- <-]].
  unfold acquire_is_some. destruct (try_acquire _ _ _ _ _) as [b1|] eqn:Ha; intros [= <- <- <-];
    (split; [done|]); [|done].
  by apply acquire_release in Ha.
Qed.

Lemma build_segment_offsets l u view ok b :
  build_segment l u view ok = Ok b ->
  match b with Sealed l' | WarmBuilt l' => l' = filter (fun o => is_Some (view o)) l end.
Proof.
  unfold build_segment. rewrite read_vectors_offsets.
  destruct (filter _ l) as [|x l'] eqn:E; [done|]. destruct ok; [|done].
  destruct u; intros [= <-]; done.
Qed.

Lemma remove_plain_ids plain h : ids_wf h -> ids_wf (remove_sealing_plain plain h).
Proof. apply (ids_wf_sublist h); [apply remove_plain_sublist|simpl; lia]. Qed.

Lemma install_built_keeps h plain u view io o :
  ids_wf h -> plain ∈ building_plain h ->
  keeps (is_Some (view o)) o h
    (install_built h plain (build_segment (seg_offsets plain) u view (bi_build io)) view (bi_compact io)).1.
Proof.
  intros Hi Hin. unfold install_built. set (h0 := remove_sealing_plain plain h).
  set (l := filter (fun o => is_Some (view o)) (seg_offsets plain)).
  assert (Hps : plain ∈ searchable_segments h) by (unfold searchable_segments; set_solver).
  assert (Hr : is_Some (view o) -> covers h o -> o ∈ l \/ covers h0 o).
  { intros Hv Hc. destruct (remove_plain_covers plain h o Hi Hps Hc); [left; by apply list_elem_of_filter|by right]. }
  assert (Hir : ids_wf h0) by by apply remove_plain_ids.
  destruct (build_segment _ _ _ _) as [[l'|l']|e] eqn:Hb; simpl;
    [apply build_segment_offsets in Hb as ->..|].
  - pose proof (add_sealed_hot_adds l h0) as Ha.
    split; [by eapply adds_ok|]. intros Hv Hc. eapply adds_covers; [exact Ha|auto].
  - pose proof (add_warm_adds l h0) as Ha.
    split; [by apply compact_warm_ok; eapply adds_ok|]. intros Hv Hc.
    apply compact_warm_covers; [done|]. eapply adds_covers; [exact Ha|auto].
  - split.
    + apply publish_ok, (ids_wf_perm h); [by apply push_back_perm|simpl; lia|done].
    + intros _. apply covers_subset; [done|]. intros s Hs Ho. exists s.
      split; [|done]. by rewrite <- (push_back_perm plain h Hi Hin) in Hs.
Qed.

Lemma process_one_seal_keeps h b view io o :
  holder_ok h -> keeps (is_Some (view o)) o h (process_one_seal h b view io).1.1.
Proof.
  intros Hh. unfold process_one_seal.
  destruct (pop_sealing_plain h) as [[plain h1]|] eqn:Hpop; [|by apply keeps_refl].
  destruct (pop_perm h plain h1 Hpop) as (Hp & Hin & Hhot & Harc).
  assert (Hi1 : ids_wf h1) by (apply (ids_wf_perm h h1); [exact Hp|lia|apply Hh]).
  assert (Hc1 : covers h o -> covers h1 o).
  { apply covers_subset; [by rewrite Hhot|]. intros s Hs Ho. exists s. by rewrite Hp. }
  destruct (seg_offsets plain) as [|x l] eqn:El.
  { split; simpl; [by apply publish_ok, remove_plain_ids|]. intros _ Hc.
    apply publish_covers. destruct (remove_plain_covers plain h1 o Hi1) as [Ho|?]; auto.
    - unfold searchable_segments. set_solver.
    - rewrite El in Ho. set_solver. }
  rewrite <- El. destruct (plan_seal h1 b plain (bi_cas io)) as [[u h2] b2] eqn:Hplan.
  apply plan_seal_holder in Hplan as [-> ->].
  destruct (install_built_keeps (segment_path h1).2 plain u view io o Hi1 Hin) as [H1 H2].
  destruct (install_built _ _ _ _ _) as [h3 r]. split; [done|]. intros Hv Hc. by apply H2, Hc1.
Qed.

(** ** Merging *)

Lemma candidates_loop_prefix cap n l : candidates_loop cap n l `prefix_of` l.
Proof.
  revert n. induction l as [|s l IH]; intros n; simpl; [done|].
  destruct (_ && _); [apply prefix_nil|]. by apply prefix_cons.
Qed.

Lemma candidates_inv h t m c :
  sealed_hot_merge_candidates h t m = Some c ->
  t <= len c /\ t <= len (sealed_hot h) /\ exists rest, c ++ rest ≡ₚ sealed_hot h.
Proof.
  unfold sealed_hot_merge_candidates. destruct (N.ltb_spec (len (sealed_hot h)) t); [done|].
  set (l := candidates_loop _ _ _). destruct (N.leb_spec t (len l)) as [Ht|]; [|done]. intros [= <-].
  split_and!; [done|done|].
  destruct (candidates_loop_prefix (N.max (saturating_mul m 2) m) 0 (sort_by count_le (sealed_hot h)))
    as [rest Hr].
  exists rest. fold l in Hr. rewrite <- Hr. apply sort_by_perm.
Qed.

Lemma elem_of_union_offsets seen l o : o ∈ union_offsets seen l <-> o ∈ l /\ o ∉ seen.
Proof.
  revert seen. induction l as [|a l IH]; intros seen; simpl; [set_solver|].
  case_decide; rewrite ?elem_of_cons, IH, ?elem_of_cons, ?elem_of_union, ?elem_of_singleton;
    destruct (decide (o = a)) as [->|]; naive_solver.
Qed.

Lemma elem_of_offsets_of (l : list Seg) o :
  o ∈ concat (map seg_offsets l) <-> exists s, s ∈ l /\ o ∈ seg_offsets s.
Proof.
  rewrite list_elem_of_In, in_concat. split.
  - intros (x & (s & <- & Hs)%in_map_iff & Ho). exists s. by rewrite !list_elem_of_In.
  - intros (s & Hs & Ho). exists (seg_offsets s). rewrite in_map_iff, <- list_elem_of_In.
    split; [exists s; by rewrite <- list_elem_of_In|done].
Qed.

Lemma remove_sealed_sublist c h :
  searchable_segments (remove_sealed_hot_segments c h).2 `sublist_of` searchable_segments h.
Proof.
  unfold searchable_segments. simpl. do 2 (apply sublist_app; [done|]).
  apply sublist_app; [apply retain_sublist|done].
Qed.

Lemma remove_sealed_covers c h o :
  ids_wf h -> (forall s, s ∈ c -> s ∈ sealed_hot h) -> covers h o ->
  o ∈ concat (map seg_offsets c) \/ covers (remove_sealed_hot_segments c h).2 o.
Proof.
  intros Hi Hc [Ho|(s & Hs & Ho)]; [right; by left|].
  destruct (is_target c s) eqn:E.
  - left. apply existsb_exists in E as (t & Ht & E). apply list_elem_of_In in Ht.
    rewrite elem_of_offsets_of. exists t. split; [done|].
    rewrite (ids_wf_unique h t s Hi); [done| |done|done].
    specialize (Hc t Ht). unfold searchable_segments. set_solver.
  - right. right. exists s. split; [|done]. unfold searchable_segments in *. simpl.
    rewrite !elem_of_app, elem_of_retain, E in *. naive_solver.
Qed.

Lemma process_one_merge_keeps h b view io o :
  holder_ok h -> keeps (is_Some (view o)) o h (process_one_merge h b view io).1.1.
Proof.
  intros Hh. unfold process_one_merge.
  destruct (sealed_hot_merge_candidates h _ _) as [c|] eqn:Hcand; [|by apply keeps_refl].
  destruct (candidates_inv _ _ _ _ Hcand) as (_ & _ & rest & Hp).
  assert (Hsub : forall s, s ∈ c -> s ∈ sealed_hot h) by (intros s Hs; rewrite <- Hp; set_solver).
  set (l := union_offsets ∅ (concat (map seg_offsets c))).
  assert (Hr : covers h o -> o ∈ l \/ covers (remove_sealed_hot_segments c h).2 o).
  { intros Hc. destruct (remove_sealed_covers c h o (ok_ids h Hh) Hsub Hc); [left|by right].
    apply elem_of_union_offsets. set_solver. }
  assert (Hir : ids_wf (remove_sealed_hot_segments c h).2).
  { apply (ids_wf_sublist h); [apply remove_sealed_sublist|simpl; lia|apply Hh]. }
  destruct l as [|x l'] eqn:El.
  { split; [by apply publish_ok|]. intros _ Hc. destruct (Hr Hc); [set_solver|done]. }
  rewrite <- El in *. rewrite read_vectors_offsets.
  destruct (filter _ l) as [|y built] eqn:Eb; [by apply keeps_refl|]. rewrite <- Eb.
  destruct (try_acquire _ _ _ _ _) as [b1|]; [|by apply keeps_refl]. cbn [segment_path].
  destruct (bi_build io); simpl; [|by split; [destruct Hh|]].
  pose proof (add_sealed_hot_adds (filter (fun o => is_Some (view o)) l)
    (remove_sealed_hot_segments c (segment_path h).2).2) as Ha.
  split; [by eapply adds_ok; [exact Ha|]|]. intros Hv Hc. eapply adds_covers; [exact Ha|].
  destruct (Hr Hc) as [Ho|?]; [left; by apply list_elem_of_filter|by right].
Qed.

(** ** Sequences of operations *)

Inductive HOp :=
  | HInsert (o : N) (embedding : list f32)
  | HSeal
  | HBuild (view : View) (io : BuildIo)
  | HMerge (view : View) (io : BuildIo)
  | HCompact (view : View) (build_ok : bool)
  | HConsolidate (promotable : MetaRecord -> bool) (meta : MetadataStore) (view : View) (build_ok : bool).

Definition hstep (hb : SegmentHolder * ResourceBudget) (op : HOp) : SegmentHolder * ResourceBudget :=
  let '(h, b) := hb in
  match op with
  | HInsert o e => ((insert h o e).1, b)
  | HSeal => (seal_hot h, b)
  | HBuild view io => (process_one_seal h b view io).1
  | HMerge view io => (process_one_merge h b view io).1
  | HCompact view ok => ((compact_warm h view ok).1, b)
  | HConsolidate p meta view ok => ((trigger_consolidation p h meta view ok).1.1, b)
  end.
Definition hrun (hb : SegmentHolder * ResourceBudget) (ops : list HOp) : SegmentHolder * ResourceBudget :=
  foldl hstep hb ops.

(** The vector of [o] can be read by the operation. *)
Definition reads (o : N) (op : HOp) : Prop :=
  match op with
  | HInsert _ _ | HSeal => True
  | HBuild view _ | HMerge view _ | HCompact view _ | HConsolidate _ _ view _ => is_Some (view o)
  end.

Lemma hstep_keeps hb op o : holder_ok hb.1 -> keeps (reads o op) o hb.1 (hstep hb op).1.
Proof.
  destruct hb as [h b]. intros Hh. destruct op; simpl in *.
  - split; [by apply insert_ok|]. intros _. apply insert_covers.
  - by apply seal_hot_keeps.
  - by apply process_one_seal_keeps.
  - by apply process_one_merge_keeps.
  - by apply compact_warm_keeps.
  - by apply trigger_consolidation_keeps.
Qed.

Lemma hrun_keeps hb ops o : holder_ok hb.1 -> keeps (Forall (reads o) ops) o hb.1 (hrun hb ops).1.
Proof.
  revert hb. induction ops as [|op ops IH]; intros hb Hh; simpl; [by apply keeps_refl|].
  destruct (hstep_keeps hb op o Hh) as [H1 C1]. destruct (IH (hstep hb op) H1) as [H2 C2].
  split; [done|]. intros [Ho Hr]%Forall_cons Hc. auto.
Qed.

Lemma insert_Ok_covers h o e f : (insert h o e).2 = Ok f -> hot_wf (hot h) -> covers (insert h o e).1 o.
Proof.
  intros Hi [_ Hw]. revert Hi. unfold insert, hot_insert.
  destruct (validate_dimension e (h_dim (hot h))); [|done].
  case_decide as Hs; intros _; left; simpl; [by apply Hw|set_solver].
Qed.

(** The hot segment is well formed after any operation. *)
Lemma set_hot_wf x h : hot_wf x -> hot_wf (hot (set_hot x h)). Proof. done. Qed.

Lemma seal_hot_hot h : hot_wf (hot h) -> hot_wf (hot (seal_hot h)).
Proof. intros Hw. unfold seal_hot. destruct (_ <? _); [done|]. simpl. apply hot_new_wf. Qed.

Lemma compact_warm_hot h view b : hot (compact_warm h view b).1 = hot h.
Proof.
  unfold compact_warm. destruct (_ || _); [done|].
  destruct (read_vectors_for_offsets _ view).*1; [done|]. by destruct b.
Qed.

Lemma promote_loop_hot p h meta view l n :
  hot_wf (hot h) -> hot_wf (hot (promote_loop p h meta view l n).1.1).
Proof.
  revert h meta n. induction l as [|o' l IH]; intros h meta n Hw; simpl; [done|].
  destruct (MetadataStore.get meta o') as [m|]; [|by apply IH].
  destruct (negb (p m)); [by apply IH|]. destruct (view o') as [v|]; [|by apply IH].
  pose proof (hot_insert_wf (hot h) o' (r_embedding (with_tier (with_embedding m v) Hot)) Hw) as Hx.
  destruct (hot_insert _ _ _) as [x [u|e]]; simpl in Hx; [|done].
  destruct (_ <=? _); apply IH; auto using seal_hot_hot.
Qed.

Lemma process_one_merge_hot h b view io : hot (process_one_merge h b view io).1.1 = hot h.
Proof.
  unfold process_one_merge. destruct (sealed_hot_merge_candidates _ _ _) as [c|]; [|done].
  destruct (union_offsets _ _) as [|x l]; [done|].
  destruct (read_vectors_for_offsets _ _).*1; [done|].
  destruct (try_acquire _ _ _ _ _); [|done]. simpl. by destruct (bi_build io).
Qed.

Lemma hstep_hot hb op : hot_wf (hot hb.1) -> hot_wf (hot (hstep hb op).1).
Proof.
  destruct hb as [h b]. intros Hw. destruct op; simpl in *.
  - pose proof (hot_insert_wf (hot h) o embedding Hw) as Hx. unfold insert.
    by destruct (hot_insert _ _ _) as [x [|]].
  - by apply seal_hot_hot.
  - unfold process_one_seal. destruct (pop_sealing_plain h) as [[plain h1]|] eqn:Hp; [|done].
    destruct (pop_perm _ _ _ Hp) as (_ & _ & E & _). rewrite <- E in Hw.
    destruct (seg_offsets plain); [done|]. destruct (plan_seal _ _ _ _) as [[u h2] b2] eqn:Hpl.
    apply plan_seal_holder in Hpl as [-> ->]. unfold install_built.
    destruct (build_segment _ _ _ _) as [[|]|]; simpl; [done|by rewrite compact_warm_hot|done].
  - by rewrite process_one_merge_hot.
  - by rewrite compact_warm_hot.
  - unfold trigger_consolidation. cbv zeta.
    set (h1 := if _ <=? _ then seal_hot h else h).
    assert (H1 : hot_wf (hot h1)) by (unfold h1; destruct (_ <=? _); auto using seal_hot_hot).
    clearbody h1.
    assert (H2 : hot_wf (hot (if warm_capacity (config h1) <? sum_counts (warm h1)
                              then compact_warm h1 view build_ok else (h1, Ok tt)).1))
      by (destruct (_ <? _); [by rewrite compact_warm_hot|done]).
    destruct (if _ <? _ then compact_warm h1 view build_ok else (h1, Ok tt)) as [h2 [u|e]];
      simpl in *; [|done].
    unfold promote_hot. pose proof (promote_loop_hot promotable h2 meta view
      (concat (map seg_offsets (searchable_segments h2))) 0 H2) as H3.
    destruct (promote_loop _ _ _ _ _ _) as [[h3 m3] [n|e]]; simpl in *; [|done].
    by destruct (0 <? n).
Qed.

Lemma hrun_hot hb ops : hot_wf (hot hb.1) -> hot_wf (hot (hrun hb ops).1).
Proof.
  revert hb. induction ops as [|op ops IH]; intros hb Hw; simpl; [done|]. by apply IH, hstep_hot.
Qed.

Lemma new_ok c id : holder_ok (new c id) /\ hot_wf (hot (new c id)).
Proof. split; [|apply hot_new_wf]. apply publish_ok. split; simpl; [constructor|set_solver]. Qed.

(** ** Termination *)

(** Removing the candidates by identity removes exactly them. *)
Lemma retain_targets_len (l c rest : list Seg) :
  NoDup (seg_id <$> l) -> c ++ rest ≡ₚ l ->
  len (retain (fun s => negb (is_target c s)) l) = len rest.
Proof.
  intros Hnd Hp. unfold retain, len. f_equal. rewrite <- Hp in Hnd |- *.
  rewrite filter_app, length_app. rewrite fmap_app in Hnd. apply NoDup_app in Hnd as (_ & Hd & _).
  rewrite (filter_none _ c), (filter_all _ rest); [done| |].
  - intros s Hs. destruct (is_target c s) eqn:E; [exfalso|done].
    apply existsb_exists in E as (t & Ht & E). apply list_elem_of_In in Ht. apply N.eqb_eq in E.
    apply (Hd (seg_id t)); [apply list_elem_of_fmap; eauto|]. rewrite E. apply list_elem_of_fmap. eauto.
  - intros s Hs. rewrite is_target_self by done. by intros [].
Qed.

(** A merge that reports success leaves fewer sealed segments. *)
Lemma merge_decreases h b view io h' b' :
  holder_ok h -> process_one_merge h b view io = (h', b', Ok true) ->
  len (sealed_hot h') < len (sealed_hot h).
Proof.
  intros [[Hnd _] _]. unfold process_one_merge.
  destruct (sealed_hot_merge_candidates h _ _) as [c|] eqn:Hcand; [|done].
  destruct (candidates_inv _ _ _ _ Hcand) as (Ht & _ & rest & Hp).
  assert (Hc2 : 2 <= len c) by (unfold merge_threshold_segments in Ht; lia).
  assert (Hlen : len (sealed_hot h) = len c + len rest) by (rewrite <- len_app; unfold len; by rewrite Hp).
  assert (Hret : len (retain (fun s => negb (is_target c s)) (sealed_hot h)) = len rest).
  { apply retain_targets_len; [|done]. unfold searchable_segments in Hnd.
    rewrite !fmap_app in Hnd. apply NoDup_app in Hnd as (_ & _ & Hnd).
    apply NoDup_app in Hnd as (_ & _ & Hnd). by apply NoDup_app in Hnd as (Hnd & _ & _). }
  destruct (union_offsets _ _) as [|x l]; [intros [= <- <-]; simpl; lia|].
  destruct (read_vectors_for_offsets _ _).*1 as [|y built]; [done|].
  destruct (try_acquire _ _ _ _ _) as [b1|]; [|done]. simpl.
  destruct (bi_build io); [|done]. intros [= <- <-]. simpl.
  rewrite len_app, len_cons, len_nil, Hret. lia.
Qed.

Lemma compact_warm_lists h view b :
  sealing_plain (compact_warm h view b).1 = sealing_plain h /\
  sealed_hot (compact_warm h view b).1 = sealed_hot h.
Proof.
  unfold compact_warm. destruct (_ || _); [done|].
  destruct (read_vectors_for_offsets _ view).*1; [done|]. by destruct b.
Qed.

(** A processed seal shortens the queue and adds at most one sealed segment. *)
Lemma seal_decreases h b view io h' b' :
  process_one_seal h b view io = (h', b', Ok true) ->
  len (sealing_plain h') < len (sealing_plain h) /\
  len (sealed_hot h') <= len (sealed_hot h) + 1.
Proof.
  unfold process_one_seal. destruct (pop_sealing_plain h) as [[plain h1]|] eqn:Hpop; [|done].
  assert (Hlt : forall keep, len (retain keep (sealing_plain h1)) < len (sealing_plain h) /\
                             sealed_hot h1 = sealed_hot h).
  { intros keep. unfold pop_sealing_plain in Hpop.
    destruct (last (sealing_plain h)) as [p|] eqn:Hl; [|done]. injection Hpop as <- <-. simpl.
    split; [|done]. unfold retain, len.
    pose proof (length_filter (fun s => keep s) (take (length (sealing_plain h) - 1) (sealing_plain h))) as Hf.
    rewrite length_take in Hf. destruct (sealing_plain h); [done|]. simpl in *. lia. }
  destruct (seg_offsets plain); [intros [= <- <-]; simpl; by destruct (Hlt (fun p => negb (ptr_eq p plain))) as [? ->]; lia|].
  destruct (plan_seal _ _ _ _) as [[u h2] b2] eqn:Hpl. apply plan_seal_holder in Hpl as [-> ->].
  unfold install_built. destruct (build_segment _ _ _ _) as [[l'|l']|e]; [..|done].
  - intros [= <- <-]. simpl. destruct (Hlt (fun p => negb (ptr_eq p plain))) as [? ->].
    split; [done|]. rewrite len_app, len_cons, len_nil. lia.
  - pose proof (compact_warm_lists (add_warm l' (remove_sealing_plain plain (segment_path h1).2)) view (bi_compact io)) as Hl.
    destruct (compact_warm _ _ _) as [h3 r3]. intros [= <- <-].
    simpl in *. destruct Hl as [-> ->]. destruct (Hlt (fun p => negb (ptr_eq p plain))) as [? ->]. split; [done|lia].
Qed.

(** [while let Ok(true)] over a step that decreases [m] ends within [m] rounds;
    [bound] is a second measure that grows by at most one per round. *)
Lemma run_while_ends (R : N -> Prop) step (m bound : SegmentHolder -> N) h b ios :
  (forall h b io o, holder_ok h -> keeps (R o) o h (step h b io).1.1) ->
  (forall h b io h' b', holder_ok h -> step h b io = (h', b', Ok true) ->
     m h' < m h /\ bound h' <= bound h + 1) ->
  (forall h b io h' b' r, holder_ok h -> step h b io = (h', b', r) -> r <> Ok true -> bound h' <= bound h) ->
  holder_ok h -> m h < len ios ->
  exists h' b', run_while step h b ios = Some (h', b') /\ (forall o, keeps (R o) o h h') /\
    bound h' <= bound h + m h.
Proof.
  intros Hok Hdec Hend. revert h b. induction ios as [|io ios IH]; intros h b Hh Hm.
  { rewrite len_nil in Hm. lia. }
  simpl. rewrite len_cons in Hm. pose proof (fun o => Hok h b io o Hh) as Hk.
  destruct (step h b io) as [[h' b'] r] eqn:Hs. simpl in Hk. pose proof (proj1 (Hk 0)) as Hh'.
  destruct (decide (r = Ok true)) as [->|Hr].
  - destruct (Hdec h b io h' b' Hh Hs) as [H1 H2].
    destruct (IH h' b' Hh') as (h'' & b'' & E & Hk'' & Hb); [lia|].
    exists h'', b''. split_and!; [done|intros o; by eapply keeps_trans|lia].
  - exists h', b'. pose proof (Hend h b io h' b' r Hh Hs Hr).
    split_and!; [by destruct r as [[]|]|done|lia].
Qed.

Lemma seal_end_bound h b view io h' b' r :
  process_one_seal h b view io = (h', b', r) -> r <> Ok true -> sealed_hot h' = sealed_hot h.
Proof.
  unfold process_one_seal. destruct (pop_sealing_plain h) as [[plain h1]|] eqn:Hpop;
    [|by intros [= <- <- <-]].
  assert (Hs : sealed_hot h1 = sealed_hot h).
  { unfold pop_sealing_plain in Hpop. destruct (last _); [|done]. by injection Hpop as <- <-. }
  destruct (seg_offsets plain); [intros [= <- <- <-]; naive_solver|].
  destruct (plan_seal _ _ _ _) as [[u h2] b2] eqn:Hpl. apply plan_seal_holder in Hpl as [-> ->].
  unfold install_built. destruct (build_segment _ _ _ _) as [[l'|l']|e]; intros [= <- <- <-]; naive_solver.
Qed.

(** ** Theorems *)

(** once an insert into the hot segment has succeeded, the record stays
    reachable through the published snapshot after every later operation, in any
    order: further inserts, seals, background builds (also when they fail), merges,
    compactions and promotions; provided its vector is still readable. *)
Theorem inserted_stays_searchable c id b ops1 o e full ops2 :
  let h1 := (hrun (new c id, b) ops1).1 in
  (insert h1 o e).2 = Ok full ->
  Forall (reads o) ops2 ->
  forall b', visible (hrun ((insert h1 o e).1, b') ops2).1 o.
Proof.
  intros h1 Hi Hr b'. destruct (new_ok c id) as [H0 W0].
  assert (H1 : holder_ok h1) by apply (hrun_keeps (new c id, b) ops1 o H0).
  assert (W1 : hot_wf (hot h1)) by apply (hrun_hot (new c id, b) ops1 W0).
  destruct (hrun_keeps ((insert h1 o e).1, b') ops2 o (insert_ok h1 o e H1)) as [H2 C2].
  apply ok_visible; [done|]. apply C2; [done|]. by eapply insert_Ok_covers.
Qed.

(** C17: [drain] terminates: whatever the builds return, the seal loop ends within
    one round per queued segment plus one, and the merge loop, since a merge
    combines at least two segments into one, within one round per sealed segment
    plus one; no reachable record is lost on the way. *)
Theorem drain_terminates h b view ios1 ios2 :
  holder_ok h ->
  len (sealing_plain h) < len ios1 ->
  len (sealed_hot h) + len (sealing_plain h) < len ios2 ->
  exists h' b', drain h b view ios1 ios2 = Some (h', b') /\ holder_ok h' /\
    (forall o, is_Some (view o) -> visible h o -> visible h' o).
Proof.
  intros Hh H1 H2. unfold drain.
  destruct (run_while_ends (fun o => is_Some (view o)) (fun h b io => process_one_seal h b view io)
    (fun h => len (sealing_plain h)) (fun h => len (sealed_hot h)) h b ios1)
    as (h1 & b1 & E1 & Hk1 & Hb1); [| | |done|done|].
  - intros h0 b0 io o Hh0. by apply process_one_seal_keeps.
  - intros h0 b0 io h' b' _ E. by apply seal_decreases in E.
  - intros h0 b0 io h' b' r _ E Hr. apply seal_end_bound in E as ->; [lia|done].
  - unfold process_pending_seals. rewrite E1. simpl.
    destruct (run_while_ends (fun o => is_Some (view o)) (fun h b io => process_one_merge h b view io)
      (fun h => len (sealed_hot h)) (fun _ => 0) h1 b1 ios2)
      as (h2 & b2 & E2 & Hk2 & _); [| | |apply (Hk1 0)|lia|].
    + intros h0 b0 io o Hh0. by apply process_one_merge_keeps.
    + intros h0 b0 io h' b' Hh0 E. split; [by eapply merge_decreases|lia].
    + intros. lia.
    + exists h2, b2. pose proof (proj1 (Hk2 0)) as Hh2. split_and!; [done|done|].
      intros o Hv Ho. apply ok_visible; [done|]. apply (Hk2 o), (Hk1 o); [done|done|].
      by apply ok_visible.
Qed.

(** [seal_hot] is not atomic for searches: between swapping the full hot
    segment out and publishing the new snapshot, a record that is only in the hot
    segment is in no segment a search can reach; it is back after the publish. *)
Theorem seal_hot_window h o :
  hot_capacity (config h) <= hot_point_count (hot h) ->
  o ∈ offsets (hot h) -> (forall s, s ∈ snapshot h -> o ∉ seg_offsets s) ->
  visible h o /\ ~ visible (seal_swap h).2 o /\
  ~ visible (seal_push (seal_swap h).1 (seal_swap h).2) o /\ visible (seal_hot h) o /\
  seal_hot h = publish_snapshot (seal_push (seal_swap h).1 (seal_swap h).2).
Proof.
  intros Hfull Ho Hs.
  assert (Hseal : seal_hot h = publish_snapshot (seal_push (seal_swap h).1 (seal_swap h).2))
    by (unfold seal_hot; by rewrite (proj2 (N.ltb_ge _ _) Hfull)).
  rewrite Hseal. simpl.
  assert (Hn : forall x, snapshot x = snapshot h -> offsets (hot x) = [] -> ~ visible x o).
  { intros x Hx He [Hin|(s & Hin & Hso)]; [rewrite He in Hin; set_solver|].
    rewrite Hx in Hin. by apply (Hs s). }
  split_and!; [by left|by apply Hn|by apply Hn| |done].
  right. exists {| seg_id := next_arc h; seg_offsets := offsets (hot h) |}. split; [|done].
    simpl. unfold searchable_segments. simpl. set_solver.
Qed.

(** a merge holds its build slot while it builds, but a seal build does not:
    when a seal decides to build an HNSW segment, the budget it leaves behind for
    the duration of the build counts no build, so that with a limit of one a second
    build is admitted at the same time. *)
Theorem seal_build_not_counted h b plain h' b' n :
  plan_seal h b plain true = (true, h', b') -> max_memory_bytes b = None ->
  b' = b /\ is_Some (try_acquire b' n (dimension (config h)) (max_edges (config h)) true) /\
  (forall b1, try_acquire b n (dimension (config h)) (max_edges (config h)) true = Some b1 ->
     inflight b1 = inflight b + 1).
Proof.
  intros Hp Hm. pose proof (plan_seal_holder _ _ _ _ _ _ _ Hp) as [_ ->]. split; [done|].
  unfold plan_seal in Hp. destruct (threshold_met _ _); [|done].
  unfold acquire_is_some, try_acquire in *. rewrite Hm in *.
  destruct (max_concurrent b <=? inflight b); [done|]. split; [done|]. by intros b1 [= <-].
Qed.

(** ** Concrete instances *)

Module Examples.

Definition ex_config : Config := {|
  dimension := 2; hot_capacity := 2; warm_capacity := 10; hnsw_threshold := 1;
  full_scan_threshold_kb := 0; max_edges := 16; c_merge_threshold_segments := 2;
  c_merge_max_records := 100 |}.
Definition ex_budget : ResourceBudget := budget_new 1 None.
Definition ex_io : BuildIo := {| bi_cas := true; bi_build := true; bi_compact := true |}.
Definition ex_view : View := fun o => if o <? 10 then Some [f32_one; 0] else None.
Definition ex_vec : list f32 := [f32_one; 0].

(** Two inserts and a seal, twice; then one build. *)
Definition ex_ops : list HOp :=
  [HInsert 1 ex_vec; HInsert 2 ex_vec; HSeal; HInsert 3 ex_vec; HInsert 4 ex_vec; HSeal;
   HBuild ex_view ex_io].
Definition ex_holder : SegmentHolder := (hrun (new ex_config 0, ex_budget) ex_ops).1.

End Examples.
Import Examples.

Lemma inserted_stays_searchable_witness :
  let h := (insert ex_holder 5 ex_vec).1 in
  let h' := (hrun (h, ex_budget) [HBuild ex_view ex_io; HMerge ex_view ex_io; HInsert 6 ex_vec; HSeal]).1 in
  (insert ex_holder 5 ex_vec).2 = Ok false /\ visible h' 5 /\
  map seg_offsets (snapshot h') = [[5; 6]; [3; 4; 1; 2]].
Proof.
  split; [vm_compute; reflexivity|]. split; [|vm_compute; reflexivity].
  apply (inserted_stays_searchable ex_config 0 ex_budget ex_ops 5 ex_vec false).
  - vm_compute. reflexivity.
  - repeat constructor; vm_compute; eexists; reflexivity.
Defined.

Lemma ex_holder_ok : holder_ok ex_holder.
Proof. apply (hrun_keeps (new ex_config 0, ex_budget) ex_ops 0), new_ok. Qed.

Lemma drain_terminates_witness :
  exists h' b', drain ex_holder ex_budget ex_view [ex_io; ex_io] [ex_io; ex_io; ex_io] = Some (h', b')
    /\ map seg_offsets (sealed_hot h') = [[3; 4; 1; 2]].
Proof.
  destruct (drain_terminates ex_holder ex_budget ex_view [ex_io; ex_io] [ex_io; ex_io; ex_io])
    as (h' & b' & E & _).
  - exact ex_holder_ok.
  - vm_compute. reflexivity.
  - vm_compute. reflexivity.
  - exists h', b'. split; [exact E|].
    assert (F : (fun hb => map seg_offsets (sealed_hot hb.1)) <$>
      drain ex_holder ex_budget ex_view [ex_io; ex_io] [ex_io; ex_io; ex_io] = Some [[3; 4; 1; 2]])
      by (vm_compute; reflexivity).
    rewrite E in F. injection F as F. exact F.
Defined.

Definition ex_full : SegmentHolder :=
  (hrun (new ex_config 0, ex_budget) [HInsert 1 ex_vec; HInsert 2 ex_vec]).1.

Lemma seal_hot_window_witness :
  visible ex_full 1 /\ ~ visible (seal_swap ex_full).2 1 /\ visible (seal_hot ex_full) 1.
Proof.
  destruct (seal_hot_window ex_full 1) as (H1 & H2 & _ & H4 & _).
  - vm_compute. discriminate.
  - vm_compute. constructor.
  - intros s Hs. vm_compute in Hs. inversion Hs.
  - split; [exact H1|]. split; [exact H2|exact H4].
Defined.

Lemma seal_build_not_counted_witness :
  max_concurrent ex_budget = 1 /\
  (plan_seal ex_holder ex_budget {| seg_id := 9; seg_offsets := [1; 2] |} true).2 = ex_budget.
Proof.
  split; [reflexivity|].
  destruct (plan_seal ex_holder ex_budget {| seg_id := 9; seg_offsets := [1; 2] |} true)
    as [[u h'] b'] eqn:E.
  assert (u = true) as -> by (vm_compute in E; injection E as <- <- <-; reflexivity).
  simpl. apply (seal_build_not_counted ex_holder ex_budget {| seg_id := 9; seg_offsets := [1; 2] |} h' b' 5).
  - exact E.
  - reflexivity.
Defined.
