(* ===== verification/Engine.v ===== *)
(** * The storage engine: state, write path, reads

    [crates/turbomemory_storage/src/engine/mod.rs] (the state and the lookups),
    [engine/write.rs] (insert, batch insert, delete, update) and
    [update_worker.rs] (applying a batch to the indexes).

    Every write is a sequence of effects on the components, in the order of the
    code, and keeps what was done before an error. The outcomes of the system
    calls are inputs of each operation ([WriteIo]), so the states in which a
    process can be killed are results of the same definitions. Writes hold the
    write lock for their whole commit section, and are modelled as atomic with
    respect to each other; the clock is an argument.

    The cognitive graph and the Tantivy text index are reached through the
    interfaces [GraphOps] and [TextOps]; nothing is assumed of them. *)

From S2P Require Import Prelude Core Metrics Record Wal VectorStore MetadataStore AccessCounters.
From S2P Require Import ScopeIndex PayloadIndex Segments SegmentHolder Optimizer.
#[local] Open Scope turbo_scope.

(** ** Interfaces *)

(** [SpreadingActivation] over [MemoryGraph], and the concept extractor. *)
Class GraphOps := {
  Graph : Type;
  Vocab : Type;
  empty_graph : Graph;
  vocab : Graph -> Vocab;
  add_memory_scoped : Graph -> string -> string -> list string -> f32 -> option string -> Graph;
  remove_memory : Graph -> string -> Graph;
  merge_concepts : list string -> string -> Vocab -> list string;
  to_snapshot_bytes : Graph -> Result StorageError (list byte);
  (** [MemoryGraph::from_snapshot_bytes], or [from_json] without the magic. *)
  parse_graph : list byte -> option Graph;
  (** [iter_memory_nodes], without the [mem:] prefix. *)
  memory_nodes : Graph -> list string;
  (** The session state, as the JSON text of what [serde_json] parses. *)
  parse_ccs : string -> option string;
}.

(** [TextIndex]: each call may fail. *)
Class TextOps := {
  Text : Type;
  text_open : Result StorageError Text;
  text_add_batch : Text -> list (N * string) -> Text * Result StorageError unit;
  text_remove : Text -> N -> Text * Result StorageError unit;
  text_commit : Text -> Text * Result StorageError unit;
}.

(** [serde_json::from_str::<IgnoredAny>]: is the text well-formed JSON? *)
Class JsonSyntax := { ignored_any : string -> bool }.

(** ** Data *)

Inductive QuantizerKind :=
  | Scalar (bits : N) | Sign | TurboQuantMse (bits : N) | TurboQuantProd (bits : N)
  | RaBitQ (bits : N).
Definition requires_pow2_dim (k : QuantizerKind) : bool :=
  match k with TurboQuantMse _ | TurboQuantProd _ => true | _ => false end.

Record StoreConfig := {
  tiers : SegmentHolder.Config;
  initial_capacity : N;
  sync_writes : bool;
  actr_history : N;
  warm_quantizer : QuantizerKind;
  cold_quantizer : QuantizerKind;
  max_concurrent_builds : N;
  max_build_memory_bytes : option N;
}.
Definition dimension_of (c : StoreConfig) : N := SegmentHolder.dimension (tiers c).

Record WriteInput := {
  i_id : string;
  i_text : string;
  i_embedding : list f32;
  i_importance : f32;
  i_concepts : list string;
  i_payload : option string;
  i_scope : option string;
  i_source_role : option string;
}.

(** A validated record that only lacks its offset and sequence number. *)
Record PreparedRecord := {
  p_id : string;
  p_text : string;
  p_embedding : list f32;
  p_importance : f32;
  p_concepts : list string;
  p_payload : option string;
  p_scope : option string;
  p_source_role : option string;
}.

(** What the operating system does during one write: growing the vector file (per
    offset), [sync_range], the log append, [sync_data] on the log; and whether the
    update worker's channel is connected. *)
Record WriteIo := {
  w_grow : N -> GrowIo;
  w_sync : bool;
  w_append : AppendIo;
  w_log_sync : bool;
  w_worker : bool;
}.
Definition write_ok : WriteIo := {|
  w_grow := fun _ => grow_ok; w_sync := true; w_append := io_ok; w_log_sync := true;
  w_worker := true |}.

Section engine.
Context (en : Endian) {HC : Crc32} {BW : Bincode WalOp}
  {SJ : SerdeJson} {JS : JsonSyntax} {GO : GraphOps} {TO : TextOps}.

Record Engine := {
  config : StoreConfig;
  meta : MetadataStore;
  vectors : VectorStore.Inner;
  segments : SegmentHolder.SegmentHolder;
  graph : Graph;
  ccs : option string;
  id_index : gmap string N;
  payload_index : PayloadIndex.PayloadIndex;
  scope_index : ScopeIndex.ScopeIndex;
  text_index : Text;
  wal : Wal.Wal;
  budget : ResourceBudget;
  access_counters : AccessCounters.AccessCounters;
}.

(** Field updates. *)
Definition set_meta (m : MetadataStore) (e : Engine) : Engine := {|
  config := config e; meta := m; vectors := vectors e; segments := segments e;
  graph := graph e; ccs := ccs e; id_index := id_index e; payload_index := payload_index e;
  scope_index := scope_index e; text_index := text_index e; wal := wal e; budget := budget e;
  access_counters := access_counters e |}.
Definition set_vectors (v : VectorStore.Inner) (e : Engine) : Engine := {|
  config := config e; meta := meta e; vectors := v; segments := segments e;
  graph := graph e; ccs := ccs e; id_index := id_index e; payload_index := payload_index e;
  scope_index := scope_index e; text_index := text_index e; wal := wal e; budget := budget e;
  access_counters := access_counters e |}.
Definition set_segments (h : SegmentHolder.SegmentHolder) (b : ResourceBudget) (e : Engine)
    : Engine := {|
  config := config e; meta := meta e; vectors := vectors e; segments := h;
  graph := graph e; ccs := ccs e; id_index := id_index e; payload_index := payload_index e;
  scope_index := scope_index e; text_index := text_index e; wal := wal e; budget := b;
  access_counters := access_counters e |}.
Definition set_graph (g : Graph) (e : Engine) : Engine := {|
  config := config e; meta := meta e; vectors := vectors e; segments := segments e;
  graph := g; ccs := ccs e; id_index := id_index e; payload_index := payload_index e;
  scope_index := scope_index e; text_index := text_index e; wal := wal e; budget := budget e;
  access_counters := access_counters e |}.
Definition set_ids (i : gmap string N) (e : Engine) : Engine := {|
  config := config e; meta := meta e; vectors := vectors e; segments := segments e;
  graph := graph e; ccs := ccs e; id_index := i; payload_index := payload_index e;
  scope_index := scope_index e; text_index := text_index e; wal := wal e; budget := budget e;
  access_counters := access_counters e |}.
Definition set_payload_index (p : PayloadIndex.PayloadIndex) (e : Engine) : Engine := {|
  config := config e; meta := meta e; vectors := vectors e; segments := segments e;
  graph := graph e; ccs := ccs e; id_index := id_index e; payload_index := p;
  scope_index := scope_index e; text_index := text_index e; wal := wal e; budget := budget e;
  access_counters := access_counters e |}.
Definition set_scope_index (s : ScopeIndex.ScopeIndex) (e : Engine) : Engine := {|
  config := config e; meta := meta e; vectors := vectors e; segments := segments e;
  graph := graph e; ccs := ccs e; id_index := id_index e; payload_index := payload_index e;
  scope_index := s; text_index := text_index e; wal := wal e; budget := budget e;
  access_counters := access_counters e |}.
Definition set_text (t : Text) (e : Engine) : Engine := {|
  config := config e; meta := meta e; vectors := vectors e; segments := segments e;
  graph := graph e; ccs := ccs e; id_index := id_index e; payload_index := payload_index e;
  scope_index := scope_index e; text_index := t; wal := wal e; budget := budget e;
  access_counters := access_counters e |}.
Definition set_wal (w : Wal.Wal) (e : Engine) : Engine := {|
  config := config e; meta := meta e; vectors := vectors e; segments := segments e;
  graph := graph e; ccs := ccs e; id_index := id_index e; payload_index := payload_index e;
  scope_index := scope_index e; text_index := text_index e; wal := w; budget := budget e;
  access_counters := access_counters e |}.
Definition set_access (a : AccessCounters.AccessCounters) (e : Engine) : Engine := {|
  config := config e; meta := meta e; vectors := vectors e; segments := segments e;
  graph := graph e; ccs := ccs e; id_index := id_index e; payload_index := payload_index e;
  scope_index := scope_index e; text_index := text_index e; wal := wal e; budget := budget e;
  access_counters := a |}.

(** Run an operation of one component. *)
Definition on {S A} (get : Engine -> S) (set : S -> Engine -> Engine)
    (f : S -> S * Result StorageError A) : ST Engine A :=
  fun e => let '(s, r) := f (get e) in (set s e, r).

(** ** Lookups, [engine/mod.rs] *)

Definition contains_id (e : Engine) (i : string) : bool := bool_decide (is_Some (id_index e !! i)).
Definition next_insert_seq (e : Engine) : N := next_seq (meta e).

Definition get_payload (e : Engine) (i : string) : option string :=
  offset ← id_index e !! i;
  m ← MetadataStore.get (meta e) offset;
  payload m.

Definition get_record (e : Engine) (offset : PointOffset) : option Record_ :=
  m ← MetadataStore.get (meta e) offset;
  v ← VectorStore.get en (vectors e) offset;
  Some (with_embedding m v).
Definition find_record_by_id (e : Engine) (i : string) : option Record_ :=
  offset ← id_index e !! i; get_record e offset.
Definition find_meta_by_id (e : Engine) (i : string) : option MetaRecord :=
  offset ← id_index e !! i; MetadataStore.get (meta e) offset.

(** [sort_unstable] on [(insert_seq, id)] pairs. *)
Definition row_le (a b : N * string) : Prop :=
  a.1 < b.1 \/ (a.1 = b.1 /\ string_le a.2 b.2).
#[global] Instance row_le_dec a b : Decision (row_le a b).
Proof. unfold row_le, string_le. apply _. Defined.
Definition scope_ids (e : Engine) (sc : string) : list string :=
  (sort_by row_le
     (omap (fun o => m ← MetadataStore.get (meta e) o; Some (insert_seq m, id m))
        (elements (ScopeIndex.exact (scope_index e) sc)))).*2.
Definition scopes (e : Engine) : list string := ScopeIndex.scopes (scope_index e).

Definition bump_access (offset : PointOffset) (now : N) (e : Engine) : Engine :=
  set_access (AccessCounters.bump (access_counters e) offset now) e.
Definition bump_access_by_id (i : string) (now : N) (e : Engine) : Engine :=
  match id_index e !! i with
  | Some offset => bump_access offset now e
  | None => e
  end.

(** ** Write path, [engine/write.rs] *)

Definition into_record (p : PreparedRecord) (seq now : N) : Record_ := {|
  r_id := p_id p; r_text := p_text p; r_embedding := p_embedding p;
  r_importance := p_importance p; r_concepts := p_concepts p; r_created_at := now;
  r_insert_seq := seq; r_access_count := 0; r_last_accessed := 0; r_tier := Hot;
  r_payload := p_payload p; r_scope := p_scope p; r_source_role := p_source_role p |}.

Definition prepare (e : Engine) (input : WriteInput) (v : Vocab)
    : Result StorageError PreparedRecord :=
  if bool_decide (i_id input = ""%string) then Err (InvalidArgument "id must not be empty") else
  _ ← map_err Prelude.Core (validate_dimension (i_embedding input) (dimension_of (config e)));
  if negb (is_finite (i_importance input)) then
    Err (InvalidArgument "importance_score must be finite") else
  _ ← match i_payload input with
      | Some p => if ignored_any p then Ok tt else Err (InvalidArgument "invalid payload JSON")
      | None => Ok tt
      end;
  emb ← map_err Prelude.Core (normalize (i_embedding input));
  Ok {| p_id := i_id input; p_text := i_text input; p_embedding := emb;
        p_importance := i_importance input;
        p_concepts := merge_concepts (i_concepts input) (i_text input) v;
        p_payload := i_payload input; p_scope := i_scope input;
        p_source_role := i_source_role input |}.

Definition log (ops : list WalOp) (io : WriteIo) : ST Engine unit :=
  on wal set_wal (fun w => append_batch w ops (w_append io)) ;!
  fun e => if sync_writes (config e) && negb (w_log_sync io) then (e, Err Io) else (e, Ok tt).

Definition vectors_put (offset : PointOffset) (v : list f32) (io : WriteIo) : ST Engine unit :=
  on vectors set_vectors (fun s => VectorStore.put en s offset v (w_grow io offset)).

Definition sync_vectors_if_configured (first last : PointOffset) (io : WriteIo)
    : ST Engine unit :=
  fun e =>
    if sync_writes (config e) then
      match VectorStore.sync_range (vectors e) first last with
      | Err er => (e, Err er)
      | Ok None => (e, Ok tt)
      | Ok (Some _) => if w_sync io then (e, Ok tt) else (e, Err Io)
      end
    else (e, Ok tt).

Definition alloc_offset : ST Engine N :=
  fun e => let '(o, m) := allocate_offset (meta e) in (set_meta m e, Ok o).
Definition alloc_seq : ST Engine N :=
  fun e => let '(q, m) := allocate_seq (meta e) in (set_meta m e, Ok q).

(** *** Applying a batch, [update_worker.rs] *)

(** The loop over the id, payload and scope indexes: an error of the payload index
    leaves it half way. *)
Definition index_one (orec : N * Record_) : ST Engine unit :=
  let '(offset, rec) := orec in
  st_modify (fun e => set_ids (<[r_id rec := offset]> (id_index e)) e) ;!
  on payload_index set_payload_index (fun p => PayloadIndex.add p offset (r_payload rec)) ;!
  st_modify (fun e => set_scope_index (ScopeIndex.add (scope_index e) offset (r_scope rec)) e).

Definition graph_add (g : Graph) (rec : Record_) : Graph :=
  add_memory_scoped g (r_id rec) (r_text rec) (r_concepts rec) (r_importance rec) (r_scope rec).

Fixpoint insert_segments (h : SegmentHolder.SegmentHolder) (rs : list (N * Record_))
    (needs_seal : bool) : SegmentHolder.SegmentHolder * Result StorageError bool :=
  match rs with
  | [] => (h, Ok needs_seal)
  | (o, r) :: rs =>
      match SegmentHolder.insert h o (r_embedding r) with
      | (h, Err er) => (h, Err er)
      | (h, Ok b) => insert_segments h rs (needs_seal || b)
      end
  end.

Definition apply_batch (rs : list (N * Record_)) : ST Engine unit :=
  st_modify (fun e => set_meta (put_batch (meta e) rs) e) ;!
  st_iter index_one rs ;!
  on text_index set_text (fun t => text_add_batch t (map (fun orec => (orec.1, r_text orec.2)) rs)) ;!
  st_modify (fun e => set_graph (foldl (fun g orec => graph_add g orec.2) (graph e) rs) e) ;!
  let! needs_seal := on segments (fun h e => set_segments h (budget e) e)
                       (fun h => insert_segments h rs false) in
  st_modify (fun e => if needs_seal : bool
                      then set_segments (seal_hot (segments e)) (budget e) e else e).

Definition submit_and_wait (rs : list (N * Record_)) (io : WriteIo) : ST Engine unit :=
  if w_worker io then apply_batch rs
  else st_err (InvalidArgument "update worker disconnected").

Definition insert_op (orec : N * Record_) : WalOp :=
  WInsert orec.1 (r_insert_seq orec.2) (meta_of_record orec.2)
    (Some (vector_crc en (r_embedding orec.2))).

(** *** Insert *)

Definition insert_with_payload_role (input : WriteInput) (now : N) (io : WriteIo)
    : ST Engine bool :=
  fun e =>
    match prepare e input (vocab (graph e)) with
    | Err er => (e, Err er)
    | Ok prepared =>
        if bool_decide (is_Some (id_index e !! i_id input)) then (e, Err (DuplicateId (i_id input)))
        else
          (let! offset := alloc_offset in
           let! seq := alloc_seq in
           let record := into_record prepared seq now in
           vectors_put offset (r_embedding record) io ;!
           sync_vectors_if_configured offset offset io ;!
           log [insert_op (offset, record)] io ;!
           submit_and_wait [(offset, record)] io ;!
           st_ret true) e
    end.

(** *** Batch insert *)

(** The validation loop; a repeated id is validated and skipped. *)
Fixpoint prepare_batch (e : Engine) (v : Vocab) (inputs : list WriteInput) (seen : gset string)
    : Result StorageError (list PreparedRecord) :=
  match inputs with
  | [] => Ok []
  | i :: inputs =>
      record ← prepare e i v;
      if decide (i_id i ∈ seen) then prepare_batch e v inputs seen
      else rest ← prepare_batch e v inputs ({[i_id i]} ∪ seen); Ok (record :: rest)
  end.

Fixpoint alloc_records (ps : list PreparedRecord) (now : N) : ST Engine (list (N * Record_)) :=
  match ps with
  | [] => st_ret []
  | p :: ps =>
      let! offset := alloc_offset in
      let! seq := alloc_seq in
      let! rest := alloc_records ps now in
      st_ret ((offset, into_record p seq now) :: rest)
  end.

(** The parallel arrays of the batch calls; an empty optional array means
    [None] for every record. *)
Record BatchInput := {
  ids : list string;
  texts : list string;
  embeddings : list (list f32);
  importances : list f32;
  concept_lists : list (list string);
  payloads : list (option string);
  scope_list : list (option string);
  source_roles : list (option string);
}.

Definition lengths_ok (b : BatchInput) : bool :=
  let n := length (ids b) in
  let opt {A} (l : list A) := match l with [] => true | _ => Nat.eqb (length l) n end in
  Nat.eqb (length (texts b)) n && Nat.eqb (length (embeddings b)) n
  && Nat.eqb (length (importances b)) n && Nat.eqb (length (concept_lists b)) n
  && opt (payloads b) && opt (scope_list b) && opt (source_roles b).

(** [texts[i]] and the like; in range after [lengths_ok]. *)
Definition input_at (b : BatchInput) (i : nat) : WriteInput := {|
  i_id := default ""%string (ids b !! i); i_text := default ""%string (texts b !! i);
  i_embedding := default [] (embeddings b !! i); i_importance := default 0 (importances b !! i);
  i_concepts := default [] (concept_lists b !! i);
  i_payload := default None (payloads b !! i); i_scope := default None (scope_list b !! i);
  i_source_role := default None (source_roles b !! i) |}.
Definition inputs_of (b : BatchInput) : list WriteInput :=
  map (input_at b) (seq 0 (length (ids b))).

Definition commit_batch (prepared : list PreparedRecord) (now : N) (io : WriteIo)
    : ST Engine N :=
  let! records := alloc_records prepared now in
  st_iter (fun orec => vectors_put orec.1 (r_embedding orec.2) io) records ;!
  sync_vectors_if_configured (default 0 (head records.*1)) (default 0 (last records.*1)) io ;!
  log (map insert_op records) io ;!
  submit_and_wait records io ;!
  st_ret (len records).

Definition insert_batch_with_payload_role (b : BatchInput) (now : N) (io : WriteIo)
    : ST Engine N :=
  fun e =>
    match ids b with
    | [] => (e, Ok 0)
    | _ =>
        if negb (lengths_ok b) then
          (e, Err (InvalidArgument "batch arrays have mismatched lengths"))
        else
          match prepare_batch e (vocab (graph e)) (inputs_of b) ∅ with
          | Err er => (e, Err er)
          | Ok prepared =>
              match filter (fun p => id_index e !! p_id p = None) prepared with
              | [] => (e, Ok 0)
              | prepared => commit_batch prepared now io e
              end
          end
    end.

(** *** Delete *)

Definition remove_from_indexes (i : string) (offset : PointOffset) : ST Engine unit :=
  (fun e =>
     match MetadataStore.get (meta e) offset with
     | Some m =>
         (st_modify (fun e => set_payload_index
            (PayloadIndex.remove (payload_index e) offset (payload m)) e) ;!
          st_modify (fun e => set_scope_index
            (ScopeIndex.remove (scope_index e) offset (scope m)) e) ;!
          on text_index set_text (fun t => text_remove t offset)) e
     | None => (e, Ok tt)
     end) ;!
  st_modify (fun e => set_meta (MetadataStore.remove (meta e) offset) e) ;!
  st_modify (fun e => set_ids (delete i (id_index e)) e) ;!
  st_modify (fun e => set_graph (remove_memory (graph e) i) e).

Definition delete_where (i : string) (matches : N -> bool) (io : WriteIo) : ST Engine bool :=
  fun e =>
    match id_index e !! i with
    | Some offset =>
        if matches offset then
          (log [WDelete offset] io ;! remove_from_indexes i offset ;! st_ret true) e
        else (e, Ok false)
    | None => (e, Ok false)
    end.
Definition delete_by_id (i : string) (io : WriteIo) : ST Engine bool :=
  delete_where i (fun _ => true) io.
Definition delete_by_id_at (i : string) (offset : PointOffset) (io : WriteIo) : ST Engine bool :=
  delete_where i (fun current => current =? offset) io.

(** *** Update *)

Definition update_with_payload_role (input : WriteInput) (now : N) (io : WriteIo)
    : ST Engine bool :=
  fun e =>
    if negb (contains_id e (i_id input)) then (e, Ok false) else
    match prepare e input (vocab (graph e)) with
    | Err er => (e, Err er)
    | Ok prepared =>
        match id_index e !! i_id input with
        | None => (e, Ok false)
        | Some old_offset =>
            (let! offset := alloc_offset in
             let! seq := alloc_seq in
             let record := into_record prepared seq now in
             vectors_put offset (r_embedding record) io ;!
             sync_vectors_if_configured offset offset io ;!
             log [WReplace old_offset offset (r_insert_seq record) (meta_of_record record)
                    (vector_crc en (r_embedding record))] io ;!
             remove_from_indexes (i_id input) old_offset ;!
             submit_and_wait [(offset, record)] io ;!
             st_ret true) e
        end
    end.

End engine.
