(* ===== verification/Recovery.v ===== *)
(** * Opening, recovery and flush of the storage engine

    [StorageEngine::open] and [flush] of
    [crates/turbomemory_storage/src/engine/mod.rs]: replay of the write-ahead log,
    the tail cut, the consistency checks between the vector file and the metadata,
    the rebuild of the derived indexes, the loading of segments, and the
    checkpoint that lets the log be truncated.

    The disk is the contents of the three files that are not derived data
    ([memory.redb], [vectors.bin], the log), and the segments found in the segment
    directories. *)

From S2P Require Import Prelude Core Metrics Record Wal VectorStore MetadataStore AccessCounters.
From S2P Require Import ScopeIndex PayloadIndex Segments SegmentHolder Optimizer Engine.
#[local] Open Scope turbo_scope.

(** ** Data *)

Record RecoveryReport := {
  wal_ops_replayed : N;
  wal_inserts_without_vector : N;
  wal_bytes_discarded : N;
  segments_discarded : N;
  segment_dirs_removed : N;
  graph_nodes_pruned : N;
}.
Definition default_report : RecoveryReport := {|
  wal_ops_replayed := 0; wal_inserts_without_vector := 0; wal_bytes_discarded := 0;
  segments_discarded := 0; segment_dirs_removed := 0; graph_nodes_pruned := 0 |}.
#[global] Instance RecoveryReport_eq_dec : EqDecision RecoveryReport.
Proof. solve_decision. Defined.
Definition is_clean (r : RecoveryReport) : bool := bool_decide (r = default_report).

(** One directory under a tier: its name, whether it has a manifest, the offsets
    of its segment when it loads, and whether it can be removed. *)
Record SegDir := {
  sd_path : string;
  sd_manifest : bool;
  sd_open : option (list N);
  sd_removable : bool;
}.

Record SegDirs := {
  dir_sealed : list SegDir;
  dir_warm : list SegDir;
  dir_cold : list SegDir;
  dir_next_id : N;
}.
Definition no_dirs : SegDirs :=
  {| dir_sealed := []; dir_warm := []; dir_cold := []; dir_next_id := 0 |}.

Record Disk := {
  d_db : DbOpen;
  d_vectors : option (list byte);
  d_wal : option (list byte);
  d_segments : SegDirs;
}.

(** How [Wal::clear] ends: it succeeds, the file cannot be cut, writing the new
    header stops after [k] bytes, or the final sync fails. [Wal::open] writes the header
    of a new log with the same calls. *)
Inductive ClearIo := ClearOk | ClearSetLen | ClearWrite (k : nat) | ClearSync.
(** How [Wal::truncate_to] ends. *)
Inductive CutIo := CutOk | CutSetLen | CutSync.

(** Outcomes of the system calls of [open]: mapping the vector file (and sizing a new
    one), the header of a new log, cutting its tail, and those of the checkpoint: the
    sync of the stamped vectors, the redb commit of the recovered snapshot, the sync of
    the log and its truncation. A process killed in [open] leaves the files of an [open]
    whose next call fails. *)
Record OpenIo := {
  o_grow : GrowIo; o_header : ClearIo; o_cut : CutIo; o_vectors : bool; o_commit : bool;
  o_sync : bool; o_clear : ClearIo }.
Definition open_ok : OpenIo := {|
  o_grow := grow_ok; o_header := ClearOk; o_cut := CutOk; o_vectors := true; o_commit := true;
  o_sync := true; o_clear := ClearOk |}.

Definition set_d_db (x : DbOpen) (d : Disk) : Disk :=
  {| d_db := x; d_vectors := d_vectors d; d_wal := d_wal d; d_segments := d_segments d |}.
Definition set_d_vectors (x : option (list byte)) (d : Disk) : Disk :=
  {| d_db := d_db d; d_vectors := x; d_wal := d_wal d; d_segments := d_segments d |}.
Definition set_d_wal (x : option (list byte)) (d : Disk) : Disk :=
  {| d_db := d_db d; d_vectors := d_vectors d; d_wal := x; d_segments := d_segments d |}.

(** ** Segment directories *)

Definition path_le (a b : SegDir) : Prop := string_le (sd_path a) (sd_path b).
#[global] Instance path_le_dec a b : Decision (path_le a b).
Proof. unfold path_le, string_le. apply _. Defined.

(** The loop of [load_segment_dirs]: the segments, the directories removed, the
    segments discarded. *)
Fixpoint load_dirs_loop (l : list SegDir) : list (SegDir * list N) * N * N :=
  match l with
  | [] => ([], 0, 0)
  | d :: l =>
      let '(loaded, removed, discarded) := load_dirs_loop l in
      if negb (sd_manifest d) then
        (loaded, (if sd_removable d then removed + 1 else removed), discarded)
      else match sd_open d with
           | Some offs => ((d, offs) :: loaded, removed, discarded)
           | None => (loaded, removed, discarded + 1)
           end
  end.
Definition load_segment_dirs (l : list SegDir) : list (SegDir * list N) * N * N :=
  load_dirs_loop (sort_by path_le l).

(** Keep the segments not covered by [against] (fixed, or growing with what is
    kept when [grow] is set); the others are superseded and their directories
    removed. *)
Fixpoint drop_covered (grow : bool) (l : list (SegDir * list N)) (against : gset N)
    : list (list N) * gset N * N :=
  match l with
  | [] => ([], against, 0)
  | (d, offs) :: l =>
      if forallb (fun o => bool_decide (o ∈ against)) offs then
        let '(kept, acc, removed) := drop_covered grow l against in
        (kept, acc, if sd_removable d then removed + 1 else removed)
      else
        let '(kept, acc, removed) :=
          drop_covered grow l (if grow then list_to_set offs ∪ against else against) in
        (offs :: kept, acc, removed)
  end.

(** Largest first, then by path. *)
Definition larger_le (a b : SegDir * list N) : Prop :=
  len b.2 < len a.2 \/ (len b.2 = len a.2 /\ string_le (sd_path a.1) (sd_path b.1)).
#[global] Instance larger_le_dec a b : Decision (larger_le a b).
Proof. unfold larger_le, string_le. apply _. Defined.

Record Loaded := {
  l_sealed : list (list N);
  l_warm : list (list N);
  l_cold : list (list N);
  l_offsets : gset N;               (** [sealed_offsets] *)
  l_removed : N;
  l_discarded : N;
}.

Definition load_segments (d : SegDirs) : Loaded :=
  let '(sealed, r1, x1) := load_segment_dirs (dir_sealed d) in
  let '(warm, r2, x2) := load_segment_dirs (dir_warm d) in
  let '(cold, r3, x3) := load_segment_dirs (dir_cold d) in
  let cold := cold.*2 in
  let cold_offsets : gset N := list_to_set (concat cold) in
  let '(warm, _, r4) := drop_covered false warm cold_offsets in
  let '(sealed, hot_offsets, r5) := drop_covered true (sort_by larger_le sealed) ∅ in
  {| l_sealed := sealed; l_warm := warm; l_cold := cold;
     l_offsets := hot_offsets ∪ (list_to_set (concat warm) ∪ cold_offsets);
     l_removed := r1 + r2 + r3 + r4 + r5; l_discarded := x1 + x2 + x3 |}.

Section recovery.
Context (en : Endian) {HC : Crc32} {BW : Bincode WalOp} {BW1 : Bincode WalOpV1}
  {BM : Bincode MetaRecord} {BH : Bincode (list N)}
  {SJ : SerdeJson} {JS : JsonSyntax} {GO : GraphOps} {TO : TextOps}.

(** ** Replay *)

Record Replay := {
  rp_meta : MetadataStore;
  rp_vectors : VectorStore.Inner;
  rp_ops : N;
  rp_without_vector : N;
  rp_max_seq : N;
  rp_max_offset : N;
  rp_replayed : bool;
}.

(** One iteration of the replay loop of [open]. *)
Definition replay_op (last_applied : N) (r : Replay) (op : WalOp) : Replay :=
  match op with
  | WInsert offset seq m crc =>
      if last_applied <? seq then
        let '(vs, got) := VectorStore.recover en (rp_vectors r) offset crc in
        {| rp_meta := match got with
                      | Some vec => MetadataStore.put (rp_meta r) offset (with_embedding m vec)
                      | None => rp_meta r
                      end;
           rp_vectors := vs;
           rp_ops := if bool_decide (is_Some got) then rp_ops r + 1 else rp_ops r;
           rp_without_vector := if bool_decide (is_Some got) then rp_without_vector r else rp_without_vector r + 1;
           rp_max_seq := N.max (rp_max_seq r) seq;
           rp_max_offset := N.max (rp_max_offset r) offset;
           rp_replayed := true |}
      else r
  | WReplace old_offset offset seq m crc =>
      if last_applied <? seq then
        let '(vs, got) := VectorStore.recover en (rp_vectors r) offset (Some crc) in
        {| rp_meta := match got with
                      | Some vec => MetadataStore.put (MetadataStore.remove (rp_meta r) old_offset)
                                      offset (with_embedding m vec)
                      | None => rp_meta r
                      end;
           rp_vectors := vs;
           rp_ops := if bool_decide (is_Some got) then rp_ops r + 1 else rp_ops r;
           rp_without_vector := if bool_decide (is_Some got) then rp_without_vector r else rp_without_vector r + 1;
           rp_max_seq := N.max (rp_max_seq r) seq;
           rp_max_offset := N.max (rp_max_offset r) offset;
           rp_replayed := true |}
      else r
  | WDelete offset =>
      {| rp_meta := MetadataStore.remove (rp_meta r) offset; rp_vectors := rp_vectors r;
         rp_ops := rp_ops r + 1; rp_without_vector := rp_without_vector r;
         rp_max_seq := rp_max_seq r; rp_max_offset := rp_max_offset r; rp_replayed := true |}
  | WFlush _ => r
  end.

Definition replay (last_applied : N) (m : MetadataStore) (vs : VectorStore.Inner)
    (ops : list WalOp) : Replay :=
  foldl (replay_op last_applied)
    {| rp_meta := m; rp_vectors := vs; rp_ops := 0; rp_without_vector := 0;
       rp_max_seq := last_applied; rp_max_offset := 0; rp_replayed := false |} ops.

(** The state after the replay and its checkpoint: the first half of [open]. *)
Record Recovered := {
  rc_meta : MetadataStore;
  rc_vectors : VectorStore.Inner;
  rc_wal : Wal.Wal;
  rc_report : RecoveryReport;
}.

(** *** The calls that write files *)

Definition clear_io (w : Wal.Wal) (io : ClearIo) : Wal.Wal * Result StorageError unit :=
  match io with
  | ClearOk => (Wal.clear en w, Ok tt)
  | ClearSetLen => (w, Err Io)
  | ClearWrite k =>
      let f := take k (Wal.header_bytes en WAL_VERSION) in
      ({| Wal.file := f; Wal.pos := len f; Wal.version := Wal.version w |}, Err Io)
  | ClearSync =>
      let f := Wal.header_bytes en WAL_VERSION in
      ({| Wal.file := f; Wal.pos := len f; Wal.version := Wal.version w |}, Err Io)
  end.

(** [Wal::open]: a file too short for a header is written anew. *)
Definition open_log (io : ClearIo) : ST Disk Wal.Wal := fun d =>
  let f := default [] (d_wal d) in
  if len f <? WAL_HEADER_SIZE then
    let '(w, r) := clear_io {| Wal.file := f; Wal.pos := 0; Wal.version := WAL_VERSION |} io in
    (set_d_wal (Some (Wal.file w)) d, match r with Ok _ => Ok w | Err er => Err er end)
  else (d, Wal.open en (d_wal d)).

Definition open_vectors (dim initial_slots : N) (io : GrowIo) : ST Disk VectorStore.Inner := fun d =>
  (set_d_vectors (VectorStore.open_file en (d_vectors d) dim initial_slots io) d,
   VectorStore.open en (d_vectors d) dim initial_slots io).

(** The state an operation leaves goes to its file, whatever it returns. *)
Definition wrote {A} (put : A -> Disk -> Disk) (x : A * Result StorageError unit) : ST Disk A := fun d =>
  (put x.1 d, match x.2 with Ok _ => Ok x.1 | Err er => Err er end).
Definition put_db (m : MetadataStore) : Disk -> Disk := set_d_db (DbOpened (db m)).
Definition put_vectors (vs : VectorStore.Inner) : Disk -> Disk := set_d_vectors (Some (bytes vs)).
Definition put_wal (w : Wal.Wal) : Disk -> Disk := set_d_wal (Some (Wal.file w)).

(** [if wal_bytes_discarded > 0]: cut the unreadable tail. *)
Definition cut_tail (w : Wal.Wal) (it : Wal.WalIter) (io : CutIo) : Wal.Wal * Result StorageError unit :=
  if 0 <? discarded_bytes it then
    match io with
    | CutOk => (Wal.truncate_to w (valid_end it), Ok tt)
    | CutSetLen => (w, Err Io)
    | CutSync => (Wal.truncate_to w (valid_end it), Err Io)
    end
  else (w, Ok tt).

(** [if replayed || needs_upgrade]: persist the recovered snapshot, clear the log. *)
Definition checkpoint (r : Replay) (w : Wal.Wal) (io : OpenIo)
    : ST Disk (MetadataStore * VectorStore.Inner * Wal.Wal) :=
  if rp_replayed r || needs_upgrade w then
    let m := advance_seq_past (advance_offset_past (rp_meta r) (rp_max_offset r)) (rp_max_seq r) in
    let! vs := wrote put_vectors (VectorStore.flush en (o_vectors io) (rp_vectors r)) in
    let! m := wrote put_db (MetadataStore.flush m (rp_max_seq r) (o_commit io)) in
    (if o_sync io then st_ret tt else st_err Io) ;!
    let! w := wrote put_wal (clear_io w (o_clear io)) in
    st_ret (m, vs, w)
  else st_ret (rp_meta r, rp_vectors r, w).

(** The refusal of a vector file that an empty database knows nothing of. *)
Definition orphaned : StorageError :=
  Corrupted "vectors.bin holds vectors but memory.redb has no records".

(** The files, from the first call of [open] to its consistency checks. *)
Definition recover (c : StoreConfig) (io : OpenIo) : ST Disk Recovered :=
  let! m := (fun d => (d, MetadataStore.open (d_db d))) in
  let! vs := open_vectors (dimension_of c) (initial_capacity c) (o_grow io) in
  let! w := open_log (o_header io) in
  let metadata_was_fresh := is_fresh m in
  let vectors_at_open := VectorStore.count vs in
  let last_applied := default 0 (last_applied_seq m) in
  let '(ops, it) := Wal.read_all w in
  let r := replay last_applied m vs ops in
  let discarded := discarded_bytes it in
  let! w := wrote put_wal (cut_tail w it (o_cut io)) in
  let! mvw := checkpoint r w io in
  let '(m, vs, w) := mvw in
  if metadata_was_fresh && negb (rp_replayed r) && (0 <? vectors_at_open) then st_err orphaned
  else
  if match max_live_offset m with Some o => VectorStore.count vs <=? o | None => false end then
    st_err (Corrupted "metadata holds a record beyond the end of vectors.bin")
  else
    st_ret {| rc_meta := m; rc_vectors := vs; rc_wal := w;
              rc_report := {| wal_ops_replayed := rp_ops r;
                              wal_inserts_without_vector := rp_without_vector r;
                              wal_bytes_discarded := discarded; segments_discarded := 0;
                              segment_dirs_removed := 0; graph_nodes_pruned := 0 |} |}.
Definition recover_files (d : Disk) (c : StoreConfig) (io : OpenIo) : Result StorageError Recovered :=
  (recover c io d).2.

(** ** Derived state *)

(** By [(created_at, insert_seq)]. *)
Definition older_le (a b : N * MetaRecord) : Prop :=
  created_at a.2 < created_at b.2 \/
  (created_at a.2 = created_at b.2 /\ insert_seq a.2 <= insert_seq b.2).
#[global] Instance older_le_dec a b : Decision (older_le a b).
Proof. unfold older_le. apply _. Defined.

Definition records_of (m : MetadataStore) (vs : VectorStore.Inner) : list (N * Record_) :=
  omap (fun om : N * MetaRecord =>
          v ← VectorStore.get en vs om.1; Some (om.1, with_embedding om.2 v))
    (sort_by older_le (map_to_list (records m))).

(** [collect] into a map: the last entry of an id wins. *)
Definition build_id_index (rs : list (N * Record_)) : gmap string N :=
  foldl (fun idx (orec : N * Record_) => <[r_id orec.2 := orec.1]> idx) ∅ rs.

Definition build_scope_index (l : list (N * MetaRecord)) : ScopeIndex.ScopeIndex :=
  foldl (fun i om => ScopeIndex.add i om.1 (scope om.2)) ScopeIndex.new l.

Fixpoint text_add_all (t : Text) (l : list (N * MetaRecord)) : Result StorageError Text :=
  match l with
  | [] => Ok t
  | (o, m) :: l =>
      match text_add_batch t [(o, text m)] with
      | (t, Ok _) => text_add_all t l
      | (_, Err er) => Err er
      end
  end.
Definition build_text_index (l : list (N * MetaRecord)) : Result StorageError Text :=
  t ← text_open;
  t ← text_add_all t l;
  match text_commit t with
  | (t, Ok _) => Ok t
  | (_, Err er) => Err er
  end.

(** [build_graph] and [rebuild_graph]. *)
Definition build_graph (rs : list (N * Record_)) : Graph :=
  foldl (fun g orec => graph_add g orec.2) empty_graph rs.
Definition rebuild_graph (rs : list (N * Record_)) (saved : option (list byte)) : Graph * N :=
  match saved ≫= parse_graph with
  | None => (build_graph rs, 0)
  | Some g =>
      let existing : gset string := list_to_set (memory_nodes g) in
      let live : gset string := list_to_set (map (fun orec => r_id orec.2) rs) in
      let stale := existing ∖ live in
      let g := foldl remove_memory g (elements stale) in
      let existing := existing ∖ stale in
      (foldl (fun g orec => graph_add g orec.2) g
         (filter (fun orec => r_id orec.2 ∉ existing) rs), N.of_nat (size stale))
  end.

(** The saved graph: the binary snapshot, else the legacy JSON text. *)
Definition saved_graph (m : MetadataStore) : option (list byte) :=
  match load_meta_bytes m "graph" with
  | Some b => Some b
  | None => s ← load_meta (db m) "graph"; Some (String.list_byte_of_string s)
  end.

(** The check of the configured quantizers. *)
Definition quantizers_ok (c : StoreConfig) : bool :=
  negb (requires_pow2_dim (warm_quantizer c) || requires_pow2_dim (cold_quantizer c))
  || N.eqb (2 ^ N.log2 (dimension_of c)) (dimension_of c).

(** [StorageEngine::open]. *)
Definition open (d : Disk) (c : StoreConfig) (io : OpenIo)
    : Result StorageError (Engine * RecoveryReport) :=
  if negb (quantizers_ok c) then
    Err (InvalidArgument "quantizer requires a power-of-two dimension")
  else
  rc ← recover_files d c io;
  let m := rc_meta rc in
  let vs := rc_vectors rc in
  let records_meta := map_to_list (records m) in
  t ← build_text_index records_meta;
  let rs := records_of m vs in
  let '(g, pruned) := rebuild_graph rs (saved_graph m) in
  let l := load_segments (d_segments d) in
  h ← from_records (tiers c) (dir_next_id (d_segments d)) rs (l_offsets l);
  let h := foldl (fun h s => add_sealed_hot s h) h (l_sealed l) in
  let h := foldl (fun h s => add_warm s h) h (l_warm l) in
  let h := foldl (fun h s => add_cold s h) h (l_cold l) in
  let rep := rc_report rc in
  Ok ({| config := c; meta := m; vectors := vs; segments := h; graph := g;
         ccs := load_meta (db m) "ccs" ≫= parse_ccs; id_index := build_id_index rs;
         payload_index := from_meta_records_iter records_meta;
         scope_index := build_scope_index records_meta; text_index := t; wal := rc_wal rc;
         budget := budget_new (max_concurrent_builds c) (max_build_memory_bytes c);
         access_counters := AccessCounters.new (actr_history c) |},
      {| wal_ops_replayed := wal_ops_replayed rep;
         wal_inserts_without_vector := wal_inserts_without_vector rep;
         wal_bytes_discarded := wal_bytes_discarded rep;
         segments_discarded := l_discarded l; segment_dirs_removed := l_removed l;
         graph_nodes_pruned := pruned |}).

(** The files that [open] leaves, whatever it returns: all it writes, it writes before the
    derived state is built. *)
Definition open_leaves (c : StoreConfig) (d : Disk) (io : OpenIo) : Disk :=
  if quantizers_ok c then (recover c io d).1 else d.

(** ** Flush *)

(** Outcomes of the system calls of [flush]: the segment builds, [sync_data] on
    the log, the sync of the stamped vectors, the metadata commit, the segment files, the commits of the graph and
    the session state, and truncating the log. *)
Record FlushIo := {
  f_builds : list BuildIo;
  f_log_sync : bool;
  f_vectors : bool;
  f_commit : bool;
  f_segments : bool;
  f_graph_commit : bool;
  f_legacy_commit : bool;
  f_ccs_commit : bool;
  f_clear : ClearIo;
}.

(** The seal loop: the first error ends it and is kept for the end; [None] when the
    outcomes run out before the queue does. *)
Fixpoint seal_loop (h : SegmentHolder.SegmentHolder) (b : ResourceBudget) (view : View)
    (ios : list BuildIo)
    : option (SegmentHolder.SegmentHolder * ResourceBudget * option StorageError) :=
  match ios with
  | [] => None
  | io :: ios =>
      match process_one_seal h b view io with
      | (h, b, Ok true) => seal_loop h b view ios
      | (h, b, Ok false) => Some (h, b, None)
      | (h, b, Err er) => Some (h, b, Some er)
      end
  end.

Definition check_io (ok : bool) : ST Engine unit :=
  fun e => (e, if ok then Ok tt else Err Io).

Definition save_graph (io : FlushIo) : ST Engine unit :=
  fun e => match to_snapshot_bytes (graph e) with
           | Err er => (e, Err er)
           | Ok b => (on meta set_meta (fun m => save_meta_bytes m "graph" b (f_graph_commit io)) ;!
                      on meta set_meta (fun m => remove_meta m "graph" (f_legacy_commit io))) e
           end.
Definition save_ccs (io : FlushIo) : ST Engine unit :=
  fun e => match ccs e with
           | Some j => on meta set_meta (fun m => save_meta m "ccs" j (f_ccs_commit io)) e
           | None => (e, Ok tt)
           end.

(** Steps 2 to 4: what makes the log redundant. *)
Definition flush_records (io : FlushIo) : ST Engine unit :=
  st_modify (fun e => let '(a, m) := drain_into (access_counters e) (meta e) in
                      set_access a (set_meta m e)) ;!
  check_io (f_log_sync io) ;!
  on vectors set_vectors (VectorStore.flush en (f_vectors io)) ;!
  on text_index set_text text_commit ;!
  on meta set_meta (fun m => MetadataStore.flush m (saturating_sub (next_seq m) 1) (f_commit io)).

(** Steps 5 to 7. *)
Definition flush_rest (io : FlushIo) : ST Engine unit :=
  check_io (f_segments io) ;!
  save_graph io ;!
  save_ccs io ;!
  on wal set_wal (fun w => clear_io w (f_clear io)).

Definition flush (io : FlushIo) : ST Engine unit :=
  fun e =>
    match seal_loop (segments e) (budget e) (VectorStore.get en (vectors e)) (f_builds io) with
    | None => (e, Err Io)
    | Some (h, b, seal_error) =>
        (flush_records io ;! flush_rest io ;!
         match seal_error with Some er => st_err er | None => st_ret tt end)
          (set_segments h b e)
    end.

End recovery.
