(* ===== verification/Durability.v ===== *)
(** * Durability of the storage engine

    What the write-ahead log, the vector file and the metadata snapshot guarantee
    together. The abstract store is a map from ids to the caller's part of a
    record and its vector; [eng_ok] says how a running engine and the three files
    represent it, every operation preserves it whatever the system calls return,
    and opening the files of a killed process gives back the same store. *)

From S2P Require Import Prelude Core Metrics Record Wal VectorStore MetadataStore AccessCounters.
From S2P Require Import ScopeIndex PayloadIndex Segments SegmentHolder Optimizer Engine Recovery.
#[local] Open Scope turbo_scope.

Abbreviation Dur := (string * string * list string * N * N * option string * option string
  * option string)%type (only parsing).

(** ** Replaying operations on the durable part of the records *)

(** The slot and the sequence number an operation brings, when replay after
    [la] looks at it. *)
Definition op_target (la : N) (op : WalOp) : option (N * N) :=
  match op with
  | WInsert o q _ _ | WReplace _ o q _ _ => if la <? q then Some (o, q) else None
  | _ => None
  end.

Definition active (la : N) (op : WalOp) : bool :=
  match op with
  | WDelete _ => true
  | _ => bool_decide (is_Some (op_target la op))
  end.

Definition apply_dur (la : N) (R : gmap N Dur) (op : WalOp) : gmap N Dur :=
  match op with
  | WInsert o q m _ => if la <? q then <[o := durable m]> R else R
  | WReplace old o q m _ => if la <? q then <[o := durable m]> (delete old R) else R
  | WDelete o => delete o R
  | WFlush _ => R
  end.

(** What the log and the file hold for a live set. *)
Definition live (m : MetadataStore) : gmap N Dur := durable <$> records m.

Lemma live_lookup m o : live m !! o = durable <$> records m !! o.
Proof. apply lookup_fmap. Qed.
Lemma live_is_Some m o : is_Some (live m !! o) <-> is_Some (records m !! o).
Proof. rewrite live_lookup. by rewrite fmap_is_Some. Qed.
Lemma live_put_meta m o r : live (put_meta m o r) = <[o := durable r]> (live m).
Proof. unfold live, put_meta. simpl. apply fmap_insert. Qed.
Lemma live_put m o r : live (MetadataStore.put m o r) = <[o := durable (meta_of_record r)]> (live m).
Proof. apply live_put_meta. Qed.
Lemma remove_fields m o :
  records (MetadataStore.remove m o) = delete o (records m) /\
  db (MetadataStore.remove m o) = db m /\
  next_offset (MetadataStore.remove m o) = next_offset m /\
  next_seq (MetadataStore.remove m o) = next_seq m.
Proof. unfold MetadataStore.remove. repeat case_decide; done. Qed.
Lemma live_remove m o : live (MetadataStore.remove m o) = delete o (live m).
Proof. unfold live. rewrite (proj1 (remove_fields m o)). apply fmap_delete. Qed.

Section durability.
Context (en : Endian) {HC : Crc32} {BW : Bincode WalOp} {BW1 : Bincode WalOpV1}
  {BM : Bincode MetaRecord} {BH : Bincode (list N)}.

Abbreviation vcount := VectorStore.count.
#[local] Existing Instance HC.

(** The vector an active operation needs is in the file. *)
Definition vec_ok (la : N) (vs : VectorStore.Inner) (op : WalOp) : Prop :=
  match op with
  | WInsert o q _ c => la < q -> o < slots vs /\ c = Some (crc32 (slot vs o))
  | WReplace _ o q _ c => la < q -> o < slots vs /\ c = crc32 (slot vs o)
  | _ => True
  end.

Lemma vec_ok_same la vs vs' op :
  slots vs <= slots vs' -> dim vs' = dim vs -> bytes vs' = bytes vs ->
  vec_ok la vs op -> vec_ok la vs' op.
Proof.
  intros Hs Hd Hb. assert (He : forall o, slot vs' o = slot vs o).
  { intros o. unfold slot, slot_start. by rewrite Hd, Hb. }
  destruct op; simpl; auto; intros Hv Hq; destruct (Hv Hq) as [? ->]; rewrite He; split; [lia|done|lia|done].
Qed.

Lemma recover_ok vs o c :
  vs_wf en vs -> mapped vs = true -> o < slots vs -> c = crc32 (slot vs o) ->
  exists v, VectorStore.recover en vs o (Some c) = (with_count (N.max (vcount vs) (o + 1)) vs, Some v).
Proof.
  intros Hwf Hm Ho ->. rewrite recover_slot, N.eqb_refl by done.
  rewrite wadd64_small by (by eapply slots_u64). eauto.
Qed.

(** [r'] is [r] after replaying [ops]. *)
Record replays (la : N) (ops : list WalOp) (r r' : Replay) : Prop := {
  rs_live : live (rp_meta r') = foldl (apply_dur la) (live (rp_meta r)) ops;
  rs_ms : ms_wf (rp_meta r) -> ms_wf (rp_meta r');
  rs_db : db (rp_meta r') = db (rp_meta r);
  rs_next : next_offset (rp_meta r') = next_offset (rp_meta r) /\
            next_seq (rp_meta r') = next_seq (rp_meta r);
  rs_vs : exists c, rp_vectors r' = with_count c (rp_vectors r) /\
            vcount (rp_vectors r) <= c <= slots (rp_vectors r);
  rs_cov : forall o, is_Some (records (rp_meta r') !! o) ->
             is_Some (records (rp_meta r) !! o) \/ o < vcount (rp_vectors r');
  rs_flag : rp_replayed r' = rp_replayed r || existsb (active la) ops;
  rs_lost : rp_without_vector r' = rp_without_vector r;
  rs_max : rp_max_offset r <= rp_max_offset r' /\ rp_max_seq r <= rp_max_seq r';
  rs_target : Forall (fun op => forall o q, op_target la op = Some (o, q) ->
                        o <= rp_max_offset r' /\ q <= rp_max_seq r') ops;
  rs_bound : forall B C, rp_max_offset r < B -> rp_max_seq r < C ->
    Forall (fun op => forall o q, op_target la op = Some (o, q) -> o < B /\ q < C) ops ->
    rp_max_offset r' < B /\ rp_max_seq r' < C;
}.

Lemma replays_nil la r : vcount (rp_vectors r) <= slots (rp_vectors r) -> replays la [] r r.
Proof.
  intros Hc. split; simpl; auto; try lia; try done.
  - exists (vcount (rp_vectors r)). split; [by destruct (rp_vectors r)|lia].
  - by rewrite orb_false_r.
Qed.

Lemma replays_app la ops1 ops2 r1 r2 r3 :
  replays la ops1 r1 r2 -> replays la ops2 r2 r3 -> replays la (ops1 ++ ops2) r1 r3.
Proof.
  intros [L1 M1 D1 [N1 Q1] (c1 & V1 & C1) K1 F1 W1 X1 T1 B1]
         [L2 M2 D2 [N2 Q2] (c2 & V2 & C2) K2 F2 W2 X2 T2 B2].
  split; auto; try congruence; try lia.
  - by rewrite foldl_app, L2, L1.
  - exists c2. rewrite V2, V1. split; [done|]. rewrite V1 in C2. simpl in C2. lia.
  - intros o Ho. destruct (K2 o Ho) as [Ho'|]; [|by right].
    destruct (K1 o Ho') as [|]; [by left|right]. rewrite V2. simpl.
    rewrite V1 in *. simpl in *. lia.
  - by rewrite F2, F1, existsb_app, orb_assoc.
  - apply Forall_app. split; [|done]. eapply Forall_impl; [exact T1|].
    intros op Hop o q Hoq. destruct (Hop o q Hoq). lia.
  - intros B C HB HC' [H1 H2]%Forall_app. destruct (B1 B C); auto.
Qed.

Lemma replays_skip la op r :
  vcount (rp_vectors r) <= slots (rp_vectors r) -> active la op = false ->
  apply_dur la (live (rp_meta r)) op = live (rp_meta r) -> replays la [op] r r.
Proof.
  intros Hc Ha Hl. assert (Ht : op_target la op = None).
  { destruct op; simpl in *; try done; by case_bool_decide as H; [|apply eq_None_not_Some]. }
  destruct (replays_nil la r Hc) as [L M D Nx V K F W X T B].
  split; auto; simpl in *.
  - by rewrite Ha, orb_false_r.
  - constructor; [|done]. congruence.
Qed.

Lemma target_active la op : is_Some (op_target la op) -> active la op = true.
Proof. intros H. destruct op; try done; by apply bool_decide_eq_true_2. Qed.

(** Replaying an insert or the second half of a replace. *)
Lemma replays_put la r op o q m v vs m' :
  op_target la op = Some (o, q) ->
  vs = with_count (N.max (vcount (rp_vectors r)) (o + 1)) (rp_vectors r) ->
  o < slots (rp_vectors r) -> vcount (rp_vectors r) <= slots (rp_vectors r) ->
  (ms_wf (rp_meta r) -> ms_wf m') -> db m' = db (rp_meta r) ->
  next_offset m' = next_offset (rp_meta r) -> next_seq m' = next_seq (rp_meta r) ->
  (forall o', is_Some (records m' !! o') -> is_Some (records (rp_meta r) !! o')) ->
  apply_dur la (live (rp_meta r)) op = <[o := durable m]> (live m') ->
  replays la [op] r {| rp_meta := MetadataStore.put m' o (with_embedding m v); rp_vectors := vs;
    rp_ops := rp_ops r + 1; rp_without_vector := rp_without_vector r;
    rp_max_seq := N.max (rp_max_seq r) q; rp_max_offset := N.max (rp_max_offset r) o;
    rp_replayed := true |}.
Proof.
  intros Ht -> Ho Hc Hms Hdb Hno Hns Hin Hap. split; simpl; auto; try lia.
  - by rewrite live_put, meta_of_with_embedding.
  - intros Hwf. by apply put_meta_wf, Hms.
  - eexists. split; [done|]. lia.
  - intros o'. rewrite lookup_insert_is_Some. intros [<-|[_ ?]]; [right; lia|left; auto].
  - rewrite target_active by done. by rewrite orb_true_r.
  - constructor; [|done]. rewrite Ht. intros o' q' [= <- <-]. lia.
  - intros B C HB HC' [Hop _]%Forall_cons. destruct (Hop o q Ht). lia.
Qed.

Lemma replay_op_replays la r op :
  vs_wf en (rp_vectors r) -> mapped (rp_vectors r) = true -> vec_ok la (rp_vectors r) op ->
  replays la [op] r (replay_op en la r op).
Proof.
  intros Hwf Hm Hv. pose proof (VectorStore.wf_count en _ Hwf) as Hc.
  destruct op as [o q m c|o|o|old o q m c]; cbn [replay_op vec_ok] in *.
  1,4: destruct (N.ltb_spec la q) as [Hq%N.ltb_lt|Hq%N.ltb_ge];
    [|apply replays_skip; simpl; rewrite ?Hq; auto].
  - apply N.ltb_lt in Hq as Hq'. destruct (Hv Hq') as [Ho ->].
    destruct (recover_ok (rp_vectors r) o _ Hwf Hm Ho eq_refl) as [v ->].
    rewrite bool_decide_eq_true_2 by done.
    apply replays_put; simpl; auto; by rewrite Hq.
  - apply N.ltb_lt in Hq as Hq'. destruct (Hv Hq') as [Ho ->].
    destruct (recover_ok (rp_vectors r) o _ Hwf Hm Ho eq_refl) as [v ->].
    rewrite bool_decide_eq_true_2 by done.
    destruct (remove_fields (rp_meta r) old) as (E1 & E2 & E3 & E4).
    apply replays_put; simpl; auto; rewrite ?Hq, ?live_remove, ?E1; auto.
    + apply remove_wf.
    + intros o'. rewrite lookup_delete_is_Some. naive_solver.
  - destruct (replays_nil la r Hc) as [L M D Nx V K F W X T B].
    destruct (remove_fields (rp_meta r) o) as (E1 & E2 & E3 & E4).
    split; simpl; rewrite ?live_remove, ?E1, ?E2, ?E3, ?E4; auto.
    + apply remove_wf.
    + intros o'. rewrite lookup_delete_is_Some. naive_solver.
    + by rewrite orb_true_r.
    + by constructor.
  - by apply replays_skip.
Qed.

Lemma replay_replays la m vs ops :
  vs_wf en vs -> mapped vs = true -> Forall (vec_ok la vs) ops ->
  replays la ops {| rp_meta := m; rp_vectors := vs; rp_ops := 0; rp_without_vector := 0;
    rp_max_seq := la; rp_max_offset := 0; rp_replayed := false |} (replay en la m vs ops).
Proof.
  intros Hwf Hm. unfold replay. set (r0 := {| rp_meta := m |}).
  assert (H0 : vs_wf en (rp_vectors r0) /\ mapped (rp_vectors r0) = true) by done.
  change vs with (rp_vectors r0) at 1. clearbody r0. clear Hwf Hm.
  revert r0 H0. induction ops as [|op ops IH]; intros r [Hwf Hm]; simpl.
  { intros _. apply replays_nil. by destruct Hwf. }
  intros [Hop Hops]%Forall_cons. pose proof (replay_op_replays la r op Hwf Hm Hop) as Hr.
  apply (replays_app la [op] ops _ _ _ Hr). destruct (rs_vs _ _ _ _ Hr) as (c & E & Hc).
  destruct Hwf as [W1 W2 W3 W4 W5]. apply IH; rewrite E.
  - split; [|done]. split; simpl; auto. lia.
  - eapply Forall_impl; [exact Hops|]. intros op'. by apply vec_ok_same.
Qed.

(** ** What the database file holds *)

Definition la_of (m0 : MetadataStore) : N := default 0 (last_applied_seq m0).

Context {BMo : BincodeOk MetaRecord} {BHo : BincodeOk (list N)}.

(** After a successful flush, the database reopens to the flushed records; the
    counters are the flushed ones, unless there was nothing to write. *)
Lemma flush_reopens m m0 la c m' :
  ms_wf m -> MetadataStore.open (DbOpened (db m)) = Ok m0 ->
  la < U64 -> next_offset m < U64 -> next_seq m < U64 ->
  MetadataStore.flush m la c = (m', Ok tt) ->
  exists m0', MetadataStore.open (DbOpened (db m')) = Ok m0' /\ ms_wf m' /\
    records m' = records m /\ next_offset m' = next_offset m /\ next_seq m' = next_seq m /\
    records m0' = records m /\ la_of m0' = la /\ is_fresh m0' = false /\
    ((next_offset m0' = next_offset m /\ next_seq m0' = next_seq m) \/
     (m0' = m0 /\ records m = ∅)).
Proof.
  intros Hwf Ho Hla Hno Hns Hf.
  destruct (flush_clean m la c m' Hwf Hf) as (Hwf' & E1 & E2 & E3 & Er & _ & _).
  destruct (flush_counters m la c m' Hf Hla) as [Hl Hcnt].
  destruct (open_clean m' Hwf' E1 E2 E3) as (m0' & Hop & Edb & Er' & _ & _).
  assert (Hla' : last_applied_seq m0' = Some la) by (unfold last_applied_seq in *; by rewrite Edb).
  exists m0'. apply flush_ok_inv in Hf as [[Hn ->]|(Hn & -> & db' & Hw & ->)].
  - split_and!; auto; try congruence.
    + unfold la_of. by rewrite Hla'.
    + unfold is_fresh. rewrite Hla'. simpl. by rewrite andb_false_r.
    + right. apply nothing_to_flush_true in Hn as (_ & _ & _ & _ & ?).
      change (db (set_dirty ∅ ∅ ∅ m)) with (db m) in Hop. split; [congruence|done].
  - destruct (Hcnt Hn) as [C1 C2]. split_and!; auto; try congruence.
    + unfold la_of. by rewrite Hla'.
    + unfold is_fresh. rewrite Hla'. simpl. by rewrite andb_false_r.
    + left. by eapply open_counters.
Qed.

Context {BMt : BincodeTotal MetaRecord} {BHt : BincodeTotal (list N)}.

Lemma flush_succeeds m la : exists m', MetadataStore.flush m la true = (m', Ok tt).
Proof.
  unfold MetadataStore.flush. destruct (nothing_to_flush m la); [eauto|].
  unfold write_snapshot.
  pose proof (fun c l t => write_table_total (V:=MetaRecord) b_serialize c l t b_total) as H1.
  pose proof (fun c l t => write_table_total (V:=list N) b_serialize c l t b_total) as H2.
  pose proof (fun c l t => write_table_total (V:=f32) Some c l t (fun v => ex_intro _ v eq_refl)) as H3.
  specialize (H1 (records (set_dirty ∅ ∅ ∅ m)) (elements (dirty m)) (t_records (db (set_dirty ∅ ∅ ∅ m)))).
  specialize (H2 (access_history (set_dirty ∅ ∅ ∅ m)) (elements (access_history_dirty m))
    (t_access_history (db (set_dirty ∅ ∅ ∅ m)))).
  specialize (H3 (demotion (set_dirty ∅ ∅ ∅ m)) (elements (demotion_dirty m))
    (t_demotion (db (set_dirty ∅ ∅ ∅ m)))).
  destruct (write_table b_serialize (records _) _ _); [simpl|done].
  destruct (write_table Some _ _ _); [simpl|done].
  destruct (write_table b_serialize (access_history _) _ _); [simpl|done]. eauto.
Qed.

(** ** The invariant of the three files *)

Definition id_of_dur (d : Dur) : string := d.1.1.1.1.1.1.1.

(** Where the offset of a live record comes from: the database, or an operation of
    the log. *)
Definition src (m0 : MetadataStore) (ops : list WalOp) (o : N) : Prop :=
  o < next_offset m0 \/ exists op q, op ∈ ops /\ op_target (la_of m0) op = Some (o, q).

Lemma src_app m0 ops ops' o : src m0 ops o -> src m0 (ops ++ ops') o.
Proof. unfold src. intros [|(op & q & ? & ?)]; [by left|right]. exists op, q. set_solver. Qed.

Lemma live_source la R ops o :
  is_Some (foldl (apply_dur la) R ops !! o) ->
  is_Some (R !! o) \/ exists op q, op ∈ ops /\ op_target la op = Some (o, q).
Proof.
  revert R. induction ops as [|op ops IH]; intros R; simpl; [by left|].
  intros [Ho|(op' & q & Hin & Ht)]%IH; [|right; exists op', q; set_solver].
  destruct op as [o' q m' c|o'|o'|old o' q m' c]; simpl in *.
  - destruct (la <? q) eqn:E; [|by left]. apply lookup_insert_is_Some in Ho as [->|[_ ?]]; [|by left].
    right. exists (WInsert o q m' c), q. simpl. rewrite E. set_solver.
  - apply lookup_delete_is_Some in Ho as [_ ?]. by left.
  - by left.
  - destruct (la <? q) eqn:E; [|by left].
    apply lookup_insert_is_Some in Ho as [->|[_ [_ ?]%lookup_delete_is_Some]]; [|by left].
    right. exists (WReplace old o q m' c), q. simpl. rewrite E. set_solver.
Qed.

(** The metadata store [m], the vector store and the log of a running engine, the
    operations [ops] in the log, the state [m0] the database would open to, and the
    vector count [hc] stamped in the file. *)
Record core_ok (m : MetadataStore) (vs : VectorStore.Inner) (ops : list WalOp)
    (m0 : MetadataStore) (hc : N) : Prop := {
  co_ms : ms_wf m;
  co_vs : vs_wf en vs;
  co_open : MetadataStore.open (DbOpened (db m)) = Ok m0;
  (** the log takes the database to the live records *)
  co_live : foldl (apply_dur (la_of m0)) (live m0) ops = live m;
  co_base : forall o, is_Some (live m0 !! o) -> o < next_offset m0 /\ o < hc;
  co_offset : next_offset m0 <= next_offset m < U64;
  co_seq : la_of m0 < next_seq m0 /\ next_seq m0 <= next_seq m < U64;
  co_header : header_ok en (bytes vs) (dim vs) hc /\ hc <= vcount vs;
  co_vec : Forall (vec_ok (la_of m0) vs) ops;
  co_target : Forall (fun op => forall o q, op_target (la_of m0) op = Some (o, q) ->
                o < next_offset m /\ q < next_seq m) ops;
  co_deleted : forall o, WDelete o ∈ ops -> src m0 ops o /\ live m !! o = None;
  co_cur : forall o, is_Some (live m !! o) -> o < next_offset m /\ o < vcount vs;
  co_unique : forall o1 o2 d1 d2, live m !! o1 = Some d1 -> live m !! o2 = Some d2 ->
                id_of_dur d1 = id_of_dur d2 -> o1 = o2;
}.

(** *** Steps of a write *)

Lemma core_alloc m vs ops m0 hc o q :
  core_ok m vs ops m0 hc -> next_offset m <= o < U64 -> next_seq m <= q < U64 ->
  core_ok (set_counters o q m) vs ops m0 hc.
Proof.
  intros [A1 A2 A3 A4 A5 A6 A7 A8 A9 A10 A11 A12 A13] Ho Hq.
  assert (El : live (set_counters o q m) = live m) by done.
  split; cbn [set_counters db next_offset next_seq]; rewrite ?El; auto; try lia.
  - by apply set_counters_wf.
  - eapply Forall_impl; [exact A10|]. intros op Hop o' q' Ht. destruct (Hop o' q' Ht). lia.
  - intros o' Ho'. destruct (A12 o' Ho'). lia.
Qed.

Lemma core_live_src m vs ops m0 hc o :
  core_ok m vs ops m0 hc -> is_Some (live m !! o) -> src m0 ops o.
Proof.
  intros Hc. rewrite <- (co_live _ _ _ _ _ Hc). intros [H|H]%live_source; [|by right].
  left. by apply (co_base _ _ _ _ _ Hc).
Qed.

Lemma core_src_bound m vs ops m0 hc o : core_ok m vs ops m0 hc -> src m0 ops o -> o < next_offset m.
Proof.
  intros Hc [H|(op & q & Hin & Ht)]; [pose proof (co_offset _ _ _ _ _ Hc); lia|].
  pose proof (proj1 (Forall_forall _ _) (co_target _ _ _ _ _ Hc) op Hin). naive_solver.
Qed.

(** Writing vectors to slots no active operation refers to. *)
Lemma core_vectors X m vs vs' ops m0 hc :
  core_ok m vs ops m0 hc -> vs_le en X vs vs' ->
  (forall op o q, op ∈ ops -> op_target (la_of m0) op = Some (o, q) -> ~ X o) ->
  exists hc', core_ok m vs' ops m0 hc'.
Proof.
  intros [A1 A2 A3 A4 A5 A6 A7 A8 A9 A10 A11 A12 A13] [W D S C Hh L] HX.
  destruct A8 as [A8 A8']. destruct (Hh hc A8 A8') as (hc' & Hhc' & Hle). exists hc'.
  split; auto.
  - intros o Ho. destruct (A5 o Ho). lia.
  - rewrite D. split; [done|lia].
  - apply Forall_forall. intros op Hop. pose proof (proj1 (Forall_forall _ _) A9 op Hop) as Hv.
    specialize (HX op). destruct op as [o q m' c|o|o|old o q m' c]; simpl in *; try done;
      intros Hq; destruct (Hv Hq) as [Ho ->];
      rewrite (proj2 (N.ltb_lt _ _)) in HX by done;
      (rewrite (L o); [|by eapply HX|done]); (split; [lia|done]).
  - intros o Ho. destruct (A12 o Ho). lia.
Qed.

(** Logging operations and applying them. *)
Lemma core_append m m' vs ops ops' m0 hc :
  core_ok m vs ops m0 hc -> ms_wf m' -> db m' = db m ->
  next_offset m' = next_offset m -> next_seq m' = next_seq m ->
  live m' = foldl (apply_dur (la_of m0)) (live m) ops' ->
  Forall (vec_ok (la_of m0) vs) ops' ->
  Forall (fun op => forall o q, op_target (la_of m0) op = Some (o, q) ->
            o < next_offset m /\ q < next_seq m) ops' ->
  (forall o, WDelete o ∈ ops' -> src m0 (ops ++ ops') o) ->
  (forall o, WDelete o ∈ ops ++ ops' -> live m' !! o = None) ->
  (forall o, is_Some (live m' !! o) -> o < next_offset m /\ o < vcount vs) ->
  (forall o1 o2 d1 d2, live m' !! o1 = Some d1 -> live m' !! o2 = Some d2 ->
     id_of_dur d1 = id_of_dur d2 -> o1 = o2) ->
  core_ok m' vs (ops ++ ops') m0 hc.
Proof.
  intros [A1 A2 A3 A4 A5 A6 A7 A8 A9 A10 A11 A12 A13] Hm Ed Eo Eq El Hv Ht Hd Hdel Hcur Hu.
  split; rewrite ?Ed, ?Eo, ?Eq; auto.
  - by rewrite foldl_app, A4.
  - by apply Forall_app.
  - by apply Forall_app.
  - intros o Ho. split; [|by apply Hdel]. apply elem_of_app in Ho as [Ho|Ho]; [by apply src_app, A11|auto].
Qed.

(** *** Checkpoints *)

(** Every operation in the log is at most [la] or a deletion that has happened:
    replaying it over the live records changes nothing. *)
Lemma replay_idempotent la R ops :
  (forall op, op ∈ ops -> op_target la op = None) ->
  (forall o, WDelete o ∈ ops -> R !! o = None) ->
  foldl (apply_dur la) R ops = R.
Proof.
  revert R. induction ops as [|op ops IH]; intros R Ht Hd; simpl; [done|].
  assert (E : apply_dur la R op = R).
  { specialize (Ht op ltac:(set_solver)). destruct op as [o q m' c|o|o|old o q m' c]; simpl in *.
    - by destruct (la <? q).
    - apply delete_id, Hd. set_solver.
    - done.
    - by destruct (la <? q). }
  rewrite E. apply IH; [|]; intros; [apply Ht|apply Hd]; set_solver.
Qed.

Lemma op_target_mono la la' op : la <= la' -> op_target la op = None -> op_target la' op = None.
Proof.
  intros Hle. destruct op; simpl; try done;
    destruct (N.ltb_spec la seq), (N.ltb_spec la' seq); try done; lia.
Qed.

Lemma op_target_none la op : (forall o q, op_target la op = Some (o, q) -> q <= la) -> op_target la op = None.
Proof.
  intros H. destruct (op_target la op) as [[o q]|] eqn:E; [|done]. specialize (H o q eq_refl).
  destruct op; simpl in *; try done; destruct (N.ltb_spec la seq); naive_solver lia.
Qed.

(** The metadata snapshot: the log becomes redundant, whether or not it is then
    cleared. *)
Lemma core_flush m vs ops m0 hc la c m' :
  core_ok m vs ops m0 hc -> MetadataStore.flush m la c = (m', Ok tt) ->
  la_of m0 <= la < next_seq m ->
  (forall op o q, op ∈ ops -> op_target (la_of m0) op = Some (o, q) -> q <= la) ->
  hc = vcount vs ->
  exists m0', core_ok m' vs ops m0' hc /\ core_ok m' vs [] m0' hc /\
    live m' = live m /\ next_offset m' = next_offset m /\ next_seq m' = next_seq m /\
    is_fresh m0' = false.
Proof.
  intros Hco Hf Hla Hops ->. pose proof Hco as [A1 A2 A3 A4 A5 A6 A7 A8 A9 A10 A11 A12 A13].
  destruct (flush_reopens m m0 la c m' A1 A3 ltac:(lia) ltac:(lia) ltac:(lia) Hf)
    as (m0' & Ho & Hwf & Er & Eo & Eq & Er0 & Ela & Hfr & Hcnt).
  assert (El : live m' = live m) by (unfold live; congruence).
  assert (El0 : live m0' = live m) by (unfold live; congruence).
  assert (Hnone : forall op, op ∈ ops -> op_target la op = None).
  { intros op Hop. destruct (op_target (la_of m0) op) as [[o q]|] eqn:E.
    - pose proof (Hops op o q Hop E). apply op_target_none. intros o' q' E'.
      destruct op; simpl in *; try done; repeat case_match; naive_solver.
    - eapply op_target_mono; [|exact E]. lia. }
  assert (Hoff : (next_offset m0' <= next_offset m < U64) /\
                 (la < next_seq m0' /\ next_seq m0' <= next_seq m < U64) /\
                 (forall o, is_Some (live m !! o) -> o < next_offset m0' /\ o < vcount vs) /\
                 (forall o, src m0 ops o -> src m0' ops o)).
  { destruct Hcnt as [[C1 C2]|[-> Hemp]].
    - rewrite C1, C2. split_and!; try lia; intros o Hs; [by apply A12|].
      left. rewrite C1. by eapply core_src_bound.
    - rewrite <- Ela in *. split_and!; try lia; [|done]. intros o Hs. rewrite <- El0 in Hs.
      apply live_is_Some in Hs. rewrite Er0, Hemp, lookup_empty in Hs. by apply is_Some_None in Hs. }
  destruct Hoff as (H1 & H2 & H3 & H4). exists m0'.
  assert (Hdel : forall o, WDelete o ∈ ops -> live m !! o = None) by (intros o Hd; by apply A11).
  split_and!; auto.
  - split; rewrite ?El, ?El0, ?Ela, ?Eo, ?Eq; auto.
    + by apply replay_idempotent.
    + apply Forall_forall. intros op Hop. specialize (Hnone op Hop).
      destruct op; simpl in *; try done; intros Hq; by rewrite (proj2 (N.ltb_lt _ _)) in Hnone.
    + apply Forall_forall. intros op Hop o q. by rewrite Hnone.
    + intros o Hd. destruct (A11 o Hd). auto.
  - split; rewrite ?El, ?El0, ?Ela, ?Eo, ?Eq; auto; try done.
    intros o Ho'. set_solver.
Qed.

(** Stamping the vector count, whether or not the sync succeeds. *)
Lemma core_vs_flush sync m vs ops m0 hc :
  core_ok m vs ops m0 hc -> mapped vs = true ->
  exists vs', VectorStore.flush en sync vs = (vs', if sync then Ok tt else Err Io) /\ core_ok m vs' ops m0 (vcount vs') /\
    mapped vs' = true /\ dim vs' = dim vs /\ slots vs' = slots vs /\ vcount vs' = vcount vs /\
    (forall o, o < slots vs -> VectorStore.slot vs' o = VectorStore.slot vs o).
Proof.
  intros [A1 A2 A3 A4 A5 A6 A7 A8 A9 A10 A11 A12 A13] Hm.
  destruct (flush_ok en sync vs A2 Hm) as (vs' & Hf & W & M & D & C & S & Hh & L).
  exists vs'. split_and!; auto. split; auto.
  - intros o Ho. destruct (A5 o Ho). split; [done|]. rewrite C. lia.
  - rewrite D, C. split; [done|lia].
  - eapply Forall_impl; [exact A9|]. intros op Hv.
    destruct op; simpl in *; try done; intros Hq; destruct (Hv Hq) as [? ->];
      rewrite L, S by done; done.
  - intros o Ho. rewrite C. by apply A12.
Qed.

(** ** Recovery *)

Context {BWo : BincodeOk WalOp} {BWt : BincodeTagged WalOp}.

(** A log file that opens, reads back [ops], and holds exactly [ops] once its
    unreadable tail is cut. *)
Definition wal_disk (f : list byte) (ops : list WalOp) : Prop :=
  exists w it, Wal.open en (Some f) = Ok w /\ needs_upgrade w = false /\
    read_all w = (ops, it) /\
    wal_rep en (if 0 <? discarded_bytes it then truncate_to w (valid_end it) else w) ops.

Lemma wal_disk_torn w ops ops' buf k :
  wal_rep en w ops -> write_ops [] ops' = Ok buf ->
  exists ops1 ops2, ops' = ops1 ++ ops2 /\ wal_disk (file w ++ take k buf) (ops ++ ops1).
Proof.
  intros Hw Hb. destruct (wal_cut en w ops ops' buf k Hw Hb)
    as (ops1 & ops2 & w1 & it & E & Ho & Hv & Hr & Hrep).
  exists ops1, ops2. split; [done|]. exists w1, it. split_and!; auto.
  unfold needs_upgrade. by rewrite Hv.
Qed.

Lemma wal_disk_rep w ops : wal_rep en w ops -> wal_disk (file w) ops.
Proof.
  intros Hw. destruct (wal_disk_torn w ops [] [] 0 Hw eq_refl) as (ops1 & ops2 & E & Hd).
  symmetry in E. apply app_nil in E as [-> ->]. by rewrite !app_nil_r in Hd.
Qed.

Lemma open_db d m0 : MetadataStore.open (DbOpened d) = Ok m0 -> db m0 = d.
Proof.
  unfold MetadataStore.open. destruct (load_records d); [simpl|done].
  destruct (load_access_history d); [simpl|done]. by intros [= <-].
Qed.

Lemma wadd64_one a : a < u64_max -> wadd64 a 1 = a + 1.
Proof. apply wadd64_small. Qed.

(** The stores right after the replay loop, before the checkpoint. *)
Lemma core_replayed m vs vs0 ops m0 hc :
  core_ok m vs ops m0 hc ->
  vs_wf en vs0 -> mapped vs0 = true -> bytes vs0 = bytes vs -> dim vs0 = dim vs ->
  slots vs <= slots vs0 -> vcount vs0 = hc ->
  let r := replay en (la_of m0) m0 vs0 ops in
  let m1 := advance_seq_past (advance_offset_past (rp_meta r) (rp_max_offset r)) (rp_max_seq r) in
  replays (la_of m0) ops {| rp_meta := m0; rp_vectors := vs0; rp_ops := 0; rp_without_vector := 0;
    rp_max_seq := la_of m0; rp_max_offset := 0; rp_replayed := false |} r /\
  core_ok m1 (rp_vectors r) ops m0 hc /\ live m1 = live m /\
  la_of m0 <= rp_max_seq r < next_seq m1.
Proof.
  intros Hco Hwf0 Hm0 Hb Hd Hsl Hcnt r m1.
  pose proof Hco as [A1 A2 A3 A4 A5 A6 A7 A8 A9 A10 A11 A12 A13].
  assert (Hvec : Forall (vec_ok (la_of m0) vs0) ops).
  { eapply Forall_impl; [exact A9|]. intros op. by apply vec_ok_same. }
  pose proof (replay_replays (la_of m0) m0 vs0 ops Hwf0 Hm0 Hvec) as Hrep. fold r in Hrep.
  split; [exact Hrep|]. destruct Hrep as [L M D [No Nq] (c & V & C) K F W X T B].
  cbn [rp_meta rp_vectors rp_max_seq rp_max_offset] in *.
  destruct (B (N.max 1 (next_offset m)) (next_seq m)) as [B1 B2]; [lia|lia|..].
  { eapply Forall_impl; [exact A10|]. intros op Hop o q Ht. destruct (Hop o q Ht). lia. }
  assert (E1 : next_offset m1 = N.max (next_offset m0) (rp_max_offset r + 1)).
  { unfold m1. cbn. rewrite No, wadd64_one by (unfold u64_max, U64 in *; lia). done. }
  assert (E2 : next_seq m1 = N.max (next_seq m0) (rp_max_seq r + 1)).
  { unfold m1. cbn. rewrite Nq, wadd64_one by (unfold u64_max; lia). done. }
  assert (El : live m1 = live m) by (change (live m1) with (live (rp_meta r)); congruence).
  assert (Edb : db m1 = db m).
  { change (db m1) with (db (rp_meta r)). rewrite D. by eapply open_db. }
  assert (Hcl : c <= slots vs0 /\ hc <= c) by lia.
  assert (Hwf1 : vs_wf en (rp_vectors r)).
  { rewrite V. destruct Hwf0 as [W1 W2 W3 W4 W5]. split; cbn; auto. lia. }
  split; [|split; [done|lia]].
  split; rewrite ?Edb, ?El, ?E1, ?E2; auto; try (unfold U64 in *; lia).
  - unfold m1. apply set_counters_wf, set_counters_wf, M. by eapply open_ms_wf.
  - rewrite V. cbn. rewrite Hb, Hd. split; [apply A8|lia].
  - eapply Forall_impl; [exact Hvec|]. intros op. rewrite V. by apply vec_ok_same.
  - eapply Forall_impl; [exact T|]. intros op Hop o q Ht. destruct (Hop o q Ht). lia.
  - intros o Ho. split.
    + destruct (core_live_src _ _ _ _ _ _ Hco Ho) as [|(op & q & Hin & Ht)]; [lia|].
      destruct (proj1 (Forall_forall _ _) T op Hin o q Ht). lia.
    + rewrite <- El in Ho. apply live_is_Some in Ho. destruct (K o Ho) as [Ho0|]; [|done].
      apply live_is_Some in Ho0. destruct (A5 o Ho0). rewrite V. cbn. lia.
Qed.

Lemma inactive_ops la ops :
  existsb (active la) ops = false ->
  (forall op, op ∈ ops -> op_target la op = None) /\ (forall o, WDelete o ∉ ops).
Proof.
  intros Hf. assert (Ha : forall op, op ∈ ops -> active la op = false).
  { intros op Hop. apply not_true_iff_false. intros Ht.
    apply not_true_iff_false in Hf. apply Hf, existsb_exists. exists op.
    by rewrite <- list_elem_of_In. }
  split.
  - intros op Hop. specialize (Ha op Hop). destruct (op_target la op) eqn:E; [|done].
    rewrite target_active in Ha; [done|]. by rewrite E.
  - intros o Ho. by specialize (Ha _ Ho).
Qed.

Lemma replay_inactive la m vs ops :
  existsb (active la) ops = false ->
  replay en la m vs ops = {| rp_meta := m; rp_vectors := vs; rp_ops := 0; rp_without_vector := 0;
    rp_max_seq := la; rp_max_offset := 0; rp_replayed := false |}.
Proof.
  intros [Ht Hd]%inactive_ops. unfold replay. set (r0 := {| rp_meta := m |}). clearbody r0.
  revert Ht Hd. induction ops as [|op ops IH]; intros Ht Hd; simpl; [done|].
  assert (E : replay_op en la r0 op = r0).
  { specialize (Ht op ltac:(set_solver)). destruct op as [o q m' c|o|o|old o q m' c]; simpl in *;
      try (by destruct (la <? q)); [|done]. exfalso. apply (Hd o). set_solver. }
  rewrite E. apply IH.
  - intros op' ?. apply Ht. set_solver.
  - intros o ?. apply (Hd o). set_solver.
Qed.

(** A database that was never written and a log without effect leave nothing to
    check the vector file against: then it must not count any vector. *)
Definition guard (ops : list WalOp) (m0 : MetadataStore) (hc : N) : Prop :=
  is_fresh m0 = true -> existsb (active (la_of m0)) ops = false -> hc = 0.

Lemma max_of_elem l o : max_of l = Some o -> o ∈ l.
Proof.
  unfold max_of. destruct l as [|x l]; [done|]. intros [= <-].
  induction l as [|y l IH]; simpl; [set_solver|].
  destruct (N.max_spec y (foldr N.max x l)) as [[_ ->]|[_ ->]]; set_solver.
Qed.

Lemma live_check m vs ops m0 hc :
  core_ok m vs ops m0 hc ->
  match max_live_offset m with Some o => vcount vs <=? o | None => false end = false.
Proof.
  intros Hco. destruct (max_live_offset m) as [o|] eqn:E; [|done]. apply N.leb_gt.
  apply (co_cur _ _ _ _ _ Hco), live_is_Some.
  apply max_of_elem, list_elem_of_fmap in E as ([o' r] & -> & Hin).
  apply elem_of_map_to_list in Hin. simpl. eauto.
Qed.

(** *** The log file *)

(** The log after [clear]. *)
Lemma wal_rep_clear w : wal_rep en (Wal.clear en w) [].
Proof. split; [done|]. split; [done|]. exists []. split; [done|]. by rewrite app_nil_r. Qed.

(** A short file opens as an empty log. *)
Lemma open_short f : len f < WAL_HEADER_SIZE ->
  Wal.open en (Some f) = Ok (Wal.clear en {| Wal.file := f; Wal.pos := 0; Wal.version := WAL_VERSION |}).
Proof. intros Hl. unfold Wal.open. cbn [from_option Datatypes.id]. by rewrite (proj2 (N.ltb_lt _ _)). Qed.
Lemma open_cleared w : Wal.open en (Some (Wal.header_bytes en WAL_VERSION)) = Ok (Wal.clear en w).
Proof.
  pose proof (open_header en WAL_VERSION [] ltac:(by left)) as Hop. rewrite app_nil_r in Hop. by rewrite Hop.
Qed.
Lemma wal_disk_short f : len f < WAL_HEADER_SIZE -> wal_disk f [].
Proof.
  intros Hl. set (w0 := {| Wal.file := f; Wal.pos := 0; Wal.version := WAL_VERSION |}).
  destruct (wal_disk_rep _ _ (wal_rep_clear w0)) as (w & it & Ho & Hu & Hr & Hrep).
  exists w, it. split_and!; auto. rewrite open_short by done. rewrite <- Ho.
  change (Wal.file (Wal.clear en w0)) with (Wal.header_bytes en WAL_VERSION). by rewrite (open_cleared w0).
Qed.
Lemma wal_disk_header k : wal_disk (take k (Wal.header_bytes en WAL_VERSION)) [].
Proof.
  pose proof (wal_rep_clear {| Wal.file := []; Wal.pos := 0; Wal.version := WAL_VERSION |}) as Hc.
  destruct (decide (8 <= k)%nat) as [Hk|Hk].
  { rewrite take_ge by (rewrite length_header_bytes; lia). by apply (wal_disk_rep _ _ Hc). }
  apply wal_disk_short. unfold len, WAL_HEADER_SIZE. rewrite length_take, length_header_bytes. lia.
Qed.
Lemma wal_disk_ops f ops ops' : wal_disk f ops -> wal_disk f ops' -> ops = ops'.
Proof. intros (w1 & it1 & O1 & _ & R1 & _) (w2 & it2 & O2 & _ & R2 & _). congruence. Qed.

(** However [clear] ends, the file is as before or an empty log. *)
Lemma clear_io_disk w ops io w' r :
  wal_disk (file w) ops -> clear_io en w io = (w', r) ->
  (wal_disk (file w') ops /\ io <> ClearOk \/ wal_disk (file w') []) /\
  (r = Ok tt -> wal_rep en w' []) /\ (io = ClearOk -> r = Ok tt).
Proof.
  intros Hw. pose proof (wal_disk_rep _ _ (wal_rep_clear w)) as Hc.
  destruct io as [| |k|]; cbn [clear_io]; intros [= <- <-]; (split; [|split; [try done|done]]).
  - right. exact Hc.
  - intros _. apply wal_rep_clear.
  - by left.
  - right. apply wal_disk_header.
  - right. exact Hc.
Qed.

(** Opening the log: the operations stay in the file. *)
Lemma open_log_disk io d f ops d' r :
  d_wal d = Some f -> wal_disk f ops -> open_log en io d = (d', r) ->
  exists f', d' = set_d_wal (Some f') d /\ wal_disk f' ops /\
    match r with
    | Ok w => f' = file w /\ needs_upgrade w = false /\
              exists it, read_all w = (ops, it) /\
                wal_rep en (if 0 <? discarded_bytes it then truncate_to w (valid_end it) else w) ops
    | Err _ => io <> ClearOk
    end.
Proof.
  intros Ef Hw. unfold open_log. rewrite Ef. cbn [from_option Datatypes.id].
  destruct (N.ltb_spec (len f) WAL_HEADER_SIZE) as [Hl|Hl].
  - pose proof (wal_disk_ops _ _ _ Hw (wal_disk_short f Hl)) as ->.
    set (w0 := {| Wal.file := f; Wal.pos := 0; Wal.version := WAL_VERSION |}).
    destruct (clear_io en w0 io) as [w r0] eqn:Hc. intros [= <- <-]. exists (file w). split; [done|].
    assert (Hok : wal_disk (file w) [] /\ (r0 = Ok tt -> w = Wal.clear en w0) /\ (io = ClearOk -> r0 = Ok tt)).
    { destruct (clear_io_disk w0 [] io w r0 Hw Hc) as ([[H _]|H] & _ & H2); (split; [exact H|split; [|exact H2]]);
        intros ->; destruct io; by injection Hc as <-. }
    destruct Hok as (H1 & H2 & H3). split; [exact H1|]. destruct r0 as [[]|er]; [|intros ->; by specialize (H3 eq_refl)].
    rewrite (H2 eq_refl) in *. destruct Hw as (w1 & it & Ho & Hu & Hr & Hrep). rewrite open_short in Ho by done.
    injection Ho as <-. split_and!; eauto.
  - intros [= <- <-]. exists f. split; [destruct d; simpl in *; by subst|]. split; [done|].
    destruct Hw as (w & it & Ho & Hu & Hr & Hrep). rewrite Ho.
    assert (Ew : file w = f).
    { unfold Wal.open in Ho. cbn [from_option Datatypes.id] in Ho. rewrite (proj2 (N.ltb_ge _ _)) in Ho by done.
      destruct (negb _); [done|]. destruct (_ && _); [done|]. by injection Ho as <-. }
    split_and!; eauto.
Qed.
Lemma cut_tail_disk w it ops io w' r :
  wal_disk (file w) ops ->
  wal_rep en (if 0 <? discarded_bytes it then truncate_to w (valid_end it) else w) ops ->
  cut_tail w it io = (w', r) ->
  wal_disk (file w') ops /\ Wal.version w' = Wal.version w /\ (r = Ok tt -> wal_rep en w' ops) /\ (io = CutOk -> r = Ok tt).
Proof.
  intros Hw Hrep. unfold cut_tail. destruct (0 <? _); [|intros [= <- <-]; by split_and!].
  pose proof (wal_disk_rep _ _ Hrep) as Hd. destruct io; intros [= <- <-]; by split_and!.
Qed.

(** *** The files *)

(** The files of [d] are those of the metadata store [m], the vectors [vs] and the
    operations [ops]. *)
Record disk_core (c : StoreConfig) (d : Disk) (m : MetadataStore) (vs : VectorStore.Inner)
    (ops : list WalOp) (m0 : MetadataStore) (hc : N) : Prop := {
  dc_core : core_ok m vs ops m0 hc;
  dc_dim : dim vs = dimension_of c;
  dc_db : d_db d = DbOpened (db m);
  dc_vectors : d_vectors d = Some (bytes vs);
  dc_wal : exists f, d_wal d = Some f /\ wal_disk f ops;
}.

(** The files still hold the records of [m] and the vectors of [vs]; a store that passes
    the check against an empty database still does. *)
Definition disk_kept (c : StoreConfig) (d : Disk) (m : MetadataStore) (vs : VectorStore.Inner)
    (ops : list WalOp) (m0 : MetadataStore) (hc : N) : Prop :=
  exists m' vs' ops' m0' hc', disk_core c d m' vs' ops' m0' hc' /\ live m' = live m /\
    (forall o, o < slots vs -> VectorStore.slot vs' o = VectorStore.slot vs o) /\
    (guard ops m0 hc -> guard ops' m0' hc').

Lemma disk_kept_refl c d m vs ops m0 hc : disk_core c d m vs ops m0 hc -> disk_kept c d m vs ops m0 hc.
Proof. intros H. by exists m, vs, ops, m0, hc. Qed.

Lemma disk_core_wal c d m vs ops ops' m0 hc f :
  disk_core c d m vs ops m0 hc -> wal_disk f ops' -> core_ok m vs ops' m0 hc ->
  disk_core c (set_d_wal (Some f) d) m vs ops' m0 hc.
Proof. intros [_ H2 H3 H4 _] Hw Hc. split; auto. by exists f. Qed.

(** The checkpoint after a replay that applied something: wherever it stops, the files
    hold the same records. *)
Lemma checkpoint_kept c d m vs vs0 ops m0 hc w io d' r :
  disk_core c d m vs ops m0 hc -> wal_rep en w ops -> file w = default [] (d_wal d) ->
  vs_wf en vs0 -> mapped vs0 = true -> bytes vs0 = bytes vs -> dim vs0 = dim vs ->
  slots vs <= slots vs0 -> vcount vs0 = hc -> existsb (active (la_of m0)) ops = true ->
  checkpoint en (replay en (la_of m0) m0 vs0 ops) w io d = (d', r) ->
  disk_kept c d' m vs ops m0 hc /\
  match r with
  | Ok (m1, vs1, w1) => exists m0' hc', core_ok m1 vs1 [] m0' hc' /\ wal_rep en w1 [] /\ live m1 = live m /\
      dim vs1 = dim vs /\ mapped vs1 = true /\
      (forall o, o < slots vs -> VectorStore.slot vs1 o = VectorStore.slot vs o)
  | Err _ => io <> open_ok
  end.
Proof.
  intros Hdc Hw Ef Hwf0 Hm0 Hb Hd Hsl Hcnt Hact. pose proof Hdc as [Hco Hdim Hdb Hdv Hdw].
  destruct (core_replayed m vs vs0 ops m0 hc Hco Hwf0 Hm0 Hb Hd Hsl Hcnt) as (Hr & Hc1 & El & Hseq).
  set (r0 := replay en (la_of m0) m0 vs0 ops) in *.
  assert (Hrp : rp_replayed r0 = true) by (rewrite (rs_flag _ _ _ _ Hr), Hact; done).
  unfold checkpoint. rewrite Hrp. cbn [orb]. set (m1 := advance_seq_past _ _) in *.
  destruct (rs_vs _ _ _ _ Hr) as (cc & V & _). cbn [rp_vectors] in V.
  destruct (core_vs_flush (o_vectors io) _ _ _ _ _ Hc1) as (vs1 & Hf & Hc2 & Hm1 & D1 & S1 & C1 & L1);
    [by rewrite V|].
  assert (Edim : dim vs1 = dim vs) by (rewrite D1, V; done).
  assert (Eslot : forall o, o < slots vs -> VectorStore.slot vs1 o = VectorStore.slot vs o).
  { intros o Ho. rewrite L1 by (rewrite V; simpl; lia). unfold VectorStore.slot, slot_start. by rewrite V; cbn; rewrite Hb, Hd. }
  assert (Edb : db m1 = db m).
  { change (db m1) with (db (rp_meta r0)). rewrite (rs_db _ _ _ _ Hr). cbn [rp_meta].
    apply (open_db _ _ (co_open _ _ _ _ _ Hco)). }
  assert (Hng : forall hc', guard ops m0 hc') by (intros hc' _ Ha; congruence).
  unfold st_bind at 1, wrote. rewrite Hf. cbn [fst snd].
  set (d1 := put_vectors vs1 d).
  assert (Hdc1 : disk_core c d1 m1 vs1 ops m0 (vcount vs1)).
  { split; [exact Hc2|congruence|by rewrite Edb|done|exact Hdw]. }
  assert (Hk1 : disk_kept c d1 m vs ops m0 hc) by (exists m1, vs1, ops, m0, (vcount vs1); by split_and!).
  destruct (o_vectors io) eqn:Ev; [|intros [= <- <-]; split; [done|]; intros ->; done].
  unfold st_bind at 1. destruct (MetadataStore.flush m1 _ _) as [m2 r2] eqn:Hm2. cbn [fst snd].
  destruct r2 as [[]|er].
  2: { intros [= <- <-]. split.
    - apply flush_err in Hm2 as Hm2'. assert (Edb2 : db m2 = db m1) by (by rewrite Hm2').
      exists m1, vs1, ops, m0, (vcount vs1). split_and!; auto. split; [exact Hc2|congruence| |done|exact Hdw].
      change (DbOpened (db m2) = DbOpened (db m1)). by rewrite Edb2.
    - intros ->. destruct (flush_succeeds m1 (rp_max_seq r0)) as [m3 Hm3]. change (o_commit open_ok) with true in Hm2. congruence. }
  destruct (core_flush _ _ _ _ _ _ _ _ Hc2 Hm2 Hseq) as (m0' & Hc3 & Hc4 & El3 & _ & _ & Hfr); [|done|].
  { intros op o q Hin Ht. pose proof (proj1 (Forall_forall _ _) (rs_target _ _ _ _ Hr) op Hin). naive_solver. }
  assert (Hng' : forall ops' hc', guard ops' m0' hc') by (intros ops' hc' Hfr'; congruence).
  set (d2 := put_db m2 d1).
  assert (Hdc2 : disk_core c d2 m2 vs1 ops m0' (vcount vs1)).
  { split; [exact Hc3|congruence|done|done|exact Hdw]. }
  assert (Hk2 : disk_kept c d2 m vs ops m0 hc).
  { exists m2, vs1, ops, m0', (vcount vs1). split_and!; auto. congruence. }
  unfold st_bind at 1. destruct (o_sync io) eqn:Es; [|intros [= <- <-]; split; [done|]; intros ->; done].
  unfold st_ret at 1. unfold st_bind. destruct (clear_io en w (o_clear io)) as [w1 r3] eqn:Hcl. cbn [fst snd].
  destruct (clear_io_disk w ops _ _ _ (wal_disk_rep _ _ Hw) Hcl) as (Hd3 & Hw3 & Hok).
  assert (Hk3 : disk_kept c (put_wal w1 d2) m vs ops m0 hc).
  { destruct Hd3 as [[Hd3 _]|Hd3].
    - exists m2, vs1, ops, m0', (vcount vs1). split_and!; auto; [|congruence]. by eapply disk_core_wal.
    - exists m2, vs1, [], m0', (vcount vs1). split_and!; auto; [|congruence]. by eapply disk_core_wal. }
  destruct r3 as [[]|er]; intros [= <- <-]; (split; [exact Hk3|]).
  - exists m0', (vcount vs1). split_and!; auto. congruence.
  - intros ->. by specialize (Hok eq_refl).
Qed.

(** Opening the files of a killed process. Wherever it stops, the files it leaves hold the
    same records. When it returns, the recovered stores satisfy the invariant again, with
    the same live records and untouched slots; with no system call failing, it returns,
    but for a database that holds no record next to a vector file that counts some. *)
Lemma recover_core c d m vs ops m0 hc io d' r :
  disk_core c d m vs ops m0 hc -> recover en c io d = (d', r) ->
  disk_kept c d' m vs ops m0 hc /\
  match r with
  | Ok rc => exists ops' m0' hc', core_ok (rc_meta rc) (rc_vectors rc) ops' m0' hc' /\
      wal_rep en (rc_wal rc) ops' /\ live (rc_meta rc) = live m /\
      dim (rc_vectors rc) = dim vs /\ mapped (rc_vectors rc) = true /\
      (forall o, o < slots vs -> VectorStore.slot (rc_vectors rc) o = VectorStore.slot vs o)
  | Err er => io = open_ok -> er = orphaned /\ live m = ∅ /\ ~ guard ops m0 hc
  end.
Proof.
  intros Hdc. pose proof Hdc as [Hco Hdim Hdb Hdv (f & Hf & Hw)].
  assert (Hk0 := disk_kept_refl _ _ _ _ _ _ _ Hdc).
  unfold recover. unfold st_bind at 1. rewrite Hdb, (co_open _ _ _ _ _ Hco).
  unfold st_bind at 1, open_vectors. rewrite Hdv. cbn [VectorStore.open_file].
  assert (Ed : set_d_vectors (Some (bytes vs)) d = d) by (rewrite <- Hdv; by destruct d). rewrite Ed.
  destruct (open_wf en vs hc (co_vs _ _ _ _ _ Hco) (proj1 (co_header _ _ _ _ _ Hco)))
    as (vs0 & Ho & Hwf0 & Hm0 & Hb & Hd & Hsl & Hcnt).
  assert (Hov : VectorStore.open en (Some (bytes vs)) (dimension_of c) (initial_capacity c) (o_grow io)
    = if g_map (o_grow io) then Ok vs0 else Err Io).
  { rewrite <- Hdim. revert Ho. unfold VectorStore.open. destruct (g_map (o_grow io)); [done|by cbn]. }
  rewrite Hov. destruct (g_map (o_grow io)) eqn:Eg; [|intros [= <- <-]; split; [done|]; intros ->; done].
  unfold st_bind at 1. destruct (open_log en (o_header io) d) as [d1 rw] eqn:Hol.
  destruct (open_log_disk _ _ _ _ _ _ Hf Hw Hol) as (f1 & -> & Hw1 & Hrw).
  assert (Hdc1 := disk_core_wal _ _ _ _ _ _ _ _ _ Hdc Hw1 Hco).
  destruct rw as [w|er].
  2: { intros [= <- <-]. split; [by apply disk_kept_refl|]. intros ->. done. }
  destruct Hrw as (-> & Hup & it & Hrd & Hrep). rewrite Hrd. fold (la_of m0).
  unfold st_bind at 1, wrote. destruct (cut_tail w it (o_cut io)) as [w1 rt] eqn:Hcut. cbn [fst snd].
  destruct (cut_tail_disk _ _ _ _ _ _ Hw1 Hrep Hcut) as (Hw2 & Hv2 & Hrep2 & Hok2).
  assert (Hdc2 := disk_core_wal _ _ _ _ _ _ _ _ _ Hdc1 Hw2 Hco).
  change (set_d_wal (Some (file w1)) (set_d_wal (Some (file w)) d)) with (put_wal w1 (set_d_wal (Some (file w)) d)) in Hdc2.
  set (d2 := put_wal w1 _) in *.
  destruct rt as [[]|er].
  2: { intros [= <- <-]. split; [by apply disk_kept_refl|]. intros ->. by specialize (Hok2 eq_refl). }
  specialize (Hrep2 eq_refl).
  assert (Hhc : vcount vs0 = hc).
  { destruct (co_header _ _ _ _ _ Hco). destruct (co_vs _ _ _ _ _ Hco). lia. }
  assert (Hup1 : needs_upgrade w1 = false) by (unfold needs_upgrade in *; by rewrite Hv2).
  unfold st_bind.
  destruct (existsb (active (la_of m0)) ops) eqn:Hact.
  - destruct (checkpoint en (replay en (la_of m0) m0 vs0 ops) w1 io d2) as [d3 r3] eqn:Hck.
    destruct (checkpoint_kept _ _ _ _ _ _ _ _ _ _ _ _ Hdc2 Hrep2 eq_refl Hwf0 Hm0 Hb Hd Hsl Hhc Hact Hck) as [Hk3 H3].
    destruct r3 as [[[m3 vs3] w3]|er]; [|intros [= <- <-]; split; [done|]; intros ->; done].
    destruct H3 as (m0' & hc' & Hc3 & Hrep3 & El3 & Hd3 & Hm3 & Hs3).
    assert (Hrp : rp_replayed (replay en (la_of m0) m0 vs0 ops) = true).
    { destruct (core_replayed m vs vs0 ops m0 hc Hco Hwf0 Hm0 Hb Hd Hsl Hhc) as (Hr & _).
      rewrite (rs_flag _ _ _ _ Hr), Hact. done. }
    rewrite Hrp, andb_false_r, andb_false_l, (live_check _ _ _ _ _ Hc3).
    intros [= <- <-]. split; [exact Hk3|]. cbn [rc_meta rc_vectors rc_wal].
    exists [], m0', hc'. by split_and!.
  - rewrite replay_inactive by done. unfold checkpoint. cbn [rp_replayed orb rp_meta rp_vectors].
    rewrite Hup1. unfold st_ret at 1. cbn [negb andb].
    destruct (inactive_ops _ _ Hact) as [Hn Hdel].
    assert (El : live m0 = live m).
    { rewrite <- (co_live _ _ _ _ _ Hco). symmetry. apply replay_idempotent; [done|].
      intros o Hin. by apply Hdel in Hin. }
    assert (Hk2 := disk_kept_refl _ _ _ _ _ _ _ Hdc2).
    destruct (is_fresh m0 && true && (0 <? vcount vs0)) eqn:Hfr.
    { intros [= <- <-]. split; [done|]. intros _. split; [done|].
      rewrite andb_true_r, andb_true_iff in Hfr. destruct Hfr as [Hfr Hpos%N.ltb_lt]. split.
      - rewrite <- El. apply map_eq. intros o. rewrite live_lookup, lookup_empty.
        unfold is_fresh in Hfr. rewrite !andb_true_iff in Hfr. destruct Hfr as [[Hz%N.eqb_eq _] _].
        rewrite (wf_count m0 (open_ms_wf _ _ (co_open _ _ _ _ _ Hco))) in Hz.
        assert (Hemp : records m0 = ∅) by (apply map_size_empty_inv; lia). by rewrite Hemp, lookup_empty.
      - intros Hg. rewrite (Hg Hfr Hact) in Hhc. lia. }
    pose proof Hco as [A1 A2 A3 A4 A5 A6 A7 A8 A9 A10 A11 A12 A13].
    assert (Hc0 : core_ok m0 vs0 ops m0 hc).
    { split; auto; try lia.
      - by eapply open_ms_wf.
      - by rewrite (open_db _ _ A3).
      - congruence.
      - rewrite Hb, Hd. split; [apply A8|lia].
      - eapply Forall_impl; [exact A9|]. intros op. by apply vec_ok_same.
      - apply Forall_forall. intros op Hop o q. by rewrite Hn.
      - intros o Hin. by apply Hdel in Hin.
      - intros o Hin. rewrite Hhc. by apply A5.
      - rewrite El. apply A13. }
    rewrite (live_check _ _ _ _ _ Hc0).
    intros [= <- <-]. split; [exact Hk2|]. cbn [rc_meta rc_vectors rc_wal].
    exists ops, m0, hc. split_and!; auto. intros o _. unfold VectorStore.slot, slot_start. by rewrite Hb, Hd.
Qed.

(** ** The running engine *)

Context {SJ : SerdeJson} {JS : JsonSyntax} {GO : GraphOps} {TO : TextOps}.

(** The abstract store: per id, what the caller stored and its vector. *)
Abbreviation Store := (gmap string (Dur * list f32)) (only parsing).

Definition vector_at (vs : VectorStore.Inner) (o : N) : list f32 :=
  cast_floats en (VectorStore.slot vs o).

Definition means (m : MetadataStore) (vs : VectorStore.Inner) (S : Store) : Prop :=
  forall i d v, S !! i = Some (d, v) <->
    exists o, live m !! o = Some d /\ id_of_dur d = i /\ v = vector_at vs o.

Record eng_ok (e : Engine) (ops : list WalOp) (m0 : MetadataStore) (hc : N) : Prop := {
  eo_core : core_ok (meta e) (vectors e) ops m0 hc;
  eo_wal : wal_rep en (wal e) ops;
  eo_dim : dim (vectors e) = dimension_of (config e);
  eo_config : quantizers_ok (config e) = true;
  eo_ids : forall i o, id_index e !! i = Some o <->
             exists d, live (meta e) !! o = Some d /\ id_of_dur d = i;
}.

Definition eng_rep (e : Engine) (S : Store) : Prop :=
  (exists ops m0 hc, eng_ok e ops m0 hc) /\ mapped (vectors e) = true /\
  means (meta e) (vectors e) S.

(** What a caller sees of a record. *)
Definition stored (e : Engine) (i : string) : option (Dur * list f32) :=
  r ← find_record_by_id en e i; Some (durable (meta_of_record r), r_embedding r).

Lemma get_live m vs ops m0 hc o :
  core_ok m vs ops m0 hc -> mapped vs = true -> is_Some (live m !! o) ->
  VectorStore.get en vs o = Some (vector_at vs o).
Proof.
  intros Hco Hm Ho. rewrite (get_slot en vs o (co_vs _ _ _ _ _ Hco) Hm).
  rewrite (proj2 (N.ltb_lt _ _)); [done|]. by apply (co_cur _ _ _ _ _ Hco).
Qed.

Lemma stored_rep e S i : eng_rep e S -> stored e i = S !! i.
Proof.
  intros ((ops & m0 & hc & [Hco _ _ _ Hid]) & Hm & HS).
  unfold stored, find_record_by_id, get_record, MetadataStore.get.
  destruct (id_index e !! i) as [o|] eqn:Hi; simpl.
  - destruct (proj1 (Hid i o) Hi) as (d & Hd & Hi').
    pose proof Hd as Hr. rewrite live_lookup in Hr. destruct (records (meta e) !! o) as [r|]; [|done].
    simpl in *. injection Hr as Hr.
    rewrite (get_live _ _ _ _ _ _ Hco Hm) by (by rewrite Hd). simpl.
    rewrite meta_of_with_embedding, Hr. symmetry. apply HS. eauto.
  - destruct (S !! i) as [[d v]|] eqn:E; [|done]. apply HS in E as (o & Hd & Hi' & _).
    assert (id_index e !! i = Some o) by (apply Hid; eauto). congruence.
Qed.

Lemma means_same m m' vs vs' S :
  live m' = live m ->
  (forall o, is_Some (live m !! o) -> VectorStore.slot vs' o = VectorStore.slot vs o) ->
  means m vs S -> means m' vs' S.
Proof.
  intros El Hs HS i d v. rewrite (HS i d v), El. unfold vector_at.
  split; intros (o & Ho & Hi & ->); exists o; rewrite Hs by (by rewrite Ho); done.
Qed.

(** ** Opening an engine *)

(** The Tantivy calls succeed. *)
Class TextTotal : Prop := {
  text_open_total : exists t, text_open = Ok t;
  text_add_total : forall t l, exists t', text_add_batch t l = (t', Ok tt);
  text_remove_total : forall t o, exists t', text_remove t o = (t', Ok tt);
  text_commit_total : forall t, exists t', text_commit t = (t', Ok tt);
}.

Lemma build_text_total `{!TextTotal} l : exists t, build_text_index l = Ok t.
Proof.
  unfold build_text_index. destruct text_open_total as [t ->]. simpl.
  assert (Hadd : forall t, exists t', text_add_all t l = Ok t').
  { induction l as [|[o m] l IH]; intros t1; simpl; [eauto|].
    destruct (text_add_total t1 [(o, text m)]) as [t2 ->]. apply IH. }
  destruct (Hadd t) as [t1 ->]. simpl. destruct (text_commit_total t1) as [t2 ->]. eauto.
Qed.

Lemma elem_of_records_of m vs o r :
  (o, r) ∈ records_of en m vs <->
  exists mr v, records m !! o = Some mr /\ VectorStore.get en vs o = Some v /\
    r = with_embedding mr v.
Proof.
  unfold records_of. rewrite list_elem_of_omap. split.
  - intros ([o' mr] & Hin & Hr). rewrite sort_by_perm, elem_of_map_to_list in Hin. simpl in Hr.
    destruct (VectorStore.get en vs o') as [v|] eqn:E; [|done]. injection Hr as -> <-. eauto.
  - intros (mr & v & Hr & Hv & ->). exists (o, mr). split; [|simpl; by rewrite Hv].
    rewrite sort_by_perm. by apply elem_of_map_to_list.
Qed.

Lemma build_id_index_spec (rs : list (N * Record_)) :
  (forall o1 r1 o2 r2, (o1, r1) ∈ rs -> (o2, r2) ∈ rs -> r_id r1 = r_id r2 -> o1 = o2) ->
  forall i o, build_id_index rs !! i = Some o <-> exists r, (o, r) ∈ rs /\ r_id r = i.
Proof.
  unfold build_id_index. induction rs as [|[o' r'] rs IH] using rev_ind; intros Hu i o.
  { simpl. rewrite lookup_empty. set_solver. }
  rewrite foldl_app. simpl. rewrite lookup_insert_Some, IH by (intros; eapply Hu; set_solver).
  split.
  - intros [[<- <-]|(Hne & r & Hin & <-)]; [exists r'; set_solver|exists r; set_solver].
  - intros (r & Hin & <-). destruct (decide (r_id r' = r_id r)) as [E|E].
    + left. split; [done|]. eapply Hu; [| |exact E]; [set_solver|done].
    + right. split; [done|]. exists r. set_solver.
Qed.

Lemma hot_dim_seal h : h_dim (hot h) = SegmentHolder.dimension (SegmentHolder.config h) ->
  h_dim (hot (seal_hot h)) = SegmentHolder.dimension (SegmentHolder.config (seal_hot h)) /\
  SegmentHolder.config (seal_hot h) = SegmentHolder.config h.
Proof. intros Hd. unfold seal_hot. destruct (_ <? _); done. Qed.

Lemma from_records_loop_ok h rs sealed :
  h_dim (hot h) = SegmentHolder.dimension (SegmentHolder.config h) ->
  Forall (fun orec : N * Record_ => len (r_embedding orec.2) = SegmentHolder.dimension (SegmentHolder.config h)) rs ->
  exists h', from_records_loop h rs sealed = (h', Ok tt).
Proof.
  revert h. induction rs as [|[o r] rs IH]; intros h Hd Hrs; simpl; [eauto|].
  apply Forall_cons in Hrs as [Hr Hrs]. simpl in Hr. case_decide; [by apply IH|].
  unfold SegmentHolder.insert, hot_insert, validate_dimension. rewrite Hr, Hd, N.eqb_refl. simpl.
  assert (Hgo : forall x b, h_dim x = SegmentHolder.dimension (SegmentHolder.config h) ->
    exists h', match (b : bool) with
               | true => from_records_loop (seal_hot (set_hot x h)) rs sealed
               | false => from_records_loop (set_hot x h) rs sealed
               end = (h', Ok tt)).
  { intros x [] Hx; [|by apply IH].
    destruct (hot_dim_seal (set_hot x h) Hx) as [E1 E2].
    apply IH; [done|]. by rewrite E2. }
  case_decide; apply Hgo; simpl; auto.
Qed.

Lemma from_records_ok c n rs sealed :
  Forall (fun orec : N * Record_ => len (r_embedding orec.2) = SegmentHolder.dimension c) rs ->
  exists h, from_records c n rs sealed = Ok h.
Proof.
  intros Hrs. unfold from_records.
  destruct (from_records_loop_ok (SegmentHolder.new c n) rs sealed) as [h ->]; [done|done|]. eauto.
Qed.

Lemma len_vector_at vs o : vs_wf en vs -> o < slots vs -> len (vector_at vs o) = dim vs.
Proof.
  intros Hwf Ho. unfold vector_at, cast_floats, VectorStore.slot.
  pose proof (slot_range en vs o Hwf Ho) as Hr.
  assert (Hl : length (slice (slot_start vs o) (dim vs * 4) (bytes vs)) = (N.to_nat (dim vs) * 4)%nat).
  { pose proof (len_slice (slot_start vs o) (dim vs * 4) (bytes vs) Hr). unfold len in *. lia. }
  rewrite Hl, Nat.div_mul by lia. generalize (slice (slot_start vs o) (dim vs * 4) (bytes vs)).
  assert (Ht : forall n bs, length (take_floats en n bs) = n).
  { induction n as [|n IH]; intros bs; simpl; [done|by rewrite IH]. }
  intros bs. unfold len. rewrite Ht. lia.
Qed.

(** The rebuild of the derived state over recovered files. *)
Lemma open_recovered `{!TextTotal} d c io rc ops m0 hc S :
  recover_files en d c io = Ok rc -> quantizers_ok c = true ->
  core_ok (rc_meta rc) (rc_vectors rc) ops m0 hc -> wal_rep en (rc_wal rc) ops ->
  dim (rc_vectors rc) = dimension_of c -> mapped (rc_vectors rc) = true ->
  means (rc_meta rc) (rc_vectors rc) S ->
  exists e rep, open en d c io = Ok (e, rep) /\ eng_rep e S /\ config e = c /\
    meta e = rc_meta rc.
Proof.
  intros Hrc Hq Hco Hw Hdim Hm HS.
  unfold open. rewrite Hq. cbn [negb]. rewrite Hrc. cbn [mbind Result_bind].
  destruct (build_text_total (map_to_list (records (rc_meta rc)))) as [t ->]. cbn [mbind Result_bind].
  destruct (rebuild_graph _ _) as [g pruned].
  assert (Hget : forall o mr, records (rc_meta rc) !! o = Some mr ->
    VectorStore.get en (rc_vectors rc) o = Some (vector_at (rc_vectors rc) o)).
  { intros o mr Hr. eapply get_live; [done|done|]. apply live_is_Some. by rewrite Hr. }
  destruct (from_records_ok (tiers c) (dir_next_id (d_segments d))
    (records_of en (rc_meta rc) (rc_vectors rc)) (l_offsets (load_segments (d_segments d)))) as [h ->].
  { apply Forall_forall. intros [o r] (mr & v & Hr & Hv & ->)%elem_of_records_of. simpl.
    rewrite (Hget o mr Hr) in Hv. injection Hv as <-.
    destruct (co_cur _ _ _ _ _ Hco o) as [_ Ho]; [apply live_is_Some; by rewrite Hr|].
    rewrite len_vector_at; [by rewrite Hdim|by eapply co_vs|].
    pose proof (VectorStore.wf_count en _ (co_vs _ _ _ _ _ Hco)). lia. }
  cbn [mbind Result_bind]. eexists _, _. split; [reflexivity|].
  split; [|done]. split; [|split; [done|done]]; cbn [meta vectors].
  exists ops, m0, hc. split; cbn [meta vectors wal config id_index]; auto.
  intros i o. rewrite build_id_index_spec.
  - split.
    + intros (r & (mr & v & Hr & Hv & ->)%elem_of_records_of & <-). exists (durable mr).
      by rewrite live_lookup, Hr.
    + intros (d' & Hd & <-). rewrite live_lookup in Hd.
      destruct (records (rc_meta rc) !! o) as [mr|] eqn:Hr; [|done]. injection Hd as <-.
      exists (with_embedding mr (vector_at (rc_vectors rc) o)).
      split; [|done]. apply elem_of_records_of. eexists mr, _. split; [done|].
      split; [|done]. by eapply Hget.
  - intros o1 r1 o2 r2 (mr1 & v1 & Hr1 & _ & ->)%elem_of_records_of
      (mr2 & v2 & Hr2 & _ & ->)%elem_of_records_of E.
    apply (co_unique _ _ _ _ _ Hco o1 o2 (durable mr1) (durable mr2)); [| |exact E];
      by rewrite live_lookup, ?Hr1, ?Hr2.
Qed.

(** The files of [d] hold the store [S]; when it was [started], no check refuses them. *)
Definition disk_holds (started : Prop) (c : StoreConfig) (d : Disk) (S : Store) : Prop :=
  quantizers_ok c = true /\ exists m vs ops m0 hc,
    disk_core c d m vs ops m0 hc /\ means m vs S /\ (started -> guard ops m0 hc).

Lemma kept_means m m' vs vs' ops m0 hc S :
  core_ok m vs ops m0 hc -> live m' = live m ->
  (forall o, o < slots vs -> VectorStore.slot vs' o = VectorStore.slot vs o) ->
  means m vs S -> means m' vs' S.
Proof.
  intros Hco El Hs HS. eapply means_same; [exact El| |exact HS]. intros o Ho. apply Hs.
  destruct (co_cur _ _ _ _ _ Hco o Ho). pose proof (VectorStore.wf_count en _ (co_vs _ _ _ _ _ Hco)). lia.
Qed.

(** Wherever an [open] stops, the files hold the same store. *)
Lemma leaves_hold started c d io S :
  disk_holds started c d S -> disk_holds started c (open_leaves en c d io) S.
Proof.
  intros (Hq & m & vs & ops & m0 & hc & Hdc & HS & Hg). split; [done|]. unfold open_leaves. rewrite Hq.
  destruct (recover en c io d) as [d' r] eqn:E.
  destruct (recover_core _ _ _ _ _ _ _ _ _ _ Hdc E) as [(m' & vs' & ops' & m0' & hc' & Hdc' & El & Hs & Hg') _].
  exists m', vs', ops', m0', hc'. split_and!; auto. eapply kept_means; [apply Hdc|done..].
Qed.

(** Opening the three files of a store gives back an engine with the same store, when it
    returns; with no call failing it returns, unless the store is empty and was never
    started. *)
Lemma open_holds `{!TextTotal} started c d S io :
  disk_holds started c d S ->
  match open en d c io with
  | Ok (e, _) => eng_rep e S /\ config e = c
  | Err er => io = open_ok -> er = orphaned /\ S = ∅ /\ ~ started
  end.
Proof.
  intros (Hq & m & vs & ops & m0 & hc & Hdc & HS & Hg).
  destruct (recover en c io d) as [d' r] eqn:E.
  destruct (recover_core _ _ _ _ _ _ _ _ _ _ Hdc E) as [_ Hr].
  pose proof Hdc as [Hco Hdim _ _ _].
  assert (Hf : recover_files en d c io = r) by (unfold recover_files; by rewrite E).
  destruct r as [rc|er].
  - destruct Hr as (ops' & m0' & hc' & Hco' & Hw' & El & Ed' & Hm' & Hsl).
    destruct (open_recovered d c io rc ops' m0' hc' S) as (e & rep & -> & He & Hc & _); auto.
    + by rewrite Ed'.
    + by eapply kept_means.
  - unfold open. rewrite Hq. cbn [negb]. rewrite Hf.
    cbn [mbind Result_bind]. intros Hio. destruct (Hr Hio) as (-> & El & Hn). split; [done|]. split.
    + apply map_eq. intros i. rewrite lookup_empty. destruct (S !! i) as [[x v]|] eqn:HSi; [|done].
      apply HS in HSi as (o & Ho & _). by rewrite El, lookup_empty in Ho.
    + intros Hst. by apply Hn, Hg.
Qed.

(** Opens that fail or are killed, one after the other; each finds some segment
    directories. *)
Definition set_dirs (x : SegDirs) (d : Disk) : Disk :=
  {| d_db := d_db d; d_vectors := d_vectors d; d_wal := d_wal d; d_segments := x |}.
Definition after_opens (c : StoreConfig) (ios : list (SegDirs * OpenIo)) (d : Disk) : Disk :=
  foldl (fun d x => open_leaves en c (set_dirs x.1 d) x.2) d ios.
Lemma dirs_hold started c d x S : disk_holds started c d S -> disk_holds started c (set_dirs x d) S.
Proof.
  intros (Hq & m & vs & ops & m0 & hc & [H1 H2 H3 H4 H5] & H). split; [done|].
  by exists m, vs, ops, m0, hc.
Qed.
Lemma opens_hold started c ios d S : disk_holds started c d S -> disk_holds started c (after_opens c ios d) S.
Proof.
  revert d. induction ios as [|x ios IH]; intros d Hd; [done|]. apply IH, leaves_hold. by apply dirs_hold.
Qed.

(** *** A new store *)

Definition new_disk : Disk :=
  {| d_db := DbOpened empty_db; d_vectors := None; d_wal := None; d_segments := no_dirs |}.

Lemma new_vectors_wf d k vs :
  d < U32 -> VectorStore.new_with_capacity en d k grow_ok = Ok vs ->
  vs_wf en vs /\ mapped vs = true /\ dim vs = d /\ vcount vs = 0 /\ header_ok en (bytes vs) d 0.
Proof.
  intros Hd. unfold new_with_capacity. destruct (N.eqb_spec d 0) as [|Hd0]; [done|].
  set (ns := N.max k 1024).
  destruct (checked_mul ns d) as [n|] eqn:H1; [cbn [mbind option_bind]|done].
  destruct (checked_mul n 4) as [db|] eqn:H2; [cbn [ok_or mbind Result_bind]|done].
  destruct (checked_add HEADER_SIZE db) as [l|] eqn:H3; [cbn [ok_or mbind Result_bind]|done].
  apply checked_mul_Some in H1 as [-> _]. apply checked_mul_Some in H2 as [-> _].
  apply checked_add_Some in H3 as [-> Hl]. cbn. intros [= <-].
  assert (Hlen : len (VectorStore.write_header en (set_len Byte.x00 (HEADER_SIZE + ns * d * 4) [])
    (fresh_header en d 0)) = HEADER_SIZE + ns * d * 4).
  { unfold VectorStore.write_header. rewrite len_splice; [apply len_set_len|].
    rewrite len_fresh_header, len_set_len. lia. }
  assert (Hh : header_ok en (VectorStore.write_header en (set_len Byte.x00 (HEADER_SIZE + ns * d * 4) [])
    (fresh_header en d 0)) d 0).
  { apply header_ok_write; [done|]. rewrite len_set_len. lia. }
  split_and!; auto. split; cbn [dim slots VectorStore.count bytes]; rewrite ?Hlen; auto; try lia. eauto.
Qed.

Lemma open_new `{!TextTotal} c vs :
  quantizers_ok c = true -> dimension_of c < U32 ->
  VectorStore.new_with_capacity en (dimension_of c) (initial_capacity c) grow_ok = Ok vs ->
  exists e rep, open en new_disk c open_ok = Ok (e, rep) /\ eng_rep e ∅ /\ config e = c.
Proof.
  intros Hq Hd Hvs. destruct (new_vectors_wf _ _ _ Hd Hvs) as (Hwf & Hm & Hdim & Hcnt & Hh).
  destruct (MetadataStore.open (DbOpened empty_db)) as [m0|] eqn:Hop; [|done].
  assert (Hl : live m0 = ∅) by (injection Hop as <-; done).
  assert (Hco : core_ok m0 vs [] m0 0).
  { pose proof (open_db _ _ Hop) as Edb.
    assert (Hc : next_offset m0 = 0 /\ next_seq m0 = 1 /\ la_of m0 = 0) by (injection Hop as <-; done).
    destruct Hc as (E1 & E2 & E3).
    split; rewrite ?Hl, ?E1, ?E2, ?E3; auto; try done; try (by intros; simplify_map_eq).
    - by eapply open_ms_wf.
    - by rewrite Edb.
    - rewrite Hdim. split; [done|lia].
    - intros o Ho. set_solver. }
  set (w0 := {| Wal.file := []; Wal.pos := 0; Wal.version := WAL_VERSION |}).
  destruct (wal_disk_rep (Wal.clear en w0) [] (wal_rep_clear w0)) as (w & it & Hwo & Hup & Hrd & Hrep).
  change (file (Wal.clear en w0)) with (Wal.header_bytes en WAL_VERSION) in Hwo.
  rewrite (open_cleared w0) in Hwo. injection Hwo as <-.
  destruct (open_recovered new_disk c open_ok {| rc_meta := m0; rc_vectors := vs;
    rc_wal := if 0 <? discarded_bytes it then truncate_to (Wal.clear en w0) (valid_end it) else Wal.clear en w0;
    rc_report := {| wal_ops_replayed := 0; wal_inserts_without_vector := 0;
      wal_bytes_discarded := discarded_bytes it; segments_discarded := 0;
      segment_dirs_removed := 0; graph_nodes_pruned := 0 |} |} [] m0 0 ∅) as (e & rep & Ho & He & Hc & _); auto.
  - unfold recover_files, recover. unfold st_bind at 1. cbn [d_db new_disk]. rewrite Hop.
    unfold st_bind at 1, open_vectors. cbn [d_vectors new_disk].
    change (VectorStore.open en None (dimension_of c) (initial_capacity c) (o_grow open_ok))
      with (VectorStore.new_with_capacity en (dimension_of c) (initial_capacity c) grow_ok).
    rewrite Hvs. unfold st_bind at 1, open_log.
    change (len (default [] (d_wal _)) <? WAL_HEADER_SIZE) with true. cbv iota.
    change (clear_io en _ (o_header open_ok)) with (Wal.clear en w0, @Ok StorageError unit tt). cbv beta iota zeta. rewrite Hrd.
    unfold st_bind at 1, wrote, cut_tail. unfold replay. cbn [foldl].
    destruct (0 <? discarded_bytes it).
    all: cbn [fst snd o_cut open_ok]; unfold st_bind, checkpoint; cbn [rp_replayed orb rp_meta rp_vectors];
      change (needs_upgrade _) with false; cbv iota; unfold st_ret at 1;
      rewrite (live_check _ _ _ _ _ Hco), Hcnt, !andb_false_r; done.
  - intros i d v. cbn [rc_meta]. rewrite Hl. split; [by rewrite lookup_empty|].
    intros (o & Ho & _). by rewrite lookup_empty in Ho.
  - eauto.
Qed.

End durability.
