(* ===== verification/CrashSafety.v ===== *)
(** * Crash safety of the write path

    Every write of the engine, against the abstract store of [Durability]: what it
    does when it succeeds, what it leaves behind when it fails, and what reopening
    the files of a process killed inside it gives. *)

From S2P Require Import Prelude Core Metrics Record Wal VectorStore MetadataStore AccessCounters.
From S2P Require Import ScopeIndex PayloadIndex Segments SegmentHolder Optimizer Engine Recovery Durability.
#[local] Open Scope turbo_scope.

Abbreviation Store := (gmap string (Dur * list f32)) (only parsing).

(** Number the prepared records from offset [o] and sequence number [q]. *)
Fixpoint numbered (now o q : N) (ps : list PreparedRecord) : list (N * Record_) :=
  match ps with
  | [] => []
  | p :: ps => (o, into_record p q now) :: numbered now (o + 1) (q + 1) ps
  end.

Lemma numbered_spec now o q ps :
  NoDup (numbered now o q ps).*1 /\
  map (fun orec => r_id orec.2) (numbered now o q ps) = map p_id ps /\
  length (numbered now o q ps) = length ps /\
  Forall (fun orec => o <= orec.1 < o + len ps /\ q <= r_insert_seq orec.2 < q + len ps /\
            exists p, p ∈ ps /\ orec.2 = into_record p (r_insert_seq orec.2) now)
    (numbered now o q ps).
Proof.
  revert o q. induction ps as [|p ps IH]; intros o q; simpl.
  { split_and!; constructor. }
  destruct (IH (o + 1) (q + 1)) as (H1 & H2 & H3 & H4).
  assert (Hlen : len (p :: ps) = len ps + 1) by (unfold len; simpl; lia).
  rewrite Hlen. split_and!; [|by rewrite H2|by rewrite H3|].
  - constructor; [|done]. intros ([o' r] & -> & Hin)%list_elem_of_fmap. simpl in *.
    apply (proj1 (Forall_forall _ _) H4) in Hin as [? _]. simpl in *. lia.
  - constructor; [simpl; split_and!; try lia; exists p; set_solver|].
    eapply Forall_impl; [exact H4|]. intros [o' r] (? & ? & p' & ? & ?). simpl in *.
    split_and!; try lia. exists p'. set_solver.
Qed.

(** The abstract effect of inserting records. *)
Definition store_of (r : Record_) : Dur * list f32 := (durable (meta_of_record r), r_embedding r).
Definition ins_store (S : Store) (rs : list (N * Record_)) : Store :=
  foldl (fun S orec => <[r_id orec.2 := store_of orec.2]> S) S rs.

Lemma put_batch_loop_records rs cache d a :
  (put_batch_loop rs (cache, d, a)).1.1
  = foldl (fun c orec => <[orec.1 := meta_of_record orec.2]> c) cache rs.
Proof.
  revert cache d a. induction rs as [|[o r] rs IH]; intros cache d a; simpl; [done|]. apply IH.
Qed.

Lemma put_batch_fields m rs :
  live (put_batch m rs) = foldl (fun R orec => <[orec.1 := durable (meta_of_record orec.2)]> R) (live m) rs /\
  db (put_batch m rs) = db m /\ next_offset (put_batch m rs) = next_offset m /\
  next_seq (put_batch m rs) = next_seq m.
Proof.
  unfold put_batch. destruct rs as [|x rs]; [done|].
  pose proof (put_batch_loop_records (x :: rs) (records m) (dirty m) 0) as Hl.
  destruct (put_batch_loop (x :: rs) _) as [[c d] a]. cbn [fst] in Hl. split; [|done].
  unfold live. cbn [records set_records]. rewrite Hl. generalize (x :: rs) (records m).
  intros l. induction l as [|[o r] l IH]; intros c'; simpl; [done|]. by rewrite IH, fmap_insert.
Qed.

Lemma id_of_dur_meta m : id_of_dur (durable m) = id m.
Proof. done. Qed.

Section crash.
Context (en : Endian) {HC : Crc32} {BW : Bincode WalOp} {BW1 : Bincode WalOpV1}
  {BM : Bincode MetaRecord} {BH : Bincode (list N)}
  {BMo : BincodeOk MetaRecord} {BHo : BincodeOk (list N)}
  {BMt : BincodeTotal MetaRecord} {BHt : BincodeTotal (list N)}
  {BWo : BincodeOk WalOp} {BWt : BincodeTagged WalOp}
  {SJ : SerdeJson} {JS : JsonSyntax} {GO : GraphOps} {TO : TextOps}.

(** ** Inserting fresh records *)

(** The records are numbered past everything in use, and their vectors are in the
    file. *)
Record new_rs (m : MetadataStore) (vs : VectorStore.Inner) (ops : list WalOp)
    (m0 : MetadataStore) (rs : list (N * Record_)) : Prop := {
  nr_nodup : NoDup rs.*1;
  nr_off : forall o r, (o, r) ∈ rs -> o < next_offset m /\ ~ src m0 ops o;
  nr_seq : forall o r, (o, r) ∈ rs -> la_of m0 < r_insert_seq r < next_seq m;
  nr_vec : forall o r, (o, r) ∈ rs ->
    o < slots vs /\ o < VectorStore.count vs /\
    VectorStore.slot vs o = vec_bytes en (r_embedding r) /\
    Forall (fun x => x < U32) (r_embedding r);
  nr_ids : NoDup (map (fun orec => r_id orec.2) rs);
  nr_new : forall o r o' d, (o, r) ∈ rs -> live m !! o' = Some d -> id_of_dur d <> r_id r;
}.

Lemma new_rs_prefix m vs ops m0 rs1 rs2 :
  new_rs m vs ops m0 (rs1 ++ rs2) -> new_rs m vs ops m0 rs1.
Proof.
  intros [A1 A2 A3 A4 A5 A6]. rewrite fmap_app in A1. rewrite map_app in A5.
  apply NoDup_app in A1 as [? _]. apply NoDup_app in A5 as [? _].
  assert (Hsub : forall x, x ∈ rs1 -> x ∈ rs1 ++ rs2) by set_solver.
  split; eauto.
Qed.

Lemma live_put_batch m vs ops m0 rs o d :
  new_rs m vs ops m0 rs ->
  live (put_batch m rs) !! o = Some d <->
  (exists r, (o, r) ∈ rs /\ d = durable (meta_of_record r)) \/ ((o ∉ rs.*1) /\ live m !! o = Some d).
Proof.
  intros Hn. rewrite (proj1 (put_batch_fields m rs)).
  rewrite (foldl_insert_Some fst (fun orec : N * Record_ => durable (meta_of_record orec.2)))
    by apply (nr_nodup _ _ _ _ _ Hn).
  split; (intros [H|H]; [left|by right]).
  - destruct H as ([o' r] & ? & <- & <-). eauto.
  - destruct H as (r & ? & ->). by exists (o, r).
Qed.

Lemma apply_inserts la R rs :
  (forall o r, (o, r) ∈ rs -> la < r_insert_seq r) ->
  foldl (apply_dur la) R (map (insert_op en) rs)
  = foldl (fun R orec => <[orec.1 := durable (meta_of_record orec.2)]> R) R rs.
Proof.
  revert R. induction rs as [|[o r] rs IH]; intros R Hq; simpl; [done|].
  rewrite (proj2 (N.ltb_lt _ _)) by (apply (Hq o r); set_solver).
  apply IH. intros o' r' ?. apply (Hq o' r'). set_solver.
Qed.

Lemma core_insert m vs ops m0 hc rs :
  core_ok en m vs ops m0 hc -> new_rs m vs ops m0 rs ->
  core_ok en (put_batch m rs) vs (ops ++ map (insert_op en) rs) m0 hc.
Proof.
  intros Hco Hn. destruct (put_batch_fields m rs) as (El & Ed & Eo & Eq).
  pose proof Hn as [A1 A2 A3 A4 A5 A6].
  apply (core_append en m); auto.
  - apply put_batch_wf, (co_ms _ _ _ _ _ _ Hco).
  - rewrite El. symmetry. apply apply_inserts. intros o r Hin. by apply (A3 o r).
  - apply Forall_map, Forall_forall. intros [o r] Hin Hq. simpl.
    destruct (A4 o r Hin) as (? & _ & -> & _). done.
  - apply Forall_map, Forall_forall. intros [o r] Hin o' q'. simpl. destruct (_ <? _); [|done].
    intros [= <- <-]. split; [by apply (A2 o r)|by apply (A3 o r)].
  - intros o Hd. apply list_elem_of_fmap in Hd as ([? ?] & ? & _). done.
  - intros o Hd. apply elem_of_app in Hd as [Hd|Hd];
      [|apply list_elem_of_fmap in Hd as ([? ?] & ? & _); done].
    destruct (co_deleted _ _ _ _ _ _ Hco o Hd) as [Hs Hno]. apply eq_None_not_Some. intros [d Hd'].
    apply (live_put_batch _ _ _ _ _ _ _ Hn) in Hd' as [(r & Hin & _)|[_ ?]]; [|congruence].
    by apply (A2 o r).
  - intros o [d Hd']. apply (live_put_batch _ _ _ _ _ _ _ Hn) in Hd' as [(r & Hin & _)|[_ Hl]].
    + split; [by apply (A2 o r)|by apply (A4 o r)].
    + apply (co_cur _ _ _ _ _ _ Hco). by rewrite Hl.
  - intros o1 o2 d1 d2 H1 H2 Hid.
    apply (live_put_batch _ _ _ _ _ _ _ Hn) in H1, H2.
    destruct H1 as [(r1 & Hin1 & ->)|[_ Hl1]], H2 as [(r2 & Hin2 & ->)|[_ Hl2]].
    + rewrite !id_of_dur_meta in Hid. change (r_id r1 = r_id r2) in Hid.
      apply list_elem_of_lookup in Hin1 as [k1 Hk1], Hin2 as [k2 Hk2].
      assert (k1 = k2) as ->; [|congruence].
      eapply (NoDup_lookup _ _ _ (r_id r1) A5); rewrite list_lookup_fmap, ?Hk1, ?Hk2; simpl; congruence.
    + exfalso. by eapply (A6 o1 r1 o2 d2 Hin1 Hl2).
    + exfalso. by eapply (A6 o2 r2 o1 d1 Hin2 Hl1).
    + by eapply (co_unique _ _ _ _ _ _ Hco).
Qed.

Lemma means_insert m vs ops m0 hc rs S :
  core_ok en m vs ops m0 hc -> new_rs m vs ops m0 rs -> means en m vs S ->
  means en (put_batch m rs) vs (ins_store S rs).
Proof.
  intros Hco Hn HS i d v. unfold ins_store.
  rewrite (foldl_insert_Some (fun orec : N * Record_ => r_id orec.2) (fun orec => store_of orec.2))
    by apply (nr_ids _ _ _ _ _ Hn).
  rewrite (HS i d v). setoid_rewrite (live_put_batch _ _ _ _ _ _ _ Hn). split.
  - intros [([o r] & Hin & <- & Hr)|(Hni & o & Hl & Hi & ->)].
    + injection Hr as <- <-. exists o. split; [left; eauto|]. split; [done|].
      destruct (nr_vec _ _ _ _ _ Hn o r Hin) as (_ & _ & Hs & Hb). unfold vector_at.
      rewrite Hs. symmetry. by apply cast_vec_bytes.
    + exists o. split; [|done]. right. split; [|done].
      intros ([o' r] & -> & Hin)%list_elem_of_fmap. simpl in *.
      apply (nr_off _ _ _ _ _ Hn o' r Hin). apply (core_live_src en _ _ _ _ _ _ Hco). by rewrite Hl.
  - intros (o & [(r & Hin & ->)|[Hno Hl]] & Hi & ->).
    + left. exists (o, r). split; [done|]. split; [done|]. unfold store_of. f_equal.
      destruct (nr_vec _ _ _ _ _ Hn o r Hin) as (_ & _ & Hs & Hb). unfold vector_at.
      rewrite Hs. symmetry. by apply cast_vec_bytes.
    + right. split; [|eauto]. intros ([o' r] & E & Hin)%list_elem_of_fmap. simpl in E.
      eapply (nr_new _ _ _ _ _ Hn o' r o d Hin Hl). congruence.
Qed.

Lemma ids_insert m vs ops m0 hc rs (idx : gmap string N) :
  core_ok en m vs ops m0 hc -> new_rs m vs ops m0 rs ->
  (forall i o, idx !! i = Some o <-> exists d, live m !! o = Some d /\ id_of_dur d = i) ->
  forall i o, (foldl (fun j orec => <[r_id orec.2 := orec.1]> j) idx rs) !! i = Some o <->
    exists d, live (put_batch m rs) !! o = Some d /\ id_of_dur d = i.
Proof.
  intros Hco Hn Hid i o.
  rewrite (foldl_insert_Some (fun orec : N * Record_ => r_id orec.2) fst)
    by apply (nr_ids _ _ _ _ _ Hn).
  setoid_rewrite (live_put_batch _ _ _ _ _ _ _ Hn). rewrite (Hid i o). split.
  - intros [([o' r] & Hin & <- & <-)|(Hni & d & Hl & <-)].
    + exists (durable (meta_of_record r)). split; [left; eauto|done].
    + exists d. split; [|done]. right. split; [|done].
      intros ([o' r] & -> & Hin)%list_elem_of_fmap. simpl in Hl. apply (nr_off _ _ _ _ _ Hn o' r Hin).
      apply (core_live_src en _ _ _ _ _ _ Hco). by rewrite Hl.
  - intros (d & [(r & Hin & ->)|[Hno Hl]] & <-).
    + left. by exists (o, r).
    + right. split; [|eauto]. intros ([o' r] & E & Hin)%list_elem_of_fmap.
      by eapply (nr_new _ _ _ _ _ Hn o' r o d Hin Hl).
Qed.

(** ** The commit section, step by step *)

Lemma set_meta_id e : set_meta (meta e) e = e.
Proof. by destruct e. Qed.
Lemma set_vectors_id e : set_vectors (vectors e) e = e.
Proof. by destruct e. Qed.
Lemma set_wal_id e : set_wal (wal e) e = e.
Proof. by destruct e. Qed.
Lemma set_counters_id m : set_counters (next_offset m) (next_seq m) m = m.
Proof. by destruct m. Qed.

Lemma alloc_ok e :
  next_offset (meta e) + 1 < U64 -> next_seq (meta e) + 1 < U64 ->
  (let! offset := alloc_offset in let! seq := alloc_seq in st_ret (offset, seq)) e
  = (set_meta (set_counters (next_offset (meta e) + 1) (next_seq (meta e) + 1) (meta e)) e,
     Ok (next_offset (meta e), next_seq (meta e))).
Proof.
  intros Ho Hq. unfold st_bind, alloc_offset, alloc_seq, st_ret. simpl.
  unfold wadd64. rewrite !N.mod_small by done. done.
Qed.

Lemma alloc_records_ok ps now e :
  next_offset (meta e) + len ps < U64 -> next_seq (meta e) + len ps < U64 ->
  alloc_records ps now e
  = (set_meta (set_counters (next_offset (meta e) + len ps) (next_seq (meta e) + len ps) (meta e)) e,
     Ok (numbered now (next_offset (meta e)) (next_seq (meta e)) ps)).
Proof.
  revert e. induction ps as [|p ps IH]; intros e Ho Hq; simpl.
  { change (len []) with 0. rewrite !N.add_0_r, set_counters_id, set_meta_id. done. }
  assert (Hlen : len (p :: ps) = len ps + 1) by (unfold len; simpl; lia). rewrite Hlen in *.
  unfold st_bind, alloc_offset, alloc_seq, st_ret. simpl.
  unfold wadd64. rewrite !N.mod_small by lia. rewrite IH by (simpl; lia). simpl.
  rewrite !(N.add_comm (len ps) 1), !N.add_assoc. done.
Qed.

Lemma put_all rs io e e' r :
  vs_wf en (vectors e) -> NoDup rs.*1 -> Forall (fun orec => orec.1 < u64_max) rs ->
  st_iter (fun orec => vectors_put en orec.1 (r_embedding orec.2) io) rs e = (e', r) ->
  exists vs', e' = set_vectors vs' e /\ vs_le en (fun o => o ∈ rs.*1) (vectors e) vs' /\
    (r = Ok tt -> (mapped (vectors e) = true -> mapped vs' = true) /\
       forall o rec, (o, rec) ∈ rs -> o < slots vs' /\ o < VectorStore.count vs' /\
         VectorStore.slot vs' o = vec_bytes en (r_embedding rec)).
Proof.
  revert e. induction rs as [|[o rec] rs IH]; intros e Hwf Hnd Hb; simpl.
  { intros [= <- <-]. exists (vectors e). rewrite set_vectors_id.
    split; [done|]. split; [by apply vs_le_refl|]. set_solver. }
  apply NoDup_cons in Hnd as [Hn Hnd]. apply Forall_cons in Hb as [Ho Hb]. simpl in Ho, Hn.
  unfold st_bind at 1, vectors_put at 1, on. simpl.
  destruct (VectorStore.put en (vectors e) o (r_embedding rec) (w_grow io o)) as [vs1 [[]|er]] eqn:Hp;
    pose proof (put_le en _ _ _ _ _ _ Hwf Ho Hp) as Hle.
  - intros Hrest. destruct (put_ok en _ _ _ _ _ Hwf Ho Hp)
      as (_ & M1 & _ & _ & S1 & _ & C1 & L1 & _).
    destruct (IH (set_vectors vs1 e) (le_wf _ _ _ _ Hle) Hnd Hb Hrest) as (vs' & -> & Hle' & Hok).
    exists vs'. split; [done|]. simpl in Hle'. split.
    + eapply vs_le_trans; [eapply vs_le_weaken; [|exact Hle]|eapply vs_le_weaken; [|exact Hle']];
        simpl; set_solver.
    + intros Hr. destruct (Hok Hr) as [M2 Hall]. split; [auto|].
      intros o' rec' [[= -> ->]|Hin]%elem_of_cons; [|by apply Hall].
      pose proof (le_slots _ _ _ _ Hle'). pose proof (le_count _ _ _ _ Hle').
      rewrite (le_slot _ _ _ _ Hle') by done. split_and!; [lia|lia|done].
  - intros [= <- <-]. exists vs1. split; [done|]. split; [|done].
    eapply vs_le_weaken; [|exact Hle]. simpl. set_solver.
Qed.

Lemma sync_state first last io e : (sync_vectors_if_configured first last io e).1 = e.
Proof. unfold sync_vectors_if_configured. repeat case_match; done. Qed.

(** What an append leaves on disk, whatever happens: the old operations and a
    prefix of the new ones; all of them when it succeeds. *)
Lemma append_disk w ops ops' io w' r :
  wal_rep en w ops -> append_batch w ops' io = (w', r) ->
  exists ops1 ops2, ops' = ops1 ++ ops2 /\ wal_disk en (file w') (ops ++ ops1) /\
    (r = Ok tt -> ops2 = [] /\ wal_rep en w' (ops ++ ops')).
Proof.
  intros Hw Ha. destruct r as [[]|er].
  { assert (Hr : wal_rep en w' (ops ++ ops')).
    { destruct (io_written io) eqn:Hio; [|by eapply append_batch_rep].
      destruct ops' as [|op ops']; [simpl in Ha; injection Ha as <-; by rewrite app_nil_r|].
      unfold append_batch in Ha. destruct (needs_upgrade w); [done|].
      destruct (write_ops [] (op :: ops')); [|done]. by rewrite Hio in Ha. }
    exists ops', []. rewrite app_nil_r. split; [done|]. split; [by apply wal_disk_rep|done]. }
  assert (Hsame : exists ops1 ops2, ops' = ops1 ++ ops2 /\ wal_disk en (file w) (ops ++ ops1)).
  { exists [], ops'. rewrite app_nil_r. split; [done|by apply wal_disk_rep]. }
  assert (Hgoal : exists ops1 ops2, ops' = ops1 ++ ops2 /\ wal_disk en (file w') (ops ++ ops1));
    [|destruct Hgoal as (ops1 & ops2 & ? & ?); by exists ops1, ops2].
  unfold append_batch in Ha. destruct ops' as [|op ops']; [by injection Ha as <- _|].
  destruct (needs_upgrade w); [by injection Ha as <- _|].
  destruct (write_ops [] (op :: ops')) as [buf|] eqn:Hb; [|by injection Ha as <- _].
  destruct (io_written io) as [k|]; [|done]. injection Ha as <- _. simpl file.
  pose proof Hw as (_ & Hp & _). rewrite Hp, splice_end. destruct (io_set_len io).
  - by rewrite set_len_app.
  - by apply wal_disk_torn.
Qed.

(** A log call that did not reach the file. *)
Lemma log_state ops' io e e' r :
  log ops' io e = (e', r) ->
  exists w' r', append_batch (wal e) ops' (w_append io) = (w', r') /\ e' = set_wal w' e /\
    (r = Ok tt -> r' = Ok tt).
Proof.
  unfold log, st_bind, on. destruct (append_batch (wal e) ops' (w_append io)) as [w' [[]|er]].
  - destruct (_ && _); intros [= <- <-]; exists w', (Ok tt); done.
  - intros [= <- <-]. exists w', (Err er). done.
Qed.

(** *** The indexes *)

Lemma index_one_fields orec e e' r :
  index_one orec e = (e', r) ->
  meta e' = meta e /\ vectors e' = vectors e /\ wal e' = wal e /\ config e' = config e /\
  (r = Ok tt -> id_index e' = <[r_id orec.2 := orec.1]> (id_index e)).
Proof.
  destruct orec as [o rec]. unfold index_one, st_bind, st_modify, on. simpl.
  destruct (PayloadIndex.add _ _ _) as [p [[]|er]]; intros [= <- <-]; done.
Qed.

Lemma index_all_fields rs e e' r :
  st_iter index_one rs e = (e', r) ->
  meta e' = meta e /\ vectors e' = vectors e /\ wal e' = wal e /\ config e' = config e /\
  (r = Ok tt -> id_index e' = foldl (fun i orec => <[r_id orec.2 := orec.1]> i) (id_index e) rs).
Proof.
  revert e. induction rs as [|orec rs IH]; intros e; simpl; [by intros [= <- <-]|].
  unfold st_bind. destruct (index_one orec e) as [e1 [[]|er]] eqn:H1.
  - intros H2. apply index_one_fields in H1 as (E1 & E2 & E3 & E4 & E5).
    apply IH in H2 as (F1 & F2 & F3 & F4 & F5). rewrite F1, F2, F3, F4. split_and!; auto.
    intros Hr. rewrite F5, E5 by done. done.
  - intros [= <- <-]. apply index_one_fields in H1 as (E1 & E2 & E3 & E4 & _). done.
Qed.

Lemma apply_batch_fields rs e e' r :
  apply_batch rs e = (e', r) ->
  meta e' = put_batch (meta e) rs /\ vectors e' = vectors e /\ wal e' = wal e /\
  config e' = config e /\
  (r = Ok tt -> id_index e' = foldl (fun i orec => <[r_id orec.2 := orec.1]> i) (id_index e) rs).
Proof.
  unfold apply_batch, st_bind, st_modify.
  destruct (st_iter index_one rs _) as [e1 [[]|er]] eqn:H1;
    apply index_all_fields in H1 as (E1 & E2 & E3 & E4 & E5); simpl in E1, E2, E3, E4, E5.
  2: { by intros [= <- <-]. }
  unfold on at 1. destruct (text_add_batch _ _) as [t [[]|er]].
  2: { by intros [= <- <-]. }
  unfold on. simpl. destruct (insert_segments _ _ _) as [h [[]|er]]; intros [= <- <-]; by split_and!.
Qed.

Lemma submit_fields rs io e e' r :
  submit_and_wait rs io e = (e', r) ->
  (meta e' = put_batch (meta e) rs \/ (meta e' = meta e /\ r <> Ok tt)) /\
  vectors e' = vectors e /\ wal e' = wal e /\ config e' = config e /\
  (r = Ok tt -> meta e' = put_batch (meta e) rs /\
     id_index e' = foldl (fun i orec => <[r_id orec.2 := orec.1]> i) (id_index e) rs).
Proof.
  unfold submit_and_wait. destruct (w_worker io).
  - intros (E1 & E2 & E3 & E4 & E5)%apply_batch_fields. split_and!; auto.
  - intros [= <- <-]. split_and!; try done. by right.
Qed.

(** ** Killed processes *)

(** The files a killed process leaves behind. *)
Definition disk_of (e : Engine) (dirs : SegDirs) : Disk := {|
  d_db := DbOpened (db (meta e)); d_vectors := Some (bytes (vectors e));
  d_wal := Some (file (wal e)); d_segments := dirs |}.

(** The files of [e] hold the store [S]; when it was [started], no check refuses them. *)
Definition files_hold (started : Prop) (e : Engine) (S : Store) : Prop :=
  exists m vs ops m0 hc, core_ok en m vs ops m0 hc /\ means en m vs S /\
    db (meta e) = db m /\ bytes (vectors e) = bytes vs /\ wal_disk en (file (wal e)) ops /\
    dim vs = dimension_of (config e) /\ quantizers_ok (config e) = true /\
    (started -> guard ops m0 hc).

Lemma files_hold_disk started e S dirs :
  files_hold started e S -> disk_holds en started (config e) (disk_of e dirs) S.
Proof.
  intros (m & vs & ops & m0 & hc & Hco & HS & Ed & Eb & Hw & Hd & Hq & Hg). split; [done|].
  exists m, vs, ops, m0, hc. split; [|done]. split; cbn; [done|done|by rewrite Ed|by rewrite Eb|eauto].
Qed.

(** The files that a process killed at [e] leaves to its successor, after any opens in
    between that failed or were killed too. *)
Definition left_disk (e : Engine) (ios : list (SegDirs * OpenIo)) (dirs : SegDirs) : Disk :=
  set_dirs dirs (after_opens en (config e) ios (disk_of e no_dirs)).

Lemma files_hold_open `{!TextTotal} started e S ios dirs io :
  files_hold started e S ->
  match open en (left_disk e ios dirs) (config e) io with
  | Ok (e', _) => eng_rep en e' S
  | Err er => io = open_ok -> er = orphaned /\ S = ∅ /\ ~ started
  end.
Proof.
  intros Hf. pose proof (files_hold_disk _ _ _ no_dirs Hf) as Hd.
  apply (opens_hold en _ _ ios) in Hd. apply (dirs_hold en _ _ _ dirs) in Hd.
  pose proof (open_holds en _ _ _ _ io Hd) as Ho. unfold left_disk. destruct (open _ _ _ _) as [[e' rep]|]; [by destruct Ho|done].
Qed.
Lemma files_hold_reopened `{!TextTotal} started e S ios dirs io e' rep :
  files_hold started e S -> open en (left_disk e ios dirs) (config e) io = Ok (e', rep) -> eng_rep en e' S.
Proof. intros Hf Ho. pose proof (files_hold_open started e S ios dirs io Hf) as Hr. by rewrite Ho in Hr. Qed.

(** A store that holds a record, or was checkpointed once, passes the check against
    an empty database. *)
Lemma fresh_guard m vs ops m0 hc ops' hc' :
  core_ok en m vs ops m0 hc -> is_fresh m = false -> guard (ops ++ ops') m0 hc'.
Proof.
  intros Hco Hf Hf0 Ha. exfalso. revert Hf. apply not_false_iff_true.
  pose proof Hco as [A1 A2 A3 A4 A5 A6 A7 A8 A9 A10 A11 A12 A13].
  pose proof (open_db _ _ A3) as Edb. unfold is_fresh, last_applied_seq in *. rewrite Edb in Hf0.
  rewrite !andb_true_iff in Hf0. destruct Hf0 as [[H1 H2] H3]. rewrite H2, H3, !andb_true_r.
  rewrite existsb_app, orb_false_iff in Ha. destruct Ha as [Ha _].
  destruct (inactive_ops _ _ Ha) as [Ht Hd].
  assert (El : live m = live m0).
  { rewrite <- A4. apply replay_idempotent; [done|]. intros o Hin. by apply Hd in Hin. }
  apply N.eqb_eq in H1. apply N.eqb_eq. rewrite (wf_count m A1).
  rewrite (wf_count m0 (open_ms_wf _ _ A3)) in H1.
  assert (Hsz : forall x : MetadataStore, size (live x) = size (records x))
    by (intros x; apply map_size_fmap).
  rewrite <- Hsz in *. by rewrite El.
Qed.

Lemma eng_files e S : eng_rep en e S -> files_hold (is_fresh (meta e) = false) e S.
Proof.
  intros ((ops & m0 & hc & [Hco Hw Hd Hq _]) & _ & HS).
  exists (meta e), (vectors e), ops, m0, hc. split_and!; auto; [by apply wal_disk_rep|].
  intros Hf. rewrite <- (app_nil_r ops). by eapply fresh_guard.
Qed.

Lemma wal_rep_inj w ops ops' : wal_rep en w ops -> wal_rep en w ops' -> ops = ops'.
Proof.
  intros H1 H2. destruct (wal_disk_rep en w ops H1) as (w1 & it1 & O1 & _ & R1 & _).
  destruct (wal_disk_rep en w ops' H2) as (w2 & it2 & O2 & _ & R2 & _). congruence.
Qed.

(** ** Committing a batch *)

Record prepared_ok (e : Engine) (ps : list PreparedRecord) : Prop := {
  po_len : Forall (fun p => Forall (fun x => x < U32) (p_embedding p)) ps;
  po_ids : NoDup (map p_id ps);
  po_new : Forall (fun p => id_index e !! p_id p = None) ps;
}.

(** Counters away from the end of their range. *)
Definition room (e : Engine) (n : N) : Prop :=
  next_offset (meta e) + n < u64_max /\ next_seq (meta e) + n < u64_max.

(** The vectors of the batch are written: the store is unchanged, and the records
    are ready to be logged. *)
Lemma batch_written e S ps now ops m0 hc vs' :
  eng_ok en e ops m0 hc -> means en (meta e) (vectors e) S -> room e (len ps) ->
  let rs := numbered now (next_offset (meta e)) (next_seq (meta e)) ps in
  let m1 := set_counters (next_offset (meta e) + len ps) (next_seq (meta e) + len ps) (meta e) in
  vs_le en (fun o => o ∈ rs.*1) (vectors e) vs' ->
  exists hc', core_ok en m1 vs' ops m0 hc' /\ means en m1 vs' S /\
    (forall o rec, (o, rec) ∈ rs -> o < next_offset m1 /\ ~ src m0 ops o /\
       la_of m0 < r_insert_seq rec < next_seq m1) /\
    (prepared_ok e ps -> (forall o rec, (o, rec) ∈ rs -> o < slots vs' /\ o < VectorStore.count vs' /\
       VectorStore.slot vs' o = vec_bytes en (r_embedding rec)) -> new_rs m1 vs' ops m0 rs).
Proof.
  intros [Hco Hw Hd Hq Hid] HS [Ro Rq] rs m1 Hle.
  pose proof (numbered_spec now (next_offset (meta e)) (next_seq (meta e)) ps)
    as (N1 & N2 & _ & N4). fold rs in N1, N2, N4.
  assert (Hin : forall o rec, (o, rec) ∈ rs -> next_offset (meta e) <= o < next_offset (meta e) + len ps).
  { intros o rec Hi. by apply (proj1 (Forall_forall _ _) N4) in Hi as [? _]. }
  assert (Hfresh : forall o, src m0 ops o -> o ∉ rs.*1).
  { intros o Ho ([o' rec] & -> & Hi)%list_elem_of_fmap. simpl in Ho.
    pose proof (core_src_bound en _ _ _ _ _ _ Hco Ho). apply Hin in Hi. lia. }
  assert (Hco1 : core_ok en m1 (vectors e) ops m0 hc)
    by (apply core_alloc; [done|unfold u64_max in *; lia|unfold u64_max in *; lia]).
  destruct (core_vectors en _ _ _ _ _ _ _ Hco1 Hle) as [hc' Hco2].
  { intros op o q Hop Ht. apply Hfresh. right. eauto. }
  assert (Hnum : forall o rec, (o, rec) ∈ rs -> o < next_offset m1 /\ ~ src m0 ops o /\
       la_of m0 < r_insert_seq rec < next_seq m1).
  { intros o rec Hi. split; [simpl; by apply (Hin o rec)|]. split.
    - intros Ho. apply (Hfresh o Ho). apply list_elem_of_fmap. by exists (o, rec).
    - apply (proj1 (Forall_forall _ _) N4) in Hi as (_ & ? & _). simpl in *.
      pose proof (co_seq _ _ _ _ _ _ Hco). lia. }
  exists hc'. split; [done|]. split; [|split; [exact Hnum|]].
  - eapply means_same; [| |exact HS]; [done|]. intros o Ho. apply (le_slot _ _ _ _ Hle).
    + apply Hfresh. by eapply core_live_src.
    + destruct (co_cur _ _ _ _ _ _ Hco o Ho).
      pose proof (VectorStore.wf_count en _ (co_vs _ _ _ _ _ _ Hco)). lia.
  - intros [P1 P2 P3] Hvec. split; auto.
    + intros o rec Hi. by destruct (Hnum o rec Hi) as (? & ? & _).
    + intros o rec Hi. by destruct (Hnum o rec Hi) as (_ & _ & ?).
    + intros o rec Hi. destruct (Hvec o rec Hi) as (? & ? & ?). split_and!; auto.
      apply (proj1 (Forall_forall _ _) N4) in Hi as (_ & _ & p & Hp & Er). simpl in Er.
      rewrite Er. by apply (proj1 (Forall_forall _ _) P1 p Hp).
    + by rewrite N2.
    + intros o rec o' d Hi Hl E.
      assert (id_index e !! r_id rec = Some o') by (apply Hid; eauto).
      apply (proj1 (Forall_forall _ _) N4) in Hi as (_ & _ & p & Hp & Er). simpl in Er.
      pose proof (proj1 (Forall_forall _ _) P3 p Hp). simpl in *. rewrite Er in *. simpl in *. congruence.
Qed.

(** The files that a process killed at [e'] leaves of [e]: of the operations that it was
    logging, some are complete in the file, and the store they make is there. *)
Definition left_files (e e' : Engine) (ok : bool) (S' : Store) (partial : nat -> Store) : Prop :=
  exists ops ops1, wal_rep en (wal e) ops /\ wal_disk en (file (wal e')) (ops ++ ops1) /\
    files_hold (is_fresh (meta e) = false) e' (partial (length ops1)) /\
    (ok = true -> partial (length ops1) = S').

(** How an operation that takes the store [S] to [S'] may end: it succeeded; it
    failed before anything reached the log; or the process is killed where it
    stopped, and then the files hold [partial k], where [k] is how many of its
    operations are complete in the log. *)
Record outcome (e e' : Engine) (ok : bool) (S S' : Store) (partial : nat -> Store) : Prop := {
  oc_ok : ok = true -> eng_rep en e' S';
  oc_err : ok = false -> wal e' = wal e -> mapped (vectors e') = true -> eng_rep en e' S;
  oc_kill : left_files e e' ok S' partial;
}.

(** A write that logs one operation. *)
Definition one_op (S S' : Store) (n : nat) : Store := match n with O => S | _ => S' end.

(** Nothing was logged: the files still hold [S]. *)
Lemma outcome_unlogged e e' m1 ops m0 hc0 hc S S' partial :
  eng_ok en e ops m0 hc0 -> partial O = S -> db m1 = db (meta e) -> is_fresh m1 = is_fresh (meta e) ->
  core_ok en m1 (vectors e') ops m0 hc -> means en m1 (vectors e') S ->
  meta e' = m1 -> wal e' = wal e -> config e' = config e -> id_index e' = id_index e ->
  live m1 = live (meta e) -> dim (vectors e') = dim (vectors e) ->
  outcome e e' false S S' partial.
Proof.
  intros [Hco Hw Hd Hq Hid] Hp Edb Hfr Hco' HS' Em Ew Ec Ei El Ed. split; [done| |].
  - intros _ _ Hm. split; [|split; [done|by rewrite Em]]. exists ops, m0, hc.
    split; rewrite ?Em, ?Ew, ?Ec, ?Ei, ?El, ?Ed; auto.
  - exists ops, []. rewrite app_nil_r, Ew. split; [done|]. split; [by apply wal_disk_rep|]. split; [|done].
    exists m1, (vectors e'), ops, m0, hc. cbn [length]. rewrite Hp.
    rewrite Em, Ew, Ec. split_and!; auto; try congruence; [by apply wal_disk_rep|].
    intros Hf. rewrite <- (app_nil_r ops). eapply fresh_guard; [done|congruence].
Qed.

Lemma map_eq_app_inv {A B} (f : A -> B) l l1 l2 :
  map f l = l1 ++ l2 -> exists k1 k2, l = k1 ++ k2 /\ l1 = map f k1 /\ l2 = map f k2.
Proof.
  intros H. exists (take (length l1) l), (drop (length l1) l). rewrite take_drop. split; [done|].
  rewrite <- firstn_map, <- skipn_map, H.
  by rewrite take_app_length, drop_app_length.
Qed.

Lemma commit_batch_outcome e S ps now io e' r :
  eng_rep en e S -> prepared_ok e ps -> ps <> [] -> room e (len ps) ->
  commit_batch en ps now io e = (e', r) ->
  let rs := numbered now (next_offset (meta e)) (next_seq (meta e)) ps in
  outcome e e' (is_ok r) S (ins_store S rs)
    (fun n => ins_store S (take n rs)) /\
  (is_ok r = true -> r = Ok (len ps)).
Proof.
  intros ((ops & m0 & hc & Hok) & Hm & HS) Hps Hne Hroom Hrun rs.
  pose proof Hok as [Hco Hw Hd Hq Hid]. pose proof Hroom as [Ro Rq].
  set (partial := fun n => ins_store S (take n rs)).
  assert (Hp0 : partial O = S) by done.
  pose proof (numbered_spec now (next_offset (meta e)) (next_seq (meta e)) ps)
    as (N1 & N2 & N3 & N4). fold rs in N1, N2, N3, N4.
  unfold commit_batch in Hrun. unfold st_bind at 1 in Hrun.
  rewrite alloc_records_ok in Hrun by (unfold u64_max in *; lia). fold rs in Hrun.
  set (m1 := set_counters _ _ (meta e)) in Hrun.
  unfold st_bind at 1 in Hrun.
  destruct (st_iter _ rs (set_meta m1 e)) as [e2 r2] eqn:Hput.
  apply put_all in Hput as (vs' & -> & Hle & Hvec);
    [|by apply (co_vs _ _ _ _ _ _ Hco)|done|].
  2: { eapply Forall_impl; [exact N4|]. intros [o rec] [? _]. simpl in *. lia. }
  cbn [vectors set_meta] in Hle, Hvec.
  destruct (batch_written e S ps now ops m0 hc vs' Hok HS Hroom Hle) as (hc' & Hco1 & HS1 & _ & Hnew).
  fold rs in Hnew. specialize (Hnew Hps). fold m1 in Hco1, HS1, Hnew.
  assert (Hun : outcome e (set_vectors vs' (set_meta m1 e)) false S (ins_store S rs) partial).
  { eapply (outcome_unlogged _ _ m1 ops m0 hc hc'); auto; try done. apply (le_dim _ _ _ _ Hle). }
  destruct r2 as [[]|er]; [|by injection Hrun as <- <-].
  destruct (Hvec eq_refl) as [Hmap Hall]. specialize (Hnew Hall).
  unfold st_bind at 1 in Hrun.
  pose proof (sync_state (default 0 (head rs.*1)) (default 0 (last rs.*1)) io
    (set_vectors vs' (set_meta m1 e))) as Hsync.
  destruct (sync_vectors_if_configured _ _ io _) as [e2' [[]|er]]; simpl in Hsync; subst e2';
    [|by injection Hrun as <- <-].
  unfold st_bind at 1 in Hrun.
  destruct (log _ io _) as [e3 r3] eqn:Hlog.
  apply log_state in Hlog as (w' & r3' & Happ & -> & Hr3). cbn [wal set_vectors set_meta] in Happ.
  destruct (append_disk _ _ _ _ _ _ Hw Happ) as (ops1 & ops2 & Eops & Hdisk & Hfull).
  apply map_eq_app_inv in Eops as (rs1 & rs2 & Ers & -> & ->).
  assert (Hn1 : new_rs m1 vs' ops m0 rs1) by (rewrite Ers in Hnew; by eapply new_rs_prefix).
  assert (Hlen : length (map (insert_op en) rs1) = length rs1) by apply length_map.
  assert (Htk : partial (length rs1) = ins_store S rs1) by (unfold partial; by rewrite Ers, take_app_length).
  assert (Hkill : forall e1 ok, db (meta e1) = db (meta e) -> vectors e1 = vs' -> wal e1 = w' ->
    config e1 = config e -> (ok = true -> rs2 = []) -> left_files e e1 ok (ins_store S rs) partial).
  { intros e1 ok F1 F2 F3 F4 Hok1. exists ops, (map (insert_op en) rs1). rewrite F3, Hlen, Htk.
    split; [done|]. split; [done|]. split.
    2: { intros Ht. rewrite Ers, (Hok1 Ht), app_nil_r. done. }
    exists (put_batch m1 rs1), vs', (ops ++ map (insert_op en) rs1), m0, hc'.
    destruct (put_batch_fields m1 rs1) as (_ & Ed & _). rewrite F1, F2, F3, F4, Ed.
    split_and!; auto.
    - by apply core_insert.
    - by eapply means_insert.
    - rewrite (le_dim _ _ _ _ Hle). done.
    - intros Hf. by eapply (fresh_guard m1). }
  destruct r3 as [[]|er].
  2: { injection Hrun as <- <-. split; [|done]. split; [done| |by apply Hkill].
    intros _ Ew Hmp. cbn [wal set_wal] in Ew. subst w'.
    apply (oc_err _ _ _ _ _ _ Hun); [done|done|]. exact Hmp. }
  destruct (Hfull (Hr3 eq_refl)) as [Hnil Hw']. apply map_eq_nil in Hnil as ->.
  rewrite app_nil_r in Ers. subst rs1.
  unfold st_bind in Hrun.
  destruct (submit_and_wait rs io _) as [e4 r4] eqn:Hsub.
  apply submit_fields in Hsub as (Fm & Fv & Fw & Fc & Fok). cbn [set_wal set_vectors set_meta vectors wal config meta id_index] in *.
  assert (Fdb : db (meta e4) = db (meta e)).
  { destruct Fm as [->|[-> _]]; [|done]. by destruct (put_batch_fields m1 rs) as (_ & -> & _). }
  assert (Hk4 : forall ok, left_files e e4 ok (ins_store S rs) partial) by (intros; by apply Hkill).
  destruct r4 as [[]|er]; injection Hrun as <- <-.
  - destruct (Fok eq_refl) as [Em Ei]. cbn [id_index meta set_wal set_vectors set_meta] in Em, Ei.
    split; [|intros _; f_equal; unfold len; by rewrite N3]. split; [|done|done].
    intros _. split; [|rewrite Fv, Em; split; [auto|by eapply means_insert]].
    exists (ops ++ map (insert_op en) rs), m0, hc'. split; rewrite ?Em, ?Fv, ?Fw, ?Fc, ?Ei; auto.
    + by apply core_insert.
    + rewrite (le_dim _ _ _ _ Hle). done.
    + by eapply ids_insert.
  - split; [|done]. split; [done| |done].
    intros _ Ew _. exfalso. rewrite <- Fw, Ew in Hw'.
    pose proof (wal_rep_inj _ _ _ Hw Hw') as E. destruct ps; [done|].
    unfold rs in E. simpl in E. apply (f_equal length) in E. rewrite length_app in E. simpl in E. lia.
Qed.

(** ** Removing and replacing one record *)

Definition replace_op (old o : N) (r : Record_) : WalOp :=
  WReplace old o (r_insert_seq r) (meta_of_record r) (vector_crc en (r_embedding r)).

Lemma core_delete m vs ops m0 hc o :
  core_ok en m vs ops m0 hc -> is_Some (live m !! o) ->
  core_ok en (MetadataStore.remove m o) vs (ops ++ [WDelete o]) m0 hc.
Proof.
  intros Hco Ho. destruct (remove_fields m o) as (_ & Ed & Eo & Eq).
  apply (core_append en m); auto; rewrite ?live_remove; auto.
  - apply remove_wf, (co_ms _ _ _ _ _ _ Hco).
  - by repeat constructor.
  - by repeat constructor.
  - intros o' [= ->]%list_elem_of_singleton. apply src_app. by eapply core_live_src.
  - intros o' [Hin|[= ->]%list_elem_of_singleton]%elem_of_app; [|apply lookup_delete_eq].
    apply lookup_delete_None. right. by apply (co_deleted _ _ _ _ _ _ Hco).
  - intros o' Ho'. apply lookup_delete_is_Some in Ho' as [_ ?]. by apply (co_cur _ _ _ _ _ _ Hco).
  - intros o1 o2 d1 d2 [_ H1]%lookup_delete_Some [_ H2]%lookup_delete_Some.
    by eapply (co_unique _ _ _ _ _ _ Hco).
Qed.

Lemma means_delete m vs ops m0 hc S o d :
  core_ok en m vs ops m0 hc -> means en m vs S -> live m !! o = Some d ->
  means en (MetadataStore.remove m o) vs (delete (id_of_dur d) S).
Proof.
  intros Hco HS Ho i d' v. rewrite lookup_delete_Some, (HS i d' v), live_remove. split.
  - intros (Hne & o' & Hl & <- & ->). exists o'. split; [|done].
    apply lookup_delete_Some. split; [|done]. intros <-. congruence.
  - intros (o' & [Hne Hl]%lookup_delete_Some & <- & ->). split; [|eauto].
    intros E. apply Hne. by eapply (co_unique _ _ _ _ _ _ Hco).
Qed.

(** The replacement is numbered past everything in use and its vector is written. *)
Record new_version (m : MetadataStore) (vs : VectorStore.Inner) (ops : list WalOp)
    (m0 : MetadataStore) (old o : N) (r : Record_) : Prop := {
  nv_old : exists d, live m !! old = Some d /\ id_of_dur d = r_id r;
  nv_off : o < next_offset m /\ ~ src m0 ops o;
  nv_seq : la_of m0 < r_insert_seq r < next_seq m;
  nv_vec : o < slots vs /\ o < VectorStore.count vs /\
           VectorStore.slot vs o = vec_bytes en (r_embedding r) /\
           Forall (fun x => x < U32) (r_embedding r);
}.

Definition replaced (m : MetadataStore) (old o : N) (r : Record_) : MetadataStore :=
  put_batch (MetadataStore.remove m old) [(o, r)].

Lemma replaced_fields m old o r :
  live (replaced m old o r) = <[o := durable (meta_of_record r)]> (delete old (live m)) /\
  db (replaced m old o r) = db m /\ next_offset (replaced m old o r) = next_offset m /\
  next_seq (replaced m old o r) = next_seq m.
Proof.
  unfold replaced. destruct (put_batch_fields (MetadataStore.remove m old) [(o, r)]) as (E1 & E2 & E3 & E4).
  destruct (remove_fields m old) as (_ & F2 & F3 & F4).
  rewrite E1, E2, E3, E4, live_remove. done.
Qed.

Lemma live_replaced m vs ops m0 hc old o r o' d :
  core_ok en m vs ops m0 hc -> new_version m vs ops m0 old o r ->
  live (replaced m old o r) !! o' = Some d <->
  (o' = o /\ d = durable (meta_of_record r)) \/
  (live m !! o' = Some d /\ id_of_dur d <> r_id r).
Proof.
  intros Hco Hn. rewrite (proj1 (replaced_fields m old o r)).
  destruct (nv_old _ _ _ _ _ _ _ Hn) as (d0 & Hd0 & Hid0).
  rewrite lookup_insert_Some, lookup_delete_Some. split.
  - intros [[<- <-]|(Hne & Hold & Hl)]; [by left|right]. split; [done|].
    intros E. apply Hold. eapply (co_unique _ _ _ _ _ _ Hco); [exact Hd0|exact Hl|congruence].
  - intros [[-> ->]|[Hl Hid]]; [by left|right]. split_and!; [| |done].
    + intros <-. apply (nv_off _ _ _ _ _ _ _ Hn).
      apply (core_live_src en _ _ _ _ _ _ Hco). by rewrite Hl.
    + intros <-. congruence.
Qed.

Lemma core_replace m vs ops m0 hc old o r :
  core_ok en m vs ops m0 hc -> new_version m vs ops m0 old o r ->
  core_ok en (replaced m old o r) vs (ops ++ [replace_op old o r]) m0 hc.
Proof.
  intros Hco Hn. pose proof (live_replaced m vs ops m0 hc old o r) as Hl.
  destruct (replaced_fields m old o r) as (El & Ed & Eo & Eq).
  pose proof Hn as [A1 [A2 A2'] A3 (A4 & A5 & A6 & A7)].
  apply (core_append en m); auto.
  - apply put_batch_wf, remove_wf, (co_ms _ _ _ _ _ _ Hco).
  - rewrite El. simpl. by rewrite (proj2 (N.ltb_lt _ _)) by apply A3.
  - constructor; [|done]. simpl. intros _. split; [done|]. unfold vector_crc. by rewrite A6.
  - constructor; [|done]. simpl. rewrite (proj2 (N.ltb_lt _ _)) by apply A3.
    intros o' q' [= <- <-]. split; [done|apply A3].
  - intros o' Ho'. apply list_elem_of_singleton in Ho'. done.
  - intros o' [Hin|Hin]%elem_of_app; [|apply list_elem_of_singleton in Hin; done].
    destruct (co_deleted _ _ _ _ _ _ Hco o' Hin) as [Hs Hno]. apply eq_None_not_Some. intros [d Hd].
    apply (Hl o' d Hco Hn) in Hd as [[-> _]|[? _]]; [done|congruence].
  - intros o' [d Hd]. apply (Hl o' d Hco Hn) in Hd as [[-> _]|[Hd _]]; [done|].
    apply (co_cur _ _ _ _ _ _ Hco). by rewrite Hd.
  - intros o1 o2 d1 d2 H1 H2 Hid. apply (Hl _ _ Hco Hn) in H1, H2.
    destruct H1 as [[-> ->]|[H1 N1]], H2 as [[-> ->]|[H2 N2]]; [done| | |].
    + exfalso. apply N2. by rewrite <- Hid.
    + exfalso. apply N1. by rewrite Hid.
    + by eapply (co_unique _ _ _ _ _ _ Hco).
Qed.

Lemma means_replace m vs ops m0 hc S old o r :
  core_ok en m vs ops m0 hc -> new_version m vs ops m0 old o r -> means en m vs S ->
  means en (replaced m old o r) vs (<[r_id r := store_of r]> S).
Proof.
  intros Hco Hn HS i d v. rewrite lookup_insert_Some, (HS i d v).
  setoid_rewrite (live_replaced m vs ops m0 hc old o r _ _ Hco Hn).
  destruct (nv_vec _ _ _ _ _ _ _ Hn) as (_ & _ & Hs & Hb).
  assert (Hv : vector_at en vs o = r_embedding r) by (unfold vector_at; rewrite Hs; by apply cast_vec_bytes).
  split.
  - intros [[<- [= <- <-]]|(Hne & o' & Hl & <- & ->)].
    + exists o. split; [by left|]. by rewrite Hv.
    + exists o'. split; [right; split; [done|congruence]|done].
  - intros (o' & [[-> ->]|[Hl Hid]] & <- & ->).
    + left. split; [done|]. unfold store_of. by rewrite Hv.
    + right. split; [congruence|]. eauto.
Qed.

Lemma remove_from_indexes_fields i o e e' r :
  remove_from_indexes i o e = (e', r) ->
  vectors e' = vectors e /\ wal e' = wal e /\ config e' = config e /\
  (r = Ok tt -> meta e' = MetadataStore.remove (meta e) o /\ id_index e' = delete i (id_index e)) /\
  (r <> Ok tt -> meta e' = meta e).
Proof.
  unfold remove_from_indexes, st_bind, st_modify, on.
  destruct (MetadataStore.get (meta e) o) as [m|].
  - simpl. destruct (text_remove _ _) as [t [[]|er]]; intros [= <- <-]; by split_and!.
  - intros [= <- <-]. by split_and!.
Qed.

(** Nothing happened at all. *)
Lemma outcome_same e S partial :
  eng_rep en e S -> partial O = S -> forall S' ok, (ok = true -> S' = S) -> outcome e e ok S S' partial.
Proof.
  intros He Hp S' ok HS. split; [by intros E; rewrite HS|done|].
  pose proof (eng_files e S He) as Hf. destruct He as ((ops & m0 & hc & [_ Hw _ _ _]) & _).
  exists ops, []. rewrite app_nil_r. split; [done|]. split; [by apply wal_disk_rep|].
  cbn [length]. rewrite Hp. split; [done|]. intros E. by rewrite HS.
Qed.

(** The stores a killed process may leave, written another way. *)
Lemma outcome_partial e e' ok S S' partial partial' :
  (forall n, partial n = partial' n) -> outcome e e' ok S S' partial -> outcome e e' ok S S' partial'.
Proof.
  intros E [O1 O2 (ops & ops1 & H1 & H2 & H3 & H4)]. split; [done|done|].
  exists ops, ops1. rewrite <- E. by split_and!.
Qed.

Lemma single_prefix {A} (x : A) l1 l2 : [x] = l1 ++ l2 -> l1 = [] \/ (l1 = [x] /\ l2 = []).
Proof. destruct l1 as [|y [|z l1]]; simpl; [by left| |done]. intros [= -> <-]. by right. Qed.

Lemma logged_unchanged w ops op w' : wal_rep en w ops -> wal_rep en w' (ops ++ [op]) -> w' <> w.
Proof.
  intros H1 H2 ->. pose proof (wal_rep_inj _ _ _ H1 H2) as E.
  apply (f_equal length) in E. rewrite length_app in E. simpl in E. lia.
Qed.

(** ** Delete *)

Lemma delete_outcome e S i matches io e' r :
  eng_rep en e S -> delete_where i matches io e = (e', r) ->
  outcome e e' (is_ok r) S (if bool_decide (r = Ok true) then delete i S else S)
    (one_op S (delete i S)) /\
  (r = Ok true -> is_Some (S !! i)).
Proof.
  intros He Hrun. pose proof He as ((ops & m0 & hc & [Hco Hw Hd Hq Hid]) & Hm & HS).
  assert (Hsame : forall ok S', (ok = true -> S' = S) ->
    outcome e e ok S S' (one_op S (delete i S)))
    by (intros; by apply outcome_same).
  unfold delete_where in Hrun. destruct (id_index e !! i) as [o|] eqn:Hi; [|injection Hrun as <- <-; split; [by apply Hsame; rewrite bool_decide_eq_false_2|done]].
  destruct (matches o); [|injection Hrun as <- <-; split; [by apply Hsame; rewrite bool_decide_eq_false_2|done]].
  destruct (proj1 (Hid i o) Hi) as (d & Hl & Hdi). unfold st_bind at 1 in Hrun.
  destruct (log _ io e) as [e1 r1] eqn:Hlog.
  apply log_state in Hlog as (w' & r1' & Happ & -> & Hr1).
  destruct (append_disk _ _ _ _ _ _ Hw Happ) as (ops1 & ops2 & Eops & Hdisk & Hfull).
  assert (Hkill : forall e1 ok S', db (meta e1) = db (meta e) -> vectors e1 = vectors e -> wal e1 = w' ->
    config e1 = config e -> (ok = true -> ops1 <> [] /\ S' = delete i S) ->
    left_files e e1 ok S' (one_op S (delete i S))).
  { intros e1 ok S' F1 F2 F3 F4 Hok1. exists ops, ops1. rewrite F3. split; [done|]. split; [done|].
    rewrite <- F3 in Hdisk. destruct (single_prefix _ _ _ Eops) as [->|[-> _]]; cbn [length one_op].
    - split; [|intros Ht; by destruct (Hok1 Ht)].
      exists (meta e), (vectors e), ops, m0, hc. rewrite app_nil_r in Hdisk. rewrite F1, F2, F4.
      split_and!; auto. intros Hf. rewrite <- (app_nil_r ops). by eapply fresh_guard.
    - split; [|intros Ht; by destruct (Hok1 Ht)].
      exists (MetadataStore.remove (meta e) o), (vectors e), (ops ++ [WDelete o]), m0, hc.
      destruct (remove_fields (meta e) o) as (_ & Ed & _). rewrite F1, F2, F4, Ed.
      split_and!; auto; [by apply core_delete; [|rewrite Hl]| |intros Hf; by eapply fresh_guard].
      rewrite <- Hdi. by eapply means_delete. }
  destruct r1 as [[]|er].
  2: { injection Hrun as <- <-. split; [|done]. split; [done| |by apply Hkill].
    intros _ Ew _. cbn [wal set_wal] in Ew. subst w'. by rewrite set_wal_id. }
  destruct (single_prefix _ _ _ Eops) as [E1|[E1 E2]].
  - destruct (Hfull (Hr1 eq_refl)) as [-> _]. by rewrite E1 in Eops.
  - assert (Hne : ops1 <> []) by (by rewrite E1).
    destruct (Hfull (Hr1 eq_refl)) as [_ Hw']. unfold st_bind in Hrun.
    destruct (remove_from_indexes i o _) as [e2 r2] eqn:Hrem.
    apply remove_from_indexes_fields in Hrem as (Fv & Fw & Fc & Fok & Ferr).
    cbn [set_wal vectors wal config meta id_index] in *.
    assert (Fdb : db (meta e2) = db (meta e)).
    { destruct r2 as [[]|er]; [|by rewrite Ferr]. destruct (Fok eq_refl) as [-> _].
      by destruct (remove_fields (meta e) o) as (_ & -> & _). }
    destruct r2 as [[]|er]; injection Hrun as <- <-; cbn [is_ok].
    + destruct (Fok eq_refl) as [Em Ei]. split; [|intros _; exists (d, vector_at en (vectors e) o); apply HS; eauto].
      rewrite bool_decide_eq_true_2 by done. split; [|done|by apply Hkill].
      intros _. split; [|rewrite Fv, Em; split; [done|rewrite <- Hdi; by eapply means_delete]].
      exists (ops ++ [WDelete o]), m0, hc. split; rewrite ?Em, ?Fv, ?Fw, ?Fc, ?Ei; auto.
      * by apply core_delete; [|rewrite Hl].
      * intros j o'. rewrite lookup_delete_Some, live_remove, (Hid j o').
        setoid_rewrite lookup_delete_Some. split.
        -- intros (Hno & d' & Hl' & <-). exists d'. split; [|done]. split; [|done]. congruence.
        -- intros (d' & [Hno Hl'] & <-). split; [|eauto]. intros E. apply Hno.
           eapply (co_unique _ _ _ _ _ _ Hco); [exact Hl|exact Hl'|congruence].
    + split; [|done]. split; [done| |by apply Hkill].
      intros _ Ew _. exfalso. rewrite Fw in Ew. by apply (logged_unchanged _ _ _ _ Hw Hw').
Qed.

(** ** Insert *)

Lemma prepare_ok e input v p :
  prepare e input v = Ok p ->
  p_id p = i_id input /\ Forall (fun x => x < U32) (p_embedding p) /\
  len (p_embedding p) = dimension_of (config e).
Proof.
  unfold prepare. case_bool_decide; [done|].
  unfold validate_dimension. destruct (N.eqb_spec (len (i_embedding input)) (dimension_of (config e)));
    [simpl|done].
  destruct (negb (is_finite _)); [done|].
  destruct (match i_payload input with Some _ => _ | None => _ end); [simpl|done].
  destruct (normalize (i_embedding input)) as [w|] eqn:Hn; [simpl|done]. intros [= <-]. simpl.
  split; [done|]. split; [by eapply normalize_bits|]. by rewrite (normalize_len _ _ Hn).
Qed.

Lemma prepare_batch_ok e v inputs seen ps :
  prepare_batch e v inputs seen = Ok ps ->
  NoDup (map p_id ps) /\ Forall (fun p => Forall (fun x => x < U32) (p_embedding p)) ps /\
  Forall (fun p => p_id p ∉ seen) ps.
Proof.
  revert seen ps. induction inputs as [|i inputs IH]; intros seen ps; simpl.
  { intros [= <-]. split_and!; constructor. }
  destruct (prepare e i v) as [p|] eqn:Hp; [simpl|done].
  apply prepare_ok in Hp as (Ei & Hb & _). case_decide as Hs; [by apply IH|].
  destruct (prepare_batch e v inputs _) as [rest|] eqn:Hr; [simpl|done]. intros [= <-].
  apply IH in Hr as (H1 & H2 & H3). simpl. split_and!.
  - constructor; [|done]. intros (p' & E & Hin)%list_elem_of_fmap.
    apply (proj1 (Forall_forall _ _) H3 p' Hin). rewrite <- E, Ei.
    by apply elem_of_union_l, elem_of_singleton_2.
  - by constructor.
  - constructor; [by rewrite Ei|]. eapply Forall_impl; [exact H3|].
    intros q Hq Hc. by apply Hq, elem_of_union_r.
Qed.

Lemma insert_commit e input now io p :
  prepare e input (vocab (graph e)) = Ok p -> id_index e !! i_id input = None ->
  insert_with_payload_role en input now io e =
  ((commit_batch en [p] now io e).1, (fun _ => true) <$> (commit_batch en [p] now io e).2).
Proof.
  intros Hp Hi. unfold insert_with_payload_role, commit_batch. rewrite Hp, Hi.
  rewrite bool_decide_eq_false_2 by (by intros [? ?]).
  cbn [alloc_records]. unfold st_bind, st_ret, alloc_offset, alloc_seq, allocate_offset, allocate_seq.
  cbn -[vectors_put sync_vectors_if_configured log submit_and_wait]. unfold st_bind, st_ret.
  destruct (vectors_put _ _ _ _ _) as [e1 [[]|er]]; [|done].
  destruct (sync_vectors_if_configured _ _ _ _) as [e2 [[]|er]]; [|done].
  destruct (log _ _ _) as [e3 [[]|er]]; [|done].
  by destruct (submit_and_wait _ _ _) as [e4 [[]|er]].
Qed.

Lemma insert_outcome e S input now io e' r :
  eng_rep en e S -> room e 1 -> insert_with_payload_role en input now io e = (e', r) ->
  (e' = e /\ (exists er, r = Err er) /\
   ((exists er, prepare e input (vocab (graph e)) = Err er /\ r = Err er) \/
    (r = Err (DuplicateId (i_id input)) /\ is_Some (S !! i_id input)))) \/
  (exists p, prepare e input (vocab (graph e)) = Ok p /\ S !! i_id input = None /\
   let rec := into_record p (next_seq (meta e)) now in
   outcome e e' (is_ok r) S (<[i_id input := store_of rec]> S)
     (one_op S (<[i_id input := store_of rec]> S)) /\
   (is_ok r = true -> r = Ok true)).
Proof.
  intros He Hroom Hrun. pose proof He as ((ops & m0 & hc & [Hco Hw Hd Hq Hid]) & Hm & HS).
  destruct (prepare e input (vocab (graph e))) as [p|er] eqn:Hp.
  2: { left. unfold insert_with_payload_role in Hrun. rewrite Hp in Hrun. injection Hrun as <- <-.
    split_and!; eauto. }
  destruct (id_index e !! i_id input) as [o|] eqn:Hi.
  { left. unfold insert_with_payload_role in Hrun. rewrite Hp, Hi in Hrun. injection Hrun as <- <-.
    split_and!; eauto. right. split; [done|].
    destruct (proj1 (Hid _ _) Hi) as (d & Hl & Hdi). exists (d, vector_at en (vectors e) o). apply HS. eauto. }
  right. exists p. split; [done|]. split.
  { destruct (S !! i_id input) as [[d v]|] eqn:E; [|done]. apply HS in E as (o & Hl & Hdi & _).
    assert (id_index e !! i_id input = Some o) by (apply Hid; eauto). congruence. }
  rewrite (insert_commit _ _ _ _ p Hp Hi) in Hrun.
  destruct (commit_batch en [p] now io e) as [e1 r1] eqn:Hc. simpl in Hrun. injection Hrun as <- <-.
  destruct (prepare_ok _ _ _ _ Hp) as (Ei & Hb & _).
  destruct (commit_batch_outcome e S [p] now io e1 r1 He) as [Hout _]; auto.
  { split; [by constructor| |constructor; [by rewrite Ei|done]]. simpl. constructor; [set_solver|constructor]. }
  assert (Eok : is_ok ((fun _ => true) <$> r1) = is_ok r1) by (by destruct r1).
  rewrite Eok. split; [|by destruct r1]. unfold ins_store in Hout. cbn [numbered foldl fst snd] in Hout.
  change (r_id (into_record p (next_seq (meta e)) now)) with (p_id p) in Hout. rewrite Ei in Hout.
  revert Hout. apply outcome_partial. intros [|n]; cbn [take one_op foldl]; [done|].
  cbn [firstn]. rewrite firstn_nil. cbn [foldl fst snd].
  change (r_id (into_record p (next_seq (meta e)) now)) with (p_id p). by rewrite Ei.
Qed.

(** ** Batch insert *)

(** The records a batch commits: valid, first of their id in the batch, and not
    stored yet. *)
Definition batch_records (e : Engine) (b : BatchInput) (now : N) : list (N * Record_) :=
  match prepare_batch e (vocab (graph e)) (inputs_of b) ∅ with
  | Ok prepared =>
      numbered now (next_offset (meta e)) (next_seq (meta e))
        (filter (fun p => id_index e !! p_id p = None) prepared)
  | Err _ => []
  end.

Lemma length_inputs b : length (inputs_of b) = length (ids b).
Proof. unfold inputs_of. by rewrite length_map, length_seq. Qed.

Lemma prepare_batch_len e v inputs seen ps :
  prepare_batch e v inputs seen = Ok ps -> (length ps <= length inputs)%nat.
Proof.
  revert seen ps. induction inputs as [|i inputs IH]; intros seen ps; simpl.
  { intros [= <-]. simpl. lia. }
  destruct (prepare e i v) as [p|]; [simpl|done]. case_decide.
  - intros H'%IH. lia.
  - destruct (prepare_batch e v inputs _) as [rest|] eqn:Hr; [simpl|done]. intros [= <-].
    apply IH in Hr. simpl. lia.
Qed.

Lemma batch_records_len e b now : (length (batch_records e b now) <= length (ids b))%nat.
Proof.
  unfold batch_records. destruct (prepare_batch _ _ _ _) as [ps|] eqn:Hp; [|simpl; lia].
  apply prepare_batch_len in Hp. rewrite length_inputs in Hp.
  destruct (numbered_spec now (next_offset (meta e)) (next_seq (meta e))
    (filter (fun p => id_index e !! p_id p = None) ps)) as (_ & _ & -> & _).
  pose proof (length_filter (fun p => id_index e !! p_id p = None) ps). lia.
Qed.

Lemma batch_outcome e S b now io e' r :
  eng_rep en e S -> room e (len (ids b)) -> insert_batch_with_payload_role en b now io e = (e', r) ->
  (e' = e /\ (exists er, r = Err er)) \/
  (let rs := batch_records e b now in
   outcome e e' (is_ok r) S (ins_store S rs)
     (fun n => ins_store S (take n rs)) /\
   (is_ok r = true -> r = Ok (len rs))).
Proof.
  intros He Hroom Hrun. unfold insert_batch_with_payload_role in Hrun.
  assert (Hsame : forall rs : list (N * Record_), rs = [] -> forall ok, outcome e e ok S (ins_store S rs)
    (fun n => ins_store S (take n rs))).
  { intros rs -> ok. by apply outcome_same. }
  destruct (ids b) as [|i0 ids0] eqn:Hids.
  { injection Hrun as <- <-. right.
    assert (E : batch_records e b now = []).
    { unfold batch_records, inputs_of. by rewrite Hids. }
    rewrite E. split; [by apply Hsame|done]. }
  destruct (negb (lengths_ok b)); [injection Hrun as <- <-; left; eauto|].
  unfold batch_records.
  destruct (prepare_batch e (vocab (graph e)) (inputs_of b) ∅) as [ps|er] eqn:Hp;
    [|injection Hrun as <- <-; left; eauto].
  right. destruct (prepare_batch_ok _ _ _ _ _ Hp) as (H1 & H2 & _).
  pose proof (prepare_batch_len _ _ _ _ _ Hp) as Hlen. rewrite length_inputs, Hids in Hlen.
  set (fp := filter (fun p => id_index e !! p_id p = None) ps) in *.
  destruct (decide (length fp = 0%nat)) as [E%nil_length_inv|Hne].
  { rewrite E in *. injection Hrun as <- <-. split; [by apply Hsame|done]. }
  assert (Hsub : fp `sublist_of` ps) by apply sublist_filter.
  assert (Hfl : (length fp <= length ps)%nat) by (by apply sublist_length).
  destruct (commit_batch_outcome e S fp now io e' r He) as [Hout Hval].
  - split.
    + apply Forall_forall. intros p Hin. apply (proj1 (Forall_forall _ _) H2).
      unfold fp in Hin. by apply list_elem_of_filter in Hin as [_ ?].
    + eapply sublist_NoDup; [exact H1|]. by apply fmap_sublist.
    + apply Forall_forall. intros p Hin. unfold fp in Hin. by apply list_elem_of_filter in Hin as [? _].
  - intros E. by rewrite E in Hne.
  - destruct Hroom as [R1 R2]. unfold room, len in *. lia.
  - destruct fp; [done|exact Hrun].
  - split; [exact Hout|]. intros Hok. rewrite (Hval Hok).
    destruct (numbered_spec now (next_offset (meta e)) (next_seq (meta e)) fp) as (_ & _ & E & _).
    unfold len. by rewrite E.
Qed.

(** ** Update *)

Lemma update_unfold e input p old now io :
  room e 1 -> prepare e input (vocab (graph e)) = Ok p -> id_index e !! i_id input = Some old ->
  let rec := into_record p (next_seq (meta e)) now in
  let o := next_offset (meta e) in
  update_with_payload_role en input now io e =
  (vectors_put en o (r_embedding rec) io ;!
   sync_vectors_if_configured o o io ;!
   log [replace_op old o rec] io ;!
   remove_from_indexes (i_id input) old ;!
   submit_and_wait [(o, rec)] io ;!
   st_ret true)
  (set_meta (set_counters (next_offset (meta e) + 1) (next_seq (meta e) + 1) (meta e)) e).
Proof.
  intros [Ro Rq] Hp Hi rec o. unfold update_with_payload_role, contains_id. rewrite Hi, Hp.
  rewrite bool_decide_eq_true_2 by done. cbn [negb].
  unfold st_bind at 1 2, alloc_offset, alloc_seq, allocate_offset, allocate_seq.
  cbn [set_meta meta next_seq next_offset set_counters]. rewrite !wadd64_small by lia. done.
Qed.

(** The files after the log call of an update. *)
Lemma update_logged e S ops m0 hc m1 vs' hc' old o rec io w' r :
  eng_ok en e ops m0 hc -> core_ok en m1 vs' ops m0 hc' -> means en m1 vs' S ->
  new_version m1 vs' ops m0 old o rec -> db m1 = db (meta e) -> is_fresh m1 = is_fresh (meta e) ->
  dim vs' = dim (vectors e) ->
  append_batch (wal e) [replace_op old o rec] io = (w', r) ->
  forall e1 ok, db (meta e1) = db (meta e) -> vectors e1 = vs' -> wal e1 = w' ->
    config e1 = config e -> (ok = true -> r = Ok tt) ->
    left_files e e1 ok (<[r_id rec := store_of rec]> S) (one_op S (<[r_id rec := store_of rec]> S)).
Proof.
  intros [Hco Hw Hd Hq Hid] Hco1 HS1 Hn Edb Efr Ed Happ e1 ok F1 F2 F3 F4 Hok1.
  destruct (append_disk _ _ _ _ _ _ Hw Happ) as (ops1 & ops2 & Eops & Hdisk & Hfull).
  exists ops, ops1. rewrite F3. split; [done|]. split; [done|].
  destruct (single_prefix _ _ _ Eops) as [->|[-> _]]; cbn [length one_op].
  - split.
    2: { intros Ht. destruct (Hfull (Hok1 Ht)) as [-> _]. done. }
    rewrite app_nil_r in Hdisk. exists m1, vs', ops, m0, hc'.
    rewrite F1, F2, F3, F4. split_and!; auto; [congruence|].
    intros Hf. rewrite <- (app_nil_r ops). eapply fresh_guard; [done|congruence].
  - split; [|done]. exists (replaced m1 old o rec), vs', (ops ++ [replace_op old o rec]), m0, hc'.
    destruct (replaced_fields m1 old o rec) as (_ & E & _). rewrite F1, F2, F3, F4, E.
    split_and!; auto; [by apply core_replace|by eapply means_replace|congruence|].
    intros Hf. eapply fresh_guard; [exact Hco1|congruence].
Qed.

Lemma ids_replace m vs ops m0 hc old o r (idx : gmap string N) :
  core_ok en m vs ops m0 hc -> new_version m vs ops m0 old o r ->
  (forall i o, idx !! i = Some o <-> exists d, live m !! o = Some d /\ id_of_dur d = i) ->
  forall i o', <[r_id r := o]> (delete (r_id r) idx) !! i = Some o' <->
    exists d, live (replaced m old o r) !! o' = Some d /\ id_of_dur d = i.
Proof.
  intros Hco Hn Hid i o'. rewrite insert_delete_eq, lookup_insert_Some, (Hid i o').
  setoid_rewrite (live_replaced m vs ops m0 hc old o r _ _ Hco Hn). split.
  - intros [[<- <-]|(Hne & d & Hl & <-)].
    + eexists. split; [by left|done].
    + exists d. split; [right; split; [done|congruence]|done].
  - intros (d & [[-> ->]|[Hl Hne]] & <-); [by left|right]. split; [congruence|eauto].
Qed.

Lemma update_commit_outcome e S input p old now io e' r :
  eng_rep en e S -> room e 1 -> prepare e input (vocab (graph e)) = Ok p ->
  id_index e !! i_id input = Some old ->
  update_with_payload_role en input now io e = (e', r) ->
  let rec := into_record p (next_seq (meta e)) now in
  outcome e e' (is_ok r) S (<[i_id input := store_of rec]> S)
    (one_op S (<[i_id input := store_of rec]> S)) /\
  (is_ok r = true -> r = Ok true).
Proof.
  intros ((ops & m0 & hc & Hok) & Hm & HS) Hroom Hp Hi Hrun rec.
  pose proof Hok as [Hco Hw Hd Hq Hid]. pose proof Hroom as [Ro Rq].
  destruct (prepare_ok _ _ _ _ Hp) as (Ei & Hb & _).
  destruct (proj1 (Hid _ _) Hi) as (d & Hl & Hdi).
  rewrite (update_unfold _ _ _ _ _ _ Hroom Hp Hi) in Hrun. fold rec in Hrun.
  set (m1 := set_counters _ _ (meta e)) in Hrun. set (o := next_offset (meta e)) in Hrun.
  unfold st_bind at 1, vectors_put, on in Hrun. cbn [set_meta vectors] in Hrun.
  destruct (VectorStore.put en (vectors e) o (r_embedding rec) (w_grow io o)) as [vs' r2] eqn:Hput.
  assert (Hou : o < u64_max) by (unfold o; lia).
  pose proof (put_le en _ _ _ _ _ _ (co_vs _ _ _ _ _ _ Hco) Hou Hput) as Hle.
  assert (Hle' : vs_le en (fun x => x ∈ (numbered now o (next_seq (meta e)) [p]).*1) (vectors e) vs')
    by (eapply vs_le_weaken; [|exact Hle]; simpl; set_solver).
  destruct (batch_written e S [p] now ops m0 hc vs' Hok HS Hroom Hle') as (hc' & Hco1 & HS1 & Hnum & _).
  fold m1 in Hco1, HS1, Hnum. fold o in Hnum.
  set (S' := <[i_id input := store_of rec]> S).
  assert (Hun : outcome e (set_vectors vs' (set_meta m1 e)) false S S' (one_op S S')).
  { eapply (outcome_unlogged _ _ m1 ops m0 hc hc'); auto; try done. apply (le_dim _ _ _ _ Hle). }
  destruct r2 as [[]|er]; [|by injection Hrun as <- <-].
  destruct (put_ok en _ _ _ _ _ (co_vs _ _ _ _ _ _ Hco) Hou Hput)
    as (_ & Mv & _ & _ & Sl & _ & Cv & Lv & _).
  assert (Hnv : new_version m1 vs' ops m0 old o rec).
  { destruct (Hnum o rec) as (? & ? & ?); [simpl; set_solver|].
    split; auto; [exists d; split; [done|]; simpl; by rewrite Ei|].
    split_and!; auto. rewrite Cv. lia. }
  unfold st_bind at 1 in Hrun.
  pose proof (sync_state o o io (set_vectors vs' (set_meta m1 e))) as Hsync.
  destruct (sync_vectors_if_configured _ _ io _) as [e2' [[]|er]]; simpl in Hsync; subst e2';
    [|by injection Hrun as <- <-].
  unfold st_bind at 1 in Hrun. destruct (log _ io _) as [e3 r3] eqn:Hlog.
  apply log_state in Hlog as (w' & r3' & Happ & -> & Hr3). cbn [wal set_vectors set_meta] in Happ.
  pose proof (update_logged e S ops m0 hc m1 vs' hc' old o rec _ _ _ Hok Hco1 HS1 Hnv eq_refl eq_refl
    (le_dim _ _ _ _ Hle) Happ) as Hkill.
  assert (Erid : r_id rec = i_id input) by done. rewrite Erid in Hkill. fold S' in Hkill.
  destruct r3 as [[]|er].
  2: { injection Hrun as <- <-. split; [|done]. split; [done| |by apply Hkill].
    intros _ Ew Hmp. cbn [wal set_wal] in Ew. subst w'. by apply (oc_err _ _ _ _ _ _ Hun). }
  destruct (append_disk _ _ _ _ _ _ Hw Happ) as (? & ? & _ & _ & Hfull).
  destruct (Hfull (Hr3 eq_refl)) as [_ Hw'].
  unfold st_bind in Hrun.
  destruct (remove_from_indexes (i_id input) old _) as [e4 r4] eqn:Hrem.
  apply remove_from_indexes_fields in Hrem as (Fv & Fw & Fc & Fok & Ferr).
  cbn [set_wal set_vectors set_meta vectors wal config meta id_index] in *.
  assert (Hfail : forall e5, db (meta e5) = db (meta e) -> vectors e5 = vs' -> wal e5 = w' ->
    config e5 = config e -> outcome e e5 false S S' (one_op S S')).
  { intros e5 G1 G2 G3 G4. split; [done| |by apply Hkill].
    intros _ Ew _. exfalso. rewrite G3 in Ew. by apply (logged_unchanged _ _ _ _ Hw Hw'). }
  destruct r4 as [[]|er].
  2: { injection Hrun as <- <-. split; [|done]. apply Hfail; auto. by rewrite Ferr. }
  destruct (Fok eq_refl) as [Em4 Ei4].
  destruct (submit_and_wait _ io e4) as [e5 r5] eqn:Hsub.
  apply submit_fields in Hsub as (Gm & Gv & Gw & Gc & Gok). rewrite Em4 in Gm.
  assert (Gdb : db (meta e5) = db (meta e)).
  { destruct (remove_fields m1 old) as (_ & E & _). destruct Gm as [->|[-> _]]; [|exact E].
    by destruct (put_batch_fields (MetadataStore.remove m1 old) [(o, rec)]) as (_ & -> & _). }
  rewrite Fv in Gv. rewrite Fw in Gw. rewrite Fc in Gc.
  destruct r5 as [[]|er]; injection Hrun as <- <-; (split; [|done]); [|by apply Hfail].
  destruct (Gok eq_refl) as [Em5 Ei5]. rewrite Em4 in Em5. rewrite Ei4 in Ei5. cbn [foldl fst snd] in Ei5.
  rewrite Erid in Ei5. fold (replaced m1 old o rec) in Em5.
  split; [|done|apply Hkill; auto].
  intros _. split; [|rewrite Gv, Em5; split; [done|]; unfold S'; rewrite <- Erid; by eapply means_replace].
  exists (ops ++ [replace_op old o rec]), m0, hc'. split; rewrite ?Em5, ?Gv, ?Gw, ?Gc, ?Ei5; auto.
  - by apply core_replace.
  - rewrite (le_dim _ _ _ _ Hle). done.
  - rewrite <- Erid. by eapply ids_replace.
Qed.

(** ** Flush *)

Lemma core_same m m' vs ops m0 hc :
  core_ok en m vs ops m0 hc -> ms_wf m' -> db m' = db m -> next_offset m' = next_offset m ->
  next_seq m' = next_seq m -> live m' = live m -> core_ok en m' vs ops m0 hc.
Proof.
  intros [A1 A2 A3 A4 A5 A6 A7 A8 A9 A10 A11 A12 A13] Hm Ed Eo Eq El.
  split; rewrite ?Ed, ?Eo, ?Eq, ?El; auto.
Qed.

Lemma fresh_same m m' :
  ms_wf m -> ms_wf m' -> db m' = db m -> live m' = live m -> is_fresh m' = is_fresh m.
Proof.
  intros H1 H2 Ed El. unfold is_fresh, last_applied_seq. rewrite Ed.
  rewrite (wf_count m H1), (wf_count m' H2).
  assert (Hsz : forall x : MetadataStore, size (live x) = size (records x))
    by (intros x; apply map_size_fmap).
  by rewrite <- !Hsz, El.
Qed.

(** Draining the access counters touches no durable field. *)
Lemma drain_fields c m :
  ms_wf m ->
  let m' := (drain_into c m).2 in
  ms_wf m' /\ db m' = db m /\ next_offset m' = next_offset m /\ next_seq m' = next_seq m /\
  live m' = live m.
Proof.
  simpl. generalize (map_to_list (counters c)). intros l. revert m.
  induction l as [|[o en'] l IH]; intros m Hm; cbn [foldl]; [done|].
  assert (H1 : let m' := drain_one (history_len c) m (o, en') in
    ms_wf m' /\ db m' = db m /\ next_offset m' = next_offset m /\ next_seq m' = next_seq m /\
    live m' = live m).
  { unfold drain_one. destruct (_ =? 0); [done|].
    destruct (MetadataStore.get m o) as [mr|] eqn:Hg; [|done].
    set (m1 := put_meta _ _ _).
    assert (Hl : live m1 = live m).
    { unfold m1. rewrite live_put_meta. apply insert_id. rewrite live_lookup.
      unfold MetadataStore.get in Hg. rewrite Hg. by destruct mr. }
    split; [by apply append_access_history_wf, put_meta_wf|].
    unfold append_access_history. by case_match. }
  destruct H1 as (F1 & F2 & F3 & F4 & F5). destruct (IH _ F1) as (G1 & G2 & G3 & G4 & G5).
  split_and!; [done|congruence..].
Qed.

(** Writing other keys of the database. *)
Definition same_tables (d d' : Database) : Prop :=
  t_records d' = t_records d /\ t_demotion d' = t_demotion d /\
  t_access_history d' = t_access_history d /\
  Forall (fun k => load_meta d' k = load_meta d k) ["next_offset"; "next_seq"; "last_applied_seq"].

Lemma same_tables_refl d : same_tables d d.
Proof. split_and!; try done. by repeat constructor. Qed.
Lemma same_tables_trans d1 d2 d3 : same_tables d1 d2 -> same_tables d2 d3 -> same_tables d1 d3.
Proof.
  intros (A1 & A2 & A3 & A4) (B1 & B2 & B3 & B4). split_and!; try congruence.
  rewrite !Forall_cons in *. destruct A4 as (? & ? & ? & _), B4 as (? & ? & ? & _).
  split_and!; try congruence. by constructor.
Qed.

Lemma core_set_db m vs ops m0 hc d' :
  core_ok en m vs ops m0 hc -> same_tables (db m) d' ->
  exists m0', core_ok en (set_db d' m) vs ops m0' hc /\ is_fresh m0' = is_fresh m0.
Proof.
  intros [A1 A2 A3 A4 A5 A6 A7 A8 A9 A10 A11 A12 A13] (T1 & T2 & T3 & T4).
  rewrite !Forall_cons in T4. destruct T4 as (K1 & K2 & K3 & _).
  assert (Hop : MetadataStore.open (DbOpened d') = Ok (set_db d' m0)).
  { pose proof (open_db _ _ A3) as Edb. revert A3. unfold MetadataStore.open, load_records,
      load_access_history, load_demotion. rewrite T1, T2, T3, K1, K2.
    destruct (load_loop (map_to_list (t_records (db m)))) as [x|]; cbn [mbind Result_bind]; [|done].
    destruct (load_loop (map_to_list (t_access_history (db m)))) as [y|]; cbn [mbind Result_bind]; [|done]. by intros [= <-]. }
  pose proof (open_db _ _ A3) as Edb.
  assert (Ela : la_of (set_db d' m0) = la_of m0).
  { unfold la_of, last_applied_seq. cbn [db set_db]. by rewrite K3, Edb. }
  exists (set_db d' m0). split.
  - split; unfold src; rewrite ?Ela; auto. by apply set_db_meta_wf.
  - unfold is_fresh, last_applied_seq. cbn [db set_db record_count]. by rewrite K1, K3, Edb.
Qed.

Lemma save_graph_fields io e e' r :
  save_graph io e = (e', r) ->
  exists d', e' = set_meta (set_db d' (meta e)) e /\ same_tables (db (meta e)) d'.
Proof.
  assert (Hid : set_meta (set_db (db (meta e)) (meta e)) e = e) by (destruct e as [? []]; done).
  unfold save_graph. destruct (to_snapshot_bytes (graph e)) as [b|er].
  2: { intros [= <- <-]. exists (db (meta e)). rewrite Hid. split; [done|apply same_tables_refl]. }
  unfold st_bind, on, save_meta_bytes. destruct (f_graph_commit io).
  2: { intros [= <- <-]. exists (db (meta e)). rewrite set_meta_id, Hid. split; [done|apply same_tables_refl]. }
  unfold remove_meta. cbn -[load_meta].
  set (d1 := set_t_meta_bin _ _). assert (H1 : same_tables (db (meta e)) d1).
  { split_and!; try done. by repeat constructor. }
  destruct (load_meta d1 "graph"); [destruct (f_legacy_commit io)|]; intros [= <- <-].
  - eexists. split; [done|]. split_and!; try done.
    repeat constructor; unfold load_meta; cbn; by rewrite lookup_delete_ne.
  - by exists d1.
  - by exists d1.
Qed.

Lemma save_ccs_fields io e e' r :
  save_ccs io e = (e', r) ->
  exists d', e' = set_meta (set_db d' (meta e)) e /\ same_tables (db (meta e)) d'.
Proof.
  assert (Hid : set_meta (set_db (db (meta e)) (meta e)) e = e) by (destruct e as [? []]; done).
  unfold save_ccs. destruct (ccs e) as [j|].
  2: { intros [= <- <-]. exists (db (meta e)). rewrite Hid. split; [done|apply same_tables_refl]. }
  unfold on, save_meta. destruct (f_ccs_commit io); intros [= <- <-].
  - eexists. split; [done|]. split_and!; try done.
    repeat constructor; unfold load_meta; cbn; by rewrite lookup_insert_ne.
  - exists (db (meta e)). rewrite set_meta_id, Hid. split; [done|apply same_tables_refl].
Qed.

(** A state inside [flush] of [e]: the store is still [S]; once [saved], the
    database alone holds it. *)
Record phase (e e1 : Engine) (S : Store) (saved : bool) : Prop := {
  ph_wal : wal e1 = wal e;
  ph_config : config e1 = config e;
  ph_ids : id_index e1 = id_index e;
  ph_mapped : mapped (vectors e1) = true;
  ph_dim : dim (vectors e1) = dim (vectors e);
  ph_live : live (meta e1) = live (meta e);
  ph_means : means en (meta e1) (vectors e1) S;
  ph_core : exists ops m0 hc, wal_rep en (wal e) ops /\
    core_ok en (meta e1) (vectors e1) ops m0 hc /\
    (is_fresh (meta e) = false -> forall hc, guard ops m0 hc) /\
    (saved = true -> core_ok en (meta e1) (vectors e1) [] m0 hc /\ is_fresh m0 = false);
}.

Lemma phase_rep e e1 S saved : eng_rep en e S -> phase e e1 S saved -> eng_rep en e1 S.
Proof.
  intros ((ops & m0 & hc & [_ _ Hd Hq Hid]) & _ & _) [P1 P2 P3 P4 P5 P6 P7 (ops' & m0' & hc' & Hw & Hc & _)].
  split; [|done]. exists ops', m0', hc'. split; rewrite ?P1, ?P2, ?P3, ?P5, ?P6; auto.
Qed.

Lemma phase_files e e1 S saved :
  eng_rep en e S -> phase e e1 S saved -> files_hold (is_fresh (meta e) = false) e1 S.
Proof.
  intros ((ops & m0 & hc & [_ _ Hd Hq Hid]) & _ & _)
    [P1 P2 P3 P4 P5 P6 P7 (ops' & m0' & hc' & Hw & Hc & Hg & _)].
  exists (meta e1), (vectors e1), ops', m0', hc'. rewrite P1, P2. split_and!; auto; [|congruence].
  by apply wal_disk_rep.
Qed.

(** Steps that leave the three files alone. *)
Lemma phase_step e e1 e2 S saved :
  phase e e1 S saved -> meta e2 = meta e1 -> vectors e2 = vectors e1 -> wal e2 = wal e1 ->
  config e2 = config e1 -> id_index e2 = id_index e1 -> phase e e2 S saved.
Proof.
  intros [P1 P2 P3 P4 P5 P6 P7 P8] E1 E2 E3 E4 E5.
  split; rewrite ?E1, ?E2, ?E3, ?E4, ?E5; auto.
Qed.

Lemma phase_start e S e1 :
  eng_rep en e S -> vectors e1 = vectors e -> wal e1 = wal e -> config e1 = config e ->
  id_index e1 = id_index e -> ms_wf (meta e1) -> db (meta e1) = db (meta e) ->
  next_offset (meta e1) = next_offset (meta e) -> next_seq (meta e1) = next_seq (meta e) ->
  live (meta e1) = live (meta e) -> phase e e1 S false.
Proof.
  intros ((ops & m0 & hc & [Hc Hw Hd Hq Hid]) & Hm & HS) E1 E2 E3 E4 Hwf Edb Eo Eq El.
  split; rewrite ?E1; auto.
  - eapply means_same; [exact El|done|exact HS].
  - exists ops, m0, hc. split; [done|]. split; [by apply (core_same (meta e))|]. split; [|done].
    intros Hf hc'. rewrite <- (app_nil_r ops). by eapply fresh_guard.
Qed.

Lemma means_slots m vs vs' ops m0 hc S :
  core_ok en m vs ops m0 hc -> (forall o, o < slots vs -> VectorStore.slot vs' o = VectorStore.slot vs o) ->
  means en m vs S -> means en m vs' S.
Proof.
  intros Hc L. apply means_same; [done|]. intros o Ho. apply L.
  destruct (co_cur _ _ _ _ _ _ Hc o Ho).
  pose proof (VectorStore.wf_count en _ (co_vs _ _ _ _ _ _ Hc)). lia.
Qed.

(** Stamping the vectors, committing the text index, and the metadata snapshot. *)
Lemma flush_records_phase e S io e1 r :
  eng_rep en e S -> flush_records en io e = (e1, r) -> phase e e1 S (is_ok r).
Proof.
  intros He Hrun. pose proof He as ((ops & m0 & hc & [Hco Hw Hd Hq Hid]) & Hm & HS).
  unfold flush_records in Hrun. unfold st_bind at 1, st_modify in Hrun.
  pose proof (drain_fields (access_counters e) (meta e) (co_ms _ _ _ _ _ _ Hco)) as (D1 & D2 & D3 & D4 & D5).
  destruct (drain_into (access_counters e) (meta e)) as [a m]. cbn [snd] in *.
  set (e0 := set_access a (set_meta m e)) in Hrun.
  assert (Hco0 : core_ok en m (vectors e) ops m0 hc) by (by apply (core_same (meta e))).
  assert (Hph0 : phase e e0 S false) by (by apply phase_start).
  unfold st_bind at 1, check_io in Hrun. destruct (f_log_sync io); [|injection Hrun as <- <-; exact Hph0].
  unfold st_bind at 1, on in Hrun. cbn [vectors e0 set_access set_meta] in Hrun.
  destruct (core_vs_flush en (f_vectors io) _ _ _ _ _ Hco0 Hm) as (vs' & Hf & Hc' & M & Dd & Sl & C & L).
  change (vectors e0) with (vectors e) in Hrun. rewrite Hf in Hrun.
  assert (HS' : means en m vs' S) by (apply (means_slots m (vectors e) vs' ops m0 hc); auto; apply Hph0).
  assert (Hg : is_fresh (meta e) = false -> forall hc, guard ops m0 hc).
  { intros Hfr hc'. rewrite <- (app_nil_r ops). by apply (fresh_guard (meta e) (vectors e) ops m0 hc). }
  assert (Hph1 : phase e (set_vectors vs' e0) S false).
  { split; auto. exists ops, m0, (VectorStore.count vs'). by split_and!. }
  destruct (f_vectors io); [|injection Hrun as <- <-; exact Hph1].
  unfold st_bind at 1 in Hrun.
  destruct (text_commit _) as [t [[]|er]].
  2: { injection Hrun as <- <-. by eapply phase_step. }
  cbn [meta set_text set_vectors e0 set_access set_meta] in Hrun.
  change (meta e0) with m in Hrun.
  destruct (MetadataStore.flush m _ _) as [m' [[]|er]] eqn:Hmf; injection Hrun as <- <-.
  2: { apply flush_err in Hmf as ->. by eapply phase_step. }
  pose proof (co_seq _ _ _ _ _ _ Hc') as Hsq.
  destruct (core_flush en _ _ _ _ _ _ _ _ Hc' Hmf) as (m0' & B1 & B2 & B3 & _ & _ & B6);
    [unfold saturating_sub; lia| |done|].
  { intros op o q Hin Ht. pose proof (proj1 (Forall_forall _ _) (co_target _ _ _ _ _ _ Hc') op Hin o q Ht).
    unfold saturating_sub. lia. }
  split; auto.
  - cbn. congruence.
  - cbn. eapply means_same; [exact B3|done|exact HS'].
  - exists ops, m0', (VectorStore.count vs'). split_and!; auto.
    intros _ hc' Hfr. congruence.
Qed.

Lemma phase_db e e1 d' S :
  phase e e1 S true -> same_tables (db (meta e1)) d' ->
  phase e (set_meta (set_db d' (meta e1)) e1) S true.
Proof.
  intros [P1 P2 P3 P4 P5 P6 P7 (ops & m0 & hc & Hw & Hc & Hg & Hs)] Ht.
  destruct (Hs eq_refl) as [Hc0 Hfr].
  destruct (core_set_db _ _ _ _ _ d' Hc Ht) as (m0' & Hc' & Hf').
  destruct (core_set_db _ _ _ _ _ d' Hc0 Ht) as (m0'' & Hc0' & _).
  assert (m0'' = m0') as ->.
  { pose proof (co_open _ _ _ _ _ _ Hc'). pose proof (co_open _ _ _ _ _ _ Hc0'). congruence. }
  split; auto. exists ops, m0', hc. split_and!; auto; [|intros _; split; [done|congruence]].
  intros _ hc' Hfr'. congruence.
Qed.

(** The outcome of a whole [flush]: the store is unchanged, in memory unless
    writing the new log header was cut short, and on disk always. *)
Definition flushed (e e' : Engine) (S : Store) (io : FlushIo) : Prop :=
  ((forall k, f_clear io <> ClearWrite k) -> eng_rep en e' S) /\
  files_hold (is_fresh (meta e) = false) e' S.

Lemma phase_flushed e e1 S saved io : eng_rep en e S -> phase e e1 S saved -> flushed e e1 S io.
Proof. intros He Hp. split; [intros; by eapply phase_rep|by eapply phase_files]. Qed.

Lemma clear_flushed e e1 S io w' r :
  eng_rep en e S -> phase e e1 S true -> clear_io en (wal e1) (f_clear io) = (w', r) ->
  flushed e (set_wal w' e1) S io.
Proof.
  intros He Hp Hcl.
  pose proof Hp as [P1 P2 P3 P4 P5 P6 P7 (ops & m0 & hc & Hw & Hc & Hg & Hs)].
  destruct (Hs eq_refl) as [Hc0 Hfr].
  pose proof He as ((ops0 & m00 & hc0 & [Hco0 Hw0 Hd Hq Hid]) & Hm & HS).
  assert (Hrep : wal_rep en w' [] -> eng_rep en (set_wal w' e1) S).
  { intros Hw'. split; [|done]. exists [], m0, hc. split; cbn; rewrite ?P2, ?P3, ?P5, ?P6; auto. }
  assert (Hfiles : wal_disk en (file w') [] -> files_hold (is_fresh (meta e) = false) (set_wal w' e1) S).
  { intros Hw'. exists (meta e1), (vectors e1), [], m0, hc. cbn. rewrite P2.
    split_and!; auto; [congruence|]. intros _ Hf. congruence. }
  assert (Hv : Wal.version (wal e1) = WAL_VERSION) by (rewrite P1; by destruct Hw).
  destruct (f_clear io) as [| |k|] eqn:Hio; injection Hcl as <- <-.
  - split; [intros _; apply Hrep, wal_rep_clear|]. apply Hfiles, (wal_disk_rep en _ _ (wal_rep_clear en _)).
  - rewrite set_wal_id. by apply (phase_flushed e e1 S true).
  - split; [intros Hno; by destruct (Hno k)|]. apply Hfiles. cbn [Wal.file]. by apply (wal_disk_header en).
  - assert (Hw' : wal_rep en {| Wal.file := Wal.header_bytes en WAL_VERSION;
      Wal.pos := len (Wal.header_bytes en WAL_VERSION); Wal.version := Wal.version (wal e1) |} []).
    { rewrite Hv. exact (wal_rep_clear en (wal e)). }
    split; [intros _; by apply Hrep|by apply Hfiles, (wal_disk_rep en _ _ Hw')].
Qed.

Lemma flush_rest_flushed e e1 S io e' r :
  eng_rep en e S -> phase e e1 S true -> flush_rest en io e1 = (e', r) -> flushed e e' S io.
Proof.
  intros He Hp Hrun. unfold flush_rest in Hrun. unfold st_bind at 1, check_io in Hrun.
  destruct (f_segments io); [|injection Hrun as <- <-; by eapply phase_flushed].
  unfold st_bind at 1 in Hrun. destruct (save_graph io e1) as [e2 r2] eqn:Hg.
  apply save_graph_fields in Hg as (d2 & -> & T2). pose proof (phase_db _ _ _ _ Hp T2) as Hp2.
  destruct r2 as [[]|er]; [|injection Hrun as <- <-; by eapply phase_flushed].
  unfold st_bind in Hrun. destruct (save_ccs io _) as [e3 r3] eqn:Hc.
  apply save_ccs_fields in Hc as (d3 & -> & T3). pose proof (phase_db _ _ _ _ Hp2 T3) as Hp3.
  destruct r3 as [[]|er]; [|injection Hrun as <- <-; by eapply phase_flushed].
  unfold on in Hrun. destruct (clear_io en _ (f_clear io)) as [w' r4] eqn:Hcl.
  injection Hrun as <- <-. by eapply clear_flushed.
Qed.

Lemma eng_rep_segments e S h b : eng_rep en e S -> eng_rep en (set_segments h b e) S.
Proof.
  intros ((ops & m0 & hc & [H1 H2 H3 H4 H5]) & Hm & HS). split; [|done].
  exists ops, m0, hc. by split.
Qed.

Lemma flush_flushed e S io e' r :
  eng_rep en e S -> Recovery.flush en io e = (e', r) -> flushed e e' S io.
Proof.
  intros He Hrun. unfold Recovery.flush in Hrun.
  destruct (seal_loop _ _ _ _) as [[[h b] se]|].
  2: { injection Hrun as <- <-. split; [done|by apply eng_files]. }
  pose proof (eng_rep_segments e S h b He) as He0.
  change (flushed (set_segments h b e) e' S io). unfold st_bind at 1 in Hrun.
  destruct (flush_records en io _) as [e1 r1] eqn:H1.
  apply (flush_records_phase _ S) in H1; [|done].
  destruct r1 as [[]|er]; [|injection Hrun as <- <-; by eapply phase_flushed].
  unfold st_bind in Hrun. destruct (flush_rest en io e1) as [e2 r2] eqn:H2.
  eapply flush_rest_flushed in H2; [|done|done].
  destruct r2 as [[]|er]; [|by injection Hrun as <- <-].
  destruct se; by injection Hrun as <- <-.
Qed.

End crash.
