(* ===== verification/Steady.v ===== *)
(** * Steps that store nothing

    What the background work of the engine does between the writes: sealing the hot
    segment, building and merging sealed segments, compaction and promotion, and moving
    the access counters into the metadata. Such a step leaves the files, the indexes and
    what callers stored alone ([steady]), so it keeps the abstract store. *)

From S2P Require Import Prelude Core Metrics Record Wal VectorStore MetadataStore AccessCounters.
From S2P Require Import ScopeIndex PayloadIndex Segments SegmentHolder Optimizer Engine Recovery Durability CrashSafety.
#[local] Open Scope turbo_scope.

(** A step of the optimizer thread or of the consolidation over the segments. *)
Inductive BackgroundStep :=
  | SealHot
  | BuildSealed (io : BuildIo)
  | MergeSealed (io : BuildIo)
  | ConsolidateSegments (promotable : MetaRecord -> bool) (compact_ok : bool)
  | DrainAccess.

Section steady.
Context (en : Endian) {HC : Crc32} {BW : Bincode WalOp} {BW1 : Bincode WalOpV1}
  {BM : Bincode MetaRecord} {BH : Bincode (list N)}
  {BMo : BincodeOk MetaRecord} {BHo : BincodeOk (list N)}
  {BMt : BincodeTotal MetaRecord} {BHt : BincodeTotal (list N)}
  {BWo : BincodeOk WalOp} {BWt : BincodeTagged WalOp}
  {SJ : SerdeJson} {JS : JsonSyntax} {GO : GraphOps} {TO : TextOps}.

(** Errors of a build or a merge end the round; the state they leave is kept. *)
Definition run_background (step : BackgroundStep) (e : Engine) : Engine :=
  let view := VectorStore.get en (vectors e) in
  match step with
  | SealHot => set_segments (seal_hot (segments e)) (budget e) e
  | BuildSealed io =>
      let '(h, b, _) := process_one_seal (segments e) (budget e) view io in set_segments h b e
  | MergeSealed io =>
      let '(h, b, _) := process_one_merge (segments e) (budget e) view io in set_segments h b e
  | ConsolidateSegments promotable ok =>
      let '(h, m, _) := SegmentHolder.trigger_consolidation promotable (segments e) (meta e) view ok in
      set_segments h (budget e) (set_meta m e)
  | DrainAccess => let '(a, m) := drain_into (access_counters e) (meta e) in set_access a (set_meta m e)
  end.

(** The files and indexes are those before, the records too but for what is only kept in
    memory, and the database has the same tables. *)
Record steady (e e1 : Engine) : Prop := {
  sd_vectors : vectors e1 = vectors e;
  sd_wal : wal e1 = wal e;
  sd_config : config e1 = config e;
  sd_ids : id_index e1 = id_index e;
  sd_wf : ms_wf (meta e) -> ms_wf (meta e1);
  sd_live : ms_wf (meta e) -> live (meta e1) = live (meta e);
  sd_offset : ms_wf (meta e) -> next_offset (meta e1) = next_offset (meta e);
  sd_seq : ms_wf (meta e) -> next_seq (meta e1) = next_seq (meta e);
  sd_db : ms_wf (meta e) -> same_tables (db (meta e)) (db (meta e1));
}.
Lemma steady_meta e e1 : vectors e1 = vectors e -> wal e1 = wal e -> config e1 = config e -> id_index e1 = id_index e ->
  meta e1 = meta e -> steady e e1.
Proof. intros E1 E2 E3 E4 E5. split; rewrite ?E5; auto. intros _. apply same_tables_refl. Qed.
Lemma steady_refl e : steady e e.
Proof. by apply steady_meta. Qed.
Lemma steady_trans e1 e2 e3 : steady e1 e2 -> steady e2 e3 -> steady e1 e3.
Proof.
  intros [A1 A2 A3 A4 A5 A6 A7 A8 A9] [B1' B2' B3 B4 B5 B6 B7 B8 B9]. split; try congruence; auto; intros H;
    [rewrite B6, A6|rewrite B7, A7|rewrite B8, A8|eapply same_tables_trans; [apply A9|apply B9]]; auto.
Qed.
Lemma steady_rep e e1 S : steady e e1 -> eng_rep en e S -> eng_rep en e1 S.
Proof.
  intros [A1 A2 A3 A4 A5 A6 A7 A8 A9] ((ops & m0 & hc & [Hc Hw Hd Hq Hid]) & Hm & HS).
  pose proof (co_ms _ _ _ _ _ _ Hc) as Hwf. destruct (core_set_db en _ _ _ _ _ _ Hc (A9 Hwf)) as (m0' & Hc' & _).
  split; [|rewrite A1; split; [done|]; eapply means_same; [by apply A6|done|exact HS]].
  exists ops, m0', hc. split; rewrite ?A1, ?A2, ?A3, ?A4, ?A6; auto.
  eapply core_same; [exact Hc'|..]; auto; by rewrite ?A6, ?A7, ?A8.
Qed.
Lemma steady_put e o m m' : MetadataStore.get (meta e) o = Some m -> durable m' = durable m ->
  steady e (set_meta (put_meta (meta e) o m') e).
Proof.
  intros Hg Hd. split; try done; cbn [meta set_meta].
  - apply put_meta_wf.
  - intros _. rewrite live_put_meta. apply insert_id. rewrite live_lookup. unfold MetadataStore.get in Hg. by rewrite Hg, Hd.
  - intros _. apply same_tables_refl.
Qed.
Lemma steady_graph e g : steady e (set_graph g e).
Proof. by apply steady_meta. Qed.
Lemma steady_save io e e1 r : Recovery.save_graph io e = (e1, r) -> steady e e1.
Proof.
  intros (d & -> & Ht)%save_graph_fields. split; try done; cbn [meta set_meta]; auto.
  intros H. destruct Ht as (T1 & T2 & T3 & _). by apply set_db_meta_wf.
Qed.
Lemma steady_drained e : steady e (run_background DrainAccess e).
Proof.
  unfold run_background. cbv zeta. pose proof (fun H => drain_fields (access_counters e) (meta e) H) as Hf.
  destruct (drain_into _ _) as [a m]. cbn [snd] in Hf.
  split; try done; cbn [meta set_access set_meta]; intros H; destruct (Hf H) as (H1 & H2 & H3 & H4 & H5); auto.
  rewrite H2. apply same_tables_refl.
Qed.

(** Promotion only moves a record to the hot tier. *)
Lemma promote_loop_steady p view l : forall h n e e1,
  e1 = set_meta (SegmentHolder.promote_loop p h (meta e) view l n).1.2 e -> steady e e1.
Proof.
  induction l as [|o l IH]; intros h n e e1 ->; cbn [SegmentHolder.promote_loop].
  { apply steady_meta; done. }
  destruct (MetadataStore.get (meta e) o) as [m|] eqn:Hg; [|by eapply IH].
  destruct (p m); cbn [negb]; [|by eapply IH]. destruct (view o) as [v|]; [|by eapply IH].
  assert (Hp : steady e (set_meta (MetadataStore.put (meta e) o (with_tier (with_embedding m v) Hot)) e)).
  { unfold MetadataStore.put. by apply (steady_put e o m). }
  destruct (hot_insert _ _ _) as [x [u|er]]; [|exact Hp].
  eapply steady_trans; [exact Hp|]. eapply (IH _ _ (set_meta (MetadataStore.put (meta e) o (with_tier (with_embedding m v) Hot)) e)). done.
Qed.
Lemma consolidated_steady p ok e : steady e (run_background (ConsolidateSegments p ok) e).
Proof.
  unfold run_background. cbv zeta. set (view := VectorStore.get en (vectors e)).
  destruct (SegmentHolder.trigger_consolidation _ _ _ _ _) as [[h m] r] eqn:E.
  assert (Hm : forall h0, m = (SegmentHolder.promote_hot p h0 (meta e) view).1.2 -> steady e (set_meta m e)).
  { intros h0 ->. unfold promote_hot.
    pose proof (promote_loop_steady p view (concat (map seg_offsets (searchable_segments h0))) h0 0 e _ eq_refl) as H.
    by destruct (promote_loop _ _ _ _ _ _) as [[h1 m1] [n|er]]. }
  eapply steady_trans; [|by apply (steady_meta (set_meta m e))].
  unfold SegmentHolder.trigger_consolidation in E. cbv zeta in E.
  destruct (if _ <? _ then compact_warm _ _ _ else _) as [h1 [u|er]]; [|injection E as _ <- _; by apply steady_meta].
  specialize (Hm h1). destruct (promote_hot _ _ _ _) as [[h2 m2] [n|er]]; injection E as _ <- _; by apply Hm.
Qed.

Lemma background_steady step e : steady e (run_background step e).
Proof.
  destruct step; [by apply steady_meta| | |apply consolidated_steady|apply steady_drained];
    unfold run_background; cbv zeta.
  - destruct (process_one_seal _ _ _ _) as [[h b] r]. by apply steady_meta.
  - destruct (process_one_merge _ _ _ _) as [[h b] r]. by apply steady_meta.
Qed.

End steady.
