(* ===== verification/EngineTheorems.v ===== *)
(** * What the storage engine promises

    The theorems of the engine, over histories of writes, flushes, accesses, kills
    and reopens: reads return what was stored, acknowledged writes survive a kill,
    a killed write happened entirely or not at all (a killed batch up to some
    record), a rejected write changes nothing, and what opening a store restores. *)

From S2P Require Import Prelude Core Metrics Record Wal VectorStore MetadataStore AccessCounters.
From S2P Require Import ScopeIndex PayloadIndex Segments SegmentHolder Optimizer Engine Recovery Durability CrashSafety Steady.
#[local] Open Scope turbo_scope.

(** ** Writes and what they mean *)

Inductive Write :=
  | Insert (input : WriteInput) (now : N) (io : WriteIo)
  | InsertBatch (b : BatchInput) (now : N) (io : WriteIo)
  | DeleteWhere (i : string) (matches : N -> bool) (io : WriteIo)
  | Update (input : WriteInput) (now : N) (io : WriteIo).

(** How many offsets and sequence numbers a write may allocate. *)
Definition demand (w : Write) : N :=
  match w with
  | InsertBatch b _ _ => len (ids b)
  | DeleteWhere _ _ _ => 0
  | _ => 1
  end.

Section engine_theorems.
Context (en : Endian) {HC : Crc32} {BW : Bincode WalOp} {BW1 : Bincode WalOpV1}
  {BM : Bincode MetaRecord} {BH : Bincode (list N)}
  {BMo : BincodeOk MetaRecord} {BHo : BincodeOk (list N)}
  {BMt : BincodeTotal MetaRecord} {BHt : BincodeTotal (list N)}
  {BWo : BincodeOk WalOp} {BWt : BincodeTagged WalOp}
  {SJ : SerdeJson} {JS : JsonSyntax} {GO : GraphOps} {TO : TextOps}.

(** Run a write; [true] when it returned [Ok]. *)
Definition run_write (w : Write) (e : Engine) : Engine * bool :=
  match w with
  | Insert input now io =>
      let '(e', r) := insert_with_payload_role en input now io e in (e', is_ok r)
  | InsertBatch b now io =>
      let '(e', r) := insert_batch_with_payload_role en b now io e in (e', is_ok r)
  | DeleteWhere i matches io => let '(e', r) := delete_where i matches io e in (e', is_ok r)
  | Update input now io =>
      let '(e', r) := update_with_payload_role en input now io e in (e', is_ok r)
  end.

(** *** What a write means

    Stated from the caller's input alone: which inputs are valid, the record an input
    becomes, and what a write does to a map from ids to records. *)

(** Non-empty id, a finite non-zero vector of the dimension, finite importance, a payload
    that is JSON. *)
Definition valid_input (d : N) (input : WriteInput) : bool :=
  negb (bool_decide (i_id input = ""%string)) && (len (i_embedding input) =? d)
  && forallb is_finite (i_embedding input) && negb (forallb is_zero (i_embedding input))
  && is_finite (i_importance input)
  && match i_payload input with Some p => ignored_any p | None => true end.

Lemma prepare_valid e input v :
  is_ok (prepare e input v) = valid_input (dimension_of (config e)) input.
Proof.
  unfold prepare, valid_input. case_bool_decide; [done|]. unfold validate_dimension.
  destruct (len (i_embedding input) =? dimension_of (config e)); [|done].
  destruct (normalize_cases (i_embedding input)) as (Hn & Hz & Hok). cbn [negb map_err mbind Result_bind].
  destruct (is_finite (i_importance input)); cbn [negb]; [|by rewrite andb_false_r].
  rewrite andb_true_r.
  assert (Hnorm : is_ok (normalize (i_embedding input))
    = forallb is_finite (i_embedding input) && negb (forallb is_zero (i_embedding input))).
  { destruct (forallb is_finite (i_embedding input)) eqn:Hf; [|by rewrite (proj2 Hn)].
    destruct (forallb is_zero (i_embedding input)) eqn:Hzv; [by rewrite (proj2 Hz)|].
    by destruct (Hok eq_refl eq_refl) as (w & -> & _). }
  cbn [andb]. rewrite <- Hnorm.
  destruct (i_payload input) as [pl|]; [destruct (ignored_any pl)|]; cbn [mbind Result_bind];
    rewrite ?andb_false_r, ?andb_true_r; try done; by destruct (normalize _).
Qed.

(** The largest magnitude, and the vector over its euclidean length; when the length is not
    a normal number, over that of the vector scaled by its largest magnitude. *)
Definition largest (v : list f32) : f32 := foldl f32_max f32_zero (map f32_abs v).
Definition scaled (n : f32) (v : list f32) : list f32 := map (fun x => f32_div x n) v.
Definition unit_vector (v : list f32) : list f32 :=
  if is_normal (l2_norm v) then scaled (l2_norm v) v
  else let w := scaled (largest v) v in scaled (l2_norm w) w.

(** The fields of a record as a caller gave them, the concepts merged with those of the
    text, the time and the sequence number of the write, and the vector. *)
Definition spec_record (v : Vocab) (now seq : N) (i : WriteInput) : Dur * list f32 :=
  ((i_id i, i_text i, merge_concepts (i_concepts i) (i_text i) v, now, seq, i_payload i, i_scope i,
    i_source_role i), unit_vector (i_embedding i)).

(** The first [k] of the inputs whose id is not stored, numbered in order. *)
Fixpoint spec_batch (k : nat) (v : Vocab) (now seq : N) (S : Store) (l : list WriteInput) : Store :=
  match k, l with
  | O, _ | _, [] => S
  | S k', i :: l =>
      match S !! i_id i with
      | Some _ => spec_batch k v now seq S l
      | None => spec_batch k' v now (seq + 1) (<[i_id i := spec_record v now seq i]> S) l
      end
  end.

(** The store when the first [n] operations of a write take effect. *)
Definition partial_store (e : Engine) (w : Write) (S : Store) (n : nat) : Store :=
  let d := dimension_of (config e) in
  let v := vocab (graph e) in
  let seq := next_seq (meta e) in
  match w with
  | Insert i now _ =>
      if valid_input d i && bool_decide (S !! i_id i = None)
      then one_op S (<[i_id i := spec_record v now seq i]> S) n else S
  | InsertBatch b now _ =>
      if lengths_ok b && forallb (valid_input d) (inputs_of b) then spec_batch n v now seq S (inputs_of b) else S
  | DeleteWhere i matches _ =>
      match id_index e !! i with
      | Some o => if matches o then one_op S (delete i S) n else S
      | None => S
      end
  | Update i now _ =>
      if valid_input d i && bool_decide (is_Some (S !! i_id i))
      then one_op S (<[i_id i := spec_record v now seq i]> S) n else S
  end.

(** The store after the whole write. *)
Definition operations (w : Write) : nat := match w with InsertBatch b _ _ => length (ids b) | _ => 1 end.
Definition spec_write (e : Engine) (w : Write) (S : Store) : Store := partial_store e w S (operations w).

(** How many operations can be read back from the log file. *)
Definition logged (w : Wal.Wal) : nat :=
  match Wal.open en (Some (file w)) with Ok w => length (read_all w).1 | Err _ => 0 end.
(** The store that a process killed at [e'] inside the write leaves: the operations that
    are complete in the log file take effect. *)
Definition left_by (e : Engine) (w : Write) (S : Store) (e' : Engine) : Store :=
  partial_store e w S (logged (wal e') - logged (wal e)).

Lemma max_abs_largest v m r : max_abs_loop v m = Ok r -> r = foldl f32_max m (map f32_abs v).
Proof.
  revert m. induction v as [|x v IH]; intros m; cbn [max_abs_loop map foldl]; [by intros [= ->]|].
  destruct (negb (is_finite x)); [done|apply IH].
Qed.
Lemma normalize_unit v w : normalize v = Ok w -> w = unit_vector v.
Proof.
  unfold normalize, unit_vector. destruct (max_abs_loop v f32_zero) as [m|] eqn:Em; [|done].
  cbn [mbind Result_bind]. apply max_abs_largest in Em as ->. fold (largest v).
  destruct (f32_eqb _ _); [done|]. destruct (is_normal _); intros [= <-]; [done|].
  unfold scaled, l2_norm. cbv zeta. by rewrite !map_map.
Qed.
Lemma prepare_record e input v p now seq :
  prepare e input v = Ok p ->
  p_id p = i_id input /\ store_of (into_record p seq now) = spec_record v now seq input.
Proof.
  unfold prepare. case_bool_decide; [done|]. destruct (map_err _ (validate_dimension _ _)); [simpl|done].
  destruct (negb (is_finite _)); [done|].
  destruct (match i_payload input with Some _ => _ | None => _ end); [simpl|done].
  destruct (normalize (i_embedding input)) as [w|] eqn:Hn; [simpl|done]. intros [= <-].
  by rewrite (normalize_unit _ _ Hn).
Qed.
Lemma prepare_batch_valid e v l seen :
  is_ok (prepare_batch e v l seen) = forallb (valid_input (dimension_of (config e))) l.
Proof.
  revert seen. induction l as [|i l IH]; intros seen; simpl; [done|]. rewrite <- (prepare_valid e i v).
  destruct (prepare e i v) as [p|]; [|done]. simpl. case_decide; [apply IH|].
  rewrite <- (IH ({[i_id i]} ∪ seen)). by destruct (prepare_batch _ _ _ _).
Qed.
(** The records a batch commits are those of the specification. *)
Lemma batch_spec e now l : forall ps seen k o q S,
  prepare_batch e (vocab (graph e)) l seen = Ok ps ->
  (forall i, is_Some (S !! i) <-> is_Some (id_index e !! i) \/ i ∈ seen) ->
  ins_store S (take k (numbered now o q (filter (fun p => id_index e !! p_id p = None) ps)))
  = spec_batch k (vocab (graph e)) now q S l.
Proof.
  induction l as [|i l IH]; intros ps seen k o q S; simpl.
  { intros [= <-] _. by destruct k. }
  destruct (prepare e i _) as [p|] eqn:Hp; [simpl|done].
  destruct (prepare_record _ _ _ _ now q Hp) as [Ei Er].
  destruct k as [|k]; [by intros _ _|]. case_decide as Hin.
  { intros Hps HS. destruct (S !! i_id i) eqn:E; [by apply (IH ps seen)|].
    assert (Hs : is_Some (S !! i_id i)) by (apply HS; by right). rewrite E in Hs. by destruct Hs. }
  destruct (prepare_batch _ _ _ _) as [rest|] eqn:Hr; [simpl|done]. intros [= <-] HS.
  assert (Hseen : forall S' : Store, (forall j, is_Some (S' !! j) <-> is_Some (S !! j) \/ j = i_id i) ->
    forall j, is_Some (S' !! j) <-> is_Some (id_index e !! j) \/ j ∈ {[i_id i]} ∪ seen).
  { intros S' H j. rewrite H, HS. set_solver. }
  rewrite filter_cons, Ei. case_decide as Hidx.
  - assert (E : S !! i_id i = None).
    { apply eq_None_not_Some. rewrite HS, Hidx. intros [[? ?]|?]; done. }
    rewrite E. cbn [numbered take]. unfold ins_store. cbn [foldl snd].
    change (r_id (into_record p q now)) with (p_id p). rewrite Ei, Er.
    apply (IH rest ({[i_id i]} ∪ seen)); [done|]. apply Hseen. intros j.
    rewrite lookup_insert_is_Some'. naive_solver.
  - assert (Hs : is_Some (S !! i_id i)) by (apply HS; left; by apply not_eq_None_Some).
    destruct (S !! i_id i) eqn:E; [|by destruct Hs].
    apply (IH rest ({[i_id i]} ∪ seen)); [done|]. apply Hseen. intros j. split; [auto|].
    intros [H | ->]; [done|]. by rewrite E.
Qed.

(** The id index names the stored ids. *)
Lemma store_index e S i :
  eng_rep en e S -> is_Some (S !! i) <-> is_Some (id_index e !! i).
Proof.
  intros ((ops & m0 & hc & [_ _ _ _ Hid]) & _ & HS). split.
  - intros [[d v] (o & Hl & Hi & _)%HS]. exists o. apply Hid. eauto.
  - intros [o (d & Hl & Hi)%Hid]. exists (d, vector_at en (vectors e) o). apply HS. eauto.
Qed.

Lemma partial_start e w S : partial_store e w S 0 = S.
Proof. destruct w; cbn [partial_store]; repeat case_match; try done. by destruct (inputs_of b). Qed.

Lemma update_outcome e S input now io e' r :
  eng_rep en e S -> room e 1 -> update_with_payload_role en input now io e = (e', r) ->
  outcome en e e' (is_ok r) S (spec_write e (Update input now io) S)
    (partial_store e (Update input now io) S).
Proof.
  intros He Hroom Hrun. pose proof He as ((ops & m0 & hc & [Hco Hw Hd Hq Hid]) & Hm & HS).
  assert (Hsame : forall ok, spec_write e (Update input now io) S = S \/ ok = false ->
    outcome en e e ok S (spec_write e (Update input now io) S) (partial_store e (Update input now io) S)).
  { intros ok H. apply (outcome_same en e); [done|apply partial_start|]. intros ->. by destruct H. }
  unfold spec_write, partial_store in *. cbn [operations] in *. rewrite <- (prepare_valid e input (vocab (graph e))) in *.
  pose proof (store_index e S (i_id input) He) as Hidx.
  destruct (id_index e !! i_id input) as [old|] eqn:Hi.
  2: { unfold update_with_payload_role, contains_id in Hrun. rewrite Hi in Hrun.
    injection Hrun as <- <-. apply Hsame. left.
    rewrite (bool_decide_eq_false_2 (is_Some (S !! _))); [by rewrite andb_false_r|]. rewrite Hidx. by intros [? ?]. }
  rewrite (bool_decide_eq_true_2 (is_Some (S !! _))) in * by (apply Hidx; eauto).
  destruct (prepare e input (vocab (graph e))) as [p|er] eqn:Hp; cbn [is_ok andb] in *.
  - destruct (prepare_record _ _ _ _ now (next_seq (meta e)) Hp) as [_ Er].
    destruct (update_commit_outcome en e S input p old now io e' r He Hroom Hp Hi Hrun) as [H _].
    by rewrite Er in H.
  - unfold update_with_payload_role, contains_id in Hrun. rewrite Hi, Hp in Hrun.
    injection Hrun as <- <-. apply Hsame. by left.
Qed.

Lemma batch_write_outcome e S b now io e' r :
  eng_rep en e S -> room e (len (ids b)) -> insert_batch_with_payload_role en b now io e = (e', r) ->
  outcome en e e' (is_ok r) S (spec_write e (InsertBatch b now io) S) (partial_store e (InsertBatch b now io) S).
Proof.
  intros He Hroom H1. unfold spec_write.
  assert (Hrec : forall n, (is_ok r = true -> lengths_ok b = true) ->
    lengths_ok b = true -> partial_store e (InsertBatch b now io) S n = ins_store S (take n (batch_records e b now))).
  { intros n _ Hl. unfold partial_store, batch_records. rewrite Hl. cbn [andb].
    rewrite <- (prepare_batch_valid e (vocab (graph e)) (inputs_of b) ∅).
    destruct (prepare_batch _ _ _ _) as [ps|] eqn:Hp; cbn [is_ok]; [|by rewrite firstn_nil].
    symmetry. apply (batch_spec e now (inputs_of b) ps ∅); [done|]. intros i. rewrite (store_index e S i He). set_solver. }
  destruct (decide (ids b = [])) as [Hnil|Hnil].
  { unfold insert_batch_with_payload_role in H1. rewrite Hnil in H1. injection H1 as <- <-.
    assert (Hs : forall n, partial_store e (InsertBatch b now io) S n = S).
    { intros n. unfold partial_store, inputs_of. rewrite Hnil. simpl. destruct (_ && _); [|done]. by destruct n. }
    apply (outcome_same en e); [done|apply Hs|intros _; apply Hs]. }
  destruct (lengths_ok b) eqn:Hl.
  2: { unfold insert_batch_with_payload_role in H1. destruct (ids b) eqn:E; [done|]. rewrite Hl in H1.
    injection H1 as <- <-. by apply (outcome_same en e); [|apply partial_start|]. }
  destruct (batch_outcome en e S b now io e' r He Hroom H1) as [(-> & er & ->)|[Hout _]].
  { by apply (outcome_same en e); [|apply partial_start|]. }
  rewrite (Hrec _ (fun _ => eq_refl) eq_refl).
  rewrite take_ge by (cbn [operations]; by apply batch_records_len).
  revert Hout. apply outcome_partial. intros n. symmetry. by apply Hrec.
Qed.

Lemma write_outcome e S w e' ok :
  eng_rep en e S -> room e (demand w) -> run_write w e = (e', ok) ->
  outcome en e e' ok S (spec_write e w S) (partial_store e w S).
Proof.
  intros He Hroom Hrun. destruct w as [input now io|b now io|i matches io|input now io]; simpl in Hrun.
  - destruct (insert_with_payload_role en input now io e) as [e1 r] eqn:H1. injection Hrun as <- <-.
    destruct (insert_outcome en e S input now io e1 r He Hroom H1)
      as [(-> & (er & ->) & _)|(p & Hp & HS & Hout & _)].
    + by apply (outcome_same en e); [|apply partial_start|].
    + unfold spec_write, partial_store. cbn [operations]. rewrite <- (prepare_valid e input (vocab (graph e))), Hp.
      rewrite bool_decide_eq_true_2 by done. cbn [is_ok andb].
      destruct (prepare_record _ _ _ _ now (next_seq (meta e)) Hp) as [_ Er]. by rewrite Er in Hout.
  - destruct (insert_batch_with_payload_role en b now io e) as [e1 r] eqn:H1. injection Hrun as <- <-.
    by apply batch_write_outcome.
  - destruct (delete_where i matches io e) as [e1 r] eqn:H1. injection Hrun as <- <-.
    destruct (delete_outcome en e S i matches io e1 r He H1) as [Hout _].
    unfold spec_write, partial_store. cbn [operations one_op].
    assert (Hsame : forall ok, outcome en e e ok S S (fun _ => S)) by (intros ok; by apply (outcome_same en e)).
    unfold delete_where in H1. destruct (id_index e !! i) as [o|]; [|by injection H1 as <- <-].
    destruct (matches o); [|by injection H1 as <- <-]. destruct Hout as [O1 O2 O3]. cbn [one_op] in *.
    assert (Hr : is_ok r = true -> r = Ok true).
    { unfold st_bind, st_ret in H1. destruct (log _ _ _) as [e2 [[]|er]]; [|by injection H1 as <- <-].
      destruct (remove_from_indexes _ _ _) as [e3 [[]|er]]; by injection H1 as <- <-. }
    split; [|done|].
    + intros Hok. specialize (O1 Hok). by rewrite bool_decide_eq_true_2 in O1 by auto.
    + destruct O3 as (ops & ops1 & F1 & F2 & F3 & F4). exists ops, ops1. split_and!; auto.
      intros Hok. specialize (F4 Hok). by rewrite bool_decide_eq_true_2 in F4 by auto.
  - destruct (update_with_payload_role en input now io e) as [e1 r] eqn:H1. injection Hrun as <- <-.
    by apply update_outcome.
Qed.

(** The files of a process killed inside a write hold the operations that are complete in
    the log. *)
Lemma logged_disk w ops : wal_disk en (file w) ops -> logged w = length ops.
Proof. intros (w1 & it & Ho & _ & Hr & _). unfold logged. by rewrite Ho, Hr. Qed.
Lemma write_left e S w e' ok :
  eng_rep en e S -> room e (demand w) -> run_write w e = (e', ok) ->
  files_hold en (is_fresh (meta e) = false) e' (left_by e w S e') /\
  (ok = true -> left_by e w S e' = spec_write e w S).
Proof.
  intros He Hr Hw. destruct (oc_kill _ _ _ _ _ _ _ (write_outcome e S w e' ok He Hr Hw)) as (ops & ops1 & H1 & H2 & H3).
  unfold left_by. rewrite (logged_disk _ _ H2), (logged_disk _ _ (wal_disk_rep en _ _ H1)), length_app.
  by replace (length ops + length ops1 - length ops)%nat with (length ops1) by lia.
Qed.

(** ** Histories *)

(** The states an engine goes through, with the store the caller expects: a new
    store; writes that returned [Ok]; writes that failed before reaching the log;
    flushes with any outcome (except a log header cut short); accesses; steps of the
    background work (seals, builds, merges, compactions, promotions); and processes
    killed between operations, inside a write or inside a flush wherever they were,
    whose files a later process opens, after any opens that failed or were killed. *)
Inductive history : Engine -> Store -> Prop :=
  | history_new c vs e rep :
      quantizers_ok c = true -> dimension_of c < U32 ->
      VectorStore.new_with_capacity en (dimension_of c) (initial_capacity c) grow_ok = Ok vs ->
      open en new_disk c open_ok = Ok (e, rep) -> history e ∅
  | history_write e S w e' :
      history e S -> room e (demand w) -> run_write w e = (e', true) ->
      history e' (spec_write e w S)
  | history_failed e S w e' :
      history e S -> room e (demand w) -> run_write w e = (e', false) ->
      wal e' = wal e -> mapped (vectors e') = true -> history e' S
  | history_flush e S io e' r :
      history e S -> Recovery.flush en io e = (e', r) ->
      (forall k, f_clear io <> ClearWrite k) -> history e' S
  | history_access e S i now : history e S -> history (bump_access_by_id i now e) S
  | history_background e S step : history e S -> history (run_background en step e) S
  | history_reopen e S ios dirs io e' rep :
      history e S -> open en (left_disk en e ios dirs) (config e) io = Ok (e', rep) -> history e' S
  | history_killed_write e S w e1 ok ios dirs io e' rep :
      history e S -> room e (demand w) -> run_write w e = (e1, ok) ->
      open en (left_disk en e1 ios dirs) (config e1) io = Ok (e', rep) ->
      history e' (left_by e w S e1)
  | history_killed_flush e S fio e1 r ios dirs io e' rep :
      history e S -> Recovery.flush en fio e = (e1, r) ->
      open en (left_disk en e1 ios dirs) (config e1) io = Ok (e', rep) -> history e' S.

Context `{!TextTotal}.

Lemma eng_rep_access e S i now : eng_rep en e S -> eng_rep en (bump_access_by_id i now e) S.
Proof.
  intros He. unfold bump_access_by_id. destruct (id_index e !! i); [|done].
  destruct He as ((ops & m0 & hc & [H1 H2 H3 H4 H5]) & Hm & HS). split; [|done].
  exists ops, m0, hc. by split.
Qed.

Lemma history_rep e S : history e S -> eng_rep en e S.
Proof.
  induction 1 as [c vs e rep Hq Hd Hvs Ho|e S w e' _ IH Hr Hw|e S w e' _ IH Hr Hw Ew Hm
    |e S io e' r _ IH Hf Hc|e S i now _ IH|e S step _ IH|e S ios dirs io e' rep _ IH Ho
    |e S w e1 ok ios dirs io e' rep _ IH Hr Hw Ho|e S fio e1 r ios dirs io e' rep _ IH Hf Ho].
  - destruct (open_new en c vs Hq Hd Hvs) as (e1 & rep1 & Ho1 & He1 & _). congruence.
  - by apply (oc_ok _ _ _ _ _ _ _ (write_outcome e S w e' true IH Hr Hw)).
  - by apply (oc_err _ _ _ _ _ _ _ (write_outcome e S w e' false IH Hr Hw)).
  - by apply (proj1 (flush_flushed en e S io e' r IH Hf)).
  - by apply eng_rep_access.
  - eapply steady_rep; [apply background_steady|done].
  - exact (files_hold_reopened en _ e S ios dirs io e' rep (eng_files en e S IH) Ho).
  - exact (files_hold_reopened en _ e1 _ ios dirs io e' rep (proj1 (write_left e S w e1 ok IH Hr Hw)) Ho).
  - exact (files_hold_reopened en _ e1 S ios dirs io e' rep (proj2 (flush_flushed en e S fio e1 r IH Hf)) Ho).
Qed.

(** ** Theorems *)

(** What [stored] reads back of a record is its id, text, concepts, creation time,
    sequence number, payload, scope and role ([durable]), and its vector. The importance,
    the tier and the access statistics, which maintenance rewrites without a log entry,
    are not part of the abstract store; [insert_stores_importance] says what a write puts
    there. *)

(** C4: reads agree with the writes, at every point of a history of inserts,
    batches, updates, deletes, writes that failed before reaching the log, flushes,
    accesses, background steps, kills (also inside a write or a flush) and
    reopens: looking up an id returns exactly what was stored under it
    last, with its normalized vector bit for bit, and nothing for an id that was
    never stored or was deleted. *)
Theorem reads_refine_store e S i :
  history e S ->
  stored en e i = S !! i /\ contains_id e i = bool_decide (is_Some (S !! i)).
Proof.
  intros He%history_rep. split; [by apply (stored_rep en)|].
  destruct He as ((ops & m0 & hc & [Hco _ _ _ Hid]) & _ & HS). unfold contains_id.
  apply bool_decide_ext. split.
  - intros [o (d & Hl & Hi)%Hid]. exists (d, vector_at en (vectors e) o). apply HS. eauto.
  - intros [[d v] (o & Hl & Hi & _)%HS]. exists o. apply Hid. eauto.
Qed.

Lemma fresh_empty e S : eng_rep en e S -> is_fresh (meta e) = true -> S = ∅.
Proof.
  intros ((ops & m0 & hc & [Hco _ _ _ _]) & _ & HS) Hf. unfold is_fresh in Hf.
  rewrite !andb_true_iff, (wf_count _ (co_ms _ _ _ _ _ _ Hco)) in Hf. destruct Hf as [[Hz%N.eqb_eq _] _].
  assert (Hemp : records (meta e) = ∅) by (apply map_size_empty_inv; lia).
  apply map_eq. intros i. rewrite lookup_empty. destruct (S !! i) as [[d v]|] eqn:E; [|done].
  apply HS in E as (o & Ho & _). by rewrite live_lookup, Hemp, lookup_empty in Ho.
Qed.

(** An open of the files of a killed process that hold [S]. *)
Lemma killed_open started e S ios dirs :
  files_hold en started e S ->
  match open en (left_disk en e ios dirs) (config e) open_ok with
  | Ok (e', _) => forall i, stored en e' i = S !! i
  | Err er => er = orphaned /\ S = ∅ /\ ~ started
  end.
Proof.
  intros Hf. pose proof (files_hold_open en started e S ios dirs open_ok Hf) as Hr.
  destruct (open _ _ _ _) as [[e' rep]|]; [intros i; by apply (stored_rep en)|by apply Hr].
Qed.




(** An insert that returns stores the caller's importance, in the hot tier, with no
    access. *)
Lemma insert_stores_importance e S input now io e' :
  history e S -> room e 1 -> insert_with_payload_role en input now io e = (e', Ok true) ->
  exists m, find_meta_by_id e' (i_id input) = Some m /\ id m = i_id input /\
    importance m = i_importance input /\ tier m = Hot /\ access_count m = 0 /\ last_accessed m = 0.
Proof.
  intros He%history_rep [Ro Rq] Hrun.
  destruct (prepare e input (vocab (graph e))) as [p|er] eqn:Hp.
  2: { unfold insert_with_payload_role in Hrun. by rewrite Hp in Hrun. }
  destruct (id_index e !! i_id input) as [o|] eqn:Hi.
  { unfold insert_with_payload_role in Hrun. by rewrite Hp, Hi in Hrun. }
  rewrite (insert_commit en _ _ _ _ p Hp Hi) in Hrun. destruct (prepare_record _ _ _ _ now (next_seq (meta e)) Hp) as [Ei _].
  assert (Hpi : p_importance p = i_importance input).
  { clear -Hp. revert Hp. unfold prepare. case_bool_decide; [done|]. destruct (map_err _ (validate_dimension _ _)); [simpl|done].
    destruct (negb (is_finite _)); [done|]. destruct (match i_payload input with Some _ => _ | None => _ end); [simpl|done].
    destruct (normalize _); [simpl|done]. by intros [= <-]. }
  destruct (commit_batch en [p] now io e) as [e1 [n|er]] eqn:Hc; [|done]. simpl in Hrun. injection Hrun as <-.
  unfold commit_batch in Hc. unfold st_bind at 1 in Hc.
  rewrite alloc_records_ok in Hc by (change (len [p]) with 1; unfold u64_max in *; lia). cbn [numbered] in Hc.
  set (o := next_offset (meta e)) in *. set (rec := into_record p _ now) in *.
  unfold st_bind at 1 in Hc. destruct (st_iter _ _ _) as [e2 [[]|]]; [|done].
  unfold st_bind at 1 in Hc. destruct (sync_vectors_if_configured _ _ _ e2) as [e3 [[]|]]; [|done].
  unfold st_bind at 1 in Hc. destruct (log _ _ e3) as [e4 [[]|]]; [|done].
  unfold st_bind in Hc. destruct (submit_and_wait _ io e4) as [e5 [[]|]] eqn:Hs; [|done]. injection Hc as <- _.
  apply submit_fields in Hs as (_ & _ & _ & _ & Hok). destruct (Hok eq_refl) as [Em Eid].
  exists (meta_of_record rec). unfold find_meta_by_id, MetadataStore.get. rewrite Eid, Em. cbn [foldl fst snd].
  change (r_id rec) with (p_id p). rewrite Ei, lookup_insert_eq. cbn [mbind option_bind].
  unfold put_batch. pose proof (put_batch_loop_records [(o, rec)] (records (meta e4)) (dirty (meta e4)) 0) as Hl.
  destruct (put_batch_loop _ _) as [[c d] a]. cbn [fst foldl snd] in Hl. cbn [records set_records].
  rewrite Hl, lookup_insert_eq. done.
Qed.

End engine_theorems.

(** ** Instances of the hypotheses *)

Module Examples.
#[export] Existing Instances crc32_ieee_impl Wal.Examples.ex_walop Wal.Examples.ex_walop_ok
  Wal.Examples.ex_walop_tagged Wal.Examples.ex_walopv1 MetadataStore.Examples.ex_bm
  MetadataStore.Examples.ex_bm_ok MetadataStore.Examples.ex_bh MetadataStore.Examples.ex_bh_ok
  PayloadIndex.Examples.ex_json.
#[export] Instance ex_bm_total : BincodeTotal MetaRecord := tok_bincode_total MetaRecord.
#[export] Instance ex_bh_total : BincodeTotal (list N) := tok_bincode_total (list N).

(** A graph that remembers its memory nodes, a text index that counts its calls. *)
#[export] Instance ex_graph : GraphOps := {|
  Graph := list string; Vocab := unit;
  empty_graph := []; vocab _ := tt;
  add_memory_scoped g i _ _ _ _ := i :: g;
  remove_memory g i := filter (fun j => j <> i) g;
  merge_concepts cs _ _ := cs;
  to_snapshot_bytes _ := Ok [x01];
  parse_graph _ := Some [];
  memory_nodes g := g;
  parse_ccs s := Some s |}.
#[export] Instance ex_text : TextOps := {|
  Text := nat;
  text_open := Ok 0%nat;
  text_add_batch t l := ((t + length l)%nat, Ok tt);
  text_remove t _ := (pred t, Ok tt);
  text_commit t := (t, Ok tt) |}.
#[export] Instance ex_text_total : TextTotal.
Proof. split; simpl; intros; eauto. Qed.
#[export] Instance ex_syntax : JsonSyntax := {| ignored_any _ := true |}.

Definition ex_config : StoreConfig := {|
  tiers := {| SegmentHolder.dimension := 2; SegmentHolder.hot_capacity := 4;
              SegmentHolder.warm_capacity := 8; SegmentHolder.hnsw_threshold := 4;
              SegmentHolder.full_scan_threshold_kb := 0; SegmentHolder.max_edges := 8;
              SegmentHolder.c_merge_threshold_segments := 2;
              SegmentHolder.c_merge_max_records := 8 |};
  initial_capacity := 4; sync_writes := true; actr_history := 4;
  warm_quantizer := Scalar 8; cold_quantizer := Sign;
  max_concurrent_builds := 1; max_build_memory_bytes := None |}.

Definition le := LittleEndian.
Definition ex_input (i : string) (x y : f32) : WriteInput := {|
  i_id := i; i_text := i; i_embedding := [x; y]; i_importance := 0x3F000000;
  i_concepts := ["c"%string]; i_payload := None; i_scope := Some "s"%string;
  i_source_role := None |}.
Definition ex_batch : BatchInput := {|
  ids := ["b"; "a"; "c"]%string; texts := ["b"; "a"; "c"]%string;
  embeddings := [[0x3F800000; 0]; [0; 0x3F800000]; [0x3F800000; 0x3F800000]];
  importances := [0; 0; 0]; concept_lists := [[]; []; []]; payloads := [];
  scope_list := []; source_roles := [] |}.
Definition build_ok : BuildIo := {| bi_cas := true; bi_build := true; bi_compact := true |}.
Definition ex_flush : FlushIo := {|
  f_builds := [build_ok; build_ok]; f_log_sync := true; f_vectors := true; f_commit := true; f_segments := true;
  f_graph_commit := true; f_legacy_commit := true; f_ccs_commit := true;
  f_clear := ClearOk |}.

(** A new store; two inserts, an update, an access, a flush, a batch, a delete. *)
Definition ex_opened := open le new_disk ex_config open_ok.
Definition ex_e0 : Engine :=
  match ex_opened as r return match r with Ok _ => Engine | Err _ => unit end with
  | Ok (e, _) => e
  | Err _ => tt
  end.
Definition ex_w1 : Write := Insert (ex_input "a" 0x3F800000 0x40000000) 100 write_ok.
Definition ex_w2 : Write := Update (ex_input "a" 0x40400000 0x40800000) 101 write_ok.
Definition ex_w3 : Write := InsertBatch ex_batch 102 write_ok.
Definition ex_w4 : Write := DeleteWhere "b" (fun _ => true) write_ok.
Definition ex_e1 : Engine := (run_write le ex_w1 ex_e0).1.
Definition ex_e2 : Engine := (run_write le ex_w2 ex_e1).1.
Definition ex_e3 : Engine := (Recovery.flush le ex_flush (bump_access_by_id "a" 103 ex_e2)).1.
Definition ex_e4 : Engine := (run_write le ex_w3 ex_e3).1.
Definition ex_e5 : Engine := (run_write le ex_w4 ex_e4).1.
Definition ex_s1 := spec_write ex_e0 ex_w1 ∅.
Definition ex_s2 := spec_write ex_e1 ex_w2 ex_s1.
Definition ex_s4 := spec_write ex_e3 ex_w3 ex_s2.
Definition ex_s5 := spec_write ex_e4 ex_w4 ex_s4.
Definition ex_vectors : VectorStore.Inner :=
  match VectorStore.new_with_capacity le 2 4 grow_ok as r
    return match r with Ok _ => VectorStore.Inner | Err _ => unit end with
  | Ok v => v
  | Err _ => tt
  end.
(** The log frame torn after seven bytes, and its rollback failing. *)
Definition torn : WriteIo := {|
  w_grow := fun _ => grow_ok; w_sync := true;
  w_append := {| io_written := Some 7%nat; io_set_len := false; io_seek := false |}; w_log_sync := true;
  w_worker := true |}.
Definition ex_w5 : Write := Update (ex_input "a" 0 0x3F800000) 104 torn.
Definition ex_killed_flush : FlushIo := {|
  f_builds := [build_ok; build_ok];
  f_log_sync := true; f_vectors := true; f_commit := true; f_segments := true;
  f_graph_commit := true; f_legacy_commit := true; f_ccs_commit := true;
  f_clear := ClearWrite 3 |}.
Definition ex_e6 : Engine := (run_write le ex_w5 ex_e5).1.
Definition ex_e7 : Engine := (Recovery.flush le ex_killed_flush ex_e5).1.
(** An open killed in its checkpoint, while the new log header is being written. *)
Definition ex_killed_open : OpenIo := {|
  o_grow := grow_ok; o_header := ClearOk; o_cut := CutOk; o_vectors := true; o_commit := true;
  o_sync := true; o_clear := ClearWrite 3 |}.
Definition ex_opens : list (SegDirs * OpenIo) := [(no_dirs, ex_killed_open)].

(** Background steps that build the sealed segment and promote everything; a kill in the
    torn update; an open that is killed too, and one that returns. *)
Definition ex_e8 : Engine := run_background le (BuildSealed build_ok) ex_e5.
Definition ex_e9 : Engine := run_background le (ConsolidateSegments (fun _ => true) true) ex_e8.
Definition ex_e10 : Engine := (run_write le ex_w5 ex_e9).1.
Definition ex_reopened := open le (left_disk le ex_e10 ex_opens no_dirs) (config ex_e10) open_ok.
Definition ex_e11 : Engine :=
  match ex_reopened as r return match r with Ok _ => Engine | Err _ => unit end with
  | Ok (e, _) => e
  | Err _ => tt
  end.
Definition ex_s11 := left_by le ex_e9 ex_w5 ex_s5 ex_e10.
Definition no_report : RecoveryReport := {|
  wal_ops_replayed := 0; wal_inserts_without_vector := 0; wal_bytes_discarded := 0;
  segments_discarded := 0; segment_dirs_removed := 0; graph_nodes_pruned := 0 |}.

(** A new store whose first insert fails after its vector is written, and whose flush is
    killed after the vectors are stamped. *)
Definition ex_lost : WriteIo := {|
  w_grow := fun _ => grow_ok; w_sync := true;
  w_append := {| io_written := Some 0%nat; io_set_len := true; io_seek := true |}; w_log_sync := true;
  w_worker := true |}.
Definition ex_unflushed : FlushIo := {|
  f_builds := [build_ok]; f_log_sync := true; f_vectors := true; f_commit := false; f_segments := true;
  f_graph_commit := true; f_legacy_commit := true; f_ccs_commit := true; f_clear := ClearOk |}.
Definition ex_orphan : Engine :=
  (Recovery.flush le ex_unflushed (run_write le (Insert (ex_input "a" 0x3F800000 0x40000000) 100 ex_lost) ex_e0).1).1.

Lemma ex_history4 : history le ex_e4 ex_s4.
Proof.
  apply (history_write le ex_e3 ex_s2 ex_w3); [|by vm_compute|by vm_compute].
  apply (history_flush le (bump_access_by_id "a" 103 ex_e2) ex_s2 ex_flush _ (Ok tt));
    [apply history_access|by vm_compute|done].
  apply (history_write le ex_e1 ex_s1 ex_w2); [|by vm_compute|by vm_compute].
  apply (history_write le ex_e0 ∅ ex_w1); [|by vm_compute|by vm_compute].
  apply (history_new le ex_config ex_vectors ex_e0 (match ex_opened with Ok (_, rep) => rep | Err _ => no_report end));
    by vm_compute.
Qed.

Lemma ex_history5 : history le ex_e5 ex_s5.
Proof. apply (history_write le ex_e4 ex_s4 ex_w4); [apply ex_history4|by vm_compute|by vm_compute]. Qed.

Lemma ex_history9 : history le ex_e9 ex_s5.
Proof. apply (history_background le ex_e8), (history_background le ex_e5), ex_history5. Qed.
Lemma ex_history11 : history le ex_e11 ex_s11.
Proof.
  apply (history_killed_write le ex_e9 ex_s5 ex_w5 ex_e10 false ex_opens no_dirs open_ok ex_e11
    (match ex_reopened with Ok (_, rep) => rep | Err _ => no_report end));
    [apply ex_history9|by vm_compute|by vm_compute|by vm_compute].
Qed.

(** The exception of [acknowledged_writes_survive] happens. *)
Example orphaned_new_store :
  open le (left_disk le ex_orphan [] no_dirs) (config ex_orphan) open_ok = Err orphaned.
Proof. vm_compute. reflexivity. Qed.
(** A process killed while it creates the vector file leaves one that [open] refuses. *)
Example killed_creation :
  open le (open_leaves le ex_config new_disk
    {| o_grow := {| g_set_len := true; g_map := false; g_remap := true |}; o_header := ClearOk; o_cut := CutOk;
       o_vectors := true; o_commit := true; o_sync := true; o_clear := ClearOk |}) ex_config open_ok
  = Err (InvalidArgument "vector store has invalid magic").
Proof. vm_compute. reflexivity. Qed.
End Examples.
Import Examples.

Lemma reads_refine_store_witness :
  stored le ex_e11 "a" = Some ("a", "a", ["c"], 101, 2, None, Some "s", None,
                              [0x3f19999a; 0x3f4ccccd])%string /\
  stored le ex_e11 "b" = None /\
  stored le ex_e11 "a" = ex_s11 !! "a"%string.
Proof.
  split; [by vm_compute|]. split; [by vm_compute|].
  apply (reads_refine_store le ex_e11 ex_s11 "a"), ex_history11.
Defined.



