(* ===== verification/Searchable.v ===== *)
(** * Every stored record stays searchable

    The invariant of the segments of an engine, over the histories of
    [EngineTheorems]: the holder is well formed, its hot segment has the configured
    dimension, and every live record is in a segment that searches reach. It gives
    that a valid write is accepted, and that what is stored can be found. *)

From S2P Require Import Prelude Core Metrics Record Wal VectorStore MetadataStore AccessCounters.
From S2P Require Import ScopeIndex PayloadIndex Segments SegmentHolder Optimizer Engine Recovery.
From S2P Require Import Durability CrashSafety Steady EngineTheorems.
#[local] Open Scope turbo_scope.

(** ** The segment holder *)

Record sound (c : SegmentHolder.Config) (h : SegmentHolder.SegmentHolder) : Prop := {
  so_ok : holder_ok h;
  so_hot : hot_wf (hot h);
  so_config : SegmentHolder.config h = c;
  so_dim : h_dim (hot h) = SegmentHolder.dimension c;
}.

Lemma hot_insert_dim x o v : h_dim (hot_insert x o v).1 = h_dim x.
Proof. unfold hot_insert. destruct (validate_dimension _ _); [|done]. by case_decide. Qed.

Lemma hot_insert_accepts x o v : len v = h_dim x -> (hot_insert x o v).2 = Ok tt.
Proof.
  intros Hl. unfold hot_insert, validate_dimension. rewrite Hl, N.eqb_refl. simpl. by case_decide.
Qed.

Lemma sound_insert c h o v : sound c h -> sound c (SegmentHolder.insert h o v).1.
Proof.
  intros [H1 H2 H3 H4]. pose proof (SegmentHolder.insert_ok h o v H1) as Ho.
  pose proof (hot_insert_wf (hot h) o v H2) as Hw. pose proof (hot_insert_dim (hot h) o v) as Hd.
  revert Ho. unfold SegmentHolder.insert.
  destruct (hot_insert (hot h) o v) as [x [|]]; simpl in *; intros Ho; split; simpl; auto; congruence.
Qed.

Lemma insert_accepts c h o v :
  sound c h -> len v = SegmentHolder.dimension c -> is_ok (SegmentHolder.insert h o v).2 = true.
Proof.
  intros [_ _ _ H4] Hl. pose proof (hot_insert_accepts (hot h) o v) as Ha. rewrite H4 in Ha.
  unfold SegmentHolder.insert. destruct (hot_insert (hot h) o v) as [x [|]]; [done|].
  by specialize (Ha Hl).
Qed.

Lemma sound_seal c h : sound c h -> sound c (seal_hot h).
Proof.
  intros [H1 H2 H3 H4]. split; [by apply seal_hot_ok|by apply seal_hot_hot| |];
    unfold seal_hot; destruct (_ <? _); simpl; congruence.
Qed.

Lemma compact_warm_config h view b :
  SegmentHolder.config (compact_warm h view b).1 = SegmentHolder.config h.
Proof.
  unfold compact_warm. destruct (_ || _); [done|].
  destruct (read_vectors_for_offsets _ view).*1; [done|]. by destruct b.
Qed.

Lemma pop_config h s h' :
  pop_sealing_plain h = Some (s, h') -> SegmentHolder.config h' = SegmentHolder.config h.
Proof. unfold pop_sealing_plain. destruct (last _); [|done]. by intros [= _ <-]. Qed.

(** A seal step leaves the hot segment and the configuration alone. *)
Lemma seal_step_hot h b view io :
  hot (process_one_seal h b view io).1.1 = hot h /\
  SegmentHolder.config (process_one_seal h b view io).1.1 = SegmentHolder.config h.
Proof.
  unfold process_one_seal. destruct (pop_sealing_plain h) as [[plain h1]|] eqn:Hp; [|done].
  destruct (pop_perm _ _ _ Hp) as (_ & _ & E & _). apply pop_config in Hp as Ec.
  destruct (seg_offsets plain); [done|]. destruct (plan_seal _ _ _ _) as [[u h2] b2] eqn:Hpl.
  apply plan_seal_holder in Hpl as [-> ->]. unfold install_built.
  destruct (build_segment _ _ _ _) as [[|]|]; simpl; rewrite ?compact_warm_hot, ?compact_warm_config; done.
Qed.

Lemma sound_seal_step c h b view io : sound c h -> sound c (process_one_seal h b view io).1.1.
Proof.
  intros [H1 H2 H3 H4]. destruct (seal_step_hot h b view io) as [E1 E2].
  split; rewrite ?E1, ?E2; auto. apply (process_one_seal_keeps h b view io 0 H1).
Qed.

Lemma seal_loop_sound c h b view ios h' b' er :
  sound c h -> seal_loop h b view ios = Some (h', b', er) ->
  sound c h' /\ forall o, is_Some (view o) -> covers h o -> covers h' o.
Proof.
  revert h b. induction ios as [|io ios IH]; intros h b Hs; simpl; [done|].
  pose proof (sound_seal_step c h b view io Hs) as Hs1.
  pose proof (fun o => process_one_seal_keeps h b view io o (so_ok _ _ Hs)) as Hk.
  destruct (process_one_seal h b view io) as [[h1 b1] [[|]|]]; cbn [fst] in *.
  - intros H2. destruct (IH _ _ Hs1 H2) as [Hs2 Hc]. split; [done|].
    intros o Hv Ho. apply Hc; [done|]. by apply (Hk o).
  - intros [= <- <- _]. split; [done|]. intros o. apply Hk.
  - intros [= <- <- _]. split; [done|]. intros o. apply Hk.
Qed.

(** The seal loop of [flush] ends: one round per queued segment and one more. *)
Lemma seal_loop_ends h b view ios :
  len (sealing_plain h) < len ios -> is_Some (seal_loop h b view ios).
Proof.
  revert h b. induction ios as [|io ios IH]; intros h b Hl; [unfold len in Hl; simpl in Hl; lia|].
  simpl. destruct (process_one_seal h b view io) as [[h1 b1] [[|]|]] eqn:E; [|eauto|eauto].
  apply seal_decreases in E as [Hd _]. apply IH. unfold len in *. simpl in *. lia.
Qed.

Lemma insert_segments_sound c rs h ns h' r :
  sound c h -> insert_segments h rs ns = (h', r) ->
  sound c h' /\ (forall o, covers h o -> covers h' o) /\
  (is_ok r = true -> forall o, o ∈ rs.*1 -> covers h' o) /\
  (Forall (fun orec : N * Record_ => len (r_embedding orec.2) = SegmentHolder.dimension c) rs ->
     is_ok r = true).
Proof.
  revert h ns. induction rs as [|[o rec] rs IH]; intros h ns Hs; simpl.
  { intros [= <- <-]. split_and!; auto. set_solver. }
  pose proof (sound_insert c h o (r_embedding rec) Hs) as Hs1.
  pose proof (SegmentHolder.insert_covers h o (r_embedding rec)) as Hc1.
  pose proof (insert_accepts c h o (r_embedding rec) Hs) as Ha.
  pose proof (fun f => insert_Ok_covers h o (r_embedding rec) f) as Hin.
  destruct (SegmentHolder.insert h o (r_embedding rec)) as [h1 [b|er]]; cbn [fst snd] in *.
  - intros H2. destruct (IH h1 _ Hs1 H2) as (A & B & C & D). split_and!; auto.
    + intros Hr o' [->|Ho]%elem_of_cons; [|auto]. apply B, (Hin b); [done|apply Hs].
    + intros [_ Hf]%Forall_cons. auto.
  - intros [= <- <-]. split_and!; auto; [done|]. intros [Hl _]%Forall_cons. simpl in Hl. by specialize (Ha Hl).
Qed.

(** *** Background steps *)

Lemma sound_same c h h' : sound c h -> holder_ok h' -> hot h' = hot h -> SegmentHolder.config h' = SegmentHolder.config h -> sound c h'.
Proof. intros [H1 H2 H3 H4] Ho E1 E2. split; rewrite ?E1, ?E2; auto. Qed.

Lemma merge_step_hot h b view io :
  hot (process_one_merge h b view io).1.1 = hot h /\
  SegmentHolder.config (process_one_merge h b view io).1.1 = SegmentHolder.config h.
Proof.
  unfold process_one_merge. destruct (sealed_hot_merge_candidates h _ _) as [c|]; [|done].
  destruct (Optimizer.union_offsets _ _); [done|]. destruct (read_vectors_for_offsets _ view).*1; [done|].
  destruct (try_acquire _ _ _ _ _); [|done]. cbn [segment_path]. by destruct (bi_build io).
Qed.
Lemma sound_merge_step c h b view io : sound c h -> sound c (process_one_merge h b view io).1.1.
Proof.
  intros Hs. destruct (merge_step_hot h b view io) as [E1 E2].
  apply (sound_same c h); [done| |done|done]. apply (process_one_merge_keeps h b view io 0). apply (so_ok _ _ Hs).
Qed.
Lemma sound_compact c h view ok : sound c h -> sound c (compact_warm h view ok).1.
Proof.
  intros Hs. eapply sound_same; [exact Hs| |apply compact_warm_hot|apply compact_warm_config].
  apply (compact_warm_keeps 0). apply (so_ok _ _ Hs).
Qed.

Section promotion.
Context (c : SegmentHolder.Config) (p : MetaRecord -> bool).
Lemma hot_insert_sound h o v x r : sound c h -> hot_insert (hot h) o v = (x, r) -> sound c (set_hot x h).
Proof.
  intros [H1 H2 H3 H4] E. pose proof (hot_insert_wf (hot h) o v H2) as Hw. pose proof (hot_insert_dim (hot h) o v) as Hd.
  rewrite E in Hw, Hd. simpl in *. split; simpl; try done; [|congruence].
  by apply (set_hot_keeps True o o _ _ _ _ E H1).
Qed.
Lemma promote_loop_sound view l : forall h meta n, sound c h -> sound c (promote_loop p h meta view l n).1.1.
Proof.
  induction l as [|o l IH]; intros h meta n Hs; cbn [promote_loop]; [done|].
  destruct (MetadataStore.get meta o) as [m|]; [|by apply IH]. destruct (p m); cbn [negb]; [|by apply IH].
  destruct (view o) as [v|]; [|by apply IH]. destruct (hot_insert _ _ _) as [x [u|er]] eqn:E; apply hot_insert_sound in E; try done.
  apply IH. destruct (_ <=? _); [by apply sound_seal|done].
Qed.
Lemma sound_publish h : sound c h -> sound c (publish_snapshot h).
Proof. intros Hs. eapply sound_same; [exact Hs| |done|done]. apply publish_ok. apply (so_ok _ _ Hs). Qed.
Lemma consolidation_sound h meta view ok : sound c h -> sound c (SegmentHolder.trigger_consolidation p h meta view ok).1.1.
Proof.
  intros Hs. unfold SegmentHolder.trigger_consolidation. cbv zeta.
  set (h1 := if _ <=? _ then seal_hot h else h). assert (H1 : sound c h1) by (unfold h1; destruct (_ <=? _); [by apply sound_seal|done]).
  destruct (if _ <? _ then compact_warm _ _ _ else _) as [h2 r] eqn:E2.
  assert (H2 : sound c h2).
  { destruct (_ <? sum_counts _); [|by injection E2 as <- _]. pose proof (sound_compact c h1 view ok H1) as H. by rewrite E2 in H. }
  destruct r as [u|er]; [|done]. unfold promote_hot.
  pose proof (promote_loop_sound view (concat (map seg_offsets (searchable_segments h2))) h2 meta 0 H2) as H3.
  destruct (promote_loop _ _ _ _ _ _) as [[h3 m] [n|er]]; [|done]. cbn [fst] in *.
  destruct (0 <? n); [by apply sound_publish|done].
Qed.
End promotion.

(** ** The engine *)

Section searchable.
Context (en : Endian) {HC : Crc32} {BW : Bincode WalOp} {BW1 : Bincode WalOpV1}
  {BM : Bincode MetaRecord} {BH : Bincode (list N)}
  {BMo : BincodeOk MetaRecord} {BHo : BincodeOk (list N)}
  {BMt : BincodeTotal MetaRecord} {BHt : BincodeTotal (list N)}
  {BWo : BincodeOk WalOp} {BWt : BincodeTagged WalOp}
  {SJ : SerdeJson} {JS : JsonSyntax} {GO : GraphOps} {TO : TextOps}.

(** The segments are sound and cover every live record. *)
Definition seg_inv (e : Engine) : Prop :=
  sound (tiers (config e)) (segments e) /\
  forall o, is_Some (live (meta e) !! o) -> covers (segments e) o.

Lemma seg_inv_same e e' :
  seg_inv e -> config e' = config e -> segments e' = segments e ->
  (forall o, is_Some (live (meta e') !! o) -> is_Some (live (meta e) !! o)) -> seg_inv e'.
Proof. intros [Hs Hc] E1 E2 E3. split; rewrite ?E1, ?E2; eauto. Qed.

Lemma index_all_segments rs e e' r : st_iter index_one rs e = (e', r) -> segments e' = segments e.
Proof.
  revert e. induction rs as [|[o rec] rs IH]; intros e; simpl; [by intros [= <- _]|].
  unfold st_bind at 1, index_one at 1. unfold st_bind, st_modify, on.
  destruct (PayloadIndex.add _ _ _) as [p [[]|]]; [|by intros [= <- _]].
  intros H. by apply IH in H.
Qed.

Lemma apply_batch_sound c rs e e' r :
  sound c (segments e) -> apply_batch rs e = (e', r) ->
  sound c (segments e') /\ (forall o, covers (segments e) o -> covers (segments e') o) /\
  (r = Ok tt -> forall o, o ∈ rs.*1 -> covers (segments e') o).
Proof.
  intros Hs. unfold apply_batch, st_bind, st_modify.
  destruct (st_iter index_one rs _) as [e1 [[]|er]] eqn:H1; apply index_all_segments in H1;
    simpl in H1; [|by intros [= <- <-]; rewrite H1].
  unfold on at 1. destruct (text_add_batch _ _) as [t [[]|er]]; [|by intros [= <- <-]; simpl; rewrite H1].
  unfold on. simpl. rewrite H1. destruct (insert_segments _ _ _) as [h r2] eqn:H2.
  destruct (insert_segments_sound c _ _ _ _ _ Hs H2) as (A & B & C & _).
  destruct r2 as [ns|er]; intros [= <- <-]; [|by split_and!].
  destruct ns; simpl.
  - split; [by apply sound_seal|]. split; [intros o Ho; by apply seal_hot_covers, B|].
    intros _ o Ho. by apply seal_hot_covers, C.
  - split_and!; auto.
Qed.

Lemma puts_state rs io e e' r :
  st_iter (fun orec : N * Record_ => vectors_put en orec.1 (r_embedding orec.2) io) rs e = (e', r) ->
  exists vs, e' = set_vectors vs e.
Proof.
  revert e. induction rs as [|[o rec] rs IH]; intros e; simpl.
  { intros [= <- _]. exists (vectors e). by rewrite set_vectors_id. }
  unfold st_bind at 1, vectors_put at 1, on. simpl.
  destruct (VectorStore.put _ _ _ _ _) as [v [[]|]]; [|intros [= <- _]; eauto].
  intros [vs ->]%IH. by exists vs.
Qed.

(** A logged operation changes the log. *)
Lemma logged_wal ops ops' io e e' :
  wal_rep en (wal e) ops -> ops' <> [] -> log ops' io e = (e', Ok tt) -> wal e' <> wal e.
Proof.
  intros Hw Hne Hl Ew. apply log_state in Hl as (w' & r' & Ha & -> & Hr).
  destruct (append_disk en _ _ _ _ _ _ Hw Ha) as (ops1 & ops2 & _ & _ & Hf).
  destruct (Hf (Hr eq_refl)) as [_ Hw']. cbn [wal set_wal] in Ew. rewrite Ew in Hw'.
  pose proof (wal_rep_inj en _ _ _ Hw Hw') as E. apply (f_equal length) in E.
  rewrite length_app in E. destruct ops'; [done|]. simpl in E. lia.
Qed.

Lemma submit_wal rs io e e' r : submit_and_wait rs io e = (e', r) -> wal e' = wal e /\ config e' = config e.
Proof. intros (_ & _ & E1 & E2 & _)%submit_fields. done. Qed.

Lemma seg_inv_submit rs io e e' :
  seg_inv e -> submit_and_wait rs io e = (e', Ok tt) -> seg_inv e'.
Proof.
  intros [Hs Hc] Hsub. pose proof (submit_wal _ _ _ _ _ Hsub) as [_ Ec].
  pose proof (submit_fields _ _ _ _ _ Hsub) as (_ & _ & _ & _ & Hok).
  destruct (Hok eq_refl) as [Em _]. unfold submit_and_wait in Hsub.
  destruct (w_worker io); [|done].
  destruct (apply_batch_sound _ _ _ _ _ Hs Hsub) as (A & B & C). split; [by rewrite Ec|].
  intros o. rewrite Em, (proj1 (put_batch_fields _ _)). intros Ho.
  destruct (decide (o ∈ rs.*1)) as [Hin|Hno]; [by apply C|]. apply B, Hc.
  clear -Ho Hno. revert Ho. generalize (live (meta e)). induction rs as [|[o' rec] rs IH]; intros R; simpl; [done|].
  intros Ho. simpl in Hno. apply not_elem_of_cons in Hno as [Hne Hno].
  apply IH in Ho; [|done]. by rewrite lookup_insert_ne in Ho.
Qed.

Lemma commit_batch_seg e ops ps now io e' r :
  wal_rep en (wal e) ops -> ps <> [] -> room e (len ps) -> seg_inv e ->
  commit_batch en ps now io e = (e', r) -> is_ok r = true \/ wal e' = wal e -> seg_inv e'.
Proof.
  intros Hw Hne [Ro Rq] Hi Hrun Hcase. unfold commit_batch in Hrun. unfold st_bind at 1 in Hrun.
  rewrite alloc_records_ok in Hrun by (unfold u64_max in *; lia).
  set (rs := numbered _ _ _ ps) in Hrun. unfold st_bind at 1 in Hrun.
  destruct (st_iter _ rs _) as [e2 r2] eqn:Hput. apply puts_state in Hput as [vs ->].
  set (e1 := set_vectors vs _) in Hrun.
  assert (Hi0 : seg_inv e1) by (by apply (seg_inv_same e)).
  assert (Hi1 : forall w, seg_inv (set_wal w e1)) by (intros w; by apply (seg_inv_same e)).
  destruct r2 as [[]|er]; [|by injection Hrun as <- <-].
  unfold st_bind at 1 in Hrun.
  pose proof (sync_state (default 0 (head rs.*1)) (default 0 (last rs.*1)) io e1) as Hsync.
  destruct (sync_vectors_if_configured _ _ io _) as [e2' [[]|er]]; simpl in Hsync; subst e2';
    [|by injection Hrun as <- <-].
  unfold st_bind at 1 in Hrun. destruct (log _ io _) as [e3 r3] eqn:Hlog.
  pose proof (log_state _ _ _ _ _ Hlog) as (w' & r3' & _ & -> & _).
  destruct r3 as [[]|er]; [|injection Hrun as <- <-; apply Hi1].
  unfold st_bind in Hrun. destruct (submit_and_wait rs io _) as [e4 r4] eqn:Hsub.
  destruct r4 as [[]|er]; injection Hrun as <- <-; [by apply (seg_inv_submit rs io _ _ (Hi1 w'))|].
  exfalso. destruct Hcase as [|Ew]; [done|]. apply submit_wal in Hsub as [Es _].
  apply (logged_wal ops _ io e1 _ Hw) in Hlog; [|unfold rs; by destruct ps].
  apply Hlog. simpl in *. congruence.
Qed.

Lemma remove_indexes_segments i o e e' r :
  remove_from_indexes i o e = (e', r) -> segments e' = segments e.
Proof.
  unfold remove_from_indexes, st_bind, st_modify, on.
  destruct (MetadataStore.get (meta e) o) as [m|]; [|by intros [= <- _]].
  simpl. destruct (text_remove _ _) as [t [[]|er]]; by intros [= <- _].
Qed.

Lemma seg_inv_remove i o e e' r :
  seg_inv e -> remove_from_indexes i o e = (e', r) -> seg_inv e'.
Proof.
  intros Hi Hr. pose proof (remove_indexes_segments _ _ _ _ _ Hr) as Es.
  pose proof (remove_from_indexes_fields _ _ _ _ _ Hr) as (_ & _ & Ec & Hok & Her).
  apply (seg_inv_same e); auto. intros o'. destruct r as [[]|er].
  - destruct (Hok eq_refl) as [-> _]. rewrite live_remove. intros [d Hd].
    apply lookup_delete_Some in Hd as [_ Hd]. eauto.
  - by rewrite Her.
Qed.

Lemma delete_seg i matches io e e' r :
  seg_inv e -> delete_where i matches io e = (e', r) -> seg_inv e'.
Proof.
  intros Hi Hrun. unfold delete_where in Hrun.
  destruct (id_index e !! i) as [o|]; [|by injection Hrun as <- _].
  destruct (matches o); [|by injection Hrun as <- _].
  unfold st_bind at 1 in Hrun. destruct (log _ io e) as [e1 r1] eqn:Hlog.
  apply log_state in Hlog as (w' & _ & _ & -> & _).
  assert (Hi1 : seg_inv (set_wal w' e)) by (by apply (seg_inv_same e)).
  destruct r1 as [[]|er]; [|by injection Hrun as <- _].
  unfold st_bind in Hrun. destruct (remove_from_indexes i o _) as [e2 r2] eqn:Hr.
  pose proof (seg_inv_remove _ _ _ _ _ Hi1 Hr) as Hi2.
  destruct r2 as [[]|]; by injection Hrun as <- _.
Qed.

Lemma update_seg e ops input p old now io e' r :
  wal_rep en (wal e) ops -> room e 1 -> prepare e input (vocab (graph e)) = Ok p ->
  id_index e !! i_id input = Some old -> seg_inv e ->
  update_with_payload_role en input now io e = (e', r) ->
  is_ok r = true \/ wal e' = wal e -> seg_inv e'.
Proof.
  intros Hw Hroom Hp Hidx Hi Hrun Hcase.
  rewrite (update_unfold en e input p old now io Hroom Hp Hidx) in Hrun.
  set (rec := into_record p _ now) in Hrun. set (o := next_offset (meta e)) in Hrun.
  unfold st_bind at 1, vectors_put, on in Hrun.
  destruct (VectorStore.put _ _ _ _ _) as [vs r1].
  set (e1 := set_vectors vs _) in Hrun.
  assert (Hi0 : seg_inv e1) by (by apply (seg_inv_same e)).
  assert (Hi1 : forall w, seg_inv (set_wal w e1)) by (intros w; by apply (seg_inv_same e)).
  destruct r1 as [[]|]; [|by injection Hrun as <- _].
  unfold st_bind at 1 in Hrun. pose proof (sync_state o o io e1) as Hsync.
  destruct (sync_vectors_if_configured _ _ io _) as [e2' [[]|er]]; simpl in Hsync; subst e2';
    [|by injection Hrun as <- _].
  unfold st_bind at 1 in Hrun. destruct (log _ io _) as [e3 r3] eqn:Hlog.
  pose proof (log_state _ _ _ _ _ Hlog) as (w' & r3' & _ & -> & _).
  destruct r3 as [[]|er]; [|injection Hrun as <- _; apply Hi1].
  apply (logged_wal ops _ io e1 _ Hw) in Hlog; [|done]. simpl in Hlog.
  unfold st_bind at 1 in Hrun. destruct (remove_from_indexes _ _ _) as [e4 r4] eqn:Hrm.
  pose proof (seg_inv_remove _ _ _ _ _ (Hi1 w') Hrm) as Hi4.
  apply remove_from_indexes_fields in Hrm as (_ & E4 & _). simpl in E4.
  destruct r4 as [[]|]; [|by injection Hrun as <- _].
  unfold st_bind in Hrun. destruct (submit_and_wait _ io _) as [e5 r5] eqn:Hsub.
  destruct r5 as [[]|er]; injection Hrun as <- <-; [by apply (seg_inv_submit _ io _ _ Hi4 Hsub)|].
  exfalso. destruct Hcase as [|Ew]; [done|]. apply submit_wal in Hsub as [Es _]. congruence.
Qed.

Lemma write_seg e S w e' ok :
  eng_rep en e S -> room e (demand w) -> run_write en w e = (e', ok) -> seg_inv e ->
  ok = true \/ wal e' = wal e -> seg_inv e'.
Proof.
  intros ((ops & m0 & hc & [_ Hw _ _ _]) & _) Hroom Hrun Hi Hcase.
  destruct w as [input now io|b now io|i matches io|input now io]; simpl in Hrun.
  - destruct (insert_with_payload_role en input now io e) as [e1 r] eqn:H1. injection Hrun as <- <-.
    destruct (prepare e input (vocab (graph e))) as [p|er] eqn:Hp.
    2: { unfold insert_with_payload_role in H1. rewrite Hp in H1. by injection H1 as <- _. }
    destruct (id_index e !! i_id input) as [o|] eqn:Hid.
    { unfold insert_with_payload_role in H1. rewrite Hp, Hid in H1. by injection H1 as <- _. }
    rewrite (insert_commit en _ _ _ _ p Hp Hid) in H1.
    destruct (commit_batch en [p] now io e) as [e2 r2] eqn:Hc. simpl in H1. injection H1 as <- <-.
    apply (commit_batch_seg e ops [p] now io e2 r2); auto.
    destruct Hcase; [left; by destruct r2|by right].
  - destruct (insert_batch_with_payload_role en b now io e) as [e1 r] eqn:H1. injection Hrun as <- <-.
    unfold insert_batch_with_payload_role in H1.
    destruct (ids b) as [|i0 ids0] eqn:Hids; [by injection H1 as <- _|].
    destruct (negb (lengths_ok b)); [by injection H1 as <- _|].
    destruct (prepare_batch e (vocab (graph e)) (inputs_of b) ∅) as [ps|er] eqn:Hp; [|by injection H1 as <- _].
    pose proof (prepare_batch_len _ _ _ _ _ Hp) as Hlen. rewrite length_inputs in Hlen.
    pose proof (length_filter (fun p => id_index e !! p_id p = None) ps) as Hfl.
    destruct (filter _ ps) as [|p ps'] eqn:Hf; [by injection H1 as <- _|].
    apply (commit_batch_seg e ops (p :: ps') now io e1 r); auto.
    destruct Hroom as [R1 R2]. simpl demand in *. unfold room, len in *. lia.
  - destruct (delete_where i matches io e) as [e1 r] eqn:H1. injection Hrun as <- <-. by eapply delete_seg.
  - destruct (update_with_payload_role en input now io e) as [e1 r] eqn:H1. injection Hrun as <- <-.
    unfold update_with_payload_role, contains_id in H1.
    destruct (id_index e !! i_id input) as [old|] eqn:Hid; [|by injection H1 as <- _].
    destruct (prepare e input (vocab (graph e))) as [p|er] eqn:Hp; [|by injection H1 as <- _].
    apply (update_seg e ops input p old now io e1 r); auto.
    unfold update_with_payload_role, contains_id. by rewrite Hid, Hp.
Qed.

(** *** Flush *)

Lemma flush_records_segments io e e' r : flush_records en io e = (e', r) -> segments e' = segments e.
Proof.
  unfold flush_records, st_bind, st_modify, check_io, on.
  destruct (drain_into _ _) as [a m]. simpl.
  destruct (f_log_sync io); [|by intros [= <- _]].
  destruct (VectorStore.flush en _ _) as [v [[]|]]; [|by intros [= <- _]].
  simpl. destruct (text_commit _) as [t [[]|]]; [|by intros [= <- _]].
  simpl. destruct (MetadataStore.flush _ _ _) as [m' r']. by intros [= <- _].
Qed.

Lemma flush_rest_same io e e' r :
  flush_rest en io e = (e', r) ->
  segments e' = segments e /\ config e' = config e /\ live (meta e') = live (meta e).
Proof.
  intros Hrun. unfold flush_rest in Hrun. unfold st_bind at 1, check_io in Hrun.
  destruct (f_segments io); [|by injection Hrun as <- _].
  unfold st_bind at 1 in Hrun. destruct (save_graph io e) as [e2 r2] eqn:Hg.
  apply save_graph_fields in Hg as (d2 & -> & _). destruct r2 as [[]|]; [|by injection Hrun as <- _].
  unfold st_bind in Hrun. destruct (save_ccs io _) as [e3 r3] eqn:Hc.
  apply save_ccs_fields in Hc as (d3 & -> & _). destruct r3 as [[]|]; [|by injection Hrun as <- _].
  unfold on in Hrun. destruct (clear_io en _ _) as [w' r4]. by injection Hrun as <- _.
Qed.

Lemma flush_seg e S io e' r :
  eng_rep en e S -> Recovery.flush en io e = (e', r) -> seg_inv e -> seg_inv e'.
Proof.
  intros He Hrun [Hs Hc]. unfold Recovery.flush in Hrun.
  destruct (seal_loop _ _ _ _) as [[[h b] se]|] eqn:Hl; [|by injection Hrun as <- _].
  destruct (seal_loop_sound _ _ _ _ _ _ _ _ Hs Hl) as [Hs1 Hc1].
  assert (Hi1 : seg_inv (set_segments h b e)).
  { split; [done|]. intros o Ho. apply Hc1; [|by apply Hc].
    destruct He as ((ops & m0 & hc & [Hco _ _ _ _]) & Hm & _).
    exists (vector_at en (vectors e) o). by eapply get_live. }
  pose proof (eng_rep_segments en e S h b He) as He0.
  unfold st_bind at 1 in Hrun. destruct (flush_records en io _) as [e1 r1] eqn:H1.
  pose proof (flush_records_segments _ _ _ _ H1) as Es.
  apply (flush_records_phase en _ S) in H1; [|done].
  assert (Hi2 : seg_inv e1).
  { apply (seg_inv_same _ _ Hi1); [apply (ph_config _ _ _ _ _ H1)|done|].
    intros o. by rewrite (ph_live _ _ _ _ _ H1). }
  destruct r1 as [[]|er]; [|by injection Hrun as <- _].
  unfold st_bind in Hrun. destruct (flush_rest en io e1) as [e2 r2] eqn:H2.
  apply flush_rest_same in H2 as (E1 & E2 & E3).
  assert (Hi3 : seg_inv e2) by (apply (seg_inv_same _ _ Hi2); auto; intros o; by rewrite E3).
  destruct r2 as [[]|er]; [|by injection Hrun as <- _].
  destruct se; by injection Hrun as <- _.
Qed.

(** *** Open *)

Lemma from_records_loop_sound c h rs sealed h' :
  sound c h -> from_records_loop h rs sealed = (h', Ok tt) ->
  sound c h' /\ (forall o, covers h o -> covers h' o) /\
  (forall o, o ∈ rs.*1 -> o ∈ sealed \/ covers h' o).
Proof.
  revert h. induction rs as [|[o rec] rs IH]; intros h Hs; simpl.
  { intros [= <-]. split_and!; auto. set_solver. }
  case_decide as Hd.
  - intros H. destruct (IH h Hs H) as (A & B & C). split_and!; auto.
    intros o' [->|Ho]%elem_of_cons; auto.
  - pose proof (sound_insert c h o (r_embedding rec) Hs) as Hs1.
    pose proof (SegmentHolder.insert_covers h o (r_embedding rec)) as Hc1.
    pose proof (fun f => insert_Ok_covers h o (r_embedding rec) f) as Hin.
    destruct (SegmentHolder.insert h o (r_embedding rec)) as [h1 [b|er]]; [|done]. cbn [fst snd] in *.
    assert (Ho1 : covers h1 o) by (apply (Hin b); [done|apply Hs]).
    destruct b; intros H.
    + destruct (IH _ (sound_seal _ _ Hs1) H) as (A & B & C).
      split; [done|]. split; [intros o' Ho; by apply B, seal_hot_covers, Hc1|].
      intros o' [->|Ho]%elem_of_cons; [right; by apply B, seal_hot_covers|auto].
    + destruct (IH _ Hs1 H) as (A & B & C). split_and!; auto.
      intros o' [->|Ho]%elem_of_cons; auto.
Qed.

(** Loading a list of segments: the holder stays sound and covers them. *)
Definition adder (add : list N -> SegmentHolder.SegmentHolder -> SegmentHolder.SegmentHolder) : Prop :=
  forall l h, adds h (add l h) l /\ SegmentHolder.config (add l h) = SegmentHolder.config h.

Lemma add_cold_adds l h : adds h (add_cold l h) l.
Proof.
  unfold adds. split_and!; [|done..]. unfold searchable_segments. simpl.
  rewrite !app_assoc. by rewrite <- Permutation_cons_append.
Qed.

Lemma load_all_sound add c ls h :
  adder add -> sound c h ->
  sound c (foldl (fun h s => add s h) h ls) /\
  forall o, o ∈ concat ls \/ covers h o -> covers (foldl (fun h s => add s h) h ls) o.
Proof.
  intros Ha. revert h. induction ls as [|l ls IH]; intros h Hs; simpl.
  { split; [done|]. intros o [Ho|Ho]; [set_solver|done]. }
  destruct (Ha l h) as [Hadd Ec]. destruct Hs as [H1 H2 H3 H4].
  pose proof Hadd as (_ & Eh & _).
  destruct (IH (add l h)) as [A B].
  { split; rewrite ?Ec, ?Eh; auto. eapply adds_ok; [done|apply H1]. }
  split; [done|]. intros o [[Ho|Ho]%elem_of_app|Ho].
  - apply B. right. eapply adds_covers; eauto.
  - apply B. by left.
  - apply B. right. eapply adds_covers; eauto.
Qed.

Lemma drop_covered_acc grow l against kept acc n :
  drop_covered grow l against = (kept, acc, n) ->
  forall o, o ∈ acc -> o ∈ against \/ o ∈ concat kept.
Proof.
  revert against kept acc n. induction l as [|[d offs] l IH]; intros against kept acc n; simpl.
  { intros [= <- <- _]. auto. }
  destruct (forallb _ offs).
  - destruct (drop_covered grow l against) as [[k a] r] eqn:H. intros [= <- <- _]. by eapply IH.
  - destruct (drop_covered grow l _) as [[k a] r] eqn:H. intros [= <- <- _] o Ho.
    destruct (IH _ _ _ _ H o Ho) as [Hin|Hin]; [|right; simpl; apply elem_of_app; auto].
    destruct grow; [|auto]. apply elem_of_union in Hin as [Hin%elem_of_list_to_set|]; [|auto].
    right. simpl. apply elem_of_app. auto.
Qed.

Lemma load_segments_covered d o :
  o ∈ l_offsets (load_segments d) ->
  o ∈ concat (l_sealed (load_segments d)) \/ o ∈ concat (l_warm (load_segments d)) \/
  o ∈ concat (l_cold (load_segments d)).
Proof.
  unfold load_segments. destruct (load_segment_dirs (dir_sealed d)) as [[sl r1] x1].
  destruct (load_segment_dirs (dir_warm d)) as [[wm r2] x2].
  destruct (load_segment_dirs (dir_cold d)) as [[cd r3] x3].
  destruct (drop_covered false wm _) as [[wk wa] r4].
  destruct (drop_covered true _ ∅) as [[sk sa] r5] eqn:Hs. simpl.
  intros [Ho|[Ho|Ho]%elem_of_union]%elem_of_union.
  - destruct (drop_covered_acc _ _ _ _ _ _ Hs o Ho); [set_solver|auto].
  - apply elem_of_list_to_set in Ho. auto.
  - apply elem_of_list_to_set in Ho. auto.
Qed.

Lemma open_seg d c io e rep S :
  open en d c io = Ok (e, rep) -> eng_rep en e S -> seg_inv e.
Proof.
  intros Ho He. unfold open in Ho. destruct (negb (quantizers_ok c)); [done|].
  destruct (recover_files en d c io) as [rc|]; [|done]. cbn [mbind Result_bind] in Ho.
  destruct (build_text_index _) as [t|]; [|done]. cbn [mbind Result_bind] in Ho.
  destruct (rebuild_graph _ _) as [g pruned].
  destruct (from_records _ _ _ _) as [h0|] eqn:Hf; [|done]. cbn [mbind Result_bind] in Ho.
  injection Ho as <- _. unfold from_records in Hf.
  destruct (from_records_loop _ _ _) as [h1 [[]|]] eqn:Hl; [|done]. injection Hf as ->.
  destruct (new_ok (tiers c) (dir_next_id (d_segments d))) as [N1 N2].
  destruct (from_records_loop_sound (tiers c) _ _ _ _ (Build_sound _ _ N1 N2 eq_refl eq_refl) Hl) as (A & _ & C).
  set (l := load_segments (d_segments d)) in *.
  destruct (load_all_sound add_sealed_hot (tiers c) (l_sealed l) h0) as [A1 B1];
    [intros ? ?; split; [apply add_sealed_hot_adds|done]|done|].
  destruct (load_all_sound add_warm (tiers c) (l_warm l) _
    ltac:(intros ? ?; split; [apply add_warm_adds|done]) A1) as [A2 B2].
  destruct (load_all_sound add_cold (tiers c) (l_cold l) _
    ltac:(intros ? ?; split; [apply add_cold_adds|done]) A2) as [A3 B3].
  split; [exact A3|]. cbn [meta segments]. intros o Hlive.
  assert (Hin : o ∈ (records_of en (rc_meta rc) (rc_vectors rc)).*1).
  { destruct He as ((ops & m0 & hc & [Hco _ _ _ _]) & Hm & _). cbn [meta vectors] in *.
    pose proof (get_live en _ _ _ _ _ o Hco Hm Hlive) as Hg.
    destruct Hlive as [d' Hd']. rewrite live_lookup in Hd'.
    destruct (records (rc_meta rc) !! o) as [mr|] eqn:Hr; [|done].
    apply list_elem_of_fmap. exists (o, with_embedding mr (vector_at en (rc_vectors rc) o)).
    split; [done|]. apply elem_of_records_of. eexists _, _. eauto. }
  destruct (C o Hin) as [Hs|Hs]; [|eauto 10].
  destruct (load_segments_covered _ _ Hs) as [H|[H|H]]; eauto 10.
Qed.

(** *** Background steps *)

Lemma segments_seg e S h b :
  eng_rep en e S -> seg_inv e -> (sound (tiers (config e)) (segments e) -> sound (tiers (config e)) h) ->
  (forall o, is_Some (VectorStore.get en (vectors e) o) -> covers (segments e) o -> covers h o) ->
  seg_inv (set_segments h b e).
Proof.
  intros He [Hs Hc] H1 H2. split; [by apply H1|]. intros o Ho. apply H2; [|by apply Hc].
  destruct He as ((ops & m0 & hc & [Hco _ _ _ _]) & Hm & _). exists (vector_at en (vectors e) o). by eapply get_live.
Qed.

Lemma background_seg e S step : eng_rep en e S -> seg_inv e -> seg_inv (run_background en step e).
Proof.
  intros He Hi. pose proof Hi as [Hs Hc]. destruct step as [|io|io|p ok|]; unfold run_background; cbv zeta.
  - apply (segments_seg e S); auto; [apply sound_seal|]. intros o _. apply seal_hot_covers.
  - pose proof (sound_seal_step _ _ (budget e) (VectorStore.get en (vectors e)) io Hs) as H1.
    pose proof (fun o => process_one_seal_keeps (segments e) (budget e) (VectorStore.get en (vectors e)) io o (so_ok _ _ Hs)) as H2.
    destruct (process_one_seal _ _ _ _) as [[h b] r]. apply (segments_seg e S); auto. intros o. apply (H2 o).
  - pose proof (sound_merge_step _ _ (budget e) (VectorStore.get en (vectors e)) io Hs) as H1.
    pose proof (fun o => process_one_merge_keeps (segments e) (budget e) (VectorStore.get en (vectors e)) io o (so_ok _ _ Hs)) as H2.
    destruct (process_one_merge _ _ _ _) as [[h b] r]. apply (segments_seg e S); auto. intros o. apply (H2 o).
  - pose proof (consolidated_steady en p ok e) as Hst. unfold run_background in Hst. cbv zeta in Hst.
    pose proof (consolidation_sound _ p (segments e) (meta e) (VectorStore.get en (vectors e)) ok Hs) as H1.
    pose proof (fun o => SegmentHolder.trigger_consolidation_keeps p (segments e) (meta e) (VectorStore.get en (vectors e)) ok o (so_ok _ _ Hs)) as H2.
    destruct (SegmentHolder.trigger_consolidation _ _ _ _ _) as [[h m] r].
    destruct He as ((ops & m0 & hc & [Hco _ _ _ _]) & Hm & _). split; [exact H1|].
    intros o. rewrite (sd_live _ _ Hst (co_ms _ _ _ _ _ _ Hco)). intros Ho. apply H2; [|by apply Hc].
    exists (vector_at en (vectors e) o). by eapply get_live.
  - pose proof (steady_drained en e) as Hst. unfold run_background in Hst. cbv zeta in Hst.
    destruct He as ((ops & m0 & hc & [Hco _ _ _ _]) & Hm & _).
    assert (Es : forall a m, segments (set_access a (set_meta m e)) = segments e) by done.
    destruct (drain_into _ _) as [a m]. apply (seg_inv_same e); [done|done|done|].
    intros o. by rewrite (sd_live _ _ Hst (co_ms _ _ _ _ _ _ Hco)).
Qed.

Context `{!TextTotal}.

Lemma history_seg e S : history en e S -> seg_inv e.
Proof.
  induction 1 as [c vs e rep Hq Hd Hvs Ho|e S w e' Hh IH Hr Hw|e S w e' Hh IH Hr Hw Ew Hm
    |e S io e' r Hh IH Hf Hc|e S i now Hh IH|e S step Hh IH|e S ios dirs io e' rep Hh IH Ho
    |e S w e1 ok ios dirs io e' rep Hh IH Hr Hw Ho|e S fio e1 r ios dirs io e' rep Hh IH Hf Ho].
  - apply (open_seg _ _ _ _ _ ∅ Ho). apply (history_rep en). by eapply history_new.
  - eapply (write_seg e S w); eauto. by apply (history_rep en).
  - eapply (write_seg e S w); eauto. by apply (history_rep en).
  - eapply (flush_seg e S io); eauto. by apply (history_rep en).
  - unfold bump_access_by_id. destruct (id_index e !! i); [|done]. by apply (seg_inv_same e).
  - apply (background_seg e S); [by apply (history_rep en)|done].
  - apply (open_seg _ _ _ _ _ S Ho). apply (history_rep en). by eapply history_reopen.
  - apply (open_seg _ _ _ _ _ (left_by en e w S e1) Ho). apply (history_rep en). by eapply history_killed_write.
  - apply (open_seg _ _ _ _ _ S Ho). apply (history_rep en). by eapply history_killed_flush.
Qed.

(** ** Accepted and rejected inserts *)

(** The file can grow to hold offset [o]. *)
Definition can_hold (vs : VectorStore.Inner) (o : N) : Prop :=
  HEADER_SIZE + N.max (N.max (o + 1) (slots vs * 2)) 1024 * dim vs * 4 < U64.

Lemma put_accepts vs o v :
  vs_wf en vs -> mapped vs = true -> len v = dim vs -> o < u64_max -> can_hold vs o ->
  exists vs', VectorStore.put en vs o v grow_ok = (vs', Ok tt).
Proof.
  intros Hwf Hm Hl Ho Hc. unfold VectorStore.put. rewrite Hl, N.eqb_refl. cbn [negb].
  destruct (slots vs <=? o); [|rewrite Hm; eauto].
  unfold can_hold in Hc. unfold grow_inner. rewrite (wadd64_small o Ho).
  set (n := N.max (N.max (o + 1) (slots vs * 2)) 1024) in *.
  destruct (wf_dim en _ Hwf) as [Hd _].
  assert (Hn : n * 4 <= n * dim vs * 4) by nia.
  assert (Hsat : saturating_mul (slots vs) 2 = slots vs * 2).
  { unfold saturating_mul, u64_max. apply N.min_l. unfold n, HEADER_SIZE in *. lia. }
  rewrite Hsat. fold n. unfold checked_mul.
  rewrite (proj2 (N.ltb_lt (n * dim vs) U64)) by lia. cbn [mbind option_bind].
  rewrite (proj2 (N.ltb_lt (n * dim vs * 4) U64)) by lia. unfold checked_add.
  rewrite (proj2 (N.ltb_lt _ U64)) by lia. simpl. eauto.
Qed.

Definition payload_parses (p : option string) : bool :=
  match p with Some p => bool_decide (is_Some (from_str p)) | None => true end.

Lemma payload_add_accepts pi o p : payload_parses p = true -> (PayloadIndex.add pi o p).2 = Ok tt.
Proof.
  unfold payload_parses, PayloadIndex.add. destruct p as [p|]; [|done].
  destruct (from_str p) as [[]|]; try done.
Qed.

Lemma index_all_accepts rs e :
  Forall (fun orec : N * Record_ => payload_parses (r_payload orec.2) = true) rs ->
  exists e', st_iter index_one rs e = (e', Ok tt).
Proof.
  revert e. induction rs as [|[o rec] rs IH]; intros e; simpl; [eauto|].
  intros [Hp Hrs]%Forall_cons. unfold st_bind at 1, index_one at 1. unfold st_bind, st_modify, on.
  pose proof (payload_add_accepts (payload_index e) o _ Hp) as Ha. simpl in *.
  destruct (PayloadIndex.add _ _ _) as [pi r]. simpl in Ha. subst r. by apply IH.
Qed.

Lemma apply_accepts c rs e :
  sound c (segments e) ->
  Forall (fun orec : N * Record_ => payload_parses (r_payload orec.2) = true) rs ->
  Forall (fun orec : N * Record_ => len (r_embedding orec.2) = SegmentHolder.dimension c) rs ->
  exists e', apply_batch rs e = (e', Ok tt).
Proof.
  intros Hs Hp Hl. unfold apply_batch, st_bind, st_modify.
  destruct (index_all_accepts rs (set_meta (put_batch (meta e) rs) e) Hp) as [e1 H1].
  rewrite H1. apply index_all_segments in H1. simpl in H1. unfold on at 1.
  destruct (text_add_total (text_index e1) (map (fun orec : N * Record_ => (orec.1, r_text orec.2)) rs))
    as [t ->]. unfold on. simpl. rewrite H1.
  destruct (insert_segments _ _ _) as [h r2] eqn:H2.
  destruct (insert_segments_sound c _ _ _ _ _ Hs H2) as (_ & _ & _ & D).
  specialize (D Hl). destruct r2; [eauto|done].
Qed.

Lemma log_accepts ops ops' e :
  wal_rep en (wal e) ops -> is_ok (write_ops [] ops') = true ->
  exists w', log ops' write_ok e = (set_wal w' e, Ok tt).
Proof.
  intros (Hv & _) Hok. unfold log, st_bind, on.
  assert (Ha : exists w', append_batch (wal e) ops' (w_append write_ok) = (w', Ok tt)).
  { unfold append_batch, needs_upgrade. destruct ops'; [eauto|].
    rewrite Hv. cbn [negb N.eqb]. destruct (write_ops [] _); [simpl; eauto|done]. }
  destruct Ha as [w' ->]. rewrite andb_false_r. eauto.
Qed.

Lemma prepare_payload e input v p : prepare e input v = Ok p -> p_payload p = i_payload input.
Proof.
  unfold prepare. case_bool_decide; [done|]. destruct (map_err _ (validate_dimension _ _)); [simpl|done].
  destruct (negb (is_finite _)); [done|].
  destruct (match i_payload input with Some _ => _ | None => _ end); [simpl|done].
  destruct (normalize (i_embedding input)); [simpl|done]. by intros [= <-].
Qed.

Lemma insert_accepts_input e S input p now :
  eng_rep en e S -> seg_inv e -> room e 1 -> can_hold (vectors e) (next_offset (meta e)) ->
  prepare e input (vocab (graph e)) = Ok p -> id_index e !! i_id input = None ->
  payload_parses (i_payload input) = true ->
  is_ok (write_ops [] [insert_op en (next_offset (meta e), into_record p (next_seq (meta e)) now)]) = true ->
  exists e', insert_with_payload_role en input now write_ok e = (e', Ok true).
Proof.
  intros He Hi Hroom Hc Hp Hid Hpay Hfits.
  pose proof He as ((ops & m0 & hc & [Hco Hw Hd Hq _]) & Hm & _). pose proof Hroom as [Ro Rq].
  destruct (prepare_ok _ _ _ _ Hp) as (_ & _ & Hlen).
  pose proof (prepare_payload _ _ _ _ Hp) as Hpp.
  rewrite (insert_commit en _ _ _ _ p Hp Hid).
  assert (Hcb : exists e', commit_batch en [p] now write_ok e = (e', Ok 1));
    [|destruct Hcb as [e' ->]; by exists e'].
  unfold commit_batch. unfold st_bind at 1. rewrite alloc_records_ok by (change (len [p]) with 1; unfold u64_max in *; lia).
  change (len [p]) with 1. cbn [numbered].
  set (rec := into_record p (next_seq (meta e)) now) in *. set (o := next_offset (meta e)) in *.
  set (e1 := set_meta _ e). unfold st_bind at 1. cbn [st_iter]. unfold st_bind at 1, vectors_put, on.
  destruct (put_accepts (vectors e) o (r_embedding rec)) as [vs Hput];
    [apply (co_vs _ _ _ _ _ _ Hco)|done|by rewrite Hd|lia|done|].
  change (vectors e1) with (vectors e). cbn [fst snd w_grow write_ok]. rewrite Hput.
  assert (Hmv : mapped vs = true).
  { assert (Ho : o < u64_max) by lia.
    by destruct (put_ok en _ _ _ _ _ (co_vs _ _ _ _ _ _ Hco) Ho Hput) as (_ & -> & _). }
  cbn [st_ret]. unfold st_ret at 1, st_bind at 1.
  assert (Hsync : sync_vectors_if_configured o o write_ok (set_vectors vs e1) = (set_vectors vs e1, Ok tt)).
  { unfold sync_vectors_if_configured, VectorStore.sync_range. cbn [vectors set_vectors]. rewrite Hmv.
    destruct (sync_writes _); [|done]. cbn [negb]. by destruct (_ <? _). }
  change (default 0 (head [(o, rec)].*1)) with o. change (default 0 (last [(o, rec)].*1)) with o.
  rewrite Hsync. unfold st_bind at 1.
  destruct (log_accepts ops [insert_op en (o, rec)] (set_vectors vs e1) Hw Hfits) as [w' Hlog].
  cbn [map]. rewrite Hlog. unfold st_bind, submit_and_wait. cbn [w_worker write_ok].
  destruct (apply_accepts (tiers (config e)) [(o, rec)] (set_wal w' (set_vectors vs e1))) as [e' ->].
  - apply Hi.
  - constructor; [|done]. simpl. by rewrite Hpp.
  - by constructor.
  - simpl. eauto.
Qed.

(** C9: what is stored can be found: at every point of a history of writes, flushes,
    operations that failed before reaching the log, seals, builds, merges, compactions and
    promotions with any outcome, kills and reopens (with any segment directories on disk),
    every id of the store has an entry in the id index, whose offset is in a segment that
    searches reach, and whose vector is the stored one. *)
Theorem stored_searchable e S i d v :
  history en e S -> S !! i = Some (d, v) ->
  exists o, id_index e !! i = Some o /\ visible (segments e) o /\
    VectorStore.get en (vectors e) o = Some v.
Proof.
  intros Hh HSi. pose proof (history_rep en _ _ Hh) as ((ops & m0 & hc & [Hco _ _ _ Hid]) & Hm & HS).
  destruct (history_seg e S Hh) as [Hs Hc]. apply HS in HSi as (o & Hl & Hi & ->).
  exists o. split; [by apply Hid; eauto|]. split; [|by eapply get_live; eauto].
  apply (ok_visible _ _ (so_ok _ _ Hs)), Hc. eauto.
Qed.

(** an insert succeeds exactly when it should. Whatever happened before, with the
    system calls succeeding, a valid input with a new id is stored, provided the
    offsets, the vector file and the log frame stay within their limits and its
    payload parses; an invalid input and an id in use are refused, whatever the system
    calls do, and change nothing. *)
Theorem insert_decides e S input now :
  history en e S -> room e 1 -> can_hold (vectors e) (next_offset (meta e)) ->
  (forall p, prepare e input (vocab (graph e)) = Ok p ->
     is_ok (write_ops [] [insert_op en (next_offset (meta e),
       into_record p (next_seq (meta e)) now)]) = true) ->
  payload_parses (i_payload input) = true ->
  (valid_input (dimension_of (config e)) input = true -> S !! i_id input = None ->
     exists e', insert_with_payload_role en input now write_ok e = (e', Ok true)) /\
  (valid_input (dimension_of (config e)) input = true -> is_Some (S !! i_id input) ->
     forall io, insert_with_payload_role en input now io e = (e, Err (DuplicateId (i_id input)))) /\
  (valid_input (dimension_of (config e)) input = false ->
     forall io, exists er, insert_with_payload_role en input now io e = (e, Err er)).
Proof.
  intros Hh Hroom Hc Hfits Hpay. pose proof (history_rep en _ _ Hh) as He.
  pose proof (prepare_valid e input (vocab (graph e))) as Hv. rewrite <- Hv.
  pose proof (store_index en e S (i_id input) He) as Hid.
  destruct (prepare e input (vocab (graph e))) as [p|er] eqn:Hp; simpl; split_and!; try done.
  - intros _ HS. eapply insert_accepts_input; eauto; [by eapply history_seg|].
    apply eq_None_not_Some. rewrite <- Hid, HS. by intros [].
  - intros _ Hs io. apply Hid in Hs. unfold insert_with_payload_role. rewrite Hp.
    by rewrite bool_decide_eq_true_2.
  - intros _ io. exists er. unfold insert_with_payload_role. by rewrite Hp.
Qed.
End searchable.

(** ** Instances of the hypotheses *)

Import EngineTheorems.Examples.

Lemma stored_searchable_witness :
  length (sealed_hot (segments ex_e9)) = 1%nat /\
  exists o, id_index ex_e9 !! "a"%string = Some o /\ visible (segments ex_e9) o /\
    VectorStore.get le (vectors ex_e9) o = Some [0x3f19999a; 0x3f4ccccd].
Proof.
  split; [by vm_compute|].
  apply (stored_searchable le ex_e9 ex_s5 "a"
    ("a", "a", ["c"], 101, 2, None, Some "s", None)%string); [apply ex_history9|by vm_compute].
Defined.

Lemma insert_decides_witness :
  valid_input 2 (ex_input "d" 0 0x3F800000) = true /\
  exists e', insert_with_payload_role le (ex_input "d" 0 0x3F800000) 105 write_ok ex_e5 = (e', Ok true).
Proof.
  split; [by vm_compute|].
  apply (insert_decides le ex_e5 ex_s5 (ex_input "d" 0 0x3F800000) 105);
    [apply ex_history5|by vm_compute|by vm_compute| |done|by vm_compute|by vm_compute].
  intros p Hp. vm_compute in Hp. injection Hp as <-. by vm_compute.
Defined.
