(* ===== verification/Search.v ===== *)
(** * Searching the engine, [crates/turbomemory_storage/src/engine/search.rs]

    Exact, approximate and device search over the live records, the batch, the
    filters and scopes that restrict a search, and the cognitive search that expands
    the nearest records over the graph and fuses the scores.

    A search runs on an engine state and a published snapshot of the segments. Its
    effects are on the access counters, the graph (rehearsal) and the text index
    (a pending commit). [None] is a search that gives no answer: a range filter whose
    bounds are inverted panics in the payload index; the loops carry a fuel, and the
    theorems show that it never runs out. One clock reading serves one search.

    The graph, the text index and the device are interfaces. *)

From S2P Require Import Prelude Core Floats Metrics Record VectorStore MetadataStore AccessCounters ScopeIndex PayloadIndex Segments SegmentSearch TopOf Engine.

(** What a search asks of the graph ([SpreadingActivation]). *)
Class SearchGraph {GO : GraphOps} := {
  superseded_ids : Graph -> gset string;
  search_restricted : Graph -> string -> list (string * f32) -> N -> option (string -> bool) ->
    option (list (string * f32));
  reinforce : Graph -> string -> N -> Graph;
}.
(** What a filter asks of the text index. *)
Class SearchText {TO : TextOps} := {
  commit_if_pending : Text -> Text * Result StorageError unit;
  text_search : Text -> string -> Result StorageError (gset N);
}.
(** The device mirror ([GpuExactIndex]): a query's scores against every vector, and for
    a batch the score rows served before an error, with whether there was none. *)
Class GpuExact := {
  gpu_scores : VectorStore.Inner -> list f32 -> option (list f32);
  gpu_scores_batch : VectorStore.Inner -> list (list f32) -> list (list f32) * bool;
}.
Definition no_gpu : GpuExact :=
  {| gpu_scores := fun _ _ => None; gpu_scores_batch := fun _ _ => ([], false) |}.

Record SearchConfig := {
  exclude_superseded : bool;
  gpu_exact_min_records : N;
  cognitive_alpha : f32;
  temporal_recency_weight : f32;
}.

Definition EXACT_FALLBACK_THRESHOLD : N := 4096.
Definition unit_length (query : list f32) : list f32 := SegmentSearch.unit_length (len query) query.

(** A bitmap's values, ascending. *)
Definition bitmap_iter (b : gset N) : list N := sort_by N.le (elements b).

(** Fuel of the doubling loops. *)
Definition ROUNDS : nat := 65.

Section search.
Context (en : Endian) {K : Kernels} {B1 : BinaryHeap rev_heap_le} {B2 : BinaryHeap item_le}
  {SN : SelectNth best_first} {SJ : SerdeJson} {GO : GraphOps} {TO : TextOps}
  {SG : SearchGraph} {ST_ : SearchText} {GPU : GpuExact}.
Context (cfg : SearchConfig) (snapshot : SegmentSnapshot)
  (gemm : list (list f32) -> list (list f32) -> option (list f32)) (use_gpu : bool).
Implicit Types (e : Engine) (exclusion : option (gset string)).
#[local] Abbreviation Hits := (list (string * f32)) (only parsing).

(** A step of a search. *)
Definition SM (A : Type) : Type := Engine -> option (Engine * Result StorageError A).
Definition sm_ret {A} (a : A) : SM A := fun e => Some (e, Ok a).
Definition sm_err {A} (er : StorageError) : SM A := fun e => Some (e, Err er).
Definition sm_bind {A B} (m : SM A) (f : A -> SM B) : SM B := fun e =>
  match m e with
  | None => None
  | Some (e, Err er) => Some (e, Err er)
  | Some (e, Ok a) => f a e
  end.
Definition sm_lift {A} (r : Result StorageError A) : SM A := fun e => Some (e, r).
Definition sm_option {A} (m : option A) : SM A := fun e => a ← m; Some (e, Ok a).
Definition sm_read {A} (f : Engine -> A) : SM A := fun e => Some (e, Ok (f e)).
Definition sm_modify (f : Engine -> Engine) : SM unit := fun e => Some (f e, Ok tt).
#[local] Notation "'let?' x ':=' m 'in' k" := (sm_bind m (fun x => k))
  (at level 10, x pattern, m at level 100, k at level 200).
Fixpoint sm_map {A B} (f : A -> SM B) (l : list A) : SM (list B) :=
  match l with
  | [] => sm_ret []
  | a :: l => let? b := f a in let? bs := sm_map f l in sm_ret (b :: bs)
  end.

Definition view_of (e : Engine) : View := VectorStore.get en (vectors e).
Definition live_offsets (e : Engine) : gset N := all_offsets (payload_index e).
Definition records_in (e : Engine) : N := record_count (meta e).

(** ** Filters *)

(** [evaluate_filter_recursive]. *)
Fixpoint evaluate_rec (e : Engine) (f : Filter) : option (Result StorageError (gset N)) :=
  match f with
  | FullText _ query => Some (text_search (text_index e) query)
  | Eq_ _ _ | Range _ _ _ => option_map Ok (PayloadIndex.query (payload_index e) f)
  | And parts =>
      match parts with
      | [] => Some (Ok ∅)
      | first :: rest =>
          match evaluate_rec e first with
          | Some (Ok acc) =>
              (fix go (acc : gset N) (l : list Filter) : option (Result StorageError (gset N)) :=
                 match l with
                 | [] => Some (Ok acc)
                 | part :: l =>
                     if decide (acc = ∅) then Some (Ok acc)
                     else match evaluate_rec e part with
                          | Some (Ok b) => go (acc ∩ b) l
                          | other => other
                          end
                 end) acc rest
          | other => other
          end
      end
  | Or parts =>
      (fix go (acc : gset N) (l : list Filter) : option (Result StorageError (gset N)) :=
         match l with
         | [] => Some (Ok acc)
         | part :: l => match evaluate_rec e part with
                        | Some (Ok b) => go (acc ∪ b) l
                        | other => other
                        end
         end) ∅ parts
  | Not inner => match evaluate_rec e inner with
                 | Some (Ok positives) => Some (Ok (live_offsets e ∖ positives))
                 | other => other
                 end
  end.
Definition evaluate_filter (f : Filter) : SM (gset N) :=
  let? _ := (if uses_full_text f
             then fun e => let '(t, r) := commit_if_pending (text_index e) in Some (set_text t e, r)
             else sm_ret tt) in
  fun e => r ← evaluate_rec e f; Some (e, r).

Definition query_scope (scope : option string) (bm : option (gset N)) (e : Engine) : option (gset N) :=
  match scope with
  | None => bm
  | Some s =>
      let sb := ScopeIndex.query (scope_index e) (Some s) in
      Some (match bm with Some existing => existing ∩ sb | None => sb end)
  end.
Definition allowed_offsets (filter : option Filter) (scope : option string) : SM (option (gset N)) :=
  let? bm := (match filter with
              | Some f => let? b := evaluate_filter f in sm_ret (Some b)
              | None => sm_ret None
              end) in
  sm_read (query_scope scope bm).

(** ** Exact candidates *)

Definition exact_candidates (e : Engine) (query : list f32) (allowed : option (gset N)) : list (N * f32) :=
  omap (fun o => v ← view_of e o; Some (o, cosine_similarity query v))
    (match allowed with
     | Some bm => filter (fun o => o ∈ live_offsets e) (bitmap_iter bm)
     | None => bitmap_iter (live_offsets e)
     end).
Definition is_live (e : Engine) (o : N) : bool := bool_decide (as_u32 o ∈ live_offsets e).
Definition clamp_score (s : f32) : f32 := f32_clamp s f32_neg_one f32_one.
(** The candidates among the scores of every vector. *)
Definition device_candidates (scores : list f32) (allowed : option (gset N)) : list (N * f32) :=
  match allowed with
  | Some bm => omap (fun o => s ← scores !! N.to_nat o; Some (o, clamp_score s)) (bitmap_iter bm)
  | None => imap (fun i s => (N.of_nat i, clamp_score s)) scores
  end.
Definition top_of_scores (e : Engine) (scores : list f32) (allowed : option (gset N)) (want : N)
    : list (N * f32) := top_of (device_candidates scores allowed) want (is_live e).

(** ** From the head of a ranking to results *)

Definition excluded exclusion (i : string) : bool :=
  match exclusion with Some set => bool_decide (i ∈ set) | None => false end.
Definition first_fetch exclusion (top_k : N) : N :=
  match exclusion with Some _ => saturating_add (saturating_mul top_k 2) 5 | None => top_k end.

(** The live, not excluded entries of the head, up to [top_k]. *)
Fixpoint take_live (e : Engine) exclusion (top_k : N) (results : list (N * string * f32))
    (head : list (N * f32)) : list (N * string * f32) :=
  match head with
  | [] => results
  | (offset, score) :: head =>
      match id_of (meta e) offset with
      | None => take_live e exclusion top_k results head
      | Some i =>
          if excluded exclusion i then take_live e exclusion top_k results head
          else
            let results := results ++ [(offset, i, score)] in
            if len results =? top_k then results else take_live e exclusion top_k results head
      end
  end.
Fixpoint finish_loop (fuel : nat) (e : Engine) (top : N -> list (N * f32)) (top_k : N) exclusion (want : N)
    : option (list (N * string * f32)) :=
  match fuel with
  | O => None
  | S fuel =>
      let head := top want in
      let exhausted := len head <? want in
      let results := take_live e exclusion top_k [] head in
      if (len results =? top_k) || exhausted then Some results
      else finish_loop fuel e top top_k exclusion (saturating_mul want 2)
  end.

(** Count the accesses and return ids and scores. *)
Definition bump_hits (now : N) (l : list (N * string * f32)) : SM Hits := fun e =>
  Some (foldl (fun e (r : N * string * f32) => bump_access r.1.1 now e) e l,
        Ok (map (fun r : N * string * f32 => (r.1.2, r.2)) l)).
Definition finish_exact (top : Engine -> N -> list (N * f32)) (top_k : N) exclusion (now : N) : SM Hits := fun e =>
  results ← finish_loop ROUNDS e (top e) top_k exclusion (first_fetch exclusion top_k);
  bump_hits now results e.

Definition superseded_exclusion_set (e : Engine) : option (gset string) :=
  if exclude_superseded cfg then
    let set := superseded_ids (graph e) in if decide (set = ∅) then None else Some set
  else None.

(** ** Approximate search *)

Definition live_entries (e : Engine) exclusion (scored : list ScoredPoint) : list (N * string * f32) :=
  omap (fun c => m ← MetadataStore.get (meta e) (offset c);
                 if excluded exclusion (id m) then None else Some (offset c, id m, score c)) scored.
Fixpoint live_loop (fuel : nat) (e : Engine) (scored : list ScoredPoint) (fetch : N) (query : list f32)
    (top_k : N) (ef : option N) (allowed : option (gset N)) exclusion
    : option (Result StorageError (list (N * string * f32))) :=
  match fuel with
  | O => None
  | S fuel =>
      let total := sn_point_count snapshot in
      let live := live_entries e exclusion scored in
      let exhausted := (len scored <? fetch) || (total <=? fetch) in
      if (top_k <=? len live) || exhausted then Some (Ok (take (N.to_nat top_k) live))
      else
        let fetch := N.min (saturating_mul fetch 2) total in
        match snapshot_search snapshot query fetch ef (view_of e) allowed with
        | Err er => Some (Err er)
        | Ok scored => live_loop fuel e scored fetch query top_k ef allowed exclusion
        end
  end.
Definition live_top_k (scored : list ScoredPoint) (fetch : N) (query : list f32) (top_k : N) (ef : option N)
    (allowed : option (gset N)) exclusion (now : N) : SM Hits := fun e =>
  match live_loop ROUNDS e scored fetch query top_k ef allowed exclusion with
  | None => None
  | Some (Err er) => Some (e, Err er)
  | Some (Ok l) => bump_hits now l e
  end.

(** The search of the segments, and its reduction to live records. *)
Definition ann_segments (query : list f32) (top_k : N) (ef : option N) (allowed : option (gset N)) exclusion
    (now : N) : SM Hits :=
  let fetch := first_fetch exclusion top_k in
  let? scored := (fun e => Some (e, snapshot_search snapshot query fetch ef (view_of e) allowed)) in
  live_top_k scored fetch query top_k ef allowed exclusion now.

(** Which of the three searches answers. *)
Definition gpu_answer (query : list f32) (e : Engine) : option (list f32) :=
  if gpu_exact_min_records cfg <=? records_in e then gpu_scores (vectors e) (unit_length query) else None.

Definition ann_top_k_excluding (query : list f32) (top_k : N) (ef : option N) (allowed : option (gset N))
    exclusion (now : N) : SM Hits := fun e =>
  let top_k := N.min top_k (records_in e) in
  if top_k =? 0 then Some (e, Ok [])
  else
    match gpu_answer query e with
    | Some scores => finish_exact (fun e => top_of_scores e scores allowed) top_k exclusion now e
    | None =>
        if records_in e <=? EXACT_FALLBACK_THRESHOLD then
          finish_exact (fun e want => top_of (exact_candidates e query allowed) want (fun _ => true))
            top_k exclusion now e
        else ann_segments query top_k ef allowed exclusion now e
    end.
Definition ann_top_k (query : list f32) (top_k : N) (ef : option N) (allowed : option (gset N)) (now : N) : SM Hits :=
  let? exclusion := sm_read superseded_exclusion_set in
  ann_top_k_excluding query top_k ef allowed exclusion now.

Definition check_query (query : list f32) : SM unit := fun e =>
  Some (e, map_err Prelude.Core (validate_query query (dimension_of (config e)))).

(** The approximate searches: the entry points below call this one with some
    arguments fixed. *)
Definition search_ann_candidates_filtered_with_ef (query : list f32) (top_k : N) (filter : option Filter)
    (ef : option N) (scope : option string) (now : N) : SM Hits :=
  let? _ := check_query query in
  let? allowed := allowed_offsets filter scope in
  ann_top_k query top_k ef allowed now.
Definition search_ann_scoped (query : list f32) (top_k : N) (ef : option N) (scope : option string) (now : N)
    : SM Hits := search_ann_candidates_filtered_with_ef query top_k None ef scope now.
Definition search_ann_with_ef (query : list f32) (top_k : N) (ef : option N) (now : N) : SM Hits :=
  search_ann_scoped query top_k ef None now.
Definition search_ann (query : list f32) (top_k now : N) : SM Hits := search_ann_with_ef query top_k None now.
Definition search_ann_candidates_filtered (query : list f32) (top_k : N) (filter : option Filter) (now : N)
    : SM Hits := search_ann_candidates_filtered_with_ef query top_k filter None None now.
Definition search_ann_candidates_with_ef (query : list f32) (top_k : N) (ef : option N) (now : N) : SM Hits :=
  search_ann_candidates_filtered_with_ef query top_k None ef None now.
Definition search_ann_candidates (query : list f32) (top_k now : N) : SM Hits :=
  search_ann_candidates_filtered query top_k None now.
Definition search_ann_filtered (query : list f32) (top_k : N) (filter : Filter) (now : N) : SM Hits :=
  search_ann_candidates_filtered query top_k (Some filter) now.
Definition search_ann_any_belief_state (query : list f32) (top_k : N) (scope : option string) (now : N)
    : SM Hits :=
  let? _ := check_query query in
  let? allowed := allowed_offsets None scope in
  ann_top_k_excluding query top_k None allowed None now.

(** ** Batches *)

(** The device batch; [None] when the device failed, with the accesses already
    counted. *)
Definition gpu_batch (queries : list (list f32)) (top_k : N) (allowed : option (gset N)) (now : N)
    : SM (option (list Hits)) :=
  let? exclusion := sm_read superseded_exclusion_set in
  let? served := sm_read (fun e => gpu_scores_batch (vectors e) (map unit_length queries)) in
  let? results := sm_map (fun scores =>
    finish_exact (fun e => top_of_scores e scores allowed) top_k exclusion now) served.1 in
  sm_ret (if served.2 : bool then Some results else None).
Definition segments_batch (queries : list (list f32)) (top_k : N) (ef : option N) (allowed : option (gset N))
    (now : N) : SM (list Hits) :=
  let? exclusion := sm_read superseded_exclusion_set in
  let fetch := first_fetch exclusion top_k in
  let? batch := (fun e =>
    match snapshot_search_batch gemm snapshot queries fetch ef (dimension_of (config e)) (view_of e) allowed use_gpu with
    | Err er => Some (e, Err er)
    | Ok None => None
    | Ok (Some l) => Some (e, Ok l)
    end) in
  sm_map (fun qs : list f32 * list ScoredPoint =>
    live_top_k qs.2 fetch qs.1 top_k ef allowed exclusion now) (zip queries batch).
Definition cpu_batch (queries : list (list f32)) (top_k : N) (ef : option N) (allowed : option (gset N))
    (now : N) : SM (list Hits) := fun e =>
  if records_in e <=? EXACT_FALLBACK_THRESHOLD
  then sm_map (fun q => ann_top_k q top_k ef allowed now) queries e
  else segments_batch queries top_k ef allowed now e.
Definition search_ann_batch (queries : list (list f32)) (top_k : N) (ef : option N) (filter : option Filter)
    (scope : option string) (now : N) : SM (list Hits) :=
  if bool_decide (queries = []) then sm_ret []
  else
    let? _ := sm_map check_query queries in
    let? allowed := allowed_offsets filter scope in
    let? records := sm_read records_in in
    let top_k := N.min top_k records in
    if top_k =? 0 then sm_ret (map (fun _ => []) queries)
    else
      let? device := (if gpu_exact_min_records cfg <=? records then gpu_batch queries top_k allowed now
                      else sm_ret None) in
      match device with
      | Some results => sm_ret results
      | None => cpu_batch queries top_k ef allowed now
      end.

(** ** Cognitive search *)

Definition fused_le (a b : string * f32) : Prop :=
  match cmp_score_desc a.2 b.2 with Lt => True | Gt => False | Eq => string_le a.1 b.1 end.
#[global] Instance fused_le_dec a b : Decision (fused_le a b).
Proof. unfold fused_le, string_le. destruct (cmp_score_desc _ _); apply _. Defined.

Definition max_seq (e : Engine) (results : Hits) : N :=
  if f32_gtb (f32_clamp (temporal_recency_weight cfg) f32_zero 0x40000000) f32_zero then
    match omap (fun r : string * f32 => m ← find_meta_by_id e r.1; Some (insert_seq m)) results with
    | [] => 1
    | s :: l => foldl N.max s l
    end
  else 1.
(** The fused score of one candidate. *)
Definition fuse (e : Engine) (query : list f32) (mx : N) (i : string) (act : f32) (offset : N) (v : list f32) : f32 :=
  let alpha := f32_clamp (cognitive_alpha cfg) f32_zero f32_one in
  let w := f32_clamp (temporal_recency_weight cfg) f32_zero 0x40000000 in
  let cos := cosine_similarity query v in
  let graph_boost := f32_mul (f32_sub f32_one alpha) (f32_div act (f32_add f32_one act)) in
  let base_fused := f32_add cos graph_boost in
  let recency_boost :=
    if f32_gtb w f32_zero && (0 <? mx) then
      let seq := from_option insert_seq 0 (find_meta_by_id e i) in
      f32_add f32_one (f32_mul w (f32_div (f32_of_N seq) (f32_of_N mx)))
    else f32_one in
  f32_mul (f32_mul base_fused recency_boost) (demotion_factor (meta e) offset).
Definition hydrate (e : Engine) (query : list f32) (mx : N) (allowed : option (gset N)) (r : string * f32)
    : option (string * f32) :=
  offset ← id_index e !! r.1;
  if negb (Segments.allowed allowed offset) then None
  else rec ← get_record en e offset; Some (r.1, fuse e query mx r.1 r.2 offset (r_embedding rec)).
Definition hydrate_and_fuse (e : Engine) (results : Hits) (query : list f32) (top_k : N) exclusion
    (allowed : option (gset N)) : Hits :=
  let hydrated := omap (hydrate e query (max_seq e results) allowed) results in
  let hydrated := filter (fun r : string * f32 => negb (excluded exclusion r.1)) hydrated in
  take (N.to_nat top_k) (sort_by fused_le hydrated).

(** Does an id name an allowed record? The restriction of the expansion. *)
Definition in_scope (e : Engine) (bitmap : gset N) (i : string) : bool :=
  match id_index e !! i with Some o => Segments.allowed (Some bitmap) o | None => false end.
Definition reinforce_graph_ids (ids : list string) (now : N) (e : Engine) : Engine :=
  match ids with [] => e | _ => set_graph (foldl (fun g i => reinforce g i now) (graph e) ids) e end.

Definition graph_pool exclusion (top_k : N) : N :=
  let graph_k := N.max (saturating_mul top_k 3) (saturating_add top_k 5) in
  match exclusion with
  | Some _ => N.max graph_k (saturating_add (saturating_mul top_k 2) 5)
  | None => graph_k
  end.
Definition cognitive_search (text : string) (query : list f32) (top_k : N) (filter : option Filter)
    (ef : option N) (scope : option string) (now : N) : SM (option Hits) :=
  let? _ := check_query query in
  let? records := sm_read records_in in
  let top_k := N.min top_k records in
  let? allowed := allowed_offsets filter scope in
  let? seeds := ann_top_k query (N.max top_k 10) ef allowed now in
  let? exclusion := sm_read superseded_exclusion_set in
  let? activated := sm_read (fun e =>
    search_restricted (graph e) text seeds (graph_pool exclusion top_k)
      (option_map (in_scope e) allowed)) in
  match activated with
  | None => sm_ret None
  | Some results =>
      let? hydrated := sm_read (fun e => hydrate_and_fuse e results query top_k exclusion allowed) in
      match hydrated with
      | [] => sm_ret None
      | _ =>
          let? _ := sm_modify (fun e => foldl (fun e (r : string * f32) => bump_access_by_id r.1 now e) e hydrated) in
          let? _ := sm_modify (reinforce_graph_ids (map fst hydrated) now) in
          sm_ret (Some hydrated)
      end
  end.

(** The public cognitive searches. *)
Definition search_with_ef_scoped (text : string) (query : list f32) (top_k : N) (ef : option N)
    (scope : option string) (now : N) : SM (option Hits) :=
  cognitive_search text query top_k None ef scope now.
Definition search_with_ef (text : string) (query : list f32) (top_k : N) (ef : option N) (now : N)
    : SM (option Hits) := search_with_ef_scoped text query top_k ef None now.
Definition search (text : string) (query : list f32) (top_k now : N) : SM (option Hits) :=
  search_with_ef text query top_k None now.
Definition search_scoped_with_ef (text : string) (query : list f32) (top_k : N) (ef : option N)
    (scope : option string) (now : N) : SM (option Hits) :=
  search_with_ef_scoped text query top_k ef scope now.
Definition search_scoped (text : string) (query : list f32) (top_k : N) (scope : option string) (now : N)
    : SM (option Hits) := search_scoped_with_ef text query top_k None scope now.
Definition search_filtered_with_scope (text : string) (query : list f32) (top_k : N) (filter : Filter)
    (ef : option N) (scope : option string) (now : N) : SM (option Hits) :=
  cognitive_search text query top_k (Some filter) ef scope now.
Definition search_filtered_with_ef (text : string) (query : list f32) (top_k : N) (filter : Filter)
    (ef : option N) (now : N) : SM (option Hits) :=
  search_filtered_with_scope text query top_k filter ef None now.
Definition search_filtered (text : string) (query : list f32) (top_k : N) (filter : Filter) (now : N)
    : SM (option Hits) := search_filtered_with_ef text query top_k filter None now.

End search.
