(* ===== verification/SearchTheorems.v ===== *)
(** * What a search of the engine returns

    Every path of [Search] stays inside the restriction of the query, the exact path
    returns the head of the full ranking, and every search ends. *)

From S2P Require Import Prelude Core Floats Metrics Record VectorStore MetadataStore AccessCounters ScopeIndex PayloadIndex Segments SegmentSearch TopOf Engine Search.

(** ** Bounded buffers *)

Section top_of_sound.
Context {SN : SelectNth best_first}.
Lemma select_perm n (l : list (N * f32)) : (n < length l)%nat -> select_nth n l ≡ₚ l.
Proof. intros Hn. destruct (select_nth_spec n l Hn) as (pre & x & post & -> & _ & ? & _). done. Qed.

(** What the buffer holds was admitted, and it never outgrows what was seen. *)
Lemma top_loop_sound want cap admitp l kept floor :
  0 < want -> want <= cap ->
  (forall x, x ∈ (foldl (top_step want cap admitp) (kept, floor) l).1 ->
     x ∈ kept \/ (x ∈ l /\ admitp x.1 = true)) /\
  (length (foldl (top_step want cap admitp) (kept, floor) l).1 <= length kept + length l)%nat.
Proof.
  intros Hw Hc. revert kept floor. induction l as [|c l IH]; intros kept floor; [simpl; split; [auto|lia]|].
  cbn [foldl]. destruct (top_step want cap admitp (kept, floor) c) as [k1 f1] eqn:E.
  assert (H1 : (forall x, x ∈ k1 -> x ∈ kept \/ (x = c /\ admitp x.1 = true)) /\
               (length k1 <= length kept + 1)%nat).
  { unfold top_step in E. destruct (negb _ || negb _) eqn:Hb; [injection E as <- <-; split; [auto|lia]|].
    apply orb_false_iff in Hb as [_ Ha]. apply negb_false_iff in Ha.
    destruct (cap <=? len (kept ++ [c])) eqn:Hcap; injection E as <- <-.
    - apply N.leb_le in Hcap. unfold len in Hcap.
      assert (Hp : select_nth (N.to_nat (want - 1)) (kept ++ [c]) ≡ₚ kept ++ [c]) by (apply select_perm; lia).
      split.
      + intros x Hx. apply elem_of_take_of in Hx. rewrite Hp in Hx. set_solver.
      + rewrite length_take, (Permutation_length Hp), length_app. simpl. lia.
    - split; [set_solver|rewrite length_app; simpl; lia]. }
  destruct (IH k1 f1) as [A B]. destruct H1 as [C D]. split; [|simpl in *; lia].
  intros x [Hx|[Hx ?]]%A; [|right; set_solver]. destruct (C x Hx) as [?|[-> ?]]; [by left|right; set_solver].
Qed.

Lemma top_of_in candidates want admitp x :
  want < U64 -> x ∈ top_of candidates want admitp -> x ∈ candidates /\ admitp x.1 = true.
Proof.
  intros Hw. unfold top_of. destruct (N.eqb_spec want 0) as [|Hw0]; [set_solver|]. intros Hx.
  apply elem_of_take_of in Hx. rewrite sort_by_perm in Hx.
  apply (top_loop_sound want _ admitp candidates) in Hx; [|lia|unfold U64 in *; lia]. set_solver.
Qed.
Lemma top_of_len candidates want admitp :
  want < U64 -> (length (top_of candidates want admitp) <= length candidates)%nat.
Proof.
  intros Hw. unfold top_of. destruct (N.eqb_spec want 0) as [|Hw0]; [simpl; lia|].
  rewrite length_take, (Permutation_length (sort_by_perm _ _)).
  pose proof (proj2 (top_loop_sound want (N.max (N.min (want * 2) (U64 - 1)) 64) admitp candidates [] f32_neg_inf
    ltac:(lia) ltac:(unfold U64 in *; lia))). simpl in *. lia.
Qed.
End top_of_sound.

(** ** Bitmaps *)

Lemma elem_of_bitmap_iter b o : o ∈ bitmap_iter b <-> o ∈ b.
Proof. unfold bitmap_iter. by rewrite sort_by_perm, elem_of_elements. Qed.
Lemma bitmap_iter_sorted b : StronglySorted N.lt (bitmap_iter b).
Proof.
  assert (Hs : StronglySorted N.le (bitmap_iter b)) by (apply sort_by_sorted; apply _).
  assert (Hn : NoDup (bitmap_iter b)) by (unfold bitmap_iter; rewrite sort_by_perm; apply NoDup_elements).
  induction Hs as [|x l Hl IH Hx]; constructor; [apply IH; by apply NoDup_cons in Hn as [_ ?]|].
  apply NoDup_cons in Hn as [Hn _]. rewrite Forall_forall in Hx |- *. intros y Hy.
  specialize (Hx y Hy). cbv beta in *. assert (x <> y) by (intros ->; done). lia.
Qed.
Lemma bitmap_iter_nodup b : NoDup (bitmap_iter b).
Proof. unfold bitmap_iter. rewrite sort_by_perm. apply NoDup_elements. Qed.
Lemma bitmap_iter_length b : length (bitmap_iter b) = size b.
Proof. unfold bitmap_iter. by rewrite (Permutation_length (sort_by_perm _ _)). Qed.

Lemma sorted_filter {A} (R : A -> A -> Prop) (P : A -> Prop) `{!forall x, Decision (P x)} l :
  StronglySorted R l -> StronglySorted R (filter P l).
Proof.
  induction 1 as [|x l Hl IH Hx]; [constructor|]. rewrite filter_cons. case_decide; [|done].
  constructor; [done|]. rewrite Forall_forall in Hx |- *. intros y Hy. apply Hx.
  by apply list_elem_of_filter in Hy as [_ ?].
Qed.
(** Keeping some entries of a sorted list of keys keeps it sorted. *)
Lemma sorted_omap {B} (f : N -> option B) l :
  StronglySorted N.lt l ->
  StronglySorted N.lt (omap (fun o => v ← f o; Some (o, v)) l).*1.
Proof.
  induction 1 as [|x l Hl IH Hx]; simpl; [constructor|]. destruct (f x) as [v|]; simpl; [|done].
  constructor; [done|]. rewrite Forall_forall in Hx |- *. intros y Hy. apply Hx.
  apply list_elem_of_fmap in Hy as ([y' w] & -> & Hy). apply list_elem_of_omap in Hy as (z & Hz & E).
  destruct (f z); simpl in E; [|done]. by injection E as <- <-.
Qed.
Lemma omap_length {A B} (f : A -> option B) l : (length (omap f l) <= length l)%nat.
Proof. unfold omap in *. induction l as [|x l IH]; simpl; [lia|]. destruct (f x); simpl; lia. Qed.

(** ** Loops *)

Section search_theorems.
Context (en : Endian) {K : Kernels} {B1 : BinaryHeap rev_heap_le} {B2 : BinaryHeap item_le}
  {SN : SelectNth best_first} {SJ : SerdeJson} {GO : GraphOps} {TO : TextOps}
  {SG : SearchGraph} {ST_ : SearchText} {GPU : GpuExact}.
Context (cfg : SearchConfig) (snapshot : SegmentSnapshot)
  (gemm : list (list f32) -> list (list f32) -> option (list f32)) (use_gpu : bool).
Implicit Types (e : Engine) (exclusion : option (gset string)).

(** One entry of a ranking as a result. *)
Definition live_hit e exclusion (c : N * f32) : option (N * string * f32) :=
  i ← id_of (meta e) c.1; if excluded exclusion i then None else Some (c.1, i, c.2).

Lemma take_live_spec e exclusion top_k results head :
  len results < top_k ->
  take_live e exclusion top_k results head =
    take (N.to_nat top_k) (results ++ omap (live_hit e exclusion) head).
Proof.
  revert results. induction head as [|[o s] head IH]; intros results Hk.
  - simpl. rewrite app_nil_r, take_ge; [done|]. unfold len in Hk. lia.
  - simpl. unfold live_hit at 1. simpl. destruct (id_of (meta e) o) as [i|]; simpl; [|by apply IH].
    destruct (excluded exclusion i); simpl; [by apply IH|].
    assert (Hl : len (results ++ [(o, i, s)]) = len results + 1) by (by rewrite len_app).
    rewrite Hl. destruct (N.eqb_spec (len results + 1) top_k) as [E|E].
    + unfold len in Hl, E. match goal with |- _ = take _ (results ++ ?x :: ?t) =>
        change (results ++ x :: t) with (results ++ [x] ++ t) end.
      rewrite app_assoc, take_app_le by lia. symmetry. apply take_ge. lia.
    + rewrite IH by lia. by rewrite <- app_assoc.
Qed.

(** The loop over a fixed ranking [L] ends with the first [top_k] live entries. *)
Lemma finish_loop_spec fuel e top top_k exclusion want (L : list (N * f32)) :
  (forall w, w < U64 -> top w = take (N.to_nat w) L) -> 0 < top_k -> 0 < want < U64 ->
  len L < u64_max -> len L < 2 ^ N.of_nat fuel * want ->
  finish_loop (S fuel) e top top_k exclusion want =
    Some (take (N.to_nat top_k) (omap (live_hit e exclusion) L)).
Proof.
  intros Htop Hk. revert want. induction fuel as [|fuel IH]; intros want Hw HL Hf.
  - cbn [finish_loop]. rewrite (Htop want) by lia. change (2 ^ N.of_nat 0) with 1 in Hf. unfold len in Hf.
    assert (Ht : take (N.to_nat want) L = L) by (apply take_ge; lia). rewrite Ht.
    rewrite (proj2 (N.ltb_lt _ _)) by (unfold len; lia). rewrite orb_true_r.
    by rewrite take_live_spec by (unfold len; simpl; lia).
  - cbn [finish_loop]. rewrite (Htop want) by lia.
    rewrite take_live_spec by (unfold len; simpl; lia). simpl app.
    set (R := take (N.to_nat top_k) (omap (live_hit e exclusion) (take (N.to_nat want) L))).
    destruct (N.eqb_spec (len R) top_k) as [Hfull|Hfull]; simpl.
    { f_equal. unfold R in *. rewrite <- (take_drop (N.to_nat want) L) at 2. rewrite omap_app.
      unfold len in Hfull. rewrite length_take in Hfull. rewrite take_app_le by lia. done. }
    destruct (N.ltb_spec (len (take (N.to_nat want) L)) want) as [Hex|Hex]; simpl.
    { f_equal. unfold R. unfold len in Hex. rewrite length_take in Hex. by rewrite (take_ge L) by lia. }
    unfold len in Hex. rewrite length_take in Hex.
    apply IH; [unfold saturating_mul, u64_max, U64 in *; lia|done|].
    rewrite Nat2N.inj_succ, N.pow_succ_r' in Hf. unfold saturating_mul.
    destruct (N.min_spec (want * 2) u64_max) as [[_ ->]|[_ ->]]; [lia|].
    assert (1 <= 2 ^ N.of_nat fuel) by (pose proof (N.pow_nonzero 2 (N.of_nat fuel)); lia).
    nia.
Qed.

(** Without a fixed ranking: the loop ends as soon as the head is short. *)
Lemma finish_loop_total fuel e top top_k exclusion want n :
  (forall w, w < U64 -> len (top w) <= n) -> 0 < want < U64 -> n < u64_max ->
  n < 2 ^ N.of_nat fuel * want -> finish_loop (S fuel) e top top_k exclusion want <> None.
Proof.
  intros Htop. revert want. induction fuel as [|fuel IH]; intros want Hw Hn Hf; cbn [finish_loop].
  - change (2 ^ N.of_nat 0) with 1 in Hf. specialize (Htop want ltac:(lia)).
    rewrite (proj2 (N.ltb_lt _ _)) by lia. by rewrite orb_true_r.
  - destruct (_ || _) eqn:Hb; [done|]. apply orb_false_iff in Hb as [_ Hb]. apply N.ltb_ge in Hb.
    specialize (Htop want ltac:(lia)).
    apply IH; [unfold saturating_mul, u64_max, U64 in *; lia|done|].
    rewrite Nat2N.inj_succ, N.pow_succ_r' in Hf. unfold saturating_mul.
    destruct (N.min_spec (want * 2) u64_max) as [[_ ->]|[_ ->]]; [lia|].
    assert (1 <= 2 ^ N.of_nat fuel) by (pose proof (N.pow_nonzero 2 (N.of_nat fuel)); lia).
    nia.
Qed.
(** Whatever it returns came from a head of the ranking. *)
Lemma finish_loop_in fuel e top top_k exclusion want l r :
  0 < top_k -> 0 < want < U64 -> finish_loop fuel e top top_k exclusion want = Some l -> r ∈ l ->
  exists w s, w < U64 /\ (r.1.1, s) ∈ top w /\ id_of (meta e) r.1.1 = Some r.1.2 /\
    excluded exclusion r.1.2 = false.
Proof.
  intros Hk. revert want. induction fuel as [|fuel IH]; intros want Hw; cbn [finish_loop]; [done|].
  destruct (_ || _).
  - intros [= <-] Hr. rewrite take_live_spec in Hr by (unfold len; simpl; lia).
    apply elem_of_take_of in Hr. simpl in Hr. apply list_elem_of_omap in Hr as ([o s] & Hin & Hh).
    unfold live_hit in Hh. simpl in Hh. destruct (id_of (meta e) o) as [i|] eqn:Hi; simpl in Hh; [|done].
    destruct (excluded exclusion i) eqn:Hx; [done|]. injection Hh as <-. simpl. exists want, s. split_and!; auto. lia.
  - apply IH. unfold saturating_mul, u64_max, U64 in *. lia.
Qed.

Lemma first_fetch_pos exclusion top_k : 0 < top_k < U64 -> 0 < first_fetch exclusion top_k < U64.
Proof. unfold first_fetch, saturating_add, saturating_mul, u64_max, U64. destruct exclusion; lia. Qed.

(** ** States *)

(** A search leaves everything a search reads unchanged. *)
Record reads_same e e' : Prop := {
  rs_config : config e' = config e;
  rs_meta : meta e' = meta e;
  rs_vectors : vectors e' = vectors e;
  rs_ids : id_index e' = id_index e;
  rs_payload : payload_index e' = payload_index e;
  rs_scope : scope_index e' = scope_index e;
  rs_graph : graph e' = graph e;
  rs_wal : wal e' = wal e;
}.
Lemma reads_same_refl e : reads_same e e.
Proof. by split. Qed.
Lemma reads_same_trans e1 e2 e3 : reads_same e1 e2 -> reads_same e2 e3 -> reads_same e1 e3.
Proof. intros [] []. split; by etrans. Qed.
Hint Resolve reads_same_refl : core.

Lemma bump_all_same {A} (f : A -> N) now (l : list A) e :
  reads_same e (foldl (fun e r => bump_access (f r) now e) e l) /\
  graph (foldl (fun e r => bump_access (f r) now e) e l) = graph e.
Proof.
  revert e. induction l as [|r l IH]; intros e; simpl; [done|].
  destruct (IH (bump_access (f r) now e)) as [H1 H2]. split; [|done].
  eapply reads_same_trans; [|exact H1]. by split.
Qed.
Lemma bump_ids_same {A} (f : A -> string) now (l : list A) e :
  reads_same e (foldl (fun e r => bump_access_by_id (f r) now e) e l).
Proof.
  revert e. induction l as [|r l IH]; intros e; simpl; [done|].
  eapply reads_same_trans; [|apply IH]. unfold bump_access_by_id. destruct (id_index e !! f r); by split.
Qed.

(** The offsets a restriction admits; a bitmap holds 32-bit values. *)
Definition admitted (bm : option (gset N)) (o : N) : Prop :=
  match bm with None => True | Some b => o ∈ b \/ as_u32 o ∈ b end.
(** A result names a live record that is admitted and not excluded. *)
Definition hit_ok e bm exclusion (r : string * f32) : Prop :=
  exists o m, MetadataStore.get (meta e) o = Some m /\ id m = r.1 /\ admitted bm o /\
    excluded exclusion r.1 = false.

Lemma hit_ok_same e e' bm exclusion r : reads_same e e' -> hit_ok e' bm exclusion r -> hit_ok e bm exclusion r.
Proof. intros [_ Hm _ _ _ _ _ _]. unfold hit_ok. by rewrite Hm. Qed.

Lemma allowed_admitted bm o : Segments.allowed bm o = true -> admitted bm o.
Proof. destruct bm; simpl; [|done]. intros ?%bool_decide_eq_true. auto. Qed.

(** *** The pieces of a search *)

Lemma bump_hits_same now l e :
  exists e', bump_hits now l e = Some (e', Ok (map (fun r : N * string * f32 => (r.1.2, r.2)) l)) /\
    reads_same e e' /\ graph e' = graph e.
Proof.
  unfold bump_hits. eexists. split; [reflexivity|]. apply (bump_all_same (fun r : N * string * f32 => r.1.1)).
Qed.

Lemma finish_exact_sound top top_k exclusion bm now e e' r :
  0 < top_k < U64 ->
  (forall w o s, w < U64 -> (o, s) ∈ top e w -> admitted bm o) ->
  finish_exact top top_k exclusion now e = Some (e', r) ->
  reads_same e e' /\ exists res, r = Ok res /\ forall h, h ∈ res -> hit_ok e bm exclusion h.
Proof.
  intros Hk Htop. unfold finish_exact.
  destruct (finish_loop _ _ _ _ _ _) as [l|] eqn:Hl; simpl; [|done].
  destruct (bump_hits_same now l e) as (e1 & -> & Hs & _). intros [= <- <-]. split; [done|].
  eexists. split; [reflexivity|]. intros h Hh. apply list_elem_of_fmap in Hh as (x & -> & Hx).
  destruct (finish_loop_in _ _ _ _ _ _ _ x (proj1 Hk) (first_fetch_pos exclusion top_k Hk) Hl Hx)
    as (w & s & Hw & Hin & Hid & Hex).
  unfold id_of in Hid. destruct (records (meta e) !! x.1.1) as [m|] eqn:Hm; [|done].
  simpl in Hid. injection Hid as Hid. exists x.1.1, m. split_and!; auto. by eapply Htop.
Qed.

Lemma exact_candidates_in e q bm o s : (o, s) ∈ exact_candidates en e q bm -> admitted bm o.
Proof.
  unfold exact_candidates. intros (o' & Hin & Ho)%list_elem_of_omap.
  destruct (view_of en e o'); simpl in Ho; [|done]. injection Ho as <- _.
  destruct bm as [b|]; [|done]. apply list_elem_of_filter in Hin as [_ Hin].
  left. by apply elem_of_bitmap_iter.
Qed.
Lemma device_candidates_in scores bm o s : (o, s) ∈ device_candidates scores bm -> admitted bm o.
Proof.
  unfold device_candidates. destruct bm as [b|]; [|done].
  intros (o' & Hin & Ho)%list_elem_of_omap. destruct (scores !! N.to_nat o'); simpl in Ho; [|done].
  injection Ho as <- _. left. by apply elem_of_bitmap_iter.
Qed.

Lemma live_entries_in e exclusion scored bm r :
  (forall p, p ∈ scored -> admitted bm (offset p)) -> r ∈ live_entries e exclusion scored ->
  hit_ok e bm exclusion (r.1.2, r.2).
Proof.
  intros Hs (c & Hc & Hr)%list_elem_of_omap.
  destruct (MetadataStore.get (meta e) (offset c)) as [m|] eqn:Hm; simpl in Hr; [|done].
  destruct (excluded exclusion (id m)) eqn:Hx; [done|]. injection Hr as <-. simpl.
  exists (offset c), m. auto.
Qed.
Lemma live_loop_sound fuel e scored fetch q top_k ef bm exclusion l r :
  Forall native_ok (sn_segments snapshot) ->
  (forall p, p ∈ scored -> admitted bm (offset p)) ->
  live_loop en snapshot fuel e scored fetch q top_k ef bm exclusion = Some (Ok l) -> r ∈ l ->
  hit_ok e bm exclusion (r.1.2, r.2).
Proof.
  intros Hn. revert scored fetch. induction fuel as [|fuel IH]; intros scored fetch Hs; cbn [live_loop]; [done|].
  destruct (_ || _).
  - intros [= <-] Hr. apply elem_of_take_of in Hr. by eapply live_entries_in.
  - destruct (snapshot_search _ _ _ _ _ _) as [scored1|] eqn:Hss; [|done]. apply IH.
    intros p Hp. destruct (snapshot_search_in _ _ _ _ _ _ _ p Hn Hss Hp) as (_ & Ha & _).
    by apply allowed_admitted.
Qed.
Lemma live_top_k_sound scored fetch q top_k ef bm exclusion now e e' r :
  Forall native_ok (sn_segments snapshot) ->
  (forall p, p ∈ scored -> admitted bm (offset p)) ->
  live_top_k en snapshot scored fetch q top_k ef bm exclusion now e = Some (e', r) ->
  reads_same e e' /\ forall res, r = Ok res -> forall h, h ∈ res -> hit_ok e bm exclusion h.
Proof.
  intros Hn Hs. unfold live_top_k.
  destruct (live_loop _ _ _ _ _ _ _ _ _ _ _) as [[l|er]|] eqn:Hl; [| |done].
  - destruct (bump_hits_same now l e) as (e1 & -> & Hsame & _). intros [= <- <-]. split; [done|].
    intros res [= <-] h Hh. apply list_elem_of_fmap in Hh as (x & -> & Hx). by eapply live_loop_sound.
  - intros [= <- <-]. split; [done|]. by intros.
Qed.

(** Every way of answering a query keeps to the restriction. *)
Lemma ann_sound q top_k ef bm exclusion now e e' r :
  Forall native_ok (sn_segments snapshot) -> top_k < U64 ->
  ann_top_k_excluding en cfg snapshot q top_k ef bm exclusion now e = Some (e', r) ->
  reads_same e e' /\ forall res, r = Ok res -> forall h, h ∈ res -> hit_ok e bm exclusion h.
Proof.
  intros Hn Hk. unfold ann_top_k_excluding. set (k := N.min top_k (records_in e)).
  destruct (N.eqb_spec k 0) as [|Hk0]; [intros [= <- <-]; split; [done|intros ? [= <-]; set_solver]|].
  assert (Hk' : 0 < k < U64) by (unfold k in *; lia).
  destruct (gpu_answer cfg q e) as [scores|].
  - intros H. apply (finish_exact_sound _ _ _ bm) in H as (Hs & res & -> & Hh); [|done|].
    + split; [done|]. by intros ? [= <-].
    + intros w o s Hw Hin. apply top_of_in in Hin as [Hin _]; [|done]. by apply device_candidates_in in Hin.
  - destruct (records_in e <=? EXACT_FALLBACK_THRESHOLD).
    + intros H. apply (finish_exact_sound _ _ _ bm) in H as (Hs & res & -> & Hh); [|done|].
      * split; [done|]. by intros ? [= <-].
      * intros w o s Hw Hin. apply top_of_in in Hin as [Hin _]; [|done]. by apply exact_candidates_in in Hin.
    + unfold ann_segments, sm_bind.
      destruct (snapshot_search _ _ _ _ _ _) as [scored|er] eqn:Hss.
      * apply live_top_k_sound; [done|]. intros p Hp.
        destruct (snapshot_search_in _ _ _ _ _ _ _ p Hn Hss Hp) as (_ & Ha & _). by apply allowed_admitted.
      * intros [= <- <-]. split; [done|]. by intros.
Qed.

Lemma ann_top_k_sound q top_k ef bm now e e' r :
  Forall native_ok (sn_segments snapshot) -> top_k < U64 ->
  ann_top_k en cfg snapshot q top_k ef bm now e = Some (e', r) ->
  reads_same e e' /\ forall res, r = Ok res -> forall h, h ∈ res -> hit_ok e bm (superseded_exclusion_set cfg e) h.
Proof. intros Hn Hk H. by apply ann_sound in H. Qed.

(** The restriction is computed once, and only commits the text index. *)
Lemma evaluate_filter_same f e e' r : evaluate_filter f e = Some (e', r) -> reads_same e e' /\ graph e' = graph e.
Proof.
  unfold evaluate_filter, sm_bind. destruct (uses_full_text f).
  - destruct (commit_if_pending (text_index e)) as [t [[]|er]]; [|intros [= <- _]; by split].
    destruct (evaluate_rec _ f) as [r1|]; simpl; [|done]. intros [= <- _]. by split.
  - simpl. destruct (evaluate_rec _ f) as [r1|]; simpl; [|done]. intros [= <- _]. by split.
Qed.
Lemma allowed_offsets_same f sc e e' r :
  allowed_offsets f sc e = Some (e', r) -> reads_same e e' /\ graph e' = graph e /\
  forall bm, r = Ok bm -> exists b, bm = query_scope sc b e /\
    match f with
    | None => b = None
    | Some f => exists fb, evaluate_filter f e = Some (e', Ok fb) /\ b = Some fb
    end.
Proof.
  unfold allowed_offsets, sm_bind. destruct f as [f|].
  - destruct (evaluate_filter f e) as [[e1 [fb|er]]|] eqn:Hf; [| |done].
    + destruct (evaluate_filter_same f e e1 _ Hf) as [Hs Hg].
      intros [= <- <-]. split_and!; [done|done|]. intros bm [= <-]. exists (Some fb).
      split; [|eauto]. unfold query_scope. by rewrite (rs_scope _ _ Hs).
    + destruct (evaluate_filter_same f e e1 _ Hf) as [Hs Hg]. intros [= <- <-]. split_and!; [done|done|]. by intros.
  - intros [= <- <-]. split_and!; [done|done|]. intros bm [= <-]. by exists None.
Qed.

Lemma search_ann_same q top_k f ef sc now e e' r :
  Forall native_ok (sn_segments snapshot) -> top_k < U64 ->
  search_ann_candidates_filtered_with_ef en cfg snapshot q top_k f ef sc now e = Some (e', r) -> reads_same e e'.
Proof.
  intros Hn Hk. unfold search_ann_candidates_filtered_with_ef, sm_bind, check_query.
  destruct (map_err _ _) as [[]|]; [|by intros [= <- _]].
  destruct (allowed_offsets f sc e) as [[e1 [bm|er]]|] eqn:Ha; [| |done];
    destruct (allowed_offsets_same _ _ _ _ _ Ha) as (Hs & _ & _); [|by intros [= <- _]].
  intros H. eapply reads_same_trans; [exact Hs|]. by apply ann_top_k_sound in H as [? _].
Qed.

(** A scope's restriction. *)
Lemma query_scope_admitted s b e o :
  admitted (query_scope (Some s) b e) o ->
  o ∈ ScopeIndex.query (scope_index e) (Some s) \/ as_u32 o ∈ ScopeIndex.query (scope_index e) (Some s).
Proof. destruct b; simpl; set_solver. Qed.

(** ** Exact search *)

Lemma exact_candidates_sorted e q bm : StronglySorted N.lt (exact_candidates en e q bm).*1.
Proof.
  unfold exact_candidates.
  assert (Hs : StronglySorted N.lt (match bm with
     | Some b => filter (fun o => o ∈ live_offsets e) (bitmap_iter b)
     | None => bitmap_iter (live_offsets e) end)).
  { destruct bm; [apply sorted_filter|]; apply bitmap_iter_sorted. }
  pose proof (sorted_omap (fun o => v ← view_of en e o; Some (cosine_similarity q v)) _ Hs) as H.
  revert H. generalize (match bm with Some b => filter (fun o => o ∈ live_offsets e) (bitmap_iter b)
     | None => bitmap_iter (live_offsets e) end) as l.
  intros l. unfold omap. induction l as [|o l IH]; simpl; [done|].
  destruct (view_of en e o); simpl; [|done]. intros [H1 H2]%StronglySorted_inv. constructor; [by apply IH|].
  revert H2. clear. induction l as [|x l IH]; simpl; [done|]. destruct (view_of en e x); simpl; [|done].
  intros [? ?]%Forall_cons. constructor; auto.
Qed.
Lemma exact_candidates_length e q bm :
  (length (exact_candidates en e q bm) <= size (live_offsets e))%nat.
Proof.
  unfold exact_candidates. etrans; [apply omap_length|]. destruct bm as [b|].
  - rewrite <- bitmap_iter_length. apply submseteq_length, NoDup_submseteq.
    + apply NoDup_filter, bitmap_iter_nodup.
    + intros o [? _]%list_elem_of_filter. by apply elem_of_bitmap_iter.
  - by rewrite bitmap_iter_length.
Qed.
Lemma range_plain x : score_in_range x = true -> f32_sign x && is_zero x = false -> plain x = true.
Proof.
  unfold score_in_range, plain. intros H Hz. rewrite Hz. destruct (is_nan x) eqn:Hx; [done|]. simpl in *.
  rewrite andb_true_r. apply andb_true_iff in H as [H _]. unfold f32_geb, f32_gtb in *. rewrite Hx in *.
  simpl in *. change (real_key f32_neg_one) with (-1065353216)%Z in H.
  change (real_key f32_neg_inf) with (-2139095040)%Z. lia.
Qed.

(** C7: In a small collection the answer is exact. With at most 4096 records and no
    device, the search returns the first [top_k] entries of the full ranking: all live
    records the restriction admits, by descending cosine and then by age, without the
    superseded ones and those that are gone, however many of these there are. *)
Theorem exact_search_ranking e q top_k ef bm exclusion now :
  records_in e <= EXACT_FALLBACK_THRESHOLD -> gpu_answer cfg q e = None ->
  (forall o v, view_of en e o = Some v ->
     f32_sign (cosine_similarity q v) && is_zero (cosine_similarity q v) = false) ->
  N.of_nat (size (live_offsets e)) < u64_max ->
  exists e', reads_same e e' /\
    ann_top_k_excluding en cfg snapshot q top_k ef bm exclusion now e =
      Some (e', Ok (map (fun r : N * string * f32 => (r.1.2, r.2))
        (take (N.to_nat (N.min top_k (records_in e)))
           (omap (live_hit e exclusion) (ranking (exact_candidates en e q bm) (fun _ => true)))))).
Proof.
  intros Hrec Hgpu Hz Hsz. unfold ann_top_k_excluding. set (k := N.min top_k (records_in e)).
  destruct (N.eqb_spec k 0) as [E0|Hk]; [exists e; split; [done|]; by rewrite E0|].
  assert (Hkb : 0 < k < U64) by (unfold k, EXACT_FALLBACK_THRESHOLD, U64 in *; lia).
  rewrite Hgpu, (proj2 (N.leb_le _ _) Hrec). unfold finish_exact.
  set (L := ranking (exact_candidates en e q bm) (fun _ => true)).
  assert (HL : len L < u64_max).
  { unfold L, ranking, len. rewrite (Permutation_length (sort_by_perm _ _)).
    pose proof (length_filter (fun c => negb (is_nan c.2) && true) (exact_candidates en e q bm)) as Hf.
    pose proof (exact_candidates_length e q bm). cbv beta in *. lia. }
  rewrite (finish_loop_spec 64 e _ k exclusion _ L).
  - simpl mbind. destruct (bump_hits_same now (take (N.to_nat k) (omap (live_hit e exclusion) L)) e)
      as (e1 & E1 & Hs & _). exists e1. by rewrite E1.
  - intros w Hw. apply top_of_spec; [done|apply exact_candidates_sorted|].
    apply Forall_forall. intros [o s] Hin. unfold exact_candidates in Hin.
    apply list_elem_of_omap in Hin as (o' & _ & Ho). destruct (view_of en e o') as [v|] eqn:Hv; simpl in Ho; [|done].
    injection Ho as <- <-. simpl. apply range_plain; [apply cosine_similarity_range|eauto].
  - lia.
  - by apply first_fetch_pos.
  - done.
  - pose proof (first_fetch_pos exclusion k Hkb). change (N.of_nat 64) with 64. unfold u64_max, U64 in *. nia.
Qed.

(** ** Every search ends *)

Lemma device_candidates_length scores bm :
  (length (device_candidates scores bm) <= length scores)%nat.
Proof.
  unfold device_candidates. destruct bm as [b|]; [|by rewrite length_imap].
  assert (Hl : length (omap (fun o => s ← scores !! N.to_nat o; Some (o, clamp_score s)) (bitmap_iter b)) =
    length (filter (fun o => is_Some (scores !! N.to_nat o)) (bitmap_iter b))).
  { generalize (bitmap_iter b) as l. unfold omap. induction l as [|o l IH]; simpl; [done|].
    destruct (scores !! N.to_nat o) as [x|] eqn:E; simpl.
    - rewrite filter_cons_True by (by rewrite E). simpl. by rewrite IH.
    - rewrite filter_cons_False by (rewrite E; by apply is_Some_None). done. }
  rewrite Hl. rewrite <- (length_map N.to_nat).
  transitivity (length (seq 0 (length scores))); [|by rewrite length_seq].
  apply submseteq_length, NoDup_submseteq.
  - apply NoDup_fmap_2; [apply _|]. apply NoDup_filter, bitmap_iter_nodup.
  - intros x Hx. apply list_elem_of_fmap in Hx as (o & -> & Ho). apply list_elem_of_filter in Ho as [Ho _].
    apply elem_of_seq. apply lookup_lt_is_Some in Ho. lia.
Qed.

(** The device's rows and the bitmaps fit in memory. *)
Record sizes_ok e : Prop := {
  sz_live : N.of_nat (size (live_offsets e)) < u64_max;
  sz_gpu : forall q scores, gpu_scores (vectors e) q = Some scores -> len scores < u64_max;
  sz_points : sn_point_count snapshot < U64;
}.

Lemma live_loop_total fuel e scored fetch q top_k ef bm exclusion :
  sn_point_count snapshot < U64 -> 0 < fetch -> sn_point_count snapshot <= 2 ^ N.of_nat fuel * fetch ->
  live_loop en snapshot (S fuel) e scored fetch q top_k ef bm exclusion <> None.
Proof.
  intros Ht. revert scored fetch. induction fuel as [|fuel IH]; intros scored fetch Hf Hb.
  - cbn [live_loop]. change (2 ^ N.of_nat 0) with 1 in Hb.
    rewrite (proj2 (N.leb_le (sn_point_count snapshot) fetch)) by lia. by rewrite !orb_true_r.
  - remember (S fuel) as n eqn:En. cbn [live_loop]. destruct (_ || _) eqn:Hd; [done|]. subst n.
    apply orb_false_iff in Hd as [_ Hd]. apply orb_false_iff in Hd as [_ Hd]. apply N.leb_gt in Hd.
    destruct (snapshot_search _ _ _ _ _ _) as [scored1|]; [|done]. apply IH; [|].
    + unfold saturating_mul, u64_max, U64 in *. lia.
    + rewrite Nat2N.inj_succ, N.pow_succ_r' in Hb.
      assert (1 <= 2 ^ N.of_nat fuel) by (pose proof (N.pow_nonzero 2 (N.of_nat fuel)); lia).
      unfold saturating_mul. destruct (N.min_spec (fetch * 2) u64_max) as [[_ ->]|[_ ->]];
        (destruct (N.min_spec (fetch * 2) (sn_point_count snapshot)) as [[_ E]|[_ E]]); try rewrite E;
        try nia.
      * rewrite N.min_r by (unfold u64_max, U64 in *; lia). nia.
      * rewrite N.min_r by (unfold u64_max, U64 in *; lia). nia.
Qed.

Lemma bump_hits_total now l e : bump_hits now l e <> None.
Proof. done. Qed.
Lemma ann_total q top_k ef bm exclusion now e :
  sizes_ok e -> top_k < U64 -> ann_top_k_excluding en cfg snapshot q top_k ef bm exclusion now e <> None.
Proof.
  intros [Hl Hg Hp] Hk. unfold ann_top_k_excluding. set (k := N.min top_k (records_in e)).
  destruct (N.eqb_spec k 0) as [|Hk0]; [done|].
  assert (Hk' : 0 < k < U64) by (unfold k in *; lia). pose proof (first_fetch_pos exclusion k Hk') as Hff.
  assert (Hfin : forall cands admitp, len cands < u64_max ->
    finish_loop ROUNDS e (fun w => top_of cands w admitp) k exclusion (first_fetch exclusion k) <> None).
  { intros cands admitp Hc. apply (finish_loop_total 64 _ _ _ _ _ (len cands)); auto.
    - intros w Hw. unfold len. pose proof (top_of_len cands w admitp Hw). lia.
    - change (N.of_nat 64) with 64. unfold u64_max, U64 in *. nia. }
  destruct (gpu_answer cfg q e) as [scores|] eqn:Hga.
  - unfold finish_exact. destruct (finish_loop _ _ _ _ _ _) eqn:Hf; [done|]. exfalso.
    apply (Hfin (device_candidates scores bm) (is_live e)); [|exact Hf].
    unfold gpu_answer in Hga. destruct (_ <=? _); [|done]. specialize (Hg _ _ Hga).
    pose proof (device_candidates_length scores bm). unfold len in *. lia.
  - destruct (records_in e <=? EXACT_FALLBACK_THRESHOLD).
    + unfold finish_exact. destruct (finish_loop _ _ _ _ _ _) eqn:Hf; [done|]. exfalso.
      apply (Hfin (exact_candidates en e q bm) (fun _ => true)); [|exact Hf].
      pose proof (exact_candidates_length e q bm). unfold len. lia.
    + unfold ann_segments, sm_bind. destruct (snapshot_search _ _ _ _ _ _) as [scored|]; [|done].
      unfold live_top_k. destruct (live_loop _ _ _ _ _ _ _ _ _ _ _) as [[]|] eqn:Hll; [done|done|].
      exfalso. revert Hll. apply (live_loop_total 64); [done|lia|].
      change (N.of_nat 64) with 64. unfold u64_max, U64 in *. nia.
Qed.

Lemma evaluate_total e f : ranges_ok f = true -> evaluate_rec e f <> None.
Proof.
  induction f as [field v|field low high|field q|l IH|l IH|f IH] using Filter_ind'; intros Hok; simpl; try done.
  - simpl in Hok. apply negb_true_iff in Hok. unfold PayloadIndex.query. simpl. unfold query_range.
    destruct (numeric _ !! field); [|done]. by rewrite Hok.
  - simpl in Hok. destruct l as [|f l]; [done|]. apply Forall_cons in IH as [H1 IH]. simpl in Hok.
    apply andb_true_iff in Hok as [O1 Hok]. specialize (H1 O1).
    destruct (evaluate_rec e f) as [[acc|]|]; [|done|done]. clear H1. revert acc.
    induction IH as [|g l Hg _ IHl]; intros acc; [done|]. simpl in Hok. apply andb_true_iff in Hok as [Og Hok].
    case_decide; [done|]. specialize (Hg Og). destruct (evaluate_rec e g) as [[b|]|]; [|done|done]. by apply IHl.
  - simpl in Hok. generalize (∅ : gset N) as acc. induction IH as [|g l Hg _ IHl]; intros acc; [done|].
    simpl in Hok. apply andb_true_iff in Hok as [Og Hok]. specialize (Hg Og).
    destruct (evaluate_rec e g) as [[b|]|]; [|done|done]. by apply IHl.
  - specialize (IH Hok). by destruct (evaluate_rec e f) as [[]|].
Qed.
Lemma allowed_total f sc e :
  match f with Some f => ranges_ok f = true | None => True end -> allowed_offsets f sc e <> None.
Proof.
  intros Hf. unfold allowed_offsets, sm_bind. destruct f as [f|]; [|done].
  unfold evaluate_filter, sm_bind. destruct (uses_full_text f).
  - destruct (commit_if_pending _) as [t [[]|]]; [|done].
    pose proof (evaluate_total (set_text t e) f Hf) as H. destruct (evaluate_rec _ f) as [[]|]; done.
  - simpl. pose proof (evaluate_total e f Hf) as H. destruct (evaluate_rec e f) as [[]|]; done.
Qed.
Lemma sizes_same e e' : reads_same e e' -> sizes_ok e -> sizes_ok e'.
Proof. intros [_ _ Hv _ Hp _] [H1 H2 H3]. split; unfold live_offsets; rewrite ?Hv, ?Hp; auto. Qed.

(** C8: Every search returns, with results or an error: the widening loops of the exact
    and of the segment search end, for any query, restriction and number of deleted or
    superseded records, and only a filter with inverted bounds has no answer. *)
Theorem search_answers e text q top_k filter ef scope now :
  sizes_ok e -> Forall native_ok (sn_segments snapshot) -> top_k < U64 ->
  match filter with Some f => ranges_ok f = true | None => True end ->
  search_ann_candidates_filtered_with_ef en cfg snapshot q top_k filter ef scope now e <> None /\
  cognitive_search en cfg snapshot text q top_k filter ef scope now e <> None.
Proof.
  intros Hsz Hok Hk Hf. split.
  - unfold search_ann_candidates_filtered_with_ef, sm_bind, check_query.
    destruct (map_err _ _) as [[]|]; [|done]. pose proof (allowed_total filter scope e Hf) as Ha.
    destruct (allowed_offsets filter scope e) as [[e1 [bm|er]]|] eqn:Hal; [|done|done].
    apply allowed_offsets_same in Hal as (Hs & _). by apply ann_total; [eapply sizes_same|].
  - unfold cognitive_search, sm_bind, check_query, sm_read.
    destruct (map_err _ _) as [[]|]; [|done]. pose proof (allowed_total filter scope e Hf) as Ha.
    destruct (allowed_offsets filter scope e) as [[e1 [bm|er]]|] eqn:Hal; [|done|done].
    apply allowed_offsets_same in Hal as (Hs & _).
    assert (Hk' : N.max (N.min top_k (records_in e)) 10 < U64) by (unfold U64 in *; lia).
    pose proof (ann_total q _ ef bm (superseded_exclusion_set cfg e1) now e1 (sizes_same _ _ Hs Hsz) Hk') as Hann.
    change (ann_top_k_excluding en cfg snapshot q (N.max (N.min top_k (records_in e)) 10) ef bm
      (superseded_exclusion_set cfg e1) now e1) with
      (ann_top_k en cfg snapshot q (N.max (N.min top_k (records_in e)) 10) ef bm now e1) in Hann.
    destruct (ann_top_k _ _ _ _ _ _ _ _ e1) as [[e2 [seeds|er]]|]; [|done|done].
    destruct (search_restricted _ _ _ _ _) as [results|]; [|done].
    by destruct (hydrate_and_fuse _ _ e2 _ _ _ _ _).
Qed.

End search_theorems.
