(* ===== verification/Isolation.v ===== *)
(** * Scope isolation

    Over the histories of [EngineTheorems] the scope index says of a live record
    nothing but its scope, so a search in a scope returns only records of that scope
    and global ones, on every path: exact, approximate, device and cognitive. *)

From S2P Require Import Prelude Core Floats Metrics Record Wal VectorStore MetadataStore AccessCounters ScopeIndex PayloadIndex Segments SegmentHolder Optimizer Engine Recovery Durability CrashSafety Steady EngineTheorems Searchable SegmentSearch TopOf Search SearchTheorems.
#[local] Open Scope turbo_scope.

(** The scope a caller stored. *)
Definition scope_of_dur (d : Dur) : option string := d.1.2.
Lemma scope_of_dur_meta m : scope_of_dur (durable m) = scope m.
Proof. done. Qed.

(** ** What the index says of an offset *)

Definition sees (i : ScopeIndex.ScopeIndex) (sc : option string) (o : N) : Prop :=
  match sc with None => o ∈ global i | Some s => o ∈ ScopeIndex.exact i s end.

Lemma sees_add i o sc sc' o' :
  o < U32 -> sees (ScopeIndex.add i o sc) sc' o' <-> sees i sc' o' \/ (o' = o /\ sc' = sc).
Proof.
  intros Ho. unfold ScopeIndex.add. rewrite (as_u32_small o Ho).
  destruct sc as [s|], sc' as [s'|]; simpl; unfold ScopeIndex.exact; simpl.
  - destruct (decide (s = s')) as [<-|Hne].
    + rewrite lookup_insert_eq. simpl. set_solver.
    + rewrite lookup_insert_ne by done. naive_solver.
  - naive_solver.
  - naive_solver.
  - set_solver.
Qed.
Lemma sees_remove i o sc sc' o' : sees (ScopeIndex.remove i o sc) sc' o' -> sees i sc' o'.
Proof.
  unfold ScopeIndex.remove. destruct sc as [s|], sc' as [s'|]; simpl; unfold ScopeIndex.exact.
  - destruct (by_scope i !! s) as [bm|] eqn:Hb; [|done]. simpl.
    destruct (decide (s = s')) as [<-|Hne].
    + case_decide; simplify_map_eq; set_solver.
    + case_decide; simplify_map_eq; done.
  - by destruct (by_scope i !! s).
  - done.
  - simpl. set_solver.
Qed.
Lemma sees_adds (l : list (N * option string)) i sc o :
  Forall (fun os => os.1 < U32) l ->
  sees (foldl (fun i os => ScopeIndex.add i os.1 os.2) i l) sc o <-> sees i sc o \/ (o, sc) ∈ l.
Proof.
  revert i. induction l as [|[o1 s1] l IH]; intros i Hl; [simpl; set_solver|].
  apply Forall_cons in Hl as [H1 Hl]. simpl in *. rewrite IH, sees_add by done. set_solver.
Qed.
Lemma query_sees i s o : o ∈ ScopeIndex.query i (Some s) <-> sees i None o \/ sees i (Some s) o.
Proof. unfold ScopeIndex.query. simpl. unfold ScopeIndex.exact. set_solver. Qed.

(** The index is true of the live records, and below the next offset. *)
Record sidx (R : gmap N Dur) (i : ScopeIndex.ScopeIndex) (n : N) : Prop := {
  si_true : forall o d sc, R !! o = Some d -> sees i sc o -> scope_of_dur d = sc;
  si_bound : forall o sc, sees i sc o -> o < n;
}.

Section isolation.
Context (en : Endian) {HC : Crc32} {BW : Bincode WalOp} {BW1 : Bincode WalOpV1}
  {BM : Bincode MetaRecord} {BH : Bincode (list N)}
  {BMo : BincodeOk MetaRecord} {BHo : BincodeOk (list N)}
  {BMt : BincodeTotal MetaRecord} {BHt : BincodeTotal (list N)}
  {BWo : BincodeOk WalOp} {BWt : BincodeTagged WalOp}
  {SJ : SerdeJson} {JS : JsonSyntax} {GO : GraphOps} {TO : TextOps}.

(** As long as offsets fit the bitmaps. *)
Definition scope_inv (e : Engine) : Prop :=
  next_offset (meta e) <= U32 -> sidx (live (meta e)) (scope_index e) (next_offset (meta e)).

Lemma scope_inv_mono e e' :
  scope_inv e -> (forall o d, live (meta e') !! o = Some d -> live (meta e) !! o = Some d) ->
  (forall sc o, sees (scope_index e') sc o -> sees (scope_index e) sc o) ->
  next_offset (meta e) <= next_offset (meta e') -> scope_inv e'.
Proof.
  intros Hi Hl Hs Hn Hb. destruct (Hi ltac:(lia)) as [H1 H2]. split; [eauto|].
  intros o sc Ho. specialize (H2 o sc (Hs _ _ Ho)). lia.
Qed.
Lemma scope_inv_same e e' :
  scope_inv e -> live (meta e') = live (meta e) -> scope_index e' = scope_index e ->
  next_offset (meta e') = next_offset (meta e) -> scope_inv e'.
Proof. intros Hi El Es En. apply (scope_inv_mono e); rewrite ?El, ?Es, ?En; auto; lia. Qed.

(** *** Writing a batch *)

Definition scopes_of (rs : list (N * Record_)) : list (N * option string) := map (fun r => (r.1, r_scope r.2)) rs.
Definition add_scopes (i : ScopeIndex.ScopeIndex) (l : list (N * option string)) : ScopeIndex.ScopeIndex :=
  foldl (fun i os => ScopeIndex.add i os.1 os.2) i l.

Lemma index_all_scopes rs e e' r :
  st_iter index_one rs e = (e', r) ->
  exists k, scope_index e' = add_scopes (scope_index e) (take k (scopes_of rs)).
Proof.
  revert e. induction rs as [|[o rec] rs IH]; intros e; simpl; [intros [= <- _]; by exists O|].
  unfold st_bind at 1, index_one at 1. unfold st_bind, st_modify, on.
  destruct (PayloadIndex.add _ _ _) as [p [[]|]]; [|intros [= <- _]; by exists O].
  intros H. apply IH in H as [k E]. exists (S k). by rewrite E.
Qed.
Lemma apply_batch_scopes rs e e' r :
  apply_batch rs e = (e', r) ->
  exists k, scope_index e' = add_scopes (scope_index e) (take k (scopes_of rs)).
Proof.
  unfold apply_batch, st_bind, st_modify.
  destruct (st_iter index_one rs _) as [e1 [[]|er]] eqn:H1; apply index_all_scopes in H1 as [k E]; simpl in E.
  2: { intros [= <- _]. eauto. }
  unfold on at 1. destruct (text_add_batch _ _) as [t [[]|er]].
  2: { intros [= <- _]. by exists k. }
  unfold on. simpl. destruct (insert_segments _ _ _) as [h [ns|er]]; intros [= <- _]; [|by exists k].
  destruct ns; by exists k.
Qed.

Lemma sidx_batch R i n n' rs k :
  sidx R i n -> n <= n' <= U32 -> NoDup rs.*1 -> Forall (fun r => n <= r.1 < n') rs ->
  sidx (foldl (fun R (orec : N * Record_) => <[orec.1 := durable (meta_of_record orec.2)]> R) R rs)
    (add_scopes i (take k (scopes_of rs))) n'.
Proof.
  intros [H1 H2] Hn Hnd Hrs. unfold add_scopes.
  assert (Hin : forall o sc, (o, sc) ∈ take k (scopes_of rs) -> exists rec, (o, rec) ∈ rs /\ sc = r_scope rec).
  { intros o sc Hin%elem_of_take_of. apply list_elem_of_fmap in Hin as ([o' rec] & [= -> ->] & Hr). eauto. }
  rewrite Forall_forall in Hrs.
  assert (Hl : Forall (fun os : N * option string => os.1 < U32) (take k (scopes_of rs))).
  { apply Forall_forall. intros [o sc] Hos. destruct (Hin o sc Hos) as (rec & Hr & _).
    specialize (Hrs _ Hr). simpl in *. lia. }
  split.
  - intros o d sc Hd. rewrite sees_adds by done.
    apply (foldl_insert_Some fst (fun a : N * Record_ => durable (meta_of_record a.2))) in Hd; [|done].
    intros [Ho|Ho].
    + destruct Hd as [([o' rec] & Hr & <- & <-)|[_ Hd]]; [|by eapply H1].
      specialize (H2 _ _ Ho). specialize (Hrs _ Hr). simpl in *. lia.
    + destruct (Hin _ _ Ho) as (rec & Hr & ->).
      destruct Hd as [([o' rec'] & Hr' & E & <-)|[Hno _]].
      * simpl in E. subst o'. rewrite scope_of_dur_meta. simpl.
        assert (rec' = rec) as ->; [|done]. apply list_elem_of_lookup in Hr as [a Ha], Hr' as [b Hb].
        assert (a = b) as -> by (eapply NoDup_lookup; [exact Hnd| |]; rewrite list_lookup_fmap, ?Ha, ?Hb; done).
        congruence.
      * destruct Hno. apply list_elem_of_fmap. by exists (o, rec).
  - intros o sc. rewrite sees_adds by done. intros [Ho|Ho]; [specialize (H2 _ _ Ho); lia|].
    destruct (Hin _ _ Ho) as (rec & Hr & _). specialize (Hrs _ Hr). simpl in *. lia.
Qed.

(** Submitting new records, whatever becomes of them. *)
Lemma scope_inv_submit n rs io e e' r :
  (next_offset (meta e) <= U32 -> sidx (live (meta e)) (scope_index e) n) ->
  n <= next_offset (meta e) -> NoDup rs.*1 -> Forall (fun r => n <= r.1 < next_offset (meta e)) rs ->
  submit_and_wait rs io e = (e', r) -> scope_inv e'.
Proof.
  intros Hi Hn Hnd Hrs Hsub. unfold submit_and_wait in Hsub. destruct (w_worker io).
  - pose proof (apply_batch_fields _ _ _ _ Hsub) as (Em & _).
    apply apply_batch_scopes in Hsub as [k Es]. destruct (put_batch_fields (meta e) rs) as (El & _ & En & _).
    intros Hb. rewrite Em, En in *. rewrite El, Es. apply (sidx_batch _ _ n); auto.
  - injection Hsub as <- <-. intros Hb. destruct (Hi Hb) as [H1 H2]. split; [done|].
    intros o sc Ho. specialize (H2 _ _ Ho). lia.
Qed.

Lemma commit_batch_scope e ps now io e' r :
  room e (len ps) -> scope_inv e -> commit_batch en ps now io e = (e', r) -> scope_inv e'.
Proof.
  intros [Ro Rq] Hi Hrun. unfold commit_batch in Hrun. unfold st_bind at 1 in Hrun.
  rewrite alloc_records_ok in Hrun by (unfold u64_max in *; lia).
  destruct (numbered_spec now (next_offset (meta e)) (next_seq (meta e)) ps) as (Hnd & _ & _ & Hrs).
  set (rs := numbered _ _ _ ps) in *. unfold st_bind at 1 in Hrun.
  destruct (st_iter _ rs _) as [e2 r2] eqn:Hput. apply puts_state in Hput as [vs ->].
  set (e1 := set_vectors vs _) in Hrun.
  assert (Hmono : forall w, scope_inv (set_wal w e1)).
  { intros w. apply (scope_inv_mono e); auto. simpl. lia. }
  assert (Hi1 : scope_inv e1) by (exact (Hmono (wal e1))).
  destruct r2 as [[]|er]; [|by injection Hrun as <- <-].
  unfold st_bind at 1 in Hrun.
  pose proof (sync_state (default 0 (head rs.*1)) (default 0 (last rs.*1)) io e1) as Hsync.
  destruct (sync_vectors_if_configured _ _ io _) as [e2' [[]|er]]; simpl in Hsync; subst e2';
    [|by injection Hrun as <- <-].
  unfold st_bind at 1 in Hrun. destruct (log _ io _) as [e3 r3] eqn:Hlog.
  pose proof (log_state _ _ _ _ _ Hlog) as (w' & r3' & _ & -> & _).
  destruct r3 as [[]|er]; [|injection Hrun as <- <-; apply Hmono].
  unfold st_bind in Hrun. destruct (submit_and_wait rs io _) as [e4 r4] eqn:Hsub.
  assert (scope_inv e4) by (eapply (scope_inv_submit (next_offset (meta e))); [| |exact Hnd| |exact Hsub];
    [intros Hb; apply Hi; simpl in Hb; lia|simpl; lia|]; eapply Forall_impl; [exact Hrs|]; simpl; intros ? (? & _); lia).
  destruct r4 as [[]|er]; by injection Hrun as <- <-.
Qed.

(** *** Deletes and updates *)

Lemma remove_indexes_scope i o e e' r :
  remove_from_indexes i o e = (e', r) ->
  (forall sc o', sees (scope_index e') sc o' -> sees (scope_index e) sc o') /\
  next_offset (meta e') = next_offset (meta e).
Proof.
  unfold remove_from_indexes, st_bind, st_modify, on.
  destruct (MetadataStore.get (meta e) o) as [m|].
  - simpl. destruct (text_remove _ _) as [t [[]|]]; intros [= <- _]; simpl.
    + split; [intros sc o'; apply sees_remove|apply remove_fields].
    + split; [intros sc o'; apply sees_remove|done].
  - intros [= <- _]. simpl. split; [done|apply remove_fields].
Qed.
Lemma remove_indexes_live i o e e' r o' d :
  remove_from_indexes i o e = (e', r) -> live (meta e') !! o' = Some d -> live (meta e) !! o' = Some d.
Proof.
  intros (_ & _ & _ & Hok & Her)%remove_from_indexes_fields. destruct r as [[]|er].
  - destruct (Hok eq_refl) as [-> _]. rewrite live_remove. by intros [_ ?]%lookup_delete_Some.
  - by rewrite Her.
Qed.

Lemma delete_scope i matches io e e' r :
  scope_inv e -> delete_where i matches io e = (e', r) -> scope_inv e'.
Proof.
  intros Hi Hrun. unfold delete_where in Hrun.
  destruct (id_index e !! i) as [o|]; [|by injection Hrun as <- _].
  destruct (matches o); [|by injection Hrun as <- _].
  unfold st_bind at 1 in Hrun. destruct (log _ io e) as [e1 r1] eqn:Hlog.
  apply log_state in Hlog as (w' & _ & _ & -> & _).
  assert (Hi1 : scope_inv (set_wal w' e)) by (by apply (scope_inv_same e)).
  destruct r1 as [[]|er]; [|by injection Hrun as <- _].
  unfold st_bind in Hrun. destruct (remove_from_indexes i o _) as [e2 r2] eqn:Hr.
  destruct (remove_indexes_scope _ _ _ _ _ Hr) as [Hs Hn].
  assert (Hi2 : scope_inv e2).
  { apply (scope_inv_mono (set_wal w' e)); auto; [|lia]. intros o' d. by eapply remove_indexes_live. }
  destruct r2 as [[]|]; by injection Hrun as <- _.
Qed.

Lemma update_scope e input p old now io e' r :
  room e 1 -> prepare e input (vocab (graph e)) = Ok p -> id_index e !! i_id input = Some old ->
  scope_inv e -> update_with_payload_role en input now io e = (e', r) -> scope_inv e'.
Proof.
  intros Hroom Hp Hidx Hi Hrun.
  rewrite (update_unfold en e input p old now io Hroom Hp Hidx) in Hrun.
  set (rec := into_record p _ now) in Hrun. set (o := next_offset (meta e)) in Hrun.
  unfold st_bind at 1, vectors_put, on in Hrun.
  destruct (VectorStore.put _ _ _ _ _) as [vs r1].
  set (e1 := set_vectors vs _) in Hrun.
  assert (Hmono : forall w, scope_inv (set_wal w e1)).
  { intros w. apply (scope_inv_mono e); auto. simpl. lia. }
  destruct r1 as [[]|]; [|injection Hrun as <- _; exact (Hmono (wal e1))].
  unfold st_bind at 1 in Hrun. pose proof (sync_state o o io e1) as Hsync.
  destruct (sync_vectors_if_configured _ _ io _) as [e2' [[]|er]]; simpl in Hsync; subst e2';
    [|injection Hrun as <- _; exact (Hmono (wal e1))].
  unfold st_bind at 1 in Hrun. destruct (log _ io _) as [e3 r3] eqn:Hlog.
  pose proof (log_state _ _ _ _ _ Hlog) as (w' & r3' & _ & -> & _).
  destruct r3 as [[]|er]; [|injection Hrun as <- _; apply Hmono].
  unfold st_bind at 1 in Hrun. destruct (remove_from_indexes _ _ _) as [e4 r4] eqn:Hrm.
  destruct (remove_indexes_scope _ _ _ _ _ Hrm) as [Hs Hn]. simpl in Hs, Hn.
  assert (Hi4 : next_offset (meta e4) <= U32 -> sidx (live (meta e4)) (scope_index e4) o).
  { intros Hb. destruct (Hi ltac:(lia)) as [H1 H2]. split; [|eauto].
    intros o' d sc Hl Hsee. apply (remove_indexes_live _ _ _ _ _ _ _ Hrm) in Hl. simpl in Hl. eauto. }
  destruct r4 as [[]|].
  2: { injection Hrun as <- _. intros Hb. destruct (Hi4 Hb) as [H1 H2]. split; [done|].
       intros o' sc Ho. specialize (H2 _ _ Ho). unfold o in *. lia. }
  unfold st_bind in Hrun. destruct (submit_and_wait _ io _) as [e5 r5] eqn:Hsub.
  assert (scope_inv e5).
  { eapply (scope_inv_submit o); [exact Hi4| | | |exact Hsub].
    - unfold o. lia.
    - apply NoDup_singleton.
    - apply Forall_singleton. simpl. unfold o. lia. }
  destruct r5 as [[]|er]; by injection Hrun as <- _.
Qed.

Lemma write_scope e w e' ok :
  room e (demand w) -> run_write en w e = (e', ok) -> scope_inv e -> scope_inv e'.
Proof.
  intros Hroom Hrun Hi.
  destruct w as [input now io|b now io|i matches io|input now io]; simpl in Hrun.
  - destruct (insert_with_payload_role en input now io e) as [e1 r] eqn:H1. injection Hrun as <- <-.
    destruct (prepare e input (vocab (graph e))) as [p|er] eqn:Hp.
    2: { unfold insert_with_payload_role in H1. rewrite Hp in H1. by injection H1 as <- _. }
    destruct (id_index e !! i_id input) as [o|] eqn:Hid.
    { unfold insert_with_payload_role in H1. rewrite Hp, Hid in H1. by injection H1 as <- _. }
    rewrite (insert_commit en _ _ _ _ p Hp Hid) in H1.
    destruct (commit_batch en [p] now io e) as [e2 r2] eqn:Hc. simpl in H1. injection H1 as <- <-.
    by apply (commit_batch_scope e [p] now io e2 r2).
  - destruct (insert_batch_with_payload_role en b now io e) as [e1 r] eqn:H1. injection Hrun as <- <-.
    unfold insert_batch_with_payload_role in H1.
    destruct (ids b) as [|i0 ids0] eqn:Hids; [by injection H1 as <- _|].
    destruct (negb (lengths_ok b)); [by injection H1 as <- _|].
    destruct (prepare_batch e (vocab (graph e)) (inputs_of b) ∅) as [ps|er] eqn:Hp; [|by injection H1 as <- _].
    pose proof (prepare_batch_len _ _ _ _ _ Hp) as Hlen. rewrite length_inputs in Hlen.
    pose proof (length_filter (fun p => id_index e !! p_id p = None) ps) as Hfl.
    destruct (filter _ ps) as [|p ps'] eqn:Hf; [by injection H1 as <- _|].
    apply (commit_batch_scope e (p :: ps') now io e1 r); auto.
    destruct Hroom as [R1 R2]. simpl demand in *. unfold room, len in *. lia.
  - destruct (delete_where i matches io e) as [e1 r] eqn:H1. injection Hrun as <- <-. by eapply delete_scope.
  - destruct (update_with_payload_role en input now io e) as [e1 r] eqn:H1. injection Hrun as <- <-.
    unfold update_with_payload_role, contains_id in H1.
    destruct (id_index e !! i_id input) as [old|] eqn:Hid; [|by injection H1 as <- _].
    destruct (prepare e input (vocab (graph e))) as [p|er] eqn:Hp; [|by injection H1 as <- _].
    apply (update_scope e input p old now io e1 r); auto.
    unfold update_with_payload_role, contains_id. by rewrite Hid, Hp.
Qed.

(** *** Flush and open *)

Lemma flush_records_scope io e e' r :
  ms_wf (meta e) -> flush_records en io e = (e', r) ->
  scope_index e' = scope_index e /\ next_offset (meta e') = next_offset (meta e).
Proof.
  intros Hwf. unfold flush_records, st_bind, st_modify, check_io, on.
  pose proof (drain_fields (access_counters e) (meta e) Hwf) as (_ & _ & En & _).
  destruct (drain_into _ _) as [a m]. simpl in *.
  destruct (f_log_sync io); [|by intros [= <- _]].
  destruct (VectorStore.flush en _ _) as [v [[]|]]; [|by intros [= <- _]].
  simpl. destruct (text_commit _) as [t [[]|]]; [|by intros [= <- _]].
  simpl. unfold MetadataStore.flush. destruct (nothing_to_flush _ _); [by intros [= <- _]|].
  destruct (write_snapshot _ _ _ _ _ _); by intros [= <- _].
Qed.
Lemma flush_rest_scope io e e' r :
  flush_rest en io e = (e', r) ->
  scope_index e' = scope_index e /\ next_offset (meta e') = next_offset (meta e).
Proof.
  intros Hrun. unfold flush_rest in Hrun. unfold st_bind at 1, check_io in Hrun.
  destruct (f_segments io); [|by injection Hrun as <- _].
  unfold st_bind at 1 in Hrun. destruct (save_graph io e) as [e2 r2] eqn:Hg.
  apply save_graph_fields in Hg as (d2 & -> & _). destruct r2 as [[]|]; [|by injection Hrun as <- _].
  unfold st_bind in Hrun. destruct (save_ccs io _) as [e3 r3] eqn:Hc.
  apply save_ccs_fields in Hc as (d3 & -> & _). destruct r3 as [[]|]; [|by injection Hrun as <- _].
  unfold on in Hrun. destruct (clear_io en _ _) as [w' r4]. by injection Hrun as <- _.
Qed.

Lemma flush_scope e S io e' r :
  eng_rep en e S -> Recovery.flush en io e = (e', r) -> scope_inv e -> scope_inv e'.
Proof.
  intros He Hrun Hi. unfold Recovery.flush in Hrun.
  destruct (seal_loop _ _ _ _) as [[[h b] se]|] eqn:Hl; [|by injection Hrun as <- _].
  pose proof (eng_rep_segments en e S h b He) as He0.
  unfold st_bind at 1 in Hrun. destruct (flush_records en io _) as [e1 r1] eqn:H1.
  assert (Hwf : ms_wf (meta e)) by (destruct He as ((ops & m0 & hc & [[Hms _ _ _ _ _ _ _ _ _ _ _ _] _ _ _ _]) & _); done).
  destruct (flush_records_scope io (set_segments h b e) _ _ Hwf H1) as [Es En].
  apply (flush_records_phase en _ S) in H1; [|done].
  assert (Hi2 : scope_inv e1).
  { apply (scope_inv_same e); auto. by rewrite (ph_live _ _ _ _ _ H1). }
  destruct r1 as [[]|er]; [|by injection Hrun as <- _].
  unfold st_bind in Hrun. destruct (flush_rest en io e1) as [e2 r2] eqn:H2.
  destruct (flush_rest_scope _ _ _ _ H2) as [Es2 En2]. apply flush_rest_same in H2 as (_ & _ & E3).
  assert (Hi3 : scope_inv e2) by (by apply (scope_inv_same e1)).
  destruct r2 as [[]|er]; [|by injection Hrun as <- _].
  destruct se; by injection Hrun as <- _.
Qed.

Lemma open_scope d c io e rep S :
  open en d c io = Ok (e, rep) -> eng_rep en e S -> scope_inv e.
Proof.
  intros Ho He Hb. unfold open in Ho. destruct (negb (quantizers_ok c)); [done|].
  destruct (recover_files en d c io) as [rc|]; [|done]. cbn [mbind Result_bind] in Ho.
  destruct (build_text_index _) as [t|]; [|done]. cbn [mbind Result_bind] in Ho.
  destruct (rebuild_graph _ _) as [g pruned].
  destruct (from_records _ _ _ _) as [h0|] eqn:Hf; [|done]. cbn [mbind Result_bind] in Ho.
  injection Ho as <- _. cbn [meta scope_index] in *.
  destruct He as ((ops & m0 & hc & [Hco _ _ _ _]) & _). cbn [meta] in Hco.
  set (m := rc_meta rc) in *.
  assert (Hlive : forall o mr, records m !! o = Some mr -> o < next_offset m).
  { intros o mr Hr. apply (co_cur _ _ _ _ _ _ Hco). rewrite live_lookup, Hr. by eexists. }
  assert (Eb : build_scope_index (map_to_list (records m)) =
    add_scopes ScopeIndex.new (map (fun om => (om.1, scope om.2)) (map_to_list (records m)))).
  { unfold build_scope_index, add_scopes. generalize (map_to_list (records m)) as l, ScopeIndex.new as i.
    induction l as [|x l IH]; intros i; simpl; [done|]. apply IH. }
  rewrite Eb. unfold add_scopes.
  assert (Hsee : forall sc o, sees (foldl (fun i os => ScopeIndex.add i os.1 os.2) ScopeIndex.new
      (map (fun om => (om.1, scope om.2)) (map_to_list (records m)))) sc o ->
      exists mr, records m !! o = Some mr /\ scope mr = sc).
  { intros sc o. rewrite sees_adds.
    - intros [Hn|Hin].
      + destruct sc; simpl in Hn; unfold ScopeIndex.exact in Hn; simpl in Hn; set_solver.
      + apply list_elem_of_fmap in Hin as ([o' mr] & [= -> ->] & Hm). apply elem_of_map_to_list in Hm. eauto.
    - apply Forall_forall. intros x Hx. apply list_elem_of_fmap in Hx as ([o' mr] & -> & Hm).
      apply elem_of_map_to_list in Hm. simpl. specialize (Hlive _ _ Hm). lia. }
  split.
  - intros o dd sc Hd Hs. destruct (Hsee sc o Hs) as (mr & Hr & <-). rewrite live_lookup, Hr in Hd.
    simpl in Hd. injection Hd as <-. apply scope_of_dur_meta.
  - intros o sc Hs. destruct (Hsee sc o Hs) as (mr & Hr & _). eauto.
Qed.

Context `{!TextTotal}.

Lemma background_scope step e : scope_index (run_background en step e) = scope_index e.
Proof.
  destruct step; unfold run_background; cbv zeta; [done| | | |].
  - by destruct (process_one_seal _ _ _ _) as [[h b] r].
  - by destruct (process_one_merge _ _ _ _) as [[h b] r].
  - by destruct (SegmentHolder.trigger_consolidation _ _ _ _ _) as [[h m] r].
  - by destruct (drain_into _ _) as [a m].
Qed.
Lemma history_scope e S : history en e S -> scope_inv e.
Proof.
  induction 1 as [c vs e rep Hq Hd Hvs Ho|e S w e' Hh IH Hr Hw|e S w e' Hh IH Hr Hw Ew Hm
    |e S io e' r Hh IH Hf Hc|e S i now Hh IH|e S step Hh IH|e S ios dirs io e' rep Hh IH Ho
    |e S w e1 ok ios dirs io e' rep Hh IH Hr Hw Ho|e S fio e1 r ios dirs io e' rep Hh IH Hf Ho].
  - apply (open_scope _ _ _ _ _ ∅ Ho). apply (history_rep en). by eapply history_new.
  - by eapply (write_scope e w).
  - by eapply (write_scope e w).
  - eapply (flush_scope e S io); eauto. by apply (history_rep en).
  - unfold bump_access_by_id. destruct (id_index e !! i); [|done]. by apply (scope_inv_same e).
  - pose proof (history_rep en _ _ Hh) as ((ops & m0 & hc & [Hco _ _ _ _]) & _).
    pose proof (background_steady en step e) as Hst. pose proof (co_ms _ _ _ _ _ _ Hco) as Hwf.
    apply (scope_inv_same e); auto; [by apply Hst|by apply background_scope|by apply Hst].
  - apply (open_scope _ _ _ _ _ S Ho). apply (history_rep en). by eapply history_reopen.
  - apply (open_scope _ _ _ _ _ (left_by en e w S e1) Ho). apply (history_rep en). by eapply history_killed_write.
  - apply (open_scope _ _ _ _ _ S Ho). apply (history_rep en). by eapply history_killed_flush.
Qed.

(** ** Searches *)

Context {K : Kernels} {B1 : BinaryHeap rev_heap_le} {B2 : BinaryHeap item_le}
  {SN : SelectNth best_first} {SG : SearchGraph} {ST_ : SearchText} {GPU : GpuExact}.
Context (cfg : SearchConfig) (snapshot : SegmentSnapshot).

(** The store holds [i] in scope [s] or globally. *)
Definition scoped (S : gmap string (Dur * list f32)) (s i : string) : Prop :=
  exists d v, S !! i = Some (d, v) /\ (scope_of_dur d = None \/ scope_of_dur d = Some s).

(** A live, admitted offset holds a record of the scope. *)
Lemma admitted_scoped e S s b o m :
  history en e S -> next_offset (meta e) <= U32 -> MetadataStore.get (meta e) o = Some m ->
  admitted (query_scope (Some s) b e) o -> scoped S s (id m).
Proof.
  intros Hh Hn Hm Ha. destruct (history_scope _ _ Hh Hn) as [Ht _].
  destruct (history_rep en _ _ Hh) as ((ops & m0 & hc & [Hco _ _ _ _]) & _ & HS).
  assert (Hl : live (meta e) !! o = Some (durable m)) by (rewrite live_lookup; unfold MetadataStore.get in Hm; by rewrite Hm).
  assert (Ho : o < U32) by (destruct (co_cur _ _ _ _ _ _ Hco o); [by rewrite Hl|lia]).
  exists (durable m), (vector_at en (vectors e) o). split.
  - apply HS. exists o. split_and!; [done|apply id_of_dur_meta|done].
  - apply query_scope_admitted in Ha. rewrite (as_u32_small o Ho) in Ha.
    assert (Hq : o ∈ ScopeIndex.query (scope_index e) (Some s)) by tauto.
    apply query_sees in Hq as [Hq|Hq]; [left|right]; by eapply Ht.
Qed.
Lemma hit_scoped e S s b exclusion h :
  history en e S -> next_offset (meta e) <= U32 ->
  hit_ok e (query_scope (Some s) b e) exclusion h -> scoped S s h.1.
Proof. intros Hh Hn (o & m & Hm & <- & Ha & _). by eapply admitted_scoped. Qed.

(** C5: A search in a scope returns only records of the scope and global ones. At every
    point of a history of writes, flushes, failures, kills and reopens, whatever the
    payload filter, and whichever of the exact, the device and the segment search
    answers, each result of a search in scope [s] names a record of the store whose
    scope is [s] or none. *)
Theorem scoped_search_isolated e S s q top_k filter ef now e' res :
  history en e S -> next_offset (meta e) <= U32 -> Forall native_ok (sn_segments snapshot) -> top_k < U64 ->
  search_ann_candidates_filtered_with_ef en cfg snapshot q top_k filter ef (Some s) now e = Some (e', Ok res) ->
  forall i x, (i, x) ∈ res -> scoped S s i.
Proof.
  intros Hh Hn Hok Hk Hrun i x Hin. unfold search_ann_candidates_filtered_with_ef, sm_bind, check_query in Hrun.
  destruct (map_err _ _) as [[]|]; [|done].
  destruct (allowed_offsets filter (Some s) e) as [[e1 [bm|er]]|] eqn:Ha; [|done|done].
  destruct (allowed_offsets_same _ _ _ _ _ Ha) as (Hs & _ & Hbm). destruct (Hbm _ eq_refl) as (b & -> & _).
  destruct (ann_top_k_sound en cfg snapshot q top_k ef _ now e1 e' _ Hok Hk Hrun) as [_ Hhit].
  eapply (hit_scoped e S s b _ (i, x)); [done|done|]. eapply hit_ok_same; [exact Hs|]. by eapply Hhit.
Qed.

(** What the fusion returns is admitted. *)
Lemma hydrate_in e results q top_k exclusion bm i x :
  (i, x) ∈ hydrate_and_fuse en cfg e results q top_k exclusion bm ->
  exists o m, id_index e !! i = Some o /\ MetadataStore.get (meta e) o = Some m /\ admitted bm o /\
    excluded exclusion i = false.
Proof.
  unfold hydrate_and_fuse. intros Hin. apply elem_of_take_of in Hin. rewrite sort_by_perm in Hin.
  apply list_elem_of_filter in Hin as [Hex Hin]. apply list_elem_of_omap in Hin as ([i' act] & _ & Hh).
  unfold hydrate in Hh. simpl in Hh. destruct (id_index e !! i') as [o|] eqn:Hi; simpl in Hh; [|done].
  destruct (Segments.allowed bm o) eqn:Ha; simpl in Hh; [|done].
  unfold get_record in Hh. destruct (MetadataStore.get (meta e) o) as [m|] eqn:Hm; simpl in Hh; [|done].
  destruct (VectorStore.get _ _ _); simpl in Hh; [|done]. injection Hh as <- _.
  exists o, m. split_and!; auto; [by apply allowed_admitted|]. simpl in Hex.
  by destruct (excluded exclusion i').
Qed.

(** C6: The cognitive search keeps to the scope too: the expansion runs over a graph and
    a lexical index that all scopes share, but nothing outside the caller's scope is
    returned, whatever the expansion brings. *)
Theorem cognitive_search_isolated e S s text q top_k filter ef now e' res :
  history en e S -> next_offset (meta e) <= U32 -> Forall native_ok (sn_segments snapshot) -> top_k < U64 ->
  cognitive_search en cfg snapshot text q top_k filter ef (Some s) now e = Some (e', Ok (Some res)) ->
  forall i x, (i, x) ∈ res -> scoped S s i.
Proof.
  intros Hh Hn Hok Hk Hrun i x Hin. unfold cognitive_search, sm_bind, check_query, sm_read in Hrun.
  destruct (map_err _ _) as [[]|]; [|done].
  destruct (allowed_offsets filter (Some s) e) as [[e1 [bm|er]]|] eqn:Ha; [|done|done].
  destruct (allowed_offsets_same _ _ _ _ _ Ha) as (Hs & _ & Hbm). destruct (Hbm _ eq_refl) as (b & -> & _).
  destruct (ann_top_k _ _ _ _ _ _ _ _ e1) as [[e2 [seeds|er]]|] eqn:Hann; [|done|done].
  assert (Hk' : N.max (N.min top_k (records_in e)) 10 < U64) by (unfold U64 in *; lia).
  destruct (ann_top_k_sound en cfg snapshot _ _ _ _ _ _ _ _ Hok Hk' Hann) as [Hs2 _].
  pose proof (reads_same_trans _ _ _ Hs Hs2) as Hs3.
  destruct (search_restricted _ _ _ _ _) as [results|]; [|done].
  destruct (hydrate_and_fuse _ _ e2 _ _ _ _ _) as [|h hs] eqn:Hhy; [done|].
  assert (res = h :: hs) as -> by (by injection Hrun). rewrite <- Hhy in Hin.
  apply hydrate_in in Hin as (o & m & Hid & Hm & Had & _).
  rewrite (rs_ids _ _ Hs3) in Hid. rewrite (rs_meta _ _ Hs3) in Hm.
  assert (i = id m) as ->; [|by eapply admitted_scoped].
  destruct (history_rep en _ _ Hh) as ((ops & m0 & hc & [_ _ _ _ Hids]) & _ & _).
  apply Hids in Hid as (d & Hd & <-). rewrite live_lookup in Hd. unfold MetadataStore.get in Hm. rewrite Hm in Hd.
  simpl in Hd. injection Hd as <-. apply id_of_dur_meta.
Qed.

End isolation.

(** ** Concrete searches *)

Module SearchWitness.
Import EngineTheorems.Examples SegmentSearchWitness TopOfWitness.
#[export] Existing Instances ex_point_heap ex_item_heap scalar_kernels sort_select no_gpu.

(** The expansion returns the seeds it is given, with a record of another scope. *)
#[export] Instance ex_search_graph : SearchGraph := {|
  superseded_ids := fun _ => ∅;
  search_restricted := fun _ _ seeds _ _ => Some (("a"%string, f32_one) :: seeds);
  reinforce := fun g _ _ => g |}.
#[export] Instance ex_search_text : SearchText := {|
  commit_if_pending := fun t => (t, Ok tt); text_search := fun _ _ => Ok ∅ |}.
Definition ex_search_config : SearchConfig := {|
  exclude_superseded := true; gpu_exact_min_records := 0; cognitive_alpha := f32_one;
  temporal_recency_weight := f32_zero |}.
Definition ex_none : SegmentSnapshot := {| sn_search_list_size := 64; sn_segments := [] |}.
Definition ex_query : list f32 := [f32_one; 0].

(** Record [a] is in scope [s], [c] is global: a search in scope [t] finds only [c]. *)
Definition ex_ann := search_ann_candidates_filtered_with_ef le ex_search_config ex_none ex_query 5 None None
  (Some "t"%string) 110 ex_e5.
Lemma scoped_search_isolated_witness :
  exists e' x, ex_ann = Some (e', Ok [("c"%string, x)]) /\ scoped ex_s5 "t" "c".
Proof.
  destruct ex_ann as [[e' [res|]]|] eqn:E; [|exfalso; revert E; by vm_compute|exfalso; revert E; by vm_compute].
  assert (Hr : match ex_ann with Some (_, Ok r) => map fst r | _ => [] end = ["c"%string]) by (vm_compute; reflexivity).
  rewrite E in Hr. destruct res as [|[i x] [|]]; [done| |done]. injection Hr as ->.
  exists e', x. split; [done|].
  apply (scoped_search_isolated le ex_search_config ex_none ex_e5 ex_s5 "t" ex_query 5 None None 110 e' [("c"%string, x)]
    ex_history5) with (x := x); [by vm_compute|constructor|by vm_compute|exact E|by left].
Defined.

Definition ex_cognitive := cognitive_search le ex_search_config ex_none "query" ex_query 5 None None
  (Some "t"%string) 110 ex_e5.
Lemma cognitive_search_isolated_witness :
  exists e' x, ex_cognitive = Some (e', Ok (Some [("c"%string, x)])) /\ scoped ex_s5 "t" "c".
Proof.
  destruct ex_cognitive as [[e' [[res|]|]]|] eqn:E;
    [|exfalso; revert E; by vm_compute|exfalso; revert E; by vm_compute|exfalso; revert E; by vm_compute].
  assert (Hr : match ex_cognitive with Some (_, Ok (Some r)) => map fst r | _ => [] end = ["c"%string])
    by (vm_compute; reflexivity).
  rewrite E in Hr. destruct res as [|[i x] [|]]; [done| |done]. injection Hr as ->.
  exists e', x. split; [done|].
  apply (cognitive_search_isolated le ex_search_config ex_none ex_e5 ex_s5 "t" "query" ex_query 5 None None 110 e'
    [("c"%string, x)] ex_history5) with (x := x); [by vm_compute|constructor|by vm_compute|exact E|by left].
Defined.

Lemma ex_sizes : sizes_ok ex_none ex_e5.
Proof. split; [by vm_compute|done|by vm_compute]. Qed.
Lemma search_answers_witness :
  search_ann_candidates_filtered_with_ef le ex_search_config ex_none ex_query 5 None None None 110 ex_e5 <> None /\
  cognitive_search le ex_search_config ex_none "query" ex_query 5 None None None 110 ex_e5 <> None.
Proof.
  apply (search_answers le ex_search_config ex_none ex_e5 "query" ex_query 5 None None None 110 ex_sizes);
    [constructor|by vm_compute|done].
Defined.

(** All cosines of the example are positive. *)
Lemma ex_cosines o v :
  view_of le ex_e5 o = Some v ->
  f32_sign (cosine_similarity ex_query v) && is_zero (cosine_similarity ex_query v) = false.
Proof.
  unfold view_of. intros Hv.
  assert (Ho : o < VectorStore.count (vectors ex_e5)).
  { unfold VectorStore.get in Hv. destruct (N.leb_spec (VectorStore.count (vectors ex_e5)) o); [done|done]. }
  change (VectorStore.count (vectors ex_e5)) with 4 in Ho.
  assert (o = 0 \/ o = 1 \/ o = 2 \/ o = 3) as [-> | [-> | [-> | ->]]] by lia;
    vm_compute in Hv; injection Hv as <-; vm_compute; reflexivity.
Qed.
Lemma exact_search_ranking_witness :
  exists e' x y, ann_top_k_excluding le ex_search_config ex_none ex_query 5 None None None 110 ex_e5 =
    Some (e', Ok [("c"%string, x); ("a"%string, y)]).
Proof.
  destruct (exact_search_ranking le ex_search_config ex_none ex_e5 ex_query 5 None None None 110)
    as (e' & _ & E); [by vm_compute|by vm_compute|apply ex_cosines|by vm_compute|].
  exists e', 0x3f3504f4, 0x3f19999a. rewrite E. by do 3 f_equal.
Defined.

End SearchWitness.

Import EngineTheorems.Examples SegmentSearchWitness SearchWitness.

(** The results of an unrestricted search of the example store. *)
Definition ex_results (q : list f32) : list (string * f32) :=
  match search_ann_candidates_filtered_with_ef le ex_search_config ex_none q 5 None None None 110 ex_e5 with
  | Some (_, Ok res) => res
  | _ => []
  end.

(** A finite query whose squared length overflows passes the validation and loses
    its direction: the query (1e20, 0) gets score zero against every record, and the
    records come back by age, although the query (1, 0) of the same direction ranks
    [c] first. *)
Theorem large_query_unranked :
  validate_query [0x60AD78EC; 0] 2 = Ok tt /\
  ex_results [0x60AD78EC; 0] = [("a"%string, 0); ("c"%string, 0)] /\
  map fst (ex_results [f32_one; 0]) = ["c"%string; "a"%string].
Proof. split_and!; vm_compute; reflexivity. Qed.
