(* ===== verification/Retention.v ===== *)
(** * Bounded storage, [crates/turbomemory_storage/src/engine/retention.rs]

    Eviction (access-aware, by base-level activation, or first in first out), the
    gists that replace what is evicted, merging of near-duplicates and automatic
    importance.

    The metadata cache is iterated in no particular order ([RecordIter]); the gist
    compressor is the caller's; powers and logarithms come from [Libm]. The outcome of
    the system calls of each delete and insert is an argument. *)

From S2P Require Import Prelude Core Floats Vocabulary Metrics Record Wal VectorStore MetadataStore AccessCounters ScopeIndex PayloadIndex Segments SegmentSearch TopOf Engine Recovery Search.
#[local] Open Scope turbo_scope.

(** [MetadataStore::for_each_record]. *)
Class RecordIter := {
  iter_records : gmap N MetaRecord -> list (N * MetaRecord);
  iter_records_perm : forall m, iter_records m ≡ₚ map_to_list m;
}.
(** What retention asks of the graph. *)
Class RetentionGraph {GO : GraphOps} := {
  add_concepts_to_memory : Graph -> string -> list string -> f32 -> Graph;
  reweight_memory : Graph -> string -> f32 -> Graph;
}.

(** [GistCompressor::compress]: a summary and its embedding, nothing, or a failure. *)
Abbreviation GistCompressor := (list string -> Result string (option (string * list f32))) (only parsing).

Record RetentionConfig := {
  max_records : option N;
  evict_score_floor : option f64;
  recency_half_life_secs : N;
  access_aware_eviction : bool;
  use_actr : bool;
  actr_decay : f64;
  gist_before_evict : bool;
  gist_chunk_facts : N;
  dedup_cosine_threshold : option f32;
  dedup_max_pairs_per_cycle : N;
  importance_auto_scoring : bool;
  importance_learning_rate : f32;
  importance_access_weight : f32;
  importance_floor : f32;
  importance_ceiling : f32;
}.

Definition f64_neg_inf : f64 := 0xFFF0000000000000.
Definition f64_sum (l : list f64) : f64 := foldl f64_add f64_zero l.

(** Records to forget, by ascending score, then by offset. *)
Definition forget_le (a b : N * string * f64) : Prop :=
  match Z.compare (f64_total_key a.2) (f64_total_key b.2) with
  | Lt => True | Eq => a.1.1 <= b.1.1 | Gt => False
  end.
#[global] Instance forget_le_dec a b : Decision (forget_le a b).
Proof. unfold forget_le. destruct (_ ?= _)%Z; apply _. Defined.
#[global] Instance forget_le_trans : Transitive forget_le.
Proof.
  intros a b c. unfold forget_le.
  repeat match goal with |- context [(?x ?= ?y)%Z] => destruct (Z.compare_spec x y) end; intros; try done; lia.
Qed.
#[global] Instance forget_le_total : Total forget_le.
Proof.
  intros a b. unfold forget_le.
  repeat match goal with |- context [(?x ?= ?y)%Z] => destruct (Z.compare_spec x y) end; auto; lia.
Qed.

Section retention.
Context (en : Endian) {HC : Crc32} {BW : Bincode WalOp}
  {SJ : SerdeJson} {JS : JsonSyntax} {GO : GraphOps} {TO : TextOps} {RG : RetentionGraph}
  {U : Unicode} {LM : Libm} {RI : RecordIter}
  {K : Kernels} {B1 : BinaryHeap rev_heap_le} {B2 : BinaryHeap item_le} {SN : SelectNth best_first}
  {SG : SearchGraph} {ST_ : SearchText} {GPU : GpuExact}.
Context (cfg : RetentionConfig) (scfg : SearchConfig) (snapshot : SegmentSnapshot).

(** [access_count * 2^(-age / half_life)]. *)
Definition access_score (m : MetaRecord) (now half_life : N) : f64 :=
  let age := N.max (saturating_sub now (last_accessed m)) 1 in
  let recency := powf f64_two (f64_div (f64_neg (f64_of_N age)) (f64_of_N half_life)) in
  f64_mul (f64_of_N (access_count m)) recency.
(** [ln (sum of age^-decay)]. *)
Definition actr_activation (timestamps : list N) (now : N) (decay : f64) : f64 :=
  match timestamps with
  | [] => f64_neg_inf
  | _ => ln64 (f64_sum (map (fun ts => powf (f64_of_N (N.max (saturating_sub now ts) 1)) (f64_neg decay)) timestamps))
  end.

Definition half_life : N := N.max (recency_half_life_secs cfg) 1.
Definition grace : N := half_life / 8.

(** ** Eviction *)

(** Not touched within the grace window. *)
Definition in_grace (now : N) (m : MetaRecord) : bool :=
  access_aware_eviction cfg && (saturating_sub now (last_accessed m) <? grace).
Definition evict_score (ms : MetadataStore) (now offset : N) (m : MetaRecord) : f64 :=
  if access_aware_eviction cfg then
    if use_actr cfg then actr_activation (history_of ms offset) now (f64_max (actr_decay cfg) f64_zero)
    else access_score m now half_life
  else f64_of_N (insert_seq m).
Definition scored (ms : MetadataStore) (now : N) : list (N * string * f64) :=
  omap (fun om : N * MetaRecord =>
    if in_grace now om.2 then None else Some (om.1, id om.2, evict_score ms now om.1 om.2))
    (iter_records (records ms)).

(** The floor pass. *)
Definition below_floor (l : list (N * string * f64)) : list (N * string) :=
  match evict_score_floor cfg with
  | None => []
  | Some floor => map fst (filter (fun x : N * string * f64 => f64_ltb x.2 floor = true) l)
  end.
(** The cap pass: the lowest survivors, as many as the store is over its cap. *)
Definition over_cap (live : N) (victims : list (N * string)) : N :=
  match max_records cfg with
  | None => 0
  | Some cap => saturating_sub (saturating_sub live (len victims)) cap
  end.
Definition evict_plan (ms : MetadataStore) (now : N) : list (N * string) :=
  let l := scored ms now in
  let victims := below_floor l in
  let survivors := sort_by forget_le (filter (fun x : N * string * f64 => x.1.1 ∉ victims.*1) l) in
  victims ++ map fst (take (N.to_nat (over_cap (record_count ms) victims)) survivors).

(** *** Gists *)

(** A victim: sequence number, offset, text. *)
Definition seq_le (a b : N * N * string) : Prop := a.1.1 <= b.1.1.
#[global] Instance seq_le_dec a b : Decision (seq_le a b).
Proof. unfold seq_le. apply _. Defined.
(** [BTreeMap<Option<String>, _>]: no scope first, then by scope. *)
Definition scope_le (a b : option string) : Prop :=
  match a, b with None, _ => True | Some _, None => False | Some a, Some b => string_le a b end.
#[global] Instance scope_le_dec a b : Decision (scope_le a b).
Proof. destruct a, b; simpl; unfold string_le; apply _. Defined.
Definition victim_entries (ms : MetadataStore) (victims : list N) : list (N * MetaRecord) :=
  filter (fun om : N * MetaRecord => om.1 ∈ victims) (iter_records (records ms)).
Definition victim_scopes (l : list (N * MetaRecord)) : list (option string) :=
  sort_by scope_le (remove_dups (map (fun om : N * MetaRecord => scope om.2) l)).
Definition entries_of (l : list (N * MetaRecord)) (sc : option string) : list (N * N * string) :=
  sort_by seq_le (map (fun om : N * MetaRecord => (insert_seq om.2, om.1, text om.2))
    (filter (fun om : N * MetaRecord => scope om.2 = sc) l)).
(** The chunks the compressor is called with, in order. *)
Definition gist_chunks (ms : MetadataStore) (victims : list N) : list (option string * list (N * N * string)) :=
  let l := victim_entries ms victims in
  concat (map (fun sc => map (fun c => (sc, c)) (chunks (N.to_nat (N.max (gist_chunk_facts cfg) 1)) (entries_of l sc)))
    (victim_scopes l)).

Definition quoted (s : string) : string :=
  String.append (String.String (Ascii.ascii_of_nat 34) s) (String.String (Ascii.ascii_of_nat 34) EmptyString).
Definition gist_input (sc : option string) (now n : N) (gist : string) (embedding : list f32) (facts : N) : WriteInput := {|
  i_id := ("gist:" ++ default "global" sc ++ ":" ++ u64_to_string now ++ ":" ++ u64_to_string n)%string;
  i_text := gist; i_embedding := embedding; i_importance := f32_one; i_concepts := [];
  i_payload := Some ("{" ++ quoted "gist" ++ ":true," ++ quoted "victims" ++ ":" ++ u64_to_string facts ++ "}")%string;
  i_scope := sc; i_source_role := Some "gist"%string |}.

(** One chunk: the engine, the gist counter and the spared offsets after it. *)
Definition gist_step (compress : GistCompressor) (now : N) (io : N -> WriteIo)
    (st : Engine * N * list N) (ch : option string * list (N * N * string)) : Engine * N * list N :=
  let '(e, gist_seq, spared) := st in
  let offsets := map (fun x : N * N * string => x.1.2) ch.2 in
  match compress (map snd ch.2) with
  | Err _ => (e, gist_seq, spared ++ offsets)
  | Ok None => st
  | Ok (Some (gist, embedding)) =>
      if bool_decide (trim gist = ""%string) then st
      else
        let n := gist_seq + 1 in
        match insert_with_payload_role en (gist_input ch.1 now n gist embedding (len ch.2)) now (io n) e with
        | (e, Ok _) => (e, n, spared)
        | (e, Err _) => (e, n, spared ++ offsets)
        end
  end.
Definition gist_victims (compress : GistCompressor) (now : N) (io : N -> WriteIo) (victims : list N)
    (e : Engine) (gist_seq : N) : Engine * N * list N :=
  foldl (gist_step compress now io) (e, gist_seq, []) (gist_chunks (meta e) victims).

(** *** The eviction *)

Fixpoint delete_all (victims : list (N * string)) (io : N -> WriteIo) (evicted : N) : ST Engine N :=
  match victims with
  | [] => st_ret evicted
  | (offset, i) :: victims =>
      let! deleted := delete_by_id_at i offset (io offset) in
      delete_all victims io (if deleted : bool then evicted + 1 else evicted)
  end.

Definition drain : ST Engine unit :=
  st_modify (fun e => let '(a, m) := drain_into (access_counters e) (meta e) in set_access a (set_meta m e)).

(** Returns the gist counter as well. *)
Definition evict (compressor : option GistCompressor) (gist_seq now : N) (gio dio : N -> WriteIo)
    (e : Engine) : Engine * N * Result StorageError N :=
  if bool_decide (max_records cfg = None) && bool_decide (evict_score_floor cfg = None) then (e, gist_seq, Ok 0)
  else
    let e := (drain e).1 in
    let victims := evict_plan (meta e) now in
    let '(e, gist_seq, spared) :=
      match compressor with
      | Some compress =>
          if gist_before_evict cfg && negb (bool_decide (victims = []))
          then gist_victims compress now gio victims.*1 e gist_seq else (e, gist_seq, [])
      | None => (e, gist_seq, [])
      end in
    let victims := filter (fun v : N * string => v.1 ∉ spared) victims in
    let '(e, r) := delete_all victims dio 0 e in (e, gist_seq, r).

(** ** Near-duplicates *)

Record Cand := {
  c_offset : N;
  c_id : string;
  c_score : f64;
  c_importance : f32;
  c_seq : N;
  c_concepts : list string;
  c_scope : option string;
}.
Definition cand_of (now : N) (om : N * MetaRecord) : Cand := {|
  c_offset := om.1; c_id := id om.2; c_score := access_score om.2 now half_life;
  c_importance := importance om.2; c_seq := insert_seq om.2; c_concepts := concepts om.2; c_scope := scope om.2 |}.
Definition cand_le (a b : Cand) : Prop := c_seq a <= c_seq b.
#[global] Instance cand_le_dec a b : Decision (cand_le a b).
Proof. unfold cand_le. apply _. Defined.
Definition dedup_cands (ms : MetadataStore) (now : N) : list Cand :=
  sort_by cand_le (map (cand_of now) (iter_records (records ms))).

Definition then_cmp (a b : comparison) : comparison := match a with Eq => b | _ => a end.
Definition keeps (a b : Cand) : bool :=
  match then_cmp (Z.compare (f64_total_key (c_score a)) (f64_total_key (c_score b)))
          (then_cmp (total_cmp (c_importance a) (c_importance b)) (N.compare (c_seq b) (c_seq a))) with
  | Lt => false
  | _ => true
  end.

(** A planned merge: the survivor's id and the victim. *)
Record Merge := { m_survivor : Cand; m_victim : Cand }.
Record DedupState := { merged_offsets : gset N; merges : list Merge }.

(** The neighbours of one candidate; [true]: stop the whole pass. *)
Fixpoint dedup_neighbors (view : View) (threshold : f32) (max_pairs : N) (cands : list Cand) (cand : Cand)
    (embedding : list f32) (neighbors : list (string * f32)) (st : DedupState) : DedupState * bool :=
  match neighbors with
  | [] => (st, false)
  | (nid, _) :: neighbors =>
      let next := dedup_neighbors view threshold max_pairs cands cand embedding neighbors in
      if bool_decide (nid = c_id cand) then next st
      else
        match List.find (fun c => bool_decide (c_id c = nid)) cands with
        | None => next st
        | Some other =>
            if negb (bool_decide (c_scope other = c_scope cand)) then next st
            else if bool_decide (c_offset other ∈ merged_offsets st) then next st
            else
              match view (c_offset other) with
              | None => next st
              | Some other_vec =>
                  if f32_ltb (cosine_similarity embedding other_vec) threshold then next st
                  else
                    let m := if keeps cand other then {| m_survivor := cand; m_victim := other |}
                             else {| m_survivor := other; m_victim := cand |} in
                    let st := {| merged_offsets := {[c_offset (m_victim m)]} ∪ merged_offsets st;
                                 merges := merges st ++ [m] |} in
                    if max_pairs <=? len (merges st) then (st, true)
                    else if c_offset (m_victim m) =? c_offset cand then (st, false)
                    else next st
              end
        end
  end.

(** The pass over the candidates. Every search counts as an access of its results. *)
Fixpoint dedup_loop (threshold : f32) (max_pairs now : N) (cands todo : list Cand) (st : DedupState)
    : SM DedupState := fun e =>
  match todo with
  | [] => Some (e, Ok st)
  | cand :: todo =>
      let next := dedup_loop threshold max_pairs now cands todo in
      if bool_decide (c_offset cand ∈ merged_offsets st) then next st e
      else
        match view_of en e (c_offset cand) with
        | None => next st e
        | Some embedding =>
            match search_ann_scoped en scfg snapshot embedding 5 None (c_scope cand) now e with
            | None => None
            | Some (e, Err er) => Some (e, Err er)
            | Some (e, Ok neighbors) =>
                match dedup_neighbors (view_of en e) threshold max_pairs cands cand embedding neighbors st with
                | (st, true) => Some (e, Ok st)
                | (st, false) => next st e
                end
            end
        end
  end.

(** The concepts the survivor lacks go to it, then the victim is deleted. *)
Definition transfer_concepts (m : Merge) (e : Engine) : Engine :=
  match find_meta_by_id e (c_id (m_survivor m)) with
  | None => e
  | Some survivor =>
      match filter (fun c => c ∉ concepts survivor) (c_concepts (m_victim m)) with
      | [] => e
      | missing => set_graph (add_concepts_to_memory (graph e) (c_id (m_survivor m)) missing (importance survivor)) e
      end
  end.
Fixpoint apply_merges (ms : list Merge) (io : N -> WriteIo) (count : N) : ST Engine N :=
  match ms with
  | [] => st_ret count
  | m :: ms =>
      st_modify (transfer_concepts m) ;!
      let! deleted := delete_by_id_at (c_id (m_victim m)) (c_offset (m_victim m)) (io (c_offset (m_victim m))) in
      apply_merges ms io (if deleted : bool then count + 1 else count)
  end.

Definition deduplicate (now : N) (io : N -> WriteIo) : SM N := fun e =>
  match dedup_cosine_threshold cfg with
  | None => Some (e, Ok 0)
  | Some threshold =>
      if dedup_max_pairs_per_cycle cfg =? 0 then Some (e, Ok 0)
      else
        let e := (drain e).1 in
        let cands := dedup_cands (meta e) now in
        match dedup_loop threshold (dedup_max_pairs_per_cycle cfg) now cands cands
                {| merged_offsets := ∅; merges := [] |} e with
        | None => None
        | Some (e, Err er) => Some (e, Err er)
        | Some (e, Ok st) => Some (apply_merges (merges st) io 0 e)
        end
  end.

(** ** Importance *)

Definition set_importance (m : MetaRecord) (x : f32) : MetaRecord := {|
  id := id m; text := text m; importance := x; concepts := concepts m; created_at := created_at m;
  insert_seq := insert_seq m; access_count := access_count m; last_accessed := last_accessed m;
  tier := tier m; payload := payload m; scope := scope m; source_role := source_role m |}.

Definition imp_ceiling : f32 := f32_max (importance_ceiling cfg) (importance_floor cfg).
(** The new importance of a record. *)
Definition new_importance (old : f32) (salience max_salience : f64) (degree max_degree : N) : f32 :=
  let rate := f32_clamp (importance_learning_rate cfg) f32_zero f32_one in
  let access_weight := f64_of_f32 (f32_clamp (importance_access_weight cfg) f32_zero f32_one) in
  let sal := if f64_ltb f64_zero max_salience then f64_div salience max_salience else f64_zero in
  let deg := if 0 <? max_degree then f64_div (f64_of_N degree) (f64_of_N max_degree) else f64_zero in
  let bonus := f64_mul (f64_mul (f64_sub f64_one access_weight) deg) (f64_add f64_half (f64_mul f64_half sal)) in
  let blend := f64_clamp (f64_add (f64_mul access_weight sal) bonus) f64_zero f64_one in
  let target := f32_add (importance_floor cfg)
    (f32_mul (f32_sub imp_ceiling (importance_floor cfg)) (f32_of_f64 blend)) in
  f32_clamp (f32_add old (f32_mul rate (f32_sub target old))) (importance_floor cfg) imp_ceiling.

Definition imp_step (now : N) (max_salience : f64) (max_degree : N) (st : Engine * N) (om : N * MetaRecord)
    : Engine * N :=
  let '(e, changed) := st in
  let m := om.2 in
  let x := new_importance (importance m) (access_score m now half_life) max_salience (len (concepts m)) max_degree in
  if f32_geb 0x38D1B717 (f32_abs (f32_sub x (importance m))) then st
  else
    let e := match MetadataStore.get (meta e) om.1 with
             | Some rec => set_meta (put_meta (meta e) om.1 (set_importance rec x)) e
             | None => e
             end in
    (set_graph (reweight_memory (graph e) (id m) x) e, changed + 1).
(** [None]: [clamp] panics on bounds that are not ordered. *)
Definition recompute_importance (now : N) (io : FlushIo) : SM N := fun e =>
  if negb (importance_auto_scoring cfg) then Some (e, Ok 0)
  else
    let e := (drain e).1 in
    let l := iter_records (records (meta e)) in
    match l with
    | [] => Some (e, Ok 0)
    | _ =>
        if negb (f32_geb imp_ceiling (importance_floor cfg)) then None
        else
          let max_salience := foldl (fun mx (om : N * MetaRecord) => f64_max mx (access_score om.2 now half_life)) f64_zero l in
          let max_degree := foldl (fun mx (om : N * MetaRecord) => N.max mx (len (concepts om.2))) 0 l in
          let '(e, changed) := foldl (imp_step now max_salience max_degree) (e, 0) l in
          Some (if 0 <? changed then (save_graph io ;! st_ret changed) e else (e, Ok changed))
    end.

End retention.
