(* ===== verification/RetentionTheorems.v ===== *)
(** * What retention removes

    Which records an eviction takes, what is left of the store, which duplicates are
    merged, and the range of the learned importance. *)

From S2P Require Import Prelude Core Floats Vocabulary Metrics Record Wal VectorStore MetadataStore AccessCounters ScopeIndex PayloadIndex Segments SegmentHolder Optimizer SegmentSearch TopOf Engine Recovery Durability CrashSafety Steady EngineTheorems Search SearchTheorems Isolation Retention.
#[local] Open Scope turbo_scope.

(** The texts and the offsets of a chunk of victims. *)
Abbreviation Chunk := (option string * list (N * N * string))%type.
Definition facts (ch : Chunk) : list string := map snd ch.2.
Definition offsets (ch : Chunk) : list N := map (fun x => x.1.2) ch.2.

Section retention_theorems.
Context (en : Endian) {HC : Crc32} {BW : Bincode WalOp} {BW1 : Bincode WalOpV1}
  {BM : Bincode MetaRecord} {BH : Bincode (list N)}
  {BMo : BincodeOk MetaRecord} {BHo : BincodeOk (list N)}
  {BMt : BincodeTotal MetaRecord} {BHt : BincodeTotal (list N)}
  {BWo : BincodeOk WalOp} {BWt : BincodeTagged WalOp}
  {SJ : SerdeJson} {JS : JsonSyntax} {GO : GraphOps} {TO : TextOps} {RG : RetentionGraph}
  {U : Unicode} {LM : Libm} {RI : RecordIter}
  {K : Kernels} {B1 : BinaryHeap rev_heap_le} {B2 : BinaryHeap item_le} {SN : SelectNth best_first}
  {SG : SearchGraph} {ST_ : SearchText} {GPU : GpuExact} `{!TextTotal}.
Context (cfg : RetentionConfig) (scfg : SearchConfig) (snapshot : SegmentSnapshot).

Lemma elem_of_iter_records m o r : (o, r) ∈ iter_records m <-> m !! o = Some r.
Proof. by rewrite iter_records_perm, elem_of_map_to_list. Qed.
Lemma iter_records_nodup m : NoDup (iter_records m).*1.
Proof. rewrite iter_records_perm. apply NoDup_fst_map_to_list. Qed.

(** ** The eviction plan *)

Lemma elem_of_scored ms now x :
  x ∈ scored cfg ms now <->
  exists m, records ms !! x.1.1 = Some m /\ in_grace cfg now m = false /\
    x = (x.1.1, id m, evict_score cfg ms now x.1.1 m).
Proof.
  unfold scored. rewrite list_elem_of_omap. split.
  - intros ([o m] & Hin & Hx). simpl in Hx. destruct (in_grace cfg now m) eqn:Hg; [done|]. injection Hx as <-.
    exists m. simpl. split_and!; auto. by apply elem_of_iter_records.
  - intros (m & Hm & Hg & Hx). exists (x.1.1, m). split; [by apply elem_of_iter_records|].
    simpl. rewrite Hg. by rewrite Hx.
Qed.
Lemma scored_nodup ms now : NoDup (map (fun x : N * string * f64 => x.1.1) (scored cfg ms now)).
Proof.
  unfold scored. pose proof (iter_records_nodup (records ms)) as Hn. revert Hn.
  generalize (iter_records (records ms)) as l. unfold omap.
  induction l as [|[o m] l IH]; simpl; [constructor|]. intros [Ho Hn]%NoDup_cons.
  destruct (in_grace cfg now m); simpl; [auto|]. constructor; [|auto]. intros Hin. apply Ho.
  apply list_elem_of_fmap in Hin as (x & E & Hx). apply list_elem_of_omap in Hx as ([o' m'] & Hl & Hx).
  simpl in Hx. destruct (in_grace cfg now m'); [done|]. injection Hx as <-. simpl in E. subst o'.
  apply list_elem_of_fmap. by exists (o, m').
Qed.
Lemma scored_unique ms now x y :
  x ∈ scored cfg ms now -> y ∈ scored cfg ms now -> x.1.1 = y.1.1 -> x = y.
Proof.
  intros (m & Hm & _ & Hx)%elem_of_scored (m' & Hm' & _ & Hy)%elem_of_scored E.
  rewrite Hx, Hy, E in *. congruence.
Qed.

Lemma elem_of_below ms now o i :
  (o, i) ∈ below_floor cfg (scored cfg ms now) <->
  exists s f, evict_score_floor cfg = Some f /\ (o, i, s) ∈ scored cfg ms now /\ f64_ltb s f = true.
Proof.
  unfold below_floor. destruct (evict_score_floor cfg) as [f|]; [|set_solver].
  rewrite list_elem_of_fmap. split.
  - intros ([[o' i'] s] & [= -> ->] & Hin). apply list_elem_of_filter in Hin as [Hs Hin]. eauto.
  - intros (s & f' & [= <-] & Hin & Hs). exists (o, i, s). split; [done|]. by apply list_elem_of_filter.
Qed.

(** The survivors of the floor pass. *)
Definition survivors (ms : MetadataStore) (now : N) : list (N * string * f64) :=
  sort_by forget_le
    (filter (fun x : N * string * f64 => x.1.1 ∉ (below_floor cfg (scored cfg ms now)).*1) (scored cfg ms now)).
Definition capped (ms : MetadataStore) (now : N) : nat :=
  N.to_nat (over_cap cfg (record_count ms) (below_floor cfg (scored cfg ms now))).
Lemma evict_plan_parts ms now :
  evict_plan cfg ms now = below_floor cfg (scored cfg ms now) ++ map fst (take (capped ms now) (survivors ms now)).
Proof. done. Qed.

Lemma nodup_map_filter {A B} (f : A -> B) (P : A -> Prop) `{!forall x, Decision (P x)} l :
  NoDup (map f l) -> NoDup (map f (filter P l)).
Proof.
  induction l as [|x l IH]; simpl; [constructor|]. intros [Hx Hn]%NoDup_cons. rewrite filter_cons.
  case_decide; [|auto]. simpl. constructor; [|auto]. intros Hin. apply Hx.
  apply list_elem_of_fmap in Hin as (y & -> & Hy). apply list_elem_of_filter in Hy as [_ Hy].
  apply list_elem_of_fmap. eauto.
Qed.
Lemma below_nodup ms now : NoDup (below_floor cfg (scored cfg ms now)).*1.
Proof.
  unfold below_floor. destruct (evict_score_floor cfg) as [f|]; [|constructor].
  change (NoDup (map fst (map fst (filter (fun x : N * string * f64 => f64_ltb x.2 f = true) (scored cfg ms now))))).
  rewrite map_map. apply nodup_map_filter, scored_nodup.
Qed.
Lemma survivors_nodup ms now : NoDup (map (fun x : N * string * f64 => x.1.1) (survivors ms now)).
Proof.
  unfold survivors. change (map ?f ?l) with (f <$> l). rewrite sort_by_perm. apply nodup_map_filter, scored_nodup.
Qed.
Lemma elem_of_survivors ms now x :
  x ∈ survivors ms now <-> (x.1.1 ∉ (below_floor cfg (scored cfg ms now)).*1) /\ x ∈ scored cfg ms now.
Proof. unfold survivors. by rewrite sort_by_perm, list_elem_of_filter. Qed.

(** Every planned victim comes from the scored records. *)
Lemma evict_plan_in ms now o i :
  (o, i) ∈ evict_plan cfg ms now -> exists s, (o, i, s) ∈ scored cfg ms now.
Proof.
  rewrite evict_plan_parts, elem_of_app, elem_of_below. intros [(s & f & _ & Hs & _)|Hin]; [eauto|].
  apply list_elem_of_fmap in Hin as ([[o' i'] s] & [= -> ->] & Hin).
  apply elem_of_take_of in Hin. apply elem_of_survivors in Hin as [_ Hin]. eauto.
Qed.
Lemma evict_plan_nodup ms now : NoDup (evict_plan cfg ms now).*1.
Proof.
  rewrite evict_plan_parts, fmap_app. apply NoDup_app. split_and!; [apply below_nodup| |].
  - intros o Ho Hin. apply list_elem_of_fmap in Hin as ([o' i] & -> & Hin).
    apply list_elem_of_fmap in Hin as (x & Ex & Hin). apply elem_of_take_of in Hin.
    apply elem_of_survivors in Hin as [Hno _]. apply Hno. by rewrite <- Ex.
  - rewrite <- list_fmap_compose. pose proof (survivors_nodup ms now) as Hn. change (map ?f ?l) with (f <$> l) in Hn.
    rewrite <- (take_drop (capped ms now) (survivors ms now)), fmap_app in Hn. by apply NoDup_app in Hn as [? _].
Qed.

(** C11: What an eviction plans to remove. No record is planned twice, and each is a live
    record outside the grace window, under its own id; every such record scoring below
    the floor is included; afterwards the store is within its cap or no record is left
    to take; a record above the floor is taken only if every one that stays scores at
    least as high, the older first on a tie, and only while the store is over its
    cap. *)
Theorem evict_plan_spec ms now :
  NoDup (evict_plan cfg ms now).*1 /\
  (forall o i, (o, i) ∈ evict_plan cfg ms now ->
     exists m, records ms !! o = Some m /\ i = id m /\ in_grace cfg now m = false) /\
  (forall o m f, records ms !! o = Some m -> in_grace cfg now m = false -> evict_score_floor cfg = Some f ->
     f64_ltb (evict_score cfg ms now o m) f = true -> (o, id m) ∈ evict_plan cfg ms now) /\
  (forall cap, max_records cfg = Some cap ->
     record_count ms - len (evict_plan cfg ms now) <= cap \/
     forall o m, records ms !! o = Some m -> in_grace cfg now m = false -> o ∈ (evict_plan cfg ms now).*1) /\
  (forall o i m o' m', (o, i) ∈ evict_plan cfg ms now -> records ms !! o = Some m ->
     (forall f, evict_score_floor cfg = Some f -> f64_ltb (evict_score cfg ms now o m) f = false) ->
     records ms !! o' = Some m' -> in_grace cfg now m' = false -> o' ∉ (evict_plan cfg ms now).*1 ->
     forget_le (o, id m, evict_score cfg ms now o m) (o', id m', evict_score cfg ms now o' m')) /\
  (len (evict_plan cfg ms now) <= len (below_floor cfg (scored cfg ms now)) \/
   exists cap, max_records cfg = Some cap /\ cap + len (evict_plan cfg ms now) <= record_count ms).
Proof.
  assert (Hsc : forall o m, records ms !! o = Some m -> in_grace cfg now m = false ->
    (o, id m, evict_score cfg ms now o m) ∈ scored cfg ms now)
    by (intros o m Hm Hg; apply elem_of_scored; simpl; eauto).
  assert (Hlen : len (evict_plan cfg ms now) = len (below_floor cfg (scored cfg ms now)) +
    N.of_nat (Nat.min (capped ms now) (length (survivors ms now)))).
  { rewrite evict_plan_parts. unfold len. rewrite length_app, length_map, length_take. lia. }
  assert (Hcap : forall cap, max_records cfg = Some cap ->
    capped ms now = N.to_nat (record_count ms - len (below_floor cfg (scored cfg ms now)) - cap)).
  { intros cap Hc. unfold capped, over_cap. by rewrite Hc. }
  split_and!.
  - apply evict_plan_nodup.
  - intros o i Hin. apply evict_plan_in in Hin as [s Hs]. apply elem_of_scored in Hs as (m & Hm & Hg & [= -> _]).
    simpl in *. eauto.
  - intros o m f Hm Hg Hf Hlt. rewrite evict_plan_parts, elem_of_app, elem_of_below. left. eauto 6.
  - intros cap Hc. specialize (Hcap cap Hc). destruct (decide (capped ms now <= length (survivors ms now))%nat).
    + left. lia.
    + right. intros o m Hm Hg. rewrite evict_plan_parts, fmap_app, elem_of_app.
      destruct (decide (o ∈ (below_floor cfg (scored cfg ms now)).*1)); [by left|right].
      rewrite take_ge by lia. apply list_elem_of_fmap. exists (o, id m). split; [done|].
      apply list_elem_of_fmap. exists (o, id m, evict_score cfg ms now o m). split; [done|].
      apply elem_of_survivors. eauto.
  - intros o i m o' m' Hin Hm Hnf Hm' Hg' Hno. rewrite evict_plan_parts in Hin, Hno.
    apply elem_of_app in Hin as [Hin|Hin].
    { apply elem_of_below in Hin as (s & f & Hf & Hs & Hlt). apply elem_of_scored in Hs as (m1 & Hm1 & _ & [= -> ->]).
      simpl in *. assert (m1 = m) as -> by congruence. by rewrite (Hnf f Hf) in Hlt. }
    apply list_elem_of_fmap in Hin as ([[o1 i1] s] & [= <- <-] & Hin).
    pose proof (elem_of_take_of _ _ _ Hin) as Hsv. apply elem_of_survivors in Hsv as [_ Hsv].
    apply elem_of_scored in Hsv as (m1 & Hm1 & _ & [= -> ->]). simpl in *. assert (m1 = m) as -> by congruence.
    rewrite fmap_app, not_elem_of_app in Hno. destruct Hno as [Hno1 Hno2].
    apply (sorted_take_drop forget_le (capped ms now) (survivors ms now)); [apply sort_by_sorted; apply _|done|].
    assert (Hall : (o', id m', evict_score cfg ms now o' m') ∈ survivors ms now) by (apply elem_of_survivors; auto).
    rewrite <- (take_drop (capped ms now) (survivors ms now)) in Hall. apply elem_of_app in Hall as [Hall|Hall]; [|done].
    destruct Hno2. apply list_elem_of_fmap. eexists. split; [|apply list_elem_of_fmap; eexists; split; [reflexivity|exact Hall]]. done.
  - destruct (max_records cfg) as [cap|] eqn:Hc.
    + specialize (Hcap cap eq_refl). destruct (decide (capped ms now = O)) as [E|E].
      * left. rewrite Hlen, E. simpl. lia.
      * right. exists cap. split; [done|]. lia.
    + left. rewrite Hlen. unfold capped, over_cap. rewrite Hc. simpl. lia.
Qed.

(** ** The store after an eviction *)

Lemma drain_same e :
  ms_wf (meta e) -> live (meta (drain e).1) = live (meta e) /\ ms_wf (meta (drain e).1).
Proof.
  intros Hwf. unfold drain, st_modify. pose proof (drain_fields (access_counters e) (meta e) Hwf) as (H1 & _ & _ & _ & H5).
  by destruct (drain_into _ _).
Qed.
Lemma eng_wf e S : eng_rep en e S -> ms_wf (meta e).
Proof. intros ((ops & m0 & hc & [[Hms _ _ _ _ _ _ _ _ _ _ _ _] _ _ _ _]) & _). done. Qed.
Lemma drain_rep e S : eng_rep en e S -> eng_rep en (drain e).1 S.
Proof.
  intros He. pose proof (eng_wf _ _ He) as Hwf.
  pose proof (drain_fields (access_counters e) (meta e) Hwf) as (H1 & H2 & H3 & H4 & H5).
  eapply phase_rep; [exact He|]. unfold drain, st_modify. destruct (drain_into _ _) as [a m]. simpl in *.
  apply (phase_start en e S); done.
Qed.

(** Deleting a live record at its offset. *)
Lemma delete_at_rep e S i o d io e' b :
  eng_rep en e S -> live (meta e) !! o = Some d -> id_of_dur d = i ->
  delete_by_id_at i o io e = (e', Ok b) ->
  b = true /\ eng_rep en e' (delete i S) /\ live (meta e') = delete o (live (meta e)).
Proof.
  intros He Hl Hi Hrun. destruct (delete_outcome en e S i _ io e' (Ok b) He Hrun) as [Hoc _].
  pose proof He as ((ops & m0 & hc & [_ _ _ _ Hid]) & _ & _).
  unfold delete_by_id_at, delete_where in Hrun. rewrite (proj2 (Hid i o)) in Hrun by eauto.
  rewrite N.eqb_refl in Hrun. unfold st_bind at 1 in Hrun. destruct (log _ io e) as [e1 r1] eqn:Hlog.
  apply log_state in Hlog as (w' & _ & _ & -> & _). destruct r1 as [[]|]; [|done].
  unfold st_bind in Hrun. destruct (remove_from_indexes i o _) as [e2 r2] eqn:Hrm. destruct r2 as [[]|]; [|done].
  assert (b = true) as -> by (by injection Hrun). assert (e2 = e') as -> by (by injection Hrun).
  split; [done|]. split; [by apply (oc_ok _ _ _ _ _ _ _ Hoc)|].
  apply remove_from_indexes_fields in Hrm as (_ & _ & _ & Hok & _). destruct (Hok eq_refl) as [-> _].
  by rewrite live_remove.
Qed.

Definition without (S : gmap string (Dur * list f32)) (victims : list (N * string)) : gmap string (Dur * list f32) :=
  foldl (fun S v => delete v.2 S) S victims.
Lemma delete_all_rep victims io n e S e' k :
  eng_rep en e S -> NoDup victims.*1 ->
  (forall o i, (o, i) ∈ victims -> exists d, live (meta e) !! o = Some d /\ id_of_dur d = i) ->
  delete_all victims io n e = (e', Ok k) ->
  k = n + len victims /\ eng_rep en e' (without S victims).
Proof.
  revert n e S. induction victims as [|[o i] victims IH]; intros n e S He Hnd Hv Hrun.
  { injection Hrun as <- <-. split; [unfold len; simpl; lia|done]. }
  apply NoDup_cons in Hnd as [Ho Hnd]. destruct (Hv o i) as (d & Hd & Hi); [set_solver|].
  cbn [delete_all] in Hrun. unfold st_bind in Hrun.
  destruct (delete_by_id_at i o (io o) e) as [e1 [b|]] eqn:H1; [|done].
  destruct (delete_at_rep e S i o d (io o) e1 b He Hd Hi H1) as (-> & He1 & El).
  destruct (IH (n + 1) e1 (delete i S) He1 Hnd) with (2 := Hrun) as [-> Hr].
  - intros o' i' Hin. destruct (Hv o' i') as (d' & Hd' & Hi'); [set_solver|]. exists d'. split; [|done].
    rewrite El, lookup_delete_ne; [done|]. intros <-. apply Ho. apply list_elem_of_fmap. by exists (o, i').
  - split; [rewrite len_cons; lia|done].
Qed.

Lemma plan_live ms now o i :
  (o, i) ∈ evict_plan cfg ms now -> exists d, live ms !! o = Some d /\ id_of_dur d = i.
Proof.
  intros Hin. apply evict_plan_in in Hin as [x Hs]. apply elem_of_scored in Hs as (m & Hm & _ & [= -> _]).
  simpl in Hm. exists (durable m). split; [by rewrite live_lookup, Hm|apply id_of_dur_meta].
Qed.

(** *** Gists *)

(** Every gist finds room, and one that is not stored failed before it reached the log. *)
Fixpoint clean_gists (compress : GistCompressor) (now : N) (io : N -> WriteIo) (e : Engine) (g : N) (l : list Chunk) : Prop :=
  match l with
  | [] => True
  | ch :: l =>
      match compress (facts ch) with
      | Ok (Some (gist, v)) =>
          if bool_decide (trim gist = ""%string) then True
          else
            let '(e1, r) := insert_with_payload_role en (gist_input ch.1 now (g + 1) gist v (len ch.2)) now (io (g + 1)) e in
            room e 1 /\ (is_ok r = true \/ (wal e1 = wal e /\ mapped (vectors e1) = true))
      | _ => True
      end /\
      let '(e1, g1, _) := gist_step en compress now io (e, g, []) ch in clean_gists compress now io e1 g1 l
  end.
Definition gists_clean (compressor : option GistCompressor) (now : N) (io : N -> WriteIo) (e : Engine) (g : N)
    (l : list Chunk) : Prop :=
  match compressor with
  | Some compress => if gist_before_evict cfg then clean_gists compress now io e g l else True
  | None => True
  end.

(** The case that every gist is stored. *)
Fixpoint all_stored (compress : GistCompressor) (now : N) (io : N -> WriteIo) (e : Engine) (g : N) (l : list Chunk) : bool :=
  match l with
  | [] => true
  | ch :: l =>
      match compress (facts ch) with
      | Ok (Some (gist, v)) =>
          bool_decide (trim gist = ""%string) ||
          ((next_offset (meta e) + 1 <? u64_max) && (next_seq (meta e) + 1 <? u64_max) &&
           is_ok (insert_with_payload_role en (gist_input ch.1 now (g + 1) gist v (len ch.2)) now (io (g + 1)) e).2)
      | _ => true
      end &&
      let '(e1, g1, _) := gist_step en compress now io (e, g, []) ch in all_stored compress now io e1 g1 l
  end.
Lemma all_stored_clean compress now io l : forall e g,
  all_stored compress now io e g l = true -> clean_gists compress now io e g l.
Proof.
  induction l as [|ch l IH]; intros e g; [done|]. cbn [all_stored clean_gists]. intros [Hc Hl]%andb_prop.
  split; [|destruct (gist_step _ _ _ _ _ _) as [[e1 g1] ?]; by apply IH].
  destruct (compress (facts ch)) as [[[gist v]|]|]; [|done..]. destruct (bool_decide _); [done|]. cbn [orb] in Hc.
  destruct (insert_with_payload_role _ _ _ _ _) as [e1 r]. apply andb_prop in Hc as [[H1 H2]%andb_prop H3].
  apply N.ltb_lt in H1, H2. split; [by split|by left].
Qed.

(** What the gists of the chunks do, from their counter [g], the next sequence number and
    the store, to the counter, the store and the offsets to spare. *)
Inductive gisted (compress : GistCompressor) (now : N) : N -> N -> Store -> list Chunk -> N -> Store -> list N -> Prop :=
  | gisted_none q g S : gisted compress now q g S [] g S []
  | gisted_failed q g S ch l g' S' spared er :
      compress (facts ch) = Err er -> gisted compress now q g S l g' S' spared ->
      gisted compress now q g S (ch :: l) g' S' (offsets ch ++ spared)
  | gisted_nothing q g S ch l g' S' spared :
      compress (facts ch) = Ok None \/
        (exists gist v, compress (facts ch) = Ok (Some (gist, v)) /\ trim gist = ""%string) ->
      gisted compress now q g S l g' S' spared -> gisted compress now q g S (ch :: l) g' S' spared
  | gisted_stored q q1 g S ch l g' S' spared gist v voc :
      compress (facts ch) = Ok (Some (gist, v)) -> trim gist <> ""%string ->
      let input := gist_input ch.1 now (g + 1) gist v (len ch.2) in
      S !! i_id input = None -> q <= q1 ->
      gisted compress now (q1 + 1) (g + 1) (<[i_id input := spec_record voc now q1 input]> S) l g' S' spared ->
      gisted compress now q g S (ch :: l) g' S' spared
  | gisted_unstored q g S ch l g' S' spared gist v :
      compress (facts ch) = Ok (Some (gist, v)) -> trim gist <> ""%string ->
      gisted compress now q (g + 1) S l g' S' spared ->
      gisted compress now q g S (ch :: l) g' S' (offsets ch ++ spared).
Definition gists_stored (compressor : option GistCompressor) (now q g : N) (S : Store) (l : list Chunk)
    (g' : N) (S' : Store) (spared : list N) : Prop :=
  match compressor with
  | Some compress =>
      if gist_before_evict cfg then gisted compress now q g S l g' S' spared else g' = g /\ S' = S /\ spared = []
  | None => g' = g /\ S' = S /\ spared = []
  end.

Lemma gisted_seq compress now q q0 g S l g' S' spared :
  q0 <= q -> gisted compress now q g S l g' S' spared -> gisted compress now q0 g S l g' S' spared.
Proof.
  intros Hle Hg. revert q0 Hle.
  induction Hg as [|? ? ? ? ? ? ? ? ? ? _ IH|? ? ? ? ? ? ? ? ? _ IH|? q1 ? ? ? ? ? ? ? ? ? ? ? ? ? ? Hq _ IH|? ? ? ? ? ? ? ? ? ? ? ? _ IH]; intros q0 Hle.
  - constructor.
  - eapply gisted_failed; eauto.
  - eapply gisted_nothing; eauto.
  - eapply (gisted_stored _ _ _ q1); eauto; lia. 
  - eapply gisted_unstored; eauto.
Qed.

(** An insert leaves the stored records where they are, and uses one sequence number. *)
Lemma insert_kept e S input now io e' r :
  eng_rep en e S -> room e 1 -> insert_with_payload_role en input now io e = (e', r) ->
  (forall o d, live (meta e) !! o = Some d -> live (meta e') !! o = Some d) /\
  next_seq (meta e) <= next_seq (meta e') /\ (is_ok r = true -> next_seq (meta e') = next_seq (meta e) + 1).
Proof.
  intros ((ops & m0 & hc & [Hco _ _ _ _]) & _ & _) [Ro Rq] Hrun.
  destruct (prepare e input (vocab (graph e))) as [p|er] eqn:Hp.
  2: { unfold insert_with_payload_role in Hrun. rewrite Hp in Hrun. by injection Hrun as <- <-. }
  destruct (id_index e !! i_id input) as [o|] eqn:Hi.
  { unfold insert_with_payload_role in Hrun. rewrite Hp, Hi in Hrun. by injection Hrun as <- <-. }
  rewrite (insert_commit en _ _ _ _ p Hp Hi) in Hrun.
  destruct (commit_batch en [p] now io e) as [e1 r1] eqn:Hc. cbn [fst snd] in Hrun. injection Hrun as <- <-.
  unfold commit_batch in Hc. unfold st_bind at 1 in Hc.
  rewrite alloc_records_ok in Hc by (change (len [p]) with 1; unfold u64_max in *; lia).
  set (m1 := set_counters _ _ (meta e)) in Hc. cbn [numbered] in Hc. set (rec := into_record p _ now) in *.
  assert (Hm1 : next_seq m1 = next_seq (meta e) + 1) by done.
  assert (Eok : is_ok ((fun _ => true) <$> r1) = is_ok r1) by (by destruct r1). rewrite Eok. clear Eok.
  cut (meta e1 = m1 /\ is_ok r1 = false \/ meta e1 = put_batch m1 [(next_offset (meta e), rec)]).
  { destruct (put_batch_fields m1 [(next_offset (meta e), rec)]) as (Hl & _ & _ & Hq).
    intros [[-> ->]| ->]; [split_and!; [done|lia|done]|]. rewrite Hq. split_and!; [|lia|lia].
    intros o d Ho. rewrite Hl. cbn [foldl fst snd]. assert (o < next_offset (meta e)) by (eapply co_cur; eauto).
    rewrite lookup_insert_ne by lia. done. }
  unfold st_bind at 1 in Hc. destruct (st_iter _ _ _) as [e2 r2] eqn:Hput.
  assert (E2 : meta e2 = m1).
  { revert Hput. cbn [st_iter]. unfold st_bind, st_ret, vectors_put, on.
    destruct (VectorStore.put _ _ _ _ _) as [vs [[]|er]]; intros [= <- _]; done. }
  destruct r2 as [[]|er]; [|injection Hc as <- <-; by left]. unfold st_bind at 1 in Hc.
  pose proof (sync_state (default 0 (head [(next_offset (meta e), rec)].*1)) (default 0 (last [(next_offset (meta e), rec)].*1)) io e2) as Hs.
  destruct (sync_vectors_if_configured _ _ io e2) as [e3 [[]|er]]; cbn [fst] in Hs; subst e3; [|injection Hc as <- <-; by left].
  unfold st_bind at 1 in Hc. destruct (log _ io e2) as [e4 r4] eqn:Hlog.
  apply log_state in Hlog as (w' & _ & _ & -> & _). destruct r4 as [[]|er]; [|injection Hc as <- <-; by left].
  unfold st_bind in Hc. destruct (submit_and_wait _ io _) as [e5 r5] eqn:Hsub.
  apply submit_fields in Hsub as (Fm & _ & _ & _ & _). cbn [set_wal meta] in Fm. rewrite E2 in Fm.
  destruct r5 as [[]|er]; injection Hc as <- <-; destruct Fm as [-> | [-> Hn]]; auto. by destruct Hn.
Qed.

Lemma gist_step_spared compress now io e g sp ch :
  gist_step en compress now io (e, g, sp) ch =
  let '(e1, g1, sp1) := gist_step en compress now io (e, g, []) ch in (e1, g1, sp ++ sp1).
Proof.
  unfold gist_step. destruct (compress _) as [[[gist v]|]|er]; rewrite ?app_nil_r; try done.
  destruct (bool_decide _); [by rewrite app_nil_r|]. destruct (insert_with_payload_role _ _ _ _ _) as [e1 [b|er]]; by rewrite ?app_nil_r.
Qed.
Lemma gist_fold_rep compress now io l : forall e g sp S e' g' sp',
  eng_rep en e S -> clean_gists compress now io e g l ->
  foldl (gist_step en compress now io) (e, g, sp) l = (e', g', sp') ->
  exists S1 sp1, sp' = sp ++ sp1 /\ gisted compress now (next_seq (meta e)) g S l g' S1 sp1 /\ eng_rep en e' S1 /\
    forall o d, live (meta e) !! o = Some d -> live (meta e') !! o = Some d.
Proof.
  induction l as [|ch l IH]; intros e g sp S e' g' sp' He Hcl; cbn [foldl].
  { intros [= <- <- <-]. exists S, []. rewrite app_nil_r. split_and!; try done. constructor. }
  rewrite gist_step_spared. cbn [clean_gists] in Hcl. destruct Hcl as [Hc Hcl]. unfold gist_step in Hcl |- *.
  fold (facts ch) (offsets ch) in *. destruct (compress (facts ch)) as [[[gist v]|]|er] eqn:Ec.
  - destruct (bool_decide_reflect (trim gist = ""%string)) as [Hb|Hb].
    { intros Hf. rewrite app_nil_r in Hf. destruct (IH _ _ _ _ _ _ _ He Hcl Hf) as (S1 & sp1 & H1 & H2 & H3).
      exists S1, sp1. split_and!; try done; [|apply H3..]. eapply gisted_nothing; [|exact H2]. right. eauto. }
    set (input := gist_input ch.1 now (g + 1) gist v (len ch.2)) in *.
    destruct (insert_with_payload_role en input now (io (g + 1)) e) as [e1 r] eqn:Hi. destruct Hc as [Hr Hc].
    destruct (insert_kept e S input now _ e1 r He Hr Hi) as (Hl & Hq & Hq1).
    destruct r as [b|er]; rewrite ?app_nil_r; cbn [app]; intros Hf.
    + destruct (insert_outcome en e S input now _ e1 (Ok b) He Hr Hi) as [(_ & (er & [=]) & _)|(p & Hp & HS & Hout & _)].
      destruct (prepare_record _ _ _ _ now (next_seq (meta e)) Hp) as [_ Er]. cbv zeta in Hout. rewrite Er in Hout.
      destruct (IH _ _ _ _ _ _ _ (oc_ok _ _ _ _ _ _ _ Hout eq_refl) Hcl Hf) as (S1 & sp1 & H1 & H2 & H3 & H4).
      exists S1, sp1. split_and!; try done; [|by eauto]. rewrite (Hq1 eq_refl) in H2. by eapply (gisted_stored _ _ _ (next_seq (meta e))); eauto.
    + destruct Hc as [|[Hw Hm]]; [done|]. assert (He1 : eng_rep en e1 S).
      { destruct (insert_outcome en e S input now _ e1 (Err er) He Hr Hi) as [(-> & _)|(p & _ & _ & Hout & _)]; [done|].
        by apply (oc_err _ _ _ _ _ _ _ Hout). }
      destruct (IH _ _ _ _ _ _ _ He1 Hcl Hf) as (S1 & sp1 & -> & H2 & H3 & H4). rewrite <- app_assoc.
      exists S1, (offsets ch ++ sp1). split_and!; try done; [|by eauto].
      eapply gisted_unstored; eauto. by eapply gisted_seq.
  - rewrite app_nil_r. intros Hf. destruct (IH _ _ _ _ _ _ _ He Hcl Hf) as (S1 & sp1 & H1 & H2 & H3).
    exists S1, sp1. split_and!; try done; [|apply H3..]. eapply gisted_nothing; [|exact H2]. by left.
  - cbn [app]. intros Hf. destruct (IH _ _ _ _ _ _ _ He Hcl Hf) as (S1 & sp1 & -> & H2 & H3). rewrite <- app_assoc.
    exists S1, (offsets ch ++ sp1). split_and!; try done; [|apply H3..]. by eapply gisted_failed.
Qed.

(** The gists of an eviction. *)
Lemma gist_stage_rep compressor now io e S gist_seq (plan : list (N * string)) :
  let chunks := gist_chunks cfg (meta e) plan.*1 in
  eng_rep en e S -> gists_clean compressor now io e gist_seq chunks ->
  exists e2 g S1 sp,
    match compressor with
    | Some compress =>
        if gist_before_evict cfg && negb (bool_decide (plan = []))
        then gist_victims en cfg compress now io plan.*1 e gist_seq else (e, gist_seq, [])
    | None => (e, gist_seq, [])
    end = (e2, g, sp) /\
    gists_stored compressor now (next_seq (meta e)) gist_seq S chunks g S1 sp /\ eng_rep en e2 S1 /\
    forall o d, live (meta e) !! o = Some d -> live (meta e2) !! o = Some d.
Proof.
  intros chunks He Hcl. unfold gists_stored, gists_clean in *.
  destruct compressor as [compress|]; [|by eauto 12].
  destruct (gist_before_evict cfg); cbn [andb]; [|by eauto 12].
  destruct (bool_decide_reflect (plan = [])) as [Hp|Hp]; cbn [negb].
  { exists e, gist_seq, S, []. split_and!; try done. unfold chunks. rewrite Hp. cbn [fmap list_fmap].
    replace (gist_chunks cfg (meta e) []) with (@nil Chunk); [constructor|].
    unfold gist_chunks, victim_entries. by rewrite filter_none by (intros x _ Hx; set_solver). }
  unfold gist_victims. fold chunks. destruct (foldl _ _ chunks) as [[e2 g2] sp] eqn:Hf.
  destruct (gist_fold_rep compress now io chunks _ _ _ _ _ _ _ He Hcl Hf) as (S1 & sp1 & -> & H1 & H2 & H3).
  exists e2, g2, S1, sp1. by split_and!.
Qed.
(** An eviction from any state that holds a store. *)
Lemma evict_rep compressor e S gist_seq now gio dio e' g n :
  eng_rep en e S -> max_records cfg <> None \/ evict_score_floor cfg <> None ->
  let plan := evict_plan cfg (meta (drain e).1) now in
  let chunks := gist_chunks cfg (meta (drain e).1) plan.*1 in
  gists_clean compressor now gio (drain e).1 gist_seq chunks ->
  evict en cfg compressor gist_seq now gio dio e = (e', g, Ok n) ->
  exists S1 spared,
    gists_stored compressor now (next_seq (meta (drain e).1)) gist_seq S chunks g S1 spared /\
    let victims := filter (fun v : N * string => v.1 ∉ spared) plan in
    n = len victims /\ eng_rep en e' (without S1 victims).
Proof.
  intros He Hon plan chunks Hcl Hrun. unfold evict in Hrun.
  assert (Hb : bool_decide (max_records cfg = None) && bool_decide (evict_score_floor cfg = None) = false).
  { apply andb_false_iff. destruct Hon; [left|right]; by apply bool_decide_eq_false. }
  rewrite Hb in Hrun. clear Hb. fold plan in Hrun. apply drain_rep in He.
  destruct (gist_stage_rep compressor now gio (drain e).1 S gist_seq plan He Hcl) as (e2 & g2 & S1 & sp & E & H1 & H2 & H3).
  rewrite E in Hrun. cbv zeta in Hrun |- *. set (victims := filter _ plan) in *.
  destruct (delete_all victims dio 0 e2) as [e3 r3] eqn:Hd. injection Hrun as <- <- ->.
  exists S1, sp. split; [done|].
  assert (Hnd : NoDup victims.*1) by (apply nodup_map_filter, evict_plan_nodup).
  destruct (delete_all_rep victims dio 0 e2 S1 e3 n H2 Hnd) with (2 := Hd) as [-> Hr]; [|split; [apply N.add_0_l|exact Hr]].
  intros o i [_ Hin]%list_elem_of_filter. destruct (plan_live (meta (drain e).1) now o i Hin) as (d & Hd1 & Hi). eauto.
Qed.

Lemma gist_chunks_cover ms victims o :
  o ∈ victims -> is_Some (records ms !! o) ->
  exists ch, ch ∈ gist_chunks cfg ms victims /\ o ∈ map (fun x : N * N * string => x.1.2) ch.2.
Proof.
  intros Hv [m Hm]. unfold gist_chunks. set (l := victim_entries ms victims).
  assert (Hl : (o, m) ∈ l) by (apply list_elem_of_filter; split; [done|by apply elem_of_iter_records]).
  assert (Hsc : scope m ∈ victim_scopes l).
  { unfold victim_scopes. rewrite sort_by_perm, elem_of_remove_dups. apply list_elem_of_fmap. by exists (o, m). }
  assert (Hx : (insert_seq m, o, text m) ∈ entries_of l (scope m)).
  { unfold entries_of. rewrite sort_by_perm. apply list_elem_of_fmap. exists (o, m). split; [done|].
    by apply list_elem_of_filter. }
  rewrite <- (concat_chunks (N.to_nat (N.max (gist_chunk_facts cfg) 1))) in Hx by lia.
  apply list_elem_of_In, in_concat in Hx as (c & Hc & Hx).
  exists (scope m, c). split.
  - apply list_elem_of_In, in_concat. eexists. split; [|apply in_map_iff; eexists; split; [reflexivity|exact Hc]].
    apply in_map_iff. exists (scope m). split; [done|by apply list_elem_of_In].
  - simpl. apply list_elem_of_In, in_map_iff. by exists (insert_seq m, o, text m).
Qed.

(** *** Gists that fail *)

Lemma gist_all_fail compress now io l e g spared :
  (forall t, exists er, compress t = Err er) ->
  foldl (gist_step en compress now io) (e, g, spared) l =
    (e, g, spared ++ concat (map (fun ch : option string * list (N * N * string) => map (fun x => x.1.2) ch.2) l)).
Proof.
  intros Hf. revert spared. induction l as [|ch l IH]; intros spared; simpl; [by rewrite app_nil_r|].
  destruct (Hf (map snd ch.2)) as [er ->]. rewrite IH. by rewrite <- app_assoc.
Qed.

(** "Compress instead of delete" never becomes "delete": when the compressor fails on
    every call, nothing is evicted, whatever the floor and the cap say. *)
Theorem gist_failure_spares compress gist_seq now gio dio e :
  gist_before_evict cfg = true -> max_records cfg <> None \/ evict_score_floor cfg <> None ->
  (forall t, exists er, compress t = Err er) ->
  evict en cfg (Some compress) gist_seq now gio dio e = ((drain e).1, gist_seq, Ok 0).
Proof.
  intros Hg Hon Hf. unfold evict.
  assert (Hb : bool_decide (max_records cfg = None) && bool_decide (evict_score_floor cfg = None) = false).
  { apply andb_false_iff. destruct Hon; [left|right]; by apply bool_decide_eq_false. }
  rewrite Hb, Hg. set (e1 := (drain e).1). set (victims := evict_plan cfg (meta e1) now). simpl.
  destruct (bool_decide_reflect (victims = [])) as [->|Hne]; [done|]. simpl. unfold gist_victims.
  rewrite gist_all_fail by done. simpl.
  rewrite filter_none; [done|]. intros [o i] Hv Hno. apply Hno.
  destruct (gist_chunks_cover (meta e1) victims.*1 o) as (ch & Hch & Ho).
  - apply list_elem_of_fmap. by exists (o, i).
  - destruct (plan_live (meta e1) now o i Hv) as (d & Hd & _). rewrite <- live_is_Some. eauto.
  - apply list_elem_of_In, in_concat. eexists. split; [|by apply list_elem_of_In].
    apply in_map_iff. exists ch. split; [done|by apply list_elem_of_In].
Qed.

(** ** Near-duplicates *)

Lemma keeps_total a b : keeps a b = false -> keeps b a = true.
Proof.
  unfold keeps, then_cmp, total_cmp.
  repeat match goal with |- context [(?x ?= ?y)%Z] => destruct (Z.compare_spec x y) end; try done; try lia;
  repeat match goal with |- context [?x ?= ?y] => destruct (N.compare_spec x y) end; try done; lia.
Qed.

Definition victim_offsets (l : list Merge) : list N := map (fun m => c_offset (m_victim m)) l.
(** Both vectors exist and are close. *)
Definition close (view : View) (threshold : f32) (a b : Cand) : Prop :=
  exists va vb, view (c_offset a) = Some va /\ view (c_offset b) = Some vb /\
    (f32_ltb (cosine_similarity va vb) threshold = false \/ f32_ltb (cosine_similarity vb va) threshold = false).
Record merge_ok (view : View) (threshold : f32) (cands : list Cand) (m : Merge) : Prop := {
  mo_survivor : m_survivor m ∈ cands;
  mo_victim : m_victim m ∈ cands;
  mo_ids : c_id (m_survivor m) <> c_id (m_victim m);
  mo_scope : c_scope (m_survivor m) = c_scope (m_victim m);
  mo_keeps : keeps (m_survivor m) (m_victim m) = true;
  mo_close : close view threshold (m_survivor m) (m_victim m);
}.
Record plan_ok (view : View) (threshold : f32) (cands : list Cand) (max_pairs : N) (st : DedupState) : Prop := {
  pl_offsets : forall o, o ∈ merged_offsets st <-> o ∈ victim_offsets (merges st);
  pl_nodup : NoDup (victim_offsets (merges st));
  pl_merges : Forall (merge_ok view threshold cands) (merges st);
  (** no merge keeps a record that an earlier one removes *)
  pl_alive : forall i m, merges st !! i = Some m -> c_offset (m_survivor m) ∉ victim_offsets (take i (merges st));
  pl_len : len (merges st) <= max_pairs;
}.

Lemma plan_push view threshold cands max_pairs st m :
  plan_ok view threshold cands max_pairs st -> merge_ok view threshold cands m -> len (merges st) < max_pairs ->
  c_offset (m_survivor m) ∉ merged_offsets st -> c_offset (m_victim m) ∉ merged_offsets st ->
  plan_ok view threshold cands max_pairs
    {| merged_offsets := {[c_offset (m_victim m)]} ∪ merged_offsets st; merges := merges st ++ [m] |}.
Proof.
  intros [H1 H2 H3 H4 H5] Hm Hl Hs Hv. rewrite H1 in Hs, Hv.
  assert (Ev : victim_offsets (merges st ++ [m]) = victim_offsets (merges st) ++ [c_offset (m_victim m)])
    by (unfold victim_offsets; by rewrite map_app).
  split; cbn [merged_offsets merges].
  - intros o. rewrite Ev, elem_of_union, elem_of_singleton, H1, elem_of_app, list_elem_of_singleton. tauto.
  - rewrite Ev. apply NoDup_app. split_and!; [done| |apply NoDup_singleton].
    by intros o Ho ->%list_elem_of_singleton.
  - apply Forall_app. split; [done|]. by apply Forall_singleton.
  - intros i x [Hx|[Hi Hx]]%lookup_app_Some.
    + rewrite take_app_le by (apply lookup_lt_Some in Hx; lia). by eapply H4.
    + destruct (i - length (merges st))%nat eqn:E; [|done]. simpl in Hx. injection Hx as <-.
      rewrite take_app_ge by lia. rewrite E. simpl. by rewrite app_nil_r.
  - rewrite len_app. unfold len at 2. simpl. lia.
Qed.

Lemma dedup_neighbors_ok view threshold cands max_pairs cand emb nb st st' stop :
  cand ∈ cands -> view (c_offset cand) = Some emb -> c_offset cand ∉ merged_offsets st ->
  plan_ok view threshold cands max_pairs st -> len (merges st) < max_pairs ->
  dedup_neighbors view threshold max_pairs cands cand emb nb st = (st', stop) ->
  plan_ok view threshold cands max_pairs st' /\ (stop = false -> len (merges st') < max_pairs).
Proof.
  intros Hc Hv. revert st. induction nb as [|[nid x] nb IH]; intros st Hno Hp Hl; cbn [dedup_neighbors].
  { intros [= <- <-]. done. }
  destruct (bool_decide_reflect (nid = c_id cand)) as [|Hne]; [by apply IH|].
  destruct (List.find _ cands) as [other|] eqn:Hf; [|by apply IH].
  apply find_some in Hf as [Ho Hid]. apply bool_decide_eq_true in Hid. apply list_elem_of_In in Ho.
  destruct (bool_decide_reflect (c_scope other = c_scope cand)) as [Hsc|]; [|by apply IH]. cbn [negb].
  destruct (bool_decide_reflect (c_offset other ∈ merged_offsets st)) as [|Hom]; [by apply IH|].
  destruct (view (c_offset other)) as [ov|] eqn:Hov; [|by apply IH].
  destruct (f32_ltb (cosine_similarity emb ov) threshold) eqn:Hsim; [by apply IH|].
  set (m := if keeps cand other then {| m_survivor := cand; m_victim := other |}
            else {| m_survivor := other; m_victim := cand |}).
  assert (Hm : merge_ok view threshold cands m /\ (c_offset (m_survivor m) ∉ merged_offsets st) /\
               (c_offset (m_victim m) ∉ merged_offsets st)).
  { unfold m. destruct (keeps cand other) eqn:Hk; simpl; (split; [|done]);
      split; simpl; try done; try congruence; try (by apply keeps_total);
      [exists emb, ov|exists ov, emb]; auto. }
  destruct Hm as (Hm & Hs1 & Hs2).
  pose proof (plan_push _ _ _ _ _ _ Hp Hm Hl Hs1 Hs2) as Hp'.
  set (st1 := {| merged_offsets := _; merges := _ |}) in *.
  destruct (N.leb_spec max_pairs (len (merges st1))) as [Hfull|Hroom]; [intros [= <- <-]; done|].
  destruct (N.eqb_spec (c_offset (m_victim m)) (c_offset cand)) as [E|E]; [intros [= <- <-]; done|].
  apply IH; [|done|done]. unfold st1. cbn [merged_offsets]. set_solver.
Qed.

Lemma dedup_loop_ok threshold max_pairs now cands todo st e e' st' :
  Forall native_ok (sn_segments snapshot) -> (forall c, c ∈ todo -> c ∈ cands) ->
  plan_ok (view_of en e) threshold cands max_pairs st -> len (merges st) < max_pairs ->
  dedup_loop en scfg snapshot threshold max_pairs now cands todo st e = Some (e', Ok st') ->
  plan_ok (view_of en e) threshold cands max_pairs st' /\ reads_same e e'.
Proof.
  intros Hn. revert st e. induction todo as [|cand todo IH]; intros st e Hin Hp Hl; cbn [dedup_loop].
  { intros [= <- <-]. split; [done|apply reads_same_refl]. }
  assert (Hin' : forall c, c ∈ todo -> c ∈ cands) by (intros c ?; apply Hin; set_solver).
  destruct (bool_decide_reflect (c_offset cand ∈ merged_offsets st)) as [|Hno]; [by apply IH|].
  destruct (view_of en e (c_offset cand)) as [emb|] eqn:Hv; [|by apply IH].
  destruct (search_ann_scoped _ _ _ _ _ _ _ _ e) as [[e1 [nb|er]]|] eqn:Hs; [|done|done].
  assert (Hsame : reads_same e e1) by (eapply search_ann_same; [exact Hn| |exact Hs]; done).
  assert (Ev : view_of en e1 = view_of en e) by (unfold view_of; by rewrite (rs_vectors _ _ Hsame)).
  rewrite Ev. destruct (dedup_neighbors _ _ _ _ _ _ _ _) as [st1 stop] eqn:Hd.
  apply dedup_neighbors_ok in Hd as [Hp1 Hl1]; [|apply Hin; set_solver|done|done|done|done].
  destruct stop; [intros [= <- <-]; done|]. intros Hrun. rewrite <- Ev in Hp1.
  apply IH in Hrun as [Hp2 Hs2]; [|done|done|by apply Hl1]. rewrite Ev in Hp2.
  split; [done|]. by eapply reads_same_trans.
Qed.

(** What a deduplication plans. At most the configured number of merges, each of two
    different live records of one scope whose vectors are at least as close as the
    threshold, keeping the one with the higher salience; no record is removed twice,
    and no merge keeps a record that an earlier merge removes. *)
Theorem dedup_plan_safe threshold max_pairs now e e' st :
  Forall native_ok (sn_segments snapshot) -> 0 < max_pairs ->
  let cands := dedup_cands cfg (meta e) now in
  dedup_loop en scfg snapshot threshold max_pairs now cands cands {| merged_offsets := ∅; merges := [] |} e
    = Some (e', Ok st) ->
  plan_ok (view_of en e) threshold cands max_pairs st.
Proof.
  intros Hn Hm cands Hrun. eapply dedup_loop_ok in Hrun as [Hp _]; [exact Hp|done|done| |done].
  split; cbn [merged_offsets merges]; [set_solver|constructor|constructor|done|unfold len; simpl; lia].
Qed.

(** ** Importance *)

(** In the configured range, or not a number. *)
Definition imp_in_range (x : f32) : bool :=
  is_nan x || (f32_geb x (importance_floor cfg) && f32_geb (imp_ceiling cfg) x).
Lemma clamp_range x lo hi : f32_geb hi lo = true -> is_nan (f32_clamp x lo hi) || (f32_geb (f32_clamp x lo hi) lo && f32_geb hi (f32_clamp x lo hi)) = true.
Proof.
  intros Hr. unfold f32_geb in Hr. rewrite !andb_true_iff, !negb_true_iff in Hr. destruct Hr as [[H0 H1] H2].
  unfold f32_clamp, f32_ltb, f32_gtb.
  destruct (is_nan x) eqn:Hx; [rewrite ?andb_false_r; simpl; by rewrite Hx|]. rewrite H0, H1. simpl.
  unfold f32_geb. destruct (real_key x <? real_key lo)%Z eqn:E1; [rewrite H0, H1; simpl; lia|].
  destruct (real_key hi <? real_key x)%Z eqn:E2; rewrite ?Hx, ?H0, ?H1; simpl; lia.
Qed.

Definition imp_inv (R : gmap N MetaRecord) (e : Engine) (m0 : MetadataStore) : Prop :=
  live (meta e) = live m0 /\ (ms_wf m0 -> ms_wf (meta e)) /\
  forall o m, records (meta e) !! o = Some m ->
    R !! o = Some m \/ imp_in_range (importance m) = true.
Lemma imp_fold_inv R now ms md l e n m0 e' n' :
  f32_geb (imp_ceiling cfg) (importance_floor cfg) = true -> imp_inv R e m0 ->
  foldl (imp_step cfg now ms md) (e, n) l = (e', n') -> imp_inv R e' m0.
Proof.
  intros Hc. revert e n. induction l as [|[o m] l IH]; intros e n Hi; cbn [foldl]; [by intros [= <- _]|].
  destruct (imp_step cfg now ms md (e, n) (o, m)) as [e1 n1] eqn:E. apply IH.
  unfold imp_step in E. destruct (f32_geb _ (f32_abs _)); [by injection E as <- _|].
  injection E as <- _. destruct (MetadataStore.get (meta e) o) as [rec|] eqn:Hg; [|exact Hi].
  destruct Hi as (H1 & Hw & H2). split; [|split].
  - simpl. change (live (put_meta (meta e) o (set_importance rec (new_importance cfg (importance m) (access_score m now (half_life cfg)) ms (len (concepts m)) md))) = live m0).
    rewrite live_put_meta, <- H1. apply insert_id. rewrite live_lookup.
    unfold MetadataStore.get in Hg. rewrite Hg. done.
  - intros Hm. simpl. by apply put_meta_wf, Hw.
  - intros o' m'. cbn [set_graph set_meta meta]. unfold put_meta. cbn [records set_records].
    destruct (decide (o = o')) as [<-|Hne].
    + rewrite lookup_insert_eq. intros [= <-]. right. simpl. by apply clamp_range.
    + rewrite lookup_insert_ne by done. apply H2.
Qed.

(** Learning importance keeps to its range and to itself. Whatever the access
    statistics, each record ends with the importance it had or one within the
    configured floor and ceiling (or a NaN), and nothing a caller stored changes. *)
Theorem importance_bounded e S now io e' n :
  history en e S -> recompute_importance cfg now io e = Some (e', Ok n) ->
  live (meta e') = live (meta e) /\
  forall o m, records (meta e') !! o = Some m ->
    records (meta (drain e).1) !! o = Some m \/ imp_in_range (importance m) = true \/
    importance_auto_scoring cfg = false.
Proof.
  intros Hh Hrun. unfold recompute_importance in Hrun.
  destruct (importance_auto_scoring cfg) eqn:Hon; cbn [negb] in Hrun; [|assert (e = e') as <- by congruence; by split; auto].
  destruct (drain_same e (eng_wf _ _ (history_rep en _ _ Hh))) as [Hl Hwf].
  set (e1 := (drain e).1) in *.
  destruct (iter_records (records (meta e1))) as [|x l] eqn:Hit; [assert (e1 = e') as <- by congruence; by split; auto|].
  destruct (f32_geb (imp_ceiling cfg) (importance_floor cfg)) eqn:Hc; cbn [negb] in Hrun; [|done].
  rewrite <- Hit in Hrun. clear Hit.
  destruct (foldl (imp_step _ _ _ _) (e1, 0) _) as [e2 changed] eqn:Hf.
  assert (Hi : imp_inv (records (meta e1)) e2 (meta e1)).
  { eapply imp_fold_inv; [exact Hc| |exact Hf]. split; [done|]. split; [done|]. auto. }
  destruct Hi as (El & _ & Hr). rewrite <- Hl.
  assert (Hsame : live (meta e') = live (meta e2) /\ records (meta e') = records (meta e2)).
  { destruct (0 <? changed); [|assert (e2 = e') as <- by congruence; done].
    unfold st_bind in Hrun. destruct (save_graph io e2) as [e3 [[]|]] eqn:Hsg; [|done].
    apply save_graph_fields in Hsg as (d & -> & _). by injection Hrun as <- _. }
  destruct Hsame as [E1 E2]. split; [congruence|]. intros o m. rewrite E2. intros Hm.
  destruct (Hr o m Hm); auto.
Qed.

End retention_theorems.

(** ** Concrete runs *)

Module RetentionWitness.
Import EngineTheorems.Examples SegmentSearchWitness TopOfWitness SearchWitness AsciiText.
#[export] Existing Instances ascii_unicode.

(** Every power is one and the logarithm the identity; records in key order. *)
#[export] Instance ex_libm : Libm := {| powf := fun _ _ => f64_one; ln32 := fun x => x; ln64 := fun x => x |}.
#[export] Instance ex_record_iter : RecordIter :=
  {| iter_records := map_to_list; iter_records_perm := fun m => Permutation_refl _ |}.
#[export] Instance ex_retention_graph : RetentionGraph :=
  {| add_concepts_to_memory := fun g _ _ _ => g; reweight_memory := fun g _ _ => g |}.
Definition ex_retention (cap : N) (threshold : f32) : RetentionConfig := {|
  max_records := Some cap; evict_score_floor := None; recency_half_life_secs := 80000;
  access_aware_eviction := true; use_actr := false; actr_decay := f64_half; gist_before_evict := true;
  gist_chunk_facts := 2; dedup_cosine_threshold := Some threshold; dedup_max_pairs_per_cycle := 4;
  importance_auto_scoring := true; importance_learning_rate := 0x3F000000;
  importance_access_weight := 0x3F000000; importance_floor := f32_zero; importance_ceiling := f32_one |}.

(** Record [a] was read, [c] never: with room for one record, [c] goes. *)
Definition ex_plan := evict_plan (ex_retention 1 f32_one) (meta (drain ex_e5).1) 200000.
Lemma evict_plan_spec_witness : ex_plan.*2 = ["c"%string] /\ NoDup ex_plan.*1.
Proof.
  split; [vm_compute; reflexivity|].
  exact (proj1 (evict_plan_spec (ex_retention 1 f32_one) (meta (drain ex_e5).1) 200000)).
Defined.
(** A compressor that makes one gist of every chunk. *)
Definition ex_compress : GistCompressor := fun _ => Ok (Some ("gist"%string, [0x3F800000; 0])).
Definition ex_evict := evict le (ex_retention 1 f32_one) (Some ex_compress) 0 200000 (fun _ => write_ok) (fun _ => write_ok) ex_e5.
Definition ex_chunks := gist_chunks (ex_retention 1 f32_one) (meta (drain ex_e5).1) ex_plan.*1.
Lemma ex_gists_clean : gists_clean le (ex_retention 1 f32_one) (Some ex_compress) 200000 (fun _ => write_ok) (drain ex_e5).1 0 ex_chunks.
Proof. unfold gists_clean. cbn [gist_before_evict ex_retention]. apply all_stored_clean. vm_compute. reflexivity. Qed.
Lemma gist_failure_spares_witness :
  evict le (ex_retention 1 f32_one) (Some (fun _ => Err "down"%string)) 0 200000 (fun _ => write_ok) (fun _ => write_ok)
    ex_e5 = ((drain ex_e5).1, 0, Ok 0) /\ ex_plan <> [].
Proof.
  split; [|by vm_compute].
  apply (gist_failure_spares le (ex_retention 1 f32_one) (fun _ => Err "down"%string) 0 200000 _ _ ex_e5);
    [done|by left|eauto].
Defined.

(** Records [b] and [c] are global and close at threshold 0.5. *)
Definition ex_dedup := dedup_loop le ex_search_config ex_none 0x3F000000 4 200000
  (dedup_cands (ex_retention 1 f32_one) (meta ex_e4) 200000)
  (dedup_cands (ex_retention 1 f32_one) (meta ex_e4) 200000) {| merged_offsets := ∅; merges := [] |} ex_e4.
Lemma dedup_plan_safe_witness :
  exists e' st, ex_dedup = Some (e', Ok st) /\ map (fun m => c_id (m_victim m)) (merges st) = ["c"%string] /\
    len (merges st) <= 4.
Proof.
  destruct ex_dedup as [[e' [st|]]|] eqn:E; [|exfalso; revert E; by vm_compute|exfalso; revert E; by vm_compute].
  exists e', st. split; [done|]. split.
  - assert (Hr : match ex_dedup with Some (_, Ok st) => map (fun m => c_id (m_victim m)) (merges st) | _ => [] end
      = ["c"%string]) by (vm_compute; reflexivity). by rewrite E in Hr.
  - exact (pl_len _ _ _ _ _ (dedup_plan_safe le (ex_retention 1 f32_one) ex_search_config ex_none 0x3F000000 4
      200000 ex_e4 e' st ltac:(constructor) ltac:(reflexivity) E)).
Defined.

Lemma importance_bounded_witness :
  exists e' n, recompute_importance (ex_retention 1 f32_one) 200000 ex_flush ex_e5 = Some (e', Ok n) /\
    live (meta e') = live (meta ex_e5).
Proof.
  destruct (recompute_importance (ex_retention 1 f32_one) 200000 ex_flush ex_e5) as [[e' [n|]]|] eqn:E;
    [|exfalso; revert E; by vm_compute|exfalso; revert E; by vm_compute].
  exists e', n. split; [done|].
  exact (proj1 (importance_bounded le (ex_retention 1 f32_one) ex_e5 ex_s5 200000 ex_flush e' n ex_history5 E)).
Defined.

(** The store with a record [d] inserted at second 10000. *)
Definition ex_e8 : Engine := (run_write le (Insert (ex_input "d" 0x3F800000 0x40000000) 10000 write_ok) ex_e5).1.
(** How often a record was read. *)
Definition reads (e : Engine) (i : string) : option N := access_count <$> find_meta_by_id (drain e).1 i.
End RetentionWitness.
Import EngineTheorems.Examples SearchWitness RetentionWitness.

(** The grace period does not protect a new record. A record that was inserted this
    very second, and has therefore not been read yet, is planned for eviction, while one
    that was last read 9897 seconds ago is protected by the window of 10000 seconds. *)
Theorem fresh_record_evicted :
  created_at <$> find_meta_by_id ex_e8 "d" = Some 10000 /\
  last_accessed <$> find_meta_by_id ex_e8 "a" = Some 103 /\ grace (ex_retention 1 f32_one) = 10000 /\
  (evict_plan (ex_retention 1 f32_one) (meta (drain ex_e8).1) 10000).*2 = ["c"%string; "d"%string].
Proof. split_and!; vm_compute; reflexivity. Qed.

(** Looking for duplicates counts as reading. A deduplication that finds nothing to
    merge leaves every record with more accesses than before, as if a caller had
    retrieved it. *)
Theorem dedup_counts_accesses :
  exists e', deduplicate le (ex_retention 1 f32_one) ex_search_config ex_none 200000 (fun _ => write_ok) ex_e5 = Some (e', Ok 0) /\
    reads ex_e5 "a" = Some 1 /\ reads e' "a" = Some 3 /\ reads ex_e5 "c" = Some 0 /\ reads e' "c" = Some 2.
Proof. eexists. split_and!; [vm_compute; reflexivity|vm_compute; reflexivity..]. Qed.
