(* ===== verification/Belief.v ===== *)
(** * Belief revision, [crates/turbomemory_storage/src/engine/belief.rs]

    Detecting that a newer memory restates or contradicts an older one (mutual nearest
    neighbours with text gates), committing the supersession to the graph and to the
    older memory's demotion factor, and resolving a memory to the current belief.

    The graph is an interface ([BeliefGraph]). The incremental cursor
    ([supersession_watermark]) is an argument; the proposals that move it return its new
    value. *)

From S2P Require Import Prelude Core Floats Vocabulary Bm25 Extract Metrics Record VectorStore MetadataStore AccessCounters ScopeIndex PayloadIndex Segments SegmentSearch TopOf Engine Recovery Search Retention.
#[local] Open Scope turbo_scope.

(** What belief revision asks of the graph. *)
Class BeliefGraph {GO : GraphOps} := {
  add_refinement : Graph -> string -> string -> f32 -> Graph * bool;
  add_contradiction : Graph -> string -> string -> f32 -> f32 -> Graph * bool;
  belief_head : Graph -> string -> string;
  belief_lineage : Graph -> string -> list string;
}.

Record BeliefConfig := {
  refinement_cosine_threshold : option f32;
  refinement_max_pairs_per_cycle : N;
  refinement_text_threshold : f32;
  contradiction_cosine_threshold : option f32;
  contradiction_max_pairs_per_cycle : N;
  contradiction_text_threshold : f32;
  contradiction_require_opposition : bool;
  contradiction_weaken_factor : f32;
  supersession_demotion_factor : f32;
  belief_source_roles : option (list string);
  incremental_supersession_detection : bool;
  defer_supersession_commit : bool;
}.

(** 0.3 and 0.8. *)
Definition SUPERSESSION_DEMOTION_FLOOR : f32 := 0x3E99999A.
Definition EDGE_WEIGHT : f32 := 0x3F4CCCCD.

Inductive SupersessionKind := Refinement | Contradiction.
#[global] Instance SupersessionKind_eq : EqDecision SupersessionKind.
Proof. solve_decision. Defined.
Definition kind_as_str (k : SupersessionKind) : string :=
  match k with Refinement => "refinement" | Contradiction => "contradiction" end.
Definition ascii_lower (a : ascii) : ascii :=
  let n := N_of_ascii a in if (65 <=? n) && (n <=? 90) then ascii_of_N (n + 32) else a.
Fixpoint to_ascii_lowercase (s : string) : string :=
  match s with EmptyString => EmptyString | String a s => String (ascii_lower a) (to_ascii_lowercase s) end.
Definition from_label (s : string) : option SupersessionKind :=
  let l := to_ascii_lowercase s in
  if bool_decide (l ∈ ["refinement"; "refine"; "refines"]%string) then Some Refinement
  else if bool_decide (l ∈ ["contradiction"; "contra"; "contradicts"]%string) then Some Contradiction
  else None.

Record ProposedSupersession := {
  old_id : string; new_id : string; old_offset : N; new_offset : N;
  ps_kind : SupersessionKind; ps_cosine : f32;
}.
Record BeliefResolution := {
  br_id : string; br_current_id : string; br_superseded : bool; br_chain : list string; br_demotion : f32;
}.

Definition role_allowed (role : option string) (allowed : option (list string)) : bool :=
  match allowed with
  | None => true
  | Some l => match role with Some r => bool_decide (r ∈ l) | None => false end
  end.

(** A candidate: a live record with its offset. *)
Definition newest_le (a b : N * MetaRecord) : Prop := insert_seq b.2 <= insert_seq a.2.
#[global] Instance newest_le_dec a b : Decision (newest_le a b).
Proof. unfold newest_le. apply _. Defined.

Definition set_concepts (m : MetaRecord) (cs : list string) : MetaRecord := {|
  id := id m; text := text m; importance := importance m; concepts := cs; created_at := created_at m;
  insert_seq := insert_seq m; access_count := access_count m; last_accessed := last_accessed m;
  tier := tier m; payload := payload m; scope := scope m; source_role := source_role m |}.

Section belief.
Context (en : Endian) {SJ : SerdeJson} {GO : GraphOps} {TO : TextOps} {RG : RetentionGraph}
  {U : Unicode} {LM : Libm} {HI : HashIter} {RI : RecordIter}
  {K : Kernels} {B1 : BinaryHeap rev_heap_le} {B2 : BinaryHeap item_le} {SN : SelectNth best_first}
  {SG : SearchGraph} {ST_ : SearchText} {GPU : GpuExact} {BG : BeliefGraph}.
Context (cfg : BeliefConfig) (scfg : SearchConfig) (snapshot : SegmentSnapshot).
#[local] Notation "'let?' x ':=' m 'in' k" := (sm_bind m (fun x => k))
  (at level 10, x pattern, m at level 100, k at level 200).

(** ** Detection *)

Definition cands_of (ms : MetadataStore) : list (N * MetaRecord) :=
  sort_by newest_le (iter_records (records ms)).
(** The cursor, when detection is incremental. *)
Definition effective_watermark (watermark : N) : N :=
  if incremental_supersession_detection cfg then watermark else 0.

(** Can [nid] be the other side of a supersession? *)
Definition superseding (e : Engine) (embedding : list f32) (cs : list string) (sc : option string)
    (exclude : string) (pivot_seq : N) (newer : bool) (floor : f32) (nid : string) : bool :=
  negb (bool_decide (nid = exclude)) &&
  match id_index e !! nid with
  | None => false
  | Some off =>
      match MetadataStore.get (meta e) off with
      | None => false
      | Some rec =>
          (if newer then pivot_seq <? insert_seq rec else insert_seq rec <? pivot_seq) &&
          bool_decide (scope rec = sc) && role_allowed (source_role rec) (belief_source_roles cfg) &&
          existsb (fun c => bool_decide (c ∈ concepts rec)) cs &&
          match view_of en e off with
          | None => false
          | Some ov => negb (f32_ltb (cosine_similarity embedding ov) floor)
          end
      end
  end.
Definition nearest_superseding_neighbor (embedding : list f32) (cs : list string) (sc : option string)
    (exclude : string) (pivot_seq : N) (newer : bool) (floor : f32) (now : N) : SM (option string) :=
  let? neighbors := search_ann_scoped en scfg snapshot embedding 10 None sc now in
  sm_read (fun e => List.find (superseding e embedding cs sc exclude pivot_seq newer floor) neighbors.*1).

(** The text gates. *)
Definition refines_text (newer older : MetaRecord) : bool :=
  negb (f32_ltb (text_jaccard_similarity (text newer) (text older)) (refinement_text_threshold cfg)).
Definition contradicts_text (newer older : MetaRecord) : bool :=
  negb (f32_geb (text_jaccard_similarity (text newer) (text older)) (contradiction_text_threshold cfg)) &&
  negb (contradiction_require_opposition cfg && negb (has_opposition_marker (text newer))).

Definition nearest_of (newer : bool) (threshold : f32) (now : N) (embedding : list f32) (m : MetaRecord)
    : SM (option string) :=
  nearest_superseding_neighbor embedding (concepts m) (scope m) (id m) (insert_seq m) newer threshold now.

(** What one candidate proposes: its nearest older neighbour, if the texts pass the gate
    and the candidate is that neighbour's nearest newer one. *)
Definition propose_one (kind : SupersessionKind) (gate : MetaRecord -> MetaRecord -> bool) (threshold : f32)
    (now : N) (cands : list (N * MetaRecord)) (cand : N * MetaRecord) : SM (option ProposedSupersession) := fun e =>
  if negb (role_allowed (source_role cand.2) (belief_source_roles cfg)) then Some (e, Ok None)
  else
    match view_of en e cand.1 with
    | None => Some (e, Ok None)
    | Some embedding =>
        (let? nearest := nearest_of false threshold now embedding cand.2 in
         match other_id ← nearest; List.find (fun c : N * MetaRecord => bool_decide (id c.2 = other_id)) cands with
         | None => sm_ret None
         | Some other =>
             if negb (gate cand.2 other.2) then sm_ret None
             else
               let? ovec := sm_read (fun e => view_of en e other.1) in
               match ovec with
               | None => sm_ret None
               | Some other_emb =>
                   let? back := nearest_of true threshold now other_emb other.2 in
                   if bool_decide (back = Some (id cand.2)) then
                     sm_ret (Some {| old_id := id other.2; new_id := id cand.2; old_offset := other.1;
                                     new_offset := cand.1; ps_kind := kind;
                                     ps_cosine := cosine_similarity embedding other_emb |})
                   else sm_ret None
               end
         end) e
    end.
(** The pass over the candidates, newest first, down to the cursor. *)
Fixpoint propose_loop (kind : SupersessionKind) (gate : MetaRecord -> MetaRecord -> bool) (threshold : f32)
    (max_pairs watermark now : N) (cands todo : list (N * MetaRecord)) (proposed : list ProposedSupersession)
    : SM (list ProposedSupersession) :=
  match todo with
  | [] => sm_ret proposed
  | cand :: todo =>
      if max_pairs <=? len proposed then sm_ret proposed
      else if insert_seq cand.2 <? watermark then sm_ret proposed
      else
        let? p := propose_one kind gate threshold now cands cand in
        propose_loop kind gate threshold max_pairs watermark now cands todo
          (match p with Some p => proposed ++ [p] | None => proposed end)
  end.
Definition propose_pass (kind : SupersessionKind) (gate : MetaRecord -> MetaRecord -> bool) (threshold : f32)
    (max_pairs watermark now : N) : SM (list ProposedSupersession) := fun e =>
  let e := (drain e).1 in
  let cands := cands_of (meta e) in
  propose_loop kind gate threshold max_pairs (effective_watermark watermark) now cands cands [] e.

Definition propose_refinements (watermark now : N) : SM (list ProposedSupersession) :=
  match refinement_cosine_threshold cfg with
  | None => sm_ret []
  | Some threshold =>
      if refinement_max_pairs_per_cycle cfg =? 0 then sm_ret []
      else propose_pass Refinement refines_text threshold (refinement_max_pairs_per_cycle cfg) watermark now
  end.
Definition propose_contradictions (watermark now : N) : SM (list ProposedSupersession) :=
  match contradiction_cosine_threshold cfg with
  | None => sm_ret []
  | Some threshold =>
      if contradiction_max_pairs_per_cycle cfg =? 0 then sm_ret []
      else propose_pass Contradiction contradicts_text threshold (contradiction_max_pairs_per_cycle cfg) watermark now
  end.
Definition next_watermark (watermark examined_up_to : N) : N :=
  if defer_supersession_commit cfg then examined_up_to else watermark.
Definition propose_supersessions (watermark now : N) : SM (list ProposedSupersession * N) :=
  let? examined_up_to := sm_read (fun e => next_seq (meta e)) in
  let? refinements := propose_refinements watermark now in
  let? contradictions := propose_contradictions watermark now in
  sm_ret (refinements ++ contradictions, next_watermark watermark examined_up_to).

(** *** Candidates for a verifier *)

(** The loop over one memory's neighbours, best first. *)
Fixpoint offer_neighbors (e : Engine) (superseded : gset string) (min_cosine margin : f32) (per_record : N)
    (cand : N * MetaRecord) (neighbors : list (string * f32)) (taken : N) (closest : option f32)
    : list ProposedSupersession :=
  match neighbors with
  | [] => []
  | (nid, cosine) :: neighbors =>
      let next := offer_neighbors e superseded min_cosine margin per_record cand neighbors in
      if (taken =? per_record) || f32_ltb cosine min_cosine then []
      else if match closest with Some best => f32_ltb cosine (f32_sub best margin) | None => false end then []
      else if bool_decide (nid = id cand.2) then next taken closest
      else if bool_decide (nid ∈ superseded) then
        next taken (if bool_decide (closest = None) && bool_decide (belief_head (graph e) nid = id cand.2)
                    then Some cosine else closest)
      else
        match find_meta_by_id e nid with
        | None => next taken closest
        | Some old =>
            if (insert_seq cand.2 <=? insert_seq old) || negb (bool_decide (scope old = scope cand.2))
               || negb (role_allowed (source_role old) (belief_source_roles cfg)) then next taken closest
            else
              match id_index e !! nid with
              | None => next taken closest
              | Some off =>
                  {| old_id := nid; new_id := id cand.2; old_offset := off; new_offset := cand.1;
                     ps_kind := if f32_geb (text_jaccard_similarity (text cand.2) (text old))
                                             (refinement_text_threshold cfg)
                                then Refinement else Contradiction;
                     ps_cosine := cosine |} :: next (taken + 1) (Some (default cosine closest))
              end
        end
  end.
Fixpoint offer_loop (superseded : gset string) (min_cosine margin : f32) (per_record max_pairs now : N)
    (todo : list (N * MetaRecord)) (proposed : list ProposedSupersession) : SM (list ProposedSupersession) :=
  match todo with
  | [] => sm_ret proposed
  | cand :: todo => fun e =>
      let next := offer_loop superseded min_cosine margin per_record max_pairs now todo in
      if max_pairs <=? len proposed then Some (e, Ok proposed)
      else if bool_decide (id cand.2 ∈ superseded) then next proposed e
      else
        match view_of en e cand.1 with
        | None => next proposed e
        | Some embedding =>
            (let? neighbors := search_ann_any_belief_state en scfg snapshot embedding
                 (N.max (saturating_mul per_record 4) 10) (scope cand.2) now in
             let? more := sm_read (fun e =>
               offer_neighbors e superseded min_cosine margin per_record cand neighbors 0 None) in
             next (proposed ++ more)) e
        end
  end.
Definition propose_supersession_candidates (min_cosine : f32) (per_record : N) (margin : f32) (watermark now : N)
    : SM (list ProposedSupersession * N) := fun e =>
  if (per_record =? 0) || (refinement_max_pairs_per_cycle cfg =? 0) then Some (e, Ok ([], watermark))
  else
    let cands := sort_by newest_le (filter (fun om : N * MetaRecord =>
      effective_watermark watermark <= insert_seq om.2 /\
      role_allowed (source_role om.2) (belief_source_roles cfg) = true) (iter_records (records (meta e)))) in
    (let? proposed := offer_loop (superseded_ids (graph e)) min_cosine margin per_record
         (refinement_max_pairs_per_cycle cfg) now cands [] in
     sm_ret (proposed, next_watermark watermark (next_seq (meta e)))) e.

(** ** Commitment *)

Definition push_new (l : list string) (c : string) : list string := if decide (c ∈ l) then l else l ++ [c].
Definition transfer_unique_concepts (old_off new_off : N) (new_id : string) (e : Engine) : Engine :=
  match MetadataStore.get (meta e) old_off, MetadataStore.get (meta e) new_off with
  | Some old_rec, Some new_rec =>
      match filter (fun c => c ∉ concepts new_rec) (concepts old_rec) with
      | [] => e
      | unique =>
          match view_of en e new_off with
          | None => e
          | Some v =>
              let rec := set_concepts new_rec (foldl push_new (concepts new_rec) unique) in
              let e := set_meta (MetadataStore.put (meta e) new_off (with_embedding rec v)) e in
              match find_record_by_id en e new_id with
              | Some r => set_graph (add_concepts_to_memory (graph e) new_id (r_concepts r) (r_importance r)) e
              | None => e
              end
          end
      end
  | _, _ => e
  end.
Definition add_belief_edge (p : ProposedSupersession) (g : Graph) : Graph * bool :=
  match ps_kind p with
  | Refinement => add_refinement g (old_id p) (new_id p) EDGE_WEIGHT
  | Contradiction => add_contradiction g (old_id p) (new_id p) EDGE_WEIGHT (contradiction_weaken_factor cfg)
  end.
Definition demote (ms : MetadataStore) (offset : N) : MetadataStore :=
  set_demotion_factor ms offset
    (f32_max (f32_mul (demotion_factor ms offset) (supersession_demotion_factor cfg)) SUPERSESSION_DEMOTION_FLOOR).
Definition commit_one (st : Engine * N) (p : ProposedSupersession) : Engine * N :=
  let '(e, created) := st in
  let '(g, added) := add_belief_edge p (graph e) in
  let e := set_graph g e in
  if added then
    let e := set_meta (demote (meta e) (old_offset p)) e in
    (match ps_kind p with
     | Refinement => transfer_unique_concepts (old_offset p) (new_offset p) (new_id p) e
     | Contradiction => e
     end, created + 1)
  else (e, created).
Definition commit_supersessions (proposed : list ProposedSupersession) (io : FlushIo) : ST Engine N := fun e =>
  let '(e, created) := foldl commit_one (e, 0) proposed in
  if 0 <? created then (save_graph io ;! st_ret created) e else (e, Ok created).

Definition resolve_pair (e : Engine) (p : string * string * SupersessionKind) : option ProposedSupersession :=
  let '(old, new, k) := p in
  if bool_decide (old = new) then None
  else
    old_off ← id_index e !! old;
    new_off ← id_index e !! new;
    old_rec ← MetadataStore.get (meta e) old_off;
    new_rec ← MetadataStore.get (meta e) new_off;
    if negb (bool_decide (scope old_rec = scope new_rec)) then None
    else Some {| old_id := old; new_id := new; old_offset := old_off; new_offset := new_off;
                 ps_kind := k; ps_cosine := f32_zero |}.
Definition commit_supersessions_by_id (pairs : list (string * string * SupersessionKind)) (io : FlushIo)
    : ST Engine N := fun e => commit_supersessions (omap (resolve_pair e) pairs) io e.

Definition check_refinements (watermark now : N) (io : FlushIo) : SM N := fun e =>
  (let? props := propose_refinements watermark now in fun e => Some (commit_supersessions props io e)) e.
Definition check_contradictions (watermark now : N) (io : FlushIo) : SM N := fun e =>
  (let? props := propose_contradictions watermark now in fun e => Some (commit_supersessions props io e)) e.

(** ** The current belief *)

Definition demotion_of (e : Engine) (i : string) : f32 :=
  match id_index e !! i with Some off => demotion_factor (meta e) off | None => NO_DEMOTION end.
Definition resolve_one (e : Engine) (i : string) : BeliefResolution :=
  let current := belief_head (graph e) i in
  {| br_id := i; br_current_id := current; br_superseded := negb (bool_decide (current = i));
     br_chain := belief_lineage (graph e) i; br_demotion := demotion_of e i |}.
Definition resolve_beliefs (e : Engine) (ids : list string) : list BeliefResolution := map (resolve_one e) ids.

End belief.
