(* ===== verification/BeliefTheorems.v ===== *)
(** * What belief revision promises

    Proposals pair two live records of one scope, the newer with the older; a commit
    marks the older one superseded in the graph, after which no search that excludes
    superseded records returns it, and lowers its score to no less than 30 percent. *)

From S2P Require Import Prelude Core Floats Vocabulary Bm25 Extract Metrics Record Wal VectorStore MetadataStore AccessCounters ScopeIndex PayloadIndex Segments SegmentSearch TopOf Engine Recovery Durability CrashSafety Steady EngineTheorems Search SearchTheorems Isolation Retention RetentionTheorems Belief.
#[local] Open Scope turbo_scope.

(** What the graph promises: an added edge makes its older end superseded and nothing
    else, attaching concepts makes nothing superseded, and an id that is not
    superseded is its own current belief. *)
Class BeliefGraphOk {GO : GraphOps} {SG : SearchGraph} {RG : RetentionGraph} {BG : BeliefGraph} := {
  graph_wf : Graph -> Prop;
  refinement_ok g o n w g' b : graph_wf g -> add_refinement g o n w = (g', b) ->
    graph_wf g' /\ superseded_ids g' = if b then {[o]} ∪ superseded_ids g else superseded_ids g;
  contradiction_ok g o n w f g' b : graph_wf g -> add_contradiction g o n w f = (g', b) ->
    graph_wf g' /\ superseded_ids g' = if b then {[o]} ∪ superseded_ids g else superseded_ids g;
  concepts_ok g i cs x : graph_wf g ->
    graph_wf (add_concepts_to_memory g i cs x) /\ superseded_ids (add_concepts_to_memory g i cs x) = superseded_ids g;
  head_ok g i : graph_wf g -> i ∉ superseded_ids g -> belief_head g i = i;
}.

(** ** The demotion factor *)

Lemma max_floor x lo : is_nan lo = false -> f32_geb (f32_max x lo) lo = true.
Proof.
  intros Hlo. unfold f32_max, f32_geb, f32_ltb, f32_gtb. rewrite Hlo.
  destruct (is_nan x) eqn:Hx; [rewrite Hlo; simpl; lia|]. simpl.
  destruct (real_key x <? real_key lo)%Z eqn:Hl; rewrite ?Hlo, ?Hx; simpl; lia.
Qed.
Definition at_least (lo x : f32) : Prop := f32_geb x lo = true.
Lemma demotion_set ms o x o' :
  demotion_factor (set_demotion_factor ms o x) o' =
    if decide (o' = o) then
      let y := f32_clamp x f32_zero f32_one in if f32_geb y NO_DEMOTION then NO_DEMOTION else y
    else demotion_factor ms o'.
Proof.
  unfold set_demotion_factor, demotion_factor. destruct (decide (o' = o)) as [->|Hne]; cbv zeta.
  - destruct (f32_geb _ _); simpl; [by rewrite lookup_delete_eq|by rewrite lookup_insert_eq].
  - destruct (f32_geb _ _); simpl; [by rewrite lookup_delete_ne|by rewrite lookup_insert_ne].
Qed.
Lemma clamp_floor x : at_least SUPERSESSION_DEMOTION_FLOOR x ->
  at_least SUPERSESSION_DEMOTION_FLOOR (f32_clamp x f32_zero f32_one).
Proof.
  unfold at_least, f32_clamp, f32_geb, f32_ltb, f32_gtb. intros H.
  destruct (is_nan x) eqn:Hx; [done|]. simpl in *.
  change (is_nan f32_zero) with false. change (is_nan f32_one) with false.
  change (is_nan SUPERSESSION_DEMOTION_FLOOR) with false in *. simpl in *.
  change (real_key f32_zero) with 0%Z. change (real_key f32_one) with 1065353216%Z.
  change (real_key SUPERSESSION_DEMOTION_FLOOR) with 1050253722%Z in *.
  destruct (real_key x <? 0)%Z eqn:H0; [lia|].
  destruct (1065353216 <? real_key x)%Z eqn:H1; [done|]. by rewrite Hx.
Qed.

Lemma omap_full {A B} (f : A -> option B) l x :
  length (omap f l) = length l -> x ∈ l -> exists y, f x = Some y /\ y ∈ omap f l.
Proof.
  intros Hl Hx. destruct (f x) as [y|] eqn:Hf.
  - exists y. split; [done|]. apply list_elem_of_omap. eauto.
  - exfalso. apply list_elem_of_split in Hx as (l1 & l2 & ->). rewrite omap_app in Hl.
    rewrite !length_app in Hl. unfold omap in Hl. simpl in Hl. rewrite Hf in Hl.
    pose proof (omap_length f l1). pose proof (omap_length f l2). unfold omap in *. lia.
Qed.

Section belief_theorems.
Context (en : Endian) {HC : Crc32} {BW : Bincode WalOp} {BW1 : Bincode WalOpV1}
  {BM : Bincode MetaRecord} {BH : Bincode (list N)}
  {BMo : BincodeOk MetaRecord} {BHo : BincodeOk (list N)}
  {BMt : BincodeTotal MetaRecord} {BHt : BincodeTotal (list N)}
  {BWo : BincodeOk WalOp} {BWt : BincodeTagged WalOp}
  {SJ : SerdeJson} {JS : JsonSyntax} {GO : GraphOps} {TO : TextOps} {RG : RetentionGraph}
  {U : Unicode} {LM : Libm} {HI : HashIter} {RI : RecordIter}
  {K : Kernels} {B1 : BinaryHeap rev_heap_le} {B2 : BinaryHeap item_le} {SN : SelectNth best_first}
  {SG : SearchGraph} {ST_ : SearchText} {GPU : GpuExact} {BG : BeliefGraph} {TT : TextTotal}.
Context (cfg : BeliefConfig) (scfg : SearchConfig) (snapshot : SegmentSnapshot).

Lemma demote_floor ms o o' :
  at_least SUPERSESSION_DEMOTION_FLOOR (demotion_factor ms o') ->
  at_least SUPERSESSION_DEMOTION_FLOOR (demotion_factor (demote cfg ms o) o').
Proof.
  intros H. unfold demote. rewrite demotion_set. destruct (decide (o' = o)); [|done]. cbv zeta.
  destruct (f32_geb _ NO_DEMOTION); [done|]. apply clamp_floor, max_floor. done.
Qed.

(** ** What a commit changes *)

(** A record after a commit, in the store that held the records [R]: it may have gained
    concepts it lacked, of records from which [T] leads to it. *)
Definition gained (R : gmap N MetaRecord) (T : N -> N -> Prop) (o : N) (a b : MetaRecord) : Prop :=
  exists cs, b = set_concepts a (concepts a ++ cs) /\
    forall c, c ∈ cs -> (c ∉ concepts a) /\ exists o0 m, tc T o0 o /\ R !! o0 = Some m /\ c ∈ concepts m.
Lemma gained_refl R T o a : gained R T o a a.
Proof. exists []. rewrite app_nil_r. split; [by destruct a|by intros c ?%not_elem_of_nil]. Qed.
Lemma gained_concepts R T o a b c : gained R T o a b -> c ∈ concepts b ->
  c ∈ concepts a \/ exists o0 m, tc T o0 o /\ R !! o0 = Some m /\ c ∈ concepts m.
Proof. intros (cs & -> & Hcs). simpl. intros [Hc|Hc]%elem_of_app; [by left|right]. by apply Hcs. Qed.
Lemma gained_trans R R2 T o a b c :
  (forall o, option_Forall2 (gained R T o) (R !! o) (R2 !! o)) ->
  gained R T o a b -> gained R2 T o b c -> gained R T o a c.
Proof.
  intros HR (cs & -> & Hcs) (ds & -> & Hds). exists (cs ++ ds). split; [unfold set_concepts; simpl; by rewrite app_assoc|].
  intros x [Hx|Hx]%elem_of_app; [by apply Hcs|]. destruct (Hds x Hx) as [Hn (o0 & m & Ht & Hm & Hin)]. simpl in Hn.
  split; [intros ?; apply Hn, elem_of_app; by left|]. specialize (HR o0). rewrite Hm in HR. inversion HR as [m1 m2 Hg E1 E2|]. subst m2.
  destruct (gained_concepts _ _ _ _ _ _ Hg Hin) as [H1|(o1 & m0 & Ht' & Hm0 & Hin0)]; [by exists o0, m1|].
  exists o1, m0. split_and!; [|done|done]. by eapply tc_transitive.
Qed.
Record revised (T : N -> N -> Prop) (e e' : Engine) : Prop := {
  rv_config : config e' = config e;
  rv_vectors : vectors e' = vectors e;
  rv_ids : id_index e' = id_index e;
  rv_payload : payload_index e' = payload_index e;
  rv_scope : scope_index e' = scope_index e;
  rv_records : forall o, option_Forall2 (gained (records (meta e)) T o) (records (meta e) !! o) (records (meta e') !! o);
  rv_floor : forall o, at_least SUPERSESSION_DEMOTION_FLOOR (demotion_factor (meta e) o) ->
    at_least SUPERSESSION_DEMOTION_FLOOR (demotion_factor (meta e') o);
}.
Lemma revised_same T e e' :
  config e' = config e -> vectors e' = vectors e -> id_index e' = id_index e -> payload_index e' = payload_index e ->
  scope_index e' = scope_index e -> records (meta e') = records (meta e) ->
  (forall o, at_least SUPERSESSION_DEMOTION_FLOOR (demotion_factor (meta e) o) ->
     at_least SUPERSESSION_DEMOTION_FLOOR (demotion_factor (meta e') o)) -> revised T e e'.
Proof.
  intros H1 H2 H3 H4 H5 H6 H7. split; [exact H1|exact H2|exact H3|exact H4|exact H5| |exact H7].
  intros o. rewrite H6. destruct (_ !! o); constructor. apply gained_refl.
Qed.
Lemma revised_refl T e : revised T e e.
Proof. by apply revised_same. Qed.
Lemma revised_trans T e1 e2 e3 : revised T e1 e2 -> revised T e2 e3 -> revised T e1 e3.
Proof.
  intros [] []. split; try (by etrans); [|by auto]. intros o. pose proof (rv_records0 o) as H0. specialize (rv_records1 o).
  inversion H0 as [a b H1 E1 E2|E1 E2]; rewrite <- E2 in rv_records1;
    inversion rv_records1; constructor. by eapply gained_trans.
Qed.
Hint Resolve revised_refl : core.

Lemma push_new_gained l cs : exists ds, foldl push_new l cs = l ++ ds /\ forall c, c ∈ ds -> c ∈ cs.
Proof.
  revert l. induction cs as [|c cs IH]; intros l; simpl; [exists []; by rewrite app_nil_r|].
  destruct (IH (push_new l c)) as (ds & -> & Hds). unfold push_new. destruct (decide _).
  - exists ds. split; [done|]. intros x Hx. apply elem_of_cons. right. by apply Hds.
  - exists (c :: ds). rewrite <- app_assoc. split; [done|]. intros x [->|Hx]%elem_of_cons; apply elem_of_cons; [by left|right].
    by apply Hds.
Qed.
Lemma put_meta_revised T e o a b :
  records (meta e) !! o = Some a -> gained (records (meta e)) T o a b -> revised T e (set_meta (put_meta (meta e) o b) e).
Proof.
  intros Ha Hg. split; try done. intros o'. unfold put_meta. simpl. destruct (decide (o' = o)) as [->|Hne].
  - rewrite lookup_insert_eq, Ha. by constructor.
  - rewrite lookup_insert_ne by done. destruct (_ !! o'); constructor. apply gained_refl.
Qed.
Lemma set_graph_revised T g e : revised T e (set_graph g e).
Proof. by apply revised_same. Qed.
Lemma demote_revised T e o : revised T e (set_meta (demote cfg (meta e) o) e).
Proof.
  apply revised_same; try done; [|intros o'; apply demote_floor].
  cbn [meta set_meta]. unfold demote, set_demotion_factor. cbv zeta. by destruct (f32_geb _ _).
Qed.
Lemma transfer_revised (T : N -> N -> Prop) oo no ni e :
  T oo no -> revised T e (transfer_unique_concepts en oo no ni e).
Proof.
  intros HT. unfold transfer_unique_concepts. destruct (MetadataStore.get _ oo) as [old|] eqn:Ho; [|done].
  destruct (MetadataStore.get _ no) as [new|] eqn:Hn; [|done].
  destruct (base.filter _ _) as [|c cs] eqn:Hf; [done|]. destruct (view_of en e no) as [v|]; [|done].
  set (rec := set_concepts _ _). set (e1 := set_meta _ _).
  assert (H1 : revised T e e1).
  { unfold e1, MetadataStore.put. rewrite meta_of_with_embedding. apply (put_meta_revised T e no new rec Hn).
    unfold rec. destruct (push_new_gained (concepts new) (c :: cs)) as (ds & -> & Hds). exists ds. split; [done|].
    intros x Hx%Hds. rewrite <- Hf in Hx. apply list_elem_of_filter in Hx as [Hx1 Hx2]. split; [done|].
    exists oo, old. split; [by apply tc_once|done]. }
  destruct (find_record_by_id en e1 ni); [|done]. eapply revised_trans; [exact H1|apply set_graph_revised].
Qed.
Lemma save_graph_revised T io e e' r : save_graph io e = (e', r) -> revised T e e' /\ graph e' = graph e.
Proof. intros (d & -> & _)%save_graph_fields. split; [|done]. by apply revised_same. Qed.

(** *** The superseded ids *)

Section laws.
Context {BO : BeliefGraphOk}.

Lemma transfer_graph oo no ni e :
  graph_wf (graph e) -> graph_wf (graph (transfer_unique_concepts en oo no ni e)) /\
  superseded_ids (graph (transfer_unique_concepts en oo no ni e)) = superseded_ids (graph e).
Proof.
  intros Hg. unfold transfer_unique_concepts. destruct (MetadataStore.get _ oo); [|done].
  destruct (MetadataStore.get _ no); [|done]. destruct (base.filter _ _); [done|].
  destruct (view_of en e no); [|done]. set (e1 := set_meta _ _).
  destruct (find_record_by_id en e1 ni); [|done]. apply (concepts_ok _ _ _ _ Hg).
Qed.
Lemma commit_one_spec (T : N -> N -> Prop) e n p e' n' :
  (ps_kind p = Refinement -> T (old_offset p) (new_offset p)) -> graph_wf (graph e) -> commit_one en cfg (e, n) p = (e', n') ->
  revised T e e' /\ graph_wf (graph e') /\ exists b : bool, n' = (if b then n + 1 else n) /\
    superseded_ids (graph e') = if b then {[old_id p]} ∪ superseded_ids (graph e) else superseded_ids (graph e).
Proof.
  intros HT Hg. unfold commit_one. destruct (add_belief_edge cfg p (graph e)) as [g b] eqn:Hadd.
  assert (H : graph_wf g /\ superseded_ids g =
    if b then {[old_id p]} ∪ superseded_ids (graph e) else superseded_ids (graph e)).
  { unfold add_belief_edge in Hadd. destruct (ps_kind p); [by eapply refinement_ok|by eapply contradiction_ok]. }
  destruct H as [Hwf Hs]. pose proof (set_graph_revised T g e) as H1. set (e1 := set_graph g e) in *.
  destruct b; intros [= <- <-]; [|by split_and!; [..|by exists false]].
  pose proof (revised_trans _ _ _ _ H1 (demote_revised T e1 (old_offset p))) as H2.
  set (e2 := set_meta _ _) in *.
  destruct (ps_kind p) eqn:Hk; [|by split_and!; [..|by exists true]].
  destruct (transfer_graph (old_offset p) (new_offset p) (new_id p) e2 Hwf) as [H3 H4].
  split_and!; [eapply revised_trans; [exact H2|by apply transfer_revised, HT]|done|]. exists true. by rewrite H4.
Qed.
Lemma commit_fold_spec (T : N -> N -> Prop) props e n e' n' :
  (forall p, p ∈ props -> ps_kind p = Refinement -> T (old_offset p) (new_offset p)) -> graph_wf (graph e) -> foldl (commit_one en cfg) (e, n) props = (e', n') ->
  revised T e e' /\ graph_wf (graph e') /\ n <= n' <= n + len props /\
  superseded_ids (graph e) ⊆ superseded_ids (graph e') /\
  (forall i, i ∈ superseded_ids (graph e') -> i ∈ superseded_ids (graph e) \/ i ∈ old_id <$> props) /\
  (n' = n + len props -> forall i, i ∈ old_id <$> props -> i ∈ superseded_ids (graph e')).
Proof.
  revert e n. induction props as [|p props IH]; intros e n HT Hg; cbn [foldl].
  - intros [= <- <-]. split_and!; auto; [unfold len; simpl; lia|set_solver].
  - destruct (commit_one en cfg (e, n) p) as [e1 n1] eqn:H1. intros H2.
    destruct (commit_one_spec T _ _ _ _ _ (HT p (list_elem_of_here _ _)) Hg H1) as (Hr1 & Hg1 & b & -> & Hs1).
    destruct (IH _ _ (fun q Hq => HT q (list_elem_of_further _ _ _ Hq)) Hg1 H2) as (Hr2 & Hg2 & Hn & Hsub & Honly & Hall).
    rewrite !fmap_cons. unfold len in *. simpl length.
    split_and!; [by eapply revised_trans|done|destruct b; lia|destruct b; lia| | |].
    + destruct b; set_solver.
    + intros i [Hi|Hi]%Honly; destruct b; set_solver.
    + intros En. destruct b; [|lia]. intros i [->|Hi]%elem_of_cons; [apply Hsub; set_solver|].
      apply Hall; [lia|done].
Qed.

Lemma resolve_pair_old e p q : resolve_pair e p = Some q -> old_id q = p.1.1.
Proof.
  destruct p as [[old new] k]. unfold resolve_pair. destruct (bool_decide _); [done|]. intros Hres.
  destruct (id_index e !! old) as [oo|]; simpl in Hres; [|done].
  destruct (id_index e !! new) as [no|]; simpl in Hres; [|done].
  destruct (MetadataStore.get _ oo); simpl in Hres; [|done].
  destruct (MetadataStore.get _ no); simpl in Hres; [|done].
  destruct (bool_decide _); simpl in Hres; [|done]. by injection Hres as <-.
Qed.

(** The pairs of the request that say refinement, by the offsets of their two live records
    of one scope. *)
Definition refines (e : Engine) (pairs : list (string * string * SupersessionKind)) (o n : N) : Prop :=
  exists old new old_rec new_rec, (old, new, Refinement) ∈ pairs /\ old <> new /\
    id_index e !! old = Some o /\ id_index e !! new = Some n /\
    records (meta e) !! o = Some old_rec /\ records (meta e) !! n = Some new_rec /\ scope old_rec = scope new_rec.
Lemma resolve_pair_spec e old new k q : resolve_pair e (old, new, k) = Some q ->
  exists orec nrec, old_id q = old /\ new_id q = new /\ ps_kind q = k /\ old <> new /\
    id_index e !! old = Some (old_offset q) /\ id_index e !! new = Some (new_offset q) /\
    records (meta e) !! old_offset q = Some orec /\ records (meta e) !! new_offset q = Some nrec /\ scope orec = scope nrec.
Proof.
  unfold resolve_pair, MetadataStore.get. destruct (bool_decide_reflect (old = new)) as [|Hne]; [done|]. intros Hres.
  destruct (id_index e !! old) as [oo|] eqn:Ho; simpl in Hres; [|done].
  destruct (id_index e !! new) as [no|] eqn:Hno; simpl in Hres; [|done].
  destruct (records (meta e) !! oo) as [orec|] eqn:Hor; simpl in Hres; [|done].
  destruct (records (meta e) !! no) as [nrec|] eqn:Hnr; simpl in Hres; [|done].
  destruct (bool_decide_reflect (scope orec = scope nrec)) as [Hsc|]; simpl in Hres; [|done].
  injection Hres as <-. exists orec, nrec. by split_and!.
Qed.

(** C33: What committing pairs by id does. Nothing a caller stored changes, except that the
    record a refinement pair names as the newer one may gain concepts it lacked, of the
    record the pair names as the older one (or that this one gained from a pair before
    it), and no score falls below 30 percent; nothing stops
    being superseded; an id becomes superseded only by a pair of the request that names
    two different live records of one scope, so one user's fact never retires
    another's; and when the call reports all pairs committed, all older ids are
    superseded. Even a commit whose graph cannot be saved has this effect. *)
Theorem commit_by_id_spec pairs io e e' r :
  graph_wf (graph e) -> commit_supersessions_by_id en cfg pairs io e = (e', r) ->
  revised (refines e pairs) e e' /\ superseded_ids (graph e) ⊆ superseded_ids (graph e') /\
  (forall i, i ∈ superseded_ids (graph e') -> i ∉ superseded_ids (graph e) ->
     exists new k old_rec new_rec, (i, new, k) ∈ pairs /\ i <> new /\ find_meta_by_id e i = Some old_rec /\
       find_meta_by_id e new = Some new_rec /\ scope old_rec = scope new_rec) /\
  (r = Ok (len pairs) -> forall p, p ∈ pairs -> p.1.1 ∈ superseded_ids (graph e')).
Proof.
  intros Hg. unfold commit_supersessions_by_id, commit_supersessions. set (props := omap _ pairs).
  destruct (foldl (commit_one en cfg) (e, 0) props) as [e1 n] eqn:Hf.
  assert (HT : forall p, p ∈ props -> ps_kind p = Refinement -> refines e pairs (old_offset p) (new_offset p)).
  { intros q ([[old new] k] & Hin & Hq)%list_elem_of_omap Hk. apply resolve_pair_spec in Hq as (orec & nrec & _ & _ & Ek & Hq).
    rewrite Hk in Ek. subst k. exists old, new, orec, nrec. split; [done|exact Hq]. }
  destruct (commit_fold_spec _ _ _ _ _ _ HT Hg Hf) as (Hr & _ & Hn & Hsub & Honly & Hall).
  intros Hc. assert (Hfin : revised (refines e pairs) e1 e' /\ graph e' = graph e1 /\ (forall c, r = Ok c -> c = n)).
  { destruct (0 <? n); [|injection Hc as <- <-; split_and!; [done|done|by intros ? [= <-]]].
    unfold st_bind in Hc. destruct (save_graph io e1) as [e2 r2] eqn:Hsave.
    apply (save_graph_revised (refines e pairs)) in Hsave as [H1 H2].
    destruct r2; simpl in Hc; injection Hc as <- <-; split_and!; try done. by intros ? [= <-]. }
  destruct Hfin as (Hr' & Hg' & Hcount). rewrite Hg'. split_and!; [by eapply revised_trans|done| |].
  - intros i Hi Hni. destruct (Honly i Hi) as [|(p & -> & Hp)%list_elem_of_fmap]; [done|].
    apply list_elem_of_omap in Hp as ([[old new] k] & Hin & Hres).
    apply resolve_pair_spec in Hres as (orec & nrec & -> & _ & _ & Hne & Ho & Hno & Hor & Hnr & Hsc).
    exists new, k, orec, nrec. unfold find_meta_by_id, MetadataStore.get. rewrite Ho, Hno. by split_and!.
  - intros ->. specialize (Hcount _ eq_refl).
    assert (Hlen : (length props <= length pairs)%nat) by apply omap_length.
    assert (Hsame : length props = length pairs) by (unfold len in *; lia).
    intros p Hp. apply Hall; [unfold len in *; lia|].
    destruct (omap_full (resolve_pair e) pairs p Hsame Hp) as (y & Hy & Hin).
    apply list_elem_of_fmap. exists y. split; [by rewrite (resolve_pair_old _ _ _ Hy)|done].
Qed.

End laws.

(** ** What a search returns *)

Lemma not_excluded e i :
  exclude_superseded scfg = true -> excluded (superseded_exclusion_set scfg e) i = false -> i ∉ superseded_ids (graph e).
Proof.
  intros Hx. unfold superseded_exclusion_set. rewrite Hx. destruct (decide _) as [Hs|_]; [set_solver|].
  simpl. by intros ?%bool_decide_eq_false.
Qed.

(** C32: A store that hides superseded memories never returns one: neither the
    approximate nor the cognitive search, with any filter and scope, brings an id that
    the graph holds superseded, whatever its similarity and whatever the expansion
    finds. *)
Theorem superseded_hidden e text q top_k flt ef sc now :
  exclude_superseded scfg = true -> Forall native_ok (sn_segments snapshot) -> top_k < U64 ->
  (forall e' res, search_ann_candidates_filtered_with_ef en scfg snapshot q top_k flt ef sc now e = Some (e', Ok res) ->
     forall i x, (i, x) ∈ res -> i ∉ superseded_ids (graph e)) /\
  (forall e' res, cognitive_search en scfg snapshot text q top_k flt ef sc now e = Some (e', Ok (Some res)) ->
     forall i x, (i, x) ∈ res -> i ∉ superseded_ids (graph e)).
Proof.
  intros Hx Hok Hk. split; intros e' res Hrun i x Hin.
  - unfold search_ann_candidates_filtered_with_ef, sm_bind, check_query in Hrun.
    destruct (map_err _ _) as [[]|]; [|done].
    destruct (allowed_offsets flt sc e) as [[e1 [bm|er]]|] eqn:Ha; [|done|done].
    destruct (allowed_offsets_same _ _ _ _ _ Ha) as (_ & Hg & _). rewrite <- Hg.
    destruct (ann_top_k_sound en scfg snapshot _ _ _ _ _ _ _ _ Hok Hk Hrun) as [_ Hhit].
    destruct (Hhit _ eq_refl _ Hin) as (o & m & _ & _ & _ & Hex). by apply not_excluded.
  - unfold cognitive_search, sm_bind, check_query, sm_read in Hrun. destruct (map_err _ _) as [[]|]; [|done].
    destruct (allowed_offsets flt sc e) as [[e1 [bm|er]]|] eqn:Ha; [|done|done].
    destruct (allowed_offsets_same _ _ _ _ _ Ha) as (_ & Hg & _).
    destruct (ann_top_k _ _ _ _ _ _ _ _ e1) as [[e2 [seeds|er]]|] eqn:Hann; [|done|done].
    assert (Hk' : N.max (N.min top_k (records_in e)) 10 < U64) by (unfold U64 in *; lia).
    destruct (ann_top_k_sound en scfg snapshot _ _ _ _ _ _ _ _ Hok Hk' Hann) as [Hs2 _].
    destruct (Search.search_restricted _ _ _ _ _) as [results|]; [|done].
    destruct (hydrate_and_fuse _ _ e2 _ _ _ _ _) as [|h hs] eqn:Hhy; [done|].
    assert (res = h :: hs) as -> by (by injection Hrun). rewrite <- Hhy in Hin.
    apply hydrate_in in Hin as (o & m & _ & _ & _ & Hex). apply not_excluded in Hex; [|done].
    by rewrite (rs_graph _ _ Hs2), Hg in Hex.
Qed.

(** ** Proposals *)

(** What a proposal says: two live records of one scope, the newer at or after the
    cursor, the older strictly older, both of allowed roles, with a common concept,
    similar enough, and with texts that pass the gate. *)
Record proposal_ok (e : Engine) (kind : SupersessionKind) (gate : MetaRecord -> MetaRecord -> bool)
    (threshold : f32) (watermark : N) (p : ProposedSupersession) : Prop := {
  po_kind : ps_kind p = kind;
  po_records : exists old new v w,
    records (meta e) !! old_offset p = Some old /\ id old = old_id p /\
    records (meta e) !! new_offset p = Some new /\ id new = new_id p /\
    insert_seq old < insert_seq new /\ watermark <= insert_seq new /\ scope old = scope new /\
    role_allowed (source_role old) (belief_source_roles cfg) = true /\
    role_allowed (source_role new) (belief_source_roles cfg) = true /\
    (exists c, c ∈ concepts old /\ c ∈ concepts new) /\ gate new old = true /\
    view_of en e (new_offset p) = Some v /\ view_of en e (old_offset p) = Some w /\
    ps_cosine p = cosine_similarity v w /\ f32_ltb (ps_cosine p) threshold = false;
}.

(** A search leaves what the gates read. *)
Lemma nearest_spec newer threshold now emb m e e' r :
  Forall native_ok (sn_segments snapshot) ->
  nearest_of en cfg scfg snapshot newer threshold now emb m e = Some (e', r) ->
  reads_same e e' /\ forall i, r = Ok (Some i) ->
    superseding en cfg e emb (concepts m) (scope m) (id m) (insert_seq m) newer threshold i = true.
Proof.
  intros Hok. unfold nearest_of, nearest_superseding_neighbor, sm_bind, search_ann_scoped.
  destruct (search_ann_candidates_filtered_with_ef _ _ _ _ _ _ _ _ _ _) as [[e1 [l|er]]|] eqn:Hs; [| |done].
  - apply search_ann_same in Hs; [|done|by vm_compute]. unfold sm_read. intros [= <- <-]. split; [done|].
    intros i [= Hf]. apply List.find_some in Hf as [_ Hf].
    assert (Hsame : forall i, superseding en cfg e1 emb (concepts m) (scope m) (id m) (insert_seq m) newer threshold i =
      superseding en cfg e emb (concepts m) (scope m) (id m) (insert_seq m) newer threshold i).
    { intros j. unfold superseding, view_of. destruct Hs as [_ Hm Hv Hi _ _ _ _]. by rewrite Hm, Hv, Hi. }
    by rewrite <- Hsame.
  - apply search_ann_same in Hs; [|done|by vm_compute]. intros [= <- <-]. split; [done|]. by intros.
Qed.

(** What the index says of an id, at any point of a history. *)
Definition ids_exact (e : Engine) : Prop :=
  forall i o, id_index e !! i = Some o <-> exists m, records (meta e) !! o = Some m /\ id m = i.
Lemma ids_unique e o1 o2 m1 m2 :
  ids_exact e -> records (meta e) !! o1 = Some m1 -> records (meta e) !! o2 = Some m2 -> id m1 = id m2 -> o1 = o2.
Proof.
  intros He H1 H2 E. assert (A : id_index e !! id m1 = Some o1) by (apply He; eauto).
  assert (B : id_index e !! id m1 = Some o2) by (apply He; eauto). congruence.
Qed.
Lemma rep_ids e S : eng_rep en e S -> ids_exact e.
Proof.
  intros ((ops & m0 & hc & [_ _ _ _ Hids]) & _ & _) i o. rewrite Hids. split.
  - intros (d & Hd & <-). rewrite live_lookup in Hd. destruct (records (meta e) !! o) as [m|]; [|done].
    simpl in Hd. injection Hd as <-. exists m. split; [done|]. symmetry. apply id_of_dur_meta.
  - intros (m & Hm & <-). exists (durable m). rewrite live_lookup, Hm. split; [done|apply id_of_dur_meta].
Qed.

Lemma reads_rep e e' S : reads_same e e' -> eng_rep en e S -> eng_rep en e' S.
Proof.
  intros [R1 R2 R3 R4 _ _ _ R8] ((ops & m0 & hc & [H1 H2 H3 H4 H5]) & Hm & HS).
  split; [exists ops, m0, hc; split|]; by rewrite ?R1, ?R2, ?R3, ?R4, ?R8.
Qed.
Lemma elem_of_cands ms o m : (o, m) ∈ cands_of ms <-> records ms !! o = Some m.
Proof. unfold cands_of. rewrite sort_by_perm. apply elem_of_iter_records. Qed.

Lemma superseding_spec e emb m newer threshold i :
  ids_exact e ->
  superseding en cfg e emb (concepts m) (scope m) (id m) (insert_seq m) newer threshold i = true ->
  exists o rec w, records (meta e) !! o = Some rec /\ id rec = i /\
    (if newer then insert_seq m < insert_seq rec else insert_seq rec < insert_seq m) /\
    scope rec = scope m /\ role_allowed (source_role rec) (belief_source_roles cfg) = true /\
    (exists c, c ∈ concepts rec /\ c ∈ concepts m) /\ view_of en e o = Some w /\
    f32_ltb (cosine_similarity emb w) threshold = false.
Proof.
  intros He. unfold superseding, MetadataStore.get. rewrite andb_true_iff. intros [_ Hs].
  destruct (id_index e !! i) as [o|] eqn:Hi; [|done].
  destruct (records (meta e) !! o) as [rec|] eqn:Hr; [|done].
  rewrite !andb_true_iff in Hs. destruct Hs as ((((Hseq & Hsc) & Hrole) & Hc) & Hv).
  destruct (view_of en e o) as [w|] eqn:Hw; [|done]. exists o, rec, w.
  apply He in Hi as (m' & Hm' & Hid). assert (m' = rec) as -> by congruence.
  apply existsb_exists in Hc as (c & Hc1 & Hc2).
  split_and!; auto; [destruct newer; by apply N.ltb_lt|by apply bool_decide_eq_true in Hsc| |by apply negb_true_iff].
  exists c. split; [by apply bool_decide_eq_true in Hc2|by apply list_elem_of_In].
Qed.

Lemma propose_one_spec kind gate threshold now e0 cand e e' r watermark :
  Forall native_ok (sn_segments snapshot) -> ids_exact e0 -> reads_same e0 e ->
  cand ∈ cands_of (meta e0) -> watermark <= insert_seq cand.2 ->
  propose_one en cfg scfg snapshot kind gate threshold now (cands_of (meta e0)) cand e = Some (e', r) ->
  reads_same e0 e' /\
  forall p, r = Ok (Some p) -> new_offset p = cand.1 /\ proposal_ok e0 kind gate threshold watermark p.
Proof.
  intros Hok Hids Hsame Hcand Hwm. unfold propose_one. destruct cand as [o m]. simpl in *.
  destruct (role_allowed (source_role m) _) eqn:Hrole; simpl; [|intros [= <- <-]; split; [done|by intros]].
  destruct (view_of en e o) as [emb|] eqn:Hemb; [|intros [= <- <-]; split; [done|by intros]].
  assert (Hview : forall e', reads_same e0 e' -> view_of en e' = view_of en e0).
  { intros e2 H2. unfold view_of. by rewrite (rs_vectors _ _ H2). }
  unfold sm_bind at 1.
  destruct (nearest_of _ _ _ _ false _ _ _ _ e) as [[e1 r1]|] eqn:Hn; [|done].
  apply nearest_spec in Hn as [Hs1 Hn1]; [|done]. pose proof (reads_same_trans _ _ _ Hsame Hs1) as Hse1.
  destruct r1 as [near|er]; [|intros [= <- <-]; split; [done|by intros]].
  destruct (near ≫= _) as [other|] eqn:Hf; [|intros [= <- <-]; split; [done|by intros]].
  destruct near as [oid|]; simpl in Hf; [|done]. apply List.find_some in Hf as [Hin Hoid].
  apply bool_decide_eq_true in Hoid. destruct other as [oo om]. simpl in *.
  destruct (gate m om) eqn:Hgate; simpl; [|intros [= <- <-]; split; [done|by intros]].
  unfold sm_bind at 1, sm_read. destruct (view_of en e1 oo) as [oemb|] eqn:Hov; [|intros [= <- <-]; split; [done|by intros]].
  unfold sm_bind at 1. destruct (nearest_of _ _ _ _ true _ _ _ _ e1) as [[e2 r2]|] eqn:Hb; [|done].
  apply nearest_spec in Hb as [Hs2 _]; [|done]. pose proof (reads_same_trans _ _ _ Hse1 Hs2) as Hse2.
  destruct r2 as [back|er]; [|intros [= <- <-]; split; [done|by intros]].
  destruct (bool_decide _); intros [= <- <-]; (split; [done|]); [|by intros].
  intros p [= <-]. split; [done|]. split; [done|]. simpl.
  specialize (Hn1 oid eq_refl). apply list_elem_of_In, elem_of_cands in Hin. apply elem_of_cands in Hcand.
  assert (Hids' : ids_exact e).
  { intros i x. rewrite (rs_ids _ _ Hsame), (rs_meta _ _ Hsame). apply Hids. }
  apply superseding_spec in Hn1 as (o' & rec & w & Hrec & Hid & Hseq & Hsc & Hr & Hc & Hw & Hcos); [|done].
  rewrite (rs_meta _ _ Hsame) in Hrec. rewrite (Hview _ Hsame) in Hw, Hemb. rewrite (Hview _ Hse1) in Hov.
  assert (o' = oo) as -> by (eapply (ids_unique e0); eauto; congruence).
  assert (rec = om) as -> by congruence. assert (w = oemb) as -> by congruence.
  exists om, m, emb, oemb. split_and!; auto.
Qed.

(** The proposals of one pass. *)
Record pass_ok (e : Engine) kind gate threshold watermark (max_pairs : N) (ps : list ProposedSupersession) : Prop := {
  pp_each : Forall (proposal_ok e kind gate threshold watermark) ps;
  pp_once : NoDup (new_offset <$> ps);
  pp_bound : len ps <= max_pairs;
}.
Lemma propose_loop_spec kind gate threshold max_pairs watermark now e0 todo ps e e' r :
  Forall native_ok (sn_segments snapshot) -> ids_exact e0 -> reads_same e0 e ->
  (forall c, c ∈ todo -> c ∈ cands_of (meta e0)) -> NoDup todo.*1 ->
  pass_ok e0 kind gate threshold watermark max_pairs ps ->
  (forall p, p ∈ ps -> new_offset p ∉ todo.*1) ->
  propose_loop en cfg scfg snapshot kind gate threshold max_pairs watermark now (cands_of (meta e0)) todo ps e
    = Some (e', r) ->
  reads_same e0 e' /\ forall res, r = Ok res -> pass_ok e0 kind gate threshold watermark max_pairs res.
Proof.
  intros Hok Hids. revert ps e. induction todo as [|c todo IH]; intros ps e Hsame Hsub Hnd Hp Hdis; cbn [propose_loop].
  { intros [= <- <-]. split; [done|]. by intros ? [= <-]. }
  destruct (N.leb_spec max_pairs (len ps)) as [|Hlt]; [intros [= <- <-]; split; [done|by intros ? [= <-]]|].
  destruct (N.ltb_spec (insert_seq c.2) watermark) as [|Hwm]; [intros [= <- <-]; split; [done|by intros ? [= <-]]|].
  unfold sm_bind at 1. destruct (propose_one _ _ _ _ _ _ _ _ _ c e) as [[e1 r1]|] eqn:H1; [|done].
  eapply propose_one_spec in H1 as [Hs1 Hp1]; [|done|done|done|apply Hsub; set_solver|exact Hwm].
  destruct r1 as [[p|]|er]; [| |intros [= <- <-]; split; [done|by intros]].
  - destruct (Hp1 p eq_refl) as [Hoff Hpok]. rewrite fmap_cons in Hnd, Hdis. apply NoDup_cons in Hnd as [Hc Hnd].
    apply IH; [done|set_solver|done| |].
    + destruct Hp as [H2 H3 H4]. split.
      * apply Forall_app. split; [done|]. by constructor.
      * rewrite fmap_app. simpl. rewrite Hoff. apply NoDup_app. split_and!; [done| |apply NoDup_singleton].
        intros x (q & -> & Hq)%list_elem_of_fmap E%list_elem_of_singleton. apply (Hdis q Hq). rewrite E. set_solver.
      * rewrite len_app. unfold len in *. simpl. lia.
    + intros q [Hq| ->%list_elem_of_singleton]%elem_of_app; [|by rewrite Hoff]. intros Hin. apply (Hdis q Hq). set_solver.
  - rewrite fmap_cons in Hnd, Hdis. apply NoDup_cons in Hnd as [_ Hnd]. apply IH; [done|set_solver|done|done|].
    intros q Hq Hin. apply (Hdis q Hq). set_solver.
Qed.
Lemma cands_nodup ms : NoDup (cands_of ms).*1.
Proof.
  unfold cands_of. eapply NoDup_Permutation_proper; [|apply (iter_records_nodup (records ms))].
  apply fmap_Permutation, sort_by_perm.
Qed.

(** The gates read only what a caller stored. *)
Definition durable_gate (gate : MetaRecord -> MetaRecord -> bool) : Prop :=
  forall a a' b b', durable a = durable a' -> durable b = durable b' -> gate a b = gate a' b'.
Lemma refines_durable : durable_gate (refines_text cfg).
Proof. intros [] [] [] [] [= ] [= ]. unfold refines_text. simpl in *. by subst. Qed.
Lemma contradicts_durable : durable_gate (contradicts_text cfg).
Proof. intros [] [] [] [] [= ] [= ]. unfold contradicts_text. simpl in *. by subst. Qed.
Lemma live_record e e' o m :
  live (meta e) = live (meta e') -> records (meta e) !! o = Some m ->
  exists m', records (meta e') !! o = Some m' /\ durable m = durable m'.
Proof.
  intros Hl Hm. assert (H : live (meta e') !! o = Some (durable m)) by (by rewrite <- Hl, live_lookup, Hm).
  rewrite live_lookup in H. destruct (records (meta e') !! o) as [m'|]; [|done]. apply (inj Some) in H. by exists m'.
Qed.
Lemma proposal_ok_live e e' kind gate threshold watermark p :
  live (meta e) = live (meta e') -> vectors e = vectors e' -> durable_gate gate ->
  proposal_ok e kind gate threshold watermark p -> proposal_ok e' kind gate threshold watermark p.
Proof.
  intros Hl Hv Hg [Hk (old & new & v & w & Ho & Hoi & Hn & Hni & Hseq & Hwm & Hsc & Hr1 & Hr2 & (c & Hc1 & Hc2) & Hgate & Hv1 & Hv2 & Hx)].
  destruct (live_record e e' _ _ Hl Ho) as (old' & Ho' & Eo). destruct (live_record e e' _ _ Hl Hn) as (new' & Hn' & En).
  split; [done|]. exists old', new', v, w. rewrite <- (Hg _ _ _ _ En Eo). unfold view_of in *. rewrite <- Hv.
  destruct old, old', new, new'. simpl in *. unfold durable in Eo, En. simpl in Eo, En.
  simplify_eq. simpl in *. destruct Hx. split_and!; eauto.
Qed.
Lemma pass_ok_live e e' kind gate threshold watermark max_pairs ps :
  live (meta e) = live (meta e') -> vectors e = vectors e' -> durable_gate gate ->
  pass_ok e kind gate threshold watermark max_pairs ps -> pass_ok e' kind gate threshold watermark max_pairs ps.
Proof.
  intros Hl Hv Hg [H1 H2 H3]. split; [|done|done]. eapply Forall_impl; [exact H1|].
  intros p. by apply proposal_ok_live.
Qed.

Lemma propose_pass_spec kind gate threshold max_pairs watermark now e S e' r :
  eng_rep en e S -> Forall native_ok (sn_segments snapshot) -> durable_gate gate ->
  propose_pass en cfg scfg snapshot kind gate threshold max_pairs watermark now e = Some (e', r) ->
  live (meta e') = live (meta e) /\ vectors e' = vectors e /\ graph e' = graph e /\ eng_rep en e' S /\
  forall res, r = Ok res -> pass_ok e kind gate threshold (effective_watermark cfg watermark) max_pairs res.
Proof.
  intros He Hok Hg. unfold propose_pass. set (e1 := (drain e).1). intros Hrun.
  assert (Hrep := drain_rep en e S He). destruct (drain_same e (eng_wf en _ _ He)) as [Hl _]. fold e1 in Hrep, Hl.
  assert (Hv : vectors e1 = vectors e /\ graph e1 = graph e).
  { unfold e1, drain, st_modify. by destruct (drain_into _ _). }
  destruct Hv as [Hv Hgr]. eapply propose_loop_spec in Hrun as [Hs Hp]; [|done|by eapply rep_ids|done|done| | |].
  - rewrite (rs_meta _ _ Hs), (rs_vectors _ _ Hs), (rs_graph _ _ Hs). split_and!; auto; [by eapply reads_rep|].
    intros res ->. eapply pass_ok_live; [| |exact Hg|by apply Hp]; done.
  - apply cands_nodup.
  - split; [done|constructor|unfold len; simpl; lia].
  - set_solver.
Qed.

Definition no_proposals_or (threshold : option f32) (P : f32 -> list ProposedSupersession -> Prop)
    (ps : list ProposedSupersession) : Prop :=
  match threshold with None => ps = [] | Some t => ps = [] \/ P t ps end.
Lemma propose_kind_spec kind gate threshold max_pairs watermark now e S e' r :
  eng_rep en e S -> Forall native_ok (sn_segments snapshot) -> durable_gate gate ->
  match threshold with
  | None => sm_ret []
  | Some t => if max_pairs =? 0 then sm_ret []
              else propose_pass en cfg scfg snapshot kind gate t max_pairs watermark now
  end e = Some (e', r) ->
  live (meta e') = live (meta e) /\ vectors e' = vectors e /\ graph e' = graph e /\ eng_rep en e' S /\
  forall res, r = Ok res -> no_proposals_or threshold (fun t => pass_ok e kind gate t (effective_watermark cfg watermark) max_pairs) res.
Proof.
  intros He Hok Hg. destruct threshold as [t|]; [|intros [= <- <-]; split_and!; auto; by intros ? [= <-]].
  destruct (max_pairs =? 0); [intros [= <- <-]; split_and!; auto; intros ? [= <-]; by left|].
  intros (H1 & H2 & H3 & H4 & H5)%(propose_pass_spec _ _ _ _ _ _ _ S); [|done..]. split_and!; auto.
  intros res ->. right. by apply H5.
Qed.


End belief_theorems.
