(* ===== verification/EngineGraph.v ===== *)
(** * The cognitive graph as the engine uses it

    The engine, its searches, retention and belief revision are proved against the
    interfaces [GraphOps], [SearchGraph], [RetentionGraph] and [BeliefGraph]. Here the
    graph crate implements them ([SpreadingActivation] over [MemoryGraph]), and its
    superseded set is shown to obey the laws belief revision relies on
    ([BeliefGraphOk]).

    The legacy JSON reader and UTF-8 decoding are arguments, the extractor and the
    expansion are configured as the engine configures them. *)

From S2P Require Import Prelude Core Floats Vocabulary Record Graph GraphProofs GraphTheorems Bm25 Extract Ccs Activation Wal VectorStore MetadataStore AccessCounters ScopeIndex PayloadIndex Segments SegmentSearch TopOf SegmentHolder Optimizer Engine Recovery Durability CrashSafety Steady EngineTheorems Search SearchTheorems Isolation Retention RetentionTheorems Belief BeliefTheorems.

(** ** Edges and superseded ids *)

(** Memory keys name memory nodes, and the adjacency is that of the edges. *)
Record belief_wf (g : MemoryGraph) : Prop := {
  bw_named : forall i n, get_node_id g (mem_key i) = Some n ->
    exists nd, get_node (interner g) n = Some nd /\ kind nd = KMemory /\ external_id nd = i;
  bw_adj : int_adjacency g = rebuild (int_edges g);
}.
(** The name a supersession edge hides. *)
Definition hidden_by (g : MemoryGraph) (e : InternalEdge) : option string :=
  if is_supersession e && kind_is_memory g (source e) && kind_is_memory g (target e)
  then s ← get_node (interner g) (source e); Some (external_id s) else None.

Lemma elem_of_superseded g i :
  i ∈ Graph.superseded_ids g <-> exists e, e ∈ int_edges g /\ hidden_by g e = Some i.
Proof. unfold Graph.superseded_ids. by rewrite elem_of_list_to_set, list_elem_of_omap. Qed.

(** A step that keeps the beliefs. *)
Definition same_beliefs (g g' : MemoryGraph) : Prop :=
  belief_wf g -> belief_wf g' /\ Graph.superseded_ids g' = Graph.superseded_ids g.
#[global] Instance same_beliefs_refl : Reflexive same_beliefs. Proof. by intros g. Qed.
#[global] Instance same_beliefs_trans : Transitive same_beliefs.
Proof. intros g1 g2 g3 H1 H2 Hg. destruct (H1 Hg) as [Hw E]. destruct (H2 Hw) as [Hw' E']. split; [done|congruence]. Qed.
Lemma same_beliefs_fold {A} (f : MemoryGraph -> A -> MemoryGraph) l g :
  (forall g x, same_beliefs g (f g x)) -> same_beliefs g (foldl f g l).
Proof.
  intros Hf. revert g. induction l as [|x l IH]; intros g; simpl; [done|]. transitivity (f g x); [apply Hf|apply IH].
Qed.

(** Interning a concept. *)
Lemma mem_concept_ne i c : mem_key i <> concept_key c.
Proof. discriminate. Qed.
Lemma intern_concept_same c text base g :
  same_beliefs g (intern_node (concept_key c) KConcept c text base g).2.
Proof.
  intros [Hn Ha]. unfold intern_node, intern. destruct (key_to_id (interner g) !! concept_key c) as [id|]; [done|].
  simpl. set (nd := Build_InternalNode _ _ _ _). set (g' := set_interner _ g).
  assert (Hget : forall k x, get_node (interner g) k = Some x -> get_node (interner g') k = Some x).
  { intros k x Hk. unfold get_node, g'. simpl. by apply lookup_app_l_Some. }
  assert (Hmem : forall k, kind_is_memory g' k = kind_is_memory g k).
  { intros k. unfold kind_is_memory. destruct (get_node (interner g) k) as [x|] eqn:Hk; [by rewrite (Hget _ _ Hk)|].
    destruct (get_node (interner g') k) as [x|] eqn:Hk'; [|done]. unfold get_node, g' in Hk, Hk'. simpl in Hk'.
    apply lookup_snoc_Some in Hk' as [[_ Hk']|[_ <-]]; [congruence|done]. }
  split; [split; [|done]|].
  - intros i n. unfold get_node_id, g'. simpl. rewrite lookup_insert_ne by (intros E; by eapply mem_concept_ne).
    intros Hi. destruct (Hn i n Hi) as (x & Hx & Hk). exists x. split; [by apply Hget|done].
  - apply leibniz_equiv. intros i. rewrite !elem_of_superseded.
    assert (Hh : forall e, hidden_by g' e = hidden_by g e).
    { intros e. unfold hidden_by. rewrite !Hmem. destruct (is_supersession e); [|done].
      destruct (kind_is_memory g (source e)) eqn:Hs; [|done].
      unfold kind_is_memory in Hs. destruct (get_node (interner g) (source e)) as [x|] eqn:Hx; [|done].
      by rewrite (Hget _ _ Hx). }
    simpl. by setoid_rewrite Hh.
Qed.

Lemma push_same e g : is_supersession e = false -> same_beliefs g (push_edge e g).
Proof.
  intros He [Hn Ha]. split; [split; [done|simpl; by rewrite Ha, rebuild_snoc]|].
  apply leibniz_equiv. intros i. rewrite !elem_of_superseded. simpl. split.
  - intros (x & [Hx| ->%list_elem_of_singleton]%elem_of_app & Hh); [by exists x|].
    unfold hidden_by in Hh. by rewrite He in Hh.
  - intros (x & Hx & Hh). exists x. split; [set_solver|done].
Qed.
Definition keeps_edge (f : InternalEdge -> InternalEdge) : Prop :=
  forall e, source (f e) = source e /\ target (f e) = target e /\ e_kind (f e) = e_kind e.
Lemma map_edges_same f g l :
  keeps_edge f -> Forall2 (fun e e' => e' = e \/ e' = f e) (int_edges g) l ->
  same_beliefs g (set_edges l (int_adjacency g) g).
Proof.
  intros Hf Hl [Hn Ha].
  assert (Hh : Forall2 (fun e e' => hidden_by (set_edges l (int_adjacency g) g) e' = hidden_by g e) (int_edges g) l).
  { eapply Forall2_impl; [exact Hl|]. intros e e' [->| ->]; [done|]. destruct (Hf e) as (E1 & E2 & E3).
    unfold hidden_by, is_supersession, kind_is_memory. by rewrite E1, E2, E3. }
  split; [split; [done|]|].
  - simpl. rewrite Ha. apply rebuild_sources. clear -Hf Hl. induction Hl as [|e e' es es' [->| ->] _ IH]; simpl;
      [done|by rewrite IH|]. by rewrite IH, (proj1 (Hf e)).
  - apply leibniz_equiv. intros i. rewrite !elem_of_superseded. simpl. split.
    + intros (x & [k Hk]%list_elem_of_lookup & Hx). destruct (Forall2_lookup_r _ _ _ _ _ Hh Hk) as (y & Hy & E).
      exists y. split; [by eapply list_elem_of_lookup_2|congruence].
    + intros (x & [k Hk]%list_elem_of_lookup & Hx). destruct (Forall2_lookup_l _ _ _ _ _ Hh Hk) as (y & Hy & E).
      exists y. split; [by eapply list_elem_of_lookup_2|congruence].
Qed.
Lemma alter_related (f : InternalEdge -> InternalEdge) i l : Forall2 (fun e e' => e' = e \/ e' = f e) l (alter f i l).
Proof.
  apply Forall2_same_length_lookup. split; [by rewrite length_alter|]. intros k x y Hx Hy.
  rewrite list_lookup_alter in Hy. destruct (decide (i = k)) as [->|]; rewrite Hx in Hy; simpl in Hy; injection Hy; auto.
Qed.
Lemma update_same f i g : keeps_edge f -> same_beliefs g (update_edge i f g).
Proof. intros Hf. apply (map_edges_same f); [done|apply alter_related]. Qed.
Lemma ensure_same s t k w a g :
  is_supersession {| source := s; target := t; e_kind := k; weight := w; last_reinforced_at := a |} = false ->
  same_beliefs g (ensure_int_edge s t k w a g).
Proof.
  intros Hk. unfold ensure_int_edge. destruct (list_find _ _) as [[? [i ?]]|]; [by apply update_same|by apply push_same].
Qed.

(** A check of [belief_wf] on a concrete graph. *)
Definition named_check (g : MemoryGraph) : bool :=
  bool_decide (int_adjacency g = rebuild (int_edges g)) &&
  forallb (fun kn : string * N =>
    match get_node (interner g) kn.2 with
    | Some nd => bool_decide (kn.1 = match kind nd with KMemory => mem_key | KConcept => concept_key end (external_id nd))
    | None => false
    end) (map_to_list (key_to_id (interner g))).
Lemma named_check_wf g : named_check g = true -> belief_wf g.
Proof.
  unfold named_check. rewrite andb_true_iff, forallb_forall. intros [Ha%bool_decide_eq_true Hn]. split; [|done].
  intros i n Hi. unfold get_node_id in Hi. apply elem_of_map_to_list, list_elem_of_In in Hi. apply Hn in Hi. simpl in Hi.
  destruct (get_node (interner g) n) as [nd|]; [|done]. apply bool_decide_eq_true in Hi. exists nd. split; [done|].
  destruct (kind nd); [|by apply mem_concept_ne in Hi]. split; [done|].
  unfold mem_key in Hi. symmetry. by apply (inj (String.app "mem:")) in Hi.
Qed.

Section engine_graph.
Context {U : Unicode} {L : Libm} {HI : HashIter}.

Lemma attach_same mem imp g c : same_beliefs g (attach_concept mem imp g c).
Proof.
  unfold attach_concept. pose proof (intern_concept_same c c f32_zero g) as H.
  destruct (intern_node _ _ _ _ _ g) as [cid g1]. simpl in H. transitivity g1; [exact H|].
  transitivity (ensure_int_edge mem cid Association imp 0 g1); by apply ensure_same.
Qed.
Lemma add_concepts_same id cs imp g : same_beliefs g (Graph.add_concepts_to_memory id cs imp g).1.
Proof.
  unfold Graph.add_concepts_to_memory. destruct (get_node_id g (mem_key id)); [|done]. simpl.
  apply same_beliefs_fold. intros. apply attach_same.
Qed.

(** Adding a supersession edge. *)
Lemma supersede_spec o n k w g s t :
  belief_wf g -> k = Refines \/ k = Contradicts ->
  get_node_id g (mem_key o) = Some s -> get_node_id g (mem_key n) = Some t ->
  belief_wf (add_int_edge s t k w g) /\
  Graph.superseded_ids (add_int_edge s t k w g) = {[o]} ∪ Graph.superseded_ids g.
Proof.
  intros [Hn Ha] Hk Hs Ht. split; [split; [done|simpl; by rewrite Ha, rebuild_snoc]|].
  apply leibniz_equiv. intros i. rewrite elem_of_union, elem_of_singleton, !elem_of_superseded. simpl.
  set (e := Build_InternalEdge _ _ _ _ _).
  assert (He : hidden_by (add_int_edge s t k w g) e = Some o).
  { destruct (Hn o s Hs) as (x & Hx & Kx & Ex). destruct (Hn n t Ht) as (y & Hy & Ky & _).
    unfold hidden_by, kind_is_memory, is_memory, e. simpl. rewrite Hx, Hy. simpl. rewrite Kx, Ky, Ex.
    by destruct Hk as [-> | ->]. }
  split.
  - intros (x & [Hx| ->%list_elem_of_singleton]%elem_of_app & Hh); [right; by exists x|]. left.
    rewrite He in Hh. by injection Hh.
  - intros [->|(x & Hx & Hh)]; [exists e|exists x]; (split; [set_solver|done]).
Qed.
Lemma add_refinement_spec o n w g g' b :
  belief_wf g -> Graph.add_refinement o n w g = (g', b) ->
  belief_wf g' /\ Graph.superseded_ids g' = if b then {[o]} ∪ Graph.superseded_ids g else Graph.superseded_ids g.
Proof.
  intros Hg. unfold Graph.add_refinement. destruct (get_node_id g (mem_key o)) as [s|] eqn:Hs; [|by intros [= <- <-]].
  destruct (get_node_id g (mem_key n)) as [t|] eqn:Ht; [|by intros [= <- <-]].
  destruct (has_edge _ _ _ _); intros [= <- <-]; [done|]. eapply supersede_spec; eauto.
Qed.
Lemma weaken_keeps f : keeps_edge (weaken f).
Proof. intros e. unfold weaken. by destruct (own_kind e). Qed.
Lemma add_contradiction_spec o n w f g g' b :
  belief_wf g -> Graph.add_contradiction o n w f g = (g', b) ->
  belief_wf g' /\ Graph.superseded_ids g' = if b then {[o]} ∪ Graph.superseded_ids g else Graph.superseded_ids g.
Proof.
  intros Hg. unfold Graph.add_contradiction. destruct (get_node_id g (mem_key o)) as [s|] eqn:Hs; [|by intros [= <- <-]].
  destruct (get_node_id g (mem_key n)) as [t|] eqn:Ht; [|by intros [= <- <-]].
  destruct (has_edge _ _ _ _); intros [= <- <-]; [done|].
  set (g1 := foldl _ g _).
  assert (H1 : same_beliefs g g1) by (apply same_beliefs_fold; intros; apply update_same, weaken_keeps).
  destruct (H1 Hg) as [Hw E]. rewrite <- E.
  assert (Hi : interner g1 = interner g).
  { unfold g1. generalize (adj_get g s). intros l. clear. revert g. induction l as [|i l IH]; intros g; simpl; [done|].
    by rewrite IH. }
  apply supersede_spec with (n := n); [done|auto| |]; unfold get_node_id; by rewrite Hi.
Qed.

(** An id without a supersession edge is its own head. *)
Lemma head_current g i : belief_wf g -> i ∉ Graph.superseded_ids g -> Graph.belief_head g i = i.
Proof.
  intros [Hn Ha] Hi. unfold Graph.belief_head. destruct (get_node_id g (mem_key i)) as [s|] eqn:Hs; [|done].
  destruct (Hn i s Hs) as (x & Hx & Kx & Ex).
  assert (Hnext : supersession_next g s = None).
  { unfold supersession_next. pose proof (max_by_index_spec (supersession_successors g s)) as Hm.
    destruct (max_by_index _) as [[j t]|]; [|done]. exfalso. destruct Hm as [Hin _].
    unfold supersession_successors in Hin. apply list_elem_of_omap in Hin as ([j' e] & Hout & He). simpl in He.
    destruct (is_supersession e) eqn:Hse; simpl in He; [|done]. destruct (kind_is_memory g (target e)) eqn:Kt; [|done].
    unfold out_edges in Hout. apply list_elem_of_omap in Hout as (k & Hk & Hek). unfold adj_get in Hk. rewrite Ha in Hk.
    apply elem_of_rebuild in Hk as (e' & He' & Hsrc). rewrite He' in Hek. simpl in Hek. injection Hek as <- <-.
    apply Hi, elem_of_superseded. exists e'. split; [by eapply list_elem_of_lookup_2|].
    unfold hidden_by. rewrite Hse, Kt, Hsrc. unfold kind_is_memory, is_memory. rewrite Hx, Kx. simpl. by rewrite Ex. }
  replace (walk (supersession_next g) (walk_fuel g) {[s]} s) with (Some (@nil N)).
  - simpl. by rewrite Hx.
  - destruct (walk_fuel g); simpl; by rewrite Hnext.
Qed.

(** ** The instances *)

Context {BS : Bincode BinaryGraphSnapshot} {CJ : CcsJson}.
Context (from_utf8 : list byte -> option string) (legacy_from_str : string -> option LegacyMemoryGraph)
  (spreading : SpreadingConfig) (extractor : ExtractorConfig).

(** A snapshot with the magic is binary, otherwise it is JSON. *)
Definition parse_memory_graph (bytes : list byte) : option MemoryGraph :=
  if is_snapshot_bytes bytes then from_snapshot_bytes bytes
  else s ← from_utf8 bytes; from_json legacy_from_str s.

#[local] Instance engine_graph : GraphOps := {|
  Graph := SpreadingActivation; Vocab := ConceptVocabulary;
  empty_graph := new_activation new_graph spreading;
  vocab x := g_vocab (sa_graph x);
  add_memory_scoped x i text cs imp sc := sa_add_memory_scoped i text cs imp sc x;
  remove_memory x i := sa_remove_memory i x;
  merge_concepts caller text v := merge_concepts_with_config caller text extractor (Some v);
  to_snapshot_bytes x := Graph.to_snapshot_bytes (sa_graph x);
  parse_graph bytes := (fun g => new_activation g spreading) <$> parse_memory_graph bytes;
  memory_nodes x := map (fun kn : string * Node => strip "mem:" kn.1) (iter_memory_nodes (sa_graph x));
  parse_ccs s := c ← ccs_from_str s; ccs_to_string c |}.
#[local] Instance engine_search_graph : @SearchGraph engine_graph :=
  @Build_SearchGraph engine_graph
    (fun x => Graph.superseded_ids (sa_graph x))
    (fun x text seeds k allow => Activation.search_restricted x text seeds k allow)
    (fun x i now => sa_reinforce i now x).
#[local] Instance engine_retention_graph : @RetentionGraph engine_graph :=
  @Build_RetentionGraph engine_graph
    (fun x i cs imp => (sa_add_concepts_to_memory i cs imp x).1)
    (fun x i imp => with_graph (Graph.reweight_memory i imp (sa_graph x)).1 x).
#[local] Instance engine_belief_graph : @BeliefGraph engine_graph :=
  @Build_BeliefGraph engine_graph
    (fun x o n w => sa_add_refinement o n w x)
    (fun x o n w f => sa_add_contradiction o n w f x)
    (fun x i => Graph.belief_head (sa_graph x) i)
    (fun x i => Graph.belief_lineage (sa_graph x) i).

(** The graph crate keeps what belief revision relies on. *)
#[local] Instance engine_belief_ok : BeliefGraphOk.
Proof.
  refine (@Build_BeliefGraphOk engine_graph engine_search_graph engine_retention_graph engine_belief_graph
    (fun x => belief_wf (sa_graph x)) _ _ _ _); simpl.
  - intros x o n w x' b Hx. unfold sa_add_refinement. destruct (Graph.add_refinement o n w (sa_graph x)) as [g c] eqn:E.
    intros [= <- <-]. by eapply add_refinement_spec.
  - intros x o n w f x' b Hx. unfold sa_add_contradiction.
    destruct (Graph.add_contradiction o n w f (sa_graph x)) as [g c] eqn:E.
    intros [= <- <-]. by eapply add_contradiction_spec.
  - intros x i cs imp Hx. pose proof (add_concepts_same i cs imp (sa_graph x) Hx) as H.
    unfold sa_add_concepts_to_memory. by destruct (Graph.add_concepts_to_memory i cs imp (sa_graph x)).
  - intros x i. apply head_current.
Defined.

End engine_graph.

(** ** A revision on the engine with this graph *)

Module BeliefWitness.
Import AsciiText GraphWitness CcsWitness.
Import EngineTheorems.Examples SegmentSearchWitness TopOfWitness SearchWitness RetentionWitness.
#[export] Existing Instances ascii_unicode ordered_iter RetentionWitness.ex_libm ex_text ex_text_total ex_syntax CcsWitness.ex_json.
#[export] Instance bw_graph : GraphOps :=
  engine_graph (fun _ => None) (fun _ => None) default_spreading (default_extractor 2).
#[export] Instance bw_search_graph : SearchGraph := engine_search_graph _ _ _ _.
#[export] Instance bw_retention : RetentionGraph := engine_retention_graph _ _ _ _.
#[export] Instance bw_belief : BeliefGraph := engine_belief_graph _ _ _ _.
#[export] Instance bw_ok : BeliefGraphOk := engine_belief_ok _ _ _ _.

Definition bw_input (i t : string) (x y : f32) : WriteInput := {|
  i_id := i; i_text := t; i_embedding := [x; y]; i_importance := 0x3F000000;
  i_concepts := ["cat"%string]; i_payload := None; i_scope := Some "s"%string; i_source_role := None |}.
Definition bw_opened := open le new_disk ex_config open_ok.
Definition unwrap {E A} (r : Result E A) : match r with Ok _ => true | Err _ => false end = true -> A :=
  match r with Ok a => fun _ => a | Err _ => fun H => match diff_false_true H with end end.
Lemma unwrap_ok {E A} (r : Result E A) H : r = Ok (unwrap r H).
Proof. by destruct r. Qed.
Lemma bw_opens : match bw_opened with Ok _ => true | Err _ => false end = true.
Proof. by vm_compute. Defined.
Definition bw_e0 : Engine := (unwrap bw_opened bw_opens).1.
Definition bw_w1 : Write := Insert (bw_input "old" "the grey cat sleeps" 0x3F800000 0) 100 write_ok.
Definition bw_w2 : Write := Insert (bw_input "new" "the grey cat sleeps outside" 0x3F800000 0x3DCCCCCD) 101 write_ok.
Definition bw_e1 : Engine := (run_write le bw_w1 bw_e0).1.
Definition bw_e2 : Engine := (run_write le bw_w2 bw_e1).1.
Definition bw_s1 := spec_write bw_e0 bw_w1 ∅.
Definition bw_s2 := spec_write bw_e1 bw_w2 bw_s1.
(** Only the outcome is evaluated. *)
Lemma outcome_true {A} (p : A * bool) : p.2 = true -> p = (p.1, true).
Proof. by destruct p as [? []]. Qed.
Lemma bw_history : history le bw_e2 bw_s2.
Proof.
  apply (history_write le bw_e1 bw_s1 bw_w2); [|by vm_compute|apply (outcome_true (run_write le bw_w2 bw_e1)); by vm_compute].
  apply (history_write le bw_e0 ∅ bw_w1); [|by vm_compute|apply (outcome_true (run_write le bw_w1 bw_e0)); by vm_compute].
  apply (history_new le ex_config ex_vectors bw_e0 (unwrap bw_opened bw_opens).2);
    [by vm_compute|by vm_compute|by vm_compute|].
  etransitivity; [apply (unwrap_ok bw_opened bw_opens)|]. unfold bw_e0. by destruct (unwrap _ _).
Qed.

Definition bw_cfg (max_pairs : N) : BeliefConfig := {|
  refinement_cosine_threshold := Some f32_half; refinement_max_pairs_per_cycle := max_pairs;
  refinement_text_threshold := 0x3E800000; contradiction_cosine_threshold := None;
  contradiction_max_pairs_per_cycle := 4; contradiction_text_threshold := 0x3E800000;
  contradiction_require_opposition := true; contradiction_weaken_factor := f32_half;
  supersession_demotion_factor := 0x3DCCCCCD; belief_source_roles := None;
  incremental_supersession_detection := true; defer_supersession_commit := true |}.

(** What a run returns, without its state. *)
Definition answer {A B} (r : option (A * Result StorageError B)) : option (Result StorageError B) := snd <$> r.
Lemma answer_ok {A B} (r : option (A * Result StorageError B)) b :
  answer r = Some (Ok b) -> exists a, r = Some (a, Ok b).
Proof. destruct r as [[a x]|]; simpl; [|done]. intros [= ->]. eauto. Qed.
Definition bw_pair (p : ProposedSupersession) := (old_id p, new_id p, ps_kind p).
Definition pairs_of (r : option (Engine * Result StorageError (list ProposedSupersession * N)))
    : option (list (string * string * SupersessionKind) * N) :=
  match answer r with Some (Ok (ps, wm)) => Some (map bw_pair ps, wm) | _ => None end.
Definition bw_pairs := [("old"%string, "new"%string, Refinement)].
Definition bw_committed := commit_supersessions_by_id le (bw_cfg 4) bw_pairs ex_flush bw_e2.
Definition bw_e3 : Engine := bw_committed.1.


(** Committing the pair hides the older record. *)
Lemma bw_wf : belief_wf (sa_graph (graph bw_e2)).
Proof. apply named_check_wf. by vm_compute. Qed.
Lemma commit_by_id_spec_witness :
  bw_committed.2 = Ok 1 /\ "old"%string ∈ Search.superseded_ids (graph bw_e3) /\
  at_least SUPERSESSION_DEMOTION_FLOOR (demotion_of bw_e3 "old").
Proof.
  assert (Hr : bw_committed.2 = Ok 1) by (by vm_compute). split; [done|].
  destruct (commit_by_id_spec le (bw_cfg 4) (BO := bw_ok) bw_pairs ex_flush bw_e2 bw_e3 bw_committed.2 bw_wf
    (surjective_pairing bw_committed)) as (Hrev & _ & _ & Hall).
  assert (Hin : ("old"%string, "new"%string, Refinement) ∈ bw_pairs) by apply list_elem_of_singleton, eq_refl.
  pose proof (Hall Hr _ Hin) as Ho. cbn [fst] in Ho. split; [exact Ho|]. clear Ho Hall.
  unfold demotion_of. rewrite (rv_ids _ _ _ Hrev). destruct (id_index bw_e2 !! "old"%string) as [o|] eqn:Eo; [|done].
  apply (rv_floor _ _ _ Hrev).
  assert (H : match id_index bw_e2 !! "old"%string with
              | Some o => f32_geb (demotion_factor (meta bw_e2) o) SUPERSESSION_DEMOTION_FLOOR
              | None => false end = true) by (by vm_compute).
  by rewrite Eo in H.
Defined.
Definition bw_search := search_ann_candidates_filtered_with_ef le ex_search_config ex_none [f32_one; 0] 5 None None
  (Some "s"%string) 200 bw_e3.
Lemma superseded_hidden_witness :
  exists e' res, bw_search = Some (e', Ok res) /\ res.*1 = ["new"%string] /\
    forall i x, (i, x) ∈ res -> i ∉ Search.superseded_ids (graph bw_e3).
Proof.
  destruct bw_search as [[e' [res|er]]|] eqn:E;
    assert (H : match answer bw_search with Some (Ok l) => Some (l.*1) | _ => None end = Some ["new"%string])
      by (by vm_compute); rewrite E in H; [|done|done].
  exists e', res. injection H as H. split_and!; [done|done|].
  pose proof (superseded_hidden le ex_search_config ex_none bw_e3 "" [f32_one; 0] 5 None None (Some "s"%string) 200) as Hs.
  destruct (Hs eq_refl (Forall_nil_2 _) eq_refl) as [Hann _]. unfold bw_search in E. exact (Hann e' res E).
Defined.

(** Two more records, far from the first two. *)
Definition bw_other (i t : string) (y : f32) : WriteInput := {|
  i_id := i; i_text := t; i_embedding := [y; 0x3F800000]; i_importance := 0x3F000000;
  i_concepts := ["dog"%string]; i_payload := None; i_scope := Some "s"%string; i_source_role := None |}.
Definition bw_e4 : Engine := (run_write le (Insert (bw_other "old2" "a brown dog barks" 0) 102 write_ok) bw_e2).1.
Definition bw_e5 : Engine := (run_write le (Insert (bw_other "new2" "a brown dog barks loudly" 0x3DCCCCCD) 103 write_ok) bw_e4).1.
Definition bw_propose (max_pairs watermark : N) (e : Engine) :=
  propose_supersessions le (bw_cfg max_pairs) ex_search_config ex_none watermark 200 e.
Definition bw_next (r : option (Engine * Result StorageError (list ProposedSupersession * N))) (e : Engine) : Engine :=
  match r with Some (e, _) => e | None => e end.
End BeliefWitness.

(** A detection pass that stops at its bound still moves the cursor past the records
    it did not look at: with room for one proposal, the pass reports the newer of two
    restated facts, and the next pass, started from the cursor, reports nothing, although
    with room for both the first would have reported the other one too. *)
Theorem capped_pass_skips :
  BeliefWitness.pairs_of (BeliefWitness.bw_propose 4 0 BeliefWitness.bw_e5) =
    Some ([("old2"%string, "new2"%string, Refinement); ("old"%string, "new"%string, Refinement)], 5) /\
  BeliefWitness.pairs_of (BeliefWitness.bw_propose 1 0 BeliefWitness.bw_e5) =
    Some ([("old2"%string, "new2"%string, Refinement)], 5) /\
  BeliefWitness.pairs_of (BeliefWitness.bw_propose 1 5
    (BeliefWitness.bw_next (BeliefWitness.bw_propose 1 0 BeliefWitness.bw_e5) BeliefWitness.bw_e5)) = Some ([], 5).
Proof. split_and!; vm_compute; reflexivity. Qed.
