(* ===== verification/Gpu.v ===== *)
(** * The device crate, [crates/turbomemory_gpu/src/lib.rs]

    What the engine asks of a device ([GpuBackend]), what a device promises
    ([GpuBackendOk]), and the host implementation that is always available
    ([CpuFallback]), which keeps the promise. Error messages are left out. The CUDA
    backend is device I/O and is another instance. *)

From S2P Require Import Prelude Core Floats Metrics.

Inductive GpuError :=
  | CudaNotAvailable | OutOfMemory (need_mb have_mb : N) | KernelError | GInvalidArgument
  | UnsupportedDimension (d : N) | BackendNotCompiled | GTimeout.
Abbreviation GpuResult := (Result GpuError) (only parsing).

(** [chunks_exact]: the full chunks of [d] elements. *)
Definition chunks_exact {A} (d : N) (l : list A) : list (list A) :=
  map (fun i => take (N.to_nat d) (drop (i * N.to_nat d) l)) (seq 0 (length l / N.to_nat d)).

(** ** Resident matrices *)

Record ResidentMatrix (I : Type) := { rm_dim : N; rm_rows : N; rm_capacity : N; rm_inner : I }.
Arguments rm_dim {_}. Arguments rm_rows {_}. Arguments rm_capacity {_}. Arguments rm_inner {_}.

Definition memory_bytes {I} (m : ResidentMatrix I) : N := rm_capacity m * rm_dim m * 4.
Definition check_append {I} (m : ResidentMatrix I) (rows : list f32) : GpuResult N :=
  if negb (len rows mod rm_dim m =? 0) then Err GInvalidArgument
  else
    let added := len rows / rm_dim m in
    if rm_capacity m <? rm_rows m + added then Err GInvalidArgument else Ok added.
Definition I32_MAX : N := 2147483647.
Definition validate_resident_shape (dim capacity_rows : N) : GpuResult N :=
  if (dim =? 0) || (capacity_rows =? 0) then Err GInvalidArgument
  else if (I32_MAX <? dim) || (I32_MAX <? capacity_rows) then Err GInvalidArgument
  else ok_or (checked_mul dim capacity_rows) GInvalidArgument.
Definition validate_upload (vectors : list f32) (dim : N) : GpuResult unit :=
  if dim =? 0 then Err GInvalidArgument
  else if negb (len vectors mod dim =? 0) then Err GInvalidArgument else Ok tt.
Definition validate_queries (queries : list f32) (count dim : N) : GpuResult unit :=
  if negb (len queries =? count * dim) then Err GInvalidArgument else Ok tt.

(** The operations of the trait on resident matrices. A call may change the matrix
    (scratch space) even when it fails. *)
Class GpuBackend := {
  GInner : Type;
  gpu_name : string;
  available_memory : N;
  resident_create : N -> N -> GpuResult (ResidentMatrix GInner);
  resident_append : ResidentMatrix GInner -> list f32 -> ResidentMatrix GInner * GpuResult unit;
  resident_scores : ResidentMatrix GInner -> list f32 -> ResidentMatrix GInner * GpuResult (list f32);
  resident_scores_batch : ResidentMatrix GInner -> list f32 -> N -> ResidentMatrix GInner * GpuResult (list f32);
}.
Definition is_gpu_accelerated (B : GpuBackend) : bool := negb (bool_decide (gpu_name = "CPU Fallback"%string)).

(** The documented behaviour: rows are appended in order, a score is the product of the
    query with a row, a batch returns one block per query. *)
Class GpuBackendOk (B : GpuBackend) := {
  dot : list f32 -> list f32 -> f32;
  contents : ResidentMatrix GInner -> list (list f32);
  resident_ok : ResidentMatrix GInner -> Prop;
  rows_ok m : resident_ok m -> 0 < rm_dim m /\ rm_rows m = len (contents m);
  create_ok d cap m : resident_create d cap = Ok m ->
    resident_ok m /\ rm_dim m = d /\ rm_capacity m = cap /\ contents m = [];
  append_ok m rows m' : resident_ok m -> resident_append m rows = (m', Ok tt) ->
    resident_ok m' /\ rm_dim m' = rm_dim m /\ rm_capacity m' = rm_capacity m /\ rm_rows m' <= rm_capacity m' /\
    contents m' = contents m ++ chunks_exact (rm_dim m) rows;
  scores_ok m q m' s : resident_ok m -> resident_scores m q = (m', Ok s) ->
    resident_ok m' /\ rm_dim m' = rm_dim m /\ rm_capacity m' = rm_capacity m /\
    contents m' = contents m /\ s = map (dot q) (contents m);
  batch_ok m qs n m' s : resident_ok m -> resident_scores_batch m qs n = (m', Ok s) ->
    resident_ok m' /\ rm_dim m' = rm_dim m /\ rm_capacity m' = rm_capacity m /\
    contents m' = contents m /\ s = concat (map (fun q => map (dot q) (contents m)) (chunks_exact (rm_dim m) qs));
}.

(** ** Chunks *)

Lemma chunks_nil {A} d : @chunks_exact A d [] = [].
Proof. unfold chunks_exact. simpl. destruct (N.to_nat d); [done|]. by rewrite Nat.Div0.div_0_l. Qed.
Lemma chunks_cons {A} d (x l : list A) :
  0 < d -> len x = d -> chunks_exact d (x ++ l) = x :: chunks_exact d l.
Proof.
  intros Hd Hx. unfold chunks_exact, len in *. set (n := N.to_nat d) in *.
  assert (Hn : length x = n) by lia. assert (n <> 0)%nat by lia.
  rewrite length_app, Hn. replace (n + length l)%nat with (length l + 1 * n)%nat by lia.
  rewrite Nat.div_add by done. rewrite Nat.add_1_r. simpl seq. simpl map. f_equal.
  - rewrite drop_0, <- Hn. apply take_app_length.
  - rewrite <- seq_shift, map_map. apply map_ext. intros i. simpl. f_equal.
    rewrite drop_app. rewrite (drop_ge x) by lia. simpl. f_equal. lia.
Qed.
Lemma chunks_concat {A} d (ls : list (list A)) :
  0 < d -> Forall (fun l => len l = d) ls -> chunks_exact d (concat ls) = ls.
Proof.
  intros Hd. induction 1 as [|l ls Hl _ IH]; simpl; [apply chunks_nil|]. by rewrite chunks_cons, IH.
Qed.
Lemma chunks_app {A} d (a b : list A) :
  0 < d -> len a mod d = 0 -> chunks_exact d (a ++ b) = chunks_exact d a ++ chunks_exact d b.
Proof.
  intros Hd Ha. remember (N.to_nat (len a / d)) as k eqn:Hk. revert a Ha Hk.
  induction k as [|k IH]; intros a Ha Hk.
  - assert (len a / d = 0) as H0 by lia. apply N.div_small_iff in H0; [|lia].
    rewrite N.mod_small in Ha by done. destruct a as [|x a]; [by rewrite chunks_nil|]. unfold len in Ha. simpl in Ha. lia.
  - assert (Hge : d <= len a).
    { destruct (N.le_gt_cases d (len a)) as [|Hlt]; [done|]. rewrite N.div_small in Hk by done. lia. }
    rewrite <- (take_drop (N.to_nat d) a). set (x := take _ a). set (r := drop _ a).
    assert (Hx : len x = d) by (unfold x, len in *; rewrite length_take; lia).
    assert (Hr : len a = d + len r).
    { rewrite <- Hx, <- len_app. unfold x, r. by rewrite take_drop. }
    rewrite <- app_assoc, (chunks_cons d x (r ++ b)), (chunks_cons d x r) by done. simpl. f_equal. apply IH.
    + rewrite <- Ha, Hr. replace (d + len r) with (len r + 1 * d) by lia. by rewrite N.Div0.mod_add.
    + rewrite Hr in Hk. replace (d + len r) with (len r + 1 * d) in Hk by lia. rewrite N.div_add in Hk by lia. lia.
Qed.
Lemma length_chunks {A} d (l : list A) : len (chunks_exact d l) = len l / d.
Proof.
  unfold chunks_exact, len. rewrite length_map, length_seq. rewrite Nat2N.inj_div, N2Nat.id. done.
Qed.

(** ** The host implementation *)

Section cpu.
Context {K : Kernels}.
#[local] Abbreviation HostMatrix := (ResidentMatrix (list f32)) (only parsing).

Definition cpu_create (dim capacity_rows : N) : GpuResult HostMatrix :=
  _ ← validate_resident_shape dim capacity_rows;
  Ok {| rm_dim := dim; rm_rows := 0; rm_capacity := capacity_rows; rm_inner := [] |}.
Definition cpu_append (m : HostMatrix) (rows : list f32) : HostMatrix * GpuResult unit :=
  match check_append m rows with
  | Err er => (m, Err er)
  | Ok added => ({| rm_dim := rm_dim m; rm_rows := rm_rows m + added; rm_capacity := rm_capacity m;
                    rm_inner := rm_inner m ++ rows |}, Ok tt)
  end.
Definition cpu_scores (m : HostMatrix) (query : list f32) : GpuResult (list f32) :=
  _ ← validate_queries query 1 (rm_dim m);
  Ok (map (dot_product query) (chunks_exact (rm_dim m) (rm_inner m))).
Fixpoint cpu_batch_loop (m : HostMatrix) (queries : list (list f32)) : GpuResult (list f32) :=
  match queries with
  | [] => Ok []
  | q :: queries => s ← cpu_scores m q; rest ← cpu_batch_loop m queries; Ok (s ++ rest)
  end.
Definition cpu_scores_batch (m : HostMatrix) (queries : list f32) (count : N) : GpuResult (list f32) :=
  _ ← validate_queries queries count (rm_dim m);
  cpu_batch_loop m (chunks_exact (rm_dim m) queries).

#[global] Instance CpuFallback : GpuBackend := {|
  GInner := list f32; gpu_name := "CPU Fallback"; available_memory := 0;
  resident_create := cpu_create; resident_append := cpu_append;
  resident_scores m q := (m, cpu_scores m q); resident_scores_batch m qs n := (m, cpu_scores_batch m qs n) |}.

Lemma cpu_batch_spec m qs s :
  cpu_batch_loop m qs = Ok s ->
  s = concat (map (fun q => map (dot_product q) (chunks_exact (rm_dim m) (rm_inner m))) qs).
Proof.
  revert s. induction qs as [|q qs IH]; intros s; simpl; [by intros [= <-]|].
  unfold cpu_scores. destruct (validate_queries _ _ _) as [[]|]; simpl; [|done].
  destruct (cpu_batch_loop m qs) as [r|] eqn:E; simpl; [|done]. intros [= <-]. by rewrite (IH r eq_refl).
Qed.
(** *** Buffers and products on the host

    A slice out of range panics ([None]); a buffer of the other element type is an
    invalid argument. *)

Inductive HostData := HostFloats (l : list f32) | HostBytes (l : list N).
Record DeviceBuffer := { db_n : N; db_dim : N; db_bytes : N; db_inner : HostData }.

Definition upload_vectors (vectors : list f32) (dim : N) : GpuResult DeviceBuffer :=
  _ ← validate_upload vectors dim;
  Ok {| db_n := len vectors / dim; db_dim := dim; db_bytes := len vectors * 4; db_inner := HostFloats vectors |}.
Definition upload_quantized (quantized : list N) (n dim : N) : GpuResult DeviceBuffer :=
  if negb (len quantized =? n * dim) then Err GInvalidArgument
  else Ok {| db_n := n; db_dim := dim; db_bytes := len quantized; db_inner := HostBytes quantized |}.

(** Row [i] of a flat matrix. *)
Definition row_of {A} (data : list A) (dim : N) (i : nat) : option (list A) :=
  if (N.of_nat (S i) * dim <=? len data)%N then Some (take (N.to_nat dim) (drop (i * N.to_nat dim) data)) else None.
Definition rows_of {A} (data : list A) (n dim : N) : option (list (list A)) :=
  mapM (row_of data dim) (seq 0 (N.to_nat n)).

Definition batch_cosine_similarity (query : list f32) (b : DeviceBuffer) : option (GpuResult (list f32)) :=
  match db_inner b with
  | HostBytes _ => Some (Err GInvalidArgument)
  | HostFloats data =>
      match validate_queries query 1 (db_dim b) with
      | Err er => Some (Err er)
      | Ok _ => refs ← rows_of data (db_n b) (db_dim b); Some (Ok (cosine_similarity_batch query refs))
      end
  end.
Definition batch_dot_product (query : list f32) (b : DeviceBuffer) : option (GpuResult (list f32)) :=
  match db_inner b with
  | HostBytes _ => Some (Err GInvalidArgument)
  | HostFloats data =>
      match validate_queries query 1 (db_dim b) with
      | Err er => Some (Err er)
      | Ok _ => refs ← rows_of data (db_n b) (db_dim b); Some (Ok (map (dot_product query) refs))
      end
  end.
(** Each query's row has one score per vector, so [copy_from_slice] fits. *)
Definition batch_cosine_similarity_matrix (queries : list f32) (m : N) (b : DeviceBuffer)
    : option (GpuResult (list f32)) :=
  match db_inner b with
  | HostBytes _ => Some (Err GInvalidArgument)
  | HostFloats data =>
      match validate_queries queries m (db_dim b) with
      | Err er => Some (Err er)
      | Ok _ =>
          refs ← rows_of data (db_n b) (db_dim b);
          qs ← rows_of queries m (db_dim b);
          Some (Ok (concat (map (fun q => cosine_similarity_batch q refs) qs)))
      end
  end.

(** The 8-bit scan: values from -1 in steps of 2/255. *)
Definition scan_sum (q : list f32) (row : list N) (dim : N) : option f32 :=
  foldl (fun acc d => s ← acc; b ← row !! d; x ← q !! d;
           Some (f32_add s (f32_mul (f32_add f32_neg_one (f32_mul (f32_of_N b) (f32_div 0x40000000 (f32_of_N 255)))) x)))
    (Some f32_zero) (seq 0 (N.to_nat dim)).
Definition quantized_scan (quantized query : DeviceBuffer) (n dim bits_per_dim : N) : option (GpuResult (list f32)) :=
  if negb (bits_per_dim =? 8) then Some (Err GInvalidArgument)
  else
    match db_inner quantized, db_inner query with
    | HostBytes q_data, HostFloats q =>
        rs ← rows_of q_data n dim;
        scores ← mapM (fun row => scan_sum q row dim) rs;
        Some (Ok scores)
    | _, _ => Some (Err GInvalidArgument)
    end.

(** Spreading activation by sparse products. A negative [i32] as [usize] is huge. *)
Definition i32_as_usize (x : Z) : N := Z.to_N (x mod 2 ^ 64).
Definition spmv_edge (col_indices : list Z) (weights current : list f32) (acc : option f32) (e : N) : option f32 :=
  s ← acc; c ← col_indices !! N.to_nat e;
  if i32_as_usize c <? len current then
    x ← current !! N.to_nat (i32_as_usize c); w ← weights !! N.to_nat e; Some (f32_add s (f32_mul x w))
  else Some s.
(** The edges [start..stop]; an index past the columns panics. *)
Definition spmv_sum (col_indices : list Z) (weights current : list f32) (start stop : N) : option f32 :=
  if stop <=? start then Some f32_zero
  else if len col_indices <? stop then None
  else foldl (spmv_edge col_indices weights current) (Some f32_zero)
         (map N.of_nat (seq (N.to_nat start) (N.to_nat (stop - start)))).
Definition spmv_row (row_ptrs col_indices : list Z) (weights current : list f32) (decay : f32) (i : nat) : option f32 :=
  start ← row_ptrs !! i; stop ← row_ptrs !! S i;
  sum ← spmv_sum col_indices weights current (i32_as_usize start) (i32_as_usize stop);
  cur ← current !! i;
  Some (f32_clamp (f32_add cur (f32_mul sum decay)) f32_zero 0x41200000).
Fixpoint spmv_hops (row_ptrs col_indices : list Z) (weights current : list f32) (decay : f32) (hops : nat)
    : option (list f32) :=
  match hops with
  | O => Some current
  | S hops =>
      next ← mapM (spmv_row row_ptrs col_indices weights current decay) (seq 0 (length current));
      spmv_hops row_ptrs col_indices weights next decay hops
  end.
Definition spreading_activation_spmv (row_ptrs col_indices : list Z) (weights seed_energies : list f32)
    (decay : f32) (hops : nat) : option (GpuResult (list f32)) :=
  if negb (len row_ptrs =? len seed_energies + 1) then Some (Err GInvalidArgument)
  else option_map Ok (spmv_hops row_ptrs col_indices weights seed_energies decay hops).

(** The host keeps the promise. *)
#[global] Instance CpuFallbackOk : GpuBackendOk CpuFallback.
Proof.
  refine {| dot := dot_product : list f32 -> list f32 -> f32;
    contents := fun m : ResidentMatrix (@GInner CpuFallback) => chunks_exact (rm_dim m) (rm_inner m);
    resident_ok := fun m : ResidentMatrix (@GInner CpuFallback) =>
      0 < rm_dim m /\ len (rm_inner m) mod rm_dim m = 0 /\ rm_rows m = len (rm_inner m) / rm_dim m |}; simpl.
  - intros m (Hd & _ & Hr). by rewrite length_chunks.
  - intros d cap m. unfold cpu_create, validate_resident_shape.
    destruct (N.eqb_spec d 0) as [|Hd0]; [done|]. destruct (cap =? 0); [done|]. cbn [orb].
    destruct (_ || _); [done|]. destruct (ok_or _ _) as [x|er]; [|done]. intros [= <-]. simpl. rewrite chunks_nil.
    split_and!; try done. lia.
  - intros m rows m' (Hd & Hm & Hr). unfold cpu_append, check_append.
    destruct (N.eqb_spec (len rows mod rm_dim m) 0) as [H0|]; simpl; [|done].
    destruct (N.ltb_spec (rm_capacity m) (rm_rows m + len rows / rm_dim m)); [done|].
    intros [= <-]. simpl. rewrite len_app.
    assert (E : len (rm_inner m) = len (rm_inner m) / rm_dim m * rm_dim m).
    { pose proof (N.div_mod (len (rm_inner m)) (rm_dim m)). lia. }
    split_and!; try done; [| |by apply chunks_app].
    + by rewrite N.Div0.add_mod, Hm, H0, N.add_0_l, N.Div0.mod_0_l.
    + rewrite Hr. rewrite E at 2. rewrite N.add_comm, (N.add_comm (_ * _)). by rewrite N.div_add by lia.
  - intros m q m' s (Hd & Hm & Hr) [= <- Hs]. unfold cpu_scores in Hs.
    destruct (validate_queries _ _ _) as [[]|]; simpl in Hs; [|done]. injection Hs as <-. by split_and!.
  - intros m qs n m' s (Hd & Hm & Hr) [= <- Hs]. unfold cpu_scores_batch in Hs.
    destruct (validate_queries _ _ _) as [[]|]; simpl in Hs; [|done]. apply cpu_batch_spec in Hs. by split_and!.
Defined.

End cpu.
