(* ===== verification/GpuMirror.v ===== *)
(** * Exact search on the device, [crates/turbomemory_storage/src/gpu_exact.rs]

    The mirror of a store's vectors in device memory: brought up to date before every
    product, switched off for good by any device error, and shared by concurrent
    searches, which queue up and are answered in groups by whoever holds the device.

    The device is a [GpuBackend]. A store is what the mirror reads of it: the number of
    vectors, and the rows of a range. One chunk of an upload is read at a time and the
    store can grow in between, so each chunk is read from a store of its own. The lock
    of the matrix is held for a whole round; the queue has its own lock, so searches
    join it at any moment ([gstep]). *)

From S2P Require Import Prelude Core Metrics VectorStore Gpu.

Definition UPLOAD_CHUNK_BYTES : N := 33554432.
Definition BATCH_SCORE_BYTES : N := 67108864.
Definition MIN_CAPACITY_ROWS : N := 8192.
Definition MAX_GROUP : nat := 64.

(** A waiting search: which one, and its query. *)
Record Request := { rq_id : N; rq_query : list f32 }.

(** What the mirror reads of a store. *)
Record StoreView := { sv_count : N; sv_rows : N -> N -> option (list f32) }.
Definition view_of_store (en : Endian) (s : VectorStore.Inner) : StoreView :=
  {| sv_count := VectorStore.count s; sv_rows := VectorStore.rows en s |}.

Section mirror.
Context {B : GpuBackend}.
#[local] Abbreviation Matrix := (ResidentMatrix GInner) (only parsing).

Record GpuExactIndex := {
  gi_dim : N;
  budget_bytes : N;
  gi_matrix : option Matrix;
  gi_disabled : bool;
  gi_rows : N;
  gi_capacity_rows : N;
  gi_queries : N;
  gi_device_calls : N;
}.
Definition new_index (dim budget_mb : N) : GpuExactIndex := {|
  gi_dim := dim;
  budget_bytes := if 0 <? budget_mb then saturating_mul budget_mb 1048576
                  else if is_gpu_accelerated B then available_memory / 2 else u64_max;
  gi_matrix := None; gi_disabled := false; gi_rows := 0; gi_capacity_rows := 0; gi_queries := 0;
  gi_device_calls := 0 |}.
Record GpuSearchStats := {
  st_backend : string; st_active : bool; st_rows : N; st_capacity_rows : N; st_budget_bytes : N;
  st_memory_bytes : N; st_queries : N; st_device_calls : N;
}.
Definition stats (g : GpuExactIndex) : GpuSearchStats := {|
  st_backend := gpu_name; st_active := negb (gi_disabled g); st_rows := gi_rows g;
  st_capacity_rows := gi_capacity_rows g; st_budget_bytes := budget_bytes g;
  st_memory_bytes := gi_capacity_rows g * gi_dim g * 4; st_queries := gi_queries g;
  st_device_calls := gi_device_calls g |}.

Definition set_matrix (m : option Matrix) (rows cap : N) (g : GpuExactIndex) : GpuExactIndex := {|
  gi_dim := gi_dim g; budget_bytes := budget_bytes g; gi_matrix := m; gi_disabled := gi_disabled g;
  gi_rows := rows; gi_capacity_rows := cap; gi_queries := gi_queries g; gi_device_calls := gi_device_calls g |}.
Definition put_matrix (m : Matrix) (g : GpuExactIndex) : GpuExactIndex :=
  set_matrix (Some m) (gi_rows g) (gi_capacity_rows g) g.
Definition count_call (n : N) (g : GpuExactIndex) : GpuExactIndex := {|
  gi_dim := gi_dim g; budget_bytes := budget_bytes g; gi_matrix := gi_matrix g; gi_disabled := gi_disabled g;
  gi_rows := gi_rows g; gi_capacity_rows := gi_capacity_rows g;
  gi_queries := wadd64 (gi_queries g) n; gi_device_calls := wadd64 (gi_device_calls g) 1 |}.
Definition switch_off (g : GpuExactIndex) : GpuExactIndex := {|
  gi_dim := gi_dim g; budget_bytes := budget_bytes g; gi_matrix := None; gi_disabled := true;
  gi_rows := 0; gi_capacity_rows := 0; gi_queries := gi_queries g; gi_device_calls := gi_device_calls g |}.

(** ** Bringing the mirror up to date *)

Definition row_bytes (g : GpuExactIndex) : N := gi_dim g * 4.
(** Half as much again, unless only an exact fit is within the budget. *)
Definition wanted_capacity (g : GpuExactIndex) (count : N) : N :=
  let capacity := N.max (wadd64 count (count / 2)) MIN_CAPACITY_ROWS in
  if budget_bytes g <? saturating_mul capacity (row_bytes g) then N.max count 1 else capacity.
Definition needs_allocation (g : GpuExactIndex) (count : N) : bool :=
  match gi_matrix g with None => true | Some m => rm_capacity m <? count end.
Definition allocate (g : GpuExactIndex) (count : N) : GpuExactIndex * GpuResult unit :=
  if needs_allocation g count then
    let capacity := wanted_capacity g count in
    let need := saturating_mul capacity (row_bytes g) in
    if budget_bytes g <? need then (g, Err (OutOfMemory (need / 1048576) (budget_bytes g / 1048576)))
    else
      let g := set_matrix None 0 (gi_capacity_rows g) g in
      match resident_create (gi_dim g) capacity with
      | Err er => (g, Err er)
      | Ok m => (set_matrix (Some m) 0 capacity g, Ok tt)
      end
  else (g, Ok tt).
(** The upload, a chunk at a time; [at_row] is the store when the chunk that starts at a
    row is read. [None]: the loop did not end. *)
Fixpoint upload (fuel : nat) (per_chunk count : N) (at_row : N -> StoreView) (m : Matrix)
    : option (Matrix * GpuResult unit) :=
  if count <=? rm_rows m then Some (m, Ok tt)
  else
    match fuel with
    | O => None
    | S fuel =>
        let start := rm_rows m in
        let stop := N.min (start + per_chunk) count in
        match sv_rows (at_row start) start stop with
        | None => Some (m, Err GInvalidArgument)
        | Some rows =>
            match resident_append m rows with
            | (m, Err er) => Some (m, Err er)
            | (m, Ok _) => upload fuel per_chunk count at_row m
            end
        end
    end.
Definition rows_per_chunk (g : GpuExactIndex) : N := N.max (UPLOAD_CHUNK_BYTES / row_bytes g) 1.
Definition sync (g : GpuExactIndex) (count : N) (at_row : N -> StoreView) : option (GpuExactIndex * GpuResult unit) :=
  match allocate g count with
  | (g, Err er) => Some (g, Err er)
  | (g, Ok _) =>
      match gi_matrix g with
      | None => Some (g, Err GInvalidArgument) (* allocated above *)
      | Some m =>
          '(m, r) ← upload (N.to_nat count) (rows_per_chunk g) count at_row m;
          match r with
          | Err er => Some (put_matrix m g, Err er)
          | Ok _ => Some (set_matrix (Some m) (rm_rows m) (gi_capacity_rows g) g, Ok tt)
          end
      end
  end.

(** ** Products *)

(** One product for a group: a row of scores for each query. *)
Definition product (g : GpuExactIndex) (m : Matrix) (queries : list (list f32)) : GpuExactIndex * GpuResult (list (list f32)) :=
  let n := len queries in
  let '(m, r) := resident_scores_batch m (concat queries) n in
  let g := put_matrix m g in
  match r with
  | Err er => (g, Err er)
  | Ok scores => if negb (len scores =? rm_rows m * n) then (g, Err KernelError)
                 else (g, Ok (chunks_exact (rm_rows m) scores))
  end.
Definition answer (g : GpuExactIndex) (count : N) (at_row : N -> StoreView) (group : list Request)
    : option (GpuExactIndex * GpuResult (list (list f32))) :=
  '(g, r) ← sync g count at_row;
  match r, gi_matrix g with
  | Err er, _ => Some (g, Err er)
  | Ok _, None => Some (g, Err GInvalidArgument)
  | Ok _, Some m =>
      if rm_rows m =? 0 then Some (g, Ok (map (fun _ => []) group))
      else
        let g := count_call (len group) g in
        match group with
        | [only] =>
            let '(m, r) := resident_scores m (rq_query only) in
            Some (put_matrix m g, match r with Ok s => Ok [s] | Err er => Err er end)
        | _ => Some (product g m (map rq_query group))
        end
  end.

(** A batch, in groups that keep the score matrix small: the rows served before an
    error, which [finish] has run on, and the outcome. *)
Fixpoint batch_groups (fuel : nat) (per_group : nat) (g : GpuExactIndex) (queries : list (list f32))
    (out : list (list f32)) : GpuExactIndex * list (list f32) * GpuResult unit :=
  match queries, fuel with
  | [], _ => (g, out, Ok tt)
  | _, O => (g, out, Ok tt)
  | _, S fuel =>
      let group := take per_group queries in
      match gi_matrix g with
      | None => (g, out, Err GInvalidArgument)
      | Some m =>
          match product (count_call (len group) g) m group with
          | (g, Err er) => (g, out, Err er)
          | (g, Ok rows) => batch_groups fuel per_group g (drop per_group queries) (out ++ rows)
          end
      end
  end.
Definition batch_rows (g : GpuExactIndex) (count : N) (at_row : N -> StoreView) (queries : list (list f32))
    : option (GpuExactIndex * list (list f32) * GpuResult unit) :=
  '(g, r) ← sync g count at_row;
  match r, gi_matrix g with
  | Err er, _ => Some (g, [], Err er)
  | Ok _, None => Some (g, [], Err GInvalidArgument)
  | Ok _, Some m =>
      if rm_rows m =? 0 then Some (g, map (fun _ => []) queries, Ok tt)
      else
        let per_group := N.max (BATCH_SCORE_BYTES / (rm_rows m * 4)) 1 in
        Some (batch_groups (length queries) (N.to_nat per_group) g queries [])
  end.
Definition settle {T} (g : GpuExactIndex) (r : GpuResult T) : GpuExactIndex * option T :=
  match r with Ok v => (g, Some v) | Err _ => (switch_off g, None) end.
Definition scores_batch (g : GpuExactIndex) (count : N) (at_row : N -> StoreView) (queries : list (list f32))
    : option (GpuExactIndex * list (list f32) * bool) :=
  if gi_disabled g then Some (g, [], false)
  else
    '(g, rows, r) ← batch_rows g count at_row queries;
    match settle g r with
    | (g, Some _) => Some (g, rows, true)
    | (g, None) => Some (g, rows, false)
    end.

(** ** The queue *)

(** The device, the searches in line, the group being answered, and the replies. *)
Record GpuSystem := {
  sy_index : GpuExactIndex;
  sy_waiting : list Request;
  sy_flight : option (list Request);
  sy_replies : gmap N (option (list f32));
}.
(** [theirs.scores = rows.next()]: a row for each, as long as there are any. *)
Fixpoint deliver (group : list Request) (rows : list (list f32)) (replies : gmap N (option (list f32)))
    : gmap N (option (list f32)) :=
  match group with
  | [] => replies
  | r :: group => deliver group (tail rows) (<[rq_id r := head rows]> replies)
  end.
(** The holder takes the head of the queue. *)
Definition take_group (s : GpuSystem) : GpuSystem := {|
  sy_index := sy_index s; sy_waiting := drop MAX_GROUP (sy_waiting s);
  sy_flight := Some (take MAX_GROUP (sy_waiting s)); sy_replies := sy_replies s |}.
(** The product is done: [settle], then the replies. A failure answers everyone who
    waits as well. *)
Definition finish_group (s : GpuSystem) (group : list Request) (r : GpuExactIndex * GpuResult (list (list f32)))
    : GpuSystem :=
  match settle r.1 r.2 with
  | (g, Some rows) => {| sy_index := g; sy_waiting := sy_waiting s; sy_flight := None;
                         sy_replies := deliver group rows (sy_replies s) |}
  | (g, None) => {| sy_index := g; sy_waiting := []; sy_flight := None;
                    sy_replies := deliver group [] (deliver (sy_waiting s) [] (sy_replies s)) |}
  end.
Definition join (r : Request) (s : GpuSystem) : GpuSystem := {|
  sy_index := sy_index s; sy_waiting := sy_waiting s ++ [r]; sy_flight := sy_flight s; sy_replies := sy_replies s |}.
(** A search that finds the mirror off leaves the line. *)
Definition leave (i : N) (s : GpuSystem) : GpuSystem := {|
  sy_index := sy_index s; sy_waiting := filter (fun r => rq_id r <> i) (sy_waiting s);
  sy_flight := sy_flight s; sy_replies := <[i := None]> (sy_replies s) |}.
Definition joins (rs : list Request) (s : GpuSystem) : GpuSystem := fold_left (fun s r => join r s) rs s.

(** What the rest of the program does during one turn of the holder of the device: the
    searches that queue up before the group is taken and while it is answered, the
    number of vectors the store has, and the store each chunk is read from. *)
Record Round := { rd_before : list Request; rd_during : list Request; rd_count : N; rd_view : N -> StoreView }.
(** The loop of the search [i], which holds the device. [None]: it is still waiting
    when the given turns are over. *)
Fixpoint scores_loop (i : N) (rounds : list Round) (s : GpuSystem) : option (GpuSystem * option (list f32)) :=
  match sy_replies s !! i with
  | Some reply => Some (s, reply)
  | None =>
      if gi_disabled (sy_index s) then Some (leave i s, None)
      else
        match rounds with
        | [] => None
        | rd :: rounds =>
            let s := joins (rd_before rd) s in
            let group := take MAX_GROUP (sy_waiting s) in
            match group with
            | [] => Some (s, None) (* unreachable: an unanswered search is queued *)
            | _ =>
                let s := joins (rd_during rd) (take_group s) in
                r ← answer (sy_index s) (rd_count rd) (rd_view rd) group;
                scores_loop i rounds (finish_group s group r)
            end
        end
  end.
(** [locked]: what happens between joining the line and holding the device. *)
Definition scores (r : Request) (locked : GpuSystem -> GpuSystem) (rounds : list Round) (s : GpuSystem)
    : option (GpuSystem * option (list f32)) :=
  if gi_disabled (sy_index s) then Some (s, None) else scores_loop (rq_id r) rounds (locked (join r s)).

(** ** The mirror holds the store's rows *)

Context {BO : GpuBackendOk B}.

(** A view of a store whose vectors are [L]. *)
Definition reads (L : list (list f32)) (v : StoreView) : Prop :=
  forall a b, a <= b -> b <= len L -> sv_rows v a b = Some (concat (slice a (b - a) L)).

(** The matrix holds the first rows of [L], within the budget. *)
Record matrix_ok (g : GpuExactIndex) (L : list (list f32)) (m : Matrix) : Prop := {
  mo_ok : resident_ok m;
  mo_dim : rm_dim m = gi_dim g;
  mo_rows : contents m `prefix_of` L;
  mo_cap : len (contents m) <= rm_capacity m;
  mo_budget : saturating_mul (rm_capacity m) (row_bytes g) <= budget_bytes g;
}.
Definition mirror_ok (g : GpuExactIndex) (L : list (list f32)) : Prop :=
  forall m, gi_matrix g = Some m -> matrix_ok g L m.

Lemma prefix_slice {A} (L L' : list A) a b : L `prefix_of` L' -> a <= b -> b <= len L -> slice a (b - a) L' = slice a (b - a) L.
Proof. intros [k ->] Hab Hb. apply slice_app_l. lia. Qed.
Lemma take_slice {A} (L : list A) a b : a <= b -> take (N.to_nat a) L ++ slice a (b - a) L = take (N.to_nat b) L.
Proof.
  intros Hab. unfold slice. rewrite take_drop_commute.
  replace (N.to_nat a + N.to_nat (b - a))%nat with (N.to_nat b) by lia.
  etransitivity; [|apply (take_drop (N.to_nat a))]. f_equal. rewrite take_take. f_equal. lia.
Qed.
Lemma prefix_is_take {A} (l L : list A) : l `prefix_of` L -> l = take (length l) L.
Proof. intros [k ->]. by rewrite take_app_length. Qed.

Lemma upload_spec fuel g per_chunk L at_row m :
  Forall (fun r => len r = gi_dim g) L -> 0 < per_chunk ->
  (forall a, exists L', L `prefix_of` L' /\ reads L' (at_row a)) ->
  matrix_ok g L m -> (length L - length (contents m) <= fuel)%nat ->
  exists m' r, upload fuel per_chunk (len L) at_row m = Some (m', r) /\
    (r = Ok tt -> matrix_ok g L m' /\ contents m' = L).
Proof.
  intros HL Hp Hv. revert m. induction fuel as [|fuel IH]; intros m Hm Hf.
  - destruct Hm as [H1 H2 H3 H4 H5]. destruct (rows_ok m H1) as [Hd Hr]. simpl. rewrite Hr.
    pose proof (prefix_length _ _ H3). rewrite (proj2 (N.leb_le _ _)) by (unfold len; lia).
    exists m, (Ok tt). split; [done|]. intros _. split; [done|]. rewrite (prefix_is_take _ _ H3).
    apply take_ge. lia.
  - pose proof Hm as [H1 H2 H3 H4 H5]. destruct (rows_ok m H1) as [Hd Hr]. simpl.
    pose proof (prefix_length _ _ H3) as Hlen. destruct (N.leb_spec (len L) (rm_rows m)) as [Hle|Hlt].
    + exists m, (Ok tt). split; [done|]. intros _. split; [done|]. rewrite (prefix_is_take _ _ H3).
      apply take_ge. unfold len in *. lia.
    + set (a := rm_rows m) in *. set (b := N.min (a + per_chunk) (len L)).
      destruct (Hv a) as (L' & HL' & Hread).
      assert (Hb : a < b <= len L) by (unfold b; lia).
      rewrite Hread by (try lia; destruct HL' as [k ->]; rewrite len_app; lia).
      rewrite (prefix_slice L L') by (try done; lia).
      destruct (resident_append m _) as [m1 [[]|er]] eqn:Ha; [|exists m1, (Err er); by split].
      destruct (append_ok _ _ _ H1 Ha) as (A1 & A2 & A3 & A4 & A5).
      assert (HLs : Forall (fun r => len r = rm_dim m) (slice a (b - a) L)).
      { rewrite H2. unfold slice. by apply Forall_take, Forall_drop. }
      rewrite (chunks_concat _ _ Hd HLs) in A5.
      assert (Hc : contents m = take (N.to_nat a) L).
      { rewrite (prefix_is_take _ _ H3) at 1. f_equal. unfold len in *. lia. }
      rewrite Hc, take_slice in A5 by lia.
      assert (Hm1 : matrix_ok g L m1).
      { destruct (rows_ok m1 A1) as [_ R1]. split; [done|congruence| | |by rewrite A3].
        - rewrite A5. apply prefix_take.
        - lia. }
      apply IH; [done|]. rewrite A5, length_take. rewrite Hc, length_take in Hf. unfold len in *. lia.
Qed.

(** The parts of an index no search changes. *)
Definition same_limits (g g' : GpuExactIndex) : Prop := gi_dim g' = gi_dim g /\ budget_bytes g' = budget_bytes g.
Lemma matrix_ok_limits g g' L m : same_limits g g' -> matrix_ok g L m -> matrix_ok g' L m.
Proof. intros [E1 E2] [H1 H2 H3 H4 H5]. split; unfold row_bytes in *; rewrite ?E1, ?E2; auto; congruence. Qed.
Lemma matrix_ok_grow g L L' m : L `prefix_of` L' -> matrix_ok g L m -> matrix_ok g L' m.
Proof. intros HL [H1 H2 H3 H4 H5]. split; auto. by etrans. Qed.

Definition allocated (g : GpuExactIndex) (L : list (list f32)) (gr : GpuExactIndex * GpuResult unit) : Prop :=
  same_limits g gr.1 /\ gi_disabled gr.1 = gi_disabled g /\ mirror_ok gr.1 L /\
  (gr.2 = Ok tt -> exists m, gi_matrix gr.1 = Some m).
Lemma allocate_new g L capacity :
  mirror_ok g L -> allocated g L
    (let need := saturating_mul capacity (row_bytes g) in
     if budget_bytes g <? need then (g, Err (OutOfMemory (need / 1048576) (budget_bytes g / 1048576)))
     else
       let g := set_matrix None 0 (gi_capacity_rows g) g in
       match resident_create (gi_dim g) capacity with
       | Err er => (g, Err er)
       | Ok m => (set_matrix (Some m) 0 capacity g, Ok tt)
       end).
Proof.
  intros Hg. cbv zeta. destruct (N.ltb_spec (budget_bytes g) (saturating_mul capacity (row_bytes g))) as [|Hb].
  { by split_and!. }
  cbn [gi_dim set_matrix]. destruct (resident_create (gi_dim g) capacity) as [m|er] eqn:Hc.
  - destruct (create_ok _ _ _ Hc) as (H1 & H2 & H3 & H4). split_and!; simpl; eauto; [by split|].
    intros m' [= <-]. split; simpl; auto; [rewrite H4; apply prefix_nil|rewrite H4, H3; unfold len; simpl; lia|by rewrite H3].
  - by split_and!.
Qed.
Lemma allocate_spec g L : mirror_ok g L -> allocated g L (allocate g (len L)).
Proof.
  intros Hg. unfold allocate, needs_allocation. destruct (gi_matrix g) as [m|] eqn:Em; [|by apply allocate_new].
  destruct (rm_capacity m <? len L); [by apply allocate_new|]. split_and!; simpl; eauto. by split.
Qed.

(** After a successful [sync] the mirror holds exactly the vectors that the store had
    when it started. *)
Lemma sync_spec g L at_row :
  0 < gi_dim g -> Forall (fun r => len r = gi_dim g) L -> mirror_ok g L ->
  (forall a, exists L', L `prefix_of` L' /\ reads L' (at_row a)) ->
  exists g' r, sync g (len L) at_row = Some (g', r) /\ same_limits g g' /\ gi_disabled g' = gi_disabled g /\
    (r = Ok tt -> exists m, gi_matrix g' = Some m /\ matrix_ok g' L m /\ contents m = L).
Proof.
  intros Hd HL Hg Hv. unfold sync. pose proof (allocate_spec g L Hg) as (Hl & Hdis & Hm & Hs).
  destruct (allocate g (len L)) as [g1 [[]|er]]; simpl in *; [|exists g1, (Err er); by split_and!].
  destruct (Hs eq_refl) as [m Em]. rewrite Em. pose proof (Hm m Em) as Hok.
  destruct (upload_spec (N.to_nat (len L)) g1 (rows_per_chunk g1) L at_row m) as (m' & r & -> & Hr).
  - destruct Hl as [-> _]. done.
  - unfold rows_per_chunk. lia.
  - done.
  - done.
  - unfold len. lia.
  - simpl. destruct r as [[]|er]; [|exists (put_matrix m' g1), (Err er); by split_and!].
    destruct (Hr eq_refl) as [Hm' Hc]. eexists _, (Ok tt). split_and!; [done| | |]; simpl; [done|done|].
    intros _. exists m'. split_and!; [done|by eapply matrix_ok_limits; [|exact Hm']|done].
Qed.

Lemma product_spec g L m queries g' r :
  matrix_ok g L m -> contents m = L -> 0 < len L -> Forall (fun q => len q = gi_dim g) queries ->
  product g m queries = (g', r) ->
  same_limits g g' /\ gi_disabled g' = gi_disabled g /\
  (forall rows, r = Ok rows -> (exists m', gi_matrix g' = Some m' /\ matrix_ok g' L m' /\ contents m' = L) /\
     rows = map (fun q => map (dot q) L) queries).
Proof.
  intros [H1 H2 H3 H4 H5] Hc HL Hq. unfold product.
  destruct (resident_scores_batch m (concat queries) (len queries)) as [m' [s|er]] eqn:Hb;
    [|intros [= <- <-]; split_and!; by try done].
  destruct (batch_ok _ _ _ _ _ H1 Hb) as (B1 & B2 & B3 & B4 & ->).
  destruct (rows_ok m H1) as [Hd Hr]. destruct (rows_ok m' B1) as [_ Hr'].
  rewrite chunks_concat by (try done; by rewrite H2).
  destruct (negb _); intros [= <- <-]; split_and!; try done. intros rows [= <-]. split.
  - exists m'. split_and!; [done| |by rewrite B4]. split; simpl; rewrite ?B2, ?B3, ?B4; auto.
  - rewrite chunks_concat; [by rewrite Hc| |].
    + rewrite Hr', B4, Hc. done.
    + apply Forall_forall. intros x (q & -> & _)%list_elem_of_fmap. rewrite Hr', B4. unfold len. by rewrite length_map.
Qed.

(** What every query of a group is owed. *)
Definition exact_rows (L queries : list (list f32)) : list (list f32) := map (fun q => map (dot q) L) queries.
Lemma exact_nil queries : exact_rows [] queries = map (fun _ => []) queries.
Proof. done. Qed.

Section with_store.
Context (L : list (list f32)) (at_row : N -> StoreView).
Context (Hv : forall a, exists L', L `prefix_of` L' /\ reads L' (at_row a)).

Lemma answer_spec g group :
  0 < gi_dim g -> Forall (fun r => len r = gi_dim g) L -> mirror_ok g L ->
  Forall (fun r => len (rq_query r) = gi_dim g) group ->
  exists g' r, answer g (len L) at_row group = Some (g', r) /\ same_limits g g' /\ gi_disabled g' = gi_disabled g /\
    (forall rows, r = Ok rows -> mirror_ok g' L /\ rows = exact_rows L (map rq_query group)).
Proof.
  intros Hd HL Hg Hq. unfold answer.
  destruct (sync_spec g L at_row Hd HL Hg Hv) as (g1 & r1 & -> & Hl & Hdis & Hr1). simpl.
  destruct r1 as [[]|er]; [|by exists g1, (Err er)].
  destruct (Hr1 eq_refl) as (m & Em & Hm & Hc). rewrite Em. destruct (rows_ok m (mo_ok _ _ _ Hm)) as [Hmd Hrows].
  assert (Hg1 : mirror_ok g1 L) by (intros m1 E1; rewrite Em in E1; by injection E1 as <-).
  destruct (N.eqb_spec (rm_rows m) 0) as [H0|H0].
  { exists g1, (Ok (map (fun _ => []) group)). split_and!; try done. intros rows [= <-]. split; [done|].
    rewrite Hrows, Hc in H0. assert (L = []) as -> by (destruct L; [done|unfold len in H0; simpl in H0; lia]).
    unfold exact_rows. simpl. by rewrite map_map. }
  assert (HL0 : 0 < len L) by (rewrite <- Hc; lia).
  set (g2 := count_call (len group) g1).
  assert (Hl2 : same_limits g1 g2) by (by split). pose proof (matrix_ok_limits _ _ _ _ Hl2 Hm) as Hm2.
  assert (Hprod : forall gr, product g2 m (map rq_query group) = gr -> exists g' r, Some gr = Some (g', r) /\
    same_limits g g' /\ gi_disabled g' = gi_disabled g /\
    (forall rows, r = Ok rows -> mirror_ok g' L /\ rows = exact_rows L (map rq_query group))).
  { intros [g3 r3] Hp. apply (product_spec g2 L) in Hp as (P1 & P2 & P3); [|done..|].
    - exists g3, r3. split_and!; [done|destruct Hl, P1; split; etrans; eauto|by etrans|].
      intros rows ->. destruct (P3 rows eq_refl) as ((m3 & E3 & Hm3 & _) & ->). split; [|done].
      intros m4 E4. rewrite E3 in E4. by injection E4 as <-.
    - apply Forall_fmap. eapply Forall_impl; [exact Hq|]. intros x Hx. simpl. rewrite Hx. by destruct Hl as [-> _]. }
  destruct group as [|only [|r2 group]]; [by apply Hprod| |by apply Hprod].
  destruct (resident_scores m (rq_query only)) as [m' [s|er]] eqn:Hs; [|exists (put_matrix m' g2), (Err er); by split_and!].
  destruct (scores_ok _ _ _ _ (mo_ok _ _ _ Hm) Hs) as (S1 & S2 & S3 & S4 & ->).
  eexists _, _. split_and!; [done|done|done|]. intros rows [= <-]. rewrite Hc. split; [|done].
  intros m4 [= <-]. destruct Hm2 as [A1 A2 A3 A4 A5]. split; simpl; rewrite ?S2, ?S3, ?S4; auto.
Qed.

Lemma batch_groups_spec fuel per_group g queries out m g' served r :
  (0 < per_group)%nat -> (length queries <= fuel)%nat -> 0 < len L ->
  gi_matrix g = Some m -> matrix_ok g L m -> contents m = L -> Forall (fun q => len q = gi_dim g) queries ->
  batch_groups fuel per_group g queries out = (g', served, r) ->
  same_limits g g' /\ gi_disabled g' = gi_disabled g /\
  (exists n, served = out ++ exact_rows L (take n queries)) /\
  (r = Ok tt -> mirror_ok g' L /\ served = out ++ exact_rows L queries).
Proof.
  intros Hp. revert g queries out m. induction fuel as [|fuel IH]; intros g queries out m Hf HL0 Em Hm Hc Hq.
  - destruct queries; [|simpl in Hf; lia]. simpl. intros [= <- <- <-].
    assert (mirror_ok g L) by (intros m1 E1; rewrite Em in E1; by injection E1 as <-).
    split_and!; [by split|done|exists 0%nat; simpl; by rewrite app_nil_r|]. intros _. simpl. by rewrite app_nil_r.
  - destruct queries as [|q queries].
    { simpl. intros [= <- <- <-].
      assert (mirror_ok g L) by (intros m1 E1; rewrite Em in E1; by injection E1 as <-).
      split_and!; [by split|done|exists 0%nat; simpl; by rewrite app_nil_r|]. intros _. simpl. by rewrite app_nil_r. }
    set (qs := q :: queries) in *. change (batch_groups (S fuel) per_group g qs out) with
      (match gi_matrix g with
       | None => (g, out, Err GInvalidArgument)
       | Some m =>
           match product (count_call (len (take per_group qs)) g) m (take per_group qs) with
           | (g, Err er) => (g, out, Err er)
           | (g, Ok rows) => batch_groups fuel per_group g (drop per_group qs) (out ++ rows)
           end
       end).
    rewrite Em. set (g1 := count_call _ g). assert (Hl1 : same_limits g g1) by (by split).
    destruct (product g1 m (take per_group qs)) as [g2 r2] eqn:Hprod.
    apply (product_spec g1 L) in Hprod as (P1 & P2 & P3); [|by eapply matrix_ok_limits|done|done|by apply Forall_take].
    destruct r2 as [rows|er].
    2: { intros [= <- <- <-]. split_and!; [done|done|exists 0%nat; simpl; by rewrite app_nil_r|done]. }
    destruct (P3 rows eq_refl) as ((m2 & E2 & Hm2 & Hc2) & ->). intros Hrun.
    assert (Hlim : same_limits g g2) by (destruct P1; split; etrans; eauto).
    eapply IH in Hrun as (I1 & I2 & (n & I3) & I4); [|rewrite length_drop; unfold qs in *; simpl in *; lia|done|exact E2|done|done|].
    + split_and!; [destruct Hlim, I1; split; etrans; eauto|by etrans| |].
      * exists (per_group + n)%nat. rewrite I3, <- app_assoc. f_equal. unfold exact_rows. rewrite <- map_app.
        f_equal. rewrite <- take_take_drop. done.
      * intros Hr. destruct (I4 Hr) as [I5 ->]. split; [done|]. rewrite <- app_assoc. f_equal.
        unfold exact_rows. rewrite <- map_app. by rewrite take_drop.
    + destruct Hlim as [-> _]. by apply Forall_drop.
Qed.

Lemma scores_batch_spec g queries :
  0 < gi_dim g -> Forall (fun r => len r = gi_dim g) L -> mirror_ok g L ->
  Forall (fun q => len q = gi_dim g) queries ->
  exists g' served b, scores_batch g (len L) at_row queries = Some (g', served, b) /\ same_limits g g' /\ mirror_ok g' L /\
    (exists n, served = exact_rows L (take n queries)) /\
    (if b then served = exact_rows L queries /\ gi_disabled g' = gi_disabled g else gi_disabled g' = true).
Proof.
  intros Hd HL Hg Hq. unfold scores_batch.
  destruct (gi_disabled g) eqn:Edis; [exists g, [], false; split_and!; [done|by split|done|by exists 0%nat|done]|].
  unfold batch_rows. destruct (sync_spec g L at_row Hd HL Hg Hv) as (g1 & r1 & -> & Hl & Hdis & Hr1). simpl.
  assert (Hoff : forall g2, mirror_ok (switch_off g2) L) by (by intros g2 m).
  destruct r1 as [[]|er]; simpl; [|exists (switch_off g1), [], false; split_and!; [done|done|done|by exists 0%nat|done]].
  destruct (Hr1 eq_refl) as (m & Em & Hm & Hc). rewrite Em. destruct (rows_ok m (mo_ok _ _ _ Hm)) as [Hmd Hrows].
  assert (Hg1 : mirror_ok g1 L) by (intros m1 E1; rewrite Em in E1; by injection E1 as <-).
  destruct (N.eqb_spec (rm_rows m) 0) as [H0|H0]; simpl.
  { assert (L = []) as HL0 by (rewrite Hrows, Hc in H0; destruct L; [done|unfold len in H0; simpl in H0; lia]).
    eexists _, _, true. split_and!; [done|done|done| | |congruence].
    - exists (length queries). by rewrite HL0, exact_nil, firstn_all.
    - by rewrite HL0, exact_nil. }
  destruct (batch_groups _ _ _ _ _) as [[g2 served] r2] eqn:Hb. simpl.
  apply (batch_groups_spec _ _ _ _ _ m) in Hb as (P1 & P2 & (n & P3) & P4);
    [|lia|lia|rewrite <- Hc; lia|done|done|done|by destruct Hl as [-> _]].
  assert (Hlim : same_limits g g2) by (destruct Hl, P1; split; etrans; eauto).
  destruct r2 as [[]|er]; simpl.
  - destruct (P4 eq_refl) as [P5 P6]. exists g2, served, true. split_and!; [done|done|done|by exists n|done|congruence].
  - exists (switch_off g2), served, false. split_and!; [done|done|done|by exists n|done].
Qed.

End with_store.

(** ** Concurrent searches *)

(** A run: the system, the vectors stored so far, and every search that joined, with
    its query and the number of vectors stored when it did. *)
Record World := { w_sys : GpuSystem; w_rows : list (list f32); w_asked : gmap N (list f32 * N) }.

Definition later (L : list (list f32)) (at_row : N -> StoreView) : Prop :=
  forall a, exists L', L `prefix_of` L' /\ reads L' (at_row a).

Inductive gstep : World -> World -> Prop :=
  | g_store w rows :
      Forall (fun r => len r = gi_dim (sy_index (w_sys w))) rows ->
      gstep w {| w_sys := w_sys w; w_rows := w_rows w ++ rows; w_asked := w_asked w |}
  | g_join w r :
      w_asked w !! rq_id r = None -> len (rq_query r) = gi_dim (sy_index (w_sys w)) ->
      gstep w {| w_sys := join r (w_sys w); w_rows := w_rows w;
                 w_asked := <[rq_id r := (rq_query r, len (w_rows w))]> (w_asked w) |}
  | g_take w :
      sy_flight (w_sys w) = None -> gi_disabled (sy_index (w_sys w)) = false -> sy_waiting (w_sys w) <> [] ->
      gstep w {| w_sys := take_group (w_sys w); w_rows := w_rows w; w_asked := w_asked w |}
  | g_answer w group at_row r :
      sy_flight (w_sys w) = Some group -> later (w_rows w) at_row ->
      answer (sy_index (w_sys w)) (len (w_rows w)) at_row group = Some r ->
      gstep w {| w_sys := finish_group (w_sys w) group r; w_rows := w_rows w; w_asked := w_asked w |}
  | g_leave w i :
      sy_flight (w_sys w) = None -> gi_disabled (sy_index (w_sys w)) = true ->
      i ∈ rq_id <$> sy_waiting (w_sys w) ->
      gstep w {| w_sys := leave i (w_sys w); w_rows := w_rows w; w_asked := w_asked w |}
  | g_batch w at_row queries g served b :
      sy_flight (w_sys w) = None -> later (w_rows w) at_row ->
      Forall (fun q => len q = gi_dim (sy_index (w_sys w))) queries ->
      scores_batch (sy_index (w_sys w)) (len (w_rows w)) at_row queries = Some (g, served, b) ->
      gstep w {| w_sys := {| sy_index := g;
                             sy_waiting := if gi_disabled g && negb (gi_disabled (sy_index (w_sys w))) then [] else sy_waiting (w_sys w);
                             sy_flight := None;
                             sy_replies := if gi_disabled g && negb (gi_disabled (sy_index (w_sys w)))
                                           then deliver (sy_waiting (w_sys w)) [] (sy_replies (w_sys w)) else sy_replies (w_sys w) |};
                 w_rows := w_rows w; w_asked := w_asked w |}.

Definition new_world (g : GpuExactIndex) : World := {|
  w_sys := {| sy_index := g; sy_waiting := []; sy_flight := None; sy_replies := ∅ |}; w_rows := []; w_asked := ∅ |}.
Inductive greach (g : GpuExactIndex) : World -> Prop :=
  | greach_new : greach g (new_world g)
  | greach_step w w' : greach g w -> gstep w w' -> greach g w'.

(** The searches that are not answered yet. *)
Definition pending (s : GpuSystem) : list Request := default [] (sy_flight s) ++ sy_waiting s.

Record world_ok (w : World) : Prop := {
  wk_dim : 0 < gi_dim (sy_index (w_sys w));
  wk_rows : Forall (fun r => len r = gi_dim (sy_index (w_sys w))) (w_rows w);
  wk_mirror : mirror_ok (sy_index (w_sys w)) (w_rows w);
  wk_once : NoDup (rq_id <$> pending (w_sys w));
  wk_asked : forall r, r ∈ pending (w_sys w) ->
    len (rq_query r) = gi_dim (sy_index (w_sys w)) /\ sy_replies (w_sys w) !! rq_id r = None /\
    exists n, w_asked w !! rq_id r = Some (rq_query r, n) /\ n <= len (w_rows w);
  wk_all : forall i, is_Some (w_asked w !! i) <-> i ∈ rq_id <$> pending (w_sys w) \/ is_Some (sy_replies (w_sys w) !! i);
  wk_exact : forall i row, sy_replies (w_sys w) !! i = Some (Some row) ->
    exists q n L, w_asked w !! i = Some (q, n) /\ L `prefix_of` w_rows w /\ n <= len L /\ row = map (dot q) L;
  wk_off : forall i, sy_replies (w_sys w) !! i = Some None -> gi_disabled (sy_index (w_sys w)) = true;
}.

Lemma deliver_lookup group rows replies i :
  NoDup (rq_id <$> group) -> deliver group rows replies !! i =
    match list_find (fun r => rq_id r = i) group with
    | Some (k, _) => Some (rows !! k)
    | None => replies !! i
    end.
Proof.
  revert rows replies. induction group as [|r group IH]; intros rows replies Hnd; [done|].
  rewrite fmap_cons in Hnd. apply NoDup_cons in Hnd as [Hr Hnd]. cbn [deliver list_find]. rewrite IH by done.
  destruct (decide (rq_id r = i)) as [<-|Hne].
  - destruct (list_find _ group) as [[k x]|] eqn:Hf.
    + apply list_find_Some in Hf as (Hk & Hx & _). exfalso. apply Hr. rewrite <- Hx.
      apply list_elem_of_fmap. exists x. split; [done|by eapply list_elem_of_lookup_2].
    + rewrite lookup_insert_eq. by destruct rows.
  - destruct (list_find _ group) as [[k x]|]; simpl; [by destruct rows|by rewrite lookup_insert_ne].
Qed.

Lemma deliver_out group rows replies i :
  NoDup (rq_id <$> group) -> i ∉ rq_id <$> group -> deliver group rows replies !! i = replies !! i.
Proof.
  intros Hnd Hi. rewrite deliver_lookup by done. destruct (list_find _ _) as [[k x]|] eqn:Hf; [|done].
  apply list_find_Some in Hf as (Hk & <- & _). exfalso. apply Hi. apply list_elem_of_fmap.
  exists x. split; [done|by eapply list_elem_of_lookup_2].
Qed.
Lemma deliver_in group rows replies i :
  NoDup (rq_id <$> group) -> i ∈ rq_id <$> group ->
  exists k r, group !! k = Some r /\ rq_id r = i /\ deliver group rows replies !! i = Some (rows !! k).
Proof.
  intros Hnd Hi. rewrite deliver_lookup by done. destruct (list_find _ _) as [[k x]|] eqn:Hf.
  - apply list_find_Some in Hf as (Hk & <- & _). by exists k, x.
  - exfalso. apply list_find_None in Hf. apply list_elem_of_fmap in Hi as (r & -> & Hr).
    by eapply Forall_forall in Hf.
Qed.
Lemma deliver_dom group rows replies i :
  NoDup (rq_id <$> group) ->
  is_Some (deliver group rows replies !! i) <-> i ∈ rq_id <$> group \/ is_Some (replies !! i).
Proof.
  intros Hnd. destruct (decide (i ∈ rq_id <$> group)) as [Hi|Hi].
  - destruct (deliver_in group rows replies i Hnd Hi) as (k & r & _ & _ & ->). split; [by left|by eauto].
  - rewrite deliver_out by done. naive_solver.
Qed.

Lemma deliver_none group replies i :
  NoDup (rq_id <$> group) -> i ∈ rq_id <$> group -> deliver group [] replies !! i = Some None.
Proof. intros Hnd Hi. by destruct (deliver_in group [] replies i Hnd Hi) as (k & r & _ & _ & ->). Qed.

(** Some pending searches are answered at once: what stays in line and what is replied. *)
Lemma answered_ok w g gone left replies :
  world_ok w -> same_limits (sy_index (w_sys w)) g -> mirror_ok g (w_rows w) ->
  pending (w_sys w) ≡ₚ gone ++ left ->
  (forall i, i ∉ rq_id <$> gone -> replies !! i = sy_replies (w_sys w) !! i) ->
  (gi_disabled (sy_index (w_sys w)) = true -> gi_disabled g = true) ->
  (forall r, r ∈ gone -> replies !! rq_id r = Some None /\ gi_disabled g = true \/ replies !! rq_id r = Some (Some (map (dot (rq_query r)) (w_rows w)))) ->
  forall waiting flight, default [] flight ++ waiting = left ->
  world_ok {| w_sys := {| sy_index := g; sy_waiting := waiting; sy_flight := flight; sy_replies := replies |};
              w_rows := w_rows w; w_asked := w_asked w |}.
Proof.
  intros [H1 H2 H3 H4 H5 H6 H7 H8] [Hdim _] Hm Hp Hout Hoff Hgone waiting flight Hleft.
  assert (Hnd : NoDup (rq_id <$> gone ++ left)) by (by rewrite <- Hp).
  rewrite fmap_app in Hnd. apply NoDup_app in Hnd as (Hn1 & Hdis & Hn2).
  split; simpl; unfold pending; simpl; rewrite ?Hdim, ?Hleft; auto.
  - intros r Hr. destruct (H5 r) as (Hl & Hrep & Hn); [rewrite Hp; set_solver|]. split_and!; [done| |done].
    rewrite Hout; [done|]. intros Hin. apply (Hdis _ Hin). apply list_elem_of_fmap. by exists r.
  - intros i. rewrite H6, Hp, fmap_app, elem_of_app. destruct (decide (i ∈ rq_id <$> gone)) as [Hi|Hi].
    + apply list_elem_of_fmap in Hi as (r & -> & Hr). split; [|intros _; left; left; apply list_elem_of_fmap; by exists r].
      intros _. right. destruct (Hgone r Hr) as [[-> _] | ->]; eauto.
    + rewrite (Hout i Hi). naive_solver.
  - intros i row Hi. destruct (decide (i ∈ rq_id <$> gone)) as [Hin|Hin]; [|rewrite Hout in Hi by done; by apply H7].
    apply list_elem_of_fmap in Hin as (r & -> & Hr). destruct (Hgone r Hr) as [[E _]|E]; rewrite E in Hi; [done|].
    injection Hi as <-. destruct (H5 r) as (_ & _ & n & Ha & Hn); [rewrite Hp; set_solver|].
    exists (rq_query r), n, (w_rows w). by split_and!.
  - intros i Hi. destruct (decide (i ∈ rq_id <$> gone)) as [Hin|Hin]; [|rewrite Hout in Hi by done; by eapply Hoff, H8].
    apply list_elem_of_fmap in Hin as (r & -> & Hr). destruct (Hgone r Hr) as [[_ E]|E]; congruence.
Qed.

Lemma gstep_ok w w' : world_ok w -> gstep w w' -> world_ok w'.
Proof.
  intros Hw Hs. destruct Hs as [w rows Hr|w r Ha Hq|w Hf Hd Hne|w group at_row [g r] Hf Hl Hans|w i Hf Hd Hi
    |w at_row queries g served b Hf Hl Hq Hb]; pose proof Hw as [H1 H2 H3 H4 H5 H6 H7 H8].
  - split; simpl; auto.
    + by apply Forall_app.
    + intros m Hm. eapply matrix_ok_grow; [|by apply H3]. by apply prefix_app_r.
    + intros r Hin. destruct (H5 r Hin) as (A & Bb & n & C & D). split_and!; auto. exists n. rewrite len_app. split; [done|lia].
    + intros i row Hi. destruct (H7 i row Hi) as (q & n & L & A & P & C & D). exists q, n, L. split_and!; auto.
      by apply prefix_app_r.
  - assert (Hnew : rq_id r ∉ rq_id <$> pending (w_sys w)).
    { intros Hin. destruct (proj2 (H6 (rq_id r)) (or_introl Hin)) as [x Hx]. congruence. }
    assert (Hnone : sy_replies (w_sys w) !! rq_id r = None).
    { destruct (sy_replies (w_sys w) !! rq_id r) eqn:E; [|done].
      destruct (proj2 (H6 (rq_id r)) (or_intror (mk_is_Some _ _ E))) as [x Hx]. congruence. }
    assert (Hp : pending (join r (w_sys w)) = pending (w_sys w) ++ [r]) by (unfold pending; simpl; by rewrite app_assoc).
    split; simpl; rewrite ?Hp; auto.
    + rewrite fmap_app. apply NoDup_app. split_and!; [done| |apply NoDup_singleton]. intros x Hx E. cbn in E. apply list_elem_of_singleton in E. congruence.
    + intros x [Hx| ->%list_elem_of_singleton]%elem_of_app.
      * destruct (H5 x Hx) as (A & Bb & n & C & D). split_and!; auto. exists n. split; [|done].
        rewrite lookup_insert_ne; [done|]. intros E. apply Hnew. rewrite E. apply list_elem_of_fmap. by exists x.
      * split_and!; auto. exists (len (w_rows w)). by rewrite lookup_insert_eq.
    + intros i. rewrite fmap_app, elem_of_app. destruct (decide (i = rq_id r)) as [->|Hne].
      * rewrite lookup_insert_eq. split; [intros _; left; right; set_solver|eauto].
      * rewrite lookup_insert_ne by done. rewrite H6. set_solver.
    + intros i row Hi. destruct (H7 i row Hi) as (q & n & L & A & P & C & D). exists q, n, L. split_and!; auto.
      rewrite lookup_insert_ne; [done|]. intros E. rewrite <- E in Hi. congruence.
  - assert (Hp : pending (take_group (w_sys w)) = pending (w_sys w)).
    { unfold pending. simpl. rewrite Hf. simpl. apply take_drop. }
    split; simpl; rewrite ?Hp; auto.
  - assert (Hgroup : Forall (fun r => len (rq_query r) = gi_dim (sy_index (w_sys w))) group).
    { apply Forall_forall. intros x Hx. apply H5. unfold pending. rewrite Hf. set_solver. }
    destruct (answer_spec (w_rows w) at_row Hl _ group H1 H2 H3 Hgroup) as (g' & r' & E & Hlim & Hdd & Hok).
    rewrite E in Hans. injection Hans as -> ->.
    assert (Hpend : pending (w_sys w) = group ++ sy_waiting (w_sys w)) by (unfold pending; by rewrite Hf).
    assert (Hnd : NoDup (rq_id <$> group ++ sy_waiting (w_sys w))) by (by rewrite <- Hpend).
    rewrite fmap_app in Hnd. apply NoDup_app in Hnd as (Hn1 & Hdis & Hn2).
    unfold finish_group, settle. simpl. destruct r as [rows|er].
    + destruct (Hok rows eq_refl) as [Hm ->].
      apply (answered_ok w g group (sy_waiting (w_sys w))); [done|done|done|by rewrite Hpend|intros i Hi; by apply deliver_out|congruence| |done].
      intros r Hr. right. destruct (deliver_in group (exact_rows (w_rows w) (map rq_query group)) (sy_replies (w_sys w)) (rq_id r) Hn1)
        as (k & x & Hk & Hid & ->); [apply list_elem_of_fmap; by exists r|].
      assert (x = r) as ->.
      { apply list_elem_of_lookup in Hr as [k' Hk']. assert (k = k') as ->; [|congruence].
        eapply (NoDup_lookup (rq_id <$> group)); [done| |]; rewrite list_lookup_fmap, ?Hk, ?Hk'; simpl; by rewrite ?Hid. }
      unfold exact_rows. rewrite map_map. change (map ?f group) with (f <$> group). by rewrite list_lookup_fmap, Hk.
    + apply (answered_ok w (switch_off g) (group ++ sy_waiting (w_sys w)) []); [done|done|by intros m|by rewrite Hpend, app_nil_r| |done| |done].
      * intros i Hi. rewrite fmap_app, not_elem_of_app in Hi. destruct Hi. by rewrite !deliver_out.
      * intros r Hr. left. split; [|done]. destruct (decide (rq_id r ∈ rq_id <$> group)) as [Hin|Hin]; [by apply deliver_none|].
        rewrite deliver_out by done. apply deliver_none; [done|]. apply elem_of_app in Hr as [Hr|Hr];
          [exfalso; apply Hin|]; apply list_elem_of_fmap; by exists r.
  - apply list_elem_of_fmap in Hi as (r & -> & Hr).
    destruct (list_elem_of_split _ _ Hr) as (l1 & l2 & El).
    assert (Hpend : pending (w_sys w) = sy_waiting (w_sys w)) by (unfold pending; by rewrite Hf).
    assert (Hflt : filter (fun x => rq_id x <> rq_id r) (sy_waiting (w_sys w)) = l1 ++ l2).
    { rewrite Hpend, El, fmap_app, fmap_cons in H4. apply NoDup_app in H4 as (_ & Hd1 & Hd2).
      apply NoDup_cons in Hd2 as [Hd2 _]. rewrite El, filter_app, filter_cons_False by auto.
      f_equal; apply filter_all; intros x Hx E; [apply (Hd1 (rq_id x))|apply Hd2; rewrite <- E]; [|rewrite E; set_solver|];
        apply list_elem_of_fmap; by exists x. }
    unfold leave. rewrite Hf, Hflt.
    apply (answered_ok w (sy_index (w_sys w)) [r] (l1 ++ l2)); [done|by split|done| | |done| |done].
    + rewrite Hpend, El. solve_Permutation.
    + intros i Hi. rewrite lookup_insert_ne; [done|]. intros <-. apply Hi. set_solver.
    + intros x ->%list_elem_of_singleton. left. by rewrite lookup_insert_eq.
  - destruct (scores_batch_spec (w_rows w) at_row Hl (sy_index (w_sys w)) queries H1 H2 H3 Hq) as (g' & served' & b' & E & Hlim & Hm & _ & Hend).
    rewrite E in Hb. injection Hb as -> -> ->.
    assert (Hpend : pending (w_sys w) = sy_waiting (w_sys w)) by (unfold pending; by rewrite Hf).
    assert (Hoff : gi_disabled (sy_index (w_sys w)) = true -> gi_disabled g = true) by (destruct b; [destruct Hend|]; congruence).
    destruct (gi_disabled g && _) eqn:Hnew.
    + apply (answered_ok w g (sy_waiting (w_sys w)) []); [done|done|done|by rewrite Hpend, app_nil_r| |done| |done];
        rewrite Hpend in H4.
      * intros i Hi. by apply deliver_out.
      * intros r Hr. left. apply andb_prop in Hnew as [-> _]. split; [|done]. apply deliver_none; [done|]. apply list_elem_of_fmap. by exists r.
    + by apply (answered_ok w g [] (sy_waiting (w_sys w))); [done|done|done|rewrite Hpend|done|done|set_solver|].
Qed.

Lemma greach_ok g w : 0 < gi_dim g -> gi_matrix g = None -> greach g w -> world_ok w.
Proof.
  intros Hd Hm. induction 1 as [|w w' _ IH Hs]; [|by eapply gstep_ok].
  split; simpl; try done.
  - intros m E. congruence.
  - constructor.
  - intros r Hr. by apply not_elem_of_nil in Hr.
  - intros i. rewrite !lookup_empty. cbn. split; [by intros [x Hx]|]. by intros [Hi%not_elem_of_nil|[x Hx]].
Qed.

Lemma greach_trans g w w' : greach g w -> rtc gstep w w' -> greach g w'.
Proof. intros Hw Hs. induction Hs as [|x y z Hxy _ IH]; [done|]. apply IH. by eapply greach_step. Qed.
Lemma steps_ok w w' : world_ok w -> rtc gstep w w' -> world_ok w'.
Proof. intros Hw Hs. induction Hs as [|x y z Hxy _ IH]; [done|]. apply IH. by eapply gstep_ok. Qed.

(** Stored vectors stay, and so do the questions and the dimension. *)
Lemma gstep_grows w w' :
  world_ok w -> gstep w w' ->
  w_rows w `prefix_of` w_rows w' /\ w_asked w ⊆ w_asked w' /\ gi_dim (sy_index (w_sys w')) = gi_dim (sy_index (w_sys w)).
Proof.
  intros Hw Hs. pose proof Hw as [H1 H2 H3 H4 H5 H6 H7 H8].
  destruct Hs as [w rows Hr|w r Ha Hq|w Hf Hd Hne|w group at_row [g r] Hf Hl Hans|w i Hf Hd Hi
    |w at_row queries g served b Hf Hl Hq Hb]; simpl; split_and!; try done.
  - by apply prefix_app_r.
  - by apply insert_subseteq.
  - assert (Hgroup : Forall (fun r => len (rq_query r) = gi_dim (sy_index (w_sys w))) group).
    { apply Forall_forall. intros x Hx. apply H5. unfold pending. rewrite Hf. set_solver. }
    destruct (answer_spec (w_rows w) at_row Hl _ group H1 H2 H3 Hgroup) as (g' & r' & E & [Hlim _] & _).
    rewrite E in Hans. injection Hans as -> ->. unfold finish_group, settle. by destruct r.
  - destruct (scores_batch_spec (w_rows w) at_row Hl (sy_index (w_sys w)) queries H1 H2 H3 Hq) as (g' & served' & b' & E & [Hlim _] & _).
    by rewrite E in Hb; injection Hb as -> -> ->.
Qed.
Lemma steps_grow w w' :
  world_ok w -> rtc gstep w w' ->
  w_rows w `prefix_of` w_rows w' /\ w_asked w ⊆ w_asked w' /\ gi_dim (sy_index (w_sys w')) = gi_dim (sy_index (w_sys w)).
Proof.
  intros Hw Hs. induction Hs as [x|x y z Hxy _ IH]; [done|].
  destruct (gstep_grows x y Hw Hxy) as (A & Bb & C). destruct (IH (gstep_ok x y Hw Hxy)) as (A' & B' & C').
  split_and!; [by etrans|by etrans|congruence].
Qed.

(** Searches that queue up. *)
Definition ask (n : N) (rs : list Request) (asked : gmap N (list f32 * N)) : gmap N (list f32 * N) :=
  fold_left (fun m r => <[rq_id r := (rq_query r, n)]> m) rs asked.
Definition fresh_requests (dim : N) (rs : list Request) (asked : gmap N (list f32 * N)) : Prop :=
  NoDup (rq_id <$> rs) /\ Forall (fun r => len (rq_query r) = dim /\ asked !! rq_id r = None) rs.

Lemma joins_steps rs w :
  fresh_requests (gi_dim (sy_index (w_sys w))) rs (w_asked w) ->
  rtc gstep w {| w_sys := joins rs (w_sys w); w_rows := w_rows w; w_asked := ask (len (w_rows w)) rs (w_asked w) |}.
Proof.
  revert w. induction rs as [|r rs IH]; intros w [Hnd Hf]; [by destruct w|].
  apply NoDup_cons in Hnd as [Hr Hnd]. apply Forall_cons in Hf as [[Hq Ha] Hf].
  eapply rtc_l; [by apply (g_join w r)|].
  match goal with |- rtc _ ?w1 _ => apply (IH w1) end. split; [done|]. simpl.
  rewrite Forall_forall in Hf |- *. intros x Hx. destruct (Hf x Hx) as [A Bb]. split; [done|].
  rewrite lookup_insert_ne; [done|]. intros E. apply Hr. rewrite E. apply list_elem_of_fmap. by exists x.
Qed.
Lemma joins_eq rs s : joins rs s = {| sy_index := sy_index s; sy_waiting := sy_waiting s ++ rs; sy_flight := sy_flight s; sy_replies := sy_replies s |}.
Proof.
  revert s. induction rs as [|r rs IH]; intros s; simpl; [rewrite app_nil_r; by destruct s|].
  rewrite IH. simpl. by rewrite <- app_assoc.
Qed.

(** The turns of a run: the store only grows, and the searches that queue up are new. *)
Fixpoint rounds_ok (dim : N) (rounds : list Round) (rows : list (list f32)) (asked : gmap N (list f32 * N)) : Prop :=
  match rounds with
  | [] => True
  | rd :: rounds =>
      exists more, let rows' := rows ++ more in let asked1 := ask (len rows) (rd_before rd) asked in
      Forall (fun r => len r = dim) more /\ fresh_requests dim (rd_before rd) asked /\
      fresh_requests dim (rd_during rd) asked1 /\ rd_count rd = len rows' /\ later rows' (rd_view rd) /\
      rounds_ok dim rounds rows' (ask (len rows') (rd_during rd) asked1)
  end.

(** One turn of the holder. *)
Lemma turn_ok rd rounds w :
  world_ok w -> sy_flight (w_sys w) = None -> gi_disabled (sy_index (w_sys w)) = false -> sy_waiting (w_sys w) <> [] ->
  rounds_ok (gi_dim (sy_index (w_sys w))) (rd :: rounds) (w_rows w) (w_asked w) ->
  let line := sy_waiting (w_sys w) ++ rd_before rd in
  let s := joins (rd_during rd) (take_group (joins (rd_before rd) (w_sys w))) in
  exists w' r, answer (sy_index s) (rd_count rd) (rd_view rd) (take MAX_GROUP line) = Some r /\
    w_sys w' = finish_group s (take MAX_GROUP line) r /\ rtc gstep w w' /\
    rounds_ok (gi_dim (sy_index (w_sys w'))) rounds (w_rows w') (w_asked w').
Proof.
  intros Hw Hfl Hdis Hne (more & Hmore & Hb & Hdu & Hcount & Hlat & Hrest). simpl.
  set (w1 := {| w_sys := joins (rd_before rd) (w_sys w); w_rows := w_rows w; w_asked := ask (len (w_rows w)) (rd_before rd) (w_asked w) |}).
  assert (S1 : rtc gstep w w1) by by apply joins_steps.
  assert (E1 : sy_index (w_sys w1) = sy_index (w_sys w)) by (unfold w1; simpl; by rewrite joins_eq).
  set (w2 := {| w_sys := w_sys w1; w_rows := w_rows w1 ++ more; w_asked := w_asked w1 |}).
  assert (S2 : gstep w1 w2) by (apply g_store; by rewrite E1).
  set (w3 := {| w_sys := take_group (w_sys w2); w_rows := w_rows w2; w_asked := w_asked w2 |}).
  assert (S3 : gstep w2 w3).
  { apply (g_take w2); unfold w2, w1; simpl; rewrite joins_eq; simpl; try done. by destruct (sy_waiting (w_sys w)). }
  set (w4 := {| w_sys := joins (rd_during rd) (w_sys w3); w_rows := w_rows w3; w_asked := ask (len (w_rows w3)) (rd_during rd) (w_asked w3) |}).
  assert (E3 : sy_index (w_sys w3) = sy_index (w_sys w)) by done.
  assert (S4 : rtc gstep w3 w4) by (apply joins_steps; by rewrite E3).
  assert (Sall : rtc gstep w w4) by (etrans; [exact S1|]; eapply rtc_l; [exact S2|]; by eapply rtc_l; [exact S3|]).
  assert (Ef : sy_flight (w_sys w4) = Some (take MAX_GROUP (sy_waiting (w_sys w) ++ rd_before rd))).
  { unfold w4, w3, w2, w1. simpl. by rewrite !joins_eq. }
  pose proof (steps_ok _ _ Hw Sall) as [H1 H2 H3 H4 H5 H6 H7 H8].
  assert (E4 : gi_dim (sy_index (w_sys w4)) = gi_dim (sy_index (w_sys w))).
  { unfold w4, w3, w2, w1. simpl. by rewrite !joins_eq. }
  assert (Hg : Forall (fun r => len (rq_query r) = gi_dim (sy_index (w_sys w4))) (take MAX_GROUP (sy_waiting (w_sys w) ++ rd_before rd))).
  { apply Forall_forall. intros x Hx. apply H5. unfold pending. rewrite Ef. set_solver. }
  destruct (answer_spec (w_rows w4) (rd_view rd) Hlat _ _ H1 H2 H3 Hg) as (g' & r' & E & [Hlim _] & _).
  exists {| w_sys := finish_group (w_sys w4) (take MAX_GROUP (sy_waiting (w_sys w) ++ rd_before rd)) (g', r'); w_rows := w_rows w4; w_asked := w_asked w4 |}, (g', r').
  split_and!; [by rewrite Hcount|done| |].
  - etrans; [exact Sall|]. apply rtc_once. by eapply g_answer.
  - assert (Ed : gi_dim (sy_index (finish_group (w_sys w4) (take MAX_GROUP (sy_waiting (w_sys w) ++ rd_before rd)) (g', r')))
                 = gi_dim (sy_index (w_sys w))) by (unfold finish_group, settle; destruct r'; simpl; congruence).
    simpl. simpl in Ed. rewrite Ed. exact Hrest.
Qed.

Lemma deliver_has group rows replies i :
  i ∈ rq_id <$> group \/ is_Some (replies !! i) -> is_Some (deliver group rows replies !! i).
Proof.
  revert rows replies. induction group as [|r group IH]; intros rows replies [Hi|Hi]; cbn [deliver]; try done.
  - by apply not_elem_of_nil in Hi.
  - apply IH. rewrite fmap_cons in Hi. apply elem_of_cons in Hi as [->|Hi]; [|by left].
    right. rewrite lookup_insert_eq. eauto.
  - apply IH. right. by apply lookup_insert_is_Some'; right.
Qed.

(** A turn answers the head of the line, and moves the rest up. *)
Lemma turn_moves s r x k rd :
  sy_waiting s !! k = Some x ->
  let line := sy_waiting s ++ rd_before rd in
  let s4 := joins (rd_during rd) (take_group (joins (rd_before rd) s)) in
  let s' := finish_group s4 (take MAX_GROUP line) r in
  sy_flight s' = None /\
  (is_Some (sy_replies s' !! rq_id x) \/ (MAX_GROUP <= k)%nat /\ sy_waiting s' !! (k - MAX_GROUP)%nat = Some x).
Proof.
  intros Hk. simpl. rewrite !joins_eq. unfold take_group. cbn [sy_index sy_waiting sy_flight sy_replies].
  assert (Hline : (sy_waiting s ++ rd_before rd) !! k = Some x) by by apply lookup_app_l_Some.
  unfold finish_group. destruct (settle r.1 r.2) as [g [rows|]]; cbn [sy_index sy_waiting sy_flight sy_replies]; (split; [done|]).
  - destruct (decide (k < MAX_GROUP)%nat) as [Hlt|Hge].
    + left. apply deliver_has. left. apply list_elem_of_fmap. exists x. split; [done|].
      eapply (list_elem_of_lookup_2 _ k). by rewrite lookup_take_lt.
    + right. split; [lia|]. apply lookup_app_l_Some. rewrite lookup_drop.
      by replace (MAX_GROUP + (k - MAX_GROUP))%nat with k by lia.
  - left. apply deliver_has. destruct (decide (k < MAX_GROUP)%nat) as [Hlt|Hge].
    + left. apply list_elem_of_fmap. exists x. split; [done|].
      eapply (list_elem_of_lookup_2 _ k). by rewrite lookup_take_lt.
    + right. apply deliver_has. left. apply list_elem_of_fmap. exists x. split; [done|].
      eapply (list_elem_of_lookup_2 _ (k - MAX_GROUP)). apply lookup_app_l_Some. rewrite lookup_drop.
      by replace (MAX_GROUP + (k - MAX_GROUP))%nat with k by lia.
Qed.

Lemma loop_ok rounds w i k :
  world_ok w -> sy_flight (w_sys w) = None ->
  is_Some (sy_replies (w_sys w) !! i) \/
    (exists x, sy_waiting (w_sys w) !! k = Some x /\ rq_id x = i) /\ (k < MAX_GROUP * length rounds)%nat ->
  rounds_ok (gi_dim (sy_index (w_sys w))) rounds (w_rows w) (w_asked w) ->
  exists w' reply, scores_loop i rounds (w_sys w) = Some (w_sys w', reply) /\ rtc gstep w w' /\
    sy_replies (w_sys w') !! i = Some reply.
Proof.
  revert w k. induction rounds as [|rd rounds IH]; intros w k Hw Hfl Hi Hrd; cbn [scores_loop].
  all: destruct (sy_replies (w_sys w) !! i) as [reply|] eqn:Hrep; [by exists w, reply|].
  all: destruct Hi as [[y Hy]|[(x & Hk & <-) Hlen]]; [done|].
  all: destruct (gi_disabled (sy_index (w_sys w))) eqn:Hdis.
  1, 3: (exists {| w_sys := leave (rq_id x) (w_sys w); w_rows := w_rows w; w_asked := w_asked w |}, None;
    split_and!; [done| |simpl; by rewrite lookup_insert_eq]; apply rtc_once, g_leave; [done..|];
    apply list_elem_of_fmap; exists x; split; [done|by eapply list_elem_of_lookup_2]).
  - simpl in Hlen. lia.
  - assert (Hne : sy_waiting (w_sys w) <> []) by (intros E; by rewrite E in Hk).
    destruct (turn_ok rd rounds w Hw Hfl Hdis Hne Hrd) as (w' & r & Ha & Ew & Hs & Hrd').
    assert (El : sy_waiting (joins (rd_before rd) (w_sys w)) = sy_waiting (w_sys w) ++ rd_before rd) by by rewrite joins_eq.
    rewrite El, Ha. destruct (take MAX_GROUP (sy_waiting (w_sys w) ++ rd_before rd)) as [|q0 group] eqn:Eg.
    { by destruct (sy_waiting (w_sys w)). }
    rewrite <- Eg in *. simpl. rewrite <- Ew.
    destruct (turn_moves (w_sys w) r x k rd Hk) as [Hf' Hm]. rewrite <- Ew in Hf', Hm.
    destruct (IH w' (k - MAX_GROUP)%nat) as (w2 & reply & E2 & Hs2 & Hr2); [by eapply steps_ok|done| |done|].
    + destruct Hm as [Hm|[Hge Hm]]; [by left|right]. split; [by exists x|]. simpl length in Hlen. lia.
    + exists w2, reply. split_and!; [done|by etrans|done].
Qed.

(** ** What a search is given *)

(** C39: Whatever the order in which searches queue up, groups are taken and answered,
    vectors are stored and the device fails: every search that joined the line is either
    waiting, or in the group being answered, or answered, never two of these, and in line
    once; a row of scores it is given is the products of its own query with all the
    vectors of a state of the store no older than when it joined, in order; it is sent to
    the CPU only when the mirror is switched off; and the mirror stays within its budget. *)
Theorem gpu_scores_exact g w :
  0 < gi_dim g -> gi_matrix g = None -> greach g w ->
  NoDup (rq_id <$> pending (w_sys w)) /\
  (forall i, is_Some (w_asked w !! i) <-> i ∈ rq_id <$> pending (w_sys w) \/ is_Some (sy_replies (w_sys w) !! i)) /\
  (forall i, i ∈ rq_id <$> pending (w_sys w) -> sy_replies (w_sys w) !! i = None) /\
  (forall i row, sy_replies (w_sys w) !! i = Some (Some row) ->
    exists q n L, w_asked w !! i = Some (q, n) /\ L `prefix_of` w_rows w /\ n <= len L /\ row = map (dot q) L) /\
  (forall i, sy_replies (w_sys w) !! i = Some None -> gi_disabled (sy_index (w_sys w)) = true) /\
  (forall m, gi_matrix (sy_index (w_sys w)) = Some m ->
    saturating_mul (rm_capacity m) (row_bytes (sy_index (w_sys w))) <= budget_bytes (sy_index (w_sys w)) /\
    contents m `prefix_of` w_rows w).
Proof.
  intros Hd Hm Hw. apply greach_ok in Hw as [H1 H2 H3 H4 H5 H6 H7 H8]; [|done..]. split_and!; try done.
  - intros i Hi. apply list_elem_of_fmap in Hi as (r & -> & Hr). by apply H5.
  - intros m E. destruct (H3 m E) as [_ _ A _ C]. done.
Qed.

Lemma greach_dim g w : 0 < gi_dim g -> gi_matrix g = None -> greach g w -> gi_dim (sy_index (w_sys w)) = gi_dim g.
Proof.
  intros Hd Hm. induction 1 as [|w w' Hg IH Hs]; [done|]. rewrite <- IH.
  by eapply gstep_grows; [by eapply greach_ok|].
Qed.
Lemma prefix_longer {A} (l1 l2 l : list A) : l1 `prefix_of` l -> l2 `prefix_of` l -> len l1 <= len l2 -> l1 `prefix_of` l2.
Proof.
  intros P1 P2 Hl. destruct (prefix_weak_total _ _ _ P1 P2) as [P|[k ->]]; [done|].
  rewrite len_app in Hl. assert (k = []) as -> by (destruct k; [done|unfold len in Hl; simpl in Hl; lia]).
  by rewrite app_nil_r.
Qed.

(** C40: A search returns. Once it holds the device, a turn for every 64 searches in line
    is enough, whoever queues up meanwhile and whether or not the device fails: it is
    given its scores against at least the vectors stored when it joined, or sent to the
    CPU with the mirror switched off. *)
Theorem scores_answered g w r locked rounds w1 :
  0 < gi_dim g -> gi_matrix g = None -> greach g w ->
  w_asked w !! rq_id r = None -> len (rq_query r) = gi_dim g ->
  let joined := {| w_sys := join r (w_sys w); w_rows := w_rows w;
                   w_asked := <[rq_id r := (rq_query r, len (w_rows w))]> (w_asked w) |} in
  rtc gstep joined w1 -> w_sys w1 = locked (w_sys joined) -> sy_flight (w_sys w1) = None ->
  rounds_ok (gi_dim g) rounds (w_rows w1) (w_asked w1) ->
  (length (sy_waiting (w_sys w1)) <= MAX_GROUP * length rounds)%nat ->
  exists s x, scores r locked rounds (w_sys w) = Some (s, x) /\
    match x with
    | Some row => exists L, w_rows w `prefix_of` L /\ row = map (dot (rq_query r)) L
    | None => gi_disabled (sy_index s) = true
    end.
Proof.
  intros Hd Hm Hg Hnew Hq joined Hsteps Hlock Hfl Hrounds Hlen. unfold scores.
  pose proof (greach_ok _ _ Hd Hm Hg) as Hw.
  assert (Hdim : gi_dim (sy_index (w_sys w)) = gi_dim g).
  { by apply greach_dim. }
  destruct (gi_disabled (sy_index (w_sys w))) eqn:Hdis; [by eexists _, None|].
  assert (Hj : gstep w joined) by (apply g_join; [done|congruence]).
  pose proof (gstep_ok _ _ Hw Hj) as Hjoined. pose proof (steps_ok _ _ Hjoined Hsteps) as Hw1.
  destruct (steps_grow _ _ Hjoined Hsteps) as (G1 & G2 & G3).
  assert (Hdim1 : gi_dim (sy_index (w_sys w1)) = gi_dim g) by (rewrite G3; exact Hdim).
  assert (Ha1 : w_asked w1 !! rq_id r = Some (rq_query r, len (w_rows w))).
  { eapply lookup_weaken; [|exact G2]. simpl. by rewrite lookup_insert_eq. }
  assert (Hi : exists k, is_Some (sy_replies (w_sys w1) !! rq_id r) \/
    (exists x, sy_waiting (w_sys w1) !! k = Some x /\ rq_id x = rq_id r) /\ (k < MAX_GROUP * length rounds)%nat).
  { destruct (proj1 (wk_all _ Hw1 (rq_id r)) (mk_is_Some _ _ Ha1)) as [Hin|Hin]; [|by exists 0%nat; left].
    unfold pending in Hin. rewrite Hfl in Hin. simpl in Hin.
    apply list_elem_of_fmap in Hin as (x & Ex & Hx). apply list_elem_of_lookup in Hx as [k Hk]. exists k. right.
    split; [by exists x|]. apply lookup_lt_Some in Hk. lia. }
  destruct Hi as [k Hi].
  destruct (loop_ok rounds w1 (rq_id r) k Hw1 Hfl Hi) as (w2 & x & E & Hs2 & Hrep); [by rewrite Hdim1|].
  change (join r (w_sys w)) with (w_sys joined). rewrite <- Hlock, E. exists (w_sys w2), x. split; [done|].
  pose proof (steps_ok _ _ Hw1 Hs2) as [_ _ _ _ _ _ K7 K8].
  destruct (steps_grow _ _ Hw1 Hs2) as (F1 & F2 & _). destruct x as [row|]; [|by eapply K8].
  destruct (K7 _ _ Hrep) as (q & n & L & A & P & C & ->).
  rewrite (lookup_weaken _ _ _ _ Ha1 F2) in A. injection A as <- <-. exists L. split; [|done].
  eapply prefix_longer; [|exact P|done]. etrans; [|exact F1]. exact G1.
Qed.

End mirror.

(** ** The store as the mirror reads it *)

Section store_rows.
Context (en : Endian).
Import VectorStore.

Lemma take_floats_app n x y m :
  length x = (4 * n)%nat -> take_floats en (n + m) (x ++ y) = take_floats en n x ++ take_floats en m y.
Proof.
  revert x. induction n as [|n IH]; intros x Hx; [by destruct x|]. simpl.
  rewrite take_app_le, drop_app_le by lia. rewrite IH; [done|]. rewrite length_drop. lia.
Qed.
Lemma cast_floats_app n x y : length x = (4 * n)%nat -> cast_floats en (x ++ y) = cast_floats en x ++ cast_floats en y.
Proof.
  intros Hx. unfold cast_floats. rewrite length_app, Hx, Nat.mul_comm, Nat.div_add_l, Nat.div_mul by lia.
  by apply take_floats_app.
Qed.
Lemma slice_plus {A} a n m (l : list A) : slice a (n + m) l = slice a n l ++ slice (a + n) m l.
Proof. unfold slice. by rewrite !N2Nat.inj_add, <- drop_drop, take_take_drop. Qed.

Lemma length_take_floats n bs : length (take_floats en n bs) = n.
Proof. revert bs. induction n as [|n IH]; intros bs; simpl; [done|]. by rewrite IH. Qed.

(** The vector a slot's bytes spell, and those of the slots in use. *)
Definition vector_at (s : Inner) (i : N) : list f32 :=
  cast_floats en (slice (HEADER_SIZE + i * (dim s * 4)) (dim s * 4) (bytes s)).
Definition stored (s : Inner) : list (list f32) :=
  map (fun i => vector_at s (N.of_nat i)) (seq 0 (N.to_nat (count s))).

Lemma raw_rows s n a :
  HEADER_SIZE + (a + N.of_nat n) * (dim s * 4) <= len (bytes s) ->
  cast_floats en (slice (HEADER_SIZE + a * (dim s * 4)) (N.of_nat n * (dim s * 4)) (bytes s))
  = concat (map (fun i => vector_at s (N.of_nat i)) (seq (N.to_nat a) n)).
Proof.
  revert a. induction n as [|n IH]; intros a Ha; [done|].
  replace (N.of_nat (S n) * (dim s * 4)) with (dim s * 4 + N.of_nat n * (dim s * 4)) by lia.
  rewrite slice_plus, (cast_floats_app (N.to_nat (dim s))).
  - simpl. unfold vector_at at 1. rewrite N2Nat.id. f_equal.
    replace (HEADER_SIZE + a * (dim s * 4) + dim s * 4) with (HEADER_SIZE + (a + 1) * (dim s * 4)) by lia.
    rewrite IH by lia. by replace (N.to_nat (a + 1)) with (S (N.to_nat a)) by lia.
  - assert (Hl : len (slice (HEADER_SIZE + a * (dim s * 4)) (dim s * 4) (bytes s)) = dim s * 4) by (apply len_slice; lia).
    unfold len in Hl. lia.
Qed.

Context `{!Record.Crc32}.

(** A well-formed mapped store reads as its vectors, which [get] gives one by one. *)
Lemma store_reads s : vs_wf en s -> mapped s = true ->
  reads (stored s) (view_of_store en s) /\ sv_count (view_of_store en s) = len (stored s) /\
  Forall (fun v => len v = dim s) (stored s) /\ (forall i, i < count s -> get en s i = stored s !! N.to_nat i).
Proof.
  intros [H1 H2 H3 _ _] Hm.
  assert (Hin : forall i, i <= count s -> HEADER_SIZE + i * (dim s * 4) <= len (bytes s)) by (intros; nia).
  split_and!.
  - intros a b Hab Hb. unfold len, stored in Hb. rewrite length_map, length_seq in Hb. simpl. unfold rows.
    rewrite (proj2 (N.ltb_ge b a)), (proj2 (N.ltb_ge (count s) b)), Hm by lia. cbn [orb negb].
    rewrite get_range_in by (try apply Hin; nia). cbn [fmap option_fmap option_map]. f_equal.
    replace (HEADER_SIZE + b * (dim s * 4) - (HEADER_SIZE + a * (dim s * 4))) with (N.of_nat (N.to_nat (b - a)) * (dim s * 4)) by nia.
    rewrite raw_rows by (rewrite N2Nat.id; apply Hin; lia). unfold slice, stored.
    rewrite !map_fmap, <- fmap_drop, <- fmap_take, drop_seq, take_seq. do 2 f_equal. f_equal; lia.
  - unfold len, stored. simpl. rewrite length_map, length_seq. lia.
  - apply Forall_fmap, Forall_forall. intros i Hi. apply elem_of_seq in Hi. simpl. unfold vector_at, len.
    assert (Hl : len (slice (HEADER_SIZE + N.of_nat i * (dim s * 4)) (dim s * 4) (bytes s)) = dim s * 4).
    { apply len_slice. specialize (Hin (N.of_nat i + 1)). nia. }
    unfold cast_floats. rewrite length_take_floats. unfold len in Hl.
    replace (length (slice (HEADER_SIZE + N.of_nat i * (dim s * 4)) (dim s * 4) (bytes s))) with (N.to_nat (dim s) * 4)%nat by lia.
    rewrite Nat.div_mul by lia. lia.
  - intros i Hi. unfold get, stored. rewrite (proj2 (N.leb_gt _ _)), Hm by done. cbn [negb].
    rewrite map_fmap, list_lookup_fmap, lookup_seq_lt by lia. simpl. rewrite get_range_in; [|lia|].
    + simpl. unfold vector_at. rewrite N2Nat.id. do 3 f_equal; nia.
    + specialize (Hin (i + 1)). nia.
Qed.

End store_rows.

Module GpuMirrorWitness.
#[local] Existing Instance scalar_kernels.

Definition view_of_rows (L : list (list f32)) : StoreView :=
  {| sv_count := len L; sv_rows a b := Some (concat (slice a (b - a) L)) |}.
Lemma rows_later L : later L (fun _ => view_of_rows L).
Proof. intros a. by exists L. Qed.

Definition f32_two : f32 := 1073741824.
Definition vectors : list (list f32) := [[f32_one; 0]; [f32_two; f32_one]].
Definition index : GpuExactIndex := new_index 2 1.
Definition first : Request := {| rq_id := 7; rq_query := [f32_one; f32_one] |}.
Definition other : Request := {| rq_id := 8; rq_query := [f32_one; 0] |}.
Definition turn : Round := {| rd_before := [other]; rd_during := []; rd_count := 2; rd_view := fun _ => view_of_rows vectors |}.

(** Both searches of a turn are answered by one product. *)
Example one_product : (fun '(s, x) => (sy_replies s !! 8, x, gi_device_calls (sy_index s))) <$>
  scores first (fun s => s) [turn] (w_sys (new_world index))
  = Some (Some (Some [f32_one; f32_two]), Some [f32_one; 1077936128], 1).
Proof. vm_compute. reflexivity. Qed.

Lemma scores_answered_witness :
  exists s x, scores first (fun s => s) [turn] (w_sys (new_world index)) = Some (s, x) /\
    match x with
    | Some row => exists L, w_rows (new_world index) `prefix_of` L /\ row = map (dot (rq_query first)) L
    | None => gi_disabled (sy_index s) = true
    end.
Proof.
  eapply (scores_answered index (new_world index) first (fun s => s) [turn]);
    [done|done|apply greach_new|done|done|apply rtc_refl|done|done| |].
  - exists vectors. split_and!; [by repeat constructor| | |done|apply rows_later|done].
    + split; [apply NoDup_singleton|]. by repeat constructor.
    + split; [constructor|constructor].
  - vm_compute. lia.
Defined.

(** A world in which the search 7 has been answered. *)
Definition asked : gmap N (list f32 * N) := <[rq_id first := (rq_query first, len vectors)]> ∅.
Definition stored_world : World := {| w_sys := w_sys (new_world index); w_rows := vectors; w_asked := ∅ |}.
Definition joined_world : World := {| w_sys := join first (w_sys stored_world); w_rows := vectors; w_asked := asked |}.
Definition taken_world : World := {| w_sys := take_group (w_sys joined_world); w_rows := vectors; w_asked := asked |}.
Definition outcome := answer (sy_index (w_sys taken_world)) (len (w_rows taken_world)) (fun _ => view_of_rows vectors) [first].
Definition result : GpuExactIndex * GpuResult (list (list f32)) := default (index, Err KernelError) outcome.
Definition answered : World := {|
  w_sys := finish_group (w_sys taken_world) [first] result; w_rows := vectors; w_asked := asked |}.
Lemma outcome_result : outcome = Some result.
Proof.
  assert (H : match outcome with Some _ => true | None => false end = true) by (vm_compute; reflexivity).
  unfold result. by destruct outcome.
Qed.
Lemma answered_reachable : greach index answered.
Proof.
  assert (S1 : gstep (new_world index) stored_world) by (apply (g_store (new_world index) vectors); by repeat constructor).
  assert (S2 : gstep stored_world joined_world) by by apply (g_join stored_world first).
  assert (S3 : gstep joined_world taken_world) by by apply (g_take joined_world).
  assert (S4 : gstep taken_world answered).
  { apply (g_answer taken_world [first] (fun _ => view_of_rows vectors) result);
      [done|apply rows_later|].
    pose proof outcome_result as E. unfold outcome in E. exact E. }
  eauto using greach.
Qed.
Lemma gpu_scores_exact_witness :
  (exists row, sy_replies (w_sys answered) !! 7 = Some (Some row)) /\
  NoDup (rq_id <$> pending (w_sys answered)) /\
  (forall i row, sy_replies (w_sys answered) !! i = Some (Some row) ->
    exists q n L, w_asked answered !! i = Some (q, n) /\ L `prefix_of` vectors /\ n <= len L /\ row = map (dot q) L).
Proof.
  split; [exists [f32_one; 1077936128]; vm_compute; reflexivity|].
  destruct (gpu_scores_exact index answered) as (H1 & _ & _ & H4 & _); [done|done|apply answered_reachable|].
  split; [exact H1|exact H4].
Defined.
End GpuMirrorWitness.
