(* ===== verification/Numeric.v ===== *)
(** * Numbers the vector kernels compute with

    The kernels and codecs of the core crate are written once, over a class of numbers
    ([Num]), and run on two instances: binary32 on bit patterns, which is what the
    program computes, and the real numbers, where nothing is rounded. A theorem over the
    reals says what a kernel computes up to rounding: which products it adds, with which
    sign, and that it leaves none out. [lit] is the value of a binary32 constant of the
    source, [bits] the binary32 a number is stored as. *)

From S2P Require Import Prelude Core Floats.
From Stdlib Require Import ZArith SpecFloat Reals Lra Lia.

Class Num := {
  num_t : Type;
  lit : f32 -> num_t;
  bits : num_t -> f32;
  nadd : num_t -> num_t -> num_t;
  nsub : num_t -> num_t -> num_t;
  nmul : num_t -> num_t -> num_t;
  ndiv : num_t -> num_t -> num_t;
  nfma : num_t -> num_t -> num_t -> num_t; (* [a * b + c], rounded once *)
  nsqrt : num_t -> num_t;
  nabs : num_t -> num_t;
  nneg : num_t -> num_t;
  ngtb : num_t -> num_t -> bool;
  ngeb : num_t -> num_t -> bool;
  neqb : num_t -> num_t -> bool;
  nround : num_t -> num_t;   (* half away from zero *)
  nclamp : num_t -> num_t -> num_t -> num_t;
  nfinite : num_t -> bool; (* [is_finite] *)
  of_int : N -> num_t;     (* [n as f32] *)
  to_u8 : num_t -> N;      (* [x as u8] *)
  to_u8_bound x : to_u8 x < 256;
}.

Definition nltb `{Num} (a b : num_t) : bool := ngtb b a.
Definition nzero `{Num} : num_t := lit f32_zero.
Definition none_ `{Num} : num_t := lit f32_one.
(** [Iterator::sum]: from [-0.0]. *)
Definition nsum `{Num} (v : list num_t) : num_t := foldl nadd (lit f32_neg_zero) v.

(** ** binary32 *)

(** The exact result of [a * b + c] fits this format; it is rounded once. *)
Definition fma_prec : Z := 1024.
Definition fma_emax : Z := 4096.
Definition f32_fma (a b c : f32) : f32 :=
  of_sf match SFadd fma_prec fma_emax (SFmul fma_prec fma_emax (to_sf a) (to_sf b)) (to_sf c) with
        | S754_finite s m e => binary_round 24 128 s m e
        | x => x
        end.
Definition f32_neg (a : f32) : f32 := if f32_sign a then a - 2 ^ 31 else a + 2 ^ 31.
Definition f32_round (a : f32) : f32 :=
  match to_sf a with
  | S754_finite s m e =>
      if (0 <=? e)%Z then a
      else
        let n := ((Z.pos m + 2 ^ (- e - 1)) / 2 ^ (- e))%Z in
        let r := of_sf (binary_normalize 24 128 n 0 false) in
        if s then f32_neg r else r
  | _ => a
  end.

Lemma min_255 n : N.min n 255 < 256.
Proof. lia. Qed.
#[global] Instance F32 : Num := {|
  num_t := f32; lit := fun b => b; bits := fun b => b;
  nadd := f32_add; nsub := f32_sub; nmul := f32_mul; ndiv := f32_div; nfma := f32_fma;
  nsqrt := f32_sqrt; nabs := f32_abs; nneg := f32_neg;
  ngtb := f32_gtb; ngeb := f32_geb; neqb := f32_eqb; nround := f32_round; nclamp := f32_clamp;
  nfinite := is_finite; of_int := f32_of_N; to_u8 := fun x => N.min (f32_to_usize x) 255;
  to_u8_bound := fun x => min_255 _ |}.

(** One rounding, not two: [4097 * 4097 - 16785408 = 1], while the product alone rounds
    to [16785408]. *)
Example fma_once : f32_fma 0x45800800 0x45800800 0xCB801000 = f32_one.
Proof. vm_compute. reflexivity. Qed.
Example mul_then_add : f32_add (f32_mul 0x45800800 0x45800800) 0xCB801000 = 0.
Proof. vm_compute. reflexivity. Qed.
Example round_half_away : map f32_round [0x3F000000; 0x40200000; 0xC0200000; 0x3EFFFFFF] = [f32_one; 0x40400000; 0xC0400000; 0].
Proof. vm_compute. reflexivity. Qed.

(** ** The real numbers *)

Definition sf_value (x : spec_float) : R :=
  match x with
  | S754_finite s m e => (if s then - IZR (Z.pos m) * powerRZ 2 e else IZR (Z.pos m) * powerRZ 2 e)%R
  | _ => 0%R
  end.
Definition f32_value (b : f32) : R := sf_value (to_sf b).
Definition R_of_N (n : N) : R := IZR (Z.of_N n).
Definition R_gtb (a b : R) : bool := if Rlt_dec b a then true else false.
Definition R_geb (a b : R) : bool := if Rle_dec b a then true else false.
Definition R_eqb (a b : R) : bool := if Req_dec_T a b then true else false.
Definition R_round (x : R) : R :=
  if Rle_dec 0 x then IZR (Int_part (x + / 2)) else (- IZR (Int_part (- x + / 2)))%R.
Definition R_clamp (x lo hi : R) : R := if Rlt_dec x lo then lo else if Rlt_dec hi x then hi else x.
Definition R_to_u8 (x : R) : N := Z.to_N (Z.max 0 (Z.min 255 (Int_part x))).

Lemma R_to_u8_bound x : R_to_u8 x < 256.
Proof. unfold R_to_u8. lia. Qed.
(** [store]: any rounding to binary32. *)
Definition Reals (store : R -> f32) : Num := {|
  num_t := R; lit := f32_value; bits := store;
  nadd := Rplus; nsub := Rminus; nmul := Rmult; ndiv := Rdiv; nfma a b c := (a * b + c)%R;
  nsqrt := sqrt; nabs := Rabs; nneg := Ropp;
  ngtb := R_gtb; ngeb := R_geb; neqb := R_eqb; nround := R_round; nclamp := R_clamp;
  nfinite := fun _ => true; of_int := R_of_N; to_u8 := R_to_u8;
  to_u8_bound := R_to_u8_bound |}.

Lemma f32_value_zero : f32_value f32_zero = 0%R. Proof. reflexivity. Qed.
Lemma f32_value_neg_zero : f32_value f32_neg_zero = 0%R. Proof. reflexivity. Qed.
Lemma value_pos m e : sf_value (S754_finite false m e) = (IZR (Z.pos m) * powerRZ 2 e)%R.
Proof. reflexivity. Qed.
Lemma f32_value_one : f32_value f32_one = 1%R.
Proof.
  change (f32_value f32_one) with (IZR 8388608 * powerRZ 2 (-23))%R. simpl powerRZ.
  change (Pos.to_nat 23) with 23%nat. simpl. lra.
Qed.
Lemma f32_value_two : f32_value 0x40000000 = 2%R.
Proof.
  change (f32_value 0x40000000) with (IZR 8388608 * powerRZ 2 (-22))%R. simpl powerRZ.
  change (Pos.to_nat 22) with 22%nat. simpl. lra.
Qed.
Lemma f32_value_half : f32_value f32_half = (/ 2)%R.
Proof.
  change (f32_value f32_half) with (IZR 8388608 * powerRZ 2 (-24))%R. simpl powerRZ.
  change (Pos.to_nat 24) with 24%nat. simpl. lra.
Qed.
