(* ===== verification/Simd.v ===== *)
(** * The vector kernels, [crates/turbomemory_core/src/metrics.rs]

    Every implementation of the dot product, the squared distance, the product with norms
    and the four-vector product: scalar, AVX2 with FMA, SSE and NEON, with the choice
    among them. A vector register is the list of its lanes. The kernels read memory
    without bounds checks: a read outside its slice is [None], as is a failed assertion.
    Over the reals each kernel computes the plain sum ([kernels_exact]); on binary32 they
    differ in rounding only. *)

From S2P Require Import Prelude Core Floats Metrics Numeric.
From Stdlib Require Import Reals Lra Lia.

(** What the processor offers, in the order the code asks. *)
Inductive Isa := Avx2Fma | Sse | Neon | Portable.

Section kernels.
Context {NU : Num}.

(** ** Registers *)

(** [_mm256_loadu_ps], [_mm_loadu_ps], [vld1q_f32] at [p + i]. *)
Definition loadu (w : nat) (p : list num_t) (i : nat) : option (list num_t) :=
  if (i + w <=? length p)%nat then Some (take w (drop i p)) else None.
Definition splat (w : nat) (x : num_t) : list num_t := replicate w x.
Definition lane_add : list num_t -> list num_t -> list num_t := zip_with nadd.
Definition lane_sub : list num_t -> list num_t -> list num_t := zip_with nsub.
Definition lane_mul : list num_t -> list num_t -> list num_t := zip_with nmul.
(** [a * b + c] in each lane. *)
Definition lane_fma (a b c : list num_t) : list num_t := zip_with (fun p z => nfma p.1 p.2 z) (zip a b) c.
(** [vaddvq_f32]: pairwise. *)
Definition vaddvq (v : list num_t) : num_t :=
  match v with
  | [a; b; c; d] => nadd (nadd a b) (nadd c d)
  | _ => nzero
  end.

(** [while i + w <= len]: the index where it stops, and the state. The index grows by
    [w > 0], so [len] rounds are enough. *)
Fixpoint strides {S} (fuel w len i : nat) (body : nat -> S -> option S) (s : S) : option (nat * S) :=
  if (i + w <=? len)%nat then
    match fuel with
    | O => None
    | S fuel => s ← body i s; strides fuel w len (i + w) body s
    end
  else Some (i, s).

(** How a kernel adds a product to its accumulator, and sums the lanes up. *)
Record Style := { st_width : nat; st_acc : list num_t -> list num_t -> list num_t -> list num_t; st_sum : list num_t -> num_t }.
Definition avx2_style : Style := {| st_width := 8; st_acc := lane_fma; st_sum := nsum |}.
Definition sse_style : Style := {| st_width := 4; st_acc := fun a b c => lane_add c (lane_mul a b); st_sum := nsum |}.
Definition neon_style : Style := {| st_width := 4; st_acc := lane_fma; st_sum := vaddvq |}.

(** ** Kernels, in the style of an instruction set *)

Definition dot_product_simd (st : Style) (a b : list num_t) : option num_t :=
  let w := st_width st in
  '(i, acc) ← strides (length a) w (length a) 0 (fun i acc =>
      va ← loadu w a i; vb ← loadu w b i; Some (st_acc st va vb acc)) (splat w nzero);
  '(_, dot) ← strides (length a) 1 (length a) i (fun i dot =>
      x ← a !! i; y ← b !! i; Some (nadd dot (nmul x y))) (st_sum st acc);
  Some dot.

Definition l2_distance_sq_simd (st : Style) (a b : list num_t) : option num_t :=
  let w := st_width st in
  '(i, acc) ← strides (length a) w (length a) 0 (fun i acc =>
      va ← loadu w a i; vb ← loadu w b i;
      let diff := lane_sub va vb in Some (st_acc st diff diff acc)) (splat w nzero);
  '(_, sum) ← strides (length a) 1 (length a) i (fun i sum =>
      x ← a !! i; y ← b !! i; let d := nsub x y in Some (nadd sum (nmul d d))) (st_sum st acc);
  Some sum.

Definition dot_and_norms_simd (st : Style) (a b : list num_t) : option (num_t * num_t * num_t) :=
  let w := st_width st in
  let zero := splat w nzero in
  '(i, (dot_acc, na_acc, nb_acc)) ← strides (length a) w (length a) 0 (fun i '(dot_acc, na_acc, nb_acc) =>
      va ← loadu w a i; vb ← loadu w b i;
      Some (st_acc st va vb dot_acc, st_acc st va va na_acc, st_acc st vb vb nb_acc)) (zero, zero, zero);
  '(_, s) ← strides (length a) 1 (length a) i (fun i '(dot, na, nb) =>
      x ← a !! i; y ← b !! i;
      Some (nadd dot (nmul x y), nadd na (nmul x x), nadd nb (nmul y y)))
    (st_sum st dot_acc, st_sum st na_acc, st_sum st nb_acc);
  Some s.

(** One of the four vectors: its product and its squared norm. *)
Definition x4_block (st : Style) (i : nat) (qv v : list num_t) (dn : list num_t * list num_t) : option (list num_t * list num_t) :=
  a ← loadu (st_width st) v i; Some (st_acc st qv a dn.1, st_acc st a a dn.2).
Definition x4_rest (i : nat) (qx : num_t) (v : list num_t) (dn : num_t * num_t) : option (num_t * num_t) :=
  x ← v !! i; Some (nadd dn.1 (nmul qx x), nadd dn.2 (nmul x x)).
Definition four {A B} (f : list num_t -> A -> option B) (v0 v1 v2 v3 : list num_t) (s : A * A * A * A) : option (B * B * B * B) :=
  let '(s0, s1, s2, s3) := s in
  r0 ← f v0 s0; r1 ← f v1 s1; r2 ← f v2 s2; r3 ← f v3 s3; Some (r0, r1, r2, r3).
Definition dot_and_nb_x4_simd (st : Style) (q v0 v1 v2 v3 : list num_t)
    : option ((num_t * num_t) * (num_t * num_t) * (num_t * num_t) * (num_t * num_t)) :=
  let w := st_width st in
  let zero := (splat w nzero, splat w nzero) in
  let sums dn := (st_sum st dn.1, st_sum st dn.2) in
  '(i, (s0, s1, s2, s3)) ← strides (length q) w (length q) 0 (fun i s =>
      qv ← loadu w q i; four (x4_block st i qv) v0 v1 v2 v3 s) (zero, zero, zero, zero);
  '(_, s) ← strides (length q) 1 (length q) i (fun i s =>
      qx ← q !! i; four (x4_rest i qx) v0 v1 v2 v3 s) (sums s0, sums s1, sums s2, sums s3);
  Some s.

(** ** Portable kernels *)

Definition dot_product_portable (a b : list num_t) : num_t := nsum (zip_with nmul a b).
Definition l2_distance_sq_portable (a b : list num_t) : num_t :=
  nsum (zip_with (fun x y => let d := nsub x y in nmul d d) a b).
Definition dot_and_norms_portable (a b : list num_t) : num_t * num_t * num_t :=
  foldl (fun '(dot, na, nb) '(x, y) => (nadd dot (nmul x y), nadd na (nmul x x), nadd nb (nmul y y)))
    (nzero, nzero, nzero) (zip a b).
Definition dot_and_nb_portable (q v : list num_t) : num_t * num_t :=
  foldl (fun '(d, n) '(x, y) => (nadd d (nmul x y), nadd n (nmul y y))) (nzero, nzero) (zip q v).

(** ** Dispatch *)

Definition style_of (isa : Isa) : option Style :=
  match isa with
  | Avx2Fma => Some avx2_style | Sse => Some sse_style | Neon => Some neon_style | Portable => None
  end.
Definition same_length (a b : list num_t) : bool := (length a =? length b)%nat.

Definition dot_product_on (isa : Isa) (a b : list num_t) : option num_t :=
  if negb (same_length a b) then None
  else match style_of isa with Some st => dot_product_simd st a b | None => Some (dot_product_portable a b) end.
Definition l2_distance_sq_on (isa : Isa) (a b : list num_t) : option num_t :=
  if negb (same_length a b) then None
  else match style_of isa with Some st => l2_distance_sq_simd st a b | None => Some (l2_distance_sq_portable a b) end.
Definition dot_and_norms_on (isa : Isa) (a b : list num_t) : option (num_t * num_t * num_t) :=
  if negb (same_length a b) then None
  else match style_of isa with Some st => dot_and_norms_simd st a b | None => Some (dot_and_norms_portable a b) end.
Definition dot_and_nb_x4_on (isa : Isa) (q v0 v1 v2 v3 : list num_t)
    : option ((num_t * num_t) * (num_t * num_t) * (num_t * num_t) * (num_t * num_t)) :=
  if negb (same_length v0 q && same_length v1 q && same_length v2 q && same_length v3 q) then None
  else match style_of isa with
       | Some st => dot_and_nb_x4_simd st q v0 v1 v2 v3
       | None => Some (dot_and_nb_portable q v0, dot_and_nb_portable q v1, dot_and_nb_portable q v2, dot_and_nb_portable q v3)
       end.

(** ** Cosine and late interaction *)

Definition cosine_similarity_on (isa : Isa) (a b : list num_t) : option num_t :=
  '(dot, norm_sq_a, norm_sq_b) ← dot_and_norms_on isa a b;
  let denom := nsqrt (nmul norm_sq_a norm_sq_b) in
  Some (if neqb denom nzero then nzero else nclamp (ndiv dot denom) (nneg none_) none_).
Definition cosine_distance_on (isa : Isa) (a b : list num_t) : option num_t :=
  s ← cosine_similarity_on isa a b; Some (nsub none_ s).
Definition neg_infinity : num_t := lit 0xFF800000.
(** The best match of one query token; [max_sim] starts below everything. *)
Fixpoint best_match (isa : Isa) (q_vec : list num_t) (doc : list (list num_t)) (max_sim : num_t) : option num_t :=
  match doc with
  | [] => Some max_sim
  | d_vec :: doc =>
      sim ← dot_product_on isa q_vec d_vec;
      best_match isa q_vec doc (if ngtb sim max_sim then sim else max_sim)
  end.
Definition token_rows (dim : nat) (l : list num_t) : list (list num_t) :=
  map (fun i => take dim (drop (i * dim) l)) (seq 0 (length l / dim)).
Fixpoint maxsim_loop (isa : Isa) (qs doc : list (list num_t)) (total : num_t) : option num_t :=
  match qs with
  | [] => Some total
  | q_vec :: qs =>
      m ← best_match isa q_vec doc neg_infinity;
      maxsim_loop isa qs doc (if nfinite m then nadd total m else total)
  end.
Definition maxsim_score (isa : Isa) (query_tokens doc_tokens : list num_t) (dim : nat) : option num_t :=
  if (dim =? 0)%nat || bool_decide (query_tokens = []) || bool_decide (doc_tokens = []) then Some nzero
  else
    let l_q := (length query_tokens / dim)%nat in
    let l_d := (length doc_tokens / dim)%nat in
    if (l_q =? 0)%nat || (l_d =? 0)%nat then Some nzero
    else maxsim_loop isa (token_rows dim query_tokens) (token_rows dim doc_tokens) nzero.
Definition maxsim_score_batch (isa : Isa) (query_tokens : list num_t) (docs : list (list num_t)) (dim : nat)
    : option (list num_t) := mapM (fun doc => maxsim_score isa query_tokens doc dim) docs.

End kernels.

(** ** Over the reals *)

Section loop.
Context {S : Type} (w len : nat) (body : nat -> S -> option S) (I : nat -> S -> Prop).
Context (Hw : (0 < w)%nat) (Hbody : forall i s, (i + w <= len)%nat -> I i s -> exists s', body i s = Some s' /\ I (i + w)%nat s').
(** The rule of the loop: what each block keeps holds where the blocks end. *)
Lemma strides_rule fuel i s :
  (i <= len)%nat -> (len - i <= fuel)%nat -> I i s ->
  exists j s', strides fuel w len i body s = Some (j, s') /\ I j s' /\ (j <= len < j + w)%nat.
Proof.
  revert i s. induction fuel as [|fuel IH]; intros i s Hi Hf Hs; simpl; destruct (Nat.leb_spec (i + w) len); try lia.
  - exists i, s. split_and!; [done|done|lia..].
  - destruct (Hbody i s) as (s' & -> & Hs'); [done..|]. simpl. apply IH; [lia..|done].
  - exists i, s. split_and!; [done|done|lia..].
Qed.
Lemma strides_bind {B} fuel i s (k : nat * S -> option B) r :
  (i <= len)%nat -> (len - i <= fuel)%nat -> I i s ->
  (forall j s', I j s' -> (j <= len < j + w)%nat -> k (j, s') = r) -> strides fuel w len i body s ≫= k = r.
Proof.
  intros Hi Hf Hs Hk. destruct (strides_rule fuel i s Hi Hf Hs) as (j & s' & -> & Hj & Hl). by apply Hk.
Qed.
End loop.

Section exact.
Context (store : R -> f32).
#[local] Instance RN : Num := Reals store.
#[local] Open Scope R_scope.

Definition rsum (l : list R) : R := foldr Rplus 0 l.
Lemma rsum_app l1 l2 : rsum (l1 ++ l2) = rsum l1 + rsum l2.
Proof. unfold rsum. induction l1 as [|x l1 IH]; simpl; [lra|]. rewrite IH. lra. Qed.
Lemma foldl_rsum l z : foldl Rplus z l = z + rsum l.
Proof. revert z. induction l as [|x l IH]; intros z; simpl; [lra|]. rewrite IH. lra. Qed.
Lemma nsum_rsum (l : list R) : @nsum RN l = rsum l.
Proof.
  unfold nsum. change (@nadd RN) with Rplus. rewrite foldl_rsum. change (@lit RN f32_neg_zero) with (f32_value f32_neg_zero).
  rewrite f32_value_neg_zero. lra.
Qed.
Lemma rsum_splat w : rsum (splat (NU := RN) w nzero) = 0.
Proof. unfold splat. change (@nzero RN) with 0. unfold rsum. induction w as [|w IH]; simpl; [done|]. etrans; [apply Rplus_0_l|exact IH]. Qed.

(** The inner product of two vectors. *)
Definition rdot (a b : list R) : R := rsum (zip_with Rmult a b).

(** The first [i] terms, and the next block of them. *)
Lemma take_block {A} (c : list A) i w : take (i + w) c = take i c ++ take w (drop i c).
Proof. symmetry. apply take_take_drop. Qed.
Lemma block_zip {A B C} (f : A -> B -> C) a b i w :
  take w (drop i (zip_with f a b)) = zip_with f (take w (drop i a)) (take w (drop i b)).
Proof. by rewrite zip_with_drop, zip_with_take. Qed.
Lemma take_S {A} (c : list A) i x : c !! i = Some x -> take (i + 1) c = take i c ++ [x].
Proof. intros Hx. rewrite Nat.add_1_r. by apply take_S_r. Qed.

Lemma loadu_in w (p : list R) i :
  (i + w <= length p)%nat -> loadu w p i = Some (take w (drop i p)) /\ length (take w (drop i p)) = w.
Proof.
  intros H. unfold loadu. rewrite (proj2 (Nat.leb_le _ _)) by done. split; [done|].
  rewrite length_take, length_drop. lia.
Qed.

Lemma loads w (a b : list R) i :
  length b = length a -> (i + w <= length a)%nat ->
  loadu w a i = Some (take w (drop i a)) /\ loadu w b i = Some (take w (drop i b)).
Proof. intros Hb Hi. split; apply loadu_in; [done|]. by rewrite Hb. Qed.

(** A style adds the products of two registers to the sum of the accumulator. *)
Record style_ok (st : Style) : Prop := {
  sk_width : (0 < st_width st)%nat;
  sk_acc a b c : length a = st_width st -> length b = st_width st -> length c = st_width st ->
    length (st_acc st a b c) = st_width st /\ rsum (st_acc st a b c) = rsum c + rdot a b;
  sk_sum c : length c = st_width st -> st_sum st c = rsum c;
}.

Lemma fma_sum (a b c : list R) : length a = length c -> length b = length c ->
  length (lane_fma a b c) = length c /\ rsum (lane_fma a b c) = rsum c + rdot a b.
Proof.
  unfold lane_fma, rdot, rsum. change (@nfma RN) with (fun a b c => a * b + c).
  revert a b. induction c as [|z c IH]; intros [|x a] [|y b] Ha Hb; simpl in *; try done; [split; [done|lra]|].
  destruct (IH a b) as [E1 E2]; [lia..|]. rewrite E1, E2. split; [done|lra].
Qed.
Lemma mul_add_sum (a b c : list R) : length a = length c -> length b = length c ->
  length (lane_add c (lane_mul a b)) = length c /\ rsum (lane_add c (lane_mul a b)) = rsum c + rdot a b.
Proof.
  unfold lane_add, lane_mul, rdot, rsum. change (@nmul RN) with Rmult. change (@nadd RN) with Rplus.
  revert a b. induction c as [|z c IH]; intros [|x a] [|y b] Ha Hb; simpl in *; try done; [split; [done|lra]|].
  destruct (IH a b) as [E1 E2]; [lia..|]. rewrite E1, E2. split; [done|lra].
Qed.
Lemma style_of_ok isa st : style_of isa = Some st -> style_ok st.
Proof.
  destruct isa; intros [= <-]; split; simpl; try lia; try (intros c _; apply nsum_rsum).
  - intros a b c Ha Hb Hc. rewrite <- Hc in *. by apply fma_sum.
  - intros a b c Ha Hb Hc. rewrite <- Hc in *. by apply mul_add_sum.
  - intros a b c Ha Hb Hc. rewrite <- Hc in *. by apply fma_sum.
  - intros [|x [|y [|z [|t [|u c]]]]] Hc; try done. unfold vaddvq, rsum. change (@nadd RN) with Rplus. simpl. lra.
Qed.

(** A register of partial sums after the first [i] terms of [c]. *)
Definition partial (st : Style) (c : list R) (i : nat) (acc : list R) : Prop :=
  length acc = st_width st /\ rsum acc = rsum (take i c).
Lemma partial_zero st c : partial st c 0 (splat (st_width st) nzero).
Proof. split; [apply length_replicate|by rewrite rsum_splat, take_0]. Qed.
Lemma partial_step st a b c i acc :
  style_ok st -> (i + st_width st <= length a)%nat -> length b = length a -> c = zip_with Rmult a b -> partial st c i acc ->
  partial st c (i + st_width st) (st_acc st (take (st_width st) (drop i a)) (take (st_width st) (drop i b)) acc).
Proof.
  intros Hst Hi Hb -> [H1 H2].
  destruct (loadu_in (st_width st) a i Hi) as [_ La]. rewrite <- Hb in Hi. destruct (loadu_in (st_width st) b i Hi) as [_ Lb].
  destruct (sk_acc st Hst _ _ _ La Lb H1) as [E1 E2]. split; [done|].
  rewrite E2, H2, take_block, rsum_app, block_zip. done.
Qed.
Definition summed (c : list R) (i : nat) (s : R) : Prop := s = rsum (take i c).
Lemma summed_step c i s x : c !! i = Some x -> summed c i s -> summed c (i + 1) (s + x).
Proof. intros Hx ->. unfold summed. rewrite (take_S c i x Hx), rsum_app. unfold rsum at 3. simpl. lra. Qed.
Lemma partial_sum st c i acc : style_ok st -> partial st c i acc -> summed c i (st_sum st acc).
Proof. intros Hst [H1 H2]. unfold summed. by rewrite (sk_sum st Hst). Qed.
Lemma summed_all c i s len : (i <= len < i + 1)%nat -> length c = len -> summed c i s -> s = rsum c.
Proof. intros Hi Hc ->. f_equal. apply take_ge. lia. Qed.

Lemma lookup_products (a b : list R) i : (i < length a)%nat -> length b = length a ->
  exists x y, a !! i = Some x /\ b !! i = Some y.
Proof.
  intros Hi Hb. destruct (lookup_lt_is_Some_2 a i Hi) as [x Hx].
  destruct (lookup_lt_is_Some_2 b i) as [y Hy]; [by rewrite Hb|]. by exists x, y.
Qed.
Lemma zip_at {A B C} (f : A -> B -> C) a b i x y : a !! i = Some x -> b !! i = Some y -> zip_with f a b !! i = Some (f x y).
Proof. intros Hx Hy. by rewrite lookup_zip_with, Hx, Hy. Qed.

Lemma dot_simd_exact st (a b : list R) : style_ok st -> length b = length a -> dot_product_simd st a b = Some (rdot a b).
Proof.
  intros Hst Hb. unfold dot_product_simd. set (c := zip_with Rmult a b).
  assert (Hc : length c = length a) by (unfold c; rewrite length_zip_with; lia).
  apply (strides_bind _ _ _ (partial st c));
    [apply Hst| |apply Nat.le_0_l|apply Nat.le_sub_l|apply partial_zero|].
  { intros i acc Hi Hacc. destruct (loads _ a b i Hb Hi) as [-> ->]. simpl.
    eexists. split; [done|]. by apply (partial_step st a b). }
  intros j acc Hp Hj. simpl.
  apply (strides_bind _ _ _ (summed c)); [lia| |apply Hj|apply Nat.le_sub_l|by apply partial_sum|].
  { intros i s Hi Hs. destruct (lookup_products a b i) as (x & y & Hx & Hy); [lia|done|]. rewrite Hx, Hy. simpl.
    eexists. split; [done|]. apply summed_step; [|done]. by apply zip_at. }
  intros k s Hs Hk. f_equal. by apply (summed_all c k s (length a)).
Qed.
(** The squared distance. *)
Definition rdist2 (a b : list R) : R := let d := zip_with Rminus a b in rdot d d.
Lemma l2_simd_exact st (a b : list R) : style_ok st -> length b = length a -> l2_distance_sq_simd st a b = Some (rdist2 a b).
Proof.
  intros Hst Hb. unfold l2_distance_sq_simd, rdist2. set (d := zip_with Rminus a b). set (c := zip_with Rmult d d).
  assert (Hd : length d = length a) by (unfold d; rewrite length_zip_with; lia).
  assert (Hc : length c = length a) by (unfold c; rewrite length_zip_with; lia).
  apply (strides_bind _ _ _ (partial st c));
    [apply Hst| |apply Nat.le_0_l|apply Nat.le_sub_l|apply partial_zero|].
  { intros i acc Hi Hacc. destruct (loads _ a b i Hb Hi) as [-> ->]. simpl. eexists. split; [done|].
    unfold lane_sub. rewrite <- block_zip. apply (partial_step st d d); [done|by rewrite Hd|done..]. }
  intros j acc Hp Hj. simpl.
  apply (strides_bind _ _ _ (summed c)); [lia| |apply Hj|apply Nat.le_sub_l|by apply partial_sum|].
  { intros i s Hi Hs. destruct (lookup_products a b i) as (x & y & Hx & Hy); [lia|done|]. rewrite Hx, Hy. simpl.
    eexists. split; [done|]. apply summed_step; [|done]. by apply zip_at; apply zip_at. }
  intros k s Hs Hk. f_equal. by apply (summed_all c k s (length a)).
Qed.

Lemma norms_simd_exact st (a b : list R) :
  style_ok st -> length b = length a -> dot_and_norms_simd st a b = Some (rdot a b, rdot a a, rdot b b).
Proof.
  intros Hst Hb. unfold dot_and_norms_simd.
  set (c := zip_with Rmult a b). set (ca := zip_with Rmult a a). set (cb := zip_with Rmult b b).
  assert (Hc : length c = length a /\ length ca = length a /\ length cb = length a)
    by (unfold c, ca, cb; rewrite !length_zip_with; lia).
  apply (strides_bind _ _ _ (fun i '(x, y, z) => partial st c i x /\ partial st ca i y /\ partial st cb i z));
    [apply Hst| |apply Nat.le_0_l|apply Nat.le_sub_l|split_and!; apply partial_zero|].
  { intros i [[x y] z] Hi (P1 & P2 & P3). destruct (loads _ a b i Hb Hi) as [-> ->]. simpl. eexists. split; [done|].
    split_and!; [by apply (partial_step st a b)|by apply (partial_step st a a)|apply (partial_step st b b); try done]. by rewrite Hb. }
  intros j [[x y] z] (P1 & P2 & P3) Hj. simpl.
  apply (strides_bind _ _ _ (fun i '(x, y, z) => summed c i x /\ summed ca i y /\ summed cb i z));
    [lia| |apply Hj|apply Nat.le_sub_l|split_and!; by apply partial_sum|].
  { intros i [[p q] r] Hi (S1 & S2 & S3). destruct (lookup_products a b i) as (u & v & Hu & Hv); [lia|done|]. rewrite Hu, Hv. simpl.
    eexists. split; [done|]. split_and!; apply summed_step; try done; by apply zip_at. }
  intros k [[p q] r] (S1 & S2 & S3) Hk. destruct Hc as (C1 & C2 & C3). unfold rdot.
  by rewrite (summed_all c k p (length a)), (summed_all ca k q (length a)), (summed_all cb k r (length a)).
Qed.

(** The state of one vector of the four. *)
Definition partial2 (st : Style) (q v : list R) (i : nat) (dn : list R * list R) : Prop :=
  partial st (zip_with Rmult q v) i dn.1 /\ partial st (zip_with Rmult v v) i dn.2.
Definition summed2 (q v : list R) (i : nat) (dn : R * R) : Prop :=
  summed (zip_with Rmult q v) i dn.1 /\ summed (zip_with Rmult v v) i dn.2.
Lemma x4_block_ok st (q v : list R) i dn :
  style_ok st -> length v = length q -> (i + st_width st <= length q)%nat -> partial2 st q v i dn ->
  exists r, x4_block st i (take (st_width st) (drop i q)) v dn = Some r /\ partial2 st q v (i + st_width st) r.
Proof.
  intros Hst Hv Hi [P1 P2]. unfold x4_block. destruct (loads _ q v i Hv Hi) as [_ ->]. simpl. eexists. split; [done|].
  split; [by apply (partial_step st q v)|]. apply (partial_step st v v); try done. by rewrite Hv.
Qed.
Lemma x4_rest_ok (q v : list R) i (x : R) dn :
  length v = length q -> (i < length q)%nat -> q !! i = Some x -> summed2 q v i dn ->
  exists r, x4_rest i x v dn = Some r /\ summed2 q v (i + 1) r.
Proof.
  intros Hv Hi Hx [P1 P2]. destruct (lookup_products q v i) as (x' & y & _ & Hy); [done..|].
  exists (dn.1 + x * y, dn.2 + y * y). split; [exact (f_equal (fun o : option R => o ≫= (fun y => Some (dn.1 + x * y, dn.2 + y * y))) Hy)|]. split; apply summed_step; try done; by apply zip_at.
Qed.
Lemma partial2_sum st q v i dn : style_ok st -> partial2 st q v i dn -> summed2 q v i (st_sum st dn.1, st_sum st dn.2).
Proof. intros Hst [P1 P2]. by split; apply partial_sum. Qed.
Lemma summed2_all (q v : list R) i dn : length v = length q -> (i <= length q < i + 1)%nat -> summed2 q v i dn -> dn = (rdot q v, rdot v v).
Proof.
  intros Hv Hi [S1 S2]. destruct dn as [d n]. simpl in *.
  unfold rdot. rewrite <- (summed_all _ i d (length q) Hi), <- (summed_all _ i n (length q) Hi); try done; rewrite length_zip_with; lia.
Qed.

Lemma x4_simd_exact st (q v0 v1 v2 v3 : list R) :
  style_ok st -> length v0 = length q -> length v1 = length q -> length v2 = length q -> length v3 = length q ->
  dot_and_nb_x4_simd st q v0 v1 v2 v3 = Some ((rdot q v0, rdot v0 v0), (rdot q v1, rdot v1 v1), (rdot q v2, rdot v2 v2), (rdot q v3, rdot v3 v3)).
Proof.
  intros Hst H0 H1 H2 H3. unfold dot_and_nb_x4_simd.
  apply (strides_bind _ _ _ (fun i '(s0, s1, s2, s3) =>
    partial2 st q v0 i s0 /\ partial2 st q v1 i s1 /\ partial2 st q v2 i s2 /\ partial2 st q v3 i s3));
    [apply Hst| |apply Nat.le_0_l|apply Nat.le_sub_l|split_and!; split; apply partial_zero|].
  { intros i [[[s0 s1] s2] s3] Hi (P0 & P1 & P2 & P3). destruct (loads _ q q i eq_refl Hi) as [-> _]. simpl.
    destruct (x4_block_ok st q v0 i s0) as (r0 & -> & R0); [done..|].
    destruct (x4_block_ok st q v1 i s1) as (r1 & -> & R1); [done..|].
    destruct (x4_block_ok st q v2 i s2) as (r2 & -> & R2); [done..|].
    destruct (x4_block_ok st q v3 i s3) as (r3 & -> & R3); [done..|]. simpl. eexists. by split. }
  intros j [[[s0 s1] s2] s3] (P0 & P1 & P2 & P3) Hj. simpl.
  apply (strides_bind _ _ _ (fun i '(s0, s1, s2, s3) =>
    summed2 q v0 i s0 /\ summed2 q v1 i s1 /\ summed2 q v2 i s2 /\ summed2 q v3 i s3));
    [lia| |apply Hj|apply Nat.le_sub_l|by refine (conj _ (conj _ (conj _ _))); apply partial2_sum|].
  { intros i [[[t0 t1] t2] t3] Hi (S0 & S1 & S2 & S3). destruct (lookup_products q q i) as (x & _ & Hx & _); [lia|done|].
    rewrite Hx. simpl. assert (Hi' : (i < length q)%nat) by lia.
    destruct (x4_rest_ok q v0 i x t0) as (r0 & -> & R0); [done..|].
    destruct (x4_rest_ok q v1 i x t1) as (r1 & -> & R1); [done..|].
    destruct (x4_rest_ok q v2 i x t2) as (r2 & -> & R2); [done..|].
    destruct (x4_rest_ok q v3 i x t3) as (r3 & -> & R3); [done..|]. simpl. eexists. by split. }
  intros k [[[t0 t1] t2] t3] (S0 & S1 & S2 & S3) Hk.
  by rewrite (summed2_all q v0 k t0), (summed2_all q v1 k t1), (summed2_all q v2 k t2), (summed2_all q v3 k t3).
Qed.

(** The portable kernels. *)
Lemma portable_dot (a b : list R) : dot_product_portable a b = rdot a b.
Proof. apply nsum_rsum. Qed.
Lemma portable_l2 (a b : list R) : l2_distance_sq_portable a b = rdist2 a b.
Proof.
  unfold l2_distance_sq_portable, rdist2, rdot. etrans; [apply nsum_rsum|]. f_equal.
  change (@nmul RN) with Rmult. change (@nsub RN) with Rminus.
  revert b. induction a as [|x a IH]; intros [|y b]; simpl; try done. by rewrite IH.
Qed.
Lemma portable_nb (q v : list R) : length v = length q -> dot_and_nb_portable q v = (rdot q v, rdot v v).
Proof.
  intros E. unfold dot_and_nb_portable.
  change (@nadd RN) with Rplus. change (@nmul RN) with Rmult. change (@nzero RN) with 0.
  enough (H : forall d n, foldl (fun '(d, n) '(x, y) => (d + x * y, n + y * y)) (d, n) (zip q v) = (d + rdot q v, n + rdot v v)).
  { rewrite H. f_equal; lra. }
  unfold rdot, rsum. revert v E. induction q as [|x q IH]; intros [|y v] E d n; try done; simpl; [f_equal; lra|].
  rewrite IH by (simpl in E; lia). f_equal; lra.
Qed.
Lemma portable_norms (a b : list R) : length b = length a -> dot_and_norms_portable a b = (rdot a b, rdot a a, rdot b b).
Proof.
  intros E. unfold dot_and_norms_portable.
  change (@nadd RN) with Rplus. change (@nmul RN) with Rmult. change (@nzero RN) with 0.
  enough (H : forall d m n, foldl (fun '(d, m, n) '(x, y) => (d + x * y, m + x * x, n + y * y)) (d, m, n) (zip a b)
    = (d + rdot a b, m + rdot a a, n + rdot b b)).
  { rewrite H. f_equal; [f_equal|]; lra. }
  unfold rdot, rsum. revert b E. induction a as [|x a IH]; intros [|y b] E d m n; try done; simpl; [f_equal; [f_equal|]; lra|].
  rewrite IH by (simpl in E; lia). f_equal; [f_equal|]; lra.
Qed.

(** *** The inner product *)

Lemma rdot_comm a b : rdot a b = rdot b a.
Proof. unfold rdot, rsum. revert b. induction a as [|x a IH]; intros [|y b]; simpl; [done..|]. rewrite IH. lra. Qed.
Lemma rdot_nonneg a : 0 <= rdot a a.
Proof. unfold rdot, rsum. induction a as [|x a IH]; simpl; [lra|]. pose proof (Rle_0_sqr x). unfold Rsqr in *. lra. Qed.
(** [a - t b]. *)
Definition axpy (t : R) (a b : list R) : list R := zip_with (fun x y => x - t * y) a b.
Lemma rdot_axpy t a b : length b = length a -> rdot (axpy t a b) (axpy t a b) = rdot a a - 2 * t * rdot a b + t * t * rdot b b.
Proof.
  unfold rdot, rsum, axpy. revert b. induction a as [|x a IH]; intros [|y b] E; simpl; try done; [lra|].
  rewrite IH by (simpl in E; lia). lra.
Qed.
(** Cauchy and Schwarz. *)
Lemma rdot_bound a b : length b = length a -> rdot a b * rdot a b <= rdot a a * rdot b b.
Proof.
  intros E. pose proof (rdot_nonneg b) as Hb. pose proof (rdot_nonneg a) as Ha.
  destruct (Req_dec (rdot b b) 0) as [H0|H0].
  - rewrite H0, Rmult_0_r. destruct (Req_dec (rdot a b) 0) as [-> |Hab]; [lra|].
    pose proof (rdot_axpy ((rdot a a + 1) / rdot a b) a b E) as Hx.
    pose proof (rdot_nonneg (axpy ((rdot a a + 1) / rdot a b) a b)) as Hp. rewrite Hx, H0 in Hp.
    assert (H : 2 * ((rdot a a + 1) / rdot a b) * rdot a b = 2 * (rdot a a + 1)) by (field; done). lra.
  - pose proof (rdot_axpy (rdot a b / rdot b b) a b E) as Hx.
    pose proof (rdot_nonneg (axpy (rdot a b / rdot b b) a b)) as Hp. rewrite Hx in Hp.
    assert (H : rdot a a - 2 * (rdot a b / rdot b b) * rdot a b + rdot a b / rdot b b * (rdot a b / rdot b b) * rdot b b
                = rdot a a - rdot a b * rdot a b / rdot b b) by (field; done).
    rewrite H in Hp. apply (Rmult_le_compat_r (rdot b b)) in Hp; [|done].
    assert (H2 : (rdot a a - rdot a b * rdot a b / rdot b b) * rdot b b = rdot a a * rdot b b - rdot a b * rdot a b) by (field; done).
    lra.
Qed.

End exact.

(** ** Reads *)

Section reads.
Context {NU : Num}.

Lemma strides_total {S B} (w len : nat) (body : nat -> S -> option S) fuel i s (k : nat * S -> option B) :
  (0 < w)%nat -> (forall i s, (i + w <= len)%nat -> is_Some (body i s)) -> (i <= len)%nat -> (len - i <= fuel)%nat ->
  (forall j s, (j <= len < j + w)%nat -> is_Some (k (j, s))) -> is_Some (strides fuel w len i body s ≫= k).
Proof.
  intros Hw Hb Hi Hf Hk. destruct (strides_rule w len body (fun _ _ => True) Hw) with (fuel := fuel) (i := i) (s := s)
    as (j & s' & -> & _ & Hj); [|done..|by apply Hk].
  intros i' s' Hi' _. destruct (Hb i' s' Hi') as [x Hx]. by exists x.
Qed.
Lemma loadu_total w (p : list num_t) i len : length p = len -> (i + w <= len)%nat -> exists v, loadu w p i = Some v.
Proof. intros <- H. unfold loadu. rewrite (proj2 (Nat.leb_le _ _)) by done. eauto. Qed.
Lemma lookup_total_at (p : list num_t) i len : length p = len -> (i + 1 <= len)%nat -> exists v, p !! i = Some v.
Proof. intros <- H. apply lookup_lt_is_Some_2. lia. Qed.

(** A read of the slice [a] or of another of its length is inside. *)
Ltac in_slice len :=
  repeat match goal with
  | Hp : length ?p = len |- context [loadu ?w ?p ?i] =>
      let v := fresh "v" in destruct (loadu_total w p i len Hp) as [v ->]; [done|]; simpl
  | Hp : length ?p = len |- context [?p !! ?i] =>
      let v := fresh "v" in destruct (lookup_total_at p i len Hp) as [v ->]; [done|]; simpl
  end.
Ltac pairs := repeat match goal with x : (_ * _)%type |- _ => destruct x end.
Ltac run_loop len :=
  apply strides_total; [lia|intros; pairs; in_slice len; by eauto|lia|lia|intros; pairs; simpl].
Ltac run_loops len := run_loop len; run_loop len; by eauto.

Lemma style_width isa st : style_of isa = Some st -> (0 < st_width st)%nat.
Proof. destruct isa; intros [= <-]; simpl; lia. Qed.

Lemma simd_total st (a b : list num_t) : (0 < st_width st)%nat -> length b = length a ->
  is_Some (dot_product_simd st a b) /\ is_Some (l2_distance_sq_simd st a b) /\ is_Some (dot_and_norms_simd st a b).
Proof.
  intros Hw Hb. assert (Ha : length a = length a) by done.
  split_and!; [unfold dot_product_simd|unfold l2_distance_sq_simd|unfold dot_and_norms_simd]; run_loops (length a).
Qed.
Lemma x4_total st (q v0 v1 v2 v3 : list num_t) : (0 < st_width st)%nat ->
  length v0 = length q -> length v1 = length q -> length v2 = length q -> length v3 = length q ->
  is_Some (dot_and_nb_x4_simd st q v0 v1 v2 v3).
Proof.
  intros Hw H0 H1 H2 H3. assert (Hq : length q = length q) by done.
  unfold dot_and_nb_x4_simd, four, x4_block, x4_rest. run_loops (length q).
Qed.
Lemma guarded {A} (a b : list num_t) (o : option A) :
  (length b = length a -> is_Some o) -> is_Some (if negb (same_length a b) then None else o) <-> length b = length a.
Proof.
  unfold same_length. destruct (Nat.eqb_spec (length a) (length b)) as [E|E]; simpl; intros Ho; split; auto.
  - by intros [? [=]].
  - congruence.
Qed.
Lemma on_total isa (a b : list num_t) :
  (is_Some (dot_product_on isa a b) <-> length b = length a) /\
  (is_Some (l2_distance_sq_on isa a b) <-> length b = length a) /\
  (is_Some (dot_and_norms_on isa a b) <-> length b = length a).
Proof.
  split_and!; apply guarded; intros E; (destruct (style_of isa) as [st|] eqn:Est; [|by eexists]);
    by apply simd_total; [eapply style_width|].
Qed.
End reads.

Lemma rdot_pos_sqrt store (a b : list R) :
  (0 < rdot a a)%R -> (0 < rdot b b)%R -> length b = length a ->
  let c := (rdot a b / (sqrt (rdot a a) * sqrt (rdot b b)))%R in
  @neqb (Reals store) (sqrt (rdot a a * rdot b b)) (@nzero (Reals store)) = false /\
  @nclamp (Reals store) (rdot a b / sqrt (rdot a a * rdot b b))%R (Ropp (@none_ (Reals store))) (@none_ (Reals store)) = c.
Proof.
  intros Ha Hb E. simpl. rewrite sqrt_mult by lra.
  pose proof (sqrt_lt_R0 _ Ha) as Sa. pose proof (sqrt_lt_R0 _ Hb) as Sb.
  assert (Hp : (0 < sqrt (rdot a a) * sqrt (rdot b b))%R) by (by apply Rmult_lt_0_compat).
  split.
  - unfold R_eqb. destruct (Req_dec_T _ _) as [e|]; [|done]. exfalso. apply (Rlt_not_eq _ _ Hp). symmetry. exact e.
  - set (d := (sqrt (rdot a a) * sqrt (rdot b b))%R) in *.
    assert (Hd : (rdot a b * rdot a b <= d * d)%R).
    { unfold d. replace (sqrt (rdot a a) * sqrt (rdot b b) * (sqrt (rdot a a) * sqrt (rdot b b)))%R
        with ((sqrt (rdot a a) * sqrt (rdot a a)) * (sqrt (rdot b b) * sqrt (rdot b b)))%R by ring.
      rewrite !sqrt_sqrt by lra. by apply rdot_bound. }
    assert (H1 : (-1 <= rdot a b / d <= 1)%R).
    { split; [apply (Rmult_le_reg_r d)|apply (Rmult_le_reg_r d)]; try done; unfold Rdiv; rewrite Rmult_assoc, Rinv_l by lra; nra. }
    unfold R_clamp. pose proof f32_value_one as E1. rewrite !E1. destruct (Rlt_dec _ _); [lra|]. destruct (Rlt_dec _ _); [lra|done].
Qed.

(** C27: On every processor the kernels compute the same thing. Slices of different
    lengths panic and slices of one length are read inside only, on binary32 as on the
    reals; without rounding, every dot product is the sum of all the products, every
    squared distance and norm likewise, the four-vector product gives each vector's own
    product and norm, and the cosine similarity is the cosine. *)
Theorem kernels_exact (isa : Isa) (store : R -> f32) (a b v0 v1 v2 v3 : list R) (x y : list f32) :
  length b = length a ->
  (forall v, In v [v0; v1; v2; v3] -> length v = length a) ->
  let RN := Reals store in
  @dot_product_on RN isa a b = Some (rdot a b) /\
  @l2_distance_sq_on RN isa a b = Some (rdist2 a b) /\
  @dot_and_norms_on RN isa a b = Some (rdot a b, rdot a a, rdot b b) /\
  @dot_and_nb_x4_on RN isa a v0 v1 v2 v3 = Some ((rdot a v0, rdot v0 v0), (rdot a v1, rdot v1 v1), (rdot a v2, rdot v2 v2), (rdot a v3, rdot v3 v3)) /\
  ((0 < rdot a a)%R -> (0 < rdot b b)%R ->
   @cosine_similarity_on RN isa a b = Some (rdot a b / (sqrt (rdot a a) * sqrt (rdot b b)))%R) /\
  (is_Some (@dot_product_on F32 isa x y) <-> length y = length x) /\
  (is_Some (@l2_distance_sq_on F32 isa x y) <-> length y = length x) /\
  (is_Some (@dot_and_norms_on F32 isa x y) <-> length y = length x).
Proof.
  intros Hb Hv RN. assert (Hv0 : length v0 = length a /\ length v1 = length a /\ length v2 = length a /\ length v3 = length a).
  { split_and!; apply Hv; simpl; tauto. }
  destruct Hv0 as (H0 & H1 & H2 & H3).
  assert (Hab : @same_length RN a b = true) by (apply Nat.eqb_eq; symmetry; exact Hb).
  assert (Hn : @dot_and_norms_on RN isa a b = Some (rdot a b, rdot a a, rdot b b)).
  { unfold dot_and_norms_on. rewrite Hab. simpl. destruct (style_of isa) as [st|] eqn:Est.
    - apply norms_simd_exact; [by eapply style_of_ok|done].
    - f_equal. by apply portable_norms. }
  split; [|split; [|split; [|split; [|split]]]].
  - unfold dot_product_on. rewrite Hab. simpl. destruct (style_of isa) as [st|] eqn:Est.
    + apply dot_simd_exact; [by eapply style_of_ok|done].
    + f_equal. apply portable_dot.
  - unfold l2_distance_sq_on. rewrite Hab. simpl. destruct (style_of isa) as [st|] eqn:Est.
    + apply l2_simd_exact; [by eapply style_of_ok|done].
    + f_equal. apply portable_l2.
  - done.
  - assert (Hs : forall v : list R, length v = length a -> @same_length RN v a = true) by (intros v E; by apply Nat.eqb_eq).
    unfold dot_and_nb_x4_on. rewrite !Hs by done. simpl.
    destruct (style_of isa) as [st|] eqn:Est.
    + apply x4_simd_exact; [by eapply style_of_ok|done..].
    + f_equal. repeat (f_equal; try by apply portable_nb).
  - intros Ha Hb0. unfold cosine_similarity_on. rewrite Hn. simpl.
    destruct (rdot_pos_sqrt store a b Ha Hb0 Hb) as [E1 E2]. simpl in E1, E2. by rewrite E1, E2.
  - exact (on_total (NU := F32) isa x y).
Qed.

(** The AVX2 kernel reads past no end and skips no lane: a length of nine takes one
    register and one element. *)
Example avx2_nine : @dot_product_on F32 Avx2Fma (replicate 9 f32_one) (replicate 9 f32_one) = Some (f32_of_N 9).
Proof. vm_compute. reflexivity. Qed.

Lemma kernels_exact_witness :
  length [3; 4]%R = length [1; 2]%R /\
  @dot_product_on (Reals (fun _ => 0)) Avx2Fma [1; 2]%R [3; 4]%R = Some (rdot [1; 2]%R [3; 4]%R).
Proof.
  split; [reflexivity|].
  apply (kernels_exact Avx2Fma (fun _ => 0) [1; 2]%R [3; 4]%R [1; 2]%R [1; 2]%R [1; 2]%R [1; 2]%R [] []); [reflexivity|].
  intros v Hv. simpl in Hv. intuition (subst; reflexivity).
Defined.
