(* ===== verification/Codes.v ===== *)
(** * Bit packing, [crates/turbomemory_core/src/turbo_quant.rs]

    [pack_codes] and [unpack_codes] lay out codes of 1 to 8 bits without gaps, lowest bit
    first. A [u8] is a number below 256; [None] is an index out of range or a failed
    assertion. *)

From S2P Require Import Prelude.
From Stdlib Require Import Lia ZArith.

(** [lia] knows quotients and remainders. *)
#[local] Ltac Zify.zify_post_hook ::= Z.to_euclidean_division_equations.

Definition packed_bytes (dim bits : N) : N := (dim * bits + 7) / 8.

(** [out[i] |= x]. *)
Definition or_at (i x : N) (out : list N) : option (list N) :=
  b ← out !! N.to_nat i; Some (<[N.to_nat i := N.lor b x]> out).
Fixpoint pack_loop (codes : list N) (i bits : N) (out : list N) : option (list N) :=
  match codes with
  | [] => Some out
  | code :: codes =>
      let bit_pos := i * bits in
      let byte_pos := bit_pos / 8 in
      let shift := bit_pos mod 8 in
      out ← or_at byte_pos (N.shiftl code shift mod 256) out;
      out ← (if 8 <? shift + bits then or_at (byte_pos + 1) (N.shiftr code (8 - shift)) out else Some out);
      pack_loop codes (i + 1) bits out
  end.
(** [room] is the length of the slice to fill. *)
Definition pack_codes (codes : list N) (bits room : N) : option (list N) :=
  if negb (room =? packed_bytes (len codes) bits) then None
  else pack_loop codes 0 bits (replicate (N.to_nat room) 0).

Definition code_mask (bits : N) : N := (2 ^ bits - 1) mod 256.
Definition unpack_code (encoded : list N) (bits i : N) : option N :=
  let bit_pos := i * bits in
  let byte_pos := bit_pos / 8 in
  let shift := bit_pos mod 8 in
  b ← encoded !! N.to_nat byte_pos;
  let low := N.shiftr b shift in
  high ← (if 8 <? shift + bits
          then b1 ← encoded !! N.to_nat (byte_pos + 1); Some (N.shiftl b1 (8 - shift) mod 65536)
          else Some 0);
  Some (N.land (N.lor low high) (code_mask bits)).
Definition unpack_codes (encoded : list N) (bits dim : N) : option (list N) :=
  mapM (unpack_code encoded bits) (map N.of_nat (seq 0 (N.to_nat dim))).

Example pack_3 : pack_codes [5; 2; 7; 1] 3 2 = Some [213; 3].
Proof. vm_compute. reflexivity. Qed.
Example unpack_3 : unpack_codes [213; 3] 3 4 = Some [5; 2; 7; 1].
Proof. vm_compute. reflexivity. Qed.

(** ** The stream of bits *)

Definition stream_bit (out : list N) (p : N) : bool :=
  match out !! N.to_nat (p / 8) with Some b => N.testbit b (p mod 8) | None => false end.
Definition is_bytes (l : list N) : Prop := Forall (fun b => b < 256) l.

Lemma testbit_small x n k : x < 2 ^ n -> n <= k -> N.testbit x k = false.
Proof.
  intros Hx Hk. destruct (N.eq_dec x 0) as [->|H0]; [apply N.bits_0|].
  apply N.bits_above_log2. apply N.log2_lt_pow2 in Hx; lia.
Qed.
Lemma small_of_bits x n : (forall k, n <= k -> N.testbit x k = false) -> x < 2 ^ n.
Proof.
  intros H. destruct (N.eq_dec x 0) as [->|H0]; [apply N.neq_0_lt_0, N.pow_nonzero; lia|].
  apply N.log2_lt_pow2; [lia|]. destruct (N.lt_ge_cases (N.log2 x) n) as [|Hge]; [done|].
  specialize (H _ Hge). rewrite N.bit_log2 in H by done. done.
Qed.

Lemma or_at_spec i x out :
  i < len out -> x < 256 -> is_bytes out ->
  exists out', or_at i x out = Some out' /\ len out' = len out /\ is_bytes out' /\
    forall p, stream_bit out' p = stream_bit out p || ((p / 8 =? i) && N.testbit x (p mod 8)).
Proof.
  intros Hi Hx Hb. unfold or_at. destruct (lookup_lt_is_Some_2 out (N.to_nat i)) as [b Eb]; [unfold len in Hi; lia|].
  rewrite Eb. simpl. eexists. split; [done|]. split_and!.
  - unfold len. by rewrite length_insert.
  - apply Forall_insert; [done|]. apply (small_of_bits _ 8). intros k Hk. rewrite N.lor_spec.
    rewrite (testbit_small x 8), (testbit_small b 8) by (try done; by eapply (Forall_lookup_1 _ _ _ _ Hb)). done.
  - intros p. unfold stream_bit. destruct (N.eqb_spec (p / 8) i) as [->|Hne].
    + rewrite list_lookup_insert_eq by (by eapply lookup_lt_Some). rewrite Eb. apply N.lor_spec.
    + rewrite list_lookup_insert_ne by lia. by rewrite orb_false_r.
Qed.

(** One code at its place: bits [i * bits] and on. *)
Definition code_bit (bits i c p : N) : bool := (i * bits <=? p) && N.testbit c (p - i * bits).

Lemma shifted_low q c p : N.testbit (N.shiftl c (q mod 8) mod 256) (p mod 8) && (p / 8 =? q / 8) = (p / 8 =? q / 8) && (q <=? p) && N.testbit c (p - q).
Proof.
  destruct (N.eqb_spec (p / 8) (q / 8)) as [E|]; [|by rewrite andb_false_r]. rewrite andb_true_r. cbn [andb].
  change 256 with (2 ^ 8). pose proof (N.mod_lt p 8 ltac:(lia)). rewrite N.mod_pow2_bits_low by lia.
  pose proof (N.div_mod p 8 ltac:(lia)). pose proof (N.div_mod q 8 ltac:(lia)). destruct (N.leb_spec q p).
  - rewrite N.shiftl_spec_high' by lia. cbn [andb]. f_equal. lia.
  - rewrite N.shiftl_spec_low by lia. done.
Qed.

Lemma pack_one bits i c out :
  0 < bits <= 8 -> c < 2 ^ bits -> i * bits + bits <= 8 * len out -> is_bytes out ->
  exists out', (out ← or_at (i * bits / 8) (N.shiftl c (i * bits mod 8) mod 256) out;
      if 8 <? i * bits mod 8 + bits then or_at (i * bits / 8 + 1) (N.shiftr c (8 - i * bits mod 8)) out else Some out) = Some out' /\
    len out' = len out /\ is_bytes out' /\ forall p, stream_bit out' p = stream_bit out p || code_bit bits i c p.
Proof.
  unfold code_bit. intros Hbits Hc Hroom Hb. remember (i * bits) as q eqn:Eq. clear Eq i.
  pose proof (N.div_mod q 8 ltac:(lia)) as Hdm. pose proof (N.mod_lt q 8 ltac:(lia)) as Hm.
  assert (Hq : q / 8 < len out) by (apply N.Div0.div_lt_upper_bound; lia).
  destruct (or_at_spec (q / 8) (N.shiftl c (q mod 8) mod 256) out) as (o1 & -> & L1 & B1 & S1); [done|by apply N.mod_lt|done|].
  simpl. destruct (N.ltb_spec 8 (q mod 8 + bits)) as [Hov|Hov].
  - assert (Hsmall : N.shiftr c (8 - q mod 8) < 256).
    { rewrite N.shiftr_div_pow2. apply N.Div0.div_lt_upper_bound.
      apply N.lt_le_trans with (2 ^ bits); [done|]. change 256 with (2 ^ 8). rewrite <- N.pow_add_r. apply N.pow_le_mono_r; lia. }
    destruct (or_at_spec (q / 8 + 1) (N.shiftr c (8 - q mod 8)) o1) as (o2 & -> & L2 & B2 & S2); [lia|done|done|].
    exists o2. split_and!; [done|lia|done|]. intros p. rewrite S2, S1, <- orb_assoc. f_equal.
    rewrite (andb_comm (p / 8 =? q / 8)), shifted_low. pose proof (N.div_mod p 8 ltac:(lia)). pose proof (N.mod_lt p 8 ltac:(lia)).
    destruct (N.eqb_spec (p / 8) (q / 8)), (N.eqb_spec (p / 8) (q / 8 + 1)); try lia; cbn [andb]; rewrite ?orb_false_r; [done| |].
    + rewrite N.shiftr_spec by lia. rewrite (proj2 (N.leb_le q p)) by lia. cbn [orb andb]. f_equal. lia.
    + destruct (N.leb_spec q p); [|done]. cbn [orb andb]. symmetry. apply (testbit_small _ bits); [done|]. lia.
  - exists o1. split_and!; [done|done|done|]. intros p. rewrite S1. f_equal. rewrite (andb_comm (p / 8 =? q / 8)), shifted_low.
    pose proof (N.div_mod p 8 ltac:(lia)). pose proof (N.mod_lt p 8 ltac:(lia)).
    destruct (N.eqb_spec (p / 8) (q / 8)); [done|]. cbn [andb]. destruct (N.leb_spec q p); [|done]. cbn [andb].
    symmetry. apply (testbit_small _ bits); [done|]. lia.
Qed.

(** The bit of position [p] in a row of codes. *)
Definition codes_bit (bits : N) (codes : list N) (p : N) : bool :=
  match codes !! N.to_nat (p / bits) with Some c => N.testbit c (p mod bits) | None => false end.
Definition are_codes (bits : N) (codes : list N) : Prop := Forall (fun c => c < 2 ^ bits) codes.

Lemma codes_bit_cons bits c codes i p :
  0 < bits -> c < 2 ^ bits ->
  code_bit bits i c p || ((i + 1) * bits <=? p) && codes_bit bits codes (p - (i + 1) * bits)
  = (i * bits <=? p) && codes_bit bits (c :: codes) (p - i * bits).
Proof.
  intros Hb Hc. unfold code_bit, codes_bit. destruct (N.leb_spec (i * bits) p) as [Hp|Hp]; cbn [andb orb].
  2: { destruct (N.leb_spec ((i + 1) * bits) p); [|done]. exfalso. lia. }
  remember (p - i * bits) as r eqn:Er. destruct (N.leb_spec ((i + 1) * bits) p) as [Hr|Hr]; cbn [andb].
  - rewrite (testbit_small c bits) by (try done; lia). cbn [orb].
    assert (E : r = (p - (i + 1) * bits) + 1 * bits) by lia.
    rewrite E, N.div_add, N.Div0.mod_add by lia.
    replace (N.to_nat ((p - (i + 1) * bits) / bits + 1)) with (S (N.to_nat ((p - (i + 1) * bits) / bits))) by lia. done.
  - rewrite orb_false_r, N.div_small, N.mod_small by lia. done.
Qed.

Lemma pack_loop_spec bits codes i out :
  0 < bits <= 8 -> are_codes bits codes -> is_bytes out -> (i + len codes) * bits <= 8 * len out ->
  exists out', pack_loop codes i bits out = Some out' /\ len out' = len out /\ is_bytes out' /\
    forall p, stream_bit out' p = stream_bit out p || ((i * bits <=? p) && codes_bit bits codes (p - i * bits)).
Proof.
  intros Hbits Hc. revert i out. induction Hc as [|c codes Hc Hcs IH]; intros i out Hb Hroom.
  - exists out. split_and!; [done..|]. intros p. unfold codes_bit. by rewrite andb_false_r, orb_false_r.
  - destruct (pack_one bits i c out) as (o1 & E & L1 & B1 & S1); [done|done|unfold len in *; simpl in Hroom; nia|done|].
    destruct (IH (i + 1) o1) as (o2 & E2 & L2 & B2 & S2); [done|rewrite L1; unfold len in *; simpl in Hroom; nia|].
    exists o2. split_and!; [|lia|done|].
    + simpl. destruct (or_at _ _ out) as [o|]; simpl in E |- *; [|done]. by rewrite E.
    + intros p. rewrite S2, S1, <- orb_assoc. f_equal. apply codes_bit_cons; [lia|done].
Qed.

Lemma stream_zero n p : stream_bit (replicate n 0) p = false.
Proof.
  unfold stream_bit. destruct (replicate n 0 !! _) as [b|] eqn:E; [|done].
  apply lookup_replicate in E as [-> _]. apply N.bits_0.
Qed.

Lemma packed_room dim bits : dim * bits <= 8 * packed_bytes dim bits.
Proof. unfold packed_bytes. lia. Qed.

Lemma pack_codes_spec codes bits :
  0 < bits <= 8 -> are_codes bits codes ->
  exists out, pack_codes codes bits (packed_bytes (len codes) bits) = Some out /\
    len out = packed_bytes (len codes) bits /\ is_bytes out /\
    forall p, stream_bit out p = codes_bit bits codes p.
Proof.
  intros Hbits Hc. unfold pack_codes. rewrite N.eqb_refl. simpl. set (room := packed_bytes _ _).
  assert (Hl : len (replicate (N.to_nat room) 0) = room) by (unfold len; rewrite length_replicate; lia).
  destruct (pack_loop_spec bits codes 0 (replicate (N.to_nat room) 0)) as (out & -> & L & B & S).
  - done.
  - done.
  - apply Forall_replicate. done.
  - rewrite Hl. apply packed_room.
  - exists out. split_and!; [done|by rewrite L|done|]. intros p. rewrite S, stream_zero. rewrite N.mul_0_l, N.sub_0_r. by destruct p.
Qed.

(** ** Reading back *)

Lemma unpack_code_spec encoded bits i :
  0 < bits <= 8 -> (i + 1) * bits <= 8 * len encoded -> is_bytes encoded ->
  exists c, unpack_code encoded bits i = Some c /\ c < 2 ^ bits /\
    forall k, N.testbit c k = (k <? bits) && stream_bit encoded (i * bits + k).
Proof.
  intros Hbits Hroom Hb. unfold unpack_code. remember (i * bits) as q eqn:Eq.
  assert (Hq : q + bits <= 8 * len encoded) by lia. clear Eq Hroom i.
  destruct (lookup_lt_is_Some_2 encoded (N.to_nat (q / 8))) as [b Eb]; [unfold len in Hq; lia|].
  rewrite Eb. simpl. assert (Hb0 : b < 256) by (by eapply (Forall_lookup_1 _ _ _ _ Hb)).
  assert (Hmask : forall k, N.testbit (code_mask bits) k = (k <? bits)).
  { intros k. unfold code_mask. rewrite N.mod_small.
    - rewrite <- N.pred_sub, <- N.ones_equiv. destruct (N.ltb_spec k bits); [by apply N.ones_spec_low|by apply N.ones_spec_high].
    - assert (2 ^ bits <= 2 ^ 8) by (apply N.pow_le_mono_r; lia). change (2 ^ 8) with 256 in *.
      assert (0 < 2 ^ bits) by (apply N.neq_0_lt_0, N.pow_nonzero; lia). lia. }
  assert (Hlow : forall k, k < bits -> N.testbit (N.shiftr b (q mod 8)) k = ((q + k) / 8 =? q / 8) && stream_bit encoded (q + k)).
  { intros k Hk. rewrite N.shiftr_spec by lia. unfold stream_bit. destruct (N.eqb_spec ((q + k) / 8) (q / 8)) as [E|E]; cbn [andb].
    - rewrite E, Eb. f_equal. lia.
    - apply (testbit_small _ 8); [done|]. lia. }
  assert (Hfin : forall high c, c = N.land (N.lor (N.shiftr b (q mod 8)) high) (code_mask bits) ->
    (forall k, k < bits -> N.testbit high k = negb ((q + k) / 8 =? q / 8) && stream_bit encoded (q + k)) ->
    c < 2 ^ bits /\ forall k, N.testbit c k = (k <? bits) && stream_bit encoded (q + k)).
  { intros high c -> Hh. assert (Hk : forall k, N.testbit (N.land (N.lor (N.shiftr b (q mod 8)) high) (code_mask bits)) k
      = (k <? bits) && stream_bit encoded (q + k)).
    { intros k. rewrite N.land_spec, N.lor_spec, Hmask. destruct (N.ltb_spec k bits) as [Hk|Hk]; [|by rewrite andb_false_r].
      rewrite Hlow, Hh by done. destruct (_ =? _); cbn [andb negb orb]; by rewrite ?orb_false_r, ?andb_true_r. }
    split; [|done]. apply small_of_bits. intros k Hge. rewrite Hk. by rewrite (proj2 (N.ltb_ge _ _)). }
  destruct (N.ltb_spec 8 (q mod 8 + bits)) as [Hov|Hov].
  - destruct (lookup_lt_is_Some_2 encoded (N.to_nat (q / 8 + 1))) as [b1 Eb1]; [unfold len in Hq; lia|].
    rewrite Eb1. simpl. eexists. split; [done|]. eapply Hfin; [done|]. intros k Hk.
    assert (b1 < 256) by (by eapply (Forall_lookup_1 _ _ _ _ Hb)).
    change 65536 with (2 ^ 16). rewrite N.mod_pow2_bits_low by lia. destruct (N.eqb_spec ((q + k) / 8) (q / 8)) as [E|E]; cbn [negb andb].
    + apply N.shiftl_spec_low. lia.
    + rewrite N.shiftl_spec_high' by lia. unfold stream_bit. replace ((q + k) / 8) with (q / 8 + 1) by lia. rewrite Eb1. f_equal. lia.
  - simpl. eexists. split; [done|]. eapply Hfin; [done|]. intros k Hk. rewrite N.bits_0.
    rewrite (proj2 (N.eqb_eq _ _)); [done|]. lia.
Qed.

Lemma mapM_total {A B} (f : A -> option B) (P : A -> B -> Prop) l :
  (forall x, x ∈ l -> exists y, f x = Some y /\ P x y) -> exists ys, mapM f l = Some ys /\ Forall2 P l ys.
Proof.
  induction l as [|x l IH]; intros H; [by exists []|].
  destruct (H x) as (y & Hy & Hp); [set_solver|]. destruct IH as (ys & Hys & Hps); [set_solver|].
  exists (y :: ys). simpl. rewrite Hy. simpl. rewrite Hys. by split; [|constructor].
Qed.

(** Unpacking any bytes of the right length gives [dim] codes, and their bits are those
    of the stream. *)
Lemma unpack_codes_spec encoded bits dim :
  0 < bits <= 8 -> len encoded = packed_bytes dim bits -> is_bytes encoded ->
  exists codes, unpack_codes encoded bits dim = Some codes /\ len codes = dim /\ are_codes bits codes /\
    forall i c, codes !! N.to_nat i = Some c -> forall k, N.testbit c k = (k <? bits) && stream_bit encoded (i * bits + k).
Proof.
  intros Hbits Hl Hb. unfold unpack_codes.
  destruct (mapM_total (unpack_code encoded bits) (fun i c => c < 2 ^ bits /\
    forall k, N.testbit c k = (k <? bits) && stream_bit encoded (i * bits + k)) (map N.of_nat (seq 0 (N.to_nat dim)))) as (codes & E & H).
  { intros i Hi. apply list_elem_of_fmap in Hi as (n & -> & Hn). apply elem_of_seq in Hn.
    destruct (unpack_code_spec encoded bits (N.of_nat n)) as (c & E & Hc); [done| |done|by exists c].
    rewrite Hl. pose proof (packed_room dim bits). assert (N.of_nat n + 1 <= dim) by lia. nia. }
  exists codes. split_and!; [done| | |].
  - apply Forall2_length in H. rewrite length_map, length_seq in H. unfold len. lia.
  - apply Forall2_Forall_r with (1 := H). apply Forall_forall. by intros x _ y [? _].
  - intros i c Hc. destruct (Forall2_lookup_r _ _ _ _ _ H Hc) as (j & Hj & _ & Hk).
    rewrite list_lookup_fmap in Hj. destruct (seq 0 (N.to_nat dim) !! N.to_nat i) as [n|] eqn:En; [|done].
    apply lookup_seq in En as [-> _]. simpl in Hj. injection Hj as <-. intros k. rewrite Hk. do 2 f_equal. lia.
Qed.

(** Packing and unpacking are inverse. *)
Lemma codes_ext bits l1 l2 : are_codes bits l1 -> are_codes bits l2 -> len l1 = len l2 -> 0 < bits ->
  (forall i k c1 c2, l1 !! i = Some c1 -> l2 !! i = Some c2 -> k < bits -> N.testbit c1 k = N.testbit c2 k) -> l1 = l2.
Proof.
  intros H1 H2 Hl Hb H. unfold len in Hl. apply list_eq_same_length with (n := length l1); [lia|lia|].
  intros i x y _ Hx Hy. apply N.bits_inj. intros k. destruct (N.lt_ge_cases k bits) as [Hk|Hk]; [by eapply H|].
  rewrite !(testbit_small _ bits); try done; [by eapply (Forall_lookup_1 _ _ _ _ H2)|by eapply (Forall_lookup_1 _ _ _ _ H1)].
Qed.
Lemma unpack_pack codes bits out :
  0 < bits <= 8 -> are_codes bits codes -> pack_codes codes bits (packed_bytes (len codes) bits) = Some out ->
  unpack_codes out bits (len codes) = Some codes.
Proof.
  intros Hbits Hc Hp. destruct (pack_codes_spec codes bits Hbits Hc) as (o & E & L & B & S). rewrite Hp in E. injection E as <-.
  destruct (unpack_codes_spec out bits (len codes) Hbits L B) as (codes' & -> & L' & C' & K). f_equal.
  apply (codes_ext bits); [done..|lia|]. intros i k c1 c2 H1 H2 Hk.
  rewrite <- (Nat2N.id i) in H1. rewrite (K _ _ H1), (proj2 (N.ltb_lt _ _)), S by done. cbn [andb]. unfold codes_bit.
  rewrite N.div_add_l, N.div_small, N.add_0_r, Nat2N.id, H2 by lia.
  by rewrite N.add_comm, N.Div0.mod_add, N.mod_small.
Qed.

(** When the width divides a byte, each byte holds its own codes. *)
Lemma unpack_within encoded bits per i k b :
  0 < bits -> per * bits = 8 -> k < per -> encoded !! N.to_nat i = Some b ->
  unpack_code encoded bits (i * per + k) = Some (N.land (N.shiftr b (k * bits)) (code_mask bits)).
Proof.
  intros Hb Hper Hk Hi. unfold unpack_code.
  assert (E : (i * per + k) * bits = k * bits + i * 8) by nia.
  assert (Hlt : k * bits + bits <= 8) by nia.
  rewrite E, N.div_add, N.Div0.mod_add, N.div_small, N.mod_small by lia. rewrite N.add_0_l, Hi. simpl.
  rewrite (proj2 (N.ltb_ge _ _)) by lia. simpl. by rewrite N.lor_0_r.
Qed.
