(* ===== verification/Hadamard.v ===== *)
(** * The random rotation, [crates/turbomemory_core/src/lib.rs]

    [fwht] (the in-place fast Walsh-Hadamard transform), the random signs, and the
    preconditioning made of the two. The random number generator of the [rand] crate is a
    parameter: the sequence of draws of a seed. Over the reals the transform is
    its own inverse up to the length, and symmetric. *)

From S2P Require Import Prelude Core Floats Metrics Numeric Simd.
From Stdlib Require Import Reals Lra Lia FunctionalExtensionality.

(** [StdRng::seed_from_u64(seed)]: the [i]-th [gen::<bool>()], [gen_bool(0.5)] and
    [StandardNormal] sample. *)
Class RandCrate := {
  gen_bool : N -> nat -> bool;
  gen_bool_half : N -> nat -> bool;
  standard_normal : N -> nat -> f32;
}.

(** A loop over indices. *)
Fixpoint for_each {S} (js : list nat) (body : nat -> S -> option S) (s : S) : option S :=
  match js with [] => Some s | j :: js => s ← body j s; for_each js body s end.
Lemma for_each_app {S} js1 js2 (body : nat -> S -> option S) s :
  for_each (js1 ++ js2) body s = (s ← for_each js1 body s; for_each js2 body s).
Proof. revert s. induction js1 as [|j js1 IH]; intros s; simpl; [done|]. destruct (body j s); simpl; [apply IH|done]. Qed.

Section rotation.
Context {NU : Num} {RC : RandCrate}.

Definition is_power_of_two (n : nat) : bool := (n =? 2 ^ Nat.log2 n)%nat.
Definition butterfly (h j : nat) (v : list num_t) : option (list num_t) :=
  x ← v !! j; y ← v !! (j + h)%nat;
  Some (<[(j + h)%nat := nsub x y]> (<[j := nadd x y]> v)).
(** [for j in i..i + h]. *)
Definition fwht_block (h i : nat) (v : list num_t) : option (list num_t) := for_each (seq i h) (butterfly h) v.
(** [for i in (0..n).step_by(h * 2)]. *)
Definition step_by (n step : nat) : list nat := map (fun k => (k * step)%nat) (seq 0 ((n + step - 1) / step)).
Definition fwht_level (h : nat) (v : list num_t) : option (list num_t) :=
  for_each (step_by (length v) (h * 2)) (fwht_block h) v.
(** [while h < n]: [h] doubles, so [n] rounds are enough. *)
Fixpoint fwht_loop (fuel h : nat) (v : list num_t) : option (list num_t) :=
  if (h <? length v)%nat then
    match fuel with
    | O => None
    | S fuel => v ← fwht_level h v; fwht_loop fuel (h * 2) v
    end
  else Some v.
Definition fwht (v : list num_t) : option (list num_t) :=
  if negb (is_power_of_two (length v)) then None else fwht_loop (length v) 1 v.

Definition sign_of (b : bool) : num_t := if b then none_ else nneg none_.
Definition random_diagonal_precondition (v : list num_t) (seed : N) : list num_t :=
  imap (fun i x => nmul x (sign_of (gen_bool seed i))) v.
(** [1.0 / (n as f32).sqrt()]. *)
Definition inv_sqrt (n : nat) : num_t := ndiv none_ (nsqrt (of_int (N.of_nat n))).
Definition scale_by (c : num_t) (v : list num_t) : list num_t := map (fun x => nmul x c) v.
Definition precondition (v : list num_t) (seed : N) : option (list num_t) :=
  v ← fwht (random_diagonal_precondition v seed); Some (scale_by (inv_sqrt (length v)) v).
Definition norm_of (v : list num_t) : num_t := nsqrt (nsum (map (fun x => nmul x x) v)).
Definition unit_of (v : list num_t) (norm : num_t) : list num_t :=
  if ngtb norm nzero then map (fun x => ndiv x norm) v else v.
Definition rotate_to_turbo_quant_domain (v : list num_t) (seed : N) : option (list num_t * num_t) :=
  let norm := norm_of v in
  v ← precondition (unit_of v norm) seed; Some (v, norm).
End rotation.

Example fwht_4 : @fwht F32 (map f32_of_N [1; 2; 3; 4]) = Some [f32_of_N 10; 0xC0000000; 0xC0800000; 0].
Proof. vm_compute. reflexivity. Qed.

(** ** The transform over the reals *)

Section exact.
Context (store : R -> f32).
#[local] Instance RN : Num := Reals store.
#[local] Open Scope R_scope.
#[local] Open Scope nat_scope.

(** Component [p], zero outside. *)
Definition val (v : list R) (p : nat) : R := default 0%R (v !! p).
Lemma val_in v p x : v !! p = Some x -> val v p = x.
Proof. intros E. unfold val. by rewrite E. Qed.
Lemma val_insert v j x p : j < length v -> val (<[j := x]> v) p = if decide (p = j) then x else val v p.
Proof.
  intros Hj. unfold val. destruct (decide (p = j)) as [->|Hne]; [by rewrite list_lookup_insert_eq|].
  by rewrite list_lookup_insert_ne.
Qed.
Lemma list_val_ext (v w : list R) : length v = length w -> (forall p, p < length v -> val v p = val w p) -> v = w.
Proof.
  intros Hl H. apply list_eq_same_length with (n := length v); [done|done|].
  intros i x y Hi Hx Hy. specialize (H i Hi). by rewrite (val_in _ _ _ Hx), (val_in _ _ _ Hy) in H.
Qed.

(** One block after [c] of its butterflies. *)
Definition in_block (i h c : nat) (f : nat -> R) (p : nat) : R :=
  if decide (i <= p < i + c) then (f p + f (p + h)%nat)%R
  else if decide (i + h <= p < i + h + c) then (f (p - h)%nat - f p)%R else f p.
Lemma block_prefix h i c (v : list R) :
  c <= h -> i + 2 * h <= length v ->
  exists v' : list R, for_each (seq i c) (butterfly (NU := RN) h) v = Some v' /\ length v' = length v /\
    forall p, val v' p = in_block i h c (val v) p.
Proof.
  intros Hc Hi. induction c as [|c IH].
  - exists v. split_and!; [done..|]. intros p. unfold in_block. destruct (decide _); [lia|]. by destruct (decide _); [lia|].
  - destruct IH as (v1 & E1 & L1 & S1); [lia|]. rewrite seq_S, for_each_app, E1. simpl.
    destruct (lookup_lt_is_Some_2 v1 (i + c)) as [x Hx]; [lia|].
    destruct (lookup_lt_is_Some_2 v1 (i + c + h)) as [y Hy]; [lia|].
    assert (Eb : butterfly (NU := RN) h (i + c) v1 = Some (<[i + c + h := (x - y)%R]> (<[i + c := (x + y)%R]> v1))).
    { unfold butterfly. etrans; [apply (f_equal (fun o : option R => o ≫= _) Hx)|]. simpl.
      by etrans; [apply (f_equal (fun o : option R => o ≫= _) Hy)|]. }
    rewrite Eb. simpl. eexists. split; [done|]. split; [by rewrite !length_insert|].
    assert (X : x = val v (i + c)).
    { rewrite <- (val_in _ _ _ Hx), S1. unfold in_block. destruct (decide _); [lia|]. by destruct (decide _); [lia|]. }
    assert (Y : y = val v (i + c + h)).
    { rewrite <- (val_in _ _ _ Hy), S1. unfold in_block. destruct (decide _); [lia|]. by destruct (decide _); [lia|]. }
    intros p. rewrite !val_insert by (rewrite ?length_insert; lia). rewrite S1. unfold in_block.
    destruct (decide (p = i + c + h)) as [->|].
    { destruct (decide _); [lia|]. destruct (decide _); [|lia]. rewrite X, Y. repeat f_equal. lia. }
    destruct (decide (p = i + c)) as [->|].
    { destruct (decide _); [|lia]. by rewrite X, Y. }
    repeat (destruct (decide _); try lia; try done).
Qed.

(** One level of butterflies at distance [h]. *)
Definition level (h : nat) (f : nat -> R) (p : nat) : R :=
  if Nat.odd (p / h) then (f (p - h)%nat - f p)%R else (f p + f (p + h)%nat)%R.
Lemma block_parity m h p : 0 < h -> m * (h * 2) <= p < m * (h * 2) + h * 2 -> Nat.odd (p / h) = negb (p <? m * (h * 2) + h).
Proof.
  intros Hh Hp. destruct (Nat.ltb_spec p (m * (h * 2) + h)); simpl.
  - replace (p / h) with (2 * m); [by rewrite Nat.odd_even|].
    apply Nat.div_unique with (r := p - m * (h * 2)); lia.
  - replace (p / h) with (2 * m + 1); [by rewrite Nat.odd_odd|].
    apply Nat.div_unique with (r := p - m * (h * 2) - h); lia.
Qed.
Lemma level_prefix h m (v : list R) :
  0 < h -> m * (h * 2) <= length v ->
  exists v' : list R, for_each (map (fun k => k * (h * 2)) (seq 0 m)) (fwht_block (NU := RN) h) v = Some v' /\
    length v' = length v /\
    forall p, val v' p = if decide (p < m * (h * 2)) then level h (val v) p else val v p.
Proof.
  intros Hh Hm. induction m as [|m IH].
  - exists v. split_and!; [done..|]. intros p. by destruct (decide _); [lia|].
  - destruct IH as (v1 & E1 & L1 & S1); [lia|]. rewrite seq_S, map_app, for_each_app, E1. simpl.
    destruct (block_prefix h (m * (h * 2)) h v1) as (v2 & E2 & L2 & S2); [lia..|].
    unfold fwht_block at 1. rewrite E2. simpl. exists v2. split_and!; [done|lia|].
    intros p. rewrite S2. unfold in_block. rewrite !S1. unfold level.
    destruct (decide (m * (h * 2) <= p < m * (h * 2) + h * 2)) as [Hp|Hp].
    + rewrite (block_parity m h p Hh Hp). destruct (Nat.ltb_spec p (m * (h * 2) + h)); simpl.
      * repeat (destruct (decide _); try lia). done.
      * repeat (destruct (decide _); try lia). done.
    + repeat (destruct (decide _); try lia; try done).
Qed.

Lemma level_spec t K (v : list R) : length v = 2 ^ K -> t < K ->
  exists v' : list R, fwht_level (NU := RN) (2 ^ t) v = Some v' /\ length v' = length v /\
    forall p, p < 2 ^ K -> val v' p = level (2 ^ t) (val v) p.
Proof.
  intros HK Ht. unfold fwht_level, step_by.
  assert (Hh : 0 < 2 ^ t) by (apply Nat.neq_0_lt_0, Nat.pow_nonzero; lia).
  assert (Hn : 2 ^ K = 2 ^ (K - t - 1) * (2 ^ t * 2)).
  { rewrite (Nat.mul_comm (2 ^ t)), <- Nat.pow_succ_r', <- Nat.pow_add_r. f_equal. lia. }
  assert (Hm : (length v + 2 ^ t * 2 - 1) / (2 ^ t * 2) = 2 ^ (K - t - 1)).
  { rewrite HK, Hn. symmetry. apply Nat.div_unique with (r := 2 ^ t * 2 - 1); lia. }
  change (length v) with (@length R v). rewrite Hm.
  destruct (level_prefix (2 ^ t) (2 ^ (K - t - 1)) v) as (v' & E & L & S); [done|lia|].
  exists v'. split_and!; [done..|]. intros p Hp. rewrite S. by destruct (decide _); [|lia].
Qed.

(** A level adds the component across bit [t], with the sign of that bit. *)
Definition flip (t p : nat) : nat := Nat.lxor p (2 ^ t).
Definition bit_sign (t p : nat) : R := if Nat.testbit p t then (-1)%R else 1%R.
Definition lev (t : nat) (f : nat -> R) (p : nat) : R := (f (flip t p) + bit_sign t p * f p)%R.
(** The levels [t], ..., [t + n - 1]. *)
Fixpoint had (n t : nat) (f : nat -> R) : nat -> R :=
  match n with O => f | S n => had n (S t) (lev t f) end.

Lemma flip_bit t p s : Nat.testbit (flip t p) s = xorb (Nat.testbit p s) (s =? t).
Proof. unfold flip. rewrite Nat.lxor_spec, Nat.pow2_bits_eqb. by rewrite Nat.eqb_sym. Qed.
Lemma flip_flip t p : flip t (flip t p) = p.
Proof. unfold flip. by rewrite Nat.lxor_assoc, Nat.lxor_nilpotent, Nat.lxor_0_r. Qed.
Lemma flip_comm s t p : flip s (flip t p) = flip t (flip s p).
Proof. unfold flip. by rewrite !Nat.lxor_assoc, (Nat.lxor_comm (2 ^ t)). Qed.
Lemma flip_value t p : flip t p = if Nat.testbit p t then p - 2 ^ t else p + 2 ^ t.
Proof.
  assert (H : forall q, Nat.testbit q t = false -> flip t q = q + 2 ^ t).
  { intros q Hq. unfold flip. symmetry. apply Nat.add_nocarry_lxor. apply Nat.bits_inj. intros k.
    rewrite Nat.land_spec, Nat.bits_0, Nat.pow2_bits_eqb. destruct (Nat.eqb_spec t k) as [<-|]; [by rewrite Hq|by rewrite andb_false_r]. }
  destruct (Nat.testbit p t) eqn:E; [|by apply H].
  assert (E2 : Nat.testbit (flip t p) t = false) by (rewrite flip_bit, E, Nat.eqb_refl; done).
  pose proof (H _ E2) as H2. rewrite flip_flip in H2. lia.
Qed.
Lemma flip_lt K t p : t < K -> p < 2 ^ K -> flip t p < 2 ^ K.
Proof.
  intros Ht Hp. destruct (Nat.eq_dec (flip t p) 0) as [->|H0]; [lia|]. apply Nat.log2_lt_pow2; [lia|].
  destruct (Nat.lt_ge_cases (Nat.log2 (flip t p)) K) as [|Hge]; [done|]. exfalso.
  pose proof (Nat.bit_log2 (flip t p) H0) as Hb. rewrite flip_bit in Hb.
  rewrite (proj2 (Nat.eqb_neq _ _)) in Hb by lia. rewrite xorb_false_r in Hb.
  destruct (Nat.eq_dec p 0) as [->|Hp0]; [by rewrite Nat.bits_0 in Hb|].
  rewrite Nat.bits_above_log2 in Hb; [done|]. apply Nat.log2_lt_pow2 in Hp; lia.
Qed.
Lemma level_lev t f p : level (2 ^ t) f p = lev t f p.
Proof.
  unfold level, lev, bit_sign. rewrite flip_value, Nat.testbit_odd, Nat.shiftr_div_pow2.
  destruct (Nat.odd _); lra.
Qed.

Lemma lev_twice t f : lev t (lev t f) = (fun p => 2 * f p)%R.
Proof.
  apply functional_extensionality. intros p. unfold lev, bit_sign. rewrite flip_flip, flip_bit, Nat.eqb_refl.
  destruct (Nat.testbit p t); simpl; lra.
Qed.
Lemma lev_comm s t f : s <> t -> lev s (lev t f) = lev t (lev s f).
Proof.
  intros Hne. apply functional_extensionality. intros p. unfold lev, bit_sign. rewrite !flip_bit, (flip_comm s t).
  rewrite (proj2 (Nat.eqb_neq s t)), (proj2 (Nat.eqb_neq t s)), !xorb_false_r by done.
  destruct (Nat.testbit p t), (Nat.testbit p s); lra.
Qed.
Lemma lev_scale t c f : lev t (fun p => c * f p)%R = (fun p => c * lev t f p)%R.
Proof. apply functional_extensionality. intros p. unfold lev. lra. Qed.
Lemma had_lev n t s f : s < t -> had n t (lev s f) = lev s (had n t f).
Proof.
  revert t f. induction n as [|n IH]; intros t f Hs; [done|]. simpl. rewrite (lev_comm t s) by lia. apply IH. lia.
Qed.
Lemma had_scale n t c f : had n t (fun p => c * f p)%R = (fun p => c * had n t f p)%R.
Proof. revert t f. induction n as [|n IH]; intros t f; [done|]. simpl. by rewrite lev_scale, IH. Qed.
(** The transform is its own inverse, up to the length. *)
Lemma had_had n t f : had n t (had n t f) = (fun p => 2 ^ n * f p)%R.
Proof.
  revert t f. induction n as [|n IH]; intros t f; [apply functional_extensionality; intros p; simpl; lra|].
  change (had n (S t) (lev t (had n (S t) (lev t f))) = (fun p => 2 ^ S n * f p)%R).
  rewrite <- (had_lev n (S t) t (lev t f)) by lia. rewrite lev_twice, IH. apply functional_extensionality. intros p. simpl. lra.
Qed.

(** *** Sums over the components *)

Definition sum_to (N : nat) (f : nat -> R) : R := rsum (map f (seq 0 N)).
Lemma rsum_perm l1 l2 : l1 ≡ₚ l2 -> rsum l1 = rsum l2.
Proof. unfold rsum. induction 1; simpl; lra. Qed.
Lemma rsum_map_add {A} (f g : A -> R) l : rsum (map (fun x => f x + g x)%R l) = (rsum (map f l) + rsum (map g l))%R.
Proof. unfold rsum. induction l as [|x l IH]; simpl; [lra|]. rewrite IH. lra. Qed.
Lemma sum_flip K t f : t < K -> sum_to (2 ^ K) (fun p => f (flip t p)) = sum_to (2 ^ K) f.
Proof.
  intros Ht. unfold sum_to. rewrite <- (map_map (flip t) f). apply rsum_perm. apply Permutation_map.
  apply NoDup_Permutation_bis.
  - apply NoDup_ListNoDup, NoDup_fmap_2; [|apply NoDup_seq]. intros x y E. rewrite <- (flip_flip t x), E. apply flip_flip.
  - by rewrite length_map.
  - intros x Hx. apply in_map_iff in Hx as (p & <- & Hp). apply in_seq in Hp. apply in_seq.
    pose proof (flip_lt K t p). lia.
Qed.
Definition inner (K : nat) (f g : nat -> R) : R := sum_to (2 ^ K) (fun p => f p * g p)%R.
(** The transform is symmetric. *)
Lemma lev_adjoint K t f g : t < K -> inner K (lev t f) g = inner K f (lev t g).
Proof.
  intros Ht. unfold inner, lev.
  assert (H1 : forall f g, sum_to (2 ^ K) (fun p => (f (flip t p) + bit_sign t p * f p) * g p)%R
    = (sum_to (2 ^ K) (fun p => f (flip t p) * g p) + sum_to (2 ^ K) (fun p => bit_sign t p * f p * g p))%R).
  { intros f0 g0. unfold sum_to. rewrite <- rsum_map_add. f_equal. apply map_ext. intros p. lra. }
  rewrite H1. rewrite <- (sum_flip K t (fun p => f (flip t p) * g p)%R Ht). 
  unfold sum_to. rewrite <- rsum_map_add. f_equal. apply map_ext. intros p. rewrite flip_flip. lra.
Qed.
Lemma had_adjoint K n t f g : t + n <= K -> inner K (had n t f) g = inner K f (had n t g).
Proof.
  revert t f g. induction n as [|n IH]; intros t f g Hn; [done|]. simpl.
  rewrite IH by lia. rewrite lev_adjoint by lia. by rewrite <- had_lev by lia.
Qed.
(** Only components of the vector are read. *)
Lemma had_local K n t f g : t + n <= K -> (forall p, p < 2 ^ K -> f p = g p) -> forall p, p < 2 ^ K -> had n t f p = had n t g p.
Proof.
  revert t f g. induction n as [|n IH]; intros t f g Hn Hfg; [done|]. simpl. apply IH; [lia|].
  intros p Hp. unfold lev. rewrite !Hfg; [done|done|]. apply flip_lt; [lia|done].
Qed.

(** *** The in-place transform *)

Lemma fwht_loop_spec K n t fuel (v : list R) :
  t + n = K -> length v = 2 ^ K -> n <= fuel ->
  exists w : list R, fwht_loop (NU := RN) fuel (2 ^ t) v = Some w /\ length w = 2 ^ K /\
    forall p, p < 2 ^ K -> val w p = had n t (val v) p.
Proof.
  revert t fuel v. induction n as [|n IH]; intros t fuel v Ht Hv Hf.
  - exists v. assert (E : (2 ^ t <? length v) = false) by (apply Nat.ltb_ge; rewrite Hv; replace t with K by lia; done).
    split_and!; [|done|done]. destruct fuel; simpl; by rewrite E.
  - destruct fuel as [|fuel]; [lia|].
    assert (E : (2 ^ t <? length v) = true) by (apply Nat.ltb_lt; rewrite Hv; apply Nat.pow_lt_mono_r; lia).
    destruct (level_spec t K v Hv) as (v1 & E1 & L1 & S1); [lia|].
    destruct (IH (S t) fuel v1) as (w & Ew & Lw & Sw); [lia|by rewrite L1|lia|].
    exists w. split_and!; [|done|].
    + simpl. change (length v) with (@length R v). rewrite E, E1. simpl. rewrite <- Ew. f_equal. simpl. lia.
    + intros p Hp. rewrite Sw by done. simpl. apply (had_local K); [lia| |done].
      intros q Hq. rewrite S1 by done. apply level_lev.
Qed.

Definition transform (K : nat) (v : list R) : list R := map (had K 0 (val v)) (seq 0 (2 ^ K)).
Lemma transform_val K v p : p < 2 ^ K -> val (transform K v) p = had K 0 (val v) p.
Proof. intros Hp. unfold val at 1, transform. rewrite map_fmap, list_lookup_fmap, lookup_seq_lt by done. done. Qed.
Lemma length_transform K v : length (transform K v) = 2 ^ K.
Proof. unfold transform. by rewrite length_map, length_seq. Qed.
Lemma power_ok K (v : list R) : length v = 2 ^ K -> is_power_of_two (length v) = true.
Proof. intros ->. unfold is_power_of_two. rewrite Nat.log2_pow2 by lia. apply Nat.eqb_refl. Qed.
Lemma fwht_transform K (v : list R) : length v = 2 ^ K -> fwht (NU := RN) v = Some (transform K v).
Proof.
  intros Hv. unfold fwht. change (length v) with (@length R v). rewrite (power_ok K v Hv). simpl.
  destruct (fwht_loop_spec K K 0 (length v) v) as (w & E & L & S); [lia|done|rewrite Hv; apply Nat.lt_le_incl, Nat.pow_gt_lin_r; lia|].
  change (2 ^ 0) with 1 in E. rewrite E. f_equal. apply list_val_ext; [by rewrite length_transform|].
  intros p Hp. rewrite L in Hp. by rewrite S, transform_val.
Qed.
Lemma rdot_val K a b : length a = 2 ^ K -> length b = 2 ^ K -> rdot a b = inner K (val a) (val b).
Proof.
  intros Ha Hb. unfold rdot, inner, sum_to. f_equal. apply list_val_ext.
  - rewrite length_zip_with, length_map, length_seq. lia.
  - intros p Hp. rewrite length_zip_with in Hp. unfold val at 1 2.
    rewrite map_fmap, list_lookup_fmap, lookup_seq_lt by lia. simpl.
    rewrite lookup_zip_with. unfold val. destruct (lookup_lt_is_Some_2 a p) as [x ->]; [lia|].
    destruct (lookup_lt_is_Some_2 b p) as [y ->]; [lia|]. done.
Qed.
Lemma transform_twice K v : length v = 2 ^ K -> transform K (transform K v) = map (Rmult (2 ^ K)) v.
Proof.
  intros Hv. apply list_val_ext; [by rewrite length_transform, length_map|]. intros p Hp. rewrite length_transform in Hp.
  rewrite transform_val by done. rewrite (had_local K K 0 _ (had K 0 (val v))); [|lia|by intros; apply transform_val|done].
  rewrite had_had. unfold val. rewrite map_fmap, list_lookup_fmap.
  destruct (v !! p) eqn:E; simpl; [done|]. apply lookup_ge_None in E. lia.
Qed.
Lemma transform_adjoint K a b : length a = 2 ^ K -> length b = 2 ^ K -> rdot (transform K a) b = rdot a (transform K b).
Proof.
  intros Ha Hb. rewrite !(rdot_val K) by (rewrite ?length_transform; done). unfold inner.
  transitivity (inner K (had K 0 (val a)) (val b)).
  - unfold inner, sum_to. f_equal. apply map_ext_in. intros p Hp. apply in_seq in Hp. by rewrite transform_val by lia.
  - rewrite had_adjoint by lia. unfold inner, sum_to. f_equal. apply map_ext_in. intros p Hp. apply in_seq in Hp. by rewrite transform_val by lia.
Qed.
End exact.
