(* ===== verification/Quant.v ===== *)
(** * The quantizers, [crates/turbomemory_core/src/quantization.rs], [turbo_quant.rs] and [rabitq.rs]

    The five codecs of the warm and cold tiers: scalar, sign, the two TurboQuant codecs
    and RaBitQ, and [VectorQuantizer], which is one of them. Encoded vectors are bytes
    (numbers below 256). [None] is a panic: an index out of range or a failed assertion;
    [Some (Err _)] is an error the code returns. *)

From S2P Require Import Prelude Core Floats Metrics Numeric Simd Codes Hadamard.

Abbreviation Outcome A := (option (Result TurboError A)) (only parsing).
Definition out_bind {A B} (m : Outcome A) (k : A -> Outcome B) : Outcome B :=
  match m with Some (Ok x) => k x | Some (Err er) => Some (Err er) | None => None end.
Notation "'let?' x ':=' m 'in' k" := (out_bind m (fun x => k)) (at level 10, x pattern, m at level 100, k at level 200).
Definition done_ {A} (x : A) : Outcome A := Some (Ok x).
(** A step that can only panic. *)
Definition may_panic {A} (o : option A) : Outcome A := Ok <$> o.

Section quantizers.
Context {NU : Num} {RC : RandCrate}.

Definition check_dimension {A} (v : list A) (dim : N) : Outcome unit :=
  Some (if negb (len v =? dim) then Err (TDimensionMismatch dim (len v)) else Ok tt).
(** [f32::to_le_bytes], [from_le_bytes]. *)
Definition to_le_bytes (x : num_t) : list N :=
  let b := bits x in [b mod 256; b / 256 mod 256; b / 65536 mod 256; b / 16777216 mod 256].
Definition from_le_bytes (l : list N) : num_t :=
  lit (foldr (fun b acc => b + 256 * acc) 0 l).
Definition two : num_t := lit 0x40000000.

(** ** Lloyd-Max centroids *)

Record LloydMaxTable := { lm_bits : N; lm_centroids : list num_t }.
Definition bad_bits {A} : Outcome A := Some (Err (QuantizationError "bits must be in 1..=8")).
Definition uniform_centroid (step : num_t) (i : nat) : num_t :=
  nadd (lit 0xC0400000) (nmul (nadd (of_int (N.of_nat i)) (lit f32_half)) step).
Definition lloyd_max_new (nbits : N) : Outcome LloydMaxTable :=
  if (nbits =? 0) || (8 <? nbits) then bad_bits
  else
    let centroids :=
      match nbits with
      | 1 => map lit [0xBF4C422A; 0x3F4C422A]
      | 2 => map lit [0xBFC15558; 0xBEE7D2C8; 0x3EE7D2C8; 0x3FC15558]
      | 3 => map lit [0xC009B04F; 0xBFAC0536; 0xBF4CAC2A; 0xBEBB9FDC; 0x3EBB9FDC; 0x3F4CAC2A; 0x3FAC0536; 0x4009B04F]
      | 4 => map lit [0xC02EDD05; 0xC00473EB; 0xBFCF2C1F; 0xBFA0CA79; 0xBF71641F; 0xBF28E608; 0xBEC94813; 0xBE0A6B0E;
                      0x3E0A6B0E; 0x3EC94813; 0x3F28E608; 0x3F71641F; 0x3FA0CA79; 0x3FCF2C1F; 0x400473EB; 0x402EDD05]
      | _ =>
          let levels := 2 ^ nbits in
          let step := ndiv (lit 0x40C00000) (of_int levels) in
          map (uniform_centroid step) (seq 0 (N.to_nat levels))
      end in
    done_ {| lm_bits := nbits; lm_centroids := centroids |}.

(** ** Scalar *)

Record ScalarQuantizer := { sq_bits : N; sq_dim : N; sq_min : num_t; sq_max : num_t }.
Definition range_step (mm : num_t * num_t) (x : num_t) : num_t * num_t :=
  let '(mn, mx) := mm in (if nltb x mn then x else mn, if ngtb x mx then x else mx).
Fixpoint range_loop (dim : N) (vectors : list (list num_t)) (mm : num_t * num_t) : Outcome (num_t * num_t) :=
  match vectors with
  | [] => done_ mm
  | v :: vectors => let? _ := check_dimension v dim in range_loop dim vectors (foldl range_step mm v)
  end.
Definition calibrate (vectors : list (list num_t)) (nbits : N) : Outcome ScalarQuantizer :=
  if (nbits =? 0) || (8 <? nbits) then bad_bits
  else
    match vectors with
    | [] => Some (Err (QuantizationError "cannot calibrate on empty set"))
    | v0 :: _ =>
        let dim := len v0 in
        let? mm := range_loop dim vectors (lit 0x7F800000, lit 0xFF800000) in
        done_ {| sq_bits := nbits; sq_dim := dim; sq_min := mm.1; sq_max := mm.2 |}
    end.
Definition sq_levels (q : ScalarQuantizer) : num_t := of_int (N.max (2 ^ sq_bits q - 1) 1).
Definition sq_encode (q : ScalarQuantizer) (v : list num_t) : Outcome (list N) :=
  let? _ := check_dimension v (sq_dim q) in
  let levels := sq_levels q in
  let range := nsub (sq_max q) (sq_min q) in
  let scale := if neqb range nzero then none_ else ndiv levels range in
  done_ (map (fun x => to_u8 (nclamp (nround (nmul (nsub x (sq_min q)) scale)) nzero levels)) v).
(** The value of a code, also [decode_coordinate]. *)
Definition decode_coordinate (q : ScalarQuantizer) (c : N) : num_t :=
  let levels := sq_levels q in
  let range := nsub (sq_max q) (sq_min q) in
  let scale := if neqb levels nzero then nzero else ndiv range levels in
  nadd (sq_min q) (nmul (of_int c) scale).
Definition sq_decode (q : ScalarQuantizer) (codes : list N) : Outcome (list num_t) :=
  let? _ := check_dimension codes (sq_dim q) in done_ (map (decode_coordinate q) codes).

(** ** Sign *)

(** The bits of the components that are not negative. *)
Fixpoint set_signs (v : list num_t) (i : N) (out : list N) : option (list N) :=
  match v with
  | [] => Some out
  | x :: v =>
      out ← (if ngeb x nzero then or_at (i / 8) (2 ^ (i mod 8)) out else Some out);
      set_signs v (i + 1) out
  end.
Definition bytes_per_vector (dim : N) : N := (dim + 7) / 8.
Definition sign_encode (dim : N) (v : list num_t) : Outcome (list N) :=
  let? _ := check_dimension v dim in
  may_panic (set_signs v 0 (replicate (N.to_nat (bytes_per_vector dim)) 0)).
Definition sign_coordinate (codes : list N) (i : N) : option num_t :=
  b ← codes !! N.to_nat (i / 8);
  Some (if negb (N.land b (2 ^ (i mod 8)) =? 0) then none_ else nneg none_).
Definition sign_decode (dim : N) (codes : list N) : Outcome (list num_t) :=
  let? _ := check_dimension codes (bytes_per_vector dim) in
  may_panic (mapM (sign_coordinate codes) (map N.of_nat (seq 0 (N.to_nat dim)))).

(** ** TurboQuant, mean squared error *)

Record TurboQuantMse := { tm_dim : N; tm_bits : N; tm_seed : N; tm_centroids : list num_t }.
Definition mse_new (dim nbits seed : N) : Outcome TurboQuantMse :=
  if (dim =? 0) || negb (is_power_of_two (N.to_nat dim))
  then Some (Err (QuantizationError "TurboQuant requires power-of-two dimension"))
  else if (nbits =? 0) || (8 <? nbits) then bad_bits
  else
    let? table := lloyd_max_new nbits in
    done_ {| tm_dim := dim; tm_bits := nbits; tm_seed := seed; tm_centroids := lm_centroids table |}.
Definition centroid_scale (q : TurboQuantMse) : num_t := inv_sqrt (N.to_nat (tm_dim q)).
(** The signs and the transform, scaled to keep the length. *)
Definition rotate_unit (q : TurboQuantMse) (v : list num_t) : option (list num_t) :=
  v ← fwht (random_diagonal_precondition v (tm_seed q)); Some (scale_by (centroid_scale q) v).
Definition rotate_forward (q : TurboQuantMse) (v : list num_t) : option (list num_t * num_t) :=
  let norm := norm_of v in
  v ← rotate_unit q (unit_of v norm); Some (v, norm).
Definition rotate_backward (q : TurboQuantMse) (v : list num_t) : option (list num_t) :=
  v ← fwht v; Some (scale_by (centroid_scale q) (random_diagonal_precondition v (tm_seed q))).
(** The nearest of the remaining centroids; the first of equals. *)
Fixpoint nearest (scale y : num_t) (cs : list num_t) (idx best_idx : N) (best_dist : num_t) : N :=
  match cs with
  | [] => best_idx
  | c :: cs =>
      let dist := nabs (nsub y (nmul c scale)) in
      if nltb dist best_dist then nearest scale y cs (idx + 1) (idx mod 256) dist
      else nearest scale y cs (idx + 1) best_idx best_dist
  end.
Definition quantize_coordinate (q : TurboQuantMse) (y : num_t) : option N :=
  match tm_centroids q with
  | [] => None
  | c0 :: cs => let scale := centroid_scale q in Some (nearest scale y cs 1 0 (nabs (nsub y (nmul c0 scale))))
  end.
Definition mse_bytes (q : TurboQuantMse) : N := packed_bytes (tm_dim q) (tm_bits q).
Definition mse_encode (q : TurboQuantMse) (v : list num_t) : Outcome (list N) :=
  let? _ := check_dimension v (tm_dim q) in
  may_panic
    ('(rotated, _) ← rotate_forward q v;
     codes ← mapM (quantize_coordinate q) rotated;
     pack_codes codes (tm_bits q) (mse_bytes q)).
(** Codes back to the original basis. *)
Definition mse_reconstruct (q : TurboQuantMse) (codes : list N) : option (list num_t) :=
  rotated ← mapM (fun c => c ← tm_centroids q !! N.to_nat c; Some (nmul c (centroid_scale q))) codes;
  rotate_backward q rotated.
Definition mse_decode (q : TurboQuantMse) (bytes : list N) : Outcome (list num_t) :=
  if negb (len bytes =? mse_bytes q) then Some (Err (TDimensionMismatch (mse_bytes q) (len bytes)))
  else may_panic (codes ← unpack_codes bytes (tm_bits q) (tm_dim q); mse_reconstruct q codes).

(** ** TurboQuant, inner product *)

Record TurboQuantProd := {
  tp_dim : N; tp_bits : N; tp_mse : TurboQuantMse; tp_qjl_seed : N;
  tp_matrix : list (list num_t); tp_scale : num_t }.
(** The rows of the Gaussian matrix. *)
Definition generate_gaussian_matrix (dim : N) (seed : N) : list (list num_t) :=
  let d := N.to_nat dim in
  map (fun i => map (fun j => lit (standard_normal seed (i * d + j)%nat)) (seq 0 d)) (seq 0 d).
Definition prod_new (dim nbits rotation_seed qjl_seed : N) : Outcome TurboQuantProd :=
  if negb ((2 <=? nbits) && (nbits <=? 8))
  then Some (Err (QuantizationError "TurboQuantProd requires bits in 2..=8"))
  else
    let? mse := mse_new dim (nbits - 1) rotation_seed in
    done_ {| tp_dim := dim; tp_bits := nbits; tp_mse := mse; tp_qjl_seed := qjl_seed;
             tp_matrix := generate_gaussian_matrix dim qjl_seed;
             tp_scale := ndiv (nsqrt (ndiv (lit 0x40490FDB) two)) (of_int dim) |}.
Definition qjl_bytes (q : TurboQuantProd) : N := packed_bytes (tp_dim q) 1.
Definition prod_mse_bytes (q : TurboQuantProd) : N := packed_bytes (tp_dim q) (tp_bits q - 1).
Definition prod_bytes (q : TurboQuantProd) : N := prod_mse_bytes q + qjl_bytes q + 4.
Definition row_dot (row v : list num_t) : num_t := nsum (zip_with nmul row v).
Definition project (q : TurboQuantProd) (v : list num_t) : list num_t := map (fun row => row_dot row v) (tp_matrix q).
Definition prod_residual (v recon : list num_t) (norm : num_t) : list num_t * num_t :=
  if ngtb norm nzero then
    let residual := zip_with (fun x m => nsub (ndiv x norm) m) v recon in
    (residual, nsqrt (nsum (map (fun x => nmul x x) residual)))
  else (map (fun _ => nzero) v, nzero).
Definition prod_encode (q : TurboQuantProd) (v : list num_t) : Outcome (list N) :=
  let? _ := check_dimension v (tp_dim q) in
  may_panic
    ('(rotated, norm) ← rotate_forward (tp_mse q) v;
     mse_codes ← mapM (quantize_coordinate (tp_mse q)) rotated;
     recon ← mse_reconstruct (tp_mse q) mse_codes;
     let '(residual, alpha) := prod_residual v recon norm in
     let qjl_codes := map (fun x => if ngeb x nzero then 1 else 0) (project q residual) in
     a ← pack_codes mse_codes (tp_bits q - 1) (prod_mse_bytes q);
     b ← pack_codes qjl_codes 1 (qjl_bytes q);
     Some (a ++ b ++ to_le_bytes alpha)).
(** The parts of an encoded vector: codes, signs, length of the residual. *)
Definition prod_parts (q : TurboQuantProd) (bytes : list N) : list N * list N * num_t :=
  (slice 0 (prod_mse_bytes q) bytes, slice (prod_mse_bytes q) (qjl_bytes q) bytes,
   from_le_bytes (slice (prod_bytes q - 4) 4 bytes)).
Definition sign_value (c : N) : num_t := if c =? 1 then none_ else nneg none_.
(** Column [j] of the matrix against the signs. *)
Definition column_sum (m : list (list num_t)) (signs : list num_t) (j : nat) : option num_t :=
  foldl (fun acc rs => s ← acc; x ← rs.1 !! j; Some (nadd s (nmul x rs.2))) (Some nzero) (zip m signs).
Definition prod_decode (q : TurboQuantProd) (bytes : list N) : Outcome (list num_t) :=
  if negb (len bytes =? prod_bytes q) then Some (Err (TDimensionMismatch (prod_bytes q) (len bytes)))
  else
    may_panic
      (let '(mse_part, qjl_part, alpha) := prod_parts q bytes in
       codes ← unpack_codes mse_part (tp_bits q - 1) (tp_dim q);
       recon ← mse_reconstruct (tp_mse q) codes;
       qjl_codes ← unpack_codes qjl_part 1 (tp_dim q);
       sums ← mapM (column_sum (tp_matrix q) (map sign_value qjl_codes)) (seq 0 (N.to_nat (tp_dim q)));
       let x_qjl := map (fun sum => nmul (nmul alpha (tp_scale q)) sum) sums in
       Some (zip_with nadd recon x_qjl)).
(** [Serialize] keeps the parameters; [Deserialize] builds the quantizer again. *)
Definition prod_serialized (q : TurboQuantProd) : N * N * N * N :=
  (tp_dim q, tp_bits q, tm_seed (tp_mse q), tp_qjl_seed q).
Definition prod_deserialize (s : N * N * N * N) : Outcome TurboQuantProd :=
  let '(dim, nbits, rotation_seed, qjl_seed) := s in prod_new dim nbits rotation_seed qjl_seed.

(** ** RaBitQ *)

Record RaBitQ := { rq_dim : N; rq_bits : N; rq_seed : N; rq_pad : N; rq_signs : list num_t }.
(** [usize::next_power_of_two]. *)
Definition next_power_of_two (n : N) : N := 2 ^ N.log2_up n.
Definition rabitq_new (dim nbits seed : N) : Outcome RaBitQ :=
  if dim =? 0 then Some (Err (QuantizationError "dim must be > 0"))
  else if negb (nbits =? 1) && negb (nbits =? 2)
  then Some (Err (QuantizationError "RaBitQ currently supports 1-bit and 2-bit quantization"))
  else
    let pad := next_power_of_two dim in
    done_ {| rq_dim := dim; rq_bits := nbits; rq_seed := seed; rq_pad := pad;
             rq_signs := map (fun i => if gen_bool_half seed i then none_ else nneg none_) (seq 0 (N.to_nat pad)) |}.
Definition zeros (n : N) : list num_t := replicate (N.to_nat n) nzero.
Definition pad_to (q : RaBitQ) (v : list num_t) : list num_t := v ++ zeros (rq_pad q - rq_dim q).
Definition ratio_sqrt (a b : N) : num_t := nsqrt (ndiv (of_int a) (of_int b)).
Definition rq_project (q : RaBitQ) (v : list num_t) : option (list num_t) :=
  if negb (len v =? rq_dim q) then None
  else
    let scale := ratio_sqrt (rq_pad q) (rq_dim q) in
    buf ← fwht (pad_to q (zip_with (fun x s => nmul (nmul x scale) s) v (rq_signs q)));
    Some (scale_by (inv_sqrt (N.to_nat (rq_pad q))) (take (N.to_nat (rq_dim q)) buf)).
Definition rq_inverse (q : RaBitQ) (y : list num_t) : option (list num_t) :=
  if negb (len y =? rq_dim q) then None
  else
    buf ← fwht (pad_to q y);
    let norm_factor := inv_sqrt (N.to_nat (rq_pad q)) in
    let inv_scale := ratio_sqrt (rq_dim q) (rq_pad q) in
    Some (zip_with (fun x s => nmul (nmul (nmul x norm_factor) s) inv_scale) (take (N.to_nat (rq_dim q)) buf) (rq_signs q)).
Definition code_bytes (q : RaBitQ) : N := packed_bytes (rq_dim q) (rq_bits q).
Definition rabitq_bytes (q : RaBitQ) : N := code_bytes q + 4.
(** The code of a component, with the threshold at 0.6745 alpha. *)
Definition rabitq_code (q : RaBitQ) (alpha x : num_t) : N :=
  if rq_bits q =? 1 then (if ngeb x nzero then 1 else 0)
  else
    let t := nmul (lit 0x3F2CAC08) alpha in
    if nltb x (nneg t) then 0 else if nltb x nzero then 1 else if nltb x t then 2 else 3.
Definition rabitq_encode (q : RaBitQ) (v : list num_t) : Outcome (list N) :=
  let? _ := check_dimension v (rq_dim q) in
  may_panic
    (proj ← rq_project q v;
     let alpha := ndiv (norm_of v) (nsqrt (of_int (rq_dim q))) in
     a ← pack_codes (map (rabitq_code q alpha) proj) (if rq_bits q =? 1 then 1 else 2) (code_bytes q);
     Some (a ++ to_le_bytes alpha)).
(** The value a code stands for, in units of alpha. *)
Definition rabitq_level (q : RaBitQ) (c : N) : num_t :=
  if rq_bits q =? 1 then (if c =? 1 then none_ else nneg none_)
  else match c with
       | 0 => lit 0xBF970A3D | 1 => lit 0xBEC28F5C | 2 => lit 0x3EC28F5C | _ => lit 0x3F970A3D
       end.
Definition rabitq_value (q : RaBitQ) (alpha : num_t) (c : N) : num_t :=
  if rq_bits q =? 1 then (if c =? 1 then alpha else nneg alpha) else nmul (rabitq_level q c) alpha.
Definition rabitq_decode (q : RaBitQ) (bytes : list N) : Outcome (list num_t) :=
  if len bytes <? rabitq_bytes q then Some (Err (QuantizationError "encoded buffer too short"))
  else
    may_panic
      (let alpha := from_le_bytes (slice (code_bytes q) 4 bytes) in
       codes ← unpack_codes (slice 0 (code_bytes q) bytes) (rq_bits q) (rq_dim q);
       rq_inverse q (map (rabitq_value q alpha) codes)).

(** ** Any of them *)

Inductive VectorQuantizer :=
  | Scalar (q : ScalarQuantizer) | Sign (dim : N) | TurboMse (q : TurboQuantMse)
  | TurboProd (q : TurboQuantProd) | RaBit (q : RaBitQ).
Definition vq_dim (q : VectorQuantizer) : N :=
  match q with
  | Scalar q => sq_dim q | Sign dim => dim | TurboMse q => tm_dim q | TurboProd q => tp_dim q | RaBit q => rq_dim q
  end.
Definition encoded_bytes (q : VectorQuantizer) : N :=
  match q with
  | Scalar q => sq_dim q | Sign dim => bytes_per_vector dim | TurboMse q => mse_bytes q
  | TurboProd q => prod_bytes q | RaBit q => rabitq_bytes q
  end.
Definition encode (q : VectorQuantizer) (v : list num_t) : Outcome (list N) :=
  match q with
  | Scalar q => sq_encode q v | Sign dim => sign_encode dim v | TurboMse q => mse_encode q v
  | TurboProd q => prod_encode q v | RaBit q => rabitq_encode q v
  end.
Definition decode (q : VectorQuantizer) (bytes : list N) : Outcome (list num_t) :=
  match q with
  | Scalar q => sq_decode q bytes | Sign dim => sign_decode dim bytes | TurboMse q => mse_decode q bytes
  | TurboProd q => prod_decode q bytes | RaBit q => rabitq_decode q bytes
  end.
End quantizers.
