(* ===== verification/QuantSearch.v ===== *)
(** * Scoring encoded vectors, [crates/turbomemory_core/src/quantized_search.rs] and [metrics_quantized.rs]

    An encoded query scores encoded vectors without decoding them, from lookup tables
    built once per query: one vector at a time ([score]) or a block of them
    ([score_batch], with unrolled and AVX2 kernels). [None] is a panic or a read outside
    a slice. *)

From S2P Require Import Prelude Core Floats Metrics Numeric Simd Codes Hadamard Quant.

Section queries.
Context {NU : Num} {RC : RandCrate}.

(** [chunks_exact]. *)
Definition vectors_of (bytes_per_vec : N) (encoded : list N) : list (list N) :=
  map (fun i => slice (N.of_nat i * bytes_per_vec) bytes_per_vec encoded) (seq 0 (N.to_nat (len encoded / bytes_per_vec))).
Definition neg_inf : num_t := lit 0xFF800000.
(** A sum over table rows: one entry of each, picked by a byte. *)
Fixpoint table_sum (tables : list (list num_t)) (bytes : list N) (acc : num_t) : option num_t :=
  match bytes, tables with
  | [], _ => Some acc
  | b :: bytes, t :: tables => x ← t !! N.to_nat b; table_sum tables bytes (nadd acc x)
  | _ :: _, [] => None
  end.

(** ** Scalar *)

Record ScalarEncodedQuery := { se_dim : N; se_query : list num_t; se_min : num_t; se_scale : num_t }.
Definition scalar_query (query : list num_t) (q : ScalarQuantizer) : Outcome ScalarEncodedQuery :=
  let? _ := check_dimension query (sq_dim q) in
  let levels := sq_levels q in
  let scale := if nltb levels (lit 0x34000000) then nzero else ndiv (nsub (sq_max q) (sq_min q)) levels in
  done_ {| se_dim := sq_dim q; se_query := query; se_min := sq_min q; se_scale := scale |}.
Definition code_value (mn scale : num_t) (c : N) : num_t := nadd mn (nmul (of_int c) scale).
(** [scalar_quantized_dot_scalar]: the query is indexed by the code's position. *)
Fixpoint scalar_dot_loop (query : list num_t) (encoded : list N) (mn scale sum : num_t) : option num_t :=
  match encoded, query with
  | [], _ => Some sum
  | c :: encoded, x :: query => scalar_dot_loop query encoded mn scale (nadd sum (nmul x (code_value mn scale c)))
  | _ :: _, [] => None
  end.
Definition scalar_quantized_dot_scalar (query : list num_t) (encoded : list N) (mn scale : num_t) : option num_t :=
  scalar_dot_loop query encoded mn scale nzero.
(** [hsum256_ps]: halves, then pairs twice. *)
Definition hsum256_ps (v : list num_t) : num_t :=
  match v with
  | [a; b; c; d; e; f; g; h] => nadd (nadd (nadd a e) (nadd b f)) (nadd (nadd c g) (nadd d h))
  | _ => nzero
  end.
(** Eight codes widened to floats. *)
Definition load_codes (encoded : list N) (i : nat) : option (list num_t) :=
  if (i + 8 <=? length encoded)%nat then Some (map of_int (take 8 (drop i encoded))) else None.
Definition codes_fma (codes : list num_t) (mn scale : num_t) : list num_t := lane_fma codes (splat 8 scale) (splat 8 mn).
Definition scalar_quantized_dot_avx2 (query : list num_t) (encoded : list N) (mn scale : num_t) : option num_t :=
  let n := (length query `min` length encoded)%nat in
  '(i, acc) ← strides n 8 n 0 (fun i acc =>
      codes ← load_codes encoded i; q ← loadu 8 query i;
      Some (lane_fma q (codes_fma codes mn scale) acc)) (splat 8 nzero);
  '(_, sum) ← strides n 1 n i (fun i sum =>
      c ← encoded !! i; x ← query !! i; Some (nadd sum (nmul x (code_value mn scale c)))) (hsum256_ps acc);
  Some sum.
Definition scalar_quantized_dot (isa : Isa) (query : list num_t) (encoded : list N) (mn scale : num_t) : option num_t :=
  match isa with
  | Avx2Fma => scalar_quantized_dot_avx2 query encoded mn scale
  | _ => scalar_quantized_dot_scalar query encoded mn scale
  end.
(** One vector of the AVX2 batch kernel, at [base]: the four-vector block runs the same
    operations on four accumulators. *)
Definition batch_avx2_one (query : list num_t) (encoded : list N) (mn scale : num_t) (base : nat) : option num_t :=
  let dim := length query in
  '(j, acc) ← strides dim 8 dim 0 (fun j acc =>
      q ← loadu 8 query j; codes ← load_codes encoded (base + j);
      Some (lane_fma q (codes_fma codes mn scale) acc)) (splat 8 nzero);
  '(_, sum) ← strides dim 1 dim j (fun k sum =>
      qk ← query !! k; c ← encoded !! (base + k)%nat; Some (nadd sum (nmul qk (code_value mn scale c)))) (hsum256_ps acc);
  Some sum.
Definition scalar_quantized_dot_batch_avx2 (query : list num_t) (encoded : list N) (mn scale : num_t) (n : nat)
    : option (list num_t) :=
  let dim := length query in
  '(i, scores) ← strides n 4 n 0 (fun i scores =>
      s ← mapM (fun k => batch_avx2_one query encoded mn scale ((i + k) * dim)) (seq 0 4); Some (scores ++ s)) [];
  '(_, scores) ← strides n 1 n i (fun i scores =>
      s ← batch_avx2_one query encoded mn scale (i * dim); Some (scores ++ [s])) scores;
  Some scores.
Definition scalar_quantized_dot_batch (isa : Isa) (query : list num_t) (encoded : list N) (mn scale : num_t)
    : option (list num_t) :=
  let dim := len query in
  if (dim =? 0) || negb (len encoded mod dim =? 0) then None
  else
    match isa with
    | Avx2Fma => scalar_quantized_dot_batch_avx2 query encoded mn scale (N.to_nat (len encoded / dim))
    | _ => mapM (fun v => scalar_quantized_dot_scalar query v mn scale) (vectors_of dim encoded)
    end.
Definition scalar_score (isa : Isa) (e : ScalarEncodedQuery) (encoded : list N) : option num_t :=
  if len encoded <? se_dim e then None
  else scalar_quantized_dot isa (se_query e) (take (N.to_nat (se_dim e)) encoded) (se_min e) (se_scale e).
Definition scalar_score_batch (isa : Isa) (e : ScalarEncodedQuery) (encoded : list N) : option (list num_t) :=
  scalar_quantized_dot_batch isa (se_query e) encoded (se_min e) (se_scale e).

(** ** Sign *)

(** The sum of the magnitudes whose bit is set in the pattern, per byte: each entry adds
    them in the order of the bits. *)
Definition weight_entry (abs : list num_t) (b pattern : nat) : num_t :=
  foldl (fun s bit =>
      match abs !! (8 * b + bit)%nat with
      | Some a => if N.testbit (N.of_nat pattern) (N.of_nat bit) then nadd s a else s
      | None => s
      end) nzero (seq 0 8).
Definition weight_tables (abs : list num_t) (bytes : N) : list (list num_t) :=
  map (fun b => map (weight_entry abs b) (seq 0 256)) (seq 0 (N.to_nat bytes)).
Definition sum_of_abs (query : list num_t) : num_t := foldl (fun s x => nadd s (nabs x)) nzero query.

Record SignEncodedQuery := { sg_mask : list N; sg_weights : list (list num_t); sg_sum_abs : num_t }.
Definition sign_query (query : list num_t) (dim : N) : Outcome SignEncodedQuery :=
  let? _ := check_dimension query dim in
  let bytes := bytes_per_vector dim in
  may_panic
    (mask ← set_signs query 0 (replicate (N.to_nat bytes) 0);
     Some {| sg_mask := mask; sg_weights := weight_tables (map nabs query) bytes; sg_sum_abs := sum_of_abs query |}).
(** [mask.iter().zip(encoded).zip(weights)]. *)
Fixpoint sign_diff (mask encoded : list N) (weights : list (list num_t)) (sum : num_t) : option num_t :=
  match mask, encoded, weights with
  | m :: mask, e :: encoded, w :: weights =>
      x ← w !! N.to_nat (N.lxor m e); sign_diff mask encoded weights (nadd sum x)
  | _, _, _ => Some sum
  end.
Definition sign_score (e : SignEncodedQuery) (encoded : list N) : option num_t :=
  d ← sign_diff (sg_mask e) encoded (sg_weights e) nzero;
  Some (nsub (sg_sum_abs e) (nmul two d)).

Fixpoint popcount (fuel : nat) (x : N) : N :=
  match fuel with O => 0 | S fuel => x mod 2 + popcount fuel (x / 2) end.
Definition count_ones (x : N) : N := popcount 64 x.
(** All tables equal, and each entry close to its number of bits times the first bit's. *)
Definition tables_eq (a b : list num_t) : bool := forallb (fun p => neqb p.1 p.2) (zip a b).
Definition uniform_tables (weights : list (list num_t)) : option num_t :=
  match weights with
  | [] => None
  | first :: rest =>
      if forallb (fun w => tables_eq w first) rest then
        unit_weight ← first !! 1%nat;
        if forallb (fun pw => nltb (nabs (nsub pw.2 (nmul (of_int (count_ones (N.of_nat pw.1))) unit_weight))) (lit 0x34000000))
             (drop 1 (imap (fun p w => (p, w)) first))
        then Some unit_weight else None
      else None
  end.
Definition differing_bits (mask v : list N) : N := foldr N.add 0 (zip_with (fun m e => count_ones (N.lxor m e)) mask v).
(** Without the [popcnt] instruction, and with it. *)
Definition popcount_score (popcnt : bool) (mask : list N) (sum_abs unit_weight : num_t) (v : list N) : num_t :=
  let d := of_int (differing_bits mask v) in
  if popcnt then nadd sum_abs (nmul d (nmul (nneg two) unit_weight))
  else nsub sum_abs (nmul (nmul two d) unit_weight).
(** The table path of one vector: the unrolled block runs it on eight accumulators. *)
Definition table_score (mask : list N) (weights : list (list num_t)) (sum_abs : num_t) (v : list N) : option num_t :=
  d ← sign_diff mask v weights nzero; Some (nsub sum_abs (nmul two d)).
Definition sign_quantized_score_batch (popcnt : bool) (mask : list N) (weights : list (list num_t)) (encoded : list N) (sum_abs : num_t)
    : option (list num_t) :=
  let bytes_per_vec := len mask in
  if (bytes_per_vec =? 0) || negb (len encoded mod bytes_per_vec =? 0) then None
  else
    let vs := vectors_of bytes_per_vec encoded in
    match uniform_tables weights with
    | Some unit_weight => Some (map (popcount_score popcnt mask sum_abs unit_weight) vs)
    | None => mapM (table_score mask weights sum_abs) vs
    end.
Definition sign_score_batch (popcnt : bool) (e : SignEncodedQuery) (encoded : list N) : option (list num_t) :=
  sign_quantized_score_batch popcnt (sg_mask e) (sg_weights e) encoded (sg_sum_abs e).
Definition sign_quantized_dot_batch (popcnt : bool) (query : list num_t) (encoded : list N) : option (list num_t) :=
  let bytes := bytes_per_vector (len query) in
  mask ← set_signs query 0 (replicate (N.to_nat bytes) 0);
  sign_quantized_score_batch popcnt mask (weight_tables (map nabs query) bytes) encoded (sum_of_abs query).
(** [sign_quantized_dot]: bit by bit. *)
Fixpoint sign_bits_loop (query : list num_t) (i : N) (mask encoded : list N) (d : num_t) : option num_t :=
  match query with
  | [] => Some d
  | x :: query =>
      e ← encoded !! N.to_nat (i / 8); m ← mask !! N.to_nat (i / 8);
      sign_bits_loop query (i + 1) mask encoded
        (if Bool.eqb (N.testbit e (i mod 8)) (N.testbit m (i mod 8)) then d else nadd d (nabs x))
  end.
Definition sum_pos (query : list num_t) : num_t :=
  foldl (fun s x => if ngeb x nzero then nadd s x else nsub s x) nzero query.
Definition sign_quantized_dot (query : list num_t) (encoded : list N) : option num_t :=
  mask ← set_signs query 0 (replicate (length encoded) 0);
  d ← sign_bits_loop query 0 mask encoded nzero;
  Some (nsub (sum_pos query) (nmul two d)).

(** ** TurboQuant *)

(** The query rotated, not normalized. *)
Definition rotate_query (q : TurboQuantMse) (query : list num_t) : option (list num_t) := rotate_unit q query.
(** [lut[j * levels + c]]. *)
Definition code_lut (rotated centroids : list num_t) (scale : num_t) (levels : N) : option (list num_t) :=
  if len centroids <? levels then None
  else Some (concat (map (fun x => map (fun c => nmul (nmul x c) scale) (take (N.to_nat levels) centroids)) rotated)).
(** The sum of the entries a byte selects, when the width divides a byte. *)
Definition byte_weight (lut : list num_t) (levels nbits dim : N) (byte_idx pattern : nat) : option num_t :=
  let per := 8 / nbits in
  let start := N.of_nat byte_idx * per in
  let valid := N.min per (dim - start) in
  foldl (fun acc k =>
      s ← acc;
      let code := N.land (N.shiftr (N.of_nat pattern) (N.of_nat k * nbits)) (code_mask nbits) in
      x ← lut !! N.to_nat ((start + N.of_nat k) * levels + code); Some (nadd s x))
    (Some nzero) (seq 0 (N.to_nat valid)).
Definition byte_tables (lut : list num_t) (levels nbits dim bytes : N) : option (list (list num_t)) :=
  if negb (nbits =? 0) && (8 mod nbits =? 0) then
    mapM (fun b => mapM (byte_weight lut levels nbits dim b) (seq 0 256)) (seq 0 (N.to_nat bytes))
  else Some [].
(** The sum of the entries of the codes. *)
Fixpoint lut_sum (lut : list num_t) (levels : N) (codes : list N) (j : N) (acc : num_t) : option num_t :=
  match codes with
  | [] => Some acc
  | c :: codes => x ← lut !! N.to_nat (j * levels + c); lut_sum lut levels codes (j + 1) (nadd acc x)
  end.

Record MseEncodedQuery := {
  me_dim : N; me_bits : N; me_bytes : N; me_lut : list num_t; me_levels : N; me_byte_weights : list (list num_t) }.
Definition mse_query (q : TurboQuantMse) (query : list num_t) : Outcome MseEncodedQuery :=
  let? _ := check_dimension query (tm_dim q) in
  may_panic
    (rotated ← rotate_query q query;
     let levels := 2 ^ tm_bits q in
     lut ← code_lut rotated (tm_centroids q) (centroid_scale q) levels;
     weights ← byte_tables lut levels (tm_bits q) (tm_dim q) (mse_bytes q);
     Some {| me_dim := tm_dim q; me_bits := tm_bits q; me_bytes := mse_bytes q; me_lut := lut; me_levels := levels;
             me_byte_weights := weights |}).
Definition mse_score (e : MseEncodedQuery) (encoded : list N) : option num_t :=
  if negb (len encoded =? me_bytes e) then Some neg_inf
  else
    match me_byte_weights e with
    | [] => codes ← unpack_codes encoded (me_bits e) (me_dim e); lut_sum (me_lut e) (me_levels e) codes 0 nzero
    | tables => table_sum tables encoded (lit f32_neg_zero)
    end.
Definition turbo_quant_mse_score_batch (dim nbits bytes_per_vec levels : N) (lut : list num_t) (encoded : list N) : option (list num_t) :=
  if (bytes_per_vec =? 0) || negb (len encoded mod bytes_per_vec =? 0) then Some []
  else mapM (fun v => codes ← unpack_codes v nbits dim; lut_sum lut levels codes 0 nzero) (vectors_of bytes_per_vec encoded).
Definition turbo_quant_mse_score_batch_byte_weights (bytes_per_vec : N) (byte_weights : list (list num_t)) (encoded : list N)
    : option (list num_t) :=
  if (bytes_per_vec =? 0) || negb (len encoded mod bytes_per_vec =? 0) then Some []
  else mapM (fun v => table_sum byte_weights v nzero) (vectors_of bytes_per_vec encoded).
Definition mse_score_batch (e : MseEncodedQuery) (encoded : list N) : option (list num_t) :=
  match me_byte_weights e with
  | [] => turbo_quant_mse_score_batch (me_dim e) (me_bits e) (me_bytes e) (me_levels e) (me_lut e) encoded
  | tables => turbo_quant_mse_score_batch_byte_weights (me_bytes e) tables encoded
  end.

Record ProdEncodedQuery := {
  pe_dim : N; pe_bits : N; pe_scale : num_t; pe_bytes : N; pe_lut : list num_t; pe_levels : N;
  pe_byte_weights : list (list num_t); pe_sum_query : num_t; pe_weights : list (list num_t); pe_mask : list N }.
Definition prod_query (q : TurboQuantProd) (query : list num_t) : Outcome ProdEncodedQuery :=
  let? _ := check_dimension query (tp_dim q) in
  may_panic
    (rotated ← rotate_query (tp_mse q) query;
     let projected := project q query in
     let levels := 2 ^ (tp_bits q - 1) in
     lut ← code_lut rotated (tm_centroids (tp_mse q)) (centroid_scale (tp_mse q)) levels;
     weights ← byte_tables lut levels (tp_bits q - 1) (tp_dim q) (prod_mse_bytes q);
     mask ← set_signs projected 0 (replicate (N.to_nat (qjl_bytes q)) 0);
     Some {| pe_dim := tp_dim q; pe_bits := tp_bits q; pe_scale := tp_scale q; pe_bytes := prod_bytes q; pe_lut := lut;
             pe_levels := levels; pe_byte_weights := weights; pe_sum_query := sum_of_abs projected;
             pe_weights := weight_tables (map nabs projected) (qjl_bytes q); pe_mask := mask |}).
(** [qjl_dot -= 2.0 * weights[b][xor]]. *)
Fixpoint qjl_loop (mask : list N) (weights : list (list num_t)) (bytes : list N) (acc : num_t) : option num_t :=
  match bytes, mask, weights with
  | [], _, _ => Some acc
  | b :: bytes, m :: mask, w :: weights =>
      x ← w !! N.to_nat (N.lxor b m); qjl_loop mask weights bytes (nsub acc (nmul two x))
  | _, _, _ => None
  end.
(** The parts of an encoded vector, by the sizes of the query. *)
Definition split_encoded (mse_part qjl_part total : N) (v : list N) : list N * list N * num_t :=
  (slice 0 mse_part v, slice mse_part qjl_part v, from_le_bytes (slice (total - 4) 4 v)).
Definition prod_score (e : ProdEncodedQuery) (encoded : list N) : option num_t :=
  let mse_bits := pe_bits e - 1 in
  let mse_packed := packed_bytes (pe_dim e) mse_bits in
  let qjl_packed := packed_bytes (pe_dim e) 1 in
  let expected := mse_packed + qjl_packed + 4 in
  if negb (len encoded =? expected) then Some neg_inf
  else
    let '(mse_part, qjl_part, alpha) := split_encoded mse_packed qjl_packed expected encoded in
    score ← (match pe_byte_weights e with
             | [] => codes ← unpack_codes mse_part mse_bits (pe_dim e); lut_sum (pe_lut e) (pe_levels e) codes 0 nzero
             | tables => table_sum tables mse_part nzero
             end);
    qjl_dot ← qjl_loop (pe_mask e) (pe_weights e) qjl_part (pe_sum_query e);
    Some (nadd score (nmul (nmul alpha (pe_scale e)) qjl_dot)).
(** [score_with_query_buffers]: from a rotated and a projected query. *)
Definition score_with_query_buffers (q : TurboQuantProd) (encoded : list N) (query_rotated query_projected : list num_t) : option num_t :=
  let levels := 2 ^ (tp_bits q - 1) in
  lut ← code_lut query_rotated (tm_centroids (tp_mse q)) (centroid_scale (tp_mse q)) levels;
  mask ← set_signs query_projected 0 (replicate (N.to_nat (qjl_bytes q)) 0);
  prod_score {| pe_dim := tp_dim q; pe_bits := tp_bits q; pe_scale := tp_scale q; pe_bytes := prod_bytes q; pe_lut := lut;
                pe_levels := levels; pe_byte_weights := []; pe_sum_query := sum_of_abs query_projected;
                pe_weights := weight_tables (map nabs query_projected) (qjl_bytes q); pe_mask := mask |} encoded.
(** Gathered table entries, eight codes at a time. *)
Definition gather_sum (lut : list num_t) (levels : N) (codes : list N) (dim : nat) : option num_t :=
  '(j, acc) ← strides dim 8 dim 0 (fun j acc =>
      vals ← mapM (fun k => c ← codes !! (j + k)%nat; lut !! N.to_nat (N.of_nat (j + k) * levels + c)) (seq 0 8);
      Some (lane_add acc vals)) (splat 8 nzero);
  '(_, score) ← strides dim 1 dim j (fun j score =>
      c ← codes !! j; x ← lut !! N.to_nat (N.of_nat j * levels + c); Some (nadd score x)) (hsum256_ps acc);
  Some score.
Definition prod_batch_one (isa : Isa) (e : ProdEncodedQuery) (v : list N) : option num_t :=
  let mse_bits := pe_bits e - 1 in
  let '(mse_part, qjl_part, alpha) :=
    split_encoded (packed_bytes (pe_dim e) mse_bits) (packed_bytes (pe_dim e) 1) (pe_bytes e) v in
  codes ← unpack_codes mse_part mse_bits (pe_dim e);
  score ← (match isa with
           | Avx2Fma => gather_sum (pe_lut e) (pe_levels e) codes (N.to_nat (pe_dim e))
           | _ => lut_sum (pe_lut e) (pe_levels e) codes 0 nzero
           end);
  qjl_dot ← qjl_loop (pe_mask e) (pe_weights e) qjl_part (pe_sum_query e);
  Some (nadd score (nmul (nmul alpha (pe_scale e)) qjl_dot)).
Definition turbo_quant_prod_score_batch (isa : Isa) (e : ProdEncodedQuery) (encoded : list N) : option (list num_t) :=
  if (pe_bytes e =? 0) || negb (len encoded mod pe_bytes e =? 0) then Some []
  else mapM (prod_batch_one isa e) (vectors_of (pe_bytes e) encoded).
(** The byte tables: eight vectors at a time with the constant part of the signs taken
    out, the rest one by one. *)
Definition prod_unrolled (e : ProdEncodedQuery) (v : list N) : option num_t :=
  let '(mse_part, qjl_part, alpha) := split_encoded (len (pe_byte_weights e)) (len (pe_weights e)) (pe_bytes e) v in
  s ← table_sum (pe_byte_weights e) mse_part nzero;
  q ← qjl_loop (pe_mask e) (pe_weights e) qjl_part nzero;
  Some (nadd s (nmul alpha (nadd (nmul (pe_scale e) (pe_sum_query e)) (nmul (pe_scale e) q)))).
Definition prod_rest (e : ProdEncodedQuery) (v : list N) : option num_t :=
  let '(mse_part, qjl_part, alpha) := split_encoded (len (pe_byte_weights e)) (len (pe_weights e)) (pe_bytes e) v in
  score ← table_sum (pe_byte_weights e) mse_part nzero;
  qjl_dot ← qjl_loop (pe_mask e) (pe_weights e) qjl_part (pe_sum_query e);
  Some (nadd score (nmul (nmul alpha (pe_scale e)) qjl_dot)).
Definition turbo_quant_prod_score_batch_byte_weights (e : ProdEncodedQuery) (encoded : list N) : option (list num_t) :=
  if (pe_bytes e =? 0) || negb (len encoded mod pe_bytes e =? 0) then Some []
  else
    let vs := vectors_of (pe_bytes e) encoded in
    let n := length vs in
    '(i, scores) ← strides n 8 n 0 (fun i scores => s ← mapM (prod_unrolled e) (take 8 (drop i vs)); Some (scores ++ s)) [];
    rest ← mapM (prod_rest e) (drop i vs);
    Some (scores ++ rest).
Definition prod_score_batch (isa : Isa) (e : ProdEncodedQuery) (encoded : list N) : option (list num_t) :=
  match pe_byte_weights e with
  | [] => turbo_quant_prod_score_batch isa e encoded
  | _ => turbo_quant_prod_score_batch_byte_weights e encoded
  end.

(** ** RaBitQ *)

Record RaBitQEncodedQuery := { re_dim : N; re_bits : N; re_code_bytes : N; re_total : N; re_luts : list (list num_t) }.
Definition rabitq_entry (q : RaBitQ) (proj : list num_t) (chunk byte_val : nat) : num_t :=
  let per := if rq_bits q =? 1 then 8%nat else 4%nat in
  let width := if rq_bits q =? 1 then 1 else 2 in
  foldl (fun sum pos =>
      match proj !! (chunk * per + pos)%nat with
      | Some x => nadd sum (nmul (rabitq_level q (N.land (N.shiftr (N.of_nat byte_val) (N.of_nat pos * width)) (code_mask width))) x)
      | None => sum
      end) nzero (seq 0 per).
Definition rabitq_query (query : list num_t) (q : RaBitQ) : Outcome RaBitQEncodedQuery :=
  let? _ := check_dimension query (rq_dim q) in
  may_panic
    (proj ← rq_project q query;
     Some {| re_dim := rq_dim q; re_bits := rq_bits q; re_code_bytes := code_bytes q; re_total := rabitq_bytes q;
             re_luts := map (fun c => map (rabitq_entry q proj c) (seq 0 256)) (seq 0 (N.to_nat (code_bytes q))) |}).
Definition rabitq_score (e : RaBitQEncodedQuery) (encoded : list N) : option num_t :=
  if len encoded <? re_total e then Some neg_inf
  else
    let alpha := from_le_bytes (slice (re_code_bytes e) 4 encoded) in
    sum ← table_sum (re_luts e) (slice 0 (re_code_bytes e) encoded) nzero;
    Some (nmul alpha sum).
(** The default [score_batch]: one by one. *)
Definition rabitq_score_batch (e : RaBitQEncodedQuery) (encoded : list N) : option (list num_t) :=
  if re_total e =? 0 then None else mapM (rabitq_score e) (vectors_of (re_total e) encoded).

(** ** Any of them *)

Inductive AnyEncodedQuery :=
  | QScalar (e : ScalarEncodedQuery) | QSign (e : SignEncodedQuery) | QMse (e : MseEncodedQuery)
  | QProd (e : ProdEncodedQuery) | QRaBit (e : RaBitQEncodedQuery).
Definition encode_query (q : VectorQuantizer) (query : list num_t) : Outcome AnyEncodedQuery :=
  match q with
  | Scalar q => let? e := scalar_query query q in done_ (QScalar e)
  | Sign dim => let? e := sign_query query dim in done_ (QSign e)
  | TurboMse q => let? e := mse_query q query in done_ (QMse e)
  | TurboProd q => let? e := prod_query q query in done_ (QProd e)
  | RaBit q => let? e := rabitq_query query q in done_ (QRaBit e)
  end.
Definition score (isa : Isa) (e : AnyEncodedQuery) (encoded : list N) : option num_t :=
  match e with
  | QScalar e => scalar_score isa e encoded | QSign e => sign_score e encoded | QMse e => mse_score e encoded
  | QProd e => prod_score e encoded | QRaBit e => rabitq_score e encoded
  end.
Definition score_batch (isa : Isa) (popcnt : bool) (e : AnyEncodedQuery) (encoded : list N) : option (list num_t) :=
  match e with
  | QScalar e => scalar_score_batch isa e encoded | QSign e => sign_score_batch popcnt e encoded
  | QMse e => mse_score_batch e encoded | QProd e => prod_score_batch isa e encoded | QRaBit e => rabitq_score_batch e encoded
  end.
Definition query_bytes (e : AnyEncodedQuery) : N :=
  match e with
  | QScalar e => se_dim e | QSign e => len (sg_mask e) | QMse e => me_bytes e | QProd e => pe_bytes e | QRaBit e => re_total e
  end.
End queries.

(** Two components [2^-30] and [2^-28]: the codes differ in sign and one at a time their
    scores do too; in a batch the check of equal weights passes and both score alike. *)
Definition no_draws : RandCrate := {| gen_bool _ _ := true; gen_bool_half _ _ := true; standard_normal _ _ := 0 |}.
Definition small_query : AnyEncodedQuery (NU := F32) :=
  match encode_query (RC := no_draws) (Sign 2) [0x30800000; 0x31800000] with
  | Some (Ok e) => e
  | _ => QSign {| sg_mask := []; sg_weights := []; sg_sum_abs := 0 |}
  end.
Example small_query_ties :
  map (score Portable small_query) [[1]; [2]] = [Some 0xB1400000; Some 0x31400000] /\
  exists s, score_batch Portable true small_query [1; 2] = Some [s; s].
Proof. split; [vm_compute; reflexivity|]. eexists. vm_compute. reflexivity. Qed.
