(* ===== verification/QuantTheorems.v ===== *)
(** * The quantizers are well typed

    For any numbers, binary32 included: encoding a vector of the right length gives bytes
    of the announced size, and decoding any bytes of that size gives a vector, without a
    panic ([codecs_well_typed]). What the codecs compute over the reals is in QuantExact,
    QuantScores and QuantBatch. *)

From S2P Require Import Prelude Core Floats Metrics Numeric Simd Codes Hadamard Quant QuantSearch.
From Stdlib Require Import Lia.

(** ** Well-formed quantizers *)

Section ok.
Context {NU : Num} {RC : RandCrate}.

Record mse_ok (q : TurboQuantMse) : Prop := {
  mk_dim : exists K, tm_dim q = 2 ^ K;
  mk_bits : 0 < tm_bits q <= 8;
  mk_centroids : len (tm_centroids q) = 2 ^ tm_bits q;
}.
Record prod_ok (q : TurboQuantProd) : Prop := {
  pk_mse : mse_ok (tp_mse q);
  pk_dim : tm_dim (tp_mse q) = tp_dim q;
  pk_bits : tp_bits q = tm_bits (tp_mse q) + 1;
  pk_rows : len (tp_matrix q) = tp_dim q;
  pk_cols : Forall (fun row => len row = tp_dim q) (tp_matrix q);
}.
Record rabitq_ok (q : RaBitQ) : Prop := {
  rk_pad : exists K, rq_pad q = 2 ^ K;
  rk_dim : 0 < rq_dim q <= rq_pad q;
  rk_bits : rq_bits q = 1 \/ rq_bits q = 2;
  rk_signs : len (rq_signs q) = rq_pad q;
}.
Definition vq_ok (q : VectorQuantizer) : Prop :=
  match q with
  | Scalar q => 0 < sq_bits q <= 8
  | Sign _ => True
  | TurboMse q => mse_ok q
  | TurboProd q => prod_ok q
  | RaBit q => rabitq_ok q
  end.

(** ** The transform ends *)

Lemma for_each_total {S} (P : S -> Prop) js (body : nat -> S -> option S) s :
  (forall j s, j ∈ js -> P s -> exists s', body j s = Some s' /\ P s') -> P s ->
  exists s', for_each js body s = Some s' /\ P s'.
Proof.
  revert s. induction js as [|j js IH]; intros s H Hs; simpl; [by exists s|].
  destruct (H j s) as (s1 & -> & Hs1); [set_solver|done|]. simpl. apply IH; [|done]. intros j' s' Hj. apply H. set_solver.
Qed.
Lemma butterfly_total n h j (v : list num_t) : length v = n -> (j + h < n)%nat ->
  exists v', butterfly h j v = Some v' /\ length v' = n.
Proof.
  intros <- Hj. unfold butterfly. destruct (lookup_lt_is_Some_2 v j) as [x ->]; [lia|].
  destruct (lookup_lt_is_Some_2 v (j + h)) as [y ->]; [lia|]. simpl. eexists. split; [done|]. by rewrite !length_insert.
Qed.
Lemma level_total K t (v : list num_t) : length v = (2 ^ K)%nat -> (t < K)%nat ->
  exists v', fwht_level (2 ^ t) v = Some v' /\ length v' = (2 ^ K)%nat.
Proof.
  intros Hv Ht. unfold fwht_level. apply for_each_total; [|done]. intros i s Hi Hs.
  unfold fwht_block. apply for_each_total; [|done]. intros j s' Hj Hs'. apply butterfly_total; [done|].
  apply elem_of_seq in Hj. unfold step_by in Hi. apply list_elem_of_fmap in Hi as (k & -> & Hk). apply elem_of_seq in Hk.
  assert (Hn : (2 ^ K = 2 ^ (K - t - 1) * (2 ^ t * 2))%nat).
  { rewrite (Nat.mul_comm (2 ^ t)), <- Nat.pow_succ_r', <- Nat.pow_add_r. f_equal. lia. }
  assert (H0 : (0 < 2 ^ t)%nat) by (apply Nat.neq_0_lt_0, Nat.pow_nonzero; lia).
  assert (Hm : ((length v + 2 ^ t * 2 - 1) / (2 ^ t * 2) = 2 ^ (K - t - 1))%nat).
  { rewrite Hv, Hn. symmetry. apply Nat.div_unique with (r := (2 ^ t * 2 - 1)%nat); lia. }
  rewrite Hm in Hk. nia.
Qed.
Lemma fwht_loop_total K n t fuel (v : list num_t) :
  (t + n = K)%nat -> length v = (2 ^ K)%nat -> (n <= fuel)%nat ->
  exists w, fwht_loop fuel (2 ^ t) v = Some w /\ length w = (2 ^ K)%nat.
Proof.
  revert t fuel v. induction n as [|n IH]; intros t fuel v Ht Hv Hf.
  - exists v. assert (E : (2 ^ t <? length v)%nat = false) by (apply Nat.ltb_ge; rewrite Hv; replace t with K by lia; done).
    split; [|done]. destruct fuel; simpl; by rewrite E.
  - destruct fuel as [|fuel]; [lia|].
    assert (E : (2 ^ t <? length v)%nat = true) by (apply Nat.ltb_lt; rewrite Hv; apply Nat.pow_lt_mono_r; lia).
    destruct (level_total K t v Hv) as (v1 & E1 & L1); [lia|].
    destruct (IH (S t) fuel v1) as (w & Ew & Lw); [lia|done|lia|]. exists w. split; [|done].
    simpl. rewrite E, E1. simpl. rewrite <- Ew. f_equal. simpl. lia.
Qed.
Lemma fwht_total K (v : list num_t) : length v = (2 ^ K)%nat -> exists w, fwht v = Some w /\ length w = (2 ^ K)%nat.
Proof.
  intros Hv. unfold fwht, is_power_of_two. rewrite Hv, Nat.log2_pow2, Nat.eqb_refl by lia. simpl.
  apply (fwht_loop_total K K 0); [lia|done|]. apply Nat.lt_le_incl, Nat.pow_gt_lin_r. lia.
Qed.
Lemma pow_nat K : N.to_nat (2 ^ K) = (2 ^ N.to_nat K)%nat.
Proof. by rewrite N2Nat.inj_pow. Qed.

(** ** No panics *)

Lemma check_ok {A} (v : list A) dim : len v = dim -> check_dimension v dim = Some (Ok tt).
Proof. intros <-. unfold check_dimension. by rewrite N.eqb_refl. Qed.
Lemma check_bad {A} (v : list A) dim : len v <> dim -> check_dimension v dim = Some (Err (TDimensionMismatch dim (len v))).
Proof. intros H. unfold check_dimension. by rewrite (proj2 (N.eqb_neq _ _)). Qed.
Lemma len_map {A B} (f : A -> B) l : len (map f l) = len l.
Proof. unfold len. by rewrite length_map. Qed.
Lemma len_nat {A} (l : list A) n : len l = n -> length l = N.to_nat n.
Proof. unfold len. lia. Qed.
Lemma nat_len {A} (l : list A) n : length l = N.to_nat n -> len l = n.
Proof. unfold len. lia. Qed.

Lemma to_le_bytes_ok x : len (to_le_bytes x) = 4 /\ is_bytes (to_le_bytes x).
Proof. split; [done|]. unfold to_le_bytes, is_bytes. repeat constructor; by apply N.mod_lt. Qed.

Lemma pow2_small k : k < 8 -> 2 ^ k < 256.
Proof. intros H. change 256 with (2 ^ 8). apply N.pow_lt_mono_r; lia. Qed.
Lemma pow2_bits_testbit k j : N.testbit (2 ^ k) j = (k =? j).
Proof. apply N.pow2_bits_eqb. Qed.

(** The sign bits: bit [p] of the stream is set when component [p] is not negative. *)
Definition sign_bit (v : list num_t) (p : N) : bool :=
  match v !! N.to_nat p with Some x => ngeb x nzero | None => false end.
Lemma set_signs_spec v i out :
  i + len v <= 8 * len out -> is_bytes out ->
  exists out', set_signs v i out = Some out' /\ len out' = len out /\ is_bytes out' /\
    forall p, stream_bit out' p = stream_bit out p || ((i <=? p) && sign_bit v (p - i)).
Proof.
  revert i out. induction v as [|x v IH]; intros i out Hi Hb.
  - exists out. split_and!; [done..|]. intros p. unfold sign_bit. by rewrite andb_false_r, orb_false_r.
  - rewrite len_cons in Hi.
    assert (Hstep : exists o1, (if ngeb x nzero then or_at (i / 8) (2 ^ (i mod 8)) out else Some out) = Some o1 /\
      len o1 = len out /\ is_bytes o1 /\ forall p, stream_bit o1 p = stream_bit out p || ((p =? i) && ngeb x nzero)).
    { destruct (ngeb x nzero) eqn:Ex.
      - destruct (or_at_spec (i / 8) (2 ^ (i mod 8)) out) as (o1 & -> & L & B & S);
          [apply N.Div0.div_lt_upper_bound; lia|apply pow2_small, N.mod_lt; lia|done|].
        exists o1. split_and!; [done..|]. intros p. rewrite S, pow2_bits_testbit, andb_true_r. f_equal.
        pose proof (N.div_mod p 8 ltac:(lia)). pose proof (N.div_mod i 8 ltac:(lia)).
        destruct (N.eqb_spec p i) as [->|Hne]; [by rewrite !N.eqb_refl|].
        destruct (N.eqb_spec (p / 8) (i / 8)), (N.eqb_spec (i mod 8) (p mod 8)); try done. congruence.
      - exists out. split_and!; [done..|]. intros p. by rewrite andb_false_r, orb_false_r. }
    destruct Hstep as (o1 & E1 & L1 & B1 & S1). simpl. rewrite E1. simpl.
    destruct (IH (i + 1) o1) as (o2 & E2 & L2 & B2 & S2); [lia|done|].
    exists o2. split_and!; [done|lia|done|]. intros p. rewrite S2, S1, <- orb_assoc. f_equal. unfold sign_bit.
    destruct (N.eqb_spec p i) as [->|Hne]; cbn [andb orb].
    + rewrite (proj2 (N.leb_gt _ _)), N.leb_refl, N.sub_diag by lia. simpl. by rewrite orb_false_r.
    + destruct (N.leb_spec (i + 1) p), (N.leb_spec i p); try lia; try done. cbn [andb].
      replace (N.to_nat (p - i)) with (S (N.to_nat (p - (i + 1)))) by lia. done.
Qed.
Lemma zeros_bytes n : is_bytes (replicate n 0) /\ len (replicate n 0) = N.of_nat n.
Proof. split; [by apply Forall_replicate|]. unfold len. by rewrite length_replicate. Qed.
Lemma signs_ok (v : list num_t) bytes : len v <= 8 * bytes ->
  exists out, set_signs v 0 (replicate (N.to_nat bytes) 0) = Some out /\ len out = bytes /\ is_bytes out /\
    forall p, stream_bit out p = sign_bit v p.
Proof.
  intros Hl. destruct (zeros_bytes (N.to_nat bytes)) as [Z1 Z2].
  destruct (set_signs_spec v 0 (replicate (N.to_nat bytes) 0)) as (out & E & L & B & S); [rewrite Z2; lia|done|].
  exists out. split_and!; [done|rewrite L, Z2; lia|done|]. intros p. rewrite S, stream_zero, N.sub_0_r. by destruct p.
Qed.
Lemma bytes_room dim : dim <= 8 * bytes_per_vector dim.
Proof. unfold bytes_per_vector. pose proof (N.div_mod (dim + 7) 8 ltac:(lia)). pose proof (N.mod_lt (dim + 7) 8 ltac:(lia)). lia. Qed.
Lemma sign_bytes_packed dim : bytes_per_vector dim = packed_bytes dim 1.
Proof. unfold bytes_per_vector, packed_bytes. by rewrite N.mul_1_r. Qed.

Lemma signs_length (v : list num_t) seed : length (random_diagonal_precondition v seed) = length v.
Proof. unfold random_diagonal_precondition. by rewrite length_imap. Qed.
Lemma scale_length c (v : list num_t) : length (scale_by c v) = length v.
Proof. unfold scale_by. by rewrite length_map. Qed.
Lemma unit_length_of (v : list num_t) norm : length (unit_of v norm) = length v.
Proof. unfold unit_of. destruct (ngtb _ _); [by rewrite length_map|done]. Qed.

Section mse.
Context (q : TurboQuantMse) (Hq : mse_ok q).
Lemma rotate_unit_total v : len v = tm_dim q -> exists w, rotate_unit q v = Some w /\ len w = tm_dim q.
Proof.
  intros Hv. destruct (mk_dim q Hq) as [K HK]. rewrite HK in *. apply len_nat in Hv. rewrite pow_nat in Hv.
  destruct (fwht_total (N.to_nat K) (random_diagonal_precondition v (tm_seed q))) as (w & E & L); [by rewrite signs_length|].
  unfold rotate_unit. rewrite E. simpl. eexists. split; [done|]. apply nat_len. by rewrite scale_length, pow_nat.
Qed.
Lemma rotate_forward_total v : len v = tm_dim q ->
  exists w, rotate_forward q v = Some (w, norm_of v) /\ len w = tm_dim q.
Proof.
  intros Hv. unfold rotate_forward. destruct (rotate_unit_total (unit_of v (norm_of v))) as (w & -> & L).
  - apply nat_len. rewrite unit_length_of. by apply len_nat.
  - by exists w.
Qed.
Lemma rotate_backward_total v : len v = tm_dim q -> exists w, rotate_backward q v = Some w /\ len w = tm_dim q.
Proof.
  intros Hv. destruct (mk_dim q Hq) as [K HK]. rewrite HK in *. apply len_nat in Hv. rewrite pow_nat in Hv.
  destruct (fwht_total (N.to_nat K) v Hv) as (w & E & L). unfold rotate_backward. rewrite E. simpl.
  eexists. split; [done|]. apply nat_len. by rewrite scale_length, signs_length, pow_nat.
Qed.
Lemma nearest_bound scale y cs idx best d B :
  best < B -> idx + len cs <= B -> B <= 256 -> nearest scale y cs idx best d < B.
Proof.
  revert idx best d. induction cs as [|c cs IH]; intros idx best d H1 H2 H3; simpl; [done|]. rewrite len_cons in H2.
  destruct (nltb _ _); apply IH; try lia. rewrite N.mod_small by lia. lia.
Qed.
Lemma mse_levels_bound : 2 ^ tm_bits q <= 256.
Proof. change 256 with (2 ^ 8). apply N.pow_le_mono_r; [lia|]. apply Hq. Qed.
Lemma quantize_total y : exists c, quantize_coordinate q y = Some c /\ c < 2 ^ tm_bits q.
Proof.
  unfold quantize_coordinate. pose proof (mk_centroids q Hq) as Hc. pose proof mse_levels_bound.
  assert (0 < 2 ^ tm_bits q) by (apply N.neq_0_lt_0, N.pow_nonzero; lia).
  destruct (tm_centroids q) as [|c0 cs]; [unfold len in Hc; simpl in Hc; lia|]. rewrite len_cons in Hc.
  eexists. split; [done|]. apply nearest_bound; lia.
Qed.
Lemma quantize_all ys : exists codes, mapM (quantize_coordinate q) ys = Some codes /\
  len codes = len ys /\ are_codes (tm_bits q) codes /\ Forall2 (fun y c => quantize_coordinate q y = Some c) ys codes.
Proof.
  destruct (mapM_total (quantize_coordinate q) (fun y c => quantize_coordinate q y = Some c /\ c < 2 ^ tm_bits q) ys) as (cs & E & H).
  { intros y _. destruct (quantize_total y) as (c & Ec & Hc). by exists c. }
  exists cs. split_and!; [done| | |].
  - apply Forall2_length in H. unfold len. lia.
  - apply Forall2_Forall_r with (1 := H). apply Forall_forall. by intros x _ y [_ ?].
  - eapply Forall2_impl; [exact H|]. by intros x y [? _].
Qed.
Lemma mse_encode_ok v : len v = tm_dim q ->
  exists bytes, mse_encode q v = Some (Ok bytes) /\ len bytes = mse_bytes q /\ is_bytes bytes.
Proof.
  intros Hv. unfold mse_encode. rewrite (check_ok v _ Hv). simpl.
  destruct (rotate_forward_total v Hv) as (w & -> & Lw). simpl.
  destruct (quantize_all w) as (codes & -> & Lc & Hc & _). simpl.
  destruct (pack_codes_spec codes (tm_bits q) (mk_bits q Hq) Hc) as (out & E & L & B & _).
  unfold mse_bytes. rewrite <- Lw, <- Lc, E. simpl. eexists. split; [done|]. by split.
Qed.
Definition centroid_at (c : N) : num_t := nth (N.to_nat c) (tm_centroids q) nzero.
Lemma reconstruct_ok codes : len codes = tm_dim q -> are_codes (tm_bits q) codes ->
  exists w, mse_reconstruct q codes = Some w /\ len w = tm_dim q /\
    rotate_backward q (map (fun c => nmul (centroid_at c) (centroid_scale q)) codes) = Some w.
Proof.
  intros Hl Hc. unfold mse_reconstruct.
  assert (E : mapM (fun c => c ← tm_centroids q !! N.to_nat c; Some (nmul c (centroid_scale q))) codes
    = Some (map (fun c => nmul (centroid_at c) (centroid_scale q)) codes)).
  { clear Hl. induction Hc as [|c codes Hc _ IH]; simpl; [done|]. pose proof (mk_centroids q Hq) as Hcs.
    destruct (lookup_lt_is_Some_2 (tm_centroids q) (N.to_nat c)) as [x Hx]; [unfold len in Hcs; lia|].
    rewrite Hx. simpl. rewrite IH. simpl. unfold centroid_at. by erewrite nth_lookup_Some. }
  rewrite E. simpl. destruct (rotate_backward_total (map (fun c => nmul (centroid_at c) (centroid_scale q)) codes)) as (w & -> & L);
    [by rewrite len_map|]. by exists w.
Qed.
Lemma mse_decode_ok bytes : len bytes = mse_bytes q -> is_bytes bytes ->
  exists w, mse_decode q bytes = Some (Ok w) /\ len w = tm_dim q.
Proof.
  intros Hl Hb. unfold mse_decode. rewrite Hl, N.eqb_refl. simpl.
  destruct (unpack_codes_spec bytes (tm_bits q) (tm_dim q) (mk_bits q Hq) Hl Hb) as (codes & -> & Lc & Hc & _). simpl.
  destruct (reconstruct_ok codes Lc Hc) as (w & -> & L & _). by exists w.
Qed.
End mse.

Section prod.
Context (q : TurboQuantProd) (Hq : prod_ok q).
Lemma prod_bits_mse : tp_bits q - 1 = tm_bits (tp_mse q).
Proof. pose proof (pk_bits q Hq). lia. Qed.
Lemma prod_mse_size : prod_mse_bytes q = mse_bytes (tp_mse q).
Proof. unfold prod_mse_bytes, mse_bytes. by rewrite prod_bits_mse, (pk_dim q Hq). Qed.
Lemma project_length v : len (project q v) = tp_dim q.
Proof. unfold project. rewrite len_map. apply Hq. Qed.
Lemma residual_length v recon norm : len v = tp_dim q -> len recon = tp_dim q -> len (prod_residual v recon norm).1 = tp_dim q.
Proof.
  intros Hv Hr. unfold prod_residual. destruct (ngtb _ _); simpl; [|by rewrite len_map].
  unfold len in *. rewrite length_zip_with. lia.
Qed.
Lemma prod_encode_ok v : len v = tp_dim q ->
  exists bytes, prod_encode q v = Some (Ok bytes) /\ len bytes = prod_bytes q /\ is_bytes bytes.
Proof.
  intros Hv. unfold prod_encode. rewrite (check_ok v _ Hv). simpl. pose proof (pk_mse q Hq) as Hm.
  assert (Hv' : len v = tm_dim (tp_mse q)) by (rewrite (pk_dim q Hq); done).
  destruct (rotate_forward_total _ Hm v Hv') as (w & -> & Lw). simpl.
  destruct (quantize_all _ Hm w) as (codes & -> & Lc & Hc & _). simpl.
  destruct (reconstruct_ok _ Hm codes) as (recon & -> & Lr & _); [lia|done|]. simpl.
  destruct (prod_residual v recon (norm_of v)) as [residual alpha] eqn:Er.
  set (qc := map (fun x => if ngeb x nzero then 1 else 0) (project q residual)).
  assert (Lq : len qc = tp_dim q) by (unfold qc; rewrite len_map; apply project_length).
  assert (Hqc : are_codes 1 qc).
  { unfold qc. apply Forall_fmap, Forall_forall. intros x _. simpl. destruct (ngeb _ _); [|]; done. }
  destruct (pack_codes_spec codes (tm_bits (tp_mse q)) (mk_bits _ Hm) Hc) as (a & Ea & La & Ba & _).
  destruct (pack_codes_spec qc 1 ltac:(lia) Hqc) as (b & Eb & Lb & Bb & _).
  rewrite prod_bits_mse, prod_mse_size. unfold mse_bytes at 1, qjl_bytes at 1.
  rewrite <- Lq. rewrite <- Hv', Hv', <- Lw, <- Lc, Ea. simpl. rewrite Eb. simpl. eexists. split; [done|].
  destruct (to_le_bytes_ok alpha) as [L4 B4]. split.
  - rewrite !len_app, La, Lb, L4. unfold prod_bytes. rewrite prod_mse_size. unfold mse_bytes, qjl_bytes. rewrite Lc, Lw, Lq. lia.
  - apply Forall_app. split; [done|]. apply Forall_app. by split.
Qed.
Lemma is_bytes_slice a n l : is_bytes l -> is_bytes (slice a n l).
Proof. intros H. unfold slice. by apply Forall_take, Forall_drop. Qed.
(** The three parts of an encoded vector. *)
Lemma prod_parts_ok bytes : len bytes = prod_bytes q -> is_bytes bytes ->
  exists a b alpha, prod_parts q bytes = (a, b, alpha) /\
    split_encoded (prod_mse_bytes q) (qjl_bytes q) (prod_bytes q) bytes = (a, b, alpha) /\
    len a = mse_bytes (tp_mse q) /\ is_bytes a /\ len b = qjl_bytes q /\ is_bytes b.
Proof.
  intros Hl Hb. unfold prod_parts. eexists _, _, _. split; [done|]. split; [done|].
  unfold prod_bytes in Hl. rewrite <- prod_mse_size.
  split_and!; [apply len_slice; lia|by apply is_bytes_slice|apply len_slice; lia|by apply is_bytes_slice].
Qed.
Lemma column_sum_total j signs : (j < N.to_nat (tp_dim q))%nat -> exists x, column_sum (tp_matrix q) signs j = Some x.
Proof.
  intros Hj. unfold column_sum. pose proof (pk_cols q Hq) as Hcols. generalize (nzero (H := NU)) as acc.
  revert signs. induction Hcols as [|row rows Hrow _ IH]; intros signs acc; [by eexists|].
  destruct signs as [|s signs]; [by eexists|]. simpl. destruct (lookup_lt_is_Some_2 row j) as [x ->]; [unfold len in Hrow; lia|].
  simpl. apply IH.
Qed.
Lemma prod_decode_ok bytes : len bytes = prod_bytes q -> is_bytes bytes ->
  exists w, prod_decode q bytes = Some (Ok w) /\ len w = tp_dim q.
Proof.
  intros Hl Hb. unfold prod_decode. rewrite Hl, N.eqb_refl. cbn [negb]. pose proof (pk_mse q Hq) as Hm.
  destruct (prod_parts_ok bytes Hl Hb) as (a & b & alpha & -> & _ & La & Ba & Lb & Bb).
  rewrite prod_bits_mse, <- (pk_dim q Hq).
  destruct (unpack_codes_spec a _ (tm_dim (tp_mse q)) (mk_bits _ Hm) La Ba) as (codes & -> & Lc & Hc & _). simpl.
  destruct (reconstruct_ok _ Hm codes Lc Hc) as (recon & -> & Lr & _). simpl.
  destruct (unpack_codes_spec b 1 (tm_dim (tp_mse q)) ltac:(lia)) as (qc & -> & Lqc & _ & _);
    [rewrite (pk_dim q Hq); exact Lb|done|]. simpl.
  destruct (mapM_total (column_sum (tp_matrix q) (map sign_value qc)) (fun _ _ => True) (seq 0 (N.to_nat (tm_dim (tp_mse q)))))
    as (sums & -> & Hs).
  { intros j Hj. apply elem_of_seq in Hj. destruct (column_sum_total j (map sign_value qc)) as [x Hx]; [rewrite <- (pk_dim q Hq); lia|].
    by exists x. }
  simpl. eexists. split; [done|]. apply Forall2_length in Hs. rewrite length_seq in Hs.
  unfold len in *. rewrite length_zip_with, length_map, <- Hs. lia.
Qed.
End prod.

Section rabitq.
Context (q : RaBitQ) (Hq : rabitq_ok q).
Lemma pad_length v : len v = rq_dim q -> exists K, rq_pad q = 2 ^ K /\ length (pad_to q v) = (2 ^ N.to_nat K)%nat.
Proof.
  intros Hv. destruct (rk_pad q Hq) as [K HK]. exists K. split; [done|]. rewrite <- pow_nat, <- HK.
  unfold pad_to, zeros. rewrite length_app, length_replicate. unfold len in Hv. pose proof (rk_dim q Hq). lia.
Qed.
Lemma zip_signs {A} (f : num_t -> num_t -> A) v : len v = rq_dim q -> len (zip_with f v (rq_signs q)) = rq_dim q.
Proof. intros Hv. pose proof (rk_signs q Hq). pose proof (rk_dim q Hq). unfold len in *. rewrite length_zip_with. lia. Qed.
Lemma take_dim (l : list num_t) K : rq_pad q = 2 ^ K -> length l = (2 ^ N.to_nat K)%nat -> len (take (N.to_nat (rq_dim q)) l) = rq_dim q.
Proof.
  intros HK Hl. pose proof (rk_dim q Hq). rewrite <- pow_nat, <- HK in Hl. unfold len. rewrite length_take. lia.
Qed.
Lemma project_total v : len v = rq_dim q -> exists w, rq_project q v = Some w /\ len w = rq_dim q.
Proof.
  intros Hv. unfold rq_project. rewrite Hv, N.eqb_refl. cbn [negb].
  set (x := zip_with _ v _). assert (Hx : len x = rq_dim q) by by apply zip_signs.
  destruct (pad_length x Hx) as (K & HK & L). destruct (fwht_total _ _ L) as (w & -> & Lw). simpl.
  eexists. split; [done|]. apply nat_len. rewrite scale_length. apply len_nat. by apply (take_dim w K).
Qed.
Lemma inverse_total v : len v = rq_dim q -> exists w, rq_inverse q v = Some w /\ len w = rq_dim q.
Proof.
  intros Hv. unfold rq_inverse. rewrite Hv, N.eqb_refl. cbn [negb].
  destruct (pad_length v Hv) as (K & HK & L). destruct (fwht_total _ _ L) as (w & -> & Lw). simpl.
  eexists. split; [done|]. apply zip_signs. by apply (take_dim w K).
Qed.
Lemma rabitq_code_small alpha x : rabitq_code q alpha x < 2 ^ rq_bits q.
Proof.
  unfold rabitq_code. destruct (rk_bits q Hq) as [-> | ->]; simpl.
  - by destruct (ngeb _ _).
  - by repeat destruct (nltb _ _).
Qed.
Lemma rabitq_width : (if rq_bits q =? 1 then 1 else 2) = rq_bits q.
Proof. by destruct (rk_bits q Hq) as [-> | ->]. Qed.
Lemma rabitq_bits_range : 0 < rq_bits q <= 8.
Proof. destruct (rk_bits q Hq) as [-> | ->]; lia. Qed.
Lemma rabitq_encode_ok v : len v = rq_dim q ->
  exists bytes, rabitq_encode q v = Some (Ok bytes) /\ len bytes = rabitq_bytes q /\ is_bytes bytes.
Proof.
  intros Hv. unfold rabitq_encode. rewrite (check_ok v _ Hv). simpl.
  destruct (project_total v Hv) as (w & -> & Lw). simpl. rewrite rabitq_width.
  set (alpha := ndiv _ _). set (codes := map (rabitq_code q alpha) w).
  assert (Hc : are_codes (rq_bits q) codes) by (apply Forall_fmap, Forall_forall; intros x _; apply rabitq_code_small).
  assert (Lc : len codes = rq_dim q) by (unfold codes; by rewrite len_map).
  destruct (pack_codes_spec codes (rq_bits q) rabitq_bits_range Hc) as (a & Ea & La & Ba & _).
  unfold code_bytes at 1. rewrite <- Lc, Ea. simpl. eexists. split; [done|]. destruct (to_le_bytes_ok alpha) as [L4 B4]. split.
  - rewrite len_app, La, L4, Lc. done.
  - apply Forall_app. by split.
Qed.
Lemma rabitq_decode_ok bytes : len bytes = rabitq_bytes q -> is_bytes bytes ->
  exists w, rabitq_decode q bytes = Some (Ok w) /\ len w = rq_dim q.
Proof.
  intros Hl Hb. unfold rabitq_decode. rewrite Hl, N.ltb_irrefl. unfold rabitq_bytes in Hl.
  destruct (unpack_codes_spec (slice 0 (code_bytes q) bytes) (rq_bits q) (rq_dim q) rabitq_bits_range) as (codes & -> & Lc & Hc & _);
    [change (packed_bytes (rq_dim q) (rq_bits q)) with (code_bytes q); apply len_slice; lia|by apply is_bytes_slice|]. simpl.
  destruct (inverse_total (map (rabitq_value q (from_le_bytes (slice (code_bytes q) 4 bytes))) codes)) as (w & -> & L);
    [by rewrite len_map|]. by exists w.
Qed.
End rabitq.

Lemma sq_encode_ok q v : len v = sq_dim q ->
  exists bytes, sq_encode q v = Some (Ok bytes) /\ len bytes = sq_dim q /\ is_bytes bytes.
Proof.
  intros Hv. unfold sq_encode. rewrite (check_ok v _ Hv). simpl. eexists. split; [done|].
  split; [by rewrite len_map|]. apply Forall_fmap, Forall_forall. intros x _. apply to_u8_bound.
Qed.
Lemma sign_encode_ok dim v : len v = dim ->
  exists bytes, sign_encode dim v = Some (Ok bytes) /\ len bytes = bytes_per_vector dim /\ is_bytes bytes /\
    forall p, stream_bit bytes p = sign_bit v p.
Proof.
  intros Hv. unfold sign_encode. rewrite (check_ok v _ Hv). simpl.
  destruct (signs_ok v (bytes_per_vector dim)) as (out & -> & L & B & S); [rewrite Hv; apply bytes_room|].
  simpl. exists out. by split_and!.
Qed.
Lemma sign_coordinate_spec codes i :
  i < 8 * len codes -> sign_coordinate codes i = Some (if stream_bit codes i then none_ else nneg none_).
Proof.
  intros Hi. unfold sign_coordinate, stream_bit.
  destruct (lookup_lt_is_Some_2 codes (N.to_nat (i / 8))) as [b ->].
  { unfold len in Hi. assert (i / 8 < len codes) by (apply N.Div0.div_lt_upper_bound; unfold len; lia). unfold len in *. lia. }
  assert (Hbit : negb (N.land b (2 ^ (i mod 8)) =? 0) = N.testbit b (i mod 8)).
  { destruct (N.testbit b (i mod 8)) eqn:E.
    - apply Bool.negb_true_iff, N.eqb_neq. intros H0. assert (H1 : N.testbit (N.land b (2 ^ (i mod 8))) (i mod 8) = true).
      { by rewrite N.land_spec, E, N.pow2_bits_true. }
      rewrite H0, N.bits_0 in H1. done.
    - apply Bool.negb_false_iff, N.eqb_eq. apply N.bits_inj. intros k. rewrite N.land_spec, N.bits_0, N.pow2_bits_eqb.
      destruct (N.eqb_spec (i mod 8) k) as [<-|]; [by rewrite E|by rewrite andb_false_r]. }
  simpl. by rewrite Hbit.
Qed.
Lemma sign_decode_ok dim bytes : len bytes = bytes_per_vector dim ->
  exists w, sign_decode dim bytes = Some (Ok w) /\ len w = dim /\
    w = map (fun i => if stream_bit bytes (N.of_nat i) then none_ else nneg none_) (seq 0 (N.to_nat dim)).
Proof.
  intros Hl. unfold sign_decode. rewrite (check_ok bytes _ Hl). simpl.
  assert (E : mapM (sign_coordinate bytes) (map N.of_nat (seq 0 (N.to_nat dim)))
    = Some (map (fun i => if stream_bit bytes (N.of_nat i) then none_ else nneg none_) (seq 0 (N.to_nat dim)))).
  { assert (H : Forall (fun i => N.of_nat i < dim) (seq 0 (N.to_nat dim))).
    { apply Forall_forall. intros i Hi. apply elem_of_seq in Hi. lia. }
    induction H as [|i l Hi _ IH]; simpl; [done|]. pose proof (bytes_room dim).
    rewrite sign_coordinate_spec by (rewrite Hl; lia). simpl. by rewrite IH. }
  rewrite E. simpl. eexists. split; [done|]. split; [|done]. rewrite len_map. unfold len. rewrite length_seq. lia.
Qed.

(** ** Every quantizer *)

Lemma encode_ok q v : vq_ok q -> len v = vq_dim q ->
  exists bytes, encode q v = Some (Ok bytes) /\ len bytes = encoded_bytes q /\ is_bytes bytes.
Proof.
  intros Hq Hv. destruct q as [q|dim|q|q|q]; simpl in *.
  - by apply sq_encode_ok.
  - destruct (sign_encode_ok dim v Hv) as (b & E & L & B & _). by exists b.
  - by apply mse_encode_ok.
  - by apply prod_encode_ok.
  - by apply rabitq_encode_ok.
Qed.
Lemma encode_bad q v : len v <> vq_dim q -> encode q v = Some (Err (TDimensionMismatch (vq_dim q) (len v))).
Proof.
  intros Hv. destruct q; simpl in *;
    [unfold sq_encode|unfold sign_encode|unfold mse_encode|unfold prod_encode|unfold rabitq_encode]; by rewrite check_bad.
Qed.
Lemma decode_ok q bytes : vq_ok q -> len bytes = encoded_bytes q -> is_bytes bytes ->
  exists w, decode q bytes = Some (Ok w) /\ len w = vq_dim q.
Proof.
  intros Hq Hl Hb. destruct q as [q|dim|q|q|q]; simpl in *.
  - unfold sq_decode. rewrite (check_ok bytes _ Hl). simpl. eexists. split; [done|]. by rewrite len_map.
  - destruct (sign_decode_ok dim bytes Hl) as (w & E & L & _). by exists w.
  - by apply mse_decode_ok.
  - by apply prod_decode_ok.
  - by apply rabitq_decode_ok.
Qed.

(** ** What the constructors build *)

Inductive built : VectorQuantizer -> Prop :=
  | built_scalar vectors nbits q : calibrate vectors nbits = Some (Ok q) -> built (Scalar q)
  | built_sign dim : built (Sign dim)
  | built_mse dim nbits seed q : mse_new dim nbits seed = Some (Ok q) -> built (TurboMse q)
  | built_prod dim nbits seed qjl q : prod_new dim nbits seed qjl = Some (Ok q) -> built (TurboProd q)
  | built_rabitq dim nbits seed q : rabitq_new dim nbits seed = Some (Ok q) -> built (RaBit q).

Lemma lloyd_max_ok nbits t : lloyd_max_new nbits = Some (Ok t) -> len (lm_centroids t) = 2 ^ nbits /\ 0 < nbits <= 8.
Proof.
  unfold lloyd_max_new. destruct (N.eqb_spec nbits 0) as [|H0]; [done|]. destruct (N.ltb_spec 8 nbits) as [|H8]; [done|]. simpl.
  intros [= <-]. simpl. split; [|lia].
  assert (Hc : nbits = 1 \/ nbits = 2 \/ nbits = 3 \/ nbits = 4 \/ nbits = 5 \/ nbits = 6 \/ nbits = 7 \/ nbits = 8) by lia.
  destruct Hc as [-> |[-> |[-> |[-> |[-> |[-> |[-> | ->]]]]]]]; vm_compute; reflexivity.
Qed.
Lemma is_power_spec n : n <> 0 -> is_power_of_two (N.to_nat n) = true -> exists K, n = 2 ^ K.
Proof.
  intros H0 H. unfold is_power_of_two in H. apply Nat.eqb_eq in H. exists (N.of_nat (Nat.log2 (N.to_nat n))).
  rewrite <- (N2Nat.id n) at 1. rewrite H at 1. by rewrite Nat2N.inj_pow.
Qed.
Lemma mse_new_ok dim nbits seed q : mse_new dim nbits seed = Some (Ok q) -> mse_ok q /\ tm_dim q = dim /\ tm_bits q = nbits.
Proof.
  unfold mse_new. destruct (N.eqb_spec dim 0) as [|H0]; [done|]. destruct (is_power_of_two _) eqn:Ep; [|done]. simpl.
  destruct ((nbits =? 0) || (8 <? nbits)); [done|]. destruct (lloyd_max_new nbits) as [[t|]|] eqn:El; simpl; try done.
  intros [= <-]. apply lloyd_max_ok in El as [E1 E2]. split; [|done]. split; simpl; [by apply is_power_spec|done..].
Qed.
Lemma prod_new_ok dim nbits seed qjl q : prod_new dim nbits seed qjl = Some (Ok q) -> prod_ok q.
Proof.
  unfold prod_new. destruct (N.leb_spec 2 nbits) as [H2|]; [|done]. destruct (nbits <=? 8); simpl; [|done].
  destruct (mse_new dim (nbits - 1) seed) as [[m|]|] eqn:Em; simpl; try done.
  intros [= <-]. apply mse_new_ok in Em as (Hm & Hd & Hb). split; simpl; [done|done|lia| |].
  - unfold generate_gaussian_matrix. rewrite len_map. unfold len. rewrite length_seq. lia.
  - apply Forall_fmap, Forall_forall. intros i _. simpl. rewrite len_map. unfold len. rewrite length_seq. lia.
Qed.
Lemma rabitq_new_ok dim nbits seed q : rabitq_new dim nbits seed = Some (Ok q) -> rabitq_ok q.
Proof.
  unfold rabitq_new. destruct (N.eqb_spec dim 0) as [|H0]; [done|].
  destruct (N.eqb_spec nbits 1) as [H1|H1], (N.eqb_spec nbits 2) as [H2|H2]; simpl; try done; intros [= <-]; split; simpl; auto.
  all: try (by eexists). all: try (rewrite len_map; unfold len; rewrite length_seq; lia).
  all: split; [lia|]; unfold next_power_of_two; destruct (N.eq_dec dim 1) as [->|]; [done|]; apply N.log2_up_spec; lia.
Qed.
Lemma calibrate_ok vectors nbits q : calibrate vectors nbits = Some (Ok q) -> 0 < sq_bits q <= 8.
Proof.
  unfold calibrate. destruct (N.eqb_spec nbits 0) as [|H0]; [done|]. destruct (N.ltb_spec 8 nbits) as [|H8]; [done|]. simpl.
  destruct vectors as [|v0 vs]; [done|]. destruct (range_loop _ _ _) as [[mm|]|]; simpl; try done. intros [= <-]. simpl. lia.
Qed.
Lemma built_ok q : built q -> vq_ok q.
Proof.
  destruct 1 as [vectors nbits q E|dim|dim nbits seed q E|dim nbits seed qjl q E|dim nbits seed q E]; simpl.
  - by eapply calibrate_ok.
  - done.
  - by eapply mse_new_ok.
  - by eapply prod_new_ok.
  - by eapply rabitq_new_ok.
Qed.

(** The parameters build the quantizer again. *)
Lemma prod_stored dim nbits seed qjl p : prod_new dim nbits seed qjl = Some (Ok p) -> prod_deserialize (prod_serialized p) = Some (Ok p).
Proof.
  intros E. unfold prod_deserialize, prod_serialized.
  pose proof E as E0. unfold prod_new in E. destruct (_ && _) eqn:E2 in E; [|done]. simpl in E.
  destruct (mse_new dim (nbits - 1) seed) as [[m|]|] eqn:Em in E; simpl in E; try done. injection E as <-. simpl.
  assert (Hs : tm_seed m = seed).
  { unfold mse_new in Em. destruct (_ || negb _) in Em; [done|]. destruct (_ || _) in Em; [done|].
    destruct (lloyd_max_new _) as [[t|]|] in Em; simpl in Em; try done. by injection Em as <-. }
  by rewrite Hs.
Qed.

End ok.

(** A sign quantizer of three components, on binary32. *)
Definition no_rand : RandCrate := {| gen_bool _ _ := true; gen_bool_half _ _ := true; standard_normal _ _ := f32_one |}.
Example sign_three : @encode F32 no_rand (Sign 3) [f32_one; f32_neg f32_one; f32_zero] = Some (Ok [5]).
Proof. vm_compute. reflexivity. Qed.
