(* ===== verification/QuantExact.v ===== *)
(** * The TurboQuant code without rounding

    Over the reals the rotation of the TurboQuant codecs keeps inner products and is
    undone by its inverse ([rot_isometry], [back_rot]), so the encoder, which takes the
    nearest centroid of each rotated component, returns the nearest of all codes
    ([mse_encode_optimal]). *)

From S2P Require Import Prelude Core Floats Metrics Numeric Simd Codes Hadamard Quant QuantSearch QuantTheorems.
From Stdlib Require Import Reals Lra Lia.

Section exact.
Context (store : R -> f32) {RC : RandCrate}.
#[local] Instance RN : Num := Reals store.
#[local] Open Scope R_scope.

(** ** Sums *)

Lemma rdot_map_l c a b : rdot (map (Rmult c) a) b = c * rdot a b.
Proof. unfold rdot, rsum. revert b. induction a as [|x a IH]; intros [|y b]; simpl; try lra. rewrite IH. lra. Qed.
Lemma scale_by_map c (v : list R) : scale_by (NU := RN) c v = map (Rmult c) v.
Proof. unfold scale_by. apply map_ext. intros x. apply Rmult_comm. Qed.
Lemma rdot_scale_l c a b : rdot (scale_by (NU := RN) c a) b = c * rdot a b.
Proof. rewrite scale_by_map. apply rdot_map_l. Qed.
Lemma rdot_scale_r c a b : rdot a (scale_by (NU := RN) c b) = c * rdot a b.
Proof. by rewrite rdot_comm, rdot_scale_l, rdot_comm. Qed.

(** Sums over the indices below [n]. *)
Lemma sum_to_S n f : sum_to (S n) f = sum_to n f + f n.
Proof. unfold sum_to. rewrite seq_S, map_app, rsum_app. change (rsum (map f [(0 + n)%nat])) with (f n + 0). lra. Qed.
Lemma sum_to_0 f : sum_to 0 f = 0.
Proof. reflexivity. Qed.
Lemma sum_to_ext n f g : (forall i, (i < n)%nat -> f i = g i) -> sum_to n f = sum_to n g.
Proof.
  intros H. unfold sum_to. f_equal. apply map_ext_in. intros i Hi. apply H. apply in_seq in Hi. lia.
Qed.
Lemma sum_to_add m n f : sum_to (m + n) f = sum_to m f + sum_to n (fun k => f (m + k)%nat).
Proof.
  induction n as [|n IH]; [rewrite Nat.add_0_r, sum_to_0; lra|].
  rewrite Nat.add_succ_r, !sum_to_S, IH. lra.
Qed.
Lemma sum_to_zero n f : (forall i, (i < n)%nat -> f i = 0) -> sum_to n f = 0.
Proof. intros H. induction n as [|n IH]; [done|]. rewrite sum_to_S, IH, H by auto. lra. Qed.
Lemma sum_to_plus n f g : sum_to n (fun i => f i + g i) = sum_to n f + sum_to n g.
Proof. induction n as [|n IH]; [rewrite !sum_to_0; lra|]. rewrite !sum_to_S, IH. lra. Qed.
Lemma sum_to_mul n c f : sum_to n (fun i => c * f i) = c * sum_to n f.
Proof. induction n as [|n IH]; [rewrite !sum_to_0; lra|]. rewrite !sum_to_S, IH. lra. Qed.
(** A sum byte by byte, [per] terms each; the terms past [d] are zero. *)
Lemma sum_grouped per bytes d f :
  (d <= bytes * per)%nat -> (forall i, (d <= i)%nat -> f i = 0) ->
  sum_to bytes (fun b => sum_to per (fun k => f (b * per + k)%nat)) = sum_to d f.
Proof.
  intros Hd Hz. assert (H : forall m, sum_to m (fun b => sum_to per (fun k => f (b * per + k)%nat)) = sum_to (m * per) f).
  { induction m as [|m IH]; [done|]. rewrite sum_to_S, IH. simpl. rewrite Nat.add_comm, sum_to_add. lra. }
  rewrite H. replace (bytes * per)%nat with (d + (bytes * per - d))%nat by lia. rewrite sum_to_add.
  rewrite (sum_to_zero (bytes * per - d)); [lra|]. intros i _. apply Hz. lia.
Qed.
Lemma rdot_sum n (a b : list R) : length a = n -> length b = n -> rdot a b = sum_to n (fun i => val a i * val b i).
Proof.
  intros <-. unfold rdot. revert b. induction a as [|x a IH]; intros [|y b] Hb; try done.
  simpl length. rewrite <- (Nat.add_1_l (length a)), sum_to_add. simpl zip_with.
  change (rsum (x * y :: zip_with Rmult a b)) with (x * y + rsum (zip_with Rmult a b)). rewrite IH by (simpl in Hb; lia).
  rewrite sum_to_S, sum_to_0. change (val (x :: a) 0 * val (y :: b) 0) with (x * y). rewrite Rplus_0_l. done.
Qed.
Lemma val_map {A} (f : A -> R) l i : val (map f l) i = match l !! i with Some x => f x | None => 0 end.
Proof. unfold val. rewrite map_fmap, list_lookup_fmap. by destruct (l !! i). Qed.
Lemma val_seq (f : nat -> R) n i : (i < n)%nat -> val (map f (seq 0 n)) i = f i.
Proof. intros Hi. by rewrite val_map, lookup_seq_lt. Qed.

(** ** The rotation *)

Abbreviation signs seed v := (random_diagonal_precondition (NU := RN) v seed).
Lemma sign_sqr b : @sign_of RN b * @sign_of RN b = 1.
Proof.
  unfold sign_of. change (@none_ RN) with (f32_value f32_one). pose proof f32_value_one as E.
  destruct b; [rewrite E; lra|]. change (@nneg RN) with Ropp. rewrite E. lra.
Qed.
Lemma val_signs (v : list R) seed i : val (signs seed v) i = val v i * @sign_of RN (gen_bool seed i).
Proof.
  change (signs seed v) with (imap (fun i (x : R) => x * @sign_of RN (gen_bool seed i) : R) v).
  unfold val. rewrite list_lookup_imap. destruct (v !! i); simpl; [done|lra].
Qed.
Lemma length_signs (v : list R) seed : length (signs seed v) = length v.
Proof. unfold random_diagonal_precondition. apply length_imap. Qed.
Lemma signs_twice (v : list R) seed : signs seed (signs seed v) = v.
Proof.
  apply list_val_ext; [by rewrite !length_signs|]. intros p _. rewrite !val_signs, Rmult_assoc, sign_sqr. lra.
Qed.
Lemma signs_adjoint (a b : list R) seed : length b = length a -> rdot (signs seed a) b = rdot a (signs seed b).
Proof.
  intros E. rewrite !(rdot_sum (length a)) by (rewrite ?length_signs; done). apply sum_to_ext. intros i _.
  rewrite !val_signs. lra.
Qed.
Lemma val_scale c (v : list R) i : val (map (Rmult c) v) i = c * val v i.
Proof. rewrite val_map. unfold val. destruct (v !! i); simpl; lra. Qed.
Lemma signs_scale c (a : list R) seed : signs seed (map (Rmult c) a) = map (Rmult c) (signs seed a).
Proof.
  apply list_val_ext; [by rewrite length_map, !length_signs, length_map|]. intros p _.
  rewrite val_signs, !val_scale, val_signs. lra.
Qed.
Lemma transform_scale K c (v : list R) : transform K (map (Rmult c) v) = map (Rmult c) (transform K v).
Proof.
  unfold transform. rewrite map_map. apply map_ext. intros p.
  assert (E : val (map (Rmult c) v) = (fun p => c * val v p)).
  { apply FunctionalExtensionality.functional_extensionality. intros i. apply val_scale. }
  by rewrite E, had_scale.
Qed.

Lemma R_of_pow K : R_of_N (N.of_nat (2 ^ K)) = 2 ^ K.
Proof. unfold R_of_N. rewrite nat_N_Z, <- INR_IZR_INZ, pow_INR. done. Qed.
(** The factor that keeps the length, at [2 ^ K] components. *)
Definition unitary (K : nat) : R := Hadamard.inv_sqrt (NU := RN) (2 ^ K)%nat.
Lemma unitary_sqr K : unitary K * unitary K * 2 ^ K = 1.
Proof.
  unfold unitary, Hadamard.inv_sqrt. change (@ndiv RN) with Rdiv. change (@nsqrt RN) with sqrt. change (@of_int RN) with R_of_N.
  change (@none_ RN) with (f32_value f32_one). rewrite f32_value_one, R_of_pow.
  assert (Hp : 0 < 2 ^ K) by (apply pow_lt; lra). pose proof (sqrt_lt_R0 _ Hp) as Hs.
  pose proof (sqrt_sqrt (2 ^ K) ltac:(lra)) as Hss. set (s := sqrt (2 ^ K)) in *. rewrite <- Hss. field. lra.
Qed.

Definition rot (K : nat) (seed : N) (v : list R) : list R := map (Rmult (unitary K)) (transform K (signs seed v)).
Definition back (K : nat) (seed : N) (v : list R) : list R := map (Rmult (unitary K)) (signs seed (transform K v)).
Lemma length_rot K seed v : length (rot K seed v) = (2 ^ K)%nat.
Proof. unfold rot. by rewrite length_map, length_transform. Qed.
Lemma length_back K seed v : length (back K seed v) = (2 ^ K)%nat.
Proof. unfold back. by rewrite length_map, length_signs, length_transform. Qed.
Lemma map_mult c d (v : list R) : map (Rmult c) (map (Rmult d) v) = map (Rmult (c * d)) v.
Proof. rewrite map_map. apply map_ext. intros x. lra. Qed.
Lemma map_one c (v : list R) : c = 1 -> map (Rmult c) v = v.
Proof. intros ->. rewrite <- (map_id v) at 2. apply map_ext. intros x. lra. Qed.
(** The rotation keeps inner products, and its inverse is its adjoint. *)
Lemma rot_back K seed v : length v = (2 ^ K)%nat -> rot K seed (back K seed v) = v.
Proof.
  intros Hv. unfold rot, back. rewrite signs_scale, signs_twice, transform_scale, transform_twice by done.
  rewrite !map_mult. apply map_one. pose proof (unitary_sqr K). lra.
Qed.
Lemma rot_adjoint K seed a b : length a = (2 ^ K)%nat -> length b = (2 ^ K)%nat ->
  rdot (rot K seed a) b = rdot a (back K seed b).
Proof.
  intros Ha Hb. unfold rot, back. rewrite rdot_map_l, rdot_comm, (rdot_comm a), rdot_map_l, (rdot_comm _ a).
  rewrite <- signs_adjoint by (rewrite length_transform; lia). rewrite (rdot_comm b), <- transform_adjoint; [done|by rewrite length_signs|done].
Qed.
Lemma back_isometry K seed a b : length a = (2 ^ K)%nat -> length b = (2 ^ K)%nat ->
  rdot (back K seed a) (back K seed b) = rdot a b.
Proof. intros Ha Hb. rewrite <- rot_adjoint by (try done; apply length_back). by rewrite rot_back. Qed.
Lemma back_rot K seed v : length v = (2 ^ K)%nat -> back K seed (rot K seed v) = v.
Proof.
  intros Hv. unfold rot, back. rewrite transform_scale, transform_twice by (by rewrite length_signs).
  rewrite !signs_scale, signs_twice, !map_mult. apply map_one. pose proof (unitary_sqr K). lra.
Qed.
Lemma rot_isometry K seed a b : length a = (2 ^ K)%nat -> length b = (2 ^ K)%nat ->
  rdot (rot K seed a) (rot K seed b) = rdot a b.
Proof. intros Ha Hb. rewrite rot_adjoint by (try done; apply length_rot). by rewrite back_rot. Qed.

Section mse.
Context (q : @TurboQuantMse RN) (K : nat) (HK : tm_dim q = (2 ^ N.of_nat K)%N).
Lemma tm_dim_nat : N.to_nat (tm_dim q) = (2 ^ K)%nat.
Proof. by rewrite HK, pow_nat, Nat2N.id. Qed.
Lemma centroid_scale_unitary : centroid_scale q = unitary K.
Proof. unfold centroid_scale. by rewrite tm_dim_nat. Qed.
Lemma rotate_unit_rot (v : list R) : length v = (2 ^ K)%nat -> rotate_unit q v = Some (rot K (tm_seed q) v).
Proof.
  intros Hv. unfold rotate_unit. rewrite (fwht_transform store K) by by rewrite length_signs.
  cbn [mbind option_bind]. by rewrite scale_by_map, centroid_scale_unitary.
Qed.
Lemma rotate_backward_back (v : list R) : length v = (2 ^ K)%nat -> rotate_backward q v = Some (back K (tm_seed q) v).
Proof.
  intros Hv. unfold rotate_backward. rewrite (fwht_transform store K) by done.
  cbn [mbind option_bind]. by rewrite scale_by_map, centroid_scale_unitary.
Qed.

(** *** The nearest code *)

Context (Hq : mse_ok q).
(** The distance of coordinate [y] to the value of code [c]. *)
Definition gap (y : R) (c : N) : R := Rabs (y - centroid_at q c * unitary K).
Lemma nearest_best y cs pre best :
  tm_centroids q = pre ++ cs -> (len (tm_centroids q) <= 256)%N -> (best < len pre)%N ->
  (forall j, (j < len pre)%N -> gap y best <= gap y j) ->
  forall j, (j < len (tm_centroids q))%N ->
    gap y (nearest (NU := RN) (unitary K) y cs (len pre) best (gap y best)) <= gap y j.
Proof.
  revert pre best. induction cs as [|c cs IH]; intros pre best Hall Hlen Hb Hbest j Hj.
  - rewrite app_nil_r in Hall. rewrite Hall in Hj. apply (Hbest j Hj).
  - assert (Hgap : @nabs RN (@nsub RN y (@nmul RN c (unitary K))) = gap y (len pre)).
    { unfold gap, centroid_at, len. rewrite Nat2N.id, Hall. by rewrite nth_middle. }
    assert (Hpre : (len pre + 1 = len (pre ++ [c]))%N) by (rewrite len_app; done).
    assert (Hsmall : (len pre < 256)%N) by (rewrite Hall, len_app, len_cons in Hlen; lia).
    assert (Hsnoc : forall P : N -> Prop, (forall j, (j < len pre)%N -> P j) -> P (len pre) -> forall j, (j < len (pre ++ [c]))%N -> P j).
    { intros P H1 H2 k Hk. rewrite <- Hpre in Hk. destruct (N.eq_dec k (len pre)) as [->|]; [done|]. apply H1. lia. }
    cbn [nearest]. rewrite Hgap, Hpre. unfold nltb. change (@ngtb RN) with R_gtb. unfold R_gtb.
    destruct (Rlt_dec (gap y (len pre)) (gap y best)) as [Hlt|Hge].
    + rewrite N.mod_small by done. apply IH; [by rewrite <- app_assoc|done|lia| |done].
      apply Hsnoc; [|lra]. intros k Hk. specialize (Hbest k Hk). lra.
    + apply IH; [by rewrite <- app_assoc|done|lia| |done]. apply Hsnoc; [done|lra].
Qed.
Lemma quantize_best y c : quantize_coordinate q y = Some c ->
  forall j, (j < 2 ^ tm_bits q)%N -> gap y c <= gap y j.
Proof.
  unfold quantize_coordinate. intros Hc j Hj. pose proof (mk_centroids q Hq) as Hl. pose proof (mse_levels_bound q Hq) as Hb.
  destruct (tm_centroids q) as [|c0 cs] eqn:E; [done|]. apply (inj Some) in Hc as <-. rewrite centroid_scale_unitary.
  assert (H0 : @nabs RN (@nsub RN y (@nmul RN c0 (unitary K))) = gap y 0) by (unfold gap, centroid_at; by rewrite E).
  rewrite H0. rewrite <- Hl, <- E in Hj. apply (nearest_best y cs [c0]); [done|rewrite E, Hl; exact Hb|unfold len; simpl; lia| |done].
  intros k Hk. unfold len in Hk. simpl in Hk. replace k with 0%N by lia. lra.
Qed.

(** The decoded vector. *)
Definition levels_of (codes : list N) : list R := map (fun c => centroid_at q c * unitary K) codes.
Lemma length_levels codes : len codes = tm_dim q -> length (levels_of codes) = (2 ^ K)%nat.
Proof. intros Hl. unfold levels_of. rewrite length_map, <- tm_dim_nat. by apply len_nat. Qed.
Lemma reconstruct_back codes : len codes = tm_dim q -> are_codes (tm_bits q) codes ->
  mse_reconstruct q codes = Some (back K (tm_seed q) (levels_of codes)).
Proof.
  intros Hl Hc. destruct (reconstruct_ok q Hq codes Hl Hc) as (w & -> & _ & Hw).
  rewrite centroid_scale_unitary in Hw. rewrite <- Hw. apply rotate_backward_back.
  by apply length_levels.
Qed.
End mse.

(** The squared distance. *)
Definition dist2 (a b : list R) : R := rsum (zip_with (fun x y => (x - y) * (x - y)) a b).
Lemma dist2_rdot a b : length a = length b -> dist2 a b = rdot a a - 2 * rdot a b + rdot b b.
Proof.
  unfold dist2, rdot. revert b. induction a as [|x a IH]; intros [|y b] Hl; try done; [unfold rsum; simpl; lra|].
  injection Hl as Hl. specialize (IH b Hl). unfold rsum in *. simpl. lra.
Qed.
Lemma dist2_back K seed u y : length u = (2 ^ K)%nat -> length y = (2 ^ K)%nat ->
  dist2 u (back K seed y) = dist2 (rot K seed u) y.
Proof.
  intros Hu Hy. rewrite !dist2_rdot by (rewrite ?length_back, ?length_rot; done).
  by rewrite rot_isometry, back_isometry, rot_adjoint.
Qed.
Lemma sqr_mono a b : Rabs a <= Rabs b -> a * a <= b * b.
Proof. intros H. apply Rsqr_le_abs_1 in H. exact H. Qed.
Lemma dist2_mono y w w' :
  Forall2 (fun x p => Rabs (x - p.1) <= Rabs (x - p.2)) y (zip w w') -> length w = length w' -> dist2 y w <= dist2 y w'.
Proof.
  unfold dist2. revert w w'. induction y as [|x y IH]; intros [|a w] [|b w'] H Hl; inversion H; subst; simpl in *; try done; try lra.
  injection Hl as Hl. match goal with H1 : Rabs _ <= _, H2 : Forall2 _ y _ |- _ => apply sqr_mono in H1; specialize (IH w w' H2 Hl) end.
  unfold rsum in *. simpl in *. lra.
Qed.
Lemma dist2_levels (q : @TurboQuantMse RN) K (HK : tm_dim q = (2 ^ N.of_nat K)%N) (Hq : mse_ok q) y codes codes' :
  Forall2 (fun y c => quantize_coordinate q y = Some c) y codes -> are_codes (tm_bits q) codes' -> length codes = length codes' ->
  dist2 y (levels_of q K codes) <= dist2 y (levels_of q K codes').
Proof.
  intros Hy Hc Hl. apply dist2_mono; [|unfold levels_of; by rewrite !length_map]. unfold levels_of.
  revert codes' Hc Hl. induction Hy as [|x c y codes Hx Hy IH]; intros [|c' codes'] Hc Hl; try done.
  apply Forall_cons in Hc as [Hc Hcs]. simpl. constructor; [|apply IH; [done|by injection Hl]].
  apply (quantize_best q K HK Hq x c Hx c' Hc).
Qed.
Lemma dim_power (q : @TurboQuantMse RN) : mse_ok q -> exists K, tm_dim q = (2 ^ N.of_nat K)%N.
Proof. intros [[K HK] _ _]. exists (N.to_nat K). by rewrite N2Nat.id. Qed.
Lemma mse_decode_codes (q : @TurboQuantMse RN) K (HK : tm_dim q = (2 ^ N.of_nat K)%N) (Hq : mse_ok q) bytes codes :
  len bytes = mse_bytes q -> len codes = tm_dim q -> are_codes (tm_bits q) codes ->
  unpack_codes bytes (tm_bits q) (tm_dim q) = Some codes ->
  mse_decode q bytes = Some (Ok (back K (tm_seed q) (levels_of q K codes))).
Proof.
  intros Hl Hlc Hc E. unfold mse_decode. rewrite Hl, N.eqb_refl. cbn [negb]. rewrite E. cbn [mbind option_bind].
  by rewrite (reconstruct_back q K HK Hq codes).
Qed.

(** C25: The TurboQuant code is the best one: encoding and decoding succeed, and of all the
    byte strings of the code's size none decodes to a vector closer to the direction of
    the encoded vector than its own code does (over the reals). *)
Theorem mse_encode_optimal dim nbits seed (q : @TurboQuantMse RN) (v : list R) :
  mse_new dim nbits seed = Some (Ok q) -> len v = dim ->
  exists bytes (w : list R), mse_encode q v = Some (Ok bytes) /\ mse_decode q bytes = Some (Ok w) /\
    forall bytes', len bytes' = mse_bytes q -> is_bytes bytes' ->
      exists w' : list R, mse_decode q bytes' = Some (Ok w') /\
        dist2 (unit_of (NU := RN) v (norm_of (NU := RN) v)) w <= dist2 (unit_of (NU := RN) v (norm_of (NU := RN) v)) w'.
Proof.
  intros Hnew Hv. apply mse_new_ok in Hnew as (Hq & <- & _). destruct (dim_power q Hq) as [K HK].
  set (u := unit_of (NU := RN) v (norm_of (NU := RN) v)).
  assert (Hu : length u = (2 ^ K)%nat) by (unfold u; rewrite unit_length_of, <- (tm_dim_nat q K HK); by apply len_nat).
  destruct (quantize_all q Hq (rot K (tm_seed q) u)) as (codes & Ecodes & Lc & Hc & Hbest).
  assert (Lc' : len codes = tm_dim q) by (rewrite Lc; apply nat_len; by rewrite length_rot, (tm_dim_nat q K HK)).
  destruct (pack_codes_spec codes (tm_bits q) (mk_bits q Hq) Hc) as (bytes & Ep & Lb & Bb & _).
  assert (Eb : packed_bytes (len codes) (tm_bits q) = mse_bytes q) by (rewrite Lc'; done).
  exists bytes, (back K (tm_seed q) (levels_of q K codes)). split; [|split].
  - unfold mse_encode. rewrite (check_ok (A := @num_t RN) v _ Hv). cbn [out_bind]. unfold rotate_forward. fold u.
    rewrite (rotate_unit_rot q K HK u Hu). cbn [mbind option_bind]. rewrite Ecodes. cbn [mbind option_bind].
    by rewrite <- Eb, Ep.
  - apply mse_decode_codes; [done..|by rewrite Lb|done|done|]. rewrite <- Lc'. apply unpack_pack; [apply Hq|done|done].
  - intros bytes' Hl' Hb'. destruct (unpack_codes_spec bytes' (tm_bits q) (tm_dim q) (mk_bits q Hq) Hl' Hb') as (codes' & E' & Lc2 & Hc2 & _).
    exists (back K (tm_seed q) (levels_of q K codes')). split; [by apply mse_decode_codes|].
    assert (forall c, len c = tm_dim q -> length (levels_of q K c) = (2 ^ K)%nat) as Hlv by (intros; by apply length_levels).
    rewrite !dist2_back by auto. apply dist2_levels; [done..|]. apply len_nat in Lc', Lc2. lia.
Qed.
End exact.

(** Two components, one bit each. *)
Lemma mse_encode_optimal_witness :
  exists q, mse_new (NU := RN (fun _ => 0)) 2 1 5 = Some (Ok q) /\
  exists bytes (w : list R), mse_encode (RC := no_rand) q [f32_value f32_one; f32_value f32_half] = Some (Ok bytes) /\
    mse_decode (RC := no_rand) q bytes = Some (Ok w).
Proof.
  eexists. split; [reflexivity|].
  destruct (@mse_encode_optimal (fun _ => 0) no_rand 2 1 5 _ [f32_value f32_one; f32_value f32_half] eq_refl eq_refl) as (bytes & w & E & D & _).
  exists bytes, w. by split.
Defined.
