(* ===== verification/QuantScores.v ===== *)
(** * Scores without rounding

    Over the reals, the score an encoded query gives an encoded vector from its lookup
    tables is the inner product of the query with the decoded vector
    ([score_is_decoded_product]), on every instruction set. *)

From S2P Require Import Prelude Core Floats Metrics Numeric Simd Codes Hadamard Quant QuantSearch QuantTheorems QuantExact.
From Stdlib Require Import Reals Lra Lia.

Section lookups.
Context {NU : Num}.
Definition zip_xor : list N -> list N -> list N := zip_with N.lxor.
Lemma sign_diff_table (mask encoded : list N) weights acc :
  length mask = length encoded -> length weights = length mask ->
  sign_diff mask encoded weights acc = table_sum weights (zip_xor mask encoded) acc.
Proof.
  revert encoded weights acc. induction mask as [|m mask IH]; intros [|e encoded] [|w weights] acc H1 H2; try done.
  simpl. destruct (w !! N.to_nat (N.lxor m e)); [|done]. apply IH; [by injection H1|by injection H2].
Qed.
End lookups.

Section scores.
Context (store : R -> f32) {RC : RandCrate}.
Abbreviation RN := (QuantExact.RN store).
#[local] Hint Extern 0 Num => exact (QuantExact.RN store) : typeclass_instances.
#[local] Open Scope R_scope.

(** ** Sums over bytes *)

Lemma zip_seq_sum {A} (f : nat -> A -> R) (d : A) (l : list A) :
  rsum (zip_with f (seq 0 (length l)) l) = sum_to (length l) (fun i => f i (nth i l d)).
Proof.
  induction l as [|x l IH] using rev_ind; [done|].
  rewrite length_app. simpl length. rewrite Nat.add_1_r, seq_S, zip_with_app by (by rewrite length_seq). simpl.
  rewrite rsum_app, IH, sum_to_S. f_equal.
  - apply sum_to_ext. intros i Hi. by rewrite app_nth1.
  - rewrite nth_middle. apply Rplus_0_r.
Qed.
Lemma foldl_sum {A} (g : A -> R) (step : R -> A -> R) (l : list A) z :
  (forall s x, step s x = s + g x) -> foldl step z l = z + rsum (map g l).
Proof.
  intros H. revert z. induction l as [|x l IH]; intros z; simpl; [unfold rsum; simpl; lra|].
  rewrite IH, H. unfold rsum. simpl. lra.
Qed.
(** The tables of a function of the byte's place and value. *)
Definition tables_from (entry : nat -> nat -> R) (o n : nat) : list (list R) :=
  map (fun b => map (entry b) (seq 0 256)) (seq o n).
Lemma table_sum_from entry bytes o acc :
  is_bytes bytes ->
  table_sum (NU := RN) (tables_from entry o (length bytes)) bytes acc
  = Some (acc + rsum (zip_with (fun b x => entry b (N.to_nat x)) (seq o (length bytes)) bytes)).
Proof.
  intros Hb. revert o acc. induction Hb as [|x bytes Hx _ IH]; intros o acc.
  - simpl. unfold rsum. simpl. f_equal. lra.
  - simpl length. unfold tables_from. cbn [seq map table_sum].
    assert (E : map (entry o) (seq 0 256) !! N.to_nat x = Some (entry o (N.to_nat x))).
    { rewrite map_fmap, list_lookup_fmap, lookup_seq_lt by lia. done. }
    etrans; [apply (f_equal (fun o : option R => o ≫= _) E)|]. cbn [mbind option_bind].
    etrans; [apply (IH (S o))|]. change (@nadd RN) with Rplus. unfold rsum. simpl. f_equal. lra.
Qed.
(** The value of byte [b]. *)
Definition byte (bytes : list N) (b : nat) : N := nth b bytes 0%N.
Lemma table_sum_spec entry bytes n acc :
  is_bytes bytes -> length bytes = n ->
  table_sum (NU := RN) (tables_from entry 0 n) bytes acc = Some (acc + sum_to n (fun b => entry b (N.to_nat (byte bytes b)))).
Proof. intros Hb <-. rewrite table_sum_from by done. do 2 f_equal. apply (zip_seq_sum (fun b x => entry b (N.to_nat x)) 0%N). Qed.

Lemma byte_lookup bytes b : (b < length bytes)%nat -> bytes !! b = Some (byte bytes b).
Proof. intros Hb. unfold byte. destruct (lookup_lt_is_Some_2 bytes b Hb) as [x Hx]. rewrite Hx. by erewrite nth_lookup_Some. Qed.
Lemma stream_byte bytes b k : (b < length bytes)%nat -> (k < 8)%nat ->
  stream_bit bytes (N.of_nat (b * 8 + k)) = N.testbit (byte bytes b) (N.of_nat k).
Proof.
  intros Hb Hk. unfold stream_bit. replace (N.of_nat (b * 8 + k)) with (N.of_nat k + N.of_nat b * 8)%N by lia.
  rewrite N.div_add, N.Div0.mod_add, N.div_small, N.mod_small by lia. rewrite N.add_0_l, Nat2N.id, byte_lookup by done. done.
Qed.

(** ** The sign bits *)

Lemma xor_bytes a b : is_bytes a -> is_bytes b -> is_bytes (zip_xor a b).
Proof.
  intros Ha. revert b. induction Ha as [|x a Hx _ IH]; intros [|y b] Hb; simpl; try constructor.
  - apply Forall_cons in Hb as [Hy _]. apply (small_of_bits _ 8). intros k Hk.
    rewrite N.lxor_spec, !(testbit_small _ 8) by done. done.
  - apply IH. by apply Forall_cons in Hb as [_ Hb].
Qed.
Lemma byte_xor a b i : length a = length b -> byte (zip_xor a b) i = N.lxor (byte a i) (byte b i).
Proof.
  unfold byte. revert b i. induction a as [|x a IH]; intros [|y b] [|i] Hl; try done. simpl. apply IH. by injection Hl.
Qed.
Lemma weight_entry_sum (abs : list R) b p :
  weight_entry (NU := RN) abs b p = sum_to 8 (fun k => if N.testbit (N.of_nat p) (N.of_nat k) then val abs (b * 8 + k) else 0).
Proof.
  unfold weight_entry.
  rewrite (foldl_sum (fun k => if N.testbit (N.of_nat p) (N.of_nat k) then val abs (b * 8 + k) else 0)).
  - change (@nzero RN) with (f32_value f32_zero). rewrite f32_value_zero. unfold sum_to. lra.
  - intros s k. unfold val. rewrite (Nat.mul_comm 8 b). change (@nadd RN) with Rplus.
    change (match @lookup nat R (list R) _ (b * 8 + k)%nat abs with
            | Some a => if N.testbit (N.of_nat p) (N.of_nat k) then s + a else s
            | None => s
            end = s + (if N.testbit (N.of_nat p) (N.of_nat k) then default 0 (abs !! (b * 8 + k)%nat) else 0)).
    destruct (abs !! (b * 8 + k)%nat); simpl; destruct (N.testbit _ _); lra.
Qed.
Lemma weight_tables_from (abs : list R) n : weight_tables (NU := RN) abs n = tables_from (weight_entry (NU := RN) abs) 0 (N.to_nat n).
Proof. done. Qed.

(** The magnitudes where the sign bits of the query and of the code differ. *)
Definition sign_mismatch (query : list R) (encoded : list N) (i : nat) : R :=
  if xorb (sign_bit (NU := RN) query (N.of_nat i)) (stream_bit encoded (N.of_nat i)) then Rabs (val query i) else 0.
Definition mismatches (query : list R) (encoded : list N) : R := sum_to (length query) (sign_mismatch query encoded).
Lemma val_beyond (v : list R) i : (length v <= i)%nat -> val v i = 0.
Proof. intros Hi. unfold val. by rewrite lookup_ge_None_2. Qed.
Lemma val_abs (v : list R) i : val (map Rabs v) i = Rabs (val v i).
Proof. rewrite val_map. unfold val. destruct (v !! i); simpl; [done|]. by rewrite Rabs_R0. Qed.
Lemma mask_tables (query : list R) mask encoded bytes acc :
  (len query <= 8 * bytes)%N -> len mask = bytes -> len encoded = bytes -> is_bytes mask -> is_bytes encoded ->
  (forall p, stream_bit mask p = sign_bit (NU := RN) query p) ->
  table_sum (weight_tables (NU := RN) (map nabs query) bytes) (zip_xor mask encoded) acc = Some (acc + mismatches query encoded).
Proof.
  intros Hl Hm He Bm Be Hs. assert (Lm : length mask = N.to_nat bytes) by by apply len_nat.
  assert (Le : length encoded = N.to_nat bytes) by by apply len_nat.
  rewrite weight_tables_from, table_sum_spec;
    [|by apply xor_bytes|unfold zip_xor; rewrite length_zip_with; lia]. do 2 f_equal.
  unfold mismatches. rewrite <- (sum_grouped 8 (N.to_nat bytes) (length query) (sign_mismatch query encoded)).
  - apply sum_to_ext. intros b Hb. rewrite weight_entry_sum. apply sum_to_ext. intros k Hk.
    rewrite byte_xor by lia. rewrite N2Nat.id, N.lxor_spec, <- !stream_byte by lia. rewrite Hs.
    change (map (@nabs RN) query) with (map Rabs query). by rewrite val_abs.
  - unfold len in Hl. lia.
  - intros i Hi. unfold sign_mismatch. rewrite (val_beyond _ _ Hi), Rabs_R0. by destruct (xorb _ _).
Qed.
Lemma sum_of_abs_sum (query : list R) : sum_of_abs (NU := RN) query = sum_to (length query) (fun i => Rabs (val query i)).
Proof.
  unfold sum_of_abs. rewrite (foldl_sum Rabs) by done. change (@nzero RN) with (f32_value f32_zero). rewrite f32_value_zero, Rplus_0_l.
  unfold sum_to. f_equal. apply list_val_ext; [by rewrite !length_map, length_seq|]. intros i Hi. rewrite length_map in Hi.
  rewrite val_seq by done. apply val_abs.
Qed.
(** A bit as a sign. *)
Definition bit_value (b : bool) : R := if b then 1 else -1.
Lemma signed_sum (query : list R) encoded :
  sum_of_abs (NU := RN) query - 2 * mismatches query encoded
  = sum_to (length query) (fun i => val query i * bit_value (stream_bit encoded (N.of_nat i))).
Proof.
  rewrite sum_of_abs_sum. unfold mismatches. unfold Rminus. rewrite Ropp_mult_distr_l, <- sum_to_mul, <- sum_to_plus.
  apply sum_to_ext. intros i Hi. unfold sign_mismatch, sign_bit, bit_value. rewrite Nat2N.id. unfold val.
  destruct (lookup_lt_is_Some_2 query i Hi) as [x Hx].
  replace (match @lookup nat (@num_t RN) (list (@num_t RN)) _ i query with Some x => ngeb x nzero | None => false end) with (R_geb x 0).
  2: { symmetry. etrans; [apply (f_equal (fun o : option R => match o with Some x => R_geb x (f32_value f32_zero) | None => false end) Hx)|]. by rewrite f32_value_zero. }
  rewrite Hx. simpl. unfold R_geb. destruct (Rle_dec 0 x), (stream_bit _ _); simpl; rewrite ?Rabs_pos_eq, ?Rabs_left1 by lra; lra.
Qed.

(** ** Scalar *)

Lemma hsum_sum (acc : list R) : length acc = 8%nat -> hsum256_ps (NU := RN) acc = rsum acc.
Proof.
  intros Hl. do 9 (destruct acc as [|? acc]; try done). unfold hsum256_ps, rsum. change (@nadd RN) with Rplus. simpl. lra.
Qed.
Abbreviation lanes := (partial store (avx2_style (NU := RN))).
(** An AVX2 loop over eight terms at a time, and the rest one by one. *)
Lemma two_loops (c : list R) dim body1 body2 :
  length c = dim ->
  (forall i acc, (i + 8 <= dim)%nat -> lanes c i acc ->
     exists acc', body1 i acc = Some acc' /\ lanes c (i + 8) acc') ->
  (forall i s, (i + 1 <= dim)%nat -> summed c i s -> exists s', body2 i s = Some s' /\ summed c (i + 1) s') ->
  ('(i, acc) ← strides dim 8 dim 0 body1 (splat (NU := RN) 8 nzero);
   '(_, s) ← strides dim 1 dim i body2 (hsum256_ps (NU := RN) acc); Some s) = Some (rsum c).
Proof.
  intros Hc H1 H2. apply (strides_bind _ _ _ (lanes c));
    [lia|done|apply Nat.le_0_l|apply Nat.le_sub_l|apply (partial_zero store avx2_style)|].
  intros j acc Hp Hj. apply (strides_bind _ _ _ (summed c)); [lia|done|apply Hj|apply Nat.le_sub_l| |].
  - destruct Hp as [L Hs]. unfold summed. by rewrite hsum_sum.
  - intros k s Hs Hk. f_equal. by apply (summed_all c k s dim).
Qed.
Lemma avx2_partial (a b : list R) i acc :
  (i + 8 <= length a)%nat -> length b = length a -> lanes (zip_with Rmult a b) i acc ->
  lanes (zip_with Rmult a b) (i + 8) (lane_fma (NU := RN) (take 8 (drop i a)) (take 8 (drop i b)) acc).
Proof. intros Hi Hb. apply (partial_step store avx2_style); try done. by apply (style_of_ok store Avx2Fma). Qed.

Lemma load8 (v : list (@num_t RN)) i : (i + 8 <= length v)%nat -> loadu 8 v i = Some (take 8 (drop i v)).
Proof. intros Hi. by apply (loadu_in store). Qed.
Abbreviation value mn sc := (code_value (NU := RN) mn sc).
Lemma codes_fma_value (codes : list N) (mn sc : R) : length codes = 8%nat ->
  codes_fma (NU := RN) (map of_int codes) mn sc = map (value mn sc) codes.
Proof.
  intros Hl. unfold codes_fma, splat. rewrite <- Hl. clear Hl. unfold lane_fma. induction codes as [|c codes IH]; [done|].
  cbn [length replicate map zip_with]. f_equal; [|exact IH]. unfold code_value.
  change (@nadd RN) with Rplus. change (@nmul RN) with Rmult. change (@nfma RN) with (fun a b c => a * b + c). simpl. lra.
Qed.
Lemma take_within {A} (l : list A) base dim j w : (j + w <= dim)%nat ->
  take w (drop j (take dim (drop base l))) = take w (drop (base + j) l).
Proof.
  intros H. rewrite skipn_firstn_comm, take_take, drop_drop. f_equal; lia.
Qed.
(** Eight codes from [base + j]. *)
Lemma load_values encoded base dim j (mn sc : R) :
  (base + dim <= length encoded)%nat -> (j + 8 <= dim)%nat ->
  exists codes, load_codes (NU := RN) encoded (base + j) = Some codes /\
    codes_fma (NU := RN) codes mn sc = take 8 (drop j (map (value mn sc) (take dim (drop base encoded)))).
Proof.
  intros Hb Hj. unfold load_codes. rewrite (proj2 (Nat.leb_le _ _)) by lia. eexists. split; [done|].
  rewrite codes_fma_value by (rewrite length_take, length_drop; lia).
  by rewrite !map_fmap, <- fmap_drop, <- fmap_take, take_within.
Qed.
Definition scalar_values (mn sc : R) (encoded : list N) (base dim : nat) : list R := map (value mn sc) (take dim (drop base encoded)).
Lemma scalar_values_at mn sc encoded base dim i c :
  (i < dim)%nat -> encoded !! (base + i)%nat = Some c -> scalar_values mn sc encoded base dim !! i = Some (value mn sc c).
Proof.
  intros Hi Hc. unfold scalar_values. rewrite map_fmap, list_lookup_fmap, lookup_take_lt, lookup_drop by done. by rewrite Hc.
Qed.
Lemma length_values mn sc encoded base dim : (base + dim <= length encoded)%nat -> length (scalar_values mn sc encoded base dim) = dim.
Proof. intros H. unfold scalar_values. rewrite length_map, length_take, length_drop. lia. Qed.
Lemma rest_step (query : list R) mn sc encoded base i s :
  (base + length query <= length encoded)%nat -> (i + 1 <= length query)%nat ->
  summed (zip_with Rmult query (scalar_values mn sc encoded base (length query))) i s ->
  exists x c, query !! i = Some x /\ encoded !! (base + i)%nat = Some c /\
    summed (zip_with Rmult query (scalar_values mn sc encoded base (length query))) (i + 1) (s + x * value mn sc c).
Proof.
  intros Hb Hi Hs. destruct (lookup_lt_is_Some_2 query i) as [x Hx]; [lia|].
  destruct (lookup_lt_is_Some_2 encoded (base + i)) as [c Hc]; [lia|]. exists x, c. split_and!; [done..|].
  apply summed_step; [|done]. apply zip_at; [done|]. apply scalar_values_at; [lia|done].
Qed.
Lemma batch_one_exact (query : list R) encoded mn sc base :
  (base + length query <= length encoded)%nat ->
  batch_avx2_one (NU := RN) query encoded mn sc base = Some (rdot query (scalar_values mn sc encoded base (length query))).
Proof.
  intros Hb. pose proof (length_values mn sc _ _ _ Hb) as Lv. apply two_loops; [rewrite length_zip_with; unfold num_t, QuantExact.RN, Reals in *; lia| |].
  - intros i acc Hi Hp. rewrite (load8 query i Hi). cbn [mbind option_bind].
    destruct (load_values encoded base (length query) i mn sc Hb Hi) as (codes & -> & Ec). cbn [mbind option_bind].
    rewrite Ec. eexists. split; [done|]. apply avx2_partial; done.
  - intros i s Hi Hs. destruct (rest_step query mn sc encoded base i s Hb Hi Hs) as (x & c & Hx & Hc & Hn).
    exists (s + x * value mn sc c). split; [|done]. etrans; [apply (f_equal (fun o : option R => o ≫= _) Hx)|].
    cbn [mbind option_bind]. by rewrite Hc.
Qed.
Lemma scalar_avx2_exact (query : list R) encoded mn sc : length encoded = length query ->
  scalar_quantized_dot_avx2 (NU := RN) query encoded mn sc = Some (rdot query (map (value mn sc) encoded)).
Proof.
  intros Hl. unfold scalar_quantized_dot_avx2. rewrite Hl, Nat.min_id.
  assert (Ev : map (value mn sc) encoded = scalar_values mn sc encoded 0 (length query)).
  { unfold scalar_values. by rewrite drop_0, <- Hl, firstn_all. }
  assert (Hb : (0 + length query <= length encoded)%nat) by lia.
  rewrite Ev. pose proof (length_values mn sc _ _ _ Hb) as Lv. apply two_loops; [rewrite length_zip_with; unfold num_t, QuantExact.RN, Reals in *; lia| |].
  - intros i acc Hi Hp. destruct (load_values encoded 0 (length query) i mn sc Hb Hi) as (codes & El & Ec).
    change (0 + i)%nat with i in El. rewrite El. cbn [mbind option_bind].
    rewrite (load8 query i Hi). cbn [mbind option_bind].
    rewrite Ec. eexists. split; [done|]. apply avx2_partial; done.
  - intros i s Hi Hs. destruct (rest_step query mn sc encoded 0 i s Hb Hi Hs) as (x & c & Hx & Hc & Hn).
    exists (s + x * value mn sc c). split; [|done]. change (0 + i)%nat with i in Hc. rewrite Hc. cbn [mbind option_bind].
    by etrans; [apply (f_equal (fun o : option R => o ≫= _) Hx)|].
Qed.
Lemma scalar_loop_exact (query : list R) encoded mn sc s : length encoded = length query ->
  scalar_dot_loop (NU := RN) query encoded mn sc s = Some (s + rdot query (map (value mn sc) encoded)).
Proof.
  revert encoded s. induction query as [|x query IH]; intros [|c encoded] s Hl; try done.
  - cbn [scalar_dot_loop]. unfold rdot, rsum. simpl. f_equal. lra.
  - cbn [scalar_dot_loop]. rewrite IH by (by injection Hl). change (@nadd RN) with Rplus. change (@nmul RN) with Rmult.
    unfold rdot, rsum. simpl. f_equal. lra.
Qed.
Lemma scalar_portable_exact (query : list R) encoded mn sc : length encoded = length query ->
  scalar_quantized_dot_scalar (NU := RN) query encoded mn sc = Some (rdot query (map (value mn sc) encoded)).
Proof.
  intros Hl. unfold scalar_quantized_dot_scalar. rewrite scalar_loop_exact by done. change (@nzero RN) with (f32_value f32_zero).
  by rewrite f32_value_zero, Rplus_0_l.
Qed.

Lemma f32_value_epsilon : f32_value 0x34000000 = / 8388608.
Proof.
  change (f32_value 0x34000000) with (IZR 8388608 * powerRZ 2 (-46)). simpl powerRZ. change (Pos.to_nat 46) with 46%nat. simpl. lra.
Qed.
Lemma levels_at_least_one q : 1 <= sq_levels (NU := RN) q.
Proof.
  unfold sq_levels. change (@of_int RN) with R_of_N. unfold R_of_N. apply IZR_le. lia.
Qed.
Definition scalar_scale (q : @ScalarQuantizer RN) : R := (sq_max q - sq_min q) / sq_levels q.
Lemma scalar_query_ok (q : @ScalarQuantizer RN) query : len query = sq_dim q ->
  scalar_query query q = Some (Ok {| se_dim := sq_dim q; se_query := query; se_min := sq_min q; se_scale := scalar_scale q |}).
Proof.
  intros Hq. unfold scalar_query. rewrite (check_ok _ _ Hq). cbn [out_bind].
  pose proof (levels_at_least_one q) as Hl. unfold nltb. change (@ngtb RN) with R_gtb. change (@lit RN) with f32_value.
  rewrite f32_value_epsilon. unfold R_gtb. destruct (Rlt_dec _ _) as [Hlt|]; [|done].
  exfalso. pose proof (Rle_lt_trans _ _ _ Hl Hlt). lra.
Qed.
Lemma decode_value (q : @ScalarQuantizer RN) c : decode_coordinate q c = value (sq_min q) (scalar_scale q) c.
Proof.
  unfold decode_coordinate, code_value, scalar_scale. pose proof (levels_at_least_one q) as Hl.
  change (@neqb RN) with R_eqb. unfold R_eqb. change (@nzero RN) with (f32_value f32_zero). rewrite f32_value_zero.
  destruct (Req_dec_T _ _) as [E|]; [|done]. exfalso. rewrite E in Hl. lra.
Qed.
Lemma scalar_exact isa (q : @ScalarQuantizer RN) (query : list R) : len query = sq_dim q ->
  exists e, scalar_query query q = Some (Ok e) /\ forall encoded, len encoded = sq_dim q ->
    exists w : list R, sq_decode q encoded = Some (Ok w) /\ scalar_score isa e encoded = Some (rdot query w).
Proof.
  intros Hq. eexists. split; [by apply scalar_query_ok|]. intros encoded He. eexists. split.
  { unfold sq_decode. by rewrite (check_ok _ _ He). }
  unfold scalar_score. cbn [se_dim se_query se_min se_scale]. rewrite He, N.ltb_irrefl.
  assert (Hl : length encoded = length query) by (unfold len in *; lia).
  rewrite <- (N2Nat.id (sq_dim q)), <- He, take_ge by (unfold len; lia).
  rewrite (map_ext _ _ (decode_value q)). destruct isa; [by apply scalar_avx2_exact|by apply scalar_portable_exact..].
Qed.

(** ** Sign *)

Lemma two_value : @two RN = 2.
Proof. apply f32_value_two. Qed.
Lemma zero_value : @nzero RN = 0.
Proof. apply f32_value_zero. Qed.
Lemma sign_decoded (query : list R) encoded dim : len query = dim -> len encoded = bytes_per_vector dim ->
  exists w : list R, sign_decode dim encoded = Some (Ok w) /\
    rdot query w = sum_to (length query) (fun i => val query i * bit_value (stream_bit encoded (N.of_nat i))).
Proof.
  intros Hq He. destruct (sign_decode_ok dim encoded He) as (w & E & L & Hw). exists w. split; [exact E|].
  apply len_nat in L, Hq. rewrite (rdot_sum (length query)); [|done|by etrans; [exact L|rewrite Hq]]. apply sum_to_ext. intros i Hi. f_equal.
  rewrite Hw. etrans; [apply val_seq; lia|]. unfold bit_value.
  change (@none_ RN) with (f32_value f32_one). change (@nneg RN) with Ropp. by rewrite f32_value_one.
Qed.
Lemma sign_query_ok (query : list R) dim : len query = dim ->
  exists mask, len mask = bytes_per_vector dim /\ is_bytes mask /\ (forall p, stream_bit mask p = sign_bit (NU := RN) query p) /\
    sign_query query dim = Some (Ok {| sg_mask := mask; sg_weights := weight_tables (NU := RN) (map nabs query) (bytes_per_vector dim);
                                       sg_sum_abs := sum_of_abs (NU := RN) query |}).
Proof.
  intros Hq. destruct (signs_ok (NU := RN) query (bytes_per_vector dim)) as (mask & E & L & B & S);
    [etrans; [apply N.eq_le_incl, Hq|apply bytes_room]|].
  exists mask. split_and!; [done..|]. unfold sign_query. rewrite (check_ok (A := @num_t RN) _ _ Hq). cbn [out_bind]. by rewrite E.
Qed.
Lemma mask_diff (query : list R) dim mask encoded acc :
  len query = dim -> len mask = bytes_per_vector dim -> len encoded = bytes_per_vector dim -> is_bytes mask -> is_bytes encoded ->
  (forall p, stream_bit mask p = sign_bit (NU := RN) query p) ->
  sign_diff mask encoded (weight_tables (NU := RN) (map nabs query) (bytes_per_vector dim)) acc = Some (acc + mismatches query encoded).
Proof.
  intros Hq Lm Le Bm Be Hs. rewrite sign_diff_table.
  - apply mask_tables; try done. rewrite Hq. apply bytes_room.
  - unfold len in *. lia.
  - unfold weight_tables. rewrite length_map, length_seq. unfold len in *. lia.
Qed.
Lemma sign_exact (query : list R) dim : len query = dim ->
  exists e, sign_query query dim = Some (Ok e) /\ forall encoded, len encoded = bytes_per_vector dim -> is_bytes encoded ->
    exists w : list R, sign_decode dim encoded = Some (Ok w) /\ sign_score e encoded = Some (rdot query w).
Proof.
  intros Hq. destruct (sign_query_ok query dim Hq) as (mask & L & B & S & E). eexists. split; [exact E|]. intros encoded He Be.
  destruct (sign_decoded query encoded dim Hq He) as (w & Ew & Hw). exists w. split; [exact Ew|].
  unfold sign_score. cbn [sg_mask sg_weights sg_sum_abs].
  rewrite (mask_diff query dim mask encoded) by done. cbn [mbind option_bind]. f_equal. rewrite Hw, <- signed_sum.
  rewrite zero_value, two_value. change (@nsub RN) with Rminus. change (@nmul RN) with Rmult. by rewrite Rplus_0_l.
Qed.

(** ** Tables of code values *)

Lemma concat_lookup {A} (L : nat) (rows : list (list A)) j c row :
  Forall (fun r => length r = L) rows -> rows !! j = Some row -> (c < L)%nat -> concat rows !! (j * L + c)%nat = row !! c.
Proof.
  intros H. revert j. induction H as [|r rows Hr _ IH]; intros [|j] Hj Hc; simpl in *; try done.
  - injection Hj as ->. rewrite lookup_app_l by lia. done.
  - rewrite lookup_app_r by lia. replace (L + j * L + c - length r)%nat with (j * L + c)%nat by lia. by apply IH.
Qed.
Lemma mapM_map {A B} (f : A -> option B) (g : A -> B) l : (forall x, x ∈ l -> f x = Some (g x)) -> mapM f l = Some (map g l).
Proof.
  induction l as [|x l IH]; intros H; simpl; [done|]. rewrite H by set_solver. simpl. rewrite IH by set_solver. done.
Qed.
Lemma fold_lookups (look : nat -> option R) (f : nat -> R) m z :
  (forall k, (k < m)%nat -> look k = Some (f k)) ->
  foldl (fun acc k => s ← acc; x ← look k; Some (nadd (Num := RN) s x)) (Some z) (seq 0 m) = Some (z + sum_to m f).
Proof.
  intros H. induction m as [|m IH]; [unfold sum_to, rsum; simpl; f_equal; lra|].
  rewrite seq_S, foldl_app, IH by (intros; apply H; lia). simpl. rewrite H by lia. simpl. rewrite sum_to_S.
  change (@nadd RN) with Rplus. f_equal. lra.
Qed.
Lemma code_mask_land x n : (0 < n <= 8)%N -> (N.land x (code_mask n) < 2 ^ n)%N.
Proof.
  intros Hn. assert (E : code_mask n = N.ones n).
  { unfold code_mask. rewrite N.ones_equiv, <- N.sub_1_r. apply N.mod_small.
    assert (2 ^ n <= 2 ^ 8)%N by (apply N.pow_le_mono_r; lia). change (2 ^ 8)%N with 256%N in *.
    assert (0 < 2 ^ n)%N by (apply N.neq_0_lt_0, N.pow_nonzero; lia). lia. }
  rewrite E, N.land_ones. apply N.mod_lt, N.pow_nonzero. lia.
Qed.

(** Codes whose width divides a byte, summed byte by byte. *)
Definition code_in (bits : N) (x : N) (k : nat) : N := N.land (N.shiftr x (N.of_nat k * bits)) (code_mask bits).
Lemma unpack_lookup encoded bits dim codes i : unpack_codes encoded bits dim = Some codes -> (i < N.to_nat dim)%nat ->
  unpack_code encoded bits (N.of_nat i) = codes !! i.
Proof.
  intros Hu Hi. symmetry. unfold unpack_codes in Hu. apply mapM_Some_1 in Hu.
  destruct (lookup_lt_is_Some_2 (map N.of_nat (seq 0 (N.to_nat dim))) i) as [j Hj]; [by rewrite length_map, length_seq|].
  destruct (Forall2_lookup_l _ _ _ _ _ Hu Hj) as (c & Hc & E). rewrite Hc, <- E. f_equal.
  rewrite map_fmap, list_lookup_fmap, lookup_seq_lt in Hj by lia. simpl in Hj. congruence.
Qed.
Lemma bytes_codes (f : nat -> N -> R) bits per dim encoded codes :
  (per * N.to_nat bits = 8)%nat -> len encoded = packed_bytes dim bits -> unpack_codes encoded bits dim = Some codes ->
  (forall i c, (N.to_nat dim <= i)%nat -> f i c = 0) ->
  sum_to (N.to_nat (packed_bytes dim bits)) (fun b => sum_to per (fun k => f (b * per + k)%nat (code_in bits (byte encoded b) k)))
  = sum_to (N.to_nat dim) (fun i => f i (nth i codes 0%N)).
Proof.
  intros Hper Hl Hu Hz. rewrite <- (sum_grouped per (N.to_nat (packed_bytes dim bits)) _ (fun i => f i (nth i codes 0%N))).
  - apply sum_to_ext. intros b Hbb. apply sum_to_ext. intros k Hk.
    destruct (Nat.le_gt_cases (N.to_nat dim) (b * per + k)) as [Hge|Hlt]; [by rewrite !Hz|]. f_equal.
    pose proof (unpack_lookup _ _ _ _ _ Hu Hlt) as Hcode.
    replace (N.of_nat (b * per + k)) with (N.of_nat b * N.of_nat per + N.of_nat k)%N in Hcode by lia.
    rewrite (unpack_within encoded bits (N.of_nat per) (N.of_nat b) (N.of_nat k) (byte encoded b)) in Hcode; [|lia|lia|lia|].
    + symmetry. by erewrite nth_lookup_Some by (symmetry; exact Hcode).
    + rewrite Nat2N.id. apply byte_lookup. unfold len in Hl. lia.
  - unfold packed_bytes. pose proof (N.div_mod (dim * bits + 7) 8 ltac:(lia)) as Hdm.
    pose proof (N.mod_lt (dim * bits + 7) 8 ltac:(lia)) as Hml. nia.
  - intros i Hi. by apply Hz.
Qed.

Section code_tables.
Context (q : @TurboQuantMse RN) (K : nat) (HK : tm_dim q = (2 ^ N.of_nat K)%N) (Hq : mse_ok q).
Context (rotated : list R) (Hrot : length rotated = (2 ^ K)%nat).
Abbreviation cent := (centroid_at (NU := RN) q).
Abbreviation levels := (2 ^ tm_bits q)%N.
(** Component [i] of the rotated query times the value of code [c]. *)
Definition term (i : nat) (c : N) : R := val rotated i * (cent c * unitary store K).
Definition lut_ok (lut : list R) : Prop :=
  forall j c, (j < 2 ^ K)%nat -> (c < levels)%N -> lut !! N.to_nat (N.of_nat j * levels + c) = Some (term j c).
Lemma code_lut_ok : exists lut : list R, code_lut rotated (tm_centroids q) (centroid_scale q) levels = Some lut /\ lut_ok lut.
Proof.
  unfold code_lut. pose proof (mk_centroids q Hq) as Hc. rewrite Hc, N.ltb_irrefl. eexists. split; [done|].
  rewrite take_ge by (unfold len in Hc; lia). intros j c Hj Hlt.
  destruct (lookup_lt_is_Some_2 rotated j) as [x Hx]; [lia|].
  replace (N.to_nat (N.of_nat j * levels + c)) with (j * N.to_nat levels + N.to_nat c)%nat by lia.
  erewrite concat_lookup; [|apply Forall_fmap, Forall_forall; intros y _; simpl; rewrite length_map; by apply len_nat
    |rewrite map_fmap, list_lookup_fmap; etrans; [apply (f_equal (fmap _) Hx)|reflexivity]|lia].
  rewrite map_fmap, list_lookup_fmap. destruct (lookup_lt_is_Some_2 (tm_centroids q) (N.to_nat c)) as [y Hy]; [unfold len in Hc; lia|].
  rewrite Hy. cbn [fmap option_fmap option_map]. f_equal. unfold term, centroid_at. rewrite (val_in _ _ _ Hx). erewrite nth_lookup_Some by exact Hy.
  rewrite (centroid_scale_unitary store q K HK). apply Rmult_assoc.
Qed.
Definition code_sum (codes : list N) : R := sum_to (2 ^ K)%nat (fun i => term i (nth i codes 0%N)).
Lemma code_sum_rdot codes : len codes = tm_dim q -> code_sum codes = rdot rotated (levels_of store q K codes).
Proof.
  intros Hl. rewrite (rdot_sum (2 ^ K)%nat) by (done || by apply length_levels). apply sum_to_ext. intros i Hi. unfold term. f_equal.
  unfold levels_of. rewrite val_map. apply len_nat in Hl. rewrite (tm_dim_nat store q K HK) in Hl.
  destruct (lookup_lt_is_Some_2 codes i) as [c Hc]; [lia|]. rewrite Hc. by erewrite nth_lookup_Some.
Qed.
Lemma lut_sum_from lut codes o acc : lut_ok lut -> are_codes (tm_bits q) codes -> (o + length codes <= 2 ^ K)%nat ->
  lut_sum lut levels codes (N.of_nat o) acc = Some (acc + rsum (zip_with term (seq o (length codes)) codes)).
Proof.
  intros Hlut Hc. revert o acc. induction Hc as [|c codes Hc _ IH]; intros o acc Ho; simpl in Ho |- *.
  - unfold rsum. simpl. f_equal. lra.
  - etrans; [apply (f_equal (fun x : option R => x ≫= _) (Hlut o c ltac:(lia) Hc))|]. simpl.
    replace (N.of_nat o + 1)%N with (N.of_nat (S o)) by lia. etrans; [apply IH; lia|]. unfold rsum. simpl. f_equal. lra.
Qed.
Lemma lut_sum_ok lut codes acc : lut_ok lut -> are_codes (tm_bits q) codes -> len codes = tm_dim q ->
  lut_sum lut levels codes 0 acc = Some (acc + code_sum codes).
Proof.
  intros Hlut Hc Hl. apply len_nat in Hl. rewrite (tm_dim_nat store q K HK) in Hl.
  rewrite (lut_sum_from lut codes 0) by (done || lia). do 2 f_equal. rewrite (zip_seq_sum term 0%N), Hl. done.
Qed.

(** *** Codes that divide a byte *)

Definition byte_entry (per b x : nat) : R := sum_to per (fun k => term (b * per + k) (code_in (tm_bits q) (N.of_nat x) k)).
Lemma term_beyond i c : (2 ^ K <= i)%nat -> term i c = 0.
Proof. intros Hi. unfold term. rewrite val_beyond by lia. lra. Qed.
Lemma byte_weight_ok lut per b x : lut_ok lut -> (per * N.to_nat (tm_bits q) = 8)%nat -> (b * per <= 2 ^ K)%nat ->
  byte_weight lut levels (tm_bits q) (tm_dim q) b x = Some (byte_entry per b x).
Proof.
  intros Hlut Hper Hb. unfold byte_weight, byte_entry. pose proof (mk_bits q Hq) as Hbits.
  assert (E8 : (8 / tm_bits q)%N = N.of_nat per) by (symmetry; apply N.div_unique with (r := 0%N); lia). rewrite E8.
  assert (Hd : tm_dim q = N.of_nat (2 ^ K)) by (rewrite <- (tm_dim_nat store q K HK); lia). rewrite Hd.
  set (m := N.to_nat (N.min (N.of_nat per) (N.of_nat (2 ^ K) - N.of_nat b * N.of_nat per))).
  assert (Hm : (m = per `min` (2 ^ K - b * per))%nat) by lia.
  replace (sum_to per _) with (@nzero RN + sum_to m (fun k => term (b * per + k) (code_in (tm_bits q) (N.of_nat x) k))).
  - apply (fold_lookups (fun k => lut !! N.to_nat ((N.of_nat b * N.of_nat per + N.of_nat k) * levels + code_in (tm_bits q) (N.of_nat x) k))).
    intros k Hk. rewrite <- Hlut; [f_equal; lia|lia|apply code_mask_land; done].
  - rewrite zero_value, Rplus_0_l. assert (Es : forall f, sum_to per f = sum_to (m + (per - m)) f) by (intros f; f_equal; lia).
    rewrite Es, sum_to_add.
    rewrite (sum_to_zero (per - m)); [lra|]. intros k Hk. apply term_beyond. lia.
Qed.
Lemma byte_tables_ok lut : lut_ok lut ->
  exists tables : list (list R), byte_tables lut levels (tm_bits q) (tm_dim q) (mse_bytes q) = Some tables /\
    (tables = [] \/ exists per, (per * N.to_nat (tm_bits q) = 8)%nat /\ tables = tables_from (byte_entry per) 0 (N.to_nat (mse_bytes q))).
Proof.
  intros Hlut. unfold byte_tables. pose proof (mk_bits q Hq) as Hbits.
  destruct (N.eqb_spec (8 mod tm_bits q) 0) as [Hmod|]; [|rewrite andb_false_r; exists []; split; [done|by left]].
  rewrite (proj2 (N.eqb_neq _ _)) by lia. cbn [negb andb].
  set (per := N.to_nat (8 / tm_bits q)). assert (Hper : (per * N.to_nat (tm_bits q) = 8)%nat).
  { pose proof (N.div_mod 8 (tm_bits q) ltac:(lia)). unfold per. nia. }
  exists (tables_from (byte_entry per) 0 (N.to_nat (mse_bytes q))). split; [|right; by exists per].
  apply (mapM_map (B := list R)). intros b Hb. apply mapM_map. intros x _. apply (byte_weight_ok lut per b x Hlut Hper).
  apply elem_of_seq in Hb. unfold mse_bytes, packed_bytes in Hb.
  pose proof (N.div_mod (tm_dim q * tm_bits q + 7) 8 ltac:(lia)) as Hdm. rewrite <- (tm_dim_nat store q K HK).
  destruct (Nat.le_gt_cases (b * per) (N.to_nat (tm_dim q))) as [|Hgt]; [done|exfalso].
  assert (H1 : (N.to_nat (tm_dim q) + 1 <= b * per)%nat) by lia.
  assert (H2 : (N.to_nat (tm_dim q) * N.to_nat (tm_bits q) + N.to_nat (tm_bits q) <= b * 8)%nat) by (rewrite <- Hper; nia).
  assert (H3 : (8 * b <= N.to_nat (tm_dim q) * N.to_nat (tm_bits q))%nat); [|lia].
  pose proof (N.mod_lt (tm_dim q * tm_bits q + 7) 8 ltac:(lia)) as Hml. rewrite <- N2Nat.inj_mul.
  clear -Hb Hdm Hml. set (p := (tm_dim q * tm_bits q)%N) in *. set (d := ((p + 7) / 8)%N) in *. set (r := ((p + 7) mod 8)%N) in *. lia.
Qed.
Lemma tables_ok per encoded codes acc : (per * N.to_nat (tm_bits q) = 8)%nat ->
  len encoded = mse_bytes q -> is_bytes encoded -> unpack_codes encoded (tm_bits q) (tm_dim q) = Some codes ->
  table_sum (NU := RN) (tables_from (byte_entry per) 0 (N.to_nat (mse_bytes q))) encoded acc = Some (acc + code_sum codes).
Proof.
  intros Hper Hl Hb Hu. rewrite table_sum_spec by (done || by apply len_nat). do 2 f_equal. unfold code_sum.
  rewrite <- (tm_dim_nat store q K HK). rewrite <- (bytes_codes term (tm_bits q) per (tm_dim q) encoded codes Hper Hl Hu).
  - apply sum_to_ext. intros b _. unfold byte_entry. by rewrite N2Nat.id.
  - intros i c Hi. apply term_beyond. by rewrite <- (tm_dim_nat store q K HK).
Qed.
(** The score the tables give, or the codes one by one where there are no tables. *)
Lemma code_score_ok : exists (lut : list R) (tables : list (list R)),
  code_lut rotated (tm_centroids q) (centroid_scale q) levels = Some lut /\
  byte_tables lut levels (tm_bits q) (tm_dim q) (mse_bytes q) = Some tables /\
  lut_ok lut /\ (tables <> [] -> len tables = mse_bytes q) /\
  forall encoded codes acc, len encoded = mse_bytes q -> is_bytes encoded ->
    unpack_codes encoded (tm_bits q) (tm_dim q) = Some codes ->
    len codes = tm_dim q -> are_codes (tm_bits q) codes ->
    lut_sum lut levels codes 0 acc = Some (acc + rdot rotated (levels_of store q K codes)) /\
    (tables <> [] -> table_sum tables encoded acc = Some (acc + rdot rotated (levels_of store q K codes))).
Proof.
  destruct code_lut_ok as (lut & El & Hlut). destruct (byte_tables_ok lut Hlut) as (tables & Et & Hcase).
  exists lut, tables. split_and!; [done..| |].
  { intros Hne. destruct Hcase as [->|(per & _ & ->)]; [done|]. unfold tables_from, len. rewrite length_map, length_seq. lia. }
  intros encoded codes acc Hl Hb Hu Hlc Hc. rewrite <- code_sum_rdot by done. split.
  - by apply lut_sum_ok.
  - intros Hne. destruct Hcase as [->|(per & Hper & ->)]; [done|]. by apply tables_ok.
Qed.
End code_tables.
(** ** TurboQuant *)

(** An encoded vector of the mean-squared-error codec: its codes and what they decode to. *)
Lemma mse_codes (q : @TurboQuantMse RN) K (HK : tm_dim q = (2 ^ N.of_nat K)%N) (Hq : mse_ok q) encoded :
  len encoded = mse_bytes q -> is_bytes encoded ->
  exists codes, unpack_codes encoded (tm_bits q) (tm_dim q) = Some codes /\ len codes = tm_dim q /\ are_codes (tm_bits q) codes /\
    mse_reconstruct q codes = Some (back store K (tm_seed q) (levels_of store q K codes)).
Proof.
  intros Hl Hb. destruct (unpack_codes_spec encoded (tm_bits q) (tm_dim q) (mk_bits q Hq) Hl Hb) as (codes & E & L & C & _).
  exists codes. split_and!; [done..|]. by apply reconstruct_back.
Qed.
(** What the tables of a rotated query compute. *)
Lemma query_tables (q : @TurboQuantMse RN) K (HK : tm_dim q = (2 ^ N.of_nat K)%N) (Hq : mse_ok q) (query : list R) :
  len query = tm_dim q -> exists (rotated lut : list R) (tables : list (list R)),
  rotate_query q query = Some rotated /\ length rotated = (2 ^ K)%nat /\
  code_lut rotated (tm_centroids q) (centroid_scale q) (2 ^ tm_bits q) = Some lut /\
  byte_tables lut (2 ^ tm_bits q) (tm_bits q) (tm_dim q) (mse_bytes q) = Some tables /\
  lut_ok q K rotated lut /\ (tables <> [] -> len tables = mse_bytes q) /\
  forall encoded codes acc, len encoded = mse_bytes q -> is_bytes encoded ->
    unpack_codes encoded (tm_bits q) (tm_dim q) = Some codes -> len codes = tm_dim q -> are_codes (tm_bits q) codes ->
    rdot rotated (levels_of store q K codes) = rdot query (back store K (tm_seed q) (levels_of store q K codes)) /\
    lut_sum lut (2 ^ tm_bits q) codes 0 acc = Some (acc + rdot rotated (levels_of store q K codes)) /\
    (tables <> [] -> table_sum tables encoded acc = Some (acc + rdot rotated (levels_of store q K codes))).
Proof.
  intros Hl. apply len_nat in Hl. rewrite (tm_dim_nat store q K HK) in Hl.
  set (rotated := rot store K (tm_seed q) query). assert (Hrot : length rotated = (2 ^ K)%nat) by apply length_rot.
  destruct (code_score_ok q K HK Hq rotated Hrot) as (lut & tables & El & Et & Hlut & Hlen & Hs).
  exists rotated, lut, tables. split; [by apply rotate_unit_rot|]. split_and!; [done..|].
  intros encoded codes acc H1 H2 H3 H4 H5. split; [|by apply Hs]. apply rot_adjoint; [done|].
  by apply length_levels.
Qed.
Lemma mse_exact (q : @TurboQuantMse RN) (Hq : mse_ok q) (query : list R) : len query = tm_dim q ->
  exists e, mse_query q query = Some (Ok e) /\ forall encoded, len encoded = mse_bytes q -> is_bytes encoded ->
    exists w : list R, mse_decode q encoded = Some (Ok w) /\ mse_score e encoded = Some (rdot query w).
Proof.
  intros Hl. destruct (dim_power store q Hq) as [K HK].
  destruct (query_tables q K HK Hq query Hl) as (rotated & lut & tables & Er & Hrot & El & Et & _ & _ & Hs).
  eexists. split.
  { unfold mse_query. rewrite (check_ok (A := @num_t RN) _ _ Hl). cbn [out_bind]. rewrite Er. cbn [mbind option_bind].
    rewrite El. cbn [mbind option_bind]. rewrite Et. cbn [mbind option_bind]. reflexivity. }
  intros encoded He Hb. destruct (mse_codes q K HK Hq encoded He Hb) as (codes & Eu & Lc & Cc & Erec).
  exists (back store K (tm_seed q) (levels_of store q K codes)). split; [by apply mse_decode_codes|].
  unfold mse_score. cbn [me_bytes me_byte_weights me_bits me_dim me_lut me_levels]. rewrite He, N.eqb_refl. cbn [negb].
  destruct (Hs encoded codes (@nzero RN) He Hb Eu Lc Cc) as (Hr & H1 & _).
  destruct (Hs encoded codes (@lit RN f32_neg_zero) He Hb Eu Lc Cc) as (_ & _ & H2). rewrite <- Hr.
  destruct tables as [|t tables].
  - rewrite Eu. cbn [mbind option_bind]. rewrite H1, zero_value. f_equal. lra.
  - etrans; [exact (H2 ltac:(done))|]. f_equal. change (@lit RN) with f32_value. rewrite f32_value_neg_zero. lra.
Qed.

(** *** The signs of the residual *)

Lemma qjl_table (mask : list N) (weights : list (list R)) bytes acc s t :
  length mask = length bytes -> length weights = length bytes ->
  table_sum (NU := RN) weights (zip_xor bytes mask) s = Some t -> qjl_loop (NU := RN) mask weights bytes acc = Some (acc - 2 * (t - s)).
Proof.
  revert mask weights acc s. induction bytes as [|b bytes IH]; intros [|m mask] [|w weights] acc s H1 H2 Ht; try done.
  - injection Ht as ->. simpl. f_equal. lra.
  - cbn [zip_xor zip_with table_sum] in Ht. cbn [qjl_loop].
    change (@lookup nat (@num_t RN) (list (@num_t RN)) _) with (@lookup nat R (list R) _) in *.
    destruct (@lookup nat R (list R) _ (N.to_nat (N.lxor b m)) w) as [x|]; [|done]. cbn [mbind option_bind] in *.
    rewrite (IH mask weights _ _ (eq_add_S _ _ H1) (eq_add_S _ _ H2) Ht). rewrite two_value.
    change (@nadd RN) with Rplus. change (@nsub RN) with Rminus. change (@nmul RN) with Rmult. f_equal. lra.
Qed.
Lemma xor_comm a b : zip_xor a b = zip_xor b a.
Proof. unfold zip_xor. revert b. induction a as [|x a IH]; intros [|y b]; simpl; [done..|]. by rewrite N.lxor_comm, IH. Qed.
(** The signs stored for a residual against a projected query. *)
Lemma qjl_ok (projected : list R) dim mask encoded acc :
  len projected = dim -> len mask = packed_bytes dim 1 -> len encoded = packed_bytes dim 1 -> is_bytes mask -> is_bytes encoded ->
  (forall p, stream_bit mask p = sign_bit (NU := RN) projected p) ->
  qjl_loop mask (weight_tables (NU := RN) (map nabs projected) (packed_bytes dim 1)) encoded acc = Some (acc - 2 * mismatches projected encoded).
Proof.
  intros Hp Lm Le Bm Be Hs. rewrite <- sign_bytes_packed in *.
  rewrite (qjl_table mask _ encoded acc 0 (0 + mismatches projected encoded)).
  - f_equal. lra.
  - unfold len in *. lia.
  - unfold weight_tables. rewrite length_map, length_seq. unfold len in *. lia.
  - rewrite xor_comm. apply mask_tables; try done. rewrite Hp. apply bytes_room.
Qed.
(** The columns of the matrix against signs. *)
Definition column (rows : list (list R)) (signs : list R) (j : nat) : R := rsum (zip_with (fun row s => val row j * s) rows signs).
Lemma column_from rows signs j acc : Forall (fun row => (j < length row)%nat) rows ->
  foldl (fun acc rs => s ← acc; x ← @lookup nat (@num_t RN) (list (@num_t RN)) _ j rs.1; Some (nadd (Num := RN) s (nmul x rs.2)))
    (Some acc) (zip rows signs) = Some (acc + column rows signs j).
Proof.
  intros H. revert signs acc. induction H as [|row rows Hrow _ IH]; intros signs acc.
  - unfold column, rsum. simpl. f_equal. lra.
  - destruct signs as [|s signs]; [unfold column, rsum; simpl; f_equal; lra|]. cbn [zip zip_with foldl fst snd mbind option_bind].
    destruct (lookup_lt_is_Some_2 row j Hrow) as [x Hx].
    change (@lookup nat (@num_t RN) (list (@num_t RN)) _) with (@lookup nat R (list R) _) in *. rewrite Hx. cbn [mbind option_bind].
    rewrite IH. unfold column, rsum. simpl. rewrite (val_in _ _ _ Hx). change (@nadd RN) with Rplus. change (@nmul RN) with Rmult.
    f_equal. lra.
Qed.
Lemma rsum_cons x (l : list R) : rsum (x :: l) = x + rsum l.
Proof. reflexivity. Qed.
(** Multiplying by the transposed matrix. *)
Lemma columns_adjoint (query : list R) rows signs :
  Forall (fun row => length row = length query) rows ->
  sum_to (length query) (fun j => val query j * column rows signs j) = rdot (map (fun row => rdot row query) rows) signs.
Proof.
  intros H. revert signs. unfold column, rdot at 1. induction H as [|row rows Hrow _ IH]; intros signs.
  - apply sum_to_zero. intros j _. unfold rsum. simpl. lra.
  - destruct signs as [|s signs].
    { apply sum_to_zero. intros j _. unfold rsum. simpl. lra. }
    cbn [map zip_with]. rewrite rsum_cons, <- IH. clear IH.
    rewrite (rdot_sum (length query)) by done. rewrite (Rmult_comm _ s), <- sum_to_mul, <- sum_to_plus.
    apply sum_to_ext. intros j _. rewrite rsum_cons. lra.
Qed.
Lemma rdot_plus_r (q a b : list R) : length a = length q -> length b = length q ->
  rdot q (zip_with Rplus a b) = rdot q a + rdot q b.
Proof.
  unfold rdot. revert a b. induction q as [|x q IH]; intros [|y a] [|z b] Ha Hb; try done; [unfold rsum; simpl; lra|].
  cbn [zip_with]. rewrite !rsum_cons, IH by (simpl in *; lia). lra.
Qed.
Lemma sign_value_bit encoded dim qc : len encoded = packed_bytes dim 1 -> is_bytes encoded ->
  unpack_codes encoded 1 dim = Some qc ->
  map (sign_value (NU := RN)) qc = map (fun i => bit_value (stream_bit encoded (N.of_nat i))) (seq 0 (N.to_nat dim)).
Proof.
  intros Hl Hb Hu. destruct (unpack_codes_spec encoded 1 dim ltac:(lia) Hl Hb) as (qc' & E & L & C & S).
  rewrite Hu in E. injection E as <-. apply len_nat in L. apply list_eq_same_length with (n := N.to_nat dim).
  { by rewrite length_map, length_seq. } { by rewrite length_map. }
  intros i x y Hi Hx Hy. rewrite map_fmap, list_lookup_fmap in Hx. rewrite map_fmap, list_lookup_fmap, lookup_seq_lt in Hy by done.
  destruct (lookup_lt_is_Some_2 qc i) as [c Hc]; [lia|]. rewrite Hc in Hx. injection Hx as <-. injection Hy as <-.
  pose proof (Forall_lookup_1 _ _ _ _ C Hc) as Hc2. change (2 ^ 1)%N with 2%N in Hc2.
  rewrite <- (Nat2N.id i) in Hc. specialize (S _ _ Hc 0%N). rewrite N.mul_1_r, N.add_0_r in S. cbn [N.ltb andb] in S.
  change ((0 <? 1)%N) with true in S. cbn [andb] in S. rewrite <- S. unfold sign_value, bit_value.
  change (@none_ RN) with (f32_value f32_one). change (@nneg RN) with Ropp. rewrite f32_value_one.
  cbn beta in Hc2. assert (Hcase : c = 0%N \/ c = 1%N) by lia. destruct Hcase as [-> | ->]; simpl; lra.
Qed.
Section prod.
Context (q : @TurboQuantProd RN) (Hq : prod_ok q) (query : list R) (Hquery : len query = tp_dim q).
Abbreviation projected := (project q query).
Lemma rows_fit : Forall (fun row : list R => length row = length query) (tp_matrix q).
Proof.
  eapply Forall_impl; [exact (pk_cols q Hq)|]. intros row Hrow. cbn beta in Hrow. apply len_nat in Hrow, Hquery.
  etrans; [exact Hrow|by symmetry].
Qed.
Lemma projected_rows : projected = map (fun row => rdot row query) (tp_matrix q).
Proof. unfold project. apply map_ext. intros row. apply (nsum_rsum store). Qed.
Lemma prod_decoded encoded mse_part qjl_part alpha codes recon :
  len encoded = prod_bytes q -> prod_parts q encoded = (mse_part, qjl_part, alpha) ->
  len qjl_part = qjl_bytes q -> is_bytes qjl_part ->
  unpack_codes mse_part (tp_bits q - 1) (tp_dim q) = Some codes ->
  mse_reconstruct (tp_mse q) codes = Some recon -> length recon = length query ->
  exists w : list R, prod_decode q encoded = Some (Ok w) /\
    rdot query w = rdot query recon + alpha * tp_scale q * (sum_of_abs (NU := RN) projected - 2 * mismatches projected qjl_part).
Proof.
  intros Hl Hp Lb Bb Eu Er Lr. unfold prod_decode. rewrite Hl, N.eqb_refl. cbn [negb]. rewrite Hp, Eu. cbn [mbind option_bind].
  rewrite Er. cbn [mbind option_bind].
  destruct (unpack_codes_spec qjl_part 1 (tp_dim q) ltac:(lia) Lb Bb) as (qc & Eq & Lq & _ & _). rewrite Eq. cbn [mbind option_bind].
  pose proof (sign_value_bit qjl_part (tp_dim q) qc Lb Bb Eq) as Hsigns. set (signs := map sign_value qc) in *.
  assert (Hd : N.to_nat (tp_dim q) = length query) by (symmetry; by apply len_nat).
  rewrite (mapM_map (column_sum (tp_matrix q) signs) (column (tp_matrix q) signs)).
  2: { intros j Hj. unfold column_sum. rewrite (column_from _ signs j (@nzero RN)).
       - by rewrite zero_value, Rplus_0_l.
       - eapply Forall_impl; [exact rows_fit|]. intros row Hrow. apply elem_of_seq in Hj.
         apply Nat.lt_le_trans with (length query); [lia|]. apply Nat.eq_le_incl. symmetry. exact Hrow. }
  cbn [mbind option_bind]. eexists. split; [reflexivity|]. rewrite Hd. change (@nadd RN) with Rplus. change (@nmul RN) with Rmult.
  etrans; [apply rdot_plus_r; [done|by rewrite !length_map, length_seq]|]. f_equal.
  rewrite map_map. rewrite (rdot_sum (length query)); [|done|by rewrite length_map, length_seq].
  transitivity (alpha * tp_scale q * sum_to (length query) (fun j => val query j * column (tp_matrix q) signs j)).
  { rewrite <- sum_to_mul. apply sum_to_ext. intros j Hj. rewrite val_seq by done. change (@num_t RN) with R in *. lra. }
  f_equal. rewrite columns_adjoint by exact rows_fit. rewrite <- projected_rows, signed_sum.
  assert (Lp : length projected = length query) by (rewrite <- Hd; apply len_nat; by apply project_length).
  rewrite (rdot_sum (length query)); [|exact Lp|rewrite Hsigns, length_map, length_seq; exact Hd].
  change (@length R projected) with (@length (@num_t RN) projected). rewrite Lp. apply sum_to_ext. intros i Hi. f_equal.
  rewrite Hsigns. apply val_seq. lia.
Qed.

(** The encoded query. *)
Definition prod_encoded (lut : list R) (tables : list (list R)) (mask : list N) : ProdEncodedQuery :=
  {| pe_dim := tp_dim q; pe_bits := tp_bits q; pe_scale := tp_scale q; pe_bytes := prod_bytes q; pe_lut := lut;
     pe_levels := (2 ^ (tp_bits q - 1))%N; pe_byte_weights := tables; pe_sum_query := sum_of_abs (NU := RN) projected;
     pe_weights := weight_tables (map nabs projected) (qjl_bytes q); pe_mask := mask |}.
(** The two sums a score is made of, for one encoded vector. *)
Definition prod_sums (lut : list R) (tables : list (list R)) (mask encoded : list N) : Prop :=
  exists (mse_part qjl_part : list N) (alpha : R) (codes : list N) (w : list R) (s m : R),
    split_encoded (NU := RN) (prod_mse_bytes q) (qjl_bytes q) (prod_bytes q) encoded = (mse_part, qjl_part, alpha) /\
    unpack_codes mse_part (tp_bits q - 1) (tp_dim q) = Some codes /\
    len codes = tp_dim q /\ are_codes (tp_bits q - 1) codes /\
    (forall acc, lut_sum lut (2 ^ (tp_bits q - 1)) codes 0 acc = Some (acc + s)) /\
    (tables <> [] -> forall acc, table_sum tables mse_part acc = Some (acc + s)) /\
    (forall acc, qjl_loop mask (weight_tables (NU := RN) (map nabs projected) (qjl_bytes q)) qjl_part acc = Some (acc - 2 * m)) /\
    prod_decode q encoded = Some (Ok w) /\
    rdot query w = s + alpha * tp_scale q * (sum_of_abs (NU := RN) projected - 2 * m).
Lemma prod_query_ok : exists (lut : list R) (tables : list (list R)) mask,
  prod_query q query = Some (Ok (prod_encoded lut tables mask)) /\
  (tables <> [] -> len tables = prod_mse_bytes q) /\
  (exists K rotated, tm_dim (tp_mse q) = (2 ^ N.of_nat K)%N /\ length rotated = (2 ^ K)%nat /\ lut_ok (tp_mse q) K rotated lut) /\
  forall encoded, len encoded = prod_bytes q -> is_bytes encoded -> prod_sums lut tables mask encoded.
Proof.
  pose proof (pk_mse q Hq) as Hm. destruct (dim_power store _ Hm) as [K HK].
  assert (Hl : len query = tm_dim (tp_mse q)) by (rewrite (pk_dim q Hq); done).
  destruct (query_tables _ K HK Hm query Hl) as (rotated & lut & tables & Er & Hrot & El & Et & Hlut & Hlen & Hs).
  assert (Lp : len projected = tp_dim q) by by apply project_length.
  destruct (signs_ok (NU := RN) projected (qjl_bytes q)) as (mask & Emask & Lmask & Bmask & Smask).
  { rewrite Lp. unfold qjl_bytes. rewrite <- sign_bytes_packed. apply bytes_room. }
  exists lut, tables, mask. rewrite (prod_mse_size q Hq). split_and!; [|done|by exists K, rotated|].
  - unfold prod_query. rewrite (check_ok (A := @num_t RN) _ _ Hquery). cbn [out_bind]. rewrite Er. cbn [mbind option_bind].
    rewrite (prod_bits_mse q Hq), El. cbn [mbind option_bind]. rewrite (prod_mse_size q Hq), <- (pk_dim q Hq), Et. cbn [mbind option_bind].
    rewrite Emask. cbn [mbind option_bind]. unfold prod_encoded. by rewrite (prod_bits_mse q Hq), (pk_dim q Hq).
  - intros encoded Hle Hb. destruct (prod_parts_ok q Hq encoded Hle Hb) as (a & b & alpha & Ep & Esp & La & Ba & Lb & Bb).
    destruct (mse_codes _ K HK Hm a La Ba) as (codes & Eu & Lc & Cc & Erec).
    pose proof (fun acc => Hs a codes acc La Ba Eu Lc Cc) as Hcs.
    rewrite <- (prod_bits_mse q Hq) in Eu, Cc, Hcs. rewrite (pk_dim q Hq) in Eu, Lc.
    destruct (prod_decoded encoded a b alpha codes _ Hle Ep Lb Bb Eu Erec) as (w & Ew & Hw).
    { rewrite length_back, <- (tm_dim_nat store _ K HK). rewrite (pk_dim q Hq). symmetry. by apply len_nat. }
    exists a, b, alpha, codes, w, (rdot rotated (levels_of store (tp_mse q) K codes)), (mismatches projected b).
    split_and!; [done..| | | |done|].
    + intros acc. apply Hcs.
    + intros Hne acc. by apply Hcs.
    + intros acc. by apply qjl_ok.
    + rewrite Hw. f_equal. symmetry. by apply (Hcs 0).
Qed.
Lemma prod_exact : exists e, prod_query q query = Some (Ok e) /\ forall encoded, len encoded = prod_bytes q -> is_bytes encoded ->
  exists w : list R, prod_decode q encoded = Some (Ok w) /\ prod_score e encoded = Some (rdot query w).
Proof.
  destruct prod_query_ok as (lut & tables & mask & E & _ & _ & Hs). eexists. split; [exact E|]. intros encoded Hl Hb.
  destruct (Hs encoded Hl Hb) as (a & b & alpha & codes & w & s & m & Esp & Eu & _ & _ & Hlut & Htab & Hqjl & Ew & Hw).
  exists w. split; [exact Ew|]. unfold prod_score, prod_encoded. cbn [pe_bits pe_dim pe_byte_weights pe_lut pe_levels pe_mask pe_weights pe_sum_query pe_scale].
  change (packed_bytes (tp_dim q) (tp_bits q - 1) + packed_bytes (tp_dim q) 1 + 4)%N with (prod_bytes q).
  change (packed_bytes (tp_dim q) (tp_bits q - 1))%N with (prod_mse_bytes q). change (packed_bytes (tp_dim q) 1) with (qjl_bytes q).
  rewrite Hl, N.eqb_refl. cbn [negb]. rewrite Esp.
  destruct tables as [|t tables]; [rewrite Eu; cbn [mbind option_bind]; rewrite Hlut|etrans; [apply (f_equal (fun o : option R => o ≫= _) (Htab ltac:(done) _))|]];
    cbn [mbind option_bind]; rewrite Hqjl; cbn [mbind option_bind]; by rewrite zero_value, Rplus_0_l, Hw.
Qed.
End prod.
(** ** RaBitQ *)

Section rabitq.
Context (q : @RaBitQ RN) (Hq : rabitq_ok q) (query : list R) (Hquery : len query = rq_dim q).
Abbreviation dim := (N.to_nat (rq_dim q)).
Abbreviation pads v := (@pad_to RN q v : list R).

Lemma val_pad (v : list R) i : val (pads v) i = val v i.
Proof.
  change (pads v) with (v ++ replicate (N.to_nat (rq_pad q - rq_dim q)) (@nzero RN : R)). unfold val.
  destruct (Nat.lt_ge_cases i (length v)) as [Hi|Hi]; [by rewrite lookup_app_l|].
  rewrite lookup_app_r by done. rewrite (lookup_ge_None_2 v) by done.
  destruct (_ !! (i - length v)%nat) as [x|] eqn:E; [|done]. simpl. apply lookup_replicate in E as [-> _]. apply zero_value.
Qed.
Lemma val_take (v : list R) n i : (i < n)%nat -> val (take n v) i = val v i.
Proof. intros Hi. unfold val. by rewrite lookup_take_lt. Qed.
Lemma val_zip (f : R -> R -> R) (a b : list R) i : (i < length a)%nat -> (i < length b)%nat -> val (zip_with f a b) i = f (val a i) (val b i).
Proof.
  intros Ha Hb. unfold val. destruct (lookup_lt_is_Some_2 a i Ha) as [x Hx]. destruct (lookup_lt_is_Some_2 b i Hb) as [y Hy].
  rewrite lookup_zip_with, Hx, Hy. done.
Qed.
Lemma sum_short n m f (v : list R) : length v = n -> (n <= m)%nat ->
  sum_to m (fun i => f i * val v i) = sum_to n (fun i => f i * val v i).
Proof.
  intros Hv Hm. replace m with (n + (m - n))%nat by lia. rewrite sum_to_add. rewrite (sum_to_zero (m - n)); [lra|].
  intros i Hi. rewrite val_beyond by lia. lra.
Qed.

Definition pad_ratio : R := R_of_N (rq_pad q) / R_of_N (rq_dim q).
Lemma R_of_N_pos n : (0 < n)%N -> 0 < R_of_N n.
Proof. intros H. unfold R_of_N. apply IZR_lt. lia. Qed.
Lemma ratio_facts :
  @ratio_sqrt RN (rq_pad q) (rq_dim q) * @ratio_sqrt RN (rq_pad q) (rq_dim q) = pad_ratio /\
  @ratio_sqrt RN (rq_pad q) (rq_dim q) * @ratio_sqrt RN (rq_dim q) (rq_pad q) = 1.
Proof.
  pose proof (rk_dim q Hq) as Hd. pose proof (R_of_N_pos (rq_dim q) ltac:(lia)) as P1. pose proof (R_of_N_pos (rq_pad q) ltac:(lia)) as P2.
  unfold ratio_sqrt, pad_ratio. change (@nsqrt RN) with sqrt. change (@ndiv RN) with Rdiv. change (@of_int RN) with R_of_N. split.
  - apply sqrt_sqrt. apply Rlt_le, Rdiv_lt_0_compat; done.
  - rewrite <- sqrt_mult by (apply Rlt_le, Rdiv_lt_0_compat; done). rewrite <- sqrt_1. f_equal. field. lra.
Qed.
(** The projected query against a decoded code, and the query against the vector the code decodes to. *)
Lemma rabitq_adjoint (y : list R) : len y = rq_dim q -> exists proj w : list R,
  rq_project q query = Some proj /\ rq_inverse q y = Some w /\ length proj = dim /\
  rdot proj y = pad_ratio * rdot query w.
Proof.
  intros Hy. destruct (rk_pad q Hq) as [KN HKN]. set (K := N.to_nat KN).
  assert (Hpad : N.to_nat (rq_pad q) = (2 ^ K)%nat) by (rewrite HKN; apply pow_nat).
  pose proof (rk_dim q Hq) as Hd. pose proof (rk_signs q Hq) as Hs.
  assert (Ly : length y = dim) by by apply len_nat. assert (Lq : length query = dim) by by apply len_nat.
  assert (Ls : @length R (rq_signs q) = (2 ^ K)%nat) by (etrans; [by apply len_nat|exact Hpad]).
  set (scale := @ratio_sqrt RN (rq_pad q) (rq_dim q) : R). set (inv := @ratio_sqrt RN (rq_dim q) (rq_pad q) : R).
  set (signed := zip_with Rmult query (rq_signs q) : list R). set (xs := zip_with (fun x s => x * scale * s) query (rq_signs q) : list R).
  assert (Lsg : length signed = dim) by (unfold signed; rewrite length_zip_with; lia).
  assert (Lxs : length xs = dim) by (unfold xs; rewrite length_zip_with; lia).
  assert (Lpad : forall v : list R, length v = dim -> length (pads v) = (2 ^ K)%nat).
  { intros v Hv. unfold pad_to, zeros. rewrite length_app, length_replicate. etrans; [apply (f_equal (fun n => (n + _)%nat) Hv)|]. lia. }
  set (bx := transform K (pads xs)). set (b := transform K (pads signed)). set (by_ := transform K (pads y)).
  assert (Eb : bx = map (Rmult scale) b).
  { unfold bx, b. rewrite <- transform_scale. f_equal. apply list_val_ext; [by rewrite length_map, !Lpad|].
    intros i _. rewrite val_scale, !val_pad. destruct (Nat.lt_ge_cases i dim).
    - unfold xs, signed. rewrite !val_zip by lia. lra.
    - rewrite !val_beyond by lia. lra. }
  exists (scale_by (NU := RN) (unitary store K) (take dim bx)),
    (zip_with (fun x s => x * unitary store K * s * inv) (take dim by_) (rq_signs q)).
  split; [|split; [|split]].
  - unfold rq_project. assert (Hq' : len (query : list (@num_t RN)) = rq_dim q) by exact Hquery. rewrite Hq', N.eqb_refl. cbn [negb].
    etrans; [apply (f_equal (fun o : option (list R) => o ≫= _) (fwht_transform store K (pads xs) (Lpad _ Lxs)))|].
    cbn [mbind option_bind]. by rewrite Hpad.
  - unfold rq_inverse. assert (Hy' : len (y : list (@num_t RN)) = rq_dim q) by exact Hy. rewrite Hy', N.eqb_refl. cbn [negb].
    etrans; [apply (f_equal (fun o : option (list R) => o ≫= _) (fwht_transform store K (pads y) (Lpad _ Ly)))|].
    cbn [mbind option_bind]. by rewrite Hpad.
  - rewrite scale_by_map, length_map, length_take. unfold bx. rewrite length_transform. lia.
  - assert (X : sum_to dim (fun i => val b i * val y i) = sum_to dim (fun i => val by_ i * val signed i)).
    { rewrite <- (sum_short dim (2 ^ K)), <- (sum_short dim (2 ^ K) (val by_)) by (done || lia).
      pose proof (transform_adjoint K (pads signed) (pads y) (Lpad _ Lsg) (Lpad _ Ly)) as A. fold b by_ in A.
      rewrite !(rdot_sum (2 ^ K)) in A by (unfold b, by_; rewrite ?length_transform; try done; by apply Lpad).
      etrans; [|etrans; [exact A|]]; apply sum_to_ext; intros i _; rewrite val_pad; [done|apply Rmult_comm]. }
    rewrite !(rdot_sum dim); [|done| | |done].
    2: { rewrite length_zip_with, length_take. unfold by_. rewrite length_transform. lia. }
    2: { rewrite scale_by_map, length_map, length_take. unfold bx. rewrite length_transform. lia. }
    destruct ratio_facts as [F1 F2]. fold scale in F1, F2. fold inv in F2.
    transitivity (unitary store K * scale * sum_to dim (fun i => val b i * val y i)).
    { rewrite <- sum_to_mul. apply sum_to_ext. intros i Hi. rewrite scale_by_map, val_scale, val_take by done.
      rewrite Eb, val_scale. lra. }
    rewrite X. transitivity (pad_ratio * (unitary store K * inv * sum_to dim (fun i => val by_ i * val signed i))).
    { rewrite <- F1. replace scale with (scale * (scale * inv)) at 1 by (rewrite F2; lra). lra. }
    f_equal. rewrite <- sum_to_mul. apply sum_to_ext. intros i Hi. unfold signed.
    rewrite !val_zip, val_take; [lra|done|rewrite length_take; unfold by_; rewrite length_transform; lia|lia..].
Qed.
Definition rabitq_per : nat := if (rq_bits q =? 1)%N then 8 else 4.
Lemma rabitq_per_ok : (rabitq_per * N.to_nat (rq_bits q) = 8)%nat.
Proof. unfold rabitq_per. by destruct (rk_bits q Hq) as [-> | ->]. Qed.
Lemma rabitq_entry_sum (proj : list R) c x :
  rabitq_entry q proj c x = sum_to rabitq_per (fun k => rabitq_level q (code_in (rq_bits q) (N.of_nat x) k) * val proj (c * rabitq_per + k)).
Proof.
  unfold rabitq_entry. rewrite (rabitq_width q Hq).
  change (if (rq_bits q =? 1)%N then 8%nat else 4%nat) with rabitq_per.
  rewrite (foldl_sum (fun k => rabitq_level q (code_in (rq_bits q) (N.of_nat x) k) * val proj (c * rabitq_per + k))).
  - rewrite zero_value. unfold sum_to. lra.
  - intros s k. unfold val. change (@nadd RN) with Rplus. change (@nmul RN) with Rmult.
    change (match @lookup nat R (list R) _ (c * rabitq_per + k)%nat proj with
            | Some y => s + rabitq_level q (code_in (rq_bits q) (N.of_nat x) k) * y
            | None => s
            end = s + rabitq_level q (code_in (rq_bits q) (N.of_nat x) k) * default 0 (proj !! (c * rabitq_per + k)%nat)).
    destruct (proj !! (c * rabitq_per + k)%nat); simpl; [done|]. rewrite Rmult_0_r, Rplus_0_r. done.
Qed.
Lemma rabitq_value_level alpha c : rabitq_value q alpha c = alpha * rabitq_level q c.
Proof.
  unfold rabitq_value, rabitq_level. destruct (N.eqb_spec (rq_bits q) 1).
  - change (@none_ RN) with (f32_value f32_one). change (@nneg RN) with Ropp. rewrite f32_value_one.
    change (@num_t RN) with R in alpha. destruct (c =? 1)%N; lra.
  - change (@nmul RN) with Rmult. apply Rmult_comm.
Qed.
Lemma rabitq_exact : exists e, rabitq_query query q = Some (Ok e) /\ re_total e = rabitq_bytes q /\
  forall encoded, len encoded = rabitq_bytes q -> is_bytes encoded ->
  exists w : list R, rabitq_decode q encoded = Some (Ok w) /\ rabitq_score e encoded = Some (pad_ratio * rdot query w).
Proof.
  destruct (rabitq_adjoint (replicate dim 0)) as (proj & _ & Eproj & _ & Lproj & _); [unfold len; rewrite length_replicate; lia|].
  eexists. split; [|split].
  { unfold rabitq_query. rewrite (check_ok (A := @num_t RN) _ _ Hquery). cbn [out_bind]. rewrite Eproj. cbn [mbind option_bind]. reflexivity. }
  { reflexivity. }
  intros encoded Hl Hb. set (part := slice 0 (code_bytes q) encoded).
  assert (Hpart : len part = packed_bytes (rq_dim q) (rq_bits q) /\ is_bytes part).
  { unfold rabitq_bytes in Hl. split; [apply len_slice; change (packed_bytes (rq_dim q) (rq_bits q)) with (code_bytes q); lia|by apply is_bytes_slice]. }
  destruct Hpart as [Lp Bp].
  destruct (unpack_codes_spec part (rq_bits q) (rq_dim q) (rabitq_bits_range q Hq) Lp Bp) as (codes & Eu & Lc & _ & _).
  set (alpha := from_le_bytes (NU := RN) (slice (code_bytes q) 4 encoded)). set (y := map (rabitq_value q alpha) codes : list R).
  assert (Ly : len y = rq_dim q) by (unfold y; by rewrite len_map).
  destruct (rabitq_adjoint y Ly) as (proj' & w & Eproj' & Ew & _ & Hw). rewrite Eproj in Eproj'. injection Eproj' as <-.
  exists w. split.
  { unfold rabitq_decode. rewrite Hl, N.ltb_irrefl. fold part alpha. rewrite Eu. cbn [mbind option_bind]. fold y. by rewrite Ew. }
  unfold rabitq_score. cbn [re_total re_code_bytes re_luts]. rewrite Hl, N.ltb_irrefl. fold part alpha.
  change (map (fun c => map (rabitq_entry q proj c) (seq 0 256)) (seq 0 (N.to_nat (code_bytes q))))
    with (tables_from (rabitq_entry q proj) 0 (N.to_nat (code_bytes q))).
  rewrite table_sum_spec by (done || by apply len_nat). cbn [mbind option_bind]. f_equal. rewrite <- Hw.
  rewrite zero_value, Rplus_0_l.
  rewrite (sum_to_ext _ _ (fun b => sum_to rabitq_per (fun k => rabitq_level q (code_in (rq_bits q) (byte part b) k) * val proj (b * rabitq_per + k)))).
  2: { intros b _. by rewrite rabitq_entry_sum, N2Nat.id. }
  unfold code_bytes. rewrite (bytes_codes (fun i c => rabitq_level q c * val proj i) (rq_bits q) rabitq_per (rq_dim q) part codes rabitq_per_ok Lp Eu).
  2: { intros i c Hi. rewrite val_beyond by lia. lra. }
  rewrite (rdot_sum dim); [|done|by apply len_nat]. change (@nmul RN) with Rmult. rewrite <- sum_to_mul.
  apply sum_to_ext. intros i Hi. unfold y. rewrite val_map. apply len_nat in Lc.
  destruct (lookup_lt_is_Some_2 codes i) as [c Hc]; [lia|]. rewrite Hc. erewrite nth_lookup_Some by exact Hc.
  rewrite rabitq_value_level. change (@num_t RN) with R in *. lra.
Qed.
End rabitq.

(** ** Any codec *)

(** RaBitQ pads the vector to a power of two and keeps a part of the transform: its score
    is the product times the padding. *)
Definition score_factor (q : @VectorQuantizer RN) : R := match q with RaBit q => pad_ratio q | _ => 1 end.

(** The score an encoded query computes from its tables is the inner product of the query
    with the vector the code decodes to, for every codec and instruction set and over
    the reals; for RaBitQ it is that product times the padding, the same factor for
    every vector. *)
Theorem score_is_decoded_product isa (q : @VectorQuantizer RN) (v : list R) : built q -> len v = vq_dim q ->
  exists e, encode_query q v = Some (Ok e) /\ forall bytes, len bytes = encoded_bytes q -> is_bytes bytes ->
    exists w : list R, decode q bytes = Some (Ok w) /\ score isa e bytes = Some (score_factor q * rdot v w).
Proof.
  intros Hbuilt Hv. pose proof (built_ok q Hbuilt) as Hq. unfold score_factor.
  destruct q as [q|dim|q|q|q]; cbn [vq_dim encoded_bytes vq_ok encode_query decode] in *.
  - destruct (scalar_exact isa q v Hv) as (e & E & Hs). exists (QScalar e). rewrite E. split; [done|].
    intros bytes Hl _. destruct (Hs bytes Hl) as (w & Ew & Hw). exists w. split; [done|]. by rewrite Rmult_1_l.
  - destruct (sign_exact v dim Hv) as (e & E & Hs). exists (QSign e). rewrite E. split; [done|].
    intros bytes Hl Hb. destruct (Hs bytes Hl Hb) as (w & Ew & Hw). exists w. split; [done|]. by rewrite Rmult_1_l.
  - destruct (mse_exact q Hq v Hv) as (e & E & Hs). exists (QMse e). rewrite E. split; [done|].
    intros bytes Hl Hb. destruct (Hs bytes Hl Hb) as (w & Ew & Hw). exists w. split; [done|]. by rewrite Rmult_1_l.
  - destruct (prod_exact q Hq v Hv) as (e & E & Hs). exists (QProd e). rewrite E. split; [done|].
    intros bytes Hl Hb. destruct (Hs bytes Hl Hb) as (w & Ew & Hw). exists w. split; [done|]. by rewrite Rmult_1_l.
  - destruct (rabitq_exact q Hq v Hv) as (e & E & _ & Hs). exists (QRaBit e). rewrite E. split; [done|].
    intros bytes Hl Hb. destruct (Hs bytes Hl Hb) as (w & Ew & Hw). by exists w.
Qed.
End scores.

(** A one-bit RaBitQ code of three components. *)
Lemma score_is_decoded_product_witness :
  exists q, rabitq_new (NU := QuantExact.RN (fun _ => 0)) (RC := no_rand) 3 1 7 = Some (Ok q) /\
  exists e, encode_query (RC := no_rand) (RaBit q) [f32_value f32_one; f32_value f32_half; f32_value f32_zero] = Some (Ok e) /\
  forall bytes, len bytes = encoded_bytes (RaBit q) -> is_bytes bytes -> exists w : list R, decode (RC := no_rand) (RaBit q) bytes = Some (Ok w) /\
    score Avx2Fma e bytes
    = Some (score_factor _ (RaBit q) * rdot [f32_value f32_one; f32_value f32_half; f32_value f32_zero] w)%R.
Proof.
  eexists. split; [reflexivity|]. apply (@score_is_decoded_product (fun _ => 0) no_rand Avx2Fma).
  - apply (built_rabitq 3 1 7). reflexivity.
  - reflexivity.
Defined.
