(* ===== verification/QuantBatch.v ===== *)
(** * Scoring a block of encoded vectors without rounding

    Over the reals every batch kernel, unrolled or not, with tables or by gathering, on
    every instruction set, gives each vector of the block the score it has alone
    ([batch_scores_exact]); the population count of the sign codec is exact up to the
    tolerance it is chosen by. *)

From S2P Require Import Prelude Core Floats Metrics Numeric Simd Codes Hadamard Quant QuantSearch QuantTheorems QuantExact QuantScores.
From Stdlib Require Import Reals Lra Lia.

(** ** Blocks *)

Lemma drop_concat {A} n (vs : list (list A)) i : Forall (fun v => length v = n) vs -> drop (i * n) (concat vs) = concat (drop i vs).
Proof.
  intros H. revert i. induction H as [|v vs Hv _ IH]; intros [|i]; simpl; try done.
  - by rewrite drop_nil.
  - rewrite drop_app_ge by lia. rewrite <- IH. f_equal. lia.
Qed.
Lemma block_at {A} n (vs : list (list A)) i v : Forall (fun v => length v = n) vs -> vs !! i = Some v ->
  take n (drop (i * n) (concat vs)) = v.
Proof.
  intros H Hi. rewrite (drop_concat n) by done. rewrite (drop_S _ _ _ Hi). simpl.
  assert (Hv : length v = n) by (by apply (Forall_lookup_1 _ _ _ _ H Hi)). by rewrite take_app_length'.
Qed.
Lemma length_concat_blocks {A} n (vs : list (list A)) : Forall (fun v => length v = n) vs -> length (concat vs) = (length vs * n)%nat.
Proof. induction 1 as [|v vs Hv _ IH]; simpl; [done|]. rewrite length_app. lia. Qed.

(** The blocks are vectors of [n] bytes. *)
Definition blocks (n : N) (vs : list (list N)) : Prop := Forall (fun v => len v = n /\ is_bytes v) vs.
Lemma blocks_length n vs : blocks n vs -> Forall (fun v => length v = N.to_nat n) vs.
Proof. intros H. eapply Forall_impl; [exact H|]. intros v [Hv _]. by apply len_nat. Qed.
Lemma blocks_len n vs : blocks n vs -> len (concat vs) = len vs * n.
Proof. intros H. pose proof (length_concat_blocks _ _ (blocks_length n vs H)) as E. unfold len. rewrite E. lia. Qed.
Lemma blocks_count n vs : 0 < n -> blocks n vs -> len (concat vs) / n = len vs /\ (len (concat vs) mod n =? 0) = true.
Proof.
  intros Hn H. rewrite (blocks_len n vs H). split; [by rewrite N.div_mul by lia|]. apply N.eqb_eq. by rewrite N.Div0.mod_mul.
Qed.
Lemma vectors_of_concat n vs : 0 < n -> blocks n vs -> vectors_of n (concat vs) = vs.
Proof.
  intros Hn H. unfold vectors_of. rewrite (proj1 (blocks_count n vs Hn H)). replace (N.to_nat (len vs)) with (length vs) by (unfold len; lia).
  apply list_eq_same_length with (n := length vs); [done|by rewrite length_map, length_seq|].
  intros i x y Hi Hx Hy. rewrite map_fmap, list_lookup_fmap, lookup_seq_lt in Hx by done. injection Hx as <-.
  unfold slice. rewrite N2Nat.inj_mul, Nat2N.id. by apply (block_at _ vs i y (blocks_length n vs H)).
Qed.
(** The guard of the batch kernels lets blocks through. *)
Lemma batch_guard {A} n vs (o1 o2 : A) : 0 < n -> blocks n vs ->
  (if (n =? 0) || negb (len (concat vs) mod n =? 0) then o1 else o2) = o2.
Proof. intros Hn H. rewrite (proj2 (blocks_count n vs Hn H)), (proj2 (N.eqb_neq n 0)) by lia. done. Qed.

(** Scores one by one. *)
Lemma each_score {A} n vs (f : list N -> option A) (Q : list N -> A -> Prop) :
  blocks n vs -> (forall v, len v = n -> is_bytes v -> exists s, f v = Some s /\ Q v s) ->
  exists scores, mapM f vs = Some scores /\ Forall2 Q vs scores.
Proof.
  intros H Hf. apply mapM_total. intros v Hv. unfold blocks in H. rewrite Forall_forall in H. destruct (H v Hv) as [H1 H2]. by apply Hf.
Qed.
(** Scores four at a time, and the rest. *)
Lemma collect {A} (f : nat -> option A) (g : nat -> A) n : (forall i, (i < n)%nat -> f i = Some (g i)) ->
  ('(i, scores) ← strides n 4 n 0 (fun i scores => s ← mapM (fun k => f (i + k)%nat) (seq 0 4); Some (scores ++ s)) [];
   '(_, scores) ← strides n 1 n i (fun i scores => s ← f i; Some (scores ++ [s])) scores; Some scores) = Some (map g (seq 0 n)).
Proof.
  intros Hf. apply (strides_bind _ _ _ (fun i scores => scores = map g (seq 0 i))); [lia| |apply Nat.le_0_l|lia|done|].
  { intros i scores Hi ->. rewrite (mapM_map _ (fun k => g (i + k)%nat)).
    - simpl. eexists. split; [done|]. rewrite seq_app, map_app. f_equal. simpl. repeat f_equal; lia.
    - intros k Hk. apply elem_of_seq in Hk. apply Hf. lia. }
  intros j scores -> Hj. apply (strides_bind _ _ _ (fun i scores => scores = map g (seq 0 i))); [lia| |apply Hj|lia|done|].
  { intros i scores Hi ->. rewrite Hf by lia. simpl. eexists. split; [done|]. by rewrite seq_app, map_app. }
  intros k scores -> Hk. by replace k with n by lia.
Qed.

Section batch.
Context (store : R -> f32) {RC : RandCrate}.
Abbreviation RN := (QuantExact.RN store).
#[local] Hint Extern 0 Num => exact (QuantExact.RN store) : typeclass_instances.
#[local] Open Scope R_scope.

(** ** Scalar *)

Lemma scalar_batch_exact isa (q : @ScalarQuantizer RN) (query : list R) : len query = sq_dim q -> (0 < sq_dim q)%N ->
  exists e, scalar_query query q = Some (Ok e) /\ forall vs, blocks (sq_dim q) vs ->
    exists scores : list R, scalar_score_batch isa e (concat vs) = Some scores /\
      Forall2 (fun v s => exists w : list R, sq_decode q v = Some (Ok w) /\ s = rdot query w) vs scores.
Proof.
  intros Hq Hd. eexists. split; [by apply scalar_query_ok|]. intros vs Hvs.
  unfold scalar_score_batch, scalar_quantized_dot_batch. cbn [se_query se_min se_scale].
  change (@len (@num_t RN) query) with (@len R query). rewrite Hq, (batch_guard (sq_dim q) vs) by done.
  assert (Hdec : forall v : list N, len v = sq_dim q -> exists w : list R, sq_decode q v = Some (Ok w) /\ w = map (code_value (NU := RN) (sq_min q) (scalar_scale store q)) v).
  { intros v Hv. eexists. split; [unfold sq_decode; by rewrite (check_ok _ _ Hv)|]. apply map_ext. intros c. apply decode_value. }
  assert (Lq : length query = N.to_nat (sq_dim q)) by by apply len_nat.
  assert (Hlen : forall v : list N, len v = sq_dim q -> length v = length query) by (intros v Hv; unfold len in *; lia).
  assert (Hone : exists scores : list R, mapM (fun v => scalar_quantized_dot_scalar (NU := RN) query v (sq_min q) (scalar_scale store q)) vs = Some scores /\
      Forall2 (fun v s => exists w : list R, sq_decode q v = Some (Ok w) /\ s = rdot query w) vs scores).
  { apply (each_score (A := R) (sq_dim q)); [done|]. intros v Hv _. destruct (Hdec v Hv) as (w & E & Hw). eexists.
    split; [apply scalar_portable_exact; by apply Hlen|]. exists w. split; [done|]. by rewrite Hw. }
  destruct isa; try (rewrite vectors_of_concat by done; exact Hone).
  rewrite (proj1 (blocks_count (sq_dim q) vs Hd Hvs)).
  set (mn := sq_min q). set (sc := scalar_scale store q). set (d := length query).
  set (g := fun i => rdot query (scalar_values store mn sc (concat vs) (i * d) d)). exists (map g (seq 0 (N.to_nat (len vs)))).
  pose proof (blocks_length _ _ Hvs) as Hb. rewrite <- Lq in Hb. fold d in Hb.
  split.
  - apply (collect (fun j => batch_avx2_one (NU := RN) query (concat vs) mn sc (j * d))). intros i Hi. apply batch_one_exact.
    rewrite (length_concat_blocks d vs Hb). fold d. unfold len in Hi. nia.
  - apply Forall2_same_length_lookup_2; [rewrite length_map, length_seq; unfold len; lia|].
    intros i v s Hv Hs. pose proof (lookup_lt_Some _ _ _ Hv) as Hi.
    rewrite map_fmap, list_lookup_fmap, lookup_seq_lt in Hs by (unfold len; lia). injection Hs as <-.
    unfold blocks in Hvs. destruct (Forall_lookup_1 _ _ _ _ Hvs Hv) as [Lv _]. destruct (Hdec v Lv) as (w & E & Hw). exists w. split; [done|].
    unfold g, scalar_values. by rewrite (block_at d vs i v Hb Hv), Hw.
Qed.
(** ** Sign *)

(** What the check of the uniform tables establishes. *)
Definition tolerance : R := f32_value 0x34000000.
Section uniform.
Context (entry : nat -> nat -> R) (n : nat) (Hn : (0 < n)%nat) (Hzero : entry 0%nat 0%nat = 0).
Lemma tables_eq_at (a b : list R) i x y : tables_eq (NU := RN) a b = true -> a !! i = Some x -> b !! i = Some y -> x = y.
Proof.
  unfold tables_eq. intros H Ha Hb. rewrite forallb_forall in H. specialize (H (x, y)). simpl in H.
  change (@neqb RN) with R_eqb in H. unfold R_eqb in H. destruct (Req_dec_T x y) as [|]; [done|].
  discriminate H. apply list_elem_of_In, list_elem_of_lookup. exists i. etrans; [apply lookup_zip_with|]. by rewrite Ha, Hb.
Qed.
Lemma table_at b x : (x < 256)%nat -> map (entry b) (seq 0 256) !! x = Some (entry b x).
Proof. intros Hx. rewrite map_fmap, list_lookup_fmap, lookup_seq_lt by done. done. Qed.
Lemma uniform_close u : uniform_tables (NU := RN) (tables_from entry 0 n) = Some u ->
  forall b x, (b < n)%nat -> (x < 256)%nat -> Rabs (entry b x - R_of_N (count_ones (N.of_nat x)) * u) <= tolerance.
Proof.
  destruct n as [|m]; [lia|]. unfold tables_from. cbn [seq map uniform_tables].
  destruct (forallb _ _) eqn:Heq; [|done]. change (@num_t RN) with R. 
  replace (@lookup nat R (list R) _ 1%nat (map (entry 0%nat) (seq 0 256))) with (Some (entry 0%nat 1%nat)) by (symmetry; apply table_at; lia).
  cbn [mbind option_bind]. destruct (forallb _ (drop 1 _)) eqn:Hclose; [|done]. intros [= <-] b x Hb Hx.
  assert (Heq2 : entry b x = entry 0%nat x).
  { destruct b as [|b]; [done|]. rewrite forallb_forall in Heq. eapply tables_eq_at; [apply Heq, in_map, in_seq|by apply table_at..]. lia. }
  rewrite Heq2. destruct x as [|x].
  - rewrite Hzero. change (count_ones (N.of_nat 0)) with 0%N. unfold R_of_N. rewrite Rmult_0_l, Rminus_0_r, Rabs_R0.
    unfold tolerance. rewrite f32_value_epsilon. lra.
  - rewrite forallb_forall in Hclose. specialize (Hclose (S x, entry 0%nat (S x))). cbn [fst snd] in Hclose.
    apply Rlt_le. unfold nltb in Hclose. change (@ngtb RN) with R_gtb in Hclose. unfold R_gtb in Hclose.
    destruct (Rlt_dec _ _) as [Hlt|]; [exact Hlt|]. discriminate Hclose. apply list_elem_of_In, list_elem_of_lookup. exists x.
    rewrite lookup_drop, list_lookup_imap. exact (f_equal (fmap (pair (S x))) (table_at 0 (S x) Hx)).
Qed.
End uniform.
Lemma rsum_map_N (g : N -> N) (l : list N) : R_of_N (foldr N.add 0%N (map g l)) = rsum (map (fun x => R_of_N (g x)) l).
Proof.
  induction l as [|x l IH]; [done|]. cbn [map foldr]. rewrite rsum_cons, <- IH. unfold R_of_N. rewrite <- plus_IZR. f_equal. lia.
Qed.
Lemma zip_index {A} (g : A -> R) (l : list A) o : zip_with (fun (_ : nat) x => g x) (seq o (length l)) l = map g l.
Proof. revert o. induction l as [|x l IH]; intros o; simpl; [done|]. by rewrite IH. Qed.
Lemma differing_bits_sum mask v n : length (zip_xor mask v) = n ->
  R_of_N (differing_bits mask v) = sum_to n (fun b => R_of_N (count_ones (byte (zip_xor mask v) b))).
Proof.
  intros <-. unfold differing_bits.
  assert (E : forall a b, zip_with (fun m e => count_ones (N.lxor m e)) a b = map count_ones (zip_xor a b)).
  { intros a. unfold zip_xor. induction a as [|x a IH]; intros [|y b]; simpl; [done..|]. by rewrite IH. }
  rewrite E, rsum_map_N. rewrite <- (zip_index (fun x => R_of_N (count_ones x)) _ 0). apply (zip_seq_sum (fun _ x => R_of_N (count_ones x)) 0%N).
Qed.
Lemma sum_close n f g t : (forall i, (i < n)%nat -> Rabs (f i - g i) <= t) -> Rabs (sum_to n f - sum_to n g) <= INR n * t.
Proof.
  intros H. induction n as [|n IH]; [rewrite !sum_to_0, Rminus_0_r, Rabs_R0; simpl; lra|]. rewrite !sum_to_S, S_INR.
  replace (sum_to n f + f n - (sum_to n g + g n)) with ((sum_to n f - sum_to n g) + (f n - g n)) by lra.
  etrans; [apply Rabs_triang|]. specialize (IH (fun i Hi => H i (Nat.lt_lt_succ_r _ _ Hi))). specialize (H n (Nat.lt_succ_diag_r n)). lra.
Qed.
(** The error the population count may make: twice the tolerance for each byte. *)
Definition sign_error (dim : N) : R := 2 * (INR (N.to_nat (bytes_per_vector dim)) * tolerance).
Lemma sign_batch_close popcnt (query : list R) dim : len query = dim -> (0 < dim)%N ->
  exists e, sign_query query dim = Some (Ok e) /\ forall vs, blocks (bytes_per_vector dim) vs ->
    exists scores : list R, sign_score_batch popcnt e (concat vs) = Some scores /\
      Forall2 (fun v s => exists w : list R, sign_decode dim v = Some (Ok w) /\ Rabs (s - rdot query w) <= sign_error dim) vs scores.
Proof.
  intros Hq Hd. destruct (sign_query_ok store query dim Hq) as (mask & Lm & Bm & Sm & E). eexists. split; [exact E|].
  intros vs Hvs. set (n := bytes_per_vector dim) in *. assert (Hn : (0 < n)%N).
  { unfold n, bytes_per_vector. pose proof (N.div_mod (dim + 7) 8 ltac:(lia)). pose proof (N.mod_lt (dim + 7) 8 ltac:(lia)). nia. }
  assert (Herr : 0 <= sign_error dim).
  { unfold sign_error, tolerance. rewrite f32_value_epsilon. pose proof (pos_INR (N.to_nat (bytes_per_vector dim))). nra. }
  unfold sign_score_batch, sign_quantized_score_batch. cbn [sg_mask sg_weights sg_sum_abs].
  rewrite Lm, (batch_guard n vs), vectors_of_concat by done.
  set (weights := weight_tables (NU := RN) (map (@nabs RN) query) n).
  assert (Hexact : forall v, len v = n -> is_bytes v -> exists w : list R, sign_decode dim v = Some (Ok w) /\
    rdot query w = sum_of_abs (NU := RN) query - 2 * mismatches store query v).
  { intros v Hv _. destruct (sign_decoded store query v dim Hq Hv) as (w & Ew & Hw). exists w. split; [done|]. by rewrite Hw, signed_sum. }
  destruct (uniform_tables weights) as [u|] eqn:Hu.
  - eexists. split; [reflexivity|]. change (@num_t RN) with R. apply Forall2_fmap_r, Forall_Forall2_diag. unfold blocks in Hvs.
    eapply Forall_impl; [exact Hvs|]. intros v [Lv Bv]. destruct (Hexact v Lv Bv) as (w & Ew & Hw). exists w. split; [done|].
    rewrite Hw. set (x := zip_xor mask v).
    assert (Lx : length x = N.to_nat n) by (unfold x, zip_xor; rewrite length_zip_with; unfold len in *; lia).
    assert (Hmis : mismatches store query v = sum_to (N.to_nat n) (fun b => weight_entry (NU := RN) (map (@nabs RN) query) b (N.to_nat (byte x b)))).
    { pose proof (mask_tables store query mask v n 0) as H1. rewrite Hq in H1.
      specialize (H1 (bytes_room dim) Lm Lv Bm Bv Sm). rewrite weight_tables_from in H1. fold x in H1.
      rewrite (table_sum_spec store _ x (N.to_nat n)) in H1 by (done || by apply xor_bytes).
      rewrite !Rplus_0_l in H1. by injection H1. }
    set (entry := weight_entry (NU := RN) (map (@nabs RN) query)) in *.
    assert (Hclose : Rabs (sum_to (N.to_nat n) (fun b => R_of_N (count_ones (byte x b))) * u - mismatches store query v) <= INR (N.to_nat n) * tolerance).
    { rewrite Hmis, Rmult_comm, <- sum_to_mul. apply sum_close. intros b Hb.
      rewrite Rabs_minus_sym, (Rmult_comm u). rewrite <- (N2Nat.id (byte x b)) at 2.
      apply (uniform_close entry (N.to_nat n)); [lia| |exact Hu|done|].
      - unfold entry. rewrite weight_entry_sum. by apply sum_to_zero.
      - pose proof (xor_bytes _ _ Bm Bv) as Bx. fold x in Bx. unfold is_bytes in Bx.
        assert (Hbx : x !! b = Some (byte x b)) by (apply byte_lookup; lia). pose proof (Forall_lookup_1 _ _ _ _ Bx Hbx) as H256. cbn beta in H256. lia. }
    unfold sign_error. fold n. rewrite <- (differing_bits_sum mask v) in Hclose by exact Lx.
    set (d := R_of_N (differing_bits mask v)) in *. set (sa := sum_of_abs (NU := RN) query) in *. set (m := mismatches store query v) in *.
    replace (popcount_score (NU := RN) popcnt mask sa u v - (sa - 2 * m)) with (2 * (m - d * u)).
    { rewrite Rabs_mult, Rabs_minus_sym, (Rabs_pos_eq 2) by lra. lra. }
    unfold popcount_score. rewrite two_value. change (@of_int RN) with R_of_N. fold d.
    change (@nneg RN) with Ropp. change (@nadd RN) with Rplus. change (@nsub RN) with Rminus. change (@nmul RN) with Rmult.
    change (@num_t RN) with R in *. destruct popcnt; lra.
  - apply (each_score (A := R) n); [done|]. intros v Lv Bv. destruct (Hexact v Lv Bv) as (w & Ew & Hw).
    unfold table_score. rewrite (mask_diff store query dim mask v) by done. cbn [mbind option_bind]. eexists. split; [reflexivity|].
    exists w. split; [done|]. rewrite Hw, zero_value, two_value. change (@nsub RN) with Rminus. change (@nmul RN) with Rmult.
    rewrite Rplus_0_l, Rminus_diag, Rabs_R0. exact Herr.
Qed.
(** ** TurboQuant and RaBitQ *)

Lemma mse_bytes_pos (q : @TurboQuantMse RN) : mse_ok q -> (0 < mse_bytes q)%N.
Proof.
  intros Hq. destruct (dim_power store q Hq) as [K HK]. pose proof (mk_bits q Hq) as Hb. unfold mse_bytes, packed_bytes.
  assert (0 < tm_dim q)%N by (rewrite HK; apply N.neq_0_lt_0, N.pow_nonzero; lia).
  pose proof (N.div_mod (tm_dim q * tm_bits q + 7) 8 ltac:(lia)). pose proof (N.mod_lt (tm_dim q * tm_bits q + 7) 8 ltac:(lia)). nia.
Qed.
Lemma mse_batch_exact (q : @TurboQuantMse RN) (Hq : mse_ok q) (query : list R) : len query = tm_dim q ->
  exists e, mse_query q query = Some (Ok e) /\ forall vs, blocks (mse_bytes q) vs ->
    exists scores : list R, mse_score_batch e (concat vs) = Some scores /\
      Forall2 (fun v s => exists w : list R, mse_decode q v = Some (Ok w) /\ s = rdot query w) vs scores.
Proof.
  intros Hl. pose proof (mse_bytes_pos q Hq) as Hpos. destruct (dim_power store q Hq) as [K HK].
  destruct (query_tables store q K HK Hq query Hl) as (rotated & lut & tables & Er & Hrot & El & Et & _ & _ & Hs).
  eexists. split.
  { unfold mse_query. rewrite (check_ok (A := @num_t RN) _ _ Hl). cbn [out_bind]. rewrite Er. cbn [mbind option_bind].
    rewrite El. cbn [mbind option_bind]. rewrite Et. cbn [mbind option_bind]. reflexivity. }
  intros vs Hvs. unfold mse_score_batch. cbn [me_bytes me_byte_weights me_bits me_dim me_lut me_levels].
  assert (Hv : forall v, len v = mse_bytes q -> is_bytes v -> exists codes (w : list R),
    unpack_codes v (tm_bits q) (tm_dim q) = Some codes /\ mse_decode q v = Some (Ok w) /\
    lut_sum lut (2 ^ tm_bits q) codes 0 (@nzero RN) = Some (rdot query w) /\
    (tables <> [] -> table_sum tables v (@nzero RN) = Some (rdot query w))).
  { intros v Lv Bv. destruct (mse_codes store q K HK Hq v Lv Bv) as (codes & Eu & Lc & Cc & Erec).
    destruct (Hs v codes (@nzero RN) Lv Bv Eu Lc Cc) as (Hr & H1 & H2). rewrite zero_value, Rplus_0_l, Hr in H1, H2.
    exists codes, (back store K (tm_seed q) (levels_of store q K codes)). rewrite zero_value. split_and!; [done|by apply mse_decode_codes|exact H1|exact H2]. }
  destruct tables as [|t tables].
  - unfold turbo_quant_mse_score_batch. rewrite (batch_guard (mse_bytes q) vs), vectors_of_concat by done.
    apply (each_score (A := R) (mse_bytes q)); [done|]. intros v Lv Bv. destruct (Hv v Lv Bv) as (codes & w & Eu & Ew & H1 & _).
    rewrite Eu. cbn [mbind option_bind]. exists (rdot query w). split; [exact H1|]. by exists w.
  - unfold turbo_quant_mse_score_batch_byte_weights. rewrite (batch_guard (mse_bytes q) vs), vectors_of_concat by done.
    apply (each_score (A := R) (mse_bytes q)); [done|]. intros v Lv Bv. destruct (Hv v Lv Bv) as (codes & w & Eu & Ew & _ & H2).
    exists (rdot query w). split; [exact (H2 ltac:(done))|]. by exists w.
Qed.

Lemma rabitq_batch_exact (q : @RaBitQ RN) (Hq : rabitq_ok q) (query : list R) : len query = rq_dim q ->
  exists e, rabitq_query query q = Some (Ok e) /\ forall vs, blocks (rabitq_bytes q) vs ->
    exists scores : list R, rabitq_score_batch e (concat vs) = Some scores /\
      Forall2 (fun v s => exists w : list R, rabitq_decode q v = Some (Ok w) /\ s = pad_ratio store q * rdot query w) vs scores.
Proof.
  intros Hl. destruct (rabitq_exact store q Hq query Hl) as (e & E & Et & Hs). exists e. split; [done|]. intros vs Hvs.
  unfold rabitq_score_batch. rewrite Et. assert (Hpos : (0 < rabitq_bytes q)%N) by (unfold rabitq_bytes; lia).
  rewrite (proj2 (N.eqb_neq _ 0)), vectors_of_concat by (done || lia).
  apply (each_score (A := R) (rabitq_bytes q)); [done|]. intros v Lv Bv. destruct (Hs v Lv Bv) as (w & Ew & Hw).
  exists (pad_ratio store q * rdot query w). split; [exact Hw|]. by exists w.
Qed.

(** *** Gathered table entries *)

Lemma lane_add_sum (acc vals : list R) : length vals = length acc ->
  length (lane_add (NU := RN) acc vals) = length acc /\ rsum (lane_add (NU := RN) acc vals) = rsum acc + rsum vals.
Proof.
  unfold lane_add. change (@nadd RN) with Rplus. revert vals. induction acc as [|x acc IH]; intros [|y vals] H; try done.
  - split; [done|]. unfold rsum. simpl. lra.
  - cbn [zip_with length]. destruct (IH vals) as [E1 E2]; [by injection H|]. rewrite E1, !rsum_cons, E2. split; [done|lra].
Qed.
Lemma gather_sum_ok (m : @TurboQuantMse RN) K rotated (lut : list R) codes :
  tm_dim m = (2 ^ N.of_nat K)%N -> length rotated = (2 ^ K)%nat -> lut_ok store m K rotated lut -> are_codes (tm_bits m) codes -> length codes = (2 ^ K)%nat ->
  gather_sum (NU := RN) lut (2 ^ tm_bits m) codes (2 ^ K)%nat = lut_sum lut (2 ^ tm_bits m) codes 0 (@nzero RN).
Proof.
  intros HK Hrot Hlut Hc Hl. set (term := fun i => term store m K rotated i (nth i codes 0%N)).
  assert (Hlook : forall i, (i < 2 ^ K)%nat -> exists c, codes !! i = Some c /\ lut !! N.to_nat (N.of_nat i * 2 ^ tm_bits m + c) = Some (term i)).
  { intros i Hi. destruct (lookup_lt_is_Some_2 codes i) as [c Ec]; [lia|]. exists c. split; [done|]. unfold term.
    erewrite nth_lookup_Some by exact Ec. apply Hlut; [done|]. exact (Forall_lookup_1 _ _ _ _ Hc Ec). }
  etrans; [|symmetry; apply (lut_sum_ok store m K HK rotated Hrot lut codes _ Hlut Hc); apply nat_len; rewrite (tm_dim_nat store m K HK); done].
  rewrite zero_value, Rplus_0_l. unfold code_sum, sum_to. fold term. change (fun i => QuantScores.term store m K rotated i (nth i codes 0%N)) with term.
  set (c := map term (seq 0 (2 ^ K))). assert (Lc : length c = (2 ^ K)%nat) by (unfold c; by rewrite length_map, length_seq).
  assert (Hat : forall i, (i < 2 ^ K)%nat -> c !! i = Some (term i)).
  { intros i Hi. unfold c. by rewrite map_fmap, list_lookup_fmap, lookup_seq_lt. }
  apply two_loops; [done| |].
  - intros i acc Hi [Hacc Hsum]. rewrite (mapM_map (B := R) _ (fun k => term (i + k)%nat)).
    2: { intros k Hk. apply elem_of_seq in Hk. destruct (Hlook (i + k)%nat) as (x & E1 & E2); [lia|]. rewrite E1. cbn [mbind option_bind]. exact E2. }
    cbn [mbind option_bind]. eexists. split; [reflexivity|].
    destruct (lane_add_sum acc (map (fun k => term (i + k)%nat) (seq 0 8))) as [E1 E2]; [rewrite length_map, length_seq; by rewrite Hacc|].
    split; [etrans; [exact E1|exact Hacc]|]. etrans; [exact E2|]. rewrite Hsum. change (st_width avx2_style) with 8%nat.
    rewrite take_block, rsum_app. do 2 f_equal.
    apply list_val_ext; [rewrite length_map, length_seq, length_take, length_drop; lia|]. intros k Hk.
    rewrite length_map, length_seq in Hk. rewrite val_seq by done. unfold val.
    rewrite lookup_take_lt, lookup_drop, Hat by lia. done.
  - intros i s Hi Hs. destruct (Hlook i) as (x & E1 & E2); [lia|]. rewrite E1. cbn [mbind option_bind]. exists (s + term i). split.
    + by etrans; [apply (f_equal (fun o : option R => o ≫= _) E2)|].
    + apply summed_step; [apply Hat; lia|done].
Qed.
(** *** The inner-product codec *)

Lemma collect8 {A B} (f1 f2 : A -> option B) (g : A -> B) (vs : list A) :
  (forall v, v ∈ vs -> f1 v = Some (g v)) -> (forall v, v ∈ vs -> f2 v = Some (g v)) ->
  ('(i, scores) ← strides (length vs) 8 (length vs) 0 (fun i scores => s ← mapM f1 (take 8 (drop i vs)); Some (scores ++ s)) [];
   rest ← mapM f2 (drop i vs); Some (scores ++ rest)) = Some (map g vs).
Proof.
  intros H1 H2. apply (strides_bind _ _ _ (fun i scores => scores = map g (take i vs))); [lia| |apply Nat.le_0_l|lia|by rewrite take_0|].
  { intros i scores Hi ->. rewrite (mapM_map f1 g).
    - simpl. eexists. split; [done|]. by rewrite <- map_app, take_block.
    - intros v Hv. apply H1. apply elem_of_take in Hv as (k & Hk & _). rewrite lookup_drop in Hk. by eapply list_elem_of_lookup_2. }
  intros j scores -> Hj. rewrite (mapM_map f2 g).
  - simpl. by rewrite <- map_app, take_drop.
  - intros v Hv. apply H2. apply list_elem_of_lookup in Hv as [k Hk]. rewrite lookup_drop in Hk. by eapply list_elem_of_lookup_2.
Qed.
(** The vector a code decodes to. *)
Definition decoded (o : Outcome (list R)) : list R := match o with Some (Ok w) => w | _ => [] end.
Lemma prod_batch_exact isa (q : @TurboQuantProd RN) (Hq : prod_ok q) (query : list R) : len query = tp_dim q ->
  exists e, prod_query q query = Some (Ok e) /\ forall vs, blocks (prod_bytes q) vs ->
    exists scores : list R, prod_score_batch isa e (concat vs) = Some scores /\
      Forall2 (fun v s => exists w : list R, prod_decode q v = Some (Ok w) /\ s = rdot query w) vs scores.
Proof.
  intros Hl. assert (Hpos : (0 < prod_bytes q)%N) by (unfold prod_bytes; lia).
  destruct (prod_query_ok store q Hq query Hl) as (lut & tables & mask & E & Hlen & (K & rotated & HK & Hrot & Hlut) & Hs).
  eexists. split; [exact E|]. intros vs Hvs. set (e := prod_encoded store q query lut tables mask).
  set (g := fun v => rdot query (decoded (prod_decode q v))).
  enough (Hg : prod_score_batch isa e (concat vs) = Some (map g vs)).
  { eexists. split; [exact Hg|]. apply Forall2_fmap_r, Forall_Forall2_diag. eapply Forall_impl; [exact Hvs|]. intros v [Lv Bv].
    destruct (Hs v Lv Bv) as (a & b & alpha & codes & w & s & m & _ & _ & _ & _ & _ & _ & _ & Ew & _).
    exists w. split; [done|]. unfold g. by rewrite Ew. }
  assert (Hin : forall v, v ∈ vs -> prod_sums store q query lut tables mask v /\ True).
  { intros v Hv. unfold blocks in Hvs. rewrite Forall_forall in Hvs. destruct (Hvs v Hv) as [Lv Bv]. split; [by apply Hs|done]. }
  assert (Hw : len (pe_weights e) = qjl_bytes q).
  { unfold e, prod_encoded, weight_tables, len. cbn [pe_weights]. rewrite length_map, length_seq. lia. }
  assert (Hmath : forall v (w : list R) (s m alpha : R), prod_decode q v = Some (Ok w) ->
    rdot query w = s + alpha * tp_scale q * (sum_of_abs (NU := RN) (project q query) - 2 * m) ->
    g v = s + alpha * tp_scale q * (sum_of_abs (NU := RN) (project q query) - 2 * m)).
  { intros v w s m alpha Ew Hw'. unfold g. rewrite Ew. exact Hw'. }
  destruct tables as [|t tables].
  - change (prod_score_batch isa e (concat vs)) with (turbo_quant_prod_score_batch isa e (concat vs)).
    unfold turbo_quant_prod_score_batch. change (pe_bytes e) with (prod_bytes q). rewrite (batch_guard (prod_bytes q) vs), vectors_of_concat by done.
    apply mapM_map. intros v Hv. destruct (Hin v Hv) as [(a & b & alpha & codes & w & s & m & Esp & Eu & Lc & Cc & Hl1 & _ & Hq1 & Ew & Hw') _].
    unfold prod_batch_one, e, prod_encoded. cbn [pe_bits pe_dim pe_bytes pe_lut pe_levels pe_mask pe_weights pe_sum_query pe_scale].
    change (packed_bytes (tp_dim q) (tp_bits q - 1)) with (prod_mse_bytes q). change (packed_bytes (tp_dim q) 1) with (qjl_bytes q).
    rewrite Esp, Eu. cbn [mbind option_bind].
    assert (Hgather : gather_sum (NU := RN) lut (2 ^ (tp_bits q - 1)) codes (N.to_nat (tp_dim q)) = lut_sum lut (2 ^ (tp_bits q - 1)) codes 0 (@nzero RN)).
    { assert (Lc' : length codes = (2 ^ K)%nat) by (rewrite <- (tm_dim_nat store _ K HK), (pk_dim q Hq); by apply len_nat).
      rewrite (prod_bits_mse q Hq) in Cc |- *. rewrite <- (pk_dim q Hq), (tm_dim_nat store _ K HK).
      by apply (gather_sum_ok (tp_mse q) K rotated). }
    rewrite Hgather, Hl1. destruct isa; cbn [mbind option_bind]; rewrite Hq1; cbn [mbind option_bind]; f_equal;
      rewrite zero_value, Rplus_0_l; symmetry; by apply (Hmath v w s m alpha).
  - change (prod_score_batch isa e (concat vs)) with (turbo_quant_prod_score_batch_byte_weights e (concat vs)).
    unfold turbo_quant_prod_score_batch_byte_weights. change (pe_bytes e) with (prod_bytes q).
    rewrite (batch_guard (prod_bytes q) vs), vectors_of_concat by done.
    assert (Hlt : len (pe_byte_weights e) = prod_mse_bytes q) by by apply Hlen.
    assert (Hone : forall v, v ∈ vs -> prod_unrolled e v = Some (g v) /\ prod_rest e v = Some (g v)).
    { intros v Hv. destruct (Hin v Hv) as [(a & b & alpha & codes & w & s & m & Esp & _ & _ & _ & _ & Ht & Hq1 & Ew & Hw') _].
      specialize (Ht ltac:(done) (@nzero RN)). rewrite (Hmath v w s m alpha Ew Hw').
      unfold prod_unrolled, prod_rest. rewrite Hlt, Hw. change (pe_bytes e) with (prod_bytes q). rewrite Esp.
      change (pe_byte_weights e) with (t :: tables). change (pe_mask e) with mask.
      change (pe_weights e) with (weight_tables (NU := RN) (map nabs (project q query)) (qjl_bytes q)).
      change (pe_sum_query e) with (sum_of_abs (NU := RN) (project q query)). change (pe_scale e) with (tp_scale q).
      split; (etrans; [apply (f_equal (fun o : option R => o ≫= _) Ht)|]); cbn [mbind option_bind]; rewrite Hq1; cbn [mbind option_bind];
        rewrite ?zero_value; change (@nadd RN) with Rplus; change (@nmul RN) with Rmult; change (@num_t RN) with R in *; f_equal; lra. }
    apply (collect8 (prod_unrolled e) (prod_rest e) g vs); intros v Hv; by apply Hone.
Qed.

(** ** Any codec *)

(** How far a score of the batch may be from the product: only the population count of
    the sign codec rounds. *)
Definition within (q : @VectorQuantizer RN) (s t : R) : Prop :=
  match q with Sign dim => Rabs (s - t) <= sign_error dim | _ => s = t end.

End batch.

