(* ===== verification/QuantSafe.v ===== *)
(** * The scoring kernels stay inside their slices

    For any numbers, binary32 included: a query of the quantizer's dimension is encoded
    without a panic, and every kernel scores a block of encoded vectors without an index
    out of range, with one score for each vector ([kernels_safe]). The tables of a query
    have 256 entries for each byte, and its lookup table one row of levels for each
    component. *)

From S2P Require Import Prelude Core Floats Metrics Numeric Simd Codes Hadamard Quant QuantSearch QuantTheorems QuantExact QuantScores QuantBatch.
From Stdlib Require Import Lia.

(** A loop that cannot fail, and what follows it. *)
Lemma strides_some {S B} w n (body : nat -> S -> option S) (k : nat * S -> option B) i s :
  (0 < w)%nat -> (i <= n)%nat -> (forall j s, (j + w <= n)%nat -> is_Some (body j s)) ->
  (forall j s, (j <= n)%nat -> is_Some (k (j, s))) -> is_Some (strides n w n i body s ≫= k).
Proof.
  intros Hw Hi Hb Hk. destruct (strides_rule w n body (fun _ _ => True) Hw) with (fuel := n) (i := i) (s := s) as (j & s' & -> & _ & Hj);
    [|lia..|done|apply Hk; lia].
  intros j s0 Hj _. destruct (Hb j s0 Hj) as [s1 E]. by exists s1.
Qed.
Lemma bind_some {A B} (o : option A) (f : A -> option B) : is_Some o -> (forall x, is_Some (f x)) -> is_Some (o ≫= f).
Proof. intros [x ->] H. apply H. Qed.
Lemma mapM_is_Some {A B} (f : A -> option B) l : (forall x, x ∈ l -> is_Some (f x)) -> exists ys, mapM f l = Some ys /\ length ys = length l.
Proof.
  intros H. destruct (mapM_total f (fun _ _ => True) l) as (ys & E & Hl).
  - intros x Hx. destruct (H x Hx) as [y E]. by exists y.
  - exists ys. split; [done|]. symmetry. by eapply Forall2_length.
Qed.
Lemma lookup_in {A} (l : list A) i : (i < length l)%nat -> is_Some (l !! i).
Proof. apply lookup_lt_is_Some_2. Qed.

Section safe.
Context {NU : Num} {RC : RandCrate}.

(** ** Tables of bytes *)

Definition full_rows (t : list (list num_t)) : Prop := Forall (fun r => length r = 256%nat) t.
Lemma row_entry (r : list num_t) x : length r = 256%nat -> x < 256 -> is_Some (r !! N.to_nat x).
Proof. intros Hr Hx. apply lookup_in. lia. Qed.
Lemma xor_byte a b : a < 256 -> b < 256 -> N.lxor a b < 256.
Proof.
  intros Ha Hb. apply (small_of_bits _ 8). intros k Hk. rewrite N.lxor_spec, !(testbit_small _ 8) by done. done.
Qed.
Lemma table_sum_some tables bytes acc :
  full_rows tables -> is_bytes bytes -> (length bytes <= length tables)%nat -> is_Some (table_sum tables bytes acc).
Proof.
  intros Ht Hb. revert tables acc Ht. induction Hb as [|b bytes Hb _ IH]; intros [|t tables] acc Ht Hl; simpl in *; try done; try lia.
  apply Forall_cons in Ht as [H1 H2]. apply bind_some; [by apply row_entry|]. intros x. apply IH; [done|lia].
Qed.
Lemma sign_diff_some mask encoded weights s :
  full_rows weights -> is_bytes mask -> is_bytes encoded -> is_Some (sign_diff mask encoded weights s).
Proof.
  intros Hw Hm. revert encoded weights s Hw. induction Hm as [|m mask Hm _ IH]; intros [|x encoded] [|w weights] s Hw He; simpl; try done.
  apply Forall_cons in Hw as [H1 H2]. apply Forall_cons in He as [H3 H4].
  apply bind_some; [apply row_entry; [done|by apply xor_byte]|]. intros y. by apply IH.
Qed.
Lemma qjl_some mask weights bytes acc : full_rows weights -> is_bytes mask -> is_bytes bytes ->
  length mask = length bytes -> length weights = length bytes -> is_Some (qjl_loop mask weights bytes acc).
Proof.
  intros Hw Hm Hb. revert mask weights acc Hw Hm.
  induction Hb as [|b bytes Hb _ IH]; intros [|m mask] [|w weights] acc Hw Hm L1 L2; simpl in *; try done.
  apply Forall_cons in Hw as [H1 H2]. apply Forall_cons in Hm as [H3 H4].
  apply bind_some; [apply row_entry; [done|by apply xor_byte]|]. intros y. apply IH; [done|done|lia..].
Qed.
Lemma weight_tables_full abs n : full_rows (weight_tables abs n) /\ length (weight_tables abs n) = N.to_nat n.
Proof.
  unfold weight_tables, full_rows. split; [|by rewrite length_map, length_seq].
  apply Forall_fmap, Forall_forall. intros b _. unfold compose. by rewrite length_map, length_seq.
Qed.

(** ** Lookup tables *)

Lemma lut_index j levels c n : j < n -> c < levels -> j * levels + c < n * levels.
Proof. nia. Qed.
Lemma lut_sum_some (lut : list num_t) levels codes j acc :
  Forall (fun c => c < levels) codes -> (j + len codes) * levels <= len lut -> is_Some (lut_sum lut levels codes j acc).
Proof.
  intros Hc. revert j acc. induction Hc as [|c codes Hc _ IH]; intros j acc Hl; simpl; [done|].
  unfold len in *. simpl in Hl. apply bind_some; [apply lookup_in; nia|]. intros x. apply IH. nia.
Qed.
Lemma code_lut_some (rotated cs : list num_t) scale levels : len cs = levels ->
  exists lut, code_lut rotated cs scale levels = Some lut /\ len lut = len rotated * levels.
Proof.
  intros Hl. unfold code_lut. rewrite Hl, N.ltb_irrefl. eexists. split; [done|]. unfold len in *.
  rewrite (length_concat_blocks (N.to_nat levels)); [rewrite length_map; lia|].
  apply Forall_fmap, Forall_forall. intros x _. unfold compose. rewrite length_map, length_take. lia.
Qed.
Lemma masked_code x nbits : 0 < nbits <= 8 -> N.land x (code_mask nbits) < 2 ^ nbits.
Proof.
  intros Hb. assert (E : code_mask nbits = N.ones nbits).
  { unfold code_mask. rewrite N.ones_equiv, N.pred_sub. apply N.mod_small. pose proof (N.pow_le_mono_r 2 nbits 8). change (2 ^ 8) with 256 in *. lia. }
  rewrite E, N.land_ones. apply N.mod_lt, N.pow_nonzero. lia.
Qed.
Lemma byte_weight_some (lut : list num_t) nbits dim b x : 0 < nbits <= 8 -> len lut = dim * 2 ^ nbits ->
  is_Some (byte_weight lut (2 ^ nbits) nbits dim b x).
Proof.
  intros Hb Hl. unfold byte_weight. set (per := 8 / nbits). set (start := N.of_nat b * per).
  assert (Hk : Forall (fun k => start + N.of_nat k < dim) (seq 0 (N.to_nat (N.min per (dim - start))))).
  { apply Forall_forall. intros k Hk. apply elem_of_seq in Hk. lia. }
  generalize (@nzero NU). induction Hk as [|k ks Hk _ IH]; intros z; cbn [foldl]; [done|].
  cbn [mbind option_bind]. set (code := N.land _ _). assert (Hc : code < 2 ^ nbits) by by apply masked_code.
  destruct (lookup_in lut (N.to_nat ((start + N.of_nat k) * 2 ^ nbits + code))) as [y ->].
  { pose proof (lut_index _ _ _ _ Hk Hc). unfold len in Hl. lia. }
  apply IH.
Qed.
Lemma byte_tables_some (lut : list num_t) nbits dim bytes : 0 < nbits <= 8 -> len lut = dim * 2 ^ nbits ->
  exists tables, byte_tables lut (2 ^ nbits) nbits dim bytes = Some tables /\ full_rows tables /\ (tables = [] \/ len tables = bytes).
Proof.
  intros Hb Hl. unfold byte_tables. destruct (_ && _); [|exists []; split; [done|split; [constructor|by left]]].
  destruct (mapM_total (fun b => mapM (byte_weight lut (2 ^ nbits) nbits dim b) (seq 0 256)) (fun _ r => length r = 256%nat)
    (seq 0 (N.to_nat bytes))) as (tables & E & H).
  { intros b _. apply mapM_is_Some. intros x _. by apply byte_weight_some. }
  exists tables. split; [done|]. split.
  - eapply Forall2_Forall_r; [exact H|]. apply Forall_forall. intros b _ y Hy. exact Hy.
  - right. apply Forall2_length in H. rewrite length_seq in H. unfold len. lia.
Qed.
(** ** One codec at a time *)

(** Every vector of a block is scored, alone and in the block. *)
Definition scores_all (bytes : N) (one : list N -> option num_t) (batch : list N -> option (list num_t)) : Prop :=
  forall vs, blocks bytes vs ->
    Forall (fun v => is_Some (one v)) vs /\ exists scores, batch (concat vs) = Some scores /\ length scores = length vs.

Lemma blocks_each bytes vs (f : list N -> option num_t) : blocks bytes vs ->
  (forall v, len v = bytes -> is_bytes v -> is_Some (f v)) ->
  Forall (fun v => is_Some (f v)) vs /\ exists scores, mapM f vs = Some scores /\ length scores = length vs.
Proof.
  intros Hvs Hf. assert (H : Forall (fun v => is_Some (f v)) vs) by (eapply Forall_impl; [exact Hvs|]; intros v [? ?]; by apply Hf).
  split; [done|]. apply mapM_is_Some. rewrite Forall_forall in H. exact H.
Qed.
Lemma one_by_one bytes (one : list N -> option num_t) batch : 0 < bytes ->
  (forall v, len v = bytes -> is_bytes v -> is_Some (one v)) ->
  (forall vs, blocks bytes vs -> batch (concat vs) = mapM one vs) -> scores_all bytes one batch.
Proof. intros Hpos Hone Hb vs Hvs. rewrite Hb by done. by apply (blocks_each bytes). Qed.

Lemma loadu_some w (v : list num_t) i : (i + w <= length v)%nat -> is_Some (loadu w v i).
Proof. intros Hi. unfold loadu. by rewrite (proj2 (Nat.leb_le _ _)). Qed.
Lemma load_codes_some encoded i : (i + 8 <= length encoded)%nat -> is_Some (load_codes (NU := NU) encoded i).
Proof. intros Hi. unfold load_codes. by rewrite (proj2 (Nat.leb_le _ _)). Qed.
Lemma batch_one_some query encoded mn sc base : (base + length query <= length encoded)%nat ->
  is_Some (batch_avx2_one query encoded mn sc base).
Proof.
  intros Hb. unfold batch_avx2_one. apply strides_some; [lia|lia| |].
  - intros j s Hj. apply bind_some; [by apply loadu_some|]. intros q. apply bind_some; [apply load_codes_some; lia|done].
  - intros j s Hj. cbn [fst snd]. apply strides_some; [lia|done| |by intros].
    intros k z Hk. apply bind_some; [apply lookup_in; lia|]. intros q. apply bind_some; [apply lookup_in; lia|done].
Qed.
Lemma scalar_loop_some query encoded mn sc s : (length encoded <= length query)%nat ->
  is_Some (scalar_dot_loop query encoded mn sc s).
Proof.
  revert query s. induction encoded as [|c encoded IH]; intros [|x query] s Hl; simpl in *; try done; try lia. apply IH. lia.
Qed.
Lemma scalar_dot_some isa query encoded mn sc : length encoded = length query -> is_Some (scalar_quantized_dot isa query encoded mn sc).
Proof.
  intros Hl. destruct isa; simpl; try (apply scalar_loop_some; lia). unfold scalar_quantized_dot_avx2. rewrite Hl, Nat.min_id.
  apply strides_some; [lia|lia| |].
  - intros j s Hj. apply bind_some; [apply load_codes_some; lia|]. intros q. apply bind_some; [by apply loadu_some|done].
  - intros j s Hj. cbn [fst snd]. apply strides_some; [lia|done| |by intros].
    intros k z Hk. apply bind_some; [apply lookup_in; lia|]. intros q. apply bind_some; [apply lookup_in; lia|done].
Qed.
Lemma scalar_safe isa q query : len query = sq_dim q -> 0 < sq_dim q ->
  exists e, scalar_query query q = Some (Ok e) /\ se_dim e = sq_dim q /\
    scores_all (sq_dim q) (scalar_score isa e) (scalar_score_batch isa e).
Proof.
  intros Hq Hd. unfold scalar_query. rewrite check_ok by done. eexists. split; [done|]. split; [done|]. intros vs Hvs.
  unfold scalar_score, scalar_score_batch, scalar_quantized_dot_batch. cbn [se_dim se_query se_min se_scale].
  rewrite Hq, (batch_guard (sq_dim q) vs) by done.
  assert (Hlen : forall v : list N, len v = sq_dim q -> length v = length query) by (intros v Hv; unfold len in *; lia).
  split.
  { eapply Forall_impl; [exact Hvs|]. intros v [Hv _]. rewrite Hv, N.ltb_irrefl. apply scalar_dot_some.
    rewrite take_ge by (unfold len in Hv; lia). by apply Hlen. }
  assert (Hone : forall mn sc, exists scores, mapM (fun v => scalar_quantized_dot_scalar query v mn sc) vs = Some scores /\ length scores = length vs).
  { intros mn sc. apply (blocks_each (sq_dim q) vs _ Hvs). intros v Hv _. apply scalar_loop_some. by rewrite (Hlen v Hv). }
  destruct isa; try (rewrite vectors_of_concat by done; apply Hone).
  rewrite (proj1 (blocks_count (sq_dim q) vs Hd Hvs)).
  set (mn := sq_min q). set (sc := if nltb _ _ then nzero else _).
  set (f := fun i => batch_avx2_one query (concat vs) mn sc (i * length query)).
  assert (Hb : Forall (fun v => length v = length query) vs) by (eapply Forall_impl; [exact Hvs|]; intros v [Hv _]; by apply Hlen).
  assert (Hf : forall i, (i < length vs)%nat -> is_Some (f i)).
  { intros i Hi. apply batch_one_some. rewrite (length_concat_blocks _ _ Hb). nia. }
  exists (map (fun i => default nzero (f i)) (seq 0 (length vs))). split; [|by rewrite length_map, length_seq].
  replace (N.to_nat (len vs)) with (length vs) by (unfold len; lia).
  apply (collect f). intros i Hi. destruct (Hf i Hi) as [x ->]. done.
Qed.

Lemma sign_safe popcnt query dim : len query = dim -> 0 < dim ->
  exists e, sign_query query dim = Some (Ok e) /\ len (sg_mask e) = bytes_per_vector dim /\
    scores_all (bytes_per_vector dim) (sign_score e) (sign_score_batch popcnt e).
Proof.
  intros Hl Hd. unfold sign_query. rewrite check_ok by done. cbn [out_bind].
  destruct (signs_ok query (bytes_per_vector dim)) as (mask & E & Lm & Bm & _); [rewrite Hl; apply bytes_room|].
  rewrite E. cbn [mbind option_bind may_panic fmap option_fmap option_map]. eexists. split; [done|]. split; [done|].
  destruct (weight_tables_full (map nabs query) (bytes_per_vector dim)) as [Hw _].
  assert (Hpos : 0 < bytes_per_vector dim).
  { pose proof (bytes_room dim). destruct (N.eq_0_gt_0_cases (bytes_per_vector dim)) as [E0|]; [|done]. rewrite E0 in *. lia. }
  assert (Hdiff : forall v, is_bytes v -> is_Some (sign_diff mask v (weight_tables (map nabs query) (bytes_per_vector dim)) nzero)).
  { intros v Bv. by apply sign_diff_some. }
  intros vs Hvs. unfold sign_score, sign_score_batch, sign_quantized_score_batch. cbn [sg_mask sg_weights sg_sum_abs].
  rewrite Lm, (batch_guard (bytes_per_vector dim) vs), vectors_of_concat by done.
  assert (H : forall v, len v = bytes_per_vector dim -> is_bytes v ->
    is_Some (table_score mask (weight_tables (map nabs query) (bytes_per_vector dim)) (sum_of_abs query) v)).
  { intros v _ Bv. apply bind_some; [by apply Hdiff|done]. }
  split; [by apply (blocks_each _ vs _ Hvs)|]. destruct (uniform_tables _) as [u|].
  - eexists. split; [done|]. by rewrite length_map.
  - by apply (blocks_each _ vs _ Hvs).
Qed.
Lemma rabitq_safe q query : rabitq_ok q -> len query = rq_dim q ->
  exists e, rabitq_query query q = Some (Ok e) /\ re_total e = rabitq_bytes q /\
    scores_all (rabitq_bytes q) (rabitq_score e) (rabitq_score_batch e).
Proof.
  intros Hq Hl. unfold rabitq_query. rewrite check_ok by done. cbn [out_bind].
  destruct (project_total q Hq query Hl) as (proj & E & _). rewrite E. cbn [mbind option_bind may_panic fmap option_fmap option_map].
  eexists. split; [done|]. split; [done|]. assert (Hpos : 0 < rabitq_bytes q) by (unfold rabitq_bytes; lia).
  apply one_by_one; [done| |].
  - intros v Lv Bv. unfold rabitq_score. cbn [re_total re_code_bytes re_luts]. rewrite Lv, N.ltb_irrefl.
    apply bind_some; [|done]. unfold rabitq_bytes in Lv. apply table_sum_some.
    + apply Forall_fmap, Forall_forall. intros c _. unfold compose. by rewrite length_map, length_seq.
    + by apply is_bytes_slice.
    + rewrite length_map, length_seq. assert (L : len (slice 0 (code_bytes q) v) = code_bytes q) by (apply len_slice; lia).
      unfold len in L. lia.
  - intros vs Hvs. unfold rabitq_score_batch. cbn [re_total]. by rewrite (proj2 (N.eqb_neq _ 0)), vectors_of_concat by (done || lia).
Qed.

(** *** TurboQuant *)

Section mse.
Context (m : TurboQuantMse) (Hm : mse_ok m).
Lemma mse_dim_pos : 0 < tm_dim m.
Proof. destruct (mk_dim m Hm) as [K ->]. apply N.neq_0_lt_0, N.pow_nonzero. lia. Qed.
Lemma mse_bytes_some : 0 < mse_bytes m.
Proof.
  pose proof mse_dim_pos. pose proof (mk_bits m Hm). unfold mse_bytes, packed_bytes.
  pose proof (N.div_mod (tm_dim m * tm_bits m + 7) 8 ltac:(lia)). pose proof (N.mod_lt (tm_dim m * tm_bits m + 7) 8 ltac:(lia)). nia.
Qed.
(** What the tables of a query are good for. *)
Definition tables_score (lut : list num_t) (tables : list (list num_t)) (v : list N) : Prop :=
  exists codes, unpack_codes v (tm_bits m) (tm_dim m) = Some codes /\
    length codes = N.to_nat (tm_dim m) /\ Forall (fun c => c < 2 ^ tm_bits m) codes /\
    (forall acc, is_Some (lut_sum lut (2 ^ tm_bits m) codes 0 acc)) /\
    (tables <> [] -> forall acc, is_Some (table_sum tables v acc)).
Lemma query_tables_some (rotated : list num_t) scale : len rotated = tm_dim m ->
  exists lut tables, code_lut rotated (tm_centroids m) scale (2 ^ tm_bits m) = Some lut /\
    byte_tables lut (2 ^ tm_bits m) (tm_bits m) (tm_dim m) (mse_bytes m) = Some tables /\
    len lut = tm_dim m * 2 ^ tm_bits m /\ (tables = [] \/ len tables = mse_bytes m) /\
    forall v, len v = mse_bytes m -> is_bytes v -> tables_score lut tables v.
Proof.
  intros Hr. destruct (code_lut_some rotated (tm_centroids m) scale (2 ^ tm_bits m) (mk_centroids m Hm)) as (lut & El & Ll).
  rewrite Hr in Ll. destruct (byte_tables_some lut (tm_bits m) (tm_dim m) (mse_bytes m) (mk_bits m Hm) Ll) as (tables & Et & Hf & Hlen).
  exists lut, tables. split_and!; [done..|]. intros v Lv Bv.
  destruct (unpack_codes_spec v (tm_bits m) (tm_dim m) (mk_bits m Hm) Lv Bv) as (codes & Eu & Lc & Hc & _).
  exists codes. split_and!; [done|by apply len_nat|done| |].
  - intros acc. apply lut_sum_some; [done|]. rewrite Lc, Ll. lia.
  - intros Ht acc. destruct Hlen as [|Hlen]; [done|]. apply table_sum_some; [done..|]. unfold len in *. lia.
Qed.
Lemma gather_some lut codes : len lut = tm_dim m * 2 ^ tm_bits m -> length codes = N.to_nat (tm_dim m) ->
  Forall (fun c => c < 2 ^ tm_bits m) codes -> is_Some (gather_sum lut (2 ^ tm_bits m) codes (N.to_nat (tm_dim m))).
Proof.
  intros Ll Lc Hc.
  assert (Hat : forall i, (i < length codes)%nat -> is_Some (c ← codes !! i; lut !! N.to_nat (N.of_nat i * 2 ^ tm_bits m + c))).
  { intros i Hi. destruct (lookup_in codes i Hi) as [c Ec]. rewrite Ec. apply lookup_in.
    pose proof (Forall_lookup_1 _ _ _ _ Hc Ec) as Hlt. simpl in Hlt. pose proof (lut_index (N.of_nat i) _ c (tm_dim m) ltac:(lia) Hlt).
    unfold len in Ll. lia. }
  unfold gather_sum. rewrite <- Lc. apply strides_some; [lia|lia| |].
  - intros j acc Hj. apply bind_some; [|done].
    edestruct (mapM_is_Some (fun k => c ← codes !! (j + k)%nat; lut !! N.to_nat (N.of_nat (j + k) * 2 ^ tm_bits m + c)) (seq 0 8))
      as (ys & E & _); [|rewrite E; by eexists].
    intros k Hk. apply elem_of_seq in Hk. apply Hat. lia.
  - intros j acc Hj. cbn [fst snd]. apply strides_some; [lia|done| |by intros].
    intros k s Hk. destruct (Hat k) as [x E]; [lia|]. destruct (codes !! k) as [c|]; [|done]. cbn [mbind option_bind] in E |- *.
    rewrite E. by eexists.
Qed.
Lemma mse_safe query : len query = tm_dim m ->
  exists e, mse_query m query = Some (Ok e) /\ me_bytes e = mse_bytes m /\
    scores_all (mse_bytes m) (mse_score e) (mse_score_batch e).
Proof.
  intros Hl. unfold mse_query. rewrite check_ok by done. cbn [out_bind].
  destruct (rotate_unit_total m Hm query Hl) as (rotated & Er & Lr). unfold rotate_query. rewrite Er. cbn [mbind option_bind].
  destruct (query_tables_some rotated (centroid_scale m) Lr) as (lut & tables & -> & Et & _ & _ & Hs). cbn [mbind option_bind].
  rewrite Et. cbn [mbind option_bind may_panic fmap option_fmap option_map].
  eexists. split; [done|]. split; [done|]. pose proof mse_bytes_some as Hpos. intros vs Hvs.
  unfold mse_score, mse_score_batch. cbn [me_bytes me_byte_weights me_bits me_dim me_lut me_levels].
  destruct tables as [|t tables]; unfold turbo_quant_mse_score_batch, turbo_quant_mse_score_batch_byte_weights;
    rewrite (batch_guard (mse_bytes m) vs), vectors_of_concat by done; (split; [apply (blocks_each (mse_bytes m) vs _ Hvs)|apply (blocks_each (mse_bytes m) vs _ Hvs)]);
    intros v Lv Bv; rewrite ?Lv, ?N.eqb_refl; cbn [negb]; destruct (Hs v Lv Bv) as (codes & Eu & _ & _ & H1 & H2); rewrite ?Eu;
    [apply H1|apply H1|by apply H2|by apply H2].
Qed.
End mse.

(** Eight at a time, and the rest. *)
Lemma collect8_some {A} (f1 f2 : A -> option num_t) (vs : list A) :
  (forall v, v ∈ vs -> is_Some (f1 v)) -> (forall v, v ∈ vs -> is_Some (f2 v)) ->
  exists scores, ('(i, scores) ← strides (length vs) 8 (length vs) 0 (fun i scores => s ← mapM f1 (take 8 (drop i vs)); Some (scores ++ s)) [];
     rest ← mapM f2 (drop i vs); Some (scores ++ rest)) = Some scores /\ length scores = length vs.
Proof.
  intros H1 H2. destruct (strides_rule 8 (length vs) (fun i scores => s ← mapM f1 (take 8 (drop i vs)); Some (scores ++ s))
    (fun i scores => length scores = i) ltac:(lia)) with (fuel := length vs) (i := 0%nat) (s := @nil num_t) as (j & scores & -> & Hs & Hj);
    [|lia|lia|done|].
  - intros i scores Hi Hs. destruct (mapM_is_Some f1 (take 8 (drop i vs))) as (ys & -> & Hy).
    + intros v Hv. apply H1. apply elem_of_take in Hv as (k & Hk & _). rewrite lookup_drop in Hk. by eapply list_elem_of_lookup_2.
    + eexists. split; [done|]. rewrite length_app, Hy, length_take, length_drop. lia.
  - destruct (mapM_is_Some f2 (drop j vs)) as (ys & E & Hy).
    + intros v Hv. apply H2. apply list_elem_of_lookup in Hv as [k Hk]. rewrite lookup_drop in Hk. by eapply list_elem_of_lookup_2.
    + cbn [mbind option_bind]. rewrite E. eexists. split; [done|]. rewrite length_app, Hy, length_drop. lia.
Qed.
(** The batch kernels, on the fields of a query whose tables are complete. *)
Lemma prod_batch_some isa m e total vs : mse_ok m -> blocks total vs -> 0 < total -> pe_bytes e = total -> pe_dim e = tm_dim m ->
  pe_bits e - 1 = tm_bits m -> pe_levels e = 2 ^ tm_bits m -> len (pe_lut e) = tm_dim m * 2 ^ tm_bits m ->
  (pe_byte_weights e = [] \/ len (pe_byte_weights e) = mse_bytes m) -> len (pe_weights e) = packed_bytes (tm_dim m) 1 ->
  (forall v, len v = total -> is_bytes v -> exists a b alpha,
    split_encoded (mse_bytes m) (packed_bytes (tm_dim m) 1) total v = (a, b, alpha) /\ tables_score m (pe_lut e) (pe_byte_weights e) a /\
    forall acc, is_Some (qjl_loop (pe_mask e) (pe_weights e) b acc)) ->
  exists scores, prod_score_batch isa e (concat vs) = Some scores /\ length scores = length vs.
Proof.
  intros Hm Hvs Hpos Eb Ed Ebits El Ll Hlen Hw Hparts. unfold prod_score_batch. destruct (pe_byte_weights e) as [|t ts] eqn:Et.
  - unfold turbo_quant_prod_score_batch. rewrite Eb, (batch_guard total vs), vectors_of_concat by done.
    apply (blocks_each total vs _ Hvs). intros v Lv Bv.
    destruct (Hparts v Lv Bv) as (a & b & alpha & Es & (codes & Eu & Lc & Hc & H1 & _) & H3).
    unfold prod_batch_one. rewrite Ebits, Ed, Eb. change (packed_bytes (tm_dim m) (tm_bits m)) with (mse_bytes m).
    rewrite Es, Eu, El. cbn [mbind option_bind]. apply bind_some; [|intros s; apply bind_some; [apply H3|done]].
    destruct isa; try apply H1. by apply gather_some.
  - destruct Hlen as [|Hlen]; [done|]. unfold turbo_quant_prod_score_batch_byte_weights.
    rewrite Eb, (batch_guard total vs), vectors_of_concat by done.
    assert (Hin : forall v, v ∈ vs -> is_Some (prod_unrolled e v) /\ is_Some (prod_rest e v)).
    { intros v Hv. unfold blocks in Hvs. rewrite Forall_forall in Hvs. destruct (Hvs v Hv) as [Lv Bv].
      destruct (Hparts v Lv Bv) as (a & b & alpha & Es & (codes & _ & _ & _ & _ & H2) & H3). specialize (H2 ltac:(done)).
      unfold prod_unrolled, prod_rest. rewrite Et, Hlen, Hw, Eb, Es.
      split; (apply bind_some; [apply H2|]); intros s; (apply bind_some; [apply H3|done]). }
    apply (collect8_some (prod_unrolled e) (prod_rest e)); intros v Hv; by apply Hin.
Qed.

(** The inner-product query, and the sum of its signs. *)
Lemma prod_safe isa q query : prod_ok q -> len query = tp_dim q ->
  exists e, prod_query q query = Some (Ok e) /\ pe_bytes e = prod_bytes q /\
    scores_all (prod_bytes q) (prod_score e) (prod_score_batch isa e).
Proof.
  intros Hq Hl. pose proof (pk_mse q Hq) as Hm. unfold prod_query. rewrite check_ok by done. cbn [out_bind].
  destruct (rotate_unit_total (tp_mse q) Hm query) as (rotated & Er & Lr); [by rewrite (pk_dim q Hq)|].
  unfold rotate_query. rewrite Er. cbn [mbind option_bind].
  destruct (query_tables_some (tp_mse q) Hm rotated (centroid_scale (tp_mse q)) Lr) as (lut & tables & El & Et & Ll & Hlen & Hs).
  rewrite (prod_bits_mse q Hq), (prod_mse_size q Hq), <- (pk_dim q Hq), El. cbn [mbind option_bind]. rewrite Et. cbn [mbind option_bind].
  destruct (signs_ok (project q query) (qjl_bytes q)) as (mask & Em & Lm & Bm & _).
  { rewrite (project_length q Hq). unfold qjl_bytes. rewrite <- sign_bytes_packed. apply bytes_room. }
  rewrite Em. cbn [mbind option_bind may_panic fmap option_fmap option_map]. eexists. split; [done|]. split; [done|].
  set (e := {| pe_dim := _ |}). destruct (weight_tables_full (map nabs (project q query)) (qjl_bytes q)) as [Hw Lw].
  assert (Hpos : 0 < prod_bytes q) by (unfold prod_bytes; lia).
  (* a vector's parts *)
  assert (Hparts : forall v, len v = prod_bytes q -> is_bytes v -> exists a b alpha,
    split_encoded (mse_bytes (tp_mse q)) (qjl_bytes q) (prod_bytes q) v = (a, b, alpha) /\ tables_score (tp_mse q) lut tables a /\
    forall acc, is_Some (qjl_loop mask (weight_tables (map nabs (project q query)) (qjl_bytes q)) b acc)).
  { intros v Lv Bv. destruct (prod_parts_ok q Hq v Lv Bv) as (a & b & alpha & _ & Es & La & Ba & Lb & Bb).
    rewrite (prod_mse_size q Hq) in Es. exists a, b, alpha. split; [done|]. split; [by apply Hs|]. intros acc.
    apply qjl_some; [done..| |]; [|rewrite Lw]; unfold len in *; lia. }
  intros vs Hvs. split.
  - apply (blocks_each _ vs _ Hvs). intros v Lv Bv. destruct (Hparts v Lv Bv) as (a & b & alpha & Es & (codes & Eu & _ & _ & H1 & H2) & H3).
    unfold prod_score, e. cbn [pe_dim pe_bits pe_mask pe_weights pe_sum_query pe_scale pe_byte_weights pe_lut pe_levels].
    rewrite (prod_bits_mse q Hq). change (packed_bytes (tm_dim (tp_mse q)) (tm_bits (tp_mse q))) with (mse_bytes (tp_mse q)).
    rewrite (pk_dim q Hq) in Eu |- *. change (packed_bytes (tp_dim q) 1) with (qjl_bytes q).
    assert (Esum : mse_bytes (tp_mse q) + qjl_bytes q + 4 = prod_bytes q) by (unfold prod_bytes; by rewrite (prod_mse_size q Hq)).
    rewrite Esum, Lv, N.eqb_refl. cbn [negb]. rewrite Es. cbn [fst snd].
    apply bind_some; [|intros s; apply bind_some; [apply H3|done]].
    destruct tables; [rewrite Eu; apply H1|by apply H2].
  - apply (prod_batch_some isa (tp_mse q) e (prod_bytes q) vs); try done; unfold e;
      cbn [pe_dim pe_bits pe_levels pe_weights pe_mask pe_lut pe_byte_weights].
    + by apply prod_bits_mse.
    + rewrite (pk_dim q Hq). change (packed_bytes (tp_dim q) 1) with (qjl_bytes q). unfold len. rewrite Lw. lia.
    + intros v Lv Bv. rewrite (pk_dim q Hq). by apply Hparts.
Qed.

(** ** Every quantizer *)

Lemma scores_blocks isa popcnt (q : VectorQuantizer) (v : list num_t) : built q -> len v = vq_dim q -> 0 < vq_dim q ->
  exists e, encode_query q v = Some (Ok e) /\ query_bytes e = encoded_bytes q /\ forall vs, blocks (encoded_bytes q) vs ->
    Forall (fun bytes => is_Some (score isa e bytes)) vs /\
    exists scores, score_batch isa popcnt e (concat vs) = Some scores /\ length scores = length vs.
Proof.
  intros Hb Hv Hd. pose proof (built_ok q Hb) as Hq. destruct q as [q|dim|q|q|q]; cbn [vq_dim encoded_bytes vq_ok encode_query] in *.
  - destruct (scalar_safe isa q v Hv Hd) as (e & E & Hs). exists (QScalar e). by rewrite E.
  - destruct (sign_safe popcnt v dim Hv Hd) as (e & E & Hs). exists (QSign e). by rewrite E.
  - destruct (mse_safe q Hq v Hv) as (e & E & Hs). exists (QMse e). by rewrite E.
  - destruct (prod_safe isa q v Hq Hv) as (e & E & Hs). exists (QProd e). by rewrite E.
  - destruct (rabitq_safe q v Hq Hv) as (e & E & Hs). exists (QRaBit e). by rewrite E.
Qed.

(** C24: Scoring never leaves its slices, on binary32 as on any numbers: for every quantizer a
    constructor builds and every query of its dimension, encoding the query succeeds, the
    encoded query expects vectors of the size the quantizer announces, and any block of
    vectors of that size is scored without a panic or an out-of-bounds read by every kernel,
    vector by vector and in one call, which answers one score for each vector. *)
Theorem kernels_safe isa popcnt (q : VectorQuantizer) (v : list num_t) : built q -> len v = vq_dim q -> 0 < vq_dim q ->
  exists e, encode_query q v = Some (Ok e) /\ query_bytes e = encoded_bytes q /\ forall vs, blocks (encoded_bytes q) vs ->
    Forall (fun bytes => is_Some (score isa e bytes)) vs /\
    exists scores, score_batch isa popcnt e (concat vs) = Some scores /\ length scores = length vs.
Proof. apply scores_blocks. Qed.
End safe.

(** A sign query of three components on binary32, and any block of one-byte vectors. *)
Lemma kernels_safe_witness :
  exists e, encode_query (NU := F32) (RC := no_rand) (Sign 3) [f32_one; f32_neg f32_one; f32_zero] = Some (Ok e) /\
    query_bytes e = 1 /\ forall vs, blocks 1 vs ->
    Forall (fun bytes => is_Some (score Avx2Fma e bytes)) vs /\
    exists scores, score_batch Avx2Fma true e (concat vs) = Some scores /\ length scores = length vs.
Proof. apply (@kernels_safe F32 no_rand Avx2Fma true (Sign 3)); [apply built_sign|reflexivity|reflexivity]. Defined.
