(* ===== verification/Config.v ===== *)
(** * The configuration, [crates/turbomemory_storage/src/config.rs]

    The whole [TierConfig] and [StoreConfig] with their defaults, the thresholds scaled
    for a dimension, the derived HNSW parameters, and the quantizer of a kind. Each
    component of the development reads its part: [holder_config], [search_config],
    [retention_config], [belief_config], [engine_config]. *)

From S2P Require Import Prelude Core Floats Metrics Record SegmentHolder Extract Activation Optimizer Engine Search Retention Belief Numeric Simd Codes Hadamard Quant QuantSearch QuantTheorems.
From Stdlib Require Import Lia.

#[local] Existing Instance F32.

(** ** Fields *)

Record OptimizerBudget := { max_concurrent_builds : N; max_build_memory_bytes : option N }.
(** [OptimizerBudget::default]: half the processors, at least two; [None] when their
    number is not known. *)
Definition budget_default (cpus : option N) : OptimizerBudget := {|
  max_concurrent_builds := match cpus with Some n => N.max (n / 2) 2 | None => 2 end;
  max_build_memory_bytes := Some (512 * 1024 * 1024) |}.

Record TierConfig := {
  hot_capacity : N;
  warm_capacity : N;
  warm_quantizer : Engine.QuantizerKind;
  warm_chunk_bytes : N;
  hnsw_threshold : N;
  full_scan_threshold_kb : N;
  merge_threshold_segments : N;
  merge_max_records : N;
  cold_quantizer : Engine.QuantizerKind;
  hot_promote_threshold : f64;
  warm_demote_threshold : f64;
  recency_half_life_secs : N;
  max_records : option N;
  evict_score_floor : option f64;
  dedup_cosine_threshold : option f32;
  dedup_max_pairs_per_cycle : N;
  abstraction_co_occurrence_threshold : N;
  edge_decay_half_life_secs : N;
  max_concepts : N;
  concept_max_ngram_len : N;
  concept_min_ngram_freq : N;
  concept_enable_pmi : bool;
  refinement_cosine_threshold : option f32;
  refinement_max_pairs_per_cycle : N;
  contradiction_cosine_threshold : option f32;
  contradiction_text_threshold : f32;
  refinement_text_threshold : f32;
  contradiction_require_opposition : bool;
  contradiction_weaken_factor : f32;
  supersession_demotion_factor : f32;
  contradiction_max_pairs_per_cycle : N;
  importance_auto_scoring : bool;
  importance_learning_rate : f32;
  importance_access_weight : f32;
  importance_floor : f32;
  importance_ceiling : f32;
  concept_evolution_enabled : bool;
  concept_merge_overlap_threshold : f32;
  concept_hub_degree_fraction : f32;
  concept_evolution_max_pairs_per_cycle : N;
  belief_source_roles : option (list string);
  defer_supersession_commit : bool;
  exclude_superseded : bool;
  access_aware_eviction : bool;
  actr_activation : bool;
  actr_decay : f64;
  actr_history : N;
  incremental_supersession_detection : bool;
  gist_before_evict : bool;
  gist_chunk_facts : N;
  temporal_recency_weight : f32;
  sync_writes : bool;
  gpu_exact_search : bool;
  gpu_exact_min_records : N;
  gpu_memory_budget_mb : N;
  gpu_exact_on_cpu_backend : bool;
}.

(** [TierConfig::FIXED], also the default, with the sizes that depend on the dimension
    as arguments. *)
Definition fixed_with (hot warm hnsw full_scan merge : N) : TierConfig := {|
  hot_capacity := hot;
  warm_capacity := warm;
  warm_quantizer := Engine.Scalar 8;
  warm_chunk_bytes := 16 * 1024 * 1024;
  hnsw_threshold := hnsw;
  full_scan_threshold_kb := full_scan;
  merge_threshold_segments := 2;
  merge_max_records := merge;
  cold_quantizer := Engine.Scalar 8;
  hot_promote_threshold := f64_two;
  warm_demote_threshold := f64_half;
  recency_half_life_secs := 3600;
  max_records := None;
  evict_score_floor := None;
  dedup_cosine_threshold := None;
  dedup_max_pairs_per_cycle := 1024;
  abstraction_co_occurrence_threshold := 0;
  edge_decay_half_life_secs := 0;
  max_concepts := 5;
  concept_max_ngram_len := 1;
  concept_min_ngram_freq := 1;
  concept_enable_pmi := true;
  refinement_cosine_threshold := None;
  refinement_max_pairs_per_cycle := 1024;
  contradiction_cosine_threshold := None;
  contradiction_text_threshold := 0x3E99999A;
  refinement_text_threshold := 0x3E800000;
  contradiction_require_opposition := true;
  contradiction_weaken_factor := f32_half;
  supersession_demotion_factor := 0x3ECCCCCD;
  contradiction_max_pairs_per_cycle := 1024;
  importance_auto_scoring := false;
  importance_learning_rate := 0x3E99999A;
  importance_access_weight := 0x3F19999A;
  importance_floor := 0x3DCCCCCD;
  importance_ceiling := 0x40800000;
  concept_evolution_enabled := false;
  concept_merge_overlap_threshold := 0x3F333333;
  concept_hub_degree_fraction := 0x3DCCCCCD;
  concept_evolution_max_pairs_per_cycle := 1024;
  belief_source_roles := None;
  defer_supersession_commit := false;
  exclude_superseded := false;
  access_aware_eviction := true;
  actr_activation := false;
  actr_decay := f64_half;
  actr_history := 8;
  incremental_supersession_detection := false;
  gist_before_evict := false;
  gist_chunk_facts := 24;
  temporal_recency_weight := f32_zero;
  sync_writes := false;
  gpu_exact_search := true;
  gpu_exact_min_records := 4097;
  gpu_memory_budget_mb := 0;
  gpu_exact_on_cpu_backend := false |}.
Definition FIXED : TierConfig := fixed_with 10000 100000 1000 10000 20000.

Definition clamp (x lo hi : N) : N := N.min (N.max x lo) hi.
(** [x as usize] of a binary64. *)
Definition f64_to_usize (b : f64) : N := sf_to_N (to_sf64 b).
Definition scaled_for_dimension (dim : N) : TierConfig :=
  let dim := N.max dim 1 in
  let hot := clamp (4 * 1024 * 1024 / saturating_mul dim 4) 512 8192 in
  let hnsw := f64_to_usize (f64_div (f64_of_N 20000) (f64_sqrt (f64_of_N dim))) in
  let hnsw := N.max hnsw 512 in
  let warm := clamp (64 * 1024 * 1024 / dim) 2048 500000 in
  let merge := clamp (20 * 1024 * 1024 / saturating_mul dim 4) 2000 10000 in
  fixed_with hot warm hnsw 10000 merge.
Definition merge_cap (c : TierConfig) : N := N.max (N.max (merge_max_records c) (hot_capacity c)) 2.
Definition extractor_config (c : TierConfig) : ExtractorConfig := {|
  Extract.max_concepts := max_concepts c; max_ngram_len := concept_max_ngram_len c;
  min_ngram_freq := concept_min_ngram_freq c; enable_pmi_scoring := concept_enable_pmi c; pmi_weight := f32_one |}.

Record StoreConfig := {
  dimension : N;
  max_edges : N;
  level0_factor : N;
  ef_construction_field : N;
  search_list_size : N;
  cognitive_alpha : f32;
  outlier_count : N;
  initial_capacity : N;
  tier : TierConfig;
  optimizer_budget : OptimizerBudget;
  auto_consolidation_interval : option N;
  spreading : SpreadingConfig;
}.
Definition ef_construction (c : StoreConfig) : N :=
  let ef := if ef_construction_field c =? 0 then N.max (search_list_size c) (max_edges c * 2) else ef_construction_field c in
  N.max ef (max_edges c * 2).
Definition m0 (c : StoreConfig) : N :=
  if level0_factor c =? 0 then max_edges c * 2 else max_edges c * level0_factor c.
Definition default_config (cpus : option N) : StoreConfig := {|
  dimension := 768; max_edges := 32; level0_factor := 2; ef_construction_field := 200; search_list_size := 100;
  cognitive_alpha := 0x3F333333; outlier_count := 0; initial_capacity := 1024; tier := FIXED;
  optimizer_budget := budget_default cpus; auto_consolidation_interval := Some 60; spreading := default_spreading |}.
(** [powf] is [f32::powf]. *)
Definition default_for_dimension (powf : f32 -> f32 -> f32) (cpus : option N) (dim : N) : StoreConfig :=
  let edges := clamp
    (if dim <=? 128 then 16 else if dim <=? 384 then 32 else if dim <=? 768 then 64
     else f32_to_usize (f32_round (f32_mul (powf (f32_of_N dim) 0x3F19999A) 0x40400000))) 16 96 in
  let ef := if dim <=? 128 then 100 else if dim <=? 384 then 200 else if dim <=? 768 then 800 else N.min (edges * 12) 2000 in
  let list_size := if dim <=? 128 then 100 else if dim <=? 384 then 150 else 256 in
  let d := default_config cpus in
  {| dimension := dim; max_edges := edges; level0_factor := level0_factor d; ef_construction_field := ef; search_list_size := list_size;
     cognitive_alpha := cognitive_alpha d; outlier_count := outlier_count d; initial_capacity := initial_capacity d;
     tier := scaled_for_dimension dim; optimizer_budget := optimizer_budget d;
     auto_consolidation_interval := auto_consolidation_interval d; spreading := spreading d |}.

(** ** What each component reads *)

Definition holder_config (c : StoreConfig) : SegmentHolder.Config := {|
  SegmentHolder.dimension := dimension c; SegmentHolder.hot_capacity := hot_capacity (tier c);
  SegmentHolder.warm_capacity := warm_capacity (tier c); SegmentHolder.hnsw_threshold := hnsw_threshold (tier c);
  SegmentHolder.full_scan_threshold_kb := full_scan_threshold_kb (tier c); SegmentHolder.max_edges := max_edges c;
  c_merge_threshold_segments := merge_threshold_segments (tier c); c_merge_max_records := merge_max_records (tier c) |}.
Definition engine_config (c : StoreConfig) : Engine.StoreConfig := {|
  tiers := holder_config c; Engine.initial_capacity := initial_capacity c; Engine.sync_writes := sync_writes (tier c);
  Engine.actr_history := actr_history (tier c); Engine.warm_quantizer := warm_quantizer (tier c);
  Engine.cold_quantizer := cold_quantizer (tier c);
  Engine.max_concurrent_builds := max_concurrent_builds (optimizer_budget c);
  Engine.max_build_memory_bytes := max_build_memory_bytes (optimizer_budget c) |}.
Definition search_config (c : StoreConfig) : Search.SearchConfig := {|
  Search.exclude_superseded := exclude_superseded (tier c); Search.gpu_exact_min_records := gpu_exact_min_records (tier c);
  Search.cognitive_alpha := cognitive_alpha c; Search.temporal_recency_weight := temporal_recency_weight (tier c) |}.
Definition retention_config (c : StoreConfig) : Retention.RetentionConfig :=
  let t := tier c in {|
  Retention.max_records := max_records t; Retention.evict_score_floor := evict_score_floor t;
  Retention.recency_half_life_secs := recency_half_life_secs t; Retention.access_aware_eviction := access_aware_eviction t;
  use_actr := actr_activation t; Retention.actr_decay := actr_decay t; Retention.gist_before_evict := gist_before_evict t;
  Retention.gist_chunk_facts := gist_chunk_facts t; Retention.dedup_cosine_threshold := dedup_cosine_threshold t;
  Retention.dedup_max_pairs_per_cycle := dedup_max_pairs_per_cycle t;
  Retention.importance_auto_scoring := importance_auto_scoring t; Retention.importance_learning_rate := importance_learning_rate t;
  Retention.importance_access_weight := importance_access_weight t; Retention.importance_floor := importance_floor t;
  Retention.importance_ceiling := importance_ceiling t |}.
Definition belief_config (c : StoreConfig) : Belief.BeliefConfig :=
  let t := tier c in {|
  Belief.refinement_cosine_threshold := refinement_cosine_threshold t;
  Belief.refinement_max_pairs_per_cycle := refinement_max_pairs_per_cycle t;
  Belief.refinement_text_threshold := refinement_text_threshold t;
  Belief.contradiction_cosine_threshold := contradiction_cosine_threshold t;
  Belief.contradiction_max_pairs_per_cycle := contradiction_max_pairs_per_cycle t;
  Belief.contradiction_text_threshold := contradiction_text_threshold t;
  Belief.contradiction_require_opposition := contradiction_require_opposition t;
  Belief.contradiction_weaken_factor := contradiction_weaken_factor t;
  Belief.supersession_demotion_factor := supersession_demotion_factor t;
  Belief.belief_source_roles := belief_source_roles t;
  Belief.incremental_supersession_detection := incremental_supersession_detection t;
  Belief.defer_supersession_commit := defer_supersession_commit t |}.

(** ** The quantizer of a kind *)

Section kinds.
Context {RC : RandCrate}.

Definition ROTATION_SEED : N := 0x123456789ABCDEF0.
Definition QJL_SEED : N := 0xFEDCBA9876543210.
(** [QuantizerKind::build]: the scalar one is a placeholder to be calibrated. *)
Definition kind_build (kind : Engine.QuantizerKind) (dim : N) : Outcome (VectorQuantizer (NU := F32)) :=
  match kind with
  | Engine.Scalar nbits => Quant.done_ (Quant.Scalar {| sq_bits := nbits; sq_dim := dim; sq_min := f32_zero; sq_max := f32_zero |})
  | Engine.Sign => Quant.done_ (Quant.Sign dim)
  | Engine.TurboQuantMse nbits => let? q := mse_new (NU := F32) dim nbits ROTATION_SEED in Quant.done_ (TurboMse q)
  | Engine.TurboQuantProd nbits => let? q := prod_new (NU := F32) dim nbits ROTATION_SEED QJL_SEED in Quant.done_ (TurboProd q)
  | Engine.RaBitQ nbits => let? q := rabitq_new (NU := F32) dim nbits ROTATION_SEED in Quant.done_ (RaBit q)
  end.
(** The check at the start of [StorageEngine::open]: the name of the quantizer refused. *)
Definition check_quantizers (c : StoreConfig) : option string :=
  let bad kind := requires_pow2_dim kind && negb (is_power_of_two (N.to_nat (dimension c))) in
  if bad (warm_quantizer (tier c)) then Some "warm_quantizer"
  else if bad (cold_quantizer (tier c)) then Some "cold_quantizer"
  else None.

(** The widths each kind accepts. *)
Definition bits_accepted (kind : Engine.QuantizerKind) : bool :=
  match kind with
  | Engine.Scalar _ | Engine.Sign => true
  | Engine.TurboQuantMse nbits => (1 <=? nbits) && (nbits <=? 8)
  | Engine.TurboQuantProd nbits => (2 <=? nbits) && (nbits <=? 8)
  | Engine.RaBitQ nbits => (1 <=? nbits) && (nbits <=? 2)
  end.
Lemma mse_new_when dim nbits seed :
  (exists q, mse_new (NU := F32) dim nbits seed = Some (Ok q)) <->
  0 < dim /\ is_power_of_two (N.to_nat dim) = true /\ 1 <= nbits <= 8.
Proof.
  unfold mse_new, lloyd_max_new. destruct (N.eqb_spec dim 0) as [->|Hd]; [split; [by intros [q ?]|lia]|].
  destruct (is_power_of_two (N.to_nat dim)); [|split; [by intros [q ?]|by intros (_ & ? & _)]]. cbn [negb orb].
  destruct (N.eqb_spec nbits 0) as [->|H0]; [split; [by intros [q ?]|lia]|].
  destruct (N.ltb_spec 8 nbits) as [H8|H8]; [split; [by intros [q ?]|lia]|]. cbn [orb out_bind].
  split; [intros _; split; [lia|split; [done|lia]]|by eexists].
Qed.
(** When a quantizer of the kind can be built for a dimension. *)
Definition buildable (kind : Engine.QuantizerKind) (dim : N) : Prop :=
  bits_accepted kind = true /\ (requires_pow2_dim kind = true -> is_power_of_two (N.to_nat dim) = true).

Lemma kind_build_spec kind dim : 0 < dim ->
  (exists q, kind_build kind dim = Some (Ok q) /\ vq_dim q = dim) <-> buildable kind dim.
Proof.
  intros Hd. unfold buildable. destruct kind as [nbits| |nbits|nbits|nbits]; cbn [kind_build bits_accepted requires_pow2_dim].
  - split; [done|by eexists].
  - split; [done|by eexists].
  - rewrite andb_true_iff, !N.leb_le. split.
    + intros (q & Hq & _). destruct (mse_new dim nbits ROTATION_SEED) as [[m|]|] eqn:E; try done.
      destruct (proj1 (mse_new_when dim nbits ROTATION_SEED)) as (_ & ? & ?); [by exists m|]. done.
    + intros [Hb Hp]. destruct (proj2 (mse_new_when dim nbits ROTATION_SEED)) as [m E]; [by split_and!; auto; lia|].
      rewrite E. eexists. split; [done|]. by eapply mse_new_ok.
  - rewrite andb_true_iff, !N.leb_le. unfold prod_new. split.
    + intros (q & Hq & _). destruct (N.leb_spec 2 nbits), (N.leb_spec nbits 8); try done. cbn [andb negb] in Hq.
      destruct (mse_new dim (nbits - 1) ROTATION_SEED) as [[m|]|] eqn:E; try done.
      destruct (proj1 (mse_new_when dim (nbits - 1) ROTATION_SEED)) as (_ & ? & ?); [by exists m|]. done.
    + intros [Hb Hp]. rewrite (proj2 (N.leb_le _ _)), (proj2 (N.leb_le nbits 8)) by lia. cbn [andb negb].
      destruct (proj2 (mse_new_when dim (nbits - 1) ROTATION_SEED)) as [m E]; [by split_and!; auto; lia|].
      rewrite E. by eexists.
  - rewrite andb_true_iff, !N.leb_le. unfold rabitq_new. rewrite (proj2 (N.eqb_neq dim 0)) by lia. split.
    + intros (q & Hq & _). split; [|done]. destruct (N.eqb_spec nbits 1), (N.eqb_spec nbits 2); try done; lia.
    + intros [Hb _]. destruct (N.eqb_spec nbits 1), (N.eqb_spec nbits 2); try lia; by eexists.
Qed.

(** The check at the start of [open] is the right one: for quantizers of accepted bit
    widths and a nonzero dimension it lets a configuration through exactly when both the
    warm and the cold quantizer can be built for that dimension, so no seal or demotion
    fails later for the dimension; and the default configuration of any dimension passes
    it. *)
Theorem open_check_exact powf cpus (c : StoreConfig) : 0 < dimension c ->
  bits_accepted (warm_quantizer (tier c)) = true -> bits_accepted (cold_quantizer (tier c)) = true ->
  (check_quantizers c = None <->
    (exists w, kind_build (warm_quantizer (tier c)) (dimension c) = Some (Ok w) /\ vq_dim w = dimension c) /\
    (exists k, kind_build (cold_quantizer (tier c)) (dimension c) = Some (Ok k) /\ vq_dim k = dimension c)) /\
  check_quantizers (default_for_dimension powf cpus (dimension c)) = None.
Proof.
  intros Hd Hw Hk. split; [|done]. rewrite !kind_build_spec by done. unfold check_quantizers, buildable. rewrite Hw, Hk.
  destruct (requires_pow2_dim (warm_quantizer (tier c))), (requires_pow2_dim (cold_quantizer (tier c))),
    (is_power_of_two (N.to_nat (dimension c))); cbn [andb negb]; naive_solver.
Qed.
End kinds.

(** ** Thresholds *)

Lemma clamp_within x lo hi : lo <= hi -> lo <= clamp x lo hi <= hi.
Proof. unfold clamp. lia. Qed.
Lemma clamp_mono x y lo hi : x <= y -> clamp x lo hi <= clamp y lo hi.
Proof. unfold clamp. lia. Qed.
Lemma clamp_above x lo hi : lo <= hi -> clamp x lo hi = lo \/ clamp x lo hi <= x.
Proof. unfold clamp. lia. Qed.
Lemma div_antitone a b c : 0 < b -> b <= c -> a / c <= a / b.
Proof. intros Hb Hc. apply N.div_le_compat_l. lia. Qed.
Lemma quotient_fits a b : 0 < b -> a / b * b <= a.
Proof. intros Hb. rewrite N.mul_comm. apply N.Div0.mul_div_le. Qed.
Lemma saturating_pos d : 0 < d -> 0 < saturating_mul d 4.
Proof. intros Hd. unfold saturating_mul, u64_max, U64. lia. Qed.
(** A capacity of [budget / s] elements of [s] bytes, within bounds: at the lower bound, or
    within the budget. *)
Lemma capacity_fits budget s lo hi : 0 < s -> lo <= hi -> clamp (budget / s) lo hi = lo \/ clamp (budget / s) lo hi * s <= budget.
Proof.
  intros Hs Hlo. destruct (clamp_above (budget / s) lo hi Hlo) as [|H]; [by left|right].
  pose proof (quotient_fits budget s Hs). etrans; [by apply N.mul_le_mono_r|done].
Qed.

(** The thresholds scaled for a dimension are sane for every dimension: each lies in its
    documented range; a hot segment, a warm one and a merged one hold at most 4 MiB, 64 MiB
    and 20 MiB of vectors unless they are at their minimum; a merge can always take a whole
    hot segment; and a larger dimension never gets larger segments. *)
Theorem scaled_thresholds dim : dim * 4 < U64 ->
  let c := scaled_for_dimension dim in
  let d := N.max dim 1 in
  (512 <= hot_capacity c <= 8192 /\ (hot_capacity c = 512 \/ hot_capacity c * (d * 4) <= 4 * 1024 * 1024)) /\
  (2048 <= warm_capacity c <= 500000 /\ (warm_capacity c = 2048 \/ warm_capacity c * d <= 64 * 1024 * 1024)) /\
  (2000 <= merge_max_records c <= 10000 /\ (merge_max_records c = 2000 \/ merge_max_records c * (d * 4) <= 20 * 1024 * 1024)) /\
  512 <= hnsw_threshold c /\ hot_capacity c <= merge_cap c <= 10000 /\
  forall dim', dim <= dim' -> let c' := scaled_for_dimension dim' in
    hot_capacity c' <= hot_capacity c /\ warm_capacity c' <= warm_capacity c /\ merge_max_records c' <= merge_max_records c.
Proof.
  intros Hsmall c d. assert (Hd : 0 < d) by (unfold d; lia).
  assert (Hsat : saturating_mul d 4 = d * 4) by (unfold saturating_mul, u64_max, U64, d in *; lia).
  pose proof (clamp_within (4 * 1024 * 1024 / saturating_mul d 4) 512 8192 ltac:(lia)) as H1.
  pose proof (clamp_within (64 * 1024 * 1024 / d) 2048 500000 ltac:(lia)) as H2.
  pose proof (clamp_within (20 * 1024 * 1024 / saturating_mul d 4) 2000 10000 ltac:(lia)) as H3.
  split; [split; [exact H1|]; rewrite <- Hsat; by apply capacity_fits; [apply saturating_pos|]|].
  split; [split; [exact H2|]; by apply capacity_fits|].
  split; [split; [exact H3|]; rewrite <- Hsat; by apply capacity_fits; [apply saturating_pos|]|].
  split; [apply N.le_max_r|]. split.
  - unfold merge_cap. change (hot_capacity c) with (clamp (4 * 1024 * 1024 / saturating_mul d 4) 512 8192).
    change (merge_max_records c) with (clamp (20 * 1024 * 1024 / saturating_mul d 4) 2000 10000). lia.
  - intros dim' Hdim c'. assert (Hd' : d <= N.max dim' 1) by (unfold d; lia).
    assert (Hs : saturating_mul d 4 <= saturating_mul (N.max dim' 1) 4) by (unfold saturating_mul; lia).
    split_and!; apply clamp_mono; apply div_antitone; auto using saturating_pos.
Qed.

(** The defaults of a dimension are consistent HNSW parameters, whatever [f32::powf] answers:
    between 16 and 96 edges, a construction beam of at least twice the edges that is the one
    configured, at most 1152, never raised by the fallback, a level 0 of twice the edges,
    and a search beam no smaller than the edges. *)
Theorem default_hnsw_consistent powf cpus dim :
  let c := default_for_dimension powf cpus dim in
  16 <= max_edges c <= 96 /\ max_edges c * 2 <= ef_construction c <= 1152 /\ ef_construction c = ef_construction_field c /\
  m0 c = max_edges c * 2 /\ max_edges c <= search_list_size c.
Proof.
  set (wild := f32_to_usize (f32_round (f32_mul (powf (f32_of_N dim) 0x3F19999A) 0x40400000))).
  unfold default_for_dimension. fold wild. generalize wild. clear wild. intros wild. cbv zeta.
  unfold ef_construction, m0. cbn [max_edges ef_construction_field level0_factor search_list_size default_config].
  unfold clamp. destruct (N.leb_spec dim 128), (N.leb_spec dim 384), (N.leb_spec dim 768); try lia.
  all: repeat match goal with |- context [?a =? ?b] => destruct (N.eqb_spec a b) end; lia.
Qed.

Module ConfigWitness.
#[local] Existing Instance no_rand.
(** Four-bit TurboQuant for the warm tier, over eight dimensions. *)
Definition ex_config : StoreConfig :=
  let c := default_for_dimension (fun x _ => x) (Some 8) 8 in
  {| dimension := 8; max_edges := max_edges c; level0_factor := level0_factor c; ef_construction_field := ef_construction_field c;
     search_list_size := search_list_size c; cognitive_alpha := cognitive_alpha c; outlier_count := outlier_count c;
     initial_capacity := initial_capacity c; optimizer_budget := optimizer_budget c;
     auto_consolidation_interval := auto_consolidation_interval c; spreading := spreading c;
     tier := {| hot_capacity := 512; warm_capacity := 2048; warm_quantizer := Engine.TurboQuantMse 4; warm_chunk_bytes := 4096;
       hnsw_threshold := 512; full_scan_threshold_kb := 0; merge_threshold_segments := 2; merge_max_records := 2000;
       cold_quantizer := Engine.RaBitQ 2; hot_promote_threshold := f64_two; warm_demote_threshold := f64_half;
       recency_half_life_secs := 60; max_records := None; evict_score_floor := None; dedup_cosine_threshold := None;
       dedup_max_pairs_per_cycle := 16; abstraction_co_occurrence_threshold := 0; edge_decay_half_life_secs := 0; max_concepts := 5;
       concept_max_ngram_len := 1; concept_min_ngram_freq := 1; concept_enable_pmi := true; refinement_cosine_threshold := None;
       refinement_max_pairs_per_cycle := 16; contradiction_cosine_threshold := None; contradiction_text_threshold := 0;
       refinement_text_threshold := 0; contradiction_require_opposition := true; contradiction_weaken_factor := f32_half;
       supersession_demotion_factor := f32_half; contradiction_max_pairs_per_cycle := 16; importance_auto_scoring := false;
       importance_learning_rate := 0; importance_access_weight := 0; importance_floor := 0; importance_ceiling := f32_one;
       concept_evolution_enabled := false; concept_merge_overlap_threshold := f32_half; concept_hub_degree_fraction := f32_half;
       concept_evolution_max_pairs_per_cycle := 16; belief_source_roles := None; defer_supersession_commit := false;
       exclude_superseded := false; access_aware_eviction := true; actr_activation := false; actr_decay := f64_half; actr_history := 8;
       incremental_supersession_detection := false; gist_before_evict := false; gist_chunk_facts := 24; temporal_recency_weight := 0;
       sync_writes := false; gpu_exact_search := true; gpu_exact_min_records := 4097; gpu_memory_budget_mb := 0;
       gpu_exact_on_cpu_backend := false |} |}.
Lemma open_check_exact_witness : check_quantizers ex_config = None /\
  (exists w, kind_build (Engine.TurboQuantMse 4) 8 = Some (Ok w) /\ vq_dim w = 8) /\
  exists k, kind_build (Engine.RaBitQ 2) 8 = Some (Ok k) /\ vq_dim k = 8.
Proof.
  assert (H : check_quantizers ex_config = None) by reflexivity. split; [exact H|].
  apply (proj1 (open_check_exact (fun x _ => x) None ex_config ltac:(reflexivity) eq_refl eq_refl)). exact H.
Defined.
(** The default dimension has no TurboQuant quantizer. *)
Example no_turbo_768 : kind_build (Engine.TurboQuantMse 4) 768 = Some (Err (QuantizationError "TurboQuant requires power-of-two dimension")).
Proof. reflexivity. Qed.
Lemma scaled_thresholds_witness :
  map (fun dim => let c := scaled_for_dimension dim in (hot_capacity c, warm_capacity c, merge_max_records c, hnsw_threshold c)) [8; 768; 8192]
  = [(8192, 500000, 10000, 7071); (1365, 87381, 6826, 721); (512, 8192, 2000, 512)] /\
  hot_capacity (scaled_for_dimension 768) * (768 * 4) <= 4 * 1024 * 1024.
Proof.
  split; [vm_compute; reflexivity|].
  destruct (proj1 (scaled_thresholds 768 ltac:(reflexivity))) as [_ [H|H]]; [discriminate H|exact H].
Defined.
End ConfigWitness.
