(* ===== verification/SegmentFiles.v ===== *)
(** * Segment directories, [segments/mmap_array.rs], [segments/mod.rs], [warm.rs] and [cold.rs]

    A warm or cold segment is a directory with a data file, the encoded vectors one after
    the other, and a manifest, written last and renamed into place. Building one is a
    sequence of system calls, each of which can fail half-way; a power loss keeps what was
    synced and anything of what was not. Searching one reads the mapped bytes. JSON and
    the random generators of the codecs are parameters. *)

From S2P Require Import Prelude Core Floats Config Metrics Record Segments SegmentSearch Engine Numeric Simd Codes Hadamard Quant QuantSearch QuantTheorems QuantExact QuantScores QuantBatch QuantSafe.
From Stdlib Require Import Lia.

#[local] Existing Instance F32.

(** ** Directories *)

(** A file, and whether its contents have been synced. *)
Record File (A : Type) := { content : A; synced : bool }.
Arguments content {A} _.
Arguments synced {A} _.
Abbreviation fresh x := {| content := x; synced := false |}.
Abbreviation durable x := {| content := x; synced := true |}.
(** The data file, the manifest under its temporary name and under its own; whether the
    names in the directory, and the directory's own, have been synced. *)
Record Dir (D T : Type) := {
  data : option (File D);
  tmp : option (File T);
  manifest : option (File T);
  names_synced : bool;
  parent_synced : bool;
}.
Arguments data {D T} _.
Arguments tmp {D T} _.
Arguments manifest {D T} _.
Arguments names_synced {D T} _.
Arguments parent_synced {D T} _.
Definition empty_dir {D T} : Dir D T :=
  {| data := None; tmp := None; manifest := None; names_synced := false; parent_synced := false |}.
Definition set_data {D T} (f : File D) (d : Dir D T) : Dir D T :=
  {| data := Some f; tmp := tmp d; manifest := manifest d; names_synced := names_synced d; parent_synced := parent_synced d |}.
Definition set_tmp {D T} (f : File T) (d : Dir D T) : Dir D T :=
  {| data := data d; tmp := Some f; manifest := manifest d; names_synced := names_synced d; parent_synced := parent_synced d |}.
(** Names change: they are to be synced again. *)
Definition unsynced {D T} (d : Dir D T) : Dir D T :=
  {| data := data d; tmp := tmp d; manifest := manifest d; names_synced := false; parent_synced := parent_synced d |}.
Definition rename_tmp {D T} (d : Dir D T) : Dir D T :=
  {| data := data d; tmp := None; manifest := tmp d; names_synced := false; parent_synced := parent_synced d |}.

(** A power loss: a file that was not synced holds anything, a name that was not synced
    may be gone. *)
Inductive lose_file {A} (named : bool) : option (File A) -> option (File A) -> Prop :=
  | lose_none : lose_file named None None
  | lose_name f : named = false -> lose_file named (Some f) None
  | lose_keep f : lose_file named (Some f) (Some (durable (content f)))
  | lose_content f x : synced f = false -> lose_file named (Some f) (Some (durable x)).
Inductive power_loss {D T} (d : Dir D T) : Dir D T -> Prop :=
  | loss_dir : parent_synced d = false -> power_loss d empty_dir
  | loss_files dat t m : lose_file (names_synced d) (data d) dat -> lose_file (names_synced d) (tmp d) t ->
      lose_file (names_synced d) (manifest d) m ->
      power_loss d {| data := dat; tmp := t; manifest := m; names_synced := true; parent_synced := true |}.

(** ** System calls *)

(** A call succeeds, or fails after [n] bytes. *)
Inductive Call := Done | Failed (n : nat).
(** A computation over a directory and the outcomes of the calls to come (calls past the
    end of the list succeed). [None] is a panic. *)
Definition IoM (D T A : Type) : Type :=
  Dir D T -> list Call -> option (Result StorageError A) * Dir D T * list Call.
Definition io_ret {D T A} (x : A) : IoM D T A := fun d io => (Some (Ok x), d, io).
Definition io_err {D T A} (er : StorageError) : IoM D T A := fun d io => (Some (Err er), d, io).
(** A step that makes no call, with the errors of the core crate. *)
Definition io_core {D T A} (o : Outcome A) : IoM D T A := fun d io => (map_err Core <$> o, d, io).
Definition io_bind {D T A B} (m : IoM D T A) (k : A -> IoM D T B) : IoM D T B := fun d io =>
  match m d io with
  | (Some (Ok x), d, io) => k x d io
  | (Some (Err er), d, io) => (Some (Err er), d, io)
  | (None, d, io) => (None, d, io)
  end.
Notation "'let*' x ':=' m 'in' k" := (io_bind m (fun x => k)) (at level 10, x pattern, m at level 100, k at level 200).
Definition syscall {D T} (done_ : Dir D T -> Dir D T) (failed : nat -> Dir D T -> Dir D T) : IoM D T unit := fun d io =>
  match io with
  | Failed n :: io => (Some (Err Io), failed n d, io)
  | _ => (Some (Ok tt), done_ d, tail io)
  end.
Definition keep {D T} : nat -> Dir D T -> Dir D T := fun _ d => d.
(** A call that changes nothing. *)
Definition touch {D T} : IoM D T unit := syscall (fun d => d) keep.
(** [sync_dir]: best effort. *)
Definition sync_dir {D T} (done_ : Dir D T -> Dir D T) : IoM D T unit := fun d io =>
  match io with
  | Failed _ :: io => (Some (Ok tt), d, io)
  | _ => (Some (Ok tt), done_ d, tail io)
  end.
Definition names_durable {D T} (d : Dir D T) : Dir D T :=
  {| data := data d; tmp := tmp d; manifest := manifest d; names_synced := true; parent_synced := parent_synced d |}.
Definition parent_durable {D T} (d : Dir D T) : Dir D T :=
  {| data := data d; tmp := tmp d; manifest := manifest d; names_synced := names_synced d; parent_synced := true |}.
(** Reading a file fails when it is not there. *)
Definition read_file {D T A} (file : Dir D T -> option (File A)) : IoM D T A :=
  let* _ := touch in
  fun d io => (Some (match file d with Some f => Ok (content f) | None => Err Io end), d, io).

(** [serde_json] at one type: a text, and what a write that stops early leaves of it. *)
Class Json (M : Type) := {
  text : Type;
  cut : nat -> text -> text;
  to_json : M -> option text;
  from_json : text -> option M;
}.
Arguments text M {_}.
(** Values whose floats are finite parse back (the others are written as [null]). *)
Class JsonOk (M : Type) (fits : M -> Prop) `{Json M} : Prop := {
  json_total : forall m, is_Some (to_json m);
  json_roundtrip : forall m t, fits m -> to_json m = Some t -> from_json t = Some m;
}.

(** [MmapFileWriter::finish]: create or truncate, write, sync, open, map. *)
Definition finish {A T} (bytes : list A) : IoM (list A) T (list A) :=
  let* _ := touch in
  let* _ := syscall (fun d => unsynced (set_data (fresh []) d)) keep in
  let* _ := syscall (set_data (fresh bytes)) (fun n => set_data (fresh (take n bytes))) in
  let* _ := syscall (set_data (durable bytes)) keep in
  let* _ := touch in
  read_file data.

(** [write_manifest_atomic]. *)
Definition write_manifest_atomic {D M} `{Json M} (t : text M) : IoM D (text M) unit :=
  let* _ := syscall (fun d => unsynced (set_tmp (fresh (cut 0 t)) d)) keep in
  let* _ := syscall (set_tmp (fresh t)) (fun n => set_tmp (fresh (cut n t))) in
  let* _ := syscall (set_tmp (durable t)) keep in
  let* _ := syscall rename_tmp keep in
  let* _ := sync_dir names_durable in
  sync_dir parent_durable.
Definition io_json {D M} `{Json M} (m : M) : IoM D (text M) (text M) := fun d io =>
  (Some (match to_json m with Some t => Ok t | None => Err Serialize end), d, io).

(** ** Warm and cold segments *)

(** The serialized quantizer: the inner-product codec keeps its parameters only. *)
Inductive StoredQuantizer := StoredAll (q : VectorQuantizer (NU := F32)) | StoredProd (params : N * N * N * N).
Record Manifest := { m_version : N; m_dimension : N; m_quantizer : StoredQuantizer; m_offsets : list N }.
Definition finite_floats (s : StoredQuantizer) : bool :=
  match s with
  | StoredAll (Quant.Scalar q) => is_finite (sq_min q) && is_finite (sq_max q)
  | StoredAll (TurboMse q) => forallb is_finite (tm_centroids q)
  | StoredAll (RaBit q) => forallb is_finite (rq_signs q)
  | _ => true
  end.
Definition manifest_fits (m : Manifest) : Prop := finite_floats (m_quantizer m) = true.

Record SegmentFile := {
  f_tier : Tier; f_dim : N; f_quantizer : VectorQuantizer (NU := F32); f_offsets : list N; f_buffer : list N }.

Section segments.
Context {RC : RandCrate} {J : Json Manifest} (isa : Isa) (popcnt : bool).
Abbreviation IO := (IoM (list N) (text Manifest)).

Definition store_quantizer (q : VectorQuantizer (NU := F32)) : StoredQuantizer :=
  match q with TurboProd p => StoredProd (prod_serialized p) | q => StoredAll q end.
Definition load_quantizer (s : StoredQuantizer) : Outcome (VectorQuantizer (NU := F32)) :=
  match s with
  | StoredAll q => Quant.done_ q
  | StoredProd params => let? q := prod_deserialize params in Quant.done_ (TurboProd q)
  end.

(** The quantizer of a kind, calibrated on the vectors if it is scalar. *)
Definition quantizer_for (kind : Engine.QuantizerKind) (dim : N) (vectors : list (list f32)) : Outcome (VectorQuantizer (NU := F32)) :=
  match kind with
  | Engine.Scalar nbits => let? q := calibrate (NU := F32) vectors nbits in Quant.done_ (Quant.Scalar q)
  | Engine.Sign => Quant.done_ (Quant.Sign dim)
  | Engine.TurboQuantMse nbits => let? q := mse_new (NU := F32) dim nbits ROTATION_SEED in Quant.done_ (TurboMse q)
  | Engine.TurboQuantProd nbits => let? q := prod_new (NU := F32) dim nbits ROTATION_SEED QJL_SEED in Quant.done_ (TurboProd q)
  | Engine.RaBitQ nbits => let? q := rabitq_new (NU := F32) dim nbits ROTATION_SEED in Quant.done_ (RaBit q)
  end.
Fixpoint encode_all (q : VectorQuantizer (NU := F32)) (vectors : list (list f32)) : Outcome (list (list N)) :=
  match vectors with
  | [] => Quant.done_ []
  | v :: vectors => let? c := encode q v in let? cs := encode_all q vectors in Quant.done_ (c :: cs)
  end.
(** The rest of both builds: encode, write the data file, then the manifest. *)
Definition write_segment (t : Tier) (dim : N) (q : VectorQuantizer (NU := F32)) (records : list (N * list f32)) : IO SegmentFile :=
  let* codes := io_core (encode_all q records.*2) in
  let* buffer := finish (concat codes) in
  let* json := io_json {| m_version := 1; m_dimension := dim; m_quantizer := store_quantizer q; m_offsets := records.*1 |} in
  let* _ := write_manifest_atomic json in
  io_ret {| f_tier := t; f_dim := dim; f_quantizer := q; f_offsets := records.*1; f_buffer := buffer |}.
(** The warm build makes the directory first, the cold one the quantizer. *)
Definition warm_from_records (records : list (N * list f32)) (kind : Engine.QuantizerKind) : IO SegmentFile :=
  match records with
  | [] => io_err (InvalidArgument "cannot build empty warm segment")
  | (_, v0) :: _ =>
      let* _ := touch in
      let* q := io_core (quantizer_for kind (len v0) records.*2) in
      write_segment Warm (len v0) q records
  end.
Definition cold_from_records (records : list (N * list f32)) (kind : Engine.QuantizerKind) : IO SegmentFile :=
  match records with
  | [] => io_err (InvalidArgument "cannot build empty cold segment")
  | (_, v0) :: _ =>
      let* q := io_core (quantizer_for kind (len v0) records.*2) in
      let* _ := touch in
      write_segment Cold (len v0) q records
  end.

Definition tier_word (t : Tier) : string := match t with Hot => "hot" | Warm => "warm" | Cold => "cold" end.
Definition open_segment (t : Tier) : IO SegmentFile :=
  let* json := read_file manifest in
  match from_json json with
  | None => io_err (InvalidArgument ("bad " +:+ tier_word t +:+ " manifest"))
  | Some m => fun d io =>
      match load_quantizer (m_quantizer m) with
      | None => (None, d, io)
      | Some (Err _) => (Some (Err (InvalidArgument ("bad " +:+ tier_word t +:+ " manifest"))), d, io)
      | Some (Ok q) =>
          (let* _ := touch in
           let* buffer := read_file data in
           match checked_mul (len (m_offsets m)) (encoded_bytes q) with
           | None => io_err (InvalidArgument (tier_word t +:+ " segment size overflow"))
           | Some expected =>
           if len buffer <? expected then io_err (InvalidArgument (tier_word t +:+ " segment data file is too small"))
           else io_ret {| f_tier := t; f_dim := m_dimension m; f_quantizer := q; f_offsets := m_offsets m; f_buffer := buffer |}
           end) d io
      end
  end.
(** [ColdSegment::open] and [WarmSegment::open]. *)
Definition cold_open : IO SegmentFile := open_segment Cold.
Definition warm_open : IO SegmentFile := open_segment Warm.
Definition insert_refused (t : Tier) : Result StorageError unit :=
  Err (InvalidArgument (tier_word t +:+ " segments are immutable; insert into hot")).

(** ** Searching the mapped bytes *)

(** [&bytes[start..end]]. *)
Definition byte_range (s e : N) (bytes : list N) : option (list N) :=
  if (s <=? e) && (e <=? len bytes) then Some (slice s (e - s) bytes) else None.
Definition encoded_vector (f : SegmentFile) (idx : N) : option (list N) :=
  let bytes_per_vec := encoded_bytes (f_quantizer f) in
  let start := idx * bytes_per_vec in
  byte_range start (start + bytes_per_vec) (f_buffer f).
(** Copy the vectors the bitmap admits, from the local index on. *)
Fixpoint filter_chunk (f : SegmentFile) (bm : RoaringBitmap) (idx : N) (chunk : list N) : option (list (list N) * list N) :=
  match chunk with
  | [] => Some ([], [])
  | o :: chunk =>
      if allowed (Some bm) o then
        v ← encoded_vector f idx;
        '(vs, os) ← filter_chunk f bm (idx + 1) chunk; Some (v :: vs, o :: os)
      else filter_chunk f bm (idx + 1) chunk
  end.
Definition points (t : Tier) (os : list N) (scores : list f32) : list ScoredPoint :=
  zip_with (fun o s => {| offset := o; Segments.score := s; sp_tier := t |}) os scores.
Definition chunk_points (f : SegmentFile) (eq : AnyEncodedQuery (NU := F32)) (allowed_offsets : option RoaringBitmap) (base : N)
    (chunk : list N) : option (list ScoredPoint) :=
  match allowed_offsets with
  | Some bm =>
      '(vs, os) ← filter_chunk f bm base chunk;
      match os with
      | [] => Some []
      | _ => scores ← QuantSearch.score_batch isa popcnt eq (concat vs); Some (points (f_tier f) os scores)
      end
  | None =>
      let bytes_per_vec := encoded_bytes (f_quantizer f) in
      let start := base * bytes_per_vec in
      bytes ← byte_range start (start + len chunk * bytes_per_vec) (f_buffer f);
      scores ← QuantSearch.score_batch isa popcnt eq bytes; Some (points (f_tier f) chunk scores)
  end.
Fixpoint all_points (f : SegmentFile) (eq : AnyEncodedQuery (NU := F32)) (allowed_offsets : option RoaringBitmap) (base : N)
    (chunks : list (list N)) : option (list ScoredPoint) :=
  match chunks with
  | [] => Some []
  | chunk :: chunks =>
      ps ← chunk_points f eq allowed_offsets base chunk;
      rest ← all_points f eq allowed_offsets (base + N.of_nat QCHUNK) chunks; Some (ps ++ rest)
  end.
Context {K : Kernels} {B1 : BinaryHeap rev_heap_le}.
(** [Vec::with_capacity(top_k * 2)]: the product wraps, and a capacity of more than
    [isize::MAX] bytes panics; a point takes 16. *)
Definition capacity_ok (top_k : N) : bool := ((top_k * 2) mod U64) * 16 <? 2 ^ 63.
(** [search] of a warm or cold segment; [None] is a panic. *)
Definition file_search (f : SegmentFile) (query : list f32) (top_k : N) (allowed_offsets : option RoaringBitmap) (view : View)
    : option (Result StorageError (list ScoredPoint)) :=
  match validate_dimension query (f_dim f) with
  | Err er => Some (Err (Core er))
  | Ok _ =>
      match QuantSearch.encode_query (f_quantizer f) query with
      | None => None
      | Some (Err er) => Some (Err (Core er))
      | Some (Ok eq) =>
          if capacity_ok top_k then
            candidates ← all_points f eq allowed_offsets 0 (chunks QCHUNK (f_offsets f));
            let shortlist := N.max (saturating_mul top_k (rerank_oversample (f_dim f))) MIN_RERANK_SHORTLIST in
            let candidates := top_k_minheap candidates shortlist in
            Some (Ok (take (N.to_nat top_k) (rescore query view (f_tier f) (map offset candidates))))
          else None
      end
  end.
(** The two kinds have the same routines, each in its own file. *)
Definition cold_encoded_vector (f : SegmentFile) (idx : N) : option (list N) := encoded_vector f idx.
Definition cold_insert : Result StorageError unit := insert_refused Cold.
Definition cold_search (f : SegmentFile) (query : list f32) (top_k : N) (allowed_offsets : option RoaringBitmap) (view : View)
    : option (Result StorageError (list ScoredPoint)) := file_search f query top_k allowed_offsets view.
End segments.
