(* ===== verification/SegmentFileTheorems.v ===== *)
(** * What the segment files promise

    Searching the mapped bytes of a warm or cold segment never panics, whatever the data
    file holds, and finds what the segment of SegmentSearch finds over the same codes
    ([file_search_refines]). A quantizer survives its manifest ([load_stored]). *)

From S2P Require Import Prelude Core Floats Config Metrics Record Segments SegmentSearch Engine Numeric Simd Codes Hadamard Quant QuantSearch QuantTheorems QuantExact QuantScores QuantBatch QuantSafe SegmentFiles.
From Stdlib Require Import Lia.

#[local] Existing Instance F32.

Section search.
Context {RC : RandCrate} (isa : Isa) (popcnt : bool).

(** ** The quantizer of a segment, as SegmentSearch has it *)

(** [n] scores: those of the kernel when there are as many. *)
Definition fit (n : nat) (scores : option (list f32)) : list f32 :=
  take n (default [] scores ++ repeat f32_zero n).
Lemma fit_length n scores : length (fit n scores) = n.
Proof. unfold fit. rewrite length_take, length_app, repeat_length. lia. Qed.
Definition quantizer_of (q : VectorQuantizer (NU := F32)) : Quantizer := {|
  EncodedQuery := AnyEncodedQuery (NU := F32);
  SegmentSearch.encode_query := fun v => default (Err NonFinite) (QuantSearch.encode_query q v);
  SegmentSearch.score_batch := fun e codes => fit (length codes) (QuantSearch.score_batch isa popcnt e (concat codes));
  score_batch_length := fun e codes => fit_length (length codes) _ |}.
(** The vectors of the buffer, as many as there are offsets. *)
Definition file_codes (f : SegmentFile) : list (list N) :=
  let b := encoded_bytes (f_quantizer f) in vectors_of b (slice 0 (len (f_offsets f) * b) (f_buffer f)).
Definition segment_of (f : SegmentFile) : QuantSegment :=
  {| q_dim := f_dim f; q_tier := f_tier f; q_quantizer := quantizer_of (f_quantizer f); q_codes := zip (f_offsets f) (file_codes f) |}.

Record file_ok (f : SegmentFile) : Prop := {
  fk_built : built (f_quantizer f);
  fk_dim : vq_dim (f_quantizer f) = f_dim f;
  fk_pos : 0 < f_dim f;
  fk_bytes : is_bytes (f_buffer f);
  fk_room : len (f_offsets f) * encoded_bytes (f_quantizer f) <= len (f_buffer f);
}.

(** ** Ranges of the buffer *)

Lemma vectors_of_spec n k (l : list N) : 0 < n -> len l = k * n -> is_bytes l ->
  blocks n (vectors_of n l) /\ len (vectors_of n l) = k /\ concat (vectors_of n l) = l.
Proof.
  intros Hn. revert l. induction k as [|k IH] using N.peano_ind; intros l Hl Hb.
  - assert (l = []) as -> by (destruct l; [done|]; unfold len in Hl; simpl in Hl; lia).
    unfold vectors_of. change (len (@nil N)) with 0. rewrite N.Div0.div_0_l. split_and!; [constructor|done|done].
  - assert (Hd : exists v rest, l = v ++ rest /\ len v = n /\ len rest = k * n).
    { rewrite N.mul_succ_l in Hl. exists (take (N.to_nat n) l), (drop (N.to_nat n) l). rewrite take_drop. unfold len in *. rewrite length_take, length_drop. split; [done|lia]. }
    destruct Hd as (v & rest & -> & Hv & Hr). apply Forall_app in Hb as [Bv Br]. destruct (IH rest Hr Br) as (H1 & H2 & H3).
    assert (E : vectors_of n (v ++ rest) = v :: vectors_of n rest).
    { rewrite <- H3 at 1. change (v ++ concat (vectors_of n rest)) with (concat (v :: vectors_of n rest)).
      apply vectors_of_concat; [done|]. constructor; [done|exact H1]. }
    rewrite E. split_and!; [by constructor| |simpl; by rewrite H3]. unfold len in *. simpl. lia.
Qed.

Context (f : SegmentFile) (Hf : file_ok f).
Abbreviation bpv := (encoded_bytes (f_quantizer f)).
Abbreviation V := (file_codes f).

Lemma bpv_pos : 0 < bpv.
Proof.
  destruct (N.eq_0_gt_0_cases bpv) as [E0|]; [|done]. exfalso. pose proof (built_ok _ (fk_built f Hf)) as Hq. pose proof (fk_pos f Hf) as Hd. rewrite <- (fk_dim f Hf) in Hd.
  destruct (f_quantizer f) as [q|dim|q|q|q]; cbn [encoded_bytes vq_dim vq_ok] in *.
  - lia.
  - pose proof (bytes_room dim). lia.
  - pose proof (mse_bytes_some q Hq). lia.
  - unfold prod_bytes in E0. lia.
  - unfold rabitq_bytes in E0. lia.
Qed.
Lemma codes_spec : blocks bpv V /\ length V = length (f_offsets f) /\ exists rest, f_buffer f = concat V ++ rest.
Proof.
  pose proof (fk_room f Hf) as Hr. destruct (vectors_of_spec bpv (len (f_offsets f)) (slice 0 (len (f_offsets f) * bpv) (f_buffer f)) bpv_pos)
    as (H1 & H2 & H3); [apply len_slice; lia|apply is_bytes_slice, Hf|]. split; [exact H1|]. split.
  - apply Nat2N.inj. exact H2.
  - unfold file_codes. rewrite H3. eexists. unfold slice. rewrite drop_0. symmetry. apply take_drop.
Qed.
Lemma range_codes base k : (base + k <= length V)%nat ->
  byte_range (N.of_nat base * bpv) (N.of_nat base * bpv + N.of_nat k * bpv) (f_buffer f) = Some (concat (take k (drop base V))).
Proof.
  destruct codes_spec as (Hb & _ & rest & E). intros Hk. pose proof (blocks_length _ _ Hb) as Hlen.
  assert (L : len (f_buffer f) = len V * bpv + len rest).
  { rewrite E, len_app. f_equal. by apply blocks_len. }
  unfold byte_range. rewrite (proj2 (N.leb_le _ _)), (proj2 (N.leb_le _ _)) by (rewrite ?L; unfold len; nia). cbn [andb]. f_equal.
  unfold slice. rewrite E. rewrite N.add_comm, N.add_sub, !N2Nat.inj_mul, !Nat2N.id.
  rewrite drop_app_le by (rewrite (length_concat_blocks _ _ Hlen); nia). rewrite (drop_concat _ _ _ Hlen).
  assert (Hd : Forall (fun v => length v = N.to_nat bpv) (drop base V)) by by apply Forall_drop.
  rewrite take_app_le by (rewrite (length_concat_blocks _ _ Hd), length_drop; nia).
  rewrite <- (take_drop k (drop base V)) at 1. rewrite concat_app, take_app_le, take_ge; [done| |].
  all: rewrite (length_concat_blocks (N.to_nat bpv)), length_take, length_drop by (by apply Forall_take); nia.
Qed.
Lemma code_at base v : V !! base = Some v -> encoded_vector f (N.of_nat base) = Some v.
Proof.
  intros Hv. unfold encoded_vector. replace (N.of_nat base * bpv + bpv) with (N.of_nat base * bpv + N.of_nat 1 * bpv) by lia.
  pose proof (lookup_lt_Some _ _ _ Hv). rewrite range_codes by lia. rewrite (drop_S _ _ _ Hv). simpl. by rewrite app_nil_r.
Qed.

(** ** A chunk *)

Lemma filter_codes bm base os vs : length os = length vs -> take (length vs) (drop base V) = vs ->
  filter_chunk f bm (N.of_nat base) os
  = Some ((filter (fun oc : N * list N => allowed (Some bm) oc.1) (zip os vs)).*2, (filter (fun oc : N * list N => allowed (Some bm) oc.1) (zip os vs)).*1).
Proof.
  revert base vs. induction os as [|o os IH]; intros base [|v vs] Hl Hv; try done.
  assert (Hlt : (base < length V)%nat).
  { destruct (Nat.lt_ge_cases base (length V)) as [|Hge]; [done|]. by rewrite drop_ge in Hv. }
  destruct (lookup_in V base Hlt) as [w Hw]. rewrite (drop_S _ _ _ Hw) in Hv. simpl in Hv. injection Hv as -> Hv.
  cbn [filter_chunk zip_with]. rewrite filter_cons. cbn [fst].
  assert (E : N.of_nat base + 1 = N.of_nat (S base)) by lia. rewrite E, (IH (S base) vs) by (by injection Hl || done).
  destruct (allowed (Some bm) o) eqn:Ha; [|by case_decide].
  rewrite (code_at base v Hw). cbn [mbind option_bind]. by case_decide.
Qed.
Lemma filter_every {A} (P : A -> Prop) `{!forall x, Decision (P x)} (l : list A) : (forall x, x ∈ l -> P x) -> filter P l = l.
Proof.
  induction l as [|x l IH]; intros Hl; [done|]. rewrite filter_cons_True by (apply Hl; set_solver). f_equal. apply IH. intros y Hy. apply Hl. set_solver.
Qed.
Lemma zip_fsts {A B} (l : list A) (k : list B) : length l = length k -> (zip l k).*1 = l /\ (zip l k).*2 = k.
Proof. intros H. split; [apply fst_zip|apply snd_zip]; lia. Qed.
Lemma fit_scores n (scores : list f32) : length scores = n -> fit n (Some scores) = scores.
Proof. intros <-. unfold fit. simpl. by rewrite take_app_length. Qed.

Context (eq : AnyEncodedQuery (NU := F32)).
Context (Heq : forall vs, blocks bpv vs -> exists scores, QuantSearch.score_batch isa popcnt eq (concat vs) = Some scores /\ length scores = length vs).
Lemma chunk_ok bm base os vs : length os = length vs -> (base + length os <= length V)%nat -> take (length vs) (drop base V) = vs ->
  chunk_points isa popcnt f eq bm (N.of_nat base) os = Some (quant_chunk (segment_of f) eq bm (zip os vs)).
Proof.
  intros Hl Hroom Hv. destruct codes_spec as (Hb & _ & _).
  assert (Bv : blocks bpv vs) by (rewrite <- Hv; by apply Forall_take, Forall_drop).
  unfold chunk_points, quant_chunk. cbn [q_quantizer segment_of quantizer_of SegmentSearch.score_batch q_tier].
  destruct bm as [bm|].
  - rewrite (filter_codes bm base os vs Hl Hv). cbn [mbind option_bind].
    set (admitted := filter _ (zip os vs)). assert (Ba : blocks bpv admitted.*2).
    { unfold blocks. apply Forall_fmap, Forall_forall. intros [o v] Hin. apply list_elem_of_filter in Hin as [_ Hin].
      apply elem_of_zip_r in Hin. unfold blocks in Bv. rewrite Forall_forall in Bv. by apply Bv. }
    destruct (Heq _ Ba) as (scores & Es & Ls). rewrite Es. cbn [mbind option_bind]. rewrite fit_scores by done.
    by destruct (admitted.*1).
  - rewrite filter_every by done. destruct (zip_fsts os vs Hl) as [-> ->].
    change (len os) with (N.of_nat (length os)). rewrite range_codes by done. rewrite Hl, Hv. cbn [mbind option_bind].
    destruct (Heq vs Bv) as (scores & -> & Ls). cbn [mbind option_bind]. by rewrite fit_scores.
Qed.
Lemma chunks_zip {A B} fuel n (l : list A) (k : list B) : length l = length k ->
  chunks_fuel fuel n (zip l k) = zip_with zip (chunks_fuel fuel n l) (chunks_fuel fuel n k).
Proof.
  revert l k. induction fuel as [|fuel IH]; intros [|x l] [|y k] Hl; try done. cbn [chunks_fuel zip_with zip].
  rewrite <- (IH (drop n (x :: l)) (drop n (y :: k))) by (rewrite !length_drop; lia).
  change ((x, y) :: zip_with pair l k) with (zip_with pair (x :: l) (y :: k)). by rewrite zip_with_take, zip_with_drop.
Qed.
Lemma all_ok bm fuel base os vs : length os = length vs -> (base + length os <= length V)%nat -> take (length vs) (drop base V) = vs ->
  all_points isa popcnt f eq bm (N.of_nat base) (chunks_fuel fuel QCHUNK os)
  = Some (concat (map (quant_chunk (segment_of f) eq bm) (chunks_fuel fuel QCHUNK (zip os vs)))).
Proof.
  revert base os vs. induction fuel as [|fuel IH]; intros base os vs Hl Hroom Hv; [done|].
  destruct os as [|o os], vs as [|v vs]; try done. cbn [chunks_fuel zip_with]. cbn [all_points map concat].
  change ((o, v) :: zip_with pair os vs) with (zip (o :: os) (v :: vs)).
  revert Hl Hroom Hv. generalize (o :: os) (v :: vs). clear o os v vs. intros os vs Hl Hroom Hv.
  rewrite zip_with_take, zip_with_drop.
  rewrite (chunk_ok bm base (take QCHUNK os) (take QCHUNK vs)); [|rewrite !length_take; lia|rewrite length_take; lia|].
  2: { rewrite length_take. rewrite <- Hv at 2. rewrite take_take. f_equal. }
  cbn [mbind option_bind]. rewrite <- Nat2N.inj_add.
  destruct (Nat.le_gt_cases QCHUNK (length os)) as [Hle|Hgt].
  - rewrite (IH (base + QCHUNK)%nat (drop QCHUNK os) (drop QCHUNK vs)); [done|rewrite !length_drop; lia|rewrite length_drop; lia|].
    rewrite length_drop, <- drop_drop. rewrite <- Hv at 2. by rewrite skipn_firstn_comm.
  - rewrite !drop_ge by lia. by destruct fuel.
Qed.
End search.

Section refinement.
Context {RC : RandCrate} (isa : Isa) (popcnt : bool) {K : Kernels} {B1 : BinaryHeap rev_heap_le}.

(** C22: Searching a warm or cold segment over its mapped file is the search over its codes: for
    any query, bitmap and result size, and whatever bytes the data file holds, the chunked
    scan (contiguous without a filter, copied vector by vector with one) never
    reads outside the mapping, and answers what the segment of offsets and codes answers. It
    panics only on a query of the right dimension whose result size asks for a vector of
    more bytes than an allocation can have. *)
Theorem file_search_refines (f : SegmentFile) query top_k bm view : file_ok f ->
  file_search isa popcnt f query top_k bm view =
    if (len query =? f_dim f) && negb (capacity_ok top_k) then None
    else Some (quant_search (segment_of isa popcnt f) query top_k bm view).
Proof.
  intros Hf. unfold file_search, quant_search. cbn [q_dim segment_of q_quantizer quantizer_of SegmentSearch.encode_query q_codes].
  unfold validate_dimension. destruct (N.eqb_spec (len query) (f_dim f)) as [Hq|Hq]; [|done].
  cbn [negb map_err mbind Result_bind andb]. rewrite <- (fk_dim f Hf) in Hq.
  destruct (scores_blocks isa popcnt (f_quantizer f) query (fk_built f Hf) Hq) as (e & -> & _ & Hs).
  { rewrite (fk_dim f Hf). apply (fk_pos f Hf). }
  destruct (capacity_ok top_k); [|done]. cbn [negb].
  cbn [default mbind Result_bind map_err]. destruct (codes_spec f Hf) as (_ & Hl & _).
  unfold chunks. rewrite length_zip_with, Hl, Nat.min_id.
  change 0 with (N.of_nat 0). rewrite (all_ok isa popcnt f Hf e (fun vs Hvs => proj2 (Hs vs Hvs)) bm _ 0 (f_offsets f) (file_codes f)).
  - done.
  - done.
  - lia.
  - rewrite drop_0. by rewrite firstn_all.
Qed.
End refinement.

(** ** What a quantizer built from finite vectors is *)

Section quantizers.
Context {RC : RandCrate}.

Lemma finite_mag x : is_finite x = true -> f32_mag x < 255 * 2 ^ 23.
Proof.
  unfold is_finite, f32_expo. destruct (N.eqb_spec (f32_mag x / 2 ^ 23) 255) as [|Hne]; [done|]. intros _.
  assert (Hm : f32_mag x < 2 ^ 31) by (apply N.mod_lt; lia). assert (Hd : f32_mag x / 2 ^ 23 < 256) by (apply N.Div0.div_lt_upper_bound; exact Hm).
  pose proof (N.div_mod (f32_mag x) (2 ^ 23) ltac:(done)). pose proof (N.mod_lt (f32_mag x) (2 ^ 23) ltac:(done)).
  change (2 ^ 23) with 8388608 in *. lia.
Qed.
Lemma below_infinity x : is_finite x = true -> f32_gtb 0x7F800000 x = true /\ f32_gtb x 0xFF800000 = true.
Proof.
  intros Hx. pose proof (finite_mag x Hx) as Hm. unfold f32_gtb. rewrite (finite_not_nan x Hx).
  change (is_nan 0x7F800000) with false. change (is_nan 0xFF800000) with false.
  change (real_key 0x7F800000) with 2139095040%Z. change (real_key 0xFF800000) with (-2139095040)%Z.
  change (255 * 2 ^ 23) with 2139095040 in Hm. cbn [negb andb]. rewrite !Z.ltb_lt. unfold real_key. destruct (f32_sign x); lia.
Qed.
Definition range_fine (mm : f32 * f32) : Prop := mm = (0x7F800000, 0xFF800000) \/ (is_finite mm.1 = true /\ is_finite mm.2 = true).
Lemma range_step_fine mm x : range_fine mm -> is_finite x = true ->
  is_finite (range_step (NU := F32) mm x).1 = true /\ is_finite (range_step (NU := F32) mm x).2 = true.
Proof.
  intros Hmm Hx. destruct (below_infinity x Hx) as [H1 H2]. destruct mm as [mn mx]. unfold range_step, nltb.
  change (@ngtb F32) with f32_gtb. cbn [fst snd]. destruct Hmm as [[= -> ->]|[Hn Hxx]].
  - by rewrite H1, H2.
  - cbn [fst snd] in *. destruct (f32_gtb mn x), (f32_gtb x mx); done.
Qed.
Lemma range_fold_fine v mm : range_fine mm -> forallb is_finite v = true ->
  range_fine (foldl (range_step (NU := F32)) mm v) /\
  (v <> [] -> is_finite (foldl (range_step (NU := F32)) mm v).1 = true /\ is_finite (foldl (range_step (NU := F32)) mm v).2 = true).
Proof.
  revert mm. induction v as [|x v IH]; intros mm Hmm Hv; [done|]. simpl in Hv. apply andb_true_iff in Hv as [Hx Hv].
  pose proof (range_step_fine mm x Hmm Hx) as Hs. cbn [foldl]. destruct (IH (range_step (NU := F32) mm x)) as [H1 H2]; [by right|done|].
  split; [done|]. intros _. destruct v as [|y v]; [exact Hs|]. by apply H2.
Qed.
Lemma range_loop_fine dim vs mm mm' : 0 < dim -> range_fine mm -> Forall (fun v => forallb is_finite v = true) vs ->
  range_loop (NU := F32) dim vs mm = Some (Ok mm') -> range_fine mm' /\ (vs <> [] -> is_finite mm'.1 = true /\ is_finite mm'.2 = true).
Proof.
  intros Hd Hmm Hvs. revert mm Hmm. induction Hvs as [|v vs Hv Hvs IH]; intros mm Hmm H.
  - injection H as <-. done.
  - cbn [range_loop] in H. unfold check_dimension in H. destruct (N.eqb_spec (@len (@num_t F32) v) dim) as [Hl|]; cbn [negb out_bind] in H; [|discriminate H].
    destruct (range_fold_fine v mm Hmm Hv) as [H1 H2].
    assert (Hne : v <> []) by (intros ->; unfold len in Hl; simpl in Hl; lia).
    destruct (IH _ H1 H) as [H3 H4]. split; [done|]. intros _. destruct vs as [|w vs]; [|by apply H4].
    injection H as <-. by apply H2.
Qed.
Lemma table_finite nbits t : lloyd_max_new (NU := F32) nbits = Some (Ok t) -> forallb is_finite (lm_centroids t) = true.
Proof.
  unfold lloyd_max_new. destruct (N.eqb_spec nbits 0) as [|H0]; [done|]. destruct (N.ltb_spec 8 nbits) as [|H8]; [done|]. cbn [orb].
  intros [= <-]. cbn [lm_centroids].
  assert (Hc : nbits = 1 \/ nbits = 2 \/ nbits = 3 \/ nbits = 4 \/ nbits = 5 \/ nbits = 6 \/ nbits = 7 \/ nbits = 8) by lia.
  destruct Hc as [-> |[-> |[-> |[-> |[-> |[-> |[-> | ->]]]]]]]; vm_compute; reflexivity.
Qed.
(** The constructors answer; only an index can panic. *)
Lemma range_loop_total dim vs mm : exists r, range_loop (NU := F32) dim vs mm = Some r.
Proof.
  revert mm. induction vs as [|v vs IH]; intros mm; [by eexists|]. cbn [range_loop]. unfold check_dimension.
  destruct (len v =? dim); cbn [negb out_bind]; [apply IH|by eexists].
Qed.
Lemma mse_new_total dim nbits seed : exists r, mse_new (NU := F32) dim nbits seed = Some r.
Proof.
  unfold mse_new. destruct (_ || negb _); [by eexists|]. destruct (_ || _) eqn:Eb; [by eexists|]. unfold lloyd_max_new.
  rewrite Eb. by eexists.
Qed.
Lemma mse_new_finite dim nbits seed q : mse_new (NU := F32) dim nbits seed = Some (Ok q) -> forallb is_finite (tm_centroids q) = true.
Proof.
  unfold mse_new. destruct (_ || negb _); [done|]. destruct (_ || _); [done|]. destruct (lloyd_max_new nbits) as [[t|]|] eqn:El; try done.
  cbn [out_bind]. intros [= <-]. by apply (table_finite nbits).
Qed.
(** A quantizer of a kind: an error, or one that is well typed and that JSON can hold. *)
Definition usable (dim : N) (r : Result TurboError (VectorQuantizer (NU := F32))) : Prop :=
  forall q, r = Ok q -> built q /\ vq_dim q = dim /\ finite_floats (store_quantizer q) = true.
Lemma usable_err dim er : usable dim (Err er).
Proof. by intros q. Qed.
Lemma usable_scalar v0 vs nbits : v0 <> [] -> Forall (fun v => forallb is_finite v = true) (v0 :: vs) ->
  exists r, quantizer_for (Engine.Scalar nbits) (len v0) (v0 :: vs) = Some r /\ usable (len v0) r.
Proof.
  intros Hne Hfin. cbn [quantizer_for]. destruct (calibrate (NU := F32) (v0 :: vs) nbits) as [[q|er]|] eqn:E.
  - cbn [out_bind]. eexists. split; [done|]. intros q' [= <-]. split; [by eapply built_scalar|].
    unfold calibrate in E. destruct (_ || _); [done|]. destruct (range_loop _ _ _) as [[mm|]|] eqn:El; try done. cbn [out_bind] in E.
    injection E as <-. split; [done|].
    destruct (range_loop_fine (len v0) (v0 :: vs) _ mm ltac:(destruct v0; [done|unfold len; simpl; lia]) ltac:(by left) Hfin El) as [_ Hfine].
    destruct (Hfine ltac:(done)) as [H1 H2]. apply andb_true_iff. split; [exact H1|exact H2].
  - eexists. split; [done|apply usable_err].
  - exfalso. unfold calibrate in E. destruct (_ || _); [done|].
    match type of E with context [range_loop ?d ?v ?m] => destruct (range_loop_total d v m) as [[mm|] Er] end; by rewrite Er in E.
Qed.
Lemma usable_mse dim nbits vs : exists r, quantizer_for (Engine.TurboQuantMse nbits) dim vs = Some r /\ usable dim r.
Proof.
  cbn [quantizer_for]. destruct (mse_new_total dim nbits ROTATION_SEED) as [[q|] E]; rewrite E; (eexists; split; [done|]); [|apply usable_err].
  intros q' [= <-]. split; [by eapply built_mse|]. split; [by eapply mse_new_ok|]. by eapply mse_new_finite.
Qed.
Lemma usable_prod dim nbits vs : exists r, quantizer_for (Engine.TurboQuantProd nbits) dim vs = Some r /\ usable dim r.
Proof.
  cbn [quantizer_for]. destruct (prod_new (NU := F32) dim nbits ROTATION_SEED QJL_SEED) as [[q|]|] eqn:E.
  - eexists. split; [done|]. intros q' [= <-]. split; [by eapply built_prod|]. split; [|done].
    unfold prod_new in E. destruct (negb _); [done|]. destruct (mse_new _ _ _) as [[m|]|]; try done. by injection E as <-.
  - eexists. split; [done|apply usable_err].
  - exfalso. unfold prod_new in E. destruct (negb _); [done|]. destruct (mse_new_total dim (nbits - 1) ROTATION_SEED) as [[m|] Em]; by rewrite Em in E.
Qed.
Lemma usable_rabitq dim nbits vs : exists r, quantizer_for (Engine.RaBitQ nbits) dim vs = Some r /\ usable dim r.
Proof.
  cbn [quantizer_for]. destruct (rabitq_new (NU := F32) dim nbits ROTATION_SEED) as [[q|]|] eqn:E.
  - eexists. split; [done|]. intros q' [= <-]. split; [by eapply built_rabitq|]. unfold rabitq_new in E.
    destruct (dim =? 0); [done|]. destruct (_ && _); [done|]. injection E as <-. split; [done|]. cbn [finite_floats store_quantizer rq_signs].
    apply forallb_forall. intros x Hx. apply in_map_iff in Hx as (i & <- & _). by destruct (gen_bool_half _ _).
  - eexists. split; [done|apply usable_err].
  - exfalso. unfold rabitq_new in E. destruct (dim =? 0); [done|]. by destruct (_ && _).
Qed.
Lemma quantizer_for_ok kind v0 vs : v0 <> [] -> Forall (fun v => forallb is_finite v = true) (v0 :: vs) ->
  exists r, quantizer_for kind (len v0) (v0 :: vs) = Some r /\ usable (len v0) r.
Proof.
  intros Hne Hfin. destruct kind as [nbits| |nbits|nbits|nbits].
  - by apply usable_scalar.
  - eexists. split; [done|]. intros q [= <-]. split; [constructor|done].
  - apply usable_mse.
  - apply usable_prod.
  - apply usable_rabitq.
Qed.

(** Storing keeps every built quantizer. *)
Lemma load_stored q : built q -> load_quantizer (store_quantizer q) = Some (Ok q).
Proof.
  intros Hb. destruct q as [q|dim|q|q|q]; try done. cbn [store_quantizer load_quantizer].
  inversion Hb as [| | |dim nbits seed qjl q' E|]; subst. by rewrite (prod_stored dim nbits seed qjl q E).
Qed.

(** Encoding the vectors of a build: an error, or as many codes. *)
Lemma encode_all_ok q vs : built q -> exists r, encode_all q vs = Some r /\ forall codes, r = Ok codes ->
  blocks (encoded_bytes q) codes /\ Forall2 (fun v c => encode q v = Some (Ok c)) vs codes.
Proof.
  intros Hb. pose proof (built_ok q Hb) as Hq. induction vs as [|v vs IH]; [eexists; split; [done|]; intros codes [= <-]; split; constructor|].
  cbn [encode_all]. destruct (encode q v) as [[c|er]|] eqn:E; cbn [out_bind].
  - destruct IH as (r & Er & Hr). rewrite Er. destruct r as [cs|er]; cbn [out_bind]; [|by eexists; split; [done|]].
    eexists. split; [done|]. intros codes [= <-]. destruct (Hr cs eq_refl) as [H1 H2]. split; [|by constructor]. constructor; [|done].
    destruct (N.eq_dec (len v) (vq_dim q)) as [Hl|Hl].
    + destruct (encode_ok q v Hq Hl) as (c' & E' & ?). rewrite E in E'. by injection E' as <-.
    + rewrite (encode_bad q v Hl) in E. done.
  - by eexists; split; [done|].
  - exfalso. destruct (N.eq_dec (len v) (vq_dim q)) as [Hl|Hl].
    + destruct (encode_ok q v Hq Hl) as (c' & E' & ?). by rewrite E in E'.
    + by rewrite (encode_bad q v Hl) in E.
Qed.
End quantizers.

Module SegmentFileWitness.
Import Examples.

#[local] Existing Instance no_rand.
(** Two vectors of two components, one byte each, and a byte past the last. *)
Definition ex_file : SegmentFile :=
  {| f_tier := Cold; f_dim := 2; f_quantizer := Quant.Sign 2; f_offsets := [7; 9]; f_buffer := [3; 1; 255] |}.
Lemma ex_file_ok : file_ok ex_file.
Proof. split; [constructor|reflexivity|reflexivity|repeat constructor|by vm_compute]. Qed.
Definition ex_view : View := fun o => if o =? 7 then Some [f32_one; f32_one] else if o =? 9 then Some [f32_one; f32_neg f32_one] else None.
Lemma file_search_refines_witness :
  @file_search no_rand Avx2Fma true scalar_kernels ex_point_heap ex_file [f32_one; f32_neg f32_one] 1 (Some {[9]}) ex_view
  = Some (@quant_search scalar_kernels ex_point_heap (@segment_of no_rand Avx2Fma true ex_file) [f32_one; f32_neg f32_one] 1 (Some {[9]}) ex_view).
Proof. apply (@file_search_refines no_rand Avx2Fma true scalar_kernels ex_point_heap). exact ex_file_ok. Defined.
(** Without a filter both are scored from the mapping, and the second is nearer. *)
Example ex_file_search :
  match @file_search no_rand Avx2Fma true scalar_kernels ex_point_heap ex_file [f32_one; f32_neg f32_one] 1 None ex_view with
  | Some (Ok l) => map offset l = [9]
  | _ => False
  end.
Proof. vm_compute. reflexivity. Qed.
End SegmentFileWitness.
