(* ===== verification/SegmentBuild.v ===== *)
(** * Building and opening a segment directory

    Triples for the system calls of SegmentFiles: what holds of the directory when a
    computation returns, and what holds when it fails, whatever the calls do. With them,
    a build of a warm or cold segment is all or nothing ([build_all_or_nothing]): cut
    short at any call, or by a power loss, it leaves a directory that does not open;
    completed, one that opens as the segment built. *)

From S2P Require Import Prelude Core Floats Config Metrics Record Segments SegmentSearch Engine Numeric Simd Codes Hadamard Quant QuantSearch QuantTheorems QuantExact QuantScores QuantBatch QuantSafe SegmentFiles SegmentFileTheorems.
From Stdlib Require Import Lia.

#[local] Existing Instance F32.

(** ** Triples *)

Section triples.
Context {D T : Type}.
Implicit Types (P E : Dir D T -> Prop).

(** From a directory with [P], the computation returns with [Q] or fails with [E]; it
    does not panic. *)
Definition triple {A} P (m : IoM D T A) (Q : A -> Dir D T -> Prop) E : Prop :=
  forall d io, P d -> match m d io with
                      | (Some (Ok x), d', _) => Q x d'
                      | (Some (Err _), d', _) => E d'
                      | (None, _, _) => False
                      end.
Lemma triple_bind {A B} P (m : IoM D T A) R (k : A -> IoM D T B) Q E :
  triple P m R E -> (forall x, triple (R x) (k x) Q E) -> triple P (io_bind m k) Q E.
Proof.
  intros Hm Hk d io HP. specialize (Hm d io HP). unfold io_bind. destruct (m d io) as [[[[x|er]|] d'] io']; [|done..].
  by apply Hk.
Qed.
Lemma triple_ret {A} P (x : A) Q E : (forall d, P d -> Q x d) -> triple P (io_ret x) Q E.
Proof. intros H d io HP. by apply H. Qed.
Lemma triple_err {A} P er (Q : A -> Dir D T -> Prop) E : (forall d, P d -> E d) -> triple P (io_err er) Q E.
Proof. intros H d io HP. by apply H. Qed.
Lemma triple_syscall P f g Q E : (forall d, P d -> Q tt (f d)) -> (forall d n, P d -> E (g n d)) -> triple P (syscall f g) Q E.
Proof. intros Hf Hg d [|[|n] io] HP; unfold syscall; auto. Qed.
Lemma triple_touch P E : (forall d, P d -> E d) -> triple P touch (fun _ => P) E.
Proof. intros H. by apply triple_syscall; [|intros d n; apply H]. Qed.
Lemma triple_sync P f Q E : (forall d, P d -> Q tt (f d)) -> (forall d, P d -> Q tt d) -> triple P (sync_dir f) Q E.
Proof. intros Hf Hg d [|[|n] io] HP; unfold sync_dir; auto. Qed.
Lemma triple_core {A} P (o : Outcome A) r Q E :
  o = Some r -> (forall x d, r = Ok x -> P d -> Q x d) -> (forall d, P d -> E d) -> triple P (io_core o) Q E.
Proof. intros -> HQ HE d io HP. unfold io_core. destruct r as [x|er]; simpl; [by apply HQ|by apply HE]. Qed.
Lemma triple_read {A} P (file : Dir D T -> option (File A)) Q E :
  (forall d f, P d -> file d = Some f -> Q (content f) d) -> (forall d, P d -> E d) -> triple P (read_file file) Q E.
Proof.
  intros HQ HE. eapply triple_bind; [apply (triple_touch P E HE)|]. intros _ d io HP. destruct (file d) as [f|] eqn:Ef; [by apply HQ|by apply HE].
Qed.
Lemma triple_weaken {A} P P' (m : IoM D T A) Q Q' E :
  triple P' m Q' E -> (forall d, P d -> P' d) -> (forall x d, Q' x d -> Q x d) -> triple P m Q E.
Proof.
  intros H HP HQ d io Hd. specialize (H d io (HP d Hd)). destruct (m d io) as [[[[x|er]|] d'] io']; [by apply HQ|done..].
Qed.
End triples.

(** ** Data file and manifest *)

(** Nothing to open. *)
Definition unopened {D T} (d : Dir D T) : Prop := manifest d = None.
Definition holds_data {D T} (x : D) (d : Dir D T) : Prop := data d = Some (durable x) /\ unopened d.
Lemma data_unopened {D T} (x : D) (d : Dir D T) : holds_data x d -> unopened d.
Proof. by intros [_ H]. Qed.
Definition complete {D T} (x : D) (t : T) (d : Dir D T) : Prop := data d = Some (durable x) /\ manifest d = Some (durable t).

Lemma finish_ok {A T} (bytes : list A) : triple unopened (finish (T := T) bytes) (fun b d => b = bytes /\ holds_data bytes d) unopened.
Proof.
  unfold finish. eapply triple_bind; [by apply triple_touch|]. intros [].
  eapply triple_bind; [by apply (triple_syscall _ _ _ (fun _ => unopened))|]. intros [].
  eapply triple_bind; [by apply (triple_syscall _ _ _ (fun _ => unopened))|]. intros [].
  eapply triple_bind; [by apply (triple_syscall _ _ _ (fun _ => holds_data bytes))|]. intros [].
  eapply triple_bind; [apply triple_touch, data_unopened|]. intros [].
  apply triple_read; [|apply data_unopened]. intros d f [Hd Hm] Ef. rewrite Hd in Ef. by injection Ef as <-.
Qed.
Lemma write_manifest_ok {D M} `{Json M} (x : D) (t : text M) :
  triple (holds_data x) (write_manifest_atomic t) (fun _ => complete x t) unopened.
Proof.
  unfold write_manifest_atomic. set (Ready (d : Dir D (text M)) := holds_data x d /\ tmp d = Some (durable t)).
  eapply triple_bind; [apply (triple_syscall _ _ _ (fun _ => holds_data x)); [done|intros d n [_ Hn]; exact Hn]|]. intros [].
  eapply triple_bind; [apply (triple_syscall _ _ _ (fun _ => holds_data x)); [done|intros d n [_ Hn]; exact Hn]|]. intros [].
  eapply triple_bind; [apply (triple_syscall _ _ _ (fun _ => Ready)); [done|by intros d n []]|]. intros [].
  eapply triple_bind; [apply (triple_syscall _ _ _ (fun _ => complete x t)); [by intros d [[H1 H2] H3]|by intros d n [[H1 H2] H3]]|]. intros [].
  eapply triple_bind; [by apply (triple_sync _ _ (fun _ => complete x t))|]. intros [].
  by apply triple_sync.
Qed.

(** What a power loss leaves of a directory. *)
Lemma loss_unopened {D T} (d d' : Dir D T) : unopened d -> power_loss d d' -> unopened d'.
Proof.
  unfold unopened. intros Hm Hl. destruct Hl as [Hp|dat t m Hd Ht Hml]; [done|]. simpl. rewrite Hm in Hml. by inversion Hml.
Qed.
Lemma lose_durable {A} named (x : A) o : lose_file named (Some (durable x)) o ->
  o = Some (durable x) \/ (o = None /\ named = false).
Proof.
  intros H. remember (Some (durable x)) as f eqn:Ef. destruct H as [|f Hn|f|f y Hs]; try done; injection Ef as ->; [by right|by left|done].
Qed.
Lemma loss_complete {D T} (x : D) (t : T) (d d' : Dir D T) : complete x t d -> power_loss d d' ->
  (data d' = Some (durable x) \/ data d' = None) /\ (manifest d' = Some (durable t) \/ manifest d' = None) /\
  (names_synced d = true -> parent_synced d = true -> complete x t d').
Proof.
  intros [Hd Hm] Hl. destruct Hl as [Hp|dat tm m Ld Lt Lm]; unfold complete; simpl.
  - split; [by right|]. split; [by right|]. congruence.
  - rewrite Hd in Ld. rewrite Hm in Lm.
    destruct (lose_durable _ _ _ Ld) as [->|[-> Hn]], (lose_durable _ _ _ Lm) as [->|[-> Hn']]; split_and!; auto; congruence.
Qed.

(** ** Building *)

Section build.
Context {RC : RandCrate} {J : Json Manifest} {JO : JsonOk Manifest manifest_fits}.

Definition manifest_of (f : SegmentFile) : Manifest :=
  {| m_version := 1; m_dimension := f_dim f; m_quantizer := store_quantizer (f_quantizer f); m_offsets := f_offsets f |}.
(** The segment holds the records' offsets and encoded vectors, in order. *)
Definition holds_records (f : SegmentFile) (t : Tier) (records : list (N * list f32)) : Prop :=
  file_ok f /\ f_tier f = t /\ manifest_fits (manifest_of f) /\ f_offsets f = records.*1 /\
  len (f_buffer f) = len (f_offsets f) * encoded_bytes (f_quantizer f) /\
  Forall2 (fun v c => encode (f_quantizer f) v = Some (Ok c)) records.*2 (file_codes f).
(** On disk: the codes, and the manifest that lists the offsets. *)
Definition on_disk (t : Tier) (records : list (N * list f32)) (f : SegmentFile) (d : Dir (list N) (text Manifest)) : Prop :=
  holds_records f t records /\ exists json, to_json (manifest_of f) = Some json /\ complete (f_buffer f) json d.

Lemma triple_json {D} P (m : Manifest) json E : to_json m = Some json ->
  triple (D := D) P (io_json m) (fun j d => j = json /\ P d) E.
Proof. intros Ej d io HP. unfold io_json. by rewrite Ej. Qed.
Lemma write_segment_ok t dim q records : built q -> vq_dim q = dim -> 0 < dim -> finite_floats (store_quantizer q) = true ->
  triple unopened (write_segment t dim q records) (on_disk t records) unopened.
Proof.
  intros Hb Hq Hd Hfin. unfold write_segment. destruct (encode_all_ok q records.*2 Hb) as (r & Er & Hr).
  eapply triple_bind; [apply (triple_core _ _ r (fun codes d => unopened d /\ r = Ok codes) _ Er); [done|done]|].
  intros codes d io [Hun ->]. destruct (Hr codes eq_refl) as [Hcodes Henc]. revert d io Hun.
  eapply triple_bind; [apply finish_ok|]. intros buffer d io [-> Hd0]. revert d io Hd0.
  set (f := {| f_tier := t; f_dim := dim; f_quantizer := q; f_offsets := records.*1; f_buffer := concat codes |}).
  assert (Hlen : len codes = len records.*1).
  { apply Forall2_length in Henc. rewrite !length_fmap in Henc. unfold len. rewrite length_fmap. lia. }
  assert (Hsize : len (concat codes) = len records.*1 * encoded_bytes q) by (rewrite (blocks_len _ _ Hcodes); lia).
  assert (Hf : file_ok f).
  { split; try done.
    - cbn [f_buffer f]. apply Forall_concat. eapply Forall_impl; [exact Hcodes|]. by intros c [_ ?].
    - cbn [f_buffer f_offsets f_quantizer f]. lia. }
  assert (Hcode : file_codes f = codes).
  { unfold file_codes. cbn [f_offsets f_quantizer f_buffer f]. rewrite <- Hsize. unfold slice, len. rewrite drop_0, Nat2N.id, firstn_all.
    apply vectors_of_concat; [|done]. apply (bpv_pos f Hf). }
  assert (Hrec : holds_records f t records) by (unfold holds_records; rewrite Hcode; split_and!; done).
  destruct (json_total (manifest_of f)) as [json Ej].
  eapply triple_bind; [by apply (triple_json _ _ json)|]. intros t0 d io [-> Hd0]. revert d io Hd0.
  eapply triple_bind; [apply write_manifest_ok|]. intros []. apply triple_ret. intros d Hd0. split; [exact Hrec|]. by exists json.
Qed.

(** ** Opening *)

Lemma touch_cases {D T} (d : Dir D T) io : exists io', touch d io = (Some (Ok tt), d, io') \/ touch d io = (Some (Err Io), d, io').
Proof. destruct io as [|[|n] io]; eexists; [by left|by left|by right]. Qed.
Lemma read_cases {D T A} (file : Dir D T -> option (File A)) d io : exists io',
  read_file file d io = (Some (Err Io), d, io') \/ exists f, file d = Some f /\ read_file file d io = (Some (Ok (content f)), d, io').
Proof.
  unfold read_file, io_bind. destruct (touch_cases d io) as [io' [-> | ->]]; [|exists io'; by left].
  destruct (file d) as [f|]; exists io'; [right; by exists f|by left].
Qed.

(** The directory of a segment, some of its files perhaps lost. *)
Definition remains (f : SegmentFile) (d : Dir (list N) (text Manifest)) : Prop :=
  exists json, to_json (manifest_of f) = Some json /\
    (manifest d = Some (durable json) \/ manifest d = None) /\ (data d = Some (durable (f_buffer f)) \/ data d = None).
Context (t : Tier) (records : list (N * list f32)) (f : SegmentFile) (Hf : holds_records f t records) (Hsize : len (f_buffer f) < U64).
Lemma file_fits : manifest_fits (manifest_of f) /\ built (f_quantizer f).
Proof. destruct Hf as (H1 & _ & H2 & _). split; [exact H2|apply H1]. Qed.
Lemma room_checked : checked_mul (len (f_offsets f)) (encoded_bytes (f_quantizer f)) = Some (len (f_buffer f)).
Proof. destruct Hf as (_ & _ & _ & _ & Hl & _). unfold checked_mul. rewrite <- Hl. by rewrite (proj2 (N.ltb_lt _ _) Hsize). Qed.
Lemma segment_eta : {| f_tier := t; f_dim := f_dim f; f_quantizer := f_quantizer f; f_offsets := f_offsets f; f_buffer := f_buffer f |} = f.
Proof. destruct Hf as (_ & <- & _). by destruct f. Qed.
(** The segment, or an error of the file system. *)
Definition opened (r : option (Result StorageError SegmentFile)) : Prop := r = Some (Ok f) \/ r = Some (Err Io).
Lemma open_remains d io : remains f d -> opened (open_segment t d io).1.1.
Proof.
  intros (json & Ej & Hm & Hd). unfold open_segment. unfold io_bind at 1.
  destruct (read_cases manifest d io) as [io1 [-> |(m & Em & ->)]]; [by right|].
  destruct Hm as [Hm|Hm]; rewrite Hm in Em; [|done]. injection Em as <-. cbn [content].
  rewrite (json_roundtrip _ _ (proj1 file_fits) Ej). cbn [m_quantizer m_offsets m_dimension manifest_of].
  rewrite load_stored by apply file_fits. unfold io_bind at 1.
  destruct (touch_cases d io1) as [io2 [-> | ->]]; [|by right]. unfold io_bind at 1.
  destruct (read_cases data d io2) as [io3 [-> |(b & Eb & ->)]]; [by right|].
  destruct Hd as [Hd|Hd]; rewrite Hd in Eb; [|done]. injection Eb as <-. cbn [content].
  rewrite room_checked, N.ltb_irrefl, segment_eta. by left.
Qed.
Lemma open_complete d json : to_json (manifest_of f) = Some json -> complete (f_buffer f) json d ->
  (open_segment t d []).1.1 = Some (Ok f).
Proof.
  intros Ej [Hd Hm]. unfold open_segment. unfold io_bind at 1.
  change (read_file manifest d []) with (Some (match manifest d with Some f => Ok (content f) | None => Err Io end), d, @nil Call).
  rewrite Hm. cbn [content].
  rewrite (json_roundtrip _ _ (proj1 file_fits) Ej). cbn [m_quantizer m_offsets m_dimension manifest_of].
  rewrite load_stored by apply file_fits. unfold io_bind, read_file, touch, syscall. cbn [tail]. unfold io_bind. rewrite Hd. cbn [content].
  rewrite room_checked, N.ltb_irrefl, segment_eta. done.
Qed.
End build.

Lemma open_unopened {RC : RandCrate} {J : Json Manifest} t d io : unopened d -> (open_segment t d io).1.1 = Some (Err Io).
Proof.
  intros Hm. unfold open_segment, io_bind at 1. destruct (read_cases manifest d io) as [io1 [-> |(m & Em & ->)]]; [done|]. by rewrite Hm in Em.
Qed.

(** ** The theorem *)

Section all_or_nothing.
Context {RC : RandCrate} {J : Json Manifest} {JO : JsonOk Manifest manifest_fits}.

(** The build of a tier. *)
Definition from_records (cold : bool) := if cold then cold_from_records else warm_from_records.
Definition tier_built (cold : bool) : Tier := if cold then Cold else Warm.
Definition good_vectors (records : list (N * list f32)) : Prop :=
  Forall (fun v => v <> [] /\ forallb is_finite v = true) records.*2.

Lemma segment_build_ok cold records kind : good_vectors records ->
  triple unopened (from_records cold records kind) (on_disk (tier_built cold) records) unopened.
Proof.
  intros Hgood. destruct records as [|[o v0] records]; [destruct cold; by apply triple_err|].
  assert (Hne : v0 <> []) by (by apply Forall_cons in Hgood as [[? _] _]).
  assert (Hfin : Forall (fun v => forallb is_finite v = true) (v0 :: records.*2)).
  { eapply Forall_impl; [exact Hgood|]. by intros v [_ ?]. }
  destruct (quantizer_for_ok kind v0 records.*2 Hne Hfin) as (r & Er & Hr).
  set (rs := (o, v0) :: records).
  assert (Hw : forall t q, triple (fun d => r = Ok q /\ unopened d) (write_segment t (len v0) q rs) (on_disk t rs) unopened).
  { intros t q d io [-> Hun]. destruct (Hr q eq_refl) as (Hb & Hdim & Hfl). revert d io Hun.
    apply (write_segment_ok t (len v0) q rs Hb Hdim); [|done]. destruct v0; [done|]. unfold len. simpl. lia. }
  assert (Hcore : triple (D := list N) (T := text Manifest) unopened (io_core (quantizer_for kind (len v0) rs.*2)) (fun q d => r = Ok q /\ unopened d) unopened).
  { by apply (triple_core _ _ r). }
  destruct cold; cbn [from_records tier_built]; unfold cold_from_records, warm_from_records; cbn [rs].
  - eapply triple_bind; [exact Hcore|]. intros q.
    eapply triple_bind; [apply triple_touch; by intros d0 [_ H]|]. intros []. apply Hw.
  - eapply triple_bind; [by apply triple_touch|]. intros [].
    eapply triple_bind; [exact Hcore|]. intros q. apply Hw.
Qed.

(** C21: Building a warm or cold segment is all or nothing. Whatever the system calls do, the build
    does not panic; if it fails at any of them, even after a power loss the directory cannot
    be opened, on any later attempt; if it returns a segment, that segment is well formed
    and holds the records' encoded vectors in order, and after a power loss the directory
    opens as exactly this segment or not at all (files missing), and surely opens once the
    names were synced. *)
Theorem build_all_or_nothing cold records kind d io : good_vectors records -> manifest d = None ->
  let '(r, d', _) := from_records cold records kind d io in
  match r with
  | None => False
  | Some (Err _) => forall d'' io', d'' = d' \/ power_loss d' d'' ->
      (open_segment (tier_built cold) d'' io').1.1 = Some (Err Io)
  | Some (Ok f) => holds_records f (tier_built cold) records /\ (len (f_buffer f) < U64 ->
      forall d'', d'' = d' \/ power_loss d' d'' ->
        (forall io', opened f (open_segment (tier_built cold) d'' io').1.1) /\
        (names_synced d' = true -> parent_synced d' = true -> (open_segment (tier_built cold) d'' []).1.1 = Some (Ok f)))
  end.
Proof.
  intros Hgood Hm. pose proof (segment_build_ok cold records kind Hgood d io Hm) as H.
  destruct (from_records cold records kind d io) as [[[[f|er]|] d'] io']; [| |done].
  - destruct H as [Hf (json & Ej & Hc)]. split; [exact Hf|]. intros Hsize d'' Hd''. split.
    + intros io''. apply (open_remains _ records f Hf Hsize). exists json. split; [exact Ej|].
      destruct Hd'' as [->|Hl]; [destruct Hc; by split; left|]. destruct (loss_complete _ _ _ _ Hc Hl) as (H1 & H2 & _). by split.
    + intros Hn Hp. apply (open_complete _ records f Hf Hsize d'' json Ej).
      destruct Hd'' as [->|Hl]; [exact Hc|]. by apply (loss_complete _ _ _ _ Hc Hl).
  - intros d'' io'' Hd''. apply open_unopened. destruct Hd'' as [->|Hl]; [exact H|]. by apply (loss_unopened d').
Qed.
End all_or_nothing.

Module SegmentBuildWitness.

(** A text is the value it encodes; cut short it is none. *)
Definition ex_json : Json Manifest := {|
  text := option Manifest; cut := fun _ _ => None; to_json := fun m => Some (Some m); from_json := fun t => t |}.
Lemma ex_json_ok : @JsonOk Manifest manifest_fits ex_json.
Proof. split; [by eexists|]. by intros m t _ [= <-]. Qed.
Definition ex_records : list (N * list f32) := [(7, [f32_one; f32_one]); (9, [f32_one; f32_neg f32_one])].
Lemma ex_good : good_vectors ex_records.
Proof. repeat constructor; done. Qed.
(** The disk is full after one byte of data. *)
Definition ex_full : list Call := [Done; Done; Done; Failed 1].
Example ex_build_full : (@from_records no_rand ex_json false ex_records Engine.Sign empty_dir ex_full).1
  = (Some (Err Io), {| data := Some (fresh [3]); tmp := None; manifest := None; names_synced := false; parent_synced := false |}).
Proof. vm_compute. reflexivity. Qed.
Lemma build_all_or_nothing_witness :
  let '(r, d, _) := @from_records no_rand ex_json true ex_records Engine.Sign empty_dir [] in
  exists f, r = Some (Ok f) /\ f_buffer f = [3; 1] /\
    forall d', power_loss d d' -> opened f (@open_segment no_rand ex_json Cold d' []).1.1.
Proof.
  pose proof (@build_all_or_nothing no_rand ex_json ex_json_ok true ex_records Engine.Sign empty_dir [] ex_good eq_refl) as H.
  destruct (@from_records no_rand ex_json true ex_records Engine.Sign empty_dir []) as [[r d] io] eqn:E.
  vm_compute in E. injection E as <- <- _. destruct H as [_ H]. eexists. split; [reflexivity|]. split; [reflexivity|].
  intros d' Hl. apply (H ltac:(reflexivity) d'). by right.
Defined.
End SegmentBuildWitness.
