(* ===== verification/UsearchFiles.v ===== *)
(** * Sealed-hot segment directories, [segments/usearch_index.rs], [sealed_hot.rs] and [vector_index.rs]

    Building, saving, checking and opening an HNSW index. The native library, the
    incremental checksum and the parallel iterator are parameters: an index is made by
    [new], [reserve] and [add], and one that was saved opens as an index of the same size
    that answers alike. The manifest records the length and the checksum of the index
    file, and both are checked before the file reaches the library. *)

From S2P Require Import Prelude Core Floats Metrics Record Segments SegmentSearch SegmentFiles Config.
From Stdlib Require Import Lia.

(** ** Libraries *)

Record IndexOptions := { io_dimensions : N; io_connectivity : N; io_expansion_add : N; io_expansion_search : N }.
Class Usearch := {
  Index : Type;
  index_new : IndexOptions -> option Index;
  reserve_capacity_and_threads : Index -> N -> N -> option Index;
  index_add : Index -> N -> list f32 -> option Index;
  index_bytes : Index -> list byte;  (* what [save] writes *)
  index_view : Index -> list byte -> option Index;
  index_load : Index -> list byte -> option Index;
  index_size : Index -> N;
  index_search : Index -> list f32 -> N -> option (list (N * f32));
}.
(** The indexes a program can make with some options. *)
Inductive made `{Usearch} (opts : IndexOptions) : Index -> Prop :=
  | made_new i : index_new opts = Some i -> made opts i
  | made_reserve i n t j : made opts i -> reserve_capacity_and_threads i n t = Some j -> made opts j
  | made_add i o v j : made opts i -> index_add i o v = Some j -> made opts j.
Class UsearchOk `{Usearch} : Prop := {
  new_size opts i : index_new opts = Some i -> index_size i = 0;
  reserve_size i n t j : reserve_capacity_and_threads i n t = Some j -> index_size j = index_size i;
  add_size i o v j : index_add i o v = Some j -> index_size j = index_size i + 1;
  load_saved opts e i : made opts i -> index_new opts = Some e ->
    exists j, index_load e (index_bytes i) = Some j /\ index_size j = index_size i /\
      forall q k, index_search j q k = index_search i q k;
  view_saved opts e i j : made opts i -> index_new opts = Some e -> index_view e (index_bytes i) = Some j ->
    index_size j = index_size i /\ forall q k, index_search j q k = index_search i q k;
}.
(** [crc32fast::Hasher]. *)
Class Crc32Hasher `{Crc32} := {
  hasher : Type;
  hasher_new : hasher;
  hasher_update : hasher -> list byte -> hasher;
  hasher_finalize : hasher -> N;
  hasher_hash pieces : hasher_finalize (foldl hasher_update hasher_new pieces) = crc32 (concat pieces);
}.

(** Errors of the library. *)
Definition io_native {D T A} (msg : string) (o : option A) : IoM D T A := fun d io =>
  (Some (match o with Some x => Ok x | None => Err (IndexError msg) end), d, io).
Definition io_map_err {D T A} (er : StorageError) (m : IoM D T A) : IoM D T A := fun d io =>
  match m d io with (Some (Err _), d, io) => (Some (Err er), d, io) | r => r end.

(** ** The manifest and the file *)

(** The length and the checksum of the index file are absent in manifests of older builds. *)
Record VectorIndexManifest := {
  v_version : N; v_index_type : string; v_dimension : N; v_offsets : list N; v_index_len : option N; v_index_crc : option N }.

Section usearch.
Context {HC : Crc32} {HH : Crc32Hasher} {U : Usearch} {J : Json VectorIndexManifest}.
Abbreviation IO := (IoM (list byte) (text VectorIndexManifest)).

Definition BUFFER : N := 2 ^ 20.
(** [file_len_and_crc]: open, then read until a read brings nothing; the [i]-th call brings
    at least a byte, at most the buffer, [reads i] if it can. Each can fail. *)
Fixpoint read_loop (fuel : nat) (reads : nat -> N) (i : nat) (rest : list byte) (h : hasher) (l : N) : IO (N * N) :=
  let* _ := touch in
  match rest, fuel with
  | [], _ => io_ret (l, hasher_finalize h)
  | _, O => fun d io => (None, d, io)
  | _, S fuel =>
      let n := N.min (N.max 1 (reads i)) (N.min BUFFER (len rest)) in
      read_loop fuel reads (S i) (drop (N.to_nat n) rest) (hasher_update h (take (N.to_nat n) rest)) (l + n)
  end.
Definition file_len_and_crc (reads : nat -> N) : IO (N * N) :=
  let* bytes := read_file data in
  read_loop (length bytes) reads 0 bytes hasher_new 0.

(** ** Building *)

Definition PARALLEL_SEED_POINTS : nat := 256.
(** [available_parallelism], when it is known. *)
Context (cpus : option N) (reads : nat -> N).
Definition cpu_count : N := default 1 cpus.
Definition build_threads (c : StoreConfig) : N :=
  clamp (cpu_count / N.max (max_concurrent_builds (optimizer_budget c)) 1) 1 16.
Definition search_threads : N := cpu_count.
Definition index_options (dim : N) (c : StoreConfig) : IndexOptions := {|
  io_dimensions := dim; io_connectivity := max_edges c; io_expansion_add := ef_construction c;
  io_expansion_search := search_list_size c |}.
Fixpoint add_all (i : Index) (vectors : list (N * list f32)) : option Index :=
  match vectors with
  | [] => Some i
  | (o, v) :: vectors => i ← index_add i o v; add_all i vectors
  end.
(** What a build or an open returns: the segment, the library's index, the number of
    search contexts. *)
Record UsearchFile := { uf_segment : UsearchIndex; uf_index : Index; uf_slots : N }.
Definition usearch_segment (dim : N) (offsets : list N) (list_size : N) (i : Index) : UsearchFile := {|
  uf_segment := {| u_dim := dim; u_offsets := offsets; u_search_list_size := list_size; u_native := index_search i |};
  uf_index := i; uf_slots := N.max search_threads 1 |}.

(** The index in memory: seeded in order, the rest added in the order [sched] of the
    worker threads. *)
Definition build_index (c : StoreConfig) (sched : list (N * list f32) -> list (N * list f32)) (vectors : list (N * list f32)) : IO Index :=
  let n := N.max (len vectors) 1 in
  let threads := build_threads c in
  let* i := io_native "usearch index creation failed" (index_new (index_options (dimension c) c)) in
  let* i := io_native "usearch reserve failed" (reserve_capacity_and_threads i n threads) in
  let* i := io_native "usearch add failed" (add_all i (take PARALLEL_SEED_POINTS vectors)) in
  let* i := match drop PARALLEL_SEED_POINTS vectors with
            | [] => io_ret i
            | rest =>
                let* _ := io_map_err (IndexError "usearch build pool failed") touch in
                io_native "usearch add failed" (add_all i (sched rest))
            end in
  io_native "usearch reserve failed" (reserve_capacity_and_threads i n (N.max search_threads threads)).
(** Save, sync through a second handle, read back. *)
Definition save_index (i : Index) : IO (N * N) :=
  let bytes := index_bytes i in
  let* _ := io_map_err (IndexError "usearch save failed")
              (let* _ := syscall (fun d => unsynced (set_data (fresh []) d)) keep in
               syscall (set_data (fresh bytes)) (fun n => set_data (fresh (take n bytes)))) in
  let* _ := touch in
  let* _ := syscall (set_data (durable bytes)) keep in
  file_len_and_crc reads.
Definition usearch_build (c : StoreConfig) (sched : list (N * list f32) -> list (N * list f32)) (vectors : list (N * list f32)) : IO UsearchFile :=
  match vectors with
  | [] => io_err (InvalidArgument "cannot build an empty usearch index")
  | _ =>
      let* _ := touch in
      let* i := build_index c sched vectors in
      let* lc := save_index i in
      let offsets := vectors.*1 in
      let* json := io_json {| v_version := 1; v_index_type := "usearch"; v_dimension := dimension c; v_offsets := offsets;
                              v_index_len := Some lc.1; v_index_crc := Some lc.2 |} in
      let* _ := write_manifest_atomic json in
      io_ret (usearch_segment (dimension c) offsets (search_list_size c) i)
  end.

(** ** Opening *)

Definition read_manifest (msg : string) : IO VectorIndexManifest :=
  let* json := read_file manifest in
  match from_json json with Some m => io_ret m | None => io_err (InvalidArgument msg) end.
(** The file against the manifest; a manifest of an older build lists neither. *)
Definition check_index_file (m : VectorIndexManifest) : IO unit :=
  match v_index_len m, v_index_crc m with
  | Some expected_len, Some expected_crc =>
      let* lc := file_len_and_crc reads in
      if negb (lc.1 =? expected_len) || negb (lc.2 =? expected_crc)
      then io_err (Corrupted "index file does not match its manifest") else io_ret tt
  | _, _ =>
      let* bytes := read_file data in
      if len bytes =? 0 then io_err (Corrupted "index file is empty") else io_ret tt
  end.
(** [view], and [load] when it fails. *)
Definition view_index (e : Index) : IO (option Index) := fun d io =>
  match io with
  | Failed _ :: io => (Some (Ok None), d, io)
  | _ => (Some (Ok (match data d with Some f => index_view e (content f) | None => None end)), d, tail io)
  end.
Definition view_or_load (e : Index) : IO Index :=
  let* viewed := view_index e in
  match viewed with
  | Some j => io_ret j
  | None =>
      let* bytes := io_map_err (IndexError "usearch load failed") (read_file data) in
      io_native "usearch load failed" (index_load e bytes)
  end.
Definition usearch_open (c : StoreConfig) : IO UsearchFile :=
  let* m := read_manifest "bad usearch manifest" in
  if negb (v_dimension m =? dimension c) then io_err DimensionMismatch
  else if negb (bool_decide (v_index_type m = "usearch"%string)) then io_err (InvalidArgument ("expected usearch index, got " +:+ v_index_type m))
  else
    let* _ := check_index_file m in
    let* e := io_native "usearch index creation failed" (index_new (index_options (dimension c) c)) in
    let* i := view_or_load e in
    if negb (index_size i =? len (v_offsets m))
    then io_err (Corrupted "index file holds another number of vectors than its manifest lists")
    else io_ret (usearch_segment (dimension c) (v_offsets m) (len (v_offsets m)) i).

(** ** Sealed-hot segments *)

Definition sealed_from_vectors (c : StoreConfig) (sched : list (N * list f32) -> list (N * list f32)) (vectors : list (N * list f32)) : IO UsearchFile :=
  match vectors with
  | [] => io_err (InvalidArgument "cannot seal an empty hot segment")
  | _ => usearch_build c sched vectors
  end.
(** A manifest of an older GPU build is relabelled first. *)
Definition relabel (m : VectorIndexManifest) : VectorIndexManifest := {|
  v_version := v_version m; v_index_type := "usearch"; v_dimension := v_dimension m; v_offsets := v_offsets m;
  v_index_len := v_index_len m; v_index_crc := v_index_crc m |}.
Definition sealed_open (c : StoreConfig) : IO UsearchFile :=
  let* m := read_manifest "bad sealed hot manifest" in
  if negb (v_dimension m =? dimension c) then io_err DimensionMismatch
  else if bool_decide (v_index_type m = "usearch"%string) then usearch_open c
  else if bool_decide (v_index_type m = "gpu_hnsw"%string) then
    let* json := io_map_err (InvalidArgument "manifest serialization failed") (io_json (relabel m)) in
    let* _ := write_manifest_atomic json in
    usearch_open c
  else io_err (InvalidArgument ("unsupported sealed hot index type: " +:+ v_index_type m)).
End usearch.
