(* ===== verification/UsearchTheorems.v ===== *)
(** * Theorems about sealed-hot segment directories

    Opening checks the index file against its manifest ([sealed_open_checked]); a build is
    all or nothing, and what it leaves opens as an index with the same offsets that
    answers alike ([sealed_all_or_nothing]); a segment that was opened scans every filter
    exactly ([reopened_filters_exactly]). *)

From S2P Require Import Prelude Core Floats Metrics Record Segments SegmentSearch SegmentFiles SegmentBuild Config UsearchFiles.
From Stdlib Require Import Lia.

(** ** Calls that do not fail *)

(** Reading a directory when no call fails. *)
Section runs.
Context {D T : Type} (d : Dir D T).
Definition runs {A} (m : IoM D T A) (R : A -> Prop) : Prop := exists x, R x /\ m d [] = (Some (Ok x), d, []).
Lemma runs_ret {A} x (R : A -> Prop) : R x -> runs (io_ret x) R.
Proof. intros Hx. by exists x. Qed.
Lemma runs_bind {A B} (m : IoM D T A) (k : A -> IoM D T B) R S :
  runs m R -> (forall x, R x -> runs (k x) S) -> runs (io_bind m k) S.
Proof. intros (x & Hx & H0) Hk. destruct (Hk x Hx) as (y & Hy & H1). exists y. unfold io_bind. by rewrite H0. Qed.
Lemma runs_native {A} msg o (x : A) (R : A -> Prop) : o = Some x -> R x -> runs (io_native msg o) R.
Proof. intros -> Hx. by exists x. Qed.
Lemma runs_map_err {A} er (m : IoM D T A) R : runs m R -> runs (io_map_err er m) R.
Proof. intros (x & Hx & H0). exists x. unfold io_map_err. by rewrite H0. Qed.
Lemma runs_touch {A} (m : IoM D T A) R : runs m R -> runs (let* _ := touch in m) R.
Proof. intros (x & Hx & H0). by exists x. Qed.
Lemma runs_read {A} (file : Dir D T -> option (File A)) f : file d = Some f -> runs (read_file file) (eq (content f)).
Proof. intros Hf. exists (content f). split; [done|]. unfold read_file, io_bind. simpl. by rewrite Hf. Qed.
End runs.

(** Errors of the library. *)
Lemma triple_native {D T A} (P : Dir D T -> Prop) msg (o : option A) Q E :
  (forall x d, o = Some x -> P d -> Q x d) -> (forall d, P d -> E d) -> triple P (io_native msg o) Q E.
Proof. intros HQ HE d io HP. unfold io_native. destruct o as [x|]; [by apply HQ|by apply HE]. Qed.
Lemma triple_map_err {D T A} (P : Dir D T -> Prop) er (m : IoM D T A) Q E : triple P m Q E -> triple P (io_map_err er m) Q E.
Proof. intros H d io HP. specialize (H d io HP). unfold io_map_err. by destruct (m d io) as [[[[x|e]|] d'] io']. Qed.

Section usearch.
Context {HC : Crc32} {HH : Crc32Hasher} {U : Usearch} {J : Json VectorIndexManifest}.
Context {UO : UsearchOk} {JO : JsonOk VectorIndexManifest (fun _ => True)}.
Abbreviation D := (Dir (list byte) (text VectorIndexManifest)).
Abbreviation IO := (IoM (list byte) (text VectorIndexManifest)).
Context (cpus : option N) (reads : nat -> N).

(** ** The length and the checksum *)

(** A file cut into reads has its length and its checksum. *)
Section loops.
Context (P : IO (N * N) -> (N * N) -> Prop).
Context (Pret : forall x, P (io_ret x) x) (Ptouch : forall m x, P m x -> P (let* _ := touch in m) x).
Lemma read_loop_sum fuel : forall i rest pieces l, (length rest <= fuel)%nat ->
  P (read_loop fuel reads i rest (foldl hasher_update hasher_new pieces) l) (l + len rest, crc32 (concat pieces ++ rest)).
Proof.
  induction fuel as [|fuel IH]; intros i rest pieces l Hf; cbn [read_loop]; apply Ptouch; (destruct rest as [|b rest]; [|]);
    try (rewrite hasher_hash, app_nil_r; unfold len; simpl length; rewrite N.add_0_r; by apply Pret); [simpl in Hf; lia|].
  set (n := N.min (N.max 1 (reads i)) (N.min BUFFER (len (b :: rest)))).
  assert (Hn : 1 <= n <= len (b :: rest)) by (unfold n, BUFFER, len; simpl length; lia).
  change (hasher_update (foldl hasher_update hasher_new pieces) (take (N.to_nat n) (b :: rest)))
    with (foldl hasher_update (foldl hasher_update hasher_new pieces) [take (N.to_nat n) (b :: rest)]).
  rewrite <- foldl_app.
  replace (l + len (b :: rest)) with (l + n + len (drop (N.to_nat n) (b :: rest))) by (unfold len in *; rewrite length_drop; lia).
  replace (concat pieces ++ b :: rest) with (concat (pieces ++ [take (N.to_nat n) (b :: rest)]) ++ drop (N.to_nat n) (b :: rest)).
  - apply IH. rewrite length_drop. simpl length in *. unfold len in Hn. simpl length in Hn. lia.
  - rewrite concat_app. cbn [concat]. rewrite app_nil_r, <- app_assoc. by rewrite (take_drop (N.to_nat n)).
Qed.
End loops.
Definition sum_of (f : File (list byte)) : N * N := (len (content f), crc32 (content f)).
Lemma sum_runs (d : D) f : data d = Some f -> runs d (file_len_and_crc reads) (eq (sum_of f)).
Proof.
  intros Hf. eapply runs_bind; [by apply runs_read|]. intros ? <-.
  apply (read_loop_sum (fun m x => runs d m (eq x))) with (pieces := []); [by intros; apply runs_ret| |done].
  intros m x. apply runs_touch.
Qed.
Lemma sum_triple (P E : D -> Prop) : (forall d, P d -> E d) ->
  triple P (file_len_and_crc reads) (fun lc d => P d /\ exists f, data d = Some f /\ lc = sum_of f) E.
Proof.
  intros HE. eapply triple_bind; [apply (triple_read _ _ (fun b d => P d /\ exists f, data d = Some f /\ b = content f)); [eauto|done]|].
  intros bytes. set (Pre := fun d : D => P d /\ exists f, data d = Some f /\ bytes = content f).
  apply (triple_weaken Pre Pre _ _ (fun lc d => Pre d /\ lc = (0 + len bytes, crc32 (concat [] ++ bytes)))); [|done|].
  - apply (read_loop_sum (fun m x => triple Pre m (fun lc d => Pre d /\ lc = x) E)) with (pieces := []); [by intros x; apply triple_ret| |done].
    intros m x Hm. eapply triple_bind; [apply triple_touch; intros d [? _]; by apply HE|]. by intros [].
  - intros lc d [[HP (f & Hf & ->)] ->]. eauto.
Qed.

(** ** Building *)

Context (c : StoreConfig).
Abbreviation opts := (index_options (dimension c) c).
Lemma add_all_made vectors : forall i j, made opts i -> add_all i vectors = Some j ->
  made opts j /\ index_size j = index_size i + len vectors.
Proof.
  induction vectors as [|[o v] vectors IH]; intros i j Hi Ej; cbn [add_all] in Ej.
  - injection Ej as <-. unfold len. simpl. split; [done|lia].
  - destruct (index_add i o v) as [i1|] eqn:E1; [|done]. destruct (IH i1 j) as [Hj Hs]; [by eapply made_add|done|].
    split; [done|]. rewrite Hs, (add_size _ _ _ _ E1). unfold len. simpl length. lia.
Qed.
(** An index of [n] vectors. *)
Definition grown (n : N) (i : Index) (d : D) : Prop := made opts i /\ index_size i = n /\ is_Some (index_new opts) /\ unopened d.
Lemma grown_unopened n i d : grown n i d -> unopened d.
Proof. by intros (_ & _ & _ & H). Qed.
Lemma add_all_triple n i vectors :
  triple (grown n i) (io_native "usearch add failed" (add_all i vectors)) (grown (n + len vectors)) unopened.
Proof.
  apply triple_native; [|apply grown_unopened]. intros j d Ej (Hi & <- & Hn & Hd).
  destruct (add_all_made _ _ _ Hi Ej) as [Hj Hs]. by split_and!.
Qed.
Lemma reserve_triple n i m t :
  triple (grown n i) (io_native "usearch reserve failed" (reserve_capacity_and_threads i m t)) (grown n) unopened.
Proof.
  apply triple_native; [|apply grown_unopened]. intros j d Ej (Hi & <- & Hn & Hd).
  split_and!; [by eapply made_reserve|by eapply reserve_size|done..].
Qed.
Context (sched : list (N * list f32) -> list (N * list f32)) (Hsched : forall l, sched l ≡ₚ l).
Lemma build_index_ok vectors : triple unopened (build_index cpus c sched vectors) (grown (len vectors)) unopened.
Proof.
  unfold build_index. eapply triple_bind; [apply (triple_native _ _ _ (grown 0)); [|done]|].
  { intros i d Ei Hd. split_and!; [by apply made_new|by eapply new_size|by exists i|done]. }
  intros i. eapply triple_bind; [apply reserve_triple|]. intros i1. eapply triple_bind; [apply add_all_triple|]. intros i2.
  eapply triple_bind; [|intros i3; apply reserve_triple].
  assert (Hlen : len vectors = 0 + len (take PARALLEL_SEED_POINTS vectors) + len (drop PARALLEL_SEED_POINTS vectors)).
  { unfold len. rewrite length_take, length_drop. lia. }
  destruct (drop PARALLEL_SEED_POINTS vectors) as [|v rest] eqn:Er.
  - apply triple_ret. intros d Hd. by rewrite Hlen, N.add_0_r.
  - eapply triple_bind; [apply triple_map_err, triple_touch, grown_unopened|]. intros []. cbn beta.
    rewrite Hlen. replace (len (v :: rest)) with (len (sched (v :: rest))) by (unfold len; by rewrite Hsched). apply add_all_triple.
Qed.
Lemma save_index_ok n i : triple (grown n i) (save_index reads i)
  (fun lc d => grown n i d /\ holds_data (index_bytes i) d /\ lc = (len (index_bytes i), crc32 (index_bytes i))) unopened.
Proof.
  unfold save_index. pose proof (grown_unopened n i) as Hg.
  eapply triple_bind; [apply triple_map_err; eapply triple_bind;
    [apply (triple_syscall _ _ _ (fun _ => grown n i)); [done|intros d k; apply Hg]
    |intros []; apply (triple_syscall _ _ _ (fun _ => grown n i)); [done|intros d k; apply Hg]]|]. intros [].
  eapply triple_bind; [by apply triple_touch|]. intros [].
  eapply triple_bind; [apply (triple_syscall _ _ _ (fun _ d => grown n i d /\ holds_data (index_bytes i) d)); [|intros d k; apply Hg]|].
  { intros d Hd. split; [exact Hd|]. by split; [|apply Hg in Hd]. }
  intros []. eapply triple_weaken; [apply (sum_triple (fun d => grown n i d /\ holds_data (index_bytes i) d)); by intros d [? _]; apply Hg|done|].
  intros lc d [[Hd1 Hd2] (f & Hf & ->)]. split; [done|]. split; [done|]. destruct Hd2 as [Hd2 _]. rewrite Hd2 in Hf. by injection Hf as <-.
Qed.
(** The manifest of a segment. *)
Definition manifest_of_index (offsets : list N) (i : Index) : VectorIndexManifest := {|
  v_version := 1; v_index_type := "usearch"; v_dimension := dimension c; v_offsets := offsets;
  v_index_len := Some (len (index_bytes i)); v_index_crc := Some (crc32 (index_bytes i)) |}.
(** The segment of the vectors, and its files. *)
Definition seals (vectors : list (N * list f32)) (u : UsearchFile) (d : D) : Prop :=
  u = usearch_segment cpus (dimension c) vectors.*1 (search_list_size c) (uf_index u) /\
  made opts (uf_index u) /\ index_size (uf_index u) = len vectors /\ is_Some (index_new opts) /\
  exists json, to_json (manifest_of_index vectors.*1 (uf_index u)) = Some json /\ complete (index_bytes (uf_index u)) json d.
Lemma usearch_build_ok vectors : triple unopened (usearch_build cpus reads c sched vectors) (seals vectors) unopened.
Proof.
  destruct vectors as [|v vs] eqn:Ev; [by apply triple_err|]. rewrite <- Ev. unfold usearch_build. rewrite Ev, <- Ev. clear Ev v vs.
  eapply triple_bind; [by apply triple_touch|]. intros [].
  eapply triple_bind; [apply build_index_ok|]. intros i.
  eapply triple_bind; [apply save_index_ok|]. intros lc d io (Hg & Hd & ->). revert d io Hg Hd. cbn [fst snd].
  destruct (json_total (manifest_of_index vectors.*1 i)) as [json Ej]. intros d io Hg Hd. unfold io_bind at 1, io_json at 1.
  fold (manifest_of_index vectors.*1 i). rewrite Ej. revert d io Hd Hg. intros d io Hd (Hi & Hn & Hs & _). revert d io Hd.
  eapply triple_bind; [apply write_manifest_ok|]. intros []. apply triple_ret. intros d Hd.
  split_and!; [done..|]. by exists json.
Qed.

(** ** Opening *)

(** The file against the manifest. *)
Definition file_matches (m : VectorIndexManifest) (f : File (list byte)) : Prop :=
  match v_index_len m, v_index_crc m with
  | Some l, Some crc => len (content f) = l /\ crc32 (content f) = crc
  | _, _ => content f <> []
  end.
(** What is known of a segment that was opened from an index file and its manifest. *)
Definition opened_from (m : VectorIndexManifest) (f : File (list byte)) (u : UsearchFile) : Prop :=
  v_dimension m = dimension c /\ file_matches m f /\ index_size (uf_index u) = len (v_offsets m) /\
  (exists e, index_new opts = Some e /\
     (index_view e (content f) = Some (uf_index u) \/ index_load e (content f) = Some (uf_index u))) /\
  u = usearch_segment cpus (dimension c) (v_offsets m) (len (v_offsets m)) (uf_index u).
Section opening.
Context (P E : D -> Prop) (HE : forall d, P d -> E d).
(** The files read. *)
Definition the_manifest (m : VectorIndexManifest) (d : D) : Prop := exists mf, manifest d = Some mf /\ from_json (content mf) = Some m.
Lemma read_manifest_triple msg : triple P (read_manifest msg) (fun m d => P d /\ the_manifest m d) E.
Proof.
  eapply triple_bind; [apply (triple_read _ _ (fun t d => P d /\ exists mf, manifest d = Some mf /\ t = content mf)); [eauto|done]|].
  intros t. destruct (from_json t) as [m|] eqn:Et; [apply triple_ret|apply triple_err].
  - intros d [Hd (mf & Hm & ->)]. split; [done|]. by exists mf.
  - intros d [Hd _]. by apply HE.
Qed.
Lemma check_index_triple m : triple P (check_index_file reads m) (fun _ d => P d /\ exists f, data d = Some f /\ file_matches m f) E.
Proof.
  assert (Hbytes : triple P (let* bytes := read_file data in if len bytes =? 0 then io_err (Corrupted "index file is empty") else io_ret tt)
    (fun _ d => P d /\ exists f, data d = Some f /\ content f <> []) E).
  { eapply triple_bind; [apply (triple_read _ _ (fun b d => P d /\ exists f, data d = Some f /\ b = content f)); [eauto|done]|].
    intros b. destruct (N.eqb_spec (len b) 0) as [H0|H0]; [apply triple_err; intros d [Hd _]; by apply HE|apply triple_ret].
    intros d [Hd (f & Hf & ->)]. split; [done|]. exists f. split; [done|]. intros E0. apply H0. by rewrite E0. }
  unfold check_index_file, file_matches. destruct (v_index_len m) as [l|], (v_index_crc m) as [crc|]; [clear Hbytes|exact Hbytes..].
  eapply triple_bind; [by apply (sum_triple P E)|]. intros [l' crc']. cbn [fst snd].
  destruct (N.eqb_spec l' l) as [->|Hl]; [destruct (N.eqb_spec crc' crc) as [->|Hc]|]; cbn [negb orb];
    [apply triple_ret|apply triple_err; intros d [Hd _]; by apply HE..].
  intros d [Hd (f & Hf & Hs)]. split; [done|]. exists f. split; [done|]. by injection Hs.
Qed.
Lemma view_or_load_triple e : triple P (view_or_load e)
  (fun j d => P d /\ exists f, data d = Some f /\ (index_view e (content f) = Some j \/ index_load e (content f) = Some j)) E.
Proof.
  set (R j (d : D) := exists f, data d = Some f /\ (index_view e (content f) = Some j \/ index_load e (content f) = Some j)).
  apply (triple_bind _ _ (fun o d => P d /\ match o with Some j => R j d | None => True end)); [|intros [j|]; [by apply triple_ret|]].
  - intros d [|[|n] io] Hd; unfold view_index, R; (split; [done|]);
      destruct (data d) as [f|] eqn:Ef; try done; destruct (index_view e (content f)) eqn:Ev; eauto.
  - eapply triple_bind; [apply triple_map_err, (triple_read _ _ (fun b d => P d /\ exists f, data d = Some f /\ b = content f)); [|by intros d [? _]; apply HE]|].
    { intros d f [Hd _] Hf. split; [done|]. by exists f. }
    intros b. apply triple_native; [|intros d [? _]; by apply HE]. intros j d Ej [Hd (f & Hf & ->)]. unfold R. eauto.
Qed.
End opening.
Lemma usearch_open_triple (P E : D -> Prop) (HE : forall d, P d -> E d) : triple P (usearch_open cpus reads c)
  (fun u d => P d /\ exists m f, the_manifest m d /\ v_index_type m = "usearch"%string /\ data d = Some f /\ opened_from m f u) E.
Proof.
  unfold usearch_open. eapply triple_bind; [by apply (read_manifest_triple P E)|]. intros m.
  destruct (N.eqb_spec (v_dimension m) (dimension c)) as [Hdim|]; cbn [negb]; [|apply triple_err; intros d [? _]; by apply HE].
  destruct (bool_decide_reflect (v_index_type m = "usearch"%string)) as [Hty|]; cbn [negb]; [|apply triple_err; intros d [? _]; by apply HE].
  eapply triple_bind; [apply check_index_triple; by intros d [? _]; apply HE|]. intros [].
  eapply triple_bind; [apply (triple_native _ _ _ (fun e d => index_new opts = Some e /\ (P d /\ the_manifest m d) /\ exists f, data d = Some f /\ file_matches m f));
    [done|by intros d [[? _] _]; apply HE]|].
  intros e. eapply triple_bind; [apply view_or_load_triple; by intros d (_ & [? _] & _); apply HE|]. intros i.
  destruct (N.eqb_spec (index_size i) (len (v_offsets m))) as [Hs|]; cbn [negb];
    [apply triple_ret|apply triple_err; intros d ((_ & [? _] & _) & _); by apply HE].
  intros d ((He & [Hd Hm] & (f & Hf & Hfm)) & (f' & Hf' & Hi)). rewrite Hf in Hf'. injection Hf' as <-.
  split; [done|]. exists m, f. split_and!; [done..|]. split_and!; [done..| |done]. by exists e.
Qed.

(** Replacing a manifest touches nothing else. *)
Definition kept (d0 d : D) : Prop := data d = data d0 /\ manifest d = manifest d0.
Definition replaced (d0 : D) (t : text VectorIndexManifest) (d : D) : Prop := data d = data d0 /\ manifest d = Some (durable t).
Lemma replace_manifest d0 t :
  triple (kept d0) (write_manifest_atomic t) (fun _ => replaced d0 t) (kept d0).
Proof.
  unfold write_manifest_atomic. set (Ready (d : D) := kept d0 d /\ tmp d = Some (durable t)).
  eapply triple_bind; [by apply (triple_syscall _ _ _ (fun _ => kept d0))|]. intros [].
  eapply triple_bind; [by apply (triple_syscall _ _ _ (fun _ => kept d0))|]. intros [].
  eapply triple_bind; [by apply (triple_syscall _ _ _ (fun _ => Ready))|]. intros [].
  eapply triple_bind; [apply (triple_syscall _ _ _ (fun _ => replaced d0 t)); [by intros d [[H1 H2] H3]|by intros d n [H _]]|]. intros [].
  eapply triple_bind; [by apply (triple_sync _ _ (fun _ => replaced d0 t))|]. intros [].
  by apply triple_sync.
Qed.
(** A directory that was opened: as it was, or with the manifest of an older build relabelled. *)
Definition relabelled (d0 d : D) : Prop := exists m t,
  the_manifest m d0 /\ v_index_type m = "gpu_hnsw"%string /\ to_json (relabel m) = Some t /\ replaced d0 t d.
Definition untouched (d0 d : D) : Prop := kept d0 d \/ relabelled d0 d.
Definition sealed_type (m : VectorIndexManifest) : Prop := v_index_type m = "usearch"%string \/ v_index_type m = "gpu_hnsw"%string.
Lemma manifest_kept m d0 d : kept d0 d -> the_manifest m d -> the_manifest m d0.
Proof. intros [_ Hk] (mf & Hm & Hj). exists mf. by rewrite <- Hk. Qed.
Lemma sealed_open_triple d0 : triple (kept d0) (sealed_open cpus reads c)
  (fun u d => untouched d0 d /\ exists m f, the_manifest m d0 /\ sealed_type m /\ data d0 = Some f /\ opened_from m f u) (untouched d0).
Proof.
  unfold sealed_open. eapply triple_bind; [apply (read_manifest_triple (kept d0) (untouched d0)); by left|]. intros m.
  assert (Hk : forall d, kept d0 d /\ the_manifest m d -> untouched d0 d) by (intros d [? _]; by left).
  destruct (N.eqb_spec (v_dimension m) (dimension c)) as [Hdim|]; cbn [negb]; [|by apply triple_err].
  destruct (bool_decide_reflect (v_index_type m = "usearch"%string)) as [Hty|].
  { eapply triple_weaken; [apply (usearch_open_triple (kept d0) (untouched d0)); by left|by intros d [? _]|].
    intros u d [Hd (m' & f & Hm & Ht & Hf & Hu)]. split; [by left|]. exists m', f.
    split_and!; [by eapply manifest_kept|by left|by rewrite <- (proj1 Hd)|done]. }
  destruct (bool_decide_reflect (v_index_type m = "gpu_hnsw"%string)) as [Hty|]; [|by apply triple_err].
  destruct (json_total (relabel m)) as [t Et].
  intros d io [Hd Hm]. assert (Hm0 := manifest_kept _ _ _ Hd Hm). unfold io_bind at 1, io_map_err, io_json. rewrite Et. revert d io Hd Hm.
  assert (Hrel : forall d, replaced d0 t d -> untouched d0 d) by (intros d Hd; right; by exists m, t).
  assert (H : triple (kept d0) (let* _ := write_manifest_atomic t in usearch_open cpus reads c)
    (fun u d => untouched d0 d /\ exists m f, the_manifest m d0 /\ sealed_type m /\ data d0 = Some f /\ opened_from m f u) (untouched d0));
    [|intros d io Hd _; exact (H d io Hd)].
  eapply triple_bind; [intros d io Hd; pose proof (replace_manifest d0 t d io Hd) as H; destruct (write_manifest_atomic t d io) as [[[[x|e]|] d'] io']; [exact H|by left|exact H]|].
  intros []. eapply triple_weaken; [by apply (usearch_open_triple (replaced d0 t) (untouched d0))|done|].
  intros u d [Hd (m' & f & (mf & Hmf & Hj) & _ & Hf & Hu)]. split; [by apply Hrel|]. destruct Hd as [Hd Hm].
  rewrite Hm in Hmf. injection Hmf as <-. cbn [content] in Hj. rewrite (json_roundtrip (relabel m) t I Et) in Hj. injection Hj as <-.
  exists m, f. split_and!; [done|by right|by rewrite <- Hd|exact Hu].
Qed.

(** Opening a sealed-hot segment never panics and hands the library no file that its
    manifest does not describe. If it opens, whatever calls were cut short, the manifest
    parses, names the store's dimension and an index type that is known, and the index
    file has the length and the checksum the manifest lists (is not empty, for a manifest
    of an older build); the index came from that file and holds as many vectors as the
    manifest has offsets, which become the segment's. In every case the index file stays
    as it was, and the manifest too, unless it is that of an older GPU build, relabelled. *)
Theorem sealed_open_checked d io :
  let '(r, d', _) := sealed_open cpus reads c d io in
  untouched d d' /\
  match r with
  | None => False
  | Some (Err _) => True
  | Some (Ok u) => exists m f, the_manifest m d /\ sealed_type m /\ data d = Some f /\ opened_from m f u
  end.
Proof.
  pose proof (sealed_open_triple d d io (conj eq_refl eq_refl)) as H.
  by destruct (sealed_open cpus reads c d io) as [[[[u|e]|] d'] io'].
Qed.

(** ** Reopening what was built *)

(** The segment of an index, with the list size of an open. *)
Definition reopens (offsets : list N) (i : Index) (u : UsearchFile) : Prop :=
  u_dim (uf_segment u) = dimension c /\ u_offsets (uf_segment u) = offsets /\
  u_search_list_size (uf_segment u) = len offsets /\
  forall q k, u_native (uf_segment u) q k = index_search i q k.
Section reopening.
Context (offsets : list N) (i : Index) (Hi : made opts i) (Hsize : index_size i = len offsets).
Context (json : text VectorIndexManifest) (Hjson : to_json (manifest_of_index offsets i) = Some json).
Lemma opened_reopens u : opened_from (manifest_of_index offsets i) (durable (index_bytes i)) u -> reopens offsets i u.
Proof.
  intros (_ & _ & _ & (e & He & Hj) & ->). unfold reopens. cbn. split_and!; [done..|]. cbn [content] in Hj.
  destruct Hj as [Hj|Hj]; [by apply (view_saved _ _ _ _ Hi He Hj)|].
  destruct (load_saved _ _ _ Hi He) as (j & Ej & _ & Hq). rewrite Ej in Hj. injection Hj as ->. exact Hq.
Qed.
(** The files of the build, some perhaps lost: an opening gives the segment or fails. *)
Definition sealed_remains (d : D) : Prop :=
  (manifest d = Some (durable json) \/ manifest d = None) /\ (data d = Some (durable (index_bytes i)) \/ data d = None).
Lemma sealed_open_remains d io : sealed_remains d ->
  match (sealed_open cpus reads c d io).1.1 with Some (Ok u) => reopens offsets i u | Some (Err _) => True | None => False end.
Proof.
  intros [Hm Hd]. pose proof (sealed_open_triple d d io (conj eq_refl eq_refl)) as H.
  destruct (sealed_open cpus reads c d io) as [[[[u|e]|] d'] io']; [|done..].
  destruct H as (_ & m & f & (mf & Emf & Hj) & _ & Ef & Hu). cbn [fst].
  destruct Hm as [Hm|Hm]; rewrite Hm in Emf; [|done]. injection Emf as <-.
  destruct Hd as [Hd|Hd]; rewrite Hd in Ef; [|done]. injection Ef as <-.
  cbn [content] in Hj. rewrite (json_roundtrip _ _ I Hjson) in Hj. injection Hj as <-. by apply opened_reopens.
Qed.
Context (Hnew : is_Some (index_new opts)).
Lemma sealed_open_runs d : complete (index_bytes i) json d -> runs d (sealed_open cpus reads c) (fun _ => True).
Proof.
  intros [Hd Hm]. assert (Hman : forall msg, runs d (read_manifest msg) (eq (manifest_of_index offsets i))).
  { intros msg. eapply runs_bind; [by apply runs_read|]. intros t <-. cbn [content]. rewrite (json_roundtrip _ _ I Hjson). by apply runs_ret. }
  assert (Hopen : runs d (usearch_open cpus reads c) (fun _ => True)).
  { eapply runs_bind; [apply Hman|]. intros m <-. cbn. rewrite N.eqb_refl. cbn [negb].
    eapply runs_bind; [unfold check_index_file; cbn; eapply runs_bind; [by apply sum_runs|]; intros lc <-; cbn; rewrite !N.eqb_refl; by apply (runs_ret _ _ (fun _ => True))|].
    intros [] _. destruct Hnew as [e He]. eapply runs_bind; [by apply (runs_native _ _ _ e (eq e))|]. intros ? <-.
    eapply (runs_bind _ _ _ (fun j => index_size j = len offsets)).
    - unfold view_or_load. destruct (load_saved _ _ _ Hi He) as (j & Ej & Hs & _).
      eapply runs_bind; [exists (index_view e (index_bytes i)); split; [by apply (eq_refl (index_view e (index_bytes i)))|unfold view_index; by rewrite Hd]|].
      intros o Ho. cbn beta in Ho. destruct o as [j'|].
      + apply runs_ret. by rewrite (proj1 (view_saved _ _ _ _ Hi He (eq_sym Ho))) || rewrite (proj1 (view_saved _ _ _ _ Hi He Ho)).
      + eapply runs_bind; [apply runs_map_err; by apply runs_read|]. intros b <-. apply (runs_native _ _ _ j); [done|]. by rewrite Hs.
    - intros j Hj. rewrite Hj, N.eqb_refl. by apply runs_ret. }
  eapply runs_bind; [apply Hman|]. intros m <-. cbn. rewrite N.eqb_refl. exact Hopen.
Qed.
End reopening.
Lemma sealed_open_none d io : unopened d -> exists er, (sealed_open cpus reads c d io).1.1 = Some (Err er).
Proof.
  intros Hm. pose proof (sealed_open_triple d d io (conj eq_refl eq_refl)) as H.
  destruct (sealed_open cpus reads c d io) as [[[[u|e]|] d'] io']; [|by exists e|done].
  destruct H as (_ & m & f & (mf & Emf & _) & _). by rewrite Hm in Emf.
Qed.

(** Sealing a hot segment is all or nothing. Whatever the calls do and in whatever order
    the worker threads add the vectors, the build does not panic; if it fails, the
    directory cannot be opened, even after a power loss; if it returns, the segment has
    the vectors' offsets in order, and after a power loss the directory opens as a segment
    with the same dimension, offsets and native answers or fails to open, and surely opens
    once the names were synced. *)
Theorem sealed_all_or_nothing vectors d io : manifest d = None ->
  let '(r, d', _) := sealed_from_vectors cpus reads c sched vectors d io in
  match r with
  | None => False
  | Some (Err _) => forall d'' io', d'' = d' \/ power_loss d' d'' ->
      exists er, (sealed_open cpus reads c d'' io').1.1 = Some (Err er)
  | Some (Ok u) =>
      u = usearch_segment cpus (dimension c) vectors.*1 (search_list_size c) (uf_index u) /\
      forall d'', d'' = d' \/ power_loss d' d'' ->
        (forall io', match (sealed_open cpus reads c d'' io').1.1 with
                     | Some (Ok u') => reopens vectors.*1 (uf_index u) u'
                     | Some (Err _) => True
                     | None => False
                     end) /\
        (names_synced d' = true -> parent_synced d' = true ->
           exists u', (sealed_open cpus reads c d'' []).1.1 = Some (Ok u') /\ reopens vectors.*1 (uf_index u) u')
  end.
Proof.
  intros Hm. assert (H : triple unopened (sealed_from_vectors cpus reads c sched vectors) (seals vectors) unopened)
    by (destruct vectors as [|v vs]; [by apply triple_err|apply usearch_build_ok]).
  specialize (H d io Hm). destruct (sealed_from_vectors cpus reads c sched vectors d io) as [[[[u|er]|] d'] io']; [| |done].
  - destruct H as (Hu & Hi & Hs & Hnew & json & Ej & Hc). split; [exact Hu|]. intros d'' Hd''.
    assert (Hs' : index_size (uf_index u) = len vectors.*1) by (rewrite Hs; unfold len; by rewrite length_fmap).
    assert (Hr : sealed_remains (uf_index u) json d'').
    { destruct Hd'' as [->|Hl]; [destruct Hc; by split; left|]. destruct (loss_complete _ _ _ _ Hc Hl) as (H1 & H2 & _). by split. }
    pose proof (fun io' => sealed_open_remains _ _ Hi json Ej d'' io' Hr) as Hopen. split; [exact Hopen|]. intros Hn Hp.
    assert (Hc' : complete (index_bytes (uf_index u)) json d'').
    { destruct Hd'' as [->|Hl]; [exact Hc|]. by apply (loss_complete _ _ _ _ Hc Hl). }
    destruct (sealed_open_runs _ _ Hi Hs' json Ej Hnew d'' Hc') as (u' & _ & E'). specialize (Hopen []). rewrite E' in Hopen |- *.
    by exists u'.
  - intros d'' io'' Hd''. apply sealed_open_none. destruct Hd'' as [->|Hl]; [exact H|]. by apply (loss_unopened d').
Qed.

(** A sealed segment that was opened never asks its index about a filtered search: an
    open takes the number of offsets for the search list size, so every filter is within
    the threshold, and the result is the exact scan of the admitted offsets, whatever the
    index holds. (A segment just built, with the configured list size, scans only filters
    that admit at most that many points.) *)
Theorem reopened_filters_exactly {K : Kernels} u d io d' io' query top_k bm view :
  sealed_open cpus reads c d io = (Some (Ok u), d', io') ->
  usearch_search (uf_segment u) query top_k (Some bm) view =
    exact_search_over_offsets query top_k view (dimension c)
      (filter (fun o => allowed (Some bm) o) (u_offsets (uf_segment u))) Hot.
Proof.
  intros Eo. pose proof (sealed_open_triple d d io (conj eq_refl eq_refl)) as H. rewrite Eo in H.
  destruct H as (_ & m & f & _ & _ & _ & _ & _ & _ & _ & ->). unfold usearch_search, usearch_segment. cbn [uf_segment u_dim u_offsets u_search_list_size].
  rewrite bool_decide_true by done. cbn [andb].
  rewrite (proj2 (N.leb_le _ _)).
  - unfold exact_search_over_offsets. by destruct (validate_dimension query (dimension c)).
  - pose proof (length_filter (fun o => allowed (Some bm) o) (v_offsets m)) as Hlen. unfold len in *. lia.
Qed.
End usearch.

Module UsearchWitness.
Import Examples.

(** An index is the list of its keys, a byte each, that answers in order. *)
Definition ex_usearch : Usearch := {|
  Index := list byte; index_new := fun _ => Some []; reserve_capacity_and_threads := fun i _ _ => Some i;
  index_add := fun i o _ => b ← Byte.of_N o; Some (i ++ [b]);
  index_bytes := fun i => i; index_view := fun _ bytes => Some bytes; index_load := fun _ bytes => Some bytes;
  index_size := fun i => len i;
  index_search := fun i _ k => Some (map (fun b => (Byte.to_N b, f32_zero)) (take (N.to_nat k) i)) |}.
Lemma ex_usearch_ok : @UsearchOk ex_usearch.
Proof.
  split; simpl; [by intros opts i [= <-]|by intros i n t j [= <-]| |by intros; eexists|by intros ???? _ _ [= <-]].
  intros i o v j Hj. destruct (Byte.of_N o) as [b|]; simpl in Hj; [|done]. injection Hj as <-. unfold len. rewrite length_app. simpl. lia.
Qed.
Definition ex_hasher : @Crc32Hasher crc32_ieee_impl.
Proof.
  refine {| hasher := list byte; hasher_new := []; hasher_update := @app byte; hasher_finalize := @crc32 crc32_ieee_impl |}.
  intros pieces. f_equal. assert (H : forall h, foldl (@app byte) h pieces = h ++ concat pieces); [|apply (H [])].
  induction pieces as [|p pieces IH]; intros h; simpl; [by rewrite app_nil_r|]. by rewrite IH, <- app_assoc.
Defined.
Definition ex_json : Json VectorIndexManifest := {|
  text := option VectorIndexManifest; cut := fun _ _ => None; to_json := fun m => Some (Some m); from_json := fun t => t |}.
Lemma ex_index_json_ok : @JsonOk VectorIndexManifest (fun _ => True) ex_json.
Proof. split; [by eexists|]. by intros m t _ [= <-]. Qed.
#[local] Existing Instances crc32_ieee_impl ex_hasher ex_usearch ex_json ex_usearch_ok ex_index_json_ok.

Definition ex_store : StoreConfig := default_for_dimension (fun _ _ => f32_one) (Some 8) 2.
Definition ex_vectors : list (N * list f32) := [(7, [f32_one; 0]); (9, [0; f32_one])].
Definition ex_cut (n : nat) : N := 1.
Lemma sealed_all_or_nothing_witness :
  let '(r, d, _) := sealed_from_vectors (Some 8) ex_cut ex_store (@rev _) ex_vectors empty_dir [] in
  exists u, r = Some (Ok u) /\ data d = Some (durable [Byte.x07; Byte.x09]) /\
    exists u', (sealed_open (Some 8) ex_cut ex_store d []).1.1 = Some (Ok u') /\ reopens ex_store [7; 9] (uf_index u) u'.
Proof.
  pose proof (sealed_all_or_nothing (Some 8) ex_cut ex_store (@rev _) (fun l => Permutation_sym (Permutation_rev l)) ex_vectors empty_dir [] eq_refl) as H.
  destruct (sealed_from_vectors (Some 8) ex_cut ex_store (@rev _) ex_vectors empty_dir []) as [[r d] io] eqn:E.
  vm_compute in E. injection E as <- <- _. destruct H as [_ H]. eexists. split; [reflexivity|]. split; [reflexivity|].
  apply (H _ (or_introl eq_refl)); reflexivity.
Defined.
(** The directory that the build leaves, and the same with a byte missing. *)
Definition ex_sealed_dir : Dir (list byte) (text VectorIndexManifest) :=
  (sealed_from_vectors (Some 8) ex_cut ex_store (@rev _) ex_vectors empty_dir []).1.2.
Definition ex_truncated := set_data (durable [Byte.x07]) ex_sealed_dir.
Example ex_truncated_refused : (sealed_open (Some 8) ex_cut ex_store ex_truncated []).1.1
  = Some (Err (Corrupted "index file does not match its manifest")).
Proof. vm_compute. reflexivity. Qed.
(** The manifest of an older GPU build. *)
Definition ex_gpu_manifest : VectorIndexManifest := {|
  v_version := 1; v_index_type := "gpu_hnsw"; v_dimension := 2; v_offsets := [7; 9]; v_index_len := None; v_index_crc := None |}.
Definition ex_gpu_dir : Dir (list byte) (text VectorIndexManifest) :=
  {| data := Some (durable [Byte.x07; Byte.x09]); tmp := None; manifest := Some (durable (Some ex_gpu_manifest));
     names_synced := true; parent_synced := true |}.
Lemma sealed_open_checked_witness :
  let '(r, d, _) := sealed_open (Some 8) ex_cut ex_store ex_gpu_dir [] in
  untouched ex_gpu_dir d /\ manifest d = Some (durable (Some (relabel ex_gpu_manifest))) /\
  exists u, r = Some (Ok u) /\ exists f, data ex_gpu_dir = Some f /\ opened_from (Some 8) ex_store ex_gpu_manifest f u.
Proof.
  pose proof (sealed_open_checked (Some 8) ex_cut ex_store ex_gpu_dir []) as H.
  destruct (sealed_open (Some 8) ex_cut ex_store ex_gpu_dir []) as [[r d] io] eqn:E.
  vm_compute in E. injection E as <- <- _. destruct H as [H1 (m & f & (mf & Emf & Em) & _ & Ef & Hu)].
  split; [exact H1|]. split; [reflexivity|]. eexists. split; [reflexivity|]. exists f. split; [exact Ef|].
  injection Emf as <-. injection Em as <-. exact Hu.
Defined.
Definition ex_vector_of : View := fun o => if o =? 9 then Some [0; f32_one] else Some [f32_one; 0].
Lemma reopened_filters_exactly_witness : exists u,
  (sealed_open (Some 8) ex_cut ex_store ex_sealed_dir []).1.1 = Some (Ok u) /\
  @usearch_search scalar_kernels (uf_segment u) [0; f32_one] 1 (Some {[ 7; 9 ]}) ex_vector_of =
    Ok [{| offset := 9; score := f32_one; sp_tier := Hot |}].
Proof.
  destruct (sealed_open (Some 8) ex_cut ex_store ex_sealed_dir []) as [[[[u|er]|] d] io] eqn:E; [|vm_compute in E; congruence..].
  exists u. split; [reflexivity|].
  rewrite (@reopened_filters_exactly _ _ _ _ _ (Some 8) ex_cut ex_store scalar_kernels u ex_sealed_dir [] d io _ _ _ _ E).
  vm_compute in E. injection E as <- _ _. vm_compute. reflexivity.
Defined.
End UsearchWitness.
