(* ===== verification/TextIndex.v ===== *)
(** * The text index, [text_index.rs]

    Tantivy is a parameter: a writer collects additions and deletions, a commit publishes
    them, a reader sees the last commit it reloaded. The index counts what was written
    since the last commit, so that a search commits only when something is pending. Used
    by one thread at a time, a search sees every write that returned
    ([text_search_exact]); with two threads, a write that falls between a commit and its
    reset of the counter is not counted, and stays unseen ([lost_write]). *)

From S2P Require Import Prelude Core Segments.
From Stdlib Require Import Lia.

(** ** Tantivy *)

Abbreviation Doc := (N * string)%type.
Class Tantivy := {
  Writer : Type;
  Searcher : Type;
  Query : Type;
  create_in_dir : option Writer;
  open_in_dir : option Writer;
  delete_all_documents : Writer -> option Writer;
  add_document : Writer -> N -> string -> option Writer;
  delete_term : Writer -> N -> Writer;
  writer_commit : Writer -> option Writer;
  reload : Writer -> option Searcher;
  num_docs : Searcher -> N;
  parse_query : string -> option Query;
  top_docs : Searcher -> Query -> N -> option (list N);  (* the offsets of the best matches, up to a limit *)
}.
(** What the documentation says of it: [contents] would be there after a commit. *)
Class TantivyOk `{Tantivy} := {
  contents : Writer -> list Doc;
  committed : Writer -> list Doc;
  visible : Searcher -> list Doc;
  query_matches : Query -> string -> bool;
  create_empty w : create_in_dir = Some w -> contents w = [] /\ committed w = [];
  delete_all_empty w w' : delete_all_documents w = Some w' -> contents w' = [];
  add_contents w o t w' : add_document w o t = Some w' -> contents w' = contents w ++ [(o, t)] /\ committed w' = committed w;
  delete_contents w o : contents (delete_term w o) = filter (fun d : Doc => d.1 <> o) (contents w) /\
    committed (delete_term w o) = committed w;
  commit_contents w w' : writer_commit w = Some w' -> contents w' = contents w /\ committed w' = contents w;
  reload_visible w s : reload w = Some s -> visible s = committed w;
  num_visible s : num_docs s = len (visible s);
  top_docs_all s q limit l : top_docs s q limit = Some l -> len (visible s) <= limit ->
    forall o, o ∈ l <-> exists t, (o, t) ∈ visible s /\ query_matches q t = true;
}.

Section text_index.
Context {TV : Tantivy}.

(** ** The index *)

(** The lock's contents, the reader's searcher and the counter. *)
Record TextIndex := { writer : Writer; searcher : Searcher; pending : N }.
(** [open]: whether the old directory could be removed; creating the new one can fail. *)
Definition open (removed created : bool) : Result StorageError TextIndex :=
  if negb created then Err Io
  else
    index ← (if removed then match create_in_dir with Some w => Ok w | None => Err (IndexError "tantivy create") end
             else match open_in_dir with Some w => Ok w | None => Err (IndexError "tantivy open") end);
    w ← (if removed then Ok index
         else w ← match delete_all_documents index with Some w => Ok w | None => Err (IndexError "tantivy clear") end;
              match writer_commit w with Some w => Ok w | None => Err (IndexError "tantivy commit") end);
    match reload w with
    | Some s => Ok {| writer := w; searcher := s; pending := 0 |}
    | None => Err (IndexError "tantivy reader")
    end.
(** The documents one by one: a failure leaves the ones before it in the writer. *)
Fixpoint add_documents (w : Writer) (docs : list Doc) : Writer * Result StorageError unit :=
  match docs with
  | [] => (w, Ok tt)
  | (o, t) :: docs =>
      match add_document w o t with
      | Some w => add_documents w docs
      | None => (w, Err (IndexError "tantivy add"))
      end
  end.
Definition fetch_add (n : N) (x : TextIndex) : TextIndex :=
  {| writer := writer x; searcher := searcher x; pending := (pending x + n) mod U64 |}.
Definition set_writer (w : Writer) (x : TextIndex) : TextIndex :=
  {| writer := w; searcher := searcher x; pending := pending x |}.
Definition add_batch (x : TextIndex) (docs : list Doc) : TextIndex * Result StorageError unit :=
  match docs with
  | [] => (x, Ok tt)
  | _ =>
      match add_documents (writer x) docs with
      | (w, Err er) => (set_writer w x, Err er)
      | (w, Ok _) => (fetch_add (len docs) (set_writer w x), Ok tt)
      end
  end.
Definition add (x : TextIndex) (o : N) (t : string) : TextIndex * Result StorageError unit := add_batch x [(o, t)].
Definition remove (x : TextIndex) (o : N) : TextIndex * Result StorageError unit :=
  (fetch_add 1 (set_writer (delete_term (writer x) o) x), Ok tt).
(** The three parts of a commit: with the writer locked; the reader; the counter. *)
Definition commit_writer (x : TextIndex) : TextIndex * Result StorageError unit :=
  match writer_commit (writer x) with
  | Some w => (set_writer w x, Ok tt)
  | None => (x, Err (IndexError "tantivy commit"))
  end.
Definition reload_reader (x : TextIndex) : TextIndex * Result StorageError unit :=
  match reload (writer x) with
  | Some s => ({| writer := writer x; searcher := s; pending := pending x |}, Ok tt)
  | None => (x, Err (IndexError "tantivy reload"))
  end.
Definition reset_pending (x : TextIndex) : TextIndex := {| writer := writer x; searcher := searcher x; pending := 0 |}.
Definition commit (x : TextIndex) : TextIndex * Result StorageError unit :=
  match commit_writer x with
  | (x, Err er) => (x, Err er)
  | (x, Ok _) =>
      match reload_reader x with
      | (x, Err er) => (x, Err er)
      | (x, Ok _) => (reset_pending x, Ok tt)
      end
  end.
Definition commit_if_pending (x : TextIndex) : TextIndex * Result StorageError unit :=
  if 0 <? pending x then commit x else (x, Ok tt).
Definition flush (x : TextIndex) : TextIndex * Result StorageError unit := commit x.
(** [value as u32]. *)
Definition search (x : TextIndex) (query : string) : Result StorageError RoaringBitmap :=
  match parse_query query with
  | None => Err (InvalidArgument "text query")
  | Some q =>
      let limit := N.max (num_docs (searcher x)) 1 in
      match top_docs (searcher x) q limit with
      | None => Err (IndexError "tantivy search")
      | Some offsets => Ok (list_to_set (map (fun o => o mod U32) offsets))
      end
  end.
Definition docs_visible (x : TextIndex) : N := num_docs (searcher x).
End text_index.

(** ** One thread *)

Inductive Op := AddBatch (docs : list Doc) | Remove (o : N) | Commit | CommitIfPending.
Section sequential.
Context {TV : Tantivy} {TO : TantivyOk}.

Definition run_op (x : TextIndex) (op : Op) : TextIndex * Result StorageError unit :=
  match op with
  | AddBatch docs => add_batch x docs
  | Remove o => remove x o
  | Commit => commit x
  | CommitIfPending => commit_if_pending x
  end.
(** The operations in order, as long as they succeed. *)
Fixpoint run (x : TextIndex) (ops : list Op) : TextIndex * Result StorageError unit :=
  match ops with
  | [] => (x, Ok tt)
  | op :: ops => match run_op x op with (x, Ok _) => run x ops | r => r end
  end.
(** The documents that the operations leave. *)
Definition apply_op (docs : list Doc) (op : Op) : list Doc :=
  match op with
  | AddBatch new => docs ++ new
  | Remove o => filter (fun d : Doc => d.1 <> o) docs
  | _ => docs
  end.
Definition live (ops : list Op) : list Doc := foldl apply_op [] ops.
Definition op_writes (op : Op) : N := match op with AddBatch docs => len docs | Remove _ => 1 | _ => 0 end.
Definition writes (ops : list Op) : N := foldr (fun op n => op_writes op + n) 0 ops.

(** The writer has the documents; when nothing is pending the reader has them too. *)
Record up_to_date (docs : list Doc) (n : N) (x : TextIndex) : Prop := {
  utd_writer : contents (writer x) = docs;
  utd_pending : pending x <= n;
  utd_visible : pending x = 0 -> visible (searcher x) = docs;
}.
Lemma open_up_to_date removed created x : open removed created = Ok x -> up_to_date [] 0 x.
Proof.
  unfold open. destruct created; [|done]. cbn [negb]. destruct removed.
  - destruct create_in_dir as [w|] eqn:Ew; [|done]. cbn. destruct (reload w) as [s|] eqn:Es; [|done]. intros [= <-].
    destruct (create_empty _ Ew) as [H1 H2]. split; [done|done|]. intros _. simpl. by rewrite (reload_visible _ _ Es).
  - destruct open_in_dir as [w|]; [|done]. cbn. destruct (delete_all_documents w) as [w1|] eqn:E1; [|done]. cbn.
    destruct (writer_commit w1) as [w2|] eqn:E2; [|done]. cbn. destruct (reload w2) as [s|] eqn:Es; [|done]. intros [= <-].
    destruct (commit_contents _ _ E2) as [H1 H2]. rewrite (delete_all_empty _ _ E1) in H1, H2.
    split; [done|done|]. intros _. simpl. by rewrite (reload_visible _ _ Es).
Qed.
Lemma add_documents_contents docs : forall w w', add_documents w docs = (w', Ok tt) ->
  contents w' = contents w ++ docs /\ committed w' = committed w.
Proof.
  induction docs as [|[o t] docs IH]; intros w w' E; simpl in E; [injection E as <-; by rewrite app_nil_r|].
  destruct (add_document w o t) as [w1|] eqn:E1; [|done]. destruct (add_contents _ _ _ _ E1) as [H1 H2].
  destruct (IH _ _ E) as [-> ->]. by rewrite H1, H2, <- app_assoc.
Qed.
Lemma commit_up_to_date docs n x x' : up_to_date docs n x -> commit x = (x', Ok tt) -> up_to_date docs n x'.
Proof.
  intros [Hw Hp Hv]. unfold commit, commit_writer. destruct (writer_commit (writer x)) as [w|] eqn:Ew; [|done].
  unfold reload_reader. cbn. destruct (reload w) as [s|] eqn:Es; [|done]. intros [= <-].
  destruct (commit_contents _ _ Ew) as [H1 H2]. split; cbn; [by rewrite H1|lia|].
  intros _. by rewrite (reload_visible _ _ Es), H2.
Qed.
Lemma run_op_up_to_date docs n op x x' : up_to_date docs n x -> n + op_writes op < U64 -> run_op x op = (x', Ok tt) ->
  up_to_date (apply_op docs op) (n + op_writes op) x'.
Proof.
  intros Hx Hn E. assert (Hw := utd_writer _ _ _ Hx). assert (Hp := utd_pending _ _ _ Hx).
  destruct op as [new|o| |]; cbn [run_op apply_op op_writes] in *.
  - unfold add_batch in E. destruct new as [|d new]; [injection E as <-; by rewrite app_nil_r, N.add_0_r|].
    destruct (add_documents (writer x) (d :: new)) as [w [[]|er]] eqn:Ea; [|done]. injection E as <-.
    destruct (add_documents_contents _ _ _ Ea) as [Hc _].
    assert (H1 : 1 <= len (d :: new)) by (unfold len; simpl length; lia).
    split; cbn [fetch_add set_writer writer searcher pending]; [by rewrite Hc, Hw|rewrite N.mod_small; lia|rewrite N.mod_small; lia].
  - injection E as <-. split; cbn [fetch_add set_writer writer searcher pending];
      [by rewrite (proj1 (delete_contents _ _)), Hw|rewrite N.mod_small; lia|rewrite N.mod_small; lia].
  - rewrite N.add_0_r. by eapply commit_up_to_date.
  - rewrite N.add_0_r. unfold commit_if_pending in E. destruct (0 <? pending x); [by eapply commit_up_to_date|by injection E as <-].
Qed.
Lemma run_up_to_date ops : forall docs n x x', up_to_date docs n x -> n + writes ops < U64 -> run x ops = (x', Ok tt) ->
  up_to_date (foldl apply_op docs ops) (n + writes ops) x'.
Proof.
  induction ops as [|op ops IH]; intros docs n x x' Hx Hn E; simpl in *; [injection E as <-; by rewrite N.add_0_r|].
  destruct (run_op x op) as [x1 [[]|er]] eqn:Eo; [|done]. fold (writes ops) in *. rewrite N.add_assoc.
  apply (IH _ _ x1); [|lia|done]. apply (run_op_up_to_date _ _ _ x); [done|lia|done].
Qed.

(** C19: Used by one thread, the text index finds exactly the documents that the operations
    left. After any sequence of additions, removals and commits that succeeded, on an
    index opened over whatever directory, with fewer than 2^64 writes, a search preceded
    by [commit_if_pending] returns the offsets of the live documents the query matches,
    as 32-bit keys, and no other. *)
Theorem text_search_exact removed created x0 ops x1 x2 query q bm :
  open removed created = Ok x0 -> writes ops < U64 -> run x0 ops = (x1, Ok tt) ->
  commit_if_pending x1 = (x2, Ok tt) -> parse_query query = Some q -> search x2 query = Ok bm ->
  forall key, key ∈ bm <-> exists o t, (o, t) ∈ live ops /\ query_matches q t = true /\ key = o mod U32.
Proof.
  intros E0 Hn E1 E2 Eq Es key. pose proof (run_up_to_date ops [] 0 x0 x1 (open_up_to_date _ _ _ E0) Hn E1) as H.
  assert (Hv : visible (searcher x2) = live ops).
  { unfold commit_if_pending in E2. destruct (N.ltb_spec 0 (pending x1)) as [Hp|Hp].
    - unfold commit in E2. assert (Ep : pending x2 = 0).
      { destruct (commit_writer x1) as [y [?|?]]; [|done]. destruct (reload_reader y) as [z [?|?]]; [|done]. by injection E2 as <-. }
      apply (utd_visible _ _ _ (commit_up_to_date _ _ _ _ H E2) Ep).
    - injection E2 as <-. apply (utd_visible _ _ _ H). lia. }
  unfold search in Es. rewrite Eq in Es. destruct (top_docs _ q _) as [l|] eqn:El; [|done]. injection Es as <-.
  assert (Hl := top_docs_all _ _ _ _ El ltac:(rewrite num_visible; lia)). rewrite Hv in Hl.
  rewrite elem_of_list_to_set, list_elem_of_In, in_map_iff. split.
  - intros (o & <- & Ho). apply list_elem_of_In, Hl in Ho as (t & Ht & Hm). by exists o, t.
  - intros (o & t & Ht & Hm & ->). exists o. split; [done|]. apply list_elem_of_In, Hl. by exists t.
Qed.
End sequential.

(** ** Several threads *)

(** Where a thread is: in [add_batch] between its additions and its count, with the lock;
    in [commit] before each of its three parts. *)
Inductive Pc := Idle | Counting (n : N) | Committing | Reloading | Resetting.
Record System `{Tantivy} := { index : TextIndex; locked : bool; threads : list Pc }.
Section threads.
Context {TV : Tantivy}.
Definition at_pc (s : System) (x : TextIndex) (l : bool) (i : nat) (pc : Pc) : System :=
  {| index := x; locked := l; threads := <[i := pc]> (threads s) |}.
Inductive step (s : System) : System -> Prop :=
  | step_add i docs w r : threads s !! i = Some Idle -> locked s = false ->
      add_documents (writer (index s)) docs = (w, r) -> docs <> [] ->
      step s (match r with
              | Ok _ => at_pc s (set_writer w (index s)) true i (Counting (len docs))
              | Err _ => at_pc s (set_writer w (index s)) false i Idle
              end)
  | step_remove i o : threads s !! i = Some Idle -> locked s = false ->
      step s (at_pc s (set_writer (delete_term (writer (index s)) o) (index s)) true i (Counting 1))
  | step_count i n : threads s !! i = Some (Counting n) -> locked s = true ->
      step s (at_pc s (fetch_add n (index s)) false i Idle)
  | step_pending i : threads s !! i = Some Idle -> 0 < pending (index s) -> step s (at_pc s (index s) (locked s) i Committing)
  | step_flush i : threads s !! i = Some Idle -> step s (at_pc s (index s) (locked s) i Committing)
  | step_commit i x r : threads s !! i = Some Committing -> locked s = false -> commit_writer (index s) = (x, r) ->
      step s (at_pc s x false i (match r with Ok _ => Reloading | Err _ => Idle end))
  | step_reload i x r : threads s !! i = Some Reloading -> reload_reader (index s) = (x, r) ->
      step s (at_pc s x (locked s) i (match r with Ok _ => Resetting | Err _ => Idle end))
  | step_reset i : threads s !! i = Some Resetting -> step s (at_pc s (reset_pending (index s)) (locked s) i Idle).
Abbreviation steps := (rtc step).
Definition start (x : TextIndex) (n : nat) : System := {| index := x; locked := false; threads := replicate n Idle |}.

(** C20: A write that falls between a commit and its reset of the counter is lost to searches.
    In any state where a thread is about to reset the counter, the lock is free and
    another thread adds documents, three steps lead to a state where both are done, the
    documents are in the writer and the counter is zero: [commit_if_pending] then does
    nothing and every search answers as before the addition. *)
Theorem lost_write s i j docs w : threads s !! i = Some Resetting -> threads s !! j = Some Idle -> locked s = false ->
  docs <> [] -> add_documents (writer (index s)) docs = (w, Ok tt) ->
  exists s', steps s s' /\ threads s' !! i = Some Idle /\ threads s' !! j = Some Idle /\ locked s' = false /\
    writer (index s') = w /\ pending (index s') = 0 /\
    commit_if_pending (index s') = (index s', Ok tt) /\
    forall query, search (index s') query = search (index s) query.
Proof.
  intros Hi Hj Hl Hd Ea. assert (Hij : i <> j) by congruence.
  pose proof (lookup_lt_Some _ _ _ Hi) as Li. pose proof (lookup_lt_Some _ _ _ Hj) as Lj.
  set (s1 := at_pc s (set_writer w (index s)) true j (Counting (len docs))).
  set (s2 := at_pc s1 (fetch_add (len docs) (index s1)) false j Idle).
  set (s3 := at_pc s2 (reset_pending (index s2)) false i Idle).
  exists s3. split.
  - apply rtc_l with s1; [exact (step_add s j docs w (Ok tt) Hj Hl Ea Hd)|].
    apply rtc_l with s2; [apply (step_count s1 j); [by apply list_lookup_insert_eq|done]|].
    apply rtc_once. apply (step_reset s2 i). cbn. by rewrite !list_lookup_insert_ne.
  - cbn. rewrite list_lookup_insert_eq by (by rewrite !length_insert).
    rewrite list_lookup_insert_ne by done. by rewrite list_lookup_insert_eq by (by rewrite length_insert).
Qed.
End threads.

Module TextWitness.

(** Documents in lists; a query is a word, matched whole; nothing fails. *)
Definition ex_tantivy : Tantivy := {|
  Writer := list Doc * list Doc; Searcher := list Doc; Query := string;
  create_in_dir := Some ([], []); open_in_dir := Some ([(5, "old"%string)], [(5, "old"%string)]);
  delete_all_documents := fun w => Some ([], w.2);
  add_document := fun w o t => Some (w.1 ++ [(o, t)], w.2);
  delete_term := fun w o => (filter (fun d : Doc => d.1 <> o) w.1, w.2);
  writer_commit := fun w => Some (w.1, w.1); reload := fun w => Some w.2; num_docs := fun s => len s;
  parse_query := fun q => Some q;
  top_docs := fun s q limit => Some (take (N.to_nat limit) (filter (fun d : Doc => d.2 = q) s).*1) |}.
Definition ex_tantivy_ok : @TantivyOk ex_tantivy.
Proof.
  refine {| contents := (fun w => w.1 : list Doc) : @Writer ex_tantivy -> list Doc;
            committed := (fun w => w.2 : list Doc) : @Writer ex_tantivy -> list Doc;
            visible := (fun s => s) : @Searcher ex_tantivy -> list Doc;
            query_matches := (fun q t => bool_decide (t = q)) : @Query ex_tantivy -> string -> bool |}; simpl.
  - by intros w [= <-].
  - by intros w w' [= <-].
  - by intros w o t w' [= <-].
  - done.
  - by intros w w' [= <-].
  - by intros w s [= <-].
  - done.
  - intros s q limit l [= <-] Hl o. rewrite take_ge.
    + rewrite list_elem_of_fmap. split.
      * intros ([o' t] & -> & [Ht Hin]%list_elem_of_filter). exists t. by rewrite bool_decide_eq_true.
      * intros (t & Hin & Ht%bool_decide_eq_true). exists (o, t). split; [done|]. by apply list_elem_of_filter.
    + rewrite length_fmap. pose proof (length_filter (fun d : Doc => d.2 = q) s). unfold len in Hl. lia.
Defined.
#[local] Existing Instances ex_tantivy ex_tantivy_ok.

Definition ex_ops : list Op := [AddBatch [(1, "rust"%string); (2, "rocq"%string)]; Commit; AddBatch [(2 ^ 32 + 4, "rust"%string)]; Remove 1].
Lemma text_search_exact_witness : exists x0 x1 x2 bm,
  open false true = Ok x0 /\ run x0 ex_ops = (x1, Ok tt) /\ commit_if_pending x1 = (x2, Ok tt) /\
  search x2 "rust" = Ok bm /\ 4 ∈ bm /\ (1 ∈ bm -> False).
Proof.
  do 4 eexists. split; [reflexivity|]. split; [reflexivity|]. split; [reflexivity|]. split; [reflexivity|].
  assert (H := text_search_exact false true _ ex_ops _ _ "rust" "rust"%string _
    eq_refl ltac:(vm_compute; reflexivity) eq_refl eq_refl eq_refl eq_refl).
  split; [apply H; exists (2 ^ 32 + 4), "rust"%string; split_and!; [vm_compute; set_solver|done|done]|].
  intros (o & t & Hin & Ht & Ho)%H. vm_compute in Hin. set_unfold in Hin. destruct Hin as [[= -> ->]|[[= -> ->]|[]]]; vm_compute in Ht, Ho; done.
Defined.
(** A search has committed and reloaded, when the worker adds a document. *)
Definition ex_before : System := {|
  index := {| writer := ([(1, "rust"%string)], [(1, "rust"%string)]); searcher := [(1, "rust"%string)]; pending := 1 |};
  locked := false; threads := [Resetting; Idle] |}.
Definition ex_index : TextIndex :=
  {| writer := ([], []); searcher := []; pending := 0 |}.
Example ex_before_reached : rtc step (start ex_index 2) ex_before.
Proof.
  eapply rtc_l; [eapply (step_add _ 0 [(1, "rust"%string)]); [done..|reflexivity|done]|]. cbn.
  eapply rtc_l; [by eapply (step_count _ 0)|]. cbn.
  eapply rtc_l; [by eapply (step_pending _ 0)|]. cbn.
  eapply rtc_l; [by eapply (step_commit _ 0)|]. cbn.
  eapply rtc_l; [by eapply (step_reload _ 0)|]. cbn. apply rtc_refl.
Qed.
Lemma lost_write_witness : exists s,
  rtc step ex_before s /\ threads s !! 1%nat = Some Idle /\ pending (index s) = 0 /\
  writer (index s) = ([(1, "rust"%string); (2, "rust"%string)], [(1, "rust"%string)]) /\ search (index s) "rust" = Ok {[ 1 ]}.
Proof.
  destruct (lost_write ex_before 0 1 [(2, "rust"%string)] _ eq_refl eq_refl eq_refl ltac:(done) eq_refl)
    as (s & Hs & _ & Ht & _ & Hw & Hp & _ & Hq).
  exists s. split; [exact Hs|]. split; [exact Ht|]. split; [exact Hp|]. split; [exact Hw|]. rewrite Hq. vm_compute. reflexivity.
Defined.
End TextWitness.
