(* ===== verification/SearchSlots.v ===== *)
(** * The search contexts of an index, [SearchSlots] of [segments/usearch_index.rs]

    A counting semaphore: searches take one of the index's contexts, wait on a condition
    variable when none is free, and give it back when done. The threads are a step
    relation; a critical section is one step, and giving back takes two (the count, under
    the lock, then [notify_one]). *)

From S2P Require Import Prelude Core.
From Stdlib Require Import Lia.

(** Where a thread is: before [acquire]; at its lock; in [wait]; woken, before it has the
    lock again; searching; in [drop], between the count and the notification. *)
Inductive Pc := Out | Trying | Waiting | Woken | Holding | Notifying.
#[export] Instance pc_eq_dec : EqDecision Pc.
Proof. solve_decision. Defined.
Record SearchSlots := { free : N; threads : list Pc }.
Definition search_slots_new (slots : N) (n : nat) : SearchSlots := {| free := N.max slots 1; threads := replicate n Out |}.
Definition at_pc (s : SearchSlots) (f : N) (i : nat) (pc : Pc) : SearchSlots := {| free := f; threads := <[i := pc]> (threads s) |}.
(** [while *free == 0 { wait }]: at the lock, for the first time or again. *)
Definition at_lock (pc : Pc) : bool := match pc with Trying | Woken => true | _ => false end.
(** The steps of searches that have begun. *)
Inductive step (s : SearchSlots) : SearchSlots -> Prop :=
  | step_take i pc : threads s !! i = Some pc -> at_lock pc = true -> 0 < free s -> step s (at_pc s (free s - 1) i Holding)
  | step_wait i pc : threads s !! i = Some pc -> at_lock pc = true -> free s = 0 -> step s (at_pc s (free s) i Waiting)
  | step_release i : threads s !! i = Some Holding -> step s (at_pc s (free s + 1) i Notifying)
  | step_notify i j : threads s !! i = Some Notifying -> threads s !! j = Some Waiting ->
      step s (at_pc (at_pc s (free s) j Woken) (free s) i Out)
  | step_notify_none i : threads s !! i = Some Notifying -> Forall (fun pc => pc <> Waiting) (threads s) ->
      step s (at_pc s (free s) i Out).
(** Also a new search, and a wake-up that nobody asked for. *)
Inductive any_step (s : SearchSlots) : SearchSlots -> Prop :=
  | any_begun s' : step s s' -> any_step s s'
  | any_enter i : threads s !! i = Some Out -> any_step s (at_pc s (free s) i Trying)
  | any_spurious i : threads s !! i = Some Waiting -> any_step s (at_pc s (free s) i Woken).

(** ** Counting threads *)

Definition total (f : Pc -> N) (l : list Pc) : N := foldr (fun pc n => f pc + n) 0 l.
Lemma total_insert f l i x y : l !! i = Some x -> total f (<[i := y]> l) + f x = total f l + f y.
Proof.
  revert i. induction l as [|z l IH]; intros [|i] H; simpl in *; [done..|injection H as ->; lia|]. specialize (IH i H). unfold total in *. simpl. lia.
Qed.
Lemma total_pos f l i x : l !! i = Some x -> f x <= total f l.
Proof. revert i. induction l as [|z l IH]; intros [|i] H; simpl in *; [done..|injection H as ->; lia|]. specialize (IH i H). unfold total in *. lia. Qed.
Lemma total_replicate f n x : total f (replicate n x) = N.of_nat n * f x.
Proof. induction n as [|n IH]; [done|]. change (total f (replicate (S n) x)) with (f x + total f (replicate n x)). rewrite IH. lia. Qed.
Lemma total_some f l : 0 < total f l -> exists i x, l !! i = Some x /\ 0 < f x.
Proof.
  induction l as [|z l IH]; simpl; [lia|]. intros H. destruct (N.eq_dec (f z) 0) as [Hz|Hz]; [|exists 0%nat, z; split; [done|lia]].
  destruct IH as (i & x & Hi & Hx); [unfold total in *; lia|]. by exists (S i), x.
Qed.
Definition is_pc (p pc : Pc) : N :=
  match p, pc with
  | Out, Out | Trying, Trying | Waiting, Waiting | Woken, Woken | Holding, Holding | Notifying, Notifying => 1
  | _, _ => 0
  end.
Abbreviation number p s := (total (is_pc p) (threads s)).

(** ** The invariant *)

(** Every context is free or in use, and while threads wait every free one has a thread
    that was woken for it or is about to wake one. *)
Record slots_inv (slots : N) (s : SearchSlots) : Prop := {
  inv_slots : free s + number Holding s = slots;
  inv_woken : 0 < number Waiting s -> free s <= number Notifying s + number Woken s;
}.
Ltac count i := lazymatch goal with H : threads ?s !! i = Some ?x |- context [<[i := ?y]> (threads ?s)] =>
  pose proof (total_insert (is_pc Holding) _ _ _ y H); pose proof (total_insert (is_pc Waiting) _ _ _ y H);
  pose proof (total_insert (is_pc Notifying) _ _ _ y H); pose proof (total_insert (is_pc Woken) _ _ _ y H);
  pose proof (total_pos (is_pc Holding) _ _ _ H); pose proof (total_pos (is_pc Woken) _ _ _ H); pose proof (total_pos (is_pc Notifying) _ _ _ H) end.
Lemma notify_lookup s i j : threads s !! i = Some Notifying -> threads s !! j = Some Waiting ->
  <[j := Woken]> (threads s) !! i = Some Notifying.
Proof. intros Hi Hj. rewrite list_lookup_insert_ne; [done|congruence]. Qed.
Lemma no_waiting s : Forall (fun pc => pc <> Waiting) (threads s) -> number Waiting s = 0.
Proof. induction 1 as [|pc l H _ IH]; [done|]. simpl. rewrite IH. by destruct pc. Qed.
Lemma inv_step slots s s' : any_step s s' -> slots_inv slots s -> slots_inv slots s'.
Proof.
  intros H [H1 H2]. destruct H as [s' H|i Hi|i Hi].
  - destruct H as [i pc Hi Hpc Hf|i pc Hi Hpc Hf|i Hi|i j Hi Hj|i Hi Hw].
    1,2: destruct pc; try done; split; cbn [free threads at_pc]; count i; cbn [is_pc] in *; lia.
    + split; cbn [free threads at_pc]; count i; cbn [is_pc] in *; lia.
    + pose proof (notify_lookup s i j Hi Hj) as Hi'.
      split; cbn [free threads at_pc];
        pose proof (total_insert (is_pc Holding) _ _ _ Out Hi'); pose proof (total_insert (is_pc Waiting) _ _ _ Out Hi');
        pose proof (total_insert (is_pc Notifying) _ _ _ Out Hi'); pose proof (total_insert (is_pc Woken) _ _ _ Out Hi');
        pose proof (total_insert (is_pc Holding) _ _ _ Woken Hj); pose proof (total_insert (is_pc Waiting) _ _ _ Woken Hj);
        pose proof (total_insert (is_pc Notifying) _ _ _ Woken Hj); pose proof (total_insert (is_pc Woken) _ _ _ Woken Hj);
        pose proof (total_pos (is_pc Waiting) _ _ _ Hj); cbn [is_pc] in *; lia.
    + apply no_waiting in Hw. split; cbn [free threads at_pc]; count i; cbn [is_pc] in *; lia.
  - split; cbn [free threads at_pc]; count i; cbn [is_pc] in *; lia.
  - split; cbn [free threads at_pc]; count i; pose proof (total_pos (is_pc Waiting) _ _ _ Hi); cbn [is_pc] in *; lia.
Qed.
Abbreviation reachable slots n := (rtc any_step (search_slots_new slots n)).
Lemma reachable_inv slots n s : reachable slots n s -> slots_inv (N.max slots 1) s.
Proof.
  intros H. apply (rtc_ind_r (R := any_step) (fun s => slots_inv (N.max slots 1) s) (search_slots_new slots n)); [|by intros x y _ Hy Hx; eapply inv_step|done].
  split; cbn [free threads search_slots_new]; rewrite !total_replicate; cbn [is_pc]; lia.
Qed.

(** The contexts are shared safely: from the start, whatever searches begin, finish, wait or
    wake, in any interleaving, the searches inside the native library and the free
    contexts add up to the contexts the index has (at least one), so that no search ever
    runs without a context, and the count cannot overflow. *)
Theorem contexts_suffice slots n s : reachable slots n s -> free s + number Holding s = N.max slots 1.
Proof. intros H. apply (reachable_inv _ _ _ H). Qed.

(** ** Every search ends *)

Definition weight (pc : Pc) : N :=
  match pc with Out => 0 | Notifying => 2 | Holding => 3 | Waiting => 4 | Trying | Woken => 5 end.
Lemma step_lighter s s' : step s s' -> total weight (threads s') < total weight (threads s).
Proof.
  intros [i pc Hi Hpc _|i pc Hi Hpc _|i Hi|i j Hi Hj|i Hi _]; cbn [threads at_pc].
  1: pose proof (total_insert weight _ _ _ Holding Hi); destruct pc; try done; cbn [weight] in *; lia.
  1: pose proof (total_insert weight _ _ _ Waiting Hi); destruct pc; try done; cbn [weight] in *; lia.
  - pose proof (total_insert weight _ _ _ Notifying Hi). cbn [weight] in *. lia.
  - pose proof (total_insert weight _ _ _ Out (notify_lookup s i j Hi Hj)). pose proof (total_insert weight _ _ _ Woken Hj). cbn [weight] in *. lia.
  - pose proof (total_insert weight _ _ _ Out Hi). cbn [weight] in *. lia.
Qed.
Lemma can_step slots s : 0 < slots -> slots_inv slots s -> (exists s', step s s') \/ Forall (fun pc => pc = Out) (threads s).
Proof.
  intros Hs [H1 H2]. destruct (decide (Forall (fun pc => pc = Out) (threads s))) as [|Hn]; [by right|left].
  assert (Hlock : forall i pc, threads s !! i = Some pc -> at_lock pc = true -> exists s', step s s').
  { intros i pc Hi Hpc. destruct (decide (0 < free s)); eexists; [by eapply step_take|eapply step_wait; [done..|lia]]. }
  assert (Hnot : forall i, threads s !! i = Some Notifying -> exists s', step s s').
  { intros i Hi. destruct (decide (Forall (fun pc => pc <> Waiting) (threads s))) as [Hw|Hw]; [eexists; by eapply step_notify_none|].
    apply not_Forall_Exists in Hw; [|intros x; apply _]. apply Exists_exists in Hw as (x & Hx & Hx'). apply dec_stable in Hx' as ->.
    apply list_elem_of_lookup in Hx as [j Hj]. eexists. by eapply step_notify. }
  apply not_Forall_Exists in Hn; [|intros x; apply _]. apply Exists_exists in Hn as (x & Hx & Hx'). apply list_elem_of_lookup in Hx as [i Hi].
  destruct x; [by destruct Hx'|by eapply Hlock| |by eapply Hlock|eexists; by eapply step_release|by eapply Hnot].
  pose proof (total_pos (is_pc Waiting) _ _ _ Hi) as Hw. cbn [is_pc] in Hw. destruct (decide (0 < number Holding s)) as [Hh|Hh].
  - destruct (total_some _ _ Hh) as (k & [] & Hk & ?); try done. eexists. by eapply step_release.
  - assert (0 < number Notifying s \/ 0 < number Woken s) as [Hp|Hp] by lia; destruct (total_some _ _ Hp) as (k & [] & Hk & ?); try done;
      [by eapply Hnot|by eapply Hlock].
Qed.
Lemma any_length s s' : any_step s s' -> length (threads s') = length (threads s).
Proof. intros [? []| |]; cbn [threads at_pc]; by rewrite ?length_insert. Qed.
Lemma weight_bound slots n s : reachable slots n s -> total weight (threads s) <= 5 * N.of_nat n.
Proof.
  intros H. assert (Hlen : length (threads s) = n).
  { apply (rtc_ind_r (R := any_step) (fun s => length (threads s) = n) (search_slots_new slots n)); [by apply length_replicate| |done].
    intros x y _ Hy Hx. by rewrite (any_length _ _ Hy). }
  rewrite <- Hlen. clear. induction (threads s) as [|pc l IH]; [done|]. simpl length. rewrite Nat2N.inj_succ.
  change (total weight (pc :: l)) with (weight pc + total weight l). assert (weight pc <= 5) by (destruct pc; done || (cbn; lia)). lia.
Qed.

(** No search waits forever. In every reachable state, whatever was stolen or woken for
    nothing before: once no new search begins and nothing wakes unasked, the searches
    under way take at most five steps each, and when none of them can take another, all
    have returned and every context is free: a wake-up is never lost and no searches wait
    on each other. *)
Theorem every_search_ends slots n s : reachable slots n s ->
  (forall k s', nsteps step k s s' -> N.of_nat k <= 5 * N.of_nat n) /\
  (forall s', rtc step s s' -> (forall s'', ~ step s' s'') -> Forall (fun pc => pc = Out) (threads s') /\ free s' = N.max slots 1).
Proof.
  intros Hr. split.
  - intros k s' Hk. assert (Hw : N.of_nat k + total weight (threads s') <= total weight (threads s)).
    { clear Hr. induction Hk as [s|k s s1 s' H _ IH]; [lia|]. pose proof (step_lighter _ _ H). lia. }
    pose proof (weight_bound _ _ _ Hr). lia.
  - intros s' Hs Hstuck. assert (Hr' : reachable slots n s').
    { etransitivity; [exact Hr|]. clear Hr Hstuck. induction Hs as [|s s1 s' H _ IH]; [apply rtc_refl|]. eapply rtc_l; [by apply any_begun|exact IH]. }
    pose proof (reachable_inv _ _ _ Hr') as Hi. destruct (can_step (N.max slots 1) s' ltac:(lia) Hi) as [[s'' H]|Hout]; [by destruct (Hstuck s'')|].
    split; [exact Hout|]. destruct Hi as [H1 _]. assert (H0 : number Holding s' = 0); [|lia].
    clear -Hout. induction Hout as [|x l -> _ IH]; [done|exact IH].
Qed.

Module SlotsWitness.

(** One context, two searches: the second waits until the first is done. *)
Definition ex_waits : SearchSlots := {| free := 0; threads := [Holding; Waiting] |}.
Lemma ex_reached : rtc any_step (search_slots_new 0 2) ex_waits.
Proof.
  eapply rtc_l; [by eapply (any_enter _ 0)|]. eapply rtc_l; [by apply any_begun, (step_take _ 0 Trying)|]. cbn.
  eapply rtc_l; [by eapply (any_enter _ 1)|]. eapply rtc_l; [by apply any_begun, (step_wait _ 1 Trying)|]. cbn. apply rtc_refl.
Qed.
Lemma contexts_suffice_witness : number Holding ex_waits = 1.
Proof. pose proof (contexts_suffice 0 2 ex_waits ex_reached) as H. cbn in H |- *. exact H. Defined.
(** A run to the end: released, notified, taken, released, nobody to notify. *)
Lemma every_search_ends_witness : exists s, nsteps step 5 ex_waits s /\ threads s = [Out; Out] /\ free s = 1.
Proof.
  destruct (every_search_ends 0 2 ex_waits ex_reached) as [_ H].
  assert (Hrun : exists s, nsteps step 5 ex_waits s /\ threads s = [Out; Out]).
  { eexists. split; [|reflexivity || idtac].
    - eapply nsteps_l; [by apply (step_release _ 0)|]. cbn.
      eapply nsteps_l; [by apply (step_notify _ 0 1)|]. cbn.
      eapply nsteps_l; [by apply (step_take _ 1 Woken)|]. cbn.
      eapply nsteps_l; [by apply (step_release _ 1)|]. cbn.
      eapply nsteps_l; [apply (step_notify_none _ 1); [done|by repeat constructor]|]. cbn. apply nsteps_O.
    - reflexivity. }
  destruct Hrun as (s & Hs & Ht). exists s. split; [exact Hs|]. split; [exact Ht|].
  apply (H s); [by apply (rtc_nsteps_2 5)|]. intros s'' Hstep.
  destruct Hstep as [i pc Hi Hp _|i pc Hi Hp _|i Hi|i j Hi _|i Hi _]; rewrite Ht in Hi;
    destruct i as [|[|i]]; simpl in Hi; try done; by injection Hi as <-.
Defined.
End SlotsWitness.
