(* ===== verification/Consolidation.v ===== *)
(** * Consolidation, [StorageEngine::trigger_consolidation]

    One cycle of maintenance: recent accesses, sealing, compaction and promotion, the
    optimizer, importance, near-duplicates, eviction, belief revision and the learning of
    the graph, in the order of the code over one engine. A cycle that returns removed from
    what callers stored only the near-duplicates it planned to merge and the records its
    eviction planned and did not spare, added the gists of these, and changed nothing else
    but concepts that newer records gained of older ones ([consolidation_keeps]). *)

From S2P Require Import Prelude Core Floats Vocabulary Metrics Record Wal VectorStore MetadataStore AccessCounters ScopeIndex PayloadIndex Segments SegmentHolder Optimizer Engine Recovery Durability CrashSafety Steady EngineTheorems SegmentSearch TopOf Search SearchTheorems Bm25 Extract Ccs Config Retention RetentionTheorems Belief BeliefTheorems.
From Stdlib Require Import Lia.
#[local] Open Scope turbo_scope.

(** What the cycle asks of the graph besides belief revision. *)
Class LearningGraph {GO : GraphOps} := {
  decay_edges : Graph -> N -> N -> Graph;
  build_abstractions : Graph -> N -> Graph;
  (** The graph, the merges, the suppressions and the pairs examined. *)
  evolve_vocabulary : Graph -> f32 -> f32 -> N -> Graph * (N * N * N);
}.

Section consolidation.
Context (en : Endian) {HC : Crc32} {BW : Bincode WalOp} {BM : Bincode MetaRecord} {BH : Bincode (list N)}
  {SJ : SerdeJson} {JS : JsonSyntax} {GO : GraphOps} {TO : TextOps} {RG : RetentionGraph}
  {U : Unicode} {LM : Libm} {HI : HashIter} {RI : RecordIter}
  {K : Kernels} {B1 : BinaryHeap rev_heap_le} {B2 : BinaryHeap item_le} {SN : SelectNth best_first}
  {SG : SearchGraph} {ST_ : SearchText} {GPU : GpuExact} {BG : BeliefGraph} {LG : LearningGraph}.
Context (cfg : Config.StoreConfig).
#[local] Notation "'let?' x ':=' m 'in' k" := (sm_bind m (fun x => k))
  (at level 10, x pattern, m at level 100, k at level 200).
Abbreviation tc := (Config.tier cfg).
Abbreviation rcfg := (retention_config cfg).
Abbreviation bcfg := (belief_config cfg).
Abbreviation scfg := (search_config cfg).

(** What the clock and the disk do during one cycle, and the snapshots its searches read. *)
Record CycleIo := {
  c_now : N; c_compact : bool; c_seals : list BuildIo; c_merges : list BuildIo;
  c_importance : FlushIo; c_dedup : N -> WriteIo; c_gists : N -> WriteIo; c_evict : N -> WriteIo;
  c_refinements : FlushIo; c_contradictions : FlushIo; c_evolve : FlushIo; c_save : FlushIo;
  s_dedup : SegmentSnapshot; s_refinements : SegmentSnapshot; s_contradictions : SegmentSnapshot }.

(** Steps 1 to 3: access counts, [SegmentHolder::trigger_consolidation], the optimizer. *)
Definition promotable (now : N) (m : MetaRecord) : bool :=
  negb (f64_ltb (access_score m now (half_life rcfg)) (hot_promote_threshold tc)).
Definition consolidate_segments (now : N) (compact_ok : bool) : ST Engine (N * N * N) := fun e =>
  let '(h, m, r) := SegmentHolder.trigger_consolidation (promotable now) (segments e) (meta e) (view_of en e) compact_ok in
  (set_segments h (budget e) (set_meta m e), r).
Definition drain_optimizer (ios1 ios2 : list BuildIo) : SM unit := fun e =>
  '(h, b) ← Optimizer.drain (segments e) (budget e) (view_of en e) ios1 ios2; Some (set_segments h b e, Ok tt).
(** Removal: the near-duplicates, then the eviction; the number of gists comes along. *)
Definition evict_step (compressor : option GistCompressor) (gist_seq : N) (io : CycleIo) : SM N := fun e =>
  let '(e, gist_seq, r) := evict en rcfg compressor gist_seq (c_now io) (c_gists io) (c_evict io) e in
  Some (e, match r with Ok _ => Ok gist_seq | Err er => Err er end).
(** Steps 1 to 4: the accesses, the segments, the optimizer, the importance. *)
Definition settle (io : CycleIo) : SM (N * N * N) :=
  let? _ := fun e => Some (Retention.drain e) in
  let? counts := fun e => Some (consolidate_segments (c_now io) (c_compact io) e) in
  let? _ := drain_optimizer (c_seals io) (c_merges io) in
  let? _ := recompute_importance rcfg (c_now io) (c_importance io) in
  sm_ret counts.
(** Then steps 5 and 6, which remove records. *)
Definition maintain (compressor : option GistCompressor) (gist_seq : N) (io : CycleIo) : SM (N * N * N * N) :=
  let? counts := settle io in
  let? _ := deduplicate en rcfg scfg (s_dedup io) (c_now io) (c_dedup io) in
  let? gist_seq := evict_step compressor gist_seq io in
  sm_ret (counts, gist_seq).
(** Belief revision, and the cursor of the incremental detection. *)
Definition revise (watermark : N) (io : CycleIo) : SM N :=
  if Belief.defer_supersession_commit bcfg then sm_ret watermark
  else
    let? _ := check_refinements en bcfg scfg (s_refinements io) watermark (c_now io) (c_refinements io) in
    let? _ := check_contradictions en bcfg scfg (s_contradictions io) watermark (c_now io) (c_contradictions io) in
    sm_read (fun e => next_seq (meta e)).
Definition evolve_concept_vocabulary (io : FlushIo) : SM (N * N * N) := fun e =>
  if negb (concept_evolution_enabled tc) then Some (e, Ok (0, 0, 0))
  else
    let '(g, (merged, suppressed, examined)) := evolve_vocabulary (graph e)
      (f32_clamp (concept_merge_overlap_threshold tc) f32_zero f32_one)
      (f32_max (concept_hub_degree_fraction tc) f32_zero) (concept_evolution_max_pairs_per_cycle tc) in
    let e := set_graph g e in
    Some (if (0 <? merged) || (0 <? suppressed) then (Recovery.save_graph io ;! st_ret (merged, suppressed, examined)) e
          else (e, Ok (merged, suppressed, examined))).
Definition learn (now : N) (g : Graph) : Graph :=
  let g := if 0 <? edge_decay_half_life_secs tc then decay_edges g now (edge_decay_half_life_secs tc) else g in
  if 0 <? abstraction_co_occurrence_threshold tc then build_abstractions g (abstraction_co_occurrence_threshold tc) else g.
(** The counts, the number of gists and the cursor. *)
Definition trigger_consolidation (compressor : option GistCompressor) (gist_seq watermark : N) (io : CycleIo)
    : SM (N * N * N * N * N) :=
  let? r := maintain compressor gist_seq io in
  let? watermark := revise watermark io in
  let? _ := sm_modify (fun e => set_graph (learn (c_now io) (graph e)) e) in
  let? _ := evolve_concept_vocabulary (c_evolve io) in
  let? _ := fun e => Some (Recovery.save_graph (c_save io) e) in
  sm_ret (r, watermark).

(** ** The session and the end *)

(** [step_session]: [ccs] holds the JSON of the state. *)
Definition set_ccs (j : option string) (e : Engine) : Engine := {|
  config := config e; meta := meta e; vectors := vectors e; segments := segments e;
  graph := graph e; ccs := j; id_index := id_index e; payload_index := payload_index e;
  scope_index := scope_index e; text_index := text_index e; wal := wal e; budget := budget e;
  access_counters := access_counters e |}.
Definition step_session {CJ : CcsJson} (compress : Compressor) (user_input response : string) (io : FlushIo) : ST Engine string :=
  fun e =>
    let json := step_session_with_compressor compress (ccs e) user_input response in
    (Recovery.save_ccs io ;! st_ret json) (set_ccs (parse_ccs json) e).
(** [shutdown]: the optimizer stopped, a flush. *)
Definition shutdown (io : FlushIo) : ST Engine unit := Recovery.flush en io.
End consolidation.
