(* ===== verification/ConsolidationTheorems.v ===== *)
(** * What a consolidation keeps

    Every step of the cycle leaves what callers stored alone ([steady]), removes planned
    records, or lets newer records gain concepts; together, [consolidation_keeps]. *)

From S2P Require Import Prelude Core Floats Vocabulary Metrics Record Wal VectorStore MetadataStore AccessCounters ScopeIndex PayloadIndex Segments SegmentHolder Optimizer Engine Recovery Durability CrashSafety Steady EngineTheorems SegmentSearch TopOf Search SearchTheorems Bm25 Extract Ccs Config Retention RetentionTheorems Belief BeliefTheorems Consolidation.
From Stdlib Require Import Lia.
#[local] Open Scope turbo_scope.

Section consolidation_theorems.
Context (en : Endian) {HC : Crc32} {BW : Bincode WalOp} {BW1 : Bincode WalOpV1}
  {BM : Bincode MetaRecord} {BH : Bincode (list N)}
  {BMo : BincodeOk MetaRecord} {BHo : BincodeOk (list N)}
  {BMt : BincodeTotal MetaRecord} {BHt : BincodeTotal (list N)}
  {BWo : BincodeOk WalOp} {BWt : BincodeTagged WalOp}
  {SJ : SerdeJson} {JS : JsonSyntax} {GO : GraphOps} {TO : TextOps} {RG : RetentionGraph}
  {U : Unicode} {LM : Libm} {HI : HashIter} {RI : RecordIter}
  {K : Kernels} {B1 : BinaryHeap rev_heap_le} {B2 : BinaryHeap item_le} {SN : SelectNth best_first}
  {SG : SearchGraph} {ST_ : SearchText} {GPU : GpuExact} {BG : BeliefGraph} {LG : LearningGraph} {TT : TextTotal}.
Context (cfg : Config.StoreConfig).
Abbreviation rcfg := (retention_config cfg).
Abbreviation bcfg := (belief_config cfg).
Abbreviation scfg := (search_config cfg).

(** ** Steps that store nothing *)

Lemma steady_drain e : steady e (Retention.drain e).1.
Proof. exact (steady_drained en e). Qed.
Lemma steady_reads e e1 : reads_same e e1 -> steady e e1.
Proof. intros []. by apply steady_meta. Qed.

Lemma consolidate_segments_steady now ok e : steady e (consolidate_segments en cfg now ok e).1.
Proof.
  pose proof (consolidated_steady en (promotable cfg now) ok e) as H. revert H.
  unfold run_background, consolidate_segments. cbv zeta. by destruct (SegmentHolder.trigger_consolidation _ _ _ _ _) as [[h m] r].
Qed.
(** Importance is kept in memory. *)
Lemma imp_fold_steady now ms md l : forall e n e1 n1, foldl (imp_step rcfg now ms md) (e, n) l = (e1, n1) -> steady e e1.
Proof.
  induction l as [|[o m] l IH]; intros e n e1 n1; cbn [foldl]; [intros [= <- _]; apply steady_refl|].
  destruct (imp_step rcfg now ms md (e, n) (o, m)) as [e2 n2] eqn:E. intros H. eapply steady_trans; [|by eapply IH].
  unfold imp_step in E. destruct (f32_geb _ (f32_abs _)); [injection E as <- _; apply steady_refl|].
  injection E as <- _. eapply steady_trans; [|apply steady_graph].
  destruct (MetadataStore.get (meta e) _) as [rec|] eqn:Hg; [by apply (steady_put e _ rec)|apply steady_refl].
Qed.
Lemma importance_steady now io e e1 r : recompute_importance rcfg now io e = Some (e1, r) -> steady e e1.
Proof.
  unfold recompute_importance. destruct (importance_auto_scoring rcfg); cbn [negb]; [|intros [= <- _]; apply steady_refl].
  pose proof (steady_drain e) as Hd. set (e2 := (Retention.drain e).1) in *.
  destruct (iter_records _) as [|x l]; [by intros [= <- _]|].
  destruct (f32_geb _ _); cbn [negb]; [|done]. destruct (foldl _ _ _) as [e3 n] eqn:Hf. apply imp_fold_steady in Hf.
  intros [= Hrun]. eapply steady_trans; [exact Hd|]. eapply steady_trans; [exact Hf|].
  destruct (0 <? n); [|injection Hrun as <- _; apply steady_refl]. unfold st_bind in Hrun.
  destruct (Recovery.save_graph io e3) as [e4 [u|er]] eqn:Hs; injection Hrun as <- _; by eapply steady_save.
Qed.

(** ** Removal *)

(** Merging the planned duplicates deletes their victims. *)
Definition victims_of (ms : list Merge) : list (N * string) := map (fun m => (c_offset (m_victim m), c_id (m_victim m))) ms.
Lemma transfer_steady m e : steady e (transfer_concepts m e).
Proof.
  unfold transfer_concepts. destruct (find_meta_by_id _ _) as [r|]; [|apply steady_refl].
  destruct (base.filter _ _); [apply steady_refl|apply steady_graph].
Qed.
Lemma apply_merges_rep ms io : forall n e S e1 k,
  eng_rep en e S -> NoDup (victims_of ms).*1 ->
  (forall o i, (o, i) ∈ victims_of ms -> exists d, live (meta e) !! o = Some d /\ id_of_dur d = i) ->
  apply_merges ms io n e = (e1, Ok k) -> k = n + len ms /\ eng_rep en e1 (without S (victims_of ms)).
Proof.
  induction ms as [|m ms IH]; intros n e S e1 k He Hnd Hv Hrun.
  { injection Hrun as <- <-. split; [unfold len; simpl; lia|done]. }
  cbn [victims_of map] in Hnd, Hv. rewrite fmap_cons in Hnd. apply NoDup_cons in Hnd as [Ho Hnd].
  destruct (Hv (c_offset (m_victim m)) (c_id (m_victim m))) as (d & Hd & Hi); [set_solver|].
  cbn [apply_merges] in Hrun. unfold st_bind at 1, st_modify in Hrun. pose proof (transfer_steady m e) as Ht.
  set (e2 := transfer_concepts m e) in *. assert (He2 := steady_rep en _ _ _ Ht He).
  assert (Hl2 : live (meta e2) = live (meta e)) by (apply (sd_live _ _ Ht); by eapply eng_wf).
  unfold st_bind at 1 in Hrun. destruct (delete_by_id_at _ _ _ e2) as [e3 [b|]] eqn:H1; [|done].
  destruct (delete_at_rep en e2 S _ _ d _ e3 b He2 ltac:(by rewrite Hl2) Hi H1) as (-> & He3 & El).
  destruct (IH (n + 1) e3 _ e1 k He3 Hnd) as [-> Hr]; [|exact Hrun|split; [rewrite len_cons; lia|exact Hr]].
  intros o i Hin. destruct (Hv o i) as (d' & Hd' & Hi'); [set_solver|]. exists d'. split; [|done].
  rewrite El, Hl2, lookup_delete_ne; [done|]. intros <-. apply Ho. apply list_elem_of_fmap. by exists (c_offset (m_victim m), i).
Qed.

(** What a deduplication plans: nothing when it is off, or what its loop over the candidates
    finds. *)
Definition dedup_plan (snapshot : SegmentSnapshot) (now : N) (e : Engine) : list Merge :=
  match Retention.dedup_cosine_threshold rcfg with
  | None => []
  | Some threshold =>
      if Retention.dedup_max_pairs_per_cycle rcfg =? 0 then []
      else
        let e := (Retention.drain e).1 in
        let cands := dedup_cands rcfg (meta e) now in
        match dedup_loop en scfg snapshot threshold (Retention.dedup_max_pairs_per_cycle rcfg) now cands cands
                {| merged_offsets := ∅; merges := [] |} e with
        | Some (_, Ok st) => merges st
        | _ => []
        end
  end.
(** A sound plan: different live records of one scope within the threshold, none removed
    twice, none kept that is removed, at most the configured number. *)
Definition dedup_fine (e : Engine) (now : N) (ms : list Merge) : Prop :=
  ms = [] \/ exists threshold st, Retention.dedup_cosine_threshold rcfg = Some threshold /\ ms = merges st /\
    plan_ok (view_of en e) threshold (dedup_cands rcfg (meta (Retention.drain e).1) now)
      (Retention.dedup_max_pairs_per_cycle rcfg) st.
Lemma view_drain e : view_of en (Retention.drain e).1 = view_of en e.
Proof. unfold Retention.drain, st_modify. by destruct (drain_into _ _). Qed.
Lemma cand_live e now c : c ∈ dedup_cands rcfg (meta e) now -> exists d, live (meta e) !! c_offset c = Some d /\ id_of_dur d = c_id c.
Proof.
  unfold dedup_cands. rewrite sort_by_perm. intros ([o m] & -> & Hm)%list_elem_of_fmap. apply elem_of_iter_records in Hm.
  exists (durable m). split; [|apply id_of_dur_meta]. change (c_offset (cand_of rcfg now (o, m))) with o. by rewrite live_lookup, Hm.
Qed.
Lemma deduplicate_rep snapshot now io e S e1 k :
  Forall native_ok (sn_segments snapshot) -> eng_rep en e S ->
  deduplicate en rcfg scfg snapshot now io e = Some (e1, Ok k) ->
  let ms := dedup_plan snapshot now e in
  dedup_fine e now ms /\ k = len ms /\ eng_rep en e1 (without S (victims_of ms)).
Proof.
  intros Hn He. unfold deduplicate, dedup_plan. destruct (Retention.dedup_cosine_threshold rcfg) as [th|] eqn:Eth.
  2: { intros [= <- <-]. split_and!; [by left|done|done]. }
  destruct (N.eqb_spec (Retention.dedup_max_pairs_per_cycle rcfg) 0) as [_|Hm].
  { intros [= <- <-]. split_and!; [by left|done|done]. }
  assert (Hd := steady_rep en _ _ _ (steady_drain e) He). cbv zeta. unfold dedup_fine. rewrite <- view_drain.
  set (e0 := (Retention.drain e).1) in *.
  destruct (dedup_loop _ _ _ _ _ _ _ _ _ e0) as [[e2 [st|er]]|] eqn:Hl; [|done|done]. intros [= Hrun].
  assert (Hp0 : plan_ok (view_of en e0) th (dedup_cands rcfg (meta e0) now) (Retention.dedup_max_pairs_per_cycle rcfg)
    {| merged_offsets := ∅; merges := [] |}).
  { split; cbn [merged_offsets merges]; [set_solver|constructor|constructor|done|unfold len; simpl; lia]. }
  assert (Hlen : len (merges {| merged_offsets := ∅; merges := [] |}) < Retention.dedup_max_pairs_per_cycle rcfg)
    by (change (0 < Retention.dedup_max_pairs_per_cycle rcfg); lia).
  destruct (dedup_loop_ok en scfg snapshot th _ now _ _ _ e0 e2 st Hn (fun c H => H) Hp0 Hlen Hl) as [Hp Hs].
  destruct (apply_merges_rep (merges st) io 0 e2 S e1 k) as [Hk Hr]; [by eapply reads_rep| | |exact Hrun|].
  - unfold victims_of. rewrite <- list_fmap_compose. exact (pl_nodup _ _ _ _ _ Hp).
  - intros o i (m & [= -> ->] & Hin)%list_elem_of_fmap. rewrite (rs_meta _ _ Hs).
    apply (cand_live e0 now). pose proof (pl_merges _ _ _ _ _ Hp) as Hall. rewrite Forall_forall in Hall. by apply Hall.
  - split_and!; [right; by exists th, st|lia|done].
Qed.
(** What an eviction plans: nothing when it is off. *)
Definition evict_planned (e : Engine) (now : N) : list (N * string) :=
  if bool_decide (Retention.max_records rcfg = None) && bool_decide (Retention.evict_score_floor rcfg = None) then []
  else evict_plan rcfg (meta (Retention.drain e).1) now.
(** The chunks of what is planned, one gist each. *)
Definition evict_chunks (e : Engine) (now : N) : list Chunk :=
  gist_chunks rcfg (meta (Retention.drain e).1) (evict_planned e now).*1.
Lemma gist_chunks_nil ms : gist_chunks rcfg ms [] = [].
Proof. unfold gist_chunks, victim_entries. by rewrite filter_none by (intros x _ Hx; set_solver). Qed.
Lemma evict_step_rep compressor gist_seq io e S e1 g :
  eng_rep en e S ->
  gists_clean en rcfg compressor (c_now io) (c_gists io) (Retention.drain e).1 gist_seq (evict_chunks e (c_now io)) ->
  evict_step en cfg compressor gist_seq io e = Some (e1, Ok g) ->
  exists S1 spared,
    gists_stored rcfg compressor (c_now io) (next_seq (meta (Retention.drain e).1)) gist_seq S (evict_chunks e (c_now io)) g S1 spared /\
    eng_rep en e1 (without S1 (filter (fun v : N * string => v.1 ∉ spared) (evict_planned e (c_now io)))).
Proof.
  intros He Hcl. unfold evict_step, evict_chunks, evict_planned in *.
  destruct (_ && _) eqn:Hoff.
  - unfold evict. rewrite Hoff. intros [= <- <-]. exists S, []. split; [|done]. rewrite gist_chunks_nil.
    unfold gists_stored. destruct compressor; [|done]. destruct (Retention.gist_before_evict rcfg); [constructor|done].
  - destruct (evict _ _ _ _ _ _ _ e) as [[e2 g2] [n|er]] eqn:Hrun; [|done]. intros [= <- <-].
    assert (Hon : Retention.max_records rcfg <> None \/ Retention.evict_score_floor rcfg <> None).
    { apply andb_false_iff in Hoff as [H|H]; apply bool_decide_eq_false in H; auto. }
    destruct (evict_rep en rcfg compressor e S gist_seq (c_now io) (c_gists io) (c_evict io) e2 g2 n He Hon Hcl Hrun)
      as (S1 & sp & H1 & _ & H2). by exists S1, sp.
Qed.

(** Steps 1 to 4 store nothing. *)
Lemma settle_steady io e e1 r : settle en cfg io e = Some (e1, Ok r) -> steady e e1.
Proof.
  unfold settle. unfold sm_bind at 1. pose proof (steady_drain e) as H1.
  destruct (Retention.drain e) as [e2 [[]|er]]; [|done]. cbn [fst] in H1.
  unfold sm_bind at 1. pose proof (consolidate_segments_steady (c_now io) (c_compact io) e2) as H2.
  destruct (consolidate_segments _ _ _ _ e2) as [e3 [x|er]]; [|done]. cbn [fst] in H2.
  unfold sm_bind at 1, drain_optimizer. destruct (Optimizer.drain _ _ _ _ _) as [[h b]|]; [|done]. cbn [mbind option_bind].
  assert (H3 : steady e3 (set_segments h b e3)) by (by apply steady_meta). set (e4 := set_segments h b e3) in *.
  unfold sm_bind. destruct (recompute_importance _ _ _ e4) as [[e5 [n|er]]|] eqn:E5; [|done|done].
  apply importance_steady in E5. intros [= <- _]. by do 3 (eapply steady_trans; [eassumption|]).
Qed.
(** The gists of the cycle find room, and fail, if at all, before the log. *)
Definition cycle_gists_clean (compressor : option GistCompressor) (gist_seq : N) (io : CycleIo) (e : Engine) : Prop :=
  forall e0 c e1 k, settle en cfg io e = Some (e0, Ok c) ->
    deduplicate en rcfg scfg (s_dedup io) (c_now io) (c_dedup io) e0 = Some (e1, Ok k) ->
    gists_clean en rcfg compressor (c_now io) (c_gists io) (Retention.drain e1).1 gist_seq (evict_chunks e1 (c_now io)).

(** ** Learning *)

(** A record that kept what its caller stored, but for concepts it gained of older records
    of its scope. *)
Definition taught_record (R : gmap N MetaRecord) (a b : MetaRecord) : Prop :=
  exists cs, durable b = durable (set_concepts a (concepts a ++ cs)) /\
    forall c, c ∈ cs -> exists o m, R !! o = Some m /\ insert_seq m < insert_seq a /\ scope m = scope a /\ c ∈ concepts m.
Lemma taught_same R a b : durable b = durable a -> taught_record R a b.
Proof. intros H. exists []. rewrite app_nil_r, H. split; [by destruct a|by intros c ?%not_elem_of_nil]. Qed.
Lemma taught_fields R a b : taught_record R a b -> id b = id a /\ insert_seq b = insert_seq a /\ scope b = scope a /\
  forall c, c ∈ concepts b -> c ∈ concepts a \/
    exists o m, R !! o = Some m /\ insert_seq m < insert_seq a /\ scope m = scope a /\ c ∈ concepts m.
Proof.
  intros (cs & H & Hcs). unfold durable, set_concepts in H. cbn in H. injection H as Hi _ E _ Hq _ Hs _.
  split_and!; try done. intros c. rewrite E. intros [Hc|Hc]%elem_of_app; [by left|right]. by apply Hcs.
Qed.
Lemma taught_record_trans R R2 a b c : (forall o, option_Forall2 (taught_record R) (R !! o) (R2 !! o)) ->
  taught_record R a b -> taught_record R2 b c -> taught_record R a c.
Proof.
  intros HR H1 (ds & H2 & Hds). destruct (taught_fields _ _ _ H1) as (_ & Eq & Es & _). destruct H1 as (cs & H1 & Hcs).
  exists (cs ++ ds). split.
  - rewrite H2. unfold durable, set_concepts in *. cbn [id text concepts created_at insert_seq payload scope source_role] in *.
    injection H1 as -> -> -> -> _ -> _ ->. by rewrite Eq, Es, app_assoc.
  - intros x [Hx|Hx]%elem_of_app; [by apply Hcs|]. destruct (Hds x Hx) as (o & m2 & Hm & Hq & Hsc & Hin).
    specialize (HR o). rewrite Hm in HR. inversion HR as [m1 m2' Hg E1 E2|]. subst m2'.
    destruct (taught_fields _ _ _ Hg) as (_ & Eq' & Es' & Hc). destruct (Hc x Hin) as [H0|(o0 & m0 & Hm0 & Hq0 & Hs0 & Hc0)].
    + exists o, m1. split_and!; [done|lia|congruence|done].
    + exists o0, m0. split_and!; [done|lia|congruence|done].
Qed.
Record taught (e e' : Engine) : Prop := {
  tg_config : Engine.config e' = Engine.config e;
  tg_vectors : vectors e' = vectors e;
  tg_ids : id_index e' = id_index e;
  tg_records : forall o, option_Forall2 (taught_record (records (meta e))) (records (meta e) !! o) (records (meta e') !! o);
  tg_wf : ms_wf (meta e');
}.
Lemma taught_trans e1 e2 e3 : taught e1 e2 -> taught e2 e3 -> taught e1 e3.
Proof.
  intros [A1 A2 A3 A4 A5] [B1' B2' B3 B4 B5]. split; try congruence; try done. intros o. pose proof (A4 o) as H. specialize (B4 o).
  inversion H as [a b H1 E1 E2|E1 E2]; rewrite <- E2 in B4; inversion B4; constructor. by eapply taught_record_trans.
Qed.
Lemma taught_steady e e' : ms_wf (meta e) -> steady e e' -> taught e e'.
Proof.
  intros Hwf [A1 A2 A3 A4 A5 A6 _ _ _]. split; auto. intros o. pose proof (live_lookup (meta e') o) as H. rewrite A6, live_lookup in H by done.
  destruct (records (meta e) !! o) as [a|], (records (meta e') !! o) as [b|]; simpl in H; try done; constructor.
  apply taught_same. by apply (inj Some) in H.
Qed.
(** From an older record to a newer one of its scope. *)
Definition older (e : Engine) (o n : N) : Prop :=
  exists a b, records (meta e) !! o = Some a /\ records (meta e) !! n = Some b /\
    insert_seq a < insert_seq b /\ scope a = scope b.
Lemma older_tc e o n : tc (older e) o n -> older e o n.
Proof.
  induction 1 as [o n H|o m n (a & b & H1 & H2 & H3 & H4) _ (b' & c & H5 & H6 & H7 & H8)]; [done|].
  assert (b' = b) as -> by congruence. exists a, c. split_and!; [done|done|lia|congruence].
Qed.
Lemma taught_revised e e' : revised (older e) e e' -> ms_wf (meta e') -> taught e e'.
Proof.
  intros [A1 A2 A3 _ _ A4 _] Hwf. split; auto. intros o. pose proof (A4 o) as H. inversion H as [a b (cs & -> & Hcs) E1 E2|]; constructor.
  exists cs. split; [done|]. intros c Hc. destruct (Hcs c Hc) as (_ & o0 & m & Ht%older_tc & Hm & Hin).
  destruct Ht as (m' & a' & H1 & H2 & H3 & H4). assert (m' = m) as -> by congruence. assert (a' = a) as -> by congruence.
  by exists o0, m.
Qed.
Lemma taught_refl e : ms_wf (meta e) -> taught e e.
Proof. intros. apply taught_revised; [apply revised_refl|done]. Qed.
Lemma ids_taught e e' : taught e e' -> ids_exact e -> ids_exact e'.
Proof.
  intros [_ _ Hi Hr _] He i o. rewrite Hi, (He i o). specialize (Hr o).
  destruct Hr as [a b Hab|]; [|done]. apply taught_fields in Hab as (Hab & _). split.
  - intros (m & [= <-] & <-). by exists b.
  - intros (m & [= <-] & <-). exists a. by rewrite Hab.
Qed.

Lemma transfer_wf oo no ni e : ms_wf (meta e) -> ms_wf (meta (transfer_unique_concepts en oo no ni e)).
Proof.
  intros Hwf. unfold transfer_unique_concepts. destruct (MetadataStore.get _ oo); [|done]. destruct (MetadataStore.get _ no) as [new|]; [|done].
  destruct (base.filter _ _); [done|]. destruct (view_of en e no); [|done]. destruct (find_record_by_id _ _ _); by apply put_meta_wf.
Qed.
(** The refinements among the proposals lead from an older record to a newer one. *)
Definition older_pairs (e : Engine) (props : list ProposedSupersession) : Prop :=
  forall p, p ∈ props -> ps_kind p = Refinement -> older e (old_offset p) (new_offset p).
Lemma commit_fold_revised (T : N -> N -> Prop) props : forall e n e' n',
  (forall p, p ∈ props -> ps_kind p = Refinement -> T (old_offset p) (new_offset p)) ->
  ms_wf (meta e) -> foldl (commit_one en bcfg) (e, n) props = (e', n') -> revised T e e' /\ ms_wf (meta e').
Proof.
  induction props as [|p props IH]; intros e n e' n' HT Hwf; cbn [foldl].
  { intros [= <- _]. by split; [apply revised_refl|]. }
  destruct (commit_one en bcfg (e, n) p) as [e1 n1] eqn:E. intros Hf.
  assert (H1 : revised T e e1 /\ ms_wf (meta e1)).
  { unfold commit_one in E. destruct (add_belief_edge _ _ _) as [g []]; [|injection E as <- _; by split; [apply set_graph_revised|]].
    injection E as <- _. set (e2 := set_graph g e).
    assert (H2 : revised T e (set_meta (demote bcfg (meta e2) (old_offset p)) e2)) by (eapply revised_trans; [apply set_graph_revised|apply demote_revised]).
    assert (H3 : ms_wf (demote bcfg (meta e2) (old_offset p))) by (by apply set_demotion_factor_wf).
    destruct (ps_kind p) eqn:Hk; [|by split]. split; [|by apply transfer_wf].
    eapply revised_trans; [exact H2|]. apply transfer_revised. apply HT; [apply list_elem_of_here|done]. }
  destruct H1 as [H1 H2]. destruct (IH e1 n1 e' n') as [H3 H4]; [|done|done|split; [by eapply revised_trans|done]].
  intros q Hq. apply HT. by apply list_elem_of_further.
Qed.
Lemma commit_taught props io e e' r : older_pairs e props -> ms_wf (meta e) ->
  commit_supersessions en bcfg props io e = (e', r) -> taught e e'.
Proof.
  intros Hp Hwf. unfold commit_supersessions. destruct (foldl _ _ _) as [e1 n] eqn:Hf.
  apply (commit_fold_revised (older e)) in Hf as [Hr Hw]; [|done|done]. apply taught_revised in Hr; [|done].
  destruct (0 <? n); [|by intros [= <- _]]. unfold st_bind. destruct (Recovery.save_graph io e1) as [e2 [u|er]] eqn:Hs; intros [= <- _];
    (eapply taught_trans; [exact Hr|apply taught_steady; [done|by eapply steady_save]]).
Qed.
(** What a detection leaves, and proposes. *)
Definition proposes_older (e e' : Engine) (r : Result StorageError (list ProposedSupersession)) : Prop :=
  taught e e' /\ forall props, r = Ok props -> older_pairs e' props.
Lemma propose_taught snapshot kind gate threshold max_pairs watermark now e e' r :
  Forall native_ok (sn_segments snapshot) -> ids_exact e -> ms_wf (meta e) ->
  propose_pass en bcfg scfg snapshot kind gate threshold max_pairs watermark now e = Some (e', r) -> proposes_older e e' r.
Proof.
  intros Hn Hi Hwf. unfold propose_pass. pose proof (taught_steady e _ Hwf (steady_drain e)) as H1. set (e1 := (Retention.drain e).1) in *.
  intros Hrun. eapply (propose_loop_spec en bcfg scfg snapshot) in Hrun as [Hs Hp];
    [split; [eapply taught_trans; [exact H1|apply taught_steady; [apply H1|by apply steady_reads]]|]
    |done|by eapply ids_taught|apply reads_same_refl|done|apply cands_nodup| |].
  - intros props ->. destruct (Hp props eq_refl) as [Hall _ _]. intros p Hin _. rewrite Forall_forall in Hall.
    destruct (Hall p Hin) as [_ (old & new & v & w & Ho & _ & Hnw & _ & Hseq & _ & Hsc & _)].
    exists old, new. by rewrite (rs_meta _ _ Hs).
  - split; [constructor|constructor|unfold len; simpl; lia].
  - set_solver.
Qed.
Lemma proposes_nothing e : ms_wf (meta e) -> proposes_older e e (Ok []).
Proof. intros Hwf. split; [by apply taught_refl|]. intros ? [= <-] p. set_solver. Qed.
Lemma propose_refinements_taught snapshot watermark now e e' r :
  Forall native_ok (sn_segments snapshot) -> ids_exact e -> ms_wf (meta e) ->
  propose_refinements en bcfg scfg snapshot watermark now e = Some (e', r) -> proposes_older e e' r.
Proof.
  intros Hn Hi Hwf. pose proof (proposes_nothing e Hwf) as H0. unfold propose_refinements.
  destruct (Belief.refinement_cosine_threshold bcfg); [|by intros [= <- <-]]. destruct (_ =? _); [by intros [= <- <-]|].
  by apply propose_taught.
Qed.
Lemma propose_contradictions_taught snapshot watermark now e e' r :
  Forall native_ok (sn_segments snapshot) -> ids_exact e -> ms_wf (meta e) ->
  propose_contradictions en bcfg scfg snapshot watermark now e = Some (e', r) -> proposes_older e e' r.
Proof.
  intros Hn Hi Hwf. pose proof (proposes_nothing e Hwf) as H0. unfold propose_contradictions.
  destruct (Belief.contradiction_cosine_threshold bcfg); [|by intros [= <- <-]]. destruct (_ =? _); [by intros [= <- <-]|].
  by apply propose_taught.
Qed.
(** Detecting, then committing what was found. *)
Lemma check_taught (propose : SM (list ProposedSupersession)) io e e' r : ms_wf (meta e) ->
  (forall e1 r1, propose e = Some (e1, r1) -> proposes_older e e1 r1) ->
  sm_bind propose (fun props e1 => Some (commit_supersessions en bcfg props io e1)) e = Some (e', r) -> taught e e'.
Proof.
  intros Hwf Hp. unfold sm_bind. destruct (propose e) as [[e1 [props|er]]|] eqn:E; [|by intros [= <- _]; eapply Hp|done].
  destruct (Hp _ _ eq_refl) as [Ht Ho]. intros [= Hc]. eapply taught_trans; [exact Ht|].
  eapply commit_taught; [by apply Ho|apply Ht|exact Hc].
Qed.
Lemma revise_taught watermark io e e' r :
  Forall native_ok (sn_segments (s_refinements io)) -> Forall native_ok (sn_segments (s_contradictions io)) ->
  ids_exact e -> ms_wf (meta e) -> revise en cfg watermark io e = Some (e', Ok r) -> taught e e'.
Proof.
  intros Hn1 Hn2 Hi Hwf. pose proof (taught_refl e Hwf) as H0. unfold revise.
  destruct (Belief.defer_supersession_commit bcfg); [by intros [= <- _]|]. unfold sm_bind at 1.
  destruct (check_refinements _ _ _ _ _ _ _ e) as [[e1 [n|er]]|] eqn:E1; [|done|done].
  apply (check_taught (propose_refinements en bcfg scfg (s_refinements io) watermark (c_now io)) (c_refinements io)) in E1;
    [|done|intros e3 r3; by apply propose_refinements_taught]. unfold sm_bind.
  destruct (check_contradictions _ _ _ _ _ _ _ e1) as [[e2 [k|er]]|] eqn:E2; [|done|done].
  apply (check_taught (propose_contradictions en bcfg scfg (s_contradictions io) watermark (c_now io)) (c_contradictions io)) in E2;
    [|apply E1|intros e3 r3; apply propose_contradictions_taught; [done|by eapply ids_taught|apply E1]].
  intros [= <- _]. by eapply taught_trans.
Qed.
(** The graph at the end of the cycle. *)
Lemma finish_steady io e e' r :
  (sm_bind (sm_modify (fun e => set_graph (learn cfg (c_now io) (graph e)) e)) (fun _ =>
     sm_bind (evolve_concept_vocabulary cfg (c_evolve io)) (fun _ =>
       sm_bind (fun e => Some (Recovery.save_graph (c_save io) e)) (fun _ => sm_ret tt)))) e = Some (e', Ok r) -> steady e e'.
Proof.
  unfold sm_bind at 1, sm_modify. set (e1 := set_graph _ e). assert (H1 : steady e e1) by apply steady_graph.
  unfold sm_bind at 1. destruct (evolve_concept_vocabulary _ _ e1) as [[e2 [x|er]]|] eqn:E2; [|done|done].
  assert (H2 : steady e1 e2).
  { unfold evolve_concept_vocabulary in E2. destruct (concept_evolution_enabled _); cbn [negb] in E2; [|injection E2 as <- _; apply steady_refl].
    destruct (evolve_vocabulary _ _ _ _) as [g [[m s] k]]. injection E2 as E2. eapply steady_trans; [apply (steady_graph e1 g)|].
    destruct (_ || _); [|injection E2 as <- _; apply steady_refl]. unfold st_bind in E2.
    destruct (Recovery.save_graph _ (set_graph g e1)) as [e3 [u|er]] eqn:Hs; [injection E2 as <- _|done]. by eapply steady_save. }
  unfold sm_bind. destruct (Recovery.save_graph (c_save io) e2) as [e3 [u|er]] eqn:Hs; [|done]. intros [= <- _].
  eapply steady_trans; [exact H1|]. eapply steady_trans; [exact H2|by eapply steady_save].
Qed.

End consolidation_theorems.
