(* ===== verification/ConsolidationRun.v ===== *)
(** * A consolidation over the cognitive graph

    The graph crate is what the cycle asks of it, and a cycle runs: two wordings of one
    memory are merged. *)

From S2P Require Import Prelude Core Floats Vocabulary Metrics Record Wal VectorStore MetadataStore AccessCounters ScopeIndex PayloadIndex Segments SegmentHolder Optimizer Engine Recovery Durability CrashSafety Steady EngineTheorems SegmentSearch TopOf Search SearchTheorems Isolation Bm25 Extract Ccs Config Graph GraphTheorems Activation Retention RetentionTheorems Belief BeliefTheorems EngineGraph Consolidation ConsolidationTheorems.

Section instance.
Context {U : Unicode} {L : Libm} {HI : HashIter} {BS : Bincode BinaryGraphSnapshot} {CJ : CcsJson}.
Context (from_utf8 : list byte -> option string) (legacy_from_str : string -> option LegacyMemoryGraph)
  (spreading : SpreadingConfig) (extractor : ExtractorConfig).
#[local] Instance engine_learning_graph : @LearningGraph (engine_graph from_utf8 legacy_from_str spreading extractor) :=
  @Build_LearningGraph (engine_graph from_utf8 legacy_from_str spreading extractor)
    (fun x now half_life => sa_decay_edges now half_life x)
    (fun x threshold => (sa_build_abstractions threshold x).1)
    (fun x overlap hub max_pairs => let '(x, st) := sa_evolve_vocabulary overlap hub max_pairs x in
       (x, (merged st, suppressed st, examined_pairs st))).
End instance.

Module ConsolidationWitness.
Import AsciiText GraphWitness CcsWitness.
Import EngineTheorems.Examples SegmentSearchWitness TopOfWitness SearchWitness RetentionWitness BeliefWitness.
#[export] Instance cw_learning : LearningGraph := engine_learning_graph _ _ _ _.

(** The fixed configuration with some of the opt-in policies. *)
Definition with_policy (cap : option N) (dedup refine : option f32) (t : TierConfig) : TierConfig := {|
  Config.hot_capacity := Config.hot_capacity t; Config.warm_capacity := Config.warm_capacity t;
  Config.warm_quantizer := Config.warm_quantizer t; Config.warm_chunk_bytes := Config.warm_chunk_bytes t;
  Config.hnsw_threshold := Config.hnsw_threshold t; Config.full_scan_threshold_kb := Config.full_scan_threshold_kb t;
  Config.merge_threshold_segments := Config.merge_threshold_segments t; Config.merge_max_records := Config.merge_max_records t;
  Config.cold_quantizer := Config.cold_quantizer t; Config.hot_promote_threshold := Config.hot_promote_threshold t;
  Config.warm_demote_threshold := Config.warm_demote_threshold t; Config.recency_half_life_secs := Config.recency_half_life_secs t;
  Config.max_records := cap; Config.evict_score_floor := Config.evict_score_floor t;
  Config.dedup_cosine_threshold := dedup; Config.dedup_max_pairs_per_cycle := Config.dedup_max_pairs_per_cycle t;
  Config.abstraction_co_occurrence_threshold := Config.abstraction_co_occurrence_threshold t; Config.edge_decay_half_life_secs := Config.edge_decay_half_life_secs t;
  Config.max_concepts := Config.max_concepts t; Config.concept_max_ngram_len := Config.concept_max_ngram_len t;
  Config.concept_min_ngram_freq := Config.concept_min_ngram_freq t; Config.concept_enable_pmi := Config.concept_enable_pmi t;
  Config.refinement_cosine_threshold := refine; Config.refinement_max_pairs_per_cycle := Config.refinement_max_pairs_per_cycle t;
  Config.contradiction_cosine_threshold := Config.contradiction_cosine_threshold t; Config.contradiction_text_threshold := Config.contradiction_text_threshold t;
  Config.refinement_text_threshold := Config.refinement_text_threshold t; Config.contradiction_require_opposition := Config.contradiction_require_opposition t;
  Config.contradiction_weaken_factor := Config.contradiction_weaken_factor t; Config.supersession_demotion_factor := Config.supersession_demotion_factor t;
  Config.contradiction_max_pairs_per_cycle := Config.contradiction_max_pairs_per_cycle t; Config.importance_auto_scoring := Config.importance_auto_scoring t;
  Config.importance_learning_rate := Config.importance_learning_rate t; Config.importance_access_weight := Config.importance_access_weight t;
  Config.importance_floor := Config.importance_floor t; Config.importance_ceiling := Config.importance_ceiling t;
  Config.concept_evolution_enabled := Config.concept_evolution_enabled t; Config.concept_merge_overlap_threshold := Config.concept_merge_overlap_threshold t;
  Config.concept_hub_degree_fraction := Config.concept_hub_degree_fraction t; Config.concept_evolution_max_pairs_per_cycle := Config.concept_evolution_max_pairs_per_cycle t;
  Config.belief_source_roles := Config.belief_source_roles t; Config.defer_supersession_commit := Config.defer_supersession_commit t;
  Config.exclude_superseded := Config.exclude_superseded t; Config.access_aware_eviction := Config.access_aware_eviction t;
  Config.actr_activation := Config.actr_activation t; Config.actr_decay := Config.actr_decay t;
  Config.actr_history := Config.actr_history t; Config.incremental_supersession_detection := Config.incremental_supersession_detection t;
  Config.gist_before_evict := Config.gist_before_evict t; Config.gist_chunk_facts := Config.gist_chunk_facts t;
  Config.temporal_recency_weight := Config.temporal_recency_weight t; Config.sync_writes := Config.sync_writes t;
  Config.gpu_exact_search := Config.gpu_exact_search t; Config.gpu_exact_min_records := Config.gpu_exact_min_records t;
  Config.gpu_memory_budget_mb := Config.gpu_memory_budget_mb t; Config.gpu_exact_on_cpu_backend := Config.gpu_exact_on_cpu_backend t |}.
Definition cw_cfg (cap : option N) (dedup refine : option f32) : Config.StoreConfig :=
  let c := default_for_dimension (fun x _ => x) (Some 8) 2 in
  {| Config.dimension := 2; max_edges := max_edges c; level0_factor := level0_factor c; ef_construction_field := ef_construction_field c;
     search_list_size := search_list_size c; cognitive_alpha := cognitive_alpha c; outlier_count := outlier_count c;
     initial_capacity := initial_capacity c; optimizer_budget := optimizer_budget c;
     auto_consolidation_interval := auto_consolidation_interval c; spreading := spreading c;
     tier := with_policy cap dedup refine (tier c) |}.
Definition cw_io : CycleIo := {|
  c_now := 200; c_compact := true; c_seals := [build_ok; build_ok]; c_merges := [build_ok; build_ok];
  c_importance := ex_flush; c_dedup := fun _ => write_ok; c_gists := fun _ => write_ok; c_evict := fun _ => write_ok;
  c_refinements := ex_flush; c_contradictions := ex_flush; c_evolve := ex_flush; c_save := ex_flush;
  s_dedup := ex_none; s_refinements := ex_none; s_contradictions := ex_none |}.
Definition cw_run := trigger_consolidation le (cw_cfg None (Some 0x3F666666) None) None 0 0 cw_io bw_e2.
Example cw_ok : answer cw_run = Some (Ok (0, 0, 0, 0, 3)).
Proof. vm_compute. reflexivity. Qed.
(** The newer wording is merged away; the older one stays as it was. *)
Definition ids_of {A} (r : option (Engine * A)) : option (list string) := (fun p => (map_to_list (id_index p.1)).*1) <$> r.
End ConsolidationWitness.
