(* ===== verification/EngineText.v ===== *)
(** * The text index as the engine's interface

    The operations of [TextIndex] are the engine's [TextOps] and [SearchText], and with a
    library whose calls succeed they succeed ([TextTotal]), which is what the theorems on
    histories of writes assume of the text index. *)

From S2P Require Import Prelude Core Segments Engine Durability Search TextIndex.
From Stdlib Require Import Lia.

(** Calls of the library that succeed. *)
Class TantivyTotal `{Tantivy} : Prop := {
  create_total : is_Some create_in_dir;
  add_total w o t : is_Some (add_document w o t);
  commit_total w : is_Some (writer_commit w);
  reload_total w : is_Some (reload w);
}.
Section engine_text.
Context {TV : Tantivy}.
(** The old directory can be removed, the new one made. *)
#[export] Instance engine_text : TextOps := {|
  Text := TextIndex; text_open := TextIndex.open true true; text_add_batch := TextIndex.add_batch;
  text_remove := TextIndex.remove; text_commit := TextIndex.commit |}.
#[export] Instance engine_search_text : @SearchText engine_text :=
  @Build_SearchText engine_text TextIndex.commit_if_pending TextIndex.search.
Context {TT : TantivyTotal}.
Lemma commit_total_text x : exists x', TextIndex.commit x = (x', Ok tt).
Proof.
  unfold TextIndex.commit, commit_writer. destruct (commit_total (writer x)) as [w ->].
  unfold reload_reader. cbn [set_writer writer]. destruct (reload_total w) as [s ->]. by eexists.
Qed.
#[export] Instance engine_text_total : TextTotal.
Proof.
  split; cbn [text_open text_add_batch text_remove text_commit engine_text].
  - unfold TextIndex.open. cbn [negb]. destruct create_total as [w ->]. cbn. destruct (reload_total w) as [s ->]. by eexists.
  - intros x docs. unfold TextIndex.add_batch. destruct docs as [|d docs]; [by eexists|].
    assert (H : forall l w, exists w', add_documents w l = (w', Ok tt)).
    { induction l as [|[o t] l IH]; intros w; simpl; [by eexists|]. by destruct (add_total w o t) as [w1 ->]. }
    destruct (H (d :: docs) (writer x)) as [w ->]. by eexists.
  - intros x o. by eexists.
  - apply commit_total_text.
Qed.
End engine_text.
