(* ===== verification/ApiService.v ===== *)
(** * The service layer, [crates/turbomemory_api/src/service.rs]

    What both transports share: the errors and their status, the bearer token, the check
    of a batch, and the conversion of filters to the storage engine's. A filter sent as
    JSON and one sent as a protobuf message mean the same, down to the same nesting limit
    ([filter_encodings_agree]); a request is let in exactly for the configured key
    ([authorized_exactly]). The messages of the JSON parser are room out. *)

From S2P Require Import Prelude Core Floats Record PayloadIndex Config.

Definition MAX_FILTER_DEPTH : nat := 32.

(** ** Errors *)

Inductive ApiError :=
  | Storage (e : StorageError)
  | MissingField (msg : string)
  | BadArgument (msg : string)        (** [InvalidArgument] *)
  | InvalidFilter (msg : string).

Definition is_invalid_argument (se : StorageError) : bool :=
  match se with
  | DuplicateId _ | DimensionMismatch | InvalidArgument _ => true
  | Core ce => match ce with TDimensionMismatch _ _ | TInvalidArgument _ | ZeroNorm | NonFinite => true | _ => false end
  | _ => false
  end.

(** The HTTP status and the machine-readable code. *)
Definition status_and_code (e : ApiError) : N * string :=
  match e with
  | MissingField _ | BadArgument _ | InvalidFilter _ => (400, "invalid_argument")
  | Storage se =>
      if is_invalid_argument se then (400, "invalid_argument")
      else match se with NotFound _ => (404, "not_found") | _ => (500, "internal")%N end
  end.

(** The codes of [tonic::Status] that the server uses. *)
Inductive Code := CInvalidArgument | CNotFound | CInternal | CUnauthenticated.
Definition status_from (e : ApiError) : Code :=
  match e with
  | MissingField _ | BadArgument _ | InvalidFilter _ => CInvalidArgument
  | Storage se =>
      if is_invalid_argument se then CInvalidArgument
      else match se with NotFound _ => CNotFound | _ => CInternal end
  end.
(** [unauthenticated_response]. *)
Definition unauthenticated_response : N * string := (401, "unauthenticated").

(** ** The bearer token *)

Inductive ApiAuth := Disabled | Required (key : string).
Definition auth_new (api_key : option string) : ApiAuth :=
  match api_key with
  | Some key => if decide (key = "") then Disabled else Required key
  | None => Disabled
  end.
Definition is_required (a : ApiAuth) : bool := match a with Required _ => true | Disabled => false end.

Definition constant_time_eq (a b : list byte) : bool :=
  if negb (length a =? length b)%nat then false
  else
    let diff := foldl (fun diff p => N.lor diff (N.lxor (Byte.to_N p.1) (Byte.to_N p.2))) 0 (zip a b) in
    (diff =? 0).

Fixpoint strip_prefix (p s : string) : option string :=
  match p, s with
  | EmptyString, _ => Some s
  | String a p, String b s => if Ascii.eqb a b then strip_prefix p s else None
  | String _ _, EmptyString => None
  end.

Definition is_authorized (a : ApiAuth) (header : option string) : bool :=
  match a with
  | Disabled => true
  | Required key =>
      match h ← header; strip_prefix "Bearer " h with
      | Some token => constant_time_eq (String.list_byte_of_string token) (String.list_byte_of_string key)
      | None => false
      end
  end.

(** ** The arrays of a batch *)

Definition validate_batch_lengths (ids texts embeddings scores concepts payloads scopes source_roles : N)
    : Result ApiError unit :=
  let has (p : string * N) := p.1 +:+ " has " +:+ u64_to_string p.2 in
  let mismatched :=
    map has (filter (fun p => p.2 <> ids)
      [("texts", texts); ("embeddings", embeddings); ("scores", scores); ("concepts", concepts)]) ++
    map has (filter (fun p => p.2 <> 0 /\ p.2 <> ids)
      [("payloads", payloads); ("scopes", scopes); ("source_roles", source_roles)]) in
  match mismatched with
  | [] => Ok tt
  | _ => Err (BadArgument ("batch arrays must match the number of ids (" +:+ u64_to_string ids +:+ "): "
                           +:+ String.concat ", " mismatched))
  end.

(** ** The service *)

(** [config.tier.sync_writes = b]. *)
Definition with_sync_writes (b : bool) (t : TierConfig) : TierConfig := {|
  hot_capacity := hot_capacity t; warm_capacity := warm_capacity t; warm_quantizer := warm_quantizer t;
  warm_chunk_bytes := warm_chunk_bytes t; hnsw_threshold := hnsw_threshold t;
  full_scan_threshold_kb := full_scan_threshold_kb t; merge_threshold_segments := merge_threshold_segments t;
  merge_max_records := merge_max_records t; cold_quantizer := cold_quantizer t;
  hot_promote_threshold := hot_promote_threshold t; warm_demote_threshold := warm_demote_threshold t;
  recency_half_life_secs := recency_half_life_secs t; max_records := max_records t;
  evict_score_floor := evict_score_floor t; dedup_cosine_threshold := dedup_cosine_threshold t;
  dedup_max_pairs_per_cycle := dedup_max_pairs_per_cycle t;
  abstraction_co_occurrence_threshold := abstraction_co_occurrence_threshold t;
  edge_decay_half_life_secs := edge_decay_half_life_secs t; max_concepts := max_concepts t;
  concept_max_ngram_len := concept_max_ngram_len t; concept_min_ngram_freq := concept_min_ngram_freq t;
  concept_enable_pmi := concept_enable_pmi t; refinement_cosine_threshold := refinement_cosine_threshold t;
  refinement_max_pairs_per_cycle := refinement_max_pairs_per_cycle t;
  contradiction_cosine_threshold := contradiction_cosine_threshold t;
  contradiction_text_threshold := contradiction_text_threshold t;
  refinement_text_threshold := refinement_text_threshold t;
  contradiction_require_opposition := contradiction_require_opposition t;
  contradiction_weaken_factor := contradiction_weaken_factor t;
  supersession_demotion_factor := supersession_demotion_factor t;
  contradiction_max_pairs_per_cycle := contradiction_max_pairs_per_cycle t;
  importance_auto_scoring := importance_auto_scoring t; importance_learning_rate := importance_learning_rate t;
  importance_access_weight := importance_access_weight t; importance_floor := importance_floor t;
  importance_ceiling := importance_ceiling t; concept_evolution_enabled := concept_evolution_enabled t;
  concept_merge_overlap_threshold := concept_merge_overlap_threshold t;
  concept_hub_degree_fraction := concept_hub_degree_fraction t;
  concept_evolution_max_pairs_per_cycle := concept_evolution_max_pairs_per_cycle t;
  belief_source_roles := belief_source_roles t; defer_supersession_commit := defer_supersession_commit t;
  exclude_superseded := exclude_superseded t; access_aware_eviction := access_aware_eviction t;
  actr_activation := actr_activation t; actr_decay := actr_decay t; actr_history := actr_history t;
  incremental_supersession_detection := incremental_supersession_detection t;
  gist_before_evict := gist_before_evict t; gist_chunk_facts := gist_chunk_facts t;
  temporal_recency_weight := temporal_recency_weight t; sync_writes := b; gpu_exact_search := gpu_exact_search t;
  gpu_exact_min_records := gpu_exact_min_records t; gpu_memory_budget_mb := gpu_memory_budget_mb t;
  gpu_exact_on_cpu_backend := gpu_exact_on_cpu_backend t |}.
(** The configuration of [MemoryService::open_with]: no background consolidation. *)
Definition open_with_config (powf : f32 -> f32 -> f32) (cpus : option N) (dimension : N) (sync_writes : bool)
    : Config.StoreConfig :=
  let c := default_for_dimension powf cpus dimension in
  {| Config.dimension := Config.dimension c; max_edges := 16; level0_factor := level0_factor c;
     ef_construction_field := ef_construction_field c; search_list_size := 100; cognitive_alpha := cognitive_alpha c;
     outlier_count := outlier_count c; initial_capacity := initial_capacity c;
     tier := with_sync_writes sync_writes (tier c); optimizer_budget := optimizer_budget c;
     auto_consolidation_interval := None; spreading := spreading c |}.

(** ** Filters *)

Section filters.
Context {J : SerdeJson}.

(** [pb::Filter] of [proto/turbomemory.proto]. *)
Inductive PbFilter := Pb (kind : option Kind)
with Kind :=
  | KEq (field value_json : string)
  | KRange (field : string) (low high : option N) (low_inclusive high_inclusive : bool)
  | KFullText (field query : string)
  | KAnd (filters : list PbFilter)
  | KOr (filters : list PbFilter)
  | KNot (inner : PbFilter).

Definition too_deep : ApiError := InvalidFilter "filter nesting exceeds the maximum depth of 32".
(** [low.map(|v| if inclusive { .. } else { .. }).unwrap_or(Unbounded)]. *)
Definition bound_of (v : option N) (inclusive : bool) : Bound N :=
  match v with Some v => if inclusive then Included v else Excluded v | None => Unbounded end.

(** [room] is the number of levels left, [MAX_FILTER_DEPTH - depth]. *)
Fixpoint convert_pb_filter (room : nat) (f : PbFilter) : Result ApiError Filter :=
  match room with
  | O => Err too_deep
  | S room =>
      let 'Pb kind := f in
      kind ← ok_or kind (InvalidFilter "empty filter");
      match kind with
      | KEq field value_json =>
          value ← ok_or (from_str value_json) (InvalidFilter "eq value_json");
          Ok (Eq_ field value)
      | KRange field low high low_inclusive high_inclusive =>
          Ok (Range field (bound_of low low_inclusive) (bound_of high high_inclusive))
      | KFullText field query => Ok (FullText field query)
      | KAnd list => And <$> mapM (convert_pb_filter room) list
      | KOr list => Or <$> mapM (convert_pb_filter room) list
      | KNot inner => Not <$> convert_pb_filter room inner
      end
  end.
Definition pb_filter_to_storage (f : option PbFilter) : Result ApiError (option Filter) :=
  match f with None => Ok None | Some f => Some <$> convert_pb_filter MAX_FILTER_DEPTH f end.

(** [Map::get] and the accessors of [serde_json::Value]. *)
Fixpoint obj_get (m : list (string * Value Num)) (k : string) : option (Value Num) :=
  match m with
  | [] => None
  | (k', v) :: m => if String.eqb k' k then Some v else obj_get m k
  end.
Definition as_object (v : Value Num) : option (list (string * Value Num)) :=
  match v with Object m => Some m | _ => None end.
Definition as_str (v : Value Num) : option string := match v with String_ s => Some s | _ => None end.
Definition as_array (v : Value Num) : option (list (Value Num)) := match v with Array l => Some l | _ => None end.
Definition as_bool (v : Value Num) : option bool := match v with Bool b => Some b | _ => None end.
Definition value_as_f64 (v : Value Num) : option N := match v with Number n => as_f64 n | _ => None end.

Fixpoint convert_json_filter (room : nat) (value : Value Num) : Result ApiError Filter :=
  match room with
  | O => Err too_deep
  | S room =>
      obj ← ok_or (as_object value) (InvalidFilter "filter must be a JSON object");
      op ← ok_or (obj_get obj "op" ≫= as_str) (InvalidFilter "filter missing op");
      if String.eqb op "eq" then
        field ← ok_or (obj_get obj "field" ≫= as_str) (InvalidFilter "eq missing field");
        Ok (Eq_ field (default Null (obj_get obj "value")))
      else if String.eqb op "range" then
        field ← ok_or (obj_get obj "field" ≫= as_str) (InvalidFilter "range missing field");
        Ok (Range field
          (bound_of (obj_get obj "low" ≫= value_as_f64) (default true (obj_get obj "low_inclusive" ≫= as_bool)))
          (bound_of (obj_get obj "high" ≫= value_as_f64) (default true (obj_get obj "high_inclusive" ≫= as_bool))))
      else if String.eqb op "full_text" then
        field ← ok_or (obj_get obj "field" ≫= as_str) (InvalidFilter "full_text missing field");
        query ← ok_or (obj_get obj "query" ≫= as_str) (InvalidFilter "full_text missing query");
        Ok (FullText field query)
      else if String.eqb op "and" then
        arr ← ok_or (obj_get obj "filters" ≫= as_array) (InvalidFilter "and missing filters");
        And <$> mapM (convert_json_filter room) arr
      else if String.eqb op "or" then
        arr ← ok_or (obj_get obj "filters" ≫= as_array) (InvalidFilter "or missing filters");
        Or <$> mapM (convert_json_filter room) arr
      else if String.eqb op "not" then
        inner ← ok_or (obj_get obj "filter") (InvalidFilter "not missing filter");
        Not <$> convert_json_filter room inner
      else Err (InvalidFilter ("unknown op: " +:+ op))
  end.
Definition json_filter_to_storage (value : Value Num) : Result ApiError (option Filter) :=
  match value with Null => Ok None | _ => Some <$> convert_json_filter MAX_FILTER_DEPTH value end.

(** ** What a client sends for a filter *)

Fixpoint levels (f : Filter) : nat :=
  match f with
  | And parts | Or parts => S (list_max (map levels parts))
  | Not inner => S (levels inner)
  | _ => 1
  end.
Definition bound_value (b : Bound N) : option N := match b with Included v | Excluded v => Some v | Unbounded => None end.
Definition bound_inclusive (b : Bound N) : bool := match b with Excluded _ => false | _ => true end.

Fixpoint to_pb (f : Filter) : PbFilter :=
  Pb (Some match f with
      | Eq_ field v => KEq field (value_to_string v)
      | Range field lo hi => KRange field (bound_value lo) (bound_value hi) (bound_inclusive lo) (bound_inclusive hi)
      | FullText field query => KFullText field query
      | And parts => KAnd (map to_pb parts)
      | Or parts => KOr (map to_pb parts)
      | Not inner => KNot (to_pb inner)
      end).

(** [num] writes a double. *)
Context (num : N -> Num).
Definition bound_fields (name inclusive : string) (b : Bound N) : list (string * Value Num) :=
  match bound_value b with
  | Some v => [(name, Number (num v)); (inclusive, Bool (bound_inclusive b))]
  | None => []
  end.
Fixpoint to_json (f : Filter) : Value Num :=
  Object match f with
      | Eq_ field v => [("field", String_ field); ("op", String_ "eq"); ("value", v)]
      | Range field lo hi =>
          [("field", String_ field); ("op", String_ "range")] ++
          bound_fields "low" "low_inclusive" lo ++ bound_fields "high" "high_inclusive" hi
      | FullText field query => [("op", String_ "full_text"); ("field", String_ field); ("query", String_ query)]
      | And parts => [("op", String_ "and"); ("filters", Array (map to_json parts))]
      | Or parts => [("op", String_ "or"); ("filters", Array (map to_json parts))]
      | Not inner => [("op", String_ "not"); ("filter", to_json inner)]
      end.

(** What the JSON library has to carry: the bounds as numbers, the values as texts. *)
Definition bound_ok (b : Bound N) : Prop :=
  match bound_value b with Some v => as_f64 (num v) = Some v | None => True end.
Fixpoint encodable (f : Filter) : Prop :=
  match f with
  | Eq_ _ v => from_str (value_to_string v) = Some v
  | Range _ lo hi => bound_ok lo /\ bound_ok hi
  | FullText _ _ => True
  | And parts | Or parts => foldr (fun p acc => encodable p /\ acc) True parts
  | Not inner => encodable inner
  end.

(** ** The conversions agree *)

Lemma mapM_checked {A B E X} (g : A -> Result E B) (h : X -> A) (k : X -> B) (ok : X -> bool) (er : E) l :
  Forall (fun x => g (h x) = if ok x then Ok (k x) else Err er) l ->
  mapM g (map h l) = if forallb ok l then Ok (map k l) else Err er.
Proof.
  induction 1 as [|x l Hx _ IH]; [done|]. simpl. rewrite Hx.
  destruct (ok x); [|done]. simpl. rewrite IH. by destruct (forallb ok l).
Qed.
Lemma mapM_Forall {A B E} (g : A -> Result E B) (P : B -> Prop) l ys :
  (forall x y, g x = Ok y -> P y) -> mapM g l = Ok ys -> Forall P ys.
Proof.
  intros HP. revert ys. induction l as [|x l IH]; simpl; intros ys H; [by injection H as <-|].
  destruct (g x) as [y|] eqn:Hy; [|done]. simpl in H. destruct (mapM g l) as [ys'|]; [|done].
  injection H as <-. constructor; eauto.
Qed.
Lemma forallb_levels n l : forallb (fun f => levels f <=? n)%nat l = (list_max (map levels l) <=? n)%nat.
Proof.
  induction l as [|f l IH]; [done|]. change (list_max (map levels (f :: l))) with (levels f `max` list_max (map levels l))%nat.
  simpl. rewrite IH. apply eq_bool_prop_intro. rewrite andb_True, !Is_true_true, !Nat.leb_le. lia.
Qed.
Lemma encodable_Forall parts : foldr (fun p acc => encodable p /\ acc) True parts -> Forall encodable parts.
Proof. induction parts; simpl; [constructor|]. intros [? ?]. constructor; auto. Qed.

Lemma bound_of_value b : bound_of (bound_value b) (bound_inclusive b) = b.
Proof. by destruct b. Qed.

(** One message of either form, the levels below it converted alike. *)
Lemma convert_pb_levels room f : encodable f ->
  convert_pb_filter room (to_pb f) = if (levels f <=? room)%nat then Ok f else Err too_deep.
Proof.
  revert f. induction room as [|room IH]; intros f Hf.
  { by destruct f. }
  assert (Hl : forall l, Forall encodable l ->
    mapM (convert_pb_filter room) (map to_pb l) = if (list_max (map levels l) <=? room)%nat then Ok l else Err too_deep).
  { intros l H. rewrite <- forallb_levels, (mapM_checked _ _ Datatypes.id (fun f => levels f <=? room)%nat too_deep).
    - by rewrite ?List.map_id.
    - eapply Forall_impl; [exact H|]. intros g Hg. by apply IH. }
  destruct f as [field v|field lo hi| |parts|parts|inner]; simpl in *.
  - by rewrite Hf.
  - by rewrite !bound_of_value.
  - done.
  - rewrite Hl by by apply encodable_Forall. by case_match.
  - rewrite Hl by by apply encodable_Forall. by case_match.
  - rewrite IH by done. by case_match.
Qed.

Lemma range_fields field lo hi : bound_ok lo -> bound_ok hi ->
  let obj := [("field", String_ field); ("op", String_ "range")] ++
    bound_fields "low" "low_inclusive" lo ++ bound_fields "high" "high_inclusive" hi in
  bound_of (obj_get obj "low" ≫= value_as_f64) (default true (obj_get obj "low_inclusive" ≫= as_bool)) = lo /\
  bound_of (obj_get obj "high" ≫= value_as_f64) (default true (obj_get obj "high_inclusive" ≫= as_bool)) = hi.
Proof. unfold bound_ok. destruct lo, hi; simpl; intros Hl Hh; rewrite ?Hl, ?Hh; done. Qed.

Lemma convert_json_levels room f : encodable f ->
  convert_json_filter room (to_json f) = if (levels f <=? room)%nat then Ok f else Err too_deep.
Proof.
  revert f. induction room as [|room IH]; intros f Hf.
  { by destruct f. }
  assert (Hl : forall l, Forall encodable l ->
    mapM (convert_json_filter room) (map to_json l) = if (list_max (map levels l) <=? room)%nat then Ok l else Err too_deep).
  { intros l H. rewrite <- forallb_levels, (mapM_checked _ _ Datatypes.id (fun f => levels f <=? room)%nat too_deep).
    - by rewrite ?List.map_id.
    - eapply Forall_impl; [exact H|]. intros g Hg. by apply IH. }
  destruct f as [field v|field lo hi| |parts|parts|inner].
  - done.
  - destruct Hf as [Hlo Hhi]. destruct (range_fields field lo hi Hlo Hhi) as [E1 E2].
    cbn -[bound_fields bound_of obj_get]. cbn -[bound_fields bound_of obj_get] in E1, E2.
    change (obj_get (("field", String_ field) :: ("op", String_ "range") :: ?l) "op") with (Some (@String_ Num "range")).
    by rewrite E1, E2.
  - done.
  - simpl. rewrite Hl by by apply encodable_Forall. by case_match.
  - simpl. rewrite Hl by by apply encodable_Forall. by case_match.
  - simpl. rewrite IH by done. by case_match.
Qed.

Lemma collected_bounded {A E} (g : A -> Result E Filter) (c : list Filter -> Filter) room l f :
  (forall x y, g x = Ok y -> levels y <= room)%nat -> (forall fs, levels (c fs) = S (list_max (map levels fs))) ->
  c <$> mapM g l = Ok f -> (levels f <= S room)%nat.
Proof.
  intros Hg Hc E'. destruct (mapM g l) as [fs|] eqn:Hm; [|done]. injection E' as <-. rewrite Hc.
  apply le_n_S, List.list_max_le. apply (mapM_Forall g (fun f => levels f <= room)%nat) in Hm; [|done].
  apply List.Forall_map. by apply Hm.
Qed.

(** A range with a lower bound only, the inclusiveness left to its default (an absent [bool]
    of a protobuf message is false): JSON includes the bound, the message excludes it. *)
Lemma range_defaults_differ field low : as_f64 (num low) = Some low ->
  json_filter_to_storage (Object [("field", String_ field); ("op", String_ "range"); ("low", Number (num low))])
    = Ok (Some (Range field (Included low) Unbounded)) /\
  pb_filter_to_storage (Some (Pb (Some (KRange field (Some low) None false false))))
    = Ok (Some (Range field (Excluded low) Unbounded)).
Proof. intros H. unfold json_filter_to_storage. simpl. by rewrite H. Qed.

(** What was accepted is within the limit, and a rejection blames the caller. *)
Lemma convert_pb_bounded room m f : convert_pb_filter room m = Ok f -> (levels f <= room)%nat.
Proof.
  revert m f. induction room as [|room IH]; intros [kind] f H; [done|]. simpl in H.
  destruct kind as [[field j|? ? ? ? ?|? ?|l|l|inner]|]; simpl in H; [| | | | | |done].
  - destruct (from_str j); [|done]. injection H as <-. simpl. lia.
  - injection H as <-. simpl. lia.
  - injection H as <-. simpl. lia.
  - eapply (collected_bounded _ And); eauto.
  - eapply (collected_bounded _ Or); eauto.
  - destruct (convert_pb_filter room inner) as [g|] eqn:Hg; [|done]. injection H as <-. apply IH in Hg. simpl. lia.
Qed.

Lemma convert_json_bounded room v f : convert_json_filter room v = Ok f -> (levels f <= room)%nat.
Proof.
  revert v f. induction room as [|room IH]; intros v f H; [done|]. simpl in H.
  destruct (as_object v) as [obj|]; simpl in H; [|done].
  destruct (obj_get obj "op" ≫= as_str) as [op|]; simpl in H; [|done].
  repeat (let b := fresh in destruct (String.eqb op _) eqn:b; [clear b|clear b]); simpl in H; [..|done];
    repeat match type of H with context[ok_or ?o _] => destruct o; simpl in H; [|done] end.
  - injection H as <-. simpl. lia.
  - injection H as <-. simpl. lia.
  - injection H as <-. simpl. lia.
  - eapply (collected_bounded _ And); eauto.
  - eapply (collected_bounded _ Or); eauto.
  - destruct (convert_json_filter room v0) as [g|] eqn:Hg; [|done]. injection H as <-. apply IH in Hg. simpl. lia.
Qed.

Lemma mapM_rejects {A B E} (g : A -> Result E B) (P : E -> Prop) l er :
  (forall x e, g x = Err e -> P e) -> mapM g l = Err er -> P er.
Proof.
  intros HP. induction l as [|x l IH]; simpl; intros H; [done|].
  destruct (g x) as [y|e] eqn:Hx; simpl in H; [|injection H as <-; eauto].
  destruct (mapM g l); [done|]. injection H as <-. auto.
Qed.
Lemma ok_or_Err {A E} (o : option A) (er e : E) : ok_or o er = Err e -> e = er.
Proof. destruct o; simpl; congruence. Qed.
Definition invalid_filter (e : ApiError) : Prop := exists msg, e = InvalidFilter msg.

Ltac rejects H :=
  first
    [ done | injection H as <-; eexists; reflexivity
    | match type of H with
      | context [ok_or ?o _] => destruct o; simpl in H; rejects H
      | context [_ <$> ?m] => let E := fresh in destruct m eqn:E; simpl in H; [done|]; injection H as <-;
          first [solve [eauto] | eapply mapM_rejects; [|exact E]; eauto]
      end ].

Lemma convert_pb_rejects room m e : convert_pb_filter room m = Err e -> invalid_filter e.
Proof.
  revert m e. induction room as [|room IH]; intros [kind] e H; simpl in H; [rejects H|].
  destruct kind as [[]|]; simpl in H; rejects H.
Qed.
Lemma convert_json_rejects room v e : convert_json_filter room v = Err e -> invalid_filter e.
Proof.
  revert v e. induction room as [|room IH]; intros v e H; simpl in H; [rejects H|].
  destruct (as_object v) as [obj|]; simpl in H; [|rejects H].
  destruct (obj_get obj "op" ≫= as_str) as [op|]; simpl in H; [|rejects H].
  repeat (let b := fresh in destruct (String.eqb op _) eqn:b; [clear b; rejects H|clear b]). rejects H.
Qed.

Lemma filters_converted f : encodable f ->
  let r := if (levels f <=? MAX_FILTER_DEPTH)%nat then Ok (Some f) else Err too_deep in
  json_filter_to_storage (to_json f) = r /\ pb_filter_to_storage (Some (to_pb f)) = r.
Proof.
  intros Hf r. split.
  - trans (Some <$> convert_json_filter MAX_FILTER_DEPTH (to_json f)); [by destruct f|].
    rewrite (convert_json_levels MAX_FILTER_DEPTH f Hf). unfold r. by destruct (_ <=? _)%nat.
  - unfold pb_filter_to_storage. rewrite (convert_pb_levels MAX_FILTER_DEPTH f Hf). unfold r. by destruct (_ <=? _)%nat.
Qed.

(** Accepted within the limit, or refused as the caller's mistake. *)
Definition sound (r : Result ApiError (option Filter)) : Prop :=
  match r with
  | Ok (Some g) => (levels g <= MAX_FILTER_DEPTH)%nat
  | Ok None => True
  | Err e => status_and_code e = (400, "invalid_argument") /\ status_from e = CInvalidArgument
  end.
Lemma json_sound v : sound (json_filter_to_storage v).
Proof.
  assert (H : sound (Some <$> convert_json_filter MAX_FILTER_DEPTH v)).
  { destruct (convert_json_filter MAX_FILTER_DEPTH v) eqn:E; simpl.
    - by apply convert_json_bounded in E.
    - by apply convert_json_rejects in E as [msg ->]. }
  by destruct v.
Qed.
Lemma pb_sound m : sound (pb_filter_to_storage m).
Proof.
  destruct m as [m|]; [|done]. unfold pb_filter_to_storage. destruct (convert_pb_filter MAX_FILTER_DEPTH m) eqn:E; simpl.
  - by apply convert_pb_bounded in E.
  - by apply convert_pb_rejects in E as [msg ->].
Qed.

(** C36: Whatever a client sends is converted or refused as an invalid argument (400), and what is
    accepted nests at most 32 levels. A filter written as JSON or as a protobuf message is
    converted back to that filter by both, up to 32 levels, and refused by both beyond. *)
Theorem filter_encodings_agree f : encodable f ->
  (json_filter_to_storage (to_json f) = if (levels f <=? MAX_FILTER_DEPTH)%nat then Ok (Some f) else Err too_deep) /\
  (pb_filter_to_storage (Some (to_pb f)) = if (levels f <=? MAX_FILTER_DEPTH)%nat then Ok (Some f) else Err too_deep) /\
  (forall v, sound (json_filter_to_storage v)) /\ (forall m, sound (pb_filter_to_storage m)).
Proof.
  intros Hf. destruct (filters_converted f Hf). auto using json_sound, pb_sound.
Qed.
End filters.

(** ** Authentication *)

Lemma constant_time_eq_spec a b : constant_time_eq a b = true <-> a = b.
Proof.
  assert (H : forall a b d, length a = length b ->
    foldl (fun diff p => N.lor diff (N.lxor (Byte.to_N p.1) (Byte.to_N p.2))) d (zip a b) = 0 <-> d = 0 /\ a = b).
  { clear. induction a as [|x a IH]; intros [|y b] d Hl; simpl in *; try done; [naive_solver|].
    rewrite IH by lia. rewrite N.lor_eq_0_iff, N.lxor_eq_0_iff. split.
    - intros [[-> E] ->]. split; [done|]. f_equal.
      rewrite <- (byte_of_N_to_N x), <- (byte_of_N_to_N y). by rewrite E.
    - intros [-> E]. by injection E as -> ->. }
  unfold constant_time_eq. destruct (Nat.eqb_spec (length a) (length b)) as [Hl|Hl]; simpl.
  - rewrite N.eqb_eq, H by done. naive_solver.
  - split; [done|]. intros ->. done.
Qed.

Lemma strip_prefix_spec p s t : strip_prefix p s = Some t <-> s = p +:+ t.
Proof.
  revert s. induction p as [|a p IH]; intros s; simpl; [split; [by intros [= ->]|by intros ->]|].
  destruct s as [|b s]; [done|]. destruct (Ascii.eqb_spec a b) as [->|Hab].
  - rewrite IH. split; [by intros ->|]. intros E. by injection E.
  - split; [done|]. intros [= E _]. done.
Qed.

Lemma list_byte_inj s t : String.list_byte_of_string s = String.list_byte_of_string t -> s = t.
Proof.
  intros E. rewrite <- (String.string_of_list_byte_of_string s), <- (String.string_of_list_byte_of_string t).
  by rewrite E.
Qed.

(** A request passes exactly when no key, or an empty one, is configured, or when its header is
    "Bearer " and the key: the constant-time comparison is equality. *)
Lemma authorized_exactly key header :
  is_authorized (auth_new key) header = true <->
  match key with
  | None => True
  | Some k => k = "" \/ header = Some ("Bearer " +:+ k)
  end.
Proof.
  destruct key as [k|]; [|done]. unfold auth_new. destruct (decide (k = "")) as [->|Hk]; [naive_solver|].
  unfold is_authorized. destruct header as [h|]; [|simpl; naive_solver].
  change (Some h ≫= fun h => strip_prefix "Bearer " h) with (strip_prefix "Bearer " h).
  destruct (strip_prefix "Bearer " h) as [token|] eqn:Ht.
  - apply strip_prefix_spec in Ht as ->. rewrite constant_time_eq_spec. split.
    + intros E%list_byte_inj. subst. auto.
    + intros [?|E]; [done|]. injection E as E. by assert (token = k) as -> by exact E.
  - split; [done|]. intros [?|E]; [done|]. injection E as ->.
    assert (strip_prefix "Bearer " ("Bearer " +:+ k) = Some k) by by apply strip_prefix_spec. congruence.
Qed.

(** [validate_batch_lengths] accepts exactly the arrays the engine does. *)
Lemma validate_batch_lengths_ok ids texts embeddings scores concepts payloads scopes source_roles :
  is_ok (validate_batch_lengths ids texts embeddings scores concepts payloads scopes source_roles) = true <->
  texts = ids /\ embeddings = ids /\ scores = ids /\ concepts = ids /\
  (payloads = 0 \/ payloads = ids) /\ (scopes = 0 \/ scopes = ids) /\ (source_roles = 0 \/ source_roles = ids).
Proof.
  unfold validate_batch_lengths. rewrite !filter_cons, !filter_nil. simpl.
  repeat case_decide; simpl; intuition (try done); lia.
Qed.

(** ** A filter of both kinds, sent both ways *)

Module ApiWitness.
(** Numbers as doubles; the text of a string is the string in quotes. *)
Definition quote : Ascii.ascii := ascii_of_N 34.
Fixpoint unquote (s : string) : option string :=
  match s with
  | String c EmptyString => if Ascii.eqb c quote then Some "" else None
  | String c s => String c <$> unquote s
  | EmptyString => None
  end.
#[local] Instance ex_json : SerdeJson := {|
  Num := N; as_f64 n := Some n; num_to_string := u64_to_string;
  value_to_string v := match v with String_ s => String quote (s +:+ String quote "") | _ => "null" end;
  from_str s := match s with
                | String c s => if Ascii.eqb c quote then String_ <$> unquote s else Some Null
                | EmptyString => None
                end;
|}.
Definition ex_num (n : N) : Num := n.
Definition ex_filter : Filter :=
  And [Eq_ "tag" (String_ "ai"); Not (Or [Range "year" (Excluded 0x4024000000000000) Unbounded; FullText "text" "rust"])].
Fixpoint nested (n : nat) : Filter := match n with O => ex_filter | S n => Not (nested n) end.
Lemma nested_encodable n : encodable ex_num (nested n).
Proof. induction n as [|n IH]; [|exact IH]. vm_compute. repeat split. Defined.

Lemma filter_encodings_agree_witness :
  json_filter_to_storage (to_json ex_num (nested 28)) = Ok (Some (nested 28)) /\
  pb_filter_to_storage (Some (to_pb (nested 28))) = Ok (Some (nested 28)) /\
  json_filter_to_storage (to_json ex_num (nested 29)) = Err too_deep /\
  pb_filter_to_storage (Some (to_pb (nested 29))) = Err too_deep.
Proof.
  destruct (filter_encodings_agree ex_num (nested 28) (nested_encodable 28)) as (A1 & A2 & _).
  destruct (filter_encodings_agree ex_num (nested 29) (nested_encodable 29)) as (B1 & B2 & _).
  exact (conj A1 (conj A2 (conj B1 B2))).
Defined.
End ApiWitness.
