(* ===== verification/ApiServer.v ===== *)
(** * The handlers of the server, [crates/turbomemory_api/src/{rest,grpc,service}.rs]

    One definition per handler of each transport, over the engine: a request that does not
    carry the configured key never reaches it ([only_the_key_passes]), and the two
    transports give the same answers and leave the same engine ([transports_agree]). What
    axum, tonic and serde do before a handler runs (routing, decoding a body into its
    fields) is not modelled: a request is its fields. *)

From S2P Require Import Prelude Core Floats Vocabulary Metrics Record Wal VectorStore MetadataStore AccessCounters ScopeIndex PayloadIndex Segments SegmentHolder Optimizer Engine Recovery SegmentSearch TopOf Search Bm25 Extract Ccs Config Retention Belief Consolidation ApiService.
#[local] Open Scope turbo_scope.

(** ** Messages *)

(** [InsertBatchReq] and [InsertBatchRequest]. *)
Record BatchReq := {
  q_ids : list string; q_texts : list string; q_embeddings : list (list f32); q_scores : list f32;
  q_concepts : list (list string); q_payloads : list string; q_scopes : list string; q_source_roles : list string }.

(** The routes and their fields; [F] is the type of the field [filter]. *)
Inductive Request (F : Type) :=
  | Health
  | Insert (req : WriteInput)
  | InsertBatch (req : BatchReq)
  | Delete (id : string)
  | Update (req : WriteInput)
  | GetPayload (id : string)
  | Search (query_text : string) (query_embedding : list f32) (top_k : N) (filter : F) (scope : option string)
  | SearchAnn (query_embedding : list f32) (top_k : N) (filter : F) (scope : option string)
  | StepSession (user_input assistant_response : string)
  | TriggerConsolidation
  | Flush.
Arguments Health {F}. Arguments Insert {F}. Arguments InsertBatch {F}. Arguments Delete {F}. Arguments Update {F}.
Arguments GetPayload {F}. Arguments Search {F}. Arguments SearchAnn {F}. Arguments StepSession {F}.
Arguments TriggerConsolidation {F}. Arguments Flush {F}.

Record ScoredMemory := { sm_id : string; sm_score : f32 }.
Definition map_results (results : list (string * f32)) : list ScoredMemory :=
  map (fun r => {| sm_id := r.1; sm_score := r.2 |}) results.

Inductive RestResponse :=
  | HealthResp (status : string)
  | InsertResp (success : bool)
  | InsertBatchResp (count : N)
  | DeleteResp (success : bool)
  | UpdateResp (success : bool)
  | GetPayloadResp (found : bool) (payload : option string)
  | SearchResp (results : list ScoredMemory) (gated : bool)
  | StepSessionResp (ccs_json : string)
  | ConsolidationResp (sealed compacted : N)
  | FlushResp.

(** [pb::ScoredMemory]: the payload is never filled in. *)
Record PbScoredMemory := { pb_id : string; pb_score : f32; pb_payload : option string }.
Definition to_pb_results (results : list ScoredMemory) : list PbScoredMemory :=
  map (fun s => {| pb_id := sm_id s; pb_score := sm_score s; pb_payload := None |}) results.

Inductive GrpcResponse :=
  | HealthResponse (status : string)
  | InsertResponse (success : bool)
  | InsertBatchResponse (count : N)
  | DeleteResponse (success : bool)
  | UpdateResponse (success : bool)
  | GetPayloadResponse (found : bool) (payload : string)
  | SearchResponse (results : list PbScoredMemory) (gated : bool)
  | StepSessionResponse (ccs_json : string)
  | TriggerConsolidationResponse (sealed compacted : N)
  | FlushResponse (success : bool).

(** What the clock, the disk and the rest of the process do during one request. *)
Record Env := {
  v_now : N; v_write : WriteIo; v_flush : FlushIo; v_cycle : CycleIo; v_snapshot : SegmentSnapshot;
  v_compressor : Compressor; v_gist : option GistCompressor; v_gist_seq : N; v_watermark : N }.

(** An empty optional array is no array. *)
Definition optional (l : list string) : list (option string) :=
  match l with [] => [] | _ => map Some l end.

Section server.
Context (en : Endian) {HC : Crc32} {BW : Bincode WalOp} {BM : Bincode MetaRecord} {BH : Bincode (list N)}
  {SJ : SerdeJson} {JS : JsonSyntax} {GO : GraphOps} {TO : TextOps} {RG : RetentionGraph}
  {U : Unicode} {LM : Libm} {HI : HashIter} {RI : RecordIter}
  {K : Kernels} {B1 : BinaryHeap rev_heap_le} {B2 : BinaryHeap item_le} {SN : SelectNth best_first}
  {SG : SearchGraph} {ST_ : SearchText} {GPU : GpuExact} {BG : BeliefGraph} {LG : LearningGraph} {CJ : CcsJson}.
Context (cfg : Config.StoreConfig) (v : Env).

(** ** Handlers: the engine's results, and errors of the service *)

Definition Api (A : Type) : Type := Engine -> option (Engine * Result ApiError A).
Definition api_ret {A} (a : A) : Api A := fun e => Some (e, Ok a).
Definition api_bind {A B} (m : Api A) (f : A -> Api B) : Api B := fun e =>
  '(e, r) ← m e; match r with Ok a => f a e | Err er => Some (e, Err er) end.
Definition check {A} (r : Result ApiError A) : Api A := fun e => Some (e, r).
(** [map_err(ApiError::from)?]. *)
Definition st {A} (m : ST Engine A) : Api A := fun e => let '(e, r) := m e in Some (e, map_err Storage r).
Definition sm {A} (m : SM A) : Api A := fun e => '(e, r) ← m e; Some (e, map_err Storage r).
#[local] Notation "'do!' x ':=' m 'in' k" := (api_bind m (fun x => k))
  (at level 10, x pattern, m at level 100, k at level 200).

Abbreviation scfg := (search_config cfg).
Abbreviation find_filtered text query top_k f scope :=
  (search_filtered_with_scope en scfg (v_snapshot v) text query top_k f None scope (v_now v)).
Abbreviation find text query top_k scope := (search_scoped en scfg (v_snapshot v) text query top_k scope (v_now v)).
Abbreviation find_ann_filtered query top_k f scope :=
  (search_ann_candidates_filtered_with_ef en scfg (v_snapshot v) query top_k (Some f) None scope (v_now v)).
Abbreviation find_ann query top_k scope :=
  (search_ann_scoped en scfg (v_snapshot v) query top_k None scope (v_now v)).
Definition batch_of (req : BatchReq) : BatchInput := {|
  ids := q_ids req; texts := q_texts req; embeddings := q_embeddings req; importances := q_scores req;
  concept_lists := q_concepts req; payloads := optional (q_payloads req); scope_list := optional (q_scopes req);
  source_roles := optional (q_source_roles req) |}.
Definition lengths_of (req : BatchReq) : Result ApiError unit :=
  validate_batch_lengths (len (q_ids req)) (len (q_texts req)) (len (q_embeddings req)) (len (q_scores req))
    (len (q_concepts req)) (len (q_payloads req)) (len (q_scopes req)) (len (q_source_roles req)).

(** ** REST, [rest.rs] *)

Definition rest_health : Api RestResponse := api_ret (HealthResp "ok").
Definition rest_insert (req : WriteInput) : Api RestResponse :=
  do! success := st (insert_with_payload_role en req (v_now v) (v_write v)) in
  api_ret (InsertResp success).
Definition rest_insert_batch (req : BatchReq) : Api RestResponse :=
  do! _ := check (lengths_of req) in
  do! count := st (insert_batch_with_payload_role en (batch_of req) (v_now v) (v_write v)) in
  api_ret (InsertBatchResp count).
Definition rest_delete (i : string) : Api RestResponse :=
  do! success := st (delete_by_id i (v_write v)) in
  api_ret (DeleteResp success).
Definition rest_update (req : WriteInput) : Api RestResponse :=
  do! success := st (update_with_payload_role en req (v_now v) (v_write v)) in
  api_ret (UpdateResp success).
Definition rest_get_payload (i : string) : Api RestResponse := fun e =>
  match get_payload e i with
  | Some payload => api_ret (GetPayloadResp true (Some payload)) e
  | None => api_ret (GetPayloadResp false None) e
  end.
Definition rest_search (text : string) (query : list f32) (top_k : N) (filter : Value Num) (scope : option string)
    : Api RestResponse :=
  do! filter := check (json_filter_to_storage filter) in
  do! maybe := match filter with
               | Some f => sm (find_filtered text query top_k f scope)
               | None => sm (find text query top_k scope)
               end in
  match maybe with
  | Some results => api_ret (SearchResp (map_results results) false)
  | None => api_ret (SearchResp [] true)
  end.
Definition rest_search_ann (query : list f32) (top_k : N) (filter : Value Num) (scope : option string)
    : Api RestResponse :=
  do! filter := check (json_filter_to_storage filter) in
  do! results := match filter with
                 | Some f => sm (find_ann_filtered query top_k f scope)
                 | None => sm (find_ann query top_k scope)
                 end in
  api_ret (SearchResp (map_results results) false).
Definition rest_step_session (user_input assistant_response : string) : Api RestResponse :=
  do! ccs_json := st (Consolidation.step_session (v_compressor v) user_input assistant_response (v_flush v)) in
  api_ret (StepSessionResp ccs_json).
Definition rest_trigger_consolidation : Api RestResponse :=
  do! r := sm (trigger_consolidation en cfg (v_gist v) (v_gist_seq v) (v_watermark v) (v_cycle v)) in
  let '(sealed, compacted, _, _, _) := r in
  api_ret (ConsolidationResp sealed compacted).
Definition rest_flush : Api RestResponse :=
  do! _ := st (Recovery.flush en (v_flush v)) in
  api_ret FlushResp.

Definition rest_route (q : Request (Value Num)) : Api RestResponse :=
  match q with
  | Health => rest_health
  | Insert req => rest_insert req
  | InsertBatch req => rest_insert_batch req
  | Delete i => rest_delete i
  | Update req => rest_update req
  | GetPayload i => rest_get_payload i
  | Search text query top_k filter scope => rest_search text query top_k filter scope
  | SearchAnn query top_k filter scope => rest_search_ann query top_k filter scope
  | StepSession user_input assistant_response => rest_step_session user_input assistant_response
  | TriggerConsolidation => rest_trigger_consolidation
  | Flush => rest_flush
  end.
(** [require_auth] around the router; an error becomes its status and code. *)
Definition rest_serve (auth : ApiAuth) (header : option string) (q : Request (Value Num)) (e : Engine)
    : option (Engine * Result (N * string) RestResponse) :=
  if is_authorized auth header then '(e, r) ← rest_route q e; Some (e, map_err status_and_code r)
  else Some (e, Err unauthenticated_response).

(** ** gRPC, [grpc.rs] *)

Definition grpc_health : Api GrpcResponse := api_ret (HealthResponse "ok").
Definition grpc_insert (req : WriteInput) : Api GrpcResponse :=
  do! success := st (insert_with_payload_role en req (v_now v) (v_write v)) in
  api_ret (InsertResponse success).
Definition grpc_insert_batch (req : BatchReq) : Api GrpcResponse :=
  do! _ := check (lengths_of req) in
  do! count := st (insert_batch_with_payload_role en (batch_of req) (v_now v) (v_write v)) in
  api_ret (InsertBatchResponse (as_u32 count)).
Definition grpc_delete (i : string) : Api GrpcResponse :=
  do! success := st (delete_by_id i (v_write v)) in
  api_ret (DeleteResponse success).
Definition grpc_update (req : WriteInput) : Api GrpcResponse :=
  do! success := st (update_with_payload_role en req (v_now v) (v_write v)) in
  api_ret (UpdateResponse success).
Definition grpc_get_payload (i : string) : Api GrpcResponse := fun e =>
  match get_payload e i with
  | Some payload => api_ret (GetPayloadResponse true payload) e
  | None => api_ret (GetPayloadResponse false "") e
  end.
Definition grpc_search (text : string) (query : list f32) (top_k : N) (filter : option PbFilter) (scope : option string)
    : Api GrpcResponse :=
  do! filter := check (pb_filter_to_storage filter) in
  do! maybe := match filter with
               | Some f => sm (find_filtered text query top_k f scope)
               | None => sm (find text query top_k scope)
               end in
  match maybe with
  | Some results => api_ret (SearchResponse (to_pb_results (map_results results)) false)
  | None => api_ret (SearchResponse [] true)
  end.
Definition grpc_search_ann (query : list f32) (top_k : N) (filter : option PbFilter) (scope : option string)
    : Api GrpcResponse :=
  do! filter := check (pb_filter_to_storage filter) in
  do! results := match filter with
                 | Some f => sm (find_ann_filtered query top_k f scope)
                 | None => sm (find_ann query top_k scope)
                 end in
  api_ret (SearchResponse (to_pb_results (map_results results)) false).
Definition grpc_step_session (user_input assistant_response : string) : Api GrpcResponse :=
  do! ccs_json := st (Consolidation.step_session (v_compressor v) user_input assistant_response (v_flush v)) in
  api_ret (StepSessionResponse ccs_json).
Definition grpc_trigger_consolidation : Api GrpcResponse :=
  do! r := sm (trigger_consolidation en cfg (v_gist v) (v_gist_seq v) (v_watermark v) (v_cycle v)) in
  let '(sealed, compacted, _, _, _) := r in
  api_ret (TriggerConsolidationResponse (as_u32 sealed) (as_u32 compacted)).
Definition grpc_flush : Api GrpcResponse :=
  do! _ := st (Recovery.flush en (v_flush v)) in
  api_ret (FlushResponse true).

Definition grpc_call (q : Request (option PbFilter)) : Api GrpcResponse :=
  match q with
  | Health => grpc_health
  | Insert req => grpc_insert req
  | InsertBatch req => grpc_insert_batch req
  | Delete i => grpc_delete i
  | Update req => grpc_update req
  | GetPayload i => grpc_get_payload i
  | Search text query top_k filter scope => grpc_search text query top_k filter scope
  | SearchAnn query top_k filter scope => grpc_search_ann query top_k filter scope
  | StepSession user_input assistant_response => grpc_step_session user_input assistant_response
  | TriggerConsolidation => grpc_trigger_consolidation
  | Flush => grpc_flush
  end.
(** [auth_interceptor] around the service; an error becomes a status. *)
Definition grpc_serve (auth : ApiAuth) (header : option string) (q : Request (option PbFilter)) (e : Engine)
    : option (Engine * Result Code GrpcResponse) :=
  if is_authorized auth header then '(e, r) ← grpc_call q e; Some (e, map_err status_from r)
  else Some (e, Err CUnauthenticated).

(** ** One request on both transports *)

Section agreement.
Context (num : N -> Num).
Definition with_filter {F G} (enc : F -> G) (q : Request F) : Request G :=
  match q with
  | Health => Health
  | Insert req => Insert req
  | InsertBatch req => InsertBatch req
  | Delete i => Delete i
  | Update req => Update req
  | GetPayload i => GetPayload i
  | Search text query top_k filter scope => Search text query top_k (enc filter) scope
  | SearchAnn query top_k filter scope => SearchAnn query top_k (enc filter) scope
  | StepSession user_input assistant_response => StepSession user_input assistant_response
  | TriggerConsolidation => TriggerConsolidation
  | Flush => Flush
  end.
Definition as_rest (q : Request (option Filter)) : Request (Value Num) :=
  with_filter (fun f => match f with Some f => to_json num f | None => Null end) q.
Definition as_grpc (q : Request (option Filter)) : Request (option PbFilter) := with_filter (option_map to_pb) q.
Definition filter_of {F} (q : Request (option F)) : option F :=
  match q with Search _ _ _ f _ | SearchAnn _ _ f _ => f | _ => None end.

(** The answer of the other transport. *)
Definition to_grpc (r : RestResponse) : GrpcResponse :=
  match r with
  | HealthResp s => HealthResponse s
  | InsertResp b => InsertResponse b
  | InsertBatchResp n => InsertBatchResponse (as_u32 n)
  | DeleteResp b => DeleteResponse b
  | UpdateResp b => UpdateResponse b
  | GetPayloadResp found p => GetPayloadResponse found (default "" p)
  | SearchResp results gated => SearchResponse (to_pb_results results) gated
  | StepSessionResp j => StepSessionResponse j
  | ConsolidationResp sealed compacted => TriggerConsolidationResponse (as_u32 sealed) (as_u32 compacted)
  | FlushResp => FlushResponse true
  end.
Definition code_of (status : N * string) : Code :=
  if status.1 =? 400 then CInvalidArgument else if status.1 =? 404 then CNotFound
  else if status.1 =? 401 then CUnauthenticated else CInternal.
Definition as_grpc_answer (r : Result (N * string) RestResponse) : Result Code GrpcResponse :=
  match r with Ok r => Ok (to_grpc r) | Err s => Err (code_of s) end.

Lemma code_of_status er : status_from er = code_of (status_and_code er).
Proof. destruct er as [se| | |]; try done. unfold status_from, status_and_code. destruct (is_invalid_argument se); [done|]. by destruct se. Qed.

(** A handler and its counterpart: the same engine, the answer translated. *)
Definition matches (m : Api RestResponse) (m' : Api GrpcResponse) : Prop :=
  forall e, m' e = '(e, r) ← m e; Some (e, match r with Ok a => Ok (to_grpc a) | Err er => Err er end).
Lemma matches_ret a : matches (api_ret a) (api_ret (to_grpc a)).
Proof. done. Qed.
Lemma matches_bind {A} (m : Api A) f f' : (forall a, matches (f a) (f' a)) -> matches (api_bind m f) (api_bind m f').
Proof. intros Hf e. unfold api_bind. destruct (m e) as [[e' [a|er]]|]; [|done..]. apply Hf. Qed.
Lemma matches_check {A} (r : Result ApiError A) f f' :
  (forall a, r = Ok a -> matches (f a) (f' a)) -> matches (api_bind (check r) f) (api_bind (check r) f').
Proof. intros Hf e. unfold api_bind, check. destruct r as [a|er]; [|done]. by apply Hf. Qed.

Lemma filters_read f : (match f with Some f => encodable num f | None => True end) ->
  json_filter_to_storage (match f with Some f => to_json num f | None => Null end)
  = pb_filter_to_storage (option_map to_pb f).
Proof.
  destruct f as [f|]; [|done]. intros Hf.
  destruct (filters_converted num f Hf) as [E1 E2]. simpl option_map. by rewrite E1, E2.
Qed.

Lemma routes_match q : (match filter_of q with Some f => encodable num f | None => True end) ->
  matches (rest_route (as_rest q)) (grpc_call (as_grpc q)).
Proof.
  intros Hf. destruct q as [|req|req|i|req|i|text query top_k f scope|query top_k f scope|u r| |]; simpl.
  - apply matches_ret.
  - by apply matches_bind.
  - apply matches_bind. intros _. by apply matches_bind.
  - by apply matches_bind.
  - by apply matches_bind.
  - intros e. unfold grpc_get_payload, rest_get_payload. by destruct (get_payload e i).
  - unfold rest_search, grpc_search. rewrite (filters_read f Hf).
    apply matches_bind. intros filter. apply matches_bind. by intros [results|].
  - unfold rest_search_ann, grpc_search_ann. rewrite (filters_read f Hf).
    apply matches_bind. intros filter. by apply matches_bind.
  - by apply matches_bind.
  - apply matches_bind. by intros [[[[sealed compacted] ?] ?] ?].
  - by apply matches_bind.
Qed.

(** C35: The same request, with its filter as JSON on one transport and as a protobuf message on
    the other, gets the same answer from both — results, errors and refusals correspond — and
    leaves the same engine. *)
Theorem transports_agree auth header q e :
  (match filter_of q with Some f => encodable num f | None => True end) ->
  grpc_serve auth header (as_grpc q) e
  = '(e, r) ← rest_serve auth header (as_rest q) e; Some (e, as_grpc_answer r).
Proof.
  intros Hf. unfold grpc_serve, rest_serve. destruct (is_authorized auth header); [|done].
  rewrite (routes_match q Hf e). destruct (rest_route (as_rest q) e) as [[e' [a|er]]|]; simpl; [done| |done].
  by rewrite code_of_status.
Qed.
End agreement.

(** C37: With a key configured, a request whose header is not "Bearer " and that key is refused by
    both transports and the engine is left alone; a request with it, or any request when no
    key is configured, runs its handler. *)
Theorem only_the_key_passes key header q q' e :
  let passes := match key with None => True | Some k => k = "" \/ header = Some ("Bearer " +:+ k) end in
  (passes ->
    rest_serve (auth_new key) header q e = ('(e, r) ← rest_route q e; Some (e, map_err status_and_code r)) /\
    grpc_serve (auth_new key) header q' e = ('(e, r) ← grpc_call q' e; Some (e, map_err status_from r))) /\
  (~ passes ->
    rest_serve (auth_new key) header q e = Some (e, Err (401, "unauthenticated")) /\
    grpc_serve (auth_new key) header q' e = Some (e, Err CUnauthenticated)).
Proof.
  intros passes. unfold rest_serve, grpc_serve. destruct (is_authorized (auth_new key) header) eqn:A.
  - apply authorized_exactly in A. naive_solver.
  - split; [|done]. intros P. apply authorized_exactly in P. congruence.
Qed.
End server.
