(* ===== verification/ApiRun.v ===== *)
(** * Requests to a running server

    The server over the engine and the graph of the examples: one filtered search sent over
    both transports, and one without the key. *)

From S2P Require Import Prelude Core Floats Vocabulary Metrics Record Wal VectorStore MetadataStore AccessCounters ScopeIndex PayloadIndex Segments SegmentHolder Optimizer Engine Recovery Durability CrashSafety Steady EngineTheorems SegmentSearch TopOf Search SearchTheorems Isolation Bm25 Extract Ccs Config Graph GraphTheorems Activation Retention RetentionTheorems Belief BeliefTheorems EngineGraph Consolidation ConsolidationTheorems ConsolidationRun ApiService ApiServer.

Module ServerWitness.
Import AsciiText GraphWitness CcsWitness.
Import EngineTheorems.Examples SegmentSearchWitness TopOfWitness SearchWitness RetentionWitness BeliefWitness ConsolidationWitness.
Definition sv_num (n : N) : Num := n.
Definition sv_env : Env := {|
  v_now := 300; v_write := write_ok; v_flush := ex_flush; v_cycle := cw_io; v_snapshot := ex_none;
  v_compressor := det_compress; v_gist := None; v_gist_seq := 0; v_watermark := 0 |}.
Definition sv_cfg := cw_cfg None None None.
(** Every record but those with a year of at least 10. *)
Definition sv_query : Request (option Filter) :=
  SearchAnn [0x3F800000; 0] 5 (Some (Not (Range "year" (Included 0x4024000000000000) Unbounded))) None.
Definition sv_auth : ApiAuth := auth_new (Some "s3cret").
Definition sv_header : option string := Some "Bearer s3cret".
Definition sv_rest := rest_serve le sv_cfg sv_env sv_auth sv_header (as_rest sv_num sv_query) bw_e2.
Definition ids_found (r : option (Engine * Result (N * string) RestResponse)) : list string :=
  match r with Some (_, Ok (SearchResp l _)) => map sm_id l | _ => [] end.
Example sv_found : ids_found sv_rest = ["old"; "new"].
Proof. vm_compute. reflexivity. Qed.
Lemma transports_agree_witness :
  grpc_serve le sv_cfg sv_env sv_auth sv_header (as_grpc sv_query) bw_e2
    = ('(e, r) ← sv_rest; Some (e, as_grpc_answer r)) /\ ids_found sv_rest = ["old"; "new"].
Proof.
  split; [|exact sv_found]. unfold sv_rest.
  apply (transports_agree le sv_cfg sv_env sv_num sv_auth sv_header sv_query bw_e2). split; [reflexivity|exact I].
Defined.

(** A token that is a prefix of the key is refused, although the route would delete a record. *)
Lemma only_the_key_passes_witness :
  rest_serve le sv_cfg sv_env sv_auth (Some "Bearer s3cre") (Delete "old") bw_e2 = Some (bw_e2, Err (401, "unauthenticated")) /\
  sv_rest = ('(e, r) ← rest_route le sv_cfg sv_env (as_rest sv_num sv_query) bw_e2; Some (e, map_err status_and_code r)).
Proof.
  unfold sv_rest, sv_auth. split.
  - apply (only_the_key_passes le sv_cfg sv_env (Some "s3cret") (Some "Bearer s3cre") (Delete "old") Health bw_e2).
    intros [H|H]; discriminate H.
  - apply (only_the_key_passes le sv_cfg sv_env (Some "s3cret") sv_header (as_rest sv_num sv_query) Health bw_e2).
    right. reflexivity.
Defined.
End ServerWitness.
