(* ===== verification/EngineApi.v ===== *)
(** * The engine's public entry points

    The shorter forms of the writes ([engine/write.rs]), the partial flushes, and the
    decision to use the device mirror ([engine/mod.rs]). Flushing a part keeps the store
    ([partial_flush_keeps]); the mirror is decided on once ([mirror_decided_once]). *)

From S2P Require Import Prelude Core Record Gpu Wal VectorStore MetadataStore AccessCounters ScopeIndex PayloadIndex Segments SegmentHolder Optimizer Engine Recovery Durability CrashSafety Steady EngineTheorems GpuMirror Config.
#[local] Open Scope turbo_scope.

Section writes.
Context (en : Endian) {BW : Bincode WalOp} {HC : Crc32} {SJ : SerdeJson} {JS : JsonSyntax} {GO : GraphOps} {TO : TextOps}.

Definition insert_with_payload (i text : string) (embedding : list f32) (importance : f32) (cs : list string)
    (p sc : option string) (now : N) (io : WriteIo) : ST Engine bool :=
  insert_with_payload_role en {| i_id := i; i_text := text; i_embedding := embedding; i_importance := importance;
    i_concepts := cs; i_payload := p; i_scope := sc; i_source_role := None |} now io.
Definition insert (i text : string) (embedding : list f32) (importance : f32) (cs : list string) (now : N) (io : WriteIo)
    : ST Engine bool := insert_with_payload i text embedding importance cs None None now io.
Definition update_with_payload (i text : string) (embedding : list f32) (importance : f32) (cs : list string)
    (p sc : option string) (now : N) (io : WriteIo) : ST Engine bool :=
  update_with_payload_role en {| i_id := i; i_text := text; i_embedding := embedding; i_importance := importance;
    i_concepts := cs; i_payload := p; i_scope := sc; i_source_role := None |} now io.
Definition update (i text : string) (embedding : list f32) (importance : f32) (cs : list string) (now : N) (io : WriteIo)
    : ST Engine bool := update_with_payload i text embedding importance cs None None now io.
Definition insert_batch_with_payload (idl ts : list string) (es : list (list f32)) (imps : list f32) (cs : list (list string))
    (ps scs : list (option string)) (now : N) (io : WriteIo) : ST Engine N :=
  insert_batch_with_payload_role en {| ids := idl; texts := ts; embeddings := es; importances := imps;
    concept_lists := cs; payloads := ps; scope_list := scs; source_roles := [] |} now io.
Definition insert_batch (idl ts : list string) (es : list (list f32)) (imps : list f32) (cs : list (list string))
    (now : N) (io : WriteIo) : ST Engine N := insert_batch_with_payload idl ts es imps cs [] [] now io.

(** [flush_vectors] and [flush_wal], the latter a [sync_data] of the log. *)
Definition flush_vectors (synced : bool) : ST Engine unit := on vectors set_vectors (VectorStore.flush en synced).
Definition flush_wal (synced : bool) : ST Engine unit := Recovery.check_io synced.
End writes.

(** ** Partial flushes keep the store *)

Section partial_flush.
Context (en : Endian) {HC : Crc32} {BW : Bincode WalOp} {BW1 : Bincode WalOpV1}
  {BM : Bincode MetaRecord} {BH : Bincode (list N)} {BMo : BincodeOk MetaRecord} {BHo : BincodeOk (list N)}
  {BMt : BincodeTotal MetaRecord} {BHt : BincodeTotal (list N)} {BWo : BincodeOk WalOp} {BWt : BincodeTagged WalOp}
  {SJ : SerdeJson} {JS : JsonSyntax} {GO : GraphOps} {TO : TextOps}.

(** Stamping the count of vectors without the metadata snapshot, which the crash tests do. *)
Lemma partial_flush_keeps e S stamped synced e1 r1 e2 r2 : eng_rep en e S ->
  flush_vectors en stamped e = (e1, r1) -> flush_wal synced e1 = (e2, r2) ->
  is_ok r1 = stamped /\ eng_rep en e2 S /\ files_hold en (is_fresh (meta e) = false) e2 S.
Proof.
  intros He H1 H2. pose proof He as ((ops & m0 & hc & [Hco Hw Hd Hq Hid]) & Hm & HS).
  assert (Hph : phase en e e S false) by (apply (phase_start en e S e); auto; apply Hco).
  assert (e2 = e1) as -> by (unfold flush_wal, check_io in H2; congruence).
  unfold flush_vectors, on in H1. destruct (core_vs_flush en stamped _ _ _ _ _ Hco Hm) as (vs' & Hf & Hc' & M & Dd & Sl & C & L).
  rewrite Hf in H1. injection H1 as <- <-.
  assert (Hph1 : phase en e (set_vectors vs' e) S false).
  { destruct Hph as [P1 P2 P3 P4 P5 P6 P7 P8]. split; auto.
    - by apply (means_slots en (meta e) (vectors e) vs' ops m0 hc).
    - exists ops, m0, (VectorStore.count vs'). split_and!; auto; [|done].
      intros Hfr hc'. rewrite <- (app_nil_r ops). by apply (fresh_guard en (meta e) (vectors e) ops m0 hc). }
  split; [by destruct stamped|]. split; [by eapply phase_rep|]. by eapply phase_files.
Qed.
End partial_flush.

(** ** The device mirror *)

Section mirror.
Context {B : GpuBackend}.

(** The cell [gpu_exact]: [None] before the first use, then the decision. *)
Definition gpu_exact (cfg : Config.StoreConfig) (cell : option (option GpuExactIndex)) : option (option GpuExactIndex) :=
  match cell with
  | Some _ => cell
  | None =>
      if negb (gpu_exact_search (tier cfg)) then Some None
      else if negb (is_gpu_accelerated B) && negb (gpu_exact_on_cpu_backend (tier cfg)) then Some None
      else Some (Some (new_index (Config.dimension cfg) (gpu_memory_budget_mb (tier cfg))))
  end.
Definition gpu_search_stats (cell : option (option GpuExactIndex)) : option GpuSearchStats :=
  g ← cell; GpuMirror.stats <$> g.

Lemma mirror_decided_once cfg cfg' cell : gpu_exact cfg' (gpu_exact cfg cell) = gpu_exact cfg cell.
Proof. destruct cell; [done|]. simpl. by repeat case_match. Qed.
(** Without a device, and without the emulation on the host, there is none. *)
Lemma no_device_no_mirror cfg : is_gpu_accelerated B = false -> gpu_exact_on_cpu_backend (tier cfg) = false ->
  gpu_search_stats (gpu_exact cfg None) = None.
Proof. intros H1 H2. simpl. rewrite H1, H2. by destruct (gpu_exact_search (tier cfg)). Qed.
End mirror.
