(* ===== verification/UpdateQueue.v ===== *)
(** * The update worker and its queue, [crates/turbomemory_storage/src/update_worker.rs]

    Threads send batches over a bounded channel and wait; one thread applies them. The
    system is a step relation over all interleavings, with the worker stopped at any
    moment. Each call behaves as in [Engine.submit_and_wait]: its batch is applied as a
    whole, once, at one point of a common order, and the call returns that result; or it is
    not applied at all and the call returns an error ([submits_atomic]); and no call waits for a
    worker that will not answer ([no_call_stuck]). *)

From S2P Require Import Prelude Core Metrics Record Wal VectorStore MetadataStore AccessCounters ScopeIndex PayloadIndex Segments SegmentHolder Optimizer Engine Recovery Durability CrashSafety Steady EngineTheorems.
#[local] Open Scope turbo_scope.

Section queue.
Context {SJ : SerdeJson} {JS : JsonSyntax} {GO : GraphOps} {TO : TextOps}.

(** A caller of [submit_and_wait]: before the send, waiting for the answer, returned. *)
Inductive Caller := Calling | Waiting | Returned (r : Result StorageError unit).
(** [UpdateMsg], with the caller that holds the other end of the acknowledgement. *)
Inductive UpdateMsg := Batch (caller : nat) (records : list (N * Record_)) | Stop.
(** The loop of the worker: at the test of [running], at [recv], returned. *)
Inductive WorkerPc := AtTest | AtRecv | Gone.

Record System := {
  callers : list Caller;
  queue : list UpdateMsg;
  running : bool;
  worker : WorkerPc;
  engine : Engine;
}.
Definition set_callers (c : list Caller) (s : System) : System :=
  {| callers := c; queue := queue s; running := running s; worker := worker s; engine := engine s |}.
Definition set_queue (q : list UpdateMsg) (s : System) : System :=
  {| callers := callers s; queue := q; running := running s; worker := worker s; engine := engine s |}.
Definition set_worker (w : WorkerPc) (s : System) : System :=
  {| callers := callers s; queue := queue s; running := running s; worker := w; engine := engine s |}.

Definition disconnected : Result StorageError unit := Err (InvalidArgument "update worker disconnected").
Definition ack_lost : Result StorageError unit := Err (InvalidArgument "update worker acknowledgement lost").

(** The worker returns and its receiver is dropped: whoever is in the queue has lost the
    acknowledgement. *)
Definition lose (m : UpdateMsg) (c : list Caller) : list Caller :=
  match m with Batch i _ => <[i := Returned ack_lost]> c | Stop => c end.
Definition worker_exit (s : System) : System :=
  {| callers := foldr lose (callers s) (queue s); queue := []; running := running s; worker := Gone; engine := engine s |}.

(** [work]: the batch of each caller; [bound]: the capacity of the channel. *)
Context (work : list (list (N * Record_))) (bound : nat).

(** [worker_loop] *)
Inductive worker_step : System -> System -> Prop :=
  | step_test s :
      worker s = AtTest -> worker_step s (if running s then set_worker AtRecv s else worker_exit s)
  | step_batch s i rs q e' r :
      worker s = AtRecv -> queue s = Batch i rs :: q -> apply_batch rs (engine s) = (e', r) ->
      worker_step s {| callers := <[i := Returned r]> (callers s); queue := q; running := running s; worker := AtTest; engine := e' |}
  | step_stop s q :
      worker s = AtRecv -> queue s = Stop :: q -> worker_step s (worker_exit (set_queue q s)).
Inductive step : System -> System -> Prop :=
  | step_worker s s' : worker_step s s' -> step s s'
  (** [submit_and_wait] *)
  | step_send s i rs :
      callers s !! i = Some Calling -> work !! i = Some rs -> worker s <> Gone -> (length (queue s) < bound)%nat ->
      step s (set_callers (<[i := Waiting]> (callers s)) (set_queue (queue s ++ [Batch i rs]) s))
  | step_refused s i :
      callers s !! i = Some Calling -> worker s = Gone ->
      step s (set_callers (<[i := Returned disconnected]> (callers s)) s)
  (** [stop]: the flag, then the message. *)
  | step_clear s :
      step s {| callers := callers s; queue := queue s; running := false; worker := worker s; engine := engine s |}
  | step_shutdown s :
      worker s <> Gone -> (length (queue s) < bound)%nat -> step s (set_queue (queue s ++ [Stop]) s).

Inductive reachable (e0 : Engine) : System -> Prop :=
  | reach_start : reachable e0
      {| callers := map (fun _ => Calling) work; queue := []; running := true; worker := AtTest; engine := e0 |}
  | reach_step s s' : reachable e0 s -> step s s' -> reachable e0 s'.

(** The batches of [order], applied one after the other. *)
Definition batch (i : nat) : list (N * Record_) := default [] (work !! i).
Definition applied (e0 : Engine) (order : list nat) : Engine := foldl (fun e i => (apply_batch (batch i) e).1) e0 order.

(** What a returned call got: the result at its place in the order, or an error with its
    batch left out. *)
Definition answered (e0 : Engine) (order : list nat) (i : nat) (r : Result StorageError unit) : Prop :=
  (exists pre post, order = pre ++ i :: post /\ r = (apply_batch (batch i) (applied e0 pre)).2) \/
  ((i ∉ order) /\ (r = disconnected \/ r = ack_lost)).

(** The callers of the batches in the queue. *)
Definition senders (q : list UpdateMsg) : list nat := omap (fun m => match m with Batch i _ => Some i | Stop => None end) q.

Record queue_ok (e0 : Engine) (order : list nat) (s : System) : Prop := {
  qo_len : length (callers s) = length work;
  qo_engine : engine s = applied e0 order;
  qo_order : NoDup order;
  qo_queue : NoDup (senders (queue s));
  qo_waiting : forall i, callers s !! i = Some Waiting <-> i ∈ senders (queue s);
  qo_work : forall i rs, Batch i rs ∈ queue s -> work !! i = Some rs;
  qo_returned : forall i r, callers s !! i = Some (Returned r) -> answered e0 order i r;
  qo_done : forall i, i ∈ order -> exists r, callers s !! i = Some (Returned r);
  qo_gone : worker s = Gone -> queue s = [];
}.

(** ** The invariant *)

Lemma senders_snoc q m : senders (q ++ [m]) = senders q ++ senders [m].
Proof. apply omap_app. Qed.
Lemma in_senders q i : i ∈ senders q <-> exists rs, Batch i rs ∈ q.
Proof.
  unfold senders. rewrite list_elem_of_omap. split.
  - intros ([j rs|] & Hin & E); [|done]. injection E as ->. by exists rs.
  - intros [rs Hin]. by exists (Batch i rs).
Qed.
Lemma lose_all_length q c : length (foldr lose c q) = length c.
Proof. induction q as [|[i rs|] q IH]; simpl; rewrite ?length_insert; done. Qed.
Lemma lose_all_lookup q c j : (j < length c)%nat ->
  foldr lose c q !! j = if decide (j ∈ senders q) then Some (Returned ack_lost) else c !! j.
Proof.
  intros Hj. induction q as [|[i rs|] q IH]; simpl; [done| |exact IH].
  destruct (decide (j = i)) as [->|Hne].
  - rewrite list_lookup_insert_eq by (by rewrite lose_all_length). by rewrite decide_True by set_solver.
  - rewrite list_lookup_insert_ne, IH by congruence.
    destruct (decide (j ∈ senders q)); [rewrite decide_True by set_solver|rewrite decide_False by set_solver]; done.
Qed.
Lemma answered_snoc e0 order i j r : i <> j -> answered e0 order j r -> answered e0 (order ++ [i]) j r.
Proof.
  intros Hne [(pre & post & -> & ->)|[Hn Hr]]; [left; exists pre, (post ++ [i]); by rewrite <- app_assoc|right]. split; [|done]. set_solver.
Qed.
Lemma applied_snoc e0 order i : applied e0 (order ++ [i]) = (apply_batch (batch i) (applied e0 order)).1.
Proof. unfold applied. by rewrite foldl_app. Qed.

(** A caller changes while the batches applied and the queue stay. *)
Lemma ok_caller e0 order s i c q :
  queue_ok e0 order s -> callers s !! i = Some Calling -> worker s <> Gone \/ q = queue s ->
  (c = Waiting /\ exists rs, q = queue s ++ [Batch i rs] /\ work !! i = Some rs) \/ (c = Returned disconnected /\ q = queue s) ->
  queue_ok e0 order (set_callers (<[i := c]> (callers s)) (set_queue q s)).
Proof.
  intros [H1 H2 H3 H4 H5 H6 H7 H8 H9] Hi Hg Hc.
  assert (Hlt : (i < length (callers s))%nat) by (by eapply lookup_lt_Some).
  assert (Hq : i ∉ senders (queue s)) by (intros Hin; apply H5 in Hin; congruence).
  assert (Ho : i ∉ order) by (intros (r & Hr)%H8; congruence).
  split; cbn [callers queue running worker engine set_callers set_queue]; try done; [by rewrite length_insert|..].
  - destruct Hc as [(-> & rs & -> & Hw)|[-> ->]]; [|done]. rewrite senders_snoc. apply NoDup_app. split_and!; [done|set_solver|apply NoDup_singleton].
  - intros j. destruct (decide (j = i)) as [->|Hne].
    + rewrite list_lookup_insert_eq by done. destruct Hc as [(-> & rs & -> & Hw)|[-> ->]]; [|naive_solver]. rewrite senders_snoc. set_solver.
    + rewrite list_lookup_insert_ne by done. rewrite H5. destruct Hc as [(-> & rs & -> & Hw)|[-> ->]]; [|done]. rewrite senders_snoc. set_solver.
  - intros j rs' Hin. destruct Hc as [(-> & rs & -> & Hw)|[-> ->]]; [|eauto]. apply elem_of_app in Hin as [Hin|Hin]; [eauto|].
    apply list_elem_of_singleton in Hin. by injection Hin as -> ->.
  - intros j r. destruct (decide (j = i)) as [->|Hne].
    + rewrite list_lookup_insert_eq by done. destruct Hc as [(-> & _)|[-> _]]; [done|]. intros [= <-]. right. auto.
    + rewrite list_lookup_insert_ne by done. apply H7.
  - intros j Hj. rewrite list_lookup_insert_ne by (by intros ->). by apply H8.
  - intros Hw. destruct Hg as [Hg| ->]; [done|auto].
Qed.
Lemma ok_exit e0 order s : queue_ok e0 order s -> queue_ok e0 order (worker_exit s).
Proof.
  intros [H1 H2 H3 H4 H5 H6 H7 H8 H9].
  assert (Hl : forall j x, foldr lose (callers s) (queue s) !! j = Some x ->
    (x = Returned ack_lost /\ j ∈ senders (queue s)) \/ (callers s !! j = Some x /\ j ∉ senders (queue s))).
  { intros j x Hj. assert (Hlt : (j < length (callers s))%nat).
    { rewrite <- (lose_all_length (queue s)). by eapply lookup_lt_Some. }
    rewrite lose_all_lookup in Hj by done. destruct (decide _); [left; by injection Hj as <-|by right]. }
  split; cbn [callers queue running worker engine worker_exit]; try done.
  - by rewrite lose_all_length.
  - constructor.
  - intros j. split; [|set_solver]. intros [(E & _)|(Hj & Hn)]%Hl; [done|]. by apply H5 in Hj.
  - set_solver.
  - intros j r [(E & Hin)|(Hj & Hn)]%Hl; [|by apply H7]. injection E as ->. right. split; [|by right].
    intros (r & Hr)%H8. apply H5 in Hin. congruence.
  - intros j Hj. destruct (H8 j Hj) as [r Hr]. exists r. rewrite lose_all_lookup by (by eapply lookup_lt_Some).
    rewrite decide_False; [done|]. intros Hin%H5. congruence.
Qed.
Lemma ok_batch e0 order s i rs q e' r running' :
  queue_ok e0 order s -> worker s <> Gone -> queue s = Batch i rs :: q -> apply_batch rs (engine s) = (e', r) ->
  queue_ok e0 (order ++ [i]) {| callers := <[i := Returned r]> (callers s); queue := q; running := running'; worker := AtTest; engine := e' |}.
Proof.
  intros [H1 H2 H3 H4 H5 H6 H7 H8 H9] Hg Hq Ha. rewrite Hq in *. cbn [senders omap list_omap] in *.
  apply NoDup_cons in H4 as [Hi Hnd].
  assert (Hwait : callers s !! i = Some Waiting) by (apply H5; set_solver).
  assert (Hlt : (i < length (callers s))%nat) by (by eapply lookup_lt_Some).
  assert (Hw : batch i = rs) by (unfold batch; by rewrite (H6 i rs) by set_solver).
  assert (Ho : i ∉ order) by (intros (r' & Hr)%H8; congruence).
  split; cbn [callers queue running worker engine]; try done.
  - by rewrite length_insert.
  - rewrite applied_snoc, Hw, <- H2, Ha. done.
  - apply NoDup_app. split_and!; [done|set_solver|apply NoDup_singleton].
  - intros j. destruct (decide (j = i)) as [->|Hne].
    + rewrite list_lookup_insert_eq by done. split; [done|]. intros Hin. by destruct Hi.
    + rewrite list_lookup_insert_ne by done. rewrite H5. set_solver.
  - intros j rs' Hin. apply H6. set_solver.
  - intros j r'. destruct (decide (j = i)) as [->|Hne].
    + rewrite list_lookup_insert_eq by done. intros [= <-]. left. exists order, []. split; [done|]. rewrite Hw, <- H2, Ha. done.
    + rewrite list_lookup_insert_ne by done. intros Hj. apply answered_snoc; [done|by apply H7].
  - intros j [Hj|Hj]%elem_of_app.
    + rewrite list_lookup_insert_ne by (by intros ->). by apply H8.
    + apply list_elem_of_singleton in Hj as ->. exists r. by rewrite list_lookup_insert_eq.
Qed.
Lemma ok_same e0 order s s' : queue_ok e0 order s -> callers s' = callers s -> engine s' = engine s ->
  senders (queue s') = senders (queue s) -> (forall i rs, Batch i rs ∈ queue s' -> Batch i rs ∈ queue s) ->
  (worker s' = Gone -> queue s' = []) -> queue_ok e0 order s'.
Proof. intros [H1 H2 H3 H4 H5 H6 H7 H8 H9] E1 E2 E3 E4 E5. split; rewrite ?E1, ?E2, ?E3; eauto. Qed.

Lemma reachable_ok e0 s : reachable e0 s -> exists order, queue_ok e0 order s.
Proof.
  induction 1 as [|s s' _ [order Hok] Hs].
  { exists []. assert (Hc : forall i c, map (fun _ => Calling) work !! i = Some c -> c = Calling).
    { intros i c. rewrite list_lookup_fmap. by destruct (work !! i) as [x|]; intros [= <-]. }
    split; cbn [callers queue running worker engine]; try done; [by rewrite length_map|constructor|constructor|..]; set_solver. }
  destruct Hs as [s s' Hw|s i rs Hi Hr Hg Hb|s i Hi Hg|s|s Hg Hb].
  - destruct Hw as [s Hw|s i rs q e' r Hw Hq Ha|s q Hw Hq].
    + exists order. destruct (running s); [|by apply ok_exit]. apply (ok_same _ _ s); done.
    + exists (order ++ [i]). eapply ok_batch; eauto. congruence.
    + exists order. apply ok_exit, (ok_same _ _ s); auto; cbn [queue set_queue worker]; [by rewrite Hq|rewrite Hq; set_solver|congruence].
  - exists order. apply ok_caller; eauto 10.
  - exists order. pose proof (ok_caller e0 order s i (Returned disconnected) (queue s) Hok Hi) as Hr. destruct s. apply Hr; auto.
  - exists order. apply (ok_same _ _ s); auto. apply Hok.
  - exists order. apply (ok_same _ _ s); auto; cbn [queue set_queue worker]; [by rewrite senders_snoc, app_nil_r| |done].
    intros i rs [Hin|Hin]%elem_of_app; [done|]. by apply list_elem_of_singleton in Hin.
Qed.

(** ** Answers *)

(** Messages before the batch of a caller, and the steps the worker needs to answer it. *)
Fixpoint position (i : nat) (q : list UpdateMsg) : nat :=
  match q with
  | [] => 0
  | Batch j _ :: q => if decide (j = i) then 0 else S (position i q)
  | Stop :: q => S (position i q)
  end.
Definition distance (i : nat) (s : System) : nat :=
  2 * position i (queue s) + match worker s with AtTest => 2 | AtRecv => 1 | Gone => 0 end.
(** Answered, or still waiting, [d] steps at most from its answer. *)
Definition closer (i : nat) (d : nat) (s : System) : Prop :=
  (exists r, callers s !! i = Some (Returned r)) \/ (callers s !! i = Some Waiting /\ (distance i s <= d)%nat).

Lemma position_snoc i q m : i ∈ senders q -> position i (q ++ [m]) = position i q.
Proof. induction q as [|[j rs|] q IH]; simpl; [set_solver| |intros H; by rewrite IH]. intros H. case_decide; [done|]. rewrite IH; set_solver. Qed.
Lemma exit_answers i s : (i < length (callers s))%nat -> i ∈ senders (queue s) -> exists r, callers (worker_exit s) !! i = Some (Returned r).
Proof. intros Hl Hin. exists ack_lost. cbn [callers worker_exit]. by rewrite lose_all_lookup, decide_True. Qed.

Lemma worker_works e0 order s i : queue_ok e0 order s -> callers s !! i = Some Waiting -> exists s', worker_step s s'.
Proof.
  intros Hok Hi. assert (Hq := proj1 (qo_waiting _ _ _ Hok i) Hi). destruct (worker s) eqn:Hw.
  - eexists. by apply step_test.
  - destruct (queue s) as [|[j rs|] q] eqn:E; [set_solver| |eexists; by eapply step_stop].
    destruct (apply_batch rs (engine s)) as [e' r] eqn:Ha. eexists. by eapply step_batch.
  - rewrite (qo_gone _ _ _ Hok Hw) in Hq. set_solver.
Qed.
Lemma worker_step_closer i s s' :
  i ∈ senders (queue s) -> callers s !! i = Some Waiting -> worker_step s s' -> closer i (distance i s - 1) s'.
Proof.
  intros Hq Hi Hs. assert (Hl : (i < length (callers s))%nat) by (by eapply lookup_lt_Some). revert Hq Hi Hl.
  destruct Hs as [s Hw|s j rs q e' r Hw E Ha|s q Hw E]; intros Hq Hi Hl.
  - destruct (running s); [|left; by apply exit_answers]. right. split; [done|]. unfold distance. cbn [set_worker queue worker]. rewrite Hw. lia.
  - destruct (decide (j = i)) as [->|Hne].
    + left. exists r. cbn [callers]. by rewrite list_lookup_insert_eq.
    + right. cbn [callers]. rewrite list_lookup_insert_ne by done. split; [done|]. unfold distance. cbn [queue worker]. rewrite E, Hw.
      cbn [position]. rewrite decide_False by done. lia.
  - left. apply exit_answers; [done|]. rewrite E in Hq. exact Hq.
Qed.
Lemma step_closer i s s' : i ∈ senders (queue s) -> callers s !! i = Some Waiting -> step s s' -> closer i (distance i s) s'.
Proof.
  intros Hq Hi Hs. revert Hq Hi. destruct Hs as [s s' Hw|s j rs Hj Hr Hg Hb|s j Hj Hg|s|s Hg Hb]; intros Hq Hi.
  - apply (worker_step_closer i) in Hw as [H|[H1 H2]]; [by left|right; split; [done|lia]|done..].
  - right. cbn [callers set_callers]. rewrite list_lookup_insert_ne by congruence. split; [done|]. unfold distance. cbn [queue worker set_callers set_queue].
    rewrite position_snoc by done. done.
  - right. cbn [callers set_callers]. rewrite list_lookup_insert_ne by congruence. by split.
  - right. by split.
  - right. split; [done|]. unfold distance. cbn [queue worker set_queue]. rewrite position_snoc by done. done.
Qed.

(** C14: Calls of [submit_and_wait] are atomic and end. Whatever the interleaving of the callers,
    the worker and a stop: the engine is the initial one with some batches applied, each
    whole and once, one after the other; a call that returned got the result of its batch
    at its place among them, or an error and its batch was not applied; and a waiting call
    has its answer after at most two worker steps per message before its own and two more,
    the worker being able to step and nobody else delaying it. *)
Theorem submits_atomic e0 s : reachable e0 s ->
  exists order,
    NoDup order /\ engine s = applied e0 order /\
    (forall i, i ∈ order -> exists r, callers s !! i = Some (Returned r)) /\
    (forall i r, callers s !! i = Some (Returned r) -> answered e0 order i r) /\
    (forall i, callers s !! i = Some Waiting ->
      (exists s', worker_step s s') /\
      (forall s', worker_step s s' -> closer i (distance i s - 1) s') /\
      (forall s', step s s' -> closer i (distance i s) s')).
Proof.
  intros [order Hok]%reachable_ok. exists order. split_and!; [apply Hok..|]. intros i Hi.
  assert (Hq := proj1 (qo_waiting _ _ _ Hok i) Hi). split_and!.
  - by eapply worker_works.
  - intros s'. by apply worker_step_closer.
  - intros s'. by apply step_closer.
Qed.
End queue.

(** ** Two callers and a stop *)

Module QueueWitness.
Import EngineTheorems.Examples.
Definition uq_batch (o : N) (i : string) : list (N * Record_) :=
  match prepare ex_e5 (ex_input i 0 0x3F800000) tt with Ok p => [(o, into_record p o 105)] | Err _ => [] end.
Definition uq_work : list (list (N * Record_)) := [uq_batch 20 "d"; uq_batch 21 "e"].
(** The second caller's batch has been applied, the first one's was still queued when the
    worker saw that it should stop. *)
Definition stopped (e : Engine) (r : Result StorageError unit) : System := {|
  callers := [Returned ack_lost; Returned r]; queue := []; running := false; worker := Gone; engine := e |}.
Lemma stopped_reachable e rs0 rs1 e' r : apply_batch rs1 e = (e', r) -> reachable [rs0; rs1] 4 e (stopped e' r).
Proof.
  intros Ha. set (at_ c q run w := {| callers := c; queue := q; running := run; worker := w; engine := e |}).
  assert (H1 : reachable [rs0; rs1] 4 e (at_ [Calling; Waiting] [Batch 1 rs1] true AtTest)).
  { eapply reach_step; [apply reach_start|].
    apply (step_send _ 4 (at_ [Calling; Calling] [] true AtTest) 1 rs1); [reflexivity|reflexivity|discriminate|simpl; lia]. }
  assert (H2 : reachable [rs0; rs1] 4 e (at_ [Waiting; Waiting] [Batch 1 rs1; Batch 0 rs0] true AtTest)).
  { eapply reach_step; [exact H1|].
    apply (step_send _ 4 (at_ [Calling; Waiting] [Batch 1 rs1] true AtTest) 0 rs0); [reflexivity|reflexivity|discriminate|simpl; lia]. }
  eapply reach_step in H2; [|apply step_worker, step_test; reflexivity].
  eapply reach_step in H2; [|apply step_worker; eapply step_batch; [reflexivity|reflexivity|exact Ha]].
  eapply reach_step in H2; [|apply step_clear].
  eapply reach_step in H2; [|apply step_worker, step_test; reflexivity]. exact H2.
Qed.
Definition uq_run := apply_batch (uq_batch 21 "e") ex_e5.
Lemma submits_atomic_witness :
  uq_run.2 = Ok tt /\
  exists order, NoDup order /\ engine (stopped uq_run.1 uq_run.2) = applied uq_work ex_e5 order /\
    answered uq_work ex_e5 order 0 ack_lost /\ answered uq_work ex_e5 order 1 uq_run.2.
Proof.
  split; [vm_compute; reflexivity|].
  destruct (submits_atomic uq_work 4 ex_e5 (stopped uq_run.1 uq_run.2)
    (stopped_reachable ex_e5 (uq_batch 20 "d") (uq_batch 21 "e") uq_run.1 uq_run.2 (surjective_pairing uq_run)))
    as (order & Hn & He & _ & Ha & _).
  exists order. split; [exact Hn|]. split; [exact He|]. split; [exact (Ha 0%nat ack_lost eq_refl)|exact (Ha 1%nat uq_run.2 eq_refl)].
Defined.
End QueueWitness.
