(* ===== verification/Background.v ===== *)
(** * The background optimizer, the thread of [crates/turbomemory_storage/src/optimizer.rs]

    One iteration of its loop over the engine: a message or a timeout, sealing, building,
    merging, a consolidation with its flush, the deletion of retired directories. With the
    policies off that remove or rewrite records, it changes nothing that callers stored and
    loses nothing from the segments, whatever arrives and whatever fails
    ([background_keeps]). *)

From S2P Require Import Prelude Core Floats Vocabulary Metrics Record Wal VectorStore MetadataStore AccessCounters ScopeIndex PayloadIndex Segments SegmentHolder Optimizer Engine Recovery Durability CrashSafety Steady EngineTheorems Searchable SegmentSearch TopOf Search SearchTheorems Bm25 Extract Ccs Config Retention RetentionTheorems Belief BeliefTheorems Graph GraphTheorems Activation EngineGraph Isolation Consolidation ConsolidationTheorems ConsolidationRun.
From Stdlib Require Import Lia.
#[local] Open Scope turbo_scope.

Inductive OptimizerMsg := Seal | Consolidate | Shutdown.

(** The thread's share of [BackgroundOptimizer]: [running] and [pending_deletion]. *)
Record Worker := { running : bool; pending_deletion : list string }.

(** One iteration: the flag [draining] when it is read, what [recv_timeout] gives, whether
    the engine is alive and the interval over; the outcomes of the calls, the directories
    that merges retire, and which of them can be deleted. *)
Record TickIo := {
  t_draining : bool; t_msg : option OptimizerMsg; t_alive : bool; t_due : bool;
  t_draining_cycle : bool; t_cycle : CycleIo; t_gist : option GistCompressor; t_gist_seq : N; t_watermark : N;
  t_seals : list BuildIo; t_merges : list (bool * BuildIo); t_flush : FlushIo;
  t_late_seals : list BuildIo; t_late_merges : list (bool * BuildIo);
  t_retired : list string; t_removable : string -> bool }.

(** [try_cleanup_pending]: what cannot be deleted yet is tried again. *)
Definition try_cleanup_pending (removable : string -> bool) (w : Worker) : Worker :=
  {| running := running w; pending_deletion := filter (fun p => removable p = false) (pending_deletion w) |}.
Definition retire (paths : list string) (w : Worker) : Worker :=
  {| running := running w; pending_deletion := pending_deletion w ++ paths |}.
(** [stop]: the flag is cleared, the thread is told and joined, the directories are tried
    once more. *)
Definition stop (removable : string -> bool) (w : Worker) : Worker :=
  try_cleanup_pending removable {| running := false; pending_deletion := pending_deletion w |}.

Section background.
Context (en : Endian) {HC : Crc32} {BW : Bincode WalOp} {BM : Bincode MetaRecord} {BH : Bincode (list N)}
  {SJ : SerdeJson} {JS : JsonSyntax} {GO : GraphOps} {TO : TextOps} {RG : RetentionGraph}
  {U : Unicode} {LM : Libm} {HI : HashIter} {RI : RecordIter}
  {K : Kernels} {B1 : BinaryHeap rev_heap_le} {B2 : BinaryHeap item_le} {SN : SelectNth best_first}
  {SG : SearchGraph} {ST_ : SearchText} {GPU : GpuExact} {BG : BeliefGraph} {LG : LearningGraph}.
Context (cfg : Config.StoreConfig).

(** Steps over the segments; [None] when the outcomes run out before the loop ends. *)
Definition run_seal (e : Engine) : Engine := set_segments (seal_hot (segments e)) (budget e) e.
Definition pending_seals (ios : list BuildIo) (e : Engine) : option Engine :=
  '(h, b) ← process_pending_seals (segments e) (budget e) (view_of en e) ios; Some (set_segments h b e).
(** [while !draining], a merge. *)
Fixpoint merges_while (h : SegmentHolder.SegmentHolder) (b : ResourceBudget) (view : View) (ios : list (bool * BuildIo))
    : option (SegmentHolder.SegmentHolder * ResourceBudget) :=
  match ios with
  | [] => None
  | (draining, io) :: ios =>
      if draining : bool then Some (h, b)
      else match process_one_merge h b view io with
           | (h, b, Ok true) => merges_while h b view ios
           | (h, b, _) => Some (h, b)
           end
  end.
Definition pending_merges (ios : list (bool * BuildIo)) (e : Engine) : option Engine :=
  '(h, b) ← merges_while (segments e) (budget e) (view_of en e) ios; Some (set_segments h b e).

(** Errors are reported on the console and dropped. *)
Definition run_consolidation (t : TickIo) (e : Engine) : option Engine :=
  if t_draining_cycle t then Some e
  else
    '(e, _) ← trigger_consolidation en cfg (t_gist t) (t_gist_seq t) (t_watermark t) (t_cycle t) e;
    e ← pending_seals (t_seals t) e;
    e ← pending_merges (t_merges t) e;
    Some (Recovery.flush en (t_flush t) e).1.

(** The body of the loop: whether it goes on, the worker and the engine. *)
Definition tick (t : TickIo) (w : Worker) (e : Engine) : option (bool * Worker * Engine) :=
  if t_draining t then Some (true, w, e)
  else
    let w := try_cleanup_pending (t_removable t) w in
    match t_msg t with
    | Some Shutdown => Some (false, w, e)
    | Some Seal =>
        if t_alive t then
          e ← pending_seals (t_late_seals t) (run_seal e);
          e ← pending_merges (t_late_merges t) e;
          Some (true, retire (t_retired t) w, e)
        else Some (true, w, e)
    | Some Consolidate =>
        if t_alive t then e ← run_consolidation t e; Some (true, retire (t_retired t) w, e) else Some (true, w, e)
    | None =>
        if t_alive t then
          e ← if t_due t then run_consolidation t e else Some e;
          e ← pending_seals (t_late_seals t) e;
          e ← pending_merges (t_late_merges t) e;
          Some (true, retire (t_retired t) w, e)
        else Some (true, w, e)
    end.
(** [while running], for the iterations of the list; a last clean-up when it ends. *)
Fixpoint optimizer_loop (ts : list TickIo) (w : Worker) (e : Engine) : option (Worker * Engine) :=
  match ts with
  | [] => Some (w, e)
  | t :: ts =>
      if running w then
        '(more, w, e) ← tick t w e;
        if more : bool then optimizer_loop ts w e else Some (try_cleanup_pending (t_removable t) w, e)
      else Some (try_cleanup_pending (t_removable t) w, e)
  end.
End background.

(** ** What the thread keeps *)

Section keeps.
Context (en : Endian) {HC : Crc32} {BW : Bincode WalOp} {BW1 : Bincode WalOpV1}
  {BM : Bincode MetaRecord} {BH : Bincode (list N)}
  {BMo : BincodeOk MetaRecord} {BHo : BincodeOk (list N)}
  {BMt : BincodeTotal MetaRecord} {BHt : BincodeTotal (list N)}
  {BWo : BincodeOk WalOp} {BWt : BincodeTagged WalOp}
  {SJ : SerdeJson} {JS : JsonSyntax} {GO : GraphOps} {TO : TextOps} {RG : RetentionGraph}
  {U : Unicode} {LM : Libm} {HI : HashIter} {RI : RecordIter}
  {K : Kernels} {B1 : BinaryHeap rev_heap_le} {B2 : BinaryHeap item_le} {SN : SelectNth best_first}
  {SG : SearchGraph} {ST_ : SearchText} {GPU : GpuExact} {BG : BeliefGraph} {LG : LearningGraph} {TT : TextTotal}.
Context (cfg : Config.StoreConfig).

(** What callers stored is there, and in the segments. *)
Definition intact (e : Engine) (S : Store) : Prop := eng_rep en e S /\ seg_inv e.

(** A step that stores nothing and moves no segment. *)
Definition quiet (e e1 : Engine) : Prop := steady e e1 /\ segments e1 = segments e.
Lemma quiet_refl e : quiet e e.
Proof. split; [apply steady_refl|done]. Qed.
Lemma quiet_trans e1 e2 e3 : quiet e1 e2 -> quiet e2 e3 -> quiet e1 e3.
Proof. intros [H1 E1] [H2 E2]. split; [by eapply steady_trans|congruence]. Qed.
Lemma quiet_intact e e1 S : quiet e e1 -> intact e S -> intact e1 S.
Proof.
  intros [Hs E] [He Hi]. split; [by eapply steady_rep|].
  apply (seg_inv_same e); [done|apply (sd_config _ _ Hs)|done|]. intros o. by rewrite (sd_live _ _ Hs (eng_wf en _ _ He)).
Qed.
Lemma quiet_drain e : quiet e (Retention.drain e).1.
Proof. split; [exact (steady_drained en e)|]. unfold Retention.drain, st_modify. by destruct (drain_into (access_counters e) (meta e)). Qed.
Lemma quiet_save io e e1 r : Recovery.save_graph io e = (e1, r) -> quiet e e1.
Proof. intros H. split; [by eapply steady_save|]. by apply save_graph_fields in H as (d & -> & _). Qed.

Lemma segments_intact e S h b : intact e S ->
  (sound (tiers (config e)) (segments e) -> sound (tiers (config e)) h) ->
  (forall o, is_Some (view_of en e o) -> covers (segments e) o -> covers h o) -> intact (set_segments h b e) S.
Proof.
  intros [He [Hs Hc]] H1 H2. split; [by apply eng_rep_segments|]. split; [by apply H1|].
  intros o Ho. apply H2; [|by apply Hc]. destruct He as ((ops & m0 & hc & [Hco _ _ _ _]) & Hm & _).
  exists (vector_at en (vectors e) o). by eapply get_live.
Qed.
Lemma seal_intact e S : intact e S -> intact (run_seal e) S.
Proof. intros Hi. apply segments_intact; [done|apply sound_seal|]. intros o _. apply seal_hot_covers. Qed.

Lemma seals_while view c ios : forall h b h' b', sound c h -> process_pending_seals h b view ios = Some (h', b') ->
  sound c h' /\ forall o, is_Some (view o) -> covers h o -> covers h' o.
Proof.
  unfold process_pending_seals. induction ios as [|io ios IH]; intros h b h' b' Hs; simpl; [done|].
  pose proof (sound_seal_step c h b view io Hs) as Hs1.
  pose proof (fun o => process_one_seal_keeps h b view io o (so_ok _ _ Hs)) as Hk.
  destruct (process_one_seal h b view io) as [[h1 b1] [[|]|]]; cbn [fst] in *.
  - intros H2. destruct (IH _ _ _ _ Hs1 H2) as [Hs2 Hc]. split; [done|]. intros o Hv Ho. apply Hc; [done|]. by apply (Hk o).
  - intros [= <- <-]. split; [done|]. intros o. apply Hk.
  - intros [= <- <-]. split; [done|]. intros o. apply Hk.
Qed.
Lemma merges_kept view c ios : forall h b h' b', sound c h -> merges_while h b view ios = Some (h', b') ->
  sound c h' /\ forall o, is_Some (view o) -> covers h o -> covers h' o.
Proof.
  induction ios as [|[draining io] ios IH]; intros h b h' b' Hs; simpl; [done|].
  destruct draining; [by intros [= <- <-]|]. pose proof (sound_merge_step c h b view io Hs) as Hs1.
  pose proof (fun o => process_one_merge_keeps h b view io o (so_ok _ _ Hs)) as Hk.
  destruct (process_one_merge h b view io) as [[h1 b1] [[|]|]]; cbn [fst] in *.
  - intros H2. destruct (IH _ _ _ _ Hs1 H2) as [Hs2 Hc]. split; [done|]. intros o Hv Ho. apply Hc; [done|]. by apply (Hk o).
  - intros [= <- <-]. split; [done|]. intros o. apply Hk.
  - intros [= <- <-]. split; [done|]. intros o. apply Hk.
Qed.
Lemma pending_seals_intact ios e S e1 : intact e S -> pending_seals en ios e = Some e1 -> intact e1 S.
Proof.
  intros Hi. unfold pending_seals. destruct (process_pending_seals _ _ _ _) as [[h b]|] eqn:E; [|done]. intros [= <-].
  apply segments_intact; [done| |]; [intros Hs; by eapply seals_while|]. eapply seals_while; [apply Hi|exact E].
Qed.
Lemma pending_merges_intact ios e S e1 : intact e S -> pending_merges en ios e = Some e1 -> intact e1 S.
Proof.
  intros Hi. unfold pending_merges. destruct (merges_while _ _ _ _) as [[h b]|] eqn:E; [|done]. intros [= <-].
  apply segments_intact; [done| |]; [intros Hs; by eapply merges_kept|]. eapply merges_kept; [apply Hi|exact E].
Qed.
Lemma flush_intact io e S : (forall k, f_clear io <> ClearWrite k) -> intact e S -> intact (Recovery.flush en io e).1 S.
Proof.
  intros Hc [He Hi]. destruct (Recovery.flush en io e) as [e1 r] eqn:E. split.
  - by apply (proj1 (flush_flushed en e S io e1 r He E)).
  - by eapply flush_seg.
Qed.

(** *** The consolidation with the removing and rewriting policies off *)

Definition policies_off : Prop :=
  Config.max_records (Config.tier cfg) = None /\ Config.evict_score_floor (Config.tier cfg) = None /\
  Config.dedup_cosine_threshold (Config.tier cfg) = None /\
  Config.refinement_cosine_threshold (Config.tier cfg) = None /\ Config.contradiction_cosine_threshold (Config.tier cfg) = None.

Lemma consolidate_segments_intact now ok e S : intact e S -> intact (consolidate_segments en cfg now ok e).1 S.
Proof.
  intros [He [Hs Hc]]. pose proof (consolidate_segments_steady en cfg now ok e) as Hst.
  split; [by eapply steady_rep|]. split.
  - rewrite (sd_config _ _ Hst). unfold consolidate_segments.
    pose proof (consolidation_sound _ (promotable cfg now) (segments e) (meta e) (view_of en e) ok Hs) as H.
    by destruct (SegmentHolder.trigger_consolidation _ _ _ _ _) as [[h m] r].
  - intros o. rewrite (sd_live _ _ Hst (eng_wf en _ _ He)). intros Ho. unfold consolidate_segments.
    pose proof (SegmentHolder.trigger_consolidation_keeps (promotable cfg now) (segments e) (meta e) (view_of en e) ok o (so_ok _ _ Hs)) as [_ H].
    destruct (SegmentHolder.trigger_consolidation _ _ _ _ _) as [[h m] r]. apply H; [|by apply Hc].
    destruct He as ((ops & m0 & hc & [Hco _ _ _ _]) & Hm & _). exists (vector_at en (vectors e) o). by eapply get_live.
Qed.
Lemma merges_unflagged view ios : forall h b, process_pending_merges h b view ios = merges_while h b view (map (pair false) ios).
Proof.
  unfold process_pending_merges. induction ios as [|io ios IH]; intros h b; simpl; [done|].
  destruct (process_one_merge h b view io) as [[h1 b1] [[|]|]]; [apply IH|done..].
Qed.
Lemma drain_optimizer_intact ios1 ios2 e S e1 r : intact e S -> drain_optimizer en ios1 ios2 e = Some (e1, r) -> intact e1 S.
Proof.
  intros Hi. unfold drain_optimizer, Optimizer.drain. destruct (process_pending_seals _ _ _ _) as [[h b]|] eqn:E1; [|done]. simpl.
  rewrite merges_unflagged. destruct (merges_while _ _ _ _) as [[h2 b2]|] eqn:E2; [|done]. simpl. intros [= <- _].
  assert (H1 := proj1 Hi). destruct Hi as [_ [Hs Hc]].
  destruct (seals_while _ _ _ _ _ _ _ Hs E1) as [S1 C1]. destruct (merges_kept _ _ _ _ _ _ _ S1 E2) as [S2 C2].
  apply segments_intact; [done|done|]. auto.
Qed.
Lemma quiet_importance now io e e1 r : recompute_importance (retention_config cfg) now io e = Some (e1, r) -> quiet e e1.
Proof.
  intros H. split; [by eapply importance_steady|]. revert H. unfold recompute_importance.
  destruct (negb _); [by intros [= <- _]|]. pose proof (quiet_drain e) as [_ Hd]. set (e2 := (Retention.drain e).1) in *.
  destruct (iter_records _) as [|x l]; [by intros [= <- _]|]. destruct (negb _); [done|].
  assert (Hf : forall now ms md l e n, segments (foldl (imp_step (retention_config cfg) now ms md) (e, n) l).1 = segments e).
  { clear. intros now ms md l. induction l as [|om l IH]; intros e n; cbn [foldl]; [done|].
    destruct (imp_step _ _ _ _ (e, n) om) as [e1 n1] eqn:E. rewrite IH. unfold imp_step in E.
    destruct (f32_geb _ (f32_abs _)); injection E as <- _; [done|]. by destruct (MetadataStore.get _ _). }
  destruct (foldl (imp_step _ _ _ _) _ _) as [e3 n] eqn:Ef.
  assert (H3 : segments e3 = segments e2) by (change e3 with (e3, n).1; rewrite <- Ef; apply Hf).
  intros [= Hrun]. rewrite <- Hd, <- H3. destruct (0 <? n); [|by injection Hrun as <- _].
  unfold st_bind in Hrun. destruct (Recovery.save_graph io e3) as [e4 [u|er]] eqn:Hs; injection Hrun as <- _; by apply quiet_save in Hs as [_ ->].
Qed.
Lemma quiet_evolve io e e1 r : evolve_concept_vocabulary cfg io e = Some (e1, r) -> quiet e e1.
Proof.
  unfold evolve_concept_vocabulary. destruct (negb _); [intros [= <- _]; apply quiet_refl|].
  destruct (evolve_vocabulary _ _ _ _) as [g [[m s] k]]. intros [= E].
  eapply quiet_trans; [by split; [apply (steady_graph e g)|]|].
  destruct (_ || _); [|injection E as <- _; apply quiet_refl]. unfold st_bind in E.
  destruct (Recovery.save_graph _ (set_graph g e)) as [e3 [u|er]] eqn:Hs; injection E as <- _; by eapply quiet_save.
Qed.

(** One step of the cycle and the rest of it. *)
Lemma bind_intact {A B} (m : SM A) (f : A -> SM B) e S e' r : intact e S ->
  (forall e1 r1, m e = Some (e1, r1) -> intact e1 S) ->
  (forall a e1, intact e1 S -> f a e1 = Some (e', r) -> intact e' S) ->
  sm_bind m f e = Some (e', r) -> intact e' S.
Proof.
  intros Hi Hm Hf. unfold sm_bind. destruct (m e) as [[e1 [a|er]]|]; [|intros [= <- _]; by eapply Hm|done].
  simpl. apply Hf. by eapply Hm.
Qed.

Lemma settle_intact io e S e' r : intact e S -> settle en cfg io e = Some (e', r) -> intact e' S.
Proof.
  intros Hi. unfold settle. intros H. revert H.
  apply bind_intact; [done|intros e1 r1 [= E _]; rewrite <- E; eapply quiet_intact; [apply quiet_drain|done]|intros _ e1 H1].
  apply bind_intact; [done|intros e2 r2 [= E]; pose proof (consolidate_segments_intact (c_now io) (c_compact io) e1 S H1) as H; by rewrite E in H|intros x e2 H2].
  apply bind_intact; [done|intros e3 r3; by apply drain_optimizer_intact|intros _ e3 H3].
  apply bind_intact; [done|intros e4 r4 E; eapply quiet_intact; [by eapply quiet_importance|done]|intros _ e4 H4 [= <- _]; done].
Qed.
Lemma maintain_intact gist gist_seq io e S e' r : policies_off -> intact e S -> maintain en cfg gist gist_seq io e = Some (e', r) -> intact e' S.
Proof.
  intros (P1 & P2 & P3 & _) Hi. unfold maintain. intros H. revert H.
  apply bind_intact; [done|intros e4 r4; by apply settle_intact|intros x e4 H4].
  apply bind_intact; [done| |intros _ e5 H5].
  { intros e5 r5. unfold deduplicate. cbn [Retention.dedup_cosine_threshold retention_config]. rewrite P3. by intros [= <- _]. }
  apply bind_intact; [done| |intros g e6 H6; by intros [= <- _]].
  intros e6 r6. unfold evict_step, evict. cbn [Retention.max_records Retention.evict_score_floor retention_config]. rewrite P1, P2.
  by intros [= <- _].
Qed.
Lemma revise_intact watermark io e S e' r : policies_off -> intact e S -> revise en cfg watermark io e = Some (e', r) -> intact e' S.
Proof.
  intros (_ & _ & _ & P4 & P5) Hi. unfold revise. destruct (Belief.defer_supersession_commit _); [by intros [= <- _]|].
  apply bind_intact; [done| |intros _ e1 H1; apply bind_intact; [done| |intros _ e2 H2; by intros [= <- _]]].
  - intros e1 r1. unfold check_refinements, propose_refinements. cbn [Belief.refinement_cosine_threshold belief_config]. rewrite P4.
    by intros [= <- _].
  - intros e2 r2. unfold check_contradictions, propose_contradictions. cbn [Belief.contradiction_cosine_threshold belief_config]. rewrite P5.
    by intros [= <- _].
Qed.
Lemma consolidation_intact gist gist_seq watermark io e S e' r : policies_off -> intact e S ->
  trigger_consolidation en cfg gist gist_seq watermark io e = Some (e', r) -> intact e' S.
Proof.
  intros P Hi. unfold trigger_consolidation.
  apply bind_intact; [done|intros e1 r1; by apply maintain_intact|intros x e1 H1].
  apply bind_intact; [done|intros e2 r2; by apply revise_intact|intros wm e2 H2].
  apply bind_intact; [done|intros e3 r3 [= <- _]; by eapply quiet_intact; [split; [apply steady_graph|]|]|intros _ e3 H3].
  apply bind_intact; [done|intros e4 r4 E; eapply quiet_intact; [by eapply quiet_evolve|done]|intros _ e4 H4].
  apply bind_intact; [done|intros e5 r5 [= E]; eapply quiet_intact; [by eapply quiet_save|done]|intros _ e5 H5; by intros [= <- _]].
Qed.

(** *** The loop *)

Definition calm (t : TickIo) : Prop := forall k, f_clear (t_flush t) <> ClearWrite k.

Lemma builds_intact ios1 ios2 e S e' : intact e S ->
  (e ← pending_seals en ios1 e; pending_merges en ios2 e) = Some e' -> intact e' S.
Proof.
  intros Hi. destruct (pending_seals en ios1 e) as [e1|] eqn:E; [|done]. simpl.
  apply pending_merges_intact. by eapply pending_seals_intact.
Qed.
Lemma run_consolidation_intact t e S e' : policies_off -> calm t -> intact e S ->
  run_consolidation en cfg t e = Some e' -> intact e' S.
Proof.
  intros P Hc Hi. unfold run_consolidation. destruct (t_draining_cycle t); [by intros [= <-]|].
  destruct (trigger_consolidation _ _ _ _ _ _ e) as [[e1 r]|] eqn:E1; [|done]. simpl.
  destruct (pending_seals en _ e1) as [e2|] eqn:E2; [|done]. simpl.
  destruct (pending_merges en _ e2) as [e3|] eqn:E3; [|done]. simpl. intros [= <-].
  apply flush_intact; [exact Hc|]. eapply pending_merges_intact; [|exact E3]. eapply pending_seals_intact; [|exact E2].
  by eapply consolidation_intact.
Qed.
Lemma tick_intact t w e S more w' e' : policies_off -> calm t -> intact e S ->
  tick en cfg t w e = Some (more, w', e') -> intact e' S.
Proof.
  intros P Hc Hi. unfold tick. destruct (t_draining t); [by intros [= _ _ <-]|].
  assert (Hb : forall ios1 ios2 e1 w1, intact e1 S ->
    (e ← pending_seals en ios1 e1; e ← pending_merges en ios2 e; Some (true, w1, e)) = Some (more, w', e') -> intact e' S).
  { intros ios1 ios2 e1 w1 H1 E. apply (builds_intact ios1 ios2 e1); [done|].
    destruct (pending_seals en ios1 e1) as [e2|]; [|done]. simpl in *. destruct (pending_merges en ios2 e2); [|done].
    by injection E as _ _ ->. }
  destruct (t_msg t) as [[| |]|]; [| |by intros [= _ _ <-]|]; (destruct (t_alive t); [|by intros [= _ _ <-]]).
  - apply Hb. by apply seal_intact.
  - destruct (run_consolidation en cfg t e) as [e1|] eqn:E; [|done]. intros [= _ _ <-]. by eapply run_consolidation_intact.
  - destruct (if t_due t then _ else _) as [e1|] eqn:E; [|done]. simpl. apply Hb.
    destruct (t_due t); [by eapply run_consolidation_intact|by injection E as <-].
Qed.

(** C13: With eviction, deduplication and belief detection off, the background thread changes
    nothing that callers stored: after any iterations of its loop, whatever messages
    arrived and whatever builds, consolidations and flushes failed, every id reads back
    the record it had, from a segment that searches reach. *)
Theorem background_keeps ts w e S w' e' :
  history en e S -> policies_off -> Forall calm ts ->
  optimizer_loop en cfg ts w e = Some (w', e') ->
  eng_rep en e' S /\
  forall i d v, S !! i = Some (d, v) ->
    exists o, id_index e' !! i = Some o /\ visible (segments e') o /\ VectorStore.get en (vectors e') o = Some v.
Proof.
  intros Hh P Hc Hrun.
  assert (Hi : intact e' S).
  { assert (H0 : intact e S) by (split; [exact (history_rep en e S Hh)|exact (history_seg en e S Hh)]). clear Hh. revert w e H0 Hc Hrun.
    induction ts as [|t ts IH]; intros w e H0 Hc; simpl; [by intros [= _ <-]|]. apply Forall_cons in Hc as [Ht Hc].
    destruct (running w); [|by intros [= _ <-]].
    destruct (tick en cfg t w e) as [[[more w1] e1]|] eqn:E; [|done]. simpl. apply (tick_intact _ _ _ S) in E; [|done..].
    destruct more; [by apply IH|by intros [= _ <-]]. }
  split; [apply Hi|]. intros i d v HSi. destruct Hi as [((ops & m0 & hc & [Hco _ _ _ Hid]) & Hm & HS) [Hs Hcov]].
  apply HS in HSi as (o & Hl & Hid' & ->). exists o. split; [by apply Hid; eauto|].
  split; [|by eapply get_live; eauto]. apply (ok_visible _ _ (so_ok _ _ Hs)), Hcov. eauto.
Qed.

(** The build loops of an iteration end: one outcome more than there are segments to build,
    and to merge, is enough. *)
Lemma builds_end ios1 ios2 e S : intact e S ->
  len (sealing_plain (segments e)) < len ios1 ->
  len (sealed_hot (segments e)) + len (sealing_plain (segments e)) < len ios2 ->
  is_Some (e ← pending_seals en ios1 e; pending_merges en ios2 e).
Proof.
  intros [He [Hs _]] H1 H2. unfold pending_seals.
  destruct (run_while_ends (fun o => is_Some (view_of en e o)) (fun h b io => process_one_seal h b (view_of en e) io)
    (fun h => len (sealing_plain h)) (fun h => len (sealed_hot h)) (segments e) (budget e) ios1)
    as (h1 & b1 & E1 & Hk1 & Hb1); [| | |apply (so_ok _ _ Hs)|done|].
  - intros h0 b0 io o Hh0. by apply process_one_seal_keeps.
  - intros h0 b0 io h' b' _ E. by apply seal_decreases in E.
  - intros h0 b0 io h' b' r _ E Hr. apply seal_end_bound in E as ->; [lia|done].
  - unfold process_pending_seals. rewrite E1. simpl. unfold pending_merges. cbn [segments set_segments budget].
    assert (Hm : forall ios h b, holder_ok h -> len (sealed_hot h) < len ios ->
      is_Some (merges_while h b (view_of en (set_segments h1 b1 e)) ios)).
    { clear. induction ios as [|[draining io] ios IH]; intros h b Hh Hl; [unfold len in Hl; simpl in Hl; lia|]. simpl.
      destruct draining; [eauto|].
      pose proof (process_one_merge_keeps h b (view_of en (set_segments h1 b1 e)) io 0 Hh) as [Hk _].
      destruct (process_one_merge _ _ _ _) as [[h' b'] [[|]|]] eqn:E; [|eauto..].
      apply IH; [done|]. apply merge_decreases in E; [|done]. rewrite len_cons in Hl. lia. }
    destruct (Hm ios2 h1 b1) as [[h2 b2] ->]; [apply (Hk1 0)|lia|]. simpl. eauto.
Qed.
End keeps.

(** ** Three iterations over the engine of the examples *)

Module BackgroundWitness.
Import AsciiText GraphWitness CcsWitness.
Import EngineTheorems.Examples SegmentSearchWitness TopOfWitness SearchWitness RetentionWitness BeliefWitness ConsolidationWitness.
(** A build, a merge and a commit that fail. *)
Definition bg_io (io : BuildIo) : BuildIo := {| bi_cas := bi_cas io; bi_build := false; bi_compact := false |}.
Definition bg_tick (msg : option OptimizerMsg) (due : bool) : TickIo := {|
  t_draining := false; t_msg := msg; t_alive := true; t_due := due; t_draining_cycle := false; t_cycle := cw_io;
  t_gist := None; t_gist_seq := 0; t_watermark := 0; t_seals := [build_ok; build_ok]; t_merges := [(false, build_ok); (true, build_ok)];
  t_flush := ex_flush; t_late_seals := [bg_io build_ok; build_ok]; t_late_merges := [(false, build_ok)];
  t_retired := ["sealed_0001"%string]; t_removable := fun _ => false |}.
Definition bg_ticks : list TickIo := [bg_tick (Some Seal) false; bg_tick None true; bg_tick (Some Consolidate) false; bg_tick (Some Shutdown) false].
Definition bg_cfg := cw_cfg None None None.
Definition bg_run := optimizer_loop le bg_cfg bg_ticks {| running := true; pending_deletion := [] |} bw_e2.
Example bg_ends : pending_deletion <$> (fst <$> bg_run) = Some ["sealed_0001"; "sealed_0001"; "sealed_0001"]%string.
Proof. vm_compute. reflexivity. Qed.
Lemma background_keeps_witness : exists w' e',
  bg_run = Some (w', e') /\ eng_rep le e' bw_s2 /\
  forall i d v, bw_s2 !! i = Some (d, v) ->
    exists o, id_index e' !! i = Some o /\ visible (segments e') o /\ VectorStore.get le (vectors e') o = Some v.
Proof.
  pose proof bg_ends as H. destruct bg_run as [[w' e']|] eqn:E; [|discriminate H]. exists w', e'. split; [reflexivity|].
  refine (background_keeps le bg_cfg bg_ticks _ bw_e2 bw_s2 w' e' bw_history _ _ E).
  - repeat split.
  - repeat constructor; intros k; discriminate.
Defined.
End BackgroundWitness.
