(* ===== verification/PyConfig.v ===== *)
(** * The Python bindings: errors, inputs and the constructor's arguments,
    [crates/turbomemory_python/src/lib.rs]

    The exception an error becomes, the arrays and lists the methods accept, the quantizer
    specifiers and the configuration made from the keyword arguments. The specifiers are
    characterised exactly ([quantizer_specs]), the configuration stays in its bounds and
    is the default one without arguments ([arguments_configure]), and Python's exception
    classes are the statuses of the HTTP server ([exceptions_are_statuses]). What PyO3 and
    numpy find in an object is an argument ([PyAny]). *)

From S2P Require Import Prelude Core Floats Vocabulary PayloadIndex SegmentHolder Activation Optimizer Engine Gpu Config ApiService.
From Stdlib Require Import Lia.

(** ** Exceptions *)

Inductive PyClass := PyValueError | PyKeyError | PyRuntimeError | PyRaised (name : string).
(** The text is the error's own, or a message. *)
Inductive PyText := ToString (e : StorageError) | Message (msg : string).
Record PyErr := { py_class : PyClass; py_text : PyText }.
Definition value_error (msg : string) : PyErr := {| py_class := PyValueError; py_text := Message msg |}.
Definition runtime_error (msg : string) : PyErr := {| py_class := PyRuntimeError; py_text := Message msg |}.

Definition storage_err (e : StorageError) : PyErr := {|
  py_text := ToString e;
  py_class :=
    match e with
    | DuplicateId _ | DimensionMismatch | InvalidArgument _ => PyValueError
    | Prelude.Core (TDimensionMismatch _ _ | TInvalidArgument _ | ZeroNorm | NonFinite) => PyValueError
    | NotFound _ => PyKeyError
    | _ => PyRuntimeError
    end |}.

(** The status of the HTTP server for an exception. *)
Definition class_status (c : PyClass) : N * string :=
  match c with
  | PyValueError => (400, "invalid_argument")
  | PyKeyError => (404, "not_found")
  | _ => (500, "internal")
  end.
Lemma exceptions_are_statuses e : status_and_code (Storage e) = class_status (py_class (storage_err e)).
Proof. by destruct e as [[]| | | | | | | | | | |]. Qed.

(** ** Vectors and matrices *)

Record Array2 := { shape : list N; contiguous : bool; array_rows : list (list f32) }.
(** What the object is found to be: a one- or two-dimensional [float32] array (for the
    first, whether it is contiguous and its elements), a sequence of numbers or of such
    sequences; whether it has [tolist], and what the list then converts to. *)
Record PyAny := {
  as_array1 : option (bool * list f32); as_array2 : option Array2;
  as_vec1 : option (list f32); as_vec2 : option (list (list f32));
  hasattr_tolist : Result PyErr bool;
  tolist1 : Result PyErr (Result PyErr (list f32)); tolist2 : Result PyErr (Result PyErr (list (list f32))) }.

Inductive F32Input := View1 (arr : list f32) | Owned1 (v : list f32).
Definition as_slice (i : F32Input) : list f32 := match i with View1 arr => arr | Owned1 v => v end.

(** The end of both: [tolist] when the object has it. *)
Definition from_tolist {A B} (has : Result PyErr bool) (list_obj : Result PyErr (Result PyErr A)) (owned : A -> B)
    (msg : string) : Result PyErr B :=
  b ← has;
  if b : bool then r ← list_obj; v ← r; Ok (owned v) else Err (value_error msg).
Definition extract_f32_input (obj : PyAny) : Result PyErr F32Input :=
  match as_array1 obj with
  | Some (is_contiguous, elements) => if is_contiguous : bool then Ok (View1 elements) else Ok (Owned1 elements)
  | None =>
      match as_vec1 obj with
      | Some v => Ok (Owned1 v)
      | None => from_tolist (hasattr_tolist obj) (tolist1 obj) Owned1 "embedding must be a sequence or numpy array of f32"
      end
  end.

(** A view keeps the flat buffer and the number of columns. *)
Inductive F32Matrix := View2 (flat : list f32) (cols : N) | Owned2 (m : list (list f32)).
Definition rows (m : F32Matrix) : list (list f32) :=
  match m with
  | View2 flat cols => if cols =? 0 then [] else chunks_exact cols flat
  | Owned2 m => m
  end.
Definition extract_f32_matrix (obj : PyAny) : Result PyErr F32Matrix :=
  match as_array2 obj with
  | Some arr =>
      match shape arr with
      | [_; cols] => if contiguous arr then Ok (View2 (concat (array_rows arr)) cols) else Ok (Owned2 (array_rows arr))
      | _ => Err (value_error "embeddings must be 2-D")
      end
  | None =>
      match as_vec2 obj with
      | Some m => Ok (Owned2 m)
      | None => from_tolist (hasattr_tolist obj) (tolist2 obj) Owned2 "embeddings must be a 2-D sequence or numpy array of f32"
      end
  end.

(** The rows of an array do not depend on its layout in memory. *)
Lemma matrix_rows obj arr cols : as_array2 obj = Some arr -> shape arr = [len (array_rows arr); cols] -> 0 < cols ->
  Forall (fun r => len r = cols) (array_rows arr) ->
  exists m, extract_f32_matrix obj = Ok m /\ rows m = array_rows arr.
Proof.
  intros Ha Hs Hc Hr. unfold extract_f32_matrix. rewrite Ha, Hs. destruct (contiguous arr); eexists; (split; [done|]); [|done].
  simpl. rewrite (proj2 (N.eqb_neq cols 0)) by lia. by apply chunks_concat.
Qed.

(** ** Quantizer specifiers *)

(** [str::parse::<u8>]. *)
Definition parse_u8 (s : string) : option N := n ← parse_u64 s; if n <? 256 then Some n else None.
Definition starts_with (p s : string) : bool := bool_decide (is_Some (strip_prefix p s)).
Definition extract_bits (prefix spec : string) : Result PyErr N :=
  if String.eqb spec prefix then
    Err (value_error (prefix +:+ " quantizer requires a bit width, e.g. " +:+ prefix +:+ "2"))
  else
    match strip_prefix prefix spec with
    | Some rest => ok_or (parse_u8 rest) (value_error ("invalid bit width in '" +:+ spec +:+ "'"))
    | None => Err (value_error ("unknown quantizer '" +:+ spec +:+ "'"))
    end.

Section specs.
Context {U : Unicode} {SJ : SerdeJson}.
Definition parse_quantizer_kind (spec : option string) (default : Engine.QuantizerKind) : Result PyErr Engine.QuantizerKind :=
  match spec with
  | None => Ok default
  | Some s =>
      let spec := to_lowercase (trim s) in
      if String.eqb spec "" then Ok default
      else if starts_with "scalar" spec then Engine.Scalar <$> extract_bits "scalar" spec
      else if String.eqb spec "sign" then Ok Engine.Sign
      else if String.eqb spec "rabitq" || String.eqb spec "rabitq1" then Ok (Engine.RaBitQ 1)
      else if String.eqb spec "rabitq2" then Ok (Engine.RaBitQ 2)
      else if starts_with "rabitq" spec then Engine.RaBitQ <$> extract_bits "rabitq" spec
      else if starts_with "turbo_prod" spec then Engine.TurboQuantProd <$> extract_bits "turbo_prod" spec
      else if starts_with "turbo_mse" spec then Engine.TurboQuantMse <$> extract_bits "turbo_mse" spec
      else Err (value_error ("unknown quantizer '" +:+ spec +:+
                 "'; expected scalar<N>, sign, rabitq<N>, turbo_mse<N>, or turbo_prod<N>"))
  end.

(** The blank payload counts as none. What [serde_json] says of the error is left out of the message. *)
Definition parse_payload (payload : option string) : Result PyErr (option string) :=
  match payload with
  | Some s =>
      if String.eqb (trim s) "" then Ok None
      else match from_str s with
           | Some _ => Ok (Some s)
           | None => Err (value_error "invalid payload JSON")
           end
  | None => Ok None
  end.

(** *** What they read *)

(** The kinds with a bit width, by name. *)
Definition families : list (string * (N -> Engine.QuantizerKind)) :=
  [("scalar", Engine.Scalar); ("rabitq", Engine.RaBitQ); ("turbo_prod", Engine.TurboQuantProd);
   ("turbo_mse", Engine.TurboQuantMse)].
(** The kind a specifier means, trimmed and in lower case. *)
Inductive reads (s : string) (d : Engine.QuantizerKind) : Engine.QuantizerKind -> Prop :=
  | reads_blank : s = "" -> reads s d d
  | reads_sign : s = "sign" -> reads s d Engine.Sign
  | reads_rabitq : s = "rabitq" -> reads s d (Engine.RaBitQ 1)
  | reads_width name kind w n :
      (name, kind) ∈ families -> s = name +:+ w -> parse_u8 w = Some n -> reads s d (kind n).
(** The specifier of a kind. *)
Definition label (k : Engine.QuantizerKind) : string :=
  match k with
  | Engine.Scalar n => "scalar" +:+ u64_to_string n
  | Engine.Sign => "sign"
  | Engine.TurboQuantMse n => "turbo_mse" +:+ u64_to_string n
  | Engine.TurboQuantProd n => "turbo_prod" +:+ u64_to_string n
  | Engine.RaBitQ n => "rabitq" +:+ u64_to_string n
  end.
Definition width (k : Engine.QuantizerKind) : N :=
  match k with
  | Engine.Sign => 0
  | Engine.Scalar n | Engine.TurboQuantMse n | Engine.TurboQuantProd n | Engine.RaBitQ n => n
  end.

Lemma app_empty p : p +:+ "" = p.
Proof. induction p as [|c p IH]; [done|]. change (String c (p +:+ "") = String c p). by rewrite IH. Qed.
Lemma parse_u8_to_string n : n < 256 -> parse_u8 (u64_to_string n) = Some n.
Proof.
  intros Hn. unfold parse_u8. rewrite parse_u64_to_string by (unfold U64; lia). simpl.
  by rewrite (proj2 (N.ltb_lt _ _) Hn).
Qed.
Lemma starts_with_spec p s : starts_with p s = true <-> exists w, s = p +:+ w.
Proof.
  unfold starts_with. rewrite bool_decide_eq_true. split.
  - intros [w H%strip_prefix_spec]. by exists w.
  - intros [w H]. exists w. by apply strip_prefix_spec.
Qed.
Lemma extract_bits_ok p s n : extract_bits p s = Ok n <-> exists w, s = p +:+ w /\ parse_u8 w = Some n.
Proof.
  unfold extract_bits. destruct (String.eqb_spec s p) as [->|Hne].
  - split; [done|]. intros (w & Hw & Hn). assert (Hp : strip_prefix p p = Some w) by by apply strip_prefix_spec.
    assert (Hp' : strip_prefix p p = Some "") by (apply strip_prefix_spec; by rewrite app_empty).
    rewrite Hp in Hp'. by injection Hp' as ->.
  - destruct (strip_prefix p s) as [w|] eqn:Hw.
    + split.
      * intros H. exists w. split; [by apply strip_prefix_spec|]. destruct (parse_u8 w); simpl in H; congruence.
      * intros (w' & Hw'%strip_prefix_spec & Hn). assert (w' = w) as -> by congruence. by rewrite Hn.
    + split; [done|]. intros (w & Hw'%strip_prefix_spec & _). congruence.
Qed.

Ltac no_reads :=
  repeat match goal with
  | H : _ ∈ families |- _ => unfold families in H; set_unfold in H; destruct_or! H; try destruct H as [H|H]; simplify_eq
  end; try done.
(** One family: its specifiers are its name and a width. *)
Lemma reads_family name kind spec d k : (name, kind) ∈ families -> starts_with name spec = true ->
  spec <> "rabitq" -> (kind <$> extract_bits name spec = Ok k <-> reads spec d k).
Proof.
  intros Hf [w Hw]%starts_with_spec Hr. split.
  - destruct (extract_bits name spec) as [n|] eqn:E; [|done]. simpl. intros [= <-].
    apply extract_bits_ok in E as (w' & -> & Hn). by apply (reads_width _ _ name kind w').
  - intros [Hs|Hs|Hs|name' kind' w' n Hf' Hs Hn]; [exfalso; subst spec; no_reads..|].
    assert ((name', kind') = (name, kind)) as [= -> ->].
    { rewrite Hw in Hs. no_reads. }
    rewrite (proj2 (extract_bits_ok name spec n)) by by exists w'. done.
Qed.


(** Evaluates the width of a literal specifier. *)
Ltac bare_width :=
  repeat match goal with
  | Hs : String _ _ = _ +:+ _ |- _ => progress cbv [String.append] in Hs; simplify_eq
  | Hn : parse_u8 EmptyString = Some _ |- _ => discriminate Hn
  | Hn : parse_u8 (String _ EmptyString) = Some _ |- _ => vm_compute in Hn; simplify_eq
  end.
(** A literal specifier: the only reading is the given one. *)
Ltac literal H :=
  split;
  [ intros [= <-]
  | intros H; inversion H; clear H; subst; no_reads; bare_width; try done ].
(** What none of the families starts is nothing but the two words. *)
Lemma reads_other s d k : (forall name kind, (name, kind) ∈ families -> starts_with name s = false) ->
  s <> "" -> s <> "sign" -> ~ reads s d k.
Proof.
  intros Hf H0 H1 H. destruct H as [Hs|Hs|Hs|name kind w n Hin Hs Hn]; [done|done| |].
  - specialize (Hf "rabitq" Engine.RaBitQ ltac:(set_solver)). subst s. discriminate Hf.
  - specialize (Hf name kind Hin). apply not_true_iff_false in Hf. apply Hf, starts_with_spec. by exists w.
Qed.

Lemma parse_reads spec d k : parse_quantizer_kind (Some spec) d = Ok k <-> reads (to_lowercase (trim spec)) d k.
Proof.
  unfold parse_quantizer_kind. set (s := to_lowercase (trim spec)). clearbody s.
  destruct (String.eqb_spec s "") as [->|H0]; [literal H; by apply reads_blank|].
  destruct (starts_with "scalar" s) eqn:F1; [apply reads_family; [set_solver|done|by intros ->]|].
  destruct (String.eqb_spec s "sign") as [->|H1]; [literal H; by apply reads_sign|].
  destruct (String.eqb_spec s "rabitq") as [->|H2]; [literal H; by apply reads_rabitq|].
  destruct (String.eqb_spec s "rabitq1") as [->|_]; [literal H; by apply (reads_width _ _ "rabitq" _ "1"); [set_solver|..]|].
  destruct (String.eqb_spec s "rabitq2") as [->|_]; [literal H; by apply (reads_width _ _ "rabitq" _ "2"); [set_solver|..]|].
  destruct (starts_with "rabitq" s) eqn:F2; [by apply reads_family; [set_solver|..]|].
  destruct (starts_with "turbo_prod" s) eqn:F3; [apply reads_family; [set_solver|done|by intros ->]|].
  destruct (starts_with "turbo_mse" s) eqn:F4; [apply reads_family; [set_solver|done|by intros ->]|].
  split; [done|]. intros H. exfalso. apply reads_other in H; [done| |done|done].
  intros name kind Hin. by no_reads.
Qed.

(** The quantizer specifiers of the constructor are read exactly: blank means the default,
    "sign" and "rabitq" stand alone, and otherwise the text is the name of a family followed
    by a width that fits in a byte; every kind has such a specifier. The bare names of the
    scalar and TurboQuant families are rejected, although the documentation lists them. *)
Theorem quantizer_specs spec d :
  (forall k, parse_quantizer_kind (Some spec) d = Ok k <-> reads (to_lowercase (trim spec)) d k) /\
  (forall k, width k < 256 -> reads (label k) d k) /\
  (forall name k, name ∈ ["scalar"; "turbo_prod"; "turbo_mse"] -> ~ reads name d k).
Proof.
  split_and!.
  - apply parse_reads.
  - assert (Hw : forall name kind n, (name, kind) ∈ families -> n < 256 -> reads (name +:+ u64_to_string n) d (kind n)).
    { intros name kind n Hf Hn. apply (reads_width _ _ name kind (u64_to_string n)); [done|done|]. by apply parse_u8_to_string. }
    intros [n| |n|n|n] Hk; simpl in Hk.
    + apply (Hw "scalar" Engine.Scalar); [set_solver|done].
    + by apply reads_sign.
    + apply (Hw "turbo_mse" Engine.TurboQuantMse); [set_solver|done].
    + apply (Hw "turbo_prod" Engine.TurboQuantProd); [set_solver|done].
    + apply (Hw "rabitq" Engine.RaBitQ); [set_solver|done].
  - intros name k Hn H. set_unfold in Hn. destruct Hn as [->|[->|[->|[]]]]; inversion H; clear H; subst; no_reads; bare_width.
Qed.
End specs.

(** ** The arguments of the constructor *)

Module Args.
Record Args := {
  max_edges : option N;
  search_list_size : option N;
  outlier_count : N;
  initial_capacity : option N;
  warm_quantizer : option string;
  warm_bits : option N;
  cold_quantizer : option string;
  hot_capacity : option N;
  warm_capacity : option N;
  hnsw_threshold : option N;
  ef_construction : option N;
  level0_factor : option N;
  full_scan_threshold_kb : option N;
  max_records : option N;
  evict_score_floor : option f64;
  dedup_cosine_threshold : option f32;
  dedup_max_pairs_per_cycle : option N;
  auto_consolidation_secs : N;
  spreading_decay : option f32;
  spreading_iterations : option N;
  abstraction_co_occurrence_threshold : option N;
  edge_decay_half_life_secs : option N;
  max_concepts : option N;
  concept_max_ngram_len : option N;
  concept_min_ngram_freq : option N;
  concept_enable_pmi : option bool;
  refinement_cosine_threshold : option f32;
  refinement_max_pairs_per_cycle : option N;
  cognitive_alpha : option f32;
  contradiction_cosine_threshold : option f32;
  contradiction_text_threshold : option f32;
  refinement_text_threshold : option f32;
  contradiction_require_opposition : option bool;
  contradiction_weaken_factor : option f32;
  supersession_demotion_factor : option f32;
  contradiction_max_pairs_per_cycle : option N;
  importance_auto_scoring : option bool;
  importance_learning_rate : option f32;
  importance_access_weight : option f32;
  importance_floor : option f32;
  importance_ceiling : option f32;
  concept_evolution_enabled : option bool;
  concept_merge_overlap_threshold : option f32;
  concept_hub_degree_fraction : option f32;
  concept_evolution_max_pairs_per_cycle : option N;
  belief_source_roles : option (list string);
  defer_supersession_commit : option bool;
  exclude_superseded : option bool;
  access_aware_eviction : option bool;
  actr_activation : option bool;
  actr_decay : option f64;
  actr_history : option N;
  incremental_supersession_detection : option bool;
  gist_before_evict : option bool;
  gist_chunk_facts : option N;
  seed_hops_from : option N;
  expansion_max_candidates : option N;
  concept_expansion : option bool;
  temporal_recency_weight : option f32;
  sync_writes : option bool;
  gpu_exact_search : option bool;
  gpu_exact_min_records : option N;
  gpu_memory_budget_mb : option N;
}.
(** The defaults of the signature. *)
Definition default_args : Args := {|
  max_edges := None; search_list_size := None; outlier_count := 0; initial_capacity := None;
  warm_quantizer := None; warm_bits := None; cold_quantizer := None; hot_capacity := None;
  warm_capacity := None; hnsw_threshold := None; ef_construction := None; level0_factor := None;
  full_scan_threshold_kb := None; max_records := None; evict_score_floor := None;
  dedup_cosine_threshold := None; dedup_max_pairs_per_cycle := None; auto_consolidation_secs := 60;
  spreading_decay := None; spreading_iterations := None; abstraction_co_occurrence_threshold := None;
  edge_decay_half_life_secs := None; max_concepts := None; concept_max_ngram_len := None;
  concept_min_ngram_freq := None; concept_enable_pmi := None; refinement_cosine_threshold := None;
  refinement_max_pairs_per_cycle := None; cognitive_alpha := None; contradiction_cosine_threshold := None;
  contradiction_text_threshold := None; refinement_text_threshold := None;
  contradiction_require_opposition := None; contradiction_weaken_factor := None;
  supersession_demotion_factor := None; contradiction_max_pairs_per_cycle := None;
  importance_auto_scoring := None; importance_learning_rate := None; importance_access_weight := None;
  importance_floor := None; importance_ceiling := None; concept_evolution_enabled := None;
  concept_merge_overlap_threshold := None; concept_hub_degree_fraction := None;
  concept_evolution_max_pairs_per_cycle := None; belief_source_roles := None;
  defer_supersession_commit := None; exclude_superseded := None; access_aware_eviction := None;
  actr_activation := None; actr_decay := None; actr_history := None;
  incremental_supersession_detection := None; gist_before_evict := None; gist_chunk_facts := None;
  seed_hops_from := None; expansion_max_candidates := None; concept_expansion := None;
  temporal_recency_weight := None; sync_writes := None; gpu_exact_search := None;
  gpu_exact_min_records := None; gpu_memory_budget_mb := None |}.
End Args.

Definition f32_two : f32 := 0x40000000.
Definition or_keep {A} (arg : option A) (old : A) : A := default old arg.
Definition set_if {A} (f : A -> A) (arg : option A) (old : A) : A :=
  match arg with Some x => f x | None => old end.
(** [Some([])] means no filter. *)
Definition roles_of (arg old : option (list string)) : option (list string) :=
  match arg with Some [] => None | Some roles => Some roles | None => old end.

Definition tier_of (a : Args.Args) (warm cold : Engine.QuantizerKind) (t : TierConfig) : TierConfig := {|
  Config.hot_capacity := or_keep (Args.hot_capacity a) (hot_capacity t);
  Config.warm_capacity := or_keep (Args.warm_capacity a) (warm_capacity t);
  Config.warm_quantizer := warm;
  Config.warm_chunk_bytes := warm_chunk_bytes t;
  Config.hnsw_threshold := or_keep (Args.hnsw_threshold a) (hnsw_threshold t);
  Config.full_scan_threshold_kb := or_keep (Args.full_scan_threshold_kb a) (full_scan_threshold_kb t);
  Config.merge_threshold_segments := merge_threshold_segments t;
  Config.merge_max_records := merge_max_records t;
  Config.cold_quantizer := cold;
  Config.hot_promote_threshold := hot_promote_threshold t;
  Config.warm_demote_threshold := warm_demote_threshold t;
  Config.recency_half_life_secs := recency_half_life_secs t;
  Config.max_records := Args.max_records a;
  Config.evict_score_floor := Args.evict_score_floor a;
  Config.dedup_cosine_threshold := Args.dedup_cosine_threshold a;
  Config.dedup_max_pairs_per_cycle := or_keep (Args.dedup_max_pairs_per_cycle a) (dedup_max_pairs_per_cycle t);
  Config.abstraction_co_occurrence_threshold := or_keep (Args.abstraction_co_occurrence_threshold a) (abstraction_co_occurrence_threshold t);
  Config.edge_decay_half_life_secs := or_keep (Args.edge_decay_half_life_secs a) (edge_decay_half_life_secs t);
  Config.max_concepts := or_keep (Args.max_concepts a) (max_concepts t);
  Config.concept_max_ngram_len := set_if (fun n => N.max n 1) (Args.concept_max_ngram_len a) (concept_max_ngram_len t);
  Config.concept_min_ngram_freq := set_if (fun n => N.max n 1) (Args.concept_min_ngram_freq a) (concept_min_ngram_freq t);
  Config.concept_enable_pmi := or_keep (Args.concept_enable_pmi a) (concept_enable_pmi t);
  Config.refinement_cosine_threshold := Args.refinement_cosine_threshold a;
  Config.refinement_max_pairs_per_cycle := or_keep (Args.refinement_max_pairs_per_cycle a) (refinement_max_pairs_per_cycle t);
  Config.contradiction_cosine_threshold := Args.contradiction_cosine_threshold a;
  Config.contradiction_text_threshold := or_keep (Args.contradiction_text_threshold a) (contradiction_text_threshold t);
  Config.refinement_text_threshold := set_if (fun x => f32_clamp x f32_zero f32_one) (Args.refinement_text_threshold a) (refinement_text_threshold t);
  Config.contradiction_require_opposition := or_keep (Args.contradiction_require_opposition a) (contradiction_require_opposition t);
  Config.contradiction_weaken_factor := or_keep (Args.contradiction_weaken_factor a) (contradiction_weaken_factor t);
  Config.supersession_demotion_factor := set_if (fun x => f32_clamp x f32_zero f32_one) (Args.supersession_demotion_factor a) (supersession_demotion_factor t);
  Config.contradiction_max_pairs_per_cycle := or_keep (Args.contradiction_max_pairs_per_cycle a) (contradiction_max_pairs_per_cycle t);
  Config.importance_auto_scoring := or_keep (Args.importance_auto_scoring a) (importance_auto_scoring t);
  Config.importance_learning_rate := or_keep (Args.importance_learning_rate a) (importance_learning_rate t);
  Config.importance_access_weight := or_keep (Args.importance_access_weight a) (importance_access_weight t);
  Config.importance_floor := or_keep (Args.importance_floor a) (importance_floor t);
  Config.importance_ceiling := or_keep (Args.importance_ceiling a) (importance_ceiling t);
  Config.concept_evolution_enabled := or_keep (Args.concept_evolution_enabled a) (concept_evolution_enabled t);
  Config.concept_merge_overlap_threshold := set_if (fun x => f32_clamp x f32_zero f32_one) (Args.concept_merge_overlap_threshold a) (concept_merge_overlap_threshold t);
  Config.concept_hub_degree_fraction := set_if (fun x => f32_max x f32_zero) (Args.concept_hub_degree_fraction a) (concept_hub_degree_fraction t);
  Config.concept_evolution_max_pairs_per_cycle := or_keep (Args.concept_evolution_max_pairs_per_cycle a) (concept_evolution_max_pairs_per_cycle t);
  Config.belief_source_roles := roles_of (Args.belief_source_roles a) (belief_source_roles t);
  Config.defer_supersession_commit := or_keep (Args.defer_supersession_commit a) (defer_supersession_commit t);
  Config.exclude_superseded := or_keep (Args.exclude_superseded a) (exclude_superseded t);
  Config.access_aware_eviction := or_keep (Args.access_aware_eviction a) (access_aware_eviction t);
  Config.actr_activation := or_keep (Args.actr_activation a) (actr_activation t);
  Config.actr_decay := or_keep (Args.actr_decay a) (actr_decay t);
  Config.actr_history := or_keep (Args.actr_history a) (actr_history t);
  Config.incremental_supersession_detection := or_keep (Args.incremental_supersession_detection a) (incremental_supersession_detection t);
  Config.gist_before_evict := or_keep (Args.gist_before_evict a) (gist_before_evict t);
  Config.gist_chunk_facts := or_keep (Args.gist_chunk_facts a) (gist_chunk_facts t);
  Config.temporal_recency_weight := set_if (fun x => f32_clamp x f32_zero f32_two) (Args.temporal_recency_weight a) (temporal_recency_weight t);
  Config.sync_writes := or_keep (Args.sync_writes a) (sync_writes t);
  Config.gpu_exact_search := or_keep (Args.gpu_exact_search a) (gpu_exact_search t);
  Config.gpu_exact_min_records := or_keep (Args.gpu_exact_min_records a) (gpu_exact_min_records t);
  Config.gpu_memory_budget_mb := or_keep (Args.gpu_memory_budget_mb a) (gpu_memory_budget_mb t);
  Config.gpu_exact_on_cpu_backend := gpu_exact_on_cpu_backend t |}.
Definition spreading_of (a : Args.Args) (s : SpreadingConfig) : SpreadingConfig := {|
  semantic_alpha := semantic_alpha s; lexical_alpha := lexical_alpha s;
  decay := or_keep (Args.spreading_decay a) (decay s); iterations := or_keep (Args.spreading_iterations a) (iterations s);
  Activation.seed_hops_from := or_keep (Args.seed_hops_from a) (Activation.seed_hops_from s);
  Activation.expansion_max_candidates := or_keep (Args.expansion_max_candidates a) (Activation.expansion_max_candidates s);
  Activation.concept_expansion := or_keep (Args.concept_expansion a) (Activation.concept_expansion s) |}.

Section arguments.
Context {U : Unicode} {SJ : SerdeJson}.
(** The configuration of [new], from the default one for the dimension. *)
Definition configure (a : Args.Args) (c : Config.StoreConfig) : Result PyErr Config.StoreConfig :=
  let t := tier c in
  warm ← match Args.warm_quantizer a with
         | Some spec => parse_quantizer_kind (Some spec) (Config.warm_quantizer t)
         | None => Ok (match Args.warm_bits a with Some nbits => Engine.Scalar nbits | None => Config.warm_quantizer t end)
         end;
  cold ← parse_quantizer_kind (Args.cold_quantizer a) (Config.cold_quantizer t);
  Ok {| Config.dimension := Config.dimension c;
        Config.max_edges := or_keep (Args.max_edges a) (Config.max_edges c);
        Config.level0_factor := or_keep (Args.level0_factor a) (Config.level0_factor c);
        ef_construction_field := or_keep (Args.ef_construction a) (ef_construction_field c);
        Config.search_list_size := or_keep (Args.search_list_size a) (Config.search_list_size c);
        Config.cognitive_alpha := or_keep (Args.cognitive_alpha a) (Config.cognitive_alpha c);
        Config.outlier_count := Args.outlier_count a;
        Config.initial_capacity := set_if (fun cap => N.max cap 1024) (Args.initial_capacity a) (Config.initial_capacity c);
        tier := tier_of a warm cold t;
        optimizer_budget := optimizer_budget c;
        auto_consolidation_interval := if Args.auto_consolidation_secs a =? 0 then None else Some (Args.auto_consolidation_secs a);
        spreading := spreading_of a (spreading c) |}.
Definition new_config (powf : f32 -> f32 -> f32) (cpus : option N) (dimension : N) (a : Args.Args)
    : Result PyErr Config.StoreConfig := configure a (default_for_dimension powf cpus dimension).

(** A number neither below [lo] nor above [hi]; a NaN is neither. *)
Definition within (lo hi x : f32) : Prop := f32_ltb x lo = false /\ f32_gtb x hi = false.
Lemma clamp_stays x lo hi : within lo hi lo -> within lo hi hi -> within lo hi (f32_clamp x lo hi).
Proof. unfold f32_clamp, within. intros Hlo Hhi. destruct (f32_ltb x lo) eqn:E1; [done|]. by destruct (f32_gtb x hi) eqn:E2. Qed.
Lemma set_if_stays {A} (P : A -> Prop) f arg old : (forall x, P (f x)) -> P old -> P (set_if f arg old).
Proof. intros Hf Ho. destruct arg; [apply Hf|done]. Qed.

Lemma extract_bits_err p s er : extract_bits p s = Err er -> py_class er = PyValueError.
Proof.
  unfold extract_bits. destruct (String.eqb s p); [by intros [= <-]|].
  destruct (strip_prefix p s) as [r|]; [|by intros [= <-]]. destruct (parse_u8 r); [done|by intros [= <-]].
Qed.
Lemma specs_err spec d er : parse_quantizer_kind spec d = Err er -> py_class er = PyValueError.
Proof.
  assert (Hx : forall kind p s, (kind : N -> Engine.QuantizerKind) <$> extract_bits p s = Err er -> py_class er = PyValueError).
  { intros kind p s H. destruct (extract_bits p s) as [n|er'] eqn:E; [done|]. injection H as <-. by eapply extract_bits_err. }
  destruct spec as [s|]; [|done]. unfold parse_quantizer_kind.
  repeat case_match; try done; try apply Hx. by intros [= <-].
Qed.
(** The fields of the tier configuration with bounds of their own. *)
Definition tier_bounds (t : TierConfig) : Prop :=
  1 <= Config.concept_max_ngram_len t /\ 1 <= Config.concept_min_ngram_freq t /\
  within f32_zero f32_one (Config.refinement_text_threshold t) /\
  within f32_zero f32_one (Config.supersession_demotion_factor t) /\
  within f32_zero f32_one (Config.concept_merge_overlap_threshold t) /\
  within f32_zero f32_two (Config.temporal_recency_weight t) /\
  f32_ltb (Config.concept_hub_degree_fraction t) f32_zero = false /\
  Config.belief_source_roles t <> Some [].
Lemma max_stays x : f32_ltb (f32_max x f32_zero) f32_zero = false.
Proof. unfold f32_max. destruct (is_nan x); [done|]. simpl. by destruct (f32_ltb x f32_zero) eqn:E. Qed.
Lemma tier_bounded a warm cold t : tier_bounds t -> tier_bounds (tier_of a warm cold t).
Proof.
  intros (H1 & H2 & H3 & H4 & H5 & H6 & H7 & H8).
  split_and!; unfold tier_of;
    cbn [concept_max_ngram_len concept_min_ngram_freq refinement_text_threshold supersession_demotion_factor
         concept_merge_overlap_threshold temporal_recency_weight concept_hub_degree_fraction belief_source_roles].
  1-7: apply set_if_stays; [|done]; intros x; first [apply clamp_stays; by split|apply max_stays|lia].
  unfold roles_of. by destruct (Args.belief_source_roles a) as [[|]|].
Qed.

(** The constructor's configuration: without arguments it is the default one for the
    dimension; whatever the arguments, the clamped fields are within their bounds, the
    interval of consolidation is absent exactly for zero and no empty role list is kept, and
    the quantizers are those that the specifiers mean; an exception is a [ValueError]. *)
Theorem arguments_configure powf cpus dimension :
  new_config powf cpus dimension Args.default_args = Ok (default_for_dimension powf cpus dimension) /\
  forall a, match new_config powf cpus dimension a with
    | Err er => py_class er = PyValueError
    | Ok c =>
        Config.dimension c = dimension /\ 1024 <= Config.initial_capacity c /\
        tier_bounds (tier c) /\
        (auto_consolidation_interval c = None <-> Args.auto_consolidation_secs a = 0) /\
        (forall spec, Args.warm_quantizer a = Some spec ->
           reads (to_lowercase (trim spec)) (Engine.Scalar 8) (Config.warm_quantizer (tier c))) /\
        (forall spec, Args.cold_quantizer a = Some spec ->
           reads (to_lowercase (trim spec)) (Engine.Scalar 8) (Config.cold_quantizer (tier c)))
    end.
Proof.
  split; [done|]. intros a. unfold new_config, configure.
  set (base := default_for_dimension powf cpus dimension).
  assert (Hb : tier_bounds (tier base)) by done.
  assert (Hi : 1024 <= Config.initial_capacity base) by done.
  change (Config.warm_quantizer (tier base)) with (Engine.Scalar 8).
  change (Config.cold_quantizer (tier base)) with (Engine.Scalar 8).
  assert (Hr : forall spec k, parse_quantizer_kind (Some spec) (Engine.Scalar 8) = Ok k -> reads (to_lowercase (trim spec)) (Engine.Scalar 8) k).
  { intros spec k. apply parse_reads. }
  destruct (match Args.warm_quantizer a with Some _ => _ | None => _ end) as [warm|er] eqn:Hw; cbn [mbind Result_bind].
  2: { destruct (Args.warm_quantizer a); [by eapply specs_err|done]. }
  destruct (parse_quantizer_kind (Args.cold_quantizer a) (Engine.Scalar 8)) as [cold|er] eqn:Hc; [|by eapply specs_err].
  split_and!; [done| |by apply tier_bounded| | |].
  - apply (set_if_stays (fun n => 1024 <= n)); [|done]. intros x. lia.
  - simpl. by destruct (N.eqb_spec (Args.auto_consolidation_secs a) 0).
  - intros spec Hs. rewrite Hs in Hw. by apply Hr.
  - intros spec Hs. rewrite Hs in Hc. by apply Hr.
Qed.
End arguments.
