(* ===== verification/PyEngine.v ===== *)
(** * The Python class, [PyMemoryEngine] of [crates/turbomemory_python/src/lib.rs]

    The handle a Python object holds, one definition per method over the engine, and the
    two compressors around a Python callable. What a method does is what the HTTP route of
    the same name does ([python_agrees]); after [close] the engine is gone, every method
    raises and the store opens again with everything in it ([close_safe]). The interpreter
    lock is not modelled: a method runs to its end. [gpu_search_stats] and
    [gpu_accelerated] read what the engine of this development does not hold. *)

From S2P Require Import Prelude Core Floats Vocabulary Metrics Record Graph Wal VectorStore MetadataStore AccessCounters ScopeIndex PayloadIndex Segments SegmentHolder Optimizer Engine Recovery Durability CrashSafety Steady EngineTheorems SegmentSearch TopOf Search Bm25 Extract Ccs Config Retention Belief Consolidation ApiService ApiServer PyConfig.
#[local] Open Scope turbo_scope.

(** [read_graph().graph()]. *)
Class GraphView {GO : GraphOps} := { graph_of : Engine.Graph -> MemoryGraph }.

(** ** Values *)

(** The dictionaries of [get_records]. *)
Record PyRecord := {
  pr_id : string; pr_text : string; pr_payload : option string; pr_scope : option string;
  pr_source_role : option string; pr_importance : f32; pr_created_at : N; pr_insert_seq : N }.
Definition record_dict (m : MetaRecord) : PyRecord := {|
  pr_id := id m; pr_text := text m; pr_payload := payload m; pr_scope := scope m; pr_source_role := source_role m;
  pr_importance := importance m; pr_created_at := created_at m; pr_insert_seq := insert_seq m |}.

Abbreviation Scored := (list (string * f32)) (only parsing).
Inductive PyValue :=
  | PyNone
  | PyBool (b : bool)
  | PyInt (n : N)
  | PyStr (s : string)
  | PyOptStr (s : option string)
  | PyTriple (a b c : N)
  | PyHits (l : Scored)
  | PyOptHits (l : option Scored)
  | PyHitLists (l : list Scored)
  | PyStrings (l : list string)
  | PyStringSet (s : gset string)            (** a list in an unspecified order *)
  | PyRecords (l : list (option PyRecord))
  | PyReport (r : RecoveryReport)
  | PyStats (s : GraphStats)
  | PyConcepts (l : list (string * N))
  | PyBeliefs (l : list BeliefResolution)
  | PyProposals (l : list (string * string * string * f32)).

(** ** Callables *)

Section callables.
Context {U : Unicode} {CJ : CcsJson}.
(** A call of the compressor's callable, and the conversion of what it returns to a string. *)
Definition PyCallable := string -> string -> string -> Result PyErr (Result PyErr string).
(** [PythonCompressor::compress]. *)
Definition python_compress (callable : PyCallable) : Compressor := fun ccs user_input response =>
  let result :=
    output ← callable (ccs_to_json ccs) user_input response;
    json_str ← output;
    Ok json_str in
  match result with
  | Err _ => det_compress ccs user_input response
  | Ok json_str =>
      match ccs_from_str json_str with
      | Some parsed => parsed
      | None => det_compress ccs user_input response
      end
  end.

(** What the gist callable returns: [None], or an object that converts or does not. *)
Inductive PyGist := GistNone | GistObject (extracted : Result PyErr (string * list f32)).
Definition PyGister := list string -> Result PyErr PyGist.
(** [PythonGistCompressor::compress]; the text of the exception is left out. *)
Definition python_gist (callable : PyGister) (texts : list string) : Result string (option (string * list f32)) :=
  output ← map_err (fun _ => "gist callback raised") (callable texts);
  match output with
  | GistNone => Ok None
  | GistObject extracted =>
      gist ← map_err (fun _ => "gist callback must return None or (text, embedding)") extracted;
      Ok (Some gist)
  end.
End callables.

(** ** The handle *)

(** A live engine: its state, the compressors behind their locks, the report of [open].
    The handle is [None] once closed. *)
Record Live {GO : GraphOps} {TO : TextOps} := {
  l_engine : Engine; l_compressor : Compressor;
  l_gist : option (list string -> Result string (option (string * list f32))); l_report : RecoveryReport }.

(** The calls of a method. *)
Inductive PyCall :=
  | PInsert (id text : string) (embedding : PyAny) (importance_score : f32) (concepts : list string)
      (payload scope source_role : option string)
  | PInsertBatch (ids texts : list string) (embeddings : PyAny) (scores : list f32) (concepts : list (list string))
      (payloads scopes source_roles : option (list string))
  | PSearchAnn (query_embedding : PyAny) (top_k : N) (search_list_size : option N) (scope : option string)
  | PSearchAnnBatch (queries : PyAny) (top_k : N) (search_list_size : option N) (scope : option string)
  | PSearchAnnCandidates (query_embedding : PyAny) (top_k : N) (search_list_size : option N) (scope : option string)
  | PSearch (query_text : string) (query_embedding : PyAny) (top_k : N) (search_list_size : option N) (scope : option string)
  | PStepSession (user_input assistant_response : string)
  | PSetLlmCompressor (callable : PyCallable)
  | PSetGistCompressor (callable : PyGister)
  | PTriggerConsolidation
  | PEvict
  | PDeduplicate
  | PRecomputeImportance
  | PEvolveConceptVocabulary
  | PFlush
  | PDelete (id : string)
  | PRecordCount
  | PContainsId (id : string)
  | PGetText (id : string)
  | PGetRecords (ids : list string)
  | PScopeIds (scope : string)
  | PScopes
  | PNextInsertSeq
  | PClosed
  | PRecoveryReport
  | PGraphStats
  | PGetConcepts
  | PGetMemoryConcepts (id : string)
  | PGetRefinements (id : string)
  | PGetContradictions (id : string)
  | PSupersededIds
  | PResolveBeliefs (ids : list string)
  | PUpdate (id text : string) (embedding : PyAny) (importance_score : f32) (concepts : list string)
      (payload scope source_role : option string)
  | PProposeSupersessions
  | PProposeSupersessionCandidates (min_cosine : f32) (per_record : N) (margin : option f32)
  | PCommitSupersessions (pairs : list (string * string * string))
  | PClose.

Section methods.
Context (en : Endian) {HC : Crc32} {BW : Bincode WalOp} {BW1 : Bincode WalOpV1} {BM : Bincode MetaRecord}
  {BH : Bincode (list N)} {SJ : SerdeJson} {JS : JsonSyntax} {GO : GraphOps} {TO : TextOps} {RG : RetentionGraph}
  {U : Unicode} {LM : Libm} {HI : HashIter} {RI : RecordIter}
  {K : Kernels} {B1 : BinaryHeap rev_heap_le} {B2 : BinaryHeap item_le} {SN : SelectNth best_first}
  {SG : SearchGraph} {ST_ : SearchText} {GPU : GpuExact} {BG : BeliefGraph} {LG : LearningGraph} {CJ : CcsJson}
  {GV : GraphView}.

(** [new]. *)
Definition new (powf : f32 -> f32 -> f32) (cpus : option N) (d : Disk) (dimension : N) (a : Args.Args) (io : OpenIo)
    : Result PyErr Live :=
  config ← new_config powf cpus dimension a;
  opened ← map_err storage_err (Recovery.open en d (engine_config config) io);
  Ok {| l_engine := opened.1; l_compressor := det_compress; l_gist := None; l_report := opened.2 |}.

(** The backend's product and whether it is a device, for the batched search. *)
Context (gemm : list (list f32) -> list (list f32) -> option (list f32)) (use_gpu : bool).
Section one_call.
Context (cfg : Config.StoreConfig) (v : Env).
Abbreviation rcfg := (retention_config cfg).
Abbreviation bcfg := (belief_config cfg).
Abbreviation scfg := (search_config cfg).
Abbreviation now := (v_now v).
Abbreviation io := (v_cycle v).

Abbreviation Handle := (option Live).
Definition set_engine (e : Engine) (l : Live) : Live := {|
  l_engine := e; l_compressor := l_compressor l; l_gist := l_gist l; l_report := l_report l |}.
(** [set_compressor] and [set_gist_compressor]. *)
Definition set_compressor (c : Compressor) (l : Live) : Live := {|
  l_engine := l_engine l; l_compressor := c; l_gist := l_gist l; l_report := l_report l |}.
Definition set_gist_compressor (g : option (list string -> Result string (option (string * list f32)))) (l : Live) : Live := {|
  l_engine := l_engine l; l_compressor := l_compressor l; l_gist := g; l_report := l_report l |}.

Definition closed_error : PyErr := runtime_error "engine is closed".
(** [self.engine()?]. *)
Definition engine (h : Handle) : Result PyErr Live := ok_or h closed_error.
(** A method: the engine, the arguments converted, then the engine's work with its errors
    mapped by [storage_err]. [None] is a call that does not return. *)
Definition with_engine (f : Live -> Result PyErr (SM PyValue)) (h : Handle) : option (Handle * Result PyErr PyValue) :=
  match engine h with
  | Err er => Some (h, Err er)
  | Ok l =>
      match f l with
      | Err er => Some (h, Err er)
      | Ok work => '(e, r) ← work (l_engine l); Some (Some (set_engine e l), map_err storage_err r)
      end
  end.
(** The engine's results as Python values. *)
Definition run {A} (f : A -> PyValue) (m : SM A) : SM PyValue := fun e =>
  '(e, r) ← m e; Some (e, match r with Ok a => Ok (f a) | Err er => Err er end).
Definition run_st {A} (f : A -> PyValue) (m : ST Engine A) : SM PyValue := run f (fun e => Some (m e)).
Definition read (f : Engine -> PyValue) : SM PyValue := fun e => Some (e, Ok (f e)).
(** The compressors are set on the shared engine. *)
Definition with_live (f : Live -> Live) (h : Handle) : option (Handle * Result PyErr PyValue) :=
  match engine h with
  | Err er => Some (h, Err er)
  | Ok l => Some (Some (f l), Ok PyNone)
  end.

(** ** Methods *)

Definition write_input (i t : string) (emb : list f32) (imp : f32) (cs : list string) (p sc role : option string) : WriteInput := {|
  i_id := i; i_text := t; i_embedding := emb; i_importance := imp; i_concepts := cs; i_payload := p; i_scope := sc;
  i_source_role := role |}.
Definition insert (i t : string) (embedding : PyAny) (imp : f32) (cs : list string) (p sc role : option string)
    : Handle -> option (Handle * Result PyErr PyValue) := with_engine (fun _ =>
  emb ← extract_f32_input embedding;
  p ← parse_payload p;
  Ok (run_st PyBool (insert_with_payload_role en (write_input i t (as_slice emb) imp cs p sc role) now (v_write v)))).
Definition update (i t : string) (embedding : PyAny) (imp : f32) (cs : list string) (p sc role : option string)
    : Handle -> option (Handle * Result PyErr PyValue) := with_engine (fun _ =>
  emb ← extract_f32_input embedding;
  p ← parse_payload p;
  Ok (run_st PyBool (update_with_payload_role en (write_input i t (as_slice emb) imp cs p sc role) now (v_write v)))).
(** [None] is no array. *)
Definition some_each (l : option (list string)) : list (option string) :=
  match l with Some l => map Some l | None => [] end.
Definition insert_batch (idl ts : list string) (embeddings : PyAny) (scores : list f32) (cs : list (list string))
    (ps scs roles : option (list string)) : Handle -> option (Handle * Result PyErr PyValue) := with_engine (fun _ =>
  matrix ← extract_f32_matrix embeddings;
  ps ← match ps with Some l => mapM (fun s => parse_payload (Some s)) l | None => Ok [] end;
  Ok (run_st PyInt (insert_batch_with_payload_role en
    {| ids := idl; texts := ts; embeddings := rows matrix; importances := scores; concept_lists := cs;
       payloads := ps; scope_list := some_each scs; source_roles := some_each roles |} now (v_write v)))).

Definition search_ann (query : PyAny) (top_k : N) (ef : option N) (sc : option string)
    : Handle -> option (Handle * Result PyErr PyValue) := with_engine (fun _ =>
  q ← extract_f32_input query;
  Ok (run PyHits (search_ann_scoped en scfg (v_snapshot v) (as_slice q) top_k ef sc now))).
Definition search_ann_batch (queries : PyAny) (top_k : N) (ef : option N) (sc : option string)
    : Handle -> option (Handle * Result PyErr PyValue) := with_engine (fun _ =>
  matrix ← extract_f32_matrix queries;
  Ok (run PyHitLists (Search.search_ann_batch en scfg (v_snapshot v) gemm use_gpu (rows matrix) top_k ef None sc now))).
Definition search (query_text : string) (query : PyAny) (top_k : N) (ef : option N) (sc : option string)
    : Handle -> option (Handle * Result PyErr PyValue) := with_engine (fun _ =>
  q ← extract_f32_input query;
  Ok (run PyOptHits (search_scoped_with_ef en scfg (v_snapshot v) query_text (as_slice q) top_k ef sc now))).
Definition step_session (user_input response : string) : Handle -> option (Handle * Result PyErr PyValue) :=
  with_engine (fun l => Ok (run_st PyStr (Consolidation.step_session (l_compressor l) user_input response (v_flush v)))).

Definition trigger_consolidation : Handle -> option (Handle * Result PyErr PyValue) := with_engine (fun l =>
  Ok (run (fun r : N * N * N * N * N => let '(sealed, compacted, promoted, _, _) := r in PyTriple sealed compacted promoted)
    (Consolidation.trigger_consolidation en cfg (l_gist l) (v_gist_seq v) (v_watermark v) io))).
Definition evict : Handle -> option (Handle * Result PyErr PyValue) := with_engine (fun l =>
  Ok (run_st PyInt (fun e =>
    let '(e, _, r) := Retention.evict en rcfg (l_gist l) (v_gist_seq v) now (c_gists io) (c_evict io) e in (e, r)))).
Definition deduplicate : Handle -> option (Handle * Result PyErr PyValue) := with_engine (fun _ =>
  Ok (run PyInt (Retention.deduplicate en rcfg scfg (s_dedup io) now (c_dedup io)))).
Definition recompute_importance : Handle -> option (Handle * Result PyErr PyValue) := with_engine (fun _ =>
  Ok (run PyInt (Retention.recompute_importance rcfg now (c_importance io)))).
Definition evolve_concept_vocabulary : Handle -> option (Handle * Result PyErr PyValue) := with_engine (fun _ =>
  Ok (run (fun r : N * N * N => PyTriple r.1.1 r.1.2 r.2) (Consolidation.evolve_concept_vocabulary cfg (c_evolve io)))).
Definition flush : Handle -> option (Handle * Result PyErr PyValue) :=
  with_engine (fun _ => Ok (run_st (fun _ => PyNone) (Recovery.flush en (v_flush v)))).
Definition delete (i : string) : Handle -> option (Handle * Result PyErr PyValue) :=
  with_engine (fun _ => Ok (run_st PyBool (delete_by_id i (v_write v)))).

Definition search_ann_candidates (query : PyAny) (top_k : N) (ef : option N) (sc : option string)
    : Handle -> option (Handle * Result PyErr PyValue) := with_engine (fun _ =>
  q ← extract_f32_input query;
  Ok (run PyHits (search_ann_scoped en scfg (v_snapshot v) (as_slice q) top_k ef sc now))).
Definition set_llm_compressor (callable : PyCallable) : Handle -> option (Handle * Result PyErr PyValue) :=
  with_live (set_compressor (python_compress callable)).
Definition set_gist_callable (callable : PyGister) : Handle -> option (Handle * Result PyErr PyValue) :=
  with_live (set_gist_compressor (Some (python_gist callable))).

(** Lookups: the method only reads the engine. *)
Definition reading (f : Live -> Engine -> PyValue) : Handle -> option (Handle * Result PyErr PyValue) :=
  with_engine (fun l => Ok (read (f l))).
Definition record_count : Handle -> option (Handle * Result PyErr PyValue) := reading (fun _ e => PyInt (MetadataStore.record_count (meta e))).
Definition contains_id (i : string) : Handle -> option (Handle * Result PyErr PyValue) := reading (fun _ e => PyBool (Engine.contains_id e i)).
Definition get_text (i : string) : Handle -> option (Handle * Result PyErr PyValue) :=
  reading (fun _ e => PyOptStr (text <$> find_meta_by_id e i)).
Definition get_records (idl : list string) : Handle -> option (Handle * Result PyErr PyValue) :=
  reading (fun _ e => PyRecords (map (fun i => record_dict <$> find_meta_by_id e i) idl)).
Definition scope_ids (sc : string) : Handle -> option (Handle * Result PyErr PyValue) := reading (fun _ e => PyStrings (Engine.scope_ids e sc)).
Definition scopes : Handle -> option (Handle * Result PyErr PyValue) := reading (fun _ e => PyStrings (Engine.scopes e)).
Definition next_insert_seq : Handle -> option (Handle * Result PyErr PyValue) := reading (fun _ e => PyInt (Engine.next_insert_seq e)).
Definition recovery_report : Handle -> option (Handle * Result PyErr PyValue) := reading (fun l _ => PyReport (l_report l)).
Definition resolve_beliefs (idl : list string) : Handle -> option (Handle * Result PyErr PyValue) :=
  reading (fun _ e => PyBeliefs (Belief.resolve_beliefs e idl)).

(** Introspection of the graph. *)
Definition on_graph (f : MemoryGraph -> PyValue) : Handle -> option (Handle * Result PyErr PyValue) :=
  reading (fun _ e => f (graph_of (Engine.graph e))).
Definition graph_stats : Handle -> option (Handle * Result PyErr PyValue) := on_graph (fun g => PyStats (stats g)).
Definition get_memory_concepts (i : string) : Handle -> option (Handle * Result PyErr PyValue) := on_graph (fun g => PyStrings (memory_concepts g i)).
Definition get_refinements (i : string) : Handle -> option (Handle * Result PyErr PyValue) := on_graph (fun g => PyStrings (refined_by g i)).
Definition get_contradictions (i : string) : Handle -> option (Handle * Result PyErr PyValue) := on_graph (fun g => PyStrings (contradicted_by g i)).
Definition superseded_ids : Handle -> option (Handle * Result PyErr PyValue) := on_graph (fun g => PyStringSet (Graph.superseded_ids g)).

(** Degree descending, then the concept. *)
Definition by_degree (a b : string * N) : Prop := b.2 < a.2 \/ (a.2 = b.2 /\ string_le a.1 b.1).
#[global] Instance by_degree_dec a b : Decision (by_degree a b).
Proof. unfold by_degree, string_le. apply _. Defined.
(** The concepts without a plus sign, with their degrees. *)
Definition concepts_by_degree (g : MemoryGraph) : list (string * N) :=
  sort_by by_degree (omap (fun kn : string * Node =>
    match node_id kn.2 with
    | NConcept c => if has_plus c then None else Some (c, concept_degree g c)
    | NMemory _ => None
    end) (map_to_list (nodes g))).
Definition get_concepts : Handle -> option (Handle * Result PyErr PyValue) := on_graph (fun g => PyConcepts (concepts_by_degree g)).

Definition proposal_tuple (p : ProposedSupersession) : string * string * string * f32 :=
  (old_id p, new_id p, kind_as_str (ps_kind p), ps_cosine p).
Definition propose_supersessions : Handle -> option (Handle * Result PyErr PyValue) := with_engine (fun _ =>
  Ok (run (fun r : list ProposedSupersession * N => PyProposals (map proposal_tuple r.1))
    (Belief.propose_supersessions en bcfg scfg (v_snapshot v) (v_watermark v) now))).
Definition propose_supersession_candidates (min_cosine : f32) (per_record : N) (margin : option f32)
    : Handle -> option (Handle * Result PyErr PyValue) := with_engine (fun _ =>
  Ok (run (fun r : list ProposedSupersession * N => PyProposals (map proposal_tuple r.1))
    (Belief.propose_supersession_candidates en bcfg scfg (v_snapshot v) min_cosine per_record
       (default 0x7F800000 margin) (v_watermark v) now))).
Definition commit_supersessions (pairs : list (string * string * string)) : Handle -> option (Handle * Result PyErr PyValue) :=
  with_engine (fun _ =>
    let parsed := omap (fun p : string * string * string => k ← from_label p.2; Some (p.1, k)) pairs in
    Ok (run_st PyInt (commit_supersessions_by_id en bcfg parsed (v_flush v)))).

(** [close]: the handle is taken first; what is released comes along. *)
Definition close (h : Handle) : Handle * option Engine * Result PyErr PyValue :=
  match h with
  | None => (None, None, Ok PyNone)
  | Some l =>
      let l := set_gist_compressor None (set_compressor det_compress l) in
      let '(e, r) := Consolidation.shutdown en (v_flush v) (l_engine l) in
      (None, Some e, (fun _ => PyNone) <$> map_err storage_err r)
  end.
Lemma close_live l : exists e r, close (Some l) = (None, Some e, r).
Proof. unfold close. destruct (Consolidation.shutdown en (v_flush v) _) as [e r]. by eexists _, _. Qed.
Definition is_closed (h : Handle) : bool := negb (bool_decide (is_Some h)).

Definition py_call (c : PyCall) (h : Handle) : option (Handle * Result PyErr PyValue) :=
  match c with
  | PInsert i t emb imp cs p sc role => insert i t emb imp cs p sc role h
  | PInsertBatch idl ts embs scores cs ps scs roles => insert_batch idl ts embs scores cs ps scs roles h
  | PSearchAnn q k ef sc => search_ann q k ef sc h
  | PSearchAnnBatch qs k ef sc => search_ann_batch qs k ef sc h
  | PSearchAnnCandidates q k ef sc => search_ann_candidates q k ef sc h
  | PSearch t q k ef sc => search t q k ef sc h
  | PStepSession u r => step_session u r h
  | PSetLlmCompressor f => set_llm_compressor f h
  | PSetGistCompressor f => set_gist_callable f h
  | PTriggerConsolidation => trigger_consolidation h
  | PEvict => evict h
  | PDeduplicate => deduplicate h
  | PRecomputeImportance => recompute_importance h
  | PEvolveConceptVocabulary => evolve_concept_vocabulary h
  | PFlush => flush h
  | PDelete i => delete i h
  | PRecordCount => record_count h
  | PContainsId i => contains_id i h
  | PGetText i => get_text i h
  | PGetRecords idl => get_records idl h
  | PScopeIds sc => scope_ids sc h
  | PScopes => scopes h
  | PNextInsertSeq => next_insert_seq h
  | PClosed => Some (h, Ok (PyBool (is_closed h)))
  | PRecoveryReport => recovery_report h
  | PGraphStats => graph_stats h
  | PGetConcepts => get_concepts h
  | PGetMemoryConcepts i => get_memory_concepts i h
  | PGetRefinements i => get_refinements i h
  | PGetContradictions i => get_contradictions i h
  | PSupersededIds => superseded_ids h
  | PResolveBeliefs idl => resolve_beliefs idl h
  | PUpdate i t emb imp cs p sc role => update i t emb imp cs p sc role h
  | PProposeSupersessions => propose_supersessions h
  | PProposeSupersessionCandidates min_cosine per_record margin => propose_supersession_candidates min_cosine per_record margin h
  | PCommitSupersessions pairs => commit_supersessions pairs h
  | PClose => let '(h, _, r) := close h in Some (h, r)
  end.

(** ** The same request over HTTP *)

Definition env_of (l : Live) : Env := {|
  v_now := v_now v; v_write := v_write v; v_flush := v_flush v; v_cycle := v_cycle v; v_snapshot := v_snapshot v;
  v_compressor := l_compressor l; v_gist := l_gist l; v_gist_seq := v_gist_seq v; v_watermark := v_watermark v |}.
(** A payload that is passed on as it is: none, or JSON that is not blank. *)
Definition clean (p : option string) : Prop := parse_payload p = Ok p.
(** Absent lists are empty arrays of the request. *)
Definition batch_req (idl ts : list string) (m : list (list f32)) (scores : list f32) (cs : list (list string))
    (ps scs roles : option (list string)) : BatchReq := {|
  q_ids := idl; q_texts := ts; q_embeddings := m; q_scores := scores; q_concepts := cs;
  q_payloads := default [] ps; q_scopes := default [] scs; q_source_roles := default [] roles |}.
(** A method call and the request with the same meaning. *)
Inductive same : PyCall -> Request (Value Num) -> Prop :=
  | same_insert i t obj emb imp cs p sc role : extract_f32_input obj = Ok emb -> clean p ->
      same (PInsert i t obj imp cs p sc role) (Insert (write_input i t (as_slice emb) imp cs p sc role))
  | same_update i t obj emb imp cs p sc role : extract_f32_input obj = Ok emb -> clean p ->
      same (PUpdate i t obj imp cs p sc role) (Update (write_input i t (as_slice emb) imp cs p sc role))
  | same_batch idl ts obj m scores cs ps scs roles :
      let q := batch_req idl ts (rows m) scores cs ps scs roles in
      extract_f32_matrix obj = Ok m -> Forall (fun p => clean (Some p)) (default [] ps) -> lengths_of q = Ok tt ->
      same (PInsertBatch idl ts obj scores cs ps scs roles) (InsertBatch q)
  | same_delete i : same (PDelete i) (Delete i)
  | same_search t obj q k sc : extract_f32_input obj = Ok q ->
      same (PSearch t obj k None sc) (ApiServer.Search t (as_slice q) k Null sc)
  | same_search_ann obj q k sc : extract_f32_input obj = Ok q ->
      same (PSearchAnn obj k None sc) (SearchAnn (as_slice q) k Null sc)
  | same_session u r : same (PStepSession u r) (StepSession u r)
  | same_consolidation : same PTriggerConsolidation TriggerConsolidation
  | same_flush : same PFlush Flush.
(** The response for a value; HTTP leaves out the promoted records. *)
Definition to_rest (c : PyCall) (x : PyValue) : RestResponse :=
  match c, x with
  | PInsert _ _ _ _ _ _ _ _, PyBool b => InsertResp b
  | PUpdate _ _ _ _ _ _ _ _, PyBool b => UpdateResp b
  | PDelete _, PyBool b => DeleteResp b
  | PInsertBatch _ _ _ _ _ _ _ _, PyInt n => InsertBatchResp n
  | PSearch _ _ _ _ _, PyOptHits (Some l) => SearchResp (map_results l) false
  | PSearch _ _ _ _ _, PyOptHits None => SearchResp [] true
  | PSearchAnn _ _ _ _, PyHits l => SearchResp (map_results l) false
  | PStepSession _ _, PyStr j => StepSessionResp j
  | PTriggerConsolidation, PyTriple sealed compacted _ => ConsolidationResp sealed compacted
  | _, _ => FlushResp
  end.
Definition rest_answer (c : PyCall) (r : Result PyErr PyValue) : Result (N * string) RestResponse :=
  match r with Ok x => Ok (to_rest c x) | Err er => Err (class_status (py_class er)) end.

Lemma payloads_kept ps : Forall (fun p => clean (Some p)) ps -> mapM (fun s => parse_payload (Some s)) ps = Ok (map Some ps).
Proof. induction 1 as [|p ps Hp _ IH]; [done|]. cbn [mapM]. rewrite Hp. cbn [mbind Result_bind]. by rewrite IH. Qed.
Lemma optional_some l : optional (default [] l) = some_each l.
Proof. by destruct l as [[|]|]. Qed.

(** The engine's work [m], through the handle and through a handler that ends with [k]. *)
Lemma run_agrees {A} c (f : A -> PyValue) (k : A -> Api RestResponse) (m : SM A) l :
  (forall a e, k a e = Some (e, Ok (to_rest c (f a)))) ->
  ('(e, r) ← api_bind (sm m) k (l_engine l); Some (e, map_err status_and_code r))
  = ('(h, r) ← ('(e, r) ← run f m (l_engine l); Some (Some (set_engine e l), map_err storage_err r));
     e ← l_engine <$> h; Some (e, rest_answer c r)).
Proof.
  intros Hk. unfold api_bind, sm, run. destruct (m (l_engine l)) as [[e [a|er]]|]; [simpl; by rewrite Hk| |done].
  apply (f_equal (fun s => Some (e, Err s))), exceptions_are_statuses.
Qed.
Lemma run_st_agrees {A} c (f : A -> PyValue) (k : A -> Api RestResponse) (m : ST Engine A) l :
  (forall a e, k a e = Some (e, Ok (to_rest c (f a)))) ->
  ('(e, r) ← api_bind (st m) k (l_engine l); Some (e, map_err status_and_code r))
  = ('(h, r) ← ('(e, r) ← run_st f m (l_engine l); Some (Some (set_engine e l), map_err storage_err r));
     e ← l_engine <$> h; Some (e, rest_answer c r)).
Proof.
  intros Hk. unfold run_st. rewrite <- (run_agrees c f k (fun e => Some (m e)) l Hk).
  unfold api_bind, st, sm. simpl. by destruct (m (l_engine l)).
Qed.

Lemma batch_agrees idl ts obj m scores cs ps scs roles : extract_f32_matrix obj = Ok m ->
  Forall (fun p => clean (Some p)) (default [] ps) -> lengths_of (batch_req idl ts (rows m) scores cs ps scs roles) = Ok tt ->
  forall l, ('(e, r) ← rest_insert_batch en (env_of l) (batch_req idl ts (rows m) scores cs ps scs roles) (l_engine l);
             Some (e, map_err status_and_code r))
  = ('(h, r) ← insert_batch idl ts obj scores cs ps scs roles (Some l);
     e ← l_engine <$> h; Some (e, rest_answer (PInsertBatch idl ts obj scores cs ps scs roles) r)).
Proof.
  intros He Hp Hl l. unfold insert_batch, with_engine, engine, rest_insert_batch. cbn [ok_or]. rewrite He, Hl. cbn [mbind Result_bind].
  assert (Hps : match ps with Some ps => mapM (fun s => parse_payload (Some s)) ps | None => Ok [] end = Ok (some_each ps)).
  { destruct ps as [ps|]; [by apply payloads_kept|done]. }
  rewrite Hps. cbn [Result_bind].
  replace (batch_of (batch_req idl ts (rows m) scores cs ps scs roles)) with {|
    ids := idl; texts := ts; embeddings := rows m; importances := scores; concept_lists := cs;
    payloads := some_each ps; scope_list := some_each scs; source_roles := some_each roles |}
    by (unfold batch_of; simpl; by rewrite !optional_some).
  by apply (run_st_agrees (PInsertBatch idl ts obj scores cs ps scs roles) PyInt).
Qed.
Lemma search_agrees t obj q k sc : extract_f32_input obj = Ok q -> forall l,
  ('(e, r) ← rest_search en cfg (env_of l) t (as_slice q) k Null sc (l_engine l); Some (e, map_err status_and_code r))
  = ('(h, r) ← search t obj k None sc (Some l); e ← l_engine <$> h; Some (e, rest_answer (PSearch t obj k None sc) r)).
Proof.
  intros He l. unfold search, with_engine, engine. cbn [ok_or]. rewrite He. cbn [mbind Result_bind].
  apply (run_agrees (PSearch t obj k None sc) PyOptHits). by intros [hits|].
Qed.

(** A method of the Python class and the HTTP request with the same meaning do the same to
    the engine and answer the same: the values correspond, and a [ValueError], a [KeyError] or
    a [RuntimeError] is raised exactly where the server answers 400, 404 or 500. *)
Theorem python_agrees c q l : same c q ->
  ('(e, r) ← rest_route en cfg (env_of l) q (l_engine l); Some (e, map_err status_and_code r))
  = ('(h, r) ← py_call c (Some l); e ← l_engine <$> h; Some (e, rest_answer c r)).
Proof.
  intros Hs. destruct Hs as [i t obj emb imp cs p sc role He Hp|i t obj emb imp cs p sc role He Hp
    |idl ts obj m scores cs ps scs roles q He Hp Hl|i|t obj q k sc He|obj q k sc He|u r| |]; cbn [rest_route py_call].
  - unfold insert, with_engine, engine. cbn [ok_or]. rewrite He. cbn [mbind Result_bind]. rewrite Hp. by apply run_st_agrees.
  - unfold update, with_engine, engine. cbn [ok_or]. rewrite He. cbn [mbind Result_bind]. rewrite Hp. by apply run_st_agrees.
  - by apply batch_agrees.
  - unfold delete, with_engine, engine. cbn [ok_or]. by apply run_st_agrees.
  - by apply search_agrees.
  - unfold search_ann, with_engine, engine. cbn [ok_or]. rewrite He. cbn [mbind Result_bind]. by apply run_agrees.
  - unfold step_session, with_engine, engine. cbn [ok_or]. by apply run_st_agrees.
  - unfold trigger_consolidation, with_engine, engine. cbn [ok_or].
    apply run_agrees. by intros [[[[] ?] ?] ?].
  - unfold flush, with_engine, engine. cbn [ok_or]. by apply run_st_agrees.
Qed.
End one_call.

(** ** After [close] *)

Fixpoint py_run (cfg : Config.StoreConfig) (calls : list (Env * PyCall)) (h : option Live)
    : option (option Live * list (Result PyErr PyValue)) :=
  match calls with
  | [] => Some (h, [])
  | (v, c) :: calls =>
      '(h, r) ← py_call cfg v c h;
      '(h, rs) ← py_run cfg calls h;
      Some (h, r :: rs)
  end.
Definition closed_answer (c : PyCall) : Result PyErr PyValue :=
  match c with PClose => Ok PyNone | PClosed => Ok (PyBool true) | _ => Err closed_error end.
Lemma closed_call cfg v c : py_call cfg v c None = Some (None, closed_answer c).
Proof. by destruct c. Qed.

Context {BMo : BincodeOk MetaRecord} {BHo : BincodeOk (list N)} {BMt : BincodeTotal MetaRecord} {BHt : BincodeTotal (list N)}
  {BWo : BincodeOk WalOp} {BWt : BincodeTagged WalOp} {TT : TextTotal}.

End methods.
