(* ===== verification/PyRun.v ===== *)
(** * A Python session

    The class over the engine and the graph of the examples: a numpy array inserted as the
    HTTP route would insert it, and a store closed and opened again. *)

From S2P Require Import Prelude Core Floats Vocabulary Metrics Record Wal VectorStore MetadataStore AccessCounters ScopeIndex PayloadIndex Segments SegmentHolder Optimizer Engine Recovery Durability CrashSafety Steady EngineTheorems SegmentSearch TopOf Search SearchTheorems Isolation Bm25 Extract Ccs Config Graph GraphTheorems Activation Retention RetentionTheorems Belief BeliefTheorems EngineGraph Consolidation ConsolidationTheorems ConsolidationRun ApiService ApiServer ApiRun PyConfig PyEngine.

Module PyWitness.
Import AsciiText GraphWitness CcsWitness.
Import EngineTheorems.Examples SegmentSearchWitness TopOfWitness SearchWitness RetentionWitness BeliefWitness ConsolidationWitness ServerWitness.
#[export] Instance pw_view : @GraphView bw_graph := @Build_GraphView bw_graph (fun x => sa_graph x).

(** Mixed case and blanks around a specifier; a width beyond a byte. *)
Lemma quantizer_specs_witness :
  PyConfig.reads (to_lowercase (trim " RaBitQ2 ")) Engine.Sign (Engine.RaBitQ 2) /\
  ~ PyConfig.reads (to_lowercase (trim "scalar256")) Engine.Sign (Engine.Scalar 256).
Proof.
  split.
  - apply (proj1 (quantizer_specs " RaBitQ2 " Engine.Sign) (Engine.RaBitQ 2)). vm_compute. reflexivity.
  - intros H. apply (proj1 (quantizer_specs "scalar256" Engine.Sign) (Engine.Scalar 256)) in H. vm_compute in H. discriminate H.
Defined.

(** Arguments out of range, and a quantizer of each form. *)
Definition pw_args : Args.Args :=
  let a := Args.default_args in {|
  Args.max_edges := None; Args.search_list_size := Some 40; Args.outlier_count := 1; Args.initial_capacity := Some 10;
  Args.warm_quantizer := Some "sign"; Args.warm_bits := Some 4; Args.cold_quantizer := Some "scalar4";
  Args.hot_capacity := None; Args.warm_capacity := None; Args.hnsw_threshold := None; Args.ef_construction := None;
  Args.level0_factor := None; Args.full_scan_threshold_kb := None; Args.max_records := None;
  Args.evict_score_floor := None; Args.dedup_cosine_threshold := None; Args.dedup_max_pairs_per_cycle := None;
  Args.auto_consolidation_secs := 0; Args.spreading_decay := None; Args.spreading_iterations := Some 0;
  Args.abstraction_co_occurrence_threshold := None; Args.edge_decay_half_life_secs := None; Args.max_concepts := None;
  Args.concept_max_ngram_len := Some 0; Args.concept_min_ngram_freq := Some 0; Args.concept_enable_pmi := None;
  Args.refinement_cosine_threshold := None; Args.refinement_max_pairs_per_cycle := None; Args.cognitive_alpha := None;
  Args.contradiction_cosine_threshold := None; Args.contradiction_text_threshold := None;
  Args.refinement_text_threshold := Some 0xBF800000; Args.contradiction_require_opposition := None;
  Args.contradiction_weaken_factor := None; Args.supersession_demotion_factor := Some 0x40400000;
  Args.contradiction_max_pairs_per_cycle := None; Args.importance_auto_scoring := None;
  Args.importance_learning_rate := None; Args.importance_access_weight := None; Args.importance_floor := None;
  Args.importance_ceiling := None; Args.concept_evolution_enabled := None; Args.concept_merge_overlap_threshold := None;
  Args.concept_hub_degree_fraction := Some 0xBF800000; Args.concept_evolution_max_pairs_per_cycle := None;
  Args.belief_source_roles := Some []; Args.defer_supersession_commit := None; Args.exclude_superseded := None;
  Args.access_aware_eviction := None; Args.actr_activation := None; Args.actr_decay := None; Args.actr_history := None;
  Args.incremental_supersession_detection := None; Args.gist_before_evict := None; Args.gist_chunk_facts := None;
  Args.seed_hops_from := None; Args.expansion_max_candidates := None; Args.concept_expansion := None;
  Args.temporal_recency_weight := None; Args.sync_writes := None; Args.gpu_exact_search := None;
  Args.gpu_exact_min_records := None; Args.gpu_memory_budget_mb := None |}.
Definition pw_config := new_config (fun x _ => x) (Some 8) 16 pw_args.
Example pw_configured :
  ((fun c => (Config.initial_capacity c, auto_consolidation_interval c, Config.warm_quantizer (tier c), Config.cold_quantizer (tier c),
              Config.supersession_demotion_factor (tier c))) <$> pw_config)
  = Ok (1024, None, Engine.Sign, Engine.Scalar 4, f32_one).
Proof. vm_compute. reflexivity. Qed.
Lemma arguments_configure_witness : match pw_config with Ok c => 1024 <= Config.initial_capacity c /\ tier_bounds (tier c) | Err _ => False end.
Proof.
  pose proof pw_configured as E.
  pose proof (proj2 (arguments_configure (fun x _ => x) (Some 8) 16) pw_args) as H. fold pw_config in H.
  destruct pw_config as [c|er]; [|discriminate E]. split; apply H.
Defined.

(** ** A session *)

(** A contiguous [float32] array. *)
Definition pw_array (l : list f32) : PyAny := {|
  as_array1 := Some (true, l); as_array2 := None; as_vec1 := None; as_vec2 := None; hasattr_tolist := Ok true;
  tolist1 := Err (value_error "not called"); tolist2 := Err (value_error "not called") |}.
Definition pw_live : Live := {|
  l_engine := bw_e2; l_compressor := det_compress; l_gist := None; l_report := default_report |}.
Definition pw_call (c : PyCall) := py_call le (fun _ _ => None) false sv_cfg sv_env c (Some pw_live).
Definition pw_insert (i : string) : PyCall :=
  PInsert i "a third memory" (pw_array [0; 0x3F800000]) f32_one ["memory"] None (Some "s") None.
Definition pw_answer (c : PyCall) : option (Result (N * string) RestResponse) :=
  '(_, r) ← pw_call c; Some (rest_answer c r).
Example pw_inserted : pw_answer (pw_insert "third") = Some (Ok (InsertResp true)).
Proof. vm_compute. reflexivity. Qed.
Example pw_refused : pw_answer (pw_insert "old") = Some (Err (400, "invalid_argument")).
Proof. vm_compute. reflexivity. Qed.
Definition pw_request (i : string) : Request (Value Num) :=
  Insert (write_input i "a third memory" [0; 0x3F800000] f32_one ["memory"] None (Some "s") None).
Definition pw_route (i : string) :=
  '(e, r) ← rest_route le sv_cfg (env_of sv_env pw_live) (pw_request i) bw_e2; Some (e, map_err status_and_code r).
Lemma python_agrees_witness : forall i,
  pw_route i = ('(h, r) ← pw_call (pw_insert i); e ← l_engine <$> h; Some (e, rest_answer (pw_insert i) r)).
Proof.
  intros i. refine (python_agrees le (fun _ _ => None) false sv_cfg sv_env (pw_insert i) (pw_request i) pw_live _).
  apply (same_insert i "a third memory" (pw_array [0; 0x3F800000]) (View1 [0; 0x3F800000])); reflexivity.
Defined.

End PyWitness.
